(* ===== verification/_CoqProject ===== *)
-Q . S2P
Prelude.v
Json.v
DisplayLine.v
ToolEvents.v
Sanitize.v
ToolRepeat.v
LoginThrottle.v
TaskStore.v
BackgroundTasks.v
TaskWait.v
Messages.v
Context.v
TurnRecord.v
NegativeMemory.v
Titles.v
ToolRouting.v
ToolAdvertising.v
VerbatimWindow.v
ToolProvenance.v
Transcript.v
TurnCapture.v
Eviction.v
TurnIndex.v
Planning.v
PlanNotes.v
StepControl.v
ToolDispatch.v
TurnLoop.v
ErrorClassify.v
LlmClient.v
ClientTools.v
FrameCodec.v
ParentWake.v
SubagentTools.v
ConversationSubs.v
Inflight.v
Authz.v
Tokens.v
Dispatch.v
UrlPolicy.v
OAuth.v
Connections.v
Purposes.v
ConfigService.v
TurnRouting.v
Skills.v
SkillCatalog.v
SkillPromotion.v
McpWire.v
McpConfig.v
McpExecutor.v
McpConcurrency.v
PromptText.v
Prompt.v
ToolNames.v
ConversationTables.v
ConversationStores.v
ConversationAdapters.v
ConversationService.v
ConversationFile.v
StateStores.v
