(* ===== verification/Prelude.v ===== *)
(** * Adelie desktop assistant: a verification library

    The program is a personal-assistant daemon in Rust.  Clients reach it over
    WebSocket, a Unix socket or D-Bus; the application crate turns their commands
    into conversation turns and background tasks; the core crate runs the turn,
    a loop of model calls and tool calls over a stored conversation; storage
    crates persist it.  This library models the parts that carry the program's
    own logic and state, and proves what makes each of them correct.

    ** The parts, their files and their sources

    - This file: machine-width arithmetic, byte strings with UTF-8 boundaries,
      positions and stable sorts of lists, reachability, tactics and the hint
      database [adele].
    - [Json], [DisplayLine]: JSON values as [serde_json] presents them, and the
      one-line form of text shown to people (crates/protocol/src/lib.rs,
      crates/core/src/tools.rs).
    - [ToolEvents], [Sanitize]: what leaves the process as text: the arguments in
      the activity feed, thinking blocks taken out of replies and streams,
      redacted credentials (crates/core/src/tools.rs, sanitize.rs).
    - [ToolRepeat]: the ledger that answers a repeated tool call from the
      transcript (crates/core/src/tool_repeat.rs and its call sites in
      service.rs).
    - [LoginThrottle]: lockout of failed logins by account and by source address
      (crates/ws-interface/src/login_throttle.rs).
    - [TaskStore]: the durable rows of background tasks, the port as a type class
      with laws, and its SQLite adapter as an instance that is proved to satisfy
      them (crates/core/src/ports/store.rs,
      crates/storage-sqlite/src/background_tasks.rs).
    - [BackgroundTasks]: the process-wide task registry: spawn, cancel, logs,
      finalization, the cold-restart sweep, broadcasts, the subagent observer
      (crates/application/src/background_tasks.rs), over any store that satisfies
      the port's laws.
    - [TaskWait]: waiting for a task, as an interleaving of waiters with
      finalization (the same source, [wait] and [finalize]).
    - [Messages]: messages, conversations and the per-turn projection of what the
      model reads (crates/core/src/domain/, core/src/context/projection.rs).
    - [Context]: caps on tool results, the message window, the rolling summary,
      overflow recovery and the pre-flight shrink loop
      (crates/core/src/context/mod.rs).
    - [Titles]: the bound on conversation titles
      (crates/core/src/domain/conversation.rs).
    - [ToolRouting]: the one table that says which tools a round advertises and
      where a call goes (crates/core/src/tool_routing.rs).
    - [ToolAdvertising]: the bounded ledger of tools a turn activated
      (crates/core/src/tool_advertising.rs).
    - [VerbatimWindow]: the part of the transcript that fits a token target
      (crates/core/src/verbatim_window.rs).
    - [ToolProvenance]: the table of tool classes, the provenance of a result and
      the gate a turn closes after it read outside content
      (crates/core/src/tool_provenance.rs and its call sites in service.rs).
    - [Transcript]: reading stored messages back, in pages
      (crates/core/src/ports/transcript.rs).
    - [Eviction]: replacing tool results by pointers, within a turn and across
      turns (crates/core/src/eviction_class.rs, planning.rs).
    - [TurnIndex]: the listing of a conversation's earlier turns
      (crates/core/src/turn_index.rs).
    - [Planning], [PlanNotes], [StepControl]: the stack of steps and the plan
      tree; the scratchpad index, pinned notes and working state; and the two
      step tools (crates/core/src/planning.rs, [handle_step_control] and
      [build_step_stack] of service.rs).
    - [NegativeMemory]: lessons from calls that went badly: when one fires, fades,
      widens, and what is said of it (crates/core/src/domain/negative_memory.rs,
      [record_burn_for] of service.rs).
    - [TurnRecord]: what a turn leaves in the log: placeholders for calls that
      never ran, notices, how an ending is recognised (service.rs,
      turn_capture.rs).
    - [TurnCapture]: the digest of a finished turn that later turns are shown
      (crates/core/src/turn_capture.rs).
    - [ToolDispatch]: one tool call of a turn, through every guard to its row
      (the tool loop of [run_turn] in service.rs), on top of [ToolRouting],
      [ToolProvenance], [NegativeMemory], [ToolRepeat], [ToolAdvertising],
      [StepControl], [Transcript] and [Context].
    - [TurnLoop]: a whole turn, from the prompt to the stored answer ([run_turn]),
      on top of [ToolDispatch].
    - [ErrorClassify]: what an error of a model call means, and the windows learned
      from overflows (crates/core/src/error_classify.rs, context_window.rs,
      crates/daemon/src/config/resolution.rs, the SQLite adapter of observations).
    - [LlmClient]: the stack of clients a completion goes through: retries, hosted
      tool search, the assembly of streamed calls, classification
      (crates/core/src/ports/llm.rs, crates/daemon/src/classifying_llm.rs, the
      SQLite adapter of classifications), over [ErrorClassify].
    - [ClientTools]: registration of client-side tools and the suspension of a
      turn on one (crates/application/src/client_tools.rs).
    - [FrameCodec]: the framing of every local transport
      (crates/frame-codec/src/lib.rs).
    - [ParentWake]: waking a parent conversation when detached subagents finish
      (crates/application/src/parent_wake.rs).
    - [SubagentTools]: the tools that spawn subagents and read their status, the
      end of a child's run, the depth limit
      (crates/application/src/subagent_tools.rs, subagent_executor.rs,
      [spawn_agent_conversation] of lib.rs), over [BackgroundTasks].
    - [ConversationSubs]: fan-out of a turn's events to the other connections
      viewing the conversation (crates/application/src/conversation_subs.rs).
    - [Inflight]: idempotent sends, re-attaching to a live turn
      (crates/application/src/inflight.rs and [start_send_message] of
      crates/application/src/lib.rs).
    - [Authz]: who a connection is, what it may do and what each command costs
      (crates/transport-dispatch/src/authz.rs, crates/daemon/src/transports.rs).
    - [Tokens]: the tokens of the door: the signing key and its file, issuing,
      validating, revoking (crates/auth-jwt/src/lib.rs,
      crates/daemon/src/config/jwt.rs).
    - [Dispatch]: the loop that serves one connection, with its one authorization
      gate (crates/transport-dispatch/src/lib.rs, errors.rs), over any handler and
      over the registry of [ConversationSubs]; the turns it spawns run at any
      later point, also after it.
    - [UrlPolicy]: the addresses a remote URL may name
      (crates/mcp-client/src/url_policy.rs).
    - [OAuth]: the access tokens of a remote server: expiry, refreshes, the store
      they are cached in, and the checks of the interactive login
      (crates/mcp-client/src/oauth.rs), over [UrlPolicy].
    - [McpWire]: the client of one MCP server: the child it spawns and the
      environment it gives it, the handshake, requests over pipes and over HTTP,
      what a failure quotes (crates/mcp-client/src/lib.rs, jsonrpc.rs), over
      [OAuth] and [UrlPolicy].
    - [McpConfig], [McpExecutor], [McpConcurrency]: the configured servers of
      tools, their files, credentials and environment; the executor that keeps a
      client of each, routes tool calls to them and is controlled while it runs;
      and its operations cut at their locks and interleaved
      (crates/mcp-client/src/config.rs, executor.rs), over [McpWire] and [OAuth].
    - [Connections], [Purposes], [ConfigService]: the configured connections, the
      purposes that refer to them, and the service that edits both, guards the
      file they are kept in and reloads it (crates/daemon/src/connections.rs,
      purposes.rs, api_surface.rs, config/mod.rs), over [UrlPolicy].
    - [TurnRouting]: which model a turn gets, and how the choice reaches a connector
      (crates/daemon/src/api_surface.rs, routing_llm.rs, backend_reasoning.rs), over
      [ConfigService], [ErrorClassify] and [LlmClient].
    - [Skills], [SkillCatalog], [SkillPromotion]: skills on disk, their parsing,
      hash and scan; the catalog they are kept in, as a port with laws and its
      SQLite adapter, and the pass that reconciles a scan with it; and the
      promotion of a finished plan to a skill (crates/core/src/domain/skill.rs,
      skill_catalog.rs, skill_promotion.rs, ports/skill_index/,
      crates/daemon/src/skill_scanner.rs,
      crates/storage-sqlite/src/skill_index.rs and [handle_promote_plan] of
      service.rs), over [Planning] and [ToolProvenance].
    - [PromptText], [Prompt]: the system instruction, its sections, the tool notes
      and their demotion; and the assembly of a whole prompt around the window,
      with the attribution of its cost (crates/core/src/prompts/mod.rs,
      context/mod.rs, telemetry/prompt.rs), over [Context], [TurnIndex],
      [PlanNotes], [Sanitize] and [TurnRouting].
    - [ToolNames]: the names under which Bedrock is shown the tools
      (crates/llm-bedrock/src/tool_names.rs).
    - [ConversationTables], [ConversationStores], [ConversationAdapters]: the
      relational store of conversations: its tables, statements, transactions and
      operations over what differs between the databases; what a save does to the
      rows; and the PostgreSQL and SQLite adapters with what they promise
      (crates/storage/src/conversation.rs,
      crates/storage-sqlite/src/conversation.rs), over [Messages].
    - [ConversationService]: what a client does with conversations besides taking
      turns (create, list, rename, archive, delete and clear in service.rs), over
      the port of the store and over [ConversationAdapters].
    - [ConversationFile]: the store of a daemon without a database
      (crates/daemon/src/store.rs), over [Messages].
    - [StateStores]: the turn rows and the recorded replies in SQL
      (crates/storage/src/turn_state.rs, idempotency_keys.rs and their SQLite
      mirrors), over [ClientTools].

    ** How state and effects are represented

    A struct is a record and an operation a function from the state before to
    the state after with its result.  A [Result] is the type [result] of
    [TaskStore], an [Option] an option.  A hash map is a [gmap]; where the
    program iterates one, the order is a parameter or the theorem does not
    depend on it.  Integers that saturate do so at their width.  A string is its
    bytes.  Concurrency is explicit: each critical section of a mutex, each
    store call, each wake-up is one step of a step function or relation, and the
    theorems quantify over all sequences of steps.  What the program calls but
    does not contain is a parameter: SHA-256, JSON, YAML, tokio's broadcast and notify,
    the model and its token estimator, the databases behind the adapters' statements,
    URL parsing, token verification, the handler behind the dispatcher.  A turn
    threads an arbitrary world through records of ports: every call may change
    the world and the world decides the answers, so its theorems hold for every
    model, tool, store and user; what others see of it is a trace.

    ** What the theorems show

    - Isolation and authority: a user's tasks, events, client-tool answers and
      fan-out are the user's own, and what others do changes no listing but the
      order of tasks that started at the same moment ([users_are_isolated],
      [events_reach_only_their_user], [answers_are_authentic],
      [registrations_are_per_connection], [fan_out_is_exact]); a tool cannot name
      itself out of its location's root ([roots_cannot_be_escaped]); nobody can
      shut another address's caller out and a lockout holds
      ([owner_is_never_shut_out], [lockout_holds]); administrators are attested
      or listed, the handler runs only what a connection may run, in its own
      scope, and a refused command has no effect
      ([administrators_are_attested_or_listed], [commands_run_only_as_permitted],
      [refused_commands_have_no_effect]); a turn that read outside content, under
      names the class table knows, loses exactly the tools its policy gates
      ([gate_is_exact]); a URL gets the verdict
      of the policy however its address is spelled
      ([url_verdict_is_the_policy], [spelling_never_changes_the_verdict]); a
      revoked token stays refused until it expires and an issued one names its
      owner ([revoked_token_stays_refused], [issued_token_names_its_owner]); a
      provider of access tokens holds and sends the refresh token in force while
      it runs, hands out a token
      that is valid or was just minted, and a login exchanges only the code of its
      own request ([a_refresh_token_is_never_lost],
      [a_token_is_valid_or_just_minted], [a_login_answers_its_own_request]); a
      credential is posted only to its own server and at most twice, and a spawned
      server sees only the variables it was given
      ([a_credential_goes_only_to_its_server],
      [a_child_sees_only_what_it_is_given]); the
      transcript is read back by its own user, byte for byte
      ([read_back_is_scoped_and_exact], [paging_reads_everything]).
    - The turn: whatever happens outside, each stored transcript answers every
      tool call in place and extends the one it was loaded from, a turn that
      answers has stored its answer and fails only when cancelled or refused by
      the store, and it asks the model boundedly often
      ([a_turn_stores_only_acceptable_logs], [a_turn_ends_in_what_it_stored],
      [a_turn_asks_boundedly]); a tool runs exactly when it is past every guard,
      an outside read closes the gate for the rest of the turn, the activity feed
      is always paired
      ([only_cleared_calls_run], [an_outside_read_closes_the_turn],
      [the_feed_never_strands_a_call], [a_round_keeps_the_log_paired]); failed
      turns are recognised as such ([failures_are_recognised]); a lesson is about
      one act and its warning carries no withheld words
      ([a_lesson_is_about_one_act], [withheld_warning_carries_no_outside_words]);
      a digest shows unasked only the user's own words
      ([only_the_users_words_are_shown], [a_withheld_digest_tells_nothing]).
    - Model calls: what a retrying client hands on is one completion of the client
      inside, a completion costs boundedly many calls, an account out of credit is
      asked once, a novel error is asked about once, streamed calls are assembled
      apart ([a_stream_is_never_replayed], [a_completion_costs_boundedly],
      [an_empty_account_is_asked_once], [an_error_is_asked_about_once],
      [calls_are_assembled_apart]); the table of learned windows is its history and
      a learned budget stays between what was accepted and what was configured
      ([the_table_is_its_history], [a_learned_budget_is_bracketed]).
    - Configuration and routing: the running configuration keeps loading, a change
      is whole or nothing, a file that does not load is kept, a client reaches no
      foreign credential but the key variable a connection keeps when it changes
      connectors ([the_running_configuration_stays_loadable],
      [a_change_is_whole_or_nothing], [a_file_that_does_not_load_is_kept],
      [a_client_reaches_no_foreign_credential],
      [an_update_keeps_the_credential_of_its_connector]); a purpose resolves to its
      connection or the interactive one ([a_purpose_resolves_or_the_primary_dangles]);
      a turn runs on what it resolved, whichever way its tools are offered, a pick is kept while it lives, a dead pick is
      refused and a dead default is not, a background task follows its purpose
      ([a_turn_runs_on_what_it_resolved], [a_pick_is_kept_while_it_lives],
      [a_dead_pick_is_refused_and_a_dead_default_is_not],
      [a_background_task_follows_its_purpose]).
    - Subagents: the registered nesting is bounded by the tool's check, a spawn is whole or nothing, a child's
      answer taints its reader and a detached one is collected
      ([live_nesting_is_bounded], [a_spawn_is_whole_or_nothing],
      [a_childs_answer_taints_its_reader], [a_detached_answer_is_collected]).
    - Skills: a scan names each skill once, its hash pins every file, a reconcile
      pass forgets nothing, can be retried and is idle the second time, only a
      person approves, and the assistant writes only its own drafts, from a plan
      of its own turn that cleared the bar, in a document that parses back
      ([a_scan_is_unambiguous], [the_hash_pins_every_file],
      [a_scan_forgets_nothing], [a_pass_can_be_retried], [a_second_pass_is_idle],
      [only_a_person_approves], [the_assistant_writes_only_its_own_drafts],
      [the_plan_is_the_turns], [the_bar_is_the_rule],
      [a_rendered_skill_parses_back], [a_quoted_value_reads_back]).
    - What leaves as text: a stream shows the reply however it is cut, no word
      of redacted text is a credential, no named secret reaches the feed
      ([stream_shows_the_reply], [redaction_leaves_no_credential],
      [named_secrets_never_reach_the_feed]).
    - Servers of tools: a late reply is never taken for another request's, lines
      and events are read as sent, a connected client has agreed on a revision, and
      what a failure quotes is what the server wrote last
      ([a_late_reply_is_never_mistaken], [a_line_is_read_whole_or_refused],
      [events_are_read_as_sent], [a_connected_client_has_agreed],
      [the_tail_is_the_last_words]); whatever is started, stopped or replaced
      while a call is on its way, it reaches the server its name spells, and alone
      an enabled one; a disabled server is out of reach, the namespaces are the tools, a server is dialled with its own
      secrets and no others, the status is true and tells no secret
      ([a_call_reaches_the_server_it_names],
      [a_call_alone_reaches_an_enabled_server], [a_disabled_server_is_out_of_reach],
      [namespaces_partition_the_tools], [a_server_gets_only_its_own_secrets],
      [a_childs_environment_is_its_configuration], [the_status_tells_the_truth],
      [a_status_tells_no_secret], [names_stay_unique]); saving one part of a file
      keeps the rest and a file that does not parse is kept
      ([a_save_keeps_the_rest], [an_unreadable_file_is_not_overwritten],
      [accounts_are_accepted_by_the_rule]).
    - Exactly once: retries of a send do not run the turn again
      ([retries_do_not_run_twice]); a detached child wakes its parent once
      ([every_detached_child_wakes_its_parent_once]); log pages and re-attached
      streams miss and repeat nothing they promise ([log_pages_are_complete],
      [reattach_partitions_the_stream]); a frame is read as written or not at all
      ([reader_gets_what_the_writer_sent]); a tool's provider name leads back to
      the tool ([tool_names_round_trip]).
    - Storage: a save commits exactly where no message id is taken elsewhere and
      every linked summary is stored, and a saved or new conversation is read
      back, whatever was moved, dropped or added, another user's work is invisible, the list counts what is
      read, a refused operation changes nothing, a deleted conversation leaves
      nothing, a rename changes the title alone, the list is filtered and ordered,
      clearing deletes what is listed ([a_save_is_read_back], [a_new_conversation_is_read_back],
      [another_users_work_is_invisible], [the_list_counts_what_is_read],
      [a_refused_operation_changes_nothing],
      [a_deleted_conversation_leaves_nothing], [the_first_archiving_stands],
      [expanding_frees_what_was_collapsed], [a_rename_changes_only_the_title],
      [the_list_is_filtered_and_ordered], [clearing_deletes_what_is_listed]); the file of the store without a
      database is always whole and an accepted change survives a restart
      ([the_file_is_always_whole], [an_accepted_change_survives_a_restart]); turn
      rows and recorded replies are their owner's ([a_turn_is_read_back],
      [an_update_is_the_owners], [a_recorded_reply_is_found]).
    - Life cycles: terminal task states are final, finalization does all of its
      work, a finished task can be read back, a restart settles leftovers, a
      waiter returns exactly when its task finished, a suspension always ends and
      leaves nothing behind.
    - The model's view: the window never opens on an orphaned tool result, the
      summary marker never passes a message no summary carried, recovery reports
      real progress, projections and caps only shorten and say by how much, a
      suppressed tool call is one whose result has not changed and no call stays
      suppressed, the routing table resolves exactly what it advertises, the
      activated tools stay bounded, and the verbatim window is the longest that
      fits.
    - The prompt: the goal of a turn stays in view, the history is the window and
      nothing else, a dropped turn is announced, the breakdown is the prompt and
      within the budget or the window at its floor, memory is offered once,
      demotion spares everything but the listing, what a client reports stays on
      its line ([the_goal_stays_in_view], [the_history_is_the_window],
      [a_dropped_turn_is_announced], [the_breakdown_is_the_prompt],
      [memory_is_offered_once], [demotion_spares_the_rest],
      [reported_values_stay_on_their_line], [a_stored_breakdown_reads_back],
      [the_peak_is_one_round]).
    - The plan: step keys are never reused and spell the tree of steps, the plan
      shows where the model is, pinned notes are shown, counted or named, an
      eviction is recorded only with a written trace, accounts for its bytes,
      keeps what was recalled and is shown again as the step left it.
    - Bounds and termination: memory of the throttle, length of refusals, title
      and result sizes, the iterations of the shrink loop.

    Lemmas that exhibit behaviour a comment or a doc does not describe are stated
    beside the component they concern: [returned_cursor_skips_a_line],
    [sweep_loses_a_nested_link], [search_misses_a_prefix_that_fits],
    [early_answer_is_refused], [mixed_batch_claims_all_finished],
    [racing_sends_run_twice], [loser_runs_without_a_slot],
    [user_message_keeps_its_request_id], [rooted_page_is_missed],
    [rooted_recall_is_mechanism], [capped_listing_reuses_a_key],
    [orphaned_substep_key_is_reused], [pinned_block_overruns],
    [legacy_send_carries_its_request_id], [rooted_page_reads_back_unmarked],
    [boundary_check_misses_an_edit], [racing_processes_get_two_keys],
    [revoked_token_returns_in_the_leeway], [torn_write_forgets_revocations],
    [order_decides_who_is_renamed], [stream_and_reference_differ],
    [a_stamp_ahead_wakes_up], [other_arguments_are_printed_whole],
    [a_refused_call_counts_as_run], [a_request_id_is_read_as_a_window],
    [a_connection_named_primary_is_out_of_reach],
    [a_migrated_bedrock_loses_its_credential],
    [a_stranding_delete_closes_the_file], [a_forced_delete_mixes_inheritance],
    [an_edit_not_taken_over_is_lost], [a_refused_credential_is_stored],
    [a_key_variable_follows_a_switch],
    [a_connectors_own_key_follows_a_switch], [a_budget_is_not_the_pinned_models],
    [the_interactive_size_follows_every_pick],
    [a_dead_voice_purpose_stops_the_turn],
    [a_fallen_turn_is_capped_by_another_model],
    [a_connectors_estimate_is_not_asked], [an_ended_parent_is_not_counted],
    [a_detached_child_outlives_a_cancelled_parent], [a_model_alone_is_ignored],
    [an_empty_allowlist_allows_everything],
    [an_empty_owner_decides_for_the_host], [the_listing_is_not_newest_first],
    [a_failed_search_still_offers], [a_label_opens_a_section],
    [a_rotated_token_is_lost_at_restart], [a_long_lifetime_panics],
    [ipv6_loopback_is_refused], [crlf_events_run_together],
    [a_listing_forgets_what_it_heard], [seeding_drops_the_accounts],
    [a_failed_write_loses_the_secrets],
    [a_call_during_a_removal_reaches_a_neighbour],
    [a_start_can_revive_a_disabled_server], [a_shared_name_mixes_two_servers],
    [a_refused_server_stays], [an_error_outlives_its_server],
    [an_accounts_sign_in_is_not_noticed], [a_changed_key_is_not_saved],
    [a_summary_tells_a_strangers_conversation],
    [an_expanded_summary_blocks_the_save], [sqlite_lists_private_conversations],
    [a_refused_conversation_stays],
    [the_file_store_lists_private_conversations],
    [clearing_keeps_private_transcripts], [the_sweep_stops_at_a_users_turn].

    ** Bounds and fuel

    Fuel appears where the recursion is not structural: the title search (the
    byte length bounds its iterations, each of which narrows the interval),
    grouping tool results (one unit per message), reading a stream of frames
    (one unit per frame and one for its end), trimming strings, taking out
    thinking blocks and collapsing gaps (one unit per byte), placing
    placeholders (one unit per message), and the walk up a task's parents (the
    source's own limit of nine hops).  In each case the bound passed is proved or is evidently never
    exhausted, and the theorems about these functions are about the value they
    return.  The shrink loop's five iterations and the two hundred rounds of a
    turn are the source's own bounds.  [NegativeMemory] compares strengths through
    the ages they decay with; one lemma relates the two over the real numbers of
    the Standard Library and so uses their axioms.

    ** What is not modelled

    The wording of the static prompt sections, recall and knowledge ranking
    (floating point), the recorder of turns, the lock between turns of a conversation, the wire formats
    of the model connectors, the built-in tools, the sections of
    the configuration other than connections and purposes, the PostgreSQL tables other
    than conversations, turns and recorded replies, socket and bus input and output, telemetry and process start-up.  A
    turn of [TurnLoop] takes the assembled prompt as a port; [Prompt] models the
    assembly itself.  The text of
    the configuration file is not: a file holds the configuration that was
    written to it.  A session of [McpWire] is a sequence of read events; the bytes
    behind one line are [a_line_is_read_whole_or_refused]'s, and what a cancelled
    or overlong read leaves behind is one more event.  A task that is
    aborted from outside (a dropped future) is not a step; cancellation is the
    token, as in the program.

    ** Plan

    What would follow, in this order: the pass of [Prompt] in place of the port
    [TurnLoop] takes; the conversion of messages in the connectors; the command
    handler of the application crate over the modelled components. *)

From stdpp Require Export base tactics gmap strings list numbers sorting relations.
From stdpp Require Export pretty.
From Stdlib Require Export ZArith Lia.

(** ** Notations *)

Declare Scope adele_scope.
Delimit Scope adele_scope with adele.

(** ** Machine-width integers

    Counters of the program are fixed-width; lengths of in-memory vectors are
    [nat].  A w-bit unsigned value is a [Z] in [0, 2^w). *)

Definition u32_max : Z := 4294967295.
Definition u64_max : Z := 18446744073709551615.
Definition i32_max : Z := 2147483647.

Definition sat_add (max a b : Z) : Z := Z.min max (a + b).
Definition sat_mul (max a b : Z) : Z := Z.min max (a * b).
Definition sat_sub (a b : Z) : Z := Z.max 0 (a - b).

Lemma sat_add_bounds max a b :
  (0 ≤ a → 0 ≤ b → 0 ≤ max → 0 ≤ sat_add max a b ≤ max)%Z.
Proof. unfold sat_add. lia. Qed.

Lemma sat_add_mono max a b : (0 ≤ b → a ≤ max → a ≤ sat_add max a b)%Z.
Proof. unfold sat_add. lia. Qed.

#[local] Open Scope Z_scope.

(** Disjoint bits: [or]-ing in a shifted value adds it. *)
Lemma lor_shiftl a c k : 0 ≤ k → 0 ≤ a < 2 ^ k → Z.lor a (Z.shiftl c k) = a + 2 ^ k * c.
Proof.
  intros Hk Ha. rewrite Z.shiftl_mul_pow2, (Z.mul_comm (2 ^ k)) by lia.
  pose proof (Z.add_lor_land a (c * 2 ^ k)) as E.
  assert (Z.land a (c * 2 ^ k) = 0) as E0; [|rewrite E0, Z.add_0_r in E; exact E].
  destruct (Z.eq_dec a 0) as [->|Hnz]; [apply Z.land_0_l|].
  apply Z.bits_inj'. intros n Hn. rewrite Z.land_spec, Z.bits_0.
  destruct (Z.lt_ge_cases n k).
  - rewrite (Z.mul_pow2_bits_low c k n) by lia. by rewrite andb_false_r.
  - rewrite (Z.bits_above_log2 a n); [done|lia|].
    apply Z.log2_lt_pow2; [lia|].
    pose proof (Z.pow_le_mono_r 2 k n). lia.
Qed.

(** A mask of high bits rounds down. *)
Lemma land_mask n w k : 0 ≤ k ≤ w → 0 ≤ n < 2 ^ w → Z.land n (2 ^ w - 2 ^ k) = n / 2 ^ k * 2 ^ k.
Proof.
  intros Hk Hn. replace (2 ^ w - 2 ^ k) with (Z.shiftl (Z.ones (w - k)) k).
  2:{ rewrite Z.shiftl_mul_pow2, Z.ones_equiv, <- Z.sub_1_r, Z.mul_sub_distr_r by lia. rewrite <- Z.pow_add_r by lia.
      replace (w - k + k) with w by lia. lia. }
  rewrite <- Z.shiftr_div_pow2, <- Z.shiftl_mul_pow2 by lia. apply Z.bits_inj'. intros i Hi.
  rewrite Z.land_spec, !Z.shiftl_spec by lia. destruct (decide (i < k)).
  - rewrite !(Z.testbit_neg_r _ (i - k)) by lia. apply andb_false_r.
  - rewrite Z.shiftr_spec by lia. replace (i - k + k) with i by lia. destruct (decide (i < w)).
    + rewrite Z.ones_spec_low by lia. apply andb_true_r.
    + assert (Hhigh : Z.testbit n i = false); [|by rewrite Hhigh].
      rewrite <- (Z.mod_small n (2 ^ w)) by lia. apply Z.mod_pow2_bits_high. lia.
Qed.

#[local] Close Scope Z_scope.

(** ** Text

    A Rust [str] is the [string] of its UTF-8 bytes, so [String.length] is
    [str::len].  [dq] is the double-quote byte of the source's format strings. *)

Definition dq : string := String (Ascii.ascii_of_nat 34) EmptyString.

Definition slen (s : string) : Z := Z.of_nat (String.length s).

Lemma string_length_app (s t : string) :
  String.length (s +:+ t) = (String.length s + String.length t)%nat.
Proof. induction s as [|a s IH]; [done|]. change (S (String.length (s +:+ t)) = S (String.length s) + String.length t)%nat. lia. Qed.

Lemma slen_app s t : slen (s +:+ t) = (slen s + slen t)%Z.
Proof. unfold slen. rewrite string_length_app. lia. Qed.

Lemma slen_nonneg s : (0 ≤ slen s)%Z.
Proof. unfold slen. lia. Qed.

Lemma string_app_assoc (s t u : string) : (s +:+ t) +:+ u = s +:+ (t +:+ u).
Proof. induction s as [|a s IH]; [done|]. exact (f_equal (String a) IH). Qed.

Lemma string_app_nil_r (s : string) : s +:+ EmptyString = s.
Proof. induction s as [|a s IH]; [done|]. exact (f_equal (String a) IH). Qed.

Lemma string_app_cons a (s t : string) : String a s +:+ t = String a (s +:+ t).
Proof. done. Qed.

(** [str::starts_with]. *)
Definition starts_with (s p : string) : bool := String.prefix p s.

Lemma starts_with_app s p : starts_with s p = true ↔ ∃ r, s = p +:+ r.
Proof.
  unfold starts_with. revert s. induction p as [|a p IH]; intros s; simpl.
  - split; [intros _; by exists s|by destruct s].
  - destruct s as [|b s]; [split; [done|by intros [r [=]]]|].
    cbn [String.prefix]. destruct (Ascii.ascii_dec a b) as [->|Hne].
    + rewrite IH. split; intros [r Hr]; exists r; [by rewrite Hr|by injection Hr].
    + split; [done|]. intros [r [= Hb _]]. congruence.
Qed.

Lemma string_get_app p r : String.get (String.length p) (p +:+ r) = String.get 0 r.
Proof. by induction p. Qed.

(** UTF-8.  A byte is a continuation byte when its code is in [128, 192); a
    character starts at every other byte.  [is_char_boundary s i] is
    [str::is_char_boundary]; [take_chars n s] is [s.chars().take(n).collect()]
    on well-formed UTF-8. *)

Definition is_cont (a : Ascii.ascii) : bool :=
  let n := Ascii.nat_of_ascii a in (128 <=? n)%nat && (n <? 192)%nat.

Fixpoint take_chars (n : nat) (s : string) : string :=
  match s with
  | EmptyString => EmptyString
  | String a s' =>
      if is_cont a then String a (take_chars n s')
      else match n with O => EmptyString | S n' => String a (take_chars n' s') end
  end.

Definition is_char_boundary (s : string) (i : nat) : bool :=
  match i with
  | O => true
  | _ =>
      match String.get i s with
      | Some a => negb (is_cont a)
      | None => (i =? String.length s)%nat
      end
  end.

(** The loop [while cut > 0 && !s.is_char_boundary(cut) { cut -= 1; }]. *)
Fixpoint floor_boundary (s : string) (cut : nat) : nat :=
  match cut with
  | O => O
  | S c => if is_char_boundary s cut then cut else floor_boundary s c
  end.

Lemma floor_boundary_le s cut : (floor_boundary s cut ≤ cut)%nat.
Proof. induction cut as [|c IH]; simpl; [done|]. case_match; lia. Qed.

Lemma floor_boundary_is_boundary s cut : is_char_boundary s (floor_boundary s cut) = true.
Proof. induction cut as [|c IH]; [done|]. cbn [floor_boundary]. by case_match. Qed.

Lemma floor_boundary_greatest s cut i :
  (i ≤ cut)%nat → is_char_boundary s i = true → (i ≤ floor_boundary s cut)%nat.
Proof.
  induction cut as [|c IH]; intros Hi Hb; [lia|]. cbn [floor_boundary].
  destruct (is_char_boundary s (S c)) eqn:E; [lia|].
  destruct (decide (i = S c)) as [->|]; [congruence|]. apply IH; [lia|done].
Qed.

(** [&s[..n]] for an [n] on a boundary. *)
Definition str_prefix (n : nat) (s : string) : string := String.substring 0 n s.

Lemma str_prefix_length n s : (n ≤ String.length s)%nat → String.length (str_prefix n s) = n.
Proof.
  unfold str_prefix. revert n. induction s as [|a s IH]; intros [|n] Hn; simpl in *; try lia.
  rewrite IH by lia. done.
Qed.

Lemma str_prefix_app s t : str_prefix (String.length s) (s +:+ t) = s.
Proof. unfold str_prefix. induction s as [|a s IH]; [by destruct t|]. simpl. f_equal. exact IH. Qed.

Lemma str_prefix_all s : str_prefix (String.length s) s = s.
Proof. unfold str_prefix. induction s as [|a s IH]; simpl; [done|]. by rewrite IH. Qed.

Lemma str_prefix_prefix n s : String.prefix (str_prefix n s) s = true.
Proof.
  unfold str_prefix. revert n. induction s as [|a s IH]; intros [|n]; simpl; try done.
  destruct (Ascii.ascii_dec a a); [apply IH|done].
Qed.

(** [str::trim]: the encodings of the characters with the [White_Space]
    property are dropped from both ends. *)
Definition bytes (l : list nat) : string := foldr (λ n s, String (Ascii.ascii_of_nat n) s) EmptyString l.

Definition white_space : list (list nat) :=
  [[9]; [10]; [11]; [12]; [13]; [32]; [194; 133]; [194; 160]; [225; 154; 128]]
  ++ map (λ k, [226; 128; k]) [128; 129; 130; 131; 132; 133; 134; 135; 136; 137; 138; 168; 169; 175]
  ++ [[226; 129; 159]; [227; 128; 128]].

Fixpoint drop_bytes (n : nat) (s : string) : string :=
  match n, s with
  | O, _ => s
  | S n', String _ s' => drop_bytes n' s'
  | S _, EmptyString => EmptyString
  end.

(** Drop leading members of [ws]; the fuel is the length, each turn drops a byte
    at least. *)
Fixpoint trim_with (ws : list (list nat)) (fuel : nat) (s : string) : string :=
  match fuel with
  | O => s
  | S f =>
      match List.find (λ w, starts_with s (bytes w)) ws with
      | Some w => trim_with ws f (drop_bytes (length w) s)
      | None => s
      end
  end.

Definition string_rev (s : string) : string :=
  String.string_of_list_ascii (rev (String.list_ascii_of_string s)).

Lemma list_ascii_app s t :
  String.list_ascii_of_string (s +:+ t) = String.list_ascii_of_string s ++ String.list_ascii_of_string t.
Proof. induction s as [|a s IH]; [done|]. simpl. by rewrite <- IH. Qed.

Lemma string_of_list_app l k : String.string_of_list_ascii (l ++ k) = String.string_of_list_ascii l +:+ String.string_of_list_ascii k.
Proof. induction l as [|a l IH]; [done|]. simpl. by rewrite IH. Qed.

Lemma string_rev_app s t : string_rev (s +:+ t) = string_rev t +:+ string_rev s.
Proof. unfold string_rev. by rewrite list_ascii_app, rev_app_distr, string_of_list_app. Qed.

Lemma string_rev_rev s : string_rev (string_rev s) = s.
Proof.
  unfold string_rev. rewrite String.list_ascii_of_string_of_list_ascii, rev_involutive.
  apply String.string_of_list_ascii_of_string.
Qed.

Lemma string_rev_length s : String.length (string_rev s) = String.length s.
Proof.
  unfold string_rev. assert (Hl : ∀ l, String.length (String.string_of_list_ascii l) = length l) by (induction l as [|a l IH]; simpl; [|rewrite IH]; done).
  rewrite Hl, rev_length. rewrite <- Hl, String.string_of_list_ascii_of_string. done.
Qed.

Definition trim (s : string) : string :=
  let s := trim_with white_space (String.length s) s in
  string_rev (trim_with (map (@rev nat) white_space) (String.length s) (string_rev s)).

(** [str::contains] and [str::rsplit_once]: the last occurrence of [sep]. *)
Fixpoint contains_str (s p : string) : bool :=
  starts_with s p || match s with EmptyString => false | String _ s' => contains_str s' p end.

Fixpoint rsplit_once (s sep : string) : option (string * string) :=
  match s with
  | EmptyString => None
  | String a s' =>
      match rsplit_once s' sep with
      | Some (l, r) => Some (String a l, r)
      | None => if starts_with s sep then Some (EmptyString, drop_bytes (String.length sep) s) else None
      end
  end.

Lemma contains_str_app s p : contains_str s p = true ↔ ∃ l r, s = l +:+ p +:+ r.
Proof.
  induction s as [|a s IH]; cbn [contains_str]; rewrite orb_true_iff, starts_with_app.
  - split; [intros [[r Hr]|]; [|done]; by exists EmptyString, r|].
    intros (l & r & H). left. destruct l; [|done]. by exists r.
  - rewrite IH. split.
    + intros [[r ->]|(l & r & ->)]; [by exists EmptyString, r|by exists (String a l), r].
    + intros ([|b l] & r & H); [left; by exists r|]. right. exists l, r. by injection H.
Qed.

Lemma drop_bytes_app p s : drop_bytes (String.length p) (p +:+ s) = s.
Proof. by induction p. Qed.

(** A separator is found where it was put, when it does not occur later. *)
Lemma rsplit_once_sep ns b sep n :
  rsplit_once (sep +:+ n) (String b sep) = None →
  rsplit_once (ns +:+ String b sep +:+ n) (String b sep) = Some (ns, n).
Proof.
  intros Hn. induction ns as [|a ns IH].
  - change (EmptyString +:+ String b sep +:+ n) with (String b (sep +:+ n)). cbn [rsplit_once]. rewrite Hn.
    rewrite (proj2 (starts_with_app _ _)) by (by exists n). exact (f_equal (λ r, Some (EmptyString, r)) (drop_bytes_app (String b sep) n)).
  - change (String a ns +:+ String b sep +:+ n) with (String a (ns +:+ String b sep +:+ n)).
    cbn [rsplit_once]. by rewrite IH.
Qed.

Lemma rsplit_once_None s sep : rsplit_once s sep = None → sep ≠ EmptyString → contains_str s sep = false.
Proof.
  intros Hs Hsep. induction s as [|a s IH]; cbn [contains_str].
  - rewrite orb_false_r. unfold starts_with. by destruct sep.
  - cbn [rsplit_once] in Hs. destruct (rsplit_once s sep) as [[]|]; [done|].
    destruct (starts_with (String a s) sep); [done|]. by rewrite IH.
Qed.

(** [[String]::join]. *)
Fixpoint join (sep : string) (l : list string) : string :=
  match l with
  | [] => EmptyString
  | [x] => x
  | x :: l' => x +:+ sep +:+ join sep l'
  end.

(** [str::to_ascii_lowercase]. *)
Definition ascii_lower (a : Ascii.ascii) : Ascii.ascii :=
  let n := Ascii.nat_of_ascii a in
  if (65 <=? n)%nat && (n <=? 90)%nat then Ascii.ascii_of_nat (n + 32) else a.
Fixpoint to_ascii_lowercase (s : string) : string :=
  match s with EmptyString => EmptyString | String a s' => String (ascii_lower a) (to_ascii_lowercase s') end.

(** [Iterator::find_map]. *)
Fixpoint find_map {A B} (f : A → option B) (l : list A) : option B :=
  match l with
  | [] => None
  | x :: l' => match f x with Some y => Some y | None => find_map f l' end
  end.

(** Decimal rendering of a count grows with it. *)
Lemma pretty_N_go_length x s : (String.length s ≤ String.length (pretty_N_go x s))%nat.
Proof.
  revert s. induction (N.lt_wf_0 x) as [x _ IH]; intros s.
  destruct (decide (0 < x)%N) as [Hx|Hx].
  - rewrite pretty_N_go_step by done. etrans; [|apply IH; by apply N.div_lt]. simpl. lia.
  - replace x with 0%N by lia. by rewrite pretty_N_go_0.
Qed.

Lemma pretty_N_go_mono x y s t :
  (x ≤ y)%N → (String.length s ≤ String.length t)%nat →
  (String.length (pretty_N_go x s) ≤ String.length (pretty_N_go y t))%nat.
Proof.
  revert x s t. induction (N.lt_wf_0 y) as [y _ IH]; intros x s t Hxy Hst.
  destruct (decide (0 < x)%N) as [Hx|Hx].
  - rewrite (pretty_N_go_step x), (pretty_N_go_step y) by lia.
    apply IH; [apply N.div_lt; lia| |simpl; lia].
    apply N.Div0.div_le_mono. lia.
  - replace x with 0%N by lia. rewrite pretty_N_go_0. etrans; [done|apply pretty_N_go_length].
Qed.

Lemma pretty_nat_length_mono (a b : nat) :
  (a ≤ b)%nat → (String.length (pretty a) ≤ String.length (pretty b))%nat.
Proof.
  intros Hab. change (pretty a) with (pretty (N.of_nat a)). change (pretty b) with (pretty (N.of_nat b)).
  unfold pretty, pretty_N.
  assert (0 < String.length (pretty_N_go (N.of_nat b) EmptyString) ∨ N.of_nat b = 0%N)%nat.
  { destruct (decide (N.of_nat b = 0%N)); [by right|left].
    rewrite pretty_N_go_step by lia. eapply Nat.lt_le_trans; [|apply pretty_N_go_length]. simpl. lia. }
  repeat case_decide; simpl; try lia. apply pretty_N_go_mono; simpl; lia.
Qed.

(** ** Options, as the standard library orders them: [None] below every
    [Some]. *)

Definition option_max (a b : option Z) : option Z :=
  match a, b with
  | Some x, Some y => Some (Z.max x y)
  | Some x, None => Some x
  | None, b => b
  end.

Lemma option_max_none a b : option_max a b = None ↔ a = None ∧ b = None.
Proof. destruct a, b; simpl; naive_solver. Qed.

Lemma option_max_Some a b d : option_max a b = Some d → a = Some d ∨ b = Some d.
Proof.
  destruct a as [x|], b as [y|]; simpl; try naive_solver.
  intros [= <-]. destruct (Z.max_spec x y) as [[_ ->]|[_ ->]]; auto.
Qed.

(** [Iterator::position] and [Iterator::rposition]. *)

Fixpoint position {A} (p : A → bool) (l : list A) : option nat :=
  match l with
  | [] => None
  | x :: l' => if p x then Some 0 else S <$> position p l'
  end.

Fixpoint rposition {A} (p : A → bool) (l : list A) : option nat :=
  match l with
  | [] => None
  | x :: l' =>
      match rposition p l' with
      | Some i => Some (S i)
      | None => if p x then Some 0 else None
      end
  end.

Section positions.
Context {A : Type} (p : A → bool).

Lemma position_Some l i :
  position p l = Some i →
  ∃ x, l !! i = Some x ∧ p x = true ∧ ∀ j y, j < i → l !! j = Some y → p y = false.
Proof.
  revert i. induction l as [|x l IH]; intros i; simpl; [done|].
  destruct (p x) eqn:Hx.
  - intros [= <-]. exists x. split_and!; [done..|]. intros j y Hj. lia.
  - intros (i' & Hi' & ->)%fmap_Some. destruct (IH i' Hi') as (y & Hy & Hpy & Hlt).
    exists y. split_and!; [done..|]. intros [|j] z Hj; simpl; [naive_solver|].
    apply Hlt. lia.
Qed.

Lemma position_None l : position p l = None ↔ Forall (λ x, p x = false) l.
Proof.
  induction l as [|x l IH]; simpl; [by split|].
  rewrite Forall_cons, <- IH. destruct (p x); [naive_solver|].
  rewrite fmap_None. naive_solver.
Qed.

Lemma position_lt l i : position p l = Some i → i < length l.
Proof. intros (x & Hx & _)%position_Some. by eapply lookup_lt_Some. Qed.

Lemma rposition_Some l i :
  rposition p l = Some i →
  ∃ x, l !! i = Some x ∧ p x = true ∧ ∀ j y, i < j → l !! j = Some y → p y = false.
Proof.
  revert i. induction l as [|x l IH]; intros i; simpl; [done|].
  destruct (rposition p l) as [k|] eqn:Hk.
  - intros [= <-]. destruct (IH k eq_refl) as (y & Hy & Hpy & Hgt).
    exists y. split_and!; [done..|]. intros [|j] z Hj; simpl; [lia|]. apply Hgt. lia.
  - destruct (p x) eqn:Hx; [|done]. intros [= <-]. exists x. split_and!; [done..|].
    intros [|j] y Hj; simpl; [lia|]. clear IH Hj. revert j.
    induction l as [|z l IHl]; intros j; simpl in *; [done|].
    destruct (rposition p l); [done|]. destruct (p z) eqn:Hz; [done|].
    destruct j; simpl; naive_solver.
Qed.

Lemma rposition_None l : rposition p l = None ↔ Forall (λ x, p x = false) l.
Proof.
  induction l as [|x l IH]; simpl; [by split|].
  rewrite Forall_cons, <- IH. destruct (rposition p l); [naive_solver|].
  destruct (p x); naive_solver.
Qed.

(** The same, for the part of a list from [t] on and up to [t]. *)
Lemma position_drop_Some l t o :
  position p (drop t l) = Some o →
  ∃ x, l !! (t + o) = Some x ∧ p x = true ∧ ∀ j y, t ≤ j < t + o → l !! j = Some y → p y = false.
Proof.
  intros (x & Hx & Hp & Hf)%position_Some. rewrite lookup_drop in Hx. exists x. split_and!; [done..|].
  intros j y Hj Hy. apply (Hf (j - t)); [lia|]. rewrite lookup_drop. by replace (t + (j - t)) with j by lia.
Qed.

Lemma position_drop_None l t :
  position p (drop t l) = None → ∀ j y, t ≤ j → l !! j = Some y → p y = false.
Proof.
  rewrite position_None, Forall_forall. intros Hf j y Hj Hy. apply Hf, list_elem_of_lookup. exists (j - t).
  rewrite lookup_drop. by replace (t + (j - t)) with j by lia.
Qed.

Lemma rposition_take_Some l t i :
  rposition p (take t l) = Some i →
  i < t ∧ ∃ x, l !! i = Some x ∧ p x = true ∧ ∀ j y, i < j < t → l !! j = Some y → p y = false.
Proof.
  intros (x & [Hx Hi]%lookup_take_Some & Hp & Hf)%rposition_Some. split; [done|]. exists x. split_and!; [done..|].
  intros j y Hj Hy. apply (Hf j); [lia|]. apply lookup_take_Some. split; [done|lia].
Qed.

Lemma rposition_take_None l t :
  rposition p (take t l) = None → ∀ j y, j < t → l !! j = Some y → p y = false.
Proof.
  rewrite rposition_None, Forall_forall. intros Hf j y Hj Hy. apply Hf, list_elem_of_lookup. exists j.
  by apply lookup_take_Some.
Qed.

End positions.

(** ** Bounded search

    The first [p] indices from [i], in order; the halving keeps a bound of
    machine size executable. *)
Fixpoint first_within {A} (p : positive) (i : N) (f : N → option A) : option A :=
  match p with
  | xH => f i
  | xO q =>
      match first_within q i f with Some r => Some r | None => first_within q (i + Npos q) f end
  | xI q =>
      match f i with
      | Some r => Some r
      | None =>
          match first_within q (i + 1) f with Some r => Some r | None => first_within q (i + 1 + Npos q) f end
      end
  end.

Lemma first_within_Some {A} p i (f : N → option A) r :
  first_within p i f = Some r → ∃ k, (i ≤ k < i + Npos p)%N ∧ f k = Some r.
Proof.
  revert i. induction p as [q IH|q IH|]; intros i; cbn [first_within].
  - destruct (f i) eqn:Hi; [intros [= ->]; exists i; split; [lia|done]|].
    destruct (first_within q (i + 1) f) eqn:H1.
    + intros [= ->]. destruct (IH _ H1) as (k & ? & ?). exists k. split; [lia|done].
    + intros H2. destruct (IH _ H2) as (k & ? & ?). exists k. split; [lia|done].
  - destruct (first_within q i f) eqn:H1.
    + intros [= ->]. destruct (IH _ H1) as (k & ? & ?). exists k. split; [lia|done].
    + intros H2. destruct (IH _ H2) as (k & ? & ?). exists k. split; [lia|done].
  - intros Hi. exists i. split; [lia|done].
Qed.

Lemma first_within_None {A} p i (f : N → option A) :
  first_within p i f = None → ∀ k, (i ≤ k < i + Npos p)%N → f k = None.
Proof.
  revert i. induction p as [q IH|q IH|]; intros i; cbn [first_within]; intros Hn k Hk.
  - destruct (f i) eqn:Hi; [done|]. destruct (first_within q (i + 1) f) eqn:H1; [done|].
    destruct (decide (k = i)) as [->|]; [done|].
    destruct (decide (k < i + 1 + Npos q)%N); [apply (IH _ H1); lia|apply (IH _ Hn); lia].
  - destruct (first_within q i f) eqn:H1; [done|].
    destruct (decide (k < i + Npos q)%N); [apply (IH _ H1); lia|apply (IH _ Hn); lia].
  - by replace k with i by lia.
Qed.

(** ** Filters *)

Section filters.
Context {A : Type} (P : A → Prop) `{!∀ x, Decision (P x)}.

Lemma filter_none (l : list A) : (∀ x, x ∈ l → ¬ P x) → filter P l = [].
Proof.
  induction l as [|x l IH]; intros Hl; [done|]. rewrite filter_cons, decide_False by (apply Hl; set_solver).
  apply IH. set_solver.
Qed.

Lemma filter_all (l : list A) : (∀ x, x ∈ l → P x) → filter P l = l.
Proof.
  induction l as [|x l IH]; intros Hl; [done|]. rewrite filter_cons, decide_True by (apply Hl; set_solver).
  f_equal. apply IH. set_solver.
Qed.

End filters.

Lemma filter_ext_in {A} (P Q : A → Prop) `{!∀ x, Decision (P x), !∀ x, Decision (Q x)} (l : list A) :
  (∀ x, x ∈ l → P x ↔ Q x) → filter P l = filter Q l.
Proof.
  induction l as [|x l IH]; intros Hl; [done|]. rewrite !filter_cons, IH by (intros y Hy; apply Hl; set_solver).
  destruct (Hl x ltac:(set_solver)). repeat case_decide; naive_solver.
Qed.

(** The elements of a strictly increasing list on either side of one of them. *)
Lemma sorted_around {A} (R : A → A → Prop) l1 x l2 :
  StronglySorted R (l1 ++ x :: l2) → (∀ y, y ∈ l1 → R y x) ∧ (∀ y, y ∈ l2 → R x y).
Proof.
  induction l1 as [|z l1 IH]; simpl.
  - intros [_ Hf]%StronglySorted_inv. rewrite Forall_forall in Hf. set_solver.
  - intros [Hs Hf]%StronglySorted_inv. rewrite Forall_forall in Hf. destruct (IH Hs) as [H1 H2].
    split; [|done]. intros y [->|Hy]%elem_of_cons; [apply Hf; set_solver|auto].
Qed.

(** ** Bounded selection

    A loop over positions that keeps the wanted ones until [max] are kept. *)
Section fill.
Context (max : nat) (want : nat → bool).

Definition fill (keep : gset nat) (order : list nat) : gset nat :=
  foldl (λ keep i, if (max <=? size keep)%nat then keep else if want i then {[i]} ∪ keep else keep) keep order.

Definition wanted (keep : gset nat) (order : list nat) : list nat :=
  filter (λ i, want i = true ∧ i ∉ keep) order.

Lemma fill_full keep order : (max ≤ size keep)%nat → fill keep order = keep.
Proof.
  intros Hm. unfold fill. induction order as [|i order IH]; [done|]. simpl.
  by rewrite (proj2 (Nat.leb_le _ _) Hm).
Qed.

(** The loop keeps what it had and the first of the others that are wanted. *)
Lemma fill_spec keep order :
  NoDup order →
  fill keep order = keep ∪ list_to_set (take (max - size keep) (wanted keep order)) ∧
  size (fill keep order) = (size keep + Nat.min (max - size keep) (length (wanted keep order)))%nat.
Proof.
  revert keep. induction order as [|i order IH]; intros keep Hnd.
  { change (wanted keep []) with (@nil nat). rewrite take_nil. simpl. split; [set_solver|]. rewrite Nat.min_0_r. lia. }
  apply NoDup_cons in Hnd as [Hi Hnd]. destruct (decide (max ≤ size keep)%nat) as [Hm|Hm].
  { rewrite fill_full by done. replace (max - size keep)%nat with 0 by lia. simpl. split; [set_solver|lia]. }
  assert (Hstep : fill keep (i :: order) = fill (if want i then {[i]} ∪ keep else keep) order).
  { unfold fill. simpl. by rewrite (proj2 (Nat.leb_gt _ _)) by lia. }
  rewrite Hstep. unfold wanted. rewrite filter_cons. destruct (want i) eqn:Ew.
  - destruct (decide (i ∈ keep)) as [Hk|Hk].
    + rewrite decide_False by naive_solver. replace ({[i]} ∪ keep) with keep by set_solver. by apply IH.
    + rewrite decide_True by done. destruct (IH ({[i]} ∪ keep) Hnd) as [-> ->].
      assert (Hw : wanted ({[i]} ∪ keep) order = wanted keep order).
      { unfold wanted. apply filter_ext_in. intros x Hx. set_solver. }
      rewrite Hw. rewrite size_union, size_singleton by set_solver. fold (wanted keep order).
      replace (max - size keep)%nat with (S (max - (1 + size keep)))%nat by lia. cbn [take list_to_set length].
      split; [set_solver|]. lia.
  - rewrite decide_False by naive_solver. by apply IH.
Qed.
End fill.

(** ** Sorted lists *)

Lemma newest_first_NoDup n : NoDup (rev (seq 0 n)).
Proof. rewrite <- Permutation_rev. apply NoDup_seq. Qed.

Lemma newest_first_elem n i : i ∈ rev (seq 0 n) ↔ (i < n)%nat.
Proof. rewrite <- Permutation_rev. rewrite elem_of_seq. lia. Qed.

Lemma newest_first_sorted n : StronglySorted (λ i j, (j < i)%nat) (rev (seq 0 n)).
Proof.
  induction n as [|n IH]; [constructor|]. rewrite seq_S, rev_app_distr. simpl. constructor; [done|].
  apply Forall_forall. intros i Hi. by apply newest_first_elem in Hi.
Qed.

Lemma StronglySorted_app_2 {A} (R : A → A → Prop) l1 l2 :
  StronglySorted R l1 → StronglySorted R l2 → (∀ x y, x ∈ l1 → y ∈ l2 → R x y) → StronglySorted R (l1 ++ l2).
Proof.
  intros H1 H2 H12. induction H1 as [|x l1 Hs IH Hf]; [done|]. simpl. constructor.
  - apply IH. intros. apply H12; set_solver.
  - apply Forall_app. split; [done|]. apply Forall_forall. intros y Hy. apply H12; set_solver.
Qed.

Lemma filter_sorted {A} (R : A → A → Prop) (P : A → Prop) `{!∀ x, Decision (P x)} l :
  StronglySorted R l → StronglySorted R (filter P l).
Proof.
  induction 1 as [|x l Hs IH Hf]; [constructor|]. rewrite filter_cons. case_decide; [|done]. constructor; [done|].
  rewrite Forall_forall in Hf |- *. intros y Hy. apply Hf. by apply list_elem_of_filter in Hy as [_ ?].
Qed.

Lemma sorted_impl_in {A} (R S : A → A → Prop) l :
  (∀ x y, x ∈ l → y ∈ l → R x y → S x y) → StronglySorted R l → StronglySorted S l.
Proof.
  intros Himp H. induction H as [|x l Hs IH Hf]; [constructor|]. constructor.
  - apply IH. intros. apply Himp; set_solver.
  - rewrite Forall_forall in Hf |- *. intros y Hy. apply Himp; [set_solver..|by apply Hf].
Qed.

Lemma sorted_split {A} (R : A → A → Prop) l1 l2 x y :
  StronglySorted R (l1 ++ l2) → x ∈ l1 → y ∈ l2 → R x y.
Proof.
  induction l1 as [|z l1 IH]; [set_solver|]. simpl. intros [Hs Hf]%StronglySorted_inv Hx Hy.
  apply elem_of_cons in Hx as [->|Hx]; [|by apply IH]. rewrite Forall_forall in Hf. apply Hf. set_solver.
Qed.

(** Two passes, newest position first: those that satisfy [w1], then those that
    satisfy [w2]. *)
Section two_passes.
Context (max : nat) (w1 w2 : nat → bool) (Hdisjoint : ∀ i, w1 i = true → w2 i = true → False).

Definition ranked (keep : gset nat) (n : nat) : list nat :=
  wanted w1 keep (rev (seq 0 n)) ++ wanted w2 keep (rev (seq 0 n)).

Lemma two_passes_spec keep n :
  let r := fill max w2 (fill max w1 keep (rev (seq 0 n))) (rev (seq 0 n)) in
  r = keep ∪ list_to_set (take (max - size keep) (ranked keep n)) ∧
  size r = (size keep + Nat.min (max - size keep) (length (ranked keep n)))%nat.
Proof.
  set (nf := rev (seq 0 n)). assert (Hnd : NoDup nf) by apply newest_first_NoDup.
  destruct (fill_spec max w1 keep nf Hnd) as [H1 H1s].
  destruct (fill_spec max w2 (fill max w1 keep nf) nf Hnd) as [H2 H2s].
  assert (Hw2 : wanted w2 (fill max w1 keep nf) nf = wanted w2 keep nf).
  { apply filter_ext_in. intros i _. split; [rewrite H1; set_solver|]. intros [Hi Hk]. split; [done|]. rewrite H1.
    intros [?|Hi'%elem_of_list_to_set]%elem_of_union; [done|].
    assert (Hf : i ∈ wanted w1 keep nf) by (rewrite <- (take_drop (max - size keep)); set_solver).
    apply list_elem_of_filter in Hf as [[Hf _] _]. by apply (Hdisjoint i). }
  cbv zeta. rewrite H2s, H2, H1s, Hw2, H1. unfold ranked. fold nf. rewrite take_app, length_app, list_to_set_app_L.
  replace (max - (size keep + Nat.min (max - size keep) (length (wanted w1 keep nf))))%nat
    with (max - size keep - length (wanted w1 keep nf))%nat by lia.
  split; [set_solver|lia].
Qed.

(** The ranking is by pass, then by recency. *)
Lemma ranked_sorted keep n :
  StronglySorted (λ i j, w1 i = true ∧ w2 j = true ∨ (w1 i = w1 j ∧ w2 i = w2 j) ∧ (j < i)%nat) (ranked keep n).
Proof.
  assert (Hs : ∀ w, StronglySorted (λ i j, (j < i)%nat) (wanted w keep (rev (seq 0 n))))
    by (intros w; apply filter_sorted, newest_first_sorted).
  assert (Hw : ∀ w i, i ∈ wanted w keep (rev (seq 0 n)) → w i = true) by (intros w i [[? _] _]%list_elem_of_filter; done).
  apply StronglySorted_app_2.
  - eapply sorted_impl_in; [|apply Hs]. intros i j Hi%Hw Hj%Hw Hij. right. split; [|done]. split; [congruence|].
    destruct (w2 i) eqn:E1; [by destruct (Hdisjoint i)|]. destruct (w2 j) eqn:E2; [by destruct (Hdisjoint j)|done].
  - eapply sorted_impl_in; [|apply Hs]. intros i j Hi%Hw Hj%Hw Hij. right. split; [|done]. split; [|congruence].
    destruct (w1 i) eqn:E1; [by destruct (Hdisjoint i)|]. destruct (w1 j) eqn:E2; [by destruct (Hdisjoint j)|done].
  - intros i j Hi%Hw Hj%Hw. by left.
Qed.

Lemma ranked_elem keep n i : i ∈ ranked keep n ↔ (i < n)%nat ∧ i ∉ keep ∧ (w1 i = true ∨ w2 i = true).
Proof.
  unfold ranked, wanted. rewrite elem_of_app, !list_elem_of_filter, !newest_first_elem. naive_solver.
Qed.

Lemma ranked_NoDup keep n : NoDup (ranked keep n).
Proof.
  apply NoDup_app. split_and!; [by apply NoDup_filter, newest_first_NoDup| |by apply NoDup_filter, newest_first_NoDup].
  intros i [[? _] _]%list_elem_of_filter [[? _] _]%list_elem_of_filter. by apply (Hdisjoint i).
Qed.
End two_passes.

(** ** Sums *)

Definition sum_Z {A} (f : A → Z) (l : list A) : Z := foldr (λ x acc, f x + acc)%Z 0%Z l.

Lemma sum_Z_app {A} (f : A → Z) l1 l2 : (sum_Z f (l1 ++ l2) = sum_Z f l1 + sum_Z f l2)%Z.
Proof. induction l1 as [|x l1 IH]; simpl; [done|]. unfold sum_Z in *. simpl. lia. Qed.

Lemma sum_Z_ext {A} (f g : A → Z) l : (∀ x, x ∈ l → f x = g x) → sum_Z f l = sum_Z g l.
Proof.
  intros H. induction l as [|x l IH]; [done|]. unfold sum_Z in *. simpl.
  rewrite H by set_solver. rewrite IH; [done|]. intros y Hy. apply H. set_solver.
Qed.

Lemma sum_Z_nonneg {A} (f : A → Z) l : (∀ x, 0 ≤ f x)%Z → (0 ≤ sum_Z f l)%Z.
Proof. intros Hf. induction l as [|x l IH]; simpl; [done|]. specialize (Hf x). unfold sum_Z in *. simpl. lia. Qed.

(** ** Stable sorting

    [slice::sort_by] for a total comparison [leb]: the result is sorted, is a
    permutation, and keeps the order of equal elements. *)

Section sort_by.
Context {A : Type} (leb : A → A → bool).

Fixpoint insert_by (x : A) (l : list A) : list A :=
  match l with
  | [] => [x]
  | y :: l' => if leb x y then x :: l else y :: insert_by x l'
  end.

Definition sort_by (l : list A) : list A := foldr insert_by [] l.

Lemma insert_by_perm x l : insert_by x l ≡ₚ x :: l.
Proof.
  induction l as [|y l IH]; simpl; [done|]. case_match; [done|].
  rewrite IH. apply Permutation_swap.
Qed.

Lemma sort_by_perm l : sort_by l ≡ₚ l.
Proof. induction l as [|x l IH]; simpl; [done|]. by rewrite insert_by_perm, IH. Qed.

Lemma sort_by_length l : length (sort_by l) = length l.
Proof. by rewrite sort_by_perm. Qed.

Lemma elem_of_sort_by x l : x ∈ sort_by l ↔ x ∈ l.
Proof. by rewrite sort_by_perm. Qed.

Definition sorted_by (l : list A) : Prop := StronglySorted (λ x y, leb x y = true) l.

Context (leb_total : ∀ x y, leb x y = true ∨ leb y x = true).
Context (leb_trans : ∀ x y z, leb x y = true → leb y z = true → leb x z = true).

Lemma insert_by_sorted x l : sorted_by l → sorted_by (insert_by x l).
Proof.
  induction 1 as [|y l Hl IH Hy]; simpl; [by repeat constructor|].
  destruct (leb x y) eqn:E.
  - constructor; [by constructor|]. constructor; [done|].
    eapply Forall_impl; [exact Hy|]. simpl. intros z. by apply leb_trans.
  - constructor; [done|]. rewrite insert_by_perm. constructor; [|done].
    destruct (leb_total x y); congruence.
Qed.

Lemma sort_by_sorted l : sorted_by (sort_by l).
Proof. induction l; simpl; [constructor|]. by apply insert_by_sorted. Qed.

(** Sorting does nothing to a sorted list, and elements the comparison does not
    tell apart keep their order. *)
Lemma insert_by_filter (P : A → bool) x l :
  (∀ y, P x = true → P y = true → leb x y = true) →
  filter P (insert_by x l) = if P x then x :: filter P l else filter P l.
Proof.
  intros HP. induction l as [|y l IH]; simpl.
  - rewrite filter_cons. by destruct (P x).
  - destruct (leb x y) eqn:E.
    + rewrite filter_cons. by destruct (P x).
    + rewrite !filter_cons, IH. destruct (P x) eqn:Hx, (P y) eqn:Hy; simpl; try done.
      rewrite HP in E by done. done.
Qed.

Lemma sort_by_stable (P : A → bool) l :
  (∀ x y, P x = true → P y = true → leb x y = true) →
  filter P (sort_by l) = filter P l.
Proof.
  intros HP. induction l as [|x l IH]; simpl; [done|].
  rewrite insert_by_filter by auto. rewrite filter_cons, IH. by destruct (P x).
Qed.

End sort_by.

Lemma sorted_filter {A} (leb : A → A → bool) (p : A → bool) l : sorted_by leb l → sorted_by leb (List.filter p l).
Proof.
  unfold sorted_by. induction 1 as [|x l Hl IH Hx]; [constructor|]. cbn [List.filter]. destruct (p x); [|done]. constructor; [done|].
  rewrite Forall_forall in Hx |- *. intros y Hy. apply Hx. rewrite list_elem_of_In in Hy |- *. by apply filter_In in Hy as [Hy _].
Qed.

Lemma NoDup_map_eq {A B} (f : A → B) (l : list A) (x y : A) : NoDup (map f l) → x ∈ l → y ∈ l → f x = f y → x = y.
Proof.
  induction l as [|z l IH]; [set_solver|]. cbn [map]. intros [Hz Hl]%NoDup_cons Hx Hy He.
  assert (Hin : ∀ u, u ∈ l → f u ∈ map f l) by (intros u Hu; by apply list_elem_of_fmap_2).
  apply elem_of_cons in Hx as [->|Hx], Hy as [->|Hy]; [done|..|by apply IH]; exfalso; apply Hz;
    [rewrite He|rewrite <- He]; by apply Hin.
Qed.

(** ** Reachability: states produced from an initial one by a labelled step
    function.  Invariants are proved by [reachable_ind]. *)

Section reach.
Context {S E : Type} (init : S) (step : S → E → S).

Inductive reachable : S → Prop :=
| reachable_init : reachable init
| reachable_step s e : reachable s → reachable (step s e).

Lemma reachable_invariant (P : S → Prop) :
  P init → (∀ s e, P s → P (step s e)) → ∀ s, reachable s → P s.
Proof. intros Hi Hs s. induction 1; auto. Qed.

Lemma reachable_foldl es s : reachable s → reachable (foldl step s es).
Proof. revert s. induction es as [|e es IH]; intros s Hs; simpl; [done|]. apply IH. by constructor. Qed.

End reach.

(** ** Automation *)

Create HintDb adele.
#[export] Hint Resolve slen_nonneg sat_add_bounds sat_add_mono : adele.

(** Case-split the innermost conditionals and matches of the goal, keeping the
    equations, and close what congruence and [lia] close. *)
Ltac split_cases :=
  repeat (case_match; simplify_eq/=; try done).

Ltac bool_hyps :=
  repeat match goal with
  | H : andb _ _ = true |- _ => apply andb_true_iff in H as [? ?]
  | H : orb _ _ = false |- _ => apply orb_false_iff in H as [? ?]
  | H : negb _ = true |- _ => apply negb_true_iff in H
  | H : negb _ = false |- _ => apply negb_false_iff in H
  | H : Z.leb _ _ = true |- _ => apply Z.leb_le in H
  | H : Z.leb _ _ = false |- _ => apply Z.leb_gt in H
  | H : Z.ltb _ _ = true |- _ => apply Z.ltb_lt in H
  | H : Z.ltb _ _ = false |- _ => apply Z.ltb_ge in H
  | H : Z.eqb _ _ = true |- _ => apply Z.eqb_eq in H
  | H : Z.eqb _ _ = false |- _ => apply Z.eqb_neq in H
  | H : Nat.leb _ _ = true |- _ => apply Nat.leb_le in H
  | H : Nat.leb _ _ = false |- _ => apply Nat.leb_gt in H
  | H : Nat.eqb _ _ = true |- _ => apply Nat.eqb_eq in H
  | H : Nat.eqb _ _ = false |- _ => apply Nat.eqb_neq in H
  | H : Nat.ltb _ _ = true |- _ => apply Nat.ltb_lt in H
  | H : Nat.ltb _ _ = false |- _ => apply Nat.ltb_ge in H
  | H : bool_decide _ = true |- _ => apply bool_decide_eq_true in H
  | H : bool_decide _ = false |- _ => apply bool_decide_eq_false in H
  end.
