(* ===== verification/Json.v ===== *)
(** * JSON values

    The program reads and writes JSON through serde_json.  A value is
    [serde_json::Value]; an object is the list of its members in key order with
    distinct keys (the map behind it is a [BTreeMap]); a number is kept as its
    text.  Parsing and printing are the library's, so they are the operations of
    the class [SerdeJson] and components take an instance as a parameter. *)

From S2P Require Import Prelude.

Inductive Value :=
  | Null
  | Bool (b : bool)
  | Number (literal : string)
  | Str (s : string)
  | Array (items : list Value)
  | Object (members : list (string * Value)).

(** Induction with the hypothesis for every item and member. *)
Section value_ind.
Context (P : Value → Prop).
Context (HNull : P Null) (HBool : ∀ b, P (Bool b)) (HNumber : ∀ n, P (Number n)) (HStr : ∀ s, P (Str s)).
Context (HArray : ∀ items, Forall P items → P (Array items)).
Context (HObject : ∀ members, Forall (λ kv, P kv.2) members → P (Object members)).

Fixpoint Value_nested_ind (v : Value) : P v :=
  match v with
  | Null => HNull
  | Bool b => HBool b
  | Number n => HNumber n
  | Str s => HStr s
  | Array items =>
      HArray items ((fix go (l : list Value) : Forall P l :=
        match l with
        | [] => Forall_nil_2 P
        | x :: l' => Forall_cons_2 P x l' (Value_nested_ind x) (go l')
        end) items)
  | Object members =>
      HObject members ((fix go (l : list (string * Value)) : Forall (λ kv, P kv.2) l :=
        match l with
        | [] => Forall_nil_2 _
        | kv :: l' => Forall_cons_2 (λ kv, P kv.2) kv l' (Value_nested_ind kv.2) (go l')
        end) members)
  end.
End value_ind.

(** ** Accessors *)

Definition as_str (v : Value) : option string := match v with Str s => Some s | _ => None end.
Definition as_bool (v : Value) : option bool := match v with Bool b => Some b | _ => None end.
Definition as_array (v : Value) : option (list Value) := match v with Array l => Some l | _ => None end.
Definition as_object (v : Value) : option (list (string * Value)) :=
  match v with Object m => Some m | _ => None end.

(** [Map::get] and [Map::contains_key]. *)
Fixpoint map_get (k : string) (m : list (string * Value)) : option Value :=
  match m with
  | [] => None
  | (k', v) :: m' => if bool_decide (k' = k) then Some v else map_get k m'
  end.

Definition contains_key (k : string) (m : list (string * Value)) : bool :=
  bool_decide (is_Some (map_get k m)).

(** [Value::get] with a string index: a member of an object, nothing of any
    other value. *)
Definition get (k : string) (v : Value) : option Value :=
  match v with Object m => map_get k m | _ => None end.

Definition get_str (k : string) (v : Value) : option string := get k v ≫= as_str.

Lemma map_get_elem k m v : map_get k m = Some v → (k, v) ∈ m.
Proof.
  induction m as [|[k' v'] m IH]; simpl; [done|]. case_bool_decide as Hk.
  - intros [= ->]. subst. set_solver.
  - set_solver.
Qed.

Lemma map_get_None k m : map_get k m = None ↔ k ∉ m.*1.
Proof.
  induction m as [|[k' v'] m IH]; simpl; [set_solver|]. case_bool_decide; set_solver.
Qed.

(** The parser and the printer. *)
Class SerdeJson := {
  from_str : string → option Value;
  to_string : Value → string
}.

(** ** Values inside a value, at any depth *)
Inductive subvalue : Value → Value → Prop :=
  | sub_here v : subvalue v v
  | sub_item v x items : x ∈ items → subvalue v x → subvalue v (Array items)
  | sub_member v k x members : (k, x) ∈ members → subvalue v x → subvalue v (Object members).
