(* ===== verification/DisplayLine.v ===== *)
(** * Display lines

    Models [one_line] of [crates/protocol/src/lib.rs] and [truncate_single_line]
    with the summaries built on it in [crates/core/src/tools.rs]: text that a
    model, a user or a tool wrote, reduced to one physical line of bounded
    length before it is placed in a prompt block or a status row. *)

From S2P Require Import Prelude.

(** ** Words

    [str::split_whitespace].  [ws_len W s] is the length of the member of [W]
    at the head of [s]; [words skip cur s] splits [s] with [cur] the word under
    way and [skip] bytes left of a separator. *)
Definition ws_len (W : list (list nat)) (s : string) : option nat :=
  length <$> List.find (λ w, starts_with s (bytes w)) W.

Definition flush (cur : string) : list string :=
  match cur with EmptyString => [] | _ => [cur] end.

Fixpoint words (skip : nat) (cur s : string) : list string :=
  match s with
  | EmptyString => flush cur
  | String a s' =>
      match skip with
      | S k => words k cur s'
      | O =>
          match ws_len white_space s with
          | Some n => flush cur ++ words (n - 1) EmptyString s'
          | None => words 0 (cur +:+ String a EmptyString) s'
          end
      end
  end.

Definition split_whitespace (s : string) : list string := words 0 EmptyString s.

(** [chars().count()] on well-formed UTF-8. *)
Fixpoint chars_count (s : string) : nat :=
  match s with
  | EmptyString => 0
  | String a s' => if is_cont a then chars_count s' else S (chars_count s')
  end.

(** The loop that pushes a space and the word, and [join] of the words. *)
Definition push_word (collapsed word : string) : string :=
  (match collapsed with EmptyString => EmptyString | _ => collapsed +:+ " " end) +:+ word.

Definition collapse (text : string) : string :=
  foldl push_word EmptyString (split_whitespace text).

Definition TRUNCATION_MARKER : string := "...".

Definition one_line (text : string) (max_chars : nat) : string :=
  let collapsed := collapse text in
  if (chars_count collapsed <=? max_chars)%nat then collapsed
  else
    let marker_chars := chars_count TRUNCATION_MARKER in
    if (max_chars <=? marker_chars)%nat then take_chars max_chars collapsed
    else take_chars (max_chars - marker_chars) collapsed +:+ TRUNCATION_MARKER.

Definition ellipsis : string := bytes [226; 128; 166].

Definition truncate_single_line (s : string) (max : nat) : string :=
  let collapsed := collapse s in
  if (chars_count collapsed <=? max)%nat then collapsed
  else take_chars max collapsed +:+ ellipsis.

Definition TOOL_EVENT_SUMMARY_MAX : nat := 200.
Definition TOOL_NAME_MAX : nat := 64.
Definition summarize_tool_text (s : string) : string := truncate_single_line s TOOL_EVENT_SUMMARY_MAX.
Definition summarize_tool_name (name : string) : string := truncate_single_line name TOOL_NAME_MAX.

(** ** Characters *)

Lemma chars_count_app x y : chars_count (x +:+ y) = (chars_count x + chars_count y)%nat.
Proof.
  induction x as [|a x IH]; [done|]. change (String a x +:+ y) with (String a (x +:+ y)).
  cbn [chars_count]. rewrite IH. by case_match.
Qed.

Lemma chars_count_take n s : (chars_count (take_chars n s) ≤ n)%nat.
Proof.
  revert n. induction s as [|a s IH]; intros n; cbn [take_chars chars_count]; [lia|].
  destruct (is_cont a) eqn:Ha; cbn [chars_count]; [rewrite Ha; apply IH|].
  destruct n as [|n]; cbn [chars_count]; [lia|]. rewrite Ha. specialize (IH n). lia.
Qed.

Lemma take_chars_prefix n s : ∃ r, s = take_chars n s +:+ r.
Proof.
  revert n. induction s as [|a s IH]; intros n; cbn [take_chars]; [by exists EmptyString|].
  destruct (is_cont a).
  - destruct (IH n) as [r Hr]. exists r. change (String a s = String a (take_chars n s +:+ r)). by rewrite <- Hr.
  - destruct n as [|n]; [by exists (String a s)|]. destruct (IH n) as [r Hr]. exists r.
    change (String a s = String a (take_chars n s +:+ r)). by rewrite <- Hr.
Qed.

(** ** Text without separators

    [clean_before W x y]: no member of [W] begins inside [x] in [x +:+ y]. *)
Fixpoint clean_before (W : list (list nat)) (x y : string) : Prop :=
  match x with
  | EmptyString => True
  | String _ x' => ws_len W (x +:+ y) = None ∧ clean_before W x' y
  end.

Definition clean (W : list (list nat)) (x : string) : Prop := clean_before W x EmptyString.

(** Every separator but the space itself: tabs, line feeds, U+2028 and the
    like. *)
Definition line_breaking : list (list nat) := filter (λ w, w ≠ [32]) white_space.

Fixpoint has_byte (c : Ascii.ascii) (s : string) : bool :=
  match s with EmptyString => false | String a s' => bool_decide (a = c) || has_byte c s' end.

(** The first byte of [y] does not continue a member of [W]. *)
Definition separates (W : list (list nat)) (y : string) : Prop :=
  match y with
  | EmptyString => True
  | String c _ => Forall (λ w, has_byte c (drop_bytes 1 (bytes w)) = false) W
  end.

#[export] Instance separates_dec W y : Decision (separates W y).
Proof. destruct y; apply _. Defined.

Lemma ws_len_None W s : ws_len W s = None ↔ Forall (λ w, starts_with s (bytes w) = false) W.
Proof.
  unfold ws_len. rewrite fmap_None. induction W as [|w W IH]; [by split|].
  cbn [List.find]. rewrite Forall_cons, <- IH. destruct (starts_with s (bytes w)); naive_solver.
Qed.

Lemma starts_with_extend x y p : starts_with x p = true → starts_with (x +:+ y) p = true.
Proof. rewrite !starts_with_app. intros [r ->]. exists (r +:+ y). by rewrite string_app_assoc. Qed.

Lemma starts_with_shrink x c y p :
  has_byte c p = false → starts_with (x +:+ String c y) p = true → starts_with x p = true.
Proof.
  unfold starts_with. revert x. induction p as [|b p IH]; intros x; [by destruct x|].
  intros [Hb Hp]%orb_false_iff. destruct x as [|a x].
  - change (EmptyString +:+ String c y) with (String c y). cbn [String.prefix].
    destruct (Ascii.ascii_dec b c) as [->|]; [|done]. by rewrite bool_decide_eq_true_2 in Hb.
  - change (String a x +:+ String c y) with (String a (x +:+ String c y)). cbn [String.prefix].
    destruct (Ascii.ascii_dec b a); [|done]. by apply IH.
Qed.

(** A separator that would begin in [x] and end in [y] has the first byte of
    [y] inside. *)
Lemma ws_len_app W a x y :
  separates W y → ws_len W (String a x) = None → ws_len W (String a x +:+ y) = None.
Proof.
  rewrite !ws_len_None, !Forall_forall. intros Hsep Hx w Hw. specialize (Hx w Hw).
  destruct y as [|c y]; [by rewrite string_app_nil_r|].
  destruct (starts_with (String a x +:+ String c y) (bytes w)) eqn:E; [exfalso|done].
  unfold separates in Hsep. rewrite Forall_forall in Hsep. specialize (Hsep w Hw).
  destruct (bytes w) as [|b p] eqn:Ew; [by unfold starts_with in Hx|].
  unfold starts_with in *. change (String a x +:+ String c y) with (String a (x +:+ String c y)) in E.
  cbn [String.prefix] in *. destruct (Ascii.ascii_dec b a); [|done].
  apply starts_with_shrink in E; [|done]. unfold starts_with in E. congruence.
Qed.

Lemma clean_before_weaken W x y : clean_before W x y → clean W x.
Proof.
  unfold clean. induction x as [|a x IH]; [done|]. cbn [clean_before]. intros [Hx Hc]. split; [|by apply IH].
  rewrite string_app_nil_r. revert Hx. rewrite !ws_len_None, !Forall_forall. intros Hx w Hin. specialize (Hx w Hin).
  destruct (starts_with (String a x) (bytes w)) eqn:E; [|done]. by rewrite starts_with_extend in Hx.
Qed.

Lemma clean_app_inv W x y : clean W (x +:+ y) → clean W x ∧ clean W y.
Proof.
  intros H. split.
  - apply (clean_before_weaken W x y). revert H. unfold clean. induction x as [|a x IH]; [done|].
    change (String a x +:+ y) with (String a (x +:+ y)). cbn [clean_before]. rewrite string_app_nil_r.
    intros [H1 H2]. split; [done|by apply IH].
  - revert H. unfold clean. induction x as [|a x IH]; [done|].
    change (String a x +:+ y) with (String a (x +:+ y)). cbn [clean_before]. intros [_ H]. by apply IH.
Qed.

Lemma clean_app W x y : separates W y → clean W x → clean W y → clean W (x +:+ y).
Proof.
  intros Hs Hx Hy. revert Hx. unfold clean. induction x as [|a x IH]; [done|].
  change (String a x +:+ y) with (String a (x +:+ y)). cbn [clean_before]. rewrite !string_app_nil_r.
  intros [H1 H2]. split; [by apply ws_len_app|by apply IH].
Qed.

Lemma clean_take W n s : clean W s → clean W (take_chars n s).
Proof. destruct (take_chars_prefix n s) as [r Hr]. rewrite Hr at 1. by intros [? _]%clean_app_inv. Qed.

Lemma clean_subset W W' x : (∀ w, w ∈ W' → w ∈ W) → clean W x → clean W' x.
Proof.
  intros Hsub. unfold clean. induction x as [|a x IH]; [done|]. cbn [clean_before].
  rewrite string_app_nil_r, !ws_len_None, !Forall_forall. intros [H1 H2]. split; [|by apply IH].
  intros w Hw. by apply H1, Hsub.
Qed.

(** ** The words are clean *)

Lemma clean_before_snoc W cur a s :
  clean_before W cur (String a s) → ws_len W (String a s) = None →
  clean_before W (cur +:+ String a EmptyString) s.
Proof.
  induction cur as [|b cur IH]; [done|].
  change (String b cur +:+ String a EmptyString) with (String b (cur +:+ String a EmptyString)).
  cbn [clean_before]. intros [H1 H2] H. split; [|by apply IH].
  change (ws_len W (String b ((cur +:+ String a EmptyString) +:+ s)) = None).
  by rewrite string_app_assoc.
Qed.

Lemma words_clean skip cur s :
  (skip ≠ 0%nat → cur = EmptyString) → clean_before white_space cur s →
  Forall (λ w, w ≠ EmptyString ∧ clean white_space w) (words skip cur s).
Proof.
  assert (Hf : ∀ c r, clean_before white_space c r →
    Forall (λ w, w ≠ EmptyString ∧ clean white_space w) (flush c)).
  { intros [|a c] r Hc; simpl; constructor; [|done]. split; [done|by eapply clean_before_weaken]. }
  revert skip cur. induction s as [|a s IH]; intros skip cur Hskip Hcur; [by eapply Hf|].
  cbn [words]. destruct skip as [|k].
  - destruct (ws_len white_space (String a s)) as [n|] eqn:E.
    + apply Forall_app. split; [by eapply Hf|]. by apply IH.
    + apply IH; [done|]. by apply clean_before_snoc.
  - specialize (Hskip ltac:(done)). subst cur. by apply IH.
Qed.

Lemma space_clean u :
  clean line_breaking u → clean line_breaking (String (Ascii.ascii_of_nat 32) u).
Proof.
  intros Hu. split; [|done]. rewrite string_app_nil_r. apply ws_len_None, Forall_forall. intros w Hw.
  assert (Hh : forallb (λ w, match bytes w with
    | String c _ => negb (bool_decide (c = Ascii.ascii_of_nat 32)) | _ => false end) line_breaking = true)
    by by vm_compute.
  rewrite forallb_forall in Hh. specialize (Hh w (proj1 (list_elem_of_In _ _) Hw)).
  destruct (bytes w) as [|c p]; [done|]. apply negb_true_iff, bool_decide_eq_false in Hh.
  unfold starts_with. cbn [String.prefix]. by destruct (Ascii.ascii_dec c (Ascii.ascii_of_nat 32)).
Qed.

Lemma collapse_clean text : clean line_breaking (collapse text).
Proof.
  unfold collapse. assert (Hw := words_clean 0 EmptyString text ltac:(done) I). fold (split_whitespace text) in Hw.
  assert (Hc : clean line_breaking EmptyString) by done. revert Hc. generalize EmptyString as acc.
  induction Hw as [|w ws [_ Hw] _ IH]; intros acc Hacc; [done|]. apply IH. unfold push_word.
  assert (Hw' : clean line_breaking w).
  { eapply clean_subset; [|done]. intros u. unfold line_breaking. rewrite list_elem_of_filter. naive_solver. }
  destruct acc as [|a acc]; [done|]. rewrite string_app_assoc.
  apply clean_app; [by apply (bool_decide_eq_true_1 _); vm_compute|done|]. by apply space_clean.
Qed.

(** ** What a display line promises *)

(** A line carries no character that starts a new line, and no more characters
    than it was given. *)
Lemma one_line_is_a_line text n :
  clean line_breaking (one_line text n) ∧ (chars_count (one_line text n) ≤ n)%nat.
Proof.
  assert (Hc := collapse_clean text). unfold one_line. case_match eqn:E1; [apply Nat.leb_le in E1; by split|].
  case_match eqn:E2; [split; [by apply clean_take|apply chars_count_take]|]. apply Nat.leb_gt in E2. split.
  - apply clean_app; [|by apply clean_take|]; by apply (bool_decide_eq_true_1 _); vm_compute.
  - rewrite chars_count_app.
    assert (H := chars_count_take (n - chars_count TRUNCATION_MARKER) (collapse text)). lia.
Qed.
