(* ===== verification/ToolEvents.v ===== *)
(** * What the activity feed shows of a call's arguments

    Models the argument summaries of [crates/core/src/tools.rs]:
    [is_sensitive_key], [compact_value_json], [compact_scalar] and
    [summarize_tool_value].  The escaping of [{:?}] on a string follows the
    toolchain's Unicode tables, so it is a parameter. *)

From S2P Require Import Prelude Json DisplayLine.

Definition REDACTED : string := "‹redacted›".

Definition sensitive_parts : list string := ["key"; "token"; "secret"; "password"; "passwd"; "credential"].

Definition is_sensitive_key (key : string) : bool :=
  let lower := to_ascii_lowercase key in
  existsb (contains_str lower) sensitive_parts || String.eqb lower "auth" || String.eqb lower "authorization".

Section summaries.
Context `{!SerdeJson} (debug : string → string).

Fixpoint compact_value_json (v : Value) : string :=
  match v with
  | Object members =>
      "{" +:+ join "," (map (λ kv, debug kv.1 +:+ ":" +:+
        (if is_sensitive_key kv.1 then debug REDACTED else compact_value_json kv.2)) members) +:+ "}"
  | Array items => "[" +:+ join "," (map compact_value_json items) +:+ "]"
  | other => to_string other
  end.

Definition compact_scalar (v : Value) : string :=
  match v with
  | Str s => s
  | Object _ | Array _ => compact_value_json v
  | other => to_string other
  end.

Definition summarize_tool_value (args : Value) : string :=
  let rendered :=
    match args with
    | Null => EmptyString
    | Object [] => EmptyString
    | Object members =>
        join ", " (map (λ kv, kv.1 +:+ "=" +:+ (if is_sensitive_key kv.1 then REDACTED else compact_scalar kv.2)) members)
    | other => to_string other
    end in
  truncate_single_line rendered TOOL_EVENT_SUMMARY_MAX.

(** ** What a summary depends on *)

(** A value with what its sensitive keys hold struck out, at every depth. *)
Fixpoint mask (v : Value) : Value :=
  match v with
  | Object members => Object (map (λ kv, (kv.1, if is_sensitive_key kv.1 then Null else mask kv.2)) members)
  | Array items => Array (map mask items)
  | other => other
  end.

Lemma compact_value_json_mask v : compact_value_json (mask v) = compact_value_json v.
Proof.
  induction v as [| | | |items IH|members IH] using Value_nested_ind; try done; cbn [mask compact_value_json].
  - do 2 f_equal. f_equal. rewrite map_map. apply map_ext_in. intros x Hx%list_elem_of_In.
    by eapply Forall_forall in IH.
  - do 2 f_equal. f_equal. rewrite map_map. apply map_ext_in. intros kv Hx%list_elem_of_In. simpl.
    eapply Forall_forall in IH; [|done]. simpl in IH. by destruct (is_sensitive_key kv.1); [|rewrite IH].
Qed.

Lemma compact_scalar_mask v : compact_scalar (mask v) = compact_scalar v.
Proof. destruct v; try done; apply compact_value_json_mask. Qed.

(** What the activity feed shows of a call with named arguments is a
    function of the arguments with every value under a sensitive key struck out,
    however deep it sits in objects and arrays: no secret reaches a subscriber,
    not even through the shape or length of the line. *)
Theorem named_secrets_never_reach_the_feed members :
  summarize_tool_value (Object members) = summarize_tool_value (mask (Object members)).
Proof.
  unfold summarize_tool_value. f_equal. destruct members as [|kv members]; [done|]. cbn [mask map]. set (show := λ kv, _).
  change (join ", " (map show (kv :: members)) =
    join ", " (map show (map (λ kv, (kv.1, if is_sensitive_key kv.1 then Null else mask kv.2)) (kv :: members)))).
  f_equal. rewrite map_map. apply map_ext. intros [k v]. unfold show. simpl.
  destruct (is_sensitive_key k); [done|]. by rewrite compact_scalar_mask.
Qed.

(** Arguments that are not an object are printed as they are, whatever they
    hold: an array of objects shows the values under its sensitive keys. *)
Lemma other_arguments_are_printed_whole items :
  summarize_tool_value (Array items) = truncate_single_line (to_string (Array items)) TOOL_EVENT_SUMMARY_MAX.
Proof. done. Qed.
End summaries.
