(* ===== verification/Sanitize.v ===== *)
(** * What of the model's text a person sees

    Models [crates/core/src/sanitize.rs]: dropping the blocks in which a model
    thinks aloud, from a finished reply and from a reply that is still arriving,
    and taking credentials out of an error text before it is sent to a
    classifier.  Strings are bytes; each loop has one unit of fuel per byte of
    its input, and every iteration that does not return consumes a byte at
    least. *)

From S2P Require Import Prelude DisplayLine.

#[local] Open Scope nat_scope.
#[local] Arguments starts_with : simpl never.

Definition THINK_OPEN : string := "<think>".
Definition THINK_CLOSE : string := "</think>".

(** [str::find]: where the first occurrence starts. *)
Fixpoint find (s p : string) : option nat :=
  if starts_with s p then Some 0
  else match s with EmptyString => None | String _ s' => S <$> find s' p end.

Definition ends_with (s p : string) : bool :=
  (String.length p <=? String.length s) && String.eqb (drop_bytes (String.length s - String.length p) s) p.

(** ** Finished text *)

(** [strip_think_blocks]; [strip true] is its remainder after an opening tag. *)
Fixpoint strip (fuel : nat) (inside : bool) (remaining : string) : string :=
  match fuel with
  | O => EmptyString
  | S f =>
      if inside then
        match find remaining THINK_CLOSE with
        | Some end_ => strip f false (drop_bytes (end_ + String.length THINK_CLOSE) remaining)
        | None => EmptyString
        end
      else
        match find remaining THINK_OPEN with
        | None => remaining
        | Some start => str_prefix start remaining +:+ strip f true (drop_bytes (start + String.length THINK_OPEN) remaining)
        end
  end.

Definition strip_think_blocks (text : string) : string := strip (S (String.length text)) false text.

(** [str::replace]. *)
Fixpoint replace_loop (fuel : nat) (s from to : string) : string :=
  match fuel with
  | O => s
  | S f =>
      match find s from with
      | None => s
      | Some i => str_prefix i s +:+ to +:+ replace_loop f (drop_bytes (i + String.length from) s) from to
      end
  end.

Definition replace (s from to : string) : string := replace_loop (S (String.length s)) s from to.

Definition newlines (n : nat) : string := bytes (repeat 10 n).

(** [while sanitized.contains("\n\n\n")]. *)
Fixpoint collapse_gaps (fuel : nat) (s : string) : string :=
  match fuel with
  | O => s
  | S f => if contains_str s (newlines 3) then collapse_gaps f (replace s (newlines 3) (newlines 2)) else s
  end.

Definition sanitize_assistant_text (text : string) : string :=
  let sanitized := trim (strip_think_blocks text) in
  collapse_gaps (String.length sanitized) sanitized.

(** ** Arriving text *)

Record StreamSanitizer := { pending : string; in_think : bool }.

Definition StreamSanitizer_new : StreamSanitizer := {| pending := EmptyString; in_think := false |}.

Fixpoint longest_prefix (text tag : string) (len : nat) : nat :=
  match len with
  | O => 0
  | S l => if ends_with text (str_prefix len tag) then len else longest_prefix text tag l
  end.

Definition trailing_tag_prefix_len (text tag : string) : nat := longest_prefix text tag (String.length tag - 1).

Fixpoint push_loop (fuel : nat) (inside : bool) (p : string) : string * StreamSanitizer :=
  match fuel with
  | O => (EmptyString, {| pending := p; in_think := inside |})
  | S f =>
      if inside then
        match find p THINK_CLOSE with
        | Some end_ => push_loop f false (drop_bytes (end_ + String.length THINK_CLOSE) p)
        | None =>
            let keep := trailing_tag_prefix_len p THINK_CLOSE in
            (EmptyString, {| pending := drop_bytes (String.length p - keep) p; in_think := true |})
        end
      else
        match find p THINK_OPEN with
        | Some start =>
            let '(out, s) := push_loop f true (drop_bytes (start + String.length THINK_OPEN) p) in
            (str_prefix start p +:+ out, s)
        | None =>
            let keep := trailing_tag_prefix_len p THINK_OPEN in
            let emit := String.length p - keep in
            (str_prefix emit p, {| pending := drop_bytes emit p; in_think := false |})
        end
  end.

Definition push (s : StreamSanitizer) (chunk : string) : string * StreamSanitizer :=
  let p := pending s +:+ chunk in push_loop (S (String.length p)) (in_think s) p.

(** All chunks of one reply: what the person was shown, and the state left. *)
Fixpoint push_all (s : StreamSanitizer) (chunks : list string) : string * StreamSanitizer :=
  match chunks with
  | [] => (EmptyString, s)
  | c :: rest =>
      let '(out, s) := push s c in
      let '(out', s) := push_all s rest in
      (out +:+ out', s)
  end.

(** The reference the source keeps for its tests. *)
Definition sanitize_assistant_text_for_stream (text : string) : string :=
  let output := strip_think_blocks text in
  str_prefix (String.length output - trailing_tag_prefix_len output THINK_OPEN) output.

(** ** Finding *)

Lemma split_text_at n s : n ≤ String.length s → s = str_prefix n s +:+ drop_bytes n s.
Proof.
  unfold str_prefix. revert n. induction s as [|a s IH]; intros [|n] Hn; simpl in *; [done|lia|done|].
  rewrite string_app_cons. f_equal. apply IH. lia.
Qed.

Lemma drop_bytes_length n s : String.length (drop_bytes n s) = String.length s - n.
Proof. revert n. induction s as [|a s IH]; intros [|n]; simpl; auto. Qed.

Lemma drop_bytes_app_le n s u : n ≤ String.length s → drop_bytes n (s +:+ u) = drop_bytes n s +:+ u.
Proof.
  revert n. induction s as [|a s IH]; intros [|n] Hn; simpl in *; [done|lia|done|]. apply IH. lia.
Qed.

Lemma str_prefix_app_le n s u : n ≤ String.length s → str_prefix n (s +:+ u) = str_prefix n s.
Proof.
  unfold str_prefix. revert n. induction s as [|a s IH]; intros [|n] Hn; simpl in *; [by destruct u|lia|done|].
  f_equal. apply IH. lia.
Qed.

Lemma find_Some s p i :
  find s p = Some i ↔ starts_with (drop_bytes i s) p = true ∧ i ≤ String.length s ∧
                      ∀ j, j < i → starts_with (drop_bytes j s) p = false.
Proof.
  revert i. induction s as [|a s IH]; intros i; cbn [find].
  - destruct (starts_with EmptyString p) eqn:Hs.
    + split; [intros [= <-]; split_and!; [done|done|lia]|]. intros (_ & Hi & _). simpl in Hi. f_equal. lia.
    + split; [done|]. intros (Ht & _). destruct i; cbn [drop_bytes] in Ht; congruence.
  - destruct (starts_with (String a s) p) eqn:Hs.
    + split; [intros [= <-]; split_and!; [done|lia|lia]|]. intros (_ & _ & Hno). destruct i as [|i]; [done|].
      specialize (Hno 0 ltac:(lia)). cbn [drop_bytes] in Hno. congruence.
    + rewrite fmap_Some. split.
      * intros (k & Hk & ->). apply IH in Hk as (H1 & H2 & H3). split_and!; [done|simpl; lia|].
        intros [|j] Hj; [done|]. apply H3. lia.
      * intros (H1 & H2 & H3). destruct i as [|i]; [cbn [drop_bytes] in H1; congruence|]. exists i. split; [|done].
        apply IH. split_and!; [done|simpl in H2; lia|]. intros j Hj. apply (H3 (S j)). lia.
Qed.

Lemma find_None s p : find s p = None ↔ ∀ j, j ≤ String.length s → starts_with (drop_bytes j s) p = false.
Proof.
  induction s as [|a s IH]; cbn [find].
  - destruct (starts_with EmptyString p) eqn:Hs.
    + split; [done|]. intros Hj. specialize (Hj 0 ltac:(lia)). cbn [drop_bytes] in Hj. congruence.
    + split; [|done]. intros _ [|j] _; done.
  - destruct (starts_with (String a s) p) eqn:Hs.
    + split; [done|]. intros Hj. specialize (Hj 0 ltac:(lia)). cbn [drop_bytes] in Hj. congruence.
    + rewrite fmap_None, IH. split; intros Hno.
      * intros [|j] Hj; [done|]. apply Hno. simpl in Hj. lia.
      * intros j Hj. apply (Hno (S j)). simpl. lia.
Qed.

Lemma starts_with_length s p : starts_with s p = true → String.length p ≤ String.length s.
Proof. intros [r ->]%starts_with_app. rewrite string_length_app. lia. Qed.

(** An occurrence stays the first one when text is added behind it. *)
Lemma find_app s p i u : find s p = Some i → find (s +:+ u) p = Some i.
Proof.
  intros (Hs & Hi & Hno)%find_Some. apply find_Some. split_and!.
  - rewrite drop_bytes_app_le by done. apply starts_with_app in Hs as [r ->]. apply starts_with_app.
    exists (r +:+ u). by rewrite string_app_assoc.
  - rewrite string_length_app. lia.
  - intros j Hj. rewrite drop_bytes_app_le by lia. destruct (starts_with (drop_bytes j s +:+ u) p) eqn:Hj'; [|done].
    exfalso. specialize (Hno j Hj). apply starts_with_length in Hs. rewrite drop_bytes_length in Hs.
    apply starts_with_app in Hj' as [r Hr].
    assert (starts_with (drop_bytes j s) p = true) as Ht; [|congruence].
    apply starts_with_app. exists (drop_bytes (String.length p) (drop_bytes j s)).
    rewrite (split_text_at (String.length p) (drop_bytes j s)) at 1 by (rewrite drop_bytes_length; lia). f_equal.
    apply (f_equal (str_prefix (String.length p))) in Hr.
    rewrite str_prefix_app_le in Hr by (rewrite drop_bytes_length; lia).
    rewrite str_prefix_app_le in Hr by done. by rewrite str_prefix_all in Hr.
Qed.

Lemma find_bound s p i : find s p = Some i → i + String.length p ≤ String.length s.
Proof. intros (Hs & Hi & _)%find_Some. apply starts_with_length in Hs. rewrite drop_bytes_length in Hs. lia. Qed.

(** ** What is held back *)

Lemma longest_prefix_spec text tag n :
  longest_prefix text tag n ≤ n ∧
  (0 < longest_prefix text tag n → ends_with text (str_prefix (longest_prefix text tag n) tag) = true) ∧
  ∀ k, 0 < k ≤ n → ends_with text (str_prefix k tag) = true → k ≤ longest_prefix text tag n.
Proof.
  induction n as [|n (IH1 & IH2 & IH3)]; cbn [longest_prefix]; [split_and!; [lia|lia|intros; lia]|].
  destruct (ends_with text (str_prefix (S n) tag)) eqn:He; [split_and!; [lia|done|intros; lia]|].
  split_and!; [lia|done|]. intros k Hk Hend. destruct (decide (k = S n)) as [->|]; [congruence|]. apply IH3; [lia|done].
Qed.

Lemma keep_le text tag : trailing_tag_prefix_len text tag ≤ String.length text.
Proof.
  unfold trailing_tag_prefix_len. destruct (longest_prefix_spec text tag (String.length tag - 1)) as (Hle & He & _).
  destruct (decide (longest_prefix text tag (String.length tag - 1) = 0)) as [->|Hne]; [lia|].
  specialize (He ltac:(lia)). unfold ends_with in He. apply andb_true_iff in He as [Hl _]. apply Nat.leb_le in Hl.
  rewrite str_prefix_length in Hl by lia. done.
Qed.

(** A tag that text still to come may complete starts in the part kept back. *)
Lemma find_across s u p :
  find s p = None → p ≠ EmptyString →
  let emit := String.length s - trailing_tag_prefix_len s p in
  find (s +:+ u) p = (λ i, emit + i) <$> find (drop_bytes emit s +:+ u) p.
Proof.
  intros Hnone Hp emit. pose proof (keep_le s p) as Hkeep. assert (Hemit : emit ≤ String.length s) by (unfold emit; lia).
  assert (Hbefore : ∀ j, j < emit → starts_with (drop_bytes j (s +:+ u)) p = false).
  { intros j Hj. destruct (starts_with (drop_bytes j (s +:+ u)) p) eqn:Hs; [|done]. exfalso.
    rewrite drop_bytes_app_le in Hs by lia. set (t := drop_bytes j s) in *.
    assert (Ht : String.length t = String.length s - j) by apply drop_bytes_length.
    apply starts_with_app in Hs as [r Hr].
    destruct (decide (String.length p ≤ String.length t)) as [Hl|Hl].
    - pose proof (proj1 (find_None s p) Hnone j ltac:(lia)) as Hno. fold t in Hno.
      assert (starts_with t p = true); [|congruence]. apply starts_with_app. exists (drop_bytes (String.length p) t).
      rewrite (split_text_at (String.length p) t) at 1 by done. f_equal.
      apply (f_equal (str_prefix (String.length p))) in Hr. rewrite !str_prefix_app_le in Hr by lia. by rewrite str_prefix_all in Hr.
    - assert (Htp : t = str_prefix (String.length t) p).
      { apply (f_equal (str_prefix (String.length t))) in Hr. rewrite !str_prefix_app_le in Hr by lia. by rewrite str_prefix_all in Hr. }
      destruct (longest_prefix_spec s p (String.length p - 1)) as (_ & _ & Hlong).
      assert (String.length t ≤ trailing_tag_prefix_len s p); [|unfold emit in *; lia].
      apply Hlong; [lia|]. rewrite <- Htp. unfold ends_with. apply andb_true_iff. split; [apply Nat.leb_le; lia|].
      apply String.eqb_eq. replace (String.length s - String.length t) with j by lia. done. }
  assert (Hshift : ∀ j, drop_bytes (emit + j) (s +:+ u) = drop_bytes j (drop_bytes emit s +:+ u)).
  { intros j. rewrite <- (drop_bytes_app_le emit s u) by done. generalize emit (s +:+ u). clear.
    intros n. induction n as [|n IH]; [done|]. intros [|a s]; [by destruct j|]. apply IH. }
  destruct (find (drop_bytes emit s +:+ u) p) as [i|] eqn:Hf; simpl.
  - apply find_Some in Hf as (H1 & H2 & H3). apply find_Some. rewrite Hshift. split_and!; [done| |].
    + rewrite string_length_app, drop_bytes_length in H2. rewrite string_length_app. lia.
    + intros j Hj. destruct (decide (j < emit)); [by apply Hbefore|].
      replace j with (emit + (j - emit)) by lia. rewrite Hshift. apply H3. lia.
  - pose proof (proj1 (find_None _ _) Hf) as Hno. apply find_None. intros j Hj. destruct (decide (j < emit)); [by apply Hbefore|].
    replace j with (emit + (j - emit)) by lia. rewrite Hshift. apply Hno.
    rewrite string_length_app, drop_bytes_length. rewrite string_length_app in Hj. lia.
Qed.

(** ** The two sanitizers agree *)

Lemma strip_fuel n m b s : String.length s < n → String.length s < m → strip n b s = strip m b s.
Proof.
  revert m b s. induction n as [|n IH]; intros m b s Hn Hm; [lia|]. destruct m as [|m]; [lia|]. cbn [strip].
  destruct b; case_match eqn:Hf; [| done | | done].
  - apply find_bound in Hf. cbn in Hf. apply IH; rewrite drop_bytes_length; cbn; lia.
  - apply find_bound in Hf. cbn in Hf. f_equal. apply IH; rewrite drop_bytes_length; cbn; lia.
Qed.

(** The reference on the text still to be read, at a tag or between tags. *)
Definition rest_of (b : bool) (s : string) : string := strip (S (String.length s)) b s.

Lemma rest_of_fuel n b s : String.length s < n → strip n b s = rest_of b s.
Proof. intros Hn. apply strip_fuel; lia. Qed.

Lemma rest_inside_Some s e :
  find s THINK_CLOSE = Some e → rest_of true s = rest_of false (drop_bytes (e + String.length THINK_CLOSE) s).
Proof.
  intros Hf. unfold rest_of at 1. cbn [strip]. rewrite Hf. apply find_bound in Hf. cbn in Hf.
  apply rest_of_fuel. rewrite drop_bytes_length. cbn. lia.
Qed.

Lemma rest_outside_Some s i :
  find s THINK_OPEN = Some i →
  rest_of false s = str_prefix i s +:+ rest_of true (drop_bytes (i + String.length THINK_OPEN) s).
Proof.
  intros Hf. unfold rest_of at 1. cbn [strip]. rewrite Hf. apply find_bound in Hf. cbn in Hf. f_equal.
  apply rest_of_fuel. rewrite drop_bytes_length. cbn. lia.
Qed.

Lemma rest_inside_None s : find s THINK_CLOSE = None → rest_of true s = EmptyString.
Proof. intros Hf. unfold rest_of. cbn [strip]. by rewrite Hf. Qed.

Lemma rest_outside_None s : find s THINK_OPEN = None → rest_of false s = s.
Proof. intros Hf. unfold rest_of. cbn [strip]. by rewrite Hf. Qed.

Lemma drop_bytes_add a b s : drop_bytes (a + b) s = drop_bytes b (drop_bytes a s).
Proof. revert s. induction a as [|a IH]; [done|]. intros [|c s]; [by destruct b|]. apply IH. Qed.

Lemma str_prefix_add a b s : str_prefix (a + b) s = str_prefix a s +:+ str_prefix b (drop_bytes a s).
Proof.
  unfold str_prefix. revert s. induction a as [|a IH]; intros s; simpl; [by destruct s|].
  destruct s as [|c s]; simpl; [by destruct b|]. by rewrite IH.
Qed.

Lemma rest_inside_skip s u :
  find s THINK_CLOSE = None →
  rest_of true (s +:+ u) = rest_of true (drop_bytes (String.length s - trailing_tag_prefix_len s THINK_CLOSE) s +:+ u).
Proof.
  intros Hn. pose proof (find_across s u THINK_CLOSE Hn ltac:(done)) as Hf. simpl in Hf.
  set (emit := String.length s - trailing_tag_prefix_len s THINK_CLOSE) in *.
  destruct (find (drop_bytes emit s +:+ u) THINK_CLOSE) as [i|] eqn:Hi; simpl in Hf.
  - rewrite (rest_inside_Some _ _ Hf), (rest_inside_Some _ _ Hi). f_equal.
    rewrite <- Nat.add_assoc, drop_bytes_add. f_equal. apply drop_bytes_app_le. unfold emit. lia.
  - by rewrite (rest_inside_None _ Hf), (rest_inside_None _ Hi).
Qed.

Lemma rest_outside_skip s u :
  find s THINK_OPEN = None →
  let emit := String.length s - trailing_tag_prefix_len s THINK_OPEN in
  rest_of false (s +:+ u) = str_prefix emit s +:+ rest_of false (drop_bytes emit s +:+ u).
Proof.
  intros Hn emit. pose proof (find_across s u THINK_OPEN Hn ltac:(done)) as Hf. simpl in Hf. fold emit in Hf.
  assert (Hle : emit ≤ String.length s) by (unfold emit; lia).
  assert (Hsplit : s +:+ u = str_prefix emit s +:+ (drop_bytes emit s +:+ u)).
  { rewrite <- string_app_assoc. f_equal. by apply split_text_at. }
  destruct (find (drop_bytes emit s +:+ u) THINK_OPEN) as [i|] eqn:Hi; simpl in Hf.
  - rewrite (rest_outside_Some _ _ Hf), (rest_outside_Some _ _ Hi).
    rewrite str_prefix_add, <- Nat.add_assoc, (drop_bytes_add emit), (drop_bytes_app_le emit s u), string_app_assoc by done.
    by rewrite (str_prefix_app_le emit s u) by done.
  - by rewrite (rest_outside_None _ Hf), (rest_outside_None _ Hi).
Qed.

Lemma push_loop_spec fuel b s :
  String.length s < fuel → ∀ u,
  rest_of b (s +:+ u) = (push_loop fuel b s).1 +:+ rest_of (in_think (push_loop fuel b s).2) (pending (push_loop fuel b s).2 +:+ u).
Proof.
  revert b s. induction fuel as [|f IH]; intros b s Hf u; [lia|]. cbn [push_loop]. destruct b.
  - destruct (find s THINK_CLOSE) as [e|] eqn:He; [|by apply rest_inside_skip].
    pose proof (find_bound _ _ _ He) as Hb. cbn in Hb. rewrite (rest_inside_Some _ _ (find_app _ _ _ u He)).
    rewrite drop_bytes_app_le by (cbn; lia). apply IH. rewrite drop_bytes_length. cbn. lia.
  - destruct (find s THINK_OPEN) as [i|] eqn:Hi; [|by apply rest_outside_skip].
    pose proof (find_bound _ _ _ Hi) as Hb. cbn in Hb. rewrite (rest_outside_Some _ _ (find_app _ _ _ u Hi)).
    rewrite drop_bytes_app_le by (cbn; lia). rewrite (IH true) by (rewrite drop_bytes_length; cbn; lia).
    destruct (push_loop f true _) as [out st]. cbn [fst snd]. rewrite str_prefix_app_le by lia. by rewrite string_app_assoc.
Qed.

Lemma push_loop_fuel n m b s : String.length s < n → String.length s < m → push_loop n b s = push_loop m b s.
Proof.
  revert m b s. induction n as [|n IH]; intros m b s Hn Hm; [lia|]. destruct m as [|m]; [lia|]. cbn [push_loop].
  destruct b; case_match eqn:Hf; [|done| |done]; pose proof (find_bound _ _ _ Hf) as Hb; cbn in Hb.
  - apply IH; rewrite drop_bytes_length; cbn; lia.
  - rewrite (IH m) by (rewrite drop_bytes_length; cbn; lia). done.
Qed.

Lemma ends_with_drop s p k : k ≤ String.length s - String.length p → ends_with (drop_bytes k s) p = ends_with s p.
Proof.
  intros Hk. unfold ends_with. rewrite drop_bytes_length. destruct (decide (String.length p ≤ String.length s)).
  - rewrite !(proj2 (Nat.leb_le _ _)) by lia. simpl. rewrite <- drop_bytes_add.
    by replace (k + (String.length s - k - String.length p)) with (String.length s - String.length p) by lia.
  - rewrite !(proj2 (Nat.leb_gt _ _)) by lia. done.
Qed.

Lemma ends_with_app_l s u p :
  String.length u ≤ String.length p → ends_with (s +:+ u) p = true →
  ends_with s (str_prefix (String.length p - String.length u) p) = true.
Proof.
  unfold ends_with. intros Hu [Hl He]%andb_true_iff. apply Nat.leb_le in Hl. apply String.eqb_eq in He.
  rewrite string_length_app in *. rewrite str_prefix_length by lia. apply andb_true_iff. split; [apply Nat.leb_le; lia|].
  apply String.eqb_eq. rewrite drop_bytes_app_le in He by lia.
  replace (String.length s + String.length u - String.length p) with (String.length s - (String.length p - String.length u)) in He by lia.
  set (n := String.length p - String.length u) in *. set (t := drop_bytes _ s) in *.
  assert (Ht : String.length t = n) by (unfold t; rewrite drop_bytes_length; lia).
  rewrite <- He, <- Ht, str_prefix_app_le by done. by rewrite str_prefix_all.
Qed.

Lemma str_prefix_twice a b s : a ≤ b → str_prefix a (str_prefix b s) = str_prefix a s.
Proof.
  unfold str_prefix. revert a b. induction s as [|c s IH]; intros [|a] [|b] Hab; simpl; try done; [lia|]. f_equal. apply IH. lia.
Qed.

(** What is kept back of a text depends only on what is kept back of its
    beginning. *)
Lemma keep_across s u p :
  let emit := String.length s - trailing_tag_prefix_len s p in
  trailing_tag_prefix_len (drop_bytes emit s +:+ u) p = trailing_tag_prefix_len (s +:+ u) p.
Proof.
  intros emit. pose proof (keep_le s p) as Hkeep. unfold trailing_tag_prefix_len at 1 2.
  destruct (longest_prefix_spec s p (String.length p - 1)) as (_ & _ & Hlong). fold (trailing_tag_prefix_len s p) in Hlong.
  assert (Hend : ∀ k, 0 < k ≤ String.length p - 1 →
    ends_with (drop_bytes emit s +:+ u) (str_prefix k p) = ends_with (s +:+ u) (str_prefix k p)).
  { intros k Hk. assert (Hpk : String.length (str_prefix k p) = k) by (apply str_prefix_length; lia).
    rewrite <- drop_bytes_app_le by (unfold emit; lia).
    destruct (decide (k ≤ String.length (s +:+ u) - emit)) as [Hle|Hgt].
    { apply ends_with_drop. rewrite Hpk. rewrite string_length_app in Hle |- *. unfold emit in *. lia. }
    rewrite string_length_app in Hgt. unfold emit in Hgt.
    assert (ends_with (drop_bytes emit (s +:+ u)) (str_prefix k p) = false) as ->.
    { unfold ends_with. rewrite (proj2 (Nat.leb_gt _ _)); [done|]. rewrite drop_bytes_length, string_length_app, Hpk. unfold emit. lia. }
    destruct (ends_with (s +:+ u) (str_prefix k p)) eqn:He; [|done]. exfalso.
    apply ends_with_app_l in He; [|rewrite Hpk; lia]. rewrite Hpk, str_prefix_twice in He by lia.
    apply Hlong in He; lia. }
  revert Hend. generalize (String.length p - 1) as n. induction n as [|n IH]; intros Hend; [done|]. cbn [longest_prefix].
  rewrite Hend by lia. case_match; [done|]. apply IH. intros k Hk. apply Hend. lia.
Qed.

Lemma drop_across emit s u k :
  emit ≤ String.length s → k ≤ String.length (drop_bytes emit s +:+ u) →
  drop_bytes (String.length (drop_bytes emit s +:+ u) - k) (drop_bytes emit s +:+ u)
  = drop_bytes (String.length (s +:+ u) - k) (s +:+ u).
Proof.
  intros He Hk. rewrite string_length_app, drop_bytes_length in *. rewrite <- (drop_bytes_app_le emit s u), <- drop_bytes_add by done.
  f_equal. rewrite string_length_app. lia.
Qed.

Lemma push_loop_app n m k b s u :
  String.length (s +:+ u) < n → String.length s < m → String.length (s +:+ u) < k →
  push_loop n b (s +:+ u) =
    let '(o, st) := push_loop m b s in
    let '(o', st') := push_loop k (in_think st) (pending st +:+ u) in (o +:+ o', st').
Proof.
  revert n b s. induction m as [|m IH]; intros n b s Hn Hm Hk; [lia|]. cbn [push_loop]. destruct n as [|n]; [lia|].
  rewrite string_length_app in *. destruct b.
  - destruct (find s THINK_CLOSE) as [e|] eqn:He.
    + cbn [push_loop]. rewrite (find_app _ _ _ u He). pose proof (find_bound _ _ _ He) as Hb. cbn in Hb.
      rewrite drop_bytes_app_le by (cbn; lia). apply IH; rewrite ?string_length_app, ?drop_bytes_length; cbn; lia.
    + cbn [in_think pending]. set (emit := String.length s - trailing_tag_prefix_len s THINK_CLOSE).
      pose proof (find_across s u THINK_CLOSE He ltac:(done)) as Hf. cbn zeta in Hf. fold emit in Hf.
      assert (Hle : emit ≤ String.length s) by (unfold emit; lia).
      destruct k as [|k]; [lia|]. cbn [push_loop]. rewrite Hf.
      destruct (find (drop_bytes emit s +:+ u) THINK_CLOSE) as [i|] eqn:Hi; simpl fmap; cbn [option_fmap option_map].
      * rewrite <- Nat.add_assoc, (drop_bytes_add emit), (drop_bytes_app_le emit s u) by done.
        pose proof (find_bound _ _ _ Hi) as Hb. rewrite string_length_app, drop_bytes_length in Hb. cbn in Hb.
        rewrite (push_loop_fuel n k) by (rewrite drop_bytes_length, string_length_app, drop_bytes_length; cbn; lia).
        by destruct (push_loop k false _).
      * rewrite (keep_across s u THINK_CLOSE : trailing_tag_prefix_len (drop_bytes emit s +:+ u) _ = _).
        rewrite drop_across; [done|done|]. pose proof (keep_le (drop_bytes emit s +:+ u) THINK_CLOSE) as Hkl.
        by rewrite (keep_across s u THINK_CLOSE : trailing_tag_prefix_len (drop_bytes emit s +:+ u) _ = _) in Hkl.
  - destruct (find s THINK_OPEN) as [e|] eqn:He.
    + cbn [push_loop]. rewrite (find_app _ _ _ u He). pose proof (find_bound _ _ _ He) as Hb. cbn in Hb.
      rewrite drop_bytes_app_le by (cbn; lia). rewrite str_prefix_app_le by lia.
      rewrite (IH n) by (rewrite ?string_length_app, ?drop_bytes_length; cbn; lia).
      destruct (push_loop m true _) as [o st]. destruct (push_loop k _ _) as [o' st']. by rewrite string_app_assoc.
    + cbn [in_think pending]. set (emit := String.length s - trailing_tag_prefix_len s THINK_OPEN).
      pose proof (find_across s u THINK_OPEN He ltac:(done)) as Hf. cbn zeta in Hf. fold emit in Hf.
      assert (Hle : emit ≤ String.length s) by (unfold emit; lia).
      destruct k as [|k]; [lia|]. cbn [push_loop]. rewrite Hf.
      destruct (find (drop_bytes emit s +:+ u) THINK_OPEN) as [i|] eqn:Hi; simpl fmap; cbn [option_fmap option_map].
      * rewrite <- Nat.add_assoc, (drop_bytes_add emit), str_prefix_add, (drop_bytes_app_le emit s u), (str_prefix_app_le emit s u) by done.
        pose proof (find_bound _ _ _ Hi) as Hb. rewrite string_length_app, drop_bytes_length in Hb. cbn in Hb.
        rewrite (push_loop_fuel n k) by (rewrite drop_bytes_length, string_length_app, drop_bytes_length; cbn; lia).
        destruct (push_loop k true _). by rewrite string_app_assoc.
      * pose proof (keep_across s u THINK_OPEN) as Hka. cbn zeta in Hka. fold emit in Hka. rewrite Hka.
        pose proof (keep_le (drop_bytes emit s +:+ u) THINK_OPEN) as Hkl. rewrite Hka in Hkl.
        rewrite drop_across by done. f_equal. rewrite string_length_app, drop_bytes_length in Hkl.
        rewrite (string_length_app s u), (string_length_app (drop_bytes emit s) u), drop_bytes_length. set (kept := trailing_tag_prefix_len (s +:+ u) THINK_OPEN) in *.
        replace (String.length s + String.length u - kept) with (emit + (String.length s - emit + String.length u - kept)) by lia.
        by rewrite str_prefix_add, (drop_bytes_app_le emit s u), (str_prefix_app_le emit s u) by done.
Qed.

Lemma push_loop_pending n i t o st : push_loop n i t = (o, st) → String.length (pending st) ≤ String.length t.
Proof.
  revert i t o st. induction n as [|n IH]; intros i t o st; cbn [push_loop]; [by intros [= <- <-]|].
  destruct i; case_match eqn:Hf.
  - intros Hp. apply IH in Hp. rewrite drop_bytes_length in Hp. lia.
  - intros [= <- <-]. cbn [pending]. rewrite drop_bytes_length. lia.
  - destruct (push_loop n true _) as [o' st'] eqn:Hp. intros [= <- <-]. apply IH in Hp. rewrite drop_bytes_length in Hp. lia.
  - intros [= <- <-]. cbn [pending]. rewrite drop_bytes_length. lia.
Qed.

Lemma push_app s a b :
  push s (a +:+ b) = let '(o, st) := push s a in let '(o', st') := push st b in (o +:+ o', st').
Proof.
  unfold push. rewrite <- string_app_assoc. set (t := pending s +:+ a).
  rewrite (push_loop_app _ (S (String.length t)) (S (String.length (t +:+ b)))) by lia.
  destruct (push_loop (S (String.length t)) (in_think s) t) as [o st] eqn:Hp.
  pose proof (push_loop_pending _ _ _ _ _ Hp) as Hlen.
  rewrite (push_loop_fuel _ (S (String.length (pending st +:+ b)))) by (rewrite !string_length_app; lia). done.
Qed.

(** Nothing was said, or the tail that may still become a tag was kept. *)
Definition held (s : StreamSanitizer) : Prop :=
  let tag := if in_think s then THINK_CLOSE else THINK_OPEN in
  ∃ k, k < String.length tag ∧ pending s = str_prefix k tag.

Lemma kept_is_held s tag :
  tag ≠ EmptyString → ∃ k, k < String.length tag ∧ drop_bytes (String.length s - trailing_tag_prefix_len s tag) s = str_prefix k tag.
Proof.
  intros Ht. exists (trailing_tag_prefix_len s tag). pose proof (keep_le s tag) as Hle. unfold trailing_tag_prefix_len in *.
  destruct (longest_prefix_spec s tag (String.length tag - 1)) as (H1 & H2 & _). set (k := longest_prefix _ _ _) in *.
  assert (0 < String.length tag) by (destruct tag; simpl; [done|lia]). split; [lia|].
  destruct (decide (k = 0)) as [->|].
  - rewrite Nat.sub_0_r. pose proof (drop_bytes_length (String.length s) s) as Hz. rewrite Nat.sub_diag in Hz.
    destruct (drop_bytes (String.length s) s); [by destruct tag|done].
  - specialize (H2 ltac:(lia)). unfold ends_with in H2. apply andb_true_iff in H2 as [_ H2]. apply String.eqb_eq in H2.
    by rewrite str_prefix_length in H2 by lia.
Qed.

Lemma push_loop_held n i t : String.length t < n → held (push_loop n i t).2.
Proof.
  revert i t. induction n as [|n IH]; intros i t Hn; [lia|]. cbn [push_loop].
  destruct i; case_match eqn:Hf.
  - apply find_bound in Hf. cbn in Hf. apply IH. rewrite drop_bytes_length. cbn. lia.
  - by apply kept_is_held.
  - apply find_bound in Hf. cbn in Hf. specialize (IH true (drop_bytes (n0 + String.length THINK_OPEN) t)).
    destruct (push_loop n true _) as [o' st']. apply IH. rewrite drop_bytes_length. cbn. lia.
  - by apply kept_is_held.
Qed.

Lemma held_rest s : held s → rest_of (in_think s) (pending s) = if in_think s then EmptyString else pending s.
Proof.
  unfold held. destruct (in_think s); intros (k & Hk & ->).
  - apply rest_inside_None, find_None. intros j _. destruct (starts_with _ _) eqn:Hs; [|done]. apply starts_with_length in Hs.
    rewrite drop_bytes_length, str_prefix_length in Hs by lia. lia.
  - apply rest_outside_None, find_None. intros j _. destruct (starts_with _ _) eqn:Hs; [|done]. apply starts_with_length in Hs.
    rewrite drop_bytes_length, str_prefix_length in Hs by lia. lia.
Qed.

Lemma push_all_push s c chunks : push_all s (c :: chunks) = push s (join EmptyString (c :: chunks)).
Proof.
  revert s c. induction chunks as [|d chunks IH]; intros s c.
  - cbn [push_all join]. destruct (push s c) as [o st]. by rewrite string_app_nil_r.
  - change (join EmptyString (c :: d :: chunks)) with (c +:+ join EmptyString (d :: chunks)). rewrite push_app.
    cbn [push_all] in IH |- *. destruct (push s c) as [o st]. specialize (IH st d). rewrite <- IH. by destruct (push st d).
Qed.

(** Whatever chunks a reply arrives in, the person is shown what the finished
    reply shows outside its thinking blocks, byte for byte, less at most the
    beginning of a tag that more text could still complete; and the chunking
    makes no difference. *)
Theorem stream_shows_the_reply (chunks : list string) :
  let '(shown, s) := push_all StreamSanitizer_new chunks in
  strip_think_blocks (join EmptyString chunks) = shown +:+ (if in_think s then EmptyString else pending s) ∧
  held s ∧ push StreamSanitizer_new (join EmptyString chunks) = (shown, s).
Proof.
  assert (Hall : push_all StreamSanitizer_new chunks = push StreamSanitizer_new (join EmptyString chunks)).
  { destruct chunks as [|c chunks]; [done|apply push_all_push]. }
  rewrite Hall. destruct (push StreamSanitizer_new (join EmptyString chunks)) as [shown s] eqn:Hp.
  unfold push in Hp. set (t := pending StreamSanitizer_new +:+ join EmptyString chunks) in *.
  pose proof (push_loop_held (S (String.length t)) (in_think StreamSanitizer_new) t ltac:(lia)) as Hheld.
  pose proof (push_loop_spec (S (String.length t)) (in_think StreamSanitizer_new) t ltac:(lia) EmptyString) as Hspec.
  rewrite Hp in Hheld, Hspec. cbn [fst snd] in *. rewrite !string_app_nil_r, held_rest in Hspec by done.
  split; [exact Hspec|done].
Qed.

(** The reference kept for the tests holds back a tag beginning in what it has
    already put together, so the two differ on a bracket before a block. *)
Lemma stream_and_reference_differ :
  (push StreamSanitizer_new "<<think>x</think>").1 = "<" ∧ sanitize_assistant_text_for_stream "<<think>x</think>" = EmptyString.
Proof. by vm_compute. Qed.

(** ** Gaps *)

Lemma contains_find s p : contains_str s p = true ↔ is_Some (find s p).
Proof.
  induction s as [|a s IH]; cbn [contains_str find]; destruct (starts_with _ p); simpl.
  - split; eauto.
  - split; [done|by intros [? ?]].
  - split; eauto.
  - rewrite IH. by rewrite fmap_is_Some.
Qed.

Lemma replace_loop_length fuel s from to :
  String.length to ≤ String.length from → String.length (replace_loop fuel s from to) ≤ String.length s.
Proof.
  intros Hto. revert s. induction fuel as [|f IH]; intros s; cbn [replace_loop]; [done|]. case_match eqn:Hf; [|done].
  apply find_bound in Hf. specialize (IH (drop_bytes (n + String.length from) s)). rewrite drop_bytes_length in IH.
  rewrite !string_length_app, str_prefix_length by lia. lia.
Qed.

Lemma replace_shrinks s from to :
  String.length to < String.length from → contains_str s from = true → String.length (replace s from to) < String.length s.
Proof.
  intros Hto [i Hi]%contains_find. unfold replace. cbn [replace_loop]. rewrite Hi.
  pose proof (replace_loop_length (String.length s) (drop_bytes (i + String.length from) s) from to ltac:(lia)) as Hl.
  apply find_bound in Hi. rewrite drop_bytes_length in Hl. rewrite !string_length_app, str_prefix_length by lia. lia.
Qed.

Lemma collapse_gaps_done fuel s : String.length s ≤ fuel → contains_str (collapse_gaps fuel s) (newlines 3) = false.
Proof.
  revert s. induction fuel as [|f IH]; intros s Hs; cbn [collapse_gaps]; [by destruct s; [|simpl in Hs; lia]|].
  case_match eqn:Hc; [|done]. apply IH. pose proof (replace_shrinks s (newlines 3) (newlines 2) ltac:(simpl; lia) Hc). lia.
Qed.

(** The loop ends, and what it leaves has no blank line after a blank line. *)
Lemma sanitized_has_no_gap text : contains_str (sanitize_assistant_text text) (newlines 3) = false.
Proof. by apply collapse_gaps_done. Qed.

(** ** Credentials *)

Definition code_in (a : Ascii.ascii) (lo hi : nat) : bool :=
  let n := Ascii.nat_of_ascii a in (lo <=? n) && (n <=? hi).

Definition is_digit (a : Ascii.ascii) : bool := code_in a 48 57.
Definition is_alpha (a : Ascii.ascii) : bool := code_in a 65 90 || code_in a 97 122.
Definition is_alnum (a : Ascii.ascii) : bool := is_digit a || is_alpha a.

Fixpoint all_chars (p : Ascii.ascii → bool) (s : string) : bool :=
  match s with EmptyString => true | String a s' => p a && all_chars p s' end.
Definition any_char (p : Ascii.ascii → bool) (s : string) : bool := negb (all_chars (λ a, negb (p a)) s).

Definition secret_prefixes : list string := ["AKIA"; "ASIA"; "sk-"; "xoxb-"; "xoxp-"; "ghp_"; "github_pat_"; "AIza"].

Definition secret_char (a : Ascii.ascii) : bool := is_alnum a || contains_str "+/_=-." (String a EmptyString).

Definition looks_like_secret (core : string) : bool :=
  existsb (starts_with core) secret_prefixes ||
  (20 <=? String.length core) && all_chars secret_char core && any_char is_digit core && any_char is_alpha core.

(** [trim_matches(|c| !c.is_ascii_alphanumeric())]: no byte of a longer
    character is alphanumeric, so bytes do for characters. *)
Fixpoint trim_start (s : string) : string :=
  match s with EmptyString => s | String a s' => if is_alnum a then s else trim_start s' end.
Definition token_core (s : string) : string := string_rev (trim_start (string_rev (trim_start s))).

Definition REDACTED : string := "[REDACTED]".

Definition redact_token (token : string) : string :=
  let core := token_core token in
  if String.eqb core EmptyString || negb (looks_like_secret core) then token else replace token core REDACTED.

Definition redact_secrets (text : string) : string := join " " (map redact_token (split_whitespace text)).

Lemma all_chars_app p s t : all_chars p (s +:+ t) = all_chars p s && all_chars p t.
Proof. induction s as [|a s IH]; [done|]. simpl. rewrite IH. by destruct (p a). Qed.

Lemma all_chars_rev p s : all_chars p (string_rev s) = all_chars p s.
Proof.
  induction s as [|a s IH]; [done|]. change (String a s) with (String a EmptyString +:+ s).
  rewrite string_rev_app, !all_chars_app, IH. simpl. by rewrite andb_true_r, andb_comm.
Qed.

Definition plain (s : string) : Prop := all_chars (λ a, negb (is_alnum a)) s = true.
Definition opens (s : string) : Prop := match s with EmptyString => True | String a _ => is_alnum a = true end.

Lemma trim_start_split s : ∃ l, s = l +:+ trim_start s ∧ plain l ∧ opens (trim_start s).
Proof.
  induction s as [|a s IH]; [by exists EmptyString|]. cbn [trim_start]. destruct (is_alnum a) eqn:Ha.
  - by exists EmptyString.
  - destruct IH as (l & Hs & Hl & Ho). exists (String a l). split_and!; [by rewrite string_app_cons, <- Hs| |done].
    unfold plain. simpl. by rewrite Ha.
Qed.

Lemma trim_start_plain l s : plain l → trim_start (l +:+ s) = trim_start s.
Proof.
  unfold plain. induction l as [|a l IH]; [done|]. simpl. intros [Ha Hl]%andb_true_iff. apply negb_true_iff in Ha. rewrite Ha. by apply IH.
Qed.

Lemma trim_start_opens s : opens s → trim_start s = s.
Proof. destruct s as [|a s]; [done|]. simpl. by intros ->. Qed.

Lemma opens_app s t : s ≠ EmptyString → opens s → opens (s +:+ t).
Proof. by destruct s. Qed.

(** The core of a token is what stands between its plain ends. *)
Lemma token_core_spec token :
  ∃ l r, token = l +:+ token_core token +:+ r ∧ plain l ∧ plain r ∧ opens (token_core token).
Proof.
  destruct (trim_start_split token) as (l & Ht & Hl & Ho). set (t := trim_start token) in *.
  destruct (trim_start_split (string_rev t)) as (r & Hr & Hpr & Hor).
  exists l, (string_rev r). unfold token_core. fold t. rewrite Ht at 1. apply (f_equal string_rev) in Hr as Hr'.
  rewrite string_rev_rev, string_rev_app in Hr'. split_and!.
  - by rewrite <- Hr'.
  - done.
  - unfold plain. by rewrite all_chars_rev.
  - destruct (string_rev (trim_start (string_rev t))) as [|a c] eqn:Hc; [done|]. rewrite Hr' in Ho. by simpl in Ho.
Qed.

Lemma token_core_of l c r :
  plain l → plain r → opens c → opens (string_rev c) → c ≠ EmptyString → token_core (l +:+ c +:+ r) = c.
Proof.
  intros Hl Hr Hc Hrc Hne. unfold token_core. rewrite trim_start_plain, (trim_start_opens (c +:+ r)) by (done || by apply opens_app).
  rewrite string_rev_app, trim_start_plain by (unfold plain; by rewrite all_chars_rev).
  rewrite trim_start_opens by done. apply string_rev_rev.
Qed.

(** A core can only occur where the token first has a letter or a digit. *)
Lemma find_core l c r : plain l → opens c → c ≠ EmptyString → find (l +:+ c +:+ r) c = Some (String.length l).
Proof.
  intros Hl Hc Hne. destruct c as [|a c]; [done|]. simpl in Hc. induction l as [|b l IH].
  - change (EmptyString +:+ String a c +:+ r) with (String a (c +:+ r)). cbn [find].
    by rewrite (proj2 (starts_with_app _ _)) by (by exists r).
  - unfold plain in Hl. simpl in Hl. apply andb_true_iff in Hl as [Hb Hl]. rewrite string_app_cons. cbn [find].
    destruct (starts_with (String b (l +:+ String a c +:+ r)) (String a c)) eqn:Hs.
    + apply starts_with_app in Hs as [t Ht]. injection Ht as -> _. by rewrite Hc in Hb.
    + by rewrite IH.
Qed.

Lemma find_plain r c : plain r → opens c → c ≠ EmptyString → find r c = None.
Proof.
  intros Hr Hc Hne. destruct c as [|a c]; [done|]. simpl in Hc. unfold plain in Hr. induction r as [|b r IH]; [done|].
  simpl in Hr. apply andb_true_iff in Hr as [Hb Hr]. cbn [find]. destruct (starts_with (String b r) (String a c)) eqn:Hs.
  - apply starts_with_app in Hs as [t Ht]. injection Ht as -> _. by rewrite Hc in Hb.
  - by rewrite IH.
Qed.

Lemma replace_core l c r : plain l → plain r → opens c → c ≠ EmptyString → replace (l +:+ c +:+ r) c REDACTED = l +:+ REDACTED +:+ r.
Proof.
  intros Hl Hr Hc Hne. unfold replace. cbn [replace_loop]. rewrite (find_core l c r) by done.
  rewrite str_prefix_app_le, str_prefix_all by done.
  rewrite drop_bytes_add, drop_bytes_app, drop_bytes_app.
  destruct (String.length (l +:+ c +:+ r)) as [|n] eqn:Hn; cbn [replace_loop]; [done|]. by rewrite (find_plain r c).
Qed.

(** Redaction leaves no credential: a token that looked like one is replaced
    whole between its punctuation, every other token stands, and no token that
    goes out looks like a credential. *)
Theorem redaction_leaves_no_credential (text : string) :
  ∃ tokens, redact_secrets text = join " " tokens ∧
    Forall (λ t, looks_like_secret (token_core t) = false) tokens ∧
    Forall2 (λ before after,
      (looks_like_secret (token_core before) = false ∧ after = before) ∨
      looks_like_secret (token_core before) = true ∧
      ∃ l r, plain l ∧ plain r ∧ before = l +:+ token_core before +:+ r ∧ after = l +:+ REDACTED +:+ r) (split_whitespace text) tokens.
Proof.
  exists (map redact_token (split_whitespace text)). split; [done|]. generalize (split_whitespace text) as ts. intros ts.
  assert (Hone : ∀ t, looks_like_secret (token_core (redact_token t)) = false ∧
    ((looks_like_secret (token_core t) = false ∧ redact_token t = t) ∨
     looks_like_secret (token_core t) = true ∧ ∃ l r, plain l ∧ plain r ∧ t = l +:+ token_core t +:+ r ∧ redact_token t = l +:+ REDACTED +:+ r)).
  { intros t. unfold redact_token. destruct (String.eqb_spec (token_core t) EmptyString) as [He|Hne]; simpl; [by rewrite He; auto|].
    destruct (looks_like_secret (token_core t)) eqn:Hs; simpl; [|auto].
    destruct (token_core_spec t) as (l & r & Ht & Hl & Hr & Ho).
    assert (Hrep : replace t (token_core t) REDACTED = l +:+ REDACTED +:+ r).
    { set (c := token_core t) in *. clearbody c. subst t. by apply replace_core. }
    rewrite Hrep. split; [|right; split; [done|by exists l, r]].
    change (l +:+ REDACTED +:+ r) with (l +:+ ("[" +:+ "REDACTED" +:+ "]") +:+ r).
    rewrite !string_app_assoc, <- (string_app_assoc l "["). rewrite token_core_of; [done| | |done|done|done];
      unfold plain in *; rewrite all_chars_app; [by rewrite Hl|by rewrite Hr]. }
  split.
  - apply Forall_map, Forall_true. intros t. apply Hone.
  - induction ts as [|t ts IH]; constructor; [apply Hone|done].
Qed.

(** ** Fields a client reports of itself *)

Definition MAX_CLIENT_FIELD_CHARS : nat := 200.

(** The bytes of a control character at the head of a string: U+0000 to U+001F,
    U+007F and U+0080 to U+009F. *)
Definition control_len (s : string) : option nat :=
  match s with
  | String a s' =>
      if code_in a 0 31 || code_in a 127 127 then Some 1
      else if code_in a 194 194 then
        match s' with String b _ => if code_in b 128 159 then Some 2 else None | EmptyString => None end
      else None
  | EmptyString => None
  end.

(** Whitespace becomes a space, control characters go; [skip] counts the bytes
    left of the character just handled. *)
Fixpoint normalize (skip : nat) (s : string) : string :=
  match s with
  | EmptyString => EmptyString
  | String a s' =>
      match skip with
      | S k => normalize k s'
      | O =>
          match ws_len white_space s, control_len s with
          | Some n, _ => String (Ascii.ascii_of_nat 32) (normalize (n - 1) s')
          | None, Some n => normalize (n - 1) s'
          | None, None => String a (normalize 0 s')
          end
      end
  end.

Definition sanitize_client_field (raw : string) : option string :=
  let collapsed := collapse (normalize 0 raw) in
  if String.eqb collapsed EmptyString then None else Some (take_chars MAX_CLIENT_FIELD_CHARS collapsed).

(** A reported value is one line of bounded length when it reaches the prompt. *)
Lemma client_field_is_a_line raw field :
  sanitize_client_field raw = Some field → clean line_breaking field ∧ chars_count field ≤ MAX_CLIENT_FIELD_CHARS.
Proof.
  unfold sanitize_client_field. case_match; [done|]. intros [= <-]. split; [apply clean_take, collapse_clean|apply chars_count_take].
Qed.

Example forged_header_is_one_line :
  sanitize_client_field (bytes [104; 10; 35; 32; 7; 120; 9; 194; 133; 121]) = Some "h # x y" ∧ sanitize_client_field (bytes [9; 10; 7]) = None.
Proof. by vm_compute. Qed.
