(* ===== verification/ToolRepeat.v ===== *)
(** * The turn's ledger of repeated tool calls

    Models [crates/core/src/tool_repeat.rs] (the whole module) and the three
    places where the turn loop of [crates/core/src/service.rs] consults it.

    SHA-256 is the [sha2] crate and JSON printing is [serde_json]; both are
    section variables.  A 32-byte digest is the string the hash returns. *)

From S2P Require Import Prelude.
From stdpp Require Import pretty.

#[local] Open Scope Z_scope.

(** ** Constants *)

Definition INITIAL_THRESHOLD : Z := 2.
Definition MAX_THRESHOLD : Z := 16.
Definition MIN_SUPPRESSIBLE_BYTES : Z := 512.
Definition MAX_TOOL_ROUNDS : nat := 200.
Definition TRANSCRIPT_GET_TOOL : string := "builtin_transcript_get".
Definition TOOL_SEARCH_TOOL : string := "builtin_tool_search".
Definition SPAWN_SUBAGENT_TOOL : string := "spawn_subagent".

(** ** Data *)

Record RepeatKey := {
  location : option string;
  name : string;
  arguments : string
}.

#[export] Instance RepeatKey_eq_dec : EqDecision RepeatKey.
Proof. solve_decision. Defined.

#[export] Instance RepeatKey_countable : Countable RepeatKey.
Proof.
  apply (inj_countable' (λ k, (location k, name k, arguments k))
                        (λ t, Build_RepeatKey t.1.1 t.1.2 t.2)).
  by intros [].
Defined.

Record Held := { message_id : string; digest : string }.

Record RepeatRecord := {
  attempts : Z;
  held : option Held;
  suppressible : bool;
  suppressions : Z;
  threshold : Z
}.

Definition RepeatRecord_default : RepeatRecord :=
  {| attempts := 0; held := None; suppressible := false;
     suppressions := 0; threshold := INITIAL_THRESHOLD |}.

Inductive RepeatVerdict :=
| Execute
| Suppress (message_id : string) (attempts : Z).

Inductive ResultDisposition :=
| Store
| SameAs (message_id : string).

Record RepeatLedger := { seen : gmap RepeatKey RepeatRecord }.

Definition RepeatLedger_new : RepeatLedger := {| seen := ∅ |}.

(** [HashMap::entry(key).or_default()]. *)
Definition record_of (l : RepeatLedger) (key : RepeatKey) : RepeatRecord :=
  default RepeatRecord_default (seen l !! key).

Arguments record_of : simpl never.

(** ** Operations *)

Definition observe_dispatch (l : RepeatLedger) (key : RepeatKey) (may_suppress : bool)
  : RepeatLedger * RepeatVerdict :=
  let r := record_of l key in
  let att := sat_add u32_max (attempts r) 1 in
  let put r' := {| seen := <[key := r']> (seen l) |} in
  let counted := {| attempts := att; held := held r; suppressible := suppressible r;
                    suppressions := suppressions r; threshold := threshold r |} in
  if negb may_suppress || negb (suppressible r) then (put counted, Execute)
  else
    match held r with
    | None => (put counted, Execute)
    | Some h =>
        if threshold r <=? suppressions r then
          (put {| attempts := att; held := held r; suppressible := suppressible r;
                  suppressions := 0;
                  threshold := Z.min (sat_mul u32_max (threshold r) 2) MAX_THRESHOLD |},
           Execute)
        else
          (put {| attempts := att; held := held r; suppressible := suppressible r;
                  suppressions := sat_add u32_max (suppressions r) 1;
                  threshold := threshold r |},
           Suppress (message_id h) att)
    end.

Definition disposition (l : RepeatLedger) (key : RepeatKey) (d : string) (output_bytes : Z)
  : ResultDisposition :=
  if output_bytes <? MIN_SUPPRESSIBLE_BYTES then Store
  else
    match seen l !! key ≫= held with
    | Some h => if bool_decide (digest h = d) then SameAs (message_id h) else Store
    | None => Store
    end.

Definition record (l : RepeatLedger) (key : RepeatKey) (mid : string) (d : string)
    (output_bytes : Z) : RepeatLedger :=
  let r := record_of l key in
  let r' :=
    match held r with
    | None =>
        {| attempts := attempts r; held := Some {| message_id := mid; digest := d |};
           suppressible := suppressible r; suppressions := suppressions r;
           threshold := threshold r |}
    | Some h =>
        if bool_decide (digest h = d) then
          {| attempts := attempts r; held := Some h;
             suppressible := MIN_SUPPRESSIBLE_BYTES <=? output_bytes;
             suppressions := suppressions r; threshold := threshold r |}
        else
          {| attempts := attempts r; held := Some {| message_id := mid; digest := d |};
             suppressible := false; suppressions := 0; threshold := INITIAL_THRESHOLD |}
    end in
  {| seen := <[key := r']> (seen l) |}.

(** The two texts the model reads in place of a result. *)

Definition same_bytes_notice (mid : string) : string :=
  "<same as before: this call ran, and it returned exactly the bytes it returned earlier in this turn, so they are not repeated here. They are stored as message "
  +:+ mid +:+ ", and they are current. Read them with " +:+ TRANSCRIPT_GET_TOOL
  +:+ " message_id=" +:+ dq +:+ mid +:+ dq +:+ ".>".

Definition suppressed_notice (mid : string) (n : Z) : string :=
  "<not run: you have now made this exact call " +:+ pretty n
  +:+ " times in this turn, and the last runs all returned the same output. The tool did not run this time, so what follows is not a fresh answer: it is the result of an earlier run, stored as message "
  +:+ mid +:+ ", and it may be out of date. Read it with " +:+ TRANSCRIPT_GET_TOOL
  +:+ " message_id=" +:+ dq +:+ mid
  +:+ dq +:+ ". This call runs again on its own after a few more attempts; to get a fresh answer now, change the arguments.>".

Definition may_suppress (call_name : string) : bool :=
  negb (bool_decide (call_name = TOOL_SEARCH_TOOL)) &&
  negb (bool_decide (call_name = SPAWN_SUBAGENT_TOOL)).

(** ** The loop's use of the ledger

    One tool call of the turn loop: count it, and either answer from the
    transcript or run it, ask where its bytes are, append a row and record the
    run.  [stored] is what the tool returned, [mid] the id of the row the loop
    appends.  Returns the ledger, whether the tool ran, and the row's content. *)

Section loop.
Variable sha256 : string → string.
Variable Value : Type.
Variable value_to_string : Value → string.

Definition ResultDigest_of (output : string) : string := sha256 output.

Definition RepeatKey_new (connection_label : option string) (call_name : string)
    (args : Value) : RepeatKey :=
  {| location := connection_label; name := call_name;
     arguments := sha256 (value_to_string args) |}.

Definition loop_call (l : RepeatLedger) (key : RepeatKey) (mid stored : string)
  : RepeatLedger * bool * string :=
  match observe_dispatch l key (may_suppress (name key)) with
  | (l', Suppress m n) => (l', false, suppressed_notice m n)
  | (l', Execute) =>
      let d := ResultDigest_of stored in
      let content :=
        match disposition l' key d (slen stored) with
        | SameAs m => same_bytes_notice m
        | Store => stored
        end in
      (record l' key mid d (slen stored), true, content)
  end.

End loop.

(** ** Events and histories *)

Inductive Event :=
| Dispatch (key : RepeatKey) (may : bool)
| Ran (key : RepeatKey) (mid : string) (d : string) (output_bytes : Z).

Definition apply_event (l : RepeatLedger) (e : Event) : RepeatLedger :=
  match e with
  | Dispatch k may => (observe_dispatch l k may).1
  | Ran k mid d n => record l k mid d n
  end.

Definition run_events (l : RepeatLedger) (es : list Event) : RepeatLedger :=
  foldl apply_event l es.

(** The runs of one key, oldest first: row id, digest, output size. *)
Definition runs_of (k : RepeatKey) (es : list Event) : list (string * string * Z) :=
  omap (λ e, match e with
             | Ran k' mid d n => if bool_decide (k' = k) then Some (mid, d, n) else None
             | Dispatch _ _ => None
             end) es.

(** The dispatches of one key. *)
Fixpoint dispatches_of (k : RepeatKey) (es : list Event) : nat :=
  match es with
  | [] => 0
  | Dispatch k' _ :: es' => (if bool_decide (k' = k) then 1 else 0) + dispatches_of k es'
  | Ran _ _ _ _ :: es' => dispatches_of k es'
  end.

Lemma dispatches_of_app k es1 es2 :
  dispatches_of k (es1 ++ es2) = (dispatches_of k es1 + dispatches_of k es2)%nat.
Proof. induction es1 as [|[] es1 IH]; simpl; lia. Qed.

(** ** Invariant *)

Definition record_ok (r : RepeatRecord) : Prop :=
  0 ≤ attempts r ≤ u32_max ∧
  0 ≤ suppressions r ≤ threshold r ∧
  INITIAL_THRESHOLD ≤ threshold r ≤ MAX_THRESHOLD ∧
  (suppressible r = true → is_Some (held r)).

Definition ledger_ok (l : RepeatLedger) : Prop :=
  map_Forall (λ _ r, record_ok r) (seen l).

Lemma record_ok_default : record_ok RepeatRecord_default.
Proof. unfold record_ok; cbn. unfold u32_max, INITIAL_THRESHOLD, MAX_THRESHOLD. split_and!; (lia || naive_solver). Qed.

Lemma record_of_ok l k : ledger_ok l → record_ok (record_of l k).
Proof.
  intros Hl. unfold record_of. destruct (seen l !! k) as [r|] eqn:E; simpl.
  - exact (Hl k r E).
  - apply record_ok_default.
Qed.

Lemma ledger_ok_put l k r :
  ledger_ok l → record_ok r → ledger_ok {| seen := <[k := r]> (seen l) |}.
Proof. intros Hl Hr. by apply map_Forall_insert_2. Qed.

Ltac ledger_consts := unfold u32_max, INITIAL_THRESHOLD, MAX_THRESHOLD, MIN_SUPPRESSIBLE_BYTES,
  sat_add, sat_mul in *.

Lemma observe_dispatch_ok l k may : ledger_ok l → ledger_ok (observe_dispatch l k may).1.
Proof.
  intros Hl. pose proof (record_of_ok l k Hl) as (Ha & Hs & Ht & Hh).
  unfold observe_dispatch. repeat case_match; simpl; apply ledger_ok_put; try done;
    unfold record_ok; simpl; bool_hyps; ledger_consts; split_and!; (lia || naive_solver).
Qed.

Lemma record_event_ok l k mid d n : ledger_ok l → ledger_ok (record l k mid d n).
Proof.
  intros Hl. pose proof (record_of_ok l k Hl) as (Ha & Hs & Ht & Hh).
  unfold record. apply ledger_ok_put; [done|].
  repeat case_match; unfold record_ok; simpl; ledger_consts; split_and!; (lia || naive_solver).
Qed.

Lemma ledger_ok_new : ledger_ok RepeatLedger_new.
Proof. apply map_Forall_empty. Qed.

Lemma apply_event_ok l e : ledger_ok l → ledger_ok (apply_event l e).
Proof. destruct e; simpl; eauto using observe_dispatch_ok, record_event_ok. Qed.

Lemma run_events_ok es l : ledger_ok l → ledger_ok (run_events l es).
Proof.
  revert l. induction es as [|e es IH]; intros l Hl; simpl; [done|].
  by apply IH, apply_event_ok.
Qed.

(** ** Lookup after one operation *)

Lemma record_of_put l k k' r :
  record_of {| seen := <[k := r]> (seen l) |} k' = if decide (k = k') then r else record_of l k'.
Proof. unfold record_of; simpl. rewrite lookup_insert. by case_decide. Qed.

Lemma observe_other l k k' may : k ≠ k' → record_of (observe_dispatch l k may).1 k' = record_of l k'.
Proof.
  intros Hne. unfold observe_dispatch.
  repeat case_match; simpl; rewrite record_of_put; by case_decide.
Qed.

Lemma record_other l k k' mid d n : k ≠ k' → record_of (record l k mid d n) k' = record_of l k'.
Proof. intros Hne. unfold record. rewrite record_of_put. by case_decide. Qed.

(** Counting a dispatch never touches what the key holds. *)
Lemma observe_same l k may :
  let r := record_of l k in
  let r' := record_of (observe_dispatch l k may).1 k in
  held r' = held r ∧ suppressible r' = suppressible r ∧
  attempts r' = sat_add u32_max (attempts r) 1.
Proof.
  unfold observe_dispatch. repeat case_match; simpl; rewrite record_of_put; case_decide; simpl; done.
Qed.

(** ** What a record says of the history of its key

    [explains h r]: the runs [h] of a key account for what the record [r]
    holds.  The last block of equal digests starts at the row [held] names, and
    the key is suppressible exactly when that block has two rows and the last
    output was large enough. *)

Definition last_block (h : list (string * string * Z)) (m d : string)
    (post : list (string * string * Z)) : Prop :=
  ∃ pre n, h = pre ++ (m, d, n) :: post ∧
    Forall (λ x, x.1.2 = d) post ∧
    (∀ y, last pre = Some y → y.1.2 ≠ d).

Definition explains (h : list (string * string * Z)) (r : RepeatRecord) : Prop :=
  match held r with
  | None => h = [] ∧ suppressible r = false
  | Some x =>
      ∃ post, last_block h (message_id x) (digest x) post ∧
        suppressible r =
          match last post with
          | Some (_, _, n) => MIN_SUPPRESSIBLE_BYTES <=? n
          | None => false
          end
  end.

Lemma explains_default : explains [] RepeatRecord_default.
Proof. done. Qed.

Lemma explains_observe h l k may :
  explains h (record_of l k) → explains h (record_of (observe_dispatch l k may).1 k).
Proof.
  destruct (observe_same l k may) as (Hh & Hs & _). unfold explains. by rewrite Hh, Hs.
Qed.

Lemma last_block_snoc h m d post m' n :
  last_block h m d post → last_block (h ++ [(m', d, n)]) m d (post ++ [(m', d, n)]).
Proof.
  intros (pre & n0 & -> & Hpost & Hpre). exists pre, n0. split_and!; [|by apply Forall_app; auto|done].
  by rewrite <- app_assoc.
Qed.

Lemma last_block_new h m d post m' d' n :
  last_block h m d post → d ≠ d' → last_block (h ++ [(m', d', n)]) m' d' [].
Proof.
  intros (pre & n0 & -> & Hpost & Hpre) Hne. exists (pre ++ (m, d, n0) :: post), n.
  split_and!; [done|done|]. intros y Hy. rewrite last_app_cons, last_cons in Hy.
  destruct (last post) as [z|] eqn:Hz; simplify_eq/=; [|done].
  rewrite last_Some in Hz. destruct Hz as (q & ->).
  rewrite Forall_app, Forall_singleton in Hpost. naive_solver.
Qed.

Lemma explains_record h l k mid d n :
  explains h (record_of l k) → explains (h ++ [(mid, d, n)]) (record_of (record l k mid d n) k).
Proof.
  unfold record. rewrite record_of_put. case_decide; [|done].
  unfold explains. destruct (held (record_of l k)) as [x|] eqn:Hx; simpl.
  - intros (post & Hb & Hs). case_bool_decide as Hd; simpl.
    + subst d. exists (post ++ [(mid, digest x, n)]). split; [by apply last_block_snoc|].
      by rewrite last_snoc.
    + exists []. split; [by eapply last_block_new|done].
  - intros [-> Hs]. exists []. split; [|done]. by exists [], n.
Qed.

Lemma runs_of_snoc k es e :
  runs_of k (es ++ [e]) =
  runs_of k es ++ match e with
                  | Ran k' mid d n => if decide (k' = k) then [(mid, d, n)] else []
                  | Dispatch _ _ => []
                  end.
Proof.
  unfold runs_of. rewrite omap_app. f_equal. destruct e; simpl; [done|].
  case_bool_decide; case_decide; done.
Qed.

Lemma run_events_explained es k : explains (runs_of k es) (record_of (run_events RepeatLedger_new es) k).
Proof.
  induction es as [|e es IH] using rev_ind; [apply explains_default|].
  unfold run_events in *. rewrite foldl_app, runs_of_snoc; simpl.
  destruct e as [k' may|k' mid d n]; simpl.
  - rewrite app_nil_r. destruct (decide (k' = k)) as [->|Hne].
    + by apply explains_observe.
    + by rewrite observe_other.
  - case_decide; subst.
    + by apply explains_record.
    + rewrite app_nil_r. by rewrite record_other.
Qed.

Lemma run_events_attempts es k :
  attempts (record_of (run_events RepeatLedger_new es) k) =
  Z.min u32_max (Z.of_nat (dispatches_of k es)).
Proof.
  induction es as [|e es IH] using rev_ind; [done|].
  unfold run_events in *. rewrite foldl_app, dispatches_of_app; simpl.
  destruct e as [k' may|k' mid d n]; simpl.
  - case_bool_decide as Hk; simpl.
    + subst. destruct (observe_same (foldl apply_event RepeatLedger_new es) k may) as (_ & _ & ->).
      rewrite IH. ledger_consts. lia.
    + rewrite observe_other by done. rewrite IH. f_equal. lia.
  - destruct (decide (k' = k)) as [->|Hne].
    + unfold record. rewrite record_of_put. case_decide; [|done].
      rewrite <- plus_n_O. rewrite <- IH. by repeat case_match.
    + rewrite record_other by done. rewrite IH. f_equal. lia.
Qed.

(** ** Properties *)

(** C7: a call is answered from the transcript only when the last runs of that
    very key agree.  Whatever events preceded it, a suppressed call points at
    the first row of the final block of equal digests, that block has at least
    two rows, its last output was at least [MIN_SUPPRESSIBLE_BYTES] long, and
    the count the model is told is the number of times the key was dispatched
    (saturating at the counter's width). *)
Theorem suppress_only_repeated_results (es : list Event) (k : RepeatKey) (may : bool)
    (m : string) (n : Z)
    (H : (observe_dispatch (run_events RepeatLedger_new es) k may).2 = Suppress m n) :
  may = true ∧
  (∃ d post m' b, last_block (runs_of k es) m d post ∧
     last post = Some (m', d, b) ∧ MIN_SUPPRESSIBLE_BYTES ≤ b) ∧
  n = Z.min u32_max (Z.of_nat (dispatches_of k es) + 1).
Proof.
  pose proof (run_events_explained es k) as He.
  pose proof (run_events_attempts es k) as Ha.
  set (l := run_events RepeatLedger_new es) in *. unfold observe_dispatch in H.
  destruct (negb may || negb (suppressible (record_of l k))) eqn:Hc; [done|]. bool_hyps.
  unfold explains in He. destruct (held (record_of l k)) as [x|] eqn:Hx; [|done].
  destruct (threshold _ <=? suppressions _); simplify_eq/=.
  destruct He as (post & Hb & Hs). rewrite Hs in *.
  destruct (last post) as [[[m' d'] b]|] eqn:Hl; [|done]. bool_hyps.
  split_and!; [done| |rewrite Ha; ledger_consts; lia].
  exists (digest x), post, m', b. split_and!; [done| |done].
  destruct Hb as (pre & n0 & _ & Hpost & _). apply last_Some in Hl as [q ->].
  rewrite Forall_app, Forall_singleton in Hpost. destruct Hpost as [_ Hd]; simpl in Hd.
  by rewrite last_snoc, Hd.
Qed.

Definition witness_key : RepeatKey := {| location := Some "daemon:fileio"; name := "read_file"; arguments := "x" |}.

Definition witness_events : list Event :=
  [Dispatch witness_key true; Ran witness_key "row-a" "d0" 600;
   Dispatch witness_key true; Ran witness_key "row-b" "d1" 600;
   Dispatch witness_key true; Ran witness_key "row-c" "d1" 600].

Lemma suppress_only_repeated_results_witness :
  true = true ∧
  (∃ d post m' b, last_block (runs_of witness_key witness_events) "row-b" d post ∧
     last post = Some (m', d, b) ∧ MIN_SUPPRESSIBLE_BYTES ≤ b) ∧
  4 = Z.min u32_max (Z.of_nat (dispatches_of witness_key witness_events) + 1).
Proof.
  apply (suppress_only_repeated_results witness_events witness_key true "row-b" 4).
  vm_compute. reflexivity.
Defined.

(** Every dispatch of [k] the loop may suppress is suppressed along [es], and
    no run of [k] is recorded. *)
Fixpoint all_suppressed (l : RepeatLedger) (k : RepeatKey) (es : list Event) : Prop :=
  match es with
  | [] => True
  | e :: es' =>
      match e with
      | Dispatch k' _ => k' = k → ∃ m n, (observe_dispatch l k' true).2 = Suppress m n ∧ e = Dispatch k true
      | Ran k' _ _ _ => k' ≠ k
      end ∧ all_suppressed (apply_event l e) k es'
  end.

Lemma suppressed_spends_budget l k m n :
  ledger_ok l → (observe_dispatch l k true).2 = Suppress m n →
  let r := record_of l k in let r' := record_of (observe_dispatch l k true).1 k in
  threshold r' = threshold r ∧ suppressions r' = suppressions r + 1.
Proof.
  intros Hl. pose proof (record_of_ok l k Hl) as (Ha & Hs & Ht & Hh).
  unfold observe_dispatch. repeat case_match; simpl; try done. intros _.
  rewrite record_of_put. case_decide; [|done]. simpl. bool_hyps. ledger_consts. lia.
Qed.

Lemma all_suppressed_budget es l k :
  ledger_ok l → all_suppressed l k es →
  Z.of_nat (dispatches_of k es) ≤ threshold (record_of l k) - suppressions (record_of l k).
Proof.
  revert l. induction es as [|e es IH]; intros l Hl Hs; simpl.
  - pose proof (record_of_ok l k Hl) as (_ & ? & _). lia.
  - destruct Hs as [He Hs]. pose proof (apply_event_ok l e Hl) as Hl'.
    specialize (IH _ Hl' Hs). destruct e as [k' may|k' mid d b]; simpl in *.
    + case_bool_decide as Hk; simpl in *.
      * subst k'. destruct (He eq_refl) as (m & n & Hobs & [= ->]).
        destruct (suppressed_spends_budget l k m n Hl Hobs) as [Ht Hsp]. lia.
      * rewrite observe_other in IH by done. lia.
    + rewrite record_other in IH by done. lia.
Qed.

(** no key can freeze.  From any ledger the turn can reach, however the
    calls of other keys interleave, at most [MAX_THRESHOLD] consecutive calls
    of a key are answered without running the tool. *)
Theorem no_key_freezes (before es : list Event) (k : RepeatKey)
    (H : all_suppressed (run_events RepeatLedger_new before) k es) :
  Z.of_nat (dispatches_of k es) ≤ MAX_THRESHOLD.
Proof.
  pose proof (run_events_ok before _ ledger_ok_new) as Hl.
  pose proof (all_suppressed_budget es _ k Hl H).
  pose proof (record_of_ok _ k Hl) as (_ & ? & ? & _). lia.
Qed.

Lemma no_key_freezes_witness :
  Z.of_nat (dispatches_of witness_key [Dispatch witness_key true; Dispatch witness_key true]) ≤ MAX_THRESHOLD.
Proof.
  apply (no_key_freezes witness_events). cbn [all_suppressed].
  split; [intros _; exists "row-b", 4|split; [intros _; exists "row-b", 5|exact I]];
    (split; [vm_compute; reflexivity|reflexivity]).
Defined.

(** ** The backoff as an automaton

    What a key goes through when every run returns the same large output. *)

Inductive Backoff :=
| NeverRan
| RanOnce
| Backing (suppressions threshold : Z).

Definition backoff_step (b : Backoff) : Backoff * bool :=
  match b with
  | NeverRan => (RanOnce, true)
  | RanOnce => (Backing 0 INITIAL_THRESHOLD, true)
  | Backing s t =>
      if t <=? s then (Backing 0 (Z.min (2 * t) MAX_THRESHOLD), true)
      else (Backing (s + 1) t, false)
  end.

Fixpoint backoff_schedule (b : Backoff) (n : nat) : list bool :=
  match n with
  | O => []
  | S n' => (backoff_step b).2 :: backoff_schedule (backoff_step b).1 n'
  end.

Definition simulates (d : string) (b : Backoff) (r : RepeatRecord) : Prop :=
  match b with
  | NeverRan => held r = None ∧ suppressible r = false ∧ suppressions r = 0 ∧ threshold r = INITIAL_THRESHOLD
  | RanOnce => (∃ m, held r = Some {| message_id := m; digest := d |}) ∧ suppressible r = false ∧
               suppressions r = 0 ∧ threshold r = INITIAL_THRESHOLD
  | Backing s t => (∃ m, held r = Some {| message_id := m; digest := d |}) ∧ suppressible r = true ∧
                   suppressions r = s ∧ threshold r = t
  end.

Section schedule.
Variable sha256 : string → string.
Variable key : RepeatKey.
Variable stored : string.
Hypothesis Hname : may_suppress (name key) = true.
Hypothesis Hbig : MIN_SUPPRESSIBLE_BYTES ≤ slen stored.

(** The loop makes the same call once per id of [mids], and the tool answers
    [stored] each time: which calls ran. *)
Fixpoint ran_flags (l : RepeatLedger) (mids : list string) : list bool :=
  match mids with
  | [] => []
  | mid :: mids' =>
      let '(l', ran, _) := loop_call sha256 l key mid stored in
      ran :: ran_flags l' mids'
  end.

Lemma loop_call_simulates l b mid :
  ledger_ok l → simulates (sha256 stored) b (record_of l key) →
  let '(l', ran, _) := loop_call sha256 l key mid stored in
  ran = (backoff_step b).2 ∧ simulates (sha256 stored) (backoff_step b).1 (record_of l' key) ∧ ledger_ok l'.
Proof.
  intros Hl Hb. pose proof (record_of_ok l key Hl) as (Ha & Hs & Ht & Hh).
  unfold loop_call, ResultDigest_of, observe_dispatch. rewrite Hname; cbn [negb orb].
  assert (MIN_SUPPRESSIBLE_BYTES <=? slen stored = true) as Hle by (apply Z.leb_le; done).
  destruct b as [| |s t]; simpl in Hb.
  - destruct Hb as (Hheld & Hsu & Hsp & Hth). rewrite Hsu; cbn [negb].
    split_and!; [done| |apply record_event_ok, ledger_ok_put; [done|]].
    + unfold record. rewrite !record_of_put. repeat (case_decide; [|done]). simpl. rewrite Hheld.
      simpl. naive_solver.
    + unfold record_ok; simpl. rewrite ?Hheld, ?Hsu. ledger_consts. split_and!; (lia || by eauto).
  - destruct Hb as ([m Hheld] & Hsu & Hsp & Hth). rewrite Hsu; cbn [negb].
    split_and!; [done| |apply record_event_ok, ledger_ok_put; [done|]].
    + unfold record. rewrite !record_of_put. repeat (case_decide; [|done]). simpl. rewrite Hheld.
      simpl. rewrite bool_decide_eq_true_2 by done. simpl. naive_solver.
    + unfold record_ok; simpl. rewrite ?Hheld, ?Hsu. ledger_consts. split_and!; (lia || by eauto).
  - destruct Hb as ([m Hheld] & Hsu & Hsp & Hth). rewrite Hsu; cbn [negb].
    rewrite Hheld, Hsp, Hth. simpl. destruct (t <=? s) eqn:Hts; bool_hyps.
    + split_and!; [done| |apply record_event_ok, ledger_ok_put; [done|]].
      * unfold record. rewrite !record_of_put. repeat (case_decide; [|done]). simpl.
        rewrite bool_decide_eq_true_2 by done. simpl. split_and!; [eauto|by apply Z.leb_le|done|].
        ledger_consts. lia.
      * unfold record_ok; simpl. ledger_consts. split_and!; (lia || by eauto).
    + split_and!; [done| |apply ledger_ok_put; [done|]].
      * rewrite !record_of_put. repeat (case_decide; [|done]). simpl. split_and!; [eauto|done|..|done].
        ledger_consts. lia.
      * unfold record_ok; simpl. ledger_consts. split_and!; (lia || by eauto).
Qed.

Lemma ran_flags_schedule mids l b :
  ledger_ok l → simulates (sha256 stored) b (record_of l key) →
  ran_flags l mids = backoff_schedule b (length mids).
Proof.
  revert l b. induction mids as [|mid mids IH]; intros l b Hl Hb; simpl; [done|].
  pose proof (loop_call_simulates l b mid Hl Hb) as Hstep.
  destruct (loop_call sha256 l key mid stored) as [[l' ran] c].
  destruct Hstep as (-> & Hb' & Hl'). f_equal. by apply IH.
Qed.

End schedule.

(** Call numbers, from one, that ran. *)
Definition ran_on (flags : list bool) : list nat :=
  omap (λ p : nat * bool, if p.2 then Some (S p.1) else None) (imap (λ i b, (i, b)) flags).

(** The longest stretch of calls without a run, the tail included. *)
Fixpoint widest_gap (cur : nat) (flags : list bool) : nat :=
  match flags with
  | [] => cur
  | true :: f => Nat.max cur (widest_gap 0 f)
  | false :: f => widest_gap (S cur) f
  end.

(** the backoff schedule of a call repeated with an unchanging large
    result.  The first 21 calls run the tool on calls 1, 2, 5, 10 and 19 only;
    over a whole turn of [MAX_TOOL_ROUNDS] calls it runs at least ten times
    and no stretch without a run exceeds a tenth of the turn. *)
Theorem backoff_schedule_of_repeats (sha256 : string → string) (key : RepeatKey)
    (stored : string) (mids : list string)
    (Hname : may_suppress (name key) = true)
    (Hbig : MIN_SUPPRESSIBLE_BYTES ≤ slen stored)
    (Hlen : length mids = MAX_TOOL_ROUNDS) :
  let flags := ran_flags sha256 key stored RepeatLedger_new mids in
  ran_on (take 21 flags) = [1; 2; 5; 10; 19]%nat ∧
  (10 ≤ length (ran_on flags))%nat ∧
  (10 * widest_gap 0 flags ≤ MAX_TOOL_ROUNDS)%nat.
Proof.
  intros flags. subst flags.
  rewrite (ran_flags_schedule sha256 key stored Hname Hbig mids RepeatLedger_new NeverRan);
    [|apply ledger_ok_new|done].
  rewrite Hlen. split_and!; [by vm_compute|apply Nat.leb_le; by vm_compute..].
Qed.

Definition big_output : string := String.concat EmptyString (replicate 64 "12345678").

Lemma backoff_schedule_of_repeats_witness :
  ran_on (take 21 (ran_flags id witness_key big_output RepeatLedger_new (replicate 200 "row"))) = [1; 2; 5; 10; 19]%nat ∧
  (10 ≤ length (ran_on (ran_flags id witness_key big_output RepeatLedger_new (replicate 200 "row"))))%nat ∧
  (10 * widest_gap 0 (ran_flags id witness_key big_output RepeatLedger_new (replicate 200 "row")) ≤ MAX_TOOL_ROUNDS)%nat.
Proof.
  apply (backoff_schedule_of_repeats id witness_key big_output (replicate 200 "row")).
  - reflexivity.
  - vm_compute. discriminate.
  - reflexivity.
Defined.

(** a run's row becomes a pointer only to a row of the same key that holds
    exactly the digest the run produced, and only above the size floor; in
    every other case the row carries the bytes the tool returned. *)
Theorem pointer_names_the_bytes (sha256 : string → string) (es : list Event)
    (key : RepeatKey) (mid stored : string) (l' : RepeatLedger) (content : string)
    (H : loop_call sha256 (run_events RepeatLedger_new es) key mid stored = (l', true, content)) :
  content = stored ∨
  (MIN_SUPPRESSIBLE_BYTES ≤ slen stored ∧
   ∃ m post, content = same_bytes_notice m ∧
     last_block (runs_of key es) m (ResultDigest_of sha256 stored) post).
Proof.
  unfold loop_call in H.
  destruct (observe_dispatch _ key _) as [l1 [|? ?]] eqn:Hobs; simplify_eq.
  pose proof (run_events_explained es key) as He.
  apply (explains_observe _ _ _ (may_suppress (name key))) in He. rewrite Hobs in He; simpl in He.
  unfold disposition. destruct (slen stored <? MIN_SUPPRESSIBLE_BYTES) eqn:Hlt; [by left|].
  bool_hyps. unfold explains, record_of in He.
  destruct (seen l1 !! key) as [r|] eqn:Hr; simpl in *; [|by left].
  destruct (held r) as [x|] eqn:Hx; [|by left].
  case_bool_decide as Hd; [|by left]. right. split; [done|].
  destruct He as (post & Hb & _). exists (message_id x), post. by rewrite <- Hd.
Qed.

Lemma pointer_names_the_bytes_witness :
  let es := [Dispatch witness_key true; Ran witness_key "row-a" big_output 512] in
  same_bytes_notice "row-a" = big_output ∨
  (MIN_SUPPRESSIBLE_BYTES ≤ slen big_output ∧
   ∃ m post, same_bytes_notice "row-a" = same_bytes_notice m ∧
     last_block (runs_of witness_key es) m (ResultDigest_of id big_output) post).
Proof.
  intros es.
  apply (pointer_names_the_bytes id es witness_key "row-b" big_output
           (loop_call id (run_events RepeatLedger_new es) witness_key "row-b" big_output).1.1).
  vm_compute. reflexivity.
Defined.
