(* ===== verification/LoginThrottle.v ===== *)
(** * The login door's failure throttle

    Models [crates/ws-interface/src/login_throttle.rs]: the two attempt
    counters, the lockout, the memory bound.

    Instants and durations are [Z] nanoseconds, the instant bounded as
    [std::time::Instant] is on Unix (an [i64] of seconds).  A [HashMap]'s
    iteration order is unspecified, so the order [make_room] meets the counters
    in is the section variable [iter], of which only the documented fact is
    used: it lists the map's entries, in some order. *)

From S2P Require Import Prelude.

#[local] Open Scope Z_scope.

(** ** Constants *)

Definition NANOS : Z := 1000000000.
Definition from_secs (s : Z) : Z := s * NANOS.
Definition DURATION_MAX : Z := u64_max * NANOS + 999999999.
Definition INSTANT_MAX : Z := 9223372036854775807 * NANOS + 999999999.

Definition FREE_ATTEMPTS : Z := 5.
Definition BASE_LOCKOUT : Z := from_secs 5.
Definition MAX_LOCKOUT : Z := from_secs 60.
Definition IDLE_RESET : Z := from_secs (15 * 60).
Definition MAX_TRACKED : Z := 4096.
Definition MAX_KEY_CHARS : nat := 64.
Definition IPV6_COUNTED_BYTES : nat := 8.

(** ** Data *)

Inductive IpAddr :=
| V4 (octets : list Z)
| V6 (octets : list Z).

#[export] Instance IpAddr_eq_dec : EqDecision IpAddr.
Proof. solve_decision. Defined.

Inductive Counter :=
| Source (address : IpAddr)
| Username (username : string).

#[export] Instance Counter_eq_dec : EqDecision Counter.
Proof. solve_decision. Defined.

#[export] Instance IpAddr_countable : Countable IpAddr.
Proof.
  apply (inj_countable' (λ a, match a with V4 o => inl o | V6 o => inr o end)
                        (λ s, match s with inl o => V4 o | inr o => V6 o end)).
  by intros [].
Defined.

#[export] Instance Counter_countable : Countable Counter.
Proof.
  apply (inj_countable' (λ c, match c with Source a => inl a | Username u => inr u end)
                        (λ s, match s with inl a => Source a | inr u => Username u end)).
  by intros [].
Defined.

Inductive Attempt :=
| Allowed (earned_lockout : option Z)
| Refused (retry_after : Z).

Record Attempts := {
  attempts : Z;
  last_attempt : Z;
  locked_until : option Z
}.

(** [LoginThrottle::counters]; the other field, [missing_source_reported], is
    the flag [note_missing_source] swaps. *)
Record LoginThrottle := {
  counters : gmap Counter Attempts;
  missing_source_reported : bool
}.

Definition LoginThrottle_default : LoginThrottle :=
  {| counters := ∅; missing_source_reported := false |}.

(** ** Helpers *)

Definition saturating_duration_since (later earlier : Z) : Z := sat_sub later earlier.

Definition checked_add (now d : Z) : option Z :=
  if now + d <=? INSTANT_MAX then Some (now + d) else None.

Definition is_locked (a : Attempts) (now : Z) : bool :=
  match locked_until a with Some u => now <? u | None => false end.

Definition remaining (a : Attempts) (now : Z) : option Z :=
  match locked_until a with
  | Some u =>
      let left := saturating_duration_since u now in
      if left =? 0 then None else Some left
  | None => None
  end.

Definition short_name (username : string) : string := take_chars MAX_KEY_CHARS username.

(** [IpAddr::to_canonical]: an IPv4-mapped IPv6 address is its IPv4 address. *)
Definition to_canonical (a : IpAddr) : IpAddr :=
  match a with
  | V4 o => V4 o
  | V6 o =>
      if bool_decide (take 12 o = replicate 10 0 ++ [255; 255])
      then V4 (drop 12 o) else V6 o
  end.

Definition counted_address (a : IpAddr) : IpAddr :=
  match to_canonical a with
  | V4 o => V4 o
  | V6 o => V6 (take IPV6_COUNTED_BYTES o ++ replicate (length o - IPV6_COUNTED_BYTES) 0)
  end.

Definition keys (source : option IpAddr) (username : string) : list Counter :=
  match source with
  | Some a => [Source (counted_address a); Username (short_name username)]
  | None => [Username (short_name username)]
  end.

Definition lockout_for (n : Z) : option Z :=
  if n <? FREE_ATTEMPTS then None
  else
    let doublings := n - FREE_ATTEMPTS in
    let factor := if doublings <? 32 then 2 ^ doublings else u32_max in
    Some (Z.min (sat_mul DURATION_MAX BASE_LOCKOUT factor) MAX_LOCKOUT).

(** ** Operations *)

Section throttle.
Variable iter : gmap Counter Attempts → list (Counter * Attempts).

(** [(entry.is_locked(now), entry.last_attempt)] compared lexicographically,
    [false] below [true]. *)
Definition room_key_lt (now : Z) (a b : Attempts) : bool :=
  match is_locked a now, is_locked b now with
  | false, true => true
  | true, false => false
  | _, _ => last_attempt a <? last_attempt b
  end.

(** [Iterator::min_by_key]: the first of the minimal entries. *)
Fixpoint min_entry (now : Z) (l : list (Counter * Attempts)) : option (Counter * Attempts) :=
  match l with
  | [] => None
  | x :: l' =>
      match min_entry now l' with
      | None => Some x
      | Some y => if room_key_lt now y.2 x.2 then Some y else Some x
      end
  end.

Definition retained (now : Z) (a : Attempts) : bool :=
  is_locked a now || (saturating_duration_since now (last_attempt a) <? IDLE_RESET).

(** The [while] loop of [make_room], one counter dropped per turn of it. *)
Fixpoint evict_to_cap (fuel : nat) (now : Z) (m : gmap Counter Attempts) : gmap Counter Attempts :=
  match fuel with
  | O => m
  | S fuel' =>
      if MAX_TRACKED <? Z.of_nat (size m) + 2 then
        match min_entry now (iter m) with
        | None => m
        | Some (oldest, _) => evict_to_cap fuel' now (delete oldest m)
        end
      else m
  end.

Definition make_room (m : gmap Counter Attempts) (now : Z) : gmap Counter Attempts :=
  let kept := filter (λ ka, retained now ka.2 = true) m in
  evict_to_cap (size kept) now kept.

(** One turn of the [for key in spends_from] loop. *)
Definition spend (now : Z) (acc : gmap Counter Attempts * option Z) (key : Counter)
  : gmap Counter Attempts * option Z :=
  let '(m, earned) := acc in
  let e0 := default {| attempts := 0; last_attempt := now; locked_until := None |} (m !! key) in
  let idle := IDLE_RESET <=? saturating_duration_since now (last_attempt e0) in
  let n := sat_add u32_max (if idle then 0 else attempts e0) 1 in
  let lock := (λ d, default now (checked_add now d)) <$> lockout_for n in
  (<[key := {| attempts := n; last_attempt := now; locked_until := lock |}]> m,
   option_max earned ((λ u, saturating_duration_since u now) <$> lock)).

Definition begin_attempt (t : LoginThrottle) (source : option IpAddr) (username : string) (now : Z)
  : LoginThrottle * Attempt :=
  let m := counters t in
  let source_key := (λ a, Source (counted_address a)) <$> source in
  let account_key := Username (short_name username) in
  let own := source_key ≫= λ k, m !! k ≫= λ a, remaining a now in
  let has_own_record :=
    match source_key with None => true | Some k => bool_decide (is_Some (m !! k)) end in
  let account := if has_own_record then m !! account_key ≫= λ a, remaining a now else None in
  match option_max own account with
  | Some retry_after => (t, Refused retry_after)
  | None =>
      let '(m', earned) := foldl (spend now) (make_room m now, None) (keys source username) in
      ({| counters := m'; missing_source_reported := missing_source_reported t |}, Allowed earned)
  end.

Definition record_success (t : LoginThrottle) (source : option IpAddr) (username : string)
  : LoginThrottle :=
  {| counters := foldl (λ m k, delete k m) (counters t) (keys source username);
     missing_source_reported := missing_source_reported t |}.

Definition note_missing_source (t : LoginThrottle) : LoginThrottle * bool :=
  ({| counters := counters t; missing_source_reported := true |},
   negb (missing_source_reported t)).

(** ** Traces *)

Inductive Event :=
| Begin (source : option IpAddr) (username : string) (now : Z)
| Success (source : option IpAddr) (username : string)
| NoteMissing.

Definition apply_event (t : LoginThrottle) (e : Event) : LoginThrottle :=
  match e with
  | Begin s u now => (begin_attempt t s u now).1
  | Success s u => record_success t s u
  | NoteMissing => (note_missing_source t).1
  end.

End throttle.

(** ** Facts about the helpers *)

Lemma remaining_Some a now d :
  remaining a now = Some d ↔ ∃ u, locked_until a = Some u ∧ now < u ∧ d = u - now.
Proof.
  unfold remaining, saturating_duration_since, sat_sub.
  destruct (locked_until a) as [u|]; [|naive_solver].
  destruct (Z.max 0 (u - now) =? 0) eqn:E; bool_hyps.
  - split; [done|]. intros (u' & [= <-] & ? & ?). lia.
  - split; [intros [= <-]; exists u; split_and!; [done|lia..]|]. intros (u' & [= <-] & ? & ->). f_equal. lia.
Qed.

Lemma is_locked_remaining a now : is_locked a now = true ↔ is_Some (remaining a now).
Proof.
  unfold is_Some. setoid_rewrite remaining_Some. unfold is_locked.
  destruct (locked_until a) as [u|]; [rewrite Z.ltb_lt|]; naive_solver.
Qed.

Lemma lockout_for_bounds n d : lockout_for n = Some d → BASE_LOCKOUT ≤ d ≤ MAX_LOCKOUT.
Proof.
  unfold lockout_for. destruct (n <? FREE_ATTEMPTS) eqn:E; [done|]. bool_hyps. intros [= <-].
  assert (1 ≤ if n - FREE_ATTEMPTS <? 32 then 2 ^ (n - FREE_ATTEMPTS) else u32_max).
  { case_match; [|done]. change 1 with (2 ^ 0). apply Z.pow_le_mono_r; lia. }
  unfold sat_mul, BASE_LOCKOUT, MAX_LOCKOUT, DURATION_MAX, u64_max, from_secs, NANOS in *. lia.
Qed.

(** ** Frame lemmas: which entries an operation can touch *)

Section frame.
Variable iter : gmap Counter Attempts → list (Counter * Attempts).

Lemma evict_to_cap_sub fuel now m k e :
  evict_to_cap iter fuel now m !! k = Some e → m !! k = Some e.
Proof.
  revert m. induction fuel as [|fuel IH]; intros m; simpl; [done|].
  repeat case_match; try done. intros Hd%IH. by apply lookup_delete_Some in Hd as [_ ?].
Qed.

Lemma make_room_sub m now k e :
  make_room iter m now !! k = Some e → m !! k = Some e.
Proof. intros H%evict_to_cap_sub. by apply map_lookup_filter_Some in H as [? _]. Qed.

Lemma make_room_None m now k : m !! k = None → make_room iter m now !! k = None.
Proof.
  intros Hk. destruct (make_room iter m now !! k) as [e|] eqn:E; [|done].
  apply make_room_sub in E. congruence.
Qed.

Lemma spend_other now m earned key k :
  k ≠ key → (spend now (m, earned) key).1 !! k = m !! k.
Proof. intros Hk. simpl. by rewrite lookup_insert_ne. Qed.

Lemma foldl_spend_other now ks acc k :
  k ∉ ks → (foldl (spend now) acc ks).1 !! k = acc.1 !! k.
Proof.
  revert acc. induction ks as [|key ks IH]; intros [m earned] Hk; simpl; [done|].
  apply not_elem_of_cons in Hk as [Hne Hk]. rewrite IH by done. simpl. by rewrite lookup_insert_ne.
Qed.

Lemma begin_attempt_state t s u now :
  (begin_attempt iter t s u now).1 = t ∨
  counters (begin_attempt iter t s u now).1 =
    (foldl (spend now) (make_room iter (counters t) now, None) (keys s u)).1.
Proof.
  unfold begin_attempt. repeat case_match; simplify_eq/=; auto.
Qed.

Lemma begin_attempt_refused_inert t s u now r :
  (begin_attempt iter t s u now).2 = Refused r → (begin_attempt iter t s u now).1 = t.
Proof. unfold begin_attempt. by repeat case_match. Qed.

End frame.

Lemma foldl_delete_other (ks : list Counter) (m : gmap Counter Attempts) k :
  k ∉ ks → foldl (λ m k, delete k m) m ks !! k = m !! k.
Proof.
  revert m. induction ks as [|key ks IH]; intros m Hk; simpl; [done|].
  apply not_elem_of_cons in Hk as [Hne Hk]. rewrite IH by done. by rewrite lookup_delete_ne.
Qed.

Lemma foldl_delete_sub (ks : list Counter) (m : gmap Counter Attempts) k e :
  foldl (λ m k, delete k m) m ks !! k = Some e → m !! k = Some e ∧ k ∉ ks.
Proof.
  revert m. induction ks as [|key ks IH]; intros m; simpl; [set_solver|].
  intros [H Hk]%IH. apply lookup_delete_Some in H as [Hne H]. set_solver.
Qed.

Lemma source_in_keys k s u : Source k ∈ keys s u → ∃ a, s = Some a ∧ k = counted_address a.
Proof. destruct s as [a|]; simpl; set_solver. Qed.

(** ** Properties *)

(** [e] is not an attempt from the counted address [k]. *)
Definition not_from (k : IpAddr) (e : Event) : Prop :=
  match e with
  | Begin (Some a) _ _ => counted_address a ≠ k
  | _ => True
  end.

Lemma apply_event_not_from iter t e k :
  not_from k e → counters t !! Source k = None → counters (apply_event iter t e) !! Source k = None.
Proof.
  intros He Hk. destruct e as [s u now|s u|]; simpl; [| |done].
  - destruct (begin_attempt_state iter t s u now) as [-> | ->]; [done|].
    rewrite foldl_spend_other; [by apply make_room_None|].
    intros (a & -> & ->)%source_in_keys. by apply He.
  - apply eq_None_not_Some. intros [e E]. apply foldl_delete_sub in E as [? _]. congruence.
Qed.

(** C5: nobody can shut the owner of an account out by guessing at it.
    Whatever anybody else has done to the door - any number of attempts from
    other addresses, on any account, in any order, the caller's own account
    included - a caller that never tried from its own counted address is not
    refused. *)
Theorem owner_is_never_shut_out iter (es : list Event) (addr : IpAddr) (username : string) (now : Z)
    (H : Forall (not_from (counted_address addr)) es) :
  ∃ earned,
    (begin_attempt iter (foldl (apply_event iter) LoginThrottle_default es)
       (Some addr) username now).2 = Allowed earned.
Proof.
  assert (counters (foldl (apply_event iter) LoginThrottle_default es)
            !! Source (counted_address addr) = None) as Hnone.
  { assert (counters LoginThrottle_default !! Source (counted_address addr) = None) as H0 by done.
    revert H0. generalize LoginThrottle_default as t.
    induction H as [|e es He Hes IH]; intros t Ht; simpl; [done|].
    by apply IH, apply_event_not_from. }
  unfold begin_attempt. simpl. rewrite Hnone. simpl. eauto.
Qed.

Definition some_host : IpAddr := V4 [192; 168; 0; 7].
Definition attacker : IpAddr := V4 [10; 0; 0; 1].

Lemma owner_is_never_shut_out_witness :
  ∃ earned,
    (begin_attempt map_to_list
       (foldl (apply_event map_to_list) LoginThrottle_default
          (replicate 6 (Begin (Some attacker) "dave" 0)))
       (Some some_host) "dave" 1).2 = Allowed earned.
Proof.
  apply (owner_is_never_shut_out map_to_list). simpl.
  repeat constructor; vm_compute; discriminate.
Defined.

(** Along [es] from [t] the entry of source [k] is left to itself: nobody
    attempts from [k] or logs in from it, every attempt happens before [until],
    and the map stays under its cap. *)
Fixpoint left_alone iter (k : IpAddr) (until : Z) (t : LoginThrottle) (es : list Event) : Prop :=
  match es with
  | [] => True
  | e :: es' =>
      match e with
      | Begin s _ now => s ≠ None ∧ (∀ a, s = Some a → counted_address a ≠ k) ∧ now < until ∧
                         Z.of_nat (size (counters t)) + 2 ≤ MAX_TRACKED
      | Success s _ => ∀ a, s = Some a → counted_address a ≠ k
      | NoteMissing => True
      end ∧ left_alone iter k until (apply_event iter t e) es'
  end.

Lemma evict_to_cap_under fuel iter now m :
  Z.of_nat (size m) + 2 ≤ MAX_TRACKED → evict_to_cap iter fuel now m = m.
Proof. intros H. destruct fuel; simpl; [done|]. destruct (MAX_TRACKED <? _) eqn:E; [|done]. bool_hyps. lia. Qed.

Lemma map_filter_size_le (P : Counter * Attempts → Prop) `{!∀ x, Decision (P x)} (m : gmap Counter Attempts) :
  (size (filter P m) ≤ size m)%nat.
Proof. apply map_subseteq_size, map_filter_subseteq. Qed.

Lemma make_room_keeps_locked iter m now k e until :
  Z.of_nat (size m) + 2 ≤ MAX_TRACKED → now < until →
  m !! k = Some e → locked_until e = Some until → make_room iter m now !! k = Some e.
Proof.
  intros Hsz Hnow Hk Hl. unfold make_room. rewrite evict_to_cap_under.
  - apply map_lookup_filter_Some. split; [done|]. simpl. unfold retained, is_locked. rewrite Hl.
    by apply Z.ltb_lt in Hnow as ->.
  - pose proof (map_filter_size_le (λ ka, retained now ka.2 = true) m). lia.
Qed.

Lemma left_alone_keeps iter k until es t e :
  counters t !! Source k = Some e → locked_until e = Some until →
  left_alone iter k until t es →
  counters (foldl (apply_event iter) t es) !! Source k = Some e.
Proof.
  intros He Hu. revert t He. induction es as [|ev es IH]; intros t He; simpl; [done|].
  intros [Hev Hes]. apply IH; [|done]. destruct ev as [s u now|s u|]; simpl; [| |done].
  - destruct Hev as (Hs & Hsrc & Hnow & Hsz).
    destruct (begin_attempt_state iter t s u now) as [-> | ->]; [done|].
    rewrite foldl_spend_other; [by eapply make_room_keeps_locked|].
    intros (a & -> & ->)%source_in_keys. by eapply Hsrc.
  - rewrite foldl_delete_other; [done|]. intros (a & -> & ->)%source_in_keys. by eapply Hev.
Qed.

(** a lockout holds for as long as it says.  Once a source's counter is
    locked until some instant, then - while the map stays under its cap -
    nothing other callers do lifts it: an attempt from that source before the
    instant is refused without the credential being checked, it is told to wait
    at least until then, and it leaves every counter as it was. *)
Theorem lockout_holds iter (t : LoginThrottle) (es : list Event) (addr : IpAddr)
    (username : string) (e : Attempts) (until now : Z)
    (He : counters t !! Source (counted_address addr) = Some e)
    (Hu : locked_until e = Some until)
    (Hes : left_alone iter (counted_address addr) until t es)
    (Hnow : now < until) :
  let t' := foldl (apply_event iter) t es in
  ∃ r, begin_attempt iter t' (Some addr) username now = (t', Refused r) ∧ until - now ≤ r.
Proof.
  intros t'. pose proof (left_alone_keeps iter _ _ _ _ _ He Hu Hes) as Hk. fold t' in Hk.
  unfold begin_attempt. simpl. rewrite Hk. simpl.
  assert (remaining e now = Some (until - now)) as -> by (apply remaining_Some; eauto).
  destruct (_ ≫= _) as [d|]; simpl; eexists; (split; [done|lia]).
Qed.

Lemma lockout_holds_witness :
  let t := foldl (apply_event map_to_list) LoginThrottle_default (replicate 5 (Begin (Some attacker) "dave" 0)) in
  let t' := foldl (apply_event map_to_list) t [Begin (Some some_host) "dave" 1] in
  ∃ r, begin_attempt map_to_list t' (Some attacker) "dave" 2 = (t', Refused r) ∧ BASE_LOCKOUT - 2 ≤ r.
Proof.
  intros t.
  apply (lockout_holds map_to_list t [Begin (Some some_host) "dave" 1] attacker "dave"
           {| attempts := 5; last_attempt := 0; locked_until := Some BASE_LOCKOUT |}).
  - vm_compute. reflexivity.
  - reflexivity.
  - cbn [left_alone]. repeat split.
    + discriminate.
    + intros a [= <-]. vm_compute. discriminate.
    + vm_compute. discriminate.
  - reflexivity.
Defined.

(** *** The memory bound *)

Section memory.
Variable iter : gmap Counter Attempts → list (Counter * Attempts).
Hypothesis iter_lists : ∀ m, iter m ≡ₚ map_to_list m.

Lemma min_entry_elem now l x : min_entry now l = Some x → x ∈ l.
Proof.
  clear. revert x. induction l as [|y l IH]; intros x; simpl; [done|].
  destruct (min_entry now l) as [z|]; [case_match|]; intros [= <-]; set_solver.
Qed.

Lemma min_entry_None now l : min_entry now l = None → l = [].
Proof. clear. destruct l as [|y l]; simpl; [done|]. by repeat case_match. Qed.

Lemma evict_to_cap_size fuel now m :
  (size m ≤ fuel)%nat → Z.of_nat (size (evict_to_cap iter fuel now m)) + 2 ≤ MAX_TRACKED.
Proof.
  revert m. induction fuel as [|fuel IH]; intros m Hsz; simpl.
  - unfold MAX_TRACKED. lia.
  - destruct (MAX_TRACKED <? Z.of_nat (size m) + 2) eqn:E; bool_hyps; [|done].
    destruct (min_entry now (iter m)) as [[k e]|] eqn:Hmin.
    + apply min_entry_elem in Hmin. rewrite iter_lists, elem_of_map_to_list in Hmin.
      apply IH. rewrite map_size_delete, Hmin. lia.
    + apply min_entry_None in Hmin. pose proof (iter_lists m) as Hp. rewrite Hmin in Hp.
      apply Permutation_nil in Hp. apply map_to_list_empty_iff in Hp as ->.
      rewrite map_size_empty. unfold MAX_TRACKED. lia.
Qed.

Lemma make_room_size m now : Z.of_nat (size (make_room iter m now)) + 2 ≤ MAX_TRACKED.
Proof. by apply evict_to_cap_size. Qed.

Lemma insert_size_le (m : gmap Counter Attempts) k e : (size (<[k := e]> m) ≤ S (size m))%nat.
Proof. rewrite map_size_insert. case_match; unfold id; lia. Qed.

Lemma foldl_spend_size now ks acc :
  (size (foldl (spend now) acc ks).1 ≤ size acc.1 + length ks)%nat.
Proof.
  clear. revert acc. induction ks as [|k ks IH]; intros [m earned]; simpl; [lia|].
  etrans; [apply IH|]. simpl. pose proof (insert_size_le m k) as Hi.
  match goal with |- context [<[k := ?e]> m] => specialize (Hi e) end. lia.
Qed.

Lemma foldl_delete_size (ks : list Counter) (m : gmap Counter Attempts) :
  (size (foldl (λ m k, delete k m) m ks) ≤ size m)%nat.
Proof.
  clear. revert m. induction ks as [|k ks IH]; intros m; simpl; [done|].
  etrans; [apply IH|]. rewrite map_size_delete. case_match; unfold id; lia.
Qed.

Lemma apply_event_size t e :
  Z.of_nat (size (counters t)) ≤ MAX_TRACKED →
  Z.of_nat (size (counters (apply_event iter t e))) ≤ MAX_TRACKED.
Proof.
  intros Ht. destruct e as [s u now|s u|]; simpl; [| |done].
  - destruct (begin_attempt_state iter t s u now) as [-> | ->]; [done|].
    pose proof (foldl_spend_size now (keys s u) (make_room iter (counters t) now, None)) as Hs.
    simpl in Hs. pose proof (make_room_size (counters t) now).
    assert (length (keys s u) ≤ 2)%nat by (destruct s; simpl; lia). lia.
  - pose proof (foldl_delete_size (keys s u) (counters t)). lia.
Qed.

End memory.

(** the throttle is not its own memory-exhaustion path.  Its keys are
    attacker-supplied; after any sequence of events, whatever order the hash
    map iterates in, at most [MAX_TRACKED] counters are tracked. *)
Theorem memory_is_bounded (iter : gmap Counter Attempts → list (Counter * Attempts))
    (iter_lists : ∀ m, iter m ≡ₚ map_to_list m) (es : list Event) :
  Z.of_nat (size (counters (foldl (apply_event iter) LoginThrottle_default es))) ≤ MAX_TRACKED.
Proof.
  assert (Z.of_nat (size (counters LoginThrottle_default)) ≤ MAX_TRACKED) as H0 by done.
  revert H0. generalize LoginThrottle_default as t.
  induction es as [|e es IH]; intros t Ht; simpl; [done|]. by apply IH, apply_event_size.
Qed.

Lemma memory_is_bounded_witness :
  Z.of_nat (size (counters (foldl (apply_event map_to_list) LoginThrottle_default
    [Begin (Some attacker) "dave" 0; Begin (Some some_host) "root" 1; Success (Some attacker) "dave"]))) ≤ MAX_TRACKED.
Proof. apply (memory_is_bounded map_to_list). intros m. reflexivity. Defined.

(** *** How long a refusal can be *)

(** Every counter was last touched no later than [now], and is locked for at
    most [MAX_LOCKOUT] past that. *)
Definition locks_bounded (now : Z) (t : LoginThrottle) : Prop :=
  map_Forall (λ _ e, last_attempt e ≤ now ∧
    ∀ u, locked_until e = Some u → u ≤ last_attempt e + MAX_LOCKOUT) (counters t).

Lemma spend_bounded now ks acc :
  map_Forall (λ _ e, last_attempt e ≤ now ∧ ∀ u, locked_until e = Some u → u ≤ last_attempt e + MAX_LOCKOUT) acc.1 →
  map_Forall (λ _ e, last_attempt e ≤ now ∧ ∀ u, locked_until e = Some u → u ≤ last_attempt e + MAX_LOCKOUT)
    (foldl (spend now) acc ks).1.
Proof.
  revert acc. induction ks as [|k ks IH]; intros [m earned] Hm; simpl; [done|].
  apply IH. simpl. apply map_Forall_insert_2; [|done]. simpl. split; [done|].
  intros u (d & Hd & ->)%fmap_Some. apply lockout_for_bounds in Hd.
  unfold checked_add. case_match; simpl; [lia|].
  unfold MAX_LOCKOUT, from_secs, NANOS. lia.
Qed.

Lemma locks_bounded_mono now now' t : now ≤ now' → locks_bounded now t → locks_bounded now' t.
Proof. intros Hn Ht k e He. destruct (Ht k e He) as [? ?]. split; [lia|done]. Qed.

Lemma begin_attempt_bounded iter t s u now :
  locks_bounded now t → locks_bounded now (begin_attempt iter t s u now).1.
Proof.
  intros Ht. unfold locks_bounded.
  destruct (begin_attempt_state iter t s u now) as [-> | ->]; [done|].
  apply spend_bounded. simpl. intros k e He%make_room_sub. by apply (Ht k).
Qed.

Lemma record_success_bounded t s u now :
  locks_bounded now t → locks_bounded now (record_success t s u).
Proof. intros Ht k e [He _]%foldl_delete_sub. by apply (Ht k). Qed.

(** The attempts of [es] happen at times that never go back, from [now] on. *)
Fixpoint clock_advances (now : Z) (es : list Event) : Prop :=
  match es with
  | [] => True
  | Begin _ _ t :: es' => now ≤ t ∧ clock_advances t es'
  | _ :: es' => clock_advances now es'
  end.

Fixpoint clock_after (now : Z) (es : list Event) : Z :=
  match es with
  | [] => now
  | Begin _ _ t :: es' => clock_after t es'
  | _ :: es' => clock_after now es'
  end.

Lemma events_bounded iter es now t :
  clock_advances now es → locks_bounded now t →
  locks_bounded (clock_after now es) (foldl (apply_event iter) t es).
Proof.
  revert now t. induction es as [|e es IH]; intros now t Hc Ht; simpl; [done|].
  destruct e as [s u n|s u|]; simpl in *.
  - destruct Hc as [Hn Hc]. apply IH; [done|].
    apply begin_attempt_bounded. by eapply locks_bounded_mono.
  - apply IH; [done|]. by apply record_success_bounded.
  - by apply IH.
Qed.

(** a refusal never asks for more than [MAX_LOCKOUT].  On a monotone clock
    every refusal names a positive wait of at most a minute, however many
    attempts preceded it. *)
Theorem refusal_is_short iter (es : list Event) (start now : Z) (s : option IpAddr)
    (username : string) (r : Z)
    (Hclock : clock_advances start es) (Hnow : clock_after start es ≤ now)
    (Hr : (begin_attempt iter (foldl (apply_event iter) LoginThrottle_default es) s username now).2
          = Refused r) :
  0 < r ≤ MAX_LOCKOUT.
Proof.
  pose proof (events_bounded iter es start LoginThrottle_default Hclock) as Hb.
  specialize (Hb (map_Forall_empty _)). apply (locks_bounded_mono _ now) in Hb; [|done].
  set (t := foldl _ _ _) in *.
  assert (∀ k d, (counters t !! k ≫= λ a, remaining a now) = Some d → 0 < d ≤ MAX_LOCKOUT) as Hrem.
  { intros k d (a & Ha & (u & Hu & ? & ->)%remaining_Some)%bind_Some.
    destruct (Hb k a Ha) as [? Hlock]. specialize (Hlock u Hu). lia. }
  unfold begin_attempt in Hr.
  destruct (option_max _ _) as [d|] eqn:Hmax; [|by destruct (foldl (spend now) _ _)]. simplify_eq/=.
  apply option_max_Some in Hmax as [Hd|Hd].
  - apply bind_Some in Hd as (k & _ & Hd). by apply (Hrem k).
  - destruct (match _ with None => _ | _ => _ end); [by eapply Hrem|done].
Qed.

Lemma refusal_is_short_witness : 0 < BASE_LOCKOUT - 2 ≤ MAX_LOCKOUT.
Proof.
  apply (refusal_is_short map_to_list (replicate 5 (Begin (Some attacker) "dave" 0)) 0 2
           (Some attacker) "dave").
  - cbn. lia.
  - cbn. lia.
  - vm_compute. reflexivity.
Defined.

(** one correct password clears what came before it.  After a success the
    next attempt from the same place on the same account is allowed, starts its
    counters at one and earns no lockout. *)
Theorem success_clears_the_slate iter (t : LoginThrottle) (s : option IpAddr) (username : string) (now : Z) :
  let '(t', verdict) := begin_attempt iter (record_success t s username) s username now in
  verdict = Allowed None ∧
  ∀ k, k ∈ keys s username → counters t' !! k =
    Some {| attempts := 1; last_attempt := now; locked_until := None |}.
Proof.
  set (m := counters (record_success t s username)).
  assert (∀ k, k ∈ keys s username → m !! k = None) as Hnone.
  { intros k Hk. apply eq_None_not_Some. intros [e He]. by apply foldl_delete_sub in He as [_ ?]. }
  assert (∀ k, k ∈ keys s username → make_room iter m now !! k = None) as Hroom.
  { intros k Hk. apply make_room_None. by apply Hnone. }
  unfold begin_attempt. fold m. revert Hnone Hroom. generalize (make_room iter m now) as m'. intros m' Hnone Hroom.
  destruct s as [a|]; simpl in *.
  - rewrite (Hnone (Source _)), (Hnone (Username _)) by set_solver. simpl.
    rewrite (Hroom (Source _)) by set_solver. simpl.
    assert (saturating_duration_since now now = 0) as Hz by (unfold saturating_duration_since, sat_sub; lia).
    rewrite lookup_insert_ne, (Hroom (Username _)) by (done || set_solver). simpl.
    rewrite Hz. simpl. split; [done|]. intros k [-> | [-> | []%elem_of_nil]%elem_of_cons]%elem_of_cons.
    + rewrite lookup_insert_ne by done. by rewrite lookup_insert_eq.
    + by rewrite lookup_insert_eq.
  - rewrite (Hnone (Username _)) by set_solver. simpl. rewrite (Hroom (Username _)) by set_solver. simpl.
    assert (saturating_duration_since now now = 0) as Hz by (unfold saturating_duration_since, sat_sub; lia).
    rewrite Hz. simpl. split; [done|]. intros k ->%list_elem_of_singleton. by rewrite lookup_insert_eq.
Qed.
