(* ===== verification/TaskStore.v ===== *)
(** * Durable background-task rows

    Models the row type and the port of [crates/core/src/ports/store.rs]
    ([BackgroundTaskStatus], [BackgroundTaskRow], [BackgroundTaskStore]) and its
    SQLite adapter, [crates/storage-sqlite/src/background_tasks.rs].

    The port is the class [BackgroundTaskStore]; what its doc comments promise is
    the class [BackgroundTaskStoreLaws], which clients are verified against and
    the adapter discharges.  A SQL table is the map from its primary key to its
    rows; [pool_error] is the error every statement currently fails with, so the
    adapter's error paths are exercised.  The order in which a [SELECT] without
    [ORDER BY] returns rows is unspecified: [map_to_list]'s order stands for it
    and the laws only speak of permutations. *)

From S2P Require Import Prelude.

(** ** Errors (core/src/lib.rs) *)

Inductive CoreError :=
| SystemService (msg : string)
| ConversationNotFound (msg : string)
| Llm (msg : string)
| ContextOverflow (prompt_tokens max_tokens : option Z) (detail : string)
| RateLimited (retry_after : option Z) (detail : string)
| QuotaExceeded (detail : string)
| ModelLoading (detail : string)
| ToolsUnsupported (detail : string)
| Storage (msg : string)
| ToolExecution (msg : string)
| ErrCancelled
| InvalidInput (code description message : string).

#[export] Instance CoreError_eq_dec : EqDecision CoreError.
Proof. solve_decision. Defined.

(** [Result<A, E>]. *)
Inductive result (A E : Type) := Ok (a : A) | Err (e : E).
Arguments Ok {A E} a.
Arguments Err {A E} e.

Definition is_ok {A E} (r : result A E) : bool :=
  match r with Ok _ => true | Err _ => false end.

(** ** Status *)

Inductive BackgroundTaskStatus :=
| DbPending | DbRunning | DbCompleted | DbFailed | DbCancelled.

#[export] Instance BackgroundTaskStatus_eq_dec : EqDecision BackgroundTaskStatus.
Proof. solve_decision. Defined.

Definition as_key (s : BackgroundTaskStatus) : string :=
  match s with
  | DbPending => "pending"
  | DbRunning => "running"
  | DbCompleted => "completed"
  | DbFailed => "failed"
  | DbCancelled => "cancelled"
  end.

Definition from_key (s : string) : option BackgroundTaskStatus :=
  if bool_decide (s = "pending") then Some DbPending
  else if bool_decide (s = "running") then Some DbRunning
  else if bool_decide (s = "completed") then Some DbCompleted
  else if bool_decide (s = "failed") then Some DbFailed
  else if bool_decide (s = "cancelled") then Some DbCancelled
  else None.

Definition is_terminal (s : BackgroundTaskStatus) : bool :=
  match s with DbCompleted | DbFailed | DbCancelled => true | _ => false end.

Lemma from_key_as_key s : from_key (as_key s) = Some s.
Proof. by destruct s. Qed.

Lemma from_key_inv k s : from_key k = Some s → k = as_key s.
Proof. unfold from_key. repeat case_bool_decide; naive_solver. Qed.

(** ** Rows *)

Section rows.
Context {Json : Type}.

Record BackgroundTaskRow := {
  row_id : string;
  row_user_id : string;
  row_kind_json : Json;
  row_status : BackgroundTaskStatus;
  row_parent_task_id : option string;
  row_title : string;
  row_last_error : option string;
  row_progress_hint : option string;
  row_started_at : Z;
  row_ended_at : option Z;
  row_owner_todo : string;
  row_spawn_marker : option string
}.

(** What [update_task] leaves of a row. *)
Definition updated (row : BackgroundTaskRow) (status : BackgroundTaskStatus)
    (last_error progress_hint : option string) (ended_at : option Z) : BackgroundTaskRow :=
  {| row_id := row_id row; row_user_id := row_user_id row;
     row_kind_json := row_kind_json row; row_status := status;
     row_parent_task_id := row_parent_task_id row; row_title := row_title row;
     row_last_error := last_error; row_progress_hint := progress_hint;
     row_started_at := row_started_at row; row_ended_at := ended_at;
     row_owner_todo := row_owner_todo row; row_spawn_marker := row_spawn_marker row |}.

(** ** The port

    [current] is the task-local user of [current_user_id()]. *)

Class BackgroundTaskStore (St : Type) := {
  create_task : St → BackgroundTaskRow → St * result unit CoreError;
  get_task : St → string → string → result (option BackgroundTaskRow) CoreError;
  update_task : St → string → string → BackgroundTaskStatus → option string →
                option string → option Z → St * result unit CoreError;
  list_tasks_for_user : St → string → bool → option Z →
                result (list BackgroundTaskRow) CoreError;
  scan_non_terminal : St → result (list BackgroundTaskRow) CoreError
}.

Definition newer_first (a b : BackgroundTaskRow) : bool :=
  (row_started_at b <=? row_started_at a)%Z.

(** The port's contract over the rows it holds.  Every operation may fail; a
    failure changes nothing. *)
Class BackgroundTaskStoreLaws (St : Type) `{BackgroundTaskStore St} := {
  rows : St → gmap string BackgroundTaskRow;
  store_inv : St → Prop;
  rows_keyed s id row : store_inv s → rows s !! id = Some row → row_id row = id;
  create_task_spec s row s' r :
    store_inv s → create_task s row = (s', r) → store_inv s' ∧
    match r with
    | Ok _ => rows s !! row_id row = None ∧ rows s' = <[row_id row := row]> (rows s)
    | Err _ => rows s' = rows s
    end;
  create_task_duplicate s row :
    store_inv s → is_Some (rows s !! row_id row) → is_ok (create_task s row).2 = false;
  get_task_spec s current id o :
    store_inv s → get_task s current id = Ok o →
    o = (rows s !! id ≫= λ row, if bool_decide (row_user_id row = current) then Some row else None);
  update_task_spec s current id st le ph ea s' r :
    store_inv s → update_task s current id st le ph ea = (s', r) → store_inv s' ∧
    match r with
    | Ok _ => ∃ row, rows s !! id = Some row ∧ row_user_id row = current ∧
                     rows s' = <[id := updated row st le ph ea]> (rows s)
    | Err _ => rows s' = rows s
    end;
  list_tasks_spec s user fin limit l :
    store_inv s → (∀ n, limit = Some n → (0 ≤ n)%Z) →
    list_tasks_for_user s user fin limit = Ok l →
    ∃ all, l = match limit with Some n => take (Z.to_nat n) all | None => all end ∧
      sorted_by newer_first all ∧
      all ≡ₚ filter (λ row, row_user_id row = user ∧ (fin = true ∨ is_terminal (row_status row) = false))
               (map_to_list (rows s)).*2;
  scan_spec s l :
    store_inv s → scan_non_terminal s = Ok l →
    l ≡ₚ filter (λ row, is_terminal (row_status row) = false) (map_to_list (rows s)).*2
}.

End rows.

Arguments BackgroundTaskRow : clear implicits.

(** ** The SQLite adapter *)

Module Sqlite.
Section sqlite.
Context {Json : Type}.

(** A stored row: the status column holds the key. *)
Record DbRow := {
  db_id : string;
  db_user_id : string;
  db_kind_json : Json;
  db_task_status : string;
  db_parent_task_id : option string;
  db_title : string;
  db_last_error : option string;
  db_progress_hint : option string;
  db_started_at : Z;
  db_ended_at : option Z;
  db_owner_todo : string;
  db_spawn_marker : option string
}.

Record SqliteStore := {
  table : gmap string DbRow;
  pool_error : option string
}.

Definition row_from_db (t : DbRow) : result (BackgroundTaskRow Json) CoreError :=
  match from_key (db_task_status t) with
  | None =>
      Err (Storage ("unknown background task status in DB: " +:+ db_task_status t
                    +:+ " for task " +:+ db_id t))
  | Some status =>
      Ok {| row_id := db_id t; row_user_id := db_user_id t; row_kind_json := db_kind_json t;
            row_status := status; row_parent_task_id := db_parent_task_id t;
            row_title := db_title t; row_last_error := db_last_error t;
            row_progress_hint := db_progress_hint t; row_started_at := db_started_at t;
            row_ended_at := db_ended_at t; row_owner_todo := db_owner_todo t;
            row_spawn_marker := db_spawn_marker t |}
  end.

(** [rows.into_iter().map(row_from_tuple).collect()]: the first error wins. *)
Fixpoint collect_rows (l : list DbRow) : result (list (BackgroundTaskRow Json)) CoreError :=
  match l with
  | [] => Ok []
  | t :: l' =>
      match row_from_db t with
      | Err e => Err e
      | Ok row => match collect_rows l' with Err e => Err e | Ok rs => Ok (row :: rs) end
      end
  end.

Definition sqlite_create_task (s : SqliteStore) (row : BackgroundTaskRow Json)
    : SqliteStore * result unit CoreError :=
  match pool_error s with
  | Some e => (s, Err (Storage e))
  | None =>
      match table s !! row_id row with
      | Some _ => (s, Err (Storage ("background task id already exists: " +:+ row_id row)))
      | None =>
          ({| table := <[row_id row :=
                {| db_id := row_id row; db_user_id := row_user_id row;
                   db_kind_json := row_kind_json row; db_task_status := as_key (row_status row);
                   db_parent_task_id := row_parent_task_id row; db_title := row_title row;
                   db_last_error := row_last_error row; db_progress_hint := row_progress_hint row;
                   db_started_at := row_started_at row; db_ended_at := row_ended_at row;
                   db_owner_todo := row_owner_todo row; db_spawn_marker := row_spawn_marker row |}]>
                (table s);
              pool_error := None |}, Ok tt)
      end
  end.

Definition sqlite_get_task (s : SqliteStore) (current id : string)
    : result (option (BackgroundTaskRow Json)) CoreError :=
  match pool_error s with
  | Some e => Err (Storage e)
  | None =>
      match table s !! id with
      | Some t =>
          if bool_decide (db_user_id t = current)
          then match row_from_db t with Ok row => Ok (Some row) | Err e => Err e end
          else Ok None
      | None => Ok None
      end
  end.

Definition sqlite_update_task (s : SqliteStore) (current id : string)
    (status : BackgroundTaskStatus) (last_error progress_hint : option string)
    (ended_at : option Z) : SqliteStore * result unit CoreError :=
  let missing := (s, Err (Storage ("background task not found for current user: " +:+ id))) in
  match pool_error s with
  | Some e => (s, Err (Storage e))
  | None =>
      match table s !! id with
      | Some t =>
          if bool_decide (db_user_id t = current)
          then
            ({| table := <[id :=
                  {| db_id := db_id t; db_user_id := db_user_id t;
                     db_kind_json := db_kind_json t; db_task_status := as_key status;
                     db_parent_task_id := db_parent_task_id t; db_title := db_title t;
                     db_last_error := last_error; db_progress_hint := progress_hint;
                     db_started_at := db_started_at t; db_ended_at := ended_at;
                     db_owner_todo := db_owner_todo t; db_spawn_marker := db_spawn_marker t |}]>
                  (table s);
                pool_error := None |}, Ok tt)
          else missing
      | None => missing
      end
  end.

Definition db_newer_first (a b : DbRow) : bool := (db_started_at b <=? db_started_at a)%Z.

(** [LIMIT -1] is no limit. *)
Definition sqlite_list_tasks_for_user (s : SqliteStore) (user : string)
    (include_finished : bool) (limit : option Z)
    : result (list (BackgroundTaskRow Json)) CoreError :=
  match pool_error s with
  | Some e => Err (Storage e)
  | None =>
      let matching := filter (λ t, db_user_id t = user ∧
          (include_finished = true ∨ db_task_status t ∈ ["pending"; "running"]))
          (map_to_list (table s)).*2 in
      let ordered := sort_by db_newer_first matching in
      let limit_value := match limit with Some l => l | None => (-1)%Z end in
      collect_rows (if (limit_value <? 0)%Z then ordered else take (Z.to_nat limit_value) ordered)
  end.

Definition sqlite_scan_non_terminal (s : SqliteStore)
    : result (list (BackgroundTaskRow Json)) CoreError :=
  match pool_error s with
  | Some e => Err (Storage e)
  | None =>
      collect_rows (filter (λ t, db_task_status t ∉ ["completed"; "failed"; "cancelled"])
                      (map_to_list (table s)).*2)
  end.

#[export] Instance sqlite_store : BackgroundTaskStore SqliteStore := {
  create_task := sqlite_create_task;
  get_task := sqlite_get_task;
  update_task := sqlite_update_task;
  list_tasks_for_user := sqlite_list_tasks_for_user;
  scan_non_terminal := sqlite_scan_non_terminal
}.

(** *** The adapter keeps the port's contract *)

Definition row_total (t : DbRow) : BackgroundTaskRow Json :=
  {| row_id := db_id t; row_user_id := db_user_id t; row_kind_json := db_kind_json t;
     row_status := default DbPending (from_key (db_task_status t));
     row_parent_task_id := db_parent_task_id t; row_title := db_title t;
     row_last_error := db_last_error t; row_progress_hint := db_progress_hint t;
     row_started_at := db_started_at t; row_ended_at := db_ended_at t;
     row_owner_todo := db_owner_todo t; row_spawn_marker := db_spawn_marker t |}.

Definition sqlite_rows (s : SqliteStore) : gmap string (BackgroundTaskRow Json) :=
  row_total <$> table s.

Definition key_ok (t : DbRow) : Prop := is_Some (from_key (db_task_status t)).

Definition table_ok (s : SqliteStore) : Prop :=
  map_Forall (λ id t, db_id t = id ∧ key_ok t) (table s).

Lemma row_from_db_ok t : key_ok t → row_from_db t = Ok (row_total t).
Proof. intros [st Hst]. unfold row_from_db, row_total. by rewrite Hst. Qed.

Lemma collect_rows_ok l : Forall key_ok l → collect_rows l = Ok (row_total <$> l).
Proof.
  induction 1 as [|t l Ht _ IH]; [done|]. simpl. by rewrite (row_from_db_ok _ Ht), IH.
Qed.

Lemma table_keys_ok s : table_ok s → Forall key_ok (map_to_list (table s)).*2.
Proof.
  intros Hs. apply Forall_forall. intros t ((id & t') & -> & Hin)%list_elem_of_fmap.
  apply elem_of_map_to_list in Hin. by destruct (Hs _ _ Hin).
Qed.

Lemma filter_keys_ok (P : DbRow → Prop) `{!∀ t, Decision (P t)} s :
  table_ok s → Forall key_ok (filter P (map_to_list (table s)).*2).
Proof.
  intros Hs%table_keys_ok. rewrite Forall_forall in *. intros t [_ Ht]%list_elem_of_filter. auto.
Qed.

Lemma rows_as_list s :
  (map_to_list (sqlite_rows s)).*2 ≡ₚ row_total <$> (map_to_list (table s)).*2.
Proof.
  unfold sqlite_rows. rewrite map_to_list_fmap, <- !list_fmap_compose.
  apply reflexive_eq, list_fmap_ext. by intros i [].
Qed.

(** Filtering the table's rows and then decoding them is decoding them and
    filtering the rows. *)
Lemma filter_rows (P : DbRow → Prop) `{!∀ t, Decision (P t)}
    (Q : BackgroundTaskRow Json → Prop) `{!∀ r, Decision (Q r)} l :
  Forall key_ok l → (∀ t, key_ok t → P t ↔ Q (row_total t)) →
  row_total <$> filter P l = filter Q (row_total <$> l).
Proof.
  intros Hl HPQ. induction Hl as [|t l Ht _ IH]; [done|].
  rewrite fmap_cons, !filter_cons. specialize (HPQ t Ht).
  destruct (decide (P t)), (decide (Q (row_total t))); rewrite ?fmap_cons, ?IH; tauto.
Qed.

Lemma key_ok_terminal t : key_ok t →
  is_terminal (row_status (row_total t)) = false ↔ db_task_status t ∉ ["completed"; "failed"; "cancelled"].
Proof.
  intros [st Hst]. unfold row_total; simpl. rewrite Hst.
  apply from_key_inv in Hst as ->. destruct st; simpl; split; (set_solver || done).
Qed.

Lemma key_ok_pending t : key_ok t →
  is_terminal (row_status (row_total t)) = false ↔ db_task_status t ∈ ["pending"; "running"].
Proof.
  intros [st Hst]. unfold row_total; simpl. rewrite Hst.
  apply from_key_inv in Hst as ->. destruct st; simpl; split; (set_solver || done).
Qed.

Lemma sorted_rows l : sorted_by db_newer_first l → sorted_by newer_first (row_total <$> l).
Proof.
  induction 1 as [|t l _ IH Ht]; [constructor|]. rewrite fmap_cons. constructor; [done|].
  apply Forall_fmap. done.
Qed.

#[export] Program Instance sqlite_store_laws : BackgroundTaskStoreLaws (Json := Json) SqliteStore :=
  {| rows := sqlite_rows; store_inv := table_ok |}.
Next Obligation.
  intros s id row Hs (t & <- & Ht)%lookup_fmap_Some. by destruct (Hs _ _ Ht).
Qed.
Next Obligation.
  intros s row s' r Hs. simpl. unfold sqlite_create_task. split_cases; intros [= <- <-].
  - done.
  - done.
  - split.
    + apply map_Forall_insert_2; [|done]. simpl. split; [done|].
      unfold key_ok. simpl. rewrite from_key_as_key. by eexists.
    + unfold sqlite_rows. cbn [table]. rewrite fmap_insert, lookup_fmap, H0. split; [done|]. simpl.
      f_equal. unfold row_total. simpl. rewrite from_key_as_key. by destruct row.
Qed.
Next Obligation.
  intros s row Hs Hin. unfold sqlite_rows in Hin. rewrite lookup_fmap in Hin.
  simpl. unfold sqlite_create_task. destruct (pool_error s); [done|].
  destruct (table s !! row_id row); [done|]. by apply is_Some_None in Hin.
Qed.
Next Obligation.
  intros s current id o Hs. simpl. unfold sqlite_get_task, sqlite_rows. rewrite lookup_fmap.
  destruct (pool_error s); [done|]. destruct (table s !! id) as [t|] eqn:Ht; simpl; [|by intros [= <-]].
  destruct (Hs _ _ Ht) as [_ Hk]. rewrite (row_from_db_ok _ Hk). case_bool_decide; by intros [= <-].
Qed.
Next Obligation.
  intros s current id st le ph ea s' r Hs. simpl. unfold sqlite_update_task.
  destruct (pool_error s); [by intros [= <- <-]|].
  destruct (table s !! id) as [t|] eqn:Ht; [|by intros [= <- <-]].
  case_bool_decide as Hu; [|by intros [= <- <-]]. intros [= <- <-].
  destruct (Hs _ _ Ht) as [Hid Hk]. split.
  - apply map_Forall_insert_2; [|done]. simpl. split; [done|].
    unfold key_ok. simpl. rewrite from_key_as_key. by eexists.
  - exists (row_total t). unfold sqlite_rows. cbn [table]. rewrite fmap_insert, lookup_fmap, Ht.
    split_and!; [done..|]. f_equal. unfold row_total, updated. simpl. by rewrite from_key_as_key.
Qed.
Next Obligation.
  intros s user fin limit l Hs Hlim. simpl. unfold sqlite_list_tasks_for_user.
  destruct (pool_error s); [done|].
  set (matching := filter _ _). intros Hl.
  assert (Hm : Forall key_ok matching) by (by apply filter_keys_ok).
  assert (Ho : Forall key_ok (sort_by db_newer_first matching)) by (by rewrite sort_by_perm).
  exists (row_total <$> sort_by db_newer_first matching). split_and!.
  - destruct limit as [n|]; simpl in Hl.
    + specialize (Hlim n eq_refl). destruct (Z.ltb_spec n 0); [lia|].
      rewrite collect_rows_ok in Hl by (by apply Forall_take).
      simplify_eq. by rewrite fmap_take.
    + rewrite collect_rows_ok in Hl by done. by simplify_eq.
  - apply sorted_rows, sort_by_sorted; unfold db_newer_first; intros; lia.
  - rewrite rows_as_list, sort_by_perm. unfold matching.
    rewrite (filter_rows _ (λ row, row_user_id row = user ∧
      (fin = true ∨ is_terminal (row_status row) = false))); [done|by apply table_keys_ok|].
    intros t Ht. by rewrite (key_ok_pending t Ht).
Qed.
Next Obligation.
  intros s l Hs. simpl. unfold sqlite_scan_non_terminal. destruct (pool_error s); [done|].
  rewrite collect_rows_ok by (by apply filter_keys_ok). intros [= <-].
  rewrite rows_as_list.
  rewrite (filter_rows _ (λ row, is_terminal (row_status row) = false)); [done|by apply table_keys_ok|].
  intros t Ht. by rewrite key_ok_terminal.
Qed.

End sqlite.
End Sqlite.
