(* ===== verification/BackgroundTasks.v ===== *)
(** * The registry of background tasks

    Models [crates/application/src/background_tasks.rs] with the wire types of
    [crates/api-model/src/lib.rs] it keeps: the user-scoped task map, the log
    ring, the per-user event channels, cancellation, the terminal transition,
    the completion notifies [wait] uses, persistence and the cold-restart sweep.

    Every critical section of the source's mutexes is one definition, so
    concurrent callers are sequences of these definitions.  Ids
    ([Uuid::new_v4]) and times ([now_ms]) are arguments.  tokio's broadcast
    channel is the class [Broadcast] with the documented facts of
    [BroadcastLaws]; serde's encoding of [TaskKind] is a pair of section
    variables; the order in which a [HashMap] lists its values is the section
    variable [values].  A [tokio::sync::Notify] is an identity with the set of
    enabled waiters; [notify_waiters] wakes exactly those. *)

From S2P Require Import Prelude TaskStore.

#[local] Open Scope Z_scope.

(** ** Wire types *)

Notation TaskId := string (only parsing).
Notation UserId := string (only parsing).

Inductive TaskKind :=
| Conversation (conversation_id : string)
| Subagent (parent_task_id : string) (conversation_id name session_conversation_id : string)
    (notify_parent : bool)
| Standalone (name conversation_id : string)
| Maintenance (name : string).

#[export] Instance TaskKind_eq_dec : EqDecision TaskKind.
Proof. solve_decision. Defined.

Inductive TaskStatus := Pending | Running | Completed | Failed | Cancelled.

#[export] Instance TaskStatus_eq_dec : EqDecision TaskStatus.
Proof. solve_decision. Defined.

Record TaskView := {
  id : string;
  kind : TaskKind;
  status : TaskStatus;
  started_at : Z;
  ended_at : option Z;
  last_error : option string;
  parent : option string;
  children : list string;
  title : string;
  progress_hint : option string;
  owner_todo : string;
  spawn_marker : option string
}.

Inductive LogLevel := Info | Warn | Error.
Inductive LogCategory := ModelTurn | ToolCall | ToolResult | StatusUpdate | Lifecycle.

Inductive TaskError := NotFound | AlreadyTerminal.

Record SpawnMeta := { meta_owner_todo : string; meta_spawn_marker : option string }.
Definition SpawnMeta_default : SpawnMeta :=
  {| meta_owner_todo := EmptyString; meta_spawn_marker := None |}.

Record RegistryConfig := { log_ring_capacity : nat; broadcast_capacity : nat }.
Definition RegistryConfig_default : RegistryConfig :=
  {| log_ring_capacity := 1000; broadcast_capacity := 256 |}.

Record SubagentCompletion := {
  c_user_id : string;
  c_parent_task_id : string;
  c_child_conversation_id : string;
  c_session_conversation_id : string;
  c_child_task_id : string;
  c_child_name : string;
  c_owner_todo : string;
  c_status : TaskStatus;
  c_siblings_remaining : nat;
  c_notify_parent : bool
}.

(** ** Pure helpers *)

Definition api_status_to_db (s : TaskStatus) : BackgroundTaskStatus :=
  match s with
  | Pending => DbPending | Running => DbRunning | Completed => DbCompleted
  | Failed => DbFailed | Cancelled => DbCancelled
  end.

Definition db_status_to_api (s : BackgroundTaskStatus) : TaskStatus :=
  match s with
  | DbPending => Pending | DbRunning => Running | DbCompleted => Completed
  | DbFailed => Failed | DbCancelled => Cancelled
  end.

(** [matches!(status, Completed | Failed | Cancelled)]. *)
Definition terminal_status (s : TaskStatus) : bool :=
  match s with Completed | Failed | Cancelled => true | _ => false end.

Definition parent_task_id_of (k : TaskKind) : option string :=
  match k with Subagent p _ _ _ _ => Some p | _ => None end.

Definition task_session_conversation (k : TaskKind) : option string :=
  match k with Subagent _ _ _ s _ => Some s | _ => None end.

Definition dot : Ascii.ascii := Ascii.ascii_of_nat 46.

Definition owner_under_prefix (owner prefix : string) : bool :=
  bool_decide (owner = prefix)
  || ((String.length prefix <? String.length owner)%nat
      && starts_with owner prefix
      && bool_decide (String.get (String.length prefix) owner = Some dot)).

(** ** Event channels *)

(** [broadcast::Sender]: [send] is [None] for a [SendError]. *)
Class Broadcast (Sender Receiver Ev : Type) := {
  channel : nat → Sender;
  send : Sender → Ev → option Sender;
  receiver_count : Sender → nat;
  sender_subscribe : Sender → Sender * Receiver
}.

(** The documented facts of [tokio::sync::broadcast]: a send fails exactly when
    there is no receiver and leaves the receivers alone; the sender half of a
    new channel whose receiver was dropped has none; subscribing adds one. *)
Class BroadcastLaws (Sender Receiver Ev : Type) `{Broadcast Sender Receiver Ev} := {
  send_fails s e : send s e = None ↔ receiver_count s = O;
  send_receivers s e s' : send s e = Some s' → receiver_count s' = receiver_count s;
  channel_receivers n : receiver_count (channel n) = O;
  subscribe_receivers s : receiver_count (sender_subscribe s).1 = S (receiver_count s)
}.

Section registry.
Context {Json Sender Receiver St Observer : Type}.

Record TaskLogEntry := {
  seq : Z;
  timestamp : Z;
  level : LogLevel;
  category : LogCategory;
  message : string;
  data : option Json
}.

(** The events the registry emits. *)
Inductive Event :=
| TaskStarted (task : TaskView)
| TaskProgress (id : string) (progress_hint : option string)
| TaskLogAppended (id : string) (entry : TaskLogEntry)
| TaskCompleted (id : string) (status : TaskStatus) (last_error : option string)
| ScratchpadChanged (conversation_id : string)
| KnowledgeChanged
| ConversationListChanged (conversation_id : string).

Context `{!Broadcast Sender Receiver Event} `{!BackgroundTaskStore (Json := Json) St}.
Context (to_value : TaskKind → option Json) (from_value : Json → option TaskKind).

Record TaskState := {
  owner : string;
  view : TaskView;
  token : bool;
  logs_of : list TaskLogEntry;
  next_seq : Z;
  completed : bool
}.

Context (values : gmap string TaskState → list TaskState).

(** [BackgroundTaskRegistry]'s shared state.  [notifies] counts the [Notify]
    objects created, [enabled] and [woken] are the waiters enrolled in and
    released by each; [observed] is what the observer has been called with. *)
Record Inner := {
  config : RegistryConfig;
  tasks : gmap string TaskState;
  user_channels : gmap string Sender;
  completion_notify : gmap string nat;
  store : option St;
  subagent_observer : option Observer;
  notifies : nat;
  enabled : gset (nat * nat);
  woken : gset (nat * nat);
  observed : list (Observer * SubagentCompletion)
}.

Definition with_config (c : RegistryConfig) : Inner :=
  {| config := c; tasks := ∅; user_channels := ∅; completion_notify := ∅; store := None;
     subagent_observer := None; notifies := 0; enabled := ∅; woken := ∅; observed := [] |}.

Definition set_tasks (s : Inner) (t : gmap string TaskState) : Inner :=
  {| config := config s; tasks := t; user_channels := user_channels s;
     completion_notify := completion_notify s; store := store s;
     subagent_observer := subagent_observer s; notifies := notifies s;
     enabled := enabled s; woken := woken s; observed := observed s |}.

Definition set_channels (s : Inner) (c : gmap string Sender) : Inner :=
  {| config := config s; tasks := tasks s; user_channels := c;
     completion_notify := completion_notify s; store := store s;
     subagent_observer := subagent_observer s; notifies := notifies s;
     enabled := enabled s; woken := woken s; observed := observed s |}.

Definition set_store (s : Inner) (st : option St) : Inner :=
  {| config := config s; tasks := tasks s; user_channels := user_channels s;
     completion_notify := completion_notify s; store := st;
     subagent_observer := subagent_observer s; notifies := notifies s;
     enabled := enabled s; woken := woken s; observed := observed s |}.

Definition set_notify (s : Inner) (m : gmap string nat) (n : nat) (e w : gset (nat * nat)) : Inner :=
  {| config := config s; tasks := tasks s; user_channels := user_channels s;
     completion_notify := m; store := store s;
     subagent_observer := subagent_observer s; notifies := n;
     enabled := e; woken := w; observed := observed s |}.

Definition set_observer (s : Inner) (o : option Observer)
    (l : list (Observer * SubagentCompletion)) : Inner :=
  {| config := config s; tasks := tasks s; user_channels := user_channels s;
     completion_notify := completion_notify s; store := store s;
     subagent_observer := o; notifies := notifies s;
     enabled := enabled s; woken := woken s; observed := l |}.

Definition set_subagent_observer (s : Inner) (o : Observer) : Inner :=
  match subagent_observer s with
  | Some _ => s
  | None => set_observer s (Some o) (observed s)
  end.

Definition with_store (s : Inner) (st : St) : Inner := set_store s (Some st).

(** *** Events *)

Definition broadcast (s : Inner) (user_id : string) (event : Event) : Inner :=
  match user_channels s !! user_id with
  | None => s
  | Some sender =>
      match send sender event with
      | Some sender' => set_channels s (<[user_id := sender']> (user_channels s))
      | None => set_channels s (delete user_id (user_channels s))
      end
  end.

Definition subscribe (s : Inner) (user_id : string) : Inner * Receiver :=
  let channels := filter (λ p, (0 < receiver_count p.2)%nat) (user_channels s) in
  let sender := default (channel (broadcast_capacity (config s))) (channels !! user_id) in
  let '(sender', rx) := sender_subscribe sender in
  (set_channels s (<[user_id := sender']> channels), rx).

Definition notify_scratchpad_changed (s : Inner) (user_id conversation_id : string) : Inner :=
  broadcast s user_id (ScratchpadChanged conversation_id).

Definition notify_knowledge_changed (s : Inner) (user_id : string) : Inner :=
  broadcast s user_id KnowledgeChanged.

Definition notify_conversation_list_changed (s : Inner) (user_id conversation_id : string) : Inner :=
  broadcast s user_id (ConversationListChanged conversation_id).

(** *** Log ring *)

Definition set_logs (st : TaskState) (l : list TaskLogEntry) (n : Z) : TaskState :=
  {| owner := owner st; view := view st; token := token st; logs_of := l; next_seq := n;
     completed := completed st |}.

Definition set_view (st : TaskState) (v : TaskView) : TaskState :=
  {| owner := owner st; view := v; token := token st; logs_of := logs_of st;
     next_seq := next_seq st; completed := completed st |}.

(** The ring update shared by [TaskLogSink::append] and [append_log]: the oldest
    entry goes when the buffer holds exactly the capacity. *)
Definition push_entry (cap : nat) (st : TaskState) (entry : TaskLogEntry) : TaskState :=
  let kept := if (length (logs_of st) =? cap)%nat then tail (logs_of st) else logs_of st in
  set_logs st (kept ++ [entry]) (next_seq st + 1).

Definition new_entry (st : TaskState) (now : Z) (l : LogLevel) (c : LogCategory)
    (msg : string) (d : option Json) : TaskLogEntry :=
  {| seq := next_seq st; timestamp := now; level := l; category := c; message := msg; data := d |}.

(** [TaskLogSink::append]. *)
Definition append (s : Inner) (task_id : string) (now : Z) (l : LogLevel) (c : LogCategory)
    (msg : string) (d : option Json) : Inner :=
  match tasks s !! task_id with
  | None => s
  | Some st =>
      let entry := new_entry st now l c msg d in
      let s := set_tasks s (<[task_id := push_entry (log_ring_capacity (config s)) st entry]> (tasks s)) in
      broadcast s (owner st) (TaskLogAppended task_id entry)
  end.

Definition append_log (s : Inner) (user_id task_id : string) (now : Z) (l : LogLevel)
    (c : LogCategory) (msg : string) (d : option Json) : Inner :=
  match tasks s !! task_id with
  | None => s
  | Some st =>
      if bool_decide (owner st ≠ user_id) then s
      else
        let entry := new_entry st now l c msg d in
        let s := set_tasks s (<[task_id := push_entry (log_ring_capacity (config s)) st entry]> (tasks s)) in
        broadcast s (owner st) (TaskLogAppended task_id entry)
  end.

Definition logs (s : Inner) (user_id task_id : string) (after_seq : Z) (limit : Z)
    : result (list TaskLogEntry * Z) TaskError :=
  match tasks s !! task_id with
  | None => Err NotFound
  | Some st =>
      if bool_decide (owner st ≠ user_id) then Err NotFound
      else
        let entries := take (Z.to_nat limit) (filter (λ e, after_seq < seq e) (logs_of st)) in
        Ok (entries, match last entries with Some e => seq e + 1 | None => next_seq st end)
  end.

(** *** Views *)

Definition with_hint (v : TaskView) (h : option string) : TaskView :=
  {| id := id v; kind := kind v; status := status v; started_at := started_at v;
     ended_at := ended_at v; last_error := last_error v; parent := parent v;
     children := children v; title := title v; progress_hint := h;
     owner_todo := owner_todo v; spawn_marker := spawn_marker v |}.

Definition with_children (v : TaskView) (c : list string) : TaskView :=
  {| id := id v; kind := kind v; status := status v; started_at := started_at v;
     ended_at := ended_at v; last_error := last_error v; parent := parent v;
     children := c; title := title v; progress_hint := progress_hint v;
     owner_todo := owner_todo v; spawn_marker := spawn_marker v |}.

Definition with_outcome (v : TaskView) (st : TaskStatus) (ended : Z) (err : option string) : TaskView :=
  {| id := id v; kind := kind v; status := st; started_at := started_at v;
     ended_at := Some ended; last_error := err; parent := parent v;
     children := children v; title := title v; progress_hint := None;
     owner_todo := owner_todo v; spawn_marker := spawn_marker v |}.

Definition set_progress_hint (s : Inner) (task_id : string) (hint : option string) : Inner :=
  match tasks s !! task_id with
  | None => s
  | Some st =>
      let s := set_tasks s (<[task_id := set_view st (with_hint (view st) hint)]> (tasks s)) in
      broadcast s (owner st) (TaskProgress task_id hint)
  end.

(** *** Spawning *)

(** [parent_state.view.children.push(child)], when the parent is registered. *)
Definition link_child (m : gmap string TaskState) (p : option string) (child : string)
    : gmap string TaskState :=
  match p with
  | None => m
  | Some pid =>
      match m !! pid with
      | None => m
      | Some ps => <[pid := set_view ps (with_children (view ps) (children (view ps) ++ [child]))]> m
      end
  end.

Definition spawn_view (task_id : string) (k : TaskKind) (t : string) (meta : SpawnMeta) (now : Z)
    : TaskView :=
  {| id := task_id; kind := k; status := Running; started_at := now; ended_at := None;
     last_error := None; parent := parent_task_id_of k; children := []; title := t;
     progress_hint := None; owner_todo := meta_owner_todo meta;
     spawn_marker := meta_spawn_marker meta |}.

Definition spawn_with_meta (s : Inner) (task_id : string) (now now_log : Z) (user_id : string)
    (k : TaskKind) (t : string) (meta : SpawnMeta) : Inner :=
  let v := spawn_view task_id k t meta now in
  let m := <[task_id := {| owner := user_id; view := v; token := false; logs_of := [];
                           next_seq := 1; completed := false |}]> (tasks s) in
  let s := set_tasks s (link_child m (parent v) task_id) in
  let s := broadcast s user_id (TaskStarted v) in
  append s task_id now_log Info Lifecycle "task started" None.

Definition spawn (s : Inner) (task_id : string) (now now_log : Z) (user_id : string)
    (k : TaskKind) (t : string) : Inner :=
  spawn_with_meta s task_id now now_log user_id k t SpawnMeta_default.

(** How the body's [JoinHandle] resolves, and what the wrapper makes of it. *)
Inductive JoinOutcome :=
| Joined (outcome : result unit string)
| Panicked (payload : option string)
| JoinAborted (join_err : string).

Definition body_result (j : JoinOutcome) : result unit string :=
  match j with
  | Joined outcome => outcome
  | Panicked payload => Err ("task body panicked: " +:+ default "task body panicked" payload)
  | JoinAborted e => Err ("task body aborted: " +:+ e)
  end.

(** *** Persistence *)

Definition row_of_view (task_id user_id : string) (kind_json : Json) (v : TaskView)
    : BackgroundTaskRow Json :=
  {| row_id := task_id; row_user_id := user_id; row_kind_json := kind_json;
     row_status := api_status_to_db (status v); row_parent_task_id := parent v;
     row_title := title v; row_last_error := last_error v; row_progress_hint := progress_hint v;
     row_started_at := started_at v; row_ended_at := ended_at v;
     row_owner_todo := owner_todo v; row_spawn_marker := spawn_marker v |}.

Definition persist_create (s : Inner) (task_id user_id : string) (v : TaskView) : Inner :=
  match store s with
  | None => s
  | Some st =>
      match to_value (kind v) with
      | None => s
      | Some kind_json => set_store s (Some (create_task st (row_of_view task_id user_id kind_json v)).1)
      end
  end.

Definition persist_update (s : Inner) (task_id user_id : string) (st : BackgroundTaskStatus)
    (err hint : option string) (ended : option Z) : Inner :=
  match store s with
  | None => s
  | Some db => set_store s (Some (update_task db user_id task_id st err hint ended).1)
  end.

Definition row_to_view (row : BackgroundTaskRow Json) : option TaskView :=
  match from_value (row_kind_json row) with
  | None => None
  | Some k =>
      Some {| id := row_id row; kind := k; status := db_status_to_api (row_status row);
              started_at := row_started_at row; ended_at := row_ended_at row;
              last_error := row_last_error row; parent := row_parent_task_id row;
              children := []; title := row_title row; progress_hint := row_progress_hint row;
              owner_todo := row_owner_todo row; spawn_marker := row_spawn_marker row |}
  end.

(** *** Queries and cancellation *)

Definition cancel (s : Inner) (user_id task_id : string) : Inner * result unit TaskError :=
  match tasks s !! task_id with
  | None => (s, Err NotFound)
  | Some st =>
      if bool_decide (owner st ≠ user_id) then (s, Err NotFound)
      else if terminal_status (status (view st)) then (s, Err AlreadyTerminal)
      else
        (set_tasks s (<[task_id := {| owner := owner st; view := view st; token := true;
                                      logs_of := logs_of st; next_seq := next_seq st;
                                      completed := completed st |}]> (tasks s)), Ok tt)
  end.

Definition live_status (st : TaskStatus) : bool :=
  match st with Pending | Running => true | _ => false end.

(** [sort_by_key(|v| Reverse(v.started_at))]. *)
Definition view_newer_first (a b : TaskView) : bool := started_at b <=? started_at a.

Definition list_tasks (s : Inner) (user_id : string) (include_finished : bool) (limit : option Z)
    : list TaskView :=
  let mine := filter (λ st, owner st = user_id) (values (tasks s)) in
  let shown := filter (λ st, include_finished = true ∨ live_status (status (view st)) = true) mine in
  let out := sort_by view_newer_first (view <$> shown) in
  match limit with Some l => take (Z.to_nat l) out | None => out end.

Definition get (s : Inner) (user_id task_id : string) : option TaskView :=
  st ← tasks s !! task_id;
  if bool_decide (owner st ≠ user_id) then None else Some (view st).

(** [current] is the caller's [current_user_id()]. *)
Definition get_or_load (s : Inner) (current user_id task_id : string) : option TaskView :=
  match get s user_id task_id with
  | Some v => Some v
  | None =>
      match store s with
      | None => None
      | Some db =>
          match get_task db current task_id with
          | Ok (Some row) => if bool_decide (row_user_id row ≠ user_id) then None else row_to_view row
          | _ => None
          end
      end
  end.

Definition any_non_terminal_under_owner_prefix (s : Inner)
    (user_id session_conversation_id owner_prefix : string) : bool :=
  existsb (λ st,
    bool_decide (owner st = user_id)
    && live_status (status (view st))
    && bool_decide (task_session_conversation (kind (view st)) = Some session_conversation_id)
    && owner_under_prefix (owner_todo (view st)) owner_prefix) (values (tasks s)).

(** *** The terminal transition *)

Definition outcome_of (r : result unit string) (cancelled : bool) : TaskStatus * option string :=
  match r, cancelled with
  | Ok _, true => (Cancelled, None)
  | Err e, true => (Cancelled, Some e)
  | Ok _, false => (Completed, None)
  | Err e, false => (Failed, Some e)
  end.

(** First critical section of [finalize]: the status flip and the snapshot the
    rest works on. *)
Definition finalize_commit (s : Inner) (task_id : string) (r : result unit string) (now : Z)
    : option (Inner * TaskView) :=
  match tasks s !! task_id with
  | None => None
  | Some st =>
      let '(stt, err) := outcome_of r (token st) in
      let v := with_outcome (view st) stt now err in
      Some (set_tasks s (<[task_id := {| owner := owner st; view := v; token := token st;
                                         logs_of := logs_of st; next_seq := next_seq st;
                                         completed := true |}]> (tasks s)), v)
  end.

Definition is_open_sibling (p : string) (st : TaskState) : bool :=
  negb (terminal_status (status (view st)))
  && match kind (view st) with Subagent p' _ _ _ _ => bool_decide (p' = p) | _ => false end.

(** Second critical section: count the open siblings, evict, unlink. *)
Definition finalize_evict (s : Inner) (task_id : string) (v : TaskView) : Inner * nat :=
  let remaining :=
    match kind v with
    | Subagent p _ _ _ _ => length (filter (λ st, is_open_sibling p st = true) (values (tasks s)))
    | _ => O
    end in
  let m := delete task_id (tasks s) in
  let m := match parent v with
           | None => m
           | Some pid =>
               match m !! pid with
               | None => m
               | Some ps =>
                   <[pid := set_view ps (with_children (view ps)
                              (filter (λ c, c ≠ task_id) (children (view ps))))]> m
               end
           end in
  (set_tasks s m, remaining).

(** [completion_notify.remove(task_id)]. *)
Definition finalize_take_notify (s : Inner) (task_id : string) : Inner * option nat :=
  (set_notify s (delete task_id (completion_notify s)) (notifies s) (enabled s) (woken s),
   completion_notify s !! task_id).

(** [Notify::notify_waiters]. *)
Definition notify_waiters (s : Inner) (n : nat) : Inner :=
  set_notify s (completion_notify s) (notifies s)
    (filter (λ p, p.1 ≠ n) (enabled s))
    (woken s ∪ filter (λ p, p.1 = n) (enabled s)).

Definition finalize_observe (s : Inner) (task_id user_id : string) (v : TaskView) (remaining : nat)
    : Inner :=
  match kind v, subagent_observer s with
  | Subagent p conv name session np, Some obs =>
      set_observer s (subagent_observer s) (observed s ++ [(obs,
        {| c_user_id := user_id; c_parent_task_id := p; c_child_conversation_id := conv;
           c_session_conversation_id := session; c_child_task_id := task_id;
           c_child_name := name; c_owner_todo := owner_todo v; c_status := status v;
           c_siblings_remaining := remaining; c_notify_parent := np |})])
  | _, _ => s
  end.

Definition finalize (s : Inner) (task_id user_id : string) (r : result unit string) (now : Z) : Inner :=
  match finalize_commit s task_id r now with
  | None => s
  | Some (s, v) =>
      let s := broadcast s user_id (TaskCompleted task_id (status v) (last_error v)) in
      let s := persist_update s task_id user_id (api_status_to_db (status v)) (last_error v)
                 (progress_hint v) (Some now) in
      let '(s, remaining) := finalize_evict s task_id v in
      let '(s, waiter) := finalize_take_notify s task_id in
      let s := match waiter with Some n => notify_waiters s n | None => s end in
      finalize_observe s task_id user_id v remaining
  end.

(** *** Waiting *)

(** The test of [wait]'s fast path and of its double check. *)
Definition wait_over (s : Inner) (task_id : string) : bool :=
  match tasks s !! task_id with Some st => completed st | None => true end.

(** [completion_notify.entry(id).or_insert_with(..)]. *)
Definition wait_register (s : Inner) (task_id : string) : Inner * nat :=
  match completion_notify s !! task_id with
  | Some n => (s, n)
  | None =>
      let n := notifies s in
      (set_notify s (<[task_id := n]> (completion_notify s)) (S n) (enabled s) (woken s), n)
  end.

(** [notified.as_mut().enable()], by waiter [w]. *)
Definition wait_enable (s : Inner) (n w : nat) : Inner :=
  set_notify s (completion_notify s) (notifies s) (enabled s ∪ {[ (n, w) ]}) (woken s).

(** *** Cold restart *)

Definition sweep_error (k : TaskKind) : string :=
  match k with
  | Conversation _ | Subagent _ _ _ _ _ => "daemon restarted mid-turn"
  | Standalone _ _ => "daemon restarted; resume not yet implemented"
  | Maintenance _ => "daemon restarted; maintenance pass not resumed"
  end.

Definition sweep_view (row : BackgroundTaskRow Json) (k : TaskKind) (now : Z) : TaskView :=
  {| id := row_id row; kind := k; status := Failed; started_at := row_started_at row;
     ended_at := Some now; last_error := Some (sweep_error k);
     parent := row_parent_task_id row; children := []; title := row_title row;
     progress_hint := row_progress_hint row; owner_todo := row_owner_todo row;
     spawn_marker := row_spawn_marker row |}.

(** One iteration of the sweep; the flag says whether the row was counted. *)
Definition sweep_row (s : Inner) (db : St) (row : BackgroundTaskRow Json) (now : Z)
    : Inner * St * bool :=
  match from_value (row_kind_json row) with
  | None => (s, db, false)
  | Some k =>
      let '(db, r) := update_task db (row_user_id row) (row_id row) DbFailed
                        (Some (sweep_error k)) (row_progress_hint row) (Some now) in
      match r with
      | Err _ => (s, db, false)
      | Ok _ =>
          let v := sweep_view row k now in
          let st := {| owner := row_user_id row; view := v; token := false; logs_of := [];
                       next_seq := 1; completed := true |} in
          let entry := new_entry st now Warn Lifecycle (sweep_error k) None in
          let m := <[row_id row := set_logs st [entry] 2]> (tasks s) in
          let s := set_tasks s (link_child m (parent v) (row_id row)) in
          let s := broadcast s (row_user_id row) (TaskStarted v) in
          let s := broadcast s (row_user_id row)
                     (TaskCompleted (row_id row) Failed (Some (sweep_error k))) in
          (s, db, true)
      end
  end.

Fixpoint sweep_rows (s : Inner) (db : St) (rows : list (BackgroundTaskRow Json))
    (clock : BackgroundTaskRow Json → Z) (count : Z) : Inner * St * Z :=
  match rows with
  | [] => (s, db, count)
  | row :: rest =>
      let '(s, db, counted) := sweep_row s db row (clock row) in
      sweep_rows s db rest clock (if counted then sat_add u32_max count 1 else count)
  end.

(** [sort_by_key(|r| r.parent_task_id.is_some())]: roots first. *)
Definition roots_first (a b : BackgroundTaskRow Json) : bool :=
  implb (bool_decide (is_Some (row_parent_task_id a))) (bool_decide (is_Some (row_parent_task_id b))).

Definition sweep_non_terminal_on_startup (s : Inner) (clock : BackgroundTaskRow Json → Z)
    : Inner * result Z CoreError :=
  match store s with
  | None => (s, Ok 0)
  | Some db =>
      match scan_non_terminal db with
      | Err e => (s, Err e)
      | Ok rows =>
          let '(s, db, count) := sweep_rows s db (sort_by roots_first rows) clock 0 in
          (set_store s (Some db), Ok count)
      end
  end.

(** ** Runs

    The registry's callers as a sequence of critical sections.  The finalizing
    task of a body is the pair [OCommit], [OEvict]: another caller may run
    between them.  [OCommit] runs at most once per task, as the wrapper
    [tokio::spawn]ed by [spawn_with_meta] calls [finalize] once. *)

Inductive op :=
| OSpawn (task_id : string) (now now_log : Z) (user : string) (k : TaskKind) (t : string)
    (meta : SpawnMeta)
| OAppend (task_id : string) (now : Z) (l : LogLevel) (c : LogCategory) (msg : string)
    (d : option Json)
| OAppendLog (user task_id : string) (now : Z) (l : LogLevel) (c : LogCategory) (msg : string)
    (d : option Json)
| OHint (task_id : string) (hint : option string)
| OCancel (user task_id : string)
| OCommit (task_id : string) (r : result unit string) (now : Z)
| OEvict (task_id : string)
| OSubscribe (user : string)
| ONotify (user : string) (e : Event).

Definition finalize_publish (s : Inner) (task_id user_id : string) (v : TaskView) (now : Z) : Inner :=
  persist_update (broadcast s user_id (TaskCompleted task_id (status v) (last_error v)))
    task_id user_id (api_status_to_db (status v)) (last_error v) (progress_hint v) (Some now).

Definition finalize_finish (s : Inner) (task_id user_id : string) (v : TaskView) : Inner :=
  let '(s, remaining) := finalize_evict s task_id v in
  let '(s, waiter) := finalize_take_notify s task_id in
  let s := match waiter with Some n => notify_waiters s n | None => s end in
  finalize_observe s task_id user_id v remaining.

Definition run (s : Inner) (o : op) : Inner :=
  match o with
  | OSpawn i n nl u k t m => spawn_with_meta s i n nl u k t m
  | OAppend i n l c msg d => append s i n l c msg d
  | OAppendLog u i n l c msg d => append_log s u i n l c msg d
  | OHint i h => set_progress_hint s i h
  | OCancel u i => (cancel s u i).1
  | OCommit i r n =>
      match tasks s !! i with
      | Some st =>
          if completed st then s
          else match finalize_commit s i r n with
               | Some (s', v) => finalize_publish s' i (owner st) v n
               | None => s
               end
      | None => s
      end
  | OEvict i =>
      match tasks s !! i with
      | Some st => if completed st then finalize_finish s i (owner st) (view st) else s
      | None => s
      end
  | OSubscribe u => (subscribe s u).1
  | ONotify u e => broadcast s u e
  end.

(** On whose behalf an operation runs. *)
Definition actor (s : Inner) (o : op) : option string :=
  match o with
  | OSpawn _ _ _ u _ _ _ | OAppendLog u _ _ _ _ _ _ | OCancel u _ | OSubscribe u | ONotify u _ => Some u
  | OAppend i _ _ _ _ _ | OHint i _ | OCommit i _ _ | OEvict i => owner <$> tasks s !! i
  end.

(** Spawned ids are fresh ([Uuid::new_v4]: no task has the id or names it as its
    parent), and a subagent's parent, when registered, is the caller's: it is
    read from the running task ([current_task_id]). *)
Definition fresh_id (s : Inner) (i : string) : Prop :=
  tasks s !! i = None ∧ map_Forall (λ _ st, parent (view st) ≠ Some i) (tasks s).

Definition op_ok (s : Inner) (o : op) : Prop :=
  match o with
  | OSpawn i _ _ u k _ _ =>
      fresh_id s i ∧ parent_task_id_of k ≠ Some i ∧
      ∀ p ps, parent_task_id_of k = Some p → tasks s !! p = Some ps → owner ps = u
  | _ => True
  end.

Fixpoint ops_ok (s : Inner) (ops : list op) : Prop :=
  match ops with
  | [] => True
  | o :: rest => op_ok s o ∧ ops_ok (run s o) rest
  end.

Definition runs (s : Inner) (ops : list op) : Inner := foldl run s ops.

(** *** What each step does to the task map *)

Lemma tasks_broadcast s u e : tasks (broadcast s u e) = tasks s.
Proof. unfold broadcast. by split_cases. Qed.

Lemma tasks_persist_update s i u st e h n : tasks (persist_update s i u st e h n) = tasks s.
Proof. unfold persist_update. by split_cases. Qed.

Lemma config_broadcast s u e : config (broadcast s u e) = config s.
Proof. unfold broadcast. by split_cases. Qed.

Lemma config_persist_update s i u st e h n : config (persist_update s i u st e h n) = config s.
Proof. unfold persist_update. by split_cases. Qed.

Lemma tasks_append s i n l c msg d :
  tasks (append s i n l c msg d) =
  match tasks s !! i with
  | Some st => <[i := push_entry (log_ring_capacity (config s)) st (new_entry st n l c msg d)]> (tasks s)
  | None => tasks s
  end.
Proof. unfold append. destruct (tasks s !! i); [|done]. by rewrite tasks_broadcast. Qed.

(** A task just spawned: its state after the "task started" line. *)
Definition spawned (cap : nat) (i u : string) (k : TaskKind) (t : string) (meta : SpawnMeta)
    (now now_log : Z) : TaskState :=
  let st := {| owner := u; view := spawn_view i k t meta now; token := false; logs_of := [];
               next_seq := 1; completed := false |} in
  push_entry cap st (new_entry st now_log Info Lifecycle "task started" None).

Lemma link_child_insert m p i st :
  p ≠ Some i → link_child (<[i := st]> m) p i = <[i := st]> (link_child m p i).
Proof.
  intros Hp. unfold link_child. destruct p as [pid|]; [|done].
  rewrite lookup_insert_ne by congruence. destruct (m !! pid); [|done].
  apply insert_insert_ne. congruence.
Qed.

Lemma lookup_link_child m p i j :
  link_child m p i !! j =
  (λ st, if bool_decide (p = Some j)
         then set_view st (with_children (view st) (children (view st) ++ [i])) else st) <$> m !! j.
Proof.
  unfold link_child. destruct p as [pid|].
  - destruct (decide (pid = j)) as [->|Hne].
    + rewrite bool_decide_eq_true_2 by done. destruct (m !! j) eqn:E; [by rewrite lookup_insert_eq|by rewrite E].
    + rewrite bool_decide_eq_false_2 by congruence.
      destruct (m !! pid); [rewrite lookup_insert_ne by done|]; by destruct (m !! j).
  - by destruct (m !! j).
Qed.

Lemma lookup_link_child_fresh m p i : m !! i = None → link_child m p i !! i = None.
Proof. intros Hi. by rewrite lookup_link_child, Hi. Qed.

Lemma tasks_spawn s i n nl u k t meta :
  parent_task_id_of k ≠ Some i →
  tasks (spawn_with_meta s i n nl u k t meta) =
  <[i := spawned (log_ring_capacity (config s)) i u k t meta n nl]>
    (link_child (tasks s) (parent_task_id_of k) i).
Proof.
  intros Hp. unfold spawn_with_meta. rewrite tasks_append, tasks_broadcast, config_broadcast. simpl.
  rewrite link_child_insert by done. rewrite lookup_insert_eq. by rewrite insert_insert_eq.
Qed.

(** The map [finalize_evict] leaves. *)
Definition unlink (m : gmap string TaskState) (i : string) (p : option string) : gmap string TaskState :=
  let m := delete i m in
  match p with
  | None => m
  | Some pid =>
      match m !! pid with
      | None => m
      | Some ps => <[pid := set_view ps (with_children (view ps)
                      (filter (λ c, c ≠ i) (children (view ps))))]> m
      end
  end.

Lemma tasks_finalize_finish s i u v :
  tasks (finalize_finish s i u v) = unlink (tasks s) i (parent v).
Proof.
  unfold finalize_finish, finalize_evict, finalize_take_notify, finalize_observe, notify_waiters, unlink.
  simpl. destruct (completion_notify s !! i); destruct (kind v); try done; by case_match.
Qed.

Definition committed (st : TaskState) (r : result unit string) (now : Z) : TaskState :=
  {| owner := owner st;
     view := with_outcome (view st) (outcome_of r (token st)).1 now (outcome_of r (token st)).2;
     token := token st; logs_of := logs_of st; next_seq := next_seq st; completed := true |}.

Lemma finalize_commit_Some s i r now st :
  tasks s !! i = Some st →
  finalize_commit s i r now =
    Some (set_tasks s (<[i := committed st r now]> (tasks s)), view (committed st r now)).
Proof. intros Hst. unfold finalize_commit, committed. rewrite Hst. by destruct (outcome_of r (token st)). Qed.

(** A finalizer that is not interrupted is its two steps. *)
Lemma finalize_split s i u r now st :
  tasks s !! i = Some st → completed st = false → owner st = u →
  finalize s i u r now = run (run s (OCommit i r now)) (OEvict i).
Proof.
  intros Hst Hc Ho. unfold finalize. simpl. rewrite Hst, Hc, (finalize_commit_Some _ _ _ _ _ Hst).
  set (s1 := finalize_publish _ _ _ _ _).
  assert (tasks s1 = <[i := committed st r now]> (tasks s)) as ->.
  { unfold s1, finalize_publish. rewrite tasks_persist_update, tasks_broadcast. done. }
  rewrite lookup_insert_eq. simpl. by subst u s1.
Qed.

Lemma tasks_cancel s u i :
  tasks (cancel s u i).1 =
  match tasks s !! i with
  | Some st =>
      if bool_decide (owner st = u) && negb (terminal_status (status (view st)))
      then <[i := {| owner := owner st; view := view st; token := true; logs_of := logs_of st;
                     next_seq := next_seq st; completed := completed st |}]> (tasks s)
      else tasks s
  | None => tasks s
  end.
Proof.
  unfold cancel. destruct (tasks s !! i) as [st|]; [|done].
  destruct (decide (owner st = u)); [rewrite bool_decide_eq_false_2, bool_decide_eq_true_2 by naive_solver
    |rewrite bool_decide_eq_true_2, bool_decide_eq_false_2 by done; done].
  by destruct (terminal_status _).
Qed.

(** ** User isolation *)

(** A user's own tasks. *)
Definition own (u : string) (s : Inner) : gmap string TaskState :=
  filter (λ p, owner p.2 = u) (tasks s).

Lemma own_lookup u s i st : own u s !! i = Some st ↔ tasks s !! i = Some st ∧ owner st = u.
Proof. unfold own. apply map_lookup_filter_Some. Qed.

(** Replacing another user's entry, or adding one, is invisible. *)
Lemma own_insert_foreign u (m : gmap string TaskState) i st :
  owner st ≠ u → (∀ st', m !! i = Some st' → owner st' ≠ u) →
  filter (λ p : string * TaskState, owner p.2 = u) (<[i := st]> m) =
  filter (λ p : string * TaskState, owner p.2 = u) m.
Proof.
  intros Hu Hm. rewrite map_filter_insert_False by done.
  destruct (m !! i) as [st'|] eqn:E; [|by rewrite delete_id].
  rewrite map_filter_delete_not; [done|]. intros y Hy. simplify_eq. by apply Hm.
Qed.

Lemma own_link_child u (m : gmap string TaskState) p i :
  (∀ pid ps, p = Some pid → m !! pid = Some ps → owner ps ≠ u) →
  filter (λ q : string * TaskState, owner q.2 = u) (link_child m p i) =
  filter (λ q : string * TaskState, owner q.2 = u) m.
Proof.
  intros Hp. unfold link_child. destruct p as [pid|]; [|done].
  destruct (m !! pid) as [ps|] eqn:E; [|done].
  apply own_insert_foreign; [by eapply (Hp pid ps)|]. intros st' ?. simplify_eq. by eapply Hp.
Qed.

(** Every registered parent belongs to its child's owner. *)
Definition parents_owned (s : Inner) : Prop :=
  ∀ i st p ps, tasks s !! i = Some st → parent (view st) = Some p →
               tasks s !! p = Some ps → owner ps = owner st.

Lemma own_unlink u (m : gmap string TaskState) i p st :
  m !! i = Some st → owner st ≠ u →
  (∀ pid ps, p = Some pid → m !! pid = Some ps → owner ps = owner st) →
  filter (λ q : string * TaskState, owner q.2 = u) (unlink m i p) =
  filter (λ q : string * TaskState, owner q.2 = u) m.
Proof.
  intros Hi Hu Hp.
  assert (Hd : filter (λ q : string * TaskState, owner q.2 = u) (delete i m) =
               filter (λ q : string * TaskState, owner q.2 = u) m).
  { apply map_filter_delete_not. intros y Hy. by simplify_eq. }
  unfold unlink. destruct p as [pid|]; [|done].
  destruct (delete i m !! pid) as [ps|] eqn:E; [|done].
  rewrite own_insert_foreign; [done| |].
  - simpl. apply lookup_delete_Some in E as [_ E]. by rewrite (Hp _ _ eq_refl E).
  - intros st' ?. simplify_eq. apply lookup_delete_Some in E as [_ E]. by rewrite (Hp _ _ eq_refl E).
Qed.

(** One operation on behalf of somebody else leaves a user's tasks alone. *)
Lemma run_own s o u :
  parents_owned s → op_ok s o → actor s o ≠ Some u → own u (run s o) = own u s.
Proof.
  intros Hpo Hok Ha. unfold own. destruct o as [i n nl w k t m|i n l c msg d|w i n l c msg d|i h|w i|i r n|i|w|w e];
    simpl in *.
  - destruct Hok as ([Hf Hfp] & Hne & Hpar). rewrite tasks_spawn by done.
    rewrite own_insert_foreign; simpl; [|congruence|].
    + apply own_link_child. intros pid ps Hk Hps. rewrite (Hpar pid ps) by done. congruence.
    + intros st' Hst'. rewrite lookup_link_child_fresh in Hst'; naive_solver.
  - rewrite tasks_append. destruct (tasks s !! i) as [st|] eqn:E; [|done]. simpl in Ha.
    apply own_insert_foreign; simpl; [|intros st' ?]; congruence.
  - unfold append_log. destruct (tasks s !! i) as [st|] eqn:E; [|done].
    case_bool_decide as Ho; [done|]. rewrite tasks_broadcast. simpl.
    apply own_insert_foreign; simpl; [|intros st' ?]; congruence.
  - unfold set_progress_hint. destruct (tasks s !! i) as [st|] eqn:E; [|done].
    rewrite tasks_broadcast. simpl in *. apply own_insert_foreign; simpl; [|intros st' ?]; congruence.
  - rewrite tasks_cancel. destruct (tasks s !! i) as [st|] eqn:E; [|done].
    case_match; [|done]. bool_hyps. apply own_insert_foreign; simpl; [|intros st' ?]; congruence.
  - destruct (tasks s !! i) as [st|] eqn:E; [|done]. destruct (completed st); [done|].
    rewrite (finalize_commit_Some _ _ _ _ _ E). unfold finalize_publish.
    rewrite tasks_persist_update, tasks_broadcast. simpl in *.
    apply own_insert_foreign; simpl; [|intros st' ?]; congruence.
  - destruct (tasks s !! i) as [st|] eqn:E; [|done]. destruct (completed st); [|done].
    rewrite tasks_finalize_finish. simpl in Ha. eapply own_unlink; [done|congruence|].
    intros pid ps Hp Hps. by eapply Hpo.
  - unfold subscribe. by destruct (sender_subscribe _).
  - by rewrite tasks_broadcast.
Qed.

(** ** How one task evolves

    Every operation takes each registered task through at most one of these
    transitions, or registers it afresh. *)

Inductive evolve (cap : nat) (st : TaskState) : TaskState → Prop :=
| ev_same : evolve cap st st
| ev_children c : evolve cap st (set_view st (with_children (view st) c))
| ev_log now l c msg d : evolve cap st (push_entry cap st (new_entry st now l c msg d))
| ev_hint h : evolve cap st (set_view st (with_hint (view st) h))
| ev_cancel :
    terminal_status (status (view st)) = false →
    evolve cap st {| owner := owner st; view := view st; token := true; logs_of := logs_of st;
                     next_seq := next_seq st; completed := completed st |}
| ev_commit r now : completed st = false → evolve cap st (committed st r now).

#[local] Hint Constructors evolve : core.

Lemma insert_evolve cap (m : gmap string TaskState) i st st' j x :
  m !! i = Some st → evolve cap st st' → <[i := st']> m !! j = Some x →
  ∃ y, m !! j = Some y ∧ evolve cap y x.
Proof.
  intros Hi He [[-> ->]|[Hne Hj]]%lookup_insert_Some; eauto.
Qed.

Lemma run_evolve s o j st' :
  op_ok s o → tasks (run s o) !! j = Some st' →
  (∃ st, tasks s !! j = Some st ∧ evolve (log_ring_capacity (config s)) st st') ∨
  (∃ n nl u k t meta, o = OSpawn j n nl u k t meta ∧ tasks s !! j = None ∧
     st' = spawned (log_ring_capacity (config s)) j u k t meta n nl).
Proof.
  intros Hok. destruct o as [i n nl w k t m|i n l c msg d|w i n l c msg d|i h|w i|i r n|i|w|w e]; simpl in *.
  - destruct Hok as ([Hf _] & Hne & _). rewrite tasks_spawn by done.
    intros [[<- <-]|[_ Hj]]%lookup_insert_Some; [right; by repeat eexists|left].
    rewrite lookup_link_child in Hj. apply fmap_Some in Hj as (st & Hst & ->).
    exists st. split; [done|]. case_match; auto.
  - rewrite tasks_append. destruct (tasks s !! i) as [st|] eqn:E; [|eauto].
    intros Hj. left. eapply insert_evolve; [exact E| |exact Hj]; eauto.
  - unfold append_log. destruct (tasks s !! i) as [st|] eqn:E; [|eauto].
    case_bool_decide; [eauto|]. rewrite tasks_broadcast. intros Hj. left. eapply insert_evolve; [exact E| |exact Hj]; eauto.
  - unfold set_progress_hint. destruct (tasks s !! i) as [st|] eqn:E; [|eauto].
    rewrite tasks_broadcast. intros Hj. left. eapply insert_evolve; [exact E| |exact Hj]; eauto.
  - rewrite tasks_cancel. destruct (tasks s !! i) as [st|] eqn:E; [|eauto].
    case_match; [|eauto]. bool_hyps. intros Hj. left. eapply insert_evolve; [exact E| |exact Hj]; eauto.
  - destruct (tasks s !! i) as [st|] eqn:E; [|eauto]. destruct (completed st) eqn:Ec; [eauto|].
    rewrite (finalize_commit_Some _ _ _ _ _ E). unfold finalize_publish.
    rewrite tasks_persist_update, tasks_broadcast. intros Hj. left. eapply insert_evolve; [exact E| |exact Hj]; eauto.
  - destruct (tasks s !! i) as [st|] eqn:E; [|eauto]. destruct (completed st); [|eauto].
    rewrite tasks_finalize_finish. unfold unlink.
    assert (Hdel : ∀ x, delete i (tasks s) !! j = Some x → tasks s !! j = Some x)
      by (by intros x [_ ?]%lookup_delete_Some).
    intros Hj. left. destruct (parent (view st)) as [pid|]; [|eauto].
    destruct (delete i (tasks s) !! pid) as [ps|] eqn:Eps; [|eauto].
    eapply insert_evolve in Hj as (y & Hy & He); [eauto|done|auto].
  - unfold subscribe. destruct (sender_subscribe _). eauto.
  - rewrite tasks_broadcast. eauto.
Qed.

(** Only [OCommit] completes a task. *)
Lemma insert_completed (m : gmap string TaskState) i st st' j x y :
  m !! i = Some st → completed st' = completed st → m !! j = Some x →
  <[i := st']> m !! j = Some y → completed y = completed x.
Proof. intros Hi Hc Hj [[-> ->]|[Hne Hy]]%lookup_insert_Some; congruence. Qed.

Lemma run_completed s o j st st' :
  op_ok s o → tasks s !! j = Some st → tasks (run s o) !! j = Some st' →
  completed st' = completed st ∨ ∃ r n, o = OCommit j r n.
Proof.
  intros Hok Hj. destruct o as [i n nl w k t m|i n l c msg d|w i n l c msg d|i h|w i|i r n|i|w|w e]; simpl in *.
  - destruct Hok as ([Hf _] & Hne & _). rewrite tasks_spawn by done.
    intros [[<- <-]|[_ Hj']]%lookup_insert_Some; [congruence|left].
    rewrite lookup_link_child, Hj in Hj'. simpl in Hj'. case_match; by simplify_eq/=.
  - rewrite tasks_append. destruct (tasks s !! i) as [sti|] eqn:E; [|left; congruence].
    intros Hj'. left. eapply insert_completed; [exact E| |exact Hj|exact Hj']; done.
  - unfold append_log. destruct (tasks s !! i) as [sti|] eqn:E; [|left; congruence].
    case_bool_decide; [left; congruence|]. rewrite tasks_broadcast. intros Hj'. left. eapply insert_completed; [exact E| |exact Hj|exact Hj']; done.
  - unfold set_progress_hint. destruct (tasks s !! i) as [sti|] eqn:E; [|left; congruence].
    rewrite tasks_broadcast. intros Hj'. left. eapply insert_completed; [exact E| |exact Hj|exact Hj']; done.
  - rewrite tasks_cancel. destruct (tasks s !! i) as [sti|] eqn:E; [|left; congruence].
    case_match; [|left; congruence]. intros Hj'. left. eapply insert_completed; [exact E| |exact Hj|exact Hj']; done.
  - destruct (decide (i = j)) as [->|Hne]; [right; by eexists _, _|]. intros Hj'. left.
    destruct (tasks s !! i) as [sti|] eqn:E; [|congruence]. destruct (completed sti) eqn:Ec; [congruence|].
    rewrite (finalize_commit_Some _ _ _ _ _ E) in Hj'. unfold finalize_publish in Hj'.
    rewrite tasks_persist_update, tasks_broadcast in Hj'. simpl in Hj'.
    rewrite lookup_insert_ne in Hj' by done. congruence.
  - destruct (tasks s !! i) as [sti|] eqn:E; [|left; congruence]. destruct (completed sti); [|left; congruence].
    rewrite tasks_finalize_finish. unfold unlink. intros Hj'. left.
    assert (Hdel : ∀ x, delete i (tasks s) !! j = Some x → x = st)
      by (intros x [_ ?]%lookup_delete_Some; congruence).
    destruct (parent (view sti)) as [pid|]; [|by rewrite (Hdel _ Hj')].
    destruct (delete i (tasks s) !! pid) as [ps|] eqn:Eps; [|by rewrite (Hdel _ Hj')].
    apply lookup_insert_Some in Hj' as [[-> <-]|[_ Hj']]; [by rewrite (Hdel _ Eps)|by rewrite (Hdel _ Hj')].
  - unfold subscribe. destruct (sender_subscribe _). simpl. left. congruence.
  - rewrite tasks_broadcast. left. congruence.
Qed.

Lemma config_run s o : config (run s o) = config s.
Proof.
  destruct o; simpl; unfold spawn_with_meta, append, append_log, set_progress_hint, cancel, subscribe,
    finalize_publish, finalize_finish, finalize_evict, finalize_take_notify, notify_waiters, finalize_observe,
    finalize_commit;
    repeat first [progress simpl | rewrite config_broadcast | rewrite config_persist_update
                 | case_match; simplify_eq/=]; done.
Qed.

(** Fields no operation changes. *)
Lemma evolve_fixed cap st st' :
  evolve cap st st' →
  owner st' = owner st ∧ kind (view st') = kind (view st) ∧ parent (view st') = parent (view st) ∧
  id (view st') = id (view st) ∧ owner_todo (view st') = owner_todo (view st) ∧
  started_at (view st') = started_at (view st) ∧ title (view st') = title (view st) ∧
  spawn_marker (view st') = spawn_marker (view st).
Proof. by destruct 1. Qed.

Lemma parents_owned_run s o : op_ok s o → parents_owned s → parents_owned (run s o).
Proof.
  intros Hok Hpo i st p ps Hst Hp Hps.
  destruct (run_evolve _ _ _ _ Hok Hst) as [(st0 & Hst0 & He)|(n & nl & u & k & t & meta & -> & Hi & ->)].
  - destruct (evolve_fixed _ _ _ He) as (-> & _ & Hp0 & _). rewrite Hp0 in Hp.
    destruct (run_evolve _ _ _ _ Hok Hps) as [(ps0 & Hps0 & Hep)|(n & nl & u & k & t & meta & -> & Hi & ->)].
    + destruct (evolve_fixed _ _ _ Hep) as (-> & _). by eapply Hpo.
    + destruct Hok as ([_ Hf] & _). by destruct (Hf _ _ Hst0).
  - simpl in Hp.
    destruct (run_evolve _ _ _ _ Hok Hps) as [(ps0 & Hps0 & Hep)|(? & ? & ? & ? & ? & ? & Heq & _ & ->)].
    + destruct (evolve_fixed _ _ _ Hep) as (-> & _). destruct Hok as (_ & _ & Hok). by eapply Hok.
    + injection Heq as <- <- <- <- <- <- <-. done.
Qed.

(** The operations of a run are all somebody else's. *)
Fixpoint others_only (u : string) (s : Inner) (ops : list op) : Prop :=
  match ops with
  | [] => True
  | o :: rest => actor s o ≠ Some u ∧ others_only u (run s o) rest
  end.

Lemma runs_own ops s u :
  parents_owned s → ops_ok s ops → others_only u s ops → own u (runs s ops) = own u s.
Proof.
  revert s. induction ops as [|o ops IH]; intros s Hpo Hok Hoth; [done|]. simpl.
  destruct Hok as [Ho Hok], Hoth as [Ha Hoth].
  rewrite IH; [|by apply parents_owned_run|done|done]. by apply run_own.
Qed.

(** A user's answers are functions of the user's own tasks. *)
Lemma get_own s u i : get s u i = view <$> own u s !! i.
Proof.
  unfold get. destruct (tasks s !! i) as [st|] eqn:E; simpl.
  - case_bool_decide as Ho.
    + destruct (own u s !! i) eqn:Eo; [|done]. apply own_lookup in Eo. naive_solver.
    + rewrite (proj2 (own_lookup u s i st)); naive_solver.
  - destruct (own u s !! i) eqn:Eo; [|done]. apply own_lookup in Eo. naive_solver.
Qed.

Lemma logs_own s u i a n :
  logs s u i a n =
  match own u s !! i with
  | None => Err NotFound
  | Some st =>
      let entries := take (Z.to_nat n) (filter (λ e, a < seq e) (logs_of st)) in
      Ok (entries, match last entries with Some e => seq e + 1 | None => next_seq st end)
  end.
Proof.
  unfold logs. destruct (own u s !! i) as [st|] eqn:Eo.
  - apply own_lookup in Eo as [-> Ho]. by rewrite bool_decide_eq_false_2 by naive_solver.
  - destruct (tasks s !! i) as [st|] eqn:E; [|done]. case_bool_decide as Ho; [done|].
    assert (own u s !! i = Some st) by (apply own_lookup; naive_solver). congruence.
Qed.

Lemma cancel_own s u i :
  (cancel s u i).2 =
  match own u s !! i with
  | None => Err NotFound
  | Some st => if terminal_status (status (view st)) then Err AlreadyTerminal else Ok tt
  end.
Proof.
  unfold cancel. destruct (own u s !! i) as [st|] eqn:Eo.
  - apply own_lookup in Eo as [-> Ho]. rewrite bool_decide_eq_false_2 by naive_solver. by case_match.
  - destruct (tasks s !! i) as [st|] eqn:E; [|done]. case_bool_decide as Ho; [done|].
    assert (own u s !! i = Some st) by (apply own_lookup; naive_solver). congruence.
Qed.

Context (values_perm : ∀ m, values m ≡ₚ (map_to_list m).*2).

Lemma elem_of_values m st : st ∈ values m ↔ ∃ i, m !! i = Some st.
Proof.
  rewrite values_perm, list_elem_of_fmap. split.
  - intros ([i x] & -> & Hin). exists i. by apply elem_of_map_to_list.
  - intros [i Hi]. exists (i, st). split; [done|]. by apply elem_of_map_to_list.
Qed.

Lemma values_filter (P : TaskState → Prop) `{!∀ x, Decision (P x)} m :
  filter P (values m) ≡ₚ (map_to_list (filter (λ q : string * TaskState, P q.2) m)).*2.
Proof.
  rewrite values_perm. induction m as [|i st m Hi IH] using map_ind; [done|].
  rewrite map_to_list_insert by done. rewrite fmap_cons, filter_cons. simpl.
  destruct (decide (P st)).
  - rewrite map_filter_insert_True by done.
    rewrite map_to_list_insert by (apply map_lookup_filter_None_2; naive_solver).
    rewrite fmap_cons, <- IH. done.
  - rewrite map_filter_insert_False, delete_id by done. done.
Qed.

Lemma list_own s u fin :
  list_tasks s u fin None ≡ₚ
  view <$> filter (λ st, fin = true ∨ live_status (status (view st)) = true) (map_to_list (own u s)).*2.
Proof.
  unfold list_tasks. rewrite sort_by_perm. f_equiv.
  f_equiv. unfold own. etrans; [apply (values_filter (λ st, owner st = u))|].
  apply reflexive_eq. do 2 f_equal.
Qed.

Lemma newer_first_sorted l :
  StronglySorted (λ a b, started_at b <= started_at a) (sort_by view_newer_first l).
Proof.
  assert (Hs : sorted_by view_newer_first (sort_by view_newer_first l)).
  { apply sort_by_sorted; unfold view_newer_first; intros; lia. }
  induction Hs as [|a l' _ IH Ha]; constructor; [done|].
  eapply Forall_impl; [exact Ha|]. unfold view_newer_first. simpl. lia.
Qed.

Lemma started_sorted l :
  StronglySorted (λ a b, b <= a) (started_at <$> sort_by view_newer_first l).
Proof.
  induction (newer_first_sorted l) as [|a l' _ IH Ha]; simpl; constructor; [done|]. by apply Forall_fmap.
Qed.

Lemma list_newest_first s u fin l :
  list_tasks s u fin l =
  match l with
  | Some n => take (Z.to_nat n) (list_tasks s u fin None)
  | None => list_tasks s u fin None
  end.
Proof. by destruct l. Qed.

(** A listing is decided by the user's own tasks: the start times it shows
    whatever the limit, and the tasks themselves when no two started together. *)
Lemma list_by_own s s' u fin :
  own u s' = own u s →
  (∀ l, started_at <$> list_tasks s' u fin l = started_at <$> list_tasks s u fin l) ∧
  (∀ l v, v ∈ list_tasks s' u fin l → v ∈ list_tasks s u fin None) ∧
  (NoDup (started_at <$> list_tasks s u fin None) →
   ∀ l, list_tasks s' u fin l = list_tasks s u fin l).
Proof.
  intros Hown.
  assert (Hp : list_tasks s' u fin None ≡ₚ list_tasks s u fin None) by (by rewrite !list_own, Hown).
  split_and!.
  - intros l. assert (He : started_at <$> list_tasks s' u fin None = started_at <$> list_tasks s u fin None).
    { eapply (StronglySorted_unique_strong (λ a b, b <= a)); [intros; lia|apply started_sorted..|].
      by rewrite Hp. }
    rewrite !(list_newest_first _ _ _ l). destruct l; [|done]. by rewrite !fmap_take, He.
  - intros l v Hv. rewrite <- Hp. rewrite list_newest_first in Hv.
    destruct l; [|done]. apply elem_of_take in Hv as (i & Hi & _). by eapply list_elem_of_lookup_2.
  - intros Hnd l. assert (He : list_tasks s' u fin None = list_tasks s u fin None).
    { eapply (StronglySorted_unique_strong (λ a b, started_at b <= started_at a));
        [|apply newer_first_sorted..|done].
      intros a b Ha [j Hj]%list_elem_of_lookup_1 ? ?. rewrite Hp in Ha.
      apply list_elem_of_lookup_1 in Ha as [i Hi].
      assert (i = j) as ->; [|congruence]. eapply (NoDup_lookup _ _ _ (started_at a) Hnd);
        rewrite list_lookup_fmap, ?Hi, ?Hj; [done|]. simpl. f_equal. lia. }
    by rewrite !(list_newest_first _ _ _ l), He.
Qed.

Lemma any_own s u sess p :
  any_non_terminal_under_owner_prefix s u sess p = true ↔
  ∃ i st, own u s !! i = Some st ∧ live_status (status (view st)) = true ∧
    task_session_conversation (kind (view st)) = Some sess ∧
    owner_under_prefix (owner_todo (view st)) p = true.
Proof.
  unfold any_non_terminal_under_owner_prefix. rewrite existsb_exists. split.
  - intros (st & Hin & Hb). bool_hyps. apply list_elem_of_In, elem_of_values in Hin as [i Hi].
    exists i, st. rewrite own_lookup. done.
  - intros (i & st & [Hi Ho]%own_lookup & Hl & Hs & Hp). exists st. split.
    + apply list_elem_of_In, elem_of_values. by exists i.
    + by rewrite !bool_decide_eq_true_2, Hl, Hp by done.
Qed.

(** C1. User isolation.  After any sequence of operations run on behalf of other
    users, whatever they spawn, log, cancel, finish or subscribe to, a user gets
    the same answers to [get], [logs], [cancel] and the subtree query as before;
    an id that is not the user's is [NotFound] (or [None]), never a different
    error.  A listing, under every limit, shows the same start times in the same
    order and only tasks it could show before; it is the same list unless two of
    the user's tasks started at the same moment, which the map's iteration order
    decides between, and without a limit it is the same tasks even then. *)
Theorem users_are_isolated s ops u :
  parents_owned s → ops_ok s ops → others_only u s ops →
  let s' := runs s ops in
  (∀ i, get s' u i = get s u i) ∧
  (∀ i a n, logs s' u i a n = logs s u i a n) ∧
  (∀ i, (cancel s' u i).2 = (cancel s u i).2) ∧
  (∀ fin, list_tasks s' u fin None ≡ₚ list_tasks s u fin None) ∧
  (∀ fin l, started_at <$> list_tasks s' u fin l = started_at <$> list_tasks s u fin l) ∧
  (∀ fin l v, v ∈ list_tasks s' u fin l → v ∈ list_tasks s u fin None) ∧
  (∀ fin l, NoDup (started_at <$> list_tasks s u fin None) →
     list_tasks s' u fin l = list_tasks s u fin l) ∧
  (∀ sess p, any_non_terminal_under_owner_prefix s' u sess p =
             any_non_terminal_under_owner_prefix s u sess p) ∧
  (∀ i, own u s !! i = None →
     get s' u i = None ∧ (cancel s' u i).2 = Err NotFound ∧ ∀ a n, logs s' u i a n = Err NotFound).
Proof.
  intros Hpo Hok Hoth s'. assert (Hown : own u s' = own u s) by (by apply runs_own).
  split_and!.
  - intros i. by rewrite !get_own, Hown.
  - intros i a n. by rewrite !logs_own, Hown.
  - intros i. by rewrite !cancel_own, Hown.
  - intros fin. by rewrite !list_own, Hown.
  - intros fin. by apply list_by_own.
  - intros fin. by apply list_by_own.
  - intros fin l Hnd. by apply list_by_own.
  - intros sess p. apply eq_true_iff_eq. by rewrite !any_own, Hown.
  - intros i Hi. rewrite get_own, cancel_own, Hown, Hi. split_and!; [done..|].
    intros a n. by rewrite logs_own, Hown, Hi.
Qed.

(** ** Reachable registries

    Built with a positive log capacity, given a store and an observer, swept and
    then operated on. *)

Inductive reachable_reg : Inner → Prop :=
| rr_new c : (0 < log_ring_capacity c)%nat → reachable_reg (with_config c)
| rr_store s st : reachable_reg s → reachable_reg (with_store s st)
| rr_observer s o : reachable_reg s → reachable_reg (set_subagent_observer s o)
| rr_sweep s clock : reachable_reg s → reachable_reg (sweep_non_terminal_on_startup s clock).1
| rr_op s o : reachable_reg s → op_ok s o → reachable_reg (run s o).

(** The state a swept row is registered in. *)
Definition swept (row : BackgroundTaskRow Json) (k : TaskKind) (now : Z) : TaskState :=
  let st := {| owner := row_user_id row; view := sweep_view row k now; token := false;
               logs_of := []; next_seq := 1; completed := true |} in
  set_logs st [new_entry st now Warn Lifecycle (sweep_error k) None] 2.

Lemma config_sweep_row s db row now : config (sweep_row s db row now).1.1 = config s.
Proof.
  unfold sweep_row. destruct (from_value _); [|done]. destruct (update_task _ _ _ _ _ _ _) as [db' r].
  destruct r; [|done]. simpl. by rewrite !config_broadcast.
Qed.

Lemma tasks_sweep_row s db row now :
  tasks (sweep_row s db row now).1.1 =
  match from_value (row_kind_json row) with
  | Some k =>
      if (sweep_row s db row now).2
      then link_child (<[row_id row := swept row k now]> (tasks s)) (row_parent_task_id row) (row_id row)
      else tasks s
  | None => tasks s
  end.
Proof.
  unfold sweep_row. destruct (from_value _) as [k|]; [|done].
  destruct (update_task _ _ _ _ _ _ _) as [db' r]. destruct r; [|done]. simpl.
  by rewrite !tasks_broadcast.
Qed.

(** A property of single task states that swept rows have and re-linking keeps
    survives the sweep. *)
Lemma sweep_invariant (P : TaskState → Prop) s clock :
  (∀ row k now, P (swept row k now)) →
  (∀ st c, P st → P (set_view st (with_children (view st) c))) →
  map_Forall (λ _, P) (tasks s) →
  map_Forall (λ _, P) (tasks (sweep_non_terminal_on_startup s clock).1).
Proof.
  intros Hsw Hch Hs. unfold sweep_non_terminal_on_startup.
  destruct (store s) as [db|]; [|done]. destruct (scan_non_terminal db) as [rs|]; [|done].
  set (l := sort_by roots_first rs). clearbody l. clear rs.
  assert (∀ db count, map_Forall (λ _, P) (tasks (sweep_rows s db l clock count).1.1)) as Hl.
  { revert s Hs. induction l as [|row l IH]; intros s Hs db0 count; [done|]. simpl.
    destruct (sweep_row s db0 row (clock row)) as [[s1 db1] b] eqn:E. apply IH.
    pose proof (tasks_sweep_row s db0 row (clock row)) as Ht. rewrite E in Ht. simpl in Ht. rewrite Ht.
    destruct (from_value _) as [k|]; [|done]. destruct b; [|done].
    intros j st. rewrite lookup_link_child. intros (st0 & Hst0 & ->)%fmap_Some.
    assert (P st0) by (apply lookup_insert_Some in Hst0 as [[_ <-]|[_ Hst0]]; [apply Hsw|by eapply Hs]).
    case_match; auto. }
  specialize (Hl db 0). by destruct (sweep_rows s db l clock 0) as [[s1 db1] n].
Qed.

Lemma config_sweep s clock : config (sweep_non_terminal_on_startup s clock).1 = config s.
Proof.
  unfold sweep_non_terminal_on_startup.
  destruct (store s) as [db|]; [|done]. destruct (scan_non_terminal db) as [rs|]; [|done].
  assert (∀ l s db count, config (sweep_rows s db l clock count).1.1 = config s) as Hl.
  { induction l as [|row l IH]; intros s0 db0 count; [done|]. simpl.
    pose proof (config_sweep_row s0 db0 row (clock row)) as Hc.
    destruct (sweep_row s0 db0 row (clock row)) as [[s1 db1] b]. by rewrite IH. }
  specialize (Hl (sort_by roots_first rs) s db 0).
  by destruct (sweep_rows _ _ _ _ _) as [[s1 db1] n].
Qed.

Lemma reachable_capacity s : reachable_reg s → (0 < log_ring_capacity (config s))%nat.
Proof.
  induction 1 as [c Hc|s st _ IH|s o _ IH|s clock _ IH|s o _ IH _]; try done.
  - unfold set_subagent_observer. by destruct (subagent_observer s).
  - by rewrite config_sweep.
  - by rewrite config_run.
Qed.

(** Invariants of single tasks, by [run_evolve]. *)
Lemma task_invariant (P : nat → TaskState → Prop) :
  (∀ cap row k now, (0 < cap)%nat → P cap (swept row k now)) →
  (∀ cap i u k t m n nl, (0 < cap)%nat → P cap (spawned cap i u k t m n nl)) →
  (∀ cap st st', (0 < cap)%nat → P cap st → evolve cap st st' → P cap st') →
  ∀ s, reachable_reg s → map_Forall (λ _, P (log_ring_capacity (config s))) (tasks s).
Proof.
  intros Hsw Hsp Hev s Hs. induction Hs as [c Hc|s st Hs IH|s o Hs IH|s clock Hs IH|s o Hs IH Hok].
  - apply map_Forall_empty.
  - done.
  - unfold set_subagent_observer. by destruct (subagent_observer s).
  - rewrite config_sweep. apply reachable_capacity in Hs.
    apply sweep_invariant; [auto| |done]. intros st c HP. eapply Hev; eauto.
  - rewrite config_run. apply reachable_capacity in Hs. intros j st' Hj.
    destruct (run_evolve _ _ _ _ Hok Hj) as [(st & Hst & He)|(? & ? & ? & ? & ? & ? & _ & _ & ->)]; eauto.
Qed.

(** *** Log ring *)

Definition numbered (h : list TaskLogEntry) : Prop :=
  ∀ n e, h !! n = Some e → seq e = Z.of_nat n + 1.

Definition ring_ok (cap : nat) (st : TaskState) : Prop :=
  ∃ history, numbered history ∧ next_seq st = Z.of_nat (length history) + 1 ∧
    logs_of st = drop (length history - cap) history.

Lemma push_entry_ring cap st now l c msg d :
  (0 < cap)%nat → ring_ok cap st → ring_ok cap (push_entry cap st (new_entry st now l c msg d)).
Proof.
  intros Hcap (h & Hn & Hs & Hl). exists (h ++ [new_entry st now l c msg d]). split_and!.
  - intros n e [He|[Hlen He]]%lookup_app_Some; [by apply Hn|].
    apply list_lookup_singleton_Some in He as [? <-]. simpl. lia.
  - simpl. rewrite length_app. simpl. lia.
  - simpl. rewrite Hl, length_drop, length_app. simpl.
    destruct (Nat.eqb_spec (length h - (length h - cap)) cap).
    + rewrite drop_app_le by lia. f_equal.
      assert (Htail : ∀ l : list TaskLogEntry, tail l = drop 1 l) by (by intros []).
      rewrite Htail, drop_drop. f_equal. lia.
    + rewrite drop_app_le by lia. do 2 f_equal. lia.
Qed.

Lemma reachable_ring s : reachable_reg s → map_Forall (λ _, ring_ok (log_ring_capacity (config s))) (tasks s).
Proof.
  apply (task_invariant ring_ok).
  - intros cap row k now Hcap. exists (logs_of (swept row k now)). split_and!; [|done|].
    + intros [|[|n]] e; simpl; naive_solver.
    + simpl. by replace (1 - cap)%nat with O by lia.
  - intros cap i u k t m n nl Hcap. apply push_entry_ring; [done|]. exists []. by split_and!.
  - intros cap st st' Hcap HP. destruct 1; try done. by apply push_entry_ring.
Qed.

Lemma numbered_sorted h k : numbered h → StronglySorted (λ e f, seq e < seq f) (drop k h).
Proof.
  intros Hn. assert (∀ n l, (∀ m e, l !! m = Some e → seq e = Z.of_nat (n + m) + 1) →
                     StronglySorted (λ e f : TaskLogEntry, seq e < seq f) l) as H.
  { intros n l. revert n. induction l as [|e l IH]; intros n Hl; [constructor|]. constructor.
    - apply (IH (S n)). intros m f Hf. rewrite (Hl (S m) f Hf). lia.
    - apply Forall_forall. intros f [m Hm]%list_elem_of_lookup.
      rewrite (Hl 0%nat e eq_refl), (Hl (S m) f Hm). lia. }
  apply (H k). intros m e He. rewrite lookup_drop in He. by apply Hn.
Qed.

Lemma sorted_filter_after (l1 : list TaskLogEntry) x l2 :
  StronglySorted (λ e f, seq e < seq f) (l1 ++ x :: l2) →
  filter (λ e, seq x < seq e) (l1 ++ x :: l2) = l2.
Proof.
  intros [H1 H2]%sorted_around. rewrite filter_app, filter_cons, decide_False by lia.
  rewrite (filter_none _ l1), (filter_all _ l2); [done|auto|]. intros e He%H1. lia.
Qed.

(** A client reading page after page, resuming after the last line it saw. *)
Fixpoint pages (fuel : nat) (s : Inner) (u i : string) (after limit : Z) : list TaskLogEntry :=
  match fuel with
  | O => []
  | S f =>
      match logs s u i after limit with
      | Ok ([], _) | Err _ => []
      | Ok (es, nxt) => es ++ pages f s u i (nxt - 1) limit
      end
  end.

Lemma StronglySorted_filter_seq (P : TaskLogEntry → Prop) `{!∀ x, Decision (P x)} l :
  StronglySorted (λ e f, seq e < seq f) l → StronglySorted (λ e f, seq e < seq f) (filter P l).
Proof.
  induction 1 as [|e l Hl IH He]; [constructor|]. rewrite filter_cons. case_decide; [|done].
  constructor; [done|]. rewrite Forall_forall in *. intros f [_ Hf]%list_elem_of_filter. auto.
Qed.

Lemma pages_complete fuel s u i st after limit :
  own u s !! i = Some st → StronglySorted (λ e f, seq e < seq f) (logs_of st) → 0 < limit →
  (length (filter (λ e, (after < seq e)%Z) (logs_of st)) ≤ fuel)%nat →
  pages fuel s u i after limit = filter (λ e, after < seq e) (logs_of st).
Proof.
  intros Hst Hs Hlim. revert after. induction fuel as [|f IH]; intros after Hf.
  - destruct (filter _ _); [done|]. simpl in Hf. lia.
  - cbn [pages]. rewrite logs_own, Hst. cbv zeta.
    set (l := filter (λ e, after < seq e) (logs_of st)) in *.
    assert (Hl : StronglySorted (λ e f, seq e < seq f) l) by (by apply StronglySorted_filter_seq).
    destruct (take (Z.to_nat limit) l) as [|e0 es0] eqn:Et.
    { destruct l as [|e l']; [done|]. destruct (Z.to_nat limit) eqn:En; [lia|done]. }
    destruct (exists_last (l := e0 :: es0)) as (p & x & Hp); [done|]. rewrite Hp in *.
    rewrite last_snoc.
    assert (Hsplit : l = p ++ x :: drop (Z.to_nat limit) l).
    { rewrite <- (take_drop (Z.to_nat limit) l) at 1. by rewrite Et, <- app_assoc. }
    assert (Hrest : filter (λ e, seq x < seq e) (logs_of st) = drop (Z.to_nat limit) l).
    { assert (Hx : after < seq x).
      { assert (x ∈ l) as [Hx _]%list_elem_of_filter by (rewrite Hsplit; set_solver). done. }
      rewrite <- (sorted_filter_after p x (drop (Z.to_nat limit) l)) by (by rewrite <- Hsplit).
      rewrite <- Hsplit. unfold l. rewrite list_filter_filter. apply list_filter_iff. intros e. lia. }
    rewrite IH.
    + replace (seq x + 1 - 1) with (seq x) by lia.
      rewrite Hrest, <- app_assoc. by symmetry.
    + replace (seq x + 1 - 1) with (seq x) by lia. rewrite Hrest.
      assert (Hlen := f_equal length Hsplit). rewrite length_app in Hlen. simpl in Hlen. lia.
Qed.

(** Log ring and paging.  In every reachable registry a task retains at most
    the configured number of lines, and they are the most recent ones, numbered
    consecutively up to [next_seq - 1].  A client that pages with any positive
    limit, resuming each page after the last line it saw, reads exactly the
    retained lines after its starting point, in order, each once. *)
Theorem log_pages_are_complete s u i st after limit :
  reachable_reg s → tasks s !! i = Some st → owner st = u → 0 < limit →
  (length (logs_of st) ≤ log_ring_capacity (config s))%nat ∧
  (∃ history, logs_of st = drop (length history - log_ring_capacity (config s)) history ∧
     next_seq st = Z.of_nat (length history) + 1 ∧
     ∀ n e, history !! n = Some e → seq e = Z.of_nat n + 1) ∧
  ∀ fuel, (length (logs_of st) ≤ fuel)%nat →
    pages fuel s u i after limit = filter (λ e, after < seq e) (logs_of st).
Proof.
  intros Hs Hst Ho Hlim. destruct (reachable_ring s Hs i st Hst) as (h & Hn & Hnext & Hl).
  split_and!.
  - rewrite Hl, length_drop. lia.
  - by exists h.
  - intros fuel Hfuel. apply pages_complete; [by apply own_lookup| |done|].
    + rewrite Hl. by apply numbered_sorted.
    + etrans; [apply length_filter|done].
Qed.

(** The value the page returns is one past the last line, and [after_seq] is
    exclusive: resuming with that value itself never returns the next line. *)
Lemma returned_cursor_skips_a_line s u i a n es nxt n' es' nxt' :
  logs s u i a n = Ok (es, nxt) → logs s u i nxt n' = Ok (es', nxt') →
  Forall (λ e, seq e ≠ nxt) es'.
Proof.
  intros _. rewrite logs_own. destruct (own u s !! i); [|done]. intros [= <- _].
  apply Forall_take, Forall_forall. intros e [He _]%list_elem_of_filter. lia.
Qed.

(** ** Lifecycle *)

Definition running (st : TaskState) : Prop :=
  status (view st) = Running ∧ completed st = false ∧ ended_at (view st) = None ∧
  last_error (view st) = None.

Definition finished (st : TaskState) : Prop :=
  terminal_status (status (view st)) = true ∧ completed st = true ∧ is_Some (ended_at (view st)) ∧
  (status (view st) = Completed → last_error (view st) = None) ∧
  (status (view st) = Failed → is_Some (last_error (view st))).

Lemma committed_finished st r now : finished (committed st r now).
Proof.
  unfold finished, committed. destruct r as [[]|e], (token st); simpl; by split_and!; eauto.
Qed.

Lemma reachable_lifecycle s : reachable_reg s → map_Forall (λ _ st, running st ∨ finished st) (tasks s).
Proof.
  apply (task_invariant (λ _ st, running st ∨ finished st)).
  - intros. right. by split_and!; eauto.
  - intros. left. by split_and!.
  - intros cap st st' _ HP. destruct 1; try done. right. apply committed_finished.
Qed.

(** Task lifecycle.  Every registered task of a reachable registry is either
    running, with no end time and no error, or finished: terminal status,
    [completed], an end time, no error if [Completed] and one if [Failed].  A
    finished task's status, end time and error never change again while it is
    registered, and cancelling it is refused with [AlreadyTerminal]; a running
    one only ends with the outcome its body's result and its token decide. *)
Theorem terminal_states_are_final s i st :
  reachable_reg s → tasks s !! i = Some st →
  (running st ∨ finished st) ∧
  (finished st →
     (cancel s (owner st) i).2 = Err AlreadyTerminal ∧
     ∀ o st', op_ok s o → tasks (run s o) !! i = Some st' →
       status (view st') = status (view st) ∧ ended_at (view st') = ended_at (view st) ∧
       last_error (view st') = last_error (view st) ∧ finished st') ∧
  (running st →
     (cancel s (owner st) i).2 = Ok tt ∧
     ∀ o st', op_ok s o → tasks (run s o) !! i = Some st' →
       running st' ∨ ∃ r now, st' = committed st r now).
Proof.
  intros Hs Hst. split_and!; [by eapply reachable_lifecycle|..].
  - intros Hf. pose proof Hf as (Ht & Hc & He & H1 & H2). split.
    + rewrite cancel_own, (proj2 (own_lookup _ _ _ st)) by done. by rewrite Ht.
    + intros o st' Hok Hst'.
      destruct (run_evolve _ _ _ _ Hok Hst') as [(st0 & Hst0 & Hev)|(? & ? & ? & ? & ? & ? & _ & ? & _)];
        simplify_eq.
      unfold finished. destruct Hev; simpl; by split_and!; (done || congruence).
  - intros Hr. pose proof Hr as (Ht & Hc & He & H1). split.
    + rewrite cancel_own, (proj2 (own_lookup _ _ _ st)) by done. by rewrite Ht.
    + intros o st' Hok Hst'.
      destruct (run_evolve _ _ _ _ Hok Hst') as [(st0 & Hst0 & Hev)|(? & ? & ? & ? & ? & ? & _ & ? & _)];
        simplify_eq.
      destruct Hev; eauto.
Qed.

(** ** The terminal transition *)

Lemma lookup_unlink m i p j :
  unlink m i p !! j =
  if bool_decide (j = i) then None
  else (λ st, if bool_decide (p = Some j)
              then set_view st (with_children (view st) (filter (λ c, c ≠ i) (children (view st))))
              else st) <$> m !! j.
Proof.
  unfold unlink. case_bool_decide as Hji; [subst j|].
  - destruct p as [pid|]; [|by rewrite lookup_delete_eq].
    destruct (delete i m !! pid) eqn:E; [|by rewrite lookup_delete_eq].
    rewrite lookup_insert_ne; [by rewrite lookup_delete_eq|]. intros ->. by rewrite lookup_delete_eq in E.
  - rewrite <- (lookup_delete_ne m i j) by done. destruct p as [pid|].
    + destruct (decide (pid = j)) as [->|Hne].
      * rewrite bool_decide_eq_true_2 by done.
        destruct (delete i m !! j) eqn:E; [by rewrite lookup_insert_eq|by rewrite E].
      * rewrite bool_decide_eq_false_2 by congruence.
        destruct (delete i m !! pid); [rewrite lookup_insert_ne by done|]; by destruct (delete i m !! j).
    + by destruct (delete i m !! j).
Qed.

(** The other tasks still running under parent [p]. *)
Definition open_siblings (s : Inner) (p i : string) : gmap string TaskState :=
  filter (λ q : string * TaskState, q.1 ≠ i ∧ is_open_sibling p q.2 = true) (tasks s).

Lemma count_siblings (m : gmap string TaskState) st i p :
  is_open_sibling p st = false → m !! i = Some st →
  length (filter (λ x, is_open_sibling p x = true) (values m)) =
  size (filter (λ q : string * TaskState, q.1 ≠ i ∧ is_open_sibling p q.2 = true) m).
Proof.
  intros Hst Hi. rewrite (values_filter (λ x, is_open_sibling p x = true)), length_fmap, length_map_to_list.
  f_equal. apply map_filter_ext. intros j x Hx. simpl. split; [|tauto].
  intros Ho. split; [|done]. intros ->. congruence.
Qed.

Lemma finalize_eq s i u r now st :
  tasks s !! i = Some st →
  finalize s i u r now =
  finalize_finish (finalize_publish (set_tasks s (<[i := committed st r now]> (tasks s))) i u
                     (view (committed st r now)) now) i u (view (committed st r now)).
Proof. intros Hst. unfold finalize. by rewrite (finalize_commit_Some _ _ _ _ _ Hst). Qed.

(** [finalize_publish] only touches the channels and the store. *)
Lemma publish_frame s i u v now :
  let s' := finalize_publish s i u v now in
  tasks s' = tasks s ∧ completion_notify s' = completion_notify s ∧ enabled s' = enabled s ∧
  woken s' = woken s ∧ observed s' = observed s ∧ subagent_observer s' = subagent_observer s ∧
  store s' = (λ db, (update_task db u i (api_status_to_db (status v)) (last_error v)
                       (progress_hint v) (Some now)).1) <$> store s.
Proof.
  unfold finalize_publish, persist_update, broadcast.
  destruct (user_channels s !! u); [destruct (send _ _)|]; simpl; destruct (store s) eqn:E; simpl; by rewrite ?E.
Qed.

Lemma finish_frame s i u v :
  let s' := finalize_finish s i u v in
  store s' = store s ∧ completion_notify s' !! i = None ∧
  (∀ n w, completion_notify s !! i = Some n → (n, w) ∈ enabled s → (n, w) ∈ woken s') ∧
  observed s' = observed s ++
    match kind v, subagent_observer s with
    | Subagent p conv name session np, Some obs =>
        [(obs, {| c_user_id := u; c_parent_task_id := p; c_child_conversation_id := conv;
                  c_session_conversation_id := session; c_child_task_id := i; c_child_name := name;
                  c_owner_todo := owner_todo v; c_status := status v;
                  c_siblings_remaining := (finalize_evict s i v).2; c_notify_parent := np |})]
    | _, _ => []
    end.
Proof.
  unfold finalize_finish, finalize_take_notify, finalize_observe, notify_waiters. cbn.
  destruct (completion_notify s !! i) as [n0|]; destruct (kind v), (subagent_observer s) eqn:Hob; cbn;
    rewrite ?Hob; cbn; rewrite ?app_nil_r, ?lookup_delete_eq; split_and!; try done;
    intros n w ? Hin; simplify_eq; apply elem_of_union_r, elem_of_filter; done.
Qed.

(** Finalizing a task classifies it from its body's result and its token
    ([Cancelled] whenever the token was tripped), persists that outcome under the
    owner with the hint cleared, removes the task and its link in the parent and
    nothing else, releases every enrolled waiter, and tells the observer exactly
    once for a subagent, never for another kind, with the number of its siblings
    still open. *)
Theorem finalize_outcome s i u r now st :
  tasks s !! i = Some st → completed st = false → owner st = u →
  let s' := finalize s i u r now in
  let v := view (committed st r now) in
  (status v = if token st then Cancelled else match r with Ok _ => Completed | Err _ => Failed end) ∧
  last_error v = match r with Ok _ => None | Err e => Some e end ∧
  ended_at v = Some now ∧ progress_hint v = None ∧
  store s' = (λ db, (update_task db u i (api_status_to_db (status v)) (last_error v) None (Some now)).1)
               <$> store s ∧
  (∀ j, tasks s' !! j =
     if bool_decide (j = i) then None
     else (λ x, if bool_decide (parent (view st) = Some j)
                then set_view x (with_children (view x) (filter (λ c, c ≠ i) (children (view x))))
                else x) <$> tasks s !! j) ∧
  (wait_over s' i = true ∧ completion_notify s' !! i = None ∧
   ∀ n w, completion_notify s !! i = Some n → (n, w) ∈ enabled s → (n, w) ∈ woken s') ∧
  observed s' = observed s ++
    match kind (view st), subagent_observer s with
    | Subagent p conv name session np, Some obs =>
        [(obs, {| c_user_id := u; c_parent_task_id := p; c_child_conversation_id := conv;
                  c_session_conversation_id := session; c_child_task_id := i; c_child_name := name;
                  c_owner_todo := owner_todo (view st); c_status := status v;
                  c_siblings_remaining := size (open_siblings s p i); c_notify_parent := np |})]
    | _, _ => []
    end.
Proof.
  intros Hst Hc Ho s' v.
  set (s1 := set_tasks s (<[i := committed st r now]> (tasks s))).
  destruct (publish_frame s1 i u v now) as (Ht & Hn & He & Hw & Hob & Hsb & Hsto).
  set (s2 := finalize_publish s1 i u v now) in *.
  assert (Hs' : s' = finalize_finish s2 i u v) by (by apply finalize_eq).
  destruct (finish_frame s2 i u v) as (Hsto' & Hn' & Hw' & Hob'). rewrite <- Hs' in *.
  assert (Htasks : ∀ j, tasks s' !! j = unlink (<[i := committed st r now]> (tasks s)) i (parent v) !! j)
    by (intros j; by rewrite Hs', tasks_finalize_finish, Ht).
  split_and!; try done.
  - unfold v. simpl. by destruct r, (token st).
  - unfold v. simpl. by destruct r, (token st).
  - rewrite Hsto', Hsto. done.
  - intros j. rewrite Htasks, lookup_unlink. case_bool_decide; [done|]. by rewrite lookup_insert_ne.
  - unfold wait_over. rewrite Htasks, lookup_unlink. by rewrite bool_decide_eq_true_2.
  - intros n w Hin Hen. apply Hw'; [by rewrite Hn|by rewrite He].
  - rewrite Hob', Hob, Hsb. do 2 f_equal. simpl. destruct (kind (view st)) eqn:Hk; try done.
    destruct (subagent_observer s); [|done]. do 3 f_equal. simpl. rewrite Ht. unfold s1. cbn [tasks set_tasks].
    assert (Hcl : is_open_sibling parent_task_id (committed st r now) = false)
      by (unfold is_open_sibling; simpl; by destruct r, (token st)).
    rewrite (count_siblings _ (committed st r now) i) by (done || apply lookup_insert_eq).
    unfold open_siblings. f_equal. rewrite map_filter_insert_False by (simpl; naive_solver).
    rewrite map_filter_delete_not; [done|]. intros y _ [? _]. done.
Qed.

(** ** Durability *)

(** Operations that neither finish [i] nor reuse its id. *)
Definition leaves_open (i : string) (o : op) : bool :=
  match o with OCommit j _ _ => bool_decide (j ≠ i) | OSpawn j _ _ _ _ _ _ => bool_decide (j ≠ i) | _ => true end.

Lemma run_keeps s o i st :
  op_ok s o → leaves_open i o = true → tasks s !! i = Some st → completed st = false →
  ∃ st', tasks (run s o) !! i = Some st' ∧ completed st' = false ∧
         evolve (log_ring_capacity (config s)) st st'.
Proof.
  intros Hok Hlo Hst Hc.
  assert (Hsome : is_Some (tasks (run s o) !! i)).
  { destruct o as [j n nl w k t m|j n l c msg d|w j n l c msg d|j h|w j|j r n|j|w|w e]; simpl in *; bool_hyps.
    - destruct Hok as (_ & Hne & _). rewrite tasks_spawn, lookup_insert_ne, lookup_link_child, Hst by done.
      by eexists.
    - rewrite tasks_append. destruct (tasks s !! j); [|by eexists].
      apply lookup_insert_is_Some'. by right; eexists.
    - unfold append_log. destruct (tasks s !! j); [|by eexists]. case_match; [by eexists|].
      rewrite tasks_broadcast. apply lookup_insert_is_Some'. by right; eexists.
    - unfold set_progress_hint. destruct (tasks s !! j); [|by eexists].
      rewrite tasks_broadcast. apply lookup_insert_is_Some'. by right; eexists.
    - rewrite tasks_cancel. destruct (tasks s !! j); [|by eexists]. case_match; [|by eexists].
      apply lookup_insert_is_Some'. by right; eexists.
    - destruct (tasks s !! j) as [stj|] eqn:Ej; [|by eexists]. destruct (completed stj); [by eexists|].
      rewrite (finalize_commit_Some _ _ _ _ _ Ej). destruct (publish_frame
        (set_tasks s (<[j := committed stj r n]> (tasks s))) j (owner stj) (view (committed stj r n)) n) as [-> _].
      apply lookup_insert_is_Some'. by right; eexists.
    - destruct (tasks s !! j) as [stj|] eqn:Ej; [|by eexists]. destruct (completed stj) eqn:Ecj; [|by eexists].
      rewrite tasks_finalize_finish, lookup_unlink, bool_decide_eq_false_2, Hst by congruence. by eexists.
    - unfold subscribe. destruct (sender_subscribe _). by eexists.
    - rewrite tasks_broadcast. by eexists. }
  destruct Hsome as [st' Hst']. exists st'.
  destruct (run_evolve _ _ _ _ Hok Hst') as [(st0 & Hst0 & He)|(? & ? & ? & ? & ? & ? & _ & ? & _)];
    simplify_eq.
  split_and!; [done| |done].
  destruct (run_completed _ _ _ _ _ Hok Hst Hst') as [->|(r & n & ->)]; [done|].
  simpl in Hlo. by bool_hyps.
Qed.

(** Two states of one task agree on what never changes. *)
Definition same_identity (st st' : TaskState) : Prop :=
  owner st' = owner st ∧ kind (view st') = kind (view st) ∧ parent (view st') = parent (view st) ∧
  id (view st') = id (view st) ∧ owner_todo (view st') = owner_todo (view st) ∧
  started_at (view st') = started_at (view st) ∧ title (view st') = title (view st) ∧
  spawn_marker (view st') = spawn_marker (view st).

Lemma runs_keep ops s i st :
  ops_ok s ops → forallb (leaves_open i) ops = true → tasks s !! i = Some st → completed st = false →
  ∃ st', tasks (runs s ops) !! i = Some st' ∧ completed st' = false ∧ same_identity st st'.
Proof.
  revert s st. induction ops as [|o ops IH]; intros s st Hok Hlo Hst Hc; simpl in *.
  - exists st. done.
  - destruct Hok as [Ho Hok]. bool_hyps.
    destruct (run_keeps s o i st) as (st1 & Hst1 & Hc1 & He); [done..|].
    destruct (IH _ st1 Hok) as (st2 & Hst2 & Hc2 & Hid); [done..|]. exists st2. split_and!; [done..|].
    apply evolve_fixed in He. unfold same_identity in *. naive_solver congruence.
Qed.

Section durable.
Context `{!BackgroundTaskStoreLaws (Json := Json) St}.

(** What an operation does to the store: nothing, or the terminal update of the
    committed task. *)
Lemma store_broadcast s u e : store (broadcast s u e) = store s.
Proof. unfold broadcast. by split_cases. Qed.

Lemma store_append s i n l c msg d : store (append s i n l c msg d) = store s.
Proof. unfold append. case_match; [|done]. by rewrite store_broadcast. Qed.

Lemma store_run s o db :
  store s = Some db → store_inv db →
  ∃ db', store (run s o) = Some db' ∧ store_inv db' ∧
    ∀ i, leaves_open i o = true → rows db' !! i = rows db !! i.
Proof.
  intros Hdb Hinv.
  destruct o as [i n nl w k t m|i n l c msg d|w i n l c msg d|i h|w i|i r n|i|w|w e]; simpl.
  1-5, 7-9: (exists db; split_and!; [|done|done]).
  - unfold spawn_with_meta. rewrite store_append, store_broadcast. done.
  - by rewrite store_append.
  - unfold append_log. split_cases; rewrite ?store_broadcast; done.
  - unfold set_progress_hint. split_cases; rewrite ?store_broadcast; done.
  - unfold cancel. by split_cases.
  - destruct (tasks s !! i) as [st|]; [|done]. destruct (completed st); [|done].
    by destruct (finish_frame s i (owner st) (view st)) as [-> _].
  - unfold subscribe. by destruct (sender_subscribe _).
  - by rewrite store_broadcast.
  - destruct (tasks s !! i) as [st|] eqn:E; [|exists db; by split_and!]. destruct (completed st); [exists db; by split_and!|].
    rewrite (finalize_commit_Some _ _ _ _ _ E).
    destruct (publish_frame (set_tasks s (<[i := committed st r n]> (tasks s))) i (owner st)
      (view (committed st r n)) n) as (_ & _ & _ & _ & _ & _ & ->). simpl. rewrite Hdb. simpl.
    destruct (update_task _ _ _ _ _ _ _) as [db' r'] eqn:Eu. simpl. exists db'.
    destruct (update_task_spec _ _ _ _ _ _ _ _ _ Hinv Eu) as [Hinv' Hr]. split_and!; [done..|].
    intros j Hj. bool_hyps. destruct r'; [|by rewrite Hr].
    destruct Hr as (row & _ & _ & ->). by rewrite lookup_insert_ne.
Qed.

Lemma store_runs ops s db i :
  store s = Some db → store_inv db → forallb (leaves_open i) ops = true →
  ∃ db', store (runs s ops) = Some db' ∧ store_inv db' ∧ rows db' !! i = rows db !! i.
Proof.
  revert s db. induction ops as [|o ops IH]; intros s db Hdb Hinv Hlo; simpl in *; [by exists db|].
  bool_hyps. destruct (store_run s o db) as (db1 & Hdb1 & Hinv1 & Hrow); [done..|].
  destruct (IH _ _ Hdb1 Hinv1) as (db2 & Hdb2 & Hinv2 & Hrow2); [done|]. exists db2.
  split_and!; [done..|]. by rewrite Hrow2, Hrow.
Qed.

Lemma tasks_persist_create s i u v : tasks (persist_create s i u v) = tasks s.
Proof. unfold persist_create. by split_cases. Qed.

(** A finalize whose store update succeeds leaves the updated row. *)
Lemma finalize_store s i u r now st db row :
  tasks s !! i = Some st → completed st = false → owner st = u →
  store s = Some db → store_inv db → rows db !! i = Some row →
  let v := view (committed st r now) in
  is_ok (update_task db u i (api_status_to_db (status v)) (last_error v) None (Some now)).2 = true →
  ∃ db', store (finalize s i u r now) = Some db' ∧ store_inv db' ∧
    rows db' !! i = Some (updated row (api_status_to_db (status v)) (last_error v) None (Some now)).
Proof.
  intros Hst Hc Ho Hdb Hinv Hrow v Hok.
  set (s1 := set_tasks s (<[i := committed st r now]> (tasks s))).
  destruct (publish_frame s1 i u v now) as (_ & _ & _ & _ & _ & _ & Hsto).
  assert (finalize s i u r now = finalize_finish (finalize_publish s1 i u v now) i u v) as ->
    by (by apply finalize_eq).
  destruct (finish_frame (finalize_publish s1 i u v now) i u v) as [-> _]. rewrite Hsto.
  change (store s1) with (store s). rewrite Hdb. change (progress_hint v) with (@None string).
  cbn [fmap option_fmap option_map].
  destruct (update_task db u i (api_status_to_db (status v)) (last_error v) None (Some now)) as [db' r'] eqn:Eu.
  destruct (update_task_spec _ _ _ _ _ _ _ _ _ Hinv Eu) as [Hinv' Hr].
  exists db'. split_and!; [done|done|]. destruct r'; [|done].
  destruct Hr as (row' & Hrow' & _ & ->). rewrite lookup_insert_eq. congruence.
Qed.

(** Only the owner reads a row back. *)
Lemma get_or_load_row s db i row current u' :
  store s = Some db → store_inv db → rows db !! i = Some row → tasks s !! i = None →
  (current = row_user_id row → u' = row_user_id row →
     (∃ r, get_task db current i = Ok r) → get_or_load s current u' i = row_to_view row) ∧
  (u' ≠ row_user_id row → get_or_load s current u' i = None).
Proof.
  intros Hdb Hinv Hrow Hi. unfold get_or_load, get. rewrite Hi, Hdb. simpl. split.
  - intros -> -> [r Hr]. rewrite Hr. pose proof (get_task_spec _ _ _ _ Hinv Hr) as ->.
    rewrite Hrow. simpl. rewrite bool_decide_eq_true_2 by done.
    by rewrite bool_decide_eq_false_2 by naive_solver.
  - intros Hu. destruct (get_task db current i) as [o|] eqn:Eg; [|done].
    pose proof (get_task_spec _ _ _ _ Hinv Eg) as ->. rewrite Hrow. simpl.
    case_bool_decide; [|done]. by rewrite bool_decide_eq_true_2 by naive_solver.
Qed.

Lemma db_status_to_api_to_db st : db_status_to_api (api_status_to_db st) = st.
Proof. by destruct st. Qed.

(** Durability.  A task spawned with a working store, then run through any
    operations, then finalized with a working store, is gone from memory, and
    [get_or_load] gives its owner back exactly the spawned view with its outcome;
    every other caller gets nothing, whatever [current_user_id] is. *)
Theorem finished_task_is_recoverable s i now now_log u k t meta ops r ended db kj :
  (∀ k j, to_value k = Some j → from_value j = Some k) →
  store s = Some db → store_inv db → op_ok s (OSpawn i now now_log u k t meta) →
  to_value k = Some kj →
  is_ok (create_task db (row_of_view i u kj (spawn_view i k t meta now))).2 = true →
  let s1 := persist_create (spawn_with_meta s i now now_log u k t meta) i u (spawn_view i k t meta now) in
  ops_ok s1 ops → forallb (leaves_open i) ops = true →
  let s2 := runs s1 ops in
  (∀ db2 st v, store s2 = Some db2 → tasks s2 !! i = Some st → v = view (committed st r ended) →
     is_ok (update_task db2 u i (api_status_to_db (status v)) (last_error v) None (Some ended)).2 = true) →
  let s3 := finalize s2 i u r ended in
  (∀ db3, store s3 = Some db3 → is_ok (get_task db3 u i) = true) →
  ∃ st, tasks s2 !! i = Some st ∧ get s3 u i = None ∧
    get_or_load s3 u u i =
      Some (with_outcome (spawn_view i k t meta now) (outcome_of r (token st)).1 ended
              (outcome_of r (token st)).2) ∧
    ∀ u' current, u' ≠ u → get_or_load s3 current u' i = None.
Proof.
  intros Hserde Hdb Hinv Hop Hkj Hcr s1 Hok Hlo s2 Hup s3 Hget.
  set (v0 := spawn_view i k t meta now) in *. set (row0 := row_of_view i u kj v0) in *.
  assert (Hdb1 : ∃ db1, store s1 = Some db1 ∧ store_inv db1 ∧ rows db1 !! i = Some row0).
  { unfold s1, persist_create.
    assert (store (spawn_with_meta s i now now_log u k t meta) = Some db) as ->
      by (unfold spawn_with_meta; rewrite store_append, store_broadcast; done).
    simpl. rewrite Hkj. destruct (create_task db _) as [db1 r1] eqn:Ec. exists db1.
    destruct (create_task_spec _ _ _ _ Hinv Ec) as [Hinv1 Hr]. split_and!; [done..|].
    destruct r1; [|done]. destruct Hr as [_ ->].
    by rewrite lookup_insert_eq. }
  destruct Hdb1 as (db1 & Hdb1 & Hinv1 & Hrow1).
  assert (Ht1 : tasks s1 !! i = Some (spawned (log_ring_capacity (config s)) i u k t meta now now_log)).
  { unfold s1. rewrite tasks_persist_create, tasks_spawn by apply Hop. by rewrite lookup_insert_eq. }
  destruct (runs_keep ops s1 i _ Hok Hlo Ht1 eq_refl) as (st & Hst & Hc & Hid).
  destruct (store_runs ops s1 db1 i Hdb1 Hinv1 Hlo) as (db2 & Hdb2 & Hinv2 & Hrow2).
  destruct Hid as (Ho & Hk & Hp & Hi & Hot & Hsa & Htt & Hsm). simpl in *.
  destruct (finalize_store s2 i u r ended st db2 row0) as (db3 & Hdb3 & Hinv3 & Hrow3);
    [done|done|done|done|done|congruence|by eapply Hup|].
  destruct (finalize_outcome s2 i u r ended st Hst Hc Ho) as (_ & _ & _ & _ & _ & Htasks & _).
  assert (Hgone : tasks s3 !! i = None) by (unfold s3; rewrite Htasks; by rewrite bool_decide_eq_true_2).
  assert (Hrd : ∃ r, get_task db3 u i = Ok r).
  { specialize (Hget db3 Hdb3). destruct (get_task db3 u i); [by eexists|done]. }
  exists st. split_and!; [done|by unfold get; rewrite Hgone|..].
  - destruct (get_or_load_row s3 db3 i _ u u Hdb3 Hinv3 Hrow3 Hgone) as [-> _]; [|done..].
    unfold row_to_view. simpl. rewrite (Hserde _ _ Hkj), db_status_to_api_to_db. done.
  - intros u' current Hu'. by apply (get_or_load_row s3 db3 i _ current u' Hdb3 Hinv3 Hrow3 Hgone).
Qed.

(** ** Cold restart *)

(** A leftover row is failed in the store and registered, finished, under its
    owner with a single log line. *)
Definition surfaced (s : Inner) (db : St) (clock : BackgroundTaskRow Json → Z)
    (row : BackgroundTaskRow Json) : Prop :=
  ∃ k st, from_value (row_kind_json row) = Some k ∧
    rows db !! row_id row =
      Some (updated row DbFailed (Some (sweep_error k)) (row_progress_hint row) (Some (clock row))) ∧
    tasks s !! row_id row = Some st ∧ owner st = row_user_id row ∧
    view st = with_children (sweep_view row k (clock row)) (children (view st)) ∧
    completed st = true ∧ length (logs_of st) = 1%nat.

Definition only_children_changed (m m' : gmap string TaskState) (j : string) : Prop :=
  ∀ st, m !! j = Some st → ∃ c, m' !! j = Some (set_view st (with_children (view st) c)).

Lemma only_children_trans m1 m2 m3 j :
  only_children_changed m1 m2 j → only_children_changed m2 m3 j → only_children_changed m1 m3 j.
Proof. intros H1 H2 st Hst. destruct (H1 _ Hst) as [c1 Hc1]. by destruct (H2 _ Hc1) as [c2 ->]; eexists. Qed.

Lemma only_children_refl m j : only_children_changed m m j.
Proof. intros st ->. exists (children (view st)). f_equal. by destruct st as [? [] ? ? ? ?]. Qed.

Lemma link_child_only m p i j : only_children_changed m (link_child m p i) j.
Proof.
  intros st Hst. rewrite lookup_link_child, Hst. simpl. case_bool_decide; [by eexists|].
  by apply (only_children_refl m j) in Hst as [c Hc]; exists (children (view st)); destruct st as [? [] ? ? ? ?].
Qed.

Lemma surfaced_keep s db s' db' clock row :
  surfaced s db clock row → rows db' !! row_id row = rows db !! row_id row →
  only_children_changed (tasks s) (tasks s') (row_id row) → surfaced s' db' clock row.
Proof.
  intros (k & st & Hk & Hr & Hst & Ho & Hv & Hc & Hl) Hrow Hoc. destruct (Hoc _ Hst) as [c Hc'].
  exists k, (set_view st (with_children (view st) c)). rewrite Hrow.
  split_and!; try done. simpl. by rewrite Hv.
Qed.

(** One row: surfaced, or left exactly as it was. *)
Lemma sweep_row_spec s db row clock s' db' b :
  store_inv db → rows db !! row_id row = Some row →
  sweep_row s db row (clock row) = (s', db', b) →
  store_inv db' ∧
  (∀ j, j ≠ row_id row → rows db' !! j = rows db !! j ∧ only_children_changed (tasks s) (tasks s') j) ∧
  (if b then surfaced s' db' clock row else rows db' = rows db ∧ tasks s' = tasks s).
Proof.
  intros Hinv Hrow Hsw. pose proof (tasks_sweep_row s db row (clock row)) as Ht.
  rewrite Hsw in Ht. simpl in Ht. unfold sweep_row in Hsw.
  destruct (from_value (row_kind_json row)) as [k|] eqn:Hk;
    [|simplify_eq; split_and!; try done; intros; split; [done|]; apply only_children_refl].
  destruct (update_task _ _ _ _ _ _ _) as [db1 r] eqn:Eu.
  destruct (update_task_spec _ _ _ _ _ _ _ _ _ Hinv Eu) as [Hinv1 Hr].
  destruct r; [|simplify_eq; split_and!; try done; intros; split; [by rewrite Hr|]; apply only_children_refl].
  injection Hsw as Hs' -> <-. clear Hs'. destruct Hr as (row' & Hrow' & _ & Hdb').
  assert (row' = row) as -> by congruence. split_and!; [done|..].
  - intros j Hj. split; [by rewrite Hdb', lookup_insert_ne|]. rewrite Ht.
    apply only_children_trans with (<[row_id row := swept row k (clock row)]> (tasks s)); [|apply link_child_only].
    intros st Hst. rewrite lookup_insert_ne by done. by apply only_children_refl.
  - destruct (link_child_only (<[row_id row := swept row k (clock row)]> (tasks s)) (row_parent_task_id row)
      (row_id row) (row_id row) (swept row k (clock row))) as [c Hc]; [by rewrite lookup_insert_eq|].
    rewrite <- Ht in Hc. exists k, (set_view (swept row k (clock row)) (with_children (view (swept row k (clock row))) c)).
    split_and!; try done. by rewrite Hdb', lookup_insert_eq.
Qed.

Lemma sweep_rows_spec clock l s db count s' db' n :
  store_inv db → NoDup (row_id <$> l) → (∀ row, row ∈ l → rows db !! row_id row = Some row) →
  sweep_rows s db l clock count = (s', db', n) →
  ∃ surf, store_inv db' ∧ surf `sublist_of` l ∧
    n = Nat.iter (length surf) (λ c, sat_add u32_max c 1) count ∧
    (∀ j, j ∉ row_id <$> l → rows db' !! j = rows db !! j ∧ only_children_changed (tasks s) (tasks s') j) ∧
    (∀ row, row ∈ surf → surfaced s' db' clock row) ∧
    (∀ row, row ∈ l → row ∈ surf ∨ rows db' !! row_id row = Some row).
Proof.
  revert s db count. induction l as [|row l IH]; intros s db count Hinv Hnd Hin Hsw; simpl in *.
  { injection Hsw as <- <- <-. exists []. split_and!; try done; try set_solver.
    intros j _. split; [done|]. apply only_children_refl. }
  destruct (sweep_row s db row (clock row)) as [[s1 db1] b] eqn:E.
  apply NoDup_cons in Hnd as [Hni Hnd].
  destruct (sweep_row_spec s db row clock s1 db1 b Hinv) as (Hinv1 & Hframe & Hb); [apply Hin; set_solver|done|].
  assert (Hne : ∀ r, r ∈ l → row_id r ≠ row_id row).
  { intros r Hr Heq. apply Hni. rewrite <- Heq. by apply list_elem_of_fmap_2. }
  destruct (IH s1 db1 (if b then sat_add u32_max count 1 else count)) as (surf & Hinv' & Hsub & Hn & Hfr & Hsurf & Hleft);
    [done|done| |done|].
  { intros r Hr. destruct (Hframe (row_id r)) as [-> _]; [by apply Hne|]. apply Hin. set_solver. }
  exists (if b then row :: surf else surf). split_and!.
  - done.
  - destruct b; [by apply sublist_skip|by apply sublist_cons].
  - rewrite Hn. destruct b; [|done]. cbn [length]. by rewrite Nat.iter_succ_r.
  - intros j [Hj1 Hj2]%not_elem_of_cons. destruct (Hframe j Hj1) as [<- Hoc1], (Hfr j Hj2) as [<- Hoc2].
    split; [done|]. by eapply only_children_trans.
  - intros r Hr. destruct b; [|by apply Hsurf]. apply elem_of_cons in Hr as [->|Hr]; [|by apply Hsurf].
    destruct (Hfr _ Hni). by eapply surfaced_keep.
  - intros r [->|Hr]%elem_of_cons.
    + destruct b; [set_solver|right]. destruct Hb as [Hb _], (Hfr _ Hni) as [-> _]. rewrite Hb.
      apply Hin. set_solver.
    + destruct (Hleft r Hr); [left; destruct b; set_solver|by right].
Qed.

Lemma iter_sat_add n c : c ≤ u32_max →
  Nat.iter n (λ c, sat_add u32_max c 1) c = Z.min u32_max (c + Z.of_nat n).
Proof. intros Hc. induction n as [|n IH]; simpl; [lia|]. rewrite IH. unfold sat_add. lia. Qed.

Lemma scanned_rows db rs row :
  store_inv db → scan_non_terminal db = Ok rs →
  row ∈ rs ↔ rows db !! row_id row = Some row ∧ is_terminal (row_status row) = false.
Proof.
  intros Hinv Hscan. rewrite (scan_spec _ _ Hinv Hscan), list_elem_of_filter, list_elem_of_fmap. split.
  - intros [Ht ([i r] & -> & Hr%elem_of_map_to_list)]. simpl in *. by rewrite (rows_keyed _ _ _ Hinv Hr).
  - intros [Hr Ht]. split; [done|]. exists (row_id row, row). split; [done|]. by apply elem_of_map_to_list.
Qed.

Lemma scanned_NoDup db rs : store_inv db → scan_non_terminal db = Ok rs → NoDup (row_id <$> rs).
Proof.
  intros Hinv Hscan. rewrite (scan_spec _ _ Hinv Hscan).
  assert (Hkeys : ∀ m : gmap string (BackgroundTaskRow Json), (∀ i r, m !! i = Some r → row_id r = i) →
    NoDup (row_id <$> filter (λ row, is_terminal (row_status row) = false) (map_to_list m).*2)).
  { intros m. induction m as [|i r m Hi IH] using map_ind; intros Hm; [constructor|].
    rewrite map_to_list_insert by done. rewrite fmap_cons, filter_cons. simpl.
    assert (Hm' : ∀ i r, m !! i = Some r → row_id r = i).
    { intros i' r' Hr'. apply Hm. rewrite lookup_insert_ne; [done|]. by intros ->; simplify_eq. }
    destruct (decide _); [|by apply IH]. rewrite fmap_cons. constructor; [|by apply IH].
    rewrite (Hm i r) by (by rewrite lookup_insert_eq).
    intros (r' & Hid & [_ Hr']%list_elem_of_filter)%list_elem_of_fmap.
    apply list_elem_of_fmap in Hr' as ([i' r''] & -> & Hr'%elem_of_map_to_list). simpl in *.
    rewrite (Hm' _ _ Hr') in Hid. congruence. }
  apply Hkeys. intros i r. by apply rows_keyed.
Qed.

(** Cold restart.  When the scan succeeds, the sweep succeeds and splits the
    rows a previous process left running in two: those it surfaces are failed in
    the store with the reason their kind dictates and registered under their
    owner as finished, so that cancelling one is refused and waiting for one
    returns at once; the others are untouched.  The count is the number
    surfaced, every row that was already terminal is untouched, and a second
    sweep scans exactly the rows the first one could not surface. *)
Theorem sweep_settles_leftovers s clock db rs :
  store s = Some db → store_inv db → scan_non_terminal db = Ok rs →
  ∃ s' db' surf,
    sweep_non_terminal_on_startup s clock =
      (set_store s' (Some db'), Ok (Z.min u32_max (Z.of_nat (length surf)))) ∧
    store_inv db' ∧
    (∀ row, row ∈ surf → row ∈ rs ∧ surfaced s' db' clock row ∧ wait_over s' (row_id row) = true ∧
       (cancel s' (row_user_id row) (row_id row)).2 = Err AlreadyTerminal) ∧
    (∀ row, row ∈ rs → row ∈ surf ∨ rows db' !! row_id row = Some row) ∧
    (∀ i row, rows db !! i = Some row → is_terminal (row_status row) = true → rows db' !! i = Some row) ∧
    (∀ rs', scan_non_terminal db' = Ok rs' → ∀ row, row ∈ rs' ↔ row ∈ rs ∧ row ∉ surf).
Proof.
  intros Hdb Hinv Hscan. unfold sweep_non_terminal_on_startup. rewrite Hdb, Hscan.
  destruct (sweep_rows s db (sort_by roots_first rs) clock 0) as [[s' db'] n] eqn:E.
  assert (Hl : ∀ row, row ∈ sort_by roots_first rs ↔ row ∈ rs) by (intros row; apply elem_of_sort_by).
  apply sweep_rows_spec in E as (surf & Hinv' & Hsub & -> & Hframe & Hsurf & Hleft); [|done|..].
  2:{ rewrite sort_by_perm. by eapply scanned_NoDup. }
  2:{ intros row Hr%Hl. by apply (scanned_rows db rs). }
  exists s', db', surf. rewrite iter_sat_add by done.
  assert (Hin : ∀ row, row ∈ surf → row ∈ rs) by (intros row Hr; apply Hl; by eapply elem_of_sublist).
  assert (Hother : ∀ i row, rows db !! i = Some row → row_id row = i → row ∉ rs → rows db' !! i = Some row).
  { intros i row Hr Hid Hnr. destruct (Hframe i) as [-> _]; [|done]. rewrite list_elem_of_fmap.
    intros (r' & -> & Hr'%Hl). apply (scanned_rows db rs) in Hr' as Hr''; [|done..]. destruct Hr''. congruence. }
  split_and!.
  - do 2 f_equal.
  - done.
  - intros row Hr. pose proof (Hsurf _ Hr) as Hs. pose proof Hs as (k & st & _ & _ & Hst & Ho & Hv & Hc & _).
    split_and!; [by apply Hin|done|unfold wait_over; by rewrite Hst|].
    rewrite cancel_own, (proj2 (own_lookup _ _ _ st)) by done. by rewrite Hv.
  - intros row Hr. by apply Hleft, Hl.
  - intros i row Hr Ht. apply Hother; [done|by apply (rows_keyed db)|].
    intros [_ ?]%(scanned_rows db rs); [congruence|done..].
  - intros rs' Hscan' row. rewrite (scanned_rows db' rs' row Hinv' Hscan'). split.
    + intros [Hr Ht]. assert (Hns : row ∉ surf).
      { intros Hs. destruct (Hsurf _ Hs) as (k & st & _ & Hr' & _). rewrite Hr in Hr'.
        injection Hr' as Hr'. rewrite Hr' in Ht. done. }
      split; [|done]. destruct (decide (row_id row ∈ row_id <$> sort_by roots_first rs)) as [Hi|Hi].
      * apply list_elem_of_fmap in Hi as (r' & Hid & Hr'). rewrite Hid in Hr.
        destruct (Hleft _ Hr') as [Hs|He]; [|apply Hl; congruence].
        destruct (Hsurf _ Hs) as (k & st & _ & He & _). rewrite Hr in He. injection He as He.
        by rewrite He in Ht.
      * apply (scanned_rows db rs); [done..|]. destruct (Hframe _ Hi) as [<- _]. done.
    + intros [Hr Hns]. destruct (Hleft row) as [?|He]; [by apply Hl|done|].
      apply (scanned_rows db rs) in Hr as [_ Ht]; done.
Qed.

End durable.

(** ** Subtrees *)

Lemma owner_under_prefix_spec o p :
  owner_under_prefix o p = true ↔ o = p ∨ ∃ rest, o = p +:+ "." +:+ rest.
Proof.
  unfold owner_under_prefix. rewrite orb_true_iff, bool_decide_eq_true, !andb_true_iff. f_equiv.
  rewrite Nat.ltb_lt, bool_decide_eq_true, starts_with_app. split.
  - intros [[Hlen [r ->]] Hd]. rewrite string_get_app in Hd.
    destruct r as [|a r]; [done|]. injection Hd as ->. by exists r.
  - intros [rest ->]. split_and!; [|by eexists|by rewrite string_get_app].
    rewrite !string_length_app. simpl. lia.
Qed.

(** Deferred subtree deletion.  The query is true exactly when one of the
    caller's own registered tasks is still pending or running, is a subagent of
    that session, and owns the prefix itself or a dotted path below it: neither a
    textual neighbour such as [11] under [1] nor another session or user counts. *)
Theorem subtree_query_is_exact s u sess p :
  any_non_terminal_under_owner_prefix s u sess p = true ↔
  ∃ i st parent conv name np,
    tasks s !! i = Some st ∧ owner st = u ∧ live_status (status (view st)) = true ∧
    kind (view st) = Subagent parent conv name sess np ∧
    (owner_todo (view st) = p ∨ ∃ rest, owner_todo (view st) = p +:+ "." +:+ rest).
Proof.
  rewrite any_own. split.
  - intros (i & st & [Hi Ho]%own_lookup & Hl & Hs & Hp%owner_under_prefix_spec).
    destruct (kind (view st)) as [|pid conv name sess' np| |] eqn:Hk; try done. simpl in Hs. simplify_eq.
    by exists i, st, pid, conv, name, np.
  - intros (i & st & pid & conv & name & np & Hi & Ho & Hl & Hk & Hp).
    exists i, st. rewrite own_lookup, owner_under_prefix_spec, Hk. done.
Qed.

(** ** Channels *)

(** Event routing.  Broadcasting to a user touches no other user's channel
    and creates none; the user's channel receives the event, or is reclaimed
    exactly when it has no receiver.  Subscribing reclaims every dead channel,
    keeps the other live ones as they were, and leaves the caller a channel with
    one more live receiver. *)
Theorem events_reach_only_their_user `{!BroadcastLaws Sender Receiver Event} s u e :
  (∀ u', u' ≠ u → user_channels (broadcast s u e) !! u' = user_channels s !! u') ∧
  user_channels (broadcast s u e) !! u =
    (c ← user_channels s !! u; if decide (receiver_count c = O) then None else send c e) ∧
  (∀ u' c, user_channels (subscribe s u).1 !! u' = Some c → (0 < receiver_count c)%nat) ∧
  (∀ u' c, u' ≠ u → (0 < receiver_count c)%nat →
     user_channels (subscribe s u).1 !! u' = Some c ↔ user_channels s !! u' = Some c) ∧
  ∃ c, user_channels (subscribe s u).1 !! u = Some c ∧
    receiver_count c = S (from_option receiver_count O (user_channels s !! u)).
Proof.
  assert (Hsub : ∀ u' c, u' ≠ u → user_channels (subscribe s u).1 !! u' = Some c ↔
            user_channels s !! u' = Some c ∧ (0 < receiver_count c)%nat).
  { intros u' c Hu'. unfold subscribe. destruct (sender_subscribe _). simpl.
    by rewrite lookup_insert_ne, map_lookup_filter_Some by done. }
  assert (Hme : ∃ c, user_channels (subscribe s u).1 !! u = Some c ∧
    receiver_count c = S (from_option receiver_count O (user_channels s !! u))).
  { unfold subscribe. set (c0 := default _ _). pose proof (subscribe_receivers c0) as Hc0.
    destruct (sender_subscribe c0) as [c rx] eqn:Ec. simpl in *. exists c. rewrite lookup_insert_eq.
    split; [done|]. rewrite Hc0. f_equal. unfold c0.
    destruct (user_channels s !! u) as [cu|] eqn:Eu; simpl.
    - destruct (decide (0 < receiver_count cu)%nat).
      + by rewrite (map_lookup_filter_Some_2 _ _ _ _ Eu).
      + rewrite map_lookup_filter_None_2 by naive_solver. simpl. rewrite channel_receivers. lia.
    - rewrite map_lookup_filter_None_2 by naive_solver. apply channel_receivers. }
  split_and!.
  - intros u' Hu'. unfold broadcast. destruct (user_channels s !! u); [|done].
    destruct (send _ _); simpl; [by rewrite lookup_insert_ne|by rewrite lookup_delete_ne].
  - unfold broadcast. destruct (user_channels s !! u) as [c|] eqn:E; simpl; [|done].
    destruct (decide (receiver_count c = O)) as [Hz|Hz].
    + rewrite (proj2 (send_fails c e) Hz). simpl. by rewrite lookup_delete_eq.
    + destruct (send c e) eqn:Es; [simpl; by rewrite lookup_insert_eq|]. by apply send_fails in Es.
  - intros u' c Hc. destruct (decide (u' = u)) as [->|Hu']; [|by apply Hsub in Hc as [_ ?]].
    destruct Hme as (c' & Hc' & Hn). simplify_eq. lia.
  - intros u' c Hu' Hpos. rewrite Hsub by done. naive_solver.
  - done.
Qed.

End registry.

(** ** A concrete registry

    Instances at which the theorems above are applied: a channel that counts its
    receivers and keeps what was sent, the SQLite table as the store, kinds
    stored as they are. *)

Module Concrete.
Import Sqlite.

#[export] Instance counting_channel {Ev : Type} : Broadcast (nat * list Ev) unit Ev := {
  channel _ := (O, []);
  send c e := match c with (O, _) => None | (n, l) => Some (n, l ++ [e]) end;
  receiver_count c := c.1;
  sender_subscribe c := ((S c.1, c.2), tt)
}.

#[export] Instance counting_channel_laws {Ev : Type} : BroadcastLaws (nat * list Ev) unit Ev.
Proof. split; [intros [[|n] l] e|intros [[|n] l] e s'|..]; naive_solver. Qed.

Notation Js := TaskKind (only parsing).
Notation Snd := (nat * list (Event (Json := TaskKind)))%type (only parsing).
Notation Db := (Sqlite.SqliteStore (Json := TaskKind)) (only parsing).

Definition values (m : gmap string (TaskState (Json := TaskKind))) := (map_to_list m).*2.

Notation Reg := (Inner (Json := Js) (Sender := Snd) (St := Db) (Observer := unit)) (only parsing).
Notation Op := (op (Json := TaskKind)) (only parsing).

Definition empty_db : Db := {| Sqlite.table := ∅; Sqlite.pool_error := None |}.

Definition fresh : Reg := with_store (with_config {| log_ring_capacity := 2; broadcast_capacity := 4 |}) empty_db.

Definition spawn_a : Op :=
  OSpawn "a" 10 11 "alice" (Conversation "c") "turn" SpawnMeta_default.
Definition spawn_kid : Op :=
  OSpawn "kid" 12 13 "alice" (Subagent "a" "cc" "researcher" "c" true) "kid"
    {| meta_owner_todo := "1.1"; meta_spawn_marker := Some "m" |}.

Definition with_a : Reg := run values fresh spawn_a.

Lemma fresh_reachable : reachable_reg Some values fresh.
Proof. apply rr_store, rr_new. simpl. lia. Qed.

Lemma ok_a : op_ok fresh spawn_a.
Proof.
  split_and!; [|done|done]. split; [reflexivity|]. apply map_Forall_empty.
Qed.

Lemma with_a_reachable : reachable_reg Some values with_a.
Proof. apply rr_op; [apply fresh_reachable|apply ok_a]. Qed.

Lemma fresh_owned : parents_owned fresh.
Proof. intros i st p ps Hst. by vm_compute in Hst. Qed.

Definition bobs_ops : list Op :=
  [ OSpawn "b" 20 21 "bob" (Standalone "job" "c2") "job" SpawnMeta_default;
    OAppend "b" 22 Info StatusUpdate "working" None;
    OAppendLog "bob" "a" 23 Info StatusUpdate "sneaky" None;
    OCancel "bob" "a"; OSubscribe "bob"; OCommit "b" (Ok tt) 24; OEvict "b" ].

Lemma fresh_id_concrete (s : Reg) i :
  tasks s !! i = None →
  bool_decide (map_Forall (λ _ st, parent (view st) ≠ Some i) (tasks s)) = true → fresh_id s i.
Proof. intros Hi Hf%bool_decide_eq_true. by split. Qed.

Lemma users_are_isolated_witness :
  (cancel (runs values with_a bobs_ops) "alice" "a").2 = Ok tt ∧
  get (runs values with_a bobs_ops) "alice" "b" = None ∧
  any_non_terminal_under_owner_prefix values (runs values with_a bobs_ops) "alice" "c" "1" = false ∧
  started_at <$> list_tasks values (runs values with_a bobs_ops) "alice" true (Some 1) = [10].
Proof.
  destruct (users_are_isolated Some values (λ m, reflexivity _) with_a bobs_ops "alice")
    as (Hget & _ & Hcancel & _ & _ & _ & Hlist & Hany & Hnone).
  - apply parents_owned_run; [apply ok_a|apply fresh_owned].
  - cbn [ops_ok bobs_ops op_ok]. split_and!; try done.
    apply fresh_id_concrete; vm_compute; reflexivity.
  - cbn [others_only bobs_ops]. split_and!; try done; vm_compute; congruence.
  - rewrite Hcancel, Hany, Hlist by (apply (bool_decide_unpack _); vm_compute; exact I).
    split_and!; [vm_compute; reflexivity| |vm_compute; reflexivity..].
    apply Hnone. vm_compute. reflexivity.
Defined.

(** Three lines in a ring of two, read one at a time. *)
Definition logged : Reg :=
  run values (run values with_a (OAppend "a" 30 Info StatusUpdate "one" None))
    (OAppend "a" 31 Info StatusUpdate "two" None).

Lemma logged_reachable : reachable_reg Some values logged.
Proof. apply rr_op; [apply rr_op; [apply with_a_reachable|done]|done]. Qed.

Definition state_of (s : Reg) (i : string) : TaskState :=
  default {| owner := EmptyString; view := spawn_view "x" (Maintenance "x") "x" SpawnMeta_default 0; token := false;
             logs_of := []; next_seq := 1; completed := false |} (tasks s !! i).

Lemma log_pages_are_complete_witness :
  seq <$> pages 2 logged "alice" "a" 0 1 = [2; 3].
Proof.
  destruct (log_pages_are_complete Some Some values (λ m, reflexivity _) logged "alice" "a"
    (state_of logged "a") 0 1 logged_reachable) as (_ & _ & Hp);
    [vm_compute; reflexivity|vm_compute; reflexivity|lia|].
  rewrite Hp by (vm_compute; lia). vm_compute. reflexivity.
Defined.

Definition cancelled : Reg := (cancel with_a "alice" "a").1.

Lemma terminal_states_are_final_witness :
  (cancel (run values cancelled (OCommit "a" (Err "boom") 40)) "alice" "a").2 = Err AlreadyTerminal.
Proof.
  set (s := run values cancelled (OCommit "a" (Err "boom") 40)).
  assert (Hs : reachable_reg Some values s).
  { apply rr_op; [|done]. apply (rr_op _ _ with_a (OCancel "alice" "a")); [apply with_a_reachable|done]. }
  destruct (terminal_states_are_final Some values s "a" (state_of s "a") Hs) as (_ & Hf & _);
    [vm_compute; reflexivity|].
  apply (Hf (committed_finished (state_of cancelled "a") (Err "boom") 40)).
Defined.

Definition observed_reg : Reg := set_subagent_observer (run values with_a spawn_kid) tt.

Lemma finalize_outcome_witness :
  map (λ p, (c_child_task_id p.2, c_status p.2, c_siblings_remaining p.2))
      (observed (finalize values observed_reg "kid" "alice" (Ok tt) 50)) = [("kid", Completed, O)].
Proof.
  destruct (finalize_outcome values (λ m, reflexivity _) observed_reg "kid" "alice" (Ok tt) 50
    (state_of observed_reg "kid")) as (_ & _ & _ & _ & _ & _ & _ & Hob); [vm_compute; reflexivity..|].
  rewrite Hob. vm_compute. reflexivity.
Defined.

Lemma finished_task_is_recoverable_witness :
  status <$> get_or_load Some
    (finalize values (runs values (persist_create Some
       (spawn_with_meta fresh "a" 10 11 "alice" (Conversation "c") "turn" SpawnMeta_default) "a" "alice"
       (spawn_view "a" (Conversation "c") "turn" SpawnMeta_default 10)) [OCancel "alice" "a"])
       "a" "alice" (Ok tt) 60) "alice" "alice" "a" = Some Cancelled.
Proof.
  destruct (finished_task_is_recoverable Some Some values (λ m, reflexivity _) fresh "a" 10 11 "alice"
    (Conversation "c") "turn" SpawnMeta_default [OCancel "alice" "a"] (Ok tt) 60 empty_db (Conversation "c"))
    as (st & Hst & _ & Hload & _); [try done..|].
  - intros db2 st v Hdb2 Hst ->. vm_compute in Hst. apply (inj Some) in Hst as <-.
    vm_compute in Hdb2. apply (inj Some) in Hdb2 as <-. vm_compute. reflexivity.
  - intros db3 Hdb3. vm_compute in Hdb3. apply (inj Some) in Hdb3 as <-. vm_compute. reflexivity.
  - rewrite Hload. vm_compute in Hst. apply (inj Some) in Hst as <-. vm_compute. reflexivity.
Defined.

(** What a previous process left: a turn, its subagent, and the subagent's own
    subagent. *)
Definition leftover (i : string) (k : TaskKind) : DbRow :=
  {| db_id := i; db_user_id := "alice"; db_kind_json := k; db_task_status := "running";
     db_parent_task_id := parent_task_id_of k; db_title := "t"; db_last_error := None;
     db_progress_hint := None; db_started_at := 1; db_ended_at := None; db_owner_todo := "1";
     db_spawn_marker := None |}.

Definition sub_of (p : string) : TaskKind := Subagent p "cc" "n" "c" false.

Definition left_db : Db :=
  {| table := {[ "root" := leftover "root" (Conversation "c"); "k2" := leftover "k2" (sub_of "root");
                 "k1" := leftover "k1" (sub_of "k2") ]};
     pool_error := None |}.

Definition restarted : Reg := with_store (with_config RegistryConfig_default) left_db.

Lemma left_db_ok : table_ok left_db.
Proof.
  unfold table_ok, left_db. cbn [table].
  repeat (apply map_Forall_insert_2; [split; [done|by eexists]|]). apply map_Forall_empty.
Qed.

Lemma sweep_settles_leftovers_witness :
  ∃ n, (sweep_non_terminal_on_startup Some restarted (λ _, 99)).2 = Ok n.
Proof.
  destruct (scan_non_terminal left_db) as [rs|] eqn:Hscan; [|by vm_compute in Hscan].
  destruct (sweep_settles_leftovers Some values (λ m, reflexivity _) restarted (λ _, 99) left_db rs)
    as (s' & db' & surf & Hsw & _); [reflexivity|apply left_db_ok|exact Hscan|].
  rewrite Hsw. by eexists.
Defined.

(** The sweep sorts rows without a parent first and keeps the store's order
    otherwise, so a subagent listed before its own parent, itself a subagent, is
    registered first and its link is lost; its parent keeps [children] empty. *)
Lemma sweep_loses_a_nested_link :
  let s := (sweep_non_terminal_on_startup Some restarted (λ _, 99)).1 in
  parent <$> get s "alice" "k1" = Some (Some "k2") ∧
  children <$> get s "alice" "k2" = Some [] ∧
  children <$> get s "alice" "root" = Some ["k2"].
Proof. vm_compute. done. Qed.

Lemma subtree_query_is_exact_witness :
  any_non_terminal_under_owner_prefix values observed_reg "alice" "c" "1" = true.
Proof.
  apply (subtree_query_is_exact values (λ m, reflexivity _)).
  exists "kid", (state_of observed_reg "kid"), "a", "cc", "researcher", true.
  split_and!; [vm_compute; reflexivity..|]. right. by exists "1".
Defined.

Lemma events_reach_only_their_user_witness :
  receiver_count <$> user_channels (subscribe with_a "alice").1 !! "alice" = Some 1%nat.
Proof.
  destruct (events_reach_only_their_user (Receiver := unit) with_a "alice" KnowledgeChanged)
    as (_ & _ & _ & _ & c & Hc & Hn).
  rewrite Hc. cbn [fmap option_fmap option_map]. rewrite Hn. vm_compute. reflexivity.
Defined.

End Concrete.
