(* ===== verification/TaskWait.v ===== *)
(** * Waiting for a background task

    The concurrency of [BackgroundTaskRegistry::wait] against [finalize]
    ([crates/application/src/background_tasks.rs]): any number of waiters and
    finalizers, interleaved at the granularity of the source's critical
    sections, over the operations of [BackgroundTasks]. *)

From S2P Require Import Prelude TaskStore BackgroundTasks.

Section waiting.
Context {Json Sender Receiver St Observer : Type}.
Context `{!Broadcast Sender Receiver (Event (Json := Json))} `{!BackgroundTaskStore (Json := Json) St}.
Context (values : gmap string (TaskState (Json := Json)) → list (TaskState (Json := Json))).

Notation Reg := (Inner (Json := Json) (Sender := Sender) (St := St) (Observer := Observer)).

(** Where a call of [wait] is: before the fast path, before the notify is
    fetched, holding it, enrolled in it, suspended on it, returned. *)
Inductive wait_pc :=
| WStart
| WSlow
| WGot (n : nat)
| WEnabled (n : nat)
| WAwait (n : nat)
| WDone.

(** Where a finalizer is after its commit: before the eviction, before it takes
    the notify out of the map, before it calls [notify_waiters].  The observer
    call that follows touches nothing a waiter reads. *)
Inductive final_pc :=
| FCommitted (v : TaskView)
| FEvicted
| FTook (n : option nat).

(** [made] remembers, for the proof only, which task a notify was made for. *)
Record World := {
  reg : Reg;
  waiters : gmap nat (string * wait_pc);
  finals : gmap string final_pc;
  made : gmap nat string
}.

Definition plain_op (o : op (Json := Json)) : bool :=
  match o with OSpawn _ _ _ _ _ _ _ | OCommit _ _ _ | OEvict _ => false | _ => true end.

Definition set_reg (x : World) (s : Reg) : World :=
  {| reg := s; waiters := waiters x; finals := finals x; made := made x |}.
Definition set_waiter (x : World) (w : nat) (p : string * wait_pc) : World :=
  {| reg := reg x; waiters := <[w := p]> (waiters x); finals := finals x; made := made x |}.
Definition set_final (x : World) (i : string) (f : option final_pc) : World :=
  {| reg := reg x; waiters := waiters x;
     finals := match f with Some f => <[i := f]> (finals x) | None => delete i (finals x) end;
     made := made x |}.
Definition set_made (x : World) (m : gmap nat string) : World :=
  {| reg := reg x; waiters := waiters x; finals := finals x; made := m |}.

(** An id nothing has used yet. *)
Definition never_used (x : World) (i : string) : Prop :=
  tasks (reg x) !! i = None ∧ finals x !! i = None ∧ completion_notify (reg x) !! i = None ∧
  (∀ w pc, waiters x !! w ≠ Some (i, pc)) ∧ (∀ n, made x !! n ≠ Some i).

Inductive wstep : World → World → Prop :=
| ws_op x o :
    op_ok (reg x) o → plain_op o = true → wstep x (set_reg x (run values (reg x) o))
| ws_spawn x i n nl u k t meta :
    op_ok (reg x) (OSpawn i n nl u k t meta) → never_used x i →
    wstep x (set_reg x (run values (reg x) (OSpawn i n nl u k t meta)))
| ws_call x w i :
    waiters x !! w = None → is_Some (tasks (reg x) !! i) → wstep x (set_waiter x w (i, WStart))
| ws_fast x w i :
    waiters x !! w = Some (i, WStart) →
    wstep x (set_waiter x w (i, if wait_over (reg x) i then WDone else WSlow))
| ws_register x w i s n :
    waiters x !! w = Some (i, WSlow) → wait_register (reg x) i = (s, n) →
    wstep x (set_made (set_waiter (set_reg x s) w (i, WGot n)) (<[n := i]> (made x)))
| ws_enable x w i n :
    waiters x !! w = Some (i, WGot n) →
    wstep x (set_waiter (set_reg x (wait_enable (reg x) n w)) w (i, WEnabled n))
| ws_check x w i n :
    waiters x !! w = Some (i, WEnabled n) →
    wstep x (set_waiter x w (i, if wait_over (reg x) i then WDone else WAwait n))
| ws_wake x w i n :
    waiters x !! w = Some (i, WAwait n) → (n, w) ∈ woken (reg x) → wstep x (set_waiter x w (i, WDone))
| ws_commit x i st r now s v :
    tasks (reg x) !! i = Some st → completed st = false → finals x !! i = None →
    finalize_commit (reg x) i r now = Some (s, v) →
    wstep x (set_final (set_reg x (finalize_publish s i (owner st) v now)) i (Some (FCommitted v)))
| ws_evict x i v :
    finals x !! i = Some (FCommitted v) →
    wstep x (set_final (set_reg x (finalize_evict values (reg x) i v).1) i (Some FEvicted))
| ws_take x i :
    finals x !! i = Some FEvicted →
    wstep x (set_final (set_reg x (finalize_take_notify (reg x) i).1) i
               (Some (FTook (finalize_take_notify (reg x) i).2)))
| ws_notify x i n :
    finals x !! i = Some (FTook n) →
    wstep x (set_final (set_reg x (match n with Some n => notify_waiters (reg x) n | None => reg x end)) i None).

Definition start (s : Reg) : World := {| reg := s; waiters := ∅; finals := ∅; made := ∅ |}.

(** Worlds reached from a registry that has no waiter yet. *)
Inductive wreach : World → Prop :=
| wr_start s : tasks s = ∅ → completion_notify s = ∅ → enabled s = ∅ → woken s = ∅ → wreach (start s)
| wr_step x y : wreach x → wstep x y → wreach y.

(** A task a waiter has to wait for. *)
Definition pending (x : World) (i : string) : Prop := wait_over (reg x) i = false.

(** The notify a waiter holds. *)
Definition holds (pc : wait_pc) : option nat :=
  match pc with WGot n | WEnabled n | WAwait n => Some n | _ => None end.

Definition enrolled (x : World) (n w : nat) : Prop :=
  (n, w) ∈ enabled (reg x) ∨ (n, w) ∈ woken (reg x).

(** Someone will still call [notify_waiters] on [n] for task [i]. *)
Definition wake_due (x : World) (i : string) (n : nat) : Prop :=
  completion_notify (reg x) !! i = Some n ∧
    (pending x i ∨ (∃ v, finals x !! i = Some (FCommitted v)) ∨ finals x !! i = Some FEvicted) ∨
  finals x !! i = Some (FTook (Some n)).

Record wait_inv (x : World) : Prop := {
  wi_made i n : completion_notify (reg x) !! i = Some n → made x !! n = Some i;
  wi_took i n : finals x !! i = Some (FTook (Some n)) → made x !! n = Some i;
  wi_holds w i pc n : waiters x !! w = Some (i, pc) → holds pc = Some n → made x !! n = Some i;
  wi_counter n i : made x !! n = Some i → (n < notifies (reg x))%nat;
  wi_final i f : finals x !! i = Some f → wait_over (reg x) i = true;
  wi_got w i pc n : waiters x !! w = Some (i, pc) → holds pc = Some n → pending x i →
    completion_notify (reg x) !! i = Some n;
  wi_enabled w i n : waiters x !! w = Some (i, WEnabled n) → enrolled x n w;
  wi_await w i n : waiters x !! w = Some (i, WAwait n) →
    (n, w) ∈ woken (reg x) ∨ (n, w) ∈ enabled (reg x) ∧ wake_due x i n;
  wi_woken n w i : (n, w) ∈ woken (reg x) → made x !! n = Some i → wait_over (reg x) i = true;
  wi_done w i : waiters x !! w = Some (i, WDone) → wait_over (reg x) i = true;
  wi_enr n w : enrolled x n w → is_Some (made x !! n)
}.

(** ** Frames *)

Definition same_notify (s s' : Reg) : Prop :=
  completion_notify s' = completion_notify s ∧ notifies s' = notifies s ∧
  enabled s' = enabled s ∧ woken s' = woken s.

Lemma same_notify_broadcast s u e : same_notify s (broadcast s u e).
Proof. unfold broadcast. by split_cases. Qed.

Lemma same_notify_trans s1 s2 s3 : same_notify s1 s2 → same_notify s2 s3 → same_notify s1 s3.
Proof. unfold same_notify. intuition congruence. Qed.

Lemma same_notify_tasks s m s' : same_notify (set_tasks s m) s' → same_notify s s'.
Proof. done. Qed.

Lemma same_notify_append s i n l c msg d : same_notify s (append s i n l c msg d).
Proof.
  unfold append. case_match; [|done]. apply (same_notify_tasks _ _ _ (same_notify_broadcast _ _ _)).
Qed.

Definition same_over (s s' : Reg) (j : string) : Prop := wait_over s' j = wait_over s j.

Lemma same_over_insert s s' i st st' j :
  tasks s !! i = Some st → completed st' = completed st → tasks s' = <[i := st']> (tasks s) →
  same_over s s' j.
Proof.
  unfold same_over, wait_over. intros Hi Hc ->. destruct (decide (i = j)) as [->|Hne].
  - by rewrite lookup_insert_eq, Hi.
  - by rewrite lookup_insert_ne.
Qed.

Lemma same_over_tasks s s' j : tasks s' = tasks s → same_over s s' j.
Proof. unfold same_over, wait_over. by intros ->. Qed.

Lemma plain_frame s o :
  plain_op o = true → same_notify s (run values s o) ∧ ∀ j, same_over s (run values s o) j.
Proof.
  intros Hp. destruct o as [i n nl w k t m|i n l c msg d|w i n l c msg d|i h|w i|i r n|i|w|w e];
    try done; simpl.
  - split; [apply same_notify_append|]. unfold append. destruct (tasks s !! i) as [st|] eqn:E; [|done].
    intros j. eapply same_over_insert; [exact E| |rewrite tasks_broadcast; reflexivity]. done.
  - unfold append_log. destruct (tasks s !! i) as [st|] eqn:E; [|by split]. case_bool_decide; [by split|].
    split; [apply (same_notify_tasks _ _ _ (same_notify_broadcast _ _ _))|].
    intros j. eapply same_over_insert; [exact E| |rewrite tasks_broadcast; reflexivity]. done.
  - unfold set_progress_hint. destruct (tasks s !! i) as [st|] eqn:E; [|by split].
    split; [apply (same_notify_tasks _ _ _ (same_notify_broadcast _ _ _))|].
    intros j. eapply same_over_insert; [exact E| |rewrite tasks_broadcast; reflexivity]. done.
  - split; [unfold cancel; by split_cases|]. intros j. pose proof (tasks_cancel s w i) as Ht.
    destruct (tasks s !! i) as [st|] eqn:E; [|by apply same_over_tasks].
    case_match; [|by apply same_over_tasks]. eapply same_over_insert; [exact E| |exact Ht]; done.
  - unfold subscribe. by destruct (sender_subscribe _).
  - split; [apply same_notify_broadcast|]. intros j. apply same_over_tasks, tasks_broadcast.
Qed.

Lemma spawn_frame s i n nl u k t meta :
  op_ok s (OSpawn i n nl u k t meta) →
  same_notify s (run values s (OSpawn i n nl u k t meta)) ∧
  (∀ j, j ≠ i → same_over s (run values s (OSpawn i n nl u k t meta)) j) ∧
  wait_over (run values s (OSpawn i n nl u k t meta)) i = false.
Proof.
  intros (_ & Hne & _). split_and!.
  - simpl. unfold spawn_with_meta. eapply same_notify_trans; [|apply same_notify_append].
    apply (same_notify_tasks _ _ _ (same_notify_broadcast _ _ _)).
  - intros j Hj. unfold same_over, wait_over. simpl. rewrite tasks_spawn, lookup_insert_ne, lookup_link_child by done.
    destruct (tasks s !! j); simpl; [|done]. by case_match.
  - unfold wait_over. simpl. by rewrite tasks_spawn, lookup_insert_eq.
Qed.

Lemma commit_frame s i st r now s' v :
  tasks s !! i = Some st → finalize_commit s i r now = Some (s', v) →
  same_notify s (finalize_publish s' i (owner st) v now) ∧
  (∀ j, j ≠ i → same_over s (finalize_publish s' i (owner st) v now) j) ∧
  wait_over (finalize_publish s' i (owner st) v now) i = true.
Proof.
  intros Hst Hc. rewrite (finalize_commit_Some _ _ _ _ _ Hst) in Hc. injection Hc as <- <-.
  set (s1 := set_tasks s _). unfold finalize_publish.
  split_and!.
  - unfold persist_update. pose proof (same_notify_broadcast s1 (owner st)
      (TaskCompleted i (status (view (committed st r now))) (last_error (view (committed st r now))))) as Hb.
    case_match; exact Hb.
  - intros j Hj. unfold same_over, wait_over. rewrite tasks_persist_update, tasks_broadcast. simpl.
    by rewrite lookup_insert_ne.
  - unfold wait_over. rewrite tasks_persist_update, tasks_broadcast. simpl. by rewrite lookup_insert_eq.
Qed.

Lemma evict_frame s i v :
  same_notify s (finalize_evict values s i v).1 ∧
  (∀ j, j ≠ i → same_over s (finalize_evict values s i v).1 j) ∧
  wait_over (finalize_evict values s i v).1 i = true.
Proof.
  assert (Ht : tasks (finalize_evict values s i v).1 = unlink (tasks s) i (parent v)) by done.
  split_and!; [done|..].
  - intros j Hj. unfold same_over, wait_over. rewrite Ht, lookup_unlink, bool_decide_eq_false_2 by done.
    destruct (tasks s !! j); simpl; [|done]. by case_match.
  - unfold wait_over. rewrite Ht, lookup_unlink. by rewrite bool_decide_eq_true_2.
Qed.

(** ** The invariant *)

(** Steps that leave the waiters alone: the notify fields are as they were and a
    task that is over stays over, unless nothing has ever mentioned it. *)
Lemma inv_reg x s' fs' :
  wait_inv x → same_notify (reg x) s' →
  (∀ j, ¬ never_used x j → wait_over (reg x) j = true → wait_over s' j = true) →
  (∀ j f, fs' !! j = Some f → wait_over s' j = true) →
  (∀ j n, fs' !! j = Some (FTook (Some n)) ↔ finals x !! j = Some (FTook (Some n))) →
  (∀ j, (wait_over (reg x) j = false ∨ (∃ v, finals x !! j = Some (FCommitted v)) ∨
         finals x !! j = Some FEvicted) →
        (wait_over s' j = false ∨ (∃ v, fs' !! j = Some (FCommitted v)) ∨ fs' !! j = Some FEvicted)) →
  (∀ j, wait_over s' j = false → wait_over (reg x) j = false ∨ never_used x j) →
  wait_inv {| reg := s'; waiters := waiters x; finals := fs'; made := made x |}.
Proof.
  intros [I1 I2 I3 I4 I5 I6 I7 I8 I9 I10 I11] (Hcn & Hn & He & Hw) Hover Hfin Htook Hdue Hpend.
  constructor; simpl; unfold pending, enrolled, wake_due in *; simpl in *; rewrite ?Hcn, ?Hn, ?He, ?Hw in *; eauto.
  - intros i n Hf. apply I2. by apply Htook.
  - intros w i pc n Hwt Hh Hp. destruct (Hpend _ Hp) as [|Hnu]; [by eapply I6|].
    destruct Hnu as (_ & _ & _ & Hnu & _). by destruct (Hnu w pc).
  - intros w i n Hwt. destruct (I8 _ _ _ Hwt) as [|[? [[? ?]|?]]]; [by left|right..].
    + split; [done|]. left. split; [done|]. by apply Hdue.
    + split; [done|]. right. by apply Htook.
  - intros n w i Hwk Hm. apply Hover; [|by eapply I9]. intros (_ & _ & _ & _ & Hnu). by destruct (Hnu n).
  - intros w i Hd. apply Hover; [|by eapply I10]. intros (_ & _ & _ & Hnu & _). by destruct (Hnu w WDone).
Qed.

Lemma set_reg_eq x s : set_reg x s = {| reg := s; waiters := waiters x; finals := finals x; made := made x |}.
Proof. done. Qed.

Lemma inv_op x o : wait_inv x → plain_op o = true → wait_inv (set_reg x (run values (reg x) o)).
Proof.
  intros Hinv Hp. destruct (plain_frame (reg x) o Hp) as [Hn Ho]. rewrite set_reg_eq.
  apply (inv_reg x); try done; unfold same_over in Ho.
  - intros j _. by rewrite Ho.
  - intros j f Hf. rewrite Ho. by eapply wi_final.
  - intros j. by rewrite Ho.
  - intros j. rewrite Ho. by left.
Qed.

Lemma inv_spawn x i n nl u k t meta :
  wait_inv x → op_ok (reg x) (OSpawn i n nl u k t meta) → never_used x i →
  wait_inv (set_reg x (run values (reg x) (OSpawn i n nl u k t meta))).
Proof.
  intros Hinv Hok Hnu. destruct (spawn_frame _ _ _ _ _ _ _ _ Hok) as (Hn & Ho & Hi). rewrite set_reg_eq.
  unfold same_over in Ho.
  apply (inv_reg x); try done.
  - intros j Hj Hov. rewrite Ho; [done|]. by intros ->.
  - intros j f Hf. rewrite Ho; [by eapply wi_final|]. intros ->. destruct Hnu as (_ & Hnu & _). congruence.
  - intros j [Hj|Hj]; [|by right]. left. destruct (decide (j = i)) as [->|]; [done|by rewrite Ho].
  - intros j Hj. destruct (decide (j = i)) as [->|]; [by right|]. rewrite Ho in Hj by done. by left.
Qed.

Lemma inv_commit x i st r now s v :
  wait_inv x → tasks (reg x) !! i = Some st → completed st = false → finals x !! i = None →
  finalize_commit (reg x) i r now = Some (s, v) →
  wait_inv (set_final (set_reg x (finalize_publish s i (owner st) v now)) i (Some (FCommitted v))).
Proof.
  intros Hinv Hst Hc Hf Hcm. destruct (commit_frame _ _ _ _ _ _ _ Hst Hcm) as (Hn & Ho & Hi).
  unfold same_over in Ho. apply (inv_reg x); try done.
  - intros j _ Hov. destruct (decide (j = i)) as [->|]; [done|by rewrite Ho].
  - intros j f [[<- _]|[Hne Hj]]%lookup_insert_Some; [done|]. simpl in Hj. rewrite Ho by done. by eapply wi_final.
  - intros j m. simpl. rewrite lookup_insert_Some. split; [naive_solver|]. intros Hj. right.
    split; [|done]. intros ->. congruence.
  - intros j Hj. simpl. destruct (decide (j = i)) as [->|Hne].
    + right. left. rewrite lookup_insert_eq. by eexists.
    + rewrite lookup_insert_ne by done. by rewrite Ho.
  - cbn [reg set_reg]. intros j Hj. destruct (decide (j = i)) as [->|Hne]; [by rewrite Hi in Hj|]. rewrite Ho in Hj by done. by left.
Qed.

Lemma inv_evict x i v :
  wait_inv x → finals x !! i = Some (FCommitted v) →
  wait_inv (set_final (set_reg x (finalize_evict values (reg x) i v).1) i (Some FEvicted)).
Proof.
  intros Hinv Hf. destruct (evict_frame (reg x) i v) as (Hn & Ho & Hi).
  unfold same_over in Ho. apply (inv_reg x); try done.
  - intros j _ Hov. destruct (decide (j = i)) as [->|]; [done|by rewrite Ho].
  - intros j f [[<- _]|[Hne Hj]]%lookup_insert_Some; [done|]. simpl in Hj. rewrite Ho by done. by eapply wi_final.
  - intros j m. simpl. rewrite lookup_insert_Some. split; [naive_solver|]. intros Hj. right.
    split; [|done]. intros ->. congruence.
  - intros j Hj. simpl. destruct (decide (j = i)) as [->|Hne].
    + right. right. by rewrite lookup_insert_eq.
    + rewrite lookup_insert_ne by done. by rewrite Ho.
  - cbn [reg set_reg]. intros j Hj. destruct (decide (j = i)) as [->|Hne]; [by rewrite Hi in Hj|]. rewrite Ho in Hj by done. by left.
Qed.

(** Steps that only move one waiter. *)
Lemma inv_waiter x w i pc :
  wait_inv x →
  (∀ n, holds pc = Some n → made x !! n = Some i ∧ (pending x i → completion_notify (reg x) !! i = Some n)) →
  (∀ n, pc = WEnabled n → enrolled x n w) →
  (∀ n, pc = WAwait n → (n, w) ∈ woken (reg x) ∨ (n, w) ∈ enabled (reg x) ∧ wake_due x i n) →
  (pc = WDone → wait_over (reg x) i = true) →
  wait_inv (set_waiter x w (i, pc)).
Proof.
  intros [I1 I2 I3 I4 I5 I6 I7 I8 I9 I10 I11] H1 H2 H3 H4.
  constructor; simpl; eauto.
  - intros w' i' pc' n [[<- [= <- <-]]|[_ Hw]]%lookup_insert_Some Hh; [by apply H1|by eapply I3].
  - intros w' i' pc' n [[<- [= <- <-]]|[_ Hw]]%lookup_insert_Some Hh Hp; [by apply H1|by eapply I6].
  - intros w' i' n [[<- [= <- ->]]|[_ Hw]]%lookup_insert_Some; [by apply H2|by eapply I7].
  - intros w' i' n [[<- [= <- ->]]|[_ Hw]]%lookup_insert_Some; [by apply H3|by eapply I8].
  - intros w' i' [[<- [= <- ->]]|[_ Hw]]%lookup_insert_Some; [by apply H4|by eapply I10].
Qed.

Lemma inv_register x i s n :
  wait_inv x → wait_register (reg x) i = (s, n) →
  wait_inv {| reg := s; waiters := waiters x; finals := finals x; made := <[n := i]> (made x) |} ∧
  completion_notify s !! i = Some n.
Proof.
  intros Hinv. pose proof Hinv as [I1 I2 I3 I4 I5 I6 I7 I8 I9 I10 I11]. unfold wait_register.
  destruct (completion_notify (reg x) !! i) as [n0|] eqn:E.
  - intros [= <- <-]. split; [|done]. rewrite insert_id by auto. by destruct x.
  - intros [= <- <-]. simpl. rewrite lookup_insert_eq. split; [|done].
    assert (Hfresh : ∀ m j, made x !! m = Some j → m ≠ notifies (reg x)) by (intros m j Hm%I4; lia).
    assert (Hmade : ∀ m j, made x !! m = Some j → <[notifies (reg x) := i]> (made x) !! m = Some j).
    { intros m j Hm. rewrite lookup_insert_ne; [done|]. by apply not_eq_sym, (Hfresh m j). }
    constructor; simpl; unfold pending, enrolled, wake_due in *; simpl in *.
    + intros j m [[<- <-]|[Hne Hj]]%lookup_insert_Some; [by rewrite lookup_insert_eq|auto].
    + eauto.
    + eauto.
    + intros m j [[<- <-]|[Hne Hj]]%lookup_insert_Some; [lia|]. apply I4 in Hj. lia.
    + done.
    + intros w j pc m Hw Hh Hp. rewrite lookup_insert_ne; [by eapply I6|].
      intros ->. assert (completion_notify (reg x) !! j = Some m) by (by eapply I6). congruence.
    + done.
    + intros w j m Hw. destruct (I8 _ _ _ Hw) as [|[? [[? ?]|?]]]; [by left|right..]; split; try done; [left|by right].
      split; [|done]. rewrite lookup_insert_ne; [done|]. intros ->. congruence.
    + intros m w j Hwk Hm. destruct (I11 m w) as [j' Hj']; [by right|].
      rewrite (Hmade _ _ Hj') in Hm. injection Hm as <-. by eapply I9.
    + done.
    + intros m w He. destruct (I11 m w He) as [j Hj]. eauto.
Qed.

Lemma inv_enable x i n w :
  wait_inv x → made x !! n = Some i → wait_inv (set_reg x (wait_enable (reg x) n w)).
Proof.
  intros [I1 I2 I3 I4 I5 I6 I7 I8 I9 I10 I11] Hm.
  constructor; simpl; unfold pending, enrolled, wake_due in *; simpl in *; auto.
  - intros w' j m Hw. destruct (I7 _ _ _ Hw); [left; set_solver|by right].
  - intros w' j m Hw. destruct (I8 _ _ _ Hw) as [|[? ?]]; [by left|right]. split; [set_solver|done].
  - intros m w' [[He|[= -> ->]%elem_of_singleton]%elem_of_union|He]; [by eapply I11; left|by eexists|by eapply I11; right].
Qed.

Lemma inv_take x i :
  wait_inv x → finals x !! i = Some FEvicted →
  wait_inv (set_final (set_reg x (finalize_take_notify (reg x) i).1) i
              (Some (FTook (finalize_take_notify (reg x) i).2))).
Proof.
  intros [I1 I2 I3 I4 I5 I6 I7 I8 I9 I10 I11] Hf.
  constructor; simpl; unfold pending, enrolled, wake_due in *; simpl in *; auto.
  - intros j n [_ Hj]%lookup_delete_Some. auto.
  - intros j n [[<- [= Hj]]|[_ Hj]]%lookup_insert_Some; auto.
  - intros j f [[<- _]|[_ Hj]]%lookup_insert_Some; eapply I5; eauto.
  - intros w j pc n Hw Hh Hp. rewrite lookup_delete_ne; [by eapply I6|].
    intros ->. assert (wait_over (reg x) j = true) by (by eapply I5). unfold wait_over in *. simpl in *. congruence.
  - intros w j n Hw. destruct (I8 _ _ _ Hw) as [|[He Hd]]; [by left|right; split; [done|]].
    destruct (decide (j = i)) as [->|Hne].
    + right. rewrite lookup_insert_eq. destruct Hd as [[-> _]|Hd]; [done|congruence].
    + rewrite lookup_delete_ne, lookup_insert_ne by done. done.
Qed.

Lemma inv_notify x i n :
  wait_inv x → finals x !! i = Some (FTook n) →
  wait_inv (set_final (set_reg x (match n with Some n => notify_waiters (reg x) n | None => reg x end)) i None).
Proof.
  intros [I1 I2 I3 I4 I5 I6 I7 I8 I9 I10 I11] Hf.
  assert (Hfin : ∀ j f, delete i (finals x) !! j = Some f → finals x !! j = Some f)
    by (by intros j f [_ Hj]%lookup_delete_Some).
  destruct n as [n|]; constructor; simpl; unfold pending, enrolled, wake_due in *; simpl in *; eauto.
  - intros w j m Hw. destruct (decide (m = n)) as [->|Hne].
    + right. destruct (I7 _ _ _ Hw); [|set_solver]. apply elem_of_union_r, elem_of_filter. done.
    + destruct (I7 _ _ _ Hw); [left; apply elem_of_filter; done|right; set_solver].
  - intros w j m Hw. destruct (I8 _ _ _ Hw) as [|[He Hd]]; [left; set_solver|].
    destruct (decide (m = n)) as [->|Hne].
    + left. apply elem_of_union_r, elem_of_filter. done.
    + right. split; [by apply elem_of_filter|]. destruct (decide (j = i)) as [->|Hji].
      * rewrite lookup_delete_eq. destruct Hd as [[Hcn [Hp|[[v Hv]|Hv]]]|Hd]; [|congruence..].
        left. split; [done|]. by left.
      * rewrite lookup_delete_ne by done. done.
  - intros m w j [Hwk|[Hmn _]%elem_of_filter]%elem_of_union Hm; [by eapply I9|]. simpl in Hmn. subst m.
    apply I2 in Hf as Hm'. rewrite Hm in Hm'. injection Hm' as ->. by eapply I5.
  - intros m w [[_ He]%elem_of_filter|[He|[_ He]%elem_of_filter]%elem_of_union]; eapply I11; eauto.
  - intros w j m Hw. destruct (I8 _ _ _ Hw) as [|[He Hd]]; [by left|right; split; [done|]].
    destruct (decide (j = i)) as [->|Hji].
    + rewrite lookup_delete_eq. destruct Hd as [[Hcn [Hp|[[v Hv]|Hv]]]|Hd]; [|congruence..].
      left. split; [done|]. by left.
    + rewrite lookup_delete_ne by done. done.
Qed.

Lemma wreach_inv x : wreach x → wait_inv x.
Proof.
  induction 1 as [s Ht Hc He Hw|x y _ Hinv Hstep].
  { constructor; simpl; unfold enrolled, wait_over; simpl; rewrite ?Hc, ?Ht, ?He, ?Hw; try done.
    intros n w [?|?]; set_solver. }
  destruct Hstep as [x o _ Hp|x i n nl u k t meta Hok Hnu|x w i Hw _|x w i Hw|x w i s n Hw Hreg|x w i n Hw
    |x w i n Hw|x w i n Hw Hwk|x i st r now s v Hst Hc Hf Hcm|x i v Hf|x i Hf|x i n Hf].
  - by apply inv_op.
  - by apply inv_spawn.
  - by apply inv_waiter.
  - apply inv_waiter; try done; by destruct (wait_over (reg x) i).
  - destruct (inv_register x i s n Hinv Hreg) as [Hinv' Hn].
    apply (inv_waiter _ w i (WGot n) Hinv'); try done. intros m [= <-]. simpl. by rewrite lookup_insert_eq.
  - assert (Hm : made x !! n = Some i) by (by eapply wi_holds).
    apply inv_waiter; try done; [by eapply inv_enable|..].
    + intros m [= <-]. split; [done|]. intros Hp. by eapply (wi_got x Hinv w i (WGot n)).
    + intros m [= <-]. left. simpl. set_solver.
  - assert (Hm : made x !! n = Some i) by (by eapply wi_holds).
    destruct (wait_over (reg x) i) eqn:E; apply inv_waiter; try done.
    + intros m [= <-]. split; [done|]. intros Hp. by eapply (wi_got x Hinv w i (WEnabled n)).
    + intros m [= <-]. destruct (wi_enabled x Hinv _ _ _ Hw) as [He|He]; [right|by left]. split; [done|].
      left. split; [by eapply (wi_got x Hinv w i (WEnabled n))|by left].
  - apply inv_waiter; try done. intros _. eapply wi_woken; [done|done|]. by eapply (wi_holds x Hinv w i (WAwait n)).
  - by eapply inv_commit.
  - by apply inv_evict.
  - by apply inv_take.
  - by apply inv_notify.
Qed.

(** No lost wake-up, no early return.  In every interleaving, a [wait] that
    has returned, or that has been woken, waited for a task that is terminal or
    gone; and once the task's finalizer has run to its end, every waiter
    suspended on that task has been woken, however its enrolment interleaved with
    the finalizer's steps. *)
Theorem wait_returns_exactly_when_finished x :
  wreach x →
  (∀ w i, waiters x !! w = Some (i, WDone) → wait_over (reg x) i = true) ∧
  (∀ w i n, waiters x !! w = Some (i, WAwait n) → (n, w) ∈ woken (reg x) → wait_over (reg x) i = true) ∧
  (∀ w i n, waiters x !! w = Some (i, WAwait n) → wait_over (reg x) i = true → finals x !! i = None →
     (n, w) ∈ woken (reg x)).
Proof.
  intros Hinv%wreach_inv. split_and!.
  - intros w i. by apply wi_done.
  - intros w i n Hw Hwk. eapply wi_woken; [done|done|]. by eapply (wi_holds x Hinv w i (WAwait n)).
  - intros w i n Hw Hov Hf. destruct (wi_await x Hinv _ _ _ Hw) as [|[_ Hd]]; [done|].
    unfold wake_due, pending in Hd. destruct Hd as [[_ [?|[[v ?]|?]]]|?]; congruence.
Qed.

End waiting.

(** ** A concrete interleaving: the waiter enrols, then the finalizer runs. *)

Import Concrete Sqlite.

Notation values := Concrete.values.

Definition w0 := start fresh.
Definition w1 := set_reg w0 (run values (reg w0) spawn_a).
Definition w2 := set_waiter w1 0 ("a", WStart).
Definition w3 := set_waiter w2 0 ("a", WSlow).
Definition w4 := set_made (set_waiter (set_reg w3 (wait_register (reg w3) "a").1) 0 ("a", WGot 0)) (<[0 := "a"]> (made w3)).
Definition w5 := set_waiter (set_reg w4 (wait_enable (reg w4) 0 0)) 0 ("a", WEnabled 0).
Definition w6 := set_waiter w5 0 ("a", WAwait 0).
Definition a6 := state_of (reg w6) "a".
Definition w7 := set_final (set_reg w6 (finalize_publish (set_tasks (reg w6) (<["a" := committed a6 (Ok tt) 70%Z]> (tasks (reg w6))))
  "a" "alice" (view (committed a6 (Ok tt) 70%Z)) 70%Z)) "a" (Some (FCommitted (view (committed a6 (Ok tt) 70%Z)))).
Definition w8 := set_final (set_reg w7 (finalize_evict values (reg w7) "a" (view (committed a6 (Ok tt) 70%Z))).1) "a" (Some FEvicted).
Definition w9 := set_final (set_reg w8 (finalize_take_notify (reg w8) "a").1) "a" (Some (FTook (finalize_take_notify (reg w8) "a").2)).
Definition w10 := set_final (set_reg w9 (notify_waiters (reg w9) 0)) "a" None.

Lemma w6_reach : wreach values w6.
Proof.
  apply wr_step with w5; [|apply (ws_check values w5 0 "a" 0); reflexivity].
  apply wr_step with w4; [|apply (ws_enable values w4 0 "a" 0); reflexivity].
  apply wr_step with w3; [|apply (ws_register values w3 0 "a" _ 0); reflexivity].
  apply wr_step with w2; [|apply (ws_fast values w2 0 "a"); reflexivity].
  apply wr_step with w1; [|apply (ws_call values w1 0 "a"); [reflexivity|vm_compute; by eexists]].
  apply wr_step with w0; [|apply (ws_spawn values w0 "a"); [apply ok_a|by split_and!]].
  by apply wr_start.
Qed.

Lemma wait_returns_exactly_when_finished_witness : (0, 0) ∈ woken (reg w10).
Proof.
  apply (wait_returns_exactly_when_finished values w10) with "a"; [|vm_compute; reflexivity..].
  apply wr_step with w9; [|apply (ws_notify values w9 "a" (Some 0)); vm_compute; reflexivity].
  apply wr_step with w8; [|apply (ws_take values w8 "a"); vm_compute; reflexivity].
  apply wr_step with w7; [|apply (ws_evict values w7 "a"); vm_compute; reflexivity].
  apply wr_step with w6; [apply w6_reach|].
  apply (ws_commit values w6 "a" a6 (Ok tt) 70); vm_compute; reflexivity.
Defined.
