(* ===== verification/Messages.v ===== *)
(** * Messages, conversations and the round's projection

    Models [crates/core/src/domain/message.rs], the message-related part of
    [domain/conversation.rs] and [domain/tool.rs], and
    [crates/core/src/context/projection.rs]: what is stored, and what the model
    reads instead of it for the rest of a turn. *)

From S2P Require Import Prelude.

Inductive Role := User | Assistant | System | Tool.

#[export] Instance Role_eq_dec : EqDecision Role.
Proof. solve_decision. Defined.

Record ToolCall := { call_id : string; call_name : string; call_arguments : string }.

#[export] Instance ToolCall_eq_dec : EqDecision ToolCall.
Proof. solve_decision. Defined.

Record Message := {
  id : string;
  role : Role;
  content : string;
  tool_calls : list ToolCall;
  tool_call_id : option string;
  summary_id : option string;
  idempotency_key : option string;
  distilled_into : list string
}.

#[export] Instance Message_eq_dec : EqDecision Message.
Proof. solve_decision. Defined.

(** The constructors; the id is the one [new_message_id] mints. *)
Definition Message_new (i : string) (r : Role) (c : string) : Message :=
  {| id := i; role := r; content := c; tool_calls := []; tool_call_id := None;
     summary_id := None; idempotency_key := None; distilled_into := [] |}.

Definition assistant_with_tool_calls (i : string) (calls : list ToolCall) : Message :=
  {| id := i; role := Assistant; content := EmptyString; tool_calls := calls; tool_call_id := None;
     summary_id := None; idempotency_key := None; distilled_into := [] |}.

Definition tool_result (i call c : string) : Message :=
  {| id := i; role := Tool; content := c; tool_calls := []; tool_call_id := Some call;
     summary_id := None; idempotency_key := None; distilled_into := [] |}.

Definition with_content (m : Message) (c : string) : Message :=
  {| id := id m; role := role m; content := c; tool_calls := tool_calls m;
     tool_call_id := tool_call_id m; summary_id := summary_id m;
     idempotency_key := idempotency_key m; distilled_into := distilled_into m |}.

Record MessageSummary := { sum_id : string; sum_text : string }.

Record Conversation := {
  conv_id : string;
  conv_title : string;
  created_at : string;
  updated_at : string;
  messages : list Message;
  context_summary : string;
  compacted_through : nat;
  summaries : list MessageSummary;
  archived_at : option string;
  active_task : option string;
  tags : list string
}.

Definition Conversation_new (i t : string) : Conversation :=
  {| conv_id := i; conv_title := t; created_at := EmptyString; updated_at := EmptyString;
     messages := []; context_summary := EmptyString; compacted_through := 0; summaries := [];
     archived_at := None; active_task := None; tags := [] |}.

Definition set_messages (c : Conversation) (ms : list Message) : Conversation :=
  {| conv_id := conv_id c; conv_title := conv_title c; created_at := created_at c;
     updated_at := updated_at c; messages := ms; context_summary := context_summary c;
     compacted_through := compacted_through c; summaries := summaries c;
     archived_at := archived_at c; active_task := active_task c; tags := tags c |}.

Definition set_summary (c : Conversation) (s : string) (n : nat) : Conversation :=
  {| conv_id := conv_id c; conv_title := conv_title c; created_at := created_at c;
     updated_at := updated_at c; messages := messages c; context_summary := s;
     compacted_through := n; summaries := summaries c;
     archived_at := archived_at c; active_task := active_task c; tags := tags c |}.

(** ** The round's projection *)

(** [replaced]: the replacement content by message id. *)
Notation ContextProjection := (gmap string string) (only parsing).

Definition projected_content (p : ContextProjection) (m : Message) : string :=
  default (content m) (p !! id m).

Definition is_replaced (p : ContextProjection) (m : Message) : bool :=
  bool_decide (is_Some (p !! id m)).

Definition replace (p : ContextProjection) (m : Message) (c : string) : ContextProjection :=
  <[id m := c]> p.

Definition replaced_count (p : ContextProjection) : nat := size p.

Lemma projected_content_replace p m c m' :
  projected_content (replace p m c) m' =
  if bool_decide (id m' = id m) then c else projected_content p m'.
Proof.
  unfold projected_content, replace. case_bool_decide as H.
  - by rewrite H, lookup_insert_eq.
  - by rewrite lookup_insert_ne by done.
Qed.

Lemma is_replaced_replace p m c m' :
  is_replaced (replace p m c) m' = bool_decide (id m' = id m) || is_replaced p m'.
Proof.
  unfold is_replaced, replace. destruct (decide (id m' = id m)) as [H|H].
  - rewrite H, lookup_insert_eq. by rewrite !bool_decide_eq_true_2 by (done || by eexists).
  - rewrite lookup_insert_ne by done. by rewrite (bool_decide_eq_false_2 (id m' = id m)).
Qed.

Lemma not_replaced_content p m : is_replaced p m = false → projected_content p m = content m.
Proof.
  unfold is_replaced, projected_content. intros H%bool_decide_eq_false.
  by apply eq_None_not_Some in H as ->.
Qed.
