(* ===== verification/Context.v ===== *)
(** * Context management

    Models the parts of [crates/core/src/context/mod.rs] that decide what the
    model reads and what the stored conversation keeps: the two byte caps on a
    tool result and their notices, the projection of oversized results, the
    message window, the rolling summary and its marker, and the ladder that
    recovers from a provider's context overflow.

    Token estimates ([LlmClient::estimate_tokens], overridable by a connector)
    and the summariser ([stream_completion]) are section variables.  Byte
    lengths and indices are [nat]; token counts are 64-bit and kept as [Z] with
    their saturating operations. *)

From S2P Require Import Prelude Messages.

(** ** Constants *)

Definition MAX_CONTEXT_MESSAGES : nat := 40.
Definition MIN_CONTEXT_MESSAGES : nat := 8.
Definition COMPACTION_INTERVAL : nat := 20.
Definition ESTIMATE_SAFETY_MARGIN : Z := 2.
Definition MIN_TRUNCATION_TOKENS : Z := 1024.
Definition DEFAULT_MAX_TOOL_RESULT_BYTES : Z := 256 * 1024.
Definition DEFAULT_MAX_STORED_TOOL_RESULT_BYTES : Z := 1024 * 1024.
Definition TRANSPORT_FRAME_CAP_BYTES : Z := 4 * 1024 * 1024.
Definition SUMMARY_PROSE_BYTES : nat := 2000.
Definition MAX_COMPACTION_SPAN : nat := 100.
Definition SUMMARY_TOOL_RESULT_BYTES : nat := 600.
Definition SUMMARY_TOOL_ARGS_BYTES : nat := 200.
Definition COMPACTION_MIN_EVICT_BYTES : nat := 512.
Definition TRANSCRIPT_GET_TOOL : string := "builtin_transcript_get".

Definition nl : string := bytes [10].
Definition show (n : nat) : string := pretty n.

(** ** Notices *)

Definition STORAGE_CAP_NOTICE_PREFIX : string := "<tool output too large to keep:".

Definition tool_result_truncation_notice (message_id : string) (stored_bytes : nat) : string :=
  nl +:+ nl +:+ "<tool output truncated: " +:+ show stored_bytes +:+ " bytes exceeded the per-result context cap, so only the beginning is shown here. The whole of it is stored under this message: read the rest back in ranges with "
  +:+ TRANSCRIPT_GET_TOOL +:+ " message_id=" +:+ dq +:+ message_id +:+ dq +:+ " rather than running the tool again. Where the tool does take a narrowing parameter, asking for less next time is still worth doing - a smaller byte/line range, a filtered listing, or only the fields you need.>".

Definition remnant_truncation_notice (message_id : string) (stored_bytes : nat) : string :=
  nl +:+ nl +:+ "<tool output truncated twice: the tool returned more than could be stored, so part of it was dropped for good before this message was written - the note at the top of this message says how many bytes the tool produced and how many were dropped. Of the "
  +:+ show stored_bytes +:+ " bytes that were kept, only the beginning is shown here. Read the KEPT bytes back in ranges with "
  +:+ TRANSCRIPT_GET_TOOL +:+ " message_id=" +:+ dq +:+ message_id +:+ dq +:+ " - that is all there is, and no reader can hand back the dropped ones. To see what was dropped, re-run the tool with a narrower request - a smaller byte/line range, a filtered listing, or only the fields you need.>".

Definition tool_result_storage_notice (original_bytes dropped_bytes : nat) : string :=
  STORAGE_CAP_NOTICE_PREFIX +:+ " the tool produced " +:+ show original_bytes +:+ " bytes, and the last "
  +:+ show dropped_bytes +:+ " of them were past the per-result storage cap. Those bytes were dropped before this message was written - they are in no message, in no store, and behind no reader, so nothing can hand them back. What follows is the beginning of the output. Re-run the tool with a narrower request - e.g. a smaller byte/line range, a filtered listing, or only the fields you need - to see what is missing.>"
  +:+ nl +:+ nl.

Definition overflow_truncation_notice (message_id : string) (original_bytes : nat)
    (prompt_tokens max_tokens : option Z) : string :=
  let measured :=
    match prompt_tokens, max_tokens with
    | Some p, Some m => " (prompt was " +:+ pretty p +:+ " tokens vs " +:+ pretty m +:+ " max)"
    | _, _ => EmptyString
    end in
  "<tool output omitted: " +:+ show original_bytes +:+ " bytes exceeded the model's context window" +:+ measured
  +:+ ". The call above and its arguments are unchanged. Read the output back in ranges with "
  +:+ TRANSCRIPT_GET_TOOL +:+ " message_id=" +:+ dq +:+ message_id +:+ dq
  +:+ " rather than running the tool again. Where you do need to run it again, ask for a narrower request — for example read the file in smaller byte/line ranges, list a single directory level with filters, or query for only the fields you need.>".

Definition overflow_compaction_notice (message_id : string) (original_bytes : nat) : string :=
  "<earlier tool output omitted: " +:+ show original_bytes +:+ " bytes are out of view to fit the model's context window. The call above and its arguments are unchanged. Read the output back with "
  +:+ TRANSCRIPT_GET_TOOL +:+ " message_id=" +:+ dq +:+ message_id +:+ dq +:+ " rather than running the tool again.>".

(** ** Byte caps *)

(** [&content[..cut]] for the largest boundary at or below [min(budget, len)]. *)
Definition cut_at (content : string) (budget : nat) : nat :=
  floor_boundary content (Nat.min budget (String.length content)).

Definition head_with_notice (content : string) (max_bytes : nat) (notice : string) : string :=
  let body_budget := max_bytes - String.length notice in
  str_prefix (cut_at content body_budget) content +:+ notice.

Definition cap_tool_result (content message_id : string) (max_bytes : nat) : option string :=
  if String.length content <=? max_bytes then None
  else
    let notice :=
      if starts_with content STORAGE_CAP_NOTICE_PREFIX
      then remnant_truncation_notice message_id (String.length content)
      else tool_result_truncation_notice message_id (String.length content) in
    Some (head_with_notice content max_bytes notice).

Definition cap_stored_tool_result (content : string) (max_bytes : nat) : option string :=
  if String.length content <=? max_bytes then None
  else
    let widest := tool_result_storage_notice (String.length content) (String.length content) in
    let cut := cut_at content (max_bytes - String.length widest) in
    let notice := tool_result_storage_notice (String.length content) (String.length content - cut) in
    Some (notice +:+ str_prefix cut content).

Fixpoint project_oversized_tool_results (messages : list Message) (p : ContextProjection)
    (max_bytes : nat) : ContextProjection * nat :=
  match messages with
  | [] => (p, 0)
  | msg :: rest =>
      if bool_decide (role msg ≠ Tool) || is_replaced p msg
      then project_oversized_tool_results rest p max_bytes
      else
        match cap_tool_result (content msg) (id msg) max_bytes with
        | None => project_oversized_tool_results rest p max_bytes
        | Some head =>
            if String.length (content msg) <=? String.length head
            then project_oversized_tool_results rest p max_bytes
            else
              let '(p', n) := project_oversized_tool_results rest (replace p msg head) max_bytes in
              (p', S n)
        end
  end.

(** ** The window *)

Definition window_start (messages : list Message) (max_messages : nat) : nat :=
  let max := Nat.max max_messages MIN_CONTEXT_MESSAGES in
  if length messages <=? max then 0
  else
    let tentative := length messages - max in
    let search := drop tentative messages in
    match position (λ m, bool_decide (role m = User)) search with
    | Some offset => tentative + offset
    | None =>
        match position (λ m, bool_decide (role m ≠ Tool)) search with
        | Some offset => tentative + offset
        | None => default 0 (rposition (λ m, bool_decide (role m ≠ Tool)) (take tentative messages))
        end
    end.

Definition compaction_range (conv : Conversation) (max_messages : nat) : option (nat * nat) :=
  let start := window_start (messages conv) max_messages in
  if start =? 0 then None
  else if compacted_through conv =? 0 then Some (0, start)
  else if (compacted_through conv + COMPACTION_INTERVAL <=? start)
          || ((max_messages <? MAX_CONTEXT_MESSAGES) && (compacted_through conv <? start))
       then Some (compacted_through conv, start)
       else None.

(** ** The rolling summary *)

Definition truncate_on_char_boundary (s : string) (max_bytes : nat) : string :=
  if String.length s <=? max_bytes then s else str_prefix (floor_boundary s max_bytes) s.

Definition push_truncated (out text : string) (max_bytes : nat) : string :=
  if max_bytes <? String.length text
  then out +:+ truncate_on_char_boundary text max_bytes +:+ "...[truncated]"
  else out +:+ text.

Fixpoint render_calls (i : nat) (calls : list ToolCall) (out : string) : string :=
  match calls with
  | [] => out
  | call :: rest =>
      let out := if 0 <? i then out +:+ ", " else out in
      let out := out +:+ call_name call +:+ "(" in
      let out := push_truncated out (call_arguments call) SUMMARY_TOOL_ARGS_BYTES in
      render_calls (S i) rest (out +:+ ")")
  end.

Definition is_empty (s : string) : bool := bool_decide (s = EmptyString).

Definition transcript_line (out : string) (msg : Message) : string :=
  match role msg with
  | User => push_truncated (out +:+ "User: ") (content msg) SUMMARY_PROSE_BYTES +:+ nl
  | Assistant =>
      let out :=
        if is_empty (content msg) then out
        else push_truncated (out +:+ "Assistant: ") (content msg) SUMMARY_PROSE_BYTES +:+ nl in
      if bool_decide (tool_calls msg = []) then out
      else render_calls 0 (tool_calls msg) (out +:+ "Assistant called: ") +:+ nl
  | Tool =>
      if is_empty (content msg) then out
      else push_truncated (out +:+ "Tool result: ") (content msg) SUMMARY_TOOL_RESULT_BYTES +:+ nl
  | System => out
  end.

Definition summary_transcript (messages : list Message) : string :=
  foldl transcript_line EmptyString messages.

Inductive SummaryOutcome :=
| Summarised (s : string)
| NothingToSummarise
| SummaryFailed.

Definition summary_prompt (existing_summary transcript : string) : string :=
  (if is_empty existing_summary then "Messages to summarize:" +:+ nl
   else "Existing summary of earlier messages:" +:+ nl +:+ existing_summary +:+ nl +:+ nl
        +:+ "New messages to incorporate:" +:+ nl)
  +:+ transcript.

Section summariser.
(** The task model: the text it answers a summarisation prompt with, or [None]
    for an error.  The system message of the request is a constant. *)
Context (llm : string → option string).

Definition generate_context_summary (existing_summary : string) (ms : list Message) : SummaryOutcome :=
  let transcript := summary_transcript ms in
  if is_empty transcript then NothingToSummarise
  else
    match llm (summary_prompt existing_summary transcript) with
    | Some text => if is_empty (trim text) then SummaryFailed else Summarised (trim text)
    | None => SummaryFailed
    end.

Inductive FoldResult := Moved | Nothing | FoldFailed.

#[export] Instance FoldResult_eq_dec : EqDecision FoldResult.
Proof. solve_decision. Defined.

Definition slice (ms : list Message) (from to : nat) : list Message := take (to - from) (drop from ms).

Definition compact_range_into_summary (conv : Conversation) (from to : nat) : Conversation * FoldResult :=
  let to := Nat.min (Nat.min to (from + MAX_COMPACTION_SPAN)) (length (messages conv)) in
  if to <=? from then (conv, Nothing)
  else
    match generate_context_summary (context_summary conv) (slice (messages conv) from to) with
    | Summarised s => (set_summary conv s to, Moved)
    | NothingToSummarise => (conv, Nothing)
    | SummaryFailed => (conv, FoldFailed)
    end.

Definition compact_into_summary (conv : Conversation) (max_messages : nat) : Conversation * bool :=
  match compaction_range conv max_messages with
  | None => (conv, false)
  | Some (from, to) =>
      let '(conv, r) := compact_range_into_summary conv from to in (conv, bool_decide (r = Moved))
  end.

Inductive PreflightFold := NotNeeded | Folded | Declined.

Definition compact_preflight_shrink (conv : Conversation) (window_from requested_window : nat)
    : Conversation * PreflightFold :=
  if window_from <=? window_start (messages conv) requested_window then (conv, NotNeeded)
  else if window_from <=? compacted_through conv then (conv, NotNeeded)
  else
    let '(conv, r) := compact_range_into_summary conv (compacted_through conv) window_from in
    (conv, match r with Moved => Folded | Nothing => NotNeeded | FoldFailed => Declined end).

(** ** Overflow recovery *)

Context (estimate : string → Z).

(** [filter_map] over the enumerated messages. *)
Definition tool_candidates (ms : list Message) (p : ContextProjection) (min_tokens : Z) : list (nat * Z) :=
  omap (λ im : nat * Message,
    if bool_decide (role im.2 ≠ Tool) then None
    else let tokens := estimate (projected_content p im.2) in
         if (min_tokens <=? tokens)%Z then Some (im.1, tokens) else None)
    (imap (λ i m, (i, m)) ms).

(** [Iterator::max_by_key]: the last of the maximal elements. *)
Fixpoint max_by_tokens (best : option (nat * Z)) (l : list (nat * Z)) : option (nat * Z) :=
  match l with
  | [] => best
  | x :: rest =>
      max_by_tokens (match best with
                     | Some b => if (x.2 <? b.2)%Z then Some b else Some x
                     | None => Some x
                     end) rest
  end.

Definition find_largest_tool_result_above (ms : list Message) (p : ContextProjection) (min_tokens : Z)
    : option nat :=
  fst <$> max_by_tokens None (tool_candidates ms p min_tokens).

Definition is_worth_compacting (m : Message) (p : ContextProjection) : bool :=
  bool_decide (role m = Tool) && (COMPACTION_MIN_EVICT_BYTES <=? String.length (projected_content p m)).

(** The leading [Role::Tool] messages. *)
Fixpoint tool_run (ms : list Message) : list Message :=
  match ms with
  | m :: rest => if bool_decide (role m = Tool) then m :: tool_run rest else []
  | [] => []
  end.

(** The assistant-with-calls groups, oldest first, that hold something worth
    compacting; the scan resumes after a group's results.  The fuel is the
    number of messages. *)
Fixpoint tool_groups (fuel : nat) (ms : list Message) (p : ContextProjection) : list (list Message) :=
  match fuel, ms with
  | S f, m :: rest =>
      if bool_decide (role m = Assistant) && bool_decide (tool_calls m ≠ [])
      then
        let results := tool_run rest in
        let more := tool_groups f (drop (length results) rest) p in
        if existsb (λ x, is_worth_compacting x p) (m :: results) then (m :: results) :: more else more
      else tool_groups f rest p
  | _, _ => []
  end.

Record CompactionResult := { compacted : nat; freed_bytes : nat; freed_tokens : Z }.
Definition CompactionResult_default : CompactionResult :=
  {| compacted := 0; freed_bytes := 0; freed_tokens := 0 |}.

Definition compact_message (acc : ContextProjection * CompactionResult) (msg : Message)
    : ContextProjection * CompactionResult :=
  let '(p, r) := acc in
  if negb (is_worth_compacting msg p) then acc
  else
    let current := String.length (projected_content p msg) in
    let current_tokens := estimate (projected_content p msg) in
    let notice := overflow_compaction_notice (id msg) current in
    if String.length notice <? current
    then (replace p msg notice,
          {| compacted := S (compacted r);
             freed_bytes := freed_bytes r + (current - String.length notice);
             freed_tokens := freed_tokens r + sat_sub current_tokens (estimate notice) |})
    else acc.

Definition compact_oldest_tool_groups (ms : list Message) (p : ContextProjection)
    : ContextProjection * CompactionResult :=
  let groups := tool_groups (length ms) ms p in
  if length groups <=? 1 then (p, CompactionResult_default)
  else foldl compact_message (p, CompactionResult_default) (concat (take (length groups / 2) groups)).

Inductive RecoveryOutcome := Progressed | Exhausted.
Record Recovery := { outcome : RecoveryOutcome; rec_compacted : bool }.

(** Step 1: the largest in-window tool result. *)
Definition recover_step1 (window : list Message) (p : ContextProjection) (prompt_tokens max_tokens : option Z)
    : ContextProjection * Z :=
  match find_largest_tool_result_above window p MIN_TRUNCATION_TOKENS with
  | None => (p, 0%Z)
  | Some idx =>
      match window !! idx with
      | None => (p, 0%Z)
      | Some msg =>
          let original_bytes := String.length (projected_content p msg) in
          let before := estimate (projected_content p msg) in
          let notice := overflow_truncation_notice (id msg) original_bytes prompt_tokens max_tokens in
          let freed := sat_sub before (estimate notice) in
          if (0 <? freed)%Z then (replace p msg notice, freed) else (p, 0%Z)
      end
  end.

Definition recover_from_overflow (conv : Conversation) (p : ContextProjection)
    (prompt_tokens max_tokens : option Z) (window_from target_window : nat)
    : Conversation * ContextProjection * nat * Recovery :=
  let window_from := Nat.min window_from (length (messages conv)) in
  let window := drop window_from (messages conv) in
  let '(p, freed) := recover_step1 window p prompt_tokens max_tokens in
  let '(p, freed) :=
    if (freed =? 0)%Z
    then let '(p, r) := compact_oldest_tool_groups window p in (p, freed_tokens r)
    else (p, freed) in
  let deficit :=
    match prompt_tokens, max_tokens with
    | Some prompt, Some max => if (max <? prompt)%Z then Some (prompt - max)%Z else None
    | _, _ => None
    end in
  let enough := match deficit with
                | Some gap => (sat_mul u64_max gap ESTIMATE_SAFETY_MARGIN <=? freed)%Z
                | None => false
                end in
  if enough then (conv, p, target_window, {| outcome := Progressed; rec_compacted := false |})
  else
    let new_window := Nat.max (target_window / 2) MIN_CONTEXT_MESSAGES in
    let shrank := new_window <? target_window in
    let target_window := if shrank then new_window else target_window in
    let '(conv, _) := compact_into_summary conv target_window in
    (conv, p, target_window,
     {| outcome := if (0 <? freed)%Z || shrank then Progressed else Exhausted; rec_compacted := shrank |}).

End summariser.

(** ** The pre-flight shrink loop

    [assemble] is one assembly pass at a window size, with what its breakdown
    says it costs; [threshold] is [COMPACTION_TOKEN_RATIO] of the budget. *)

Definition MAX_PREFLIGHT_SHRINK_ITERATIONS : nat := 5.

Section preflight.
Context {Pass : Type} (assemble : nat → Pass) (total_tokens : Pass → Z).

Fixpoint shrink (n : nat) (threshold : Z) (assembled : Pass) (current_max : nat) : Pass * nat :=
  match n with
  | O => (assembled, current_max)
  | S n' =>
      if (total_tokens assembled <=? threshold)%Z then (assembled, current_max)
      else if current_max <=? MIN_CONTEXT_MESSAGES then (assembled, current_max)
      else
        let new_max := Nat.max (current_max / 2) MIN_CONTEXT_MESSAGES in
        if new_max =? current_max then (assembled, current_max)
        else shrink n' threshold (assemble new_max) new_max
  end.

(** [assemble_turn_within_budget]: the pass sent and where its window starts. *)
Definition assemble_turn_within_budget (ms : list Message) (max_messages : nat) (threshold : option Z)
    : Pass * nat :=
  let assembled := assemble max_messages in
  let '(pass, m) :=
    match threshold with
    | None => (assembled, max_messages)
    | Some t => shrink MAX_PREFLIGHT_SHRINK_ITERATIONS t assembled max_messages
    end in
  (pass, window_start ms m).

End preflight.

(** ** The caps *)

Lemma cut_at_boundary c b : is_char_boundary c (cut_at c b) = true.
Proof. apply floor_boundary_is_boundary. Qed.

Lemma cut_at_le c b : cut_at c b ≤ b ∧ cut_at c b ≤ String.length c.
Proof. unfold cut_at. pose proof (floor_boundary_le c (b `min` String.length c)). lia. Qed.

Lemma cut_at_greatest c b i :
  i ≤ b → i ≤ String.length c → is_char_boundary c i = true → i ≤ cut_at c b.
Proof. intros. apply floor_boundary_greatest; [lia|done]. Qed.

Lemma prefix_cut_length c b : String.length (str_prefix (cut_at c b) c) = cut_at c b.
Proof. apply str_prefix_length, cut_at_le. Qed.

(** What the model reads of an oversized tool result.  A result is read whole
    exactly when it fits the cap.  Otherwise the model reads its longest prefix
    that ends on a character boundary and fits beside a notice, followed by that
    notice; the whole fits the cap whenever the notice does.  The notice offers
    the stored bytes back, as the whole result or, for a row the storage cap cut,
    as the remnant it is. *)
Theorem inline_cap_is_tight content message_id max_bytes :
  match cap_tool_result content message_id max_bytes with
  | None => String.length content ≤ max_bytes
  | Some head =>
      max_bytes < String.length content ∧
      let notice := if starts_with content STORAGE_CAP_NOTICE_PREFIX
                    then remnant_truncation_notice message_id (String.length content)
                    else tool_result_truncation_notice message_id (String.length content) in
      ∃ cut, head = str_prefix cut content +:+ notice ∧
        String.length (str_prefix cut content) = cut ∧ is_char_boundary content cut = true ∧
        String.length head ≤ Nat.max max_bytes (String.length notice) ∧
        ∀ cut', is_char_boundary content cut' = true → cut' ≤ String.length content →
          cut' + String.length notice ≤ max_bytes → cut' ≤ cut
  end.
Proof.
  unfold cap_tool_result. destruct (Nat.leb_spec (String.length content) max_bytes) as [Hle|Hgt]; [done|].
  split; [done|]. cbv zeta. set (notice := if starts_with content _ then _ else _).
  exists (cut_at content (max_bytes - String.length notice)). split_and!.
  - done.
  - apply prefix_cut_length.
  - apply cut_at_boundary.
  - unfold head_with_notice. rewrite string_length_app, prefix_cut_length.
    destruct (cut_at_le content (max_bytes - String.length notice)). lia.
  - intros cut' Hb Hl Hfit. apply cut_at_greatest; [lia|done|done].
Qed.

Lemma storage_notice_length_mono o d d' :
  d ≤ d' → String.length (tool_result_storage_notice o d) ≤ String.length (tool_result_storage_notice o d').
Proof.
  intros Hd%pretty_nat_length_mono. unfold tool_result_storage_notice, show. rewrite !string_length_app. lia.
Qed.

Lemma storage_notice_prefix o d : ∃ rest, tool_result_storage_notice o d = STORAGE_CAP_NOTICE_PREFIX +:+ rest.
Proof. by eexists. Qed.

(** What storage keeps of a result past the storage cap.  The row is a note
    stating exactly how many bytes the tool produced and how many were dropped,
    followed by the kept prefix, cut on a character boundary, and it fits the cap
    whenever the widest such note does.  When the model later reads only the head
    of that row, the notice it gets says the row is a remnant: it is never told
    that the whole output is stored. *)
Theorem storage_cap_is_honest content max_bytes stored :
  cap_stored_tool_result content max_bytes = Some stored →
  max_bytes < String.length content ∧
  (∃ cut, stored = tool_result_storage_notice (String.length content) (String.length content - cut)
                   +:+ str_prefix cut content ∧
     is_char_boundary content cut = true ∧ String.length (str_prefix cut content) = cut) ∧
  (String.length (tool_result_storage_notice (String.length content) (String.length content)) ≤ max_bytes →
     String.length stored ≤ max_bytes) ∧
  ∀ message_id m head, cap_tool_result stored message_id m = Some head →
    ∃ cut, head = str_prefix cut stored +:+ remnant_truncation_notice message_id (String.length stored).
Proof.
  unfold cap_stored_tool_result. destruct (Nat.leb_spec (String.length content) max_bytes) as [Hle|Hgt]; [done|].
  set (widest := tool_result_storage_notice (String.length content) (String.length content)).
  set (cut := cut_at content (max_bytes - String.length widest)). intros [= <-].
  set (stored := _ +:+ _). split_and!; [done|..].
  - exists cut. split_and!; [done|apply cut_at_boundary|apply prefix_cut_length].
  - intros Hfit. unfold stored. rewrite string_length_app. unfold cut at 2. rewrite prefix_cut_length.
    pose proof (storage_notice_length_mono (String.length content) (String.length content - cut)
      (String.length content) ltac:(lia)) as Hm. fold widest in Hm.
    destruct (cut_at_le content (max_bytes - String.length widest)). lia.
  - intros message_id m head. unfold cap_tool_result. case_match; [done|].
    assert (starts_with stored STORAGE_CAP_NOTICE_PREFIX = true) as ->.
    { apply starts_with_app. unfold stored.
      destruct (storage_notice_prefix (String.length content) (String.length content - cut)) as [rest ->].
      eexists. apply string_app_assoc. }
    intros [= <-]. by eexists.
Qed.

(** ** The projection of oversized results *)

(** Whether the pass replaces a message, given what is already replaced. *)
Definition oversized_head (p : ContextProjection) (msg : Message) (max_bytes : nat) : option string :=
  if bool_decide (role msg ≠ Tool) || is_replaced p msg then None
  else match cap_tool_result (content msg) (id msg) max_bytes with
       | Some head => if String.length (content msg) <=? String.length head then None else Some head
       | None => None
       end.

Lemma project_cons msg rest p max_bytes :
  project_oversized_tool_results (msg :: rest) p max_bytes =
  match oversized_head p msg max_bytes with
  | None => project_oversized_tool_results rest p max_bytes
  | Some head =>
      let '(p', n) := project_oversized_tool_results rest (replace p msg head) max_bytes in (p', S n)
  end.
Proof. simpl. unfold oversized_head. repeat case_match; simplify_eq; done. Qed.

Lemma oversized_head_replaced p m max_bytes : is_replaced p m = true → oversized_head p m max_bytes = None.
Proof. intros Hr. unfold oversized_head. by rewrite Hr, orb_true_r. Qed.

Lemma cap_tool_result_None c i max_bytes :
  cap_tool_result c i max_bytes = None → String.length c ≤ max_bytes.
Proof. unfold cap_tool_result. case_match; [|done]. intros _. by bool_hyps. Qed.

Lemma oversized_head_Some p msg max_bytes head :
  oversized_head p msg max_bytes = Some head →
  role msg = Tool ∧ is_replaced p msg = false ∧
  cap_tool_result (content msg) (id msg) max_bytes = Some head ∧
  String.length head < String.length (content msg).
Proof.
  unfold oversized_head. repeat case_match; intros; simplify_eq. bool_hyps.
  split_and!; [|done|done|done]. destruct (role msg); naive_solver.
Qed.

(** Each message's reading depends on the pass only through the message itself. *)
Lemma project_lookup messages p max_bytes m :
  NoDup (id <$> messages) →
  let p' := (project_oversized_tool_results messages p max_bytes).1 in
  (m ∈ messages → p' !! id m = match oversized_head p m max_bytes with Some h => Some h | None => p !! id m end) ∧
  (∀ i, i ∉ id <$> messages → p' !! i = p !! i).
Proof.
  revert p. induction messages as [|msg rest IH]; intros p Hnd; [split; [set_solver|done]|].
  apply NoDup_cons in Hnd as [Hni Hnd]. cbv zeta. rewrite project_cons.
  destruct (oversized_head p msg max_bytes) as [head|] eqn:E.
  - specialize (IH (replace p msg head) Hnd) as [IH1 IH2].
    destruct (project_oversized_tool_results rest (replace p msg head) max_bytes) as [p' n]. simpl in *.
    split.
    + intros [->|Hm]%elem_of_cons.
      * rewrite IH2 by done. unfold replace. by rewrite lookup_insert_eq, E.
      * rewrite IH1 by done.
        assert (Hne : id m ≠ id msg) by (intros Heq; apply Hni; rewrite <- Heq; by apply list_elem_of_fmap_2).
        assert (oversized_head (replace p msg head) m max_bytes = oversized_head p m max_bytes) as ->.
        { unfold oversized_head. by rewrite is_replaced_replace, (bool_decide_eq_false_2 (id m = id msg)). }
        unfold replace. by rewrite lookup_insert_ne.
    + intros i [Hi Hr]%not_elem_of_cons. rewrite IH2 by done. unfold replace. by rewrite lookup_insert_ne.
  - specialize (IH p Hnd) as [IH1 IH2]. split.
    + intros [->|Hm]%elem_of_cons; [by rewrite IH2, E|by apply IH1].
    + intros i [Hi Hr]%not_elem_of_cons. by apply IH2.
Qed.

Lemma project_count messages p max_bytes :
  let '(p', n) := project_oversized_tool_results messages p max_bytes in
  replaced_count p' = replaced_count p + n.
Proof.
  revert p. induction messages as [|msg rest IH]; intros p; [simpl; lia|]. rewrite project_cons.
  destruct (oversized_head p msg max_bytes) as [head|] eqn:E; [|apply IH].
  specialize (IH (replace p msg head)).
  destruct (project_oversized_tool_results rest (replace p msg head) max_bytes) as [p' n].
  apply oversized_head_Some in E as (_ & Hr & _). unfold is_replaced in Hr. bool_hyps.
  apply eq_None_not_Some in Hr. rewrite IH. unfold replaced_count, replace.
  rewrite map_size_insert_None by done. lia.
Qed.

Lemma project_none messages p max_bytes :
  (∀ m, m ∈ messages → oversized_head p m max_bytes = None) →
  project_oversized_tool_results messages p max_bytes = (p, 0).
Proof.
  induction messages as [|msg rest IH]; intros Hn; [done|]. rewrite project_cons, Hn by set_solver.
  apply IH. set_solver.
Qed.

(** The projection of oversized results never makes the prompt bigger and
    never touches anything it should not: with unique message ids, every message
    reads as no more bytes than before, a message that is not a tool result or
    was already replaced reads exactly as before, and the count returned is the
    number of new replacements.  A tool result that was read whole either fits
    the cap afterwards or could not be made smaller, and a second pass changes
    nothing. *)
Theorem projection_never_grows_the_prompt messages p max_bytes :
  NoDup (id <$> messages) →
  let '(p', n) := project_oversized_tool_results messages p max_bytes in
  replaced_count p' = replaced_count p + n ∧
  project_oversized_tool_results messages p' max_bytes = (p', 0) ∧
  ∀ m, m ∈ messages →
    String.length (projected_content p' m) ≤ String.length (projected_content p m) ∧
    ((role m ≠ Tool ∨ is_replaced p m = true) → projected_content p' m = projected_content p m) ∧
    (role m = Tool → is_replaced p m = false →
       String.length (projected_content p' m) ≤ max_bytes ∨
       (∃ head, cap_tool_result (content m) (id m) max_bytes = Some head ∧
          (projected_content p' m = head ∨
           projected_content p' m = content m ∧ String.length (content m) ≤ String.length head))).
Proof.
  intros Hnd. pose proof (project_count messages p max_bytes) as Hc.
  pose proof (λ m, proj1 (project_lookup messages p max_bytes m Hnd)) as Hl.
  destruct (project_oversized_tool_results messages p max_bytes) as [p' n]. simpl in Hl.
  split_and!; [done|..].
  - apply project_none. intros m Hm. specialize (Hl m Hm).
    destruct (oversized_head p m max_bytes) as [h|] eqn:E.
    + apply oversized_head_replaced. unfold is_replaced. rewrite Hl. by apply bool_decide_eq_true_2; eexists.
    + rewrite <- E. unfold oversized_head, is_replaced. by rewrite Hl.
  - intros m Hm. specialize (Hl m Hm).
    assert (Hcase : (oversized_head p m max_bytes = None ∧ projected_content p' m = projected_content p m) ∨
      ∃ h, oversized_head p m max_bytes = Some h ∧ projected_content p' m = h).
    { unfold projected_content. rewrite Hl. destruct (oversized_head p m max_bytes); [right|left]; eauto. }
    destruct Hcase as [[Hno Hsame]|(h & Hh & Hsame)].
    + rewrite Hsame. split_and!; [done|done|]. intros Ht Hr. rewrite (not_replaced_content _ _ Hr).
      unfold oversized_head in Hno. rewrite Ht, Hr in Hno. simpl in Hno.
      destruct (cap_tool_result (content m) (id m) max_bytes) as [h|] eqn:Ec.
      * right. exists h. split; [done|]. right. split; [done|]. case_match; [|done]. by bool_hyps.
      * left. by eapply cap_tool_result_None.
    + apply oversized_head_Some in Hh as (Ht & Hr & Hcap & Hlt). rewrite Hsame.
      rewrite (not_replaced_content _ _ Hr). split_and!; [lia|intros [?|?]; congruence|]. intros _ _. right. eauto.
Qed.

(** ** The window *)

Lemma not_nontool m : bool_decide (role m ≠ Tool) = false → role m = Tool.
Proof. intros H%bool_decide_eq_false. by apply dec_stable. Qed.

(** C8. The window never opens on an orphaned tool result.  When a conversation
    does not begin with a tool message, neither does the window, and it is not
    empty.  The size that counts is the one asked for, or the floor of
    [MIN_CONTEXT_MESSAGES] when that is more: a conversation of that size is read
    whole, and of a longer one the window starts within the last that many
    messages, at the first user message among them, or with no user message at
    the first that is not a tool result, which decides the start exactly.  Only
    when all of them are tool results is the window longer: it reaches back to
    the last message before them that is not one, their caller. *)
Theorem window_never_opens_on_a_tool_result ms max_messages :
  (∀ m, ms !! 0 = Some m → role m ≠ Tool) →
  let max := Nat.max max_messages MIN_CONTEXT_MESSAGES in
  let start := window_start ms max_messages in
  (ms ≠ [] → ∃ m, ms !! start = Some m ∧ role m ≠ Tool) ∧
  (length ms ≤ max → start = 0) ∧
  (max < length ms →
     (∃ i m, length ms - max ≤ i ∧ ms !! i = Some m ∧ role m ≠ Tool) →
       length ms - max ≤ start ∧
       ((∃ i m, length ms - max ≤ i ∧ ms !! i = Some m ∧ role m = User) →
          (role <$> ms !! start = Some User) ∧
          ∀ i m, length ms - max ≤ i < start → ms !! i = Some m → role m ≠ User) ∧
       ((∀ i m, length ms - max ≤ i → ms !! i = Some m → role m ≠ User) →
          ∀ i m, length ms - max ≤ i < start → ms !! i = Some m → role m = Tool)) ∧
  (max < length ms → (∀ i m, length ms - max ≤ i → ms !! i = Some m → role m = Tool) →
     start < length ms - max ∧ ∀ i m, start < i → ms !! i = Some m → role m = Tool).
Proof.
  intros H0 max start. unfold start, window_start. fold max.
  destruct (Nat.leb_spec (length ms) max) as [Hle|Hgt].
  { split_and!; [|done|lia|lia]. intros Hne. destruct ms as [|m ms]; [done|]. exists m. split; [done|by apply H0]. }
  set (t := length ms - max). assert (Ht : 0 < t) by (unfold t; lia).
  destruct (position (λ m, bool_decide (role m = User)) (drop t ms)) as [o|] eqn:Eu.
  { apply position_drop_Some in Eu as (m & Hm & Hu%bool_decide_eq_true & Hfirst). split_and!.
    - intros _. exists m. split; [done|]. by rewrite Hu.
    - lia.
    - intros _ _. split_and!; [lia| |].
      + intros _. split; [by rewrite Hm; simpl; rewrite Hu|].
        intros i m' Hi Hm'. exact (proj1 (bool_decide_eq_false _) (Hfirst i m' Hi Hm')).
      + intros Hno. by destruct (Hno (t + o) m ltac:(lia) Hm).
    - intros _ Hall. assert (role m = Tool) by (eapply (Hall (t + o)); [lia|done]). congruence. }
  assert (Hnou : ∀ i m, t ≤ i → ms !! i = Some m → role m ≠ User).
  { intros i m Hi Hm. exact (proj1 (bool_decide_eq_false _) (position_drop_None _ _ _ Eu i m Hi Hm)). }
  destruct (position (λ m, bool_decide (role m ≠ Tool)) (drop t ms)) as [o|] eqn:En.
  { apply position_drop_Some in En as (m & Hm & Hn%bool_decide_eq_true & Hfirst). split_and!.
    - intros _. by exists m.
    - lia.
    - intros _ _. split_and!; [lia| |].
      + intros (i & m' & Hi & Hm' & Hu). by destruct (Hnou i m').
      + intros _ i m' Hi Hm'. by apply not_nontool, (Hfirst i m' Hi Hm').
    - intros _ Hall. destruct (Hn (Hall (t + o) m ltac:(lia) Hm)). }
  assert (Htool : ∀ i m, t ≤ i → ms !! i = Some m → role m = Tool).
  { intros i m Hi Hm. by apply not_nontool, (position_drop_None _ _ _ En i m). }
  destruct (rposition (λ m, bool_decide (role m ≠ Tool)) (take t ms)) as [j|] eqn:Er; simpl.
  - apply rposition_take_Some in Er as (Hj & m & Hm & Hn%bool_decide_eq_true & Hlast). split_and!.
    + intros _. by exists m.
    + lia.
    + intros _ (i & m' & Hi & Hm' & Hnt). by destruct (Hnt (Htool i m' Hi Hm')).
    + intros _ _. split; [done|]. intros i m' Hi Hm'. destruct (decide (t ≤ i)); [by eapply Htool|].
      by apply not_nontool, (Hlast i m'); [lia|].
  - destruct ms as [|m ms]; [simpl in *; lia|]. destruct (H0 m eq_refl).
    by apply not_nontool, (rposition_take_None _ _ _ Er 0 m).
Qed.

(** ** The rolling summary and its marker *)

(** [covers ms n s]: the summary [s] was built by folding [messages[..n]] in
    contiguous, bounded ranges, each rendered into the prompt of a call that
    answered, on top of the summary so far. *)
Inductive covers (ms : list Message) : nat → string → Prop :=
| covers_none : covers ms 0 EmptyString
| covers_fold n s m llm text :
    covers ms n s → n < m → m ≤ n + MAX_COMPACTION_SPAN → m ≤ length ms →
    summary_transcript (slice ms n m) ≠ EmptyString →
    llm (summary_prompt s (summary_transcript (slice ms n m))) = Some text →
    trim text ≠ EmptyString →
    covers ms m (trim text).

Lemma slice_app ms more a b : b ≤ length ms → slice (ms ++ more) a b = slice ms a b.
Proof.
  intros Hb. unfold slice. destruct (decide (a ≤ length ms)).
  - rewrite drop_app_le by done. rewrite take_app_le by (rewrite length_drop; lia). done.
  - replace (b - a) with 0 by lia. done.
Qed.

Lemma covers_app ms more n s : covers ms n s → covers (ms ++ more) n s.
Proof.
  induction 1 as [|n s m llm text _ IH Hlt Hspan Hlen Ht Hllm Htrim]; [constructor|].
  apply (covers_fold _ n s m llm); try done; [rewrite length_app; lia|by rewrite slice_app..].
Qed.

Definition conv_covered (c : Conversation) : Prop :=
  covers (messages c) (compacted_through c) (context_summary c).

Lemma covers_bound ms n s : covers ms n s → n ≤ length ms.
Proof. destruct 1; lia. Qed.

Lemma compact_range_covers llm c to :
  conv_covered c →
  let '(c', r) := compact_range_into_summary llm c (compacted_through c) to in
  conv_covered c' ∧ messages c' = messages c ∧ compacted_through c ≤ compacted_through c' ∧
  (r = Moved → compacted_through c < compacted_through c' ∧ compacted_through c' ≤ to) ∧
  (r ≠ Moved → c' = c).
Proof.
  intros Hc. unfold compact_range_into_summary.
  remember (Nat.min (Nat.min to (compacted_through c + MAX_COMPACTION_SPAN)) (length (messages c)))
    as e eqn:He. destruct (Nat.leb_spec e (compacted_through c)) as [Hle|Hlt]; [by split_and!|].
  unfold generate_context_summary, is_empty. case_bool_decide as Ht; [by split_and!|].
  destruct (llm _) as [text|] eqn:El; [|by split_and!].
  case_bool_decide as Htrim; [by split_and!|]. split_and!; try done; simpl; [|lia|lia].
  apply (covers_fold _ (compacted_through c) (context_summary c) e llm text); try done; cbn [messages set_summary]; lia.
Qed.

Lemma compaction_range_from c max_messages from to :
  compaction_range c max_messages = Some (from, to) → from = compacted_through c.
Proof. unfold compaction_range. repeat case_match; intros; simplify_eq; bool_hyps; lia. Qed.

Lemma compact_into_covers llm c max_messages :
  conv_covered c →
  let '(c', moved) := compact_into_summary llm c max_messages in
  conv_covered c' ∧ messages c' = messages c ∧ compacted_through c ≤ compacted_through c' ∧
  (moved = true ↔ compacted_through c < compacted_through c').
Proof.
  intros Hc. unfold compact_into_summary.
  destruct (compaction_range c max_messages) as [[from to]|] eqn:E; [|split_and!; try done; lia].
  apply compaction_range_from in E as ->. pose proof (compact_range_covers llm c to Hc) as H.
  destruct (compact_range_into_summary llm c (compacted_through c) to) as [c' r].
  destruct H as (H1 & H2 & H3 & H4 & H5). split_and!; try done.
  rewrite bool_decide_eq_true. split; [intros Hr; by apply H4|].
  intros Hlt. destruct (decide (r = Moved)) as [|Hr]; [done|]. rewrite (H5 Hr) in Hlt. lia.
Qed.

Lemma preflight_covers llm c window_from requested :
  conv_covered c →
  let '(c', r) := compact_preflight_shrink llm c window_from requested in
  conv_covered c' ∧ messages c' = messages c ∧ compacted_through c ≤ compacted_through c' ∧
  (r = Folded → compacted_through c < compacted_through c' ∧ compacted_through c' ≤ window_from).
Proof.
  intros Hc. unfold compact_preflight_shrink.
  destruct (Nat.leb_spec window_from (window_start (messages c) requested)); [by split_and!|].
  destruct (Nat.leb_spec window_from (compacted_through c)); [by split_and!|].
  pose proof (compact_range_covers llm c window_from Hc) as H'.
  destruct (compact_range_into_summary llm c (compacted_through c) window_from) as [c' r].
  destruct H' as (H1 & H2 & H3 & H4 & H5). split_and!; try done. destruct r; try done. intros _. by apply H4.
Qed.

Lemma recover_covers llm estimate c p pt mt wf tw :
  conv_covered c →
  let '(c', _, _, _) := recover_from_overflow llm estimate c p pt mt wf tw in
  conv_covered c' ∧ messages c' = messages c ∧ compacted_through c ≤ compacted_through c'.
Proof.
  intros Hc. unfold recover_from_overflow.
  destruct (recover_step1 _ _ _ _ _) as [p1 f1].
  destruct (if (f1 =? 0)%Z then _ else _) as [p2 f2].
  destruct (match match pt with Some _ => _ | None => None end with Some _ => _ | None => false end); [done|].
  set (tw' := if _ <? tw then _ else tw).
  pose proof (compact_into_covers llm c tw' Hc) as H.
  destruct (compact_into_summary llm c tw') as [c' m]. naive_solver.
Qed.

(** What happens to a conversation across its turns: messages arrive, and each of
    the three compaction paths may run, with any answer from the summariser. *)
Inductive conv_event :=
| EvAppend (ms : list Message)
| EvCompact (max_messages : nat) (llm : string → option string)
| EvPreflight (window_from requested : nat) (llm : string → option string)
| EvRecover (p : ContextProjection) (pt mt : option Z) (wf tw : nat) (llm : string → option string)
    (estimate : string → Z).

Definition conv_step (c : Conversation) (e : conv_event) : Conversation :=
  match e with
  | EvAppend ms => set_messages c (messages c ++ ms)
  | EvCompact max llm => (compact_into_summary llm c max).1
  | EvPreflight wf rw llm => (compact_preflight_shrink llm c wf rw).1
  | EvRecover p pt mt wf tw llm est => (recover_from_overflow llm est c p pt mt wf tw).1.1.1
  end.

Lemma conv_step_covers c e :
  conv_covered c →
  conv_covered (conv_step c e) ∧ compacted_through c ≤ compacted_through (conv_step c e) ∧
  messages c `prefix_of` messages (conv_step c e).
Proof.
  intros Hc. destruct e as [ms|max llm|wf rw llm|p pt mt wf tw llm est]; simpl.
  - split_and!; [by apply covers_app|done|by apply prefix_app_r].
  - pose proof (compact_into_covers llm c max Hc) as H. destruct (compact_into_summary llm c max) as [c' m].
    destruct H as (? & Hm & ? & _). cbn [fst]. by rewrite Hm.
  - pose proof (preflight_covers llm c wf rw Hc) as H. destruct (compact_preflight_shrink llm c wf rw) as [c' m].
    destruct H as (? & Hm & ? & _). cbn [fst]. by rewrite Hm.
  - pose proof (recover_covers llm est c p pt mt wf tw Hc) as H.
    destruct (recover_from_overflow llm est c p pt mt wf tw) as [[[c' p'] t'] r].
    destruct H as (? & Hm & ?). cbn [fst]. by rewrite Hm.
Qed.

(** No message is lost to compaction.  Across any history of a conversation,
    with a summariser that may answer, fail or answer nothing, the marker never
    goes back and never passes the end, the stored messages are only ever
    appended to, and everything behind the marker was folded, range after range
    from the first message on, into the summary the prompt carries. *)
Theorem marker_only_passes_summarised_messages i t es :
  let c := foldl conv_step (Conversation_new i t) es in
  covers (messages c) (compacted_through c) (context_summary c) ∧
  compacted_through c ≤ length (messages c) ∧
  ∀ e, compacted_through c ≤ compacted_through (conv_step c e) ∧
       messages c `prefix_of` messages (conv_step c e).
Proof.
  intros c. assert (Hc : conv_covered c).
  { unfold c. assert (conv_covered (Conversation_new i t)) as H0 by constructor.
    revert H0. generalize (Conversation_new i t). induction es as [|e es IH]; intros c0 H0; [done|].
    simpl. apply IH. by apply conv_step_covers. }
  split_and!; [done|by eapply covers_bound|]. intros e. by apply conv_step_covers.
Qed.

(** ** The recovery ladder *)

Section recovery.
Context (estimate : string → Z).

(** [p'] reads differently from [p] only for tool results among [ms]. *)
Definition only_tools (ms : list Message) (p p' : ContextProjection) : Prop :=
  ∀ i, p' !! i ≠ p !! i → ∃ m, m ∈ ms ∧ id m = i ∧ role m = Tool.

(** Some message among [ms] costs fewer tokens to read under [p'] than [p]. *)
Definition some_cheaper (ms : list Message) (p p' : ContextProjection) : Prop :=
  ∃ m, m ∈ ms ∧ role m = Tool ∧
    (estimate (projected_content p' m) < estimate (projected_content p m))%Z.

Lemma only_tools_replace ms p m c : m ∈ ms → role m = Tool → only_tools ms p (replace p m c).
Proof.
  intros Hm Ht i Hi. exists m. split_and!; [done| |done]. unfold replace in Hi.
  destruct (decide (id m = i)); [done|]. by rewrite lookup_insert_ne in Hi.
Qed.

Lemma only_tools_mono ms ms' p p' : ms ⊆ ms' → only_tools ms p p' → only_tools ms' p p'.
Proof. intros Hsub Ho i Hi. destruct (Ho i Hi) as (m & ? & ? & ?). exists m. eauto. Qed.

Lemma only_tools_trans ms p1 p2 p3 : only_tools ms p1 p2 → only_tools ms p2 p3 → only_tools ms p1 p3.
Proof.
  intros H1 H2 i Hi. destruct (decide (p2 !! i = p1 !! i)) as [He|Hne]; [|by apply H1].
  apply H2. congruence.
Qed.

Lemma candidates_are_tools ms p mt i t :
  (i, t) ∈ tool_candidates estimate ms p mt → ∃ m, ms !! i = Some m ∧ role m = Tool.
Proof.
  unfold tool_candidates. rewrite list_elem_of_omap. intros ([j m] & Hj & Hc).
  apply elem_of_lookup_imap in Hj as (k & m' & [= -> ->] & Hk). simpl in Hc.
  case_bool_decide as Hr; [done|]. case_match; [|done]. simplify_eq. exists m'. split; [done|]. done.
Qed.

Lemma max_by_tokens_in best l x : max_by_tokens best l = Some x → best = Some x ∨ x ∈ l.
Proof.
  revert best. induction l as [|y l IH]; intros best; simpl; [by left|].
  intros [Hb|Hl]%IH; [|right; set_solver]. destruct best as [b|]; [case_match|]; simplify_eq; [by left|right..]; set_solver.
Qed.

Lemma step1_spec window p pt mt :
  let '(p', freed) := recover_step1 estimate window p pt mt in
  (0 ≤ freed)%Z ∧ only_tools window p p' ∧ (freed = 0%Z → p' = p) ∧
  ((0 < freed)%Z → some_cheaper window p p').
Proof.
  unfold recover_step1, find_largest_tool_result_above.
  assert (Hskip : only_tools window p p) by (by intros i []).
  destruct (max_by_tokens None _) as [[idx t]|] eqn:E; simpl; [|split_and!; (done || lia)].
  destruct (window !! idx) as [msg|] eqn:Ei; [|split_and!; (done || lia)].
  apply max_by_tokens_in in E as [|Hin]; [done|].
  apply candidates_are_tools in Hin as (msg' & Hm' & Ht). assert (msg' = msg) as -> by congruence.
  assert (Hmsg : msg ∈ window) by (by eapply list_elem_of_lookup_2).
  destruct (0 <? sat_sub _ _)%Z eqn:Ef; bool_hyps; [|split_and!; (done || lia)]. split_and!; [lia|by apply only_tools_replace|lia|].
  intros _. exists msg. split_and!; [done|done|]. rewrite projected_content_replace, bool_decide_eq_true_2 by done.
  unfold sat_sub in Ef. lia.
Qed.

Lemma compact_message_spec p r msg :
  let '(p', r') := compact_message estimate (p, r) msg in
  (freed_tokens r ≤ freed_tokens r')%Z ∧
  ((p' = p ∧ freed_tokens r' = freed_tokens r) ∨
   role msg = Tool ∧ ∃ c, p' = replace p msg c ∧
     ((freed_tokens r < freed_tokens r')%Z → (estimate c < estimate (projected_content p msg))%Z)).
Proof.
  unfold compact_message. destruct (is_worth_compacting msg p) eqn:Ew; simpl; [|split; [lia|by left]].
  unfold is_worth_compacting in Ew. bool_hyps. set (notice := overflow_compaction_notice _ _).
  destruct (_ <? _); simpl; [|split; [lia|by left]]. unfold sat_sub. split; [lia|]. right. split; [done|].
  exists notice. split; [done|]. lia.
Qed.

Lemma compact_fold_spec l p r :
  NoDup (id <$> l) →
  let '(p', r') := foldl (compact_message estimate) (p, r) l in
  (freed_tokens r ≤ freed_tokens r')%Z ∧ only_tools l p p' ∧
  ((freed_tokens r < freed_tokens r')%Z → some_cheaper l p p').
Proof.
  revert p r. induction l as [|msg l IH]; intros p r Hnd; cbn [foldl].
  { split_and!; [lia|by intros i []|lia]. }
  apply NoDup_cons in Hnd as [Hni Hnd].
  pose proof (compact_message_spec p r msg) as Hm. destruct (compact_message estimate (p, r) msg) as [p1 r1].
  specialize (IH p1 r1 Hnd). destruct (foldl (compact_message estimate) (p1, r1) l) as [p' r'].
  destruct Hm as [Hle Hm], IH as (IH1 & IH2 & IH3).
  assert (Hstep : only_tools (msg :: l) p p1).
  { destruct Hm as [[-> _]|(Ht & c & -> & _)]; [by intros i []|apply only_tools_replace; [set_solver|done]]. }
  split; [lia|]. split.
  { eapply only_tools_trans; [done|]. eapply only_tools_mono; [|done]. intros m Hm'. by apply list_elem_of_further. }
  intros Hfreed. destruct (decide (freed_tokens r < freed_tokens r1)%Z) as [H1|H1].
  - destruct Hm as [[_ ?]|(Ht & c & -> & Hc)]; [lia|]. exists msg. split_and!; [set_solver|done|].
    assert (projected_content p' msg = c) as ->; [|by apply Hc].
    unfold projected_content. destruct (decide (p' !! id msg = replace p msg c !! id msg)) as [->|Hne].
    + unfold replace. by rewrite lookup_insert_eq.
    + destruct (IH2 _ Hne) as (m & Hm & Hid & _). destruct Hni. rewrite <- Hid. by apply list_elem_of_fmap_2.
  - destruct IH3 as (m & Hin & Ht & Hlt); [lia|]. exists m. split_and!; [set_solver|done|].
    replace (projected_content p m) with (projected_content p1 m); [done|].
    destruct Hm as [[-> _]|(_ & c & -> & _)]; [done|]. rewrite projected_content_replace, bool_decide_eq_false_2; [done|].
    intros Hid. apply Hni. rewrite <- Hid. by apply list_elem_of_fmap_2.
Qed.

Lemma tool_run_split ms : ms = tool_run ms ++ drop (length (tool_run ms)) ms.
Proof. induction ms as [|m ms IH]; [done|]. simpl. case_match; [|done]. simpl. by f_equal. Qed.

Lemma tool_groups_sublist fuel ms p : concat (tool_groups fuel ms p) `sublist_of` ms.
Proof.
  revert ms. induction fuel as [|f IH]; intros ms; [destruct ms; apply sublist_nil_l|].
  destruct ms as [|m rest]; [constructor|]. cbn [tool_groups].
  destruct (bool_decide (role m = Assistant) && bool_decide (tool_calls m ≠ [])); [|by apply sublist_cons].
  etrans; [|apply reflexive_eq; exact (eq_sym (f_equal (cons m) (tool_run_split rest)))]. case_match.
  - change (m :: tool_run rest ++ concat (tool_groups f (drop (length (tool_run rest)) rest) p)
      `sublist_of` m :: tool_run rest ++ drop (length (tool_run rest)) rest).
    apply sublist_skip. by apply sublist_app.
  - apply sublist_cons. by apply sublist_inserts_l.
Qed.

Lemma concat_take_sublist (gs : list (list Message)) k : concat (take k gs) `sublist_of` concat gs.
Proof.
  rewrite <- (take_drop k gs) at 2. rewrite concat_app. by apply sublist_inserts_r.
Qed.

Lemma step2_spec window p :
  NoDup (id <$> window) →
  let '(p', r) := compact_oldest_tool_groups estimate window p in
  (0 ≤ freed_tokens r)%Z ∧ only_tools window p p' ∧ ((0 < freed_tokens r)%Z → some_cheaper window p p').
Proof.
  intros Hnd. unfold compact_oldest_tool_groups. destruct (length (tool_groups _ _ _) <=? 1).
  { split_and!; simpl; [lia|by intros i []|lia]. }
  set (l := concat _).
  assert (Hsub : l `sublist_of` window) by (etrans; [apply concat_take_sublist|apply tool_groups_sublist]).
  assert (Hndl : NoDup (id <$> l)) by (eapply sublist_NoDup; [done|]; by apply fmap_sublist).
  pose proof (compact_fold_spec l p CompactionResult_default Hndl) as Hf.
  destruct (foldl (compact_message estimate) (p, CompactionResult_default) l) as [p' r]. simpl in Hf.
  destruct Hf as (H1 & H2 & H3). split_and!; [done|eapply only_tools_mono; [|done]; intros m Hm; by eapply elem_of_sublist|].
  intros Hpos. destruct (H3 Hpos) as (m & Hin & Ht & Hlt). exists m. split_and!; [by eapply elem_of_sublist|done..].
Qed.

(** Step 2 runs when step 1 freed nothing; what the two freed together. *)
Lemma both_steps w p p1 f1 :
  NoDup (id <$> w) → (0 ≤ f1)%Z → only_tools w p p1 → (f1 = 0%Z → p1 = p) → ((0 < f1)%Z → some_cheaper w p p1) →
  ∃ p2 f2, (if (f1 =? 0)%Z then let '(p, r) := compact_oldest_tool_groups estimate w p1 in (p, freed_tokens r)
            else (p1, f1)) = (p2, f2) ∧
    (0 ≤ f2)%Z ∧ only_tools w p p2 ∧ ((0 < f2)%Z → some_cheaper w p p2) ∧
    (f2 = 0%Z → f1 = 0%Z ∧ freed_tokens (compact_oldest_tool_groups estimate w p).2 = 0%Z).
Proof.
  intros Hnd Hf1 Ho1 Hz1 Hc1. destruct (Z.eqb_spec f1 0) as [Hz|Hz].
  - rewrite (Hz1 Hz). pose proof (step2_spec w p Hnd) as H2.
    destruct (compact_oldest_tool_groups estimate w p) as [p2 r2]. exists p2, (freed_tokens r2). naive_solver.
  - exists p1, f1. by split_and!.
Qed.

(** Step 3's window. *)
Lemma halved_window tw :
  let halved := Nat.max (tw / 2) MIN_CONTEXT_MESSAGES in
  let tw' := if halved <? tw then halved else tw in
  tw' ≤ tw ∧ (MIN_CONTEXT_MESSAGES ≤ tw → MIN_CONTEXT_MESSAGES ≤ tw') ∧
  ((halved <? tw) = true ↔ tw' < tw) ∧ (tw' = tw → tw ≤ MIN_CONTEXT_MESSAGES).
Proof.
  intros halved tw'. unfold tw', halved. pose proof (Nat.div_le_upper_bound tw 2 tw ltac:(lia) ltac:(lia)).
  assert (tw / 2 < tw ∨ tw = 0) by (destruct tw; [by right|left; apply Nat.div_lt; lia]).
  destruct (Nat.ltb_spec (Nat.max (tw / 2) MIN_CONTEXT_MESSAGES) tw); unfold MIN_CONTEXT_MESSAGES in *;
    split_and!; intros; (done || lia || split; intros; (done || lia)).
Qed.

(** Overflow recovery.  One run of the ladder leaves the stored transcript
    alone and rewrites the reading of tool results inside the prompt's window
    only.  The window size never grows and never falls under its floor.  It
    reports progress only when the next prompt is smaller - the window shrank, or
    some tool result in the window now costs fewer tokens to read - and reports
    exhaustion only when the window is at its floor and nothing was freed; it
    says it compacted exactly when it shrank the window. *)
Theorem recovery_reports_real_progress llm c p pt mt wf tw :
  NoDup (id <$> messages c) →
  let '(c', p', tw', r) := recover_from_overflow llm estimate c p pt mt wf tw in
  messages c' = messages c ∧
  only_tools (drop wf (messages c)) p p' ∧
  tw' ≤ tw ∧ (MIN_CONTEXT_MESSAGES ≤ tw → MIN_CONTEXT_MESSAGES ≤ tw') ∧
  (rec_compacted r = true ↔ tw' < tw) ∧
  match outcome r with
  | Progressed => tw' < tw ∨ some_cheaper (drop wf (messages c)) p p'
  | Exhausted => tw' = tw ∧ tw ≤ MIN_CONTEXT_MESSAGES ∧
      (recover_step1 estimate (drop wf (messages c)) p pt mt).2 = 0%Z ∧
      freed_tokens (compact_oldest_tool_groups estimate (drop wf (messages c)) p).2 = 0%Z
  end.
Proof.
  intros Hnd. unfold recover_from_overflow.
  replace (drop (Nat.min wf (length (messages c))) (messages c)) with (drop wf (messages c)).
  2:{ destruct (decide (wf ≤ length (messages c))); [by rewrite Nat.min_l|].
      rewrite Nat.min_r by lia. by rewrite !drop_ge by lia. }
  set (w := drop wf (messages c)).
  assert (Hndw : NoDup (id <$> w)) by (eapply sublist_NoDup; [exact Hnd|]; apply fmap_sublist, sublist_drop).
  pose proof (step1_spec w p pt mt) as H1. destruct (recover_step1 estimate w p pt mt) as [p1 f1].
  destruct H1 as (Hf1 & Ho1 & Hz1 & Hc1).
  destruct (both_steps w p p1 f1 Hndw) as (p2 & f2 & -> & Hf2 & Ho2 & Hc2 & Hz2); [done..|].
  set (enough := match match pt with Some _ => _ | None => None end with Some _ => _ | None => false end).
  destruct enough eqn:Ee; unfold enough in Ee.
  - split_and!; try done; [simpl; split; (done || lia)|]. right. apply Hc2.
    destruct pt as [a|], mt as [b|]; try done. destruct (Z.ltb_spec b a); [|done]. bool_hyps.
    unfold sat_mul, ESTIMATE_SAFETY_MARGIN, u64_max in Ee. lia.
  - set (tw' := if _ <? tw then _ else tw).
    destruct (halved_window tw) as (Ht1 & Ht2 & Ht3 & Ht4). fold tw' in Ht1, Ht2, Ht3, Ht4.
    assert (Hmsg : messages (compact_into_summary llm c tw').1 = messages c).
    { unfold compact_into_summary, compact_range_into_summary. repeat (case_match; simplify_eq/=); done. }
    destruct (compact_into_summary llm c tw') as [c' mv]. simpl in Hmsg. cbn [rec_compacted outcome].
    split_and!; try done. destruct (0 <? f2)%Z eqn:Ef; bool_hyps; cbn [orb].
    + right. by apply Hc2.
    + destruct (Nat.max (tw / 2) MIN_CONTEXT_MESSAGES <? tw) eqn:Es.
      * left. by apply Ht3.
      * assert (tw' = tw) by (destruct (decide (tw' < tw)) as [Hlt|]; [by apply Ht3 in Hlt|lia]).
        split_and!; [done|by apply Ht4|..]; apply Hz2; lia.
Qed.

End recovery.

(** ** The pre-flight loop *)

Section preflight_facts.
Context {Pass : Type} (assemble : nat → Pass) (total_tokens : Pass → Z).

Lemma shrink_spec n t a m :
  a = assemble m →
  let '(a', m') := shrink assemble total_tokens n t a m in
  a' = assemble m' ∧ m' ≤ m ∧ (MIN_CONTEXT_MESSAGES ≤ m → MIN_CONTEXT_MESSAGES ≤ m') ∧
  (m ≤ MIN_CONTEXT_MESSAGES * 2 ^ n → (total_tokens a' <= t)%Z ∨ m' ≤ MIN_CONTEXT_MESSAGES) ∧
  (m' < m → (t < total_tokens a)%Z).
Proof.
  revert a m. induction n as [|n IH]; intros a m Ha; cbn [shrink].
  { split_and!; try done; [|lia]. right. rewrite Nat.pow_0_r in *. lia. }
  destruct (Z.leb_spec (total_tokens a) t); [split_and!; (done || lia || by left)|].
  destruct (Nat.leb_spec m MIN_CONTEXT_MESSAGES); [split_and!; (done || lia || by right)|].
  assert (Hhalf : m / 2 < m) by (apply Nat.div_lt; lia).
  destruct (Nat.eqb_spec (Nat.max (m / 2) MIN_CONTEXT_MESSAGES) m); [lia|].
  specialize (IH _ (Nat.max (m / 2) MIN_CONTEXT_MESSAGES) eq_refl).
  destruct (shrink assemble total_tokens n t _ _) as [a' m']. destruct IH as (IH1 & IH2 & IH3 & IH4 & IH5).
  split_and!; [done|lia|intros; apply IH3; lia| |done].
  intros Hb. apply IH4. rewrite Nat.pow_succ_r' in Hb.
  pose proof (Nat.div_le_upper_bound m 2 (MIN_CONTEXT_MESSAGES * 2 ^ n) ltac:(lia) ltac:(lia)).
  pose proof (Nat.pow_nonzero 2 n ltac:(lia)). nia.
Qed.

(** The pre-flight budget check.  The prompt that is sent is the assembly at
    one window size no larger than the one asked for and not under the floor, and
    the window start reported is that assembly's own.  Without a budget nothing
    is narrowed; with one, the window is narrowed only if the full one is over
    it, and for every window up to 32 times the floor the five iterations are
    enough: the result is within the budget or at the floor. *)
Theorem preflight_narrows_only_when_needed ms max_messages threshold :
  let '(pass, from) := assemble_turn_within_budget assemble total_tokens ms max_messages threshold in
  ∃ m, pass = assemble m ∧ from = window_start ms m ∧ m ≤ max_messages ∧
    (MIN_CONTEXT_MESSAGES ≤ max_messages → MIN_CONTEXT_MESSAGES ≤ m) ∧
    match threshold with
    | None => m = max_messages
    | Some t =>
        (m < max_messages → (t < total_tokens (assemble max_messages))%Z) ∧
        (max_messages ≤ MIN_CONTEXT_MESSAGES * 2 ^ MAX_PREFLIGHT_SHRINK_ITERATIONS →
           (total_tokens pass <= t)%Z ∨ m ≤ MIN_CONTEXT_MESSAGES)
    end.
Proof.
  unfold assemble_turn_within_budget. destruct threshold as [t|]; [|by exists max_messages].
  pose proof (shrink_spec MAX_PREFLIGHT_SHRINK_ITERATIONS t _ max_messages eq_refl) as H.
  destruct (shrink assemble total_tokens MAX_PREFLIGHT_SHRINK_ITERATIONS t (assemble max_messages) max_messages)
    as [a m]. destruct H as (-> & H2 & H3 & H4 & H5). exists m. by split_and!.
Qed.

End preflight_facts.

(** ** Witnesses *)

Definition chars (n : nat) : string := bytes (replicate n 120).
Definition user_msg (i : string) : Message := Message_new i User "hi".
Definition call_msg (i : string) : Message :=
  assistant_with_tool_calls i [{| call_id := "c"; call_name := "fetch"; call_arguments := "{}" |}].

Lemma storage_cap_is_honest_witness :
  ∃ stored, cap_stored_tool_result (chars 700) 600 = Some stored ∧ String.length stored ≤ 600.
Proof.
  destruct (cap_stored_tool_result (chars 700) 600) as [stored|] eqn:E; [|by vm_compute in E].
  exists stored. split; [done|].
  destruct (storage_cap_is_honest (chars 700) 600 stored E) as (_ & _ & Hfit & _).
  apply Hfit. apply Nat.leb_le. vm_compute. reflexivity.
Defined.

Definition some_messages : list Message :=
  [user_msg "u1"; call_msg "a1"; tool_result "t1" "c" (chars 900); user_msg "u2"].

Lemma projection_never_grows_the_prompt_witness :
  String.length (projected_content (project_oversized_tool_results some_messages ∅ 600).1
    (tool_result "t1" "c" (chars 900))) ≤ 900.
Proof.
  pose proof (projection_never_grows_the_prompt some_messages ∅ 600) as H.
  destruct (project_oversized_tool_results some_messages ∅ 600) as [p' n].
  destruct H as (_ & _ & H).
  - apply (bool_decide_unpack _). vm_compute. exact I.
  - apply (H (tool_result "t1" "c" (chars 900))). unfold some_messages. set_solver.
Defined.

(** One assistant message fanned out more calls than the window holds. *)
Definition fan_out : list Message :=
  user_msg "u" :: call_msg "a" :: map (λ i, tool_result i "c" "x") (replicate 9 "t").

Lemma window_never_opens_on_a_tool_result_witness :
  window_start fan_out 8 = 1 ∧ ∃ m, fan_out !! 1 = Some m ∧ role m ≠ Tool.
Proof.
  split; [reflexivity|].
  apply (window_never_opens_on_a_tool_result fan_out 8); [|done].
  by intros m [= <-].
Defined.

Lemma recovery_reports_real_progress_witness :
  let c := set_messages (Conversation_new "c" "t") some_messages in
  let '(c', p', tw', r) := recover_from_overflow (λ _, None) slen c ∅ None None 0 40 in
  messages c' = some_messages ∧ tw' ≤ 40.
Proof.
  cbv zeta. pose proof (recovery_reports_real_progress slen (λ _, None)
    (set_messages (Conversation_new "c" "t") some_messages) ∅ None None 0 40) as H.
  destruct (recover_from_overflow _ _ _ _ _ _ _ _) as [[[c' p'] tw'] r].
  destruct H as (H1 & _ & H2 & _); [|by split].
  apply (bool_decide_unpack _). vm_compute. exact I.
Defined.
