(* ===== verification/TurnRecord.v ===== *)
(** * What a turn leaves in the log

    Models the helpers of [crates/core/src/service.rs] that keep the stored
    transcript one a provider accepts and say how a turn ended: closing the tool
    calls an abandoned turn never ran, its notice, the texts of provider errors,
    the narration floor and the completion status; and [derive_turn_ending] of
    [turn_capture.rs], which reads the ending back from the rows. *)

From S2P Require Import Prelude Json DisplayLine TaskStore Messages Context.

#[local] Open Scope nat_scope.

(** ** Closing unanswered calls *)

Definition UNDISPATCHED_TOOL_RESULT : string := "<not executed: the turn ended before this tool call ran>".

Definition requests (m : Message) : bool := bool_decide (role m = Assistant) && bool_decide (tool_calls m ≠ []).

Definition answered_ids (results : list Message) : list string := omap tool_call_id results.

Definition unanswered (m : Message) (results : list Message) : list string :=
  filter (λ i, i ∉ answered_ids results) (map call_id (tool_calls m)).

(** The scan: where each placeholder goes, in order.  [at_] is the index of the
    next message; one unit of fuel per message. *)
Fixpoint placeholders (fuel at_ : nat) (ms : list Message) : list (nat * string) :=
  match fuel, ms with
  | S f, m :: rest =>
      if requests m then
        let results := tool_run rest in
        let i := at_ + 1 + length results in
        map (pair i) (unanswered m results) ++ placeholders f i (drop (length results) rest)
      else placeholders f (at_ + 1) rest
  | _, _ => []
  end.

(** [Vec::insert]. *)
Definition insert_at {A} (i : nat) (x : A) (l : list A) : list A := take i l ++ x :: drop i l.

(** The inserts, back to front; [mint k] is the id of the [k]-th placeholder. *)
Fixpoint apply_inserts (mint : nat → string) (k : nat) (inserts : list (nat * string)) (ms : list Message) : list Message :=
  match inserts with
  | [] => ms
  | (at_, call) :: rest => insert_at at_ (tool_result (mint k) call UNDISPATCHED_TOOL_RESULT) (apply_inserts mint (S k) rest ms)
  end.

Definition close_unanswered_tool_calls (mint : nat → string) (ms : list Message) : list Message * nat :=
  let inserts := placeholders (length ms) 0 ms in
  (apply_inserts mint 0 inserts ms, length inserts).

(** ** Notices *)

Definition CANCELLED_TURN_NOTICE : string := "[Turn cancelled".

Definition cancelled_turn_notice (executed unanswered : nat) : string :=
  CANCELLED_TURN_NOTICE +:+
  match executed with
  | 0 => ". No tool call had finished"
  | 1 => " after 1 tool call, whose effects stand"
  | n => " after " +:+ pretty n +:+ " tool calls, whose effects stand"
  end +:+
  match unanswered with
  | 0 => "."
  | 1 => "; 1 further call was requested and never ran."
  | n => "; " +:+ pretty n +:+ " further calls were requested and never ran."
  end +:+ "]".

Definition CONTEXT_OVERFLOW_NOTICE : string :=
  "The conversation exceeded the model's context window. We'll truncate older content and retry. Details: ".
Definition CONTEXT_RECOVERY_EXHAUSTED_NOTICE : string :=
  "The conversation is too large for this model's context window, and shortening it further would leave nothing to work from. Start a new conversation, or switch to a model with a larger window. Details: ".
Definition RATE_LIMITED_NOTICE : string := "The API rate limit was exceeded. Please wait a moment and try again. Details: ".
Definition QUOTA_EXCEEDED_NOTICE : string :=
  "Your API quota is exhausted. Top up the account or switch to a different API key. Details: ".
Definition MODEL_LOADING_NOTICE : string :=
  "The model is still downloading or loading. Please wait a moment and try again. Details: ".
Definition TOOLS_UNSUPPORTED_NOTICE : string :=
  "This model does not support tool use. Please switch to a tool-capable model or disable tools for this chat. Details: ".
Definition LLM_BACKEND_ERROR_NOTICE : string := "I hit an LLM backend error and could not complete this request. Details: ".

Definition FAILED_TURN_NOTICE_PREFIXES : list string :=
  [CONTEXT_OVERFLOW_NOTICE; CONTEXT_RECOVERY_EXHAUSTED_NOTICE; RATE_LIMITED_NOTICE; QUOTA_EXCEEDED_NOTICE;
   MODEL_LOADING_NOTICE; TOOLS_UNSUPPORTED_NOTICE; LLM_BACKEND_ERROR_NOTICE; CANCELLED_TURN_NOTICE].

Definition CONTEXT_RECOVERY_EXHAUSTED : string := "context recovery exhausted".

(** [CoreError]'s [Display]. *)
Definition error_to_string (e : CoreError) : string :=
  match e with
  | SystemService s => "system service error: " +:+ s
  | ConversationNotFound s => "conversation not found: " +:+ s
  | Llm s => "LLM error: " +:+ s
  | ContextOverflow _ _ d => "LLM context overflow: " +:+ d
  | RateLimited _ d => "LLM rate limited: " +:+ d
  | QuotaExceeded d => "LLM quota exceeded: " +:+ d
  | ModelLoading d => "LLM model loading: " +:+ d
  | ToolsUnsupported d => "LLM tools unsupported: " +:+ d
  | Storage s => "storage error: " +:+ s
  | ToolExecution s => "tool execution error: " +:+ s
  | ErrCancelled => "operation cancelled"
  | InvalidInput _ d _ => d
  end.

Definition user_visible_llm_error_message (e : CoreError) : string :=
  match e with
  | ContextOverflow _ _ d => CONTEXT_OVERFLOW_NOTICE +:+ d
  | Llm d => if String.eqb d CONTEXT_RECOVERY_EXHAUSTED then CONTEXT_RECOVERY_EXHAUSTED_NOTICE +:+ d
             else LLM_BACKEND_ERROR_NOTICE +:+ error_to_string e
  | RateLimited _ d => RATE_LIMITED_NOTICE +:+ d
  | QuotaExceeded d => QUOTA_EXCEEDED_NOTICE +:+ d
  | ModelLoading d => MODEL_LOADING_NOTICE +:+ d
  | ToolsUnsupported d => TOOLS_UNSUPPORTED_NOTICE +:+ d
  | _ => LLM_BACKEND_ERROR_NOTICE +:+ error_to_string e
  end.

Inductive TurnEnding := Answered | Unanswered.

#[export] Instance TurnEnding_eq_dec : EqDecision TurnEnding.
Proof. solve_decision. Defined.

Definition is_prose (m : Message) : bool :=
  bool_decide (role m = Assistant) && negb (String.eqb (trim (content m)) EmptyString).

Definition derive_turn_ending (turn : list Message) : TurnEnding :=
  match List.find is_prose (rev turn) with
  | Some m => if existsb (starts_with (content m)) FAILED_TURN_NOTICE_PREFIXES then Unanswered else Answered
  | None => Answered
  end.

(** ** Narration *)

Definition NARRATION_FLOOR_INTERVAL : Z := 40000.

Record NarrationFloor := { floor_interactive : bool; last_narration : Z; floor_tool_calls : Z }.

Definition NarrationFloor_new (interactive : bool) (now : Z) : NarrationFloor :=
  {| floor_interactive := interactive; last_narration := now; floor_tool_calls := 0 |}.

Definition narrated (f : NarrationFloor) (now : Z) : NarrationFloor :=
  {| floor_interactive := floor_interactive f; last_narration := now; floor_tool_calls := floor_tool_calls f |}.

Definition tool_dispatched (f : NarrationFloor) : NarrationFloor :=
  {| floor_interactive := floor_interactive f; last_narration := last_narration f;
     floor_tool_calls := sat_add u32_max (floor_tool_calls f) 1 |}.

Definition floor_line (f : NarrationFloor) : string :=
  if (floor_tool_calls f =? 0)%Z then "Still working"
  else if (floor_tool_calls f =? 1)%Z then "Still working (1 tool call)"
  else "Still working (" +:+ pretty (floor_tool_calls f) +:+ " tool calls)".

Definition take_due_line (f : NarrationFloor) (now : Z) : NarrationFloor * option string :=
  if negb (floor_interactive f) then (f, None)
  else if (now - last_narration f <? NARRATION_FLOOR_INTERVAL)%Z then (f, None)
  else let f := narrated f now in (f, Some (floor_line f)).

(** The run of one tool's completions. *)
Notation ToolCompletionRun := (option (string * Z)) (only parsing).

Definition advance_tool_completion_status (run : ToolCompletionRun) (name : string) (ok : bool) : ToolCompletionRun * string :=
  let shown := summarize_tool_name name in
  if negb ok then (None, shown +:+ " failed")
  else
    let count := match run with
                 | Some (running, count) => if String.eqb running name then (count + 1)%Z else 1%Z
                 | None => 1%Z
                 end in
    (Some (name, count), if (count =? 1)%Z then "Ran " +:+ shown else "Ran " +:+ shown +:+ " " +:+ pretty count +:+ " times").

(** ** The row of a result *)

Definition EMPTY_TOOL_RESULT_NOTICE : string := "<the tool call succeeded and returned no output.>".

Definition head_for_appended_row (stored : bool) (content message_id : string) (max_bytes : nat) : option string :=
  if negb stored then None
  else head ← cap_tool_result content message_id max_bytes;
       if String.length head <? String.length content then Some head else None.

Definition missing_required_argument (schema arguments : Value) : option string :=
  required ← get "required" schema ≫= as_array;
  List.find (λ name, match as_object arguments with Some args => negb (contains_key name args) | None => true end)
    (omap as_str required).

(** ** Closing, group by group *)

Definition placeholder (mint : nat → string) (k : nat) (call : string) : Message := tool_result (mint k) call UNDISPATCHED_TOOL_RESULT.

(** The result of closing, read off the groups. *)
Fixpoint closed (mint : nat → string) (k fuel : nat) (ms : list Message) : list Message :=
  match fuel, ms with
  | S f, m :: rest =>
      if requests m then
        let results := tool_run rest in
        let missing := unanswered m results in
        m :: results ++ imap (λ j c, placeholder mint (k + j) c) missing
          ++ closed mint (k + length missing) f (drop (length results) rest)
      else m :: closed mint k f rest
  | _, _ => ms
  end.

Lemma insert_at_app {A} (pre l : list A) x : insert_at (length pre) x (pre ++ l) = pre ++ x :: l.
Proof. unfold insert_at. by rewrite take_app_length, drop_app_length. Qed.

Lemma apply_inserts_app mint k l1 l2 ms :
  apply_inserts mint k (l1 ++ l2) ms = apply_inserts mint k l1 (apply_inserts mint (k + length l1) l2 ms).
Proof.
  revert k. induction l1 as [|[i c] l1 IH]; intros k; simpl; [by rewrite Nat.add_0_r|]. by rewrite IH, Nat.add_succ_r.
Qed.

Lemma apply_inserts_here mint k pre calls ms :
  apply_inserts mint k (map (pair (length pre)) calls) (pre ++ ms) = pre ++ imap (λ j c, placeholder mint (k + j) c) calls ++ ms.
Proof.
  revert k. induction calls as [|c calls IH]; intros k; simpl; [done|]. rewrite IH, insert_at_app, Nat.add_0_r. do 2 f_equal.
  f_equal. apply imap_ext. intros j x _. simpl. by rewrite Nat.add_succ_r.
Qed.

Lemma apply_placeholders mint fuel k pre ms :
  apply_inserts mint k (placeholders fuel (length pre) ms) (pre ++ ms) = pre ++ closed mint k fuel ms.
Proof.
  revert k pre ms. induction fuel as [|f IH]; intros k pre ms; [by destruct ms|]. destruct ms as [|m rest]; [done|].
  cbn [placeholders closed]. destruct (requests m).
  - set (results := tool_run rest). set (missing := unanswered m results). set (pre' := pre ++ m :: results).
    assert (Hpre : length pre + 1 + length results = length pre') by (unfold pre'; rewrite length_app; simpl; lia).
    assert (Hms : pre ++ m :: rest = pre' ++ drop (length results) rest).
    { unfold pre'. rewrite <- app_assoc. simpl. unfold results. by rewrite <- tool_run_split. }
    rewrite Hpre, apply_inserts_app, Hms, IH, apply_inserts_here, length_map. unfold pre'. by rewrite <- app_assoc.
  - replace (pre ++ m :: rest) with ((pre ++ [m]) ++ rest) by (by rewrite <- app_assoc).
    replace (length pre + 1) with (length (pre ++ [m])) by (rewrite length_app; simpl; lia). rewrite IH. by rewrite <- app_assoc.
Qed.

Lemma close_is_closed mint ms : (close_unanswered_tool_calls mint ms).1 = closed mint 0 (length ms) ms.
Proof. apply (apply_placeholders mint (length ms) 0 []). Qed.

(** ** The log a provider accepts *)

(** Every call of every assistant message is answered in the run of tool results
    right behind it. *)
Definition paired (ms : list Message) : Prop :=
  ∀ i m, ms !! i = Some m → requests m = true → unanswered m (tool_run (drop (S i) ms)) = [].

Lemma paired_nil : paired [].
Proof. by intros i m. Qed.

Lemma paired_cons m ms : paired (m :: ms) ↔ (requests m = true → unanswered m (tool_run ms) = []) ∧ paired ms.
Proof.
  split.
  - intros Hp. split; [apply (Hp 0)|]; [done|]. intros i. apply (Hp (S i)).
  - intros [Hm Hp] [|i] m'; simpl; [by intros [= ->]|apply Hp].
Qed.

Definition opens_with_tool (ms : list Message) : Prop := role <$> head ms = Some Tool.

Lemma tool_run_app rs ms :
  Forall (λ m, role m = Tool) rs → ¬ opens_with_tool ms → tool_run (rs ++ ms) = rs.
Proof.
  intros Hrs Hms. induction Hrs as [|r rs Hr Hrs IH]; simpl.
  - destruct ms as [|m ms]; [done|]. simpl. rewrite bool_decide_eq_false_2; [done|]. intros Hm. apply Hms. unfold opens_with_tool. simpl. by rewrite Hm.
  - by rewrite bool_decide_eq_true_2, IH.
Qed.

Lemma tool_run_tools ms : Forall (λ m, role m = Tool) (tool_run ms).
Proof. induction ms as [|m ms IH]; simpl; [done|]. case_bool_decide; by constructor. Qed.

Lemma after_run ms : ¬ opens_with_tool (drop (length (tool_run ms)) ms).
Proof.
  induction ms as [|m ms IH]; simpl; [done|]. case_bool_decide as Hm; [done|]. unfold opens_with_tool. simpl. by intros [= ?].
Qed.

Lemma requests_not_tool m : role m = Tool → requests m = false.
Proof. unfold requests. intros ->. by rewrite bool_decide_eq_false_2. Qed.

(** A run of tool results asks for nothing. *)
Lemma paired_run rs ms : Forall (λ m, role m = Tool) rs → paired ms → paired (rs ++ ms).
Proof.
  induction 1 as [|r rs Hr _ IH]; intros Hms; [done|]. apply paired_cons. split; [|by apply IH].
  by rewrite requests_not_tool.
Qed.

Lemma tool_run_app_l l ms : ¬ opens_with_tool ms → tool_run (l ++ ms) = tool_run l.
Proof.
  intros Hms. induction l as [|m l IH]; simpl; [|by case_bool_decide; rewrite ?IH].
  exact (tool_run_app [] ms (Forall_nil_2 _) Hms).
Qed.

(** Logs that do not open in the middle of a group can be put one behind the
    other. *)
Lemma paired_app l ms : paired l → paired ms → ¬ opens_with_tool ms → paired (l ++ ms).
Proof.
  induction l as [|m l IH]; intros Hl Hms Ho; [done|]. apply paired_cons in Hl as [Hm Hl]. simpl. apply paired_cons.
  split; [|by apply IH]. rewrite tool_run_app_l by done. exact Hm.
Qed.

Lemma closed_opens mint k fuel ms : ¬ opens_with_tool ms → ¬ opens_with_tool (closed mint k fuel ms).
Proof. destruct fuel, ms as [|m ms]; simpl; try done. by destruct (requests m). Qed.

Lemma unanswered_closed m results mint k :
  unanswered m (results ++ imap (λ j c, placeholder mint (k + j) c) (unanswered m results)) = [].
Proof.
  apply filter_none. intros i Hi Hno. apply Hno. unfold answered_ids. rewrite omap_app, elem_of_app.
  destruct (decide (i ∈ answered_ids results)) as [|Hnot]; [by left|]. right.
  assert (Hm : i ∈ unanswered m results) by (by apply list_elem_of_filter). apply list_elem_of_lookup in Hm as [j Hj].
  apply list_elem_of_omap. exists (placeholder mint (k + j) i). split; [|done]. apply list_elem_of_lookup. exists j.
  by rewrite list_lookup_imap, Hj.
Qed.

Lemma closed_paired mint k fuel ms : length ms ≤ fuel → paired (closed mint k fuel ms).
Proof.
  revert k ms. induction fuel as [|f IH]; intros k ms Hf; [by destruct ms; [|simpl in Hf; lia]|].
  destruct ms as [|m rest]; [apply paired_nil|]. cbn [closed]. simpl in Hf. destruct (requests m) eqn:Hm.
  - set (results := tool_run rest). set (ph := imap _ _). set (tl := closed _ _ _ _). rewrite app_assoc.
    assert (Hall : Forall (λ m, role m = Tool) (results ++ ph)).
    { apply Forall_app. split; [apply tool_run_tools|]. apply Forall_lookup. intros j x. unfold ph. rewrite list_lookup_imap.
      destruct (_ !! j); [|done]. by intros [= <-]. }
    apply paired_cons. split.
    + intros _. rewrite tool_run_app; [apply unanswered_closed|done|]. apply closed_opens, after_run.
    + apply paired_run; [done|]. apply IH. rewrite length_drop. lia.
  - apply paired_cons. split; [by rewrite Hm|]. apply IH. lia.
Qed.

(** Closing leaves an acceptable first part of the log as it is. *)
Lemma closed_app mint k ms :
  ¬ opens_with_tool ms →
  ∀ fuel l, paired l → length (l ++ ms) ≤ fuel → ∃ fuel', length ms ≤ fuel' ∧ closed mint k fuel (l ++ ms) = l ++ closed mint k fuel' ms.
Proof.
  intros Ho. induction fuel as [|f IH]; intros l Hl Hf.
  { exists 0. rewrite length_app in Hf. split; [lia|]. destruct l; [|simpl in Hf; lia]. done. }
  destruct l as [|m rest]; [by exists (S f)|]. apply paired_cons in Hl as [Hm Hl]. simpl in Hf. cbn [closed app].
  destruct (requests m) eqn:Hreq.
  - rewrite (tool_run_app_l rest ms Ho), (Hm eq_refl). cbn [imap app length]. rewrite Nat.add_0_r.
    set (n := length (tool_run rest)). assert (Hn : n ≤ length rest) by (unfold n; rewrite (tool_run_split rest) at 2; rewrite length_app; lia).
    assert (Hdrop : paired (drop n rest)).
    { intros i x Hi. rewrite lookup_drop in Hi. specialize (Hl _ _ Hi). rewrite drop_drop. by replace (n + S i) with (S (n + i)) by lia. }
    rewrite drop_app_le by done. destruct (IH (drop n rest) Hdrop) as (f' & Hf' & Heq).
    { rewrite length_app, length_drop. rewrite length_app in Hf. lia. }
    exists f'. split; [done|]. rewrite Heq. unfold n. cbn [app]. f_equal. rewrite app_assoc. f_equal. by rewrite <- tool_run_split.
  - destruct (IH rest Hl) as (f' & Hf' & Heq); [lia|]. exists f'. split; [done|]. by rewrite Heq.
Qed.

Lemma closed_sublist mint k fuel ms : ms `sublist_of` closed mint k fuel ms.
Proof.
  revert k ms. induction fuel as [|f IH]; intros k ms; [by destruct ms|]. destruct ms as [|m rest]; [done|]. cbn [closed].
  destruct (requests m); [|apply sublist_skip, IH]. apply sublist_skip.
  etrans; [apply reflexive_eq, tool_run_split|]. apply sublist_app; [done|]. apply sublist_inserts_l, IH.
Qed.

Lemma paired_no_placeholders fuel at_ ms : paired ms → placeholders fuel at_ ms = [].
Proof.
  revert at_ ms. induction fuel as [|f IH]; intros at_ ms Hp; [by destruct ms|]. destruct ms as [|m rest]; [done|].
  apply paired_cons in Hp as [Hm Hp]. cbn [placeholders]. destruct (requests m); [|by apply IH].
  rewrite Hm by done. simpl. apply IH. rewrite (tool_run_split rest) in Hp. revert Hp.
  generalize (tool_run rest) at 1 as rs. induction rs as [|r rs IHr]; [done|]. simpl. intros [_ Hp]%paired_cons. by apply IHr.
Qed.

(** Closing makes any log acceptable: every call gets its answer right
    behind the message that made it.  It drops no row and reorders none, adds
    exactly as many as it reports, and leaves a log that was acceptable as it
    is. *)
Theorem closing_pairs mint ms :
  paired (close_unanswered_tool_calls mint ms).1 ∧ ms `sublist_of` (close_unanswered_tool_calls mint ms).1 ∧
  length (close_unanswered_tool_calls mint ms).1 = length ms + (close_unanswered_tool_calls mint ms).2 ∧
  (paired ms → close_unanswered_tool_calls mint ms = (ms, 0)).
Proof.
  split; [|split; [|split]].
  - rewrite close_is_closed. by apply closed_paired.
  - rewrite close_is_closed. apply closed_sublist.
  - unfold close_unanswered_tool_calls. simpl. generalize (placeholders (length ms) 0 ms) as l. intros l. generalize 0 as k.
    induction l as [|[i c] l IH]; intros k; simpl; [lia|]. unfold insert_at. rewrite length_app, length_take. simpl.
    rewrite length_drop, IH. lia.
  - intros Hp. unfold close_unanswered_tool_calls. by rewrite paired_no_placeholders.
Qed.

(** ** Recognising how a turn ended *)

Lemma has_byte_app c s t : has_byte c (s +:+ t) = has_byte c s || has_byte c t.
Proof. induction s as [|a s IH]; [done|]. simpl. by rewrite IH, orb_assoc. Qed.

(** A byte no white space is written with survives trimming. *)
Lemma trim_with_keeps c ws fuel s :
  Forall (λ w, has_byte c (bytes w) = false) ws → has_byte c s = true → has_byte c (trim_with ws fuel s) = true.
Proof.
  intros Hws. revert s. induction fuel as [|f IH]; intros s Hs; cbn [trim_with]; [done|].
  destruct (List.find _ ws) as [w|] eqn:Hf; [|done]. apply List.find_some in Hf as [Hin Hsw].
  apply list_elem_of_In in Hin. eapply Forall_forall in Hws; [|exact Hin].
  apply starts_with_app in Hsw as [r ->]. rewrite has_byte_app, Hws in Hs. simpl in Hs. apply IH.
  assert (Hl : length w = String.length (bytes w)) by (clear; induction w; simpl; auto). by rewrite Hl, drop_bytes_app.
Qed.

Lemma has_byte_rev c s : has_byte c (string_rev s) = has_byte c s.
Proof.
  unfold string_rev. assert (Hl : ∀ l, has_byte c (String.string_of_list_ascii l) = existsb (λ a, bool_decide (a = c)) l).
  { induction l as [|a l IH]; [done|]. simpl. by rewrite IH. }
  assert (Hs : has_byte c s = existsb (λ a, bool_decide (a = c)) (String.list_ascii_of_string s)).
  { rewrite <- Hl. by rewrite String.string_of_list_ascii_of_string. }
  rewrite Hl, Hs. generalize (String.list_ascii_of_string s) as l. induction l as [|a l IH]; [done|]. simpl.
  rewrite existsb_app, IH. simpl. by rewrite orb_false_r, orb_comm.
Qed.

Lemma trim_keeps c s :
  Forall (λ w, has_byte c (bytes w) = false) (white_space ++ map (@rev nat) white_space) → has_byte c s = true → has_byte c (trim s) = true.
Proof.
  intros [H1 H2]%Forall_app Hs. unfold trim. rewrite has_byte_rev. apply trim_with_keeps; [done|]. rewrite has_byte_rev. by apply trim_with_keeps.
Qed.

Definition notice_bytes : list nat := [84; 89; 73; 91].

Lemma notice_bytes_plain n :
  n ∈ notice_bytes → Forall (λ w, has_byte (Ascii.ascii_of_nat n) (bytes w) = false) (white_space ++ map (@rev nat) white_space).
Proof.
  assert (Hall : Forall (λ n, Forall (λ w, has_byte (Ascii.ascii_of_nat n) (bytes w) = false) (white_space ++ map (@rev nat) white_space)) notice_bytes)
    by (apply (bool_decide_eq_true_1 _); by vm_compute).
  intros Hn. by eapply Forall_forall in Hall.
Qed.

(** A text that opens with a failure notice ends its turn unanswered. *)
Lemma notice_ends_unanswered turn i text prefix :
  prefix ∈ FAILED_TURN_NOTICE_PREFIXES → starts_with text prefix = true →
  derive_turn_ending (turn ++ [Message_new i Assistant text]) = Unanswered.
Proof.
  intros Hp Hs. unfold derive_turn_ending. rewrite rev_app_distr. cbn [rev app List.find].
  assert (Hprose : is_prose (Message_new i Assistant text) = true).
  { unfold is_prose. simpl. apply negb_true_iff. destruct (String.eqb_spec (trim text) EmptyString) as [He|]; [|done]. exfalso.
    assert (Hc : ∃ n, n ∈ notice_bytes ∧ has_byte (Ascii.ascii_of_nat n) prefix = true).
    { assert (Hall : Forall (λ p, Exists (λ n, has_byte (Ascii.ascii_of_nat n) p = true) notice_bytes) FAILED_TURN_NOTICE_PREFIXES)
        by (apply (bool_decide_eq_true_1 _); by vm_compute).
      eapply Forall_forall in Hall; [|exact Hp]. by apply Exists_exists in Hall. }
    destruct Hc as (n & Hn & Hb). apply starts_with_app in Hs as [r ->].
    pose proof (trim_keeps _ (prefix +:+ r) (notice_bytes_plain n Hn)) as Hk. rewrite He, has_byte_app, Hb in Hk. by specialize (Hk eq_refl). }
  rewrite Hprose. assert (Hex : existsb (starts_with text) FAILED_TURN_NOTICE_PREFIXES = true); [|simpl content; by rewrite Hex].
  apply existsb_exists. exists prefix. split; [by apply list_elem_of_In|done].
Qed.

Lemma app_starts p r : starts_with (p +:+ r) p = true.
Proof. apply starts_with_app. by exists r. Qed.

(** Every text the harness writes for a failed or cancelled turn is
    recognised again from the rows alone, whatever the provider's detail says:
    no failure is later captured as an answer. *)
Theorem failures_are_recognised turn i :
  (∀ e, derive_turn_ending (turn ++ [Message_new i Assistant (user_visible_llm_error_message e)]) = Unanswered) ∧
  (∀ executed missing, derive_turn_ending (turn ++ [Message_new i Assistant (cancelled_turn_notice executed missing)]) = Unanswered).
Proof.
  split.
  - intros e.
    assert (Hn : ∃ p, p ∈ FAILED_TURN_NOTICE_PREFIXES ∧ starts_with (user_visible_llm_error_message e) p = true); [|destruct Hn as (p & ? & ?); by eapply notice_ends_unanswered].
    unfold user_visible_llm_error_message. destruct e; [..|destruct (String.eqb _ _)|idtac|idtac|idtac|idtac|idtac|idtac|idtac|idtac|idtac];
      eexists; (split; [|apply app_starts]); apply (bool_decide_eq_true_1 _); by vm_compute.
  - intros e m. eapply notice_ends_unanswered; [|apply app_starts]. apply (bool_decide_eq_true_1 _); by vm_compute.
Qed.
