(* ===== verification/Titles.v ===== *)
(** * Conversation titles

    Models the title bounds of [crates/core/src/domain/conversation.rs]:
    [check_title_bound], [bound_generated_title] and the binary search of
    [head_title_to_bytes].

    The serialized length of a string is serde_json's: it is the section
    variable [title_serialized_len], of which only what JSON says of string
    escaping is used - it is per character, so lengths add up but for the two
    quotes, and no character takes less than its raw bytes. *)

From S2P Require Import Prelude TaskStore.

Definition MAX_TITLE_BYTES : nat := 4096.
Definition GENERATED_TITLE_CUT_MARK : string := "...".

(** [while mid > low && !text.is_char_boundary(mid) { mid -= 1; }]. *)
Fixpoint walk_back (text : string) (low mid : nat) : nat :=
  match mid with
  | O => O
  | S m => if (low <? mid) && negb (is_char_boundary text mid) then walk_back text low m else mid
  end.

Section titles.
Context (title_serialized_len : string → nat).

Definition check_title_bound (title : string) : result unit CoreError :=
  let b := title_serialized_len title in
  if b <=? MAX_TITLE_BYTES then Ok tt
  else Err (InvalidInput "conversation_title_too_long"
              ("a conversation title is " +:+ pretty b +:+ " serialized bytes; the limit is "
               +:+ pretty MAX_TITLE_BYTES)
              "That title is too long. Use a shorter one.").

(** The search's loop; [fuel] bounds the iterations. *)
Fixpoint head_loop (fuel : nat) (text : string) (budget low high : nat) : nat :=
  match fuel with
  | O => low
  | S f =>
      if high <=? low then low
      else
        let mid := walk_back text low (low + (high - low + 1) / 2) in
        if mid =? low then low
        else if title_serialized_len (str_prefix mid text) <=? budget
        then head_loop f text budget mid high
        else head_loop f text budget low (walk_back text low (mid - 1))
  end.

Definition head_title_to_bytes (text : string) (budget : nat) : string :=
  if title_serialized_len text <=? budget then text
  else str_prefix (head_loop (String.length text) text budget 0 (Nat.min (String.length text) budget)) text.

Definition bound_generated_title (title : string) : string :=
  if title_serialized_len title <=? MAX_TITLE_BYTES then title
  else
    let room := MAX_TITLE_BYTES - title_serialized_len GENERATED_TITLE_CUT_MARK in
    head_title_to_bytes title room +:+ GENERATED_TITLE_CUT_MARK.

(** ** The search *)

Context (ser_app : ∀ a b,
  title_serialized_len (a +:+ b) + 2 = title_serialized_len a + title_serialized_len b).
Context (ser_raw : ∀ s, String.length s + 2 ≤ title_serialized_len s).

Lemma ser_empty : title_serialized_len EmptyString = 2.
Proof using ser_app. pose proof (ser_app EmptyString EmptyString) as H. change (EmptyString +:+ EmptyString) with EmptyString in H. lia. Qed.

Lemma str_prefix_split a b s :
  a ≤ b → ∃ r, str_prefix b s = str_prefix a s +:+ r.
Proof.
  clear. unfold str_prefix. revert a b. induction s as [|c s IH]; intros a b Hab.
  - exists EmptyString. by destruct a, b.
  - destruct a as [|a]; [by eexists|]. destruct b as [|b]; [lia|].
    destruct (IH a b) as [r Hr]; [lia|]. exists r. simpl. by rewrite Hr.
Qed.

Lemma ser_prefix_mono a b s :
  a ≤ b → title_serialized_len (str_prefix a s) ≤ title_serialized_len (str_prefix b s).
Proof using ser_app ser_raw.
  intros [r Hr]%(str_prefix_split a b s). rewrite Hr. pose proof (ser_app (str_prefix a s) r).
  pose proof (ser_raw r). lia.
Qed.

Lemma walk_back_spec text low mid :
  low ≤ mid →
  low ≤ walk_back text low mid ≤ mid ∧
  (low < walk_back text low mid → is_char_boundary text (walk_back text low mid) = true) ∧
  ∀ b, walk_back text low mid < b ≤ mid → is_char_boundary text b = false.
Proof.
  clear. induction mid as [|m IH]; intros Hl; cbn [walk_back]; [split_and!; intros; lia|].
  destruct (Nat.ltb_spec low (S m)); cbn [andb].
  - destruct (is_char_boundary text (S m)) eqn:E; cbn [negb]; [split_and!; intros; (done || lia)|].
    destruct IH as (H1 & H2 & H3); [lia|]. split_and!; [lia|lia|done|].
    intros b Hb. destruct (decide (b = S m)) as [->|]; [done|]. apply H3. lia.
  - split_and!; intros; lia.
Qed.

(** UTF-8 text: a character is at most four bytes. *)
Definition utf8 (text : string) : Prop :=
  ∀ i, i < String.length text → ∃ j, i < j ≤ i + 4 ∧ j ≤ String.length text ∧ is_char_boundary text j = true.

Lemma head_loop_spec fuel text budget low high :
  high - low ≤ fuel → low ≤ high → high ≤ String.length text →
  is_char_boundary text low = true →
  (low = 0 ∨ title_serialized_len (str_prefix low text) ≤ budget) →
  (∀ b, is_char_boundary text b = true → high < b ≤ String.length text →
     budget < title_serialized_len (str_prefix b text)) →
  let cut := head_loop fuel text budget low high in
  low ≤ cut ≤ high ∧ is_char_boundary text cut = true ∧
  (cut = 0 ∨ title_serialized_len (str_prefix cut text) ≤ budget) ∧
  (utf8 text → ∀ b, is_char_boundary text b = true → b ≤ String.length text →
     title_serialized_len (str_prefix b text) ≤ budget → b ≤ cut + 6).
Proof using ser_app ser_raw.
  revert low high. induction fuel as [|f IH]; intros low high Hfuel Hlh Hlen Hb Hlow Hhigh; cbn [head_loop].
  { split_and!; try done; try lia. intros _ b Hbb Hbl Hfit.
    destruct (decide (high < b)); [|lia]. specialize (Hhigh b Hbb). lia. }
  destruct (Nat.leb_spec high low) as [Hle|Hlt].
  { split_and!; try done; try lia. intros _ b Hbb Hbl Hfit.
    destruct (decide (high < b)); [|lia]. specialize (Hhigh b Hbb). lia. }
  remember (low + (high - low + 1) / 2) as m0 eqn:Hm0.
  pose proof (Nat.div_mod_eq (high - low + 1) 2) as Hdm. pose proof (Nat.mod_upper_bound (high - low + 1) 2 ltac:(lia)).
  destruct (walk_back_spec text low m0) as (Hw1 & Hw2 & Hw3); [lia|].
  destruct (Nat.eqb_spec (walk_back text low m0) low) as [Heq|Hne].
  { split_and!; try done; try lia. intros Hutf b Hbb Hbl Hfit.
    destruct (decide (high < b)); [specialize (Hhigh b Hbb); lia|].
    destruct (Hutf low) as (j & Hj & Hjl & Hjb); [lia|].
    destruct (decide (j ≤ m0)); [|lia]. rewrite (Hw3 j) in Hjb by lia. done. }
  remember (walk_back text low m0) as mid eqn:Hmid.
  destruct (Nat.leb_spec (title_serialized_len (str_prefix mid text)) budget) as [Hfit|Hover].
  - destruct (IH mid high) as (I1 & I2 & I3 & I4);
      [lia|lia|lia|apply Hw2; lia|by right|exact Hhigh|].
    split_and!; try done; lia.
  - destruct (walk_back_spec text low (mid - 1)) as (Hv1 & Hv2 & Hv3); [lia|].
    destruct (IH low (walk_back text low (mid - 1))) as (I1 & I2 & I3 & I4);
      [lia|lia|lia|done|done| |].
    + intros b Hbb Hbl. destruct (decide (mid ≤ b)).
      * eapply Nat.lt_le_trans; [exact Hover|]. by apply ser_prefix_mono.
      * rewrite (Hv3 b) in Hbb by lia. done.
    + split_and!; try done; lia.
Qed.

(** Generated titles.  Whatever title the daemon composes, the bounded one is
    accepted by the check a client's title must pass; a title that fits is kept as
    it is, and a longer one becomes a prefix cut on a character boundary with the
    mark after it.  The cut is within six bytes of the longest that fits. *)
Theorem generated_titles_are_accepted title :
  title_serialized_len GENERATED_TITLE_CUT_MARK = 5 → utf8 title →
  check_title_bound (bound_generated_title title) = Ok tt ∧
  (title_serialized_len title ≤ MAX_TITLE_BYTES → bound_generated_title title = title) ∧
  (MAX_TITLE_BYTES < title_serialized_len title →
     ∃ cut, bound_generated_title title = str_prefix cut title +:+ GENERATED_TITLE_CUT_MARK ∧
       is_char_boundary title cut = true ∧ cut ≤ String.length title ∧
       ∀ b, is_char_boundary title b = true → b ≤ String.length title →
         title_serialized_len (str_prefix b title) ≤ MAX_TITLE_BYTES - 5 → b ≤ cut + 6).
Proof using ser_app ser_raw.
  intros Hmark Hutf. unfold bound_generated_title, check_title_bound.
  destruct (Nat.leb_spec (title_serialized_len title) MAX_TITLE_BYTES) as [Hle|Hgt].
  { rewrite (proj2 (Nat.leb_le _ _) Hle). split_and!; [done..|lia]. }
  rewrite Hmark. remember (MAX_TITLE_BYTES - 5) as room eqn:Hroom.
  assert (Hroom2 : 2 ≤ room ∧ room + 5 = MAX_TITLE_BYTES) by (unfold MAX_TITLE_BYTES in *; lia).
  unfold head_title_to_bytes. destruct (Nat.leb_spec (title_serialized_len title) room) as [|Hr]; [lia|].
  destruct (head_loop_spec (String.length title) title room 0 (Nat.min (String.length title) room))
    as (H1 & H2 & H3 & H4); [lia|lia|lia|done|by left| |].
  { intros b _ Hb. pose proof (ser_raw (str_prefix b title)) as Hraw. rewrite str_prefix_length in Hraw by lia. lia. }
  remember (head_loop _ _ _ _ _) as cut eqn:Hcut. split_and!.
  - rewrite (proj2 (Nat.leb_le _ _)); [done|]. pose proof (ser_app (str_prefix cut title) GENERATED_TITLE_CUT_MARK).
    assert (title_serialized_len (str_prefix cut title) ≤ room).
    { destruct H3 as [->|]; [|done]. unfold str_prefix.
      assert (String.substring 0 0 title = EmptyString) as -> by (by destruct title). rewrite ser_empty. lia. }
    lia.
  - lia.
  - intros _. exists cut. split_and!; [done|done|lia|]. intros b Hb Hbl Hfit. by apply H4.
Qed.

End titles.

(** ** JSON's string escaping, as an instance *)

Definition escaped_len (a : Ascii.ascii) : nat :=
  let n := Ascii.nat_of_ascii a in
  if existsb (Nat.eqb n) [34; 92; 8; 9; 10; 12; 13] then 2 else if n <? 32 then 6 else 1.

Fixpoint escaped_body (s : string) : nat :=
  match s with EmptyString => 0 | String a s' => escaped_len a + escaped_body s' end.

Definition json_len (s : string) : nat := 2 + escaped_body s.

Lemma json_len_app a b : json_len (a +:+ b) + 2 = json_len a + json_len b.
Proof.
  unfold json_len. induction a as [|c a IH]; [change (EmptyString +:+ b) with b; cbn [escaped_body]; lia|].
  change (escaped_body (String c a +:+ b)) with (escaped_len c + escaped_body (a +:+ b)). cbn [escaped_body]. lia.
Qed.

Lemma json_len_raw s : String.length s + 2 ≤ json_len s.
Proof.
  unfold json_len. induction s as [|c s IH]; simpl; [lia|].
  assert (1 ≤ escaped_len c) by (unfold escaped_len; repeat case_match; lia). lia.
Qed.

Lemma generated_titles_are_accepted_witness :
  check_title_bound json_len (bound_generated_title json_len "Standalone: nightly report") = Ok tt.
Proof.
  apply (generated_titles_are_accepted json_len json_len_app json_len_raw); [reflexivity|].
  intros i Hi. exists (S i). split; [lia|]. split; [done|]. vm_compute in Hi.
  do 26 (destruct i as [|i]; [reflexivity|]). lia.
Defined.

(** The search is not exact: with room for one four-byte character and its quotes
    it keeps nothing, because the first midpoint falls inside the character. *)
Definition smile : string := bytes [240; 159; 152; 128].

Lemma search_misses_a_prefix_that_fits :
  head_title_to_bytes json_len (smile +:+ smile) 6 = EmptyString ∧
  json_len smile = 6 ∧ is_char_boundary (smile +:+ smile) 4 = true ∧
  str_prefix 4 (smile +:+ smile) = smile.
Proof. vm_compute. done. Qed.
