(* ===== verification/ToolRouting.v ===== *)
(** * Composed tool names and the table that resolves them

    Models [crates/core/src/tool_routing.rs] with [ToolDefinition] and
    [ToolNamespace] of [domain/tool.rs].  A tool's JSON schema is of the section
    type [Json].  Names are byte strings: the characters a name keeps are ASCII,
    so filtering characters is filtering bytes. *)

From S2P Require Import Prelude.

Definition MAX_SEGMENT_CHARS : nat := 120.

(** ** Locations and connections *)

Inductive ToolLocation := Daemon | Client.

#[export] Instance ToolLocation_eq_dec : EqDecision ToolLocation.
Proof. solve_decision. Defined.

Definition root (l : ToolLocation) : string :=
  match l with Daemon => "daemon_" | Client => "client_" end.

Definition location_str (l : ToolLocation) : string :=
  match l with Daemon => "daemon" | Client => "client" end.

Definition ALL : list ToolLocation := [Daemon; Client].

Record ToolConnection := { location : ToolLocation; namespace : option string }.

#[export] Instance ToolConnection_eq_dec : EqDecision ToolConnection.
Proof. solve_decision. Defined.

Definition daemon_builtins : ToolConnection := {| location := Daemon; namespace := None |}.
Definition daemon_server (ns : string) : ToolConnection := {| location := Daemon; namespace := Some ns |}.
Definition daemon_registry : ToolConnection := {| location := Daemon; namespace := Some "registry" |}.
Definition client_device : ToolConnection := {| location := Client; namespace := None |}.

Definition label (c : ToolConnection) : string :=
  match namespace c with
  | Some ns => location_str (location c) +:+ ":" +:+ ns
  | None => location_str (location c) +:+ ":built-ins"
  end.

(** ** Names *)

Definition is_sep (a : Ascii.ascii) : bool :=
  let n := Ascii.nat_of_ascii a in (n =? 95) || (n =? 45).

Definition is_ascii_alphanumeric (a : Ascii.ascii) : bool :=
  let n := Ascii.nat_of_ascii a in
  ((48 <=? n) && (n <=? 57)) || ((65 <=? n) && (n <=? 90)) || ((97 <=? n) && (n <=? 122)).

Definition name_char (a : Ascii.ascii) : bool := is_ascii_alphanumeric a || is_sep a.

Fixpoint trim_start_matches (l : list Ascii.ascii) : list Ascii.ascii :=
  match l with
  | a :: l' => if is_sep a then trim_start_matches l' else l
  | [] => []
  end.

(** [trim_matches]: from both ends. *)
Definition trim_matches (l : list Ascii.ascii) : list Ascii.ascii :=
  rev (trim_start_matches (rev (trim_start_matches l))).

Definition sanitize_segment (raw : string) : option string :=
  let kept := take MAX_SEGMENT_CHARS (filter (λ a, name_char a = true) (String.list_ascii_of_string raw)) in
  let trimmed := trim_matches kept in
  if bool_decide (trimmed = []) then None else Some (String.string_of_list_ascii trimmed).

Definition compose_name (l : ToolLocation) (provider_name : string) : option string :=
  match sanitize_segment provider_name with
  | Some segment => Some (root l +:+ segment)
  | None => None
  end.

Definition strip_prefix (p s : string) : option string :=
  if starts_with s p then Some (drop_bytes (String.length p) s) else None.

Definition strip_location (name : string) : string :=
  default name (find_map (λ l, strip_prefix (root l) name) ALL).

(** ** The table *)

Section router.
Context {Json : Type}.

Record ToolDefinition := { name : string; description : string; parameters : Json }.
Record ToolNamespace := { ns_name : string; ns_description : string; ns_tools : list ToolDefinition }.

Inductive ToolSurface := CoreLoop | Block | Deferred | Named.

#[export] Instance ToolSurface_eq_dec : EqDecision ToolSurface.
Proof. solve_decision. Defined.

Definition in_block (s : ToolSurface) : bool :=
  match s with CoreLoop | Block => true | _ => false end.

Record RoutedTool := {
  advertised : ToolDefinition;
  provider_name : string;
  connection : option ToolConnection;
  surface : ToolSurface
}.

Definition is_client (e : RoutedTool) : bool :=
  match connection e with Some c => bool_decide (location c = Client) | None => false end.

Record DuplicateName := { dup_name : string; held_by : string; refused : string }.

Record ToolRouter := { entries : list RoutedTool; duplicates : list DuplicateName }.

Definition ToolRouter_new : ToolRouter := {| entries := []; duplicates := [] |}.

Definition claimant (c : option ToolConnection) (p : string) : string :=
  (match c with Some c => label c | None => "core-loop" end) +:+ "/" +:+ p.

Definition insert_tool (r : ToolRouter) (adv : ToolDefinition) (p : string)
    (c : option ToolConnection) (s : ToolSurface) : ToolRouter :=
  match position (λ e, bool_decide (name (advertised e) = name adv)) (entries r) with
  | Some pos =>
      match entries r !! pos with
      | Some held =>
          if bool_decide (connection held = c) && bool_decide (provider_name held = p)
          then
            if negb (in_block (surface held)) && in_block s
            then {| entries := delete pos (entries r)
                      ++ [{| advertised := adv; provider_name := provider_name held;
                             connection := connection held; surface := s |}];
                    duplicates := duplicates r |}
            else r
          else {| entries := entries r;
                  duplicates := duplicates r ++
                    [{| dup_name := name adv; held_by := claimant (connection held) (provider_name held);
                        refused := claimant c p |}] |}
      | None => r
      end
  | None =>
      {| entries := entries r ++ [{| advertised := adv; provider_name := p; connection := c; surface := s |}];
         duplicates := duplicates r |}
  end.

Definition admit_one (c : ToolConnection) (s : ToolSurface) (r : ToolRouter) (def : ToolDefinition)
    : ToolRouter :=
  match compose_name (location c) (name def) with
  | None => r
  | Some n =>
      insert_tool r {| name := n; description := description def; parameters := parameters def |}
        (name def) (Some c) s
  end.

Definition admit_defs (r : ToolRouter) (c : ToolConnection) (defs : list ToolDefinition) (s : ToolSurface)
    : ToolRouter := foldl (admit_one c s) r defs.

Definition offer (r : ToolRouter) (c : ToolConnection) (defs : list ToolDefinition) : ToolRouter :=
  admit_defs r c defs Block.
Definition offer_deferred (r : ToolRouter) (c : ToolConnection) (defs : list ToolDefinition) : ToolRouter :=
  admit_defs r c defs Deferred.
Definition offer_named (r : ToolRouter) (c : ToolConnection) (defs : list ToolDefinition) : ToolRouter :=
  admit_defs r c defs Named.
Definition offer_core_loop_tool (r : ToolRouter) (def : ToolDefinition) : ToolRouter :=
  insert_tool r def (name def) None CoreLoop.

Definition retain (r : ToolRouter) (keep : string → bool) : ToolRouter :=
  {| entries := filter (λ e, keep (provider_name e) = true) (entries r); duplicates := duplicates r |}.

Definition advertised_definitions (r : ToolRouter) : list ToolDefinition :=
  advertised <$> filter (λ e, in_block (surface e) = true) (entries r).

Definition named_only_names (r : ToolRouter) : list string :=
  (λ e, name (advertised e)) <$> filter (λ e, surface e = Named) (entries r).

(** [Route::Found] is [Some]. *)
Definition resolve (r : ToolRouter) (n : string) : option RoutedTool :=
  List.find (λ e, bool_decide (name (advertised e) = n)) (entries r).

Definition resolve_on (r : ToolRouter) (c : ToolConnection) (tool_name : string) : option RoutedTool :=
  List.find (λ e, bool_decide (connection e = Some c) && bool_decide (provider_name e = tool_name)) (entries r).

Definition advertises (r : ToolRouter) (c : ToolConnection) (tool_name : string) : bool :=
  match resolve_on r c tool_name with Some e => in_block (surface e) | None => false end.

Definition advertised_names_at (r : ToolRouter) (l : ToolLocation) : list string :=
  (λ e, name (advertised e)) <$>
    filter (λ e, location <$> connection e = Some l) (entries r).

Definition offered_namespaces (r : ToolRouter) (nss : list ToolNamespace) : list ToolNamespace :=
  omap (λ ns,
    let tools := omap (λ t, advertised <$>
      List.find (λ e, bool_decide (surface e = Deferred) && bool_decide (provider_name e = name t)) (entries r))
      (ns_tools ns) in
    match tools with
    | [] => None
    | _ => Some {| ns_name := ns_name ns; ns_description := ns_description ns; ns_tools := tools |}
    end) nss.

Fixpoint add_cost (label : string) (spent : Z) (totals : list (string * Z)) : list (string * Z) :=
  match totals with
  | [] => [(label, spent)]
  | (n, t) :: rest =>
      if bool_decide (n = label) then (n, sat_add u64_max t spent) :: rest
      else (n, t) :: add_cost label spent rest
  end.

Definition advertised_cost_by_connection (r : ToolRouter) (cost : ToolDefinition → Z) : list (string * Z) :=
  foldl (λ totals e,
    add_cost (match connection e with Some c => label c | None => "core-loop" end) (cost (advertised e)) totals)
    [] (filter (λ e, in_block (surface e) = true) (entries r)).

(** ** Tables that offers build *)

Inductive table_op :=
| TOffer (c : ToolConnection) (defs : list ToolDefinition)
| TDeferred (c : ToolConnection) (defs : list ToolDefinition)
| TNamed (c : ToolConnection) (defs : list ToolDefinition)
| TCore (def : ToolDefinition)
| TRetain (keep : string → bool).

Definition table_step (r : ToolRouter) (o : table_op) : ToolRouter :=
  match o with
  | TOffer c defs => offer r c defs
  | TDeferred c defs => offer_deferred r c defs
  | TNamed c defs => offer_named r c defs
  | TCore def => offer_core_loop_tool r def
  | TRetain keep => retain r keep
  end.

(** An entry's name is the one its connection and provider name compose. *)
Definition entry_ok (e : RoutedTool) : Prop :=
  match connection e with
  | Some c => compose_name (location c) (provider_name e) = Some (name (advertised e)) ∧ surface e ≠ CoreLoop
  | None => surface e = CoreLoop ∧ name (advertised e) = provider_name e
  end.

Definition names (r : ToolRouter) : list string := (λ e, name (advertised e)) <$> entries r.

Record table_ok (r : ToolRouter) : Prop := {
  ok_unique : NoDup (names r);
  ok_entries : Forall entry_ok (entries r)
}.

Lemma delete_take_drop {A} (l : list A) n : delete n l = take n l ++ drop (S n) l.
Proof. revert n. induction l as [|x l IH]; intros [|n]; try done. simpl. by rewrite <- IH. Qed.

Lemma split_at {A} (l : list A) n x : l !! n = Some x → l = take n l ++ x :: drop (S n) l.
Proof. intros Hx. rewrite <- (take_drop_middle l n x Hx) at 1. done. Qed.

(** What an insertion does, in terms of the entry that already holds the name. *)
Lemma insert_tool_cases r adv p c s :
  (∀ e, e ∈ entries r → name (advertised e) ≠ name adv) ∧
    entries (insert_tool r adv p c s) =
      entries r ++ [{| advertised := adv; provider_name := p; connection := c; surface := s |}] ∨
  (∃ l1 held l2, entries r = l1 ++ held :: l2 ∧ name (advertised held) = name adv ∧
     ((connection held = c ∧ provider_name held = p ∧ in_block (surface held) = false ∧ in_block s = true ∧
       entries (insert_tool r adv p c s) =
         (l1 ++ l2) ++ [{| advertised := adv; provider_name := p; connection := c; surface := s |}]) ∨
      entries (insert_tool r adv p c s) = entries r)).
Proof.
  unfold insert_tool. destruct (position _ (entries r)) as [pos|] eqn:E.
  - right. apply position_Some in E as (held & Hheld & Hn & _). apply bool_decide_eq_true in Hn.
    rewrite Hheld. exists (take pos (entries r)), held, (drop (S pos) (entries r)).
    split_and!; [by apply split_at|done|].
    destruct (bool_decide (connection held = c) && bool_decide (provider_name held = p)) eqn:Ec; bool_hyps; [|by right].
    destruct (negb (in_block (surface held)) && in_block s) eqn:Es; bool_hyps; [left|by right].
    subst. split_and!; try done. simpl. by rewrite delete_take_drop.
  - left. rewrite position_None, Forall_forall in E. split; [|done]. intros e He%E. by apply bool_decide_eq_false in He.
Qed.

Lemma insert_tool_ok r adv p c s :
  entry_ok {| advertised := adv; provider_name := p; connection := c; surface := s |} →
  table_ok r → table_ok (insert_tool r adv p c s).
Proof.
  intros He [Hu Hok]. unfold names in Hu.
  destruct (insert_tool_cases r adv p c s) as [[Hfresh Heq]|(l1 & held & l2 & Hr & Hn & [(Hc & Hp & _ & _ & Heq)|Heq])].
  - split; unfold names; rewrite Heq.
    + rewrite fmap_app. apply NoDup_app. split_and!; [done| |apply NoDup_singleton].
      intros n (e & -> & Hin)%list_elem_of_fmap Hs. apply list_elem_of_singleton in Hs. by apply (Hfresh e).
    + apply Forall_app. split; [done|by apply Forall_singleton].
  - rewrite Hr in *. rewrite fmap_app, fmap_cons in Hu. apply NoDup_app in Hu as (Hu1 & Hu12 & Hu2).
    apply NoDup_cons in Hu2 as [Hni Hu2]. apply Forall_app in Hok as [Hok1 [Hokh Hok2]%Forall_cons].
    split; unfold names; rewrite Heq.
    + rewrite !fmap_app. apply NoDup_app. split_and!; [|..|apply NoDup_singleton].
      * apply NoDup_app. split_and!; [done| |done]. intros n Hn1 Hn2. apply (Hu12 n Hn1). set_solver.
      * intros n [Hn1|Hn2]%elem_of_app Hs; apply list_elem_of_singleton in Hs; simpl in Hs; subst n; rewrite <- Hn in *.
        -- apply (Hu12 _ Hn1). set_solver.
        -- done.
    + rewrite !Forall_app, Forall_singleton. done.
  - split; unfold names; by rewrite Heq.
Qed.

Lemma admit_ok c s defs r : s ≠ CoreLoop → table_ok r → table_ok (admit_defs r c defs s).
Proof.
  intros Hs. revert r. induction defs as [|def defs IH]; intros r Hr; [done|]. apply IH.
  unfold admit_one. destruct (compose_name (location c) (name def)) eqn:E; [|done].
  by apply insert_tool_ok.
Qed.

Lemma table_step_ok r o : table_ok r → table_ok (table_step r o).
Proof.
  intros Hr. destruct o as [c defs|c defs|c defs|def|keep]; try by apply admit_ok.
  - by apply insert_tool_ok.
  - destruct Hr as [Hu Hok]. split.
    + unfold names in *. eapply sublist_NoDup; [exact Hu|]. apply fmap_sublist, sublist_filter.
    + apply Forall_forall. intros e [_ He]%list_elem_of_filter. by eapply Forall_forall in Hok.
Qed.

Lemma table_ops_ok ops : table_ok (foldl table_step ToolRouter_new ops).
Proof.
  assert (table_ok ToolRouter_new) as H by (split; constructor).
  revert H. generalize ToolRouter_new. induction ops as [|o ops IH]; intros r Hr; [done|].
  by apply IH, table_step_ok.
Qed.

(** A name resolves to the one entry that carries it. *)
Lemma find_unique (P : RoutedTool → bool) l e :
  e ∈ l → P e = true → (∀ x, x ∈ l → P x = true → x = e) → List.find P l = Some e.
Proof.
  intros He HP Hu. destruct (List.find P l) as [x|] eqn:E.
  - apply find_some in E as [Hin Hx]. f_equal. apply Hu; [by apply list_elem_of_In|done].
  - apply (find_none _ _) with (x := e) in E; [congruence|by apply list_elem_of_In].
Qed.

Lemma names_injective r x y :
  table_ok r → x ∈ entries r → y ∈ entries r → name (advertised x) = name (advertised y) → x = y.
Proof.
  intros [Hu _] [i Hi]%list_elem_of_lookup [j Hj]%list_elem_of_lookup Heq.
  assert (i = j) as ->; [|congruence].
  eapply (NoDup_lookup _ _ _ (name (advertised x)) Hu); unfold names; rewrite list_lookup_fmap; [by rewrite Hi|].
  rewrite Hj. simpl. by rewrite Heq.
Qed.

Lemma resolve_entry r e : table_ok r → e ∈ entries r → resolve r (name (advertised e)) = Some e.
Proof.
  intros Hr He. apply find_unique; [done|by apply bool_decide_eq_true|].
  intros x Hx Hn%bool_decide_eq_true. by eapply names_injective.
Qed.

(** The entry an offer makes of one of its definitions. *)
Definition offered (o : table_op) (e : RoutedTool) : Prop :=
  let on c defs s := connection e = Some c ∧ surface e = s ∧
    ∃ def, def ∈ defs ∧ provider_name e = name def ∧
      description (advertised e) = description def ∧ parameters (advertised e) = parameters def in
  match o with
  | TOffer c defs => on c defs Block
  | TDeferred c defs => on c defs Deferred
  | TNamed c defs => on c defs Named
  | TCore def => e = {| advertised := def; provider_name := name def; connection := None; surface := CoreLoop |}
  | TRetain _ => False
  end.

Lemma insert_tool_entries r adv p c s e :
  e ∈ entries (insert_tool r adv p c s) →
  e ∈ entries r ∨ e = {| advertised := adv; provider_name := p; connection := c; surface := s |}.
Proof.
  destruct (insert_tool_cases r adv p c s) as [[_ ->]|(l1 & held & l2 & Hr & _ & [(_ & _ & _ & _ & ->)| ->])];
    [| |by left].
  - rewrite elem_of_app, list_elem_of_singleton. tauto.
  - rewrite Hr, !elem_of_app, list_elem_of_singleton, elem_of_cons. tauto.
Qed.

Lemma admit_entries c s defs r e :
  e ∈ entries (admit_defs r c defs s) →
  e ∈ entries r ∨ connection e = Some c ∧ surface e = s ∧
    ∃ def, def ∈ defs ∧ provider_name e = name def ∧
      description (advertised e) = description def ∧ parameters (advertised e) = parameters def.
Proof.
  revert r. induction defs as [|def defs IH]; intros r; [by left|].
  intros [He|(? & ? & d & ? & ?)]%IH; [|right; set_solver].
  unfold admit_one in He. destruct (compose_name _ _); [|by left].
  apply insert_tool_entries in He as [He| ->]; [by left|]. right. simpl. split_and!; [done..|].
  exists def. set_solver.
Qed.

Lemma table_step_entries r o e : e ∈ entries (table_step r o) → e ∈ entries r ∨ offered o e.
Proof.
  destruct o as [c defs|c defs|c defs|def|keep]; simpl; try by apply admit_entries.
  - apply insert_tool_entries.
  - intros [_ He]%list_elem_of_filter. by left.
Qed.

Lemma table_entries_offered ops e :
  e ∈ entries (foldl table_step ToolRouter_new ops) → ∃ o, o ∈ ops ∧ offered o e.
Proof.
  induction ops as [|o ops IH] using rev_ind; [set_solver|].
  rewrite foldl_app. intros [(o' & Ho & He)%IH|He]%table_step_entries;
    [exists o'|exists o]; set_solver.
Qed.

(** C6. One table, one answer.  In every table that offers and the caller's
    allowlist can build, advertised names are unique; every definition the model
    is shown resolves to the entry it was taken from; the tool a connection
    offers under its own name is the one its composed name resolves to, and that
    entry is the only one of its connection with that name; every name the tool
    note lists without a schema is routed.  Nothing else resolves: a name
    resolves only to the entry that carries it, under the name composed from its
    connection and its provider name (a core-loop tool under its own), and made
    of a definition one of the offers brought; every other name is a miss. *)
Theorem one_table_answers_both_questions ops :
  let r := foldl table_step ToolRouter_new ops in
  NoDup (names r) ∧
  (∀ d, d ∈ advertised_definitions r → ∃ e, resolve r (name d) = Some e ∧ advertised e = d) ∧
  (∀ c t e, resolve_on r c t = Some e →
     connection e = Some c ∧ provider_name e = t ∧ resolve r (name (advertised e)) = Some e) ∧
  (∀ x y, x ∈ entries r → y ∈ entries r → connection x = connection y →
     provider_name x = provider_name y → x = y) ∧
  (∀ n, n ∈ named_only_names r → ∃ e, resolve r n = Some e ∧ surface e = Named) ∧
  (∀ n e, resolve r n = Some e →
     name (advertised e) = n ∧ entry_ok e ∧ e ∈ entries r ∧ ∃ o, o ∈ ops ∧ offered o e) ∧
  (∀ n, n ∉ names r → resolve r n = None).
Proof.
  intros r. pose proof (table_ops_ok ops) as Hr. fold r in Hr.
  assert (Hres : ∀ n e, resolve r n = Some e → name (advertised e) = n ∧ e ∈ entries r).
  { intros n e [Hin Hn]%find_some. by apply bool_decide_eq_true in Hn; apply list_elem_of_In in Hin. }
  split_and!.
  - apply Hr.
  - intros d (e & -> & [_ He]%list_elem_of_filter)%list_elem_of_fmap. exists e. by rewrite resolve_entry.
  - intros c t e [Hin Hp]%find_some. bool_hyps. split_and!; [done..|].
    apply resolve_entry; [done|by apply list_elem_of_In].
  - intros x y Hx Hy Hc Hp. eapply names_injective; [done..|].
    pose proof (proj1 (Forall_forall _ _) (ok_entries r Hr) x Hx) as Hox.
    pose proof (proj1 (Forall_forall _ _) (ok_entries r Hr) y Hy) as Hoy.
    unfold entry_ok in *. rewrite <- Hc, <- Hp in Hoy. destruct (connection x); [|destruct Hox, Hoy; congruence].
    destruct Hox, Hoy. congruence.
  - intros n (e & -> & [Hs He]%list_elem_of_filter)%list_elem_of_fmap. exists e. by rewrite resolve_entry.
  - intros n e [Hn He]%Hres. split_and!; [done| |done|by apply table_entries_offered].
    by apply (proj1 (Forall_forall _ _) (ok_entries r Hr)).
  - intros n Hn. destruct (resolve r n) as [e|] eqn:E; [|done]. apply Hres in E as [<- He].
    destruct Hn. by apply (list_elem_of_fmap_2 (λ e, name (advertised e))).
Qed.

(** ** Roots *)

Lemma trim_start_suffix l : ∃ p, l = p ++ trim_start_matches l.
Proof.
  induction l as [|a l [p IH]]; [by exists []|]. simpl. destruct (is_sep a); [|by exists []].
  exists (a :: p). simpl. by rewrite <- IH.
Qed.

Lemma trim_start_head l a : head (trim_start_matches l) = Some a → is_sep a = false.
Proof.
  induction l as [|b l IH]; [done|]. simpl. destruct (is_sep b) eqn:E; [done|]. by intros [= <-].
Qed.

Lemma trim_matches_spec l :
  (∃ p q, l = p ++ trim_matches l ++ q) ∧
  (∀ a, head (trim_matches l) = Some a → is_sep a = false) ∧
  (∀ a, last (trim_matches l) = Some a → is_sep a = false).
Proof.
  unfold trim_matches. destruct (trim_start_suffix l) as [p Hp].
  set (m := trim_start_matches l) in *. destruct (trim_start_suffix (rev m)) as [q Hq].
  set (t := trim_start_matches (rev m)) in *.
  assert (Hm : m = rev t ++ rev q) by (rewrite <- rev_app_distr, <- Hq; by rewrite rev_involutive).
  split_and!.
  - exists p, (rev q). by rewrite <- Hm.
  - intros a Ha. apply (trim_start_head l). fold m. rewrite Hm. by destruct (rev t).
  - intros a Ha. apply (trim_start_head (rev m)). fold t. rewrite <- Ha, rev_alt. symmetry. apply last_reverse.
Qed.

(** What a provider's name becomes: between 1 and 120 name characters, neither
    starting nor ending with a separator. *)
Definition segment_ok (seg : string) : Prop :=
  let l := String.list_ascii_of_string seg in
  0 < length l ≤ MAX_SEGMENT_CHARS ∧ Forall (λ a, name_char a = true) l ∧
  (∀ a, head l = Some a → is_sep a = false) ∧ (∀ a, last l = Some a → is_sep a = false).

Lemma sanitize_segment_ok raw seg : sanitize_segment raw = Some seg → segment_ok seg.
Proof.
  unfold sanitize_segment. case_bool_decide as Hne; [done|]. intros [= <-]. unfold segment_ok.
  rewrite String.list_ascii_of_string_of_list_ascii.
  set (kept := take MAX_SEGMENT_CHARS _) in *.
  destruct (trim_matches_spec kept) as ((p & q & Hk) & Hh & Hl). split_and!; try done.
  - destruct (trim_matches kept); [done|simpl; lia].
  - assert (length kept ≤ MAX_SEGMENT_CHARS) as Hlen by (unfold kept; rewrite length_take; lia).
    rewrite Hk in Hlen. rewrite !length_app in Hlen. lia.
  - assert (Forall (λ a, name_char a = true) kept) as Hf.
    { unfold kept. apply Forall_take, Forall_forall. by intros a [Ha _]%list_elem_of_filter. }
    rewrite Hk in Hf. by apply Forall_app in Hf as [_ [Hf _]%Forall_app].
Qed.

Lemma root_prefix l l' seg : starts_with (root l +:+ seg) (root l') = bool_decide (l' = l).
Proof. destruct l, l'; simpl; by destruct seg. Qed.

Lemma strip_compose l seg : strip_location (root l +:+ seg) = seg.
Proof.
  unfold strip_location, strip_prefix. destruct l; cbn [ALL find_map]; rewrite !root_prefix; simpl;
    by destruct seg.
Qed.

(** A tool cannot name itself out of its root.  In every table, an entry a
    connection offered is advertised under exactly one root, that of the
    connection's own location, followed by a bounded, legible segment; the
    prefix and the entry's connection agree on where it runs, and removing the
    root once gives the segment back, whatever the provider called the tool. *)
Theorem roots_cannot_be_escaped ops e c :
  e ∈ entries (foldl table_step ToolRouter_new ops) → connection e = Some c →
  ∃ seg, sanitize_segment (provider_name e) = Some seg ∧ segment_ok seg ∧
    name (advertised e) = root (location c) +:+ seg ∧
    (∀ l, starts_with (name (advertised e)) (root l) = bool_decide (l = location c)) ∧
    (is_client e = true ↔ starts_with (name (advertised e)) (root Client) = true) ∧
    strip_location (name (advertised e)) = seg.
Proof.
  intros He Hc. pose proof (proj1 (Forall_forall _ _) (ok_entries _ (table_ops_ok ops)) e He) as Hok.
  unfold entry_ok in Hok. rewrite Hc in Hok. destruct Hok as [Hn _]. unfold compose_name in Hn.
  destruct (sanitize_segment (provider_name e)) as [seg|] eqn:Es; [|done]. injection Hn as Hn.
  exists seg. rewrite <- Hn. split_and!; try done.
  - by eapply sanitize_segment_ok.
  - intros l. apply root_prefix.
  - rewrite root_prefix. unfold is_client. rewrite Hc. by destruct (location c).
  - apply strip_compose.
Qed.

(** ** The order of the block *)

Lemma insert_tool_block r adv p c s :
  advertised_definitions r `prefix_of` advertised_definitions (insert_tool r adv p c s).
Proof.
  unfold advertised_definitions.
  destruct (insert_tool_cases r adv p c s) as [[_ Heq]|(l1 & held & l2 & Hr & _ & [(_ & _ & Hb & _ & Heq)|Heq])];
    rewrite Heq; [|rewrite Hr|done].
  - rewrite filter_app, fmap_app. by apply prefix_app_r.
  - rewrite !filter_app, filter_cons, decide_False by (by rewrite Hb).
    rewrite !fmap_app. by apply prefix_app_r.
Qed.

Lemma admit_block c s defs r :
  advertised_definitions r `prefix_of` advertised_definitions (admit_defs r c defs s).
Proof.
  revert r. induction defs as [|def defs IH]; intros r; [done|]. simpl. etrans; [|apply IH].
  unfold admit_one. destruct (compose_name _ _); [apply insert_tool_block|done].
Qed.

Definition is_offer (o : table_op) : bool := match o with TRetain _ => false | _ => true end.

(** The block only grows at its end.  Whatever a round offers on top of a
    table - new tools, deferred or named ones, a tool already known promoted into
    the block, a refused duplicate - the definitions advertised before are a
    prefix of the definitions advertised after; and an offer of a name another
    tool holds leaves every entry as it was and is reported. *)
Theorem offers_extend_the_block r ops :
  forallb is_offer ops = true →
  advertised_definitions r `prefix_of` advertised_definitions (foldl table_step r ops) ∧
  ∀ adv p c s held, held ∈ entries r → NoDup (names r) → name (advertised held) = name adv →
    connection held ≠ c ∨ provider_name held ≠ p →
    entries (insert_tool r adv p c s) = entries r ∧
    duplicates (insert_tool r adv p c s) = duplicates r ++
      [{| dup_name := name adv; held_by := claimant (connection held) (provider_name held);
          refused := claimant c p |}].
Proof.
  intros Hops. split.
  - revert r Hops. induction ops as [|o ops IH]; intros r Hops; [done|]. simpl in Hops. bool_hyps.
    simpl. etrans; [|by apply IH]. destruct o; try done; try apply admit_block. apply insert_tool_block.
  - intros adv p c s held Hin Hnd Hn Hne. unfold insert_tool.
    destruct (position _ (entries r)) as [pos|] eqn:E.
    + apply position_Some in E as (h & Hh & Hhn%bool_decide_eq_true & _). rewrite Hh.
      apply list_elem_of_lookup in Hin as [j Hj].
      assert (pos = j) as ->.
      { eapply (NoDup_lookup _ _ _ (name adv) Hnd); unfold names; rewrite list_lookup_fmap;
          [rewrite Hh|rewrite Hj]; simpl; congruence. }
      assert (h = held) as -> by congruence.
      destruct (bool_decide (connection held = c) && bool_decide (provider_name held = p)) eqn:Eb; [|done].
      bool_hyps. naive_solver.
    + rewrite position_None, Forall_forall in E. specialize (E held Hin). by apply bool_decide_eq_false in E.
Qed.

End router.

(** ** Witnesses *)

Definition a_tool (n : string) : ToolDefinition (Json := unit) := {| name := n; description := "d"; parameters := tt |}.

Definition some_ops : list (table_op (Json := unit)) :=
  [TOffer daemon_builtins [a_tool "search"]; TDeferred (daemon_server "fileio") [a_tool "fileio__read"];
   TOffer client_device [a_tool "daemon_read"]; TOffer (daemon_server "fileio") [a_tool "fileio__read"]].

Lemma roots_cannot_be_escaped_witness :
  strip_location "client_daemon_read" = "daemon_read" ∧
  starts_with "client_daemon_read" (root Daemon) = false.
Proof.
  destruct (roots_cannot_be_escaped some_ops
    {| advertised := a_tool "client_daemon_read"; provider_name := "daemon_read";
       connection := Some client_device; surface := Block |} client_device)
    as (seg & Hs & _ & Hn & Hr & _ & Hstrip); [|done|].
  - apply list_elem_of_lookup. exists 1. vm_compute. reflexivity.
  - split; [|by apply (Hr Daemon)]. cbn [name advertised a_tool] in Hstrip. rewrite Hstrip.
    vm_compute in Hs. by injection Hs as <-.
Defined.

Lemma offers_extend_the_block_witness :
  advertised_definitions (foldl table_step ToolRouter_new [TOffer daemon_builtins [a_tool "search"]])
    `prefix_of`
  advertised_definitions (foldl table_step (foldl table_step ToolRouter_new [TOffer daemon_builtins [a_tool "search"]])
    [TNamed client_device [a_tool "x"]; TOffer client_device [a_tool "x"]]).
Proof. apply offers_extend_the_block. reflexivity. Defined.
