(* ===== verification/ToolAdvertising.v ===== *)
(** * The tools a turn's searches activated

    Models the [ActivationLedger] of [crates/core/src/tool_advertising.rs]: a
    bounded list of activated tools that retires the longest unused one under
    pressure, and never one the current round works with. *)

From S2P Require Import Prelude ToolRouting.

#[local] Open Scope nat_scope.

Definition MAX_ACTIVATED_TOOLS : nat := 24.

Section ledger.
Context {Json : Type}.
Notation ToolDefinition := (ToolDefinition (Json := Json)).

Inductive Activated := IsAdmitted (retired : option string) | AlreadyHeld | Refused.

Record Activation := {
  act_connection : ToolConnection;
  def : ToolDefinition;
  last_used_round : nat
}.

Record ActivationLedger := { activations : list Activation; bound : nat }.

Definition with_bound (b : nat) : ActivationLedger := {| activations := []; bound := b |}.
Definition ActivationLedger_new : ActivationLedger := with_bound MAX_ACTIVATED_TOOLS.

Definition named (n : string) (e : Activation) : bool := bool_decide (name (def e) = n).

Definition holds (l : ActivationLedger) (provider_name : string) : bool :=
  existsb (named provider_name) (activations l).

Definition touch (e : Activation) (round : nat) : Activation :=
  {| act_connection := act_connection e; def := def e; last_used_round := round |}.

(** [iter_mut().find(..)]: the first entry of that name is refreshed. *)
Definition refresh (l : ActivationLedger) (n : string) (round : nat) : option ActivationLedger :=
  match position (named n) (activations l) with
  | Some i => Some {| activations := alter (λ e, touch e round) i (activations l); bound := bound l |}
  | None => None
  end.

(** [enumerate().min_by_key(|(i, e)| (e.last_used_round, i))]: the longest
    unused, the earliest of those. *)
Fixpoint oldest (l : list Activation) : option (nat * Activation) :=
  match l with
  | [] => None
  | e :: rest =>
      match oldest rest with
      | Some (i, e') => if last_used_round e' <? last_used_round e then Some (S i, e') else Some (0, e)
      | None => Some (0, e)
      end
  end.

Definition activate (l : ActivationLedger) (c : ToolConnection) (d : ToolDefinition) (round : nat)
    : ActivationLedger * Activated :=
  match refresh l (name d) round with
  | Some l' => (l', AlreadyHeld)
  | None =>
      let push es := {| activations := es ++ [{| act_connection := c; def := d; last_used_round := round |}];
                        bound := bound l |} in
      if bound l <=? length (activations l)
      then match oldest (activations l) with
           | Some (i, e) =>
               if last_used_round e <? round
               then (push (delete i (activations l)), IsAdmitted (Some (name (def e))))
               else (l, Refused)
           | None => (l, Refused)
           end
      else (push (activations l), IsAdmitted None)
  end.

Definition mark_used (l : ActivationLedger) (provider_name : string) (round : nat) : ActivationLedger :=
  default l (refresh l provider_name round).

Definition offers (l : ActivationLedger) : list (ToolConnection * ToolDefinition) :=
  (λ e, (act_connection e, def e)) <$> activations l.

(** ** Runs of a turn *)

Inductive LedgerOp := Activate (c : ToolConnection) (d : ToolDefinition) (round : nat) | Used (n : string) (round : nat).

Definition ledger_step (l : ActivationLedger) (o : LedgerOp) : ActivationLedger :=
  match o with
  | Activate c d r => (activate l c d r).1
  | Used n r => mark_used l n r
  end.

Definition round_of (o : LedgerOp) : nat := match o with Activate _ _ r | Used _ r => r end.

Definition tool_names (l : ActivationLedger) : list string := (λ e, name (def e)) <$> activations l.

(** ** Lemmas *)

Lemma holds_spec l n : holds l n = true ↔ n ∈ tool_names l.
Proof.
  unfold holds, tool_names, named. rewrite existsb_exists, list_elem_of_fmap. split.
  - intros (e & Hin%list_elem_of_In & E%bool_decide_eq_true). eauto.
  - intros (e & -> & Hin%list_elem_of_In). exists e. by rewrite bool_decide_true.
Qed.

Lemma fmap_alter_touch {B} (f : Activation → B) (l : list Activation) (i : nat) round :
  (∀ e, f (touch e round) = f e) → f <$> alter (λ e, touch e round) i l = f <$> l.
Proof.
  intros Hf. revert i. induction l as [|e l IH]; intros [|i]; try done; cbn; [by rewrite Hf|]. f_equal. apply IH.
Qed.

Lemma refresh_Some l n round l' :
  refresh l n round = Some l' →
  offers l' = offers l ∧ tool_names l' = tool_names l ∧ bound l' = bound l ∧ n ∈ tool_names l ∧
  (∀ e, e ∈ activations l → ∃ e', e' ∈ activations l' ∧ def e' = def e ∧
     (last_used_round e' = last_used_round e ∨ last_used_round e' = round)).
Proof.
  unfold refresh. destruct (position (named n) (activations l)) as [i|] eqn:E; [|done]. intros [= <-].
  apply position_Some in E as (e & Hi & Hn%bool_decide_eq_true & _). split_and!.
  - by apply fmap_alter_touch.
  - by apply fmap_alter_touch.
  - done.
  - apply list_elem_of_fmap. exists e. split; [done|]. by eapply list_elem_of_lookup_2.
  - intros x [j Hj]%list_elem_of_lookup. simpl. destruct (decide (j = i)) as [->|Hne].
    + exists (touch x round). split; [|by auto]. eapply list_elem_of_lookup_2.
      rewrite list_lookup_alter_eq, Hj. done.
    + exists x. split; [|by auto]. eapply list_elem_of_lookup_2. by rewrite list_lookup_alter_ne.
Qed.

Lemma refresh_None l n round : refresh l n round = None → n ∉ tool_names l.
Proof.
  unfold refresh. destruct (position _ _) eqn:E; [done|]. intros _ (e & -> & He)%list_elem_of_fmap.
  apply position_None in E. rewrite Forall_forall in E. specialize (E e He). unfold named in E.
  by rewrite bool_decide_true in E.
Qed.

Lemma oldest_None l : oldest l = None ↔ l = [].
Proof. destruct l as [|e l]; [done|]. simpl. destruct (oldest l) as [[i e']|]; [destruct (_ <? _)|]; done. Qed.

Lemma oldest_Some l i e :
  oldest l = Some (i, e) →
  l !! i = Some e ∧
  ∀ j x, l !! j = Some x → last_used_round e ≤ last_used_round x ∧ (last_used_round x = last_used_round e → i ≤ j).
Proof.
  revert i e. induction l as [|h l IH]; intros i e; [done|]. cbn [oldest].
  destruct (oldest l) as [[k m]|] eqn:E.
  - destruct (IH k m eq_refl) as [Hk Hm]. destruct (Nat.ltb_spec (last_used_round m) (last_used_round h)); intros [= <- <-].
    + split; [done|]. intros [|j] x Hx; simpl in Hx; [simplify_eq; lia|]. destruct (Hm j x Hx). lia.
    + split; [done|]. intros [|j] x Hx; simpl in Hx; [simplify_eq; lia|]. destruct (Hm j x Hx). lia.
  - intros [= <- <-]. apply oldest_None in E as ->. split; [done|]. intros [|j] x Hx; simplify_eq/=. lia.
Qed.

(** What one activation did. *)
Definition activation_spec (l : ActivationLedger) (c : ToolConnection) (d : ToolDefinition) (round : nat)
    (l' : ActivationLedger) (a : Activated) : Prop :=
  match a with
  | AlreadyHeld => holds l (name d) = true ∧ offers l' = offers l
  | Refused =>
      l' = l ∧ holds l (name d) = false ∧ bound l ≤ length (activations l) ∧
      ∀ e, e ∈ activations l → round ≤ last_used_round e
  | IsAdmitted None =>
      holds l (name d) = false ∧ length (activations l) < bound l ∧ offers l' = offers l ++ [(c, d)]
  | IsAdmitted (Some v) =>
      holds l (name d) = false ∧ bound l ≤ length (activations l) ∧
      ∃ i e, activations l !! i = Some e ∧ name (def e) = v ∧ last_used_round e < round ∧
        (∀ j x, activations l !! j = Some x →
           last_used_round e ≤ last_used_round x ∧ (last_used_round x = last_used_round e → i ≤ j)) ∧
        offers l' = delete i (offers l) ++ [(c, d)]
  end.

Lemma not_holds l n : n ∉ tool_names l → holds l n = false.
Proof. rewrite <-holds_spec. apply not_true_is_false. Qed.

Lemma fmap_delete {A B} (f : A → B) (l : list A) i : f <$> delete i l = delete i (f <$> l).
Proof. revert i. induction l as [|x l IH]; intros [|i]; try done. cbn. f_equal. apply IH. Qed.

Lemma activate_ok l c d round : let '(l', a) := activate l c d round in activation_spec l c d round l' a.
Proof.
  unfold activate. destruct (refresh l (name d) round) as [l'|] eqn:Er.
  { destruct (refresh_Some _ _ _ _ Er) as (Ho & _ & _ & Hn & _). split; [by apply holds_spec|done]. }
  pose proof (not_holds _ _ (refresh_None _ _ _ Er)) as Hn.
  destruct (Nat.leb_spec (bound l) (length (activations l))) as [Hf|Hf].
  - destruct (oldest (activations l)) as [[i e]|] eqn:Eo.
    + destruct (oldest_Some _ _ _ Eo) as [Hi Hmin]. destruct (Nat.ltb_spec (last_used_round e) round).
      * split_and!; [done|done|]. exists i, e. split_and!; [done..|]. unfold offers. simpl.
        by rewrite fmap_app, fmap_delete.
      * split_and!; [done..|]. intros x [j Hj]%list_elem_of_lookup. destruct (Hmin j x Hj). lia.
    + apply oldest_None in Eo. split_and!; [done..|]. rewrite Eo. set_solver.
  - split_and!; [done|done|]. unfold offers. simpl. by rewrite fmap_app.
Qed.

(** Its size and names. *)
Record ledger_ok (b : nat) (l : ActivationLedger) : Prop := {
  ok_bound : bound l = b;
  ok_length : length (activations l) ≤ b;
  ok_names : NoDup (tool_names l)
}.

Lemma delete_sublist {A} (l : list A) i : delete i l `sublist_of` l.
Proof. revert i. induction l as [|x l IH]; intros [|i]; cbn; [constructor|constructor|by constructor|by constructor]. Qed.

Lemma refresh_ok b l n round l' : ledger_ok b l → refresh l n round = Some l' → ledger_ok b l'.
Proof.
  intros [H1 H2 H3] Er. destruct (refresh_Some _ _ _ _ Er) as (Ho & Hn & Hb & _).
  split; [congruence| |by rewrite Hn].
  apply (f_equal length) in Hn. unfold tool_names in Hn. rewrite !length_fmap in Hn. lia.
Qed.

Lemma ledger_step_ok b l o : ledger_ok b l → ledger_ok b (ledger_step l o).
Proof.
  intros K. destruct o as [c d r|n r]; cbn [ledger_step].
  - unfold activate. destruct (refresh l (name d) r) as [l'|] eqn:Er; [by eapply refresh_ok|].
    destruct K as [H1 H2 H3]. pose proof (refresh_None _ _ _ Er) as Hn.
    destruct (Nat.leb_spec (bound l) (length (activations l))) as [Hf|Hf].
    + destruct (oldest (activations l)) as [[i e]|] eqn:Eo; [|done].
      destruct (oldest_Some _ _ _ Eo) as [Hi _]. destruct (_ <? _); [|done].
      pose proof (lookup_lt_Some _ _ _ Hi). pose proof (length_delete (activations l) i ltac:(eauto)).
      split; simpl; [done|rewrite length_app; simpl; lia|].
      unfold tool_names. simpl. rewrite fmap_app, fmap_delete. apply NoDup_app. split_and!.
      * eapply sublist_NoDup; [exact H3|apply delete_sublist].
      * intros x Hx. simpl. intros ->%list_elem_of_singleton. apply Hn.
        eapply elem_of_sublist; [exact Hx|apply delete_sublist].
      * apply NoDup_singleton.
    + split; simpl; [done|rewrite length_app; simpl; lia|].
      unfold tool_names. simpl. rewrite fmap_app. apply NoDup_app. split_and!; [done| |apply NoDup_singleton].
      intros x Hx. simpl. by intros ->%list_elem_of_singleton.
  - unfold mark_used. destruct (refresh l n r) as [l'|] eqn:Er; [by eapply refresh_ok|done].
Qed.

Lemma ledger_run_ok b ops : ledger_ok b (foldl ledger_step (with_bound b) ops).
Proof.
  assert (K : ledger_ok b (with_bound b)) by (split; simpl; [done|lia|constructor]).
  revert K. generalize (with_bound b). induction ops as [|o ops IH]; intros l K; [done|].
  by apply IH, ledger_step_ok.
Qed.

(** A tool of the current round stays through every operation of that round. *)
Lemma round_keeps l o round d :
  (∃ e, e ∈ activations l ∧ def e = d ∧ last_used_round e = round) → round_of o = round →
  ∃ e, e ∈ activations (ledger_step l o) ∧ def e = d ∧ last_used_round e = round.
Proof.
  intros (e & He & Hd & Hr) Ho.
  assert (Hkeep : ∀ n l', refresh l n round = Some l' →
    ∃ e, e ∈ activations l' ∧ def e = d ∧ last_used_round e = round).
  { intros n l' Er. destruct (refresh_Some _ _ _ _ Er) as (_ & _ & _ & _ & Hk).
    destruct (Hk e He) as (e' & ? & ? & Hor). exists e'. split_and!; [done|congruence|]. destruct Hor; congruence. }
  destruct o as [c d' r|n r]; cbn [ledger_step round_of] in *; subst r.
  - unfold activate. destruct (refresh l (name d') round) as [l'|] eqn:Er; [by eapply Hkeep|].
    destruct (_ <=? _).
    + destruct (oldest (activations l)) as [[i x]|] eqn:Eo; [|by eauto].
      destruct (oldest_Some _ _ _ Eo) as [Hi _]. destruct (Nat.ltb_spec (last_used_round x) round); [|by eauto].
      exists e. split_and!; [|done|done]. simpl. apply elem_of_app. left.
      rewrite delete_take_drop. rewrite (split_at _ _ _ Hi) in He.
      apply elem_of_app in He as [He|He]; [set_solver|]. apply elem_of_cons in He as [->|He]; [lia|set_solver].
    + exists e. split_and!; [|done|done]. simpl. apply elem_of_app. by left.
  - unfold mark_used. destruct (refresh l n round) as [l'|] eqn:Er; [by eapply Hkeep|by eauto].
Qed.

(** after any activations and uses, the ledger holds at most its bound of
    tools, each once.  Activating a held tool changes nothing that is offered;
    under the bound it appends; at the bound it retires exactly the longest
    unused tool (the earliest of those), which was not used this round, and
    appends; it is refused exactly when every held tool was used this round or
    later.  And a tool activated or used in a round is still offered after any
    further operations of that round. *)
Theorem activations_are_bounded_and_fair b ops :
  let l := foldl ledger_step (with_bound b) ops in
  length (activations l) ≤ b ∧ bound l = b ∧ NoDup (tool_names l) ∧
  (∀ c d round, let '(l', a) := activate l c d round in activation_spec l c d round l' a) ∧
  (∀ e more, e ∈ activations l → (∀ o, o ∈ more → round_of o = last_used_round e) →
     ∃ c, (c, def e) ∈ offers (foldl ledger_step l more)).
Proof.
  intros l. destruct (ledger_run_ok b ops) as [H1 H2 H3]. split_and!; [done..|intros; apply activate_ok|].
  intros e more He Hmore.
  assert (H : ∃ e', e' ∈ activations (foldl ledger_step l more) ∧ def e' = def e ∧
    last_used_round e' = last_used_round e).
  { assert (H0 : ∃ e', e' ∈ activations l ∧ def e' = def e ∧ last_used_round e' = last_used_round e) by eauto.
    clear He H1 H2 H3. clearbody l. revert l H0.
    induction more as [|o more IH]; intros l0 H0; [done|]. cbn [foldl]. apply IH.
    - intros o' Ho'. apply Hmore. by right.
    - apply round_keeps; [done|]. apply Hmore. by left. }
  destruct H as (e' & He' & <- & _). exists (act_connection e'). apply list_elem_of_fmap. eauto.
Qed.

End ledger.
