(* ===== verification/VerbatimWindow.v ===== *)
(** * How much of the transcript a turn carries verbatim

    Models [crates/core/src/verbatim_window.rs]: the number of most recent
    messages that fit a token target, cut at a turn boundary, and which target
    is in force for a model.

    The fraction of the budget is a product in floating point: it enters
    [target_tokens] as the parameter [share].  The token estimator is a
    parameter; [u64] sums of estimates are taken not to wrap. *)

From S2P Require Import Prelude Messages.

#[local] Open Scope nat_scope.

(** ** The target *)

Definition DEFAULT_WINDOW_CEILING_TOKENS : Z := 60000.

Section policy.
Context {Ratio : Type} (share : Z → Ratio → Z).

Record WindowTarget := { ratio : Ratio; ceiling_tokens : Z }.

Record WindowPolicy := {
  enabled : bool;
  default_target : WindowTarget;
  by_model : gmap string WindowTarget
}.

(** [WindowTarget::tokens]. *)
Definition target_tokens (t : WindowTarget) (effective_budget : Z) : Z :=
  Z.max (Z.min (share effective_budget (ratio t)) (ceiling_tokens t)) 1.

Definition target_for (pol : WindowPolicy) (model : string) : option WindowTarget :=
  if enabled pol then Some (default (default_target pol) (by_model pol !! model)) else None.

End policy.

(** ** The window *)

Section window.
Context (estimate : string → Z) (p : ContextProjection).

(** Indices of the messages that open a turn. *)
Definition turn_starts (messages : list Message) : list nat :=
  omap (λ im : nat * Message, if bool_decide (role im.2 = User) then Some im.1 else None)
    (imap (λ i m, (i, m)) messages).

Definition cost_of (messages : list Message) : Z :=
  sum_Z (λ m, estimate (projected_content p m)) messages.

Definition slice (messages : list Message) (from to : nat) : list Message := take (to - from) (drop from messages).

(** The loop over the earlier openings, most recent first. *)
Fixpoint grow (messages : list Message) (target_tokens : Z) (starts : list nat) (count : nat) (spent : Z) : nat :=
  match starts with
  | [] => count
  | start :: rest =>
      let window_start := length messages - count in
      let cost := cost_of (slice messages start window_start) in
      if (target_tokens <? sat_add u64_max spent cost)%Z then count
      else grow messages target_tokens rest (length messages - start) (spent + cost)%Z
  end.

Definition messages_within_tokens (messages : list Message) (target_tokens : Z) : nat :=
  match reverse (turn_starts messages) with
  | [] => length messages
  | last :: earlier =>
      grow messages target_tokens earlier (length messages - last) (cost_of (drop last messages))
  end.

(** ** Lemmas *)

Lemma elem_of_turn_starts ms i : i ∈ turn_starts ms ↔ ∃ m, ms !! i = Some m ∧ role m = User.
Proof.
  unfold turn_starts. rewrite list_elem_of_omap. split.
  - intros ([j m] & Hin & E). apply list_elem_of_lookup in Hin as [k Hk].
    rewrite list_lookup_imap in Hk. apply fmap_Some in Hk as (m' & Hm & [= -> ->]). simpl in E.
    case_bool_decide; simplify_eq. eauto.
  - intros (m & Hm & Hr). exists (i, m). simpl. rewrite bool_decide_true by done. split; [|done].
    apply list_elem_of_lookup. exists i. by rewrite list_lookup_imap, Hm.
Qed.

Lemma omap_imap_sorted (f : nat * Message → option nat) (ms : list Message) k :
  (∀ i m j, f (i, m) = Some j → j = i) →
  StronglySorted lt (omap f (imap (λ i m, (k + i, m)) ms)) ∧
  Forall (λ i, k ≤ i) (omap f (imap (λ i m, (k + i, m)) ms)).
Proof.
  intros Hf. revert k. induction ms as [|m ms IH]; intros k; [split; constructor|].
  rewrite imap_cons. specialize (IH (S k)) as [IHs IHf].
  assert (E : imap ((λ i m, (k + i, m)) ∘ S) ms = imap (λ i m, (S k + i, m)) ms).
  { apply imap_ext. intros i x _. simpl. f_equal. lia. }
  rewrite E. cbn. rewrite Nat.add_0_r. destruct (f (k, m)) as [j|] eqn:Ej.
  - apply Hf in Ej as ->. split; constructor; try done; eapply Forall_impl; try exact IHf; simpl; lia.
  - split; [done|]. eapply Forall_impl; [exact IHf|]. simpl. lia.
Qed.

Lemma turn_starts_sorted ms : StronglySorted lt (turn_starts ms).
Proof.
  unfold turn_starts.
  apply (omap_imap_sorted (λ im, if bool_decide (role im.2 = User) then Some im.1 else None) ms 0).
  intros i m j. simpl. case_bool_decide; naive_solver.
Qed.

Lemma reverse_sorted (l : list nat) : StronglySorted lt l → StronglySorted (λ a b, b < a) (reverse l).
Proof.
  induction 1 as [|x l Hs IH Hf]; [constructor|]. rewrite reverse_cons. rewrite Forall_forall in Hf.
  assert (Hf' : ∀ y, y ∈ reverse l → x < y) by (intros y Hy; apply Hf; by apply elem_of_reverse).
  clear Hs Hf. induction IH as [|y k Hk IHk Hfk]; cbn; [repeat constructor|]. constructor.
  - apply IHk. intros z Hz. apply Hf'. by right.
  - apply Forall_app. split; [done|]. apply Forall_singleton, Hf'. by left.
Qed.

Hypothesis estimate_nonneg : ∀ s, (0 ≤ estimate s)%Z.

Lemma cost_nonneg ms : (0 ≤ cost_of ms)%Z.
Proof. apply sum_Z_nonneg. intros m. apply estimate_nonneg. Qed.

Lemma cost_split ms a b :
  a ≤ b → (cost_of (drop a ms) = cost_of (slice ms a b) + cost_of (drop b ms))%Z.
Proof.
  intros Hab. unfold cost_of, slice. rewrite <-sum_Z_app. f_equal.
  rewrite <-(take_drop (b - a) (drop a ms)) at 1. f_equal. rewrite drop_drop. f_equal. lia.
Qed.

Lemma cost_drop_mono ms a b : a ≤ b → (cost_of (drop b ms) ≤ cost_of (drop a ms))%Z.
Proof. intros Hab. rewrite (cost_split ms a b Hab). pose proof (cost_nonneg (slice ms a b)). lia. Qed.

(** The window that [grow] returns, among the openings it walked. *)
Lemma grow_spec ms target starts count :
  StronglySorted (λ a b, b < a) (length ms - count :: starts) → count ≤ length ms →
  (∀ s, s ∈ starts → s < length ms) →
  let start := length ms - grow ms target starts count (cost_of (drop (length ms - count) ms)) in
  grow ms target starts count (cost_of (drop (length ms - count) ms)) ≤ length ms ∧
  start ∈ length ms - count :: starts ∧
  (start = length ms - count ∨ (Z.min u64_max (cost_of (drop start ms)) ≤ target)%Z) ∧
  (∀ s, s ∈ starts → s < start → (target < Z.min u64_max (cost_of (drop s ms)))%Z).
Proof.
  revert count. induction starts as [|s rest IH]; intros count Hsort Hc Hin.
  { simpl. split_and!; [done|by left|by left|set_solver]. }
  apply StronglySorted_inv in Hsort as [Hsort Hlt]. rewrite Forall_cons in Hlt. destruct Hlt as [Hs Hlt].
  assert (Hsl : s < length ms) by (apply Hin; by left).
  pose proof (cost_split ms s (length ms - count) ltac:(lia)) as Ec.
  cbn [grow]. unfold sat_add.
  rewrite (Z.add_comm (cost_of (drop (length ms - count) ms))), <-Ec.
  destruct (Z.ltb_spec target (Z.min u64_max (cost_of (drop s ms)))) as [Hover|Hfit].
  - split_and!; [done|by left|by left|]. intros x [->|Hx]%elem_of_cons Hlt'; [done|].
    apply StronglySorted_inv in Hsort as [_ Hf]. rewrite Forall_forall in Hf. specialize (Hf x Hx).
    pose proof (cost_drop_mono ms x s ltac:(lia)). lia.
  - specialize (IH (length ms - s)). replace (length ms - (length ms - s)) with s in IH by lia.
    destruct IH as (I1 & I2 & I3 & I4); [done|lia|intros; apply Hin; by right|].
    split_and!; [done|by right| |].
    + right. destruct I3 as [->|I3]; [done|exact I3].
    + intros x [->|Hx]%elem_of_cons Hx2; [|by apply I4]. exfalso.
      apply elem_of_cons in I2 as [E|Hin2]; [lia|].
      apply StronglySorted_inv in Hsort as [_ Hf]. rewrite Forall_forall in Hf. specialize (Hf _ Hin2). lia.
Qed.

(** the count names a suffix that opens on a user message and holds the
    whole most recent turn, whatever it costs; when it holds more, it fits the
    target; and no earlier opening would have fitted.  A transcript with no user
    message is kept whole. *)
Theorem window_is_the_longest_that_fits ms target :
  let count := messages_within_tokens ms target in
  let start := length ms - count in
  let opens i := ∃ m, ms !! i = Some m ∧ role m = User in
  count ≤ length ms ∧
  ((∀ i, ¬ opens i) → count = length ms) ∧
  (∀ last, opens last → (∀ i, opens i → i ≤ last) →
     opens start ∧ start ≤ last ∧
     (start = last ∨ (Z.min u64_max (cost_of (drop start ms)) ≤ target)%Z) ∧
     (∀ i, opens i → i < start → (target < Z.min u64_max (cost_of (drop i ms)))%Z)).
Proof.
  intros count start opens. unfold start, count, messages_within_tokens.
  assert (Hel : ∀ i, i ∈ reverse (turn_starts ms) ↔ opens i)
    by (intros i; rewrite elem_of_reverse; apply elem_of_turn_starts).
  pose proof (turn_starts_sorted ms) as Hsort. apply reverse_sorted in Hsort.
  destruct (reverse (turn_starts ms)) as [|l earlier].
  { split_and!; [done|done|]. intros last Hl. apply Hel in Hl. set_solver. }
  assert (Hl : opens l) by (apply Hel; by left). assert (l < length ms).
  { destruct Hl as (m & Hm & _). by eapply lookup_lt_Some. }
  pose proof (grow_spec ms target earlier (length ms - l)) as G.
  replace (length ms - (length ms - l)) with l in G by lia.
  destruct G as (G1 & G2 & G3 & G4); [done|lia| |].
  { intros s Hs. assert (opens s) as (m & Hm & _) by (apply Hel; by right). by eapply lookup_lt_Some. }
  split_and!; [done| |].
  - intros Hn. by destruct (Hn l).
  - intros last Hlast Hmax. assert (last = l) as ->.
    { apply Nat.le_antisymm; [|by apply Hmax]. apply Hel in Hlast.
      apply elem_of_cons in Hlast as [->|Hin]; [done|].
      apply StronglySorted_inv in Hsort as [_ Hf]. rewrite Forall_forall in Hf. specialize (Hf _ Hin). lia. }
    split_and!; [by apply Hel| |done|].
    + apply Hmax. by apply Hel.
    + intros i Hi Hlt. apply G4; [|done]. apply Hel in Hi. apply elem_of_cons in Hi as [->|]; [|done].
      exfalso. apply elem_of_cons in G2 as [E|Hin]; [lia|].
      apply StronglySorted_inv in Hsort as [_ Hf]. rewrite Forall_forall in Hf. specialize (Hf _ Hin). lia.
Qed.

End window.

Definition short_turn (i : string) : list Message :=
  [Message_new i User "hi"; Message_new (i +:+ "-reply") Assistant "hello"].

Lemma window_is_the_longest_that_fits_witness :
  let ms := short_turn "a" ++ short_turn "b" ++ short_turn "c" in
  messages_within_tokens slen ∅ ms 15 = 4 ∧
  (15 < Z.min u64_max (cost_of slen ∅ (drop 0 ms)))%Z.
Proof.
  assert (Hn : ∀ s, (0 ≤ slen s)%Z) by (intros s; apply slen_nonneg).
  split; [reflexivity|].
  destruct (window_is_the_longest_that_fits slen ∅ Hn (short_turn "a" ++ short_turn "b" ++ short_turn "c") 15)
    as (_ & _ & H).
  destruct (H 4) as (_ & _ & _ & H4).
  - eexists. split; reflexivity.
  - intros i (m & Hm & Hr). do 6 (destruct i as [|i]; [simpl in Hm; simplify_eq/=; (lia || discriminate Hr)|]).
    discriminate Hm.
  - apply H4; [eexists; split; reflexivity|]. change (0 < 2). lia.
Defined.
