(* ===== verification/Transcript.v ===== *)
(** * Reading the transcript back

    Models [crates/core/src/ports/transcript.rs]: the view of a turn's messages
    a tool may read, the pages it is read in, and what a page says of where its
    bytes came from.  Offsets are natural numbers; the source's saturating
    addition differs from theirs only past the largest address, which no string
    reaches.  The task-locals that say who is asking are arguments. *)

From S2P Require Import Prelude Json Messages ToolRouting ToolProvenance.

#[local] Open Scope nat_scope.

Definition TRANSCRIPT_READ_MAX_BYTES : nat := 20 * 1024.

Record TranscriptEntry := { te_id : string; te_role : Role; te_content : string; te_tool_name : option string }.

Record TranscriptData := {
  entries : list TranscriptEntry;
  by_id : gmap string nat;
  call_names : gmap string string
}.

Definition TranscriptData_default : TranscriptData := {| entries := []; by_id := ∅; call_names := ∅ |}.

Record TranscriptView := { view_user : string; view_conversation : string; data : TranscriptData }.

Definition TranscriptView_new (user conversation : string) : TranscriptView :=
  {| view_user := user; view_conversation := conversation; data := TranscriptData_default |}.

(** ** Taking messages in *)

Definition add_calls (m : Message) (names : gmap string string) : gmap string string :=
  if bool_decide (role m = Assistant) then foldl (λ acc c, <[call_id c := call_name c]> acc) names (tool_calls m) else names.

Definition absorb_message (d : TranscriptData) (m : Message) : TranscriptData :=
  let names := add_calls m (call_names d) in
  {| entries := entries d ++ [{| te_id := id m; te_role := role m; te_content := content m;
                                 te_tool_name := i ← tool_call_id m; names !! i |}];
     by_id := <[id m := length (entries d)]> (by_id d);
     call_names := names |}.

Definition diverged (d : TranscriptData) (messages : list Message) : bool :=
  let held := length (entries d) in
  (length messages <? held) ||
  match held with
  | O => false
  | S before => negb (bool_decide (id <$> messages !! before = te_id <$> entries d !! before))
  end.

Definition absorb (v : TranscriptView) (messages : list Message) : TranscriptView :=
  let d := if diverged (data v) messages then TranscriptData_default else data v in
  {| view_user := view_user v; view_conversation := view_conversation v;
     data := foldl absorb_message d (drop (length (entries d)) messages) |}.

(** ** Addressing *)

Definition get_entry (v : TranscriptView) (message_id : string) : option TranscriptEntry :=
  i ← by_id (data v) !! message_id; entries (data v) !! i.

Definition is_user_entry (e : TranscriptEntry) : bool := bool_decide (te_role e = User).

Definition turn_range (v : TranscriptView) (message_id : string) : option (nat * nat) :=
  at_ ← by_id (data v) !! message_id;
  start ← rposition is_user_entry (take (S at_) (entries (data v)));
  let end_ := match position is_user_entry (drop (S start) (entries (data v))) with
              | Some offset => S start + offset
              | None => length (entries (data v))
              end in
  Some (start, end_).

(** ** Pages *)

Record TranscriptReadRequest := { rq_message_id : string; rq_offset : nat; rq_length : option nat }.

(** [ceil_char_boundary]; one unit of fuel per byte. *)
Fixpoint ceil_boundary (s : string) (fuel i : nat) : nat :=
  match fuel with
  | O => String.length s
  | S f => if is_char_boundary s i then i else ceil_boundary s f (S i)
  end.

Definition slice_end (s : string) (start len : nat) : nat :=
  let end_ := floor_boundary s (start + len) in
  if (start <? end_) || (String.length s <=? start) || (len =? 0) then end_
  else ceil_boundary s (String.length s) (S start).

(** [&s[start..end]]. *)
Definition str_slice (s : string) (start end_ : nat) : string := String.substring start (end_ - start) s.

Record Page := { pg_start : nat; pg_end : nat; pg_slice : string; pg_next : option nat; pg_cut : bool; pg_stuck : bool }.

Definition read_page (text : string) (offset : nat) (length : option nat) : Page :=
  let requested := default TRANSCRIPT_READ_MAX_BYTES length in
  let capped := requested `min` TRANSCRIPT_READ_MAX_BYTES in
  let start := floor_boundary text offset in
  let end_ := slice_end text start capped in
  let advanced := start <? end_ in
  let unread_remain := end_ <? String.length text in
  {| pg_start := start; pg_end := end_; pg_slice := str_slice text start end_;
     pg_next := if unread_remain && advanced then Some end_ else None;
     pg_cut := TRANSCRIPT_READ_MAX_BYTES <? requested;
     pg_stuck := negb (TRANSCRIPT_READ_MAX_BYTES <? requested) && unread_remain && negb advanced |}.

(** ** What a read answers *)

Definition CODE_OUT_OF_SCOPE : string := "TRANSCRIPT_OUT_OF_SCOPE".
Definition CODE_NOT_FOUND : string := "MESSAGE_NOT_FOUND".
Definition CODE_NOT_IN_A_TURN : string := "NOT_IN_A_TURN".

Definition decline (code description message : string) : Value :=
  Object [("code", Str code); ("description", Str description); ("message", Str message); ("ok", Bool false);
          ("retryable", Bool false)].

Definition num (n : nat) : Value := Number (pretty n).

Definition page_message (p : Page) : option string :=
  if pg_cut p then Some ("`length` was cut to the 20480-byte cap on one read. Read the rest from `next_offset`.")
  else if pg_stuck p then
    Some ("`length` was 0, so this read returned no bytes and there is no `next_offset` to follow. Read again from offset "
          +:+ pretty (pg_start p) +:+ " with a `length` of at least one byte.")
  else None.

Definition member (k : string) (v : option Value) : list (string * Value) := match v with Some v => [(k, v)] | None => [] end.
Definition or_null (v : option Value) : Value := default Null v.

Definition role_str (r : Role) : string :=
  match r with User => "user" | Assistant => "assistant" | System => "system" | Tool => "tool" end.

Definition who (e : TranscriptEntry) : string :=
  match te_role e with
  | User => "user"
  | Assistant => "assistant"
  | System => "system"
  | Tool => match te_tool_name e with Some name => "tool (" +:+ name +:+ ")" | None => "tool" end
  end.

Definition render_turn (es : list TranscriptEntry) : string :=
  join (newline +:+ newline) (map (λ e, who e +:+ ": " +:+ te_content e) es).

Section reads.
Context `{!SerdeJson}.

Definition entry_is_externally_controlled (e : TranscriptEntry) : bool :=
  match te_tool_name e with
  | Some name => result_is_externally_controlled name (te_content e)
  | None => bool_decide (te_role e = Tool)
  end.

Definition provenance (external : bool) : option Value := if external then Some (Str EXTERNAL_CONTENT_MARKER) else None.

Definition message_payload (e : TranscriptEntry) (p : Page) : Value :=
  Object ([("content", Str (pg_slice p))] ++ member "message" (Str <$> page_message p) ++
          [("message_id", Str (te_id e)); ("next_offset", or_null (num <$> pg_next p)); ("offset", num (pg_start p)); ("ok", Bool true);
           ("produced_by", or_null (Str <$> te_tool_name e))] ++
          member "provenance" (provenance (entry_is_externally_controlled e)) ++
          [("returned_bytes", num (String.length (pg_slice p))); ("role", Str (role_str (te_role e)));
           ("total_bytes", num (String.length (te_content e)))] ++
          member "truncated" (if pg_cut p then Some (Bool true) else None)).

Definition turn_payload (es : list TranscriptEntry) (first : TranscriptEntry) (p : Page) : Value :=
  Object ([("content", Str (pg_slice p))] ++ member "message" (Str <$> page_message p) ++
          [("messages", num (length es)); ("next_offset", or_null (num <$> pg_next p)); ("offset", num (pg_start p)); ("ok", Bool true)] ++
          member "provenance" (provenance (existsb entry_is_externally_controlled es)) ++
          [("returned_bytes", num (String.length (pg_slice p))); ("total_bytes", num (String.length (render_turn es)))] ++
          member "truncated" (if pg_cut p then Some (Bool true) else None) ++
          [("turn_id", Str (te_id first))]).

(** Who is asking: the task-locals of the running tool. *)
Record Asker := { ask_user : string; ask_conversation : option string; ask_view : option TranscriptView }.

Definition matches_current_scope (a : Asker) (v : TranscriptView) : bool :=
  bool_decide (ask_user a = view_user v) && bool_decide (ask_conversation a = Some (view_conversation v)).

Definition readable (a : Asker) : option TranscriptView :=
  v ← ask_view a; if matches_current_scope a v then Some v else None.

Definition out_of_scope : Value :=
  decline CODE_OUT_OF_SCOPE "no conversation transcript is readable here" "There is no transcript to read from in this context.".

Definition read_transcript_message (a : Asker) (r : TranscriptReadRequest) : Value :=
  match readable a with
  | None => out_of_scope
  | Some v =>
      match get_entry v (rq_message_id r) with
      | None =>
          decline CODE_NOT_FOUND "no message in this conversation has that id"
            "This conversation holds no message with that id. Check the id in the pointer you read it from."
      | Some e => message_payload e (read_page (te_content e) (rq_offset r) (rq_length r))
      end
  end.

Definition read_transcript_turn (a : Asker) (r : TranscriptReadRequest) : Value :=
  match readable a with
  | None => out_of_scope
  | Some v =>
      match get_entry v (rq_message_id r), turn_range v (rq_message_id r) with
      | None, _ =>
          decline CODE_NOT_FOUND "no message in this conversation has that id"
            "This conversation holds no message with that id. Check the id in the line you read it from."
      | Some _, None =>
          decline CODE_NOT_IN_A_TURN "that message sits ahead of the first thing the user said"
            "That message belongs to no turn, because nothing opened one before it. Read it on its own with `message_id`."
      | Some _, Some (start, end_) =>
          let es := take (end_ - start) (drop start (entries (data v))) in
          match es with
          | [] => Null
          | first :: _ => turn_payload es first (read_page (render_turn es) (rq_offset r) (rq_length r))
          end
      end
  end.
End reads.

(** ** The view is the transcript *)

Definition build (ms : list Message) : TranscriptData := foldl absorb_message TranscriptData_default ms.

Lemma build_snoc ms m : build (ms ++ [m]) = absorb_message (build ms) m.
Proof. unfold build. by rewrite foldl_app. Qed.

Lemma build_entries ms :
  (λ e, (te_id e, te_role e, te_content e)) <$> entries (build ms) = (λ m, (id m, role m, content m)) <$> ms.
Proof.
  induction ms as [|m ms IH] using rev_ind; [done|]. rewrite build_snoc. simpl. by rewrite !fmap_app, IH.
Qed.

Lemma build_length ms : length (entries (build ms)) = length ms.
Proof. pose proof (f_equal length (build_entries ms)) as H. by rewrite !length_fmap in H. Qed.

Lemma build_entry ms k m :
  ms !! k = Some m → ∃ e, entries (build ms) !! k = Some e ∧ te_id e = id m ∧ te_role e = role m ∧ te_content e = content m.
Proof.
  intros Hm. pose proof (f_equal (.!! k) (build_entries ms)) as H. rewrite !list_lookup_fmap, Hm in H.
  destruct (entries (build ms) !! k) as [e|]; simplify_eq/=. by exists e.
Qed.

Lemma build_by_id ms k m : NoDup (id <$> ms) → ms !! k = Some m → by_id (build ms) !! id m = Some k.
Proof.
  revert k. induction ms as [|m' ms IH] using rev_ind; intros k Hnd Hk; [done|].
  rewrite fmap_app in Hnd. apply NoDup_app in Hnd as (Hnd & Hdis & _). rewrite build_snoc. simpl. rewrite build_length.
  apply lookup_app_Some in Hk as [Hk|[Hlen Hk]].
  - rewrite lookup_insert_ne; [by apply IH|]. intros He. apply (Hdis (id m)); [apply list_elem_of_fmap; eauto using list_elem_of_lookup_2|].
    apply list_elem_of_fmap. exists m'. split; [done|apply list_elem_of_here].
  - apply list_lookup_singleton_Some in Hk as [Hz <-]. rewrite lookup_insert_eq. f_equal. lia.
Qed.

Lemma build_by_id_None ms i : i ∉ (id <$> ms) → by_id (build ms) !! i = None.
Proof.
  induction ms as [|m ms IH] using rev_ind; [done|]. rewrite build_snoc, fmap_app, elem_of_app. simpl. intros Hn.
  rewrite lookup_insert_ne; [by apply IH; tauto|]. intros <-. apply Hn. right. apply list_elem_of_here.
Qed.

Lemma absorb_follows v before now_ :
  data v = build before → before `prefix_of` now_ ∨ diverged (build before) now_ = true → data (absorb v now_) = build now_.
Proof.
  intros Hv Hcase. unfold absorb. simpl. rewrite Hv. destruct (diverged (build before) now_) eqn:Hd; [done|].
  destruct Hcase as [[added ->]|?]; [|done]. rewrite build_length, drop_app_length. unfold build. by rewrite foldl_app.
Qed.

(** Each list the loop shows the view extends the one before it, or fails the
    check. *)
Fixpoint tracked (before : list Message) (lists : list (list Message)) : Prop :=
  match lists with
  | [] => True
  | now_ :: rest => (before `prefix_of` now_ ∨ diverged (build before) now_ = true) ∧ tracked now_ rest
  end.

Lemma tracked_view v before lists :
  data v = build before → tracked before lists →
  data (foldl absorb v lists) = build (default before (last lists)) ∧
  view_user (foldl absorb v lists) = view_user v ∧ view_conversation (foldl absorb v lists) = view_conversation v.
Proof.
  revert v before. induction lists as [|now_ rest IH]; intros v before Hv Ht; [done|]. destruct Ht as [Hc Ht]. simpl.
  destruct (IH (absorb v now_) now_ (absorb_follows v before now_ Hv Hc) Ht) as (Hd & Hu & Hcv).
  rewrite Hd, Hu, Hcv. split; [|done]. destruct rest as [|x rest]; [done|]. rewrite last_cons_cons.
  destruct (last (x :: rest)) eqn:Hlast; [done|]. by apply last_None in Hlast.
Qed.

(** A message is read back under its own id with its own stored bytes,
    whatever the view took in before, and only in the conversation and by the
    user the view was made for; anyone else, and any other id, gets a refusal
    that carries nothing. *)
Theorem read_back_is_scoped_and_exact `{!SerdeJson} (user conversation : string) (lists : list (list Message)) (ms : list Message)
    (a : Asker) (r : TranscriptReadRequest)
    (Htracked : tracked [] (lists ++ [ms])) (Hids : NoDup (id <$> ms))
    (Hview : ask_view a = Some (foldl absorb (TranscriptView_new user conversation) (lists ++ [ms]))) :
  let mine := ask_user a = user ∧ ask_conversation a = Some conversation in
  (¬ mine → read_transcript_message a r = out_of_scope ∧ read_transcript_turn a r = out_of_scope) ∧
  (mine → ∀ m, m ∈ ms → rq_message_id r = id m → ∃ e,
     read_transcript_message a r = message_payload e (read_page (content m) (rq_offset r) (rq_length r)) ∧
     te_id e = id m ∧ te_role e = role m ∧ te_content e = content m) ∧
  (mine → rq_message_id r ∉ (id <$> ms) →
     get "code" (read_transcript_message a r) = Some (Str CODE_NOT_FOUND) ∧ get "content" (read_transcript_message a r) = None).
Proof.
  intros mine. destruct (tracked_view (TranscriptView_new user conversation) [] (lists ++ [ms]) eq_refl Htracked) as (Hd & Hu & Hc).
  rewrite last_snoc in Hd. simpl in Hd, Hu, Hc. set (v := foldl _ _ _) in *.
  assert (Hr : readable a = if bool_decide mine then Some v else None).
  { unfold readable. rewrite Hview. simpl. unfold matches_current_scope, mine. rewrite Hu, Hc.
    repeat case_bool_decide; simpl; naive_solver. }
  split_and!; intros Hmine.
  - rewrite bool_decide_eq_false_2 in Hr by done. unfold read_transcript_message, read_transcript_turn. by rewrite Hr.
  - rewrite bool_decide_eq_true_2 in Hr by done. intros m [k Hk]%list_elem_of_lookup Hid.
    destruct (build_entry ms k m Hk) as (e & He & Hi & Hro & Hco). exists e. split; [|done].
    unfold read_transcript_message, get_entry. rewrite Hr, Hid, Hd, (build_by_id ms k m) by done. simpl.
    by rewrite He, Hco.
  - rewrite bool_decide_eq_true_2 in Hr by done. intros Hno. unfold read_transcript_message, get_entry.
    by rewrite Hr, Hd, build_by_id_None.
Qed.

(** ** Paging *)

Lemma boundary_end s : is_char_boundary s (String.length s) = true.
Proof.
  unfold is_char_boundary. destruct (String.length s) as [|n] eqn:Hn; [done|]. rewrite <- Hn.
  destruct (String.get (String.length s) s) eqn:Hg; [|apply Nat.eqb_refl].
  assert (Hno : ∀ t, String.get (String.length t) t = None) by (induction t; done). by rewrite Hno in Hg.
Qed.

Lemma boundary_le s i : is_char_boundary s i = true → i ≤ String.length s.
Proof.
  unfold is_char_boundary. destruct i as [|i]; [lia|]. destruct (String.get (S i) s) eqn:Hg; [|intros ?%Nat.eqb_eq; lia].
  intros _. revert i Hg. induction s as [|b s IH]; intros i; simpl; [done|]. destruct i as [|i]; [lia|]. intros Hg.
  specialize (IH i Hg). lia.
Qed.

Lemma floor_boundary_fix s i : is_char_boundary s i = true → floor_boundary s i = i.
Proof. intros Hi. apply Nat.le_antisymm; [apply floor_boundary_le|by apply floor_boundary_greatest]. Qed.

Lemma ceil_boundary_spec s fuel i :
  i ≤ String.length s → String.length s - i < fuel →
  is_char_boundary s (ceil_boundary s fuel i) = true ∧ i ≤ ceil_boundary s fuel i.
Proof.
  revert i. induction fuel as [|f IH]; intros i Hi Hf; [lia|]. cbn [ceil_boundary].
  destruct (is_char_boundary s i) eqn:Hb; [done|].
  destruct (decide (i = String.length s)) as [->|]; [by rewrite boundary_end in Hb|].
  destruct (IH (S i)) as [H1 H2]; [lia..|]. split; [done|lia].
Qed.

Lemma slice_end_spec s start n :
  is_char_boundary s start = true →
  let e := slice_end s start n in
  is_char_boundary s e = true ∧ start ≤ e ∧ (n = 0 → e = start) ∧ (0 < n → start < String.length s → start < e).
Proof.
  intros Hs e. pose proof (boundary_le s start Hs) as Hle. pose proof (floor_boundary_is_boundary s (start + n)) as Hfb.
  pose proof (floor_boundary_greatest s (start + n) start ltac:(lia) Hs) as Hge. pose proof (floor_boundary_le s (start + n)) as Hfl.
  unfold e, slice_end. set (f := floor_boundary s (start + n)) in *.
  destruct (Nat.ltb_spec start f); simpl; [split_and!; [done|lia..]|].
  destruct (Nat.leb_spec (String.length s) start); simpl; [split_and!; [done|lia..]|].
  destruct (Nat.eqb_spec n 0); [split_and!; [done|lia..]|].
  destruct (ceil_boundary_spec s (String.length s) (S start)) as [H1 H2]; [lia..|]. split_and!; [done|lia..].
Qed.

Lemma substring_app a n m s : String.substring a (n + m) s = String.substring a n s +:+ String.substring (a + n) m s.
Proof.
  revert a n. induction s as [|c s IH]; intros a n; [by destruct a, n, m|].
  destruct a as [|a]; simpl; [|by rewrite IH].
  destruct n as [|n]; simpl; [done|]. exact (f_equal (String c) (IH 0 n)).
Qed.

Lemma str_slice_app s a b c : a ≤ b → b ≤ c → str_slice s a c = str_slice s a b +:+ str_slice s b c.
Proof.
  intros. unfold str_slice. replace (c - a) with ((b - a) + (c - b)) by lia. rewrite substring_app.
  by replace (a + (b - a)) with b by lia.
Qed.

(** Following [next_offset], with the lengths a caller chooses. *)
Fixpoint read_on (text : string) (lengths : nat → option nat) (fuel k offset : nat) : list Page :=
  match fuel with
  | O => []
  | S f =>
      let p := read_page text offset (lengths k) in
      p :: match pg_next p with Some o => read_on text lengths f (S k) o | None => [] end
  end.

Lemma read_on_spec text lengths fuel k offset :
  (∀ k, lengths k ≠ Some 0) → is_char_boundary text offset = true → String.length text - offset < fuel →
  join EmptyString (map pg_slice (read_on text lengths fuel k offset)) = str_slice text offset (String.length text) ∧
  ∃ p, last (read_on text lengths fuel k offset) = Some p ∧ pg_next p = None.
Proof.
  intros Hpos. revert k offset. induction fuel as [|f IH]; intros k offset Hb Hf; [lia|]. cbn [read_on].
  set (p := read_page text offset (lengths k)).
  assert (Hstart : floor_boundary text offset = offset) by (by apply floor_boundary_fix).
  set (n := default TRANSCRIPT_READ_MAX_BYTES (lengths k) `min` TRANSCRIPT_READ_MAX_BYTES).
  assert (Hn : 0 < n).
  { unfold n, TRANSCRIPT_READ_MAX_BYTES. specialize (Hpos k). destruct (lengths k) as [[|l]|]; simpl default; [done|lia..]. }
  destruct (slice_end_spec text offset n Hb) as (He & Hge & _ & Hadv). set (e := slice_end text offset n) in *.
  assert (Hp : p = {| pg_start := offset; pg_end := e; pg_slice := str_slice text offset e;
      pg_next := if (e <? String.length text) && (offset <? e) then Some e else None;
      pg_cut := TRANSCRIPT_READ_MAX_BYTES <? default TRANSCRIPT_READ_MAX_BYTES (lengths k);
      pg_stuck := negb (TRANSCRIPT_READ_MAX_BYTES <? default TRANSCRIPT_READ_MAX_BYTES (lengths k)) && (e <? String.length text) && negb (offset <? e) |})
    by (unfold p, read_page; rewrite Hstart; done).
  pose proof (boundary_le text e He) as Hel. rewrite Hp. cbn [pg_next].
  destruct (Nat.ltb_spec e (String.length text)) as [Hmore|Hdone]; simpl andb.
  - rewrite (proj2 (Nat.ltb_lt offset e)) by (apply Hadv; lia).
    destruct (IH (S k) e He) as [Hj (q & Hq & Hqn)]; [specialize (Hadv Hn); lia|].
    split; [|exists q; split; [|done]; by destruct (read_on text lengths f (S k) e)].
    rewrite (str_slice_app text offset e (String.length text)) by lia. rewrite <- Hj. cbn [map pg_slice].
    by destruct (map pg_slice (read_on text lengths f (S k) e)); [rewrite string_app_nil_r|].
  - split; [|by eexists]. simpl. by replace e with (String.length text) by lia.
Qed.

(** A caller that starts at the beginning and follows [next_offset] asks
    finitely often and has then read every byte of the text exactly once, in
    order, whatever lengths it asks for, as long as it asks for bytes. *)
Theorem paging_reads_everything (text : string) (lengths : nat → option nat) (Hpos : ∀ k, lengths k ≠ Some 0) :
  let pages := read_on text lengths (S (String.length text)) 0 0 in
  join EmptyString (map pg_slice pages) = text ∧ ∃ p, last pages = Some p ∧ pg_next p = None.
Proof.
  intros pages. destruct (read_on_spec text lengths (S (String.length text)) 0 0) as [Hj Hl]; [done|done|lia|].
  split; [|done]. unfold pages. rewrite Hj. unfold str_slice. rewrite Nat.sub_0_r. apply str_prefix_all.
Qed.

Lemma paging_reads_everything_witness :
  map pg_slice (read_on "naïve" (λ _, Some 1) 7 0 0) = ["n"; "a"; "ï"; "v"; "e"] ∧
  join EmptyString (map pg_slice (read_on "naïve" (λ _, Some 1) 7 0 0)) = "naïve".
Proof. split; [by vm_compute|]. by apply (paging_reads_everything "naïve" (λ _, Some 1)). Defined.

(** ** Turns *)

Lemma build_is_user ms k m e :
  ms !! k = Some m → entries (build ms) !! k = Some e → is_user_entry e = bool_decide (role m = User).
Proof.
  intros Hm He. destruct (build_entry ms k m Hm) as (e' & He' & _ & Hr & _). rewrite He in He'. injection He' as <-.
  unfold is_user_entry. by rewrite Hr.
Qed.

(** Any message of a turn opens that turn: the range runs from the user message
    at or before it to just before the next one. *)
Lemma turn_range_spec v ms k m start end_ :
  data v = build ms → NoDup (id <$> ms) → ms !! k = Some m → turn_range v (id m) = Some (start, end_) →
  start ≤ k < end_ ∧ end_ ≤ length ms ∧ (role <$> ms !! start = Some User) ∧
  (∀ j, start < j < end_ → role <$> ms !! j ≠ Some User) ∧ (end_ < length ms → role <$> ms !! end_ = Some User).
Proof.
  intros Hv Hnd Hk. unfold turn_range. rewrite Hv, (build_by_id ms k m) by done. simpl.
  destruct (rposition is_user_entry (take (S k) (entries (build ms)))) as [s|] eqn:Hr; [|done]. simpl. intros [= <- He].
  assert (Huser : ∀ j e, entries (build ms) !! j = Some e → role <$> ms !! j = Some User ↔ is_user_entry e = true).
  { intros j e Hj. assert (Hlt : j < length ms) by (rewrite <- build_length; by eapply lookup_lt_Some).
    destruct (lookup_lt_is_Some_2 ms j Hlt) as [m' Hm']. rewrite (build_is_user ms j m' e Hm' Hj), Hm'. simpl.
    rewrite bool_decide_eq_true. split; [by intros [= ->]|by intros ->]. }
  apply rposition_take_Some in Hr as [Hle (e & Hs & Hu & Hlast)].
  assert (Hkl : k < length ms) by (by eapply lookup_lt_Some).
  assert (Hat : ∀ j, j < length ms → ∃ e', entries (build ms) !! j = Some e') by (intros j Hj; apply lookup_lt_is_Some_2; by rewrite build_length).
  destruct (position is_user_entry (drop (S s) (entries (build ms)))) as [o|] eqn:Hp.
  - apply position_drop_Some in Hp as (e2 & He2 & Hu2 & Hbetween). subst end_.
    assert (Hlt : S s + o < length ms) by (rewrite <- build_length; by eapply lookup_lt_Some).
    assert (Hend : k < S s + o).
    { destruct (decide (S s + o ≤ k)); [|lia]. exfalso. specialize (Hlast (S s + o) e2). rewrite Hlast in Hu2; [done|lia|done]. }
    split_and!; [lia..|by eapply Huser| |intros _; by eapply Huser].
    intros j [Hj1 Hj2] Hj. destruct (Hat j) as [e' He']; [lia|]. apply (Huser j e' He') in Hj.
    rewrite (Hbetween j e') in Hj; [done|lia|done].
  - rewrite build_length in He. subst end_. split_and!; [lia..|by eapply Huser| |lia].
    intros j [Hj1 Hj2] Hj. destruct (Hat j) as [e' He']; [lia|]. apply (Huser j e' He') in Hj.
    rewrite (position_drop_None _ _ _ Hp j e') in Hj; [done|lia|done].
Qed.

(** A turn that is read is never empty, so the answer is a page of it. *)
Lemma turn_read_is_a_page `{!SerdeJson} a v ms m r start end_ :
  readable a = Some v → data v = build ms → NoDup (id <$> ms) → m ∈ ms → rq_message_id r = id m →
  turn_range v (id m) = Some (start, end_) →
  ∃ first rest, take (end_ - start) (drop start (entries (build ms))) = first :: rest ∧
    read_transcript_turn a r =
      turn_payload (first :: rest) first (read_page (render_turn (first :: rest)) (rq_offset r) (rq_length r)).
Proof.
  intros Ha Hv Hnd [k Hk]%list_elem_of_lookup Hr Ht. destruct (turn_range_spec v ms k m start end_ Hv Hnd Hk Ht) as (Hin & Hend & _).
  destruct (take (end_ - start) (drop start (entries (build ms)))) as [|first rest] eqn:Hes.
  { exfalso. apply (f_equal length) in Hes. rewrite length_take, length_drop, build_length in Hes. simpl in Hes. lia. }
  exists first, rest. split; [done|]. unfold read_transcript_turn. rewrite Ha, Hr, Ht. unfold get_entry.
  destruct (build_entry ms k m Hk) as (e & He & _). rewrite Hv, (build_by_id ms k m) by done. simpl. rewrite He. by rewrite Hes.
Qed.

(** ** Concrete reads *)

Definition demo_turn : list Message :=
  [Message_new "m1" User "look it up"; assistant_with_tool_calls "m2" [{| call_id := "c1"; call_name := "daemon_web_read"; call_arguments := "{}" |}];
   tool_result "m3" "c1" "page"].

Definition demo_asker (view : TranscriptView) : Asker :=
  {| ask_user := "ada"; ask_conversation := Some "conv"; ask_view := Some view |}.

Definition demo_read (i : string) : TranscriptReadRequest := {| rq_message_id := i; rq_offset := 0; rq_length := None |}.

#[local] Instance demo_serde : SerdeJson := {| from_str := λ _, None; to_string := λ _, EmptyString |}.

Definition demo_lists : list (list Message) := [take 1 demo_turn].
Definition demo_view : TranscriptView := foldl absorb (TranscriptView_new "ada" "conv") (demo_lists ++ [demo_turn]).
Definition demo_result : Message := tool_result "m3" "c1" "page".

Lemma read_back_is_scoped_and_exact_witness :
  ∃ e, read_transcript_message (demo_asker demo_view) (demo_read "m3")
       = message_payload e (read_page (content demo_result) (rq_offset (demo_read "m3")) (rq_length (demo_read "m3"))) ∧
       te_id e = id demo_result ∧ te_role e = role demo_result ∧ te_content e = content demo_result.
Proof.
  refine (proj1 (proj2 (read_back_is_scoped_and_exact "ada" "conv" demo_lists demo_turn (demo_asker demo_view) (demo_read "m3") _ _ eq_refl))
            (conj eq_refl eq_refl) demo_result _ eq_refl).
  - split; [left; apply prefix_nil|]. split; [left; by exists (drop 1 demo_turn)|done].
  - apply (bool_decide_eq_true_1 _). by vm_compute.
  - apply list_elem_of_further, list_elem_of_further, list_elem_of_here.
Defined.

(** A web page the model fetched under its location-rooted name comes back
    without the mark of outside content; under the provider's name it has it. *)
Lemma rooted_page_reads_back_unmarked :
  let page name := {| te_id := "m3"; te_role := Tool; te_content := "page"; te_tool_name := Some name |} in
  te_tool_name <$> get_entry (absorb (TranscriptView_new "ada" "conv") demo_turn) "m3" = Some (Some "daemon_web_read") ∧
  entry_is_externally_controlled (page "daemon_web_read") = false ∧ entry_is_externally_controlled (page "web_read") = true.
Proof. split_and!; by vm_compute. Qed.

(** The check looks at the last message held and no other: a list changed
    before it is not noticed. *)
Lemma boundary_check_misses_an_edit :
  let v := absorb (TranscriptView_new "ada" "conv") [Message_new "m1" User "old"; Message_new "m2" Assistant "reply"] in
  let edited := [Message_new "m9" User "new"; Message_new "m2" Assistant "reply"] in
  te_content <$> get_entry (absorb v edited) "m1" = Some "old" ∧ get_entry (absorb v edited) "m9" = None.
Proof. by vm_compute. Qed.
