(* ===== verification/Eviction.v ===== *)
(** * Eviction of tool results from a turn's view

    Models [crates/core/src/eviction_class.rs] and the eviction half of
    [crates/core/src/planning.rs]: which results are replaced by a pointer and
    which are reduced to their substance, the decision recorded on the row, the
    pointers a later turn rebuilds, and the census of tool bytes. *)

From S2P Require Import Prelude Json Messages ToolRouting ToolProvenance.

(** ** What kind of thing a result is *)

Definition MEMORY_SURFACES : list string :=
  ["builtin_knowledge_base_get"; "builtin_knowledge_base_search"; "builtin_knowledge_base_list";
   "builtin_scratchpad_search"; "builtin_conversation_search"].

Definition RECALL_REDUCED_PREFIX : string := "<recall reduced".
Definition COMPACTION_POINTER_PREFIX : string := "<compacted to scratchpad".
Definition COMPACTION_MIN_EVICT_BYTES : nat := 512.

Inductive EvictionClass := Mechanism | RecalledMemory | ExternalContent.
Inductive Disposition := Pointer | ReduceToSubstance.

#[export] Instance EvictionClass_eq_dec : EqDecision EvictionClass.
Proof. solve_decision. Defined.

Definition disposition (c : EvictionClass) : Disposition :=
  match c with
  | Mechanism => Pointer
  | RecalledMemory => ReduceToSubstance
  | ExternalContent => Pointer
  end.

Definition base_tool_name (name : string) : string :=
  match rsplit_once name "__" with Some (_, t) => t | None => name end.

(** An empty name is no name. *)
Definition named (tool_name : option string) : option string :=
  match tool_name with Some EmptyString => None | n => n end.

(** [ (ran name)], or nothing. *)
Definition ran (tool_name : option string) : string :=
  match named tool_name with Some n => " (ran " +:+ n +:+ ")" | None => EmptyString end.

Definition ROW_ARRAYS : list string := ["entries"; "results"].
Definition SUBSTANCE_FIELDS : list string := ["content"; "text"; "body"; "summary"].
Definition IDENTITY_FIELDS : list string := ["id"; "key"; "name"; "conversation_id"].

Definition first_str (fields : list string) (obj : list (string * Value)) : option string :=
  find_map (λ f, map_get f obj ≫= as_str) fields.

(** One row of a recall payload, appended to the body. *)
Definition push_row (body : string) (row : Value) : string :=
  match as_object row with
  | None => body
  | Some obj =>
      match first_str SUBSTANCE_FIELDS obj with
      | None => body
      | Some text =>
          if String.eqb (trim text) EmptyString then body
          else
            (match body with EmptyString => EmptyString | _ => body +:+ newline end)
            +:+ (match first_str IDENTITY_FIELDS obj with
                 | Some i => "[" +:+ i +:+ "]" +:+ newline
                 | None => EmptyString
                 end)
            +:+ text +:+ newline
      end
  end.

(** ** Pointers *)

Inductive EvictReason := StepCompleted | Superseded.
Inductive DistilledTrace := Written | Absent.

#[export] Instance DistilledTrace_eq_dec : EqDecision DistilledTrace.
Proof. solve_decision. Defined.

Definition compaction_pointer (tool_name : option string) (message_id : string) (note_keys : list string)
    (reason : EvictReason) : string :=
  match note_keys with
  | [] =>
      let cause :=
        match reason with
        | StepCompleted => "when its step completed (no carry-forward note was recorded)"
        | Superseded => "once a later round superseded it"
        end in
      COMPACTION_POINTER_PREFIX +:+ ran tool_name +:+ ": this result was dropped from working context " +:+ cause
      +:+ ". Read it back with " +:+ TRANSCRIPT_GET_TOOL +:+ " message_id=" +:+ dq +:+ message_id +:+ dq
      +:+ " rather than running the tool again.>"
  | _ =>
      COMPACTION_POINTER_PREFIX +:+ ran tool_name +:+ ": this result was distilled into scratchpad note(s) "
      +:+ join ", " (map (λ k, dq +:+ k +:+ dq) note_keys)
      +:+ " and dropped from working context to keep the turn lean. Re-read the note(s) with builtin_scratchpad_search, or read the full output back with "
      +:+ TRANSCRIPT_GET_TOOL +:+ " message_id=" +:+ dq +:+ message_id +:+ dq
      +:+ " rather than running the tool again.>"
  end.

(** The tool behind each call id; a later request of the same id wins. *)
Definition tool_names_by_call_id (msgs : list Message) : gmap string string :=
  foldl (λ names m,
    if bool_decide (role m = Assistant)
    then foldl (λ names tc, <[call_id tc := call_name tc]> names) names (tool_calls m)
    else names) ∅ msgs.

Definition produced_by (names : gmap string string) (m : Message) : option string :=
  match tool_call_id m with Some i => names !! i | None => None end.

Record EvictionOutcome := { evicted : nat; freed : nat; reduced : nat; reduced_bytes : nat }.
Definition EvictionOutcome_default : EvictionOutcome :=
  {| evicted := 0; freed := 0; reduced := 0; reduced_bytes := 0 |}.
Definition touched_anything (o : EvictionOutcome) : bool := (0 <? evicted o)%nat || (0 <? reduced o)%nat.

Definition with_distilled_into (m : Message) (keys : list string) : Message :=
  {| id := id m; role := role m; content := content m; tool_calls := tool_calls m;
     tool_call_id := tool_call_id m; summary_id := summary_id m;
     idempotency_key := idempotency_key m; distilled_into := keys |}.

Section eviction.
Context `{!SerdeJson}.

Definition eviction_class (tool_name : option string) (result : string) : EvictionClass :=
  match named tool_name with
  | None => Mechanism
  | Some name =>
      if result_is_externally_controlled name result then ExternalContent
      else if bool_decide (base_tool_name name ∈ MEMORY_SURFACES) then RecalledMemory
      else Mechanism
  end.

Definition reduce_recalled_result (tool_name : option string) (message_id result : string) : option string :=
  match from_str result with
  | None => None
  | Some payload =>
      match find_map (λ f, get f payload ≫= as_array) ROW_ARRAYS with
      | None => None
      | Some rows =>
          match foldl push_row EmptyString rows with
          | EmptyString => None
          | body =>
              let reduced :=
                RECALL_REDUCED_PREFIX +:+ ran tool_name +:+ ": entry text only, envelope dropped. Whole result: "
                +:+ TRANSCRIPT_GET_TOOL +:+ " message_id=" +:+ dq +:+ message_id +:+ dq +:+ ".>" +:+ newline +:+ body in
              if (String.length reduced <? String.length result)%nat then Some reduced else None
          end
      end
  end.

(** What one pass does with one message of its range. *)
Inductive Fate := Skipped | Reduced (text : string) | Evicted (text : string).

Definition fate (names : gmap string string) (note_keys : list string) (trace : DistilledTrace)
    (reason : EvictReason) (current : string) (m : Message) : Fate :=
  if bool_decide (role m ≠ Tool) || (String.length current <? COMPACTION_MIN_EVICT_BYTES)%nat then Skipped
  else if starts_with current COMPACTION_POINTER_PREFIX || starts_with current RECALL_REDUCED_PREFIX then Skipped
  else
    let tool_name := produced_by names m in
    let pointer := compaction_pointer tool_name (id m) note_keys reason in
    let point := if (String.length pointer <? String.length current)%nat then Evicted pointer else Skipped in
    match disposition (eviction_class tool_name current) with
    | ReduceToSubstance =>
        match reduce_recalled_result tool_name (id m) current with
        | Some text => Reduced text
        | None => if bool_decide (trace = Absent) then Skipped else point
        end
    | Pointer => point
    end.

Definition evict_one (names : gmap string string) (note_keys : list string) (trace : DistilledTrace)
    (reason : EvictReason) (m : Message) (p : ContextProjection) (o : EvictionOutcome)
    : Message * ContextProjection * EvictionOutcome :=
  let current := projected_content p m in
  match fate names note_keys trace reason current m with
  | Skipped => (m, p, o)
  | Reduced text =>
      (m, replace p m text,
       {| evicted := evicted o; freed := freed o; reduced := reduced o + 1;
          reduced_bytes := reduced_bytes o + (String.length current - String.length text) |})
  | Evicted text =>
      let m' := if bool_decide (trace = Written) && bool_decide (note_keys ≠ [])
                then with_distilled_into m note_keys else m in
      (m', replace p m text,
       {| evicted := evicted o + 1; freed := freed o + (String.length current - String.length text);
          reduced := reduced o; reduced_bytes := reduced_bytes o |})
  end.

Fixpoint evict_loop (names : gmap string string) (note_keys : list string) (trace : DistilledTrace)
    (reason : EvictReason) (msgs : list Message) (p : ContextProjection) (o : EvictionOutcome)
    : list Message * ContextProjection * EvictionOutcome :=
  match msgs with
  | [] => ([], p, o)
  | m :: rest =>
      let '(m', p1, o1) := evict_one names note_keys trace reason m p o in
      let '(rest', p2, o2) := evict_loop names note_keys trace reason rest p1 o1 in
      (m' :: rest', p2, o2)
  end.

Definition evict_tool_results (msgs : list Message) (p : ContextProjection) (from : nat)
    (note_keys : list string) (trace : DistilledTrace) (reason : EvictReason)
    : list Message * ContextProjection * EvictionOutcome :=
  let from := Nat.min from (length msgs) in
  let names := tool_names_by_call_id msgs in
  let '(tl, p', o) := evict_loop names note_keys trace reason (drop from msgs) p EvictionOutcome_default in
  (take from msgs ++ tl, p', o).

Definition evict_superseded_tool_results (msgs : list Message) (p : ContextProjection) (upto : nat)
    : list Message * ContextProjection * EvictionOutcome :=
  let upto := Nat.min upto (length msgs) in
  let '(hd, p', o) := evict_tool_results (take upto msgs) p 0 [] Absent Superseded in
  (hd ++ drop upto msgs, p', o).

(** ** A later turn *)

Fixpoint carry_loop (names : gmap string string) (live_note_keys : gset string) (msgs : list Message)
    (p : ContextProjection) (carried saved : nat) : ContextProjection * (nat * nat) :=
  match msgs with
  | [] => (p, (carried, saved))
  | m :: rest =>
      if bool_decide (distilled_into m = []) || is_replaced p m then carry_loop names live_note_keys rest p carried saved
      else if negb (forallb (λ k, bool_decide (k ∈ live_note_keys)) (distilled_into m))
      then carry_loop names live_note_keys rest p carried saved
      else
        let pointer := compaction_pointer (produced_by names m) (id m) (distilled_into m) StepCompleted in
        if (String.length (content m) <=? String.length pointer)%nat
        then carry_loop names live_note_keys rest p carried saved
        else carry_loop names live_note_keys rest (replace p m pointer) (carried + 1)
               (saved + (String.length (content m) - String.length pointer))
  end.

Definition carry_evictions (msgs : list Message) (p : ContextProjection) (live_note_keys : gset string)
    : ContextProjection * (nat * nat) :=
  carry_loop (tool_names_by_call_id msgs) live_note_keys msgs p 0 0.

Definition distilled_note_keys (msgs : list Message) : list string :=
  (foldl (λ (acc : gset string * list string) k,
     if bool_decide (k ∈ acc.1) then acc else ({[k]} ∪ acc.1, acc.2 ++ [k]))
   (∅, []) (flat_map distilled_into msgs)).2.

(** ** The census *)

Record ToolByteCensus := { total : nat; carried : nat; cen_evicted : nat; cen_reduced : nat }.

Definition census_one (p : ContextProjection) (c : ToolByteCensus) (m : Message) : ToolByteCensus :=
  let st := String.length (content m) in
  let current := projected_content p m in
  let saved := (st - String.length current)%nat in
  {| total := total c + st;
     carried := carried c + String.length current;
     cen_evicted := cen_evicted c + (if starts_with current COMPACTION_POINTER_PREFIX then saved else 0);
     cen_reduced := cen_reduced c +
       (if starts_with current COMPACTION_POINTER_PREFIX then 0
        else if starts_with current RECALL_REDUCED_PREFIX then saved else 0) |}.

Definition tool_byte_census (msgs : list Message) (p : ContextProjection) : ToolByteCensus :=
  foldl (census_one p) {| total := 0; carried := 0; cen_evicted := 0; cen_reduced := 0 |}
    (filter (λ m, role m = Tool) msgs).

Definition shrunk_elsewhere (c : ToolByteCensus) : nat :=
  (total c - carried c - (cen_evicted c + cen_reduced c))%nat.

Definition carried_percent (c : ToolByteCensus) : nat :=
  if (total c =? 0)%nat then 0 else (carried c * 100) / total c.


(** ** One message *)

Section pass.
Context (names : gmap string string) (note_keys : list string) (trace : DistilledTrace) (reason : EvictReason).

Notation fate' := (fate names note_keys trace reason).
Notation loop := (evict_loop names note_keys trace reason).

Lemma pointer_prefix tool i keys r :
  starts_with (compaction_pointer tool i keys r) COMPACTION_POINTER_PREFIX = true.
Proof. apply starts_with_app. unfold compaction_pointer. destruct keys; by eexists. Qed.

Lemma reduce_spec tool i result text :
  reduce_recalled_result tool i result = Some text →
  starts_with text RECALL_REDUCED_PREFIX = true ∧ (String.length text < String.length result)%nat.
Proof.
  unfold reduce_recalled_result. repeat (case_match; try done). intros [= <-]. split.
  - apply starts_with_app. by eexists.
  - by apply Nat.ltb_lt.
Qed.

(** The text a message is read as after the pass. *)
Definition after (current : string) (m : Message) : string :=
  match fate' current m with Skipped => current | Reduced t | Evicted t => t end.

(** What the pass leaves of the row. *)
Definition marked (current : string) (m : Message) : Message :=
  match fate' current m with
  | Evicted _ => if bool_decide (trace = Written) && bool_decide (note_keys ≠ []) then with_distilled_into m note_keys else m
  | _ => m
  end.

Lemma fate_spec current m :
  match fate' current m with
  | Skipped => True
  | Reduced t => starts_with t RECALL_REDUCED_PREFIX = true ∧ (String.length t < String.length current)%nat
  | Evicted t =>
      starts_with t COMPACTION_POINTER_PREFIX = true ∧ (String.length t < String.length current)%nat ∧
      t = compaction_pointer (produced_by names m) (id m) note_keys reason
  end.
Proof.
  unfold fate. destruct (_ || _); [done|]. destruct (_ || _); [done|].
  set (ptr := compaction_pointer _ _ _ _).
  assert (Hp : starts_with ptr COMPACTION_POINTER_PREFIX = true) by apply pointer_prefix.
  destruct (disposition _) eqn:Hd.
  - destruct (String.length ptr <? String.length current)%nat eqn:E; [|done]. by apply Nat.ltb_lt in E.
  - destruct (reduce_recalled_result _ _ _) as [t|] eqn:Er; [by apply reduce_spec in Er|].
    case_bool_decide; [done|]. destruct (String.length ptr <? String.length current)%nat eqn:E; [|done].
    by apply Nat.ltb_lt in E.
Qed.

Lemma fate_ids current m m' :
  id m' = id m → role m' = role m → tool_call_id m' = tool_call_id m → fate' current m' = fate' current m.
Proof. intros H1 H2 H3. unfold fate, produced_by. by rewrite H1, H2, H3. Qed.

Lemma fate_again current m : fate' (after current m) (marked current m) = Skipped.
Proof.
  assert (Hm : fate' (after current m) (marked current m) = fate' (after current m) m).
  { apply fate_ids; unfold marked; destruct (fate' current m); try done; by destruct (_ && _). }
  rewrite Hm. unfold after. assert (Hs := fate_spec current m).
  destruct (fate' current m) as [|t|t] eqn:E; [done| |]; unfold fate; destruct (_ || _); try done.
  - destruct Hs as [-> _]. by rewrite orb_true_r.
  - by destruct Hs as [-> _].
Qed.

Lemma after_length current m : (String.length (after current m) ≤ String.length current)%nat.
Proof. unfold after. assert (Hs := fate_spec current m). destruct (fate' current m); lia. Qed.

(** ** The pass *)

Lemma evict_one_spec m p o :
  evict_one names note_keys trace reason m p o =
    (marked (projected_content p m) m,
     match fate' (projected_content p m) m with Skipped => p | Reduced t | Evicted t => replace p m t end,
     (evict_one names note_keys trace reason m p o).2).
Proof. unfold evict_one, marked. by destruct (fate' (projected_content p m) m). Qed.

Lemma evict_loop_spec msgs p o :
  NoDup (map id msgs) →
  let '(msgs', p', o') := loop msgs p o in
  msgs' = map (λ m, marked (projected_content p m) m) msgs ∧
  (∀ i, i ∉ map id msgs → p' !! i = p !! i) ∧
  (∀ m, m ∈ msgs → projected_content p' m = after (projected_content p m) m).
Proof.
  revert p o. induction msgs as [|m msgs IH]; intros p o Hnd; [by split_and!; [| |set_solver]|].
  apply NoDup_cons in Hnd as [Hm Hnd]. cbn [evict_loop]. rewrite evict_one_spec.
  set (p1 := match _ with Skipped => p | _ => _ end).
  specialize (IH p1 (evict_one names note_keys trace reason m p o).2 Hnd).
  destruct (loop msgs p1 _) as [[msgs' p'] o']. destruct IH as (-> & Hother & Hin).
  assert (Hp1 : ∀ i, i ≠ id m → p1 !! i = p !! i).
  { intros i Hi. unfold p1, replace. case_match; [done|..]; by rewrite lookup_insert_ne. }
  assert (Hsame : ∀ x, x ∈ msgs → projected_content p1 x = projected_content p x).
  { intros x Hx. unfold projected_content. rewrite Hp1; [done|]. intros Hid. apply Hm. rewrite <- Hid.
    by apply list_elem_of_In, in_map, list_elem_of_In. }
  split_and!.
  - cbn [map]. f_equal. apply map_ext_in. intros x Hx%list_elem_of_In. by rewrite Hsame.
  - intros i [Hi1 Hi2]%not_elem_of_cons. by rewrite Hother, Hp1.
  - intros x [->|Hx]%elem_of_cons.
    + unfold projected_content at 1. rewrite Hother by done. unfold p1, after, replace.
      case_match; [done|..]; by rewrite lookup_insert_eq.
    + by rewrite Hin, Hsame.
Qed.

Lemma evict_loop_outcome msgs p o :
  NoDup (map id msgs) →
  let o' := (loop msgs p o).2 in
  (sum_Z (λ m, slen (projected_content p m)) msgs + Z.of_nat (freed o + reduced_bytes o) =
   sum_Z (λ m, slen (after (projected_content p m) m)) msgs + Z.of_nat (freed o' + reduced_bytes o'))%Z.
Proof.
  revert p o. induction msgs as [|m msgs IH]; intros p o Hnd; [done|].
  apply NoDup_cons in Hnd as [Hm Hnd]. cbn [evict_loop]. rewrite evict_one_spec.
  set (p1 := match _ with Skipped => p | _ => _ end). set (o1 := (evict_one _ _ _ _ m p o).2).
  assert (Hsame : ∀ x, x ∈ msgs → projected_content p1 x = projected_content p x).
  { intros x Hx. unfold projected_content, p1, replace. case_match; [done|..]; rewrite lookup_insert_ne; try done;
      intros Hid; apply Hm; rewrite Hid; by apply list_elem_of_In, in_map, list_elem_of_In. }
  specialize (IH p1 o1 Hnd). destruct (loop msgs p1 o1) as [[msgs' p'] o'] eqn:El. simpl in *.
  assert (Hs1 : sum_Z (λ m, slen (projected_content p1 m)) msgs = sum_Z (λ m, slen (projected_content p m)) msgs).
  { apply sum_Z_ext. intros x Hx. by rewrite Hsame. }
  assert (Hs2 : sum_Z (λ m, slen (after (projected_content p1 m) m)) msgs = sum_Z (λ m, slen (after (projected_content p m) m)) msgs).
  { apply sum_Z_ext. intros x Hx. by rewrite Hsame. }
  rewrite Hs1, Hs2 in IH. unfold sum_Z in *. simpl.
  assert (Hf := fate_spec (projected_content p m) m).
  assert (slen (projected_content p m) + Z.of_nat (freed o + reduced_bytes o) =
    slen (after (projected_content p m) m) + Z.of_nat (freed o1 + reduced_bytes o1))%Z; [|lia].
  unfold o1, after, evict_one, slen. destruct (fate' (projected_content p m) m); simpl; lia.
Qed.

End pass.

(** ** The whole range *)

Lemma tool_names_ext a b :
  map (λ m, (role m, tool_calls m)) a = map (λ m, (role m, tool_calls m)) b →
  tool_names_by_call_id a = tool_names_by_call_id b.
Proof.
  unfold tool_names_by_call_id. generalize (∅ : gmap string string). revert b.
  induction a as [|x a IH]; intros [|y b] g; simpl; try done. intros [= Hr Ht Hab]. rewrite Hr, Ht. by apply IH.
Qed.

(** The row of [m] after a pass: the decision is recorded on it when the pass
    says so, and nothing else of it changes. *)
Definition same_row (m m' : Message) : Prop := m' = with_distilled_into m (distilled_into m').

Lemma same_row_refl m : same_row m m.
Proof. by destruct m. Qed.

Lemma marked_same_row names keys trace reason current m :
  same_row m (marked names keys trace reason current m).
Proof. unfold marked. case_match; [apply same_row_refl..|]. destruct (_ && _); [done|apply same_row_refl]. Qed.

Lemma same_row_map {B} (g : Message → B) (msgs msgs' : list Message) :
  (∀ m k, g (with_distilled_into m k) = g m) → Forall2 same_row msgs msgs' → map g msgs' = map g msgs.
Proof. intros Hg. induction 1 as [|m m' l l' Hm _ IH]; [done|]. simpl. rewrite IH, Hm. by rewrite Hg. Qed.

Lemma NoDup_drop_ids n (msgs : list Message) : NoDup (map id msgs) → NoDup (map id (drop n msgs)).
Proof. rewrite <- (take_drop n msgs) at 1. rewrite map_app. by intros (_ & _ & ?)%NoDup_app. Qed.

Lemma drop_clamp {A} n (l : list A) : drop (Nat.min n (length l)) l = drop n l.
Proof. destruct (Nat.min_spec n (length l)) as [[_ ->]|[? ->]]; [done|]. by rewrite !drop_ge by lia. Qed.

Lemma take_clamp {A} n (l : list A) : take (Nat.min n (length l)) l = take n l.
Proof. destruct (Nat.min_spec n (length l)) as [[_ ->]|[? ->]]; [done|]. by rewrite !take_ge by lia. Qed.

Lemma evict_spec msgs p from keys trace reason :
  NoDup (map id msgs) →
  let names := tool_names_by_call_id msgs in
  let '(msgs', p', o) := evict_tool_results msgs p from keys trace reason in
  msgs' = take from msgs ++ map (λ m, marked names keys trace reason (projected_content p m) m) (drop from msgs) ∧
  (∀ m, m ∈ take from msgs → projected_content p' m = projected_content p m) ∧
  (∀ m, m ∈ drop from msgs → projected_content p' m = after names keys trace reason (projected_content p m) m).
Proof.
  intros Hnd. simpl. unfold evict_tool_results. rewrite take_clamp, drop_clamp.
  assert (Hs := evict_loop_spec (tool_names_by_call_id msgs) keys trace reason (drop from msgs) p
    EvictionOutcome_default (NoDup_drop_ids from msgs Hnd)).
  destruct (evict_loop _ _ _ _ _ _ _) as [[tl p'] o]. destruct Hs as (-> & Hother & Hin).
  split_and!; [done| |done]. intros m Hm. unfold projected_content. rewrite Hother; [done|].
  rewrite <- (take_drop from msgs) in Hnd. rewrite map_app in Hnd. apply NoDup_app in Hnd as (_ & Hdis & _).
  apply Hdis. by apply list_elem_of_In, in_map, list_elem_of_In.
Qed.

Definition view (p : ContextProjection) (msgs : list Message) : Z :=
  sum_Z (λ m, slen (projected_content p m)) msgs.

Lemma evict_conserves msgs p from keys trace reason :
  NoDup (map id msgs) →
  let '(_, p', o) := evict_tool_results msgs p from keys trace reason in
  (view p msgs = view p' msgs + Z.of_nat (freed o + reduced_bytes o))%Z.
Proof.
  intros Hnd. assert (Hs := evict_spec msgs p from keys trace reason Hnd). simpl in Hs.
  assert (Ho := evict_loop_outcome (tool_names_by_call_id msgs) keys trace reason (drop from msgs) p
    EvictionOutcome_default (NoDup_drop_ids from msgs Hnd)).
  unfold evict_tool_results in *. rewrite drop_clamp in *.
  destruct (evict_loop _ _ _ _ _ _ _) as [[tl p'] o]. simpl in *. destruct Hs as (_ & Hpre & Hin).
  unfold view. rewrite <- (take_drop from msgs), !sum_Z_app.
  rewrite (sum_Z_ext (λ m, slen (projected_content p' m)) (λ m, slen (projected_content p m)) (take from msgs))
    by (intros x Hx; by rewrite Hpre).
  rewrite (sum_Z_ext (λ m, slen (projected_content p' m))
    (λ m, slen (after (tool_names_by_call_id msgs) keys trace reason (projected_content p m) m)) (drop from msgs))
    by (intros x Hx; by rewrite Hin).
  lia.
Qed.

(** A pass that finds only results it skips does nothing. *)
Lemma evict_loop_skips names keys trace reason msgs p o :
  Forall (λ m, fate names keys trace reason (projected_content p m) m = Skipped) msgs →
  evict_loop names keys trace reason msgs p o = (msgs, p, o).
Proof.
  induction 1 as [|m msgs Hm _ IH]; [done|]. cbn [evict_loop]. unfold evict_one. by rewrite Hm, IH.
Qed.

Lemma evict_rows msgs p from keys trace reason :
  NoDup (map id msgs) → Forall2 same_row msgs (evict_tool_results msgs p from keys trace reason).1.1.
Proof.
  intros Hnd. assert (Hs := evict_spec msgs p from keys trace reason Hnd). simpl in Hs.
  destruct (evict_tool_results _ _ _ _ _ _) as [[msgs' p'] o]. simpl. destruct Hs as (-> & _).
  rewrite <- (take_drop from msgs) at 1. apply Forall2_app.
  - apply Forall2_same_length_lookup. split; [done|]. intros i x y Hx Hy. simplify_eq. apply same_row_refl.
  - generalize (drop from msgs). intros l. induction l as [|m l IH]; [done|]. constructor; [apply marked_same_row|done].
Qed.

Lemma evict_twice msgs p from keys trace reason :
  NoDup (map id msgs) →
  let '(msgs', p', o) := evict_tool_results msgs p from keys trace reason in
  evict_tool_results msgs' p' from keys trace reason = (msgs', p', EvictionOutcome_default).
Proof.
  intros Hnd. assert (Hs := evict_spec msgs p from keys trace reason Hnd). simpl in Hs.
  assert (Hr := evict_rows msgs p from keys trace reason Hnd).
  destruct (evict_tool_results msgs p from keys trace reason) as [[msgs' p'] o]. simpl in Hr.
  destruct Hs as (Hm & _ & Hin). assert (Hlen := Forall2_length _ _ _ Hr).
  unfold evict_tool_results. rewrite take_clamp, drop_clamp.
  rewrite (tool_names_ext msgs' msgs) by (apply same_row_map; [by intros []|done]).
  rewrite evict_loop_skips; [by rewrite take_drop|].
  assert (Hd : drop from msgs' = map (λ m, marked (tool_names_by_call_id msgs) keys trace reason (projected_content p m) m) (drop from msgs)).
  { rewrite Hm, drop_app, length_take.
    destruct (Nat.min_spec from (length msgs)) as [[? E]|[? E]]; rewrite E.
    - rewrite (drop_ge (take from msgs)) by (rewrite length_take; lia). by rewrite Nat.sub_diag.
    - rewrite (drop_ge msgs from) by lia. simpl. rewrite drop_nil, app_nil_r. apply drop_ge. rewrite length_take. lia. }
  rewrite Hd. apply Forall_forall. intros m' Hm'. apply list_elem_of_In, in_map_iff in Hm' as (m & <- & Hmm%list_elem_of_In).
  assert (Hp : projected_content p' (marked (tool_names_by_call_id msgs) keys trace reason (projected_content p m) m) =
    projected_content p' m).
  { assert (Hrow := marked_same_row (tool_names_by_call_id msgs) keys trace reason (projected_content p m) m).
    by rewrite Hrow. }
  rewrite Hp, Hin by done. apply fate_again.
Qed.

(** A pass over a step's scope leaves every stored message as it was but
    for the recorded note keys, touches nothing before the scope and nothing but
    tool results in it, shortens what the turn reads by exactly the bytes it
    reports, and repeating it changes nothing. *)
Theorem eviction_accounts_for_its_bytes (msgs : list Message) (p : ContextProjection) (from : nat)
    (keys : list string) (trace : DistilledTrace) (reason : EvictReason)
    (Hids : NoDup (map id msgs)) :
  let '(msgs', p', o) := evict_tool_results msgs p from keys trace reason in
  Forall2 same_row msgs msgs' ∧
  (∀ m, m ∈ msgs → m ∈ take from msgs ∨ role m ≠ Tool → projected_content p' m = projected_content p m) ∧
  (view p msgs = view p' msgs + Z.of_nat (freed o + reduced_bytes o))%Z ∧
  evict_tool_results msgs' p' from keys trace reason = (msgs', p', EvictionOutcome_default).
Proof.
  assert (Hs := evict_spec msgs p from keys trace reason Hids).
  assert (Hc := evict_conserves msgs p from keys trace reason Hids).
  assert (Hr := evict_rows msgs p from keys trace reason Hids).
  assert (Ht := evict_twice msgs p from keys trace reason Hids).
  destruct (evict_tool_results msgs p from keys trace reason) as [[msgs' p'] o]. simpl in Hs, Hr.
  destruct Hs as (_ & Hpre & Hin). split_and!; [done| |done|done].
  intros m Hm [Htk|Hnt]; [by apply Hpre|]. rewrite <- (take_drop from msgs) in Hm.
  apply elem_of_app in Hm as [?|?]; [by apply Hpre|]. rewrite Hin by done. unfold after, fate.
  by rewrite bool_decide_eq_true_2.
Qed.

(** ** Recalls *)

Lemma push_row_extends body row : ∃ r, push_row body row = body +:+ r.
Proof.
  unfold push_row. repeat case_match; try (exists EmptyString; by rewrite string_app_nil_r);
    try (by eexists); rewrite string_app_assoc; by eexists.
Qed.

Lemma push_rows_extend rows body : ∃ r, foldl push_row body rows = body +:+ r.
Proof.
  revert body. induction rows as [|row rows IH]; intros body; simpl.
  - exists EmptyString. by rewrite string_app_nil_r.
  - destruct (push_row_extends body row) as [r1 ->], (IH (body +:+ r1)) as [r2 ->].
    exists (r1 +:+ r2). by rewrite string_app_assoc.
Qed.

(** The text a row was fetched for. *)
Definition substance (row : Value) : option string :=
  match as_object row with
  | Some obj =>
      match first_str SUBSTANCE_FIELDS obj with
      | Some text => if String.eqb (trim text) EmptyString then None else Some text
      | None => None
      end
  | None => None
  end.

Lemma push_row_substance body row text : substance row = Some text → ∃ l r, push_row body row = l +:+ text +:+ r.
Proof.
  unfold substance, push_row. destruct (as_object row) as [obj|]; [|done].
  destruct (first_str SUBSTANCE_FIELDS obj) as [t|]; [|done]. destruct (String.eqb (trim t) EmptyString); [done|].
  intros [= ->]. eexists (_ +:+ _), newline. rewrite (string_app_assoc _ _ (text +:+ newline)). reflexivity.
Qed.

Lemma push_rows_substance rows body row text :
  row ∈ rows → substance row = Some text → ∃ l r, foldl push_row body rows = l +:+ text +:+ r.
Proof.
  revert body. induction rows as [|x rows IH]; intros body Hrow Ht; [set_solver|]. simpl.
  apply elem_of_cons in Hrow as [->|Hrow]; [|by apply IH].
  destruct (push_row_substance body x text Ht) as (l & r & Hl).
  destruct (push_rows_extend rows (push_row body x)) as [r' ->]. rewrite Hl. exists l, (r +:+ r').
  by rewrite !string_app_assoc.
Qed.

Lemma contains_str_extend x s t : contains_str s t = true → contains_str (x +:+ s) t = true.
Proof. rewrite !contains_str_app. intros (l & r & ->). exists (x +:+ l), r. by rewrite string_app_assoc. Qed.

Lemma reduce_keeps_substance tool i result text :
  reduce_recalled_result tool i result = Some text →
  ∃ payload rows, from_str result = Some payload ∧ find_map (λ f, get f payload ≫= as_array) ROW_ARRAYS = Some rows ∧
    ∀ row t, row ∈ rows → substance row = Some t → contains_str text t = true.
Proof.
  unfold reduce_recalled_result. destruct (from_str result) as [payload|]; [|done].
  destruct (find_map _ ROW_ARRAYS) as [rows|] eqn:Er; [|done].
  destruct (foldl push_row EmptyString rows) as [|a body] eqn:Eb; [done|].
  destruct (_ <? _)%nat; [|done]. intros [= <-]. exists payload, rows. split_and!; [done..|].
  intros row t Hrow Ht. destruct (push_rows_substance rows EmptyString row t Hrow Ht) as (l & r & Hl).
  rewrite Eb in Hl. rewrite Hl. do 10 apply contains_str_extend. apply contains_str_app. by exists l, r.
Qed.

Lemma sweep_spec msgs p upto :
  NoDup (map id msgs) →
  let '(msgs', p', o) := evict_superseded_tool_results msgs p upto in
  let names := tool_names_by_call_id (take upto msgs) in
  msgs' = msgs ∧
  (∀ m, m ∈ drop upto msgs → projected_content p' m = projected_content p m) ∧
  (∀ m, m ∈ take upto msgs → projected_content p' m = after names [] Absent Superseded (projected_content p m) m).
Proof.
  intros Hnd. unfold evict_superseded_tool_results. rewrite take_clamp, drop_clamp.
  assert (Hnd' := Hnd). rewrite <- (take_drop upto msgs), map_app in Hnd'. apply NoDup_app in Hnd' as (Ht & Hdis & _).
  unfold evict_tool_results. rewrite take_clamp, drop_clamp.
  change (drop 0 (take upto msgs)) with (take upto msgs). change (take 0 (take upto msgs)) with (@nil Message).
  assert (Hs := evict_loop_spec (tool_names_by_call_id (take upto msgs)) [] Absent Superseded (take upto msgs) p
    EvictionOutcome_default Ht).
  destruct (evict_loop _ _ _ _ _ _ _) as [[tl p'] o]. destruct Hs as (-> & Hother & Hin). split_and!; [| |done].
  - assert (Hid : map (λ m, marked (tool_names_by_call_id (take upto msgs)) [] Absent Superseded (projected_content p m) m)
      (take upto msgs) = take upto msgs).
    { generalize (tool_names_by_call_id (take upto msgs)). intros g. generalize (take upto msgs). intros l.
      induction l as [|m l IH]; [done|]. simpl. rewrite IH. f_equal. unfold marked. by case_match. }
    rewrite Hid. apply take_drop.
  - intros m Hm. unfold projected_content. rewrite Hother; [done|]. intros Hi. apply (Hdis (id m) Hi).
    by apply list_elem_of_In, in_map, list_elem_of_In.
Qed.

(** The sweep of superseded results records nothing on any row and leaves
    the protected part of the turn alone; a result of one of the assistant's
    own memory surfaces is never replaced by a pointer: the turn keeps reading
    it whole, or as a shorter text that contains every entry the recall
    returned. *)
Theorem sweep_keeps_what_was_recalled (msgs : list Message) (p : ContextProjection) (upto : nat)
    (Hids : NoDup (map id msgs)) :
  let '(msgs', p', o) := evict_superseded_tool_results msgs p upto in
  msgs' = msgs ∧
  (∀ m, m ∈ drop upto msgs → projected_content p' m = projected_content p m) ∧
  (∀ m, m ∈ take upto msgs →
    eviction_class (produced_by (tool_names_by_call_id (take upto msgs)) m) (projected_content p m) = RecalledMemory →
    projected_content p' m = projected_content p m ∨
    (String.length (projected_content p' m) < String.length (projected_content p m))%nat ∧
    ∃ payload rows, from_str (projected_content p m) = Some payload ∧
      find_map (λ f, get f payload ≫= as_array) ROW_ARRAYS = Some rows ∧
      ∀ row t, row ∈ rows → substance row = Some t → contains_str (projected_content p' m) t = true).
Proof.
  assert (Hs := sweep_spec msgs p upto Hids).
  destruct (evict_superseded_tool_results msgs p upto) as [[msgs' p'] o]. destruct Hs as (-> & Hdrop & Htake).
  split_and!; [done..|]. intros m Hm Hc. rewrite Htake by done. unfold after, fate.
  destruct (_ || _); [by left|]. destruct (_ || _); [by left|]. rewrite Hc. cbn [disposition].
  destruct (reduce_recalled_result _ _ _) as [t|] eqn:Er; [|by left].
  right. split; [by eapply reduce_spec|by eapply reduce_keeps_substance].
Qed.

(** ** A later turn *)

Definition carried_text (names : gmap string string) (live : gset string) (p : ContextProjection) (m : Message) : string :=
  let pointer := compaction_pointer (produced_by names m) (id m) (distilled_into m) StepCompleted in
  if bool_decide (distilled_into m = []) || is_replaced p m then projected_content p m
  else if negb (forallb (λ k, bool_decide (k ∈ live)) (distilled_into m)) then projected_content p m
  else if (String.length (content m) <=? String.length pointer)%nat then projected_content p m
  else pointer.

Lemma carry_loop_spec names live msgs p c s :
  NoDup (map id msgs) →
  (∀ i, i ∉ map id msgs → (carry_loop names live msgs p c s).1 !! i = p !! i) ∧
  (∀ m, m ∈ msgs → projected_content (carry_loop names live msgs p c s).1 m = carried_text names live p m).
Proof.
  revert p c s. induction msgs as [|m msgs IH]; intros p c s Hnd; [by split; [|set_solver]|].
  apply NoDup_cons in Hnd as [Hm Hnd].
  set (ptr := compaction_pointer (produced_by names m) (id m) (distilled_into m) StepCompleted).
  assert (Hstep : ∃ p1 c1 s1, carry_loop names live (m :: msgs) p c s = carry_loop names live msgs p1 c1 s1 ∧
    (∀ i, i ≠ id m → p1 !! i = p !! i) ∧ projected_content p1 m = carried_text names live p m).
  { cbn [carry_loop]. unfold carried_text. fold ptr. destruct (_ || _); [by eexists _, _, _|].
    destruct (negb _); [by eexists _, _, _|]. destruct (_ <=? _)%nat; [by eexists _, _, _|].
    eexists _, _, _. split; [done|]. unfold replace, projected_content. split; [intros i Hi; by rewrite lookup_insert_ne|].
    by rewrite lookup_insert_eq. }
  destruct Hstep as (p1 & c1 & s1 & -> & Hother & Hhere). destruct (IH p1 c1 s1 Hnd) as [IH1 IH2]. split.
  - intros i [Hi1 Hi2]%not_elem_of_cons. by rewrite IH1, Hother.
  - intros x [->|Hx]%elem_of_cons.
    + unfold projected_content at 1. rewrite IH1 by done. exact Hhere.
    + rewrite IH2 by done.
      assert (Hne : id x ≠ id m) by (intros E; apply Hm; rewrite <- E; by apply list_elem_of_In, in_map, list_elem_of_In).
      unfold carried_text, is_replaced, projected_content. by rewrite !Hother.
Qed.

Lemma prefixes_disjoint t :
  starts_with t RECALL_REDUCED_PREFIX = true → starts_with t COMPACTION_POINTER_PREFIX = false.
Proof. rewrite starts_with_app. by intros [r ->]. Qed.

(** What a completed step put away stays put away: a later turn that
    starts from an empty projection reads, for every result the step replaced,
    the very pointer the step left, as long as all of its notes still exist, and
    the whole stored output as soon as one of them is gone. *)
Theorem carried_pointers_are_the_steps_own (msgs : list Message) (p : ContextProjection) (from : nat)
    (keys : list string) (live : gset string) (m : Message)
    (Hids : NoDup (map id msgs)) (Hkeys : keys ≠ []) (Hm : m ∈ drop from msgs)
    (Hraw : is_replaced p m = false) (Hfresh : starts_with (content m) COMPACTION_POINTER_PREFIX = false) :
  let '(msgs', p', _) := evict_tool_results msgs p from keys Written StepCompleted in
  starts_with (projected_content p' m) COMPACTION_POINTER_PREFIX = true →
  projected_content (carry_evictions msgs' ∅ live).1 m =
    (if forallb (λ k, bool_decide (k ∈ live)) keys then projected_content p' m else content m).
Proof.
  assert (Hs := evict_spec msgs p from keys Written StepCompleted Hids).
  assert (Hr := evict_rows msgs p from keys Written StepCompleted Hids).
  destruct (evict_tool_results msgs p from keys Written StepCompleted) as [[msgs' p'] o]. simpl in Hs, Hr.
  destruct Hs as (Hm' & _ & Hin). rewrite Hin by done. set (names := tool_names_by_call_id msgs) in *.
  rewrite (not_replaced_content p m Hraw). unfold after.
  assert (Hf := fate_spec names keys Written StepCompleted (content m) m).
  destruct (fate names keys Written StepCompleted (content m) m) as [|t|t] eqn:Ef.
  - by rewrite Hfresh.
  - intros Hp. destruct Hf as [Hf _]. by rewrite prefixes_disjoint in Hp.
  - intros _. destruct Hf as (_ & Hlen & Ht).
    assert (Hin' : with_distilled_into m keys ∈ msgs').
    { rewrite Hm'. apply elem_of_app. right. apply list_elem_of_In, in_map_iff. exists m.
      split; [|by apply list_elem_of_In]. rewrite (not_replaced_content p m Hraw). unfold marked. rewrite Ef.
      by rewrite (bool_decide_eq_true_2 (Written = Written)), (bool_decide_eq_true_2 (keys ≠ [])). }
    assert (Hnd' : NoDup (map id msgs')) by (rewrite (same_row_map id msgs msgs'); [done|by intros []|done]).
    unfold carry_evictions. rewrite (tool_names_ext msgs' msgs) by (apply same_row_map; [by intros []|done]).
    destruct (carry_loop_spec names live msgs' ∅ 0 0 Hnd') as [_ Hc]. specialize (Hc _ Hin').
    transitivity (carried_text names live ∅ (with_distilled_into m keys)); [by rewrite <- Hc|].
    unfold carried_text, is_replaced. cbn [distilled_into with_distilled_into id content].
    change (produced_by names (with_distilled_into m keys)) with (produced_by names m). rewrite <- Ht.
    rewrite (bool_decide_eq_false_2 (keys = [])) by done. rewrite bool_decide_eq_false_2 by (rewrite lookup_empty; by intros []).
    simpl. destruct (forallb _ keys); simpl; [|done]. destruct (_ <=? _)%nat eqn:E; [apply Nat.leb_le in E; lia|done].
Qed.

End eviction.

(** ** The census adds up *)

Lemma census_adds_up p (msgs : list Message) c :
  (∀ m, m ∈ msgs → (String.length (projected_content p m) ≤ String.length (content m))%nat) →
  let c' := foldl (census_one p) c msgs in
  (carried c + cen_evicted c + cen_reduced c ≤ total c →
   carried c' + cen_evicted c' + cen_reduced c' ≤ total c')%nat.
Proof.
  revert c. induction msgs as [|m msgs IH]; intros c Hle; [done|]. simpl. intros Hc. apply IH; [set_solver|].
  assert (Hm := Hle m ltac:(set_solver)). unfold census_one. simpl. repeat case_match; lia.
Qed.

(** The four figures of a census account for every stored byte. *)
Lemma census_accounts p (msgs : list Message) :
  (∀ m, m ∈ msgs → (String.length (projected_content p m) ≤ String.length (content m))%nat) →
  let c := tool_byte_census msgs p in
  (total c = carried c + cen_evicted c + cen_reduced c + shrunk_elsewhere c)%nat ∧ (carried_percent c ≤ 100)%nat.
Proof.
  intros Hle c. assert (Hc : (carried c + cen_evicted c + cen_reduced c ≤ total c)%nat).
  { apply census_adds_up; [|done]. intros m Hm. apply Hle. by apply list_elem_of_filter in Hm as [_ ?]. }
  split; [unfold shrunk_elsewhere; lia|]. unfold carried_percent. case_match eqn:E; [lia|].
  apply Nat.eqb_neq in E. apply Nat.Div0.div_le_upper_bound. lia.
Qed.

(** The keys a turn asks the scratchpad about: those of the recorded decisions,
    each once. *)
Lemma distilled_note_keys_spec msgs :
  NoDup (distilled_note_keys msgs) ∧
  ∀ k, k ∈ distilled_note_keys msgs ↔ ∃ m, m ∈ msgs ∧ k ∈ distilled_into m.
Proof.
  unfold distilled_note_keys. set (l := flat_map distilled_into msgs).
  assert (Hl : ∀ k, k ∈ l ↔ ∃ m, m ∈ msgs ∧ k ∈ distilled_into m).
  { intros k. unfold l. rewrite list_elem_of_In, in_flat_map. setoid_rewrite <- list_elem_of_In. done. }
  setoid_rewrite <- Hl. clear Hl.
  set (f := λ (acc : gset string * list string) k, if bool_decide (k ∈ acc.1) then acc else ({[k]} ∪ acc.1, acc.2 ++ [k])).
  assert (Hgen : ∀ acc : gset string * list string, (∀ k, k ∈ acc.1 ↔ k ∈ acc.2) → NoDup acc.2 →
    NoDup (foldl f acc l).2 ∧ ∀ k, k ∈ (foldl f acc l).2 ↔ k ∈ acc.2 ∨ k ∈ l).
  { clearbody l. induction l as [|x l IH]; intros acc Hacc Hnd; simpl; [set_solver|].
    destruct (decide (x ∈ acc.1)) as [Hx|Hx].
    - assert (Hf : f acc x = acc) by (unfold f; by rewrite bool_decide_eq_true_2).
      rewrite Hf. destruct (IH acc Hacc Hnd) as [H1 H2]. split; [done|]. intros k. rewrite H2. set_solver.
    - assert (Hf : f acc x = ({[x]} ∪ acc.1, acc.2 ++ [x])) by (unfold f; by rewrite bool_decide_eq_false_2).
      rewrite Hf. destruct (IH ({[x]} ∪ acc.1, acc.2 ++ [x])) as [H1 H2]; simpl; [set_solver| |].
      + apply NoDup_app. split_and!; [done| |apply NoDup_singleton]. set_solver.
      + split; [done|]. intros k. rewrite H2. set_solver. }
  destruct (Hgen (∅, []) ltac:(set_solver) (NoDup_nil_2)) as [H1 H2]. split; [done|]. intros k. rewrite H2. set_solver.
Qed.

(** ** Names that carry a location root

    The names behind a row are those of the requests the model wrote. *)
Lemma rooted_recall_is_mechanism `{!SerdeJson} l seg result :
  rsplit_once (root l +:+ seg) "__" = None → eviction_class (Some (root l +:+ seg)) result = Mechanism.
Proof.
  intros Hn. unfold eviction_class, named.
  assert (Hne : ∃ a r, root l +:+ seg = String a r) by (by destruct l; eexists _, _).
  destruct Hne as (a & r & Hr). rewrite Hr. rewrite <- Hr. unfold result_is_externally_controlled.
  rewrite rooted_name_is_unclassified by done. simpl. unfold base_tool_name. rewrite Hn.
  rewrite bool_decide_eq_false_2; [done|]. unfold MEMORY_SURFACES. intros Hin.
  destruct l; repeat (apply elem_of_cons in Hin as [Hin|Hin]; [done|]); set_solver.
Qed.

(** ** Witnesses *)

Definition long_text (n : nat) : string := String.string_of_list_ascii (repeat (Ascii.ascii_of_nat 97) n).

(** A payload whose one entry is kept and whose envelope is long. *)
Definition recall_json : SerdeJson :=
  {| from_str := λ s, if starts_with s "{" then
       Some (Object [("entries", Array [Object [("content", Str "the deploy key rotates in May"); ("id", Str "kb-1")]])]) else None;
     to_string := λ _, "{" |}.

Definition step_messages : list Message :=
  [Message_new "m0" User "deploy it";
   assistant_with_tool_calls "m1" [{| call_id := "c1"; call_name := "terminal_execute"; call_arguments := "{}" |};
                                   {| call_id := "c2"; call_name := "builtin_knowledge_base_get"; call_arguments := "{}" |}];
   tool_result "m2" "c1" (long_text 600);
   tool_result "m3" "c2" ("{" +:+ long_text 700)].

Lemma step_messages_ids : NoDup (map id step_messages).
Proof. apply (bool_decide_eq_true_1 _). by vm_compute. Qed.

Lemma eviction_accounts_for_its_bytes_witness :
  (@evict_tool_results recall_json step_messages ∅ 1 ["outcome:1"] Written StepCompleted).2 =
    {| evicted := 1; freed := 272; reduced := 1; reduced_bytes := 524 |} ∧
  view ∅ step_messages =
    (view (@evict_tool_results recall_json step_messages ∅ 1 ["outcome:1"] Written StepCompleted).1.2 step_messages + 796)%Z.
Proof.
  split; [by vm_compute|].
  pose proof (@eviction_accounts_for_its_bytes recall_json step_messages ∅ 1 ["outcome:1"] Written StepCompleted step_messages_ids) as H.
  assert (Ho : (@evict_tool_results recall_json step_messages ∅ 1 ["outcome:1"] Written StepCompleted).2 =
    {| evicted := 1; freed := 272; reduced := 1; reduced_bytes := 524 |}) by by vm_compute.
  destruct (evict_tool_results _ _ _ _ _ _) as [[msgs' p'] o]. simpl in Ho. subst o. simpl. by destruct H as (_ & _ & H & _).
Defined.

Lemma sweep_keeps_what_was_recalled_witness :
  let p' := (@evict_superseded_tool_results recall_json step_messages ∅ 4).1.2 in
  let m := tool_result "m3" "c2" ("{" +:+ long_text 700) in
  contains_str (projected_content p' m) "the deploy key rotates in May" = true ∧
  (String.length (projected_content p' m) < String.length (content m))%nat.
Proof.
  pose proof (@sweep_keeps_what_was_recalled recall_json step_messages ∅ 4 step_messages_ids) as H.
  set (m := tool_result "m3" "c2" ("{" +:+ long_text 700)) in *.
  assert (Hne : projected_content (@evict_superseded_tool_results recall_json step_messages ∅ 4).1.2 m ≠ content m)
    by (apply (bool_decide_eq_true_1 _); by vm_compute).
  destruct (evict_superseded_tool_results _ _ _) as [[msgs' p'] o]. simpl in Hne |- *. destruct H as (_ & _ & H).
  destruct (H m) as [Heq|(Hlen & payload & rows & Hp & Hr & Hall)].
  - do 3 right. left.
  - by vm_compute.
  - done.
  - injection Hp as <-. injection Hr as <-. split; [|done].
    eapply Hall; [left|by vm_compute].
Defined.

Lemma carried_pointers_are_the_steps_own_witness :
  let '(msgs', p', _) := @evict_tool_results recall_json step_messages ∅ 1 ["outcome:1"] Written StepCompleted in
  let m := tool_result "m2" "c1" (long_text 600) in
  projected_content (carry_evictions msgs' ∅ {["outcome:1"; "goal"]}).1 m = projected_content p' m ∧
  projected_content (carry_evictions msgs' ∅ {["goal"]}).1 m = content m.
Proof.
  set (m := tool_result "m2" "c1" (long_text 600)).
  pose proof (λ live, @carried_pointers_are_the_steps_own recall_json step_messages ∅ 1 ["outcome:1"] live m step_messages_ids) as H.
  assert (Hptr : starts_with (projected_content
    (@evict_tool_results recall_json step_messages ∅ 1 ["outcome:1"] Written StepCompleted).1.2 m) COMPACTION_POINTER_PREFIX = true)
    by by vm_compute.
  destruct (evict_tool_results _ _ _ _ _ _) as [[msgs' p'] o]. simpl in Hptr.
  assert (Hm : m ∈ drop 1 step_messages) by (right; left).
  split.
  - rewrite (H {["outcome:1"; "goal"]}); [by vm_compute|done|done|by vm_compute|by vm_compute|done].
  - rewrite (H {["goal"]}); [by vm_compute|done|done|by vm_compute|by vm_compute|done].
Defined.
