(* ===== verification/TurnIndex.v ===== *)
(** * The index of earlier turns

    Models [crates/core/src/turn_index.rs]: the turns of a conversation before
    the one being run, which of them a bounded block lists, and the block. *)

From S2P Require Import Prelude DisplayLine Messages ToolRouting ToolProvenance.

Definition MAX_INDEXED_TURNS : nat := 40.
Definition OPENING_CHARS : nat := 100.

Record IndexedTurn := {
  turn_id : string;
  opening : string;
  tool_results : nat;
  in_window : bool
}.

#[export] Instance IndexedTurn_eq_dec : EqDecision IndexedTurn.
Proof. solve_decision. Defined.

(** The positions of the messages that satisfy [p], counted from [base]. *)
Fixpoint positions_from {A} (p : A → bool) (base : nat) (l : list A) : list nat :=
  match l with
  | [] => []
  | x :: l' => if p x then base :: positions_from p (S base) l' else positions_from p (S base) l'
  end.

Definition is_user (m : Message) : bool := bool_decide (role m = User).
Definition is_tool (m : Message) : bool := bool_decide (role m = Tool).

(** The slice [messages[start..end]]. *)
Definition slice {A} (l : list A) (a b : nat) : list A := take (b - a) (drop a l).

Definition indexed_turn (msgs : list Message) (window_start start stop : nat) : option IndexedTurn :=
  m ← msgs !! start;
  Some {| turn_id := id m;
          opening := content m;
          tool_results := length (List.filter is_tool (slice msgs start stop));
          in_window := (window_start <=? start)%nat |}.

Definition index_turns (msgs : list Message) (window_start : nat) : list IndexedTurn :=
  let openings := positions_from is_user 0 msgs in
  omap (λ se : nat * nat, indexed_turn msgs window_start se.1 se.2) (zip openings (tail openings)).

Definition wants (turns : list IndexedTurn) (b : bool) (i : nat) : bool :=
  match turns !! i with Some t => bool_decide (in_window t = b) | None => false end.

Definition chosen_turns (turns : list IndexedTurn) (max_items : nat) : gset nat :=
  if (length turns <=? max_items)%nat then list_to_set (seq 0 (length turns))
  else
    let newest_first := rev (seq 0 (length turns)) in
    fill max_items (wants turns true) (fill max_items (wants turns false) ∅ newest_first) newest_first.

Definition turn_line (n : nat) (t : IndexedTurn) : string :=
  let tools :=
    match tool_results t with
    | 0 => EmptyString
    | 1 => ", 1 tool result"
    | many => ", " +:+ pretty many +:+ " tool results"
    end in
  let view := if in_window t then EmptyString else ", not in view" in
  newline +:+ pretty (n + 1) +:+ ". " +:+ dq +:+ one_line (opening t) OPENING_CHARS +:+ dq +:+ tools +:+ view
  +:+ " - turn_id=" +:+ dq +:+ turn_id t +:+ dq.

Definition render_turn_index (turns : list IndexedTurn) : option string :=
  if forallb in_window turns then None
  else
    let keep := chosen_turns turns MAX_INDEXED_TURNS in
    let dropped := length turns - size keep in
    let head :=
      "[Earlier turns] Turns of this conversation before this one, oldest first. One marked " +:+ dq +:+ "not in view"
      +:+ dq +:+ " is not in the messages below - it happened, and it is not lost. Read it back with "
      +:+ TRANSCRIPT_GET_TOOL +:+ " turn_id=" +:+ dq +:+ "<id>" +:+ dq +:+ " rather than guessing what it said." in
    let lines := foldl (λ out nt, if bool_decide (nt.1 ∈ keep) then out +:+ turn_line nt.1 nt.2 else out) head
                   (zip (seq 0 (length turns)) turns) in
    Some (if (0 <? dropped)%nat then
            lines +:+ newline +:+ "(" +:+ pretty dropped +:+ " earlier " +:+ (if (dropped =? 1)%nat then "turn" else "turns")
            +:+ " are not listed here. They still exist; search the conversation with builtin_conversation_search to reach one.)"
          else lines).

(** ** The index as a segmentation of the conversation

    The reference: cut the conversation before every user message and drop what
    precedes the first; the last segment is the turn being run. *)
Fixpoint up_to_user (msgs : list Message) : list Message :=
  match msgs with
  | [] => []
  | m :: r => if is_user m then [] else m :: up_to_user r
  end.

Fixpoint segments (base : nat) (msgs : list Message) : list (nat * Message * list Message) :=
  match msgs with
  | [] => []
  | m :: r => if is_user m then (base, m, up_to_user r) :: segments (S base) r else segments (S base) r
  end.

Definition turn_of_segment (window_start : nat) (s : nat * Message * list Message) : IndexedTurn :=
  let '(i, m, rest) := s in
  {| turn_id := id m; opening := content m; tool_results := length (List.filter is_tool rest);
     in_window := (window_start <=? i)%nat |}.

Definition reference_index (msgs : list Message) (window_start : nat) : list IndexedTurn :=
  map (turn_of_segment window_start) (removelast (segments 0 msgs)).

(** The next opening bounds the segment. *)
Lemma next_opening base msgs b rest :
  positions_from is_user base msgs = b :: rest →
  (base ≤ b)%nat ∧ take (b - base) msgs = up_to_user msgs.
Proof.
  revert base. induction msgs as [|m msgs IH]; intros base; simpl; [done|].
  destruct (is_user m) eqn:Hm.
  - intros [= <- _]. rewrite Nat.sub_diag. done.
  - intros Hp. destruct (IH _ Hp) as [Hle Ht]. split; [lia|].
    replace (b - base)%nat with (S (b - S base)) by lia. simpl. by rewrite Ht.
Qed.

Lemma segments_nil base msgs : positions_from is_user base msgs = [] ↔ segments base msgs = [].
Proof. revert base. induction msgs as [|m msgs IH]; intros base; simpl; [done|]. by destruct (is_user m). Qed.

Lemma index_from_base w pre msgs :
  let openings := positions_from is_user (length pre) msgs in
  omap (λ se : nat * nat, indexed_turn (pre ++ msgs) w se.1 se.2) (zip openings (tail openings)) =
  map (turn_of_segment w) (removelast (segments (length pre) msgs)).
Proof.
  revert pre. induction msgs as [|m msgs IH]; intros pre; [done|]. simpl.
  assert (IH' := IH (pre ++ [m])). rewrite length_app, Nat.add_1_r, <- app_assoc in IH'. simpl in IH'.
  destruct (is_user m) eqn:Hm; [|done].
  destruct (positions_from is_user (S (length pre)) msgs) as [|b rest] eqn:Ep.
  - apply segments_nil in Ep. by rewrite Ep.
  - destruct (segments (S (length pre)) msgs) as [|s ss] eqn:Es; [by apply segments_nil in Es; congruence|].
    destruct (next_opening _ _ _ _ Ep) as [Hle Ht]. simpl in IH' |- *. rewrite <- IH'.
    unfold indexed_turn at 1. simpl. rewrite list_lookup_middle by done. simpl. f_equal.
    unfold slice. rewrite drop_app_length. replace (b - length pre)%nat with (S (b - S (length pre))) by lia.
    simpl. rewrite Ht. unfold is_tool at 1. unfold is_user in Hm. apply bool_decide_eq_true in Hm. by rewrite Hm.
Qed.

(** The index computed from positions is the segmentation of the
    conversation at its user messages: every turn but the one being run, in
    order, each with the message that opened it and the number of its tool
    results, whatever the window holds. *)
Theorem index_is_the_segmentation (msgs : list Message) (window_start : nat) :
  index_turns msgs window_start = reference_index msgs window_start.
Proof. apply (index_from_base window_start []). Qed.

(** ** The block *)

(** [i] is listed before [j] when room is short: turns out of view first, then
    the most recent. *)
Definition preferred (turns : list IndexedTurn) (i j : nat) : Prop :=
  ∃ ti tj, turns !! i = Some ti ∧ turns !! j = Some tj ∧
    (in_window ti = false ∧ in_window tj = true ∨ in_window ti = in_window tj ∧ (j < i)%nat).

Lemma wants_spec turns b i : wants turns b i = true ↔ ∃ t, turns !! i = Some t ∧ in_window t = b.
Proof.
  unfold wants. destruct (turns !! i) as [t|]; [rewrite bool_decide_eq_true|]; naive_solver.
Qed.

Lemma wants_disjoint turns i : wants turns false i = true → wants turns true i = true → False.
Proof. rewrite !wants_spec. intros (t & Ht & Hf) (t' & Ht' & Hf'). congruence. Qed.

Lemma wants_one turns i : (i < length turns)%nat → wants turns false i = true ∨ wants turns true i = true.
Proof. intros [t Ht]%lookup_lt_is_Some_2. rewrite !wants_spec. destruct (in_window t) eqn:E; [right|left]; by exists t. Qed.

Lemma ranked_turns turns : ranked (wants turns false) (wants turns true) ∅ (length turns) ≡ₚ seq 0 (length turns).
Proof.
  apply NoDup_Permutation; [apply ranked_NoDup, wants_disjoint|apply NoDup_seq|].
  intros i. rewrite ranked_elem, elem_of_seq. split; [lia|]. intros [_ Hi]. split_and!; [done|set_solver|by apply wants_one].
Qed.

Lemma preferred_of_rank turns i j :
  (i < length turns)%nat → (j < length turns)%nat →
  (wants turns false i = true ∧ wants turns true j = true ∨
   (wants turns false i = wants turns false j ∧ wants turns true i = wants turns true j) ∧ (j < i)%nat) →
  preferred turns i j.
Proof.
  intros [ti Hi]%lookup_lt_is_Some_2 [tj Hj]%lookup_lt_is_Some_2. unfold preferred, wants. rewrite Hi, Hj.
  intros H. exists ti, tj. split_and!; [done..|]. destruct (in_window ti), (in_window tj); naive_solver.
Qed.

(** The block is omitted exactly when every earlier turn is in view.  It
    lists as many turns as it may, and when some must be left out it leaves out
    only turns that rank below every listed one: a turn still in view before any
    that is not, and the older before the newer. *)
Theorem turn_listing_is_the_best_that_fits (turns : list IndexedTurn) (max_items : nat) :
  let keep := chosen_turns turns max_items in
  (render_turn_index turns = None ↔ ∀ t, t ∈ turns → in_window t = true) ∧
  size keep = Nat.min max_items (length turns) ∧
  (∀ i, i ∈ keep → (i < length turns)%nat) ∧
  (∀ i j, i ∈ keep → j ∉ keep → (j < length turns)%nat → preferred turns i j).
Proof.
  intros keep. split.
  { unfold render_turn_index. destruct (forallb in_window turns) eqn:E.
    - split; [|done]. intros _ t Ht. rewrite forallb_forall in E. by apply E, list_elem_of_In.
    - split; [done|]. intros Hall. exfalso. apply not_true_iff_false in E. apply E, forallb_forall.
      intros t Ht. by apply Hall, list_elem_of_In. }
  unfold keep, chosen_turns. destruct (_ <=? _)%nat eqn:E.
  - apply Nat.leb_le in E. rewrite size_list_to_set, length_seq by apply NoDup_seq. split_and!; [lia|..].
    + intros i Hi%elem_of_list_to_set. rewrite elem_of_seq in Hi. lia.
    + intros i j _ Hj Hjl. rewrite elem_of_list_to_set, elem_of_seq in Hj. lia.
  - apply Nat.leb_gt in E. assert (Hp := ranked_turns turns).
    destruct (two_passes_spec max_items _ _ (wants_disjoint turns) ∅ (length turns)) as [Hk Hs].
    rewrite Hs, Hk. rewrite size_empty, Nat.sub_0_r, Hp, length_seq.
    set (rk := ranked _ _ _ _) in *. assert (Hin : ∀ i, i ∈ take max_items rk → (i < length turns)%nat).
    { intros i Hi. assert (Hi' : i ∈ rk) by (rewrite <- (take_drop max_items rk); set_solver).
      rewrite Hp, elem_of_seq in Hi'. lia. }
    split_and!; [lia|set_solver|]. intros i j Hi Hj Hjl. assert (Hi' : i ∈ take max_items rk) by set_solver.
    assert (Hj' : j ∈ rk) by (rewrite Hp, elem_of_seq; lia). rewrite <- (take_drop max_items rk) in Hj'.
    apply preferred_of_rank; [by apply Hin|done|].
    assert (Hsort := ranked_sorted _ _ (wants_disjoint turns) ∅ (length turns)). fold rk in Hsort.
    rewrite <- (take_drop max_items rk) in Hsort. apply (sorted_split _ _ _ i j Hsort Hi'). set_solver.
Qed.
