(* ===== verification/Planning.v ===== *)
(** * Planning

    Models the step stack, the plan surface and the notes surfaces of
    [crates/core/src/planning.rs]: how steps are numbered, what a bounded plan
    tree shows, which notes the index and the pinned block carry. *)

From S2P Require Import Prelude DisplayLine Messages ToolRouting ToolProvenance.

Definition BEGIN_STEP_TOOL : string := "begin_step".
Definition COMPLETE_STEP_TOOL : string := "complete_step".
Definition STEP_NOTE_TYPE : string := "todo".
Definition OUTCOME_NOTE_TYPE : string := "note".
Definition OUTCOME_KEY_PREFIX : string := "outcome:".
Definition MAX_PLAN_ITEMS : nat := 40.
Definition SCRATCHPAD_GOAL_KEY : string := "goal".

(** ** Numbers in keys

    Counters are [u32]: an increment wraps at the width.  [parse_unsigned max]
    is [str::parse] of an unsigned type with that maximum: an optional plus
    sign, then digits. *)
Definition u32_succ (n : N) : N := ((n + 1) mod 4294967296)%N.
Definition u32_top : N := 4294967295%N.
Definition u64_top : N := 18446744073709551615%N.
Definition i32_of_u32 (n : N) : Z := Z.min (Z.of_N n) i32_max.

Definition digit (a : Ascii.ascii) : option N :=
  let n := Ascii.N_of_ascii a in if (48 <=? n)%N && (n <=? 57)%N then Some (n - 48)%N else None.

Fixpoint digits (acc : N) (s : string) : option N :=
  match s with
  | EmptyString => Some acc
  | String a s' => match digit a with Some d => digits (acc * 10 + d) s' | None => None end
  end.

Definition parse_unsigned (max : N) (s : string) : option N :=
  let body := match s with String a s' => if bool_decide (a = Ascii.ascii_of_nat 43) then s' else s | _ => s end in
  match body with
  | EmptyString => None
  | _ => match digits 0 body with Some n => if (n <=? max)%N then Some n else None | None => None end
  end.

Definition dot : Ascii.ascii := Ascii.ascii_of_nat 46.

(** [str::split] on a character. *)
Fixpoint split_on (c : Ascii.ascii) (s : string) : list string :=
  match s with
  | EmptyString => [EmptyString]
  | String a s' =>
      if bool_decide (a = c) then EmptyString :: split_on c s'
      else match split_on c s' with x :: l => String a x :: l | [] => [String a EmptyString] end
  end.

(** ** The step stack *)

Record StepFrame := {
  key : string;
  goal : string;
  watermark : nat;
  child_counter : N;
  sequence : Z
}.

Record StepStack := { frames : list StepFrame; root_counter : N }.

(** [frames] is kept with the innermost frame at the head. *)
Definition StepStack_new : StepStack := {| frames := []; root_counter := 0 |}.
Definition with_root_counter (n : N) : StepStack := {| frames := []; root_counter := n |}.
Definition open_watermark (s : StepStack) : option nat := watermark <$> last (frames s).
Definition depth (s : StepStack) : nat := length (frames s).
Definition current_key (s : StepStack) : option string := key <$> head (frames s).

Definition bump_child (f : StepFrame) : StepFrame :=
  {| key := key f; goal := goal f; watermark := watermark f; child_counter := u32_succ (child_counter f);
     sequence := sequence f |}.

Definition child_key (parent : string) (n : N) : string := parent +:+ String dot EmptyString +:+ pretty n.

(** The next number under the innermost frame, or under the root. *)
Definition mint (s : StepStack) : StepStack * (string * Z) :=
  match frames s with
  | parent :: rest =>
      let parent' := bump_child parent in
      ({| frames := parent' :: rest; root_counter := root_counter s |},
       (child_key (key parent) (child_counter parent'), i32_of_u32 (child_counter parent')))
  | [] =>
      let n := u32_succ (root_counter s) in
      ({| frames := []; root_counter := n |}, (pretty n, i32_of_u32 n))
  end.

Definition begin (s : StepStack) (g : string) (w : nat) : StepStack * (string * Z) :=
  let '(s', (k, sq)) := mint s in
  ({| frames := {| key := k; goal := g; watermark := w; child_counter := 0; sequence := sq |} :: frames s';
      root_counter := root_counter s' |}, (k, sq)).

Definition complete (s : StepStack) : StepStack * option StepFrame :=
  match frames s with
  | f :: rest => ({| frames := rest; root_counter := root_counter s |}, Some f)
  | [] => (s, None)
  end.

Fixpoint fan_out (s : StepStack) (n : nat) : StepStack * list (string * Z) :=
  match n with
  | O => (s, [])
  | S n' =>
      let (s1, k) := mint s in
      let (s2, ks) := fan_out s1 n' in
      (s2, k :: ks)
  end.

Definition owner_subtree_prefix (owner_self step_key : string) : string :=
  match owner_self with
  | EmptyString => step_key
  | _ => owner_self +:+ String dot EmptyString +:+ step_key
  end.

Definition max_top_level_key (keys : list string) : N :=
  foldl N.max 0%N
    (omap (parse_unsigned u32_top) (List.filter (λ k, negb (contains_str k (String dot EmptyString))) keys)).

Definition truncate_on_char_boundary (s : string) (max_bytes : nat) : string :=
  if (String.length s <=? max_bytes)%nat then s else str_prefix (floor_boundary s max_bytes) s.

(** ** The plan tree *)

Record PlanItem := { item_key : string; item_goal : string; item_done : bool; item_outcome : option string }.

Definition dotted_key (k : string) : list N :=
  map (λ seg, default u64_top (parse_unsigned u64_top seg)) (split_on dot k).

(** The order of [Vec<u64>]. *)
Fixpoint lex_leb (a b : list N) : bool :=
  match a, b with
  | [], _ => true
  | _ :: _, [] => false
  | x :: a', y :: b' => if (x <? y)%N then true else if (x =? y)%N then lex_leb a' b' else false
  end.

Definition is_ancestor_of (ancestor k : string) : bool :=
  (String.length ancestor <? String.length k)%nat && starts_with k ancestor
  && bool_decide (String.get (String.length ancestor) k = Some dot).

(** The live step or an ancestor of it. *)
Definition is_context (current : option string) (i : PlanItem) : bool :=
  match current with
  | Some cur => String.eqb (item_key i) cur || is_ancestor_of (item_key i) cur
  | None => false
  end.

Definition carries (i : PlanItem) : bool :=
  match item_outcome i with Some EmptyString => false | Some _ => true | None => false end.

Definition collapsible (current : option string) (i : PlanItem) : bool :=
  item_done i && negb (carries i) && negb (is_context current i).

Definition split_collapsible (sorted : list PlanItem) (current : option string) : list PlanItem * nat :=
  (List.filter (λ i, negb (collapsible current i)) sorted, length (List.filter (collapsible current) sorted)).

Definition item_at (sorted : list PlanItem) (p : PlanItem → bool) (i : nat) : bool :=
  match sorted !! i with Some x => p x | None => false end.

Definition select_positions (sorted : list PlanItem) (current : option string) (max_items : nat) : gset nat :=
  let all := seq 0 (length sorted) in
  let context : gset nat := list_to_set (List.filter (item_at sorted (is_context current)) all) in
  let opened := fill max_items (item_at sorted (λ x, negb (item_done x))) context (rev all) in
  fill max_items (item_at sorted item_done) opened (rev all).

Definition at_positions {A} (l : list A) (keep : gset nat) : list A :=
  omap (λ ix : nat * A, if bool_decide (ix.1 ∈ keep) then Some ix.2 else None) (zip (seq 0 (length l)) l).

Definition select_plan_items (sorted : list PlanItem) (current : option string) (max_items : nat) : list PlanItem :=
  at_positions sorted (select_positions sorted current max_items).

Definition chosen_plan_items (sorted : list PlanItem) (current : option string) (max_items : nat) : list PlanItem :=
  if (length sorted <=? max_items)%nat then sorted else select_plan_items sorted current max_items.

Definition tree_leb (a b : PlanItem) : bool := lex_leb (dotted_key (item_key a)) (dotted_key (item_key b)).

Fixpoint repeat_str (s : string) (n : nat) : string :=
  match n with O => EmptyString | S n' => s +:+ repeat_str s n' end.

Definition matches_count (c : Ascii.ascii) (s : string) : nat := length (split_on c s) - 1.

Definition plan_line (current : option string) (i : PlanItem) : string :=
  let indent := repeat_str "  " (matches_count dot (item_key i)) in
  let check := if item_done i then "[x]" else "[ ]" in
  let here := if bool_decide (current = Some (item_key i)) then "  ← you are here" else EmptyString in
  let line := newline +:+ indent +:+ item_key i +:+ " " +:+ check +:+ " " +:+ truncate_on_char_boundary (item_goal i) 160 +:+ here in
  match item_outcome i with
  | Some o => if String.eqb o EmptyString then line
              else line +:+ newline +:+ indent +:+ "  → " +:+ truncate_on_char_boundary o 200
  | None => line
  end.

Definition render_plan (items : list PlanItem) (current : option string) (max_items : nat) : option string :=
  match items with
  | [] => None
  | _ =>
      let sorted := sort_by tree_leb items in
      let (listed, collapsed) := split_collapsible sorted current in
      let chosen := chosen_plan_items listed current max_items in
      let head := "Your plan (steps on the scratchpad, with findings so far — keep working it; mark steps done as you go, and roll a step's sub-step findings up into its outcome):" in
      let out := foldl (λ out i, out +:+ plan_line current i) head chosen in
      let out := if (length chosen <? length listed)%nat
                 then out +:+ newline +:+ "… and " +:+ pretty (length listed - length chosen) +:+ " more." else out in
      let out := if (0 <? collapsed)%nat
                 then out +:+ newline +:+ "(" +:+ pretty collapsed +:+ " completed " +:+ (if (collapsed =? 1)%nat then "step" else "steps")
                      +:+ " carried nothing forward and are not listed.)" else out in
      Some (if bool_decide (current = None) && forallb item_done sorted
            then out +:+ newline +:+ "All steps are done. If the task is complete: give the user your closing summary, promote anything worth keeping beyond this conversation to the knowledge base (builtin_knowledge_base_write), then clear your goal note (builtin_scratchpad_delete keys: [" +:+ dq +:+ "goal" +:+ dq +:+ "]) so it doesn't linger into the next task."
            else out)
  end.

(** ** Notes *)

Record RawNote := {
  rn_key : string;
  rn_owner_todo : string;
  rn_content : string;
  rn_note_type : string;
  rn_done : bool;
  rn_pinned : bool;
  rn_knowledge_entry_id : option string
}.

Definition is_step (n : RawNote) : bool := String.eqb (rn_note_type n) STEP_NOTE_TYPE.

(** The finding of every step that is still pending roll-up, by namespace and
    step; the last note of a key wins. *)
Definition done_by_key (notes : list RawNote) : gmap (string * string) bool :=
  foldl (λ m n, <[(rn_owner_todo n, rn_key n) := rn_done n]> m) ∅ (List.filter is_step notes).

Definition pending_outcome (done : gmap (string * string) bool) (n : RawNote) : option ((string * string) * string) :=
  match strip_prefix OUTCOME_KEY_PREFIX (rn_key n) with
  | None => None
  | Some step =>
      let rolled_up :=
        match rsplit_once step (String dot EmptyString) with
        | Some (parent, _) => default false (done !! (rn_owner_todo n, parent))
        | None => false
        end in
      if rolled_up then None else Some ((rn_owner_todo n, step), rn_content n)
  end.

Definition outcomes (notes : list RawNote) : gmap (string * string) string :=
  foldl (λ m kv, <[kv.1 := kv.2]> m) ∅ (omap (pending_outcome (done_by_key notes)) notes).

Definition plan_items_from_notes (notes : list RawNote) : list PlanItem :=
  if bool_decide (done_by_key notes = ∅) then []
  else
    map (λ n, {| item_key := rn_key n; item_goal := rn_content n; item_done := rn_done n;
                 item_outcome := outcomes notes !! (rn_owner_todo n, rn_key n) |})
      (List.filter is_step notes).

Definition render_plan_from_notes (notes : list RawNote) (current : option string) (max_items : nat) : option string :=
  render_plan (plan_items_from_notes notes) current max_items.

Definition plan_note_keys (notes : list RawNote) (current : option string) (max_items : nat) : list string :=
  match plan_items_from_notes notes with
  | [] => []
  | items =>
      let (listed, _) := split_collapsible (sort_by tree_leb items) current in
      flat_map (λ i, item_key i :: (if carries i then [OUTCOME_KEY_PREFIX +:+ item_key i] else []))
        (chosen_plan_items listed current max_items)
  end.

(** [build_step_stack]: the turn's stack, seeded from the plan steps the
    scratchpad lists, at most [MAX_PLAN_ITEMS * 3] of them. *)
Definition STEP_LIST_LIMIT : nat := MAX_PLAN_ITEMS * 3.

Definition build_step_stack (listed : option (list string)) : StepStack * N :=
  match listed with
  | Some keys => let max := max_top_level_key keys in (with_root_counter max, max)
  | None => (StepStack_new, 0%N)
  end.

(** ** Keys and paths

    A path lists the numbers of a step from the innermost to the root. *)
Fixpoint path_key (p : list N) : string :=
  match p with
  | [] => EmptyString
  | [n] => pretty n
  | n :: q => child_key (path_key q) n
  end.

Lemma digit_char x : (x < 10)%N → digit (pretty_N_char x) = Some x.
Proof.
  intros Hx. assert (Hall : Forall (λ x, digit (pretty_N_char x) = Some x) [0;1;2;3;4;5;6;7;8;9]%N) by by repeat constructor.
  rewrite Forall_forall in Hall. apply Hall. rewrite !elem_of_cons. lia.
Qed.

Lemma digits_pretty_go x s : digits 0 (pretty_N_go x s) = digits x s.
Proof.
  revert s. induction (N.lt_wf_0 x) as [x _ IH]; intros s. destruct (decide (0 < x)%N) as [Hx|Hx].
  - rewrite pretty_N_go_step by done. rewrite IH by (by apply N.div_lt). cbn [digits].
    rewrite digit_char by (by apply N.mod_lt). f_equal. rewrite (N.div_mod x 10) at 3 by done. lia.
  - replace x with 0%N by lia. by rewrite pretty_N_go_0.
Qed.

Lemma digits_pretty (n : N) : digits 0 (pretty n) = Some n.
Proof.
  unfold pretty, pretty_N. case_decide as Hn; [by rewrite Hn|]. by rewrite digits_pretty_go.
Qed.

Lemma digits_no_dot acc s n : digits acc s = Some n → rsplit_once s (String dot EmptyString) = None.
Proof.
  revert acc. induction s as [|a s IH]; intros acc; [done|]. cbn [digits rsplit_once].
  destruct (digit a) as [d|] eqn:Hd; [|done]. intros Hs. rewrite (IH _ Hs).
  unfold starts_with. cbn [String.prefix]. destruct (Ascii.ascii_dec dot a) as [<-|]; [done|done].
Qed.

Lemma pretty_no_dot (n : N) : rsplit_once (pretty n) (String dot EmptyString) = None.
Proof. eapply digits_no_dot, digits_pretty. Qed.

Lemma rsplit_child k n : rsplit_once (child_key k n) (String dot EmptyString) = Some (k, pretty n).
Proof. exact (rsplit_once_sep k dot EmptyString (pretty n) (pretty_no_dot n)). Qed.

Lemma path_key_inj p q : p ≠ [] → q ≠ [] → path_key p = path_key q → p = q.
Proof.
  revert q. induction p as [|n p IH]; intros [|m q] Hp Hq; try done.
  destruct p as [|n' p], q as [|m' q]; cbn [path_key]; intros He.
  - by apply (inj pretty) in He as ->.
  - assert (Hr := rsplit_child (path_key (m' :: q)) m). cbn [path_key] in Hr. rewrite <- He, pretty_no_dot in Hr. done.
  - assert (Hr := rsplit_child (path_key (n' :: p)) n). cbn [path_key] in Hr. rewrite He, pretty_no_dot in Hr. done.
  - assert (Hr := f_equal (λ s, rsplit_once s (String dot EmptyString)) He). simpl in Hr. rewrite !rsplit_child in Hr.
    injection Hr as H1 H2. apply (inj pretty) in H2 as ->. f_equal. by apply IH.
Qed.

(** ** Every key is minted once *)

Inductive StepOp := OBegin (g : string) (w : nat) | OComplete | OFanOut (n : nat).

Definition step_op (s : StepStack) (o : StepOp) : StepStack * list string :=
  match o with
  | OBegin g w => let '(s', (k, _)) := begin s g w in (s', [k])
  | OComplete => ((complete s).1, [])
  | OFanOut n => let (s', ks) := fan_out s n in (s', map fst ks)
  end.

Fixpoint step_ops (s : StepStack) (os : list StepOp) : StepStack * list string :=
  match os with
  | [] => (s, [])
  | o :: os' => let (s1, ks) := step_op s o in let (s2, ks') := step_ops s1 os' in (s2, ks ++ ks')
  end.

(** What holds of a frame at path [p] when the paths [M] have been minted. *)
Definition frame_at (M : list (list N)) (f : StepFrame) (p : list N) : Prop :=
  key f = path_key p ∧ p ∈ M ∧ (∀ n, n :: p ∈ M → n ≤ child_counter f)%N ∧ (child_counter f ≤ N.of_nat (length M))%N.

(** What holds of a stack seeded with [r]: the paths are distinct, closed under
    parents and numbered up to their counters. *)
Record minted (r : N) (s : StepStack) (M : list (list N)) : Prop := {
  minted_nodup : NoDup M;
  minted_nonempty : [] ∉ M;
  minted_parent : ∀ n q, n :: q ∈ M → q ≠ [] → q ∈ M;
  minted_root : ∀ n, [n] ∈ M → (r < n ≤ root_counter s)%N;
  minted_frames : ∃ ps, NoDup ps ∧ Forall2 (frame_at M) (frames s) ps;
  minted_bound : (r ≤ root_counter s ≤ r + N.of_nat (length M))%N
}.

Lemma u32_succ_small n : (n < u32_top)%N → u32_succ n = (n + 1)%N.
Proof. unfold u32_succ, u32_top. intros H. apply N.mod_small. lia. Qed.

Lemma frame_at_other M f p c q : p ≠ q → frame_at M f p → frame_at ((c :: q) :: M) f p.
Proof.
  intros Hpq (Hk & Hp & Hlt & Hb). split_and!; [done|set_solver| |simpl; lia].
  intros n [[= _ ->]|Hin]%elem_of_cons; [done|by apply Hlt].
Qed.

Lemma frames_other M fs ps c q : q ∉ ps → Forall2 (frame_at M) fs ps → Forall2 (frame_at ((c :: q) :: M)) fs ps.
Proof.
  intros Hq H. induction H as [|f p fs ps Hf _ IH]; constructor; [apply frame_at_other; set_solver|apply IH; set_solver].
Qed.

Lemma mint_at_root r s M :
  frames s = [] → minted r s M → (r + N.of_nat (length M) < u32_top)%N →
  mint s = ({| frames := []; root_counter := root_counter s + 1 |},
            (path_key [(root_counter s + 1)%N], i32_of_u32 (root_counter s + 1))) ∧
  [(root_counter s + 1)%N] ∉ M ∧ minted r (mint s).1 ([(root_counter s + 1)%N] :: M).
Proof.
  intros Ef [Hnd Hne Hpar Hroot Hch Hb] Hu. unfold mint. rewrite Ef, u32_succ_small by lia.
  assert (Hfresh : [(root_counter s + 1)%N] ∉ M) by (intros Hin%Hroot; lia).
  split_and!; [done..|]. constructor; simpl.
  - by constructor.
  - set_solver.
  - intros n q [[= -> ->]|Hin]%elem_of_cons Hq; [done|]. right. by eapply Hpar.
  - intros n [[= ->]|Hin]%elem_of_cons; [lia|]. apply Hroot in Hin. lia.
  - exists []. by split; [constructor|].
  - lia.
Qed.

Lemma mint_under_frame r s M f rest :
  frames s = f :: rest → minted r s M → (r + N.of_nat (length M) < u32_top)%N →
  ∃ p, p ≠ [] ∧ (child_counter f + 1)%N :: p ∉ M ∧
    mint s = ({| frames := bump_child f :: rest; root_counter := root_counter s |},
              (path_key ((child_counter f + 1)%N :: p), i32_of_u32 (child_counter f + 1))) ∧
    minted r (mint s).1 (((child_counter f + 1)%N :: p) :: M).
Proof.
  intros Ef [Hnd Hne Hpar Hroot (ps & Hps & Hfr) Hb] Hu. unfold mint. rewrite Ef in *.
  apply Forall2_cons_inv_l in Hfr as (p & ps' & Hf & Hrest & ->).
  destruct Hf as (Hk & Hp & Hlt & Hcb). exists p.
  assert (Hp0 : p ≠ []) by (intros ->; done).
  assert (Hfresh : (child_counter f + 1)%N :: p ∉ M) by (intros Hin%Hlt; lia).
  assert (Hbump : child_counter (bump_child f) = (child_counter f + 1)%N) by (unfold bump_child; simpl; apply u32_succ_small; lia).
  split_and!; [done|done| |].
  - rewrite Hbump, Hk. by destruct p.
  - constructor; simpl.
    + by constructor.
    + set_solver.
    + intros n q [[= -> ->]|Hin]%elem_of_cons Hq; right; [done|]. by eapply Hpar.
    + intros n [[= -> Hpn]|Hin]%elem_of_cons; [by subst p|]. by apply Hroot.
    + apply NoDup_cons in Hps as [Hpn Hps']. exists (p :: ps'). split; [by constructor|]. constructor.
      * unfold frame_at. rewrite Hbump. split_and!; [done|set_solver| |simpl; lia].
        intros n [[= ->]|Hin%Hlt]%elem_of_cons; lia.
      * by apply frames_other.
    + lia.
Qed.

(** Minting adds one fresh path, under which nothing has been minted. *)
Lemma mint_spec r s M :
  minted r s M → (r + N.of_nat (length M) < u32_top)%N →
  ∃ p, (mint s).2.1 = path_key p ∧ p ∉ M ∧ p ≠ [] ∧ minted r (mint s).1 (p :: M) ∧ ∀ n, n :: p ∉ p :: M.
Proof.
  intros Hm Hu. assert (Hsub : ∀ p n, p ≠ [] → p ∉ M → n :: p ∉ p :: M).
  { intros p n Hp0 Hp [H|H]%elem_of_cons; [by apply (f_equal length) in H; simpl in H; lia|].
    apply Hp. by eapply (minted_parent _ _ _ Hm). }
  destruct (frames s) as [|f rest] eqn:Ef.
  - destruct (mint_at_root r s M Ef Hm Hu) as (He & Hf & Hm'). exists [(root_counter s + 1)%N].
    split_and!; [by rewrite He|done|done|done|]. intros n. by apply Hsub.
  - destruct (mint_under_frame r s M f rest Ef Hm Hu) as (p & Hp0 & Hf & He & Hm'). eexists (_ :: p).
    split_and!; [by rewrite He|done|done|done|]. intros n. by apply Hsub.
Qed.

Lemma mint_keys s : map key (frames (mint s).1) = map key (frames s).
Proof. unfold mint. by destruct (frames s). Qed.

Lemma frames_keys M fs ps : Forall2 (frame_at M) fs ps → map key fs = map path_key ps.
Proof. induction 1 as [|f p fs ps (Hk & _) _ IH]; simpl; [done|]. by rewrite IH, Hk. Qed.

Lemma frames_minted M fs ps p : Forall2 (frame_at M) fs ps → p ∈ ps → p ∈ M.
Proof.
  intros H Hp. apply list_elem_of_lookup in Hp as [i Hi]. destruct (Forall2_lookup_r _ _ _ _ _ H Hi) as (f & _ & (_ & ? & _)). done.
Qed.

Lemma begin_spec r s M g w :
  minted r s M → (r + N.of_nat (length M) < u32_top)%N →
  ∃ p, (begin s g w).2.1 = path_key p ∧ p ≠ [] ∧ minted r (begin s g w).1 (p :: M).
Proof.
  intros Hm Hu. destruct (mint_spec r s M Hm Hu) as (p & Hk & Hp & Hp0 & Hm' & Hsub). exists p.
  assert (Hkeys := mint_keys s). destruct (minted_frames _ _ _ Hm) as (ps0 & _ & Hfr0).
  unfold begin. destruct (mint s) as [s' [k sq]]. simpl in *. split_and!; [done..|].
  destruct Hm' as [Hnd Hne Hpar Hroot (ps & Hps & Hfr) Hb]. constructor; simpl; try done.
  exists (p :: ps). split.
  - constructor; [|done]. intros Hin.
    assert (Hpk : path_key p ∈ map path_key ps0).
    { rewrite <- (frames_keys _ _ _ Hfr0), <- Hkeys, (frames_keys _ _ _ Hfr). by apply list_elem_of_In, in_map, list_elem_of_In. }
    apply list_elem_of_In, in_map_iff in Hpk as (q & Hq & Hqin%list_elem_of_In).
    assert (HqM := frames_minted _ _ _ _ Hfr0 Hqin). assert (q ≠ []) by (intros ->; by destruct (minted_nonempty _ _ _ Hm)).
    apply path_key_inj in Hq; [by subst q|done|done].
  - constructor; [|done]. unfold frame_at. simpl. split_and!; [done|set_solver| |lia].
    intros n Hn. by destruct (Hsub n).
Qed.

Lemma complete_spec r s M : minted r s M → minted r (complete s).1 M.
Proof.
  intros [Hnd Hne Hpar Hroot (ps & Hps & Hfr) Hb]. unfold complete. destruct (frames s) as [|f rest] eqn:Ef.
  - constructor; simpl; try done. exists ps. by rewrite Ef.
  - constructor; simpl; try done. apply Forall2_cons_inv_l in Hfr as (p & ps' & _ & Hrest & ->).
    apply NoDup_cons in Hps as [_ ?]. by exists ps'.
Qed.

Lemma fan_out_spec r s M n :
  minted r s M → (r + N.of_nat (length M + n) ≤ u32_top)%N →
  ∃ M', map fst (fan_out s n).2 = map path_key M' ∧ [] ∉ M' ∧ minted r (fan_out s n).1 (rev M' ++ M).
Proof.
  revert s M. induction n as [|n IH]; intros s M Hm Hu; [exists []; by split_and!; [|set_solver|]|].
  destruct (mint_spec r s M Hm ltac:(lia)) as (p & Hk & _ & Hp0 & Hm' & _). cbn [fan_out].
  destruct (mint s) as [s1 k]. simpl in *. destruct (IH s1 (p :: M) Hm' ltac:(simpl; lia)) as (M' & Hks & Hne & Hm'').
  destruct (fan_out s1 n) as [s2 ks]. simpl in *. exists (p :: M'). simpl. rewrite Hks, Hk.
  split_and!; [done|set_solver|]. by rewrite <- app_assoc.
Qed.

Lemma step_ops_spec r s M os :
  minted r s M → (r + N.of_nat (length M + length (step_ops s os).2) ≤ u32_top)%N →
  ∃ M', (step_ops s os).2 = map path_key M' ∧ [] ∉ M' ∧ minted r (step_ops s os).1 (rev M' ++ M).
Proof.
  revert s M. induction os as [|o os IH]; intros s M Hm Hu; [exists []; by split_and!; [|set_solver|]|].
  assert (Hone : ∃ M1, (step_op s o).2 = map path_key M1 ∧ [] ∉ M1 ∧ minted r (step_op s o).1 (rev M1 ++ M)).
  { cbn [step_ops] in Hu. destruct o as [g w| |n]; simpl in *.
    - destruct (begin s g w) as [s' [k sq]] eqn:Eb. destruct (step_ops s' os) as [s2 ks']. simpl in Hu.
      destruct (begin_spec r s M g w Hm ltac:(lia)) as (p & Hk & Hp & Hm'). rewrite Eb in *. exists [p]. simpl in *.
      split_and!; [by rewrite Hk|set_solver|done].
    - exists []. split_and!; [done|set_solver|by apply complete_spec].
    - destruct (fan_out s n) as [s' ks] eqn:Efo. destruct (step_ops s' os) as [s2 ks']. simpl in Hu.
      assert (Hl : length ks = n).
      { clear -Efo. revert s s' ks Efo. induction n as [|n IHn]; intros s s' ks; simpl; [by intros [= <- <-]|].
        destruct (mint s) as [s1 k]. destruct (fan_out s1 n) as [s3 ks3] eqn:E. intros [= <- <-]. simpl. by erewrite IHn. }
      rewrite length_app, length_map, Hl in Hu.
      destruct (fan_out_spec r s M n Hm ltac:(lia)) as (M' & Hks & Hne & Hm'). rewrite Efo in *. simpl in *. by exists M'. }
  destruct Hone as (M1 & Hk1 & Hne1 & Hm1). cbn [step_ops] in *. destruct (step_op s o) as [s1 ks1]. simpl in *. subst ks1.
  specialize (IH s1 (rev M1 ++ M) Hm1). destruct (step_ops s1 os) as [s2 ks2]. simpl in *.
  rewrite !length_app, !length_map, ?length_rev in *.
  destruct IH as (M2 & -> & Hne2 & Hm2); [lia|]. exists (M1 ++ M2). rewrite map_app, rev_app_distr, <- app_assoc.
  split_and!; [done|set_solver|done].
Qed.

Lemma minted_initial r : minted r (with_root_counter r) [].
Proof. constructor; simpl; try set_solver; try lia; [constructor|]. exists []. by split; [constructor|]. Qed.

Lemma parse_pretty max n : (n ≤ max)%N → parse_unsigned max (pretty n) = Some n.
Proof.
  intros Hn. assert (Hd := digits_pretty n). unfold parse_unsigned.
  destruct (pretty n) as [|a s] eqn:Ep.
  { simpl in Hd. injection Hd as <-. by vm_compute in Ep. }
  assert (Ha : a ≠ Ascii.ascii_of_nat 43) by (intros ->; by vm_compute in Hd).
  rewrite bool_decide_eq_false_2 by done. rewrite Hd. by rewrite (proj2 (N.leb_le _ _)).
Qed.

Lemma foldl_max_acc l acc n : n ∈ l ∨ (n ≤ acc)%N → (n ≤ foldl N.max acc l)%N.
Proof.
  revert acc. induction l as [|x l IH]; intros acc; simpl; [set_solver|].
  intros [[->|Hn]%elem_of_cons|Hn]; apply IH; [right|left|right]; (done || lia).
Qed.

Lemma max_top_level_key_ge keys n : pretty n ∈ keys → (n ≤ u32_top)%N → (n ≤ max_top_level_key keys)%N.
Proof.
  intros Hk Hn. unfold max_top_level_key. apply foldl_max_acc. left. apply list_elem_of_omap. exists (pretty n).
  split; [|by apply parse_pretty]. apply list_elem_of_In, filter_In. split; [by apply list_elem_of_In|].
  by rewrite rsplit_once_None by (done || apply pretty_no_dot).
Qed.

Lemma minted_not_existing keys s M p :
  minted (max_top_level_key keys) s M → (root_counter s ≤ u32_top)%N →
  (∀ k parent leaf, k ∈ keys → rsplit_once k (String dot EmptyString) = Some (parent, leaf) → parent ∈ keys) →
  p ∈ M → path_key p ∉ keys.
Proof.
  intros Hm Hu Hclosed. induction p as [|n p IH]; intros Hp; [by destruct (minted_nonempty _ _ _ Hm)|].
  destruct p as [|n' p].
  - intros Hin. destruct (minted_root _ _ _ Hm n Hp). apply max_top_level_key_ge in Hin; lia.
  - intros Hin. apply IH; [by eapply (minted_parent _ _ _ Hm)|]. eapply Hclosed; [exact Hin|apply rsplit_child].
Qed.

(** C25. Whatever steps a turn begins, completes and fans out, no two of them
    get the same key, and none gets the key of a step the conversation already
    holds, when the listing the turn is seeded from is complete and every listed
    sub-step's parent is listed too. *)
Theorem step_keys_are_never_reused (existing : list string) (ops : list StepOp)
    (Hroom : (max_top_level_key existing
              + N.of_nat (length (step_ops (build_step_stack (Some existing)).1 ops).2) ≤ u32_top)%N)
    (Hparents : ∀ k parent leaf, k ∈ existing → rsplit_once k (String dot EmptyString) = Some (parent, leaf) → parent ∈ existing) :
  NoDup (step_ops (build_step_stack (Some existing)).1 ops).2 ∧
  ∀ k, k ∈ (step_ops (build_step_stack (Some existing)).1 ops).2 → k ∉ existing.
Proof.
  set (r := max_top_level_key existing) in *. change (build_step_stack (Some existing)).1 with (with_root_counter r) in *.
  destruct (step_ops_spec r (with_root_counter r) [] ops (minted_initial r) Hroom) as (M & Hk & Hne & Hm).
  rewrite app_nil_r in Hm. rewrite Hk in Hroom |- *. rewrite length_map in Hroom. split.
  - apply (NoDup_fmap_2_strong path_key).
    + intros p q Hp Hq He. apply path_key_inj in He; [done|..]; by intros ->.
    + assert (Hnd := minted_nodup _ _ _ Hm). by rewrite <- Permutation_rev in Hnd.
  - intros k Hin. apply list_elem_of_In, in_map_iff in Hin as (p & <- & Hp%list_elem_of_In).
    eapply (minted_not_existing existing); [exact Hm| |done|].
    + destruct (minted_bound _ _ _ Hm) as [_ Hb]. rewrite length_rev in Hb. lia.
    + apply list_elem_of_In. rewrite <- in_rev. by apply list_elem_of_In.
Qed.

Lemma step_keys_are_never_reused_witness :
  NoDup (step_ops (build_step_stack (Some ["1"; "2"; "2.1"])).1
    [OBegin "read" 0; OFanOut 2; OBegin "sub" 3; OComplete; OComplete; OBegin "next" 9]).2.
Proof.
  apply step_keys_are_never_reused; [by vm_compute|].
  intros k parent leaf Hk. repeat (apply elem_of_cons in Hk as [->|Hk]; [vm_compute; set_solver|]). set_solver.
Defined.

(** A listing that was cut seeds the stack too low: the listing is ordered by
    step number and holds at most [STEP_LIST_LIMIT] steps, so past that the
    highest numbers are missing and the next turn's first step overwrites one. *)
Lemma capped_listing_reuses_a_key :
  let existing := map (λ n, pretty (N.of_nat n)) (seq 1 121) in
  (begin (build_step_stack (Some (take STEP_LIST_LIMIT existing))).1 "next" 0).2.1 ∈ existing.
Proof. apply (bool_decide_eq_true_1 _). by vm_compute. Qed.

(** A sub-step whose parent was deleted does not hold its number. *)
Lemma orphaned_substep_key_is_reused :
  "7.1" ∈ (step_ops (build_step_stack (Some ["6"; "7.1"])).1 [OBegin "next" 0; OBegin "sub" 1]).2.
Proof. apply (bool_decide_eq_true_1 _). by vm_compute. Qed.

(** ** The tree *)

Lemma split_on_app c x y : split_on c (x +:+ String c y) = split_on c x ++ split_on c y.
Proof.
  induction x as [|a x IH].
  - change (EmptyString +:+ String c y) with (String c y). cbn [split_on]. by rewrite bool_decide_eq_true_2.
  - rewrite string_app_cons. cbn [split_on]. rewrite IH. case_bool_decide; [done|].
    assert (Hne : split_on c x ≠ []) by (destruct x; simpl; repeat case_match; done).
    by destruct (split_on c x).
Qed.

Lemma split_on_digits acc s n : digits acc s = Some n → split_on dot s = [s].
Proof.
  revert acc. induction s as [|a s IH]; intros acc; [done|]. cbn [digits split_on].
  destruct (digit a) as [d|] eqn:Hd; [|done]. intros Hs.
  rewrite bool_decide_eq_false_2 by (intros ->; done). by rewrite (IH _ Hs).
Qed.

Lemma split_path p : p ≠ [] → split_on dot (path_key p) = map pretty (rev p).
Proof.
  induction p as [|n p IH]; [done|]. intros _. destruct p as [|n' p].
  - cbn [path_key rev app map]. eapply split_on_digits, digits_pretty.
  - cbn [path_key]. unfold child_key.
    change (String dot EmptyString +:+ pretty n) with (String dot (pretty n)). rewrite split_on_app.
    change (rev (n :: n' :: p)) with (rev (n' :: p) ++ [n]). rewrite map_app. f_equal; [by apply IH|].
    eapply split_on_digits, digits_pretty.
Qed.

Lemma is_ancestor_of_spec a k : is_ancestor_of a k = true ↔ ∃ r, k = a +:+ String dot r.
Proof.
  unfold is_ancestor_of. rewrite !andb_true_iff, bool_decide_eq_true, Nat.ltb_lt, starts_with_app. split.
  - intros [[Hlen [r ->]] Hg]. rewrite string_get_app in Hg. destruct r as [|c r]; [done|]. injection Hg as ->. by exists r.
  - intros [r ->]. rewrite string_get_app, string_length_app. simpl. split_and!; [lia|by eexists|done].
Qed.

Lemma path_key_app l p : l ≠ [] → p ≠ [] → ∃ r, path_key (l ++ p) = path_key p +:+ String dot r.
Proof.
  intros Hl Hp. induction l as [|n l IH]; [done|]. destruct l as [|n' l].
  - exists (pretty n). destruct p; [done|]. done.
  - destruct IH as [r Hr]; [done|]. exists (r +:+ String dot (pretty n)).
    change (path_key ((n :: n' :: l) ++ p)) with (child_key (path_key ((n' :: l) ++ p)) n). rewrite Hr.
    unfold child_key. by rewrite string_app_assoc.
Qed.

(** On the keys steps get, the textual test for an ancestor is the
    relation on the numbers: a proper prefix of the path.  The order the plan
    is listed in is the order of the paths, and a step is listed after its
    ancestors. *)
Theorem step_keys_form_the_tree (p q : list N) (Hp : p ≠ []) (Hq : q ≠ [])
    (Hwidth : Forall (λ n, n ≤ u64_top)%N (p ++ q)) :
  (is_ancestor_of (path_key p) (path_key q) = true ↔ ∃ l, l ≠ [] ∧ q = l ++ p) ∧
  lex_leb (dotted_key (path_key p)) (dotted_key (path_key q)) = lex_leb (rev p) (rev q) ∧
  (is_ancestor_of (path_key p) (path_key q) = true →
    lex_leb (dotted_key (path_key p)) (dotted_key (path_key q)) = true ∧
    lex_leb (dotted_key (path_key q)) (dotted_key (path_key p)) = false).
Proof.
  assert (Hanc : is_ancestor_of (path_key p) (path_key q) = true ↔ ∃ l, l ≠ [] ∧ q = l ++ p).
  { rewrite is_ancestor_of_spec. split.
    - intros [r Hr]. assert (Hs := f_equal (split_on dot) Hr). rewrite split_on_app, !split_path in Hs by done.
      assert (Hpre : rev p `prefix_of` rev q).
      { clear -Hs. generalize dependent (rev p). generalize (rev q). intros b a. revert b.
        induction a as [|x a IH]; intros b Hs; [by exists b|]. destruct b as [|y b]; [done|]. simpl in Hs.
        injection Hs as Hxy Hs. apply (inj pretty) in Hxy as ->. apply prefix_cons. by apply IH. }
      destruct Hpre as [l Hl]. exists (rev l). apply (f_equal (@rev N)) in Hl. rewrite rev_app_distr, !rev_involutive in Hl.
      split; [|done]. intros E. rewrite E in Hl. simpl in Hl. subst q. apply (f_equal String.length) in Hr.
      rewrite string_length_app in Hr. simpl in Hr. lia.
    - intros (l & Hl & ->). by apply path_key_app. }
  assert (Hd : ∀ x, x ≠ [] → Forall (λ n, n ≤ u64_top)%N x → dotted_key (path_key x) = rev x).
  { intros x Hx Hw. unfold dotted_key. rewrite split_path by done. rewrite map_map.
    rewrite <- (map_id (rev x)) at 2. apply map_ext_in. intros n Hn. rewrite parse_pretty; [done|].
    rewrite Forall_forall in Hw. apply Hw, list_elem_of_In. by apply in_rev. }
  apply Forall_app in Hwidth as [Hwp Hwq]. rewrite !Hd by done. split_and!; [done..|].
  intros (l & Hl & ->)%Hanc. rewrite rev_app_distr. assert (Hr : rev l ≠ []).
  { intros E. apply (f_equal (@rev N)) in E. by rewrite rev_involutive in E. }
  clear -Hr. induction (rev p) as [|n a IH]; simpl; [by destruct (rev l)|].
  by rewrite N.ltb_irrefl, N.eqb_refl.
Qed.

Lemma step_keys_form_the_tree_witness :
  is_ancestor_of "1.2" "1.2.10" = true ∧ is_ancestor_of "1.2" "1.20" = false ∧
  lex_leb (dotted_key "1.2.10") (dotted_key "1.10") = true.
Proof.
  destruct (step_keys_form_the_tree [2; 1]%N [10; 2; 1]%N ltac:(done) ltac:(done) ltac:(by repeat constructor)) as [[_ H1] _].
  destruct (step_keys_form_the_tree [2; 1]%N [20; 1]%N ltac:(done) ltac:(done) ltac:(by repeat constructor)) as [[H2 _] _].
  destruct (step_keys_form_the_tree [10; 2; 1]%N [10; 1]%N ltac:(done) ltac:(done) ltac:(by repeat constructor)) as [_ [H3 _]].
  split_and!.
  - apply H1. by exists [10%N].
  - apply not_true_iff_false. intros H. apply H2 in H as (l & Hl & He). destruct l as [|x [|y l]]; [done|done|].
    apply (f_equal length) in He. rewrite length_app in He. simpl in He. lia.
  - exact H3.
Defined.

(** ** What a bounded plan shows *)

Section selection.
Context (sorted : list PlanItem) (current : option string).

Notation open_at := (item_at sorted (λ x, negb (item_done x))).
Notation done_at := (item_at sorted item_done).

Definition context_positions : gset nat :=
  list_to_set (List.filter (item_at sorted (is_context current)) (seq 0 (length sorted))).

Lemma context_positions_elem i : i ∈ context_positions ↔ ∃ x, sorted !! i = Some x ∧ is_context current x = true.
Proof.
  unfold context_positions. rewrite elem_of_list_to_set, list_elem_of_In, filter_In. unfold item_at. split.
  - intros [_ H]. destruct (sorted !! i) as [x|]; [by exists x|done].
  - intros (x & Hx & Hc). rewrite Hx. split; [|done]. apply in_seq. apply lookup_lt_Some in Hx. lia.
Qed.

Lemma open_done_disjoint i : open_at i = true → done_at i = true → False.
Proof. unfold item_at. destruct (sorted !! i) as [x|]; [|done]. by destruct (item_done x). Qed.

Lemma select_positions_spec max_items :
  let keep := select_positions sorted current max_items in
  let rk := ranked open_at done_at context_positions (length sorted) in
  keep = context_positions ∪ list_to_set (take (max_items - size context_positions) rk) ∧
  size keep = (size context_positions + Nat.min (max_items - size context_positions) (length rk))%nat.
Proof. apply (two_passes_spec max_items _ _ open_done_disjoint). Qed.

Lemma rest_length :
  (size context_positions + length (ranked open_at done_at context_positions (length sorted)) = length sorted)%nat.
Proof.
  set (rk := ranked _ _ _ _).
  assert (Hnd : NoDup rk) by apply ranked_NoDup, open_done_disjoint.
  rewrite <- (size_list_to_set (C := gset nat) rk Hnd), <- size_union.
  2: { intros i Hi Hr%elem_of_list_to_set. apply ranked_elem in Hr as (_ & Hr & _). done. }
  transitivity (size (list_to_set (seq 0 (length sorted)) : gset nat)); [|by rewrite size_list_to_set, length_seq by apply NoDup_seq].
  f_equal. apply set_eq. intros i. rewrite elem_of_union, !elem_of_list_to_set, elem_of_seq. unfold rk. rewrite ranked_elem. split.
  - intros [(x & Hx & _)%context_positions_elem|[? _]]; [apply lookup_lt_Some in Hx; lia|lia].
  - intros [_ Hi]. simpl in Hi. destruct (decide (i ∈ context_positions)); [by left|right]. split_and!; [done..|].
    unfold item_at. destruct (lookup_lt_is_Some_2 sorted i Hi) as [x ->]. destruct (item_done x); auto.
Qed.

(** [i] is listed before [j] when room is short: open steps before completed
    ones, then the later in the tree. *)
Definition step_preferred (i j : nat) : Prop :=
  ∃ x y, sorted !! i = Some x ∧ sorted !! j = Some y ∧
    (item_done x = false ∧ item_done y = true ∨ item_done x = item_done y ∧ (j < i)%nat).

Lemma step_preferred_of_rank i j :
  (i < length sorted)%nat → (j < length sorted)%nat →
  (open_at i = true ∧ done_at j = true ∨ (open_at i = open_at j ∧ done_at i = done_at j) ∧ (j < i)%nat) →
  step_preferred i j.
Proof.
  intros [x Hx]%lookup_lt_is_Some_2 [y Hy]%lookup_lt_is_Some_2. unfold item_at. rewrite Hx, Hy.
  intros H. exists x, y. split_and!; [done..|]. destruct (item_done x), (item_done y); naive_solver.
Qed.

End selection.

(** A plan that does not fit shows the live step and all of its ancestors
    in every case, and fills what room is left with the best of the others: open
    steps before completed ones, later steps before earlier ones. *)
Theorem plan_shows_where_you_are (sorted : list PlanItem) (current : option string) (max_items : nat) :
  let keep := select_positions sorted current max_items in
  (∀ i x, sorted !! i = Some x → is_context current x = true → i ∈ keep) ∧
  (∀ i, i ∈ keep → (i < length sorted)%nat) ∧
  size keep = Nat.max (size (context_positions sorted current)) (Nat.min max_items (length sorted)) ∧
  (∀ i j, i ∈ keep → i ∉ context_positions sorted current → j ∉ keep → (j < length sorted)%nat →
    step_preferred sorted i j).
Proof.
  intros keep. destruct (select_positions_spec sorted current max_items) as [Hk Hs]. fold keep in Hk, Hs.
  assert (Hlen := rest_length sorted current). set (ctx := context_positions sorted current) in *.
  set (rk := ranked _ _ _ _) in *. split_and!.
  - intros i x Hx Hc. rewrite Hk. apply elem_of_union. left. apply context_positions_elem. by exists x.
  - intros i. rewrite Hk, elem_of_union, elem_of_list_to_set. intros [(x & Hx & _)%context_positions_elem|Hi].
    + by apply lookup_lt_Some in Hx.
    + assert (Hi' : i ∈ rk) by (rewrite <- (take_drop (max_items - size ctx) rk); set_solver). by apply ranked_elem in Hi' as [? _].
  - rewrite Hs. lia.
  - intros i j Hi Hic Hj Hjl. rewrite Hk in Hi, Hj.
    assert (Hi' : i ∈ take (max_items - size ctx) rk) by set_solver.
    assert (Hirk : i ∈ rk) by (rewrite <- (take_drop (max_items - size ctx) rk); set_solver).
    assert (Hjrk : j ∈ rk).
    { apply ranked_elem. split_and!; [done|set_solver|]. unfold item_at.
      destruct (lookup_lt_is_Some_2 sorted j Hjl) as [y ->]. destruct (item_done y); auto. }
    apply step_preferred_of_rank; [by apply ranked_elem in Hirk as [? _]|done|].
    assert (Hsort := ranked_sorted _ _ (open_done_disjoint sorted) ctx (length sorted)). fold rk in Hsort.
    rewrite <- (take_drop (max_items - size ctx) rk) in Hsort, Hjrk. apply (sorted_split _ _ _ i j Hsort Hi'). set_solver.
Qed.
