(* ===== verification/PlanNotes.v ===== *)
(** * Notes a turn keeps in view

    Models the note surfaces of [crates/core/src/planning.rs]: the index of
    free-form keys, the pinned block with its attached knowledge entries, and
    the one-line working-state nudge; with the disposition markers of
    [crates/core/src/domain/knowledge.rs] and [crates/protocol/src/lib.rs]. *)

From S2P Require Import Prelude DisplayLine Messages ToolRouting ToolProvenance Planning.

Definition MAX_SCRATCHPAD_INDEX_KEYS : nat := 40.
Definition NOTE_KEY_MAX_CHARS : nat := 128.
Definition MAX_PINNED_NOTES : nat := 5.
Definition PINNED_BLOCK_BYTE_BUDGET : nat := 4 * 1024.
Definition SUMMARY_MAX_CHARS : nat := 200.
Definition PINNED_ENTRY_MAX_CHARS : nat := 4 * SUMMARY_MAX_CHARS.

(** ** Dispositions of knowledge entries *)

Inductive Disposition := Active | Refuted | Superseded | Redundant | Obsolete | Trivial.

Definition Disposition_as_str (d : Disposition) : string :=
  match d with
  | Active => "active" | Refuted => "refuted" | Superseded => "superseded"
  | Redundant => "redundant" | Obsolete => "obsolete" | Trivial => "trivial"
  end.

Definition marker (d : Disposition) : string :=
  match d with
  | Refuted => "recorded, later refuted: "
  | Superseded | Redundant => "superseded, see its successor: "
  | Obsolete => "no longer applies: "
  | Active | Trivial => EmptyString
  end.

(** The wire's spelling-based twin. *)
Definition disposition_marker (disposition : string) : string :=
  if String.eqb disposition "refuted" then "recorded, later refuted: "
  else if String.eqb disposition "superseded" || String.eqb disposition "redundant" then "superseded, see its successor: "
  else if String.eqb disposition "obsolete" then "no longer applies: "
  else EmptyString.

(** ** The index of free-form notes *)

Definition is_freeform (n : RawNote) : bool :=
  String.eqb (rn_note_type n) OUTCOME_NOTE_TYPE && negb (String.eqb (rn_key n) SCRATCHPAD_GOAL_KEY)
  && negb (starts_with (rn_key n) OUTCOME_KEY_PREFIX) && negb (rn_pinned n).

Definition freeform_note_keys (notes : list RawNote) : list string := map rn_key (List.filter is_freeform notes).

(** [Vec::dedup_by_key]: of a run of equal keys the first stays. *)
Fixpoint dedup_by {A K} `{!EqDecision K} (f : A → K) (last : option K) (l : list A) : list A :=
  match l with
  | [] => []
  | x :: l' => if bool_decide (last = Some (f x)) then dedup_by f last l' else x :: dedup_by f (Some (f x)) l'
  end.

(** The order of [str]: by bytes. *)
Definition str_leb (a b : string) : bool := match String.compare a b with Gt => false | _ => true end.

Definition unique_sorted (keys : list string) : list string :=
  dedup_by (λ k, k) None (sort_by str_leb keys).

Definition listed_scratchpad_keys (keys : list string) (max_items : nat) : list string :=
  take max_items (unique_sorted keys).

Definition render_scratchpad_index (keys : list string) (max_items : nat) : option string :=
  match unique_sorted keys with
  | [] => None
  | sorted =>
      let total := length sorted in
      let shown := Nat.min max_items total in
      let listed := join ", " (map (λ k, one_line k NOTE_KEY_MAX_CHARS) (take shown sorted)) in
      let out := "Notes you've stashed (read with builtin_scratchpad_search): " +:+ listed in
      Some (if (shown <? total)%nat then out +:+ " … and " +:+ pretty (total - shown) +:+ " more." else out +:+ ".")
  end.

(** ** The pinned block *)

Notation PinnedEntries := (gmap string (string * Disposition)) (only parsing).

Definition dangling_attachment (entries : option PinnedEntries) (n : RawNote) : bool :=
  match rn_knowledge_entry_id n, entries with
  | Some i, Some found => bool_decide (found !! i = None)
  | _, _ => false
  end.

Definition attached_entry (entries : option PinnedEntries) (n : RawNote) : option (string * Disposition) :=
  i ← rn_knowledge_entry_id n; es ← entries; es !! i.

Definition pinned_chunk (n : RawNote) (entry : option (string * Disposition)) : string :=
  let chunk := "- " +:+ rn_key n +:+ ":" in
  let chunk := if String.eqb (rn_content n) EmptyString then chunk else chunk +:+ " " +:+ rn_content n in
  match rn_knowledge_entry_id n with
  | None => chunk
  | Some i =>
      chunk +:+ newline +:+ "  knowledge entry " +:+ i +:+
      match entry with
      | Some (text, d) =>
          ": " +:+ marker d +:+ one_line text (PINNED_ENTRY_MAX_CHARS - chars_count (marker d))
      | None => " could not be read this round; builtin_knowledge_base_get it if you need it now"
      end
  end.

Definition TRUNCATED : string := "… (truncated)".

(** The loop that fills the block; it stops at the first note with no room. *)
Fixpoint pinned_lines (entries : option PinnedEntries) (budget used : nat) (live : list RawNote) : list string :=
  match live with
  | [] => []
  | n :: rest =>
      let overhead := (String.length (rn_key n) + 4)%nat in
      let allowed := (budget - used)%nat in
      if (allowed <=? overhead)%nat then []
      else
        let chunk := pinned_chunk n (attached_entry entries n) in
        let chunk := if (allowed <? String.length chunk)%nat then truncate_on_char_boundary chunk allowed +:+ TRUNCATED else chunk in
        chunk :: pinned_lines entries budget (used + String.length chunk) rest
  end.

Definition pin_key (n : RawNote) : string * string := (rn_owner_todo n, rn_key n).

Definition pin_leb (a b : RawNote) : bool :=
  match String.compare (rn_owner_todo a) (rn_owner_todo b) with
  | Lt => true
  | Gt => false
  | Eq => str_leb (rn_key a) (rn_key b)
  end.

Definition pinned_notes (notes : list RawNote) : list RawNote :=
  dedup_by pin_key None (sort_by pin_leb (List.filter rn_pinned notes)).

Definition render_pinned (notes : list RawNote) (entries : option PinnedEntries) (budget : nat) : option string :=
  match List.filter rn_pinned notes with
  | [] => None
  | _ =>
      let pinned := pinned_notes notes in
      let released := List.filter (dangling_attachment entries) pinned in
      let live := List.filter (λ n, negb (dangling_attachment entries n)) pinned in
      let lines := pinned_lines entries budget 0 live in
      let out := "Notes you pinned to keep in view — already current, no need to re-read them. Unpin with builtin_scratchpad_pin once one stops mattering."
        +:+ newline +:+ join newline lines in
      let dropped := (length live - length lines)%nat in
      let out := if (0 <? dropped)%nat
        then (if bool_decide (lines = []) then out else out +:+ newline) +:+ "(" +:+ pretty dropped
             +:+ " pinned note(s) did not fit here; unpin some or shorten them, or read them with builtin_scratchpad_search.)"
        else out in
      Some (if bool_decide (released = []) then out
            else
              (if negb (bool_decide (lines = [])) || (0 <? dropped)%nat then out +:+ newline else out)
              +:+ "(not shown, because the knowledge entry it pointed at no longer exists: "
              +:+ join ", " (sort_by str_leb (map rn_key released))
              +:+ ". The pin is being released; search the knowledge base again if you still need that fact.)")
  end.

(** ** The working-state line *)

Record WorkingState := { ws_notes : nat; ws_open_todos : nat }.

Definition from_notes (notes : list RawNote) : WorkingState :=
  {| ws_notes := length (unique_sorted (freeform_note_keys notes));
     ws_open_todos := length (List.filter (λ n, is_step n && negb (rn_done n)) notes) |}.

Definition plural (n : nat) : string := if (n =? 1)%nat then EmptyString else "s".

Definition render_working_state (w : WorkingState) : option string :=
  let parts :=
    (if (0 <? ws_notes w)%nat then [pretty (ws_notes w) +:+ " scratchpad note" +:+ plural (ws_notes w)] else [])
    ++ (if (0 <? ws_open_todos w)%nat then [pretty (ws_open_todos w) +:+ " open to-do" +:+ plural (ws_open_todos w)] else []) in
  match parts with [] => None | _ => Some (join ", " parts +:+ ".") end.

(** ** The index names what it counts *)

Lemma dedup_by_elem {A K} `{!EqDecision K} (f : A → K) last l k :
  (∃ x, x ∈ l ∧ f x = k) → last = Some k ∨ ∃ x, x ∈ dedup_by f last l ∧ f x = k.
Proof.
  revert last. induction l as [|y l IH]; intros last (x & Hx & Hk); [set_solver|]. cbn [dedup_by].
  apply elem_of_cons in Hx as [->|Hx].
  - case_bool_decide as Hl; [left; congruence|]. right. exists y. split; [set_solver|done].
  - case_bool_decide as Hl; [by apply IH; exists x|]. destruct (IH (Some (f y)) (ex_intro _ x (conj Hx Hk))) as [[= <-]|(z & Hz & Hzk)].
    + right. exists y. split; [set_solver|done].
    + right. exists z. split; [set_solver|done].
Qed.

Lemma dedup_by_sub {A K} `{!EqDecision K} (f : A → K) last l x : x ∈ dedup_by f last l → x ∈ l.
Proof.
  revert last. induction l as [|y l IH]; intros last; cbn [dedup_by]; [done|].
  case_bool_decide; [intros ?%IH; set_solver|]. intros [->|?%IH]%elem_of_cons; set_solver.
Qed.

Lemma unique_sorted_elem keys k : k ∈ unique_sorted keys ↔ k ∈ keys.
Proof.
  unfold unique_sorted. split.
  - intros ?%dedup_by_sub. by rewrite elem_of_sort_by in *.
  - intros Hk. destruct (dedup_by_elem (λ k : string, k) None (sort_by str_leb keys) k) as [?|(x & Hx & ->)]; [|done|done].
    exists k. by rewrite elem_of_sort_by.
Qed.

Lemma markers_agree d : disposition_marker (Disposition_as_str d) = marker d.
Proof. by destruct d. Qed.

(** The nudge counts exactly the keys the index would name, and the index is
    silent exactly when it counts none. *)
Lemma index_and_count_agree notes max_items :
  ws_notes (from_notes notes) = length (unique_sorted (freeform_note_keys notes)) ∧
  (render_scratchpad_index (freeform_note_keys notes) max_items = None ↔ ws_notes (from_notes notes) = 0%nat) ∧
  (∀ k, k ∈ unique_sorted (freeform_note_keys notes) ↔
    ∃ n, n ∈ notes ∧ is_freeform n = true ∧ rn_key n = k).
Proof.
  split_and!; [done| |].
  - unfold render_scratchpad_index, from_notes. simpl. by destruct (unique_sorted _).
  - intros k. rewrite unique_sorted_elem. unfold freeform_note_keys. rewrite list_elem_of_In, in_map_iff.
    setoid_rewrite filter_In. setoid_rewrite <- list_elem_of_In. naive_solver.
Qed.

(** ** The pinned block *)

Lemma truncate_length s n : (String.length (truncate_on_char_boundary s n) ≤ n)%nat.
Proof.
  unfold truncate_on_char_boundary. case_match eqn:E; [by apply Nat.leb_le|]. apply Nat.leb_gt in E.
  assert (Hf := floor_boundary_le s n). rewrite str_prefix_length; lia.
Qed.

Lemma pinned_lines_bytes entries budget used live :
  (used + sum_list_with String.length (pinned_lines entries budget used live)
   ≤ Nat.max used (budget + String.length TRUNCATED))%nat.
Proof.
  revert used. induction live as [|n live IH]; intros used; cbn [pinned_lines]; [simpl; lia|].
  destruct (_ <=? _)%nat eqn:Ea; [simpl; lia|]. apply Nat.leb_gt in Ea.
  set (chunk := pinned_chunk n _). set (c := if (_ <? _)%nat then _ else chunk). cbn [sum_list_with].
  assert (Hc : (String.length c ≤ budget - used + String.length TRUNCATED)%nat).
  { unfold c. destruct (budget - used <? String.length chunk)%nat eqn:E.
    - rewrite string_length_app. assert (Ht := truncate_length chunk (budget - used)). lia.
    - apply Nat.ltb_ge in E. lia. }
  specialize (IH (used + String.length c)%nat). lia.
Qed.

Lemma pinned_lines_length entries budget used live : (length (pinned_lines entries budget used live) ≤ length live)%nat.
Proof.
  revert used. induction live as [|n live IH]; intros used; cbn [pinned_lines]; [done|]. case_match; simpl; [lia|].
  specialize (IH (used + String.length (if (budget - used <? String.length (pinned_chunk n (attached_entry entries n)))%nat
    then truncate_on_char_boundary (pinned_chunk n (attached_entry entries n)) (budget - used) +:+ TRUNCATED
    else pinned_chunk n (attached_entry entries n)))%nat). lia.
Qed.

(** A shown line is its note's whole text, or a prefix of it that says it was
    cut. *)
Definition shows (entries : option PinnedEntries) (line : string) (n : RawNote) : Prop :=
  let chunk := pinned_chunk n (attached_entry entries n) in
  line = chunk ∨ ∃ cut, String.prefix cut chunk = true ∧ line = cut +:+ TRUNCATED.

Lemma pinned_lines_show entries budget used live :
  Forall2 (shows entries) (pinned_lines entries budget used live)
    (take (length (pinned_lines entries budget used live)) live).
Proof.
  revert used. induction live as [|n live IH]; intros used; cbn [pinned_lines]; [constructor|].
  case_match eqn:Ea; [constructor|]. cbn [length take]. constructor; [|apply IH].
  unfold shows. set (chunk := pinned_chunk n _). case_match eqn:E; [|by left]. right. eexists. split; [|done].
  unfold truncate_on_char_boundary. case_match.
  - rewrite <- (str_prefix_all chunk) at 1. apply str_prefix_prefix.
  - apply str_prefix_prefix.
Qed.

(** No pin disappears in silence: every pinned note is in the block's
    list, once per namespace and key; the list is split into notes that are
    shown, in order, whole or visibly cut, notes counted as not fitting, and
    notes named because their knowledge entry is gone; and what is shown stays
    within the budget and one truncation mark. *)
Theorem pins_are_shown_counted_or_named (notes : list RawNote) (entries : option PinnedEntries) (budget : nat) :
  let pinned := pinned_notes notes in
  let released := List.filter (dangling_attachment entries) pinned in
  let live := List.filter (λ n, negb (dangling_attachment entries n)) pinned in
  let lines := pinned_lines entries budget 0 live in
  (render_pinned notes entries budget = None ↔ ∀ n, n ∈ notes → rn_pinned n = false) ∧
  (∀ n, n ∈ notes → rn_pinned n = true → ∃ n', n' ∈ pinned ∧ pin_key n' = pin_key n) ∧
  released ++ live ≡ₚ pinned ∧
  Forall2 (shows entries) lines (take (length lines) live) ∧
  (length lines + (length live - length lines) = length live)%nat ∧
  (sum_list_with String.length lines ≤ budget + String.length TRUNCATED)%nat.
Proof.
  intros pinned released live lines. split_and!.
  - unfold render_pinned. assert (Hf : List.filter rn_pinned notes = [] ↔ ∀ n, n ∈ notes → rn_pinned n = false).
    { induction notes as [|n l IH]; simpl; [set_solver|]. destruct (rn_pinned n) eqn:E.
      - split; [done|]. intros H. specialize (H n ltac:(set_solver)). congruence.
      - rewrite IH by done. set_solver. }
    rewrite <- Hf. by destruct (List.filter rn_pinned notes).
  - intros n Hn Hp. destruct (dedup_by_elem pin_key None (sort_by pin_leb (List.filter rn_pinned notes)) (pin_key n)) as [?|H]; [|done|done].
    exists n. split; [|done]. apply elem_of_sort_by, list_elem_of_In, filter_In. split; [by apply list_elem_of_In|done].
  - unfold released, live. generalize pinned. intros l. induction l as [|n l IH]; simpl; [done|].
    destruct (dangling_attachment entries n); simpl; [by rewrite IH|]. rewrite <- Permutation_middle. by rewrite IH.
  - apply pinned_lines_show.
  - assert (H := pinned_lines_length entries budget 0 live). fold lines in H. lia.
  - assert (H := pinned_lines_bytes entries budget 0 live). fold lines in H. lia.
Qed.

(** The mark itself is not counted: one long pin overruns the budget by it. *)
Lemma pinned_block_overruns :
  let n := {| rn_key := "k"; rn_owner_todo := EmptyString; rn_content := "a fact that does not fit in the room left";
              rn_note_type := "note"; rn_done := false; rn_pinned := true; rn_knowledge_entry_id := None |} in
  (20 < sum_list_with String.length (pinned_lines None 20 0 [n]))%nat.
Proof. by vm_compute; repeat constructor. Qed.

(** ** Findings roll up *)

Section roll_up.
Context {K V : Type} `{Countable K}.

Lemma foldl_insert_Some (l : list (K * V)) (m : gmap K V) k v :
  foldl (λ m kv, <[kv.1 := kv.2]> m) m l !! k = Some v → (k, v) ∈ l ∨ m !! k = Some v.
Proof.
  revert m. induction l as [|[k' v'] l IH]; intros m; simpl; [auto|]. intros [Hin|Hm]%IH; [left; set_solver|].
  destruct (decide (k' = k)) as [->|Hne].
  - rewrite lookup_insert_eq in Hm. injection Hm as ->. left. set_solver.
  - rewrite lookup_insert_ne in Hm by done. by right.
Qed.

Lemma foldl_insert_is_Some (l : list (K * V)) (m : gmap K V) k :
  (∃ v, (k, v) ∈ l) ∨ is_Some (m !! k) → is_Some (foldl (λ m kv, <[kv.1 := kv.2]> m) m l !! k).
Proof.
  revert m. induction l as [|[k' v'] l IH]; intros m; simpl; [set_solver|]. intros [(v & Hv)|Hm]; apply IH.
  - apply elem_of_cons in Hv as [[= -> ->]|Hv]; [right; by rewrite lookup_insert_eq|]. left. by exists v.
  - right. destruct (decide (k' = k)) as [->|Hne]; [by rewrite lookup_insert_eq|by rewrite lookup_insert_ne].
Qed.
End roll_up.

(** The step's parent, in the same namespace, is done. *)
Definition rolled_up (notes : list RawNote) (owner step : string) : Prop :=
  ∃ parent leaf, rsplit_once step (String dot EmptyString) = Some (parent, leaf) ∧ done_by_key notes !! (owner, parent) = Some true.

Lemma pending_outcome_spec notes n k v :
  pending_outcome (done_by_key notes) n = Some (k, v) ↔
  ∃ step, rn_key n = OUTCOME_KEY_PREFIX +:+ step ∧ k = (rn_owner_todo n, step) ∧ v = rn_content n ∧
    ¬ rolled_up notes (rn_owner_todo n) step.
Proof.
  unfold pending_outcome, strip_prefix, rolled_up. destruct (starts_with (rn_key n) OUTCOME_KEY_PREFIX) eqn:Es.
  - apply starts_with_app in Es as [step Hs]. rewrite Hs, drop_bytes_app. split.
    + intros H. exists step. destruct (rsplit_once step _) as [[parent leaf]|].
      * destruct (done_by_key notes !! (rn_owner_todo n, parent)) as [[]|] eqn:Ed; simpl in H; [done| |];
          injection H as <- <-; split_and!; try done; intros (? & ? & [= <- <-] & ?); congruence.
      * simpl in H. injection H as <- <-. split_and!; try done. by intros (? & ? & ? & _).
    + intros (step' & He & -> & -> & Hn). assert (step' = step) as ->.
      { by injection He. }
      destruct (rsplit_once step _) as [[parent leaf]|]; [|done].
      destruct (done_by_key notes !! (rn_owner_todo n, parent)) as [[]|] eqn:Ed; [|done|done]. destruct Hn. by exists parent, leaf.
  - split; [done|]. intros (step & He & _). apply not_true_iff_false in Es. destruct Es. apply starts_with_app. by exists step.
Qed.

Lemma done_by_key_step notes n : n ∈ notes → is_step n = true → is_Some (done_by_key notes !! pin_key n).
Proof.
  intros Hn Hs. unfold done_by_key.
  assert (Hf : ∀ l (m : gmap (string * string) bool), foldl (λ m n, <[(rn_owner_todo n, rn_key n) := rn_done n]> m) m l =
    foldl (λ m kv, <[kv.1 := kv.2]> m) m (map (λ n, (pin_key n, rn_done n)) l)).
  { intros l. induction l as [|x l IH]; intros m; [done|]. simpl. apply IH. }
  rewrite Hf. apply foldl_insert_is_Some. left. exists (rn_done n). apply list_elem_of_In, in_map_iff. exists n.
  split; [done|]. apply filter_In. split; [by apply list_elem_of_In|done].
Qed.

(** A step of the plan carries a finding exactly when the scratchpad of
    its own namespace holds an outcome note for it and its parent there is not
    yet done; the finding is the text of such a note.  A finding of another
    namespace never appears under it. *)
Theorem findings_show_until_rolled_up (notes : list RawNote) (n : RawNote)
    (Hn : n ∈ notes) (Hstep : is_step n = true) :
  let pending n' := n' ∈ notes ∧ rn_owner_todo n' = rn_owner_todo n ∧
    rn_key n' = OUTCOME_KEY_PREFIX +:+ rn_key n ∧ ¬ rolled_up notes (rn_owner_todo n) (rn_key n) in
  let finding := outcomes notes !! (rn_owner_todo n, rn_key n) in
  {| item_key := rn_key n; item_goal := rn_content n; item_done := rn_done n; item_outcome := finding |}
    ∈ plan_items_from_notes notes ∧
  (is_Some finding ↔ ∃ n', pending n') ∧
  (∀ o, finding = Some o → ∃ n', pending n' ∧ rn_content n' = o).
Proof.
  intros pending finding. assert (Hsome : ∀ o, finding = Some o → ∃ n', pending n' ∧ rn_content n' = o).
  { intros o Ho. unfold finding, outcomes in Ho. apply foldl_insert_Some in Ho as [Hin|Hm]; [|by rewrite lookup_empty in Hm].
    apply list_elem_of_omap in Hin as (n' & Hn' & Hp). apply pending_outcome_spec in Hp as (step & Hk & Hs & Hv & Hr).
    injection Hs as Ho' Hst. exists n'. unfold pending. rewrite Ho', Hst, Hk. by split_and!. }
  split_and!; [| |done].
  - unfold plan_items_from_notes. assert (Hin : n ∈ List.filter is_step notes)
      by (apply list_elem_of_In, filter_In; split; [by apply list_elem_of_In|done]).
    rewrite bool_decide_eq_false_2.
    + apply list_elem_of_In, in_map_iff. exists n. split; [done|by apply list_elem_of_In].
    + intros He. destruct (done_by_key_step notes n Hn Hstep) as [b Hb]. by rewrite He, lookup_empty in Hb.
  - split; [intros [o Ho]; destruct (Hsome o Ho) as (n' & Hp & _); by exists n'|].
    intros (n' & Hn' & Ho & Hk & Hr). unfold finding, outcomes. apply foldl_insert_is_Some. left.
    exists (rn_content n'). apply list_elem_of_omap. exists n'. split; [done|]. apply pending_outcome_spec.
    exists (rn_key n). rewrite Ho. by split_and!.
Qed.

Definition demo_note (owner k text ty : string) (d : bool) : RawNote :=
  {| rn_key := k; rn_owner_todo := owner; rn_content := text; rn_note_type := ty; rn_done := d;
     rn_pinned := false; rn_knowledge_entry_id := None |}.

Lemma findings_show_until_rolled_up_witness :
  let notes := [demo_note EmptyString "1" "plan" "todo" false; demo_note EmptyString "1.1" "look" "todo" true;
                demo_note EmptyString "outcome:1.1" "found it" "note" false;
                demo_note "9.1" "outcome:1" "elsewhere" "note" false] in
  is_Some (outcomes notes !! (EmptyString, "1.1")) ∧ ¬ is_Some (outcomes notes !! (EmptyString, "1")).
Proof.
  intros notes. split.
  - destruct (findings_show_until_rolled_up notes (demo_note EmptyString "1.1" "look" "todo" true)) as (_ & Hs & _);
      [set_solver|done|]. apply Hs. exists (demo_note EmptyString "outcome:1.1" "found it" "note" false).
    split_and!; [set_solver|done..|]. intros (parent & leaf & Hp & Hd). vm_compute in Hp. injection Hp as <- <-.
    by vm_compute in Hd.
  - destruct (findings_show_until_rolled_up notes (demo_note EmptyString "1" "plan" "todo" false)) as (_ & Hs & _);
      [set_solver|done|]. rewrite Hs. intros (n' & Hn' & Ho & Hk & _). unfold notes in Hn'.
    repeat (apply elem_of_cons in Hn' as [->|Hn']; [done|]). set_solver.
Defined.
