(* ===== verification/StepControl.v ===== *)
(** * Step control in the turn loop

    Models [handle_step_control] of [crates/core/src/service.rs]: how the loop
    answers [begin_step] and [complete_step], which notes it writes, what it
    evicts and records, and when it deletes the notes of a finished branch.  The
    pad, the task probe and the skill library are wired closures of the handler,
    so they are parameters here. *)

From S2P Require Import Prelude Json Messages ToolRouting ToolProvenance Eviction Planning.

Definition MAX_NOTE_BYTES : nat := 8 * 1024.

Record NewScratchpadNote := {
  note_key : string;
  note_content : string;
  note_type : string;
  note_sequence : option Z;
  note_done : bool;
  note_after_outside_read : bool
}.

(** What the handler is wired to.  [pad_write] answers the keys of the notes it
    stored, or nothing on an error; [descendants_running] and [delete_subtree]
    take the owner prefix; the offer is what [plan_promotion_offer] answers. *)
Record StepEnv := {
  pad_write : option (list NewScratchpadNote → option (list string));
  hard_withhold : bool;
  fresh_id : string;
  owner_todo : option string;
  descendants_running : option (string → bool);
  delete_subtree : option (string → bool);
  promotion_offer : option Value
}.

Record StepState := {
  st_messages : list Message;
  st_projection : gmap string string;
  st_stack : StepStack;
  st_offer_made : bool
}.

Inductive PadEffect := WroteNotes (notes : list NewScratchpadNote) | DeletedSubtree (prefix : string).

Definition arg_str (k : string) (args : Value) : option string := get k args ≫= as_str.

Definition error_ack (e : string) : Value := Object [("error", Str e); ("ok", Bool false)].

Section step_control.
Context `{!SerdeJson} (env : StepEnv).

Definition step_note (k text : string) (p : TurnProvenance) (sq : Z) (d : bool) : NewScratchpadNote :=
  let (recorded, after) := step_text_to_record text p (hard_withhold env) in
  {| note_key := k; note_content := truncate_on_char_boundary recorded MAX_NOTE_BYTES;
     note_type := STEP_NOTE_TYPE; note_sequence := Some sq; note_done := d; note_after_outside_read := after |}.

Definition outcome_body (abandoned : bool) (o : string) : string := if abandoned then "Abandoned: " +:+ o else o.

Definition outcome_note (k body : string) (p : TurnProvenance) : NewScratchpadNote :=
  let (recorded, after) := step_text_to_record body p (hard_withhold env) in
  {| note_key := k; note_content := truncate_on_char_boundary recorded MAX_NOTE_BYTES;
     note_type := OUTCOME_NOTE_TYPE; note_sequence := None; note_done := false; note_after_outside_read := after |}.

Definition text_recorded (p : TurnProvenance) : bool := negb (ingested_external p && hard_withhold env).

Definition begin_step (write : list NewScratchpadNote → option (list string)) (s : StepState) (args : Value)
    (p : TurnProvenance) : StepState * list PadEffect * Value :=
  let g := trim (default EmptyString (arg_str "goal" args)) in
  if String.eqb g EmptyString then (s, [], error_ack "begin_step requires a non-empty 'goal'")
  else
    let '(stack', (k, sq)) := begin (st_stack s) g (length (st_messages s)) in
    ({| st_messages := st_messages s; st_projection := st_projection s; st_stack := stack'; st_offer_made := st_offer_made s |},
     [WroteNotes [step_note k g p sq false]],
     Object [("action", Str "begin_step"); ("depth", Number (pretty (depth stack'))); ("goal", Str g); ("ok", Bool true);
             ("step", Str k); ("text_recorded", Bool (text_recorded p))]).

(** Whether a later turn may read the scope as a pointer. *)
Definition trace_of (saved : option (list string)) (outcome_is_a_trace : bool) (note_keys : list string) : DistilledTrace :=
  match saved with
  | Some written =>
      if outcome_is_a_trace && forallb (λ k, bool_decide (k ∈ written)) note_keys then Written else Absent
  | None => Absent
  end.

(** The cleanup of a completed step's subagents: the effect, and the note the
    model reads when it is put off. *)
Definition cascade (f : StepFrame) : list PadEffect * option string :=
  if (child_counter f =? 0)%N then ([], None)
  else
    let prefix := owner_subtree_prefix (default EmptyString (owner_todo env)) (key f) in
    if String.eqb prefix EmptyString then ([], None)
    else
      let running := match descendants_running env with Some probe => probe prefix | None => false end in
      if running then
        ([], Some "subagents under this step are still running; their notes are retained and reclaimed once they finish")
      else match delete_subtree env with Some _ => ([DeletedSubtree prefix], None) | None => ([], None) end.

Definition opt_value (o : option Value) : Value := default Null o.

Definition complete_step (write : list NewScratchpadNote → option (list string)) (s : StepState) (args : Value)
    (p : TurnProvenance) : StepState * list PadEffect * Value :=
  let outcome :=
    match arg_str "outcome" args with
    | Some o => if String.eqb (trim o) EmptyString then None else Some (trim o)
    | None => None
    end in
  let abandoned :=
    match arg_str "status" args with
    | Some st => String.eqb (to_ascii_lowercase st) "abandoned"
    | None => false
    end in
  match complete (st_stack s) with
  | (stack', None) =>
      match outcome with
      | Some o =>
          let k := "note-" +:+ fresh_id env in
          (s, [WroteNotes [outcome_note k (outcome_body abandoned o) p]],
           Object [("action", Str "complete_step"); ("note", Str "no active step; recorded a standalone note");
                   ("ok", Bool true); ("outcome_note", Str k); ("text_recorded", Bool (text_recorded p))])
      | None =>
          (s, [], Object [("action", Str "complete_step"); ("note", Str "no active step to complete"); ("ok", Bool true)])
      end
  | (stack', Some f) =>
      let done_note := step_note (key f) (goal f) p (sequence f) true in
      let okey := OUTCOME_KEY_PREFIX +:+ key f in
      let '(notes, note_keys, is_trace) :=
        match outcome with
        | Some o =>
            let body := outcome_body abandoned o in
            let recorded := (step_text_to_record body p (hard_withhold env)).1 in
            ([done_note; outcome_note okey body p], [okey], negb (is_withheld_step_text recorded))
        | None => ([done_note], [], false)
        end in
      let saved := write notes in
      let trace := trace_of saved is_trace note_keys in
      let '(msgs', proj', compaction) :=
        evict_tool_results (st_messages s) (st_projection s) (watermark f) note_keys trace StepCompleted in
      let (deleted, cascade_note) := cascade f in
      let offer := if (depth stack' =? 0)%nat && negb (st_offer_made s) then promotion_offer env else None in
      let offer_made :=
        if (depth stack' =? 0)%nat && negb (st_offer_made s)
        then match promotion_offer env with Some _ => true | None => false end
        else st_offer_made s in
      ({| st_messages := msgs'; st_projection := proj'; st_stack := stack'; st_offer_made := offer_made |},
       WroteNotes notes :: deleted,
       Object [("action", Str "complete_step"); ("evicted_results", Number (pretty (evicted compaction)));
               ("freed_bytes", Number (pretty (freed compaction)));
               ("note", opt_value (Str <$> cascade_note)); ("ok", Bool true);
               ("outcome_note", opt_value (Str <$> head note_keys));
               ("reduced_bytes", Number (pretty (reduced_bytes compaction)));
               ("reduced_results", Number (pretty (reduced compaction)));
               ("skill_offer", opt_value offer);
               ("status", Str (if abandoned then "abandoned" else "done")); ("step", Str (key f))])
  end.

Definition handle_step_control (s : StepState) (call_name : string) (args : Value) (p : TurnProvenance)
    : StepState * list PadEffect * Value :=
  match pad_write env with
  | None => (s, [], error_ack "planning is not available in this turn")
  | Some write => if String.eqb call_name BEGIN_STEP_TOOL then begin_step write s args p else complete_step write s args p
  end.

(** ** A recorded eviction has a trace *)

Lemma trace_of_written saved is_trace keys :
  trace_of saved is_trace keys = Written →
  ∃ written, saved = Some written ∧ is_trace = true ∧ ∀ k, k ∈ keys → k ∈ written.
Proof.
  unfold trace_of. destruct saved as [written|]; [|done]. destruct is_trace; [|done]. simpl.
  destruct (forallb _ keys) eqn:E; [|done]. intros _. exists written. split_and!; [done..|].
  intros k Hk. rewrite forallb_forall in E. apply (bool_decide_eq_true_1 _), E. by apply list_elem_of_In.
Qed.

Lemma marked_changed names keys trace reason current m :
  distilled_into (marked names keys trace reason current m) ≠ distilled_into m →
  trace = Written ∧ distilled_into (marked names keys trace reason current m) = keys.
Proof.
  unfold marked. case_match; [done..|]. destruct (bool_decide (trace = Written)) eqn:E; [|done].
  apply bool_decide_eq_true in E. simpl. destruct (bool_decide (keys ≠ [])); [|done]. done.
Qed.

Lemma evict_changes msgs p from keys trace reason i m m' :
  NoDup (map id msgs) → msgs !! i = Some m →
  (evict_tool_results msgs p from keys trace reason).1.1 !! i = Some m' →
  distilled_into m' ≠ distilled_into m → (from ≤ i)%nat ∧ trace = Written ∧ distilled_into m' = keys.
Proof.
  intros Hnd Hm Hm' Hne. assert (Hs := evict_spec msgs p from keys trace reason Hnd). simpl in Hs.
  destruct (evict_tool_results _ _ _ _ _ _) as [[msgs' p'] o]. simpl in Hm'. destruct Hs as (-> & _).
  destruct (decide (i < from)%nat) as [Hlt|Hge].
  - rewrite lookup_app_l in Hm' by (rewrite length_take; apply lookup_lt_Some in Hm; lia).
    rewrite lookup_take_lt in Hm' by done. congruence.
  - rewrite lookup_app_r in Hm' by (rewrite length_take; lia). rewrite length_take in Hm'.
    assert (Hlen := lookup_lt_Some _ _ _ Hm). rewrite Nat.min_l in Hm' by lia.
    assert (Hi : (map (λ m, marked (tool_names_by_call_id msgs) keys trace reason (projected_content p m) m) (drop from msgs)) !! (i - from)%nat =
      Some (marked (tool_names_by_call_id msgs) keys trace reason (projected_content p m) m)).
    { rewrite list_lookup_fmap, lookup_drop. replace (from + (i - from))%nat with i by lia. by rewrite Hm. }
    rewrite Hi in Hm'. injection Hm' as <-. split; [lia|]. by apply marked_changed in Hne.
Qed.

Lemma withheld_is_recognised : is_withheld_step_text WITHHELD_STEP_TEXT = true.
Proof. by vm_compute. Qed.

(** The eviction a completed step makes: the notes it wrote, and the pass. *)
Lemma complete_step_shape write s args p :
  let '(s', effects, ack) := complete_step write s args p in
  (s' = s ∧ ∀ q, DeletedSubtree q ∉ effects) ∨
  ∃ f rest notes keys is_trace o,
    frames (st_stack s) = f :: rest ∧ frames (st_stack s') = rest ∧
    effects = WroteNotes notes :: (cascade f).1 ∧
    evict_tool_results (st_messages s) (st_projection s) (watermark f) keys (trace_of (write notes) is_trace keys) StepCompleted
      = (st_messages s', st_projection s', o) ∧
    (is_trace = true → ∃ body n, keys = [OUTCOME_KEY_PREFIX +:+ key f] ∧ n ∈ notes ∧
       n = outcome_note (OUTCOME_KEY_PREFIX +:+ key f) body p ∧
       is_withheld_step_text (step_text_to_record body p (hard_withhold env)).1 = false).
Proof.
  unfold complete_step, complete. destruct (frames (st_stack s)) as [|f rest] eqn:Ef.
  { destruct (arg_str "outcome" args) as [o|]; [destruct (String.eqb (trim o) EmptyString)|]; left;
      (split; [done|]); intros q Hq; repeat (apply elem_of_cons in Hq as [Hq|Hq]; [done|]); set_solver. }
  set (ab := match arg_str "status" args with Some _ => _ | None => false end).
  destruct (match arg_str "outcome" args with Some _ => _ | None => None end) as [o|].
  - set (keys := [OUTCOME_KEY_PREFIX +:+ key f]). set (body := outcome_body ab o).
    set (notes := [step_note (key f) (goal f) p (sequence f) true; outcome_note (OUTCOME_KEY_PREFIX +:+ key f) body p]).
    set (tr := negb (is_withheld_step_text (step_text_to_record body p (hard_withhold env)).1)).
    destruct (evict_tool_results (st_messages s) (st_projection s) (watermark f) keys (trace_of (write notes) tr keys) StepCompleted)
      as [[msgs' proj'] oc] eqn:Ee.
    destruct (cascade f) as [deleted note] eqn:Ec. right. exists f, rest, notes, keys, tr, oc. simpl.
    split_and!; [done..|by rewrite Ec|done|]. intros Htr. exists body, (outcome_note (OUTCOME_KEY_PREFIX +:+ key f) body p).
    split_and!; [done|unfold notes; set_solver|done|]. unfold tr in Htr. by apply negb_true_iff in Htr.
  - set (notes := [step_note (key f) (goal f) p (sequence f) true]).
    destruct (evict_tool_results (st_messages s) (st_projection s) (watermark f) [] (trace_of (write notes) false []) StepCompleted)
      as [[msgs' proj'] oc] eqn:Ee.
    destruct (cascade f) as [deleted note] eqn:Ec. right. exists f, rest, notes, [], false, oc. simpl.
    split_and!; [done..|by rewrite Ec|done|done].
Qed.

Lemma begin_step_messages write s args p :
  st_messages (begin_step write s args p).1.1 = st_messages s ∧
  ∀ pre, DeletedSubtree pre ∉ (begin_step write s args p).1.2.
Proof.
  unfold begin_step. destruct (String.eqb _ _); [split; [done|set_solver]|].
  destruct (begin _ _ _) as [stack' [k sq]]. simpl. split; [done|]. intros pre [?|?]%elem_of_cons; [done|set_solver].
Qed.

(** When completing a step records on a stored result that it was
    distilled, the note it names was part of the write the step made, the write
    reported that note stored, and the note holds the step's own account, not
    the placeholder: no row ever points a later turn at a note that was lost or
    withheld. *)
Theorem recorded_evictions_have_a_trace (s : StepState) (call_name : string) (args : Value) (p : TurnProvenance)
    (i : nat) (m m' : Message)
    (Hids : NoDup (map id (st_messages s)))
    (Hm : st_messages s !! i = Some m)
    (Hm' : st_messages (handle_step_control s call_name args p).1.1 !! i = Some m')
    (Hchanged : distilled_into m' ≠ distilled_into m) :
  ∃ write notes written k body,
    pad_write env = Some write ∧ WroteNotes notes ∈ (handle_step_control s call_name args p).1.2 ∧
    write notes = Some written ∧ distilled_into m' = [k] ∧ k ∈ written ∧
    outcome_note k body p ∈ notes ∧
    is_withheld_step_text (step_text_to_record body p (hard_withhold env)).1 = false.
Proof.
  unfold handle_step_control in *. destruct (pad_write env) as [write|] eqn:Ew; [|simpl in Hm'; congruence].
  destruct (String.eqb call_name BEGIN_STEP_TOOL).
  { rewrite (proj1 (begin_step_messages write s args p)) in Hm'. congruence. }
  assert (Hs := complete_step_shape write s args p). destruct (complete_step write s args p) as [[s' effects] ack]. simpl in *.
  destruct Hs as [[-> _]|(f & rest & notes & keys & tr & o & _ & _ & -> & Hev & Htr)]; [congruence|].
  destruct (evict_changes (st_messages s) (st_projection s) (watermark f) keys (trace_of (write notes) tr keys) StepCompleted i m m' Hids Hm)
    as (_ & Ht & Hk); [by rewrite Hev|done|].
  destruct (trace_of_written _ _ _ Ht) as (written & Hw & Htrue & Hall). destruct (Htr Htrue) as (body & n & Hkeys & Hn & -> & Hwh).
  exists write, notes, written, (OUTCOME_KEY_PREFIX +:+ key f), body. rewrite Hkeys in Hk, Hall.
  split_and!; [done|set_solver|done|done|apply Hall; set_solver|done|done].
Qed.

(** Completing a step deletes notes of subagents only when the step minted
    children, only under that step's own path, never at the root of the session
    and never while a subagent below it is still running. *)
Theorem cascade_spares_running_branches (s : StepState) (call_name : string) (args : Value) (p : TurnProvenance) (prefix : string)
    (Hdel : DeletedSubtree prefix ∈ (handle_step_control s call_name args p).1.2) :
  prefix ≠ EmptyString ∧
  ∃ f rest, frames (st_stack s) = f :: rest ∧ child_counter f ≠ 0%N ∧
    frames (st_stack (handle_step_control s call_name args p).1.1) = rest ∧
    prefix = owner_subtree_prefix (default EmptyString (owner_todo env)) (key f) ∧
    (∀ probe, descendants_running env = Some probe → probe prefix = false).
Proof.
  unfold handle_step_control in *. destruct (pad_write env) as [write|] eqn:Ew; [|simpl in Hdel; set_solver].
  destruct (String.eqb call_name BEGIN_STEP_TOOL).
  { by destruct (begin_step_messages write s args p) as [_ Hb]; apply Hb in Hdel. }
  assert (Hs := complete_step_shape write s args p). destruct (complete_step write s args p) as [[s' effects] ack]. simpl in *.
  destruct Hs as [[_ Hno]|(f & rest & notes & keys & tr & o & Hf & Hrest & -> & _ & _)]; [by destruct (Hno prefix)|].
  apply elem_of_cons in Hdel as [|Hdel]; [done|]. unfold cascade in Hdel.
  destruct (child_counter f =? 0)%N eqn:Ec; [simpl in Hdel; set_solver|]. apply N.eqb_neq in Ec.
  set (pre := owner_subtree_prefix _ _) in *. destruct (String.eqb_spec pre EmptyString) as [|Hpre]; [simpl in Hdel; set_solver|].
  destruct (match descendants_running env with Some probe => _ | None => false end) eqn:Er; [simpl in Hdel; set_solver|].
  destruct (delete_subtree env); [|simpl in Hdel; set_solver]. simpl in Hdel. apply list_elem_of_singleton in Hdel as [= ->].
  split; [done|]. exists f, rest. split_and!; [done..|]. intros probe Hp. by rewrite Hp in Er.
Qed.

End step_control.

(** ** Witnesses *)

Definition demo_env : StepEnv :=
  {| pad_write := Some (λ notes, Some (map note_key notes)); hard_withhold := false; fresh_id := "1"; owner_todo := None;
     descendants_running := Some (λ _, false); delete_subtree := Some (λ _, true); promotion_offer := None |}.

Definition demo_state : StepState :=
  {| st_messages := step_messages; st_projection := ∅;
     st_stack := {| frames := [{| key := "1"; goal := "deploy"; watermark := 1; child_counter := 2; sequence := 1 |}]; root_counter := 1 |};
     st_offer_made := false |}.

Definition demo_args : Value := Object [("outcome", Str "deployed")].

Lemma recorded_evictions_have_a_trace_witness :
  ∃ notes, WroteNotes notes ∈ (@handle_step_control recall_json demo_env demo_state "complete_step" demo_args TurnProvenance_new).1.2 ∧
    "outcome:1" ∈ map note_key notes.
Proof.
  set (m := tool_result "m2" "c1" (long_text 600)).
  destruct (@recorded_evictions_have_a_trace recall_json demo_env demo_state "complete_step" demo_args TurnProvenance_new 2 m
    (with_distilled_into m ["outcome:1"])) as (write & notes & written & k & body & Hw & Hn & Hwr & Hk & Hin & _).
  - exact step_messages_ids.
  - done.
  - by vm_compute.
  - done.
  - exists notes. split; [done|]. injection Hw as <-. injection Hwr as <-. injection Hk as ->. done.
Defined.

Lemma cascade_spares_running_branches_witness :
  ∃ f rest, frames (st_stack demo_state) = f :: rest ∧ key f = "1".
Proof.
  destruct (@cascade_spares_running_branches recall_json demo_env demo_state "complete_step" demo_args TurnProvenance_new "1")
    as (_ & f & rest & Hf & _).
  - vm_compute. right. left.
  - exists f, rest. split; [done|]. by injection Hf as <- _.
Defined.
