(* ===== verification/ToolDispatch.v ===== *)
(** * One tool call of a turn

    Models the body of the tool loop in [run_turn] of
    [crates/core/src/service.rs]: what the loop does with each call a model
    response carries, from parsing its arguments to the row its result becomes.
    It composes [ToolRouting], [ToolProvenance], [NegativeMemory], [ToolRepeat],
    [ToolAdvertising], [StepControl], [Transcript] and [Context].

    What the loop calls outside the turn is the record [TurnPorts] over an
    arbitrary world: every call may change the world, and the world decides the
    answers, so the theorems hold for every environment, also one that cancels
    between two steps.  What the turn does that others see is appended to a
    trace.  Telemetry, logging and the keepalive lines are left out. *)

From S2P Require Import Prelude Json DisplayLine TaskStore Messages Context ToolRepeat ToolProvenance Transcript Eviction Planning.
From S2P Require Import StepControl ToolRouting ToolAdvertising NegativeMemory TurnRecord ToolEvents.

#[local] Open Scope nat_scope.

Notation Def := (ToolRouting.ToolDefinition (Json := Value)).
Notation Namespace := (ToolRouting.ToolNamespace (Json := Value)).
Notation Routed := (ToolRouting.RoutedTool (Json := Value)).
Notation Router := (ToolRouting.ToolRouter (Json := Value)).
Notation Ledger := (ToolAdvertising.ActivationLedger (Json := Value)).

Definition PROMOTE_PLAN_TOOL : string := "promote_plan_to_skill".

Record SubagentScope := {
  session_conversation_id : string;
  scope_owner_todo : string;
  scope_visible_before : string;
  scope_ancestors : list string
}.

(** What is fixed for the turn. *)
Record TurnConfig := {
  tc_conversation : string;
  tc_turn_start : nat;
  tc_hosted : bool;
  tc_namespaces : list Namespace;
  tc_core_tools : list Def;
  tc_client_port : bool;
  tc_client_defs : list Def;
  tc_allowlist : option (list string);
  tc_interactivity : TurnInteractivity;
  tc_hard_withhold : bool;
  tc_max_inline : nat;
  tc_max_stored : nat;
  tc_pad_wired : bool;
  tc_skills_wired : bool;
  tc_owner_todo : option string;
  tc_ancestors : option (list string);
  tc_pad_scope : option string;
  tc_burns : list NegativeMemory;
  tc_situation : option (gmap SituationField string);
  tc_burn_writer : bool;
  tc_burn_corrector : bool
}.

(** What others see of the turn. *)
Inductive Effect :=
  | Status (line : string)
  | Started (name args : string)
  | Finished (name : string) (ok : bool) (output : string)
  | RanServer (name : string) (args : Value) (scope : option SubagentScope)
  | RanClient (call name : string) (args : Value)
  | PadDid (e : PadEffect)
  | CapabilityClosed (tiers : list ToolTier) (message : string)
  | BurnSent (o : BurnObservation)
  | BurnsCorrected (ids : list string) (note : string)
  | Saved (c : Conversation)
  | Asked (tools : list Def).

(** What the turn calls. *)
Record TurnPorts (W : Type) := {
  p_cancelled : W → bool * W;
  p_clock : W → Z * W;
  p_mint : W → string * W;
  p_run_tool : W → TranscriptView → option SubagentScope → string → Value → result string CoreError * W;
  p_run_client : W → string → string → Value → result string CoreError * W;
  p_tool_definition : W → string → option Def * W;
  p_step_env : W → StepEnv * W;
  p_promote_plan : W → list Message → Value → TurnProvenance → string * W;
  p_capability_taken : W → bool * W;
  p_take_written : W → string → option string * W;
  p_json_error : string → string;
  p_debug : string → string;
  p_sha256 : string → string
}.
Arguments p_cancelled {W}.
Arguments p_clock {W}.
Arguments p_mint {W}.
Arguments p_run_tool {W}.
Arguments p_run_client {W}.
Arguments p_tool_definition {W}.
Arguments p_step_env {W}.
Arguments p_promote_plan {W}.
Arguments p_capability_taken {W}.
Arguments p_take_written {W}.
Arguments p_json_error {W}.
Arguments p_debug {W}.
Arguments p_sha256 {W}.

(** The locals of the turn. *)
Record TurnState (W : Type) := mkTurn {
  t_world : W;
  t_trace : list Effect;
  t_messages : list Message;
  t_projection : gmap string string;
  t_view : TranscriptView;
  t_repeats : RepeatLedger;
  t_activations : Ledger;
  t_provenance : TurnProvenance;
  t_stack : StepStack;
  t_offer_made : bool;
  t_run : option (string * Z);
  t_floor : NarrationFloor;
  t_met : gset string;
  t_met_round : list string
}.
Arguments mkTurn {W}.
Arguments t_world {W}.
Arguments t_trace {W}.
Arguments t_messages {W}.
Arguments t_projection {W}.
Arguments t_view {W}.
Arguments t_repeats {W}.
Arguments t_activations {W}.
Arguments t_provenance {W}.
Arguments t_stack {W}.
Arguments t_offer_made {W}.
Arguments t_run {W}.
Arguments t_floor {W}.
Arguments t_met {W}.
Arguments t_met_round {W}.

Section dispatch.
Context `{!SerdeJson} {W : Type} (ports : TurnPorts W) (cfg : TurnConfig).

Notation State := (TurnState W).

Definition set_world (w : W) (s : State) : State :=
  mkTurn w (t_trace s) (t_messages s) (t_projection s) (t_view s) (t_repeats s) (t_activations s) (t_provenance s) (t_stack s)
    (t_offer_made s) (t_run s) (t_floor s) (t_met s) (t_met_round s).
Definition emit (es : list Effect) (s : State) : State :=
  mkTurn (t_world s) (t_trace s ++ es) (t_messages s) (t_projection s) (t_view s) (t_repeats s) (t_activations s) (t_provenance s)
    (t_stack s) (t_offer_made s) (t_run s) (t_floor s) (t_met s) (t_met_round s).
Definition set_messages (ms : list Message) (s : State) : State :=
  mkTurn (t_world s) (t_trace s) ms (t_projection s) (t_view s) (t_repeats s) (t_activations s) (t_provenance s) (t_stack s)
    (t_offer_made s) (t_run s) (t_floor s) (t_met s) (t_met_round s).
Definition set_projection (p : gmap string string) (s : State) : State :=
  mkTurn (t_world s) (t_trace s) (t_messages s) p (t_view s) (t_repeats s) (t_activations s) (t_provenance s) (t_stack s)
    (t_offer_made s) (t_run s) (t_floor s) (t_met s) (t_met_round s).
Definition set_view (v : TranscriptView) (s : State) : State :=
  mkTurn (t_world s) (t_trace s) (t_messages s) (t_projection s) v (t_repeats s) (t_activations s) (t_provenance s) (t_stack s)
    (t_offer_made s) (t_run s) (t_floor s) (t_met s) (t_met_round s).
Definition set_repeats (r : RepeatLedger) (s : State) : State :=
  mkTurn (t_world s) (t_trace s) (t_messages s) (t_projection s) (t_view s) r (t_activations s) (t_provenance s) (t_stack s)
    (t_offer_made s) (t_run s) (t_floor s) (t_met s) (t_met_round s).
Definition set_activations (a : Ledger) (s : State) : State :=
  mkTurn (t_world s) (t_trace s) (t_messages s) (t_projection s) (t_view s) (t_repeats s) a (t_provenance s) (t_stack s)
    (t_offer_made s) (t_run s) (t_floor s) (t_met s) (t_met_round s).
Definition set_provenance (p : TurnProvenance) (s : State) : State :=
  mkTurn (t_world s) (t_trace s) (t_messages s) (t_projection s) (t_view s) (t_repeats s) (t_activations s) p (t_stack s)
    (t_offer_made s) (t_run s) (t_floor s) (t_met s) (t_met_round s).
Definition set_stack (k : StepStack) (offer : bool) (s : State) : State :=
  mkTurn (t_world s) (t_trace s) (t_messages s) (t_projection s) (t_view s) (t_repeats s) (t_activations s) (t_provenance s) k
    offer (t_run s) (t_floor s) (t_met s) (t_met_round s).
Definition set_run (r : option (string * Z)) (s : State) : State :=
  mkTurn (t_world s) (t_trace s) (t_messages s) (t_projection s) (t_view s) (t_repeats s) (t_activations s) (t_provenance s) (t_stack s)
    (t_offer_made s) r (t_floor s) (t_met s) (t_met_round s).
Definition set_floor (f : NarrationFloor) (s : State) : State :=
  mkTurn (t_world s) (t_trace s) (t_messages s) (t_projection s) (t_view s) (t_repeats s) (t_activations s) (t_provenance s) (t_stack s)
    (t_offer_made s) (t_run s) f (t_met s) (t_met_round s).
Definition set_met (m : gset string) (r : list string) (s : State) : State :=
  mkTurn (t_world s) (t_trace s) (t_messages s) (t_projection s) (t_view s) (t_repeats s) (t_activations s) (t_provenance s) (t_stack s)
    (t_offer_made s) (t_run s) (t_floor s) m r.

(** Ask the world. *)
Definition ask {A} (port : W → A * W) (s : State) : A * State := let (a, w) := port (t_world s) in (a, set_world w s).

(** ** Answers that are not runs *)

(** [conv.messages.push(Message::tool_result(..))]. *)
Definition push_result (call text : string) (s : State) : State :=
  let (i, s) := ask (p_mint ports) s in set_messages (t_messages s ++ [tool_result i call text]) s.

(** Both halves of a call's entry in the activity feed. *)
Definition started (call : ToolCall) (args : Value) : Effect :=
  Started (summarize_tool_name (call_name call)) (summarize_tool_value (p_debug ports) args).
Definition finished (call : ToolCall) (ok : bool) (output : string) : Effect := Finished (summarize_tool_name (call_name call)) ok output.
Definition feed (call : ToolCall) (args : Value) (ok : bool) (output : string) (s : State) : State :=
  emit [started call args; finished call ok output] s.

(** The model's arguments: the value, or what the model is told. *)
Definition parse_arguments (call : ToolCall) : Value + string :=
  if String.eqb (trim (call_arguments call)) EmptyString then inl (Object [])
  else match from_str (call_arguments call) with
       | Some v => inl v
       | None => inr ("Error: the arguments for this tool call were not valid JSON (" +:+ p_json_error ports (call_arguments call)
                      +:+ "). Emit valid JSON and call the tool again.")
       end.

Definition is_core_loop (e : option Routed) : bool :=
  match e with Some e => bool_decide (surface e = CoreLoop) | None => false end.

Definition called_name (routed : option Routed) (call : ToolCall) : string :=
  match routed with Some e => provider_name e | None => strip_location (call_name call) end.

(** [handle_promote_plan] and [handle_step_control] with the narration of a
    declared step. *)
Definition turn_messages (ms : list Message) (turn_start : nat) : list Message := drop turn_start ms.

Definition promote (args : Value) (s : State) : string * State :=
  ask (λ w, p_promote_plan ports w (turn_messages (t_messages s) (tc_turn_start cfg)) args (t_provenance s)) s.

Definition narrate_goal (name : string) (args : Value) (s : State) : State :=
  if String.eqb name BEGIN_STEP_TOOL then
    match arg_str "goal" args with
    | Some goal =>
        if String.eqb (trim goal) EmptyString then s
        else let (now, s) := ask (p_clock ports) s in set_floor (narrated (t_floor s) now) (emit [Status (trim goal)] s)
    | None => s
    end
  else s.

Definition step_control (name : string) (args : Value) (s : State) : string * State :=
  let s := narrate_goal name args s in
  let (env, s) := ask (p_step_env ports) s in
  let '(st, effects, ack) :=
    handle_step_control env
      {| st_messages := t_messages s; st_projection := t_projection s; st_stack := t_stack s; st_offer_made := t_offer_made s |}
      name args (t_provenance s) in
  (to_string ack,
   set_stack (st_stack st) (st_offer_made st)
     (set_projection (st_projection st) (set_messages (st_messages st) (emit (map PadDid effects) s)))).

(** ** The guards, in the loop's order *)

(** A subagent's scope is minted before any guard can refuse the call. *)
Definition mint_scope (name : string) (s : State) : option SubagentScope * State :=
  if tc_pad_wired cfg && String.eqb name SPAWN_SUBAGENT_TOOL then
    let base := default EmptyString (tc_owner_todo cfg) in
    let (stack, minted) := fan_out (t_stack s) 1 in
    let fanned := match minted with (k, _) :: _ => k | [] => EmptyString end in
    let ancestors := default [EmptyString] (tc_ancestors cfg) in
    let (i, s) := ask (p_mint ports) (set_stack stack (t_offer_made s) s) in
    (Some {| session_conversation_id := default (tc_conversation cfg) (tc_pad_scope cfg);
             scope_owner_todo := owner_subtree_prefix base fanned;
             scope_visible_before := i;
             scope_ancestors := if bool_decide (base ∈ ancestors) then ancestors else ancestors ++ [base] |}, s)
  else (None, s).

Definition allowlist_refusal (call : ToolCall) : string :=
  "Error: the tool '" +:+ call_name call +:+ "' is not permitted for this subagent — it is not on the configured tool allowlist. Choose a tool from your available set, or answer without it.".

Definition permitted (name : string) : bool :=
  match tc_allowlist cfg with Some allowed => bool_decide (name ∈ allowed) | None => true end.

Definition guard_allowlist (call : ToolCall) (args : Value) (name : string) (s : State) : option string * State :=
  if permitted name then (None, s) else (Some (allowlist_refusal call), feed call args false "rejected: not on allowlist" s).

Definition guard_gate (call : ToolCall) (args : Value) (name : string) (s : State) : option string * State :=
  match check (t_provenance s) name (tc_interactivity cfg) with
  | Allow => (None, s)
  | Refuse refusal => (Some refusal, feed call args false "refused: this turn ingested external content" s)
  end.

Definition unit_separator : string := bytes [31].

Definition burn_key (p : PendingAction) : string := pa_action p +:+ unit_separator +:+ pa_fingerprint p.

Definition pending_action (name : string) (args : Value) : option PendingAction :=
  observe (p_sha256 ports) name args <$> tc_situation cfg.

Definition guard_burns (call : ToolCall) (args : Value) (pending : option PendingAction) (s : State) : option string * State :=
  match pending with
  | None => (None, s)
  | Some p =>
      if bool_decide (tc_burns cfg = []) || bool_decide (burn_key p ∈ t_met s) then (None, s)
      else
        let (now, s) := ask (p_clock ports) s in
        let fired := burns_that_fire (tc_burns cfg) p now in
        let (now, s) := ask (p_clock ports) s in
        match render_warning fired now (bool_decide (policy (t_provenance s) = Aggressive)) with
        | None => (None, s)
        | Some warning =>
            let notice := default "held: this act went badly before" (render_hold_notice fired) in
            (Some warning,
             feed call args false (summarize_tool_text notice) (set_met (t_met s) (t_met_round s ++ [burn_key p]) s))
        end
  end.

Definition record_activation (c : ToolConnection) (d : Def) (round : nat) (s : State) : State :=
  set_activations (activate (t_activations s) c d round).1 s.

Definition guard_named (call : ToolCall) (routed : option Routed) (args : Value) (round : nat) (s : State) : option string * State :=
  match routed with
  | Some e =>
      if bool_decide (surface e = Named) then
        let d := advertised e in
        let s := match ToolRouting.connection e with
                 | Some c => record_activation c
                     {| ToolRouting.name := provider_name e; description := description d; parameters := parameters d |} round s
                 | None => s
                 end in
        match missing_required_argument (parameters d) args with
        | Some missing =>
            (Some ("Error: this call is missing the required argument '" +:+ missing
                   +:+ "'. You had this tool's name but not its arguments. Its schema is " +:+ to_string (parameters d)
                   +:+ ". Call it again with arguments that match."),
             feed call args false "answered with the tool's schema" s)
        | None => (None, s)
        end
      else (None, s)
  | None => (None, s)
  end.

Definition repeat_key (routed : option Routed) (name : string) (args : Value) : RepeatKey :=
  RepeatKey_new (p_sha256 ports) Value to_string (ToolRouting.label <$> (e ← routed; ToolRouting.connection e)) name args.

Definition guard_repeat (call : ToolCall) (args : Value) (key : RepeatKey) (name : string) (s : State) : option string * State :=
  let (ledger, verdict) := observe_dispatch (t_repeats s) key (may_suppress name) in
  let s := set_repeats ledger s in
  match verdict with
  | Suppress mid n => (Some (suppressed_notice mid n), feed call args true "answered from the transcript" s)
  | Execute => (None, s)
  end.

(** The guards one after the other: the first that answers ends the call, and
    its answer is the call's result. *)
Definition and_then (first : option string * State) (next : State → option string * State) : option string * State :=
  match first with
  | (Some answer, s) => (Some answer, s)
  | (None, s) => next s
  end.

Definition mark (name : string) (round : nat) (s : State) : State := set_activations (mark_used (t_activations s) name round) s.

Definition guards (routed : option Routed) (call : ToolCall) (args : Value) (name : string) (round : nat) (s : State)
    : option string * State :=
  and_then (guard_allowlist call args name s) (λ s,
  and_then (guard_gate call args name s) (λ s,
  and_then (guard_burns call args (pending_action name args) s) (λ s,
  and_then (guard_named call routed args round s) (λ s,
  guard_repeat call args (repeat_key routed name args) name (mark name round s))))).

(** ** Running *)

Definition runs_on_client (routed : option Routed) : bool :=
  tc_client_port cfg && match routed with Some e => is_client e | None => false end.

Definition error_result (e : CoreError) : string := "Error: " +:+ error_to_string e.

(** A tool of the connected client; [None] is a cancellation, which ends the
    turn. *)
Definition run_client (call : ToolCall) (name : string) (args : Value) (s : State) : option (string * bool) * State :=
  let (r, s) := ask (λ w, p_run_client ports w (call_id call) name args) (emit [RanClient (call_id call) name args] s) in
  match r with
  | Ok output => (Some (output, true), s)
  | Err ErrCancelled => (None, emit [finished call false "cancelled"] s)
  | Err e => (Some (error_result e, false), s)
  end.

(** A tool of the daemon, which may read the transcript so far. *)
Definition run_server (call : ToolCall) (scope : option SubagentScope) (name : string) (args : Value) (s : State)
    : option (string * bool) * State :=
  let s := set_view (Transcript.absorb (t_view s) (t_messages s)) s in
  let (r, s) := ask (λ w, p_run_tool ports w (t_view s) scope name args) (emit [RanServer name args scope] s) in
  let ok := match r with Ok _ => true | Err _ => false end in
  let (run, line) := advance_tool_completion_status (t_run s) (call_name call) ok in
  (Some (match r with Ok output => output | Err e => error_result e end, ok), emit [Status line] (set_run run s)).

Definition run_call (routed : option Routed) (call : ToolCall) (scope : option SubagentScope) (name : string) (args : Value) (s : State)
    : option (string * bool) * State :=
  if runs_on_client routed then run_client call name args s else run_server call scope name args s.

(** ** What a result becomes *)

Definition stored_result (result : string) (ok : bool) : string :=
  let stored := default result (cap_stored_tool_result result (tc_max_stored cfg)) in
  if ok && String.eqb (trim stored) EmptyString then EMPTY_TOOL_RESULT_NOTICE else stored.

Definition activation_connection (n : string) : ToolConnection :=
  match List.find (λ ns, existsb (λ t, String.eqb (ToolRouting.name t) n) (ns_tools ns)) (tc_namespaces cfg) with
  | Some ns => daemon_server (ns_name ns)
  | None => daemon_registry
  end.

Definition is_core (n : string) : bool := existsb (λ t, String.eqb (ToolRouting.name t) n) (tc_core_tools cfg).

(** One hit of a tool search. *)
Definition activate_hit (router : Router) (round : nat) (s : State) (hit : Value) : State :=
  match get_str "name" hit with
  | None => s
  | Some n =>
      let n := strip_location n in
      let (found, s) :=
        if bool_decide (get_str "runs_on" hit = Some "device") then
          (pair client_device <$> List.find (λ t, String.eqb (ToolRouting.name t) n) (tc_client_defs cfg), s)
        else if is_core n then (None, s)
        else let (d, s) := ask (λ w, p_tool_definition ports w n) s in
             ((λ d, (activation_connection (ToolRouting.name d), d)) <$> d, s) in
      match found with
      | Some (c, d) => if advertises router c (ToolRouting.name d) then s else record_activation c d round s
      | None => s
      end
  end.

Definition activate_search (router : Router) (deferring : bool) (round : nat) (name result : string) (s : State) : State :=
  if negb deferring && String.eqb name TOOL_SEARCH_TOOL then
    match (v ← from_str result; Json.get "tools" v ≫= as_array) with
    | Some hits => foldl (activate_hit router round) s hits
    | None => s
    end
  else s.

(** The namespace of a deferred tool the daemon ran. *)
Definition activate_namespace (router : Router) (deferring : bool) (routed : option Routed) (round : nat) (name : string) (s : State)
    : State :=
  if deferring && negb (match routed with Some e => is_client e | None => false end) && negb (holds (t_activations s) name)
     && negb (is_core name) then
    match List.find (λ ns, existsb (λ t, String.eqb (ToolRouting.name t) name) (ns_tools ns)) (tc_namespaces cfg) with
    | Some ns =>
        let c := daemon_server (ns_name ns) in
        foldl (λ s t, if negb (is_core (ToolRouting.name t)) && negb (advertises router c (ToolRouting.name t))
                      then record_activation c t round s else s) s (ns_tools ns)
    | None => s
    end
  else s.

(** The result's provenance, and what a turn that just closed its gate says. *)
Definition fold_provenance (call : ToolCall) (stored : string) (s : State) : State :=
  let (p, change) := observe_result (t_provenance s) (call_name call) stored in
  let s := set_provenance p s in
  match change with
  | Unchanged => s
  | JustClosed =>
      if bool_decide (policy p = Lax) then s
      else if bool_decide (gated_tiers (policy p) = []) then emit [Status GATE_OPEN_STATUS] s
      else
        let (taken, s) := ask (p_capability_taken ports) (emit [CapabilityClosed (gated_tiers (policy p)) GATE_CLOSED_STATUS] s) in
        if taken then s else emit [Status GATE_CLOSED_STATUS] s
  end.

Definition extinguish_burns_for (p : PendingAction) (s : State) : State :=
  if negb (tc_burn_corrector cfg) then s
  else
    let (now, s) := ask (p_clock ports) s in
    let (written, s) := ask (λ w, p_take_written ports w (burn_key p)) s in
    let corrected := map nm_id (burns_that_fire (tc_burns cfg) p now) ++ option_list written in
    if bool_decide (corrected = []) then s
    else emit [BurnsCorrected corrected (pa_action p +:+ " succeeded with the same arguments, so this no longer applies.")] s.

Definition record_burn_for (p : PendingAction) (outcome : string) (s : State) : State :=
  if tc_burn_writer cfg
  then emit [BurnSent (burn_observation (tc_hard_withhold cfg) (ingested_external (t_provenance s)) p outcome)] s else s.

(** What the call taught. *)
Definition learn (pending : option PendingAction) (stored : string) (ok : bool) (s : State) : State :=
  match pending with
  | None => s
  | Some p => if ok then extinguish_burns_for p s
              else record_burn_for p stored (set_met (t_met s) (t_met_round s ++ [burn_key p]) s)
  end.

Definition is_store (d : ResultDisposition) : bool := match d with Store => true | SameAs _ => false end.

Definition settle (router : Router) (deferring : bool) (routed : option Routed) (round : nat) (call : ToolCall) (name : string)
    (args : Value) (result : string) (ok : bool) (s : State) : State :=
  let key := repeat_key routed name args in
  let stored := stored_result result ok in
  let d := ResultDigest_of (p_sha256 ports) stored in
  let bytes := Z.of_nat (String.length stored) in
  let disp := ToolRepeat.disposition (t_repeats s) key d bytes in
  let content := match disp with SameAs mid => same_bytes_notice mid | Store => stored end in
  let (i, s) := ask (p_mint ports) s in
  let row := tool_result i (call_id call) content in
  let head := head_for_appended_row (is_store disp) content i (tc_max_inline cfg) in
  let s := emit [finished call ok (summarize_tool_text (default content head))] s in
  let s := activate_search router deferring round name result s in
  let s := activate_namespace router deferring routed round name s in
  let s := fold_provenance call stored s in
  let s := learn (pending_action name args) stored ok s in
  let s := set_repeats (ToolRepeat.record (t_repeats s) key i d bytes) s in
  let s := match head with Some h => set_projection (replace (t_projection s) row h) s | None => s end in
  set_messages (t_messages s ++ [row]) s.

(** ** One call, and the calls of a response *)

Inductive Outcome := Continue | Abandon.

Definition run_and_settle (router : Router) (deferring : bool) (routed : option Routed) (round : nat) (call : ToolCall)
    (scope : option SubagentScope) (name : string) (args : Value) (s : State) : Outcome * State :=
  let (r, s) := run_call routed call scope name args (emit [started call args] s) in
  match r with
  | None => (Abandon, s)
  | Some (result, ok) => (Continue, settle router deferring routed round call name args result ok s)
  end.

(** A call past the checkpoint. *)
Definition serve (router : Router) (deferring : bool) (round : nat) (call : ToolCall) (s : State) : Outcome * State :=
  match parse_arguments call with
  | inr complaint => (Continue, push_result (call_id call) complaint s)
  | inl args =>
      let routed := resolve router (call_name call) in
      let name := called_name routed call in
      if is_core_loop routed && String.eqb name PROMOTE_PLAN_TOOL then
        let (ack, s) := promote args s in (Continue, push_result (call_id call) ack s)
      else if is_core_loop routed && (String.eqb name BEGIN_STEP_TOOL || String.eqb name COMPLETE_STEP_TOOL) then
        let (ack, s) := step_control name args s in (Continue, push_result (call_id call) ack s)
      else
        let (scope, s) := mint_scope name (set_floor (tool_dispatched (t_floor s)) s) in
        match guards routed call args name round s with
        | (Some answer, s) => (Continue, push_result (call_id call) answer s)
        | (None, s) => run_and_settle router deferring routed round call scope name args s
        end
  end.

Definition dispatch_call (router : Router) (deferring : bool) (round : nat) (call : ToolCall) (s : State) : Outcome * State :=
  let (cancelled, s) := ask (p_cancelled ports) s in
  if cancelled then (Abandon, s) else serve router deferring round call s.

Fixpoint dispatch_calls (router : Router) (deferring : bool) (round : nat) (calls : list ToolCall) (s : State) : Outcome * State :=
  match calls with
  | [] => (Continue, s)
  | call :: rest =>
      match dispatch_call router deferring round call s with
      | (Continue, s) => dispatch_calls router deferring round rest s
      | (Abandon, s) => (Abandon, s)
      end
  end.

(** ** What a step of the turn may change *)

(** A row without the note keys a completed step may put on it. *)
Definition unmarked (m : Message) : Message := with_distilled_into m [].

Definition is_feed (e : Effect) : bool := match e with Started _ _ | Finished _ _ _ => true | _ => false end.
Definition is_run (e : Effect) : bool := match e with RanServer _ _ _ | RanClient _ _ _ => true | _ => false end.
(** What only the turn itself does: storing the conversation, asking the model. *)
Definition is_outer (e : Effect) : bool := match e with Saved _ | Asked _ => true | _ => false end.

(** From [s] to [s']: the calls [ids] got a result row each, in order, behind
    rows that are what they were; [fs] went to the activity feed, [rs] ran; the
    policy is the same and an outside read is not forgotten. *)
Record extends (s s' : State) (ids : list string) (fs rs : list Effect) : Prop := {
  ext_rows : ∃ rows, map unmarked (t_messages s') = map unmarked (t_messages s) ++ rows ∧
    map tool_call_id rows = map Some ids ∧ Forall (λ m, role m = Tool) rows;
  ext_trace : ∃ es, t_trace s' = t_trace s ++ es ∧ filter is_feed es = fs ∧ filter is_run es = rs ∧ filter is_outer es = [];
  ext_policy : policy (t_provenance s') = policy (t_provenance s);
  ext_external : ingested_external (t_provenance s) = true → ingested_external (t_provenance s') = true
}.

(** Nothing others could tell. *)
Definition quiet (s s' : State) : Prop := extends s s' [] [] [] ∧ t_provenance s' = t_provenance s.

Lemma extends_trans s1 s2 s3 i1 i2 f1 f2 r1 r2 :
  extends s1 s2 i1 f1 r1 → extends s2 s3 i2 f2 r2 → extends s1 s3 (i1 ++ i2) (f1 ++ f2) (r1 ++ r2).
Proof.
  intros [(ra & Ha & Hia & Hta) (ea & Hea & Hfa & Hra & Hoa) Hpa Hxa] [(rb & Hb & Hib & Htb) (eb & Heb & Hfb & Hrb & Hob) Hpb Hxb]. split.
  - exists (ra ++ rb). split; [by rewrite Hb, Ha, <- app_assoc|]. split; [by rewrite !map_app, Hia, Hib|]. by apply Forall_app.
  - exists (ea ++ eb). rewrite Heb, Hea, <- app_assoc. rewrite !filter_app, Hfa, Hfb, Hra, Hrb, Hoa, Hob. done.
  - congruence.
  - auto.
Qed.

Lemma same_quiet s s' :
  map unmarked (t_messages s') = map unmarked (t_messages s) → t_trace s' = t_trace s → t_provenance s' = t_provenance s → quiet s s'.
Proof.
  intros Hm Ht Hp. split; [|done]. split; rewrite ?Hp; [..|done|done].
  - exists []. by rewrite app_nil_r.
  - exists []. by rewrite app_nil_r.
Qed.

Lemma quiet_refl s : quiet s s.
Proof. by apply same_quiet. Qed.

Lemma quiet_trans s1 s2 s3 : quiet s1 s2 → quiet s2 s3 → quiet s1 s3.
Proof. intros [H1 P1] [H2 P2]. split; [apply (extends_trans _ _ _ _ _ _ _ _ _ H1 H2)|congruence]. Qed.

#[local] Instance quiet_preorder : PreOrder quiet.
Proof. split; [exact quiet_refl|exact quiet_trans]. Qed.

Lemma quiet_then s1 s2 s3 i f r : quiet s1 s2 → extends s2 s3 i f r → extends s1 s3 i f r.
Proof. intros [H1 _] H2. apply (extends_trans _ _ _ _ _ _ _ _ _ H1 H2). Qed.

Lemma then_quiet s1 s2 s3 i f r : extends s1 s2 i f r → quiet s2 s3 → extends s1 s3 i f r.
Proof. intros H1 [H2 _]. pose proof (extends_trans _ _ _ _ _ _ _ _ _ H1 H2) as Hx. by rewrite !app_nil_r in Hx. Qed.

Lemma emit_extends es s : filter is_outer es = [] → extends s (emit es s) [] (filter is_feed es) (filter is_run es).
Proof. intros Ho. split; [exists []; by rewrite app_nil_r|by exists es|done|done]. Qed.

Lemma emit_quiet es s : filter is_feed es = [] → filter is_run es = [] → filter is_outer es = [] → quiet s (emit es s).
Proof. intros Hf Hr Ho. split; [|done]. pose proof (emit_extends es s Ho) as Hx. by rewrite Hf, Hr in Hx. Qed.

Lemma ask_quiet {A} (port : W → A * W) s : quiet s (ask port s).2.
Proof. unfold ask. destruct (port (t_world s)). by apply same_quiet. Qed.

Lemma push_extends call text s : extends s (push_result call text s) [call] [] [].
Proof.
  unfold push_result, ask. destruct (p_mint ports (t_world s)) as [i w]. split; [..|done|done].
  - exists [unmarked (tool_result i call text)]. simpl. rewrite map_app. repeat constructor.
  - exists []. by rewrite app_nil_r.
Qed.

(** *** Planning *)

Lemma evict_keeps_rows msgs p from keys trace reason :
  map unmarked (evict_tool_results msgs p from keys trace reason).1.1 = map unmarked msgs.
Proof.
  unfold evict_tool_results. set (f := Nat.min _ _). set (names := tool_names_by_call_id msgs).
  assert (Hloop : ∀ l p o, map unmarked (evict_loop names keys trace reason l p o).1.1 = map unmarked l).
  { induction l as [|m l IH]; intros p' o; [done|]. cbn [evict_loop]. rewrite evict_one_spec. 
    destruct (evict_one names keys trace reason m p' o) as [[m' p1] o1]. cbn [snd].
    set (p2 := match fate _ _ _ _ _ _ with Skipped => _ | _ => _ end). specialize (IH p2 o1).
    destruct (evict_loop names keys trace reason l p2 o1) as [[l' p3] o2]. simpl in *. rewrite IH. f_equal.
    by rewrite (marked_same_row names keys trace reason (projected_content p' m) m). }
  specialize (Hloop (drop f msgs) p EvictionOutcome_default).
  destruct (evict_loop _ _ _ _ _ _ _) as [[l' p'] o]. simpl in *. by rewrite map_app, Hloop, <- map_app, take_drop.
Qed.

Lemma step_control_rows env st name args p :
  map unmarked (st_messages (handle_step_control env st name args p).1.1) = map unmarked (st_messages st).
Proof.
  unfold handle_step_control. destruct (pad_write env) as [write|]; [|done].
  destruct (String.eqb _ _); [by rewrite (proj1 (begin_step_messages env write st args p))|].
  pose proof (complete_step_shape env write st args p) as Hs. destruct (complete_step _ _ _ _ _) as [[st' es] ack]. simpl.
  destruct Hs as [[-> _]|(f & rest & notes & keys & tr & o & _ & _ & _ & He & _)]; [done|].
  pose proof (evict_keeps_rows (st_messages st) (st_projection st) (watermark f) keys (trace_of (write notes) tr keys) StepCompleted) as Hr.
  by rewrite He in Hr.
Qed.

Lemma narrate_quiet name args s : quiet s (narrate_goal name args s).
Proof.
  unfold narrate_goal. destruct (String.eqb _ _); [|done]. destruct (arg_str "goal" args) as [g|]; [|done].
  destruct (String.eqb _ _); [done|]. pose proof (ask_quiet (p_clock ports) s) as Hq.
  destruct (ask _ s) as [now s']. simpl in Hq. rewrite Hq. etrans; [apply (emit_quiet [Status (trim g)]); done|]. by apply same_quiet.
Qed.

Lemma step_control_quiet name args s : quiet s (step_control name args s).2.
Proof.
  unfold step_control. transitivity (narrate_goal name args s); [apply narrate_quiet|]. generalize (narrate_goal name args s) as s0.
  intros s0. pose proof (ask_quiet (p_step_env ports) s0) as Hq. destruct (ask _ s0) as [env s1]. simpl in Hq. rewrite Hq. clear s0 Hq.
  set (st := {| st_messages := _ |}). pose proof (step_control_rows env st name args (t_provenance s1)) as Hr.
  destruct (handle_step_control _ _ _ _ _) as [[st' es] ack]. simpl in *.
  assert (He : filter is_feed (map PadDid es) = [] ∧ filter is_run (map PadDid es) = [] ∧ filter is_outer (map PadDid es) = []).
  { split; [|split]; apply filter_none; intros e (x & -> & _)%list_elem_of_fmap; by intros []. }
  etrans; [apply (emit_quiet (map PadDid es)); apply He|]. by apply same_quiet.
Qed.

(** *** The guards *)

Lemma mint_scope_quiet name s : quiet s (mint_scope name s).2.
Proof.
  unfold mint_scope. destruct (_ && _); [|done]. destruct (Planning.fan_out _ _) as [stack minted].
  set (s1 := set_stack _ _ s). transitivity s1; [by apply same_quiet|]. pose proof (ask_quiet (p_mint ports) s1) as Hq.
  by destruct (ask (p_mint ports) s1) as [i s'].
Qed.

Definition fed_pair (call : ToolCall) (args : Value) (fs : list Effect) : Prop := ∃ ok o, fs = [started call args; finished call ok o].

(** A guard says nothing, or closes a pair in the feed. *)
Definition guarded (call : ToolCall) (args : Value) (s : State) (r : option string * State) : Prop :=
  match r.1 with
  | None => quiet s r.2
  | Some _ => ∃ fs, fed_pair call args fs ∧ extends s r.2 [] fs []
  end.

Lemma feed_extends call args ok o s : ∃ fs, fed_pair call args fs ∧ extends s (feed call args ok o s) [] fs [].
Proof. eexists. split; [by exists ok, o|]. by apply (emit_extends [started call args; finished call ok o]). Qed.

Lemma guarded_answer call args s s' ok o text : quiet s s' → guarded call args s (Some text, feed call args ok o s').
Proof. intros Hq. destruct (feed_extends call args ok o s') as (fs & Hp & Hx). exists fs. split; [done|]. by eapply quiet_then. Qed.

Lemma guarded_then call args s r next :
  guarded call args s r → (∀ s', quiet s s' → guarded call args s' (next s')) → guarded call args s (and_then r next).
Proof.
  destruct r as [[answer|] s']; unfold guarded; simpl; [done|]. intros Hq Hn. specialize (Hn s' Hq).
  destruct (next s') as [[a|] s2]; simpl in *; [|by etrans]. destruct Hn as (fs & Hp & Hx). exists fs. split; [done|]. by eapply quiet_then.
Qed.

Lemma allowlist_guarded call args name s : guarded call args s (guard_allowlist call args name s).
Proof. unfold guard_allowlist. destruct (permitted name); [apply quiet_refl|by apply guarded_answer]. Qed.

Lemma gate_guarded call args name s : guarded call args s (guard_gate call args name s).
Proof. unfold guard_gate. destruct (check _ _ _); [apply quiet_refl|by apply guarded_answer]. Qed.

Lemma burns_guarded call args pending s : guarded call args s (guard_burns call args pending s).
Proof.
  unfold guard_burns. destruct pending as [p|]; [|apply quiet_refl]. destruct (_ || _); [apply quiet_refl|].
  pose proof (ask_quiet (p_clock ports) s) as H1. destruct (ask _ s) as [now s1].
  pose proof (ask_quiet (p_clock ports) s1) as H2. destruct (ask _ s1) as [now' s2]. simpl in *.
  destruct (render_warning _ _ _); [|exact (quiet_trans _ _ _ H1 H2)].
  apply guarded_answer. etrans; [exact (quiet_trans _ _ _ H1 H2)|]. by apply same_quiet.
Qed.

Lemma named_guarded call routed args round s : guarded call args s (guard_named call routed args round s).
Proof.
  unfold guard_named. destruct routed as [e|]; [|apply quiet_refl]. destruct (bool_decide _); [|apply quiet_refl].
  set (s' := match ToolRouting.connection e with Some _ => _ | None => s end).
  assert (Hq : quiet s s') by (unfold s'; destruct (ToolRouting.connection e); by apply same_quiet).
  destruct (missing_required_argument _ _); [by apply guarded_answer|done].
Qed.

Lemma repeat_guarded call args key name s : guarded call args s (guard_repeat call args key name s).
Proof.
  unfold guard_repeat. destruct (observe_dispatch _ _ _) as [l v].
  assert (Hq : quiet s (set_repeats l s)) by by apply same_quiet. destruct v; [done|by apply guarded_answer].
Qed.

Lemma guards_guarded routed call args name round s : guarded call args s (guards routed call args name round s).
Proof.
  unfold guards. apply guarded_then; [apply allowlist_guarded|]. intros s1 _. apply guarded_then; [apply gate_guarded|]. intros s2 _.
  apply guarded_then; [apply burns_guarded|]. intros s3 _. apply guarded_then; [apply named_guarded|]. intros s4 _.
  assert (Hq : quiet s4 (mark name round s4)) by by apply same_quiet.
  pose proof (repeat_guarded call args (repeat_key routed name args) name (mark name round s4)) as Hg. unfold guarded in *.
  destruct (guard_repeat _ _ _ _ _) as [[a|] s5]; simpl in *; [|by etrans]. destruct Hg as (fs & Hp & Hx). exists fs.
  split; [done|]. by eapply quiet_then.
Qed.

(** *** The run and its row *)

Lemma foldl_quiet {A} (f : State → A → State) (l : list A) s : (∀ s x, quiet s (f s x)) → quiet s (foldl f s l).
Proof. intros Hf. revert s. induction l as [|x l IH]; intros s; [done|]. simpl. etrans; [apply (Hf s x)|apply IH]. Qed.

Lemma record_activation_quiet c d round s : quiet s (record_activation c d round s).
Proof. by apply same_quiet. Qed.

Lemma activate_hit_quiet router round s hit : quiet s (activate_hit router round s hit).
Proof.
  unfold activate_hit. destruct (get_str "name" hit) as [n|]; [|done].
  assert (Hfin : ∀ found s', quiet s s' → quiet s match found with
    | Some (c, d) => if advertises router c (ToolRouting.name d) then s' else record_activation c d round s' | None => s' end).
  { intros [[c d]|] s' Hq; [|done]. destruct (advertises _ _ _); [done|]. etrans; [exact Hq|apply record_activation_quiet]. }
  match goal with |- quiet _ (let (_, _) := ?x in _) => assert (Hq : quiet s x.2); [|destruct x as [found s']; exact (Hfin found s' Hq)] end.
  destruct (bool_decide _); [done|]. destruct (is_core _); [done|].
  pose proof (ask_quiet (λ w, p_tool_definition ports w (strip_location n)) s) as Hq. by destruct (ask _ s) as [d s'].
Qed.

Lemma activations_quiet router deferring routed round name result s :
  quiet s (activate_namespace router deferring routed round name (activate_search router deferring round name result s)).
Proof.
  transitivity (activate_search router deferring round name result s).
  - unfold activate_search. destruct (_ && _); [|done]. case_match; [|done]. apply foldl_quiet, activate_hit_quiet.
  - generalize (activate_search router deferring round name result s) as s'. intros s'. unfold activate_namespace.
    destruct (_ && _); [|done]. case_match; [|done]. apply foldl_quiet. intros s0 d0. destruct (_ && _); [apply record_activation_quiet|done].
Qed.

Lemma fold_provenance_extends call stored s : extends s (fold_provenance call stored s) [] [] [].
Proof.
  unfold fold_provenance. destruct (observe_result _ _ _) as [p change] eqn:Ho.
  assert (Hset : extends s (set_provenance p s) [] [] []).
  { assert (Hp : policy p = policy (t_provenance s) ∧ (ingested_external (t_provenance s) = true → ingested_external p = true)).
    { revert Ho. unfold observe_result. destruct (ingested_external (t_provenance s)) eqn:Hi; [by intros [= <- <-]|].
      destruct (negb _); by intros [= <- <-]. }
    split; [exists []; by rewrite app_nil_r|exists []; by rewrite app_nil_r|apply Hp|apply Hp]. }
  destruct change; [done|]. destruct (bool_decide _); [done|]. destruct (bool_decide _).
  { eapply then_quiet; [done|]. by apply emit_quiet. }
  set (s1 := emit _ _). assert (Hs1 : extends s s1 [] [] []) by (eapply then_quiet; [done|]; by apply emit_quiet).
  pose proof (ask_quiet (p_capability_taken ports) s1) as Hq. destruct (ask _ s1) as [taken s2].
  assert (Hs2 : extends s s2 [] [] []) by (by eapply then_quiet). destruct taken; [done|].
  eapply then_quiet; [done|]. by apply emit_quiet.
Qed.

Lemma learn_quiet pending stored ok s : quiet s (learn pending stored ok s).
Proof.
  unfold learn. destruct pending as [p|]; [|done]. destruct ok.
  - unfold extinguish_burns_for. destruct (negb _); [done|].
    pose proof (ask_quiet (p_clock ports) s) as H1. destruct (ask _ s) as [now s1].
    pose proof (ask_quiet (λ w, p_take_written ports w (burn_key p)) s1) as H2. destruct (ask _ s1) as [written s2]. simpl in *.
    destruct (bool_decide _); [exact (quiet_trans _ _ _ H1 H2)|]. etrans; [exact (quiet_trans _ _ _ H1 H2)|]. by apply emit_quiet.
  - set (s1 := set_met _ _ s). transitivity s1; [by apply same_quiet|]. unfold record_burn_for. destruct (tc_burn_writer cfg); [|done].
    by apply emit_quiet.
Qed.

Lemma settle_extends router deferring routed round call name args result ok s :
  ∃ o, extends s (settle router deferring routed round call name args result ok s) [call_id call] [finished call ok o] [].
Proof.
  unfold settle. set (key := repeat_key _ _ _). set (stored := stored_result _ _). set (disp := ToolRepeat.disposition _ _ _ _).
  set (content := match disp with Store => _ | SameAs _ => _ end). pose proof (ask_quiet (p_mint ports) s) as H1.
  destruct (ask _ s) as [i s1]. simpl in H1. set (head := head_for_appended_row _ _ _ _). set (o := summarize_tool_text _).
  exists o. eapply quiet_then; [exact H1|]. clear H1.
  pose proof (emit_extends [finished call ok o] s1 eq_refl) as Hx. cbn in Hx. set (s2 := emit _ s1) in *.
  eapply then_quiet in Hx; [|apply (activations_quiet router deferring routed round name result)].
  set (s3 := activate_namespace _ _ _ _ _ _) in *.
  pose proof (extends_trans _ _ _ _ _ _ _ _ _ Hx (fold_provenance_extends call stored s3)) as Hy. cbn in Hy.
  set (s4 := fold_provenance _ _ s3) in *. eapply then_quiet in Hy; [|apply (learn_quiet (pending_action name args) stored ok)].
  set (s5 := learn _ _ _ s4) in *.
  set (s6 := match head with Some _ => _ | None => _ end).
  assert (Hq : quiet s5 s6) by (unfold s6; destruct head; by apply same_quiet).
  eapply then_quiet in Hy; [|exact Hq]. 
  assert (Hz : extends s6 (set_messages (t_messages s6 ++ [tool_result i (call_id call) content]) s6) [call_id call] [] []).
  { split; [..|done|done].
    - exists [unmarked (tool_result i (call_id call) content)]. simpl. rewrite map_app. repeat constructor.
    - exists []. by rewrite app_nil_r. }
  exact (extends_trans _ _ _ _ _ _ _ _ _ Hy Hz).
Qed.

Definition ran_by (routed : option Routed) (call : ToolCall) (scope : option SubagentScope) (name : string) (args : Value) : Effect :=
  if runs_on_client routed then RanClient (call_id call) name args else RanServer name args scope.

Lemma run_call_extends routed call scope name args s :
  match run_call routed call scope name args s with
  | (Some _, s') => extends s s' [] [] [ran_by routed call scope name args]
  | (None, s') => extends s s' [] [finished call false "cancelled"] [ran_by routed call scope name args]
  end.
Proof.
  unfold run_call, ran_by. destruct (runs_on_client routed).
  - unfold run_client. set (s1 := emit _ s). pose proof (emit_extends [RanClient (call_id call) name args] s eq_refl) as Hx. cbn in Hx. fold s1 in Hx.
    pose proof (ask_quiet (λ w, p_run_client ports w (call_id call) name args) s1) as Hq. destruct (ask _ s1) as [r s2].
    eapply then_quiet in Hx; [|exact Hq]. destruct r as [o|e]; [done|]. destruct e; try done.
    pose proof (emit_extends [finished call false "cancelled"] s2 eq_refl) as Hy. exact (extends_trans _ _ _ _ _ _ _ _ _ Hx Hy).
  - unfold run_server. set (s0 := set_view _ s). assert (H0 : quiet s s0) by by apply same_quiet. set (s1 := emit _ s0).
    pose proof (emit_extends [RanServer name args scope] s0 eq_refl) as Hx. cbn in Hx. fold s1 in Hx. eapply quiet_then in Hx; [|exact H0].
    pose proof (ask_quiet (λ w, p_run_tool ports w (t_view s0) scope name args) s1) as Hq. destruct (ask _ s1) as [r s2].
    eapply then_quiet in Hx; [|exact Hq]. destruct (advance_tool_completion_status _ _ _) as [run line].
    eapply then_quiet; [exact Hx|]. set (s3 := set_run run s2). transitivity s3; [by apply same_quiet|]. by apply emit_quiet.
Qed.

Lemma run_and_settle_extends router deferring routed round call scope name args s :
  let (o, s') := run_and_settle router deferring routed round call scope name args s in
  ∃ fs, fed_pair call args fs ∧
    extends s s' (match o with Continue => [call_id call] | Abandon => [] end) fs [ran_by routed call scope name args].
Proof.
  unfold run_and_settle. set (s1 := emit _ s). pose proof (emit_extends [started call args] s eq_refl) as Hx. cbn in Hx. fold s1 in Hx.
  pose proof (run_call_extends routed call scope name args s1) as Hr. destruct (run_call _ _ _ _ _ s1) as [[[result ok]|] s2].
  - destruct (settle_extends router deferring routed round call name args result ok s2) as [o Ho].
    exists [started call args; finished call ok o]. split; [by eexists _, _|].
    exact (extends_trans _ _ _ _ _ _ _ _ _ (extends_trans _ _ _ _ _ _ _ _ _ Hx Hr) Ho).
  - exists [started call args; finished call false "cancelled"]. split; [by eexists _, _|].
    exact (extends_trans _ _ _ _ _ _ _ _ _ Hx Hr).
Qed.

(** *** A whole call *)

(** The tools the loop answers itself. *)
Definition own_tool (routed : option Routed) (name : string) : bool :=
  is_core_loop routed && (String.eqb name PROMOTE_PLAN_TOOL || String.eqb name BEGIN_STEP_TOOL || String.eqb name COMPLETE_STEP_TOOL).

(** The guards are entered with the scope minted. *)
Definition entering (name : string) (s : State) : option SubagentScope * State :=
  mint_scope name (set_floor (tool_dispatched (t_floor s)) s).

(** The moment a call is held against the stored lessons: what the clock reads
    first once the guards are entered. *)
Definition lesson_time (name : string) (s : State) : Z := (p_clock ports (t_world (entering name s).2)).1.

(** When a call past the checkpoint runs a tool, and which: it parses and is not
    the loop's own; it is on the allowlist and the gate lets it through; no
    lesson fires on it at the moment it is checked, unless an earlier round of
    the turn already showed that lesson or failed at the same act; a call
    written from a name alone carries what the schema requires; and it is not a
    repeat the ledger answers from the transcript. *)
Definition cleared (router : Router) (call : ToolCall) (s : State) (e : Effect) : Prop :=
  ∃ args, parse_arguments call = inl args ∧
    let routed := resolve router (call_name call) in
    let name := called_name routed call in
    own_tool routed name = false ∧
    e = ran_by routed call (entering name s).1 name args ∧
    permitted name = true ∧ check (t_provenance s) name (tc_interactivity cfg) = Allow ∧
    (∀ p, pending_action name args = Some p → burn_key p ∉ t_met s →
       burns_that_fire (tc_burns cfg) p (lesson_time name s) = []) ∧
    (∀ e, routed = Some e → surface e = Named → missing_required_argument (parameters (advertised e)) args = None) ∧
    (observe_dispatch (t_repeats s) (repeat_key routed name args) (may_suppress name)).2 = Execute.

(** A call reaches its guards only when the turn is not cancelled. *)
Definition due (router : Router) (call : ToolCall) (s : State) (e : Effect) : Prop :=
  (p_cancelled ports (t_world s)).1 = false ∧ cleared router call (ask (p_cancelled ports) s).2 e.

Lemma entering_keeps name s :
  t_provenance (entering name s).2 = t_provenance s ∧ t_met (entering name s).2 = t_met s ∧
  t_repeats (entering name s).2 = t_repeats s.
Proof.
  unfold entering, mint_scope. destruct (_ && _); [|done]. destruct (Planning.fan_out _ _) as [stack minted].
  unfold ask. by destruct (p_mint ports _).
Qed.

(** The lessons let a call through exactly when none of them fires. *)
Lemma burns_clear call args pending s :
  (guard_burns call args pending s).1 = None ↔
  ∀ p, pending = Some p → burn_key p ∉ t_met s → burns_that_fire (tc_burns cfg) p (p_clock ports (t_world s)).1 = [].
Proof.
  unfold guard_burns. destruct pending as [p|]; [|naive_solver].
  destruct (bool_decide (tc_burns cfg = [])) eqn:Hnil.
  { apply bool_decide_eq_true in Hnil. rewrite Hnil. naive_solver. }
  destruct (bool_decide (burn_key p ∈ t_met s)) eqn:Hmet.
  { apply bool_decide_eq_true in Hmet. naive_solver. }
  apply bool_decide_eq_false in Hmet. simpl. unfold ask. destruct (p_clock ports (t_world s)) as [now w]. simpl.
  destruct (p_clock ports _) as [now' w']. destruct (burns_that_fire (tc_burns cfg) p now) eqn:Hf; simpl.
  - split; [|done]. intros _ q [= <-] _. exact Hf.
  - split; [done|]. intros Hall. specialize (Hall p eq_refl Hmet). congruence.
Qed.

Lemma burns_keep call args pending s s' :
  guard_burns call args pending s = (None, s') → t_repeats s' = t_repeats s.
Proof.
  unfold guard_burns. destruct pending as [p|]; [|by intros [= <-]]. destruct (_ || _); [by intros [= <-]|].
  unfold ask. destruct (p_clock ports _) as [now w]. destruct (p_clock ports _) as [now' w'].
  destruct (render_warning _ _ _); [done|]. by intros [= <-].
Qed.

Lemma named_clear call routed args round s :
  ((guard_named call routed args round s).1 = None ↔
   ∀ e, routed = Some e → surface e = Named → missing_required_argument (parameters (advertised e)) args = None) ∧
  ((guard_named call routed args round s).1 = None → t_repeats (guard_named call routed args round s).2 = t_repeats s).
Proof.
  unfold guard_named. destruct routed as [e|]; [|naive_solver].
  destruct (bool_decide (surface e = Named)) eqn:Hs.
  - apply bool_decide_eq_true in Hs. destruct (missing_required_argument _ _) eqn:Hm; simpl.
    + split; [|done]. split; [done|]. intros Hall. specialize (Hall e eq_refl Hs). congruence.
    + split; [naive_solver|]. by destruct (ToolRouting.connection e).
  - apply bool_decide_eq_false in Hs. naive_solver.
Qed.

(** The guards say nothing exactly when each of them is content. *)
Lemma guards_clear routed call args name round s :
  (guards routed call args name round s).1 = None ↔
  permitted name = true ∧ check (t_provenance s) name (tc_interactivity cfg) = Allow ∧
  (∀ p, pending_action name args = Some p → burn_key p ∉ t_met s →
     burns_that_fire (tc_burns cfg) p (p_clock ports (t_world s)).1 = []) ∧
  (∀ e, routed = Some e → surface e = Named → missing_required_argument (parameters (advertised e)) args = None) ∧
  (observe_dispatch (t_repeats s) (repeat_key routed name args) (may_suppress name)).2 = Execute.
Proof.
  unfold guards, guard_allowlist. destruct (permitted name); [|naive_solver]. cbn [and_then]. unfold guard_gate.
  destruct (check _ _ _); [|naive_solver]. cbn [and_then]. rewrite <- (burns_clear call args).
  destruct (guard_burns _ _ _ s) as [[a|] s1] eqn:Hb; [naive_solver|]. cbn [and_then fst].
  apply burns_keep in Hb. destruct (named_clear call routed args round s1) as [Hn Hk]. rewrite <- Hn.
  destruct (guard_named _ _ _ _ s1) as [[a|] s2]; [naive_solver|]. cbn [and_then fst snd] in *.
  unfold guard_repeat. change (t_repeats (mark name round s2)) with (t_repeats s2). rewrite (Hk eq_refl), Hb.
  destruct (observe_dispatch _ _ _) as [l v]. destruct v; naive_solver.
Qed.

Definition rows_of (o : Outcome) (call : ToolCall) : list string := match o with Continue => [call_id call] | Abandon => [] end.

(** A call's effect when it runs exactly what [due] says. *)
Definition served (due : Effect → Prop) (call : ToolCall) (s : State) (r : Outcome * State) : Prop :=
  ∃ fs rs, extends s r.2 (rows_of r.1 call) fs rs ∧ (fs = [] ∨ ∃ args, fed_pair call args fs) ∧
    ((rs = [] ∧ ∀ e, ~ due e) ∨ ∃ e, rs = [e] ∧ due e).

Lemma served_answer (due : Effect → Prop) call s s' text :
  quiet s s' → (∀ e, ~ due e) → served due call s (Continue, push_result (call_id call) text s').
Proof.
  intros Hq Hno. exists [], []. split; [eapply quiet_then; [exact Hq|apply push_extends]|]. split; by left.
Qed.

Lemma serve_served router deferring round call s : served (cleared router call s) call s (serve router deferring round call s).
Proof.
  unfold serve. destruct (parse_arguments call) as [args|complaint] eqn:Ha.
  2:{ apply served_answer; [done|]. intros e (args & Hargs & _). congruence. }
  set (routed := resolve router (call_name call)). set (name := called_name routed call).
  assert (Hown : own_tool routed name = true → ∀ e, ~ cleared router call s e).
  { intros Ho e (args' & _ & Hno & _). cbv zeta in Hno. fold routed name in Hno. congruence. }
  unfold own_tool in Hown. destruct (is_core_loop routed && String.eqb name PROMOTE_PLAN_TOOL) eqn:E1.
  { pose proof (ask_quiet (λ w, p_promote_plan ports w (turn_messages (t_messages s) (tc_turn_start cfg)) args (t_provenance s)) s) as Hq.
    fold (promote args s) in Hq. destruct (promote args s) as [ack s1]. apply served_answer; [done|]. apply Hown.
    apply andb_true_iff in E1 as [-> ->]. done. }
  destruct (is_core_loop routed && (String.eqb name BEGIN_STEP_TOOL || String.eqb name COMPLETE_STEP_TOOL)) eqn:E2.
  { pose proof (step_control_quiet name args s) as Hq. destruct (step_control name args s) as [ack s1]. apply served_answer; [done|].
    apply Hown. apply andb_true_iff in E2 as [-> E2]. simpl. rewrite <- orb_assoc, E2. apply orb_true_r. }
  fold (entering name s). set (s0 := set_floor (tool_dispatched (t_floor s)) s). assert (H0 : quiet s s0) by by apply same_quiet.
  assert (H1 : quiet s0 (entering name s).2) by apply (mint_scope_quiet name s0). destruct (entering_keeps name s) as (Hp & Hm & Hr).
  pose proof (guards_clear routed call args name round (entering name s).2) as Hc.
  assert (Hiff : ∀ e, cleared router call s e ↔
    (guards routed call args name round (entering name s).2).1 = None ∧ e = ran_by routed call (entering name s).1 name args).
  { intros e. rewrite Hc, Hp, Hm, Hr. unfold cleared, lesson_time. cbv zeta. fold routed name. split.
    - intros (args' & Hargs & _ & ? & ?). assert (args' = args) as -> by congruence. tauto.
    - intros [? ->]. exists args. split; [done|]. split; [|tauto]. unfold own_tool.
      destruct (is_core_loop routed); [|done]. simpl in *. by rewrite <- orb_assoc, E1, E2. }
  clear Hc Hown E1 E2. destruct (entering name s) as [scope s1]. cbn [fst snd] in *. pose proof (quiet_trans _ _ _ H0 H1) as H01.
  pose proof (guards_guarded routed call args name round s1) as Hg. destruct (guards routed call args name round s1) as [[answer|] s2] eqn:Hgs.
  - destruct Hg as (fs & Hf & Hx). exists fs, []. split; [|split; [by eauto|left; split; [done|intros e [? _]%Hiff; done]]].
    eapply quiet_then; [exact H01|]. pose proof (extends_trans _ _ _ _ _ _ _ _ _ Hx (push_extends (call_id call) answer s2)) as Hy.
    rewrite !app_nil_r in Hy. exact Hy.
  - pose proof (quiet_trans _ _ _ H01 Hg) as H2.
    pose proof (run_and_settle_extends router deferring routed round call scope name args s2) as Hrun.
    destruct (run_and_settle _ _ _ _ _ _ _ _ s2) as [o s3]. destruct Hrun as (fs & Hf & Hx). exists fs, [ran_by routed call scope name args].
    split; [by eapply quiet_then|]. split; [by eauto|]. right. eexists. split; [done|]. by apply Hiff.
Qed.

Lemma dispatch_served router deferring round call s : served (due router call s) call s (dispatch_call router deferring round call s).
Proof.
  unfold dispatch_call, due, ask. destruct (p_cancelled ports (t_world s)) as [c w]. cbn [fst snd]. set (s1 := set_world w s).
  assert (Hq : quiet s s1) by by apply same_quiet. destruct c.
  - exists [], []. split; [apply Hq|]. split; [by left|]. left. split; [done|]. by intros e [? _].
  - destruct (serve_served router deferring round call s1) as (fs & rs & Hx & Hf & Hr). exists fs, rs. split; [by eapply quiet_then|].
    split; [done|]. destruct Hr as [[-> Hno]|(e & -> & He)]; [left|right].
    + split; [done|]. by intros e [_ ?%Hno].
    + by exists e.
Qed.

(** *** The calls of a response *)

(** A feed in which every start is followed by its end. *)
Inductive fed : list Effect → Prop :=
  | fed_nil : fed []
  | fed_pair_cons n a ok o l : fed l → fed (Started n a :: Finished n ok o :: l).

Lemma fed_app l l' : fed l → fed l' → fed (l ++ l').
Proof. intros Hl Hl'. induction Hl; [done|]. simpl. by constructor. Qed.

Lemma served_feed call fs : fs = [] ∨ (∃ args, fed_pair call args fs) → fed fs.
Proof. intros [->|(a & ok & o & ->)]; [constructor|]. repeat constructor. Qed.

(** The name a run carries. *)
Definition run_name (e : Effect) : string := match e with RanServer n _ _ | RanClient _ n _ => n | _ => EmptyString end.

Definition outside_closed (s : State) (e : Effect) : Prop :=
  ingested_external (t_provenance s) = true → is_gated_under (tier (classify_tool (run_name e))) (policy (t_provenance s)) = false.

Lemma cleared_outside router call s e : due router call s e → outside_closed s e.
Proof.
  unfold due, ask. destruct (p_cancelled ports (t_world s)) as [c w]. cbn [fst snd].
  intros [_ (args & _ & _ & -> & _ & Hgate & _)] Hin. revert Hgate. cbn [t_provenance set_world]. unfold check. rewrite Hin. simpl negb. rewrite orb_false_l.
  unfold ran_by. destruct (negb (is_gated_under _ _)) eqn:Hg; [|done]. intros _. apply negb_true_iff in Hg.
  by destruct (runs_on_client _).
Qed.

Lemma dispatch_calls_extends router deferring round calls s :
  let (o, s') := dispatch_calls router deferring round calls s in
  ∃ n fs rs, n ≤ length calls ∧ (o = Continue → n = length calls) ∧ extends s s' (map call_id (take n calls)) fs rs ∧
    fed fs ∧ Forall (outside_closed s) rs ∧ length rs ≤ length calls.
Proof.
  revert s. induction calls as [|call rest IH]; intros s; cbn [dispatch_calls].
  { exists 0, [], []. split; [done|]. split; [done|]. split; [apply quiet_refl|]. split; [constructor|done]. }
  destruct (dispatch_served router deferring round call s) as (fs & rs & Hx & Hf & Hr).
  assert (Hrs : Forall (outside_closed s) rs ∧ length rs ≤ 1).
  { destruct Hr as [[-> _]|(e & -> & He)]; [by split; [|simpl; lia]|]. split; [|simpl; lia]. repeat constructor. by eapply cleared_outside. }
  destruct Hrs as [Hrs Hlen]. apply served_feed in Hf. destruct (dispatch_call _ _ _ call s) as [[|] s1]; cbn [fst snd rows_of] in Hx.
  - specialize (IH s1). destruct (dispatch_calls _ _ _ rest s1) as [o s2]. destruct IH as (n & fs' & rs' & Hn & Ho & Hx' & Hf' & Hr' & Hl').
    exists (S n), (fs ++ fs'), (rs ++ rs'). split; [simpl; lia|]. split; [intros Heq; simpl; by rewrite (Ho Heq)|].
    split; [exact (extends_trans _ _ _ _ _ _ _ _ _ Hx Hx')|]. split; [by apply fed_app|].
    split; [|rewrite length_app; simpl; lia]. apply Forall_app. split; [done|]. eapply Forall_impl; [exact Hr'|]. intros e He Hin.
    rewrite <- (ext_policy _ _ _ _ _ Hx). apply He. by apply (ext_external _ _ _ _ _ Hx).
  - exists 0, fs, rs. split; [lia|]. split; [done|]. split; [done|]. split; [done|]. split; [done|]. simpl. lia.
Qed.

Lemma tool_run_unmarked ms : tool_run (map unmarked ms) = map unmarked (tool_run ms).
Proof. induction ms as [|m ms IH]; [done|]. simpl. case_bool_decide; [by rewrite IH|done]. Qed.

Lemma paired_unmarked ms : paired (map unmarked ms) ↔ paired ms.
Proof.
  induction ms as [|m ms IH]; [done|]. simpl. rewrite !paired_cons, IH, tool_run_unmarked.
  assert (Hu : ∀ l, answered_ids (map unmarked l) = answered_ids l) by (induction l as [|x l IHl]; [done|]; simpl; by rewrite IHl).
  unfold unanswered. by rewrite Hu.
Qed.

Lemma rows_answer m rows calls :
  tool_calls m = calls → map tool_call_id rows = map Some (map call_id calls) → unanswered m rows = [].
Proof.
  intros Hm Hr. apply filter_none. intros i Hi Hno. apply Hno. unfold answered_ids. rewrite Hm in Hi.
  apply list_elem_of_omap. assert (Hin : Some i ∈ map tool_call_id rows) by (rewrite Hr; by apply list_elem_of_fmap_2).
  apply list_elem_of_fmap in Hin as (x & Hx & Hin). by exists x.
Qed.

(** A response whose calls were all answered leaves an acceptable log. *)
Lemma round_pairs router deferring round i calls s :
  paired (t_messages s) →
  let (o, s') := dispatch_calls router deferring round calls (set_messages (t_messages s ++ [assistant_with_tool_calls i calls]) s) in
  o = Continue → paired (t_messages s').
Proof.
  intros Hlog. set (s1 := set_messages _ s). pose proof (dispatch_calls_extends router deferring round calls s1) as Hd.
  destruct (dispatch_calls _ _ _ calls s1) as [o s']. destruct Hd as (n & fs & rs & Hn & Ho & Hx & _).
  destruct (ext_rows _ _ _ _ _ Hx) as (rows & Hrows & Hids & Htools).
  intros Hc. specialize (Ho Hc). subst n. rewrite take_ge in Hids by done. apply paired_unmarked. rewrite Hrows. unfold s1. simpl.
  rewrite map_app, <- app_assoc. apply paired_app; [by apply paired_unmarked| |done]. simpl. apply paired_cons. split.
  - intros _. rewrite <- (app_nil_r rows), tool_run_app; [|done|done]. by eapply rows_answer.
  - rewrite <- (app_nil_r rows). by apply paired_run; [|apply paired_nil].
Qed.

(** ** What the loop promises *)

(** Whatever the tools, the user and the clock do, a response's calls are
    answered in order with one result row each behind the rows the log had,
    which keep every byte; when the loop gets through all of them the log is
    again one a provider accepts, each call answered right behind the message
    that made it. *)
Theorem a_round_keeps_the_log_paired router deferring round i calls s (Hlog : paired (t_messages s)) :
  let s1 := set_messages (t_messages s ++ [assistant_with_tool_calls i calls]) s in
  let (o, s') := dispatch_calls router deferring round calls s1 in
  (∃ n rows, map unmarked (t_messages s') = map unmarked (t_messages s1) ++ rows ∧
     map tool_call_id rows = map Some (map call_id (take n calls)) ∧ (o = Continue → n = length calls)) ∧
  (o = Continue → paired (t_messages s')).
Proof.
  intros s1. pose proof (dispatch_calls_extends router deferring round calls s1) as Hd.
  pose proof (round_pairs router deferring round i calls s Hlog) as Hp. fold s1 in Hp.
  destruct (dispatch_calls _ _ _ calls s1) as [o s']. destruct Hd as (n & fs & rs & Hn & Ho & Hx & _).
  destruct (ext_rows _ _ _ _ _ Hx) as (rows & Hrows & Hids & Htools). split; [by exists n, rows|done].
Qed.

(** C15. One call runs at most one tool, and it runs one exactly when the turn is
    not cancelled, the arguments parse, the tool is not one the loop answers
    itself, the caller's allowlist names it, the gate of the turn lets it
    through, no stored lesson fires on it at the time the clock reads when it is
    checked (unless an earlier round of the turn already showed that lesson or
    failed at the same act), its required arguments are there if it was written
    from a name alone, and the repeat ledger does not answer it.  Which one is
    fixed too: on the connected client exactly when the round's table put it
    there, under the provider's name and with the model's arguments. *)
Theorem only_cleared_calls_run router deferring round call s :
  let (o, s') := dispatch_call router deferring round call s in
  ∃ es, t_trace s' = t_trace s ++ es ∧
    (∀ e, filter is_run es = [e] ↔ due router call s e) ∧
    (filter is_run es = [] ↔ ∀ e, ~ due router call s e) ∧
    ((p_cancelled ports (t_world s)).1 = true → o = Abandon ∧ es = [] ∧ t_messages s' = t_messages s).
Proof.
  pose proof (dispatch_served router deferring round call s) as Hs. destruct (dispatch_call _ _ _ call s) as [o s'] eqn:Hd.
  destruct Hs as (fs & rs & Hx & _ & Hr). destruct (ext_trace _ _ _ _ _ Hx) as (es & He & _ & Hrs & _). exists es. split; [done|]. rewrite Hrs.
  assert (Hone : ∀ e e', due router call s e → due router call s e' → e = e').
  { intros e e' [_ (args & Ha & _ & -> & _)] [_ (args' & Ha' & _ & -> & _)]. congruence. }
  split; [|split].
  - intros e. destruct Hr as [[-> Hno]|(e0 & -> & He0)]; [split; [done|by intros ?%Hno]|].
    split; [by intros [= <-]|]. intros Hdue. f_equal. by apply Hone.
  - destruct Hr as [[-> Hno]|(e0 & -> & He0)]; [done|]. split; [done|]. intros Hno. by destruct (Hno e0).
  - intros Hc. revert Hd. unfold dispatch_call, ask. destruct (p_cancelled ports (t_world s)) as [c w]. simpl in Hc. subst c.
    intros [= <- <-]. split; [done|]. split; [|done]. simpl in He. by rewrite <- (app_nil_r (t_trace s)) in He at 1; apply app_inv_head in He.
Qed.

(** On every way out of the tool loop, a client tool cancelled in the
    middle included, each call that shows up in the activity feed is both
    started and finished there, before the next one starts. *)
Theorem the_feed_never_strands_a_call router deferring round calls s :
  let (o, s') := dispatch_calls router deferring round calls s in
  ∃ es, t_trace s' = t_trace s ++ es ∧ fed (filter is_feed es).
Proof.
  pose proof (dispatch_calls_extends router deferring round calls s) as Hd. destruct (dispatch_calls _ _ _ calls s) as [o s'].
  destruct Hd as (n & fs & rs & _ & _ & Hx & Hf & _). destruct (ext_trace _ _ _ _ _ Hx) as (es & He & Hfs & _ & _). exists es. by rewrite Hfs.
Qed.

(** ** An outside read *)

(** The stored text of the result a call's run ended in: none when the turn is
    cancelled, the call is answered without a run or its client cancels it. *)
Definition result_stored (router : Router) (round : nat) (call : ToolCall) (s : State) : option string :=
  let (cancelled, s) := ask (p_cancelled ports) s in
  if cancelled then None
  else
    match parse_arguments call with
    | inr _ => None
    | inl args =>
        let routed := resolve router (call_name call) in
        let name := called_name routed call in
        if own_tool routed name then None
        else
          let (scope, s) := entering name s in
          match guards routed call args name round s with
          | (Some _, _) => None
          | (None, s) =>
              match run_call routed call scope name args (emit [started call args] s) with
              | (Some (result, ok), _) => Some (stored_result result ok)
              | (None, _) => None
              end
          end
    end.

Lemma run_call_provenance routed call scope name args s :
  t_provenance (run_call routed call scope name args s).2 = t_provenance s.
Proof.
  unfold run_call, run_client, run_server, ask. destruct (runs_on_client routed).
  - destruct (p_run_client ports _ _ _ _) as [[o|e] w]; [done|]. by destruct e.
  - destruct (p_run_tool ports _ _ _ _ _) as [r w]. by destruct (advance_tool_completion_status _ _ _).
Qed.

Lemma fold_provenance_is_observed call stored s :
  t_provenance (fold_provenance call stored s) = (observe_result (t_provenance s) (call_name call) stored).1.
Proof.
  unfold fold_provenance. destruct (observe_result _ _ _) as [p change]. simpl. destruct change; [done|].
  destruct (bool_decide _); [done|]. destruct (bool_decide _); [done|]. unfold ask.
  by destruct (p_capability_taken ports _) as [[] w].
Qed.

Lemma settle_provenance router deferring routed round call name args result ok s :
  t_provenance (settle router deferring routed round call name args result ok s) =
  (observe_result (t_provenance s) (call_name call) (stored_result result ok)).1.
Proof.
  unfold settle. set (stored := stored_result result ok). unfold ask. destruct (p_mint ports (t_world s)) as [i w].
  set (head := head_for_appended_row _ _ _ _). set (s2 := emit _ _).
  pose proof (proj2 (activations_quiet router deferring routed round name result s2)) as Ha.
  set (s3 := activate_namespace _ _ _ _ _ _) in *.
  pose proof (proj2 (learn_quiet (pending_action name args) stored ok (fold_provenance call stored s3))) as Hl.
  rewrite fold_provenance_is_observed, Ha in Hl. destruct head; exact Hl.
Qed.

(** A call whose run ended in a result leaves the turn with that result folded
    under the name the model wrote, and has run one tool. *)
Lemma dispatch_folds router deferring round call s stored :
  result_stored router round call s = Some stored →
  ∃ s', dispatch_call router deferring round call s = (Continue, s') ∧
    t_provenance s' = (observe_result (t_provenance s) (call_name call) stored).1.
Proof.
  unfold result_stored, dispatch_call, ask. destruct (p_cancelled ports (t_world s)) as [[] w]; [done|].
  set (s1 := set_world w s). unfold serve. destruct (parse_arguments call) as [args|]; [|done].
  set (routed := resolve router (call_name call)). set (name := called_name routed call).
  destruct (own_tool routed name) eqn:Hown; [done|]. unfold own_tool in Hown.
  assert (Hp : is_core_loop routed && String.eqb name PROMOTE_PLAN_TOOL = false ∧
    is_core_loop routed && (String.eqb name BEGIN_STEP_TOOL || String.eqb name COMPLETE_STEP_TOOL) = false).
  { destruct (is_core_loop routed); [|done]. simpl in *. by apply orb_false_iff; rewrite orb_assoc. }
  destruct Hp as [-> ->]. fold (entering name s1). destruct (entering_keeps name s1) as (He & _).
  destruct (entering name s1) as [scope s2]. cbn [snd] in He.
  pose proof (guards_guarded routed call args name round s2) as Hg.
  destruct (guards routed call args name round s2) as [[answer|] s3]; [done|]. cbn in Hg. destruct Hg as [_ Hg].
  unfold run_and_settle. pose proof (run_call_provenance routed call scope name args (emit [started call args] s3)) as Hr.
  destruct (run_call _ _ _ _ _ _) as [[[result ok]|] s4]; [|done]. intros [= <-]. eexists. split; [done|].
  rewrite settle_provenance. cbn [snd] in Hr. rewrite Hr. cbn [t_provenance emit]. by rewrite Hg, He.
Qed.

(** The runs of a trace are all of tools the policy does not gate. *)
Definition spares_gated (pol : ToolPolicy) (es : list Effect) : Prop :=
  ∀ e, e ∈ filter is_run es → is_gated_under (tier (classify_tool (run_name e))) pol = false.

Lemma closed_calls router deferring round calls s :
  ingested_external (t_provenance s) = true →
  let (o, s') := dispatch_calls router deferring round calls s in
  t_provenance s' = t_provenance s ∧ ∃ es, t_trace s' = t_trace s ++ es ∧ spares_gated (policy (t_provenance s)) es.
Proof.
  intros Hread. pose proof (dispatch_calls_extends router deferring round calls s) as Hd.
  destruct (dispatch_calls _ _ _ calls s) as [o s']. destruct Hd as (n & fs & rs & _ & _ & Hx & _ & Hr & _). split.
  - pose proof (ext_external _ _ _ _ _ Hx Hread) as Hi. pose proof (ext_policy _ _ _ _ _ Hx) as Hp.
    destruct (t_provenance s'), (t_provenance s). simpl in *. congruence.
  - destruct (ext_trace _ _ _ _ _ Hx) as (es & He & _ & Hrs & _). exists es. split; [done|]. intros e. rewrite Hrs. intros Hin.
    eapply Forall_forall in Hr; [|exact Hin]. by apply Hr.
Qed.

(** C16. A call that reads outside content closes the turn.  Take a call of a
    turn whose run ended in a result that is outside content for the provider's
    tool, and whose name as the model wrote it the class table knows as it knows
    the provider's (true of a provider's own name and of a namespaced tool under
    its location root, [namespaced_names_are_known]; a bare tool under a location
    root is missed, [rooted_page_is_missed]).  Then, whatever the turn did before
    and whatever its tools return, no tool the turn's policy gates runs in the
    calls of the same response after it, nor in any later response of the turn;
    the read is not forgotten and the policy is the one the turn started with. *)
Theorem an_outside_read_closes_the_turn router deferring round call rest s stored
    (Hran : result_stored router round call s = Some stored)
    (Hout : result_is_externally_controlled (called_name (resolve router (call_name call)) call) stored = true)
    (Hknown : classify_tool (call_name call) = classify_tool (called_name (resolve router (call_name call)) call)) :
  ∃ s1, dispatch_call router deferring round call s = (Continue, s1) ∧
  let (o, s') := dispatch_calls router deferring round rest s1 in
  dispatch_calls router deferring round (call :: rest) s = (o, s') ∧
  ingested_external (t_provenance s') = true ∧ policy (t_provenance s') = policy (t_provenance s) ∧
  (∃ es, t_trace s' = t_trace s1 ++ es ∧ spares_gated (policy (t_provenance s)) es) ∧
  (∀ router' deferring' round' calls' s2, t_provenance s2 = t_provenance s' →
     let (o', s3) := dispatch_calls router' deferring' round' calls' s2 in
     t_provenance s3 = t_provenance s' ∧
     ∃ es, t_trace s3 = t_trace s2 ++ es ∧ spares_gated (policy (t_provenance s)) es).
Proof.
  destruct (dispatch_folds router deferring round call s stored Hran) as (s1 & Hd & Hp). exists s1. split; [done|].
  assert (Hs1 : ingested_external (t_provenance s1) = true ∧ policy (t_provenance s1) = policy (t_provenance s)).
  { rewrite Hp. unfold observe_result. destruct (ingested_external (t_provenance s)) eqn:Hi; [done|].
    unfold result_is_externally_controlled in *. rewrite Hknown. by rewrite Hout. }
  destruct Hs1 as [Hin Hpol]. pose proof (closed_calls router deferring round rest s1 Hin) as Hc.
  cbn [dispatch_calls]. rewrite Hd. destruct (dispatch_calls router deferring round rest s1) as [o s'].
  destruct Hc as [Hp' Hes]. rewrite Hp', Hpol in *. split_and!; [done..|].
  intros router' deferring' round' calls' s2 Hs2.
  pose proof (closed_calls router' deferring' round' calls' s2 ltac:(by rewrite Hs2)) as Hc.
  destruct (dispatch_calls _ _ _ calls' s2) as [o' s3]. by rewrite Hs2, Hpol in Hc.
Qed.
End dispatch.

(** ** A concrete turn *)

Definition demo_json : SerdeJson := {| from_str := λ _, Some (Object []); to_string := λ _, "{}" |}.

Definition demo_step_env : StepEnv :=
  {| pad_write := None; hard_withhold := false; fresh_id := "n1"; owner_todo := None; descendants_running := None;
     delete_subtree := None; promotion_offer := None |}.

Definition demo_ports : TurnPorts nat :=
  {| p_cancelled := λ w, (false, w);
     p_clock := λ w, (0%Z, w);
     p_mint := λ w, ("row-" +:+ pretty w, S w);
     p_run_tool := λ w _ _ name _, (Ok ("ran " +:+ name), w);
     p_run_client := λ w _ _ _, (Err ErrCancelled, w);
     p_tool_definition := λ w _, (None, w);
     p_step_env := λ w, (demo_step_env, w);
     p_promote_plan := λ w _ _ _, ("{}", w);
     p_capability_taken := λ w, (true, w);
     p_take_written := λ w _, (None, w);
     p_json_error := λ s, s;
     p_debug := λ s, s;
     p_sha256 := λ s, s |}.

Definition demo_cfg : TurnConfig :=
  {| tc_conversation := "conv"; tc_turn_start := 0; tc_hosted := false; tc_namespaces := []; tc_core_tools := []; tc_client_port := false;
     tc_client_defs := []; tc_allowlist := None; tc_interactivity := Interactive; tc_hard_withhold := false; tc_max_inline := 64;
     tc_max_stored := 128; tc_pad_wired := false; tc_skills_wired := false; tc_owner_todo := None; tc_ancestors := None;
     tc_pad_scope := None; tc_burns := []; tc_situation := None; tc_burn_writer := false; tc_burn_corrector := false |}.

Definition demo_state (p : TurnProvenance) : TurnState nat :=
  mkTurn 0 [] [Message_new "u1" User "hello"] ∅ (TranscriptView_new "ada" "conv") RepeatLedger_new ActivationLedger_new p
    StepStack_new false None (NarrationFloor_new true 0) ∅ [].

Definition demo_calls : list ToolCall :=
  [{| call_id := "c1"; call_name := "fileio_read_lines"; call_arguments := "{}" |};
   {| call_id := "c2"; call_name := "terminal_execute"; call_arguments := EmptyString |}].

Definition outside_read : TurnProvenance := ingest (new_with_policy Aggressive).

Definition demo_round (p : TurnProvenance) : Outcome * TurnState nat :=
  let _ := demo_json in dispatch_calls demo_ports demo_cfg ToolRouter_new false 0 demo_calls
    (set_messages (t_messages (demo_state p) ++ [assistant_with_tool_calls "a1" demo_calls]) (demo_state p)).

Lemma a_round_keeps_the_log_paired_witness : paired (t_messages (demo_round TurnProvenance_new).2).
Proof.
  assert (Hlog : paired (t_messages (demo_state TurnProvenance_new))) by (intros [|[|i]] m; simpl; by intros [= <-]).
  pose proof (@a_round_keeps_the_log_paired demo_json nat demo_ports demo_cfg ToolRouter_new false 0 "a1" demo_calls
    (demo_state TurnProvenance_new) Hlog) as Hr.
  change (let (o, s') := demo_round TurnProvenance_new in
    (∃ n rows, map unmarked (t_messages s') = map unmarked (t_messages (demo_state TurnProvenance_new) ++ [assistant_with_tool_calls "a1" demo_calls]) ++ rows ∧
      map tool_call_id rows = map Some (map call_id (take n demo_calls)) ∧ (o = Continue → n = length demo_calls)) ∧
    (o = Continue → paired (t_messages s'))) in Hr.
  assert (Hc : (demo_round TurnProvenance_new).1 = Continue) by (vm_compute; reflexivity).
  destruct (demo_round TurnProvenance_new) as [o s']. apply Hr. exact Hc.
Defined.

(** A turn with a lesson about reading lines with no arguments. *)
Definition read_call : ToolCall := {| call_id := "c1"; call_name := "fileio_read_lines"; call_arguments := "{}" |}.

Definition read_act : PendingAction := let _ := demo_json in observe (p_sha256 demo_ports) "fileio_read_lines" (Object []) ∅.

Definition taught_cfg : TurnConfig :=
  {| tc_conversation := "conv"; tc_turn_start := 0; tc_hosted := false; tc_namespaces := []; tc_core_tools := []; tc_client_port := false;
     tc_client_defs := []; tc_allowlist := None; tc_interactivity := Interactive; tc_hard_withhold := false; tc_max_inline := 64;
     tc_max_stored := 128; tc_pad_wired := false; tc_skills_wired := false; tc_owner_todo := None; tc_ancestors := None;
     tc_pad_scope := None; tc_burns := [learned (burn_observation false false read_act "no such file") "l1" 0]; tc_situation := Some ∅;
     tc_burn_writer := false; tc_burn_corrector := false |}.

Definition first_read (cfg : TurnConfig) : Outcome * TurnState nat :=
  let _ := demo_json in dispatch_call demo_ports cfg ToolRouter_new false 0 read_call (demo_state TurnProvenance_new).

(** The lesson holds the call, which runs in a turn without it. *)
Lemma only_cleared_calls_run_witness :
  filter is_run (t_trace (first_read taught_cfg).2) = [] ∧
  filter is_run (t_trace (first_read demo_cfg).2) = [RanServer "fileio_read_lines" (Object []) None].
Proof.
  pose proof (@only_cleared_calls_run demo_json nat demo_ports taught_cfg ToolRouter_new false 0 read_call (demo_state TurnProvenance_new)) as Ht.
  pose proof (@only_cleared_calls_run demo_json nat demo_ports demo_cfg ToolRouter_new false 0 read_call (demo_state TurnProvenance_new)) as Hd.
  unfold first_read. destruct (dispatch_call demo_ports taught_cfg _ _ _ _ _) as [o1 s1]. destruct (dispatch_call demo_ports demo_cfg _ _ _ _ _) as [o2 s2].
  destruct Ht as (es1 & He1 & _ & Hno & _). destruct Hd as (es2 & He2 & Hrun & _). cbn [t_trace demo_state app] in He1, He2. cbn [snd]. rewrite He1, He2. clear He1 He2. split.
  - apply Hno. intros e [_ (args & Ha & _ & _ & _ & _ & Hb & _)]. injection Ha as <-.
    specialize (Hb read_act eq_refl). assert (Hmet : burn_key read_act ∉ (∅ : gset string)) by apply not_elem_of_empty.
    specialize (Hb Hmet). vm_compute in Hb. discriminate Hb.
  - apply Hrun. split; [reflexivity|]. exists (Object []). repeat (split; [first [reflexivity|by intros q [=]]|]). reflexivity.
Defined.

(** A namespaced page is read first; the command after it does not run. *)
Definition page_call : ToolCall := {| call_id := "c0"; call_name := "net__web_read"; call_arguments := "{}" |}.

Definition strict_turn : TurnState nat := demo_state (new_with_policy Aggressive).

Lemma an_outside_read_closes_the_turn_witness :
  let _ := demo_json in
  ∃ o s', dispatch_calls demo_ports demo_cfg ToolRouter_new false 0 (page_call :: demo_calls) strict_turn = (o, s') ∧
    ingested_external (t_provenance s') = true ∧
    map run_name (filter is_run (t_trace s')) = ["net__web_read"; "fileio_read_lines"].
Proof.
  intros j. pose proof (@an_outside_read_closes_the_turn demo_json nat demo_ports demo_cfg ToolRouter_new false 0 page_call demo_calls
    strict_turn "ran net__web_read" ltac:(vm_compute; reflexivity) ltac:(vm_compute; reflexivity) eq_refl) as (s1 & _ & Hr).
  change j with demo_json.
  destruct (dispatch_calls demo_ports demo_cfg ToolRouter_new false 0 demo_calls s1) as [o s']. destruct Hr as (Hall & Hin & _).
  exists o, s'. split; [exact Hall|]. split; [exact Hin|].
  assert (Hs : (@dispatch_calls demo_json nat demo_ports demo_cfg ToolRouter_new false 0 (page_call :: demo_calls) strict_turn).2 = s') by by rewrite Hall.
  rewrite <- Hs. vm_compute. reflexivity.
Defined.
