(* ===== verification/TurnLoop.v ===== *)
(** * A turn

    Models [run_turn] of [crates/core/src/service.rs]: from the prompt to the
    stored transcript and the answer.  The rounds of model call and tool calls,
    the table of tools each round is offered, the folds of the context into the
    summary, overflow recovery, the fallback from hosted tool search, every
    checkpoint for a cancellation, the errors a provider returns, the answer with
    the title of a first turn, and the wind-down of a turn whose rounds are
    spent.  The calls of a response are those of [ToolDispatch].

    The model, the store and the assembly of the prompt text are the record
    [LoopPorts] over the same arbitrary world; the theorems hold for all of them.
    The lock that keeps two turns of one conversation apart, recall, the turn
    recorder, the digests and telemetry are left out. *)

From S2P Require Import Prelude Json DisplayLine TaskStore Messages Context Titles ToolRepeat ToolProvenance Transcript Eviction Planning.
From S2P Require Import StepControl ToolRouting ToolAdvertising VerbatimWindow NegativeMemory Sanitize TurnRecord ToolDispatch.

#[local] Open Scope nat_scope.

Definition DISCOVERY_TOOL : string := "builtin_tool_search".
Definition MAX_CLIENT_TOOLS_IN_BLOCK : nat := 8.
Definition MAX_OVERFLOW_RETRIES : nat := 3.
Definition MAX_KEYS_PER_CALL : nat := 64.

Definition WIND_DOWN_INSTRUCTION : string :=
  "You've reached this turn's limit on tool calls, so you can't run any more tools right now. Wrap up now in a brief, natural reply: what you accomplished, what's still left, and how we can continue from here.".
Definition WIND_DOWN_FALLBACK : string :=
  "I reached the limit on tool calls for this turn before I could finish. I've kept the work so far — send another message and I'll pick up where I left off.".
Definition SEARCH_FALLBACK_NOTE : string :=
  "The server-side tool search was unable to surface the tools you need. You now have access to `daemon_builtin_tool_search` — call it with a query describing what you need.".
Definition EMPTY_ANSWER : string :=
  "I wasn't able to complete this request — the tools I tried returned errors. Please check the conversation log or try again.".

Record LlmResponse := { resp_text : string; resp_calls : list ToolCall; resp_input_tokens : option Z }.

(** What is fixed for the turn besides [TurnConfig]. *)
Record LoopConfig := {
  lc_user : string;
  lc_idempotency : option string;
  lc_policy : ToolPolicy;
  lc_raw_namespaces : list Namespace;
  lc_step_tools : list Def;
  lc_promote_tool : Def;
  lc_budget : option Z;
  lc_threshold : Z → Z;
  lc_window_tokens : option Z;
  lc_estimate : string → Z;
  lc_title_len : string → nat
}.

(** One assembly pass: the messages of the prompt and their cost. *)
Notation Pass := (list Message * Z)%type.

(** What the loop calls outside the turn.  [q_assemble] answers the pass of a
    round for any conversation, projection, tools, namespaces and window. *)
Record LoopPorts (W : Type) := {
  q_get : W → string → result Conversation CoreError * W;
  q_update : W → Conversation → result unit CoreError * W;
  q_live_notes : W → list string → option (list string) * W;
  q_complete : W → list Message → list Def → list Namespace → result LlmResponse CoreError * W;
  q_task_llm : W → (string → option string) * W;
  q_assemble : W → (Conversation → gmap string string → list Def → list Namespace → nat → Pass) * W;
  q_step_stack : W → StepStack * W;
  q_mints : W → (nat → string) * W;
  q_stamp : W → string * W
}.
Arguments q_get {W}.
Arguments q_update {W}.
Arguments q_live_notes {W}.
Arguments q_complete {W}.
Arguments q_task_llm {W}.
Arguments q_assemble {W}.
Arguments q_step_stack {W}.
Arguments q_mints {W}.
Arguments q_stamp {W}.

Definition set_title (c : Conversation) (t : string) : Conversation :=
  {| conv_id := conv_id c; conv_title := t; created_at := created_at c; updated_at := updated_at c; messages := messages c;
     context_summary := context_summary c; compacted_through := compacted_through c; summaries := summaries c;
     archived_at := archived_at c; active_task := active_task c; tags := tags c |}.
Definition set_updated_at (c : Conversation) (t : string) : Conversation :=
  {| conv_id := conv_id c; conv_title := conv_title c; created_at := created_at c; updated_at := t; messages := messages c;
     context_summary := context_summary c; compacted_through := compacted_through c; summaries := summaries c;
     archived_at := archived_at c; active_task := active_task c; tags := tags c |}.
Definition set_active_task (c : Conversation) (t : option string) : Conversation :=
  {| conv_id := conv_id c; conv_title := conv_title c; created_at := created_at c; updated_at := updated_at c; messages := messages c;
     context_summary := context_summary c; compacted_through := compacted_through c; summaries := summaries c;
     archived_at := archived_at c; active_task := t; tags := tags c |}.

(** ** The title of a first turn *)

Definition is_quote_mark (a : Ascii.ascii) : bool := bool_decide (Ascii.nat_of_ascii a ∈ [34; 39; 96]).
Definition is_final_mark (a : Ascii.ascii) : bool := bool_decide (Ascii.nat_of_ascii a ∈ [46; 44; 59; 33; 63]).

Fixpoint drop_while (f : Ascii.ascii → bool) (l : list Ascii.ascii) : list Ascii.ascii :=
  match l with [] => [] | a :: l' => if f a then drop_while f l' else l end.

Definition trim_end (f : Ascii.ascii → bool) (l : list Ascii.ascii) : list Ascii.ascii := rev (drop_while f (rev l)).

Definition sanitize_generated_title (raw : string) : string :=
  let first_line := String.list_ascii_of_string (trim (first_line raw)) in
  let stripped := trim_end is_final_mark (trim_end is_quote_mark (drop_while is_quote_mark first_line)) in
  join " " (take 8 (split_whitespace (String.string_of_list_ascii stripped))).

Definition title_prompt (initial_prompt : string) : string := "First message in the conversation: " +:+ initial_prompt.

Definition generate_conversation_title (len : string → nat) (llm : string → option string) (initial_prompt : string) : string :=
  match llm (title_prompt initial_prompt) with
  | Some reply => bound_generated_title len (sanitize_generated_title reply)
  | None => EmptyString
  end.

(** ** What the turn is offered *)

Definition allowed_namespaces (allowlist : option (list string)) (nss : list Namespace) : list Namespace :=
  match allowlist with
  | None => nss
  | Some allowed =>
      omap (λ ns,
        let tools := filter (λ t, ToolRouting.name t ∈ allowed) (ns_tools ns) in
        match tools with
        | [] => None
        | _ => Some {| ns_name := ns_name ns; ns_description := ns_description ns; ns_tools := tools |}
        end) nss
  end.

Section loop.
Context `{!SerdeJson} {W : Type} (ports : TurnPorts W) (q : LoopPorts W) (lc : LoopConfig) (cfg : TurnConfig).

(** Hosted search is shown the deferred namespaces, so the built-in search is
    left out of the block. *)
Definition core_tools_for_llm : list Def :=
  if tc_hosted cfg && bool_decide (tc_namespaces cfg ≠ [])
  then filter (λ t, ToolRouting.name t ≠ DISCOVERY_TOOL) (tc_core_tools cfg) else tc_core_tools cfg.

Definition keep_allowed (n : string) : bool :=
  match tc_allowlist cfg with
  | None => true
  | Some allowed => String.eqb n BEGIN_STEP_TOOL || String.eqb n COMPLETE_STEP_TOOL || bool_decide (n ∈ allowed)
  end.

Definition build_router (demoted : bool) (activations : Ledger) : Router :=
  let round_core := if demoted then tc_core_tools cfg else core_tools_for_llm in
  let discovery_offered := existsb (λ t, String.eqb (ToolRouting.name t) DISCOVERY_TOOL) round_core in
  let r := offer ToolRouter_new daemon_builtins round_core in
  let r := if tc_hosted cfg && negb demoted
           then foldl (λ r ns, offer_deferred r (daemon_server (ns_name ns)) (ns_tools ns)) r (tc_namespaces cfg) else r in
  let r := if tc_pad_wired cfg then
             let r := foldl offer_core_loop_tool r (lc_step_tools lc) in
             if tc_skills_wired cfg then offer_core_loop_tool r (lc_promote_tool lc) else r
           else r in
  let in_block := if discovery_offered then Nat.min (length (tc_client_defs cfg)) MAX_CLIENT_TOOLS_IN_BLOCK
                  else length (tc_client_defs cfg) in
  let r := offer r client_device (take in_block (tc_client_defs cfg)) in
  let r := offer_named r client_device (drop in_block (tc_client_defs cfg)) in
  let r := foldl (λ r cd, offer r cd.1 [cd.2]) r (offers activations) in
  match tc_allowlist cfg with
  | Some _ => retain r keep_allowed
  | None => r
  end.

(** ** The state of the loop *)

Record Loop := mkLoop {
  l_turn : TurnState W;
  l_conv : Conversation;
  l_window : nat;
  l_folded : bool;
  l_retries : nat;
  l_demoted : bool;
  l_starts : list nat
}.

Definition set_turn (s : TurnState W) (l : Loop) : Loop :=
  mkLoop s (l_conv l) (l_window l) (l_folded l) (l_retries l) (l_demoted l) (l_starts l).
Definition on_turn (f : TurnState W → TurnState W) (l : Loop) : Loop := set_turn (f (l_turn l)) l.
Definition set_window (n : nat) (l : Loop) : Loop :=
  mkLoop (l_turn l) (l_conv l) n (l_folded l) (l_retries l) (l_demoted l) (l_starts l).
Definition set_folded (b : bool) (l : Loop) : Loop :=
  mkLoop (l_turn l) (l_conv l) (l_window l) b (l_retries l) (l_demoted l) (l_starts l).
Definition set_retries (n : nat) (l : Loop) : Loop :=
  mkLoop (l_turn l) (l_conv l) (l_window l) (l_folded l) n (l_demoted l) (l_starts l).
Definition set_demoted (b : bool) (l : Loop) : Loop :=
  mkLoop (l_turn l) (l_conv l) (l_window l) (l_folded l) (l_retries l) b (l_starts l).
Definition set_starts (ns : list nat) (l : Loop) : Loop :=
  mkLoop (l_turn l) (l_conv l) (l_window l) (l_folded l) (l_retries l) (l_demoted l) ns.

Definition log (l : Loop) : list Message := t_messages (l_turn l).

(** The conversation the turn holds; its messages are the turn's. *)
Definition conv_of (l : Loop) : Conversation := Messages.set_messages (l_conv l) (log l).
Definition put_conv (c : Conversation) (l : Loop) : Loop :=
  mkLoop (ToolDispatch.set_messages (messages c) (l_turn l)) c (l_window l) (l_folded l) (l_retries l) (l_demoted l) (l_starts l).

Definition asks {A} (port : W → A * W) (l : Loop) : A * Loop := let (a, s) := ask port (l_turn l) in (a, set_turn s l).

Definition push_message (r : Role) (text : string) (l : Loop) : Loop :=
  let (i, l) := asks (p_mint ports) l in
  on_turn (ToolDispatch.set_messages (log l ++ [Message_new i r text])) l.

Inductive RoundEnd := Next | Done (r : result string CoreError).

Definition finish (x : result string CoreError * Loop) : RoundEnd * Loop := (Done x.1, x.2).

(** ** Ways out *)

Definition save (c : Conversation) (l : Loop) : result unit CoreError * Loop :=
  asks (λ w, q_update q w c) (on_turn (emit [Saved c]) l).

(** Its store error is only logged. *)
Definition persist_abandoned_turn (l : Loop) : Loop :=
  let executed := length (filter (λ m, role m = Tool) (drop (tc_turn_start cfg) (log l))) in
  let (mint, l) := asks (q_mints q) l in
  let (closed, unanswered) := close_unanswered_tool_calls mint (log l) in
  let (i, l) := asks (p_mint ports) l in
  let (now, l) := asks (q_stamp q) l in
  let notice := Message_new i Assistant (cancelled_turn_notice executed unanswered) in
  (save (set_updated_at (Messages.set_messages (conv_of l) (closed ++ [notice])) now) l).2.

Definition abandon (l : Loop) : result string CoreError * Loop := (Err ErrCancelled, persist_abandoned_turn l).

Definition persist_turn (text : string) (l : Loop) : result string CoreError * Loop :=
  let (now, l) := asks (q_stamp q) l in
  let l := put_conv (set_updated_at (conv_of l) now) l in
  match save (conv_of l) l with
  | (Ok _, l) => (Ok text, l)
  | (Err e, l) => (Err e, l)
  end.

(** An assistant message closes the turn. *)
Definition conclude (text : string) (l : Loop) : result string CoreError * Loop := persist_turn text (push_message Assistant text l).

Definition name_conversation (first : bool) (prompt : string) (l : Loop) : Loop :=
  if first then
    let (llm, l) := asks (q_task_llm q) l in
    let generated := generate_conversation_title (lc_title_len lc) llm prompt in
    if String.eqb generated EmptyString then l else put_conv (set_title (conv_of l) generated) l
  else l.

Definition conclude_named (first : bool) (prompt text : string) (l : Loop) : result string CoreError * Loop :=
  persist_turn text (name_conversation first prompt (push_message Assistant text l)).

(** ** The parts of a round *)

Definition narrate_due (l : Loop) : Loop :=
  let (now, l) := asks (p_clock ports) l in
  let (floor, line) := take_due_line (t_floor (l_turn l)) now in
  on_turn (λ s, emit (match line with Some text => [Status text] | None => [] end) (set_floor floor s)) l.

Definition sweep (l : Loop) : Loop :=
  let l :=
    match l_starts l !! (length (l_starts l) - 2) with
    | Some previous =>
        if 2 <=? length (l_starts l) then
          let protected := match open_watermark (t_stack (l_turn l)) with Some w => Nat.min w previous | None => previous end in
          let '(ms, p, _) := evict_superseded_tool_results (log l) (t_projection (l_turn l)) protected in
          on_turn (λ s, set_projection p (ToolDispatch.set_messages ms s)) l
        else l
    | None => l
    end in
  set_starts (l_starts l ++ [length (log l)]) l.

(** The assembled prompt, after a fold of what the shrink left out. *)
Record Assembled := { a_messages : list Message; a_from : nat; a_window : nat }.

Definition assemble (pass : Conversation → gmap string string → list Def → list Namespace → nat → Pass) (tools : list Def)
    (nss : list Namespace) (window : nat) (l : Loop) : list Message * nat :=
  let '((ms, _), from) :=
    assemble_turn_within_budget (pass (conv_of l) (t_projection (l_turn l)) tools nss) snd (log l) window (lc_threshold lc <$> lc_budget lc) in
  (ms, from).

Definition assembly_window (l : Loop) : nat :=
  match lc_window_tokens lc with
  | Some target =>
      Nat.min (l_window l)
        (Nat.max (messages_within_tokens (lc_estimate lc) (t_projection (l_turn l)) (log l) target) MIN_CONTEXT_MESSAGES)
  | None => l_window l
  end.

Definition assemble_round (tools : list Def) (nss : list Namespace) (l : Loop) : Assembled * Loop :=
  let (pass, l) := asks (q_assemble q) l in
  let window := assembly_window l in
  let (ms, from) := assemble pass tools nss window l in
  if l_folded l then ({| a_messages := ms; a_from := from; a_window := window |}, l)
  else
    let (llm, l) := asks (q_task_llm q) l in
    let (c, fold) := compact_preflight_shrink llm (conv_of l) from (l_window l) in
    let l := put_conv c l in
    match fold with
    | NotNeeded => ({| a_messages := ms; a_from := from; a_window := window |}, l)
    | Folded =>
        let l := set_folded true l in
        let (ms, from) := assemble pass tools nss window l in
        ({| a_messages := ms; a_from := from; a_window := window |}, l)
    | Declined => ({| a_messages := ms; a_from := from; a_window := window |}, set_folded true l)
    end.

Definition complete_with (ms : list Message) (tools : list Def) (nss : list Namespace) (l : Loop) : result LlmResponse CoreError * Loop :=
  asks (λ w, q_complete q w ms tools nss) (on_turn (emit [Asked tools]) l).

(** The recovery from an overflow the provider reported. *)
Definition recover (prompt_tokens max_tokens : option Z) (a : Assembled) (l : Loop) : RoundEnd * Loop :=
  let l := set_window (Nat.min (l_window l) (a_window a)) (set_retries (S (l_retries l)) l) in
  let (llm, l) := asks (q_task_llm q) l in
  let '(c, p, window, r) :=
    recover_from_overflow llm (lc_estimate lc) (conv_of l) (t_projection (l_turn l)) prompt_tokens max_tokens (a_from a) (l_window l) in
  let l := on_turn (set_projection p) (set_window window (put_conv c l)) in
  match outcome r with
  | Exhausted => finish (conclude (user_visible_llm_error_message (Llm CONTEXT_RECOVERY_EXHAUSTED)) l)
  | Progressed => (Next, l)
  end.

(** Context pressure after a call that went through. *)
Definition relieve (input_tokens : option Z) (a : Assembled) (l : Loop) : Loop :=
  match lc_budget lc, input_tokens with
  | Some budget, Some used =>
      if (lc_threshold lc budget <? used)%Z then
        let l := set_window (Nat.min (l_window l) (a_window a)) l in
        let new_window := Nat.max (l_window l / 2) MIN_CONTEXT_MESSAGES in
        if new_window <? l_window l then
          let l := set_window new_window l in
          let (llm, l) := asks (q_task_llm q) l in
          put_conv (compact_into_summary llm (conv_of l) (l_window l)).1 l
        else l
      else l
  | _, _ => l
  end.

(** A reply without tool calls. *)
Definition answer (first : bool) (prompt : string) (round : nat) (text : string) (l : Loop) : RoundEnd * Loop :=
  if tc_hosted cfg && bool_decide (tc_namespaces cfg ≠ []) && negb (l_demoted l) && (round <? 2) then
    let l := set_demoted true l in
    let l := if String.eqb text EmptyString then l else push_message Assistant text l in
    (Next, push_message System SEARCH_FALLBACK_NOTE l)
  else
    let visible := sanitize_assistant_text text in
    let visible := if String.eqb visible EmptyString && (0 <? round) then EMPTY_ANSWER else visible in
    finish (conclude_named first prompt visible l).

(** A reply with tool calls. *)
Definition call_tools (router : Router) (round : nat) (calls : list ToolCall) (l : Loop) : RoundEnd * Loop :=
  let (i, l) := asks (p_mint ports) l in
  let l := on_turn (ToolDispatch.set_messages (log l ++ [assistant_with_tool_calls i calls])) l in
  let (o, s) := dispatch_calls ports cfg router (tc_hosted cfg && negb (l_demoted l)) round calls (l_turn l) in
  match o with
  | Abandon => finish (abandon (set_turn s l))
  | Continue => (Next, on_turn (λ s, set_met (t_met s ∪ list_to_set (t_met_round s)) [] s) (set_turn s l))
  end.

(** What the provider's answer leads to. *)
Definition respond (first : bool) (prompt : string) (router : Router) (round : nat) (a : Assembled)
    (r : result LlmResponse CoreError) (l : Loop) : RoundEnd * Loop :=
  match r with
  | Err (ContextOverflow pt mt d) =>
      if l_retries l <? MAX_OVERFLOW_RETRIES then recover pt mt a l
      else finish (conclude (user_visible_llm_error_message (ContextOverflow pt mt d)) l)
  | Err ErrCancelled => finish (abandon l)
  | Err e => finish (conclude (user_visible_llm_error_message e) l)
  | Ok response =>
      let (cancelled, l) := asks (p_cancelled ports) l in
      if cancelled then finish (abandon l)
      else
        let l := relieve (resp_input_tokens response) a l in
        match resp_calls response with
        | [] => answer first prompt round (resp_text response) l
        | calls => call_tools router round calls l
        end
  end.

Definition one_round (first : bool) (prompt : string) (round : nat) (l : Loop) : RoundEnd * Loop :=
  let (cancelled, l) := asks (p_cancelled ports) l in
  if cancelled then finish (abandon l)
  else
    let l := sweep (narrate_due l) in
    let router := build_router (l_demoted l) (t_activations (l_turn l)) in
    let tools := advertised_definitions router in
    let offered := if l_demoted l then [] else offered_namespaces router (tc_namespaces cfg) in
    let (a, l) := assemble_round tools offered l in
    let (r, l) := complete_with (a_messages a) tools (if tc_hosted cfg && negb (l_demoted l) then offered else []) l in
    respond first prompt router round a r l.

(** The closing of a turn whose rounds are spent; the instruction is in the
    prompt only. *)
Definition wind_down (first : bool) (prompt : string) (l : Loop) : result string CoreError * Loop :=
  let (cancelled, l) := asks (p_cancelled ports) l in
  if cancelled then abandon l
  else
    let (pass, l) := asks (q_assemble q) l in
    let instructed := push_message User WIND_DOWN_INSTRUCTION l in
    let (ms, _) := assemble pass [] [] (l_window instructed) instructed in
    let l := on_turn (ToolDispatch.set_messages (take (length (log instructed) - 1) (log instructed))) instructed in
    let (r, l) := complete_with ms [] [] l in
    let closing :=
      match r with
      | Ok response =>
          let visible := sanitize_assistant_text (resp_text response) in
          if String.eqb (trim visible) EmptyString then WIND_DOWN_FALLBACK else visible
      | Err _ => WIND_DOWN_FALLBACK
      end in
    conclude_named first prompt closing l.

Fixpoint rounds (n : nat) (first : bool) (prompt : string) (round : nat) (l : Loop) : result string CoreError * Loop :=
  match n with
  | 0 => wind_down first prompt l
  | S n' =>
      match one_round first prompt round l with
      | (Next, l) => rounds n' first prompt (S round) l
      | (Done r, l) => (r, l)
      end
  end.

(** ** The start of a turn *)

(** The pointers an earlier turn's steps left, for the notes still there. *)
Definition carry_recorded_evictions (ms : list Message) (p : gmap string string) (s : TurnState W) : gmap string string * TurnState W :=
  let in_view := drop (window_start ms MAX_CONTEXT_MESSAGES) ms in
  match distilled_note_keys in_view with
  | [] => (p, s)
  | keys =>
      let (notes, s) := ask (λ w, q_live_notes q w (take MAX_KEYS_PER_CALL keys)) s in
      match notes with
      | Some found => ((carry_evictions in_view p (list_to_set found)).1, s)
      | None => (p, s)
      end
  end.

(** The state before the first round, for the conversation with its prompt. *)
Definition begin_turn (c : Conversation) (s : TurnState W) : Loop :=
  let (p, s) := carry_recorded_evictions (messages c) ∅ s in
  let (p, _) := project_oversized_tool_results (drop (window_start (messages c) MAX_CONTEXT_MESSAGES) (messages c)) p (tc_max_inline cfg) in
  let (llm, s) := ask (q_task_llm q) s in
  let c := (compact_into_summary llm c MAX_CONTEXT_MESSAGES).1 in
  let (stack, s) := ask (q_step_stack q) s in
  let (now, s) := ask (p_clock ports) s in
  let floor := NarrationFloor_new (match tc_interactivity cfg with Interactive => true | Headless => false end) now in
  mkLoop (set_floor floor (set_stack stack false (set_projection p (ToolDispatch.set_messages (messages c) s)))) c MAX_CONTEXT_MESSAGES
    false 0 false [].
End loop.

(** The turn's own configuration. *)
Definition for_turn (base : TurnConfig) (turn_start : nat) (nss : list Namespace) : TurnConfig :=
  {| tc_conversation := tc_conversation base; tc_turn_start := turn_start; tc_hosted := tc_hosted base; tc_namespaces := nss;
     tc_core_tools := tc_core_tools base; tc_client_port := tc_client_port base; tc_client_defs := tc_client_defs base;
     tc_allowlist := tc_allowlist base; tc_interactivity := tc_interactivity base; tc_hard_withhold := tc_hard_withhold base;
     tc_max_inline := tc_max_inline base; tc_max_stored := tc_max_stored base; tc_pad_wired := tc_pad_wired base;
     tc_skills_wired := tc_skills_wired base; tc_owner_todo := tc_owner_todo base; tc_ancestors := tc_ancestors base;
     tc_pad_scope := tc_pad_scope base; tc_burns := tc_burns base; tc_situation := tc_situation base;
     tc_burn_writer := tc_burn_writer base; tc_burn_corrector := tc_burn_corrector base |}.

Section turn.
Context `{!SerdeJson} {W : Type} (ports : TurnPorts W) (q : LoopPorts W) (lc : LoopConfig) (base : TurnConfig).

Definition user_message (i prompt : string) : Message :=
  {| id := i; role := User; content := prompt; tool_calls := []; tool_call_id := None; summary_id := None;
     idempotency_key := lc_idempotency lc; distilled_into := [] |}.

(** The conversation with the prompt, which is stored before anything runs. *)
Definition with_prompt (c : Conversation) (i prompt : string) : Conversation :=
  set_active_task (Messages.set_messages c (messages c ++ [user_message i prompt])) (Some prompt).

Definition fresh_state (c : Conversation) (w : W) : TurnState W :=
  mkTurn w [Saved c] (messages c) ∅ (TranscriptView_new (lc_user lc) (tc_conversation base)) RepeatLedger_new ActivationLedger_new
    (new_with_policy (lc_policy lc)) StepStack_new false None (NarrationFloor_new false 0) ∅ [].

(** The answer, and what others saw of the turn. *)
Definition run_turn (prompt : string) (w : W) : result string CoreError * list Effect :=
  let (cancelled, w) := p_cancelled ports w in
  if cancelled then (Err ErrCancelled, [])
  else
    let (cancelled, w) := p_cancelled ports w in
    if cancelled then (Err ErrCancelled, [])
    else
      let (loaded, w) := q_get q w (tc_conversation base) in
      match loaded with
      | Err e => (Err e, [])
      | Ok conv =>
          let (i, w) := p_mint ports w in
          let c := with_prompt conv i prompt in
          let (stored, w) := q_update q w c in
          match stored with
          | Err e => (Err e, [Saved c])
          | Ok _ =>
              let cfg := for_turn base (length (messages conv)) (allowed_namespaces (tc_allowlist base) (lc_raw_namespaces lc)) in
              let l := begin_turn ports q cfg c (fresh_state c w) in
              let (r, l) := rounds ports q lc cfg MAX_TOOL_ROUNDS (bool_decide (messages conv = [])) prompt 0 l in
              (r, t_trace (l_turn l))
          end
      end.
End turn.

(** ** What a turn leaves behind *)

Definition is_asked (e : Effect) : bool := match e with Asked _ => true | _ => false end.

(** The rows of [pre], whatever notes they were marked with since, open [ms]. *)
Definition opened_by (pre ms : list Message) : Prop := ∃ tail, map unmarked ms = map unmarked pre ++ tail.

Lemma opened_by_app pre ms tail : opened_by pre ms → opened_by pre (ms ++ tail).
Proof. intros [l Hl]. exists (l ++ map unmarked tail). by rewrite map_app, Hl, <- app_assoc. Qed.

Section outcome.
Context `{!SerdeJson} {W : Type} (ports : TurnPorts W) (q : LoopPorts W) (lc : LoopConfig) (cfg : TurnConfig).
(** The log the turn started from, what is assumed of it, and the first thing
    others saw. *)
Context (Hyp : Prop) (pre : list Message) (opening : Effect).

Notation Loop := (Loop (W := W)).

Definition acceptable (ms : list Message) : Prop := Hyp → paired ms ∧ opened_by pre ms.

(** So far every stored log was acceptable, and the model was asked [k] times. *)
Definition recorded (k : nat) (tr : list Effect) : Prop :=
  (∀ c, Saved c ∈ tr → acceptable (messages c)) ∧ length (filter is_asked tr) ≤ k ∧ head tr = Some opening.

Definition inv (k : nat) (l : Loop) : Prop := acceptable (log l) ∧ recorded k (t_trace (l_turn l)).

(** The log may be in the middle of a response's calls. *)
Definition half (k : nat) (l : Loop) : Prop :=
  (∃ done open, log l = done ++ open ∧ acceptable done ∧ ¬ opens_with_tool open) ∧ recorded k (t_trace (l_turn l)).

Lemma inv_half k l : inv k l → half k l.
Proof. intros [Hl Hr]. split; [|done]. exists (log l), []. by rewrite app_nil_r. Qed.

(** Steps that change no row and store and ask nothing. *)
Definition still (l l' : Loop) : Prop :=
  map unmarked (log l') = map unmarked (log l) ∧ ∃ es, t_trace (l_turn l') = t_trace (l_turn l) ++ es ∧ filter is_outer es = [].

Lemma still_refl l : still l l.
Proof. split; [done|]. exists []. by rewrite app_nil_r. Qed.

Lemma still_trans l1 l2 l3 : still l1 l2 → still l2 l3 → still l1 l3.
Proof.
  intros [Ha (ea & Hea & Hoa)] [Hb (eb & Heb & Hob)]. split; [congruence|]. exists (ea ++ eb).
  by rewrite Heb, Hea, filter_app, Hoa, Hob, <- app_assoc.
Qed.

#[local] Instance still_preorder : PreOrder still.
Proof. split; [exact still_refl|exact still_trans]. Qed.

Lemma quiet_still s s' l : quiet s s' → s = l_turn l → still l (set_turn s' l).
Proof.
  intros [Hx _] ->. destruct (ext_rows _ _ _ _ _ Hx) as (rows & Hr & Hids & _). split.
  - unfold log. simpl. rewrite Hr. by destruct rows; [rewrite app_nil_r|].
  - destruct (ext_trace _ _ _ _ _ Hx) as (es & He & _ & _ & Ho). by exists es.
Qed.

Lemma asks_still {A} (port : W → A * W) l : still l (asks port l).2.
Proof.
  unfold asks. pose proof (ask_quiet port (l_turn l)) as Hq. destruct (ask port (l_turn l)) as [a s]. by apply (quiet_still (l_turn l)).
Qed.

Lemma same_still l l' : log l' = log l → t_trace (l_turn l') = t_trace (l_turn l) → still l l'.
Proof. intros Hl Ht. split; [by rewrite Hl|]. exists []. by rewrite app_nil_r. Qed.

Lemma still_acceptable l l' : still l l' → acceptable (log l) → acceptable (log l').
Proof.
  intros [Hm _] Ha Hh. destruct (Ha Hh) as [Hp [tail Ht]]. split; [|exists tail; by rewrite Hm].
  apply paired_unmarked. rewrite Hm. by apply paired_unmarked.
Qed.

Lemma recorded_app k n tr es :
  recorded k tr → (∀ c, Saved c ∈ es → acceptable (messages c)) → length (filter is_asked es) ≤ n → recorded (k + n) (tr ++ es).
Proof.
  intros (Hs & Hn & Hh) He Hn'. split; [|split].
  - intros c [Hc|Hc]%elem_of_app; auto.
  - rewrite filter_app, length_app. lia.
  - by destruct tr.
Qed.

Lemma inner_recorded k tr es : recorded k tr → filter is_outer es = [] → recorded k (tr ++ es).
Proof.
  intros Hr Ho. assert (Hno : ∀ e, e ∈ es → is_outer e = false).
  { intros e He. destruct (is_outer e) eqn:E; [|done]. exfalso. assert (Hin : e ∈ filter is_outer es) by (apply list_elem_of_filter; by rewrite E).
    rewrite Ho in Hin. by apply not_elem_of_nil in Hin. }
  rewrite <- (Nat.add_0_r k). apply recorded_app; [done|..].
  - intros c Hc. by specialize (Hno _ Hc).
  - rewrite filter_none; [simpl; lia|]. intros e He Ha. specialize (Hno e He). by destruct e.
Qed.

Lemma still_recorded k l l' : still l l' → recorded k (t_trace (l_turn l)) → recorded k (t_trace (l_turn l')).
Proof. intros [_ (es & -> & Ho)] Hr. by apply inner_recorded. Qed.

Lemma still_inv k l l' : still l l' → inv k l → inv k l'.
Proof. intros Hs [Ha Hr]. split; [by eapply still_acceptable|by eapply still_recorded]. Qed.

Lemma asks_inv {A} (port : W → A * W) k l : inv k l → inv k (asks port l).2.
Proof. apply still_inv, asks_still. Qed.

Lemma acceptable_snoc ms m : acceptable ms → role m ≠ Tool → tool_calls m = [] → acceptable (ms ++ [m]).
Proof.
  intros Ha Hr Hc Hh. destruct (Ha Hh) as [Hp Ho]. split; [|by apply opened_by_app]. apply paired_app; [done|..].
  - apply paired_cons. split; [|apply paired_nil]. unfold requests. rewrite Hc. by rewrite (bool_decide_eq_false_2 (_ ≠ _)), andb_false_r by auto.
  - unfold opens_with_tool. simpl. by intros [= ?].
Qed.

Lemma push_message_inv k r text l :
  r ≠ Tool → inv k l →
  inv k (push_message ports r text l) ∧ ∃ i, last (log (push_message ports r text l)) = Some (Message_new i r text).
Proof.
  intros Hr Hl. unfold push_message. pose proof (asks_inv (p_mint ports) k l Hl) as Hi.
  destruct (asks (p_mint ports) l) as [i l1]. simpl in Hi. destruct Hi as [Ha Ht].
  split; [|exists i; unfold log; simpl; by rewrite last_snoc]. split; [|done]. by apply acceptable_snoc.
Qed.

(** *** Ways out *)

(** Somebody asked for the turn to stop: the caller, through the model's stream
    or through a client tool. *)
Definition cancelled : Prop :=
  (∃ w, (p_cancelled ports w).1 = true) ∨ (∃ w ms tools nss, (q_complete q w ms tools nss).1 = Err ErrCancelled) ∨
  (∃ w call name args, (p_run_client ports w call name args).1 = Err ErrCancelled).

(** How a turn ends: what it stored last ends in the answer it returns, in the
    cancellation notice, or the store refused it. *)
Definition ends (k : nat) (x : result string CoreError * Loop) : Prop :=
  recorded k (t_trace (l_turn x.2)) ∧
  ∃ c m, last (t_trace (l_turn x.2)) = Some (Saved c) ∧ last (messages c) = Some m ∧ role m = Assistant ∧ tool_calls m = [] ∧
    match x.1 with
    | Ok text => content m = text
    | Err e => (e = ErrCancelled ∧ cancelled ∧ ∃ a b, content m = cancelled_turn_notice a b) ∨ ∃ w w', q_update q w c = (Err e, w')
    end.

Lemma save_recorded k c l :
  recorded k (t_trace (l_turn l)) → acceptable (messages c) →
  recorded k (t_trace (l_turn (save q c l).2)) ∧ last (t_trace (l_turn (save q c l).2)) = Some (Saved c) ∧
  ∃ w w', q_update q w c = ((save q c l).1, w').
Proof.
  intros Hr Hc. unfold save, asks, ask. simpl. destruct (q_update q (t_world (l_turn l)) c) as [r w'] eqn:Hu. simpl.
  split; [|split; [by rewrite last_snoc|by eauto]]. rewrite <- (Nat.add_0_r k). apply recorded_app; [done| |done].
  intros c' Hin. apply list_elem_of_singleton in Hin. by simplify_eq.
Qed.

Lemma half_still k l l' : log l' = log l → still l l' → half k l → half k l'.
Proof. intros Hl Hs [Hlog Hr]. split; [by rewrite Hl|by eapply still_recorded]. Qed.

Lemma asks_log {A} (port : W → A * W) l : log (asks port l).2 = log l.
Proof. unfold asks, ask. by destruct (port (t_world (l_turn l))). Qed.

Lemma abandon_ends k l : cancelled → half k l → ends k (abandon ports q cfg l).
Proof.
  intros Hcancel Hl. unfold abandon, persist_abandoned_turn. set (executed := length _).
  pose proof (half_still k _ _ (asks_log (q_mints q) l) (asks_still (q_mints q) l) Hl) as H1. destruct (asks (q_mints q) l) as [mint l1]. simpl in H1.
  destruct (close_unanswered_tool_calls mint (log l1)) as [ms unanswered] eqn:Hclose.
  assert (Hms : acceptable ms).
  { destruct H1 as [(dn & op & Hlog & Hdn & Hop) _]. intros Hh. destruct (Hdn Hh) as [Hp Ho].
    pose proof (close_is_closed mint (log l1)) as Hc. rewrite Hclose in Hc. simpl in Hc. rewrite Hc. split; [by apply closed_paired|].
    rewrite Hlog. destruct (closed_app mint 0 op Hop (length (dn ++ op)) dn Hp (le_n _)) as (f & _ & ->). by apply opened_by_app. }
  pose proof (half_still k _ _ (asks_log (p_mint ports) l1) (asks_still (p_mint ports) l1) H1) as H2. destruct (asks (p_mint ports) l1) as [i l2]. simpl in H2.
  pose proof (half_still k _ _ (asks_log (q_stamp q) l2) (asks_still (q_stamp q) l2) H2) as H3. destruct (asks (q_stamp q) l2) as [now l3]. simpl in H3.
  destruct H3 as [_ Hr]. set (notice := Message_new i Assistant _). set (c := set_updated_at _ now).
  destruct (save_recorded k c l3 Hr) as (Hrec & Hlast & _); [by apply acceptable_snoc|].
  split; [done|]. exists c, notice. split; [done|]. split; [apply last_snoc|]. split; [done|]. split; [done|]. left. split; [done|]. split; [done|]. by eexists _, _.
Qed.

Lemma persist_turn_ends k i text l :
  inv k l → last (log l) = Some (Message_new i Assistant text) → ends k (persist_turn q text l).
Proof.
  intros Hl Hlast. unfold persist_turn. pose proof (asks_inv (q_stamp q) k l Hl) as H1. pose proof (asks_log (q_stamp q) l) as Hlog.
  destruct (asks (q_stamp q) l) as [now l1]. cbn [snd] in *. set (l2 := put_conv _ l1).
  assert (H2 : inv k l2) by (eapply still_inv; [|exact H1]; by apply same_still). destruct H2 as [Ha Hr].
  destruct (save_recorded k (conv_of l2) l2 Hr Ha) as (Hrec & Hsaved & (w & w' & Hu)).
  assert (Hm : last (messages (conv_of l2)) = Some (Message_new i Assistant text)) by (change (last (log l1) = Some (Message_new i Assistant text)); by rewrite Hlog).
  destruct (save q (conv_of l2) l2) as [[u|e] l3]; (split; [done|]); exists (conv_of l2), (Message_new i Assistant text);
    (split; [done|]); (split; [done|]); (split; [done|]); (split; [done|]); [done|]. right. by eauto.
Qed.

Lemma conclude_ends k text l : inv k l → ends k (conclude ports q text l).
Proof. intros Hl. destruct (push_message_inv k Assistant text l) as [Hi [i Hlast]]; [done|done|]. by eapply persist_turn_ends. Qed.

Lemma name_conversation_log first prompt l : log (name_conversation q lc first prompt l) = log l ∧ still l (name_conversation q lc first prompt l).
Proof.
  unfold name_conversation. destruct first; [|done]. pose proof (asks_log (q_task_llm q) l) as Hlog. pose proof (asks_still (q_task_llm q) l) as Hs.
  destruct (asks _ l) as [llm l1]. cbn [snd] in *. destruct (String.eqb _ _); [done|]. split; [done|]. etrans; [exact Hs|]. by apply same_still.
Qed.

Lemma conclude_named_ends k first prompt text l : inv k l → ends k (conclude_named ports q lc first prompt text l).
Proof.
  intros Hl. unfold conclude_named. destruct (push_message_inv k Assistant text l) as [Hi [i Hlast]]; [done|done|].
  destruct (name_conversation_log first prompt (push_message ports Assistant text l)) as [Hlog Hs].
  apply (persist_turn_ends k i); [by eapply still_inv|by rewrite Hlog].
Qed.

(** *** The parts of a round *)

Lemma narrate_due_still l : still l (narrate_due ports l).
Proof.
  unfold narrate_due. pose proof (asks_still (p_clock ports) l) as Hs. destruct (asks _ l) as [now l1]. simpl in Hs.
  destruct (take_due_line _ _) as [floor line]. etrans; [exact Hs|]. split; [done|]. eexists. split; [done|]. by destruct line.
Qed.

Lemma sweep_rows ms p n : map unmarked (evict_superseded_tool_results ms p n).1.1 = map unmarked ms.
Proof.
  unfold evict_superseded_tool_results. set (k := Nat.min _ _). pose proof (evict_keeps_rows (take k ms) p 0 [] Absent Superseded) as Hr.
  destruct (evict_tool_results _ _ _ _ _ _) as [[hd p'] o]. simpl in *. by rewrite map_app, Hr, <- map_app, take_drop.
Qed.

Lemma sweep_still l : still l (sweep l).
Proof.
  unfold sweep. destruct (_ !! _) as [previous|]; [|by apply same_still]. destruct (2 <=? _); [|by apply same_still].
  set (prot := match open_watermark _ with Some _ => _ | None => _ end). pose proof (sweep_rows (log l) (t_projection (l_turn l)) prot) as Hr.
  destruct (evict_superseded_tool_results _ _ _) as [[ms p] o]. split; [exact Hr|]. exists []. simpl. by rewrite app_nil_r.
Qed.

Lemma compact_range_messages llm c from to : messages (compact_range_into_summary llm c from to).1 = messages c.
Proof. unfold compact_range_into_summary. destruct (_ <=? _); [done|]. by destruct (generate_context_summary _ _ _). Qed.

Lemma compact_messages llm c n : messages (compact_into_summary llm c n).1 = messages c.
Proof.
  unfold compact_into_summary. destruct (compaction_range c n) as [[from to]|]; [|done].
  pose proof (compact_range_messages llm c from to) as Hm. by destruct (compact_range_into_summary _ _ _ _).
Qed.

Lemma preflight_messages llm c from n : messages (compact_preflight_shrink llm c from n).1 = messages c.
Proof.
  unfold compact_preflight_shrink. destruct (_ <=? _); [done|]. destruct (_ <=? _); [done|].
  pose proof (compact_range_messages llm c (compacted_through c) from) as Hm. by destruct (compact_range_into_summary _ _ _ _).
Qed.

Lemma recover_messages llm estimate c p pt mt from n : messages (recover_from_overflow llm estimate c p pt mt from n).1.1.1 = messages c.
Proof.
  unfold recover_from_overflow. destruct (recover_step1 _ _ _ _ _) as [p1 freed].
  match goal with |- context [if (freed =? 0)%Z then ?a else ?b] => destruct (if (freed =? 0)%Z then a else b) as [p2 freed2] end.
  match goal with |- context [if ?enough then (c, p2, n, _) else _] => destruct enough; [done|] end.
  set (w := if Nat.ltb _ _ then _ else n). pose proof (compact_messages llm c w) as Hm. by destruct (compact_into_summary llm c w).
Qed.

Lemma put_conv_still c l : messages c = log l → still l (put_conv c l).
Proof. intros Hm. by apply same_still. Qed.

Lemma assemble_round_still tools nss l : still l (assemble_round q lc tools nss l).2.
Proof.
  unfold assemble_round. pose proof (asks_still (q_assemble q) l) as Hs. destruct (asks _ l) as [pass l1]. cbn [snd] in Hs.
  destruct (assemble lc pass tools nss (assembly_window lc l1) l1) as [ms from].
  destruct (l_folded l1); [done|]. pose proof (asks_still (q_task_llm q) l1) as Hs2. destruct (asks _ l1) as [llm l2]. cbn [snd] in Hs2.
  pose proof (preflight_messages llm (conv_of l2) from (l_window l2)) as Hm.
  destruct (compact_preflight_shrink _ _ _ _) as [c fold]. cbn [fst] in Hm. pose proof (put_conv_still c l2 Hm) as Hs3.
  assert (Hall : still l (put_conv c l2)) by (etrans; [exact Hs|]; by etrans).
  destruct fold; [done| |]; cbn [snd].
  - destruct (assemble _ _ _ _ _ _) as [ms' from']. cbn [snd]. etrans; [exact Hall|by apply same_still].
  - etrans; [exact Hall|by apply same_still].
Qed.

Lemma complete_with_inv k ms tools nss l : inv k l → inv (S k) (complete_with q ms tools nss l).2.
Proof.
  intros [Ha Hr]. unfold complete_with. apply asks_inv. split; [done|]. simpl. rewrite <- Nat.add_1_r. by apply recorded_app; [|set_solver|].
Qed.

Lemma relieve_still tokens a l : still l (relieve q lc tokens a l).
Proof.
  unfold relieve. destruct (lc_budget lc) as [budget|]; [|done]. destruct tokens as [used|]; [|done]. destruct (_ <? _)%Z; [|done].
  set (l1 := set_window _ l). assert (H1 : still l l1) by by apply same_still. destruct (_ <? _); [|done].
  set (l2 := set_window _ l1). assert (H2 : still l1 l2) by by apply same_still. pose proof (asks_still (q_task_llm q) l2) as H3.
  destruct (asks _ l2) as [llm l3]. cbn [snd] in H3. etrans; [exact H1|]. etrans; [exact H2|]. etrans; [exact H3|].
  apply put_conv_still. by rewrite compact_messages.
Qed.

(** What a round promises. *)
Definition round_ok (k : nat) (x : RoundEnd * Loop) : Prop :=
  match x.1 with Next => inv k x.2 | Done r => ends k (r, x.2) end.

Lemma finish_ok k x : ends k x → round_ok k (finish x).
Proof. by destruct x. Qed.

Lemma recover_ok k pt mt a l : inv k l → round_ok k (recover ports q lc pt mt a l).
Proof.
  intros Hl. unfold recover. set (l1 := set_window _ _). assert (H1 : inv k l1) by (eapply still_inv; [|exact Hl]; by apply same_still).
  pose proof (asks_inv (q_task_llm q) k l1 H1) as H2. destruct (asks _ l1) as [llm l2]. cbn [snd] in H2.
  pose proof (recover_messages llm (lc_estimate lc) (conv_of l2) (t_projection (l_turn l2)) pt mt (a_from a) (l_window l2)) as Hm.
  destruct (recover_from_overflow _ _ _ _ _ _ _ _) as [[[c p] window] r]. cbn [fst] in Hm. set (l3 := on_turn _ _).
  assert (H3 : inv k l3) by (eapply still_inv; [|exact H2]; by apply same_still).
  destruct (outcome r); [done|]. by apply finish_ok, conclude_ends.
Qed.

Lemma answer_ok k first prompt round text l : inv k l → round_ok k (answer ports q lc cfg first prompt round text l).
Proof.
  intros Hl. unfold answer. destruct (_ && _); [|by apply finish_ok, conclude_named_ends].
  set (l1 := set_demoted true l). assert (H1 : inv k l1) by (eapply still_inv; [|exact Hl]; by apply same_still).
  set (l2 := if String.eqb text EmptyString then l1 else _).
  assert (H2 : inv k l2) by (unfold l2; destruct (String.eqb _ _); [done|]; by apply push_message_inv). by apply push_message_inv.
Qed.

Lemma dispatched_rows router deferring round i calls s :
  let s1 := ToolDispatch.set_messages (t_messages s ++ [assistant_with_tool_calls i calls]) s in
  let (o, s') := dispatch_calls ports cfg router deferring round calls s1 in
  ∃ done open, t_messages s' = done ++ open ∧ map unmarked done = map unmarked (t_messages s) ∧ ¬ opens_with_tool open ∧
    (∃ es, t_trace s' = t_trace s ++ es ∧ filter is_outer es = []).
Proof.
  intros s1. pose proof (dispatch_calls_extends ports cfg router deferring round calls s1) as Hd.
  destruct (dispatch_calls _ _ _ _ _ calls s1) as [o s']. destruct Hd as (n & fs & rs & _ & _ & Hx & _).
  destruct (ext_rows _ _ _ _ _ Hx) as (rows & Hrows & _). destruct (ext_trace _ _ _ _ _ Hx) as (es & He & _ & _ & Ho).
  exists (take (length (t_messages s)) (t_messages s')), (drop (length (t_messages s)) (t_messages s')).
  split; [by rewrite take_drop|]. unfold s1 in Hrows. simpl in Hrows. rewrite map_app, <- app_assoc in Hrows.
  split; [|split; [|by exists es]].
  - rewrite <- firstn_map, Hrows. rewrite <- (length_map unmarked (t_messages s)). apply take_app_length.
  - assert (Hdrop : map unmarked (drop (length (t_messages s)) (t_messages s')) = [unmarked (assistant_with_tool_calls i calls)] ++ rows).
    { rewrite <- skipn_map, Hrows, <- (length_map unmarked (t_messages s)). apply drop_app_length. }
    unfold opens_with_tool. destruct (drop _ (t_messages s')) as [|m rest]; [done|].
    assert (Hr : role <$> head (map unmarked (m :: rest)) = Some Assistant) by (by rewrite Hdrop). simpl in *. congruence.
Qed.

Lemma asks_cancelled l l' : asks (p_cancelled ports) l = (true, l') → cancelled.
Proof. unfold asks, ask. destruct (p_cancelled ports _) as [b w] eqn:Hc. intros [= -> _]. left. eexists. by rewrite Hc. Qed.

Lemma dispatch_cancelled router deferring round calls s s' :
  dispatch_calls ports cfg router deferring round calls s = (Abandon, s') → cancelled.
Proof.
  revert s. induction calls as [|call rest IH]; intros s; cbn [dispatch_calls]; [done|].
  destruct (dispatch_call ports cfg router deferring round call s) as [[|] s1] eqn:Hd; [apply IH|]. intros _. clear IH. revert Hd.
  unfold dispatch_call. unfold ask at 1. destruct (p_cancelled ports (t_world s)) as [b w] eqn:Hc.
  destruct b; [intros _; left; eexists; by rewrite Hc|]. unfold serve. destruct (parse_arguments _ _) as [args|]; [|done].
  destruct (_ && String.eqb _ _); [by destruct (promote _ _ _ _)|]. destruct (_ && _); [by destruct (step_control _ _ _ _)|].
  destruct (mint_scope _ _ _ _) as [scope s2]. destruct (guards _ _ _ _ _ _ _ s2) as [[answer|] s3]; [done|].
  unfold run_and_settle, run_call. destruct (runs_on_client _ _).
  - unfold run_client, ask. destruct (p_run_client _ _ _ _ _) as [r w'] eqn:Hr. destruct r as [o|e]; [done|]. destruct e; try done.
    intros _. right. right. eexists _, _, _, _. by rewrite Hr.
  - unfold run_server, ask. destruct (p_run_tool _ _ _ _ _ _) as [r w']. by destruct (advance_tool_completion_status _ _ _).
Qed.

Lemma call_tools_ok k router round calls l : inv k l → round_ok k (call_tools ports q cfg router round calls l).
Proof.
  intros Hl. unfold call_tools. pose proof (asks_inv (p_mint ports) k l Hl) as H1. destruct (asks _ l) as [i l1]. cbn [snd] in H1.
  set (l2 := on_turn _ l1). set (deferring := _ && _).
  pose proof (dispatched_rows router deferring round i calls (l_turn l1)) as Hd.
  pose proof (λ Hlog, round_pairs ports cfg router deferring round i calls (l_turn l1) Hlog) as Hp. cbv zeta in Hd, Hp.
  change (ToolDispatch.set_messages (t_messages (l_turn l1) ++ [assistant_with_tool_calls i calls]) (l_turn l1)) with (l_turn l2) in Hd, Hp.
  destruct (dispatch_calls _ _ _ _ _ calls (l_turn l2)) as [o s'] eqn:Hds.
  destruct Hd as (dn & op & Hlog & Hdn & Hop & (es & He & Hes)). destruct H1 as [Ha Hr].
  assert (Hr' : recorded k (t_trace s')) by (rewrite He; by apply inner_recorded).
  assert (Hacc : acceptable dn).
  { intros Hh. destruct (Ha Hh) as [Hpa [tail Ht]]. unfold log in *. split; [apply paired_unmarked; rewrite Hdn; by apply paired_unmarked|].
    exists tail. by rewrite Hdn. }
  destruct o.
  - split; [|done]. intros Hh. destruct (Ha Hh) as [Hpa _]. split; [by apply Hp|]. change (opened_by pre (t_messages s')). rewrite Hlog.
    apply opened_by_app. by apply Hacc.
  - apply finish_ok, abandon_ends; [by eapply dispatch_cancelled|]. split; [|done]. exists dn, op. done.
Qed.

Lemma respond_ok k first prompt router round a r l :
  (r = Err ErrCancelled → cancelled) → inv k l → round_ok k (respond ports q lc cfg first prompt router round a r l).
Proof.
  intros Hcancel Hl. unfold respond. destruct r as [response|e].
  - pose proof (asks_inv (p_cancelled ports) k l Hl) as H1. destruct (asks (p_cancelled ports) l) as [stop l1] eqn:Hask. cbn [snd] in H1.
    destruct stop; [apply finish_ok, abandon_ends, inv_half; [by eapply asks_cancelled|done]|].
    pose proof (still_inv k _ _ (relieve_still (resp_input_tokens response) a l1) H1) as H2.
    destruct (resp_calls response) as [|call calls]; [by apply answer_ok|by apply call_tools_ok].
  - destruct e; try (by apply finish_ok, conclude_ends); [|apply finish_ok, abandon_ends, inv_half; [by apply Hcancel|done]].
    destruct (_ <? _); [by apply recover_ok|by apply finish_ok, conclude_ends].
Qed.

Lemma inv_weaken k k' l : k ≤ k' → inv k l → inv k' l.
Proof. intros Hk [Ha (Hs & Hn & Hh)]. split; [done|]. split; [done|]. split; [lia|done]. Qed.

Lemma one_round_ok k first prompt round l : inv k l → round_ok (S k) (one_round ports q lc cfg first prompt round l).
Proof.
  intros Hl. unfold one_round. pose proof (asks_inv (p_cancelled ports) k l Hl) as H1.
  destruct (asks (p_cancelled ports) l) as [stop l1] eqn:Hask. cbn [snd] in H1.
  destruct stop; [apply finish_ok, abandon_ends, inv_half, (inv_weaken k); [by eapply asks_cancelled|lia|done]|].
  assert (H2 : inv k (sweep (narrate_due ports l1))).
  { eapply still_inv; [apply sweep_still|]. eapply still_inv; [apply narrate_due_still|done]. }
  set (l2 := sweep _) in *. set (router := build_router _ _ _ _). set (tools := advertised_definitions router). set (offered := if l_demoted l2 then [] else offered_namespaces router (tc_namespaces cfg)).
  pose proof (still_inv k _ _ (assemble_round_still tools offered l2) H2) as H3. destruct (assemble_round _ _ _ _ l2) as [a l3]. cbn [snd] in H3.
  set (nss := if tc_hosted cfg && negb (l_demoted l3) then offered else []). pose proof (complete_with_inv k (a_messages a) tools nss l3 H3) as H4.
  assert (Hcancel : (complete_with q (a_messages a) tools nss l3).1 = Err ErrCancelled → cancelled).
  { unfold complete_with, asks, ask. destruct (q_complete _ _ _ _ _) as [r w] eqn:Hr. simpl. intros ->. right. left. eexists _, _, _, _. by rewrite Hr. }
  destruct (complete_with _ _ _ _ l3) as [r l4]. cbn [fst snd] in *. by apply respond_ok.
Qed.

Lemma wind_down_ends k first prompt l : inv k l → ends (S k) (wind_down ports q lc cfg first prompt l).
Proof.
  intros Hl. unfold wind_down. pose proof (asks_inv (p_cancelled ports) k l Hl) as H1.
  destruct (asks (p_cancelled ports) l) as [stop l1] eqn:Hask. cbn [snd] in H1.
  destruct stop; [apply abandon_ends, inv_half, (inv_weaken k); [by eapply asks_cancelled|lia|done]|].
  pose proof (asks_inv (q_assemble q) k l1 H1) as H2. destruct (asks _ l1) as [pass l2]. cbn [snd] in H2.
  set (l3 := push_message ports User WIND_DOWN_INSTRUCTION l2). destruct (assemble _ _ _ _ _ l3) as [ms from].
  set (l4 := on_turn _ l3).
  assert (H4 : inv k l4).
  { eapply still_inv; [|exact H2]. unfold l4, l3, push_message. pose proof (asks_log (p_mint ports) l2) as Hlog.
    pose proof (asks_still (p_mint ports) l2) as Hs. destruct (asks _ l2) as [i l2']. cbn [snd] in *. etrans; [exact Hs|].
    apply same_still; [|done]. unfold log. simpl. rewrite length_app, Nat.add_sub. apply take_app_length. }
  pose proof (complete_with_inv k ms [] [] l4 H4) as H5. destruct (complete_with _ _ _ _ l4) as [r l5]. cbn [snd] in H5.
  by apply conclude_named_ends.
Qed.

Lemma rounds_end n k first prompt round l : inv k l → ends (k + n + 1) (rounds ports q lc cfg n first prompt round l).
Proof.
  revert k round l. induction n as [|n IH]; intros k round l Hl; cbn [rounds].
  { replace (k + 0 + 1) with (S k) by lia. by apply wind_down_ends. }
  pose proof (one_round_ok k first prompt round l Hl) as Hr. destruct (one_round _ _ _ _ _ _ _ l) as [[|r] l']; unfold round_ok in Hr; cbn [fst snd] in Hr.
  - replace (k + S n + 1) with (S k + n + 1) by lia. by apply IH.
  - destruct Hr as [(Hs & Hn & Hh) Hend]. split; [|exact Hend]. split; [done|]. split; [|done]. cbn [snd] in *. lia.
Qed.

Lemma begin_turn_inv c s :
  messages c = pre → (Hyp → paired pre) → recorded 0 (t_trace s) → inv 0 (begin_turn ports q cfg c s).
Proof.
  intros Hc Hp Hr. unfold begin_turn.
  assert (H1 : t_trace (carry_recorded_evictions q (messages c) ∅ s).2 = t_trace s).
  { unfold carry_recorded_evictions. destruct (distilled_note_keys _); [done|]. unfold ask. destruct (q_live_notes _ _ _) as [notes w].
    by destruct notes. }
  destruct (carry_recorded_evictions _ _ _ s) as [p1 s1]. cbn [snd] in H1. destruct (project_oversized_tool_results _ _ _) as [p2 n2].
  unfold ask. destruct (q_task_llm _ _) as [llm w1]. destruct (q_step_stack _ _) as [stack w2]. destruct (p_clock _ _) as [now w3].
  split; [|simpl; by rewrite H1]. unfold log. simpl. rewrite compact_messages, Hc. intros Hh. split; [by apply Hp|]. exists []. by rewrite app_nil_r.
Qed.
End outcome.

(** ** What a turn promises *)

Section promises.
Context `{!SerdeJson} {W : Type} (ports : TurnPorts W) (q : LoopPorts W) (lc : LoopConfig) (base : TurnConfig).

(** The conversation a turn found in the store. *)
Definition loaded (c : Conversation) : Prop := ∃ w w', q_get q w (tc_conversation base) = (Ok c, w').

Lemma prompt_paired c i prompt : paired (messages c) → paired (messages (with_prompt lc c i prompt)).
Proof.
  intros Hp. simpl. apply paired_app; [done|..].
  - by apply paired_cons; split; [|apply paired_nil].
  - unfold opens_with_tool. simpl. by intros [= ?].
Qed.

(** A turn stored nothing, or its prompt was refused, or it went on from the
    conversation with the prompt to one of the ways out. *)
Lemma run_turn_shape prompt w :
  let (r, tr) := run_turn ports q lc base prompt w in
  (tr = [] ∧ ∃ e, r = Err e ∧ (e = ErrCancelled ∧ cancelled ports q ∨ ∃ w w', q_get q w (tc_conversation base) = (Err e, w'))) ∨
  ∃ c i, loaded c ∧
    ((tr = [Saved (with_prompt lc c i prompt)] ∧ ∃ e w w', r = Err e ∧ q_update q w (with_prompt lc c i prompt) = (Err e, w')) ∨
     ∀ Hyp : Prop, (Hyp → paired (messages c)) →
       ∃ l, tr = t_trace (l_turn l) ∧
         ends ports q Hyp (messages (with_prompt lc c i prompt)) (Saved (with_prompt lc c i prompt)) (MAX_TOOL_ROUNDS + 1) (r, l)).
Proof.
  assert (Hstop : ∀ v b v', p_cancelled ports v = (b, v') → b = true →
    ([] : list Effect) = [] ∧ ∃ e, Err (A := string) ErrCancelled = Err e ∧
      (e = ErrCancelled ∧ cancelled ports q ∨ ∃ w w', q_get q w (tc_conversation base) = (Err e, w'))).
  { intros v b v' Hv ->. split; [done|]. exists ErrCancelled. split; [done|]. left. split; [done|]. left. exists v. by rewrite Hv. }
  unfold run_turn. destruct (p_cancelled ports w) as [c1 w1] eqn:Hc1. destruct c1; [left; by eapply Hstop|].
  destruct (p_cancelled ports w1) as [c2 w2] eqn:Hc2. destruct c2; [left; by eapply Hstop|].
  destruct (q_get q w2 (tc_conversation base)) as [[conv|e] w3] eqn:Hget; [|left; by eauto 10].
  destruct (p_mint ports w3) as [i w4]. set (c := with_prompt lc conv i prompt). destruct (q_update q w4 c) as [[u|e] w5] eqn:Hup.
  2:{ right. exists conv, i. split; [by eexists _, _|]. left. split; [done|]. by eexists _, _, _. }
  set (cfg := for_turn _ _ _). set (l0 := begin_turn ports q cfg c (fresh_state lc base c w5)).
  destruct (rounds ports q lc cfg MAX_TOOL_ROUNDS (bool_decide (messages conv = [])) prompt 0 l0) as [r l] eqn:Hrounds. right. exists conv, i.
  split; [by eexists _, _|]. right. intros Hyp Hp.
  assert (Hc : Hyp → paired (messages c)) by (intros Hh; by apply prompt_paired, Hp).
  assert (H0 : inv Hyp (messages c) (Saved c) 0 l0).
  { apply begin_turn_inv; [done|done|]. split; [|by split]. simpl. intros c' Hin%list_elem_of_singleton. simplify_eq. intros Hh.
    split; [by apply Hc|]. exists []. by rewrite app_nil_r. }
  pose proof (rounds_end ports q lc cfg Hyp (messages c) (Saved c) MAX_TOOL_ROUNDS 0 (bool_decide (messages conv = [])) prompt 0 l0 H0) as He.
  rewrite Hrounds in He. by exists l.
Qed.

(** C11. Whatever the model, the tools, the user and the store do, every
    conversation a turn hands to the store is one a provider accepts - each tool
    call answered right behind the message that made it, on the ways out through
    errors and cancellations too - and holds the rows it was loaded with and the
    prompt, in place, before anything the turn added. *)
Theorem a_turn_stores_only_acceptable_logs prompt w (Hstore : ∀ c, loaded c → paired (messages c)) :
  ∀ c, Saved c ∈ (run_turn ports q lc base prompt w).2 →
    paired (messages c) ∧ ∃ c0 i, loaded c0 ∧ opened_by (messages c0 ++ [user_message lc i prompt]) (messages c).
Proof.
  intros c Hc. pose proof (run_turn_shape prompt w) as Hs. destruct (run_turn _ _ _ _ prompt w) as [r tr]. cbn [snd] in Hc.
  destruct Hs as [[-> _]|(c0 & i & Hload & [[-> _]|Hends])]; [by apply not_elem_of_nil in Hc|..].
  - apply list_elem_of_singleton in Hc. simplify_eq. split; [by apply prompt_paired, Hstore|]. exists c0, i. split; [done|].
    exists []. by rewrite app_nil_r.
  - destruct (Hends True (λ _, Hstore c0 Hload)) as (l & -> & (Hsaved & _) & _). destruct (Hsaved c Hc I) as [Hp Ho]. split; [done|].
    by exists c0, i.
Qed.

(** C12. A turn that answers has stored its answer: the last conversation it
    handed to the store ends in an assistant message with exactly the text it
    returns.  Provider errors, tool failures, spent rounds and failed compactions
    all end that way; a turn fails only because it was cancelled, and then its
    last store ends in the cancellation notice, or because the store would not
    give or take the conversation.  The prompt is the first thing stored. *)
Theorem a_turn_ends_in_what_it_stored prompt w :
  let (r, tr) := run_turn ports q lc base prompt w in
  (tr = [] ∧ ∃ e, r = Err e ∧ (e = ErrCancelled ∧ cancelled ports q ∨ ∃ w w', q_get q w (tc_conversation base) = (Err e, w'))) ∨
  ∃ c0 i, loaded c0 ∧ head tr = Some (Saved (with_prompt lc c0 i prompt)) ∧
    ∃ c m, last tr = Some (Saved c) ∧ last (messages c) = Some m ∧
      match r with
      | Ok text => role m = Assistant ∧ tool_calls m = [] ∧ content m = text
      | Err e =>
          (∃ w w', q_update q w c = (Err e, w')) ∨
          (e = ErrCancelled ∧ cancelled ports q ∧ role m = Assistant ∧ ∃ ran missing, content m = cancelled_turn_notice ran missing)
      end.
Proof.
  pose proof (run_turn_shape prompt w) as Hs. destruct (run_turn _ _ _ _ prompt w) as [r tr].
  destruct Hs as [He|(c0 & i & Hload & [(-> & e & v & v' & -> & Hu)|Hends])]; [by left|..]; right; exists c0, i; (split; [done|]).
  - split; [done|]. exists (with_prompt lc c0 i prompt), (user_message lc i prompt). split; [done|]. split; [apply last_snoc|]. left. by eauto.
  - destruct (Hends False) as (l & -> & (_ & _ & Hh) & c & m & Hlast & Hm & Hrole & Hcalls & Hr); [done|]. cbn [fst snd] in *. split; [done|].
    exists c, m. split; [done|]. split; [done|]. destruct r as [text|e]; [done|]. destruct Hr as [(-> & Hc & Hn)|Hu]; [right|by left]. done.
Qed.

(** A turn asks the model at most once a round and once more to wind down:
    two hundred and one calls, whatever overflows, retries and tool calls come
    back. *)
Theorem a_turn_asks_boundedly prompt w :
  length (filter is_asked (run_turn ports q lc base prompt w).2) ≤ MAX_TOOL_ROUNDS + 1.
Proof.
  pose proof (run_turn_shape prompt w) as Hs. destruct (run_turn _ _ _ _ prompt w) as [r tr]. cbn [snd].
  destruct Hs as [[-> _]|(c0 & i & Hload & [[-> _]|Hends])]; [simpl; lia|simpl; lia|].
  destruct (Hends False) as (l & -> & (_ & Hn & _) & _); [done|]. exact Hn.
Qed.
End promises.

(** ** A concrete turn *)

Definition demo_conversation : Conversation :=
  Messages.set_messages (Conversation_new "conv" "Greetings") [Message_new "m1" User "hello"; Message_new "m2" Assistant "hi"].

(** Asks for a tool first, then answers. *)
Definition demo_complete (w : nat) (ms : list Message) (tools : list Def) (nss : list Namespace) : result LlmResponse CoreError * nat :=
  (Ok (if w <? 5 then {| resp_text := EmptyString; resp_calls := demo_calls; resp_input_tokens := None |}
       else {| resp_text := "done"; resp_calls := []; resp_input_tokens := None |}), w).

Definition demo_loop_ports : LoopPorts nat :=
  {| q_get := λ w _, (Ok demo_conversation, w);
     q_update := λ w _, (Ok tt, S w);
     q_live_notes := λ w _, (None, w);
     q_complete := demo_complete;
     q_task_llm := λ w, (λ _, None, w);
     q_assemble := λ w, (λ c _ _ _ _, (messages c, 0%Z), w);
     q_step_stack := λ w, (StepStack_new, w);
     q_mints := λ w, (λ k, "p" +:+ pretty k, w);
     q_stamp := λ w, ("2026-01-01 00:00:00", w) |}.

Definition demo_lc : LoopConfig :=
  {| lc_user := "ada"; lc_idempotency := None; lc_policy := Standard; lc_raw_namespaces := []; lc_step_tools := [];
     lc_promote_tool := {| ToolRouting.name := PROMOTE_PLAN_TOOL; description := "d"; parameters := Null |};
     lc_budget := None; lc_threshold := λ b, b; lc_window_tokens := None; lc_estimate := λ s, Z.of_nat (String.length s);
     lc_title_len := String.length |}.

Definition demo_turn_run : result string CoreError * list Effect :=
  @run_turn demo_json nat demo_ports demo_loop_ports demo_lc demo_cfg "again" 0.

Example demo_turn_answers : demo_turn_run.1 = Ok "done".
Proof. vm_compute. reflexivity. Qed.

Lemma a_turn_stores_only_acceptable_logs_witness :
  (length (filter is_asked demo_turn_run.2) = 2) ∧
  ∀ c, Saved c ∈ (@run_turn demo_json nat demo_ports demo_loop_ports demo_lc demo_cfg "again" 0).2 → paired (messages c).
Proof.
  split; [vm_compute; reflexivity|]. intros c Hc.
  assert (Hstore : ∀ c, loaded demo_loop_ports demo_cfg c → paired (messages c)).
  { intros c' (w & w' & [= <- _]). intros [|[|[|i]]] m; simpl; try done; by intros [= <-]. }
  exact (proj1 (@a_turn_stores_only_acceptable_logs demo_json nat demo_ports demo_loop_ports demo_lc demo_cfg "again" 0 Hstore c Hc)).
Defined.

(** A turn that is cancelled after one of its calls was refused. *)
Definition stopping_ports : TurnPorts nat :=
  {| p_cancelled := λ w, (5 <=? w, S w); p_clock := λ w, (0%Z, w); p_mint := λ w, ("row", w);
     p_run_tool := λ w _ _ name _, (Ok ("ran " +:+ name), w); p_run_client := λ w _ _ _, (Err ErrCancelled, w);
     p_tool_definition := λ w _, (None, w); p_step_env := λ w, (demo_step_env, w); p_promote_plan := λ w _ _ _, ("{}", w);
     p_capability_taken := λ w, (true, w); p_take_written := λ w _, (None, w); p_json_error := λ s, s; p_debug := λ s, s;
     p_sha256 := λ s, s |}.

Definition stopping_loop_ports : LoopPorts nat :=
  {| q_get := λ w _, (Ok demo_conversation, w); q_update := λ w _, (Ok tt, w); q_live_notes := λ w _, (None, w);
     q_complete := demo_complete; q_task_llm := λ w, (λ _, None, w); q_assemble := λ w, (λ c _ _ _ _, (messages c, 0%Z), w);
     q_step_stack := λ w, (StepStack_new, w); q_mints := λ w, (λ k, "p" +:+ pretty k, w); q_stamp := λ w, ("now", w) |}.

Definition nothing_allowed : TurnConfig :=
  {| tc_conversation := "conv"; tc_turn_start := 0; tc_hosted := false; tc_namespaces := []; tc_core_tools := []; tc_client_port := false;
     tc_client_defs := []; tc_allowlist := Some []; tc_interactivity := Headless; tc_hard_withhold := false; tc_max_inline := 64;
     tc_max_stored := 128; tc_pad_wired := false; tc_skills_wired := false; tc_owner_todo := None; tc_ancestors := None;
     tc_pad_scope := None; tc_burns := []; tc_situation := None; tc_burn_writer := false; tc_burn_corrector := false |}.

Definition stopped_turn : result string CoreError * list Effect :=
  @run_turn demo_json nat stopping_ports stopping_loop_ports demo_lc nothing_allowed "again" 0.

Definition last_words (tr : list Effect) : option string :=
  match last tr with Some (Saved c) => content <$> last (messages c) | _ => None end.

(** Its notice tells of a call whose effects stand; none ran. *)
Lemma a_refused_call_counts_as_run :
  filter is_run stopped_turn.2 = [] ∧
  last_words stopped_turn.2 = Some "[Turn cancelled after 1 tool call, whose effects stand; 1 further call was requested and never ran.]".
Proof. vm_compute. by split. Qed.
