(* ===== verification/ErrorClassify.v ===== *)
(** * Why a model call failed, and what the failure teaches

    Models the connector-independent classifier of provider errors
    ([crates/core/src/error_classify.rs]), the ladder of window sizes
    ([crates/core/src/context_window.rs]), the observations of a model's window
    that outlive a turn (port in [crates/core/src/ports/store.rs], adapter in
    [crates/storage-sqlite/src/context_window_observations.rs]) and the budget of
    a turn they cap ([crates/daemon/src/config/resolution.rs]). *)

From S2P Require Import Prelude TaskStore Sanitize.

#[local] Open Scope Z_scope.

(** ** Causes *)

Inductive NormalizedCause :=
| CauseContextOverflow (prompt_tokens max_tokens : option Z)
| CauseRateLimited
| BillingFatal
| Auth
| CauseModelLoading
| CauseToolsUnsupported
| Transient
| Unknown.

#[export] Instance NormalizedCause_eq_dec : EqDecision NormalizedCause.
Proof. solve_decision. Defined.

Definition cause_is_terminal (c : NormalizedCause) : bool :=
  match c with BillingFatal | Auth => true | _ => false end.

Definition cause_as_key (c : NormalizedCause) : string :=
  match c with
  | CauseContextOverflow _ _ => "context_overflow"
  | CauseRateLimited => "rate_limited"
  | BillingFatal => "billing_fatal"
  | Auth => "auth"
  | CauseModelLoading => "model_loading"
  | CauseToolsUnsupported => "tools_unsupported"
  | Transient => "transient"
  | Unknown => "unknown"
  end.

Definition cause_from_key (key : string) : option NormalizedCause :=
  if String.eqb key "context_overflow" then Some (CauseContextOverflow None None)
  else if String.eqb key "rate_limited" then Some CauseRateLimited
  else if String.eqb key "billing_fatal" then Some BillingFatal
  else if String.eqb key "auth" then Some Auth
  else if String.eqb key "model_loading" then Some CauseModelLoading
  else if String.eqb key "tools_unsupported" then Some CauseToolsUnsupported
  else if String.eqb key "transient" then Some Transient
  else if String.eqb key "unknown" then Some Unknown
  else None.

(** The cause without the counts a learned entry does not keep. *)
Definition cause_kind (c : NormalizedCause) : NormalizedCause :=
  match c with CauseContextOverflow _ _ => CauseContextOverflow None None | c => c end.

Lemma cause_key_round_trip c : cause_from_key (cause_as_key c) = Some (cause_kind c).
Proof. by destruct c. Qed.

Definition cause_to_core_error (cause : NormalizedCause) (detail : string) : option CoreError :=
  match cause with
  | CauseContextOverflow prompt_tokens max_tokens => Some (ContextOverflow prompt_tokens max_tokens detail)
  | CauseRateLimited => Some (RateLimited None detail)
  | BillingFatal => Some (QuotaExceeded detail)
  | CauseModelLoading => Some (ModelLoading detail)
  | CauseToolsUnsupported => Some (ToolsUnsupported detail)
  | Auth | Transient | Unknown => None
  end.

(** ** The numbers in an overflow message *)

Record OverflowFields := {
  max_context_tokens : option Z;
  prompt_tokens : option Z;
  requested_output_tokens : option Z
}.

Definition or_else {A} (a b : option A) : option A := match a with Some x => Some x | None => b end.

Definition OverflowFields_or (a b : OverflowFields) : OverflowFields :=
  {| max_context_tokens := or_else (max_context_tokens a) (max_context_tokens b);
     prompt_tokens := or_else (prompt_tokens a) (prompt_tokens b);
     requested_output_tokens := or_else (requested_output_tokens a) (requested_output_tokens b) |}.

(** [split(|c| !c.is_ascii_digit())]. *)
Fixpoint digit_tokens (cur s : string) : list string :=
  match s with
  | EmptyString => [cur]
  | String a s' => if is_digit a then digit_tokens (cur +:+ String a EmptyString) s' else cur :: digit_tokens EmptyString s'
  end.

Fixpoint digits_value (acc : Z) (s : string) : Z :=
  match s with
  | EmptyString => acc
  | String a s' => digits_value (10 * acc + (Z.of_nat (Ascii.nat_of_ascii a) - 48)) s'
  end.

(** [str::parse::<u64>] of a run of digits. *)
Definition parse_u64 (t : string) : option Z :=
  let v := digits_value 0 t in if v <=? u64_max then Some v else None.

Definition non_empty (s : string) : bool := negb (String.eqb s EmptyString).

Definition number_after (haystack keyword : string) : option Z :=
  idx ← Sanitize.find haystack keyword;
  List.find non_empty (digit_tokens EmptyString (drop_bytes (idx + String.length keyword) haystack)) ≫= parse_u64.

Definition number_before (haystack keyword : string) : option Z :=
  idx ← Sanitize.find haystack keyword;
  List.find non_empty (rev (digit_tokens EmptyString (str_prefix idx haystack))) ≫= parse_u64.

Definition extract_overflow_fields (message : string) : OverflowFields :=
  let s := to_ascii_lowercase message in
  {| max_context_tokens :=
       or_else (number_after s "maximum context length")
         (or_else (number_after s "context length is") (number_before s "maximum"));
     prompt_tokens :=
       or_else (number_after s "prompt contains")
         (or_else (number_after s "prompt is too long")
            (or_else (number_after s "input length") (number_before s "input tokens")));
     requested_output_tokens := or_else (number_before s "output tokens") (number_after s "requested") |}.

Definition DEFAULT_OUTPUT_RESERVE_TOKENS : Z := 8192.

Definition derive_input_ceiling (fields : OverflowFields) : option Z :=
  match max_context_tokens fields with
  | Some max_context =>
      let reserve := Z.min (default DEFAULT_OUTPUT_RESERVE_TOKENS (requested_output_tokens fields)) (max_context / 2) in
      Some (max_context - reserve)
  | None => prompt_tokens fields
  end.

(** ** The built-in matchers *)

Record ErrorContext := {
  connector : string;
  http_status : option Z;
  provider_code : option string;
  message : string
}.

Definition says_overflow (lower : string) : bool :=
  contains_str lower "prompt is too long" || contains_str lower "input is too long" || contains_str lower "maximum context length"
  || (contains_str lower "context length" && contains_str lower "exceed") || contains_str lower "too many tokens".

Definition says_billing (lower : string) : bool :=
  contains_str lower "quota" || contains_str lower "billing" || contains_str lower "insufficient_quota" || contains_str lower "payment"
  || contains_str lower "credit balance".

Definition says_auth (ctx : ErrorContext) (lower : string) : bool :=
  bool_decide (http_status ctx = Some 401) || bool_decide (http_status ctx = Some 403) || contains_str lower "unauthorized"
  || contains_str lower "forbidden" || contains_str lower "invalid api key" || contains_str lower "access denied"
  || contains_str lower "not authorized".

Definition says_rate_limit (ctx : ErrorContext) (lower : string) : bool :=
  bool_decide (http_status ctx = Some 429) || contains_str lower "rate limit" || contains_str lower "too many requests"
  || contains_str lower "throttl".

Definition says_loading (lower : string) : bool :=
  contains_str lower "loading" || contains_str lower "warming up" || contains_str lower "not ready".

Definition says_no_tools (lower : string) : bool :=
  contains_str lower "tools are not supported"
  || (contains_str lower "tool use"
      && (contains_str lower "not support" || contains_str lower "doesn't support" || contains_str lower "does not support")).

Definition says_transient (ctx : ErrorContext) (lower : string) : bool :=
  match http_status ctx with Some n => (500 <=? n) && (n <=? 599) | None => false end
  || contains_str lower "internal server error" || contains_str lower "service unavailable" || contains_str lower "overloaded".

Definition classify_builtin (ctx : ErrorContext) : NormalizedCause :=
  let lower := to_ascii_lowercase (message ctx) in
  if says_overflow lower then
    let fields := extract_overflow_fields (message ctx) in
    CauseContextOverflow (prompt_tokens fields) (max_context_tokens fields)
  else if says_billing lower then BillingFatal
  else if says_auth ctx lower then Auth
  else if says_rate_limit ctx lower then CauseRateLimited
  else if says_loading lower then CauseModelLoading
  else if says_no_tools lower then CauseToolsUnsupported
  else if says_transient ctx lower then Transient
  else Unknown.

(** ** The ladder of window sizes *)

Definition COMMON_WINDOW_SIZES : list Z :=
  [4096; 8192; 16384; 32768; 65536; 100000; 128000; 160000; 192000; 200000; 224000; 256000; 384000; 512000; 768000; 1000000].

Definition snap_down_to_common (n : Z) : option Z := List.find (λ rung, rung <=? n) (rev COMMON_WINDOW_SIZES).

Lemma snap_Some n r :
  snap_down_to_common n = Some r → r ∈ COMMON_WINDOW_SIZES ∧ r ≤ n ∧ ∀ r', r' ∈ COMMON_WINDOW_SIZES → r' ≤ n → r' ≤ r.
Proof.
  unfold snap_down_to_common, COMMON_WINDOW_SIZES. cbn [rev app List.find].
  repeat match goal with |- context [?a <=? n] => destruct (Z.leb_spec a n) end; intros [= <-];
    (split; [set_solver|split; [done|]]); apply (Forall_forall (λ r', r' ≤ n → r' ≤ _)); repeat constructor; lia.
Qed.

Lemma snap_None n : snap_down_to_common n = None ↔ n < 4096.
Proof.
  unfold snap_down_to_common, COMMON_WINDOW_SIZES. cbn [rev app List.find].
  repeat match goal with |- context [?a <=? n] => destruct (Z.leb_spec a n) end; split; intros Hn; done || lia.
Qed.

Lemma snap_at_least n r : snap_down_to_common n = Some r → 4096 ≤ r.
Proof.
  intros Hs. destruct (snap_Some _ _ Hs) as (Hin & _ & _). revert r Hin Hs.
  assert (Hall : Forall (λ r, 4096 ≤ r) COMMON_WINDOW_SIZES) by (unfold COMMON_WINDOW_SIZES; repeat constructor; lia).
  intros r Hin _. by eapply Forall_forall in Hall.
Qed.

(** ** Observations of a window *)

Record LearnedWindow := {
  observed_limit : option Z;
  configured_window : option Z;
  max_success_input : option Z
}.

(** [v as i64] of a [u64]. *)
Definition as_i64 (n : Z) : Z := if n <? 2 ^ 63 then n else n - 2 ^ 64.

(** The table, one row for a connector and a model; NULL is [None]. *)
Notation WindowTable := (gmap (string * string) LearnedWindow).

Definition non_neg (v : option Z) : option Z := (λ n, Z.max n 0) <$> v.

Definition window_lookup (t : WindowTable) (conn model : string) : option LearnedWindow :=
  (λ row, {| observed_limit := non_neg (observed_limit row);
             configured_window := non_neg (configured_window row);
             max_success_input := non_neg (max_success_input row) |}) <$> t !! (conn, model).

Definition record_overflow (t : WindowTable) (conn model : string) (observed configured : Z) : WindowTable :=
  let o := as_i64 observed in
  let c := as_i64 configured in
  match t !! (conn, model) with
  | None =>
      <[(conn, model) := {| observed_limit := Some o; configured_window := Some c; max_success_input := None |}]> t
  | Some row =>
      if bool_decide (configured_window row ≠ Some c) || bool_decide (observed_limit row = None)
         || match observed_limit row with Some old => o <? old | None => false end
      then <[(conn, model) := {| observed_limit := Some o; configured_window := Some c;
                                 max_success_input := max_success_input row |}]> t
      else t
  end.

Definition record_success (t : WindowTable) (conn model : string) (input_tokens : Z) : WindowTable :=
  let n := as_i64 input_tokens in
  match t !! (conn, model) with
  | None =>
      <[(conn, model) := {| observed_limit := None; configured_window := None; max_success_input := Some n |}]> t
  | Some row =>
      <[(conn, model) := {| observed_limit := observed_limit row; configured_window := configured_window row;
                            max_success_input := Some (Z.max (default 0 (max_success_input row)) n) |}]> t
  end.

(** ** The budget of a turn *)

Inductive BudgetSource := PurposeOverride | ConnectorTable | UniversalFallback | LearnedCap.

#[export] Instance BudgetSource_eq_dec : EqDecision BudgetSource.
Proof. solve_decision. Defined.

Definition BudgetSource_ALL : list BudgetSource := [PurposeOverride; ConnectorTable; UniversalFallback; LearnedCap].

Definition as_label (s : BudgetSource) : string :=
  match s with
  | PurposeOverride => "purpose_override"
  | ConnectorTable => "connector_table"
  | UniversalFallback => "universal_fallback"
  | LearnedCap => "learned_cap"
  end.

Definition from_label (label : string) : option BudgetSource :=
  List.find (λ s, String.eqb (as_label s) label) BudgetSource_ALL.

Lemma label_round_trip s : from_label (as_label s) = Some s.
Proof. by destruct s. Qed.

Lemma from_label_inv label s : from_label label = Some s → label = as_label s.
Proof. intros Hf. apply List.find_some in Hf as [_ Hf]. by apply String.eqb_eq in Hf. Qed.

Record ContextBudget := { max_input_tokens : Z; source : BudgetSource }.

Definition DEFAULT_PURPOSE_MAX_CONTEXT_TOKENS : Z := 200000.

Definition resolve_context_budget (purpose_override connector_max : option Z) : ContextBudget :=
  match purpose_override, connector_max with
  | Some value, _ => {| max_input_tokens := value; source := PurposeOverride |}
  | None, Some value => {| max_input_tokens := value; source := ConnectorTable |}
  | None, None => {| max_input_tokens := DEFAULT_PURPOSE_MAX_CONTEXT_TOKENS; source := UniversalFallback |}
  end.

Definition apply_learned_cap (budget : ContextBudget) (learned : option LearnedWindow) : ContextBudget :=
  match learned with
  | None => budget
  | Some learned =>
      let resolved := max_input_tokens budget in
      let effective :=
        match observed_limit learned, configured_window learned with
        | Some observed, Some configured =>
            if configured =? resolved
            then match snap_down_to_common observed with
                 | Some snapped => if snapped <? resolved then snapped else resolved
                 | None => resolved
                 end
            else resolved
        | _, _ => resolved
        end in
      let effective :=
        match max_success_input learned with
        | Some high_water => Z.max effective (Z.min high_water resolved)
        | None => effective
        end in
      if effective =? resolved then budget
      else {| max_input_tokens := effective; source := LearnedCap |}
  end.

(** ** What a history of observations amounts to *)

Inductive Observation :=
| Overflowed (conn model : string) (observed configured : Z)
| Succeeded (conn model : string) (input_tokens : Z).

Definition observe (t : WindowTable) (o : Observation) : WindowTable :=
  match o with
  | Overflowed conn model observed configured => record_overflow t conn model observed configured
  | Succeeded conn model input_tokens => record_success t conn model input_tokens
  end.

(** The overflows and the successes of one model, oldest first. *)
Definition overflows (conn model : string) (os : list Observation) : list (Z * Z) :=
  omap (λ o, match o with
             | Overflowed c m observed configured => if decide (c = conn ∧ m = model) then Some (observed, configured) else None
             | Succeeded _ _ _ => None
             end) os.

Definition successes (conn model : string) (os : list Observation) : list Z :=
  omap (λ o, match o with
             | Succeeded c m n => if decide (c = conn ∧ m = model) then Some n else None
             | Overflowed _ _ _ _ => None
             end) os.

(** The least ceiling seen since the configured window last changed, and that
    window. *)
Fixpoint least_of_run (configured least : Z) (newest_first : list (Z * Z)) : Z :=
  match newest_first with
  | (o, c) :: rest => if c =? configured then least_of_run configured (Z.min least o) rest else least
  | [] => least
  end.

Definition window_in_force (os : list (Z * Z)) : option (Z * Z) :=
  match rev os with
  | [] => None
  | (o, c) :: rest => Some (least_of_run c o rest, c)
  end.

Definition greatest (ns : list Z) : option Z :=
  match ns with [] => None | n :: ns' => Some (foldl Z.max n ns') end.

(** What the table should say of a model after a history. *)
Definition row_of (w : option (Z * Z)) (s : option Z) : option LearnedWindow :=
  if bool_decide (w = None) && bool_decide (s = None) then None
  else Some {| observed_limit := fst <$> w; configured_window := snd <$> w; max_success_input := s |}.

Definition learned_from (conn model : string) (os : list Observation) : option LearnedWindow :=
  row_of (window_in_force (overflows conn model os)) (greatest (successes conn model os)).

(** A token count SQLite can hold. *)
Definition countable (o : Observation) : Prop :=
  match o with
  | Overflowed _ _ observed configured => 0 ≤ observed < 2 ^ 63 ∧ 0 ≤ configured < 2 ^ 63
  | Succeeded _ _ n => 0 ≤ n < 2 ^ 63
  end.

Lemma as_i64_small n : 0 ≤ n < 2 ^ 63 → as_i64 n = n.
Proof. intros Hn. unfold as_i64. destruct (Z.ltb_spec n (2 ^ 63)); lia. Qed.

Lemma window_in_force_snoc os o c :
  window_in_force (os ++ [(o, c)]) =
    Some (match window_in_force os with Some (least, c') => if c' =? c then Z.min least o else o | None => o end, c).
Proof.
  assert (Hmin : ∀ l a b cfg, least_of_run cfg (Z.min a b) l = Z.min a (least_of_run cfg b l)).
  { induction l as [|[o' c''] l IH]; intros a b cfg; cbn [least_of_run]; [done|]. destruct (c'' =? cfg); [|done].
    by rewrite <- Z.min_assoc, IH. }
  unfold window_in_force. rewrite rev_app_distr. cbn [rev app]. destruct (rev os) as [|[o' c'] rest]; [done|]. cbn [least_of_run].
  destruct (Z.eqb_spec c' c) as [->|]; [|done]. by rewrite Hmin, Z.min_comm.
Qed.

Lemma greatest_snoc ns n : greatest (ns ++ [n]) = Some (match greatest ns with Some m => Z.max m n | None => n end).
Proof. destruct ns as [|m ns]; [done|]. cbn [greatest app]. by rewrite foldl_app. Qed.



Lemma omap_snoc {A B} (f : A → option B) l x : omap f (l ++ [x]) = omap f l ++ match f x with Some y => [y] | None => [] end.
Proof. by rewrite omap_app. Qed.

Lemma overflows_snoc conn model os o :
  overflows conn model (os ++ [o]) =
    overflows conn model os ++
      match o with Overflowed c m a b => if decide (c = conn ∧ m = model) then [(a, b)] else [] | Succeeded _ _ _ => [] end.
Proof. unfold overflows. rewrite omap_snoc. f_equal. destruct o; [|done]. by destruct (decide _). Qed.

Lemma successes_snoc conn model os o :
  successes conn model (os ++ [o]) =
    successes conn model os ++
      match o with Succeeded c m n => if decide (c = conn ∧ m = model) then [n] else [] | Overflowed _ _ _ _ => [] end.
Proof. unfold successes. rewrite omap_snoc. f_equal. destruct o; [done|]. by destruct (decide _). Qed.

Lemma greatest_nonneg conn model os n : Forall countable os → greatest (successes conn model os) = Some n → 0 ≤ n.
Proof.
  revert n. induction os as [|o os IH] using rev_ind; intros n; [done|].
  intros [Hos [Ho _]%Forall_cons]%Forall_app. rewrite successes_snoc. destruct o as [c m a b|c m k]; [rewrite app_nil_r; auto|].
  destruct (decide _); [|rewrite app_nil_r; auto]. rewrite greatest_snoc. intros [= <-]. destruct (greatest _) as [g|]; simpl in Ho; lia.
Qed.

Lemma row_of_window least cfg s :
  row_of (Some (least, cfg)) s = Some {| observed_limit := Some least; configured_window := Some cfg; max_success_input := s |}.
Proof. done. Qed.

Lemma row_of_success g : row_of None (Some g) = Some {| observed_limit := None; configured_window := None; max_success_input := Some g |}.
Proof. done. Qed.

Lemma row_of_nothing : row_of None None = None.
Proof. done. Qed.

Lemma table_is_learned conn model os :
  Forall countable os → foldl observe ∅ os !! (conn, model) = learned_from conn model os.
Proof.
  induction os as [|o os IH] using rev_ind; [done|]. intros [Hos [Ho _]%Forall_cons]%Forall_app. specialize (IH Hos).
  rewrite foldl_app. cbn [foldl]. unfold learned_from. rewrite overflows_snoc, successes_snoc. set (t := foldl observe ∅ os) in *.
  destruct o as [c m a b|c m k]; cbn [observe countable] in *.
  - rewrite app_nil_r. unfold record_overflow. rewrite !as_i64_small by lia.
    destruct (decide (c = conn ∧ m = model)) as [[-> ->]|Hne].
    + rewrite IH, window_in_force_snoc. unfold learned_from.
      destruct (window_in_force _) as [[least cfg]|] eqn:Hw.
      * rewrite row_of_window. cbn [observed_limit configured_window max_success_input].
        rewrite (bool_decide_eq_false_2 (Some least = None)) by done.
        destruct (Z.eqb_spec cfg b) as [->|Hcfg].
        -- rewrite (bool_decide_eq_false_2 (Some b ≠ Some b)) by (intros Hn; by apply Hn). cbn [orb].
           destruct (Z.ltb_spec a least); [rewrite lookup_insert_eq, Z.min_r by lia; done|].
           rewrite IH, Z.min_l by lia. unfold learned_from. by rewrite Hw.
        -- rewrite (bool_decide_eq_true_2 (Some cfg ≠ Some b)) by congruence. cbn [orb]. by rewrite lookup_insert_eq.
      * destruct (greatest _) as [g|]; [|by rewrite row_of_nothing, lookup_insert_eq].
        rewrite row_of_success. cbn [observed_limit configured_window max_success_input].
        rewrite bool_decide_eq_true_2 by done. cbn [orb]. by rewrite lookup_insert_eq.
    + rewrite app_nil_r. assert (Hk : (c, m) ≠ (conn, model)) by naive_solver.
      repeat case_match; try (rewrite lookup_insert_ne by done); done.
  - rewrite app_nil_r. unfold record_success. rewrite as_i64_small by lia.
    destruct (decide (c = conn ∧ m = model)) as [[-> ->]|Hne].
    + rewrite IH, greatest_snoc. unfold learned_from.
      assert (Hg : ∀ g, greatest (successes conn model os) = Some g → 0 ≤ g) by (intros g; by apply greatest_nonneg).
      destruct (window_in_force _) as [[least cfg]|], (greatest _) as [g|];         rewrite ?row_of_nothing, ?row_of_success, ?row_of_window; cbn [observed_limit configured_window max_success_input];
        rewrite lookup_insert_eq; try done.
      unfold default. by rewrite Z.max_r by lia.
    + rewrite app_nil_r. assert (Hk : (c, m) ≠ (conn, model)) by naive_solver.
      repeat case_match; rewrite lookup_insert_ne by done; done.
Qed.

Lemma greatest_spec ns g : greatest ns = Some g → g ∈ ns ∧ ∀ n, n ∈ ns → n ≤ g.
Proof.
  revert g. induction ns as [|n ns IH] using rev_ind; intros g; [done|]. rewrite greatest_snoc. intros [= <-].
  destruct (greatest ns) as [m|] eqn:Hg.
  - destruct (IH m eq_refl) as [Hin Hle]. split.
    + destruct (Z.max_spec m n) as [[_ ->]|[_ ->]]; set_solver.
    + intros k [Hk| ->%list_elem_of_singleton]%elem_of_app; [specialize (Hle k Hk)|]; lia.
  - destruct ns; [|done]. split; [set_solver|]. intros k ->%list_elem_of_singleton. lia.
Qed.

Lemma greatest_None ns : greatest ns = None ↔ ns = [].
Proof. by destruct ns. Qed.

Lemma window_nonneg conn model os least c :
  Forall countable os → window_in_force (overflows conn model os) = Some (least, c) → 0 ≤ least ∧ 0 ≤ c.
Proof.
  revert least c. induction os as [|o os IH] using rev_ind; intros least c; [done|].
  intros [Hos [Ho _]%Forall_cons]%Forall_app. rewrite overflows_snoc. destruct o as [k m a b|k m n]; [|rewrite app_nil_r; auto].
  destruct (decide _); [|rewrite app_nil_r; auto]. rewrite window_in_force_snoc. simpl in Ho.
  destruct (window_in_force _) as [[l' c']|].
  - destruct (IH l' c' Hos eq_refl). intros [= <- <-]. destruct (c' =? b); lia.
  - intros [= <- <-]. lia.
Qed.

Lemma lookup_is_learned conn model os :
  Forall countable os → window_lookup (foldl observe ∅ os) conn model = learned_from conn model os.
Proof.
  intros Hos. unfold window_lookup. rewrite table_is_learned by done. unfold learned_from.
  pose proof (window_nonneg conn model os) as Hw. pose proof (greatest_nonneg conn model os) as Hg.
  destruct (window_in_force _) as [[least c]|]; [destruct (Hw least c Hos eq_refl)|]; (destruct (greatest _) as [g|]; [specialize (Hg g Hos eq_refl)|]);
    rewrite ?row_of_window, ?row_of_success, ?row_of_nothing; cbn [fmap option_fmap option_map non_neg observed_limit configured_window max_success_input];
    rewrite ?Z.max_l by lia; done.
Qed.

(** What the table says of a model, after any history of overflows and
    successes of any models, is: the least ceiling seen since the configured
    window last changed, that window, and the greatest input that ever
    succeeded. *)
Theorem the_table_is_its_history conn model os (Hos : Forall countable os) :
  window_lookup (foldl observe ∅ os) conn model = learned_from conn model os.
Proof. by apply lookup_is_learned. Qed.

(** The budget a turn gets after a history. *)
Definition learned_budget (b : ContextBudget) (conn model : string) (os : list Observation) : ContextBudget :=
  apply_learned_cap b (window_lookup (foldl observe ∅ os) conn model).

(** The two forces of the cap. *)
Definition lowered (r : Z) (w : option (Z * Z)) : Z :=
  match w with
  | Some (least, c) =>
      if c =? r then match snap_down_to_common least with Some s => if s <? r then s else r | None => r end else r
  | None => r
  end.

Definition bracketed (r : Z) (w : option (Z * Z)) (g : option Z) : Z :=
  match g with Some hw => Z.max (lowered r w) (Z.min hw r) | None => lowered r w end.

Lemma apply_row b w g :
  apply_learned_cap b (row_of w g) =
    let e := bracketed (max_input_tokens b) w g in
    if e =? max_input_tokens b then b else {| max_input_tokens := e; source := LearnedCap |}.
Proof.
  destruct w as [[least c]|]; [by rewrite row_of_window|]. destruct g as [hw|]; [by rewrite row_of_success|].
  rewrite row_of_nothing. cbn. by rewrite Z.eqb_refl.
Qed.

Lemma lowered_spec r w :
  Z.min 4096 r ≤ lowered r w ≤ r ∧ (∀ least, w = Some (least, r) → 4096 ≤ least → lowered r w ≤ least) ∧
  ((∀ least, w ≠ Some (least, r)) → lowered r w = r).
Proof.
  unfold lowered. destruct w as [[least c]|]; [|split_and!; [lia|lia|done|done]].
  destruct (Z.eqb_spec c r) as [->|Hc].
  - destruct (snap_down_to_common least) as [s|] eqn:Hs.
    + pose proof (snap_at_least _ _ Hs). destruct (snap_Some _ _ Hs) as (_ & Hle & _). destruct (Z.ltb_spec s r).
      * split_and!; [lia|lia| |by intros Hn; destruct (Hn least)]. by intros l [= <-].
      * split_and!; [lia|lia| |done]. intros l [= <-]. lia.
    + apply snap_None in Hs. split_and!; [lia|lia| |done]. intros l [= <-]. lia.
  - split_and!; [lia|lia| |done]. intros l [= <- Hcr]. by destruct Hc.
Qed.

(** A learned window only ever lowers a turn's budget, never under a size
    the model has accepted and never under the least rung of the ladder; it holds
    the budget to what was observed under the same configured window and is
    ignored under another; and the budget's tag tells when it moved. *)
Theorem a_learned_budget_is_bracketed b conn model os (Hos : Forall countable os) (Hb : 0 ≤ max_input_tokens b) :
  let r := max_input_tokens b in
  let e := max_input_tokens (learned_budget b conn model os) in
  Z.min 4096 r ≤ e ≤ r ∧
  (∀ n, n ∈ successes conn model os → Z.min n r ≤ e) ∧
  (∀ least, window_in_force (overflows conn model os) = Some (least, r) → 4096 ≤ least →
     e ≤ least ∨ ∃ n, n ∈ successes conn model os ∧ e ≤ n) ∧
  ((∀ least, window_in_force (overflows conn model os) ≠ Some (least, r)) → e = r) ∧
  source (learned_budget b conn model os) = (if e =? r then source b else LearnedCap).
Proof.
  intros r e. subst e. unfold learned_budget. rewrite lookup_is_learned by done. unfold learned_from. rewrite apply_row. fold r. cbv zeta.
  set (w := window_in_force _). set (ns := successes _ _ _). pose proof (lowered_spec r w) as (Hc1 & Hc2 & Hc3).
  set (e := bracketed r w (greatest ns)).
  assert (Hmax : max_input_tokens (if e =? r then b else {| max_input_tokens := e; source := LearnedCap |}) = e)
    by (destruct (Z.eqb_spec e r); [done|done]).
  rewrite Hmax. clear Hmax. unfold bracketed in e. destruct (greatest ns) as [m|] eqn:Hg.
  - apply greatest_spec in Hg as [Hin Hle]. split_and!; [lia|lia| | | |by destruct (e =? r)].
    + intros n Hn. specialize (Hle n Hn). lia.
    + intros least Hw Hl. specialize (Hc2 least Hw Hl). destruct (Z.le_gt_cases e least); [by left|right]. exists m. split; [done|]. lia.
    + intros Hw. specialize (Hc3 Hw). lia.
  - apply greatest_None in Hg. split_and!; [lia|lia| | |done|by destruct (e =? r)].
    + intros n. rewrite Hg. by intros ?%not_elem_of_nil.
    + intros least Hw Hl. left. by apply Hc2.
Qed.

(** A number a request id ends with is read as the model's window. *)
Lemma a_request_id_is_read_as_a_window :
  let detail := "Mantle streaming error for requestId f2e534ff-436e-461b-8d93-90662954d45123: prompt is too long for this model's maximum" in
  classify_builtin {| connector := "bedrock"; http_status := None; provider_code := None; message := detail |}
    = CauseContextOverflow None (Some 45123) ∧
  derive_input_ceiling (extract_overflow_fields detail) = Some 36931 ∧
  learned_budget {| max_input_tokens := 200000; source := UniversalFallback |} "bedrock" "m" [Overflowed "bedrock" "m" 36931 200000]
    = {| max_input_tokens := 32768; source := LearnedCap |}.
Proof. by vm_compute. Qed.

(** The ceiling leaves the room the output asked for, and at least half. *)
Lemma ceiling_leaves_output_room fields m :
  max_context_tokens fields = Some m → 0 ≤ m → (∀ o, requested_output_tokens fields = Some o → 0 ≤ o) →
  ∃ c, derive_input_ceiling fields = Some c ∧ m - m / 2 ≤ c ≤ m ∧
       (∀ o, requested_output_tokens fields = Some o → o ≤ m / 2 → c + o = m).
Proof.
  intros Hm H0 Ho. unfold derive_input_ceiling. rewrite Hm. eexists. split; [reflexivity|].
  assert (0 ≤ m / 2) by (apply Z.div_pos; lia). assert (m / 2 ≤ m) by (apply Z.div_le_upper_bound; lia).
  destruct (requested_output_tokens fields) as [o|].
  - specialize (Ho o eq_refl). change (default _ (Some o)) with o. split; [lia|]. intros o' [= <-] Hle. lia.
  - change (default ?d None) with d. unfold DEFAULT_OUTPUT_RESERVE_TOKENS. split; [lia|done].
Qed.

(** A provider that says the account is out of credit is never taken for one
    that asks to slow down, whatever its status. *)
Lemma credit_is_not_throttling ctx :
  says_overflow (to_ascii_lowercase (message ctx)) = false → says_billing (to_ascii_lowercase (message ctx)) = true →
  classify_builtin ctx = BillingFatal.
Proof. intros Ho Hb. unfold classify_builtin. by rewrite Ho, Hb. Qed.

(** ** A concrete history *)

Definition some_history : list Observation :=
  [Overflowed "bedrock" "m" 194560 200000; Succeeded "bedrock" "m" 150000; Overflowed "bedrock" "m" 198000 200000].

Lemma the_table_is_its_history_witness :
  window_lookup (foldl observe ∅ some_history) "bedrock" "m"
    = Some {| observed_limit := Some 194560; configured_window := Some 200000; max_success_input := Some 150000 |}.
Proof. rewrite the_table_is_its_history; [by vm_compute|]. repeat constructor; done. Defined.

Lemma a_learned_budget_is_bracketed_witness :
  let e := max_input_tokens (learned_budget {| max_input_tokens := 200000; source := UniversalFallback |} "bedrock" "m" some_history) in
  e = 192000 ∧ Z.min 4096 200000 ≤ e ≤ 200000.
Proof.
  split; [by vm_compute|].
  refine (proj1 (a_learned_budget_is_bracketed {| max_input_tokens := 200000; source := UniversalFallback |} "bedrock" "m" some_history _ _)).
  - repeat constructor; done.
  - done.
Defined.
