(* ===== verification/LlmClient.v ===== *)
(** * The stack of model clients

    Models the port to a model ([LlmClient] of [crates/core/src/ports/llm.rs]) and
    what wraps a connector: [RetryingLlmClient], the choice between hosted tool
    search and a flat list of tools, the assembly of streamed tool calls, and
    [ClassifyingLlmClient] ([crates/daemon/src/classifying_llm.rs]) with the store
    of learned classifications (adapter in
    [crates/storage-sqlite/src/error_classifications.rs]).

    A completion is a program that hands chunks to its callback, which may ask to
    stop, and returns; the connector behind the stack is any such program over an
    arbitrary world.  The retry loop is that of the [backon] crate, with its
    delays a parameter. *)

From S2P Require Import Prelude Json DisplayLine TaskStore Messages Context ToolRouting Sanitize ToolDispatch TurnLoop ErrorClassify.

#[local] Open Scope nat_scope.

(** ** Completions as programs over a callback *)

Inductive Prog (A : Type) :=
| Ret (a : A)
| Emit (chunk : string) (k : bool → Prog A).
Arguments Ret {A}.
Arguments Emit {A}.

Fixpoint bind {A B} (p : Prog A) (f : A → Prog B) : Prog B :=
  match p with Ret a => f a | Emit c k => Emit c (λ b, bind (k b) f) end.

(** A callback with state [S]; [false] asks the producer to stop. *)
Fixpoint run {A S} (cb : S → string → S * bool) (s : S) (p : Prog A) : S * A :=
  match p with
  | Ret a => (s, a)
  | Emit c k => let r := cb s c in run cb r.1 (k r.2)
  end.

(** Programs no callback tells apart. *)
Inductive prog_eq {A} : Equiv (Prog A) :=
| Ret_eq a : Ret a ≡ Ret a
| Emit_eq c k k' : (∀ b, k b ≡ k' b) → Emit c k ≡ Emit c k'.
#[export] Existing Instance prog_eq.

#[export] Instance prog_equivalence {A} : Equivalence (≡@{Prog A}).
Proof.
  split.
  - intros p. induction p as [a|c k IH]; by constructor.
  - intros p q Hpq. induction Hpq as [a|c k k' _ IH]; by constructor.
  - intros p q r Hpq. revert r. induction Hpq as [a|c k k' _ IH]; intros r Hr; [done|]. inversion Hr; subst. constructor. auto.
Qed.

#[export] Instance bind_proper {A B} : Proper ((≡) ==> pointwise_relation A (≡) ==> (≡)) (@bind A B).
Proof.
  intros p q Hpq f g Hfg. induction Hpq as [a|c k k' _ IH]; cbn [bind]; [apply Hfg|]. by constructor.
Qed.

Lemma run_equiv {A S} (cb : S → string → S * bool) (s : S) (p q : Prog A) : p ≡ q → run cb s p = run cb s q.
Proof. intros Hpq. revert s. induction Hpq as [a|c k k' _ IH]; intros s; [done|]. cbn [run]. apply IH. Qed.

#[export] Instance run_proper {A S} : Proper ((=) ==> (=) ==> (≡) ==> (=)) (@run A S).
Proof. intros cb ? <- s ? <- p q Hpq. by apply run_equiv. Qed.

Lemma bind_ret {A} (p : Prog A) : bind p Ret ≡ p.
Proof. induction p as [a|c k IH]; by constructor. Qed.

Lemma bind_bind {A B C} (p : Prog A) (f : A → Prog B) (g : B → Prog C) : bind (bind p f) g ≡ bind p (λ a, bind (f a) g).
Proof. induction p as [a|c k IH]; cbn [bind]; [done|]. by constructor. Qed.

Lemma run_bind {A B S} (cb : S → string → S * bool) (s : S) (p : Prog A) (f : A → Prog B) :
  run cb s (bind p f) = let r := run cb s p in run cb r.1 (f r.2).
Proof. revert s. induction p as [a|c k IH]; intros s; cbn [bind run]; [done|]. apply IH. Qed.

(** ** The port *)

Inductive ReasoningLevel := ReasoningLow | ReasoningMedium | ReasoningHigh.

Definition as_openai_effort (l : ReasoningLevel) : string :=
  match l with ReasoningLow => "low" | ReasoningMedium => "medium" | ReasoningHigh => "high" end.

Record ReasoningConfig := { thinking_budget_tokens : option Z; reasoning_effort : option ReasoningLevel }.

Definition ReasoningConfig_default : ReasoningConfig := {| thinking_budget_tokens := None; reasoning_effort := None |}.

Definition reasoning_is_empty (r : ReasoningConfig) : bool :=
  match thinking_budget_tokens r, reasoning_effort r with None, None => true | _, _ => false end.

(** The task-locals a completion reads. *)
Record Env := {
  classification_in_progress : bool;
  model_override : option string;
  context_budget : option ContextBudget
}.

Definition with_classification_in_progress (e : Env) : Env :=
  {| classification_in_progress := true; model_override := model_override e; context_budget := context_budget e |}.

Notation Completion W := (Prog (W * result LlmResponse CoreError)).

(** A client over the world [W]. *)
Record LlmClient (W : Type) := {
  get_default_model : option string;
  get_default_base_url : option string;
  client_max_context_tokens : Env → option Z;
  estimate_tokens : string → Z;
  stream_completion : Env → list Message → list Def → ReasoningConfig → W → Completion W;
  hosted_tool_search : option (Env → list Message → list Def → list Namespace → ReasoningConfig → W → Completion W)
}.
Arguments get_default_model {W}.
Arguments get_default_base_url {W}.
Arguments client_max_context_tokens {W}.
Arguments estimate_tokens {W}.
Arguments stream_completion {W}.
Arguments hosted_tool_search {W}.

Definition flatten_namespaces (core_tools : list Def) (namespaces : list Namespace) : list Def :=
  foldl (λ all ns, all ++ ns_tools ns) core_tools namespaces.

Definition dispatch_namespaced {W} (client : LlmClient W) (e : Env) (ms : list Message) (core_tools : list Def)
    (namespaces : list Namespace) (r : ReasoningConfig) (w : W) : Completion W :=
  match hosted_tool_search client with
  | Some hosted => hosted e ms core_tools namespaces r w
  | None => stream_completion client e ms (flatten_namespaces core_tools namespaces) r w
  end.

(** ** Retrying *)

Definition is_retryable_error (e : CoreError) : bool := match e with RateLimited _ _ => true | _ => false end.

Definition retry_unless_stream_started (forwarded : bool) (e : CoreError) : bool :=
  if negb (is_retryable_error e) then false else negb forwarded.

(** An attempt whose callback notes that a chunk went through. *)
Fixpoint proxy_callback {A} (forwarded : bool) (p : Prog A) : Prog (A * bool) :=
  match p with Ret a => Ret (a, forwarded) | Emit c k => Emit c (λ b, proxy_callback true (k b)) end.

Section retrying.
Context {W : Type} (sleep : Z → W → W) (delays : nat → list Z).

Fixpoint retry (ds : list Z) (attempt : W → Completion W) (w : W) : Completion W :=
  bind (proxy_callback false (attempt w)) (λ '((w', r), forwarded),
    match r with
    | Ok _ => Ret (w', r)
    | Err e =>
        if retry_unless_stream_started forwarded e
        then match ds with [] => Ret (w', r) | d :: ds' => retry ds' attempt (sleep d w') end
        else Ret (w', r)
    end).

Definition RetryingLlmClient (inner : LlmClient W) (max_retries : nat) : LlmClient W :=
  {| get_default_model := get_default_model inner;
     get_default_base_url := get_default_base_url inner;
     client_max_context_tokens := client_max_context_tokens inner;
     estimate_tokens := estimate_tokens inner;
     stream_completion := λ e ms tools r, retry (delays max_retries) (stream_completion inner e ms tools r);
     hosted_tool_search :=
       match hosted_tool_search inner with
       | Some _ => Some (λ e ms core_tools namespaces r,
           retry (delays max_retries) (dispatch_namespaced inner e ms core_tools namespaces r))
       | None => None
       end |}.

(** Attempts that failed with a rate limit before a chunk went through. *)
Inductive silently (attempt : W → Completion W) : list Z → W → W → Prop :=
| silently_none w : silently attempt [] w w
| silently_more d ds w w1 after detail w' :
    attempt w = Ret (w1, Err (RateLimited after detail)) → silently attempt ds (sleep d w1) w' → silently attempt (d :: ds) w w'.

Lemma proxied_emit (p : Completion W) (f : W * result LlmResponse CoreError * bool → Completion W) :
  (∀ a, f (a, true) = Ret a) → bind (proxy_callback true p) f ≡ p.
Proof. intros Hf. induction p as [a|c k IH]; cbn [proxy_callback bind]; [by rewrite Hf|]. by constructor. Qed.

Lemma retry_spec ds attempt w :
  ∃ ds1 ds2 w', ds = ds1 ++ ds2 ∧ silently attempt ds1 w w' ∧ retry ds attempt w ≡ attempt w' ∧
    (ds2 = [] ∨ ∀ w'' after detail, attempt w' ≠ Ret (w'', Err (RateLimited after detail))).
Proof.
  revert w. induction ds as [|d ds IH]; intros w; cbn [retry]; destruct (attempt w) as [[w1 r]|c k] eqn:Ha.
  - exists [], [], w. split_and!; [done|constructor| |by left]. rewrite Ha. cbn [proxy_callback bind]. by destruct r as [|e]; [|destruct (retry_unless_stream_started _ _)].
  - exists [], [], w. split_and!; [done|constructor| |by left]. rewrite Ha. cbn [proxy_callback bind]. constructor. intros b.
    apply proxied_emit. intros [w1 r]. destruct r as [|e]; [done|]. by destruct (retry_unless_stream_started _ _).
  - cbn [proxy_callback bind]. destruct r as [x|e].
    { exists [], (d :: ds), w. split_and!; [done|constructor|by rewrite Ha|]. right. intros. rewrite Ha. done. }
    destruct (retry_unless_stream_started false e) eqn:Hr.
    + destruct e; try done. destruct (IH (sleep d w1)) as (ds1 & ds2 & w' & -> & Hs & Heq & Hend).
      exists (d :: ds1), ds2, w'. split_and!; [done|by econstructor|done|done].
    + exists [], (d :: ds), w. split_and!; [done|constructor|by rewrite Ha|]. right. intros w'' after detail. rewrite Ha. intros [= <- ->]. done.
  - exists [], (d :: ds), w. split_and!; [done|constructor| |right; intros; by rewrite Ha]. rewrite Ha. cbn [proxy_callback bind]. constructor.
    intros b. apply proxied_emit. intros [w1 r]. destruct r as [|e]; [done|]. unfold retry_unless_stream_started. by destruct (is_retryable_error e).
Qed.

(** An attempt that did not end in a rate limit is the only one. *)
Lemma retry_first ds attempt w {S} (cb : S → string → S * bool) (s : S) :
  (∀ after detail, (run cb s (attempt w)).2.2 ≠ Err (RateLimited after detail)) →
  run cb s (retry ds attempt w) = run cb s (attempt w).
Proof.
  intros Hno. destruct (retry_spec ds attempt w) as (ds1 & ds2 & w' & -> & Hs & Heq & _). rewrite Heq.
  destruct Hs as [|d ds' w w1 after detail w' Ha _]; [done|]. rewrite Ha in Hno. by destruct (Hno after detail).
Qed.
End retrying.

(** Whatever the connector does, a turn sees one attempt: the stream and the
    outcome a retrying client hands on are those of a single completion of the
    inner client, reached after at most [max_retries] attempts that each failed
    with a rate limit before a chunk went through; it stops earlier only at an
    attempt that streamed or did not end in a rate limit. *)
Theorem a_stream_is_never_replayed {W S} (sleep : Z → W → W) delays (Hdelays : ∀ n, length (delays n) = n)
    (inner : LlmClient W) max_retries e ms tools r w (cb : S → string → S * bool) s :
  ∃ ds w', length ds ≤ max_retries ∧ silently sleep (stream_completion inner e ms tools r) ds w w' ∧
    run cb s (stream_completion (RetryingLlmClient sleep delays inner max_retries) e ms tools r w)
      = run cb s (stream_completion inner e ms tools r w') ∧
    (length ds = max_retries ∨ ∀ w'' after detail, stream_completion inner e ms tools r w' ≠ Ret (w'', Err (RateLimited after detail))).
Proof.
  destruct (retry_spec sleep (delays max_retries) (stream_completion inner e ms tools r) w) as (ds1 & ds2 & w' & Hds & Hs & Heq & Hend).
  pose proof (f_equal length Hds) as Hlen. rewrite Hdelays, length_app in Hlen. exists ds1, w'. split_and!; [lia|done|by rewrite <- Heq|].
  destruct Hend as [->|Hend]; [left; simpl in Hlen; lia|by right].
Qed.

(** ** Streamed tool calls *)

Record ToolCallEntry := { entry_id : string; entry_name : string; entry_arguments : string }.

Definition ToolCallEntry_default : ToolCallEntry := {| entry_id := EmptyString; entry_name := EmptyString; entry_arguments := EmptyString |}.

(** The index of a call is a number, its order the map's. *)
Notation ToolCallAccumulator := (gmap Z ToolCallEntry).

Definition acc_start (acc : ToolCallAccumulator) (key : Z) (i n : string) : ToolCallAccumulator :=
  let entry := default ToolCallEntry_default (acc !! key) in
  <[key := {| entry_id := i; entry_name := n; entry_arguments := entry_arguments entry |}]> acc.

Definition acc_append (acc : ToolCallAccumulator) (key : Z) (partial_json : string) : ToolCallAccumulator :=
  match acc !! key with
  | Some entry => <[key := {| entry_id := entry_id entry; entry_name := entry_name entry;
                              entry_arguments := entry_arguments entry +:+ partial_json |}]> acc
  | None => acc
  end.

Definition acc_finalize (acc : ToolCallAccumulator) (key : Z) (arguments : string) : ToolCallAccumulator :=
  match acc !! key with
  | Some entry => <[key := {| entry_id := entry_id entry; entry_name := entry_name entry; entry_arguments := arguments |}]> acc
  | None => acc
  end.

Definition names_a_call (e : ToolCallEntry) : bool :=
  negb (String.eqb (entry_id e) EmptyString) || negb (String.eqb (entry_name e) EmptyString).

Definition call_of (e : ToolCallEntry) : ToolCall :=
  {| call_id := entry_id e; call_name := entry_name e; call_arguments := entry_arguments e |}.

(** A [BTreeMap] is walked in the order of its keys. *)
Definition by_key (acc : ToolCallAccumulator) : list (Z * ToolCallEntry) := sort_by (λ a b, (a.1 <=? b.1)%Z) (map_to_list acc).

Definition into_tool_calls (acc : ToolCallAccumulator) : list ToolCall :=
  map call_of (List.filter names_a_call (map snd (by_key acc))).

Inductive CallEvent :=
| CallStart (key : Z) (i n : string)
| CallDelta (key : Z) (piece : string)
| CallDone (key : Z) (arguments : string).

Definition event_key (ev : CallEvent) : Z := match ev with CallStart k _ _ | CallDelta k _ | CallDone k _ => k end.

Definition acc_event (acc : ToolCallAccumulator) (ev : CallEvent) : ToolCallAccumulator :=
  match ev with
  | CallStart k i n => acc_start acc k i n
  | CallDelta k piece => acc_append acc k piece
  | CallDone k arguments => acc_finalize acc k arguments
  end.

(** One call alone, from its own events. *)
Definition entry_event (o : option ToolCallEntry) (ev : CallEvent) : option ToolCallEntry :=
  match ev, o with
  | CallStart _ i n, _ => Some {| entry_id := i; entry_name := n; entry_arguments := entry_arguments (default ToolCallEntry_default o) |}
  | CallDelta _ piece, Some e => Some {| entry_id := entry_id e; entry_name := entry_name e; entry_arguments := entry_arguments e +:+ piece |}
  | CallDone _ arguments, Some e => Some {| entry_id := entry_id e; entry_name := entry_name e; entry_arguments := arguments |}
  | _, None => None
  end.

Definition entry_from (k : Z) (evs : list CallEvent) : option ToolCallEntry :=
  foldl entry_event None (List.filter (λ ev, (event_key ev =? k)%Z) evs).

Lemma acc_event_lookup acc ev k :
  acc_event acc ev !! k = if (event_key ev =? k)%Z then entry_event (acc !! k) ev else acc !! k.
Proof.
  destruct ev as [k' i n|k' piece|k' arguments]; cbn [acc_event event_key]; destruct (Z.eqb_spec k' k) as [->|Hk].
  - unfold acc_start. by rewrite lookup_insert_eq.
  - unfold acc_start. by rewrite lookup_insert_ne.
  - unfold acc_append. destruct (acc !! k) eqn:He; [by rewrite lookup_insert_eq|by rewrite He].
  - unfold acc_append. destruct (acc !! k') eqn:He; [by rewrite lookup_insert_ne|done].
  - unfold acc_finalize. destruct (acc !! k) eqn:He; [by rewrite lookup_insert_eq|by rewrite He].
  - unfold acc_finalize. destruct (acc !! k') eqn:He; [by rewrite lookup_insert_ne|done].
Qed.

Lemma acc_events_lookup evs k : foldl acc_event ∅ evs !! k = entry_from k evs.
Proof.
  induction evs as [|ev evs IH] using rev_ind; [done|]. unfold entry_from. rewrite foldl_app, List.filter_app, foldl_app. cbn [foldl List.filter].
  rewrite acc_event_lookup, IH. destruct (event_key ev =? k)%Z; [|done]. cbn [foldl]. done.
Qed.

(** Interleaved or not, the calls of a stream are assembled each from its
    own events: two streams in which every index sees the same events in the same
    order give the same calls, in the order of their indices. *)
Theorem calls_are_assembled_apart evs evs'
    (Hsame : ∀ k, List.filter (λ ev, (event_key ev =? k)%Z) evs = List.filter (λ ev, (event_key ev =? k)%Z) evs') :
  into_tool_calls (foldl acc_event ∅ evs) = into_tool_calls (foldl acc_event ∅ evs') ∧
  sorted_by (λ a b, (a.1 <=? b.1)%Z) (by_key (foldl acc_event ∅ evs)) ∧
  ∀ k e, (k, e) ∈ by_key (foldl acc_event ∅ evs) ↔ entry_from k evs = Some e.
Proof.
  assert (Hm : foldl acc_event ∅ evs = foldl acc_event ∅ evs').
  { apply map_eq. intros k. rewrite !acc_events_lookup. unfold entry_from. by rewrite Hsame. }
  split_and!; [by rewrite Hm| |].
  - apply sort_by_sorted; intros; lia.
  - intros k e. unfold by_key. by rewrite elem_of_sort_by, elem_of_map_to_list, acc_events_lookup.
Qed.

(** The pieces of one call are joined. *)
Lemma pieces_are_joined k i n pieces :
  entry_from k (CallStart k i n :: map (CallDelta k) pieces) =
    Some {| entry_id := i; entry_name := n; entry_arguments := join EmptyString pieces |}.
Proof.
  assert (Hf : List.filter (λ ev, (event_key ev =? k)%Z) (CallStart k i n :: map (CallDelta k) pieces) = CallStart k i n :: map (CallDelta k) pieces).
  { cbn [List.filter event_key]. rewrite Z.eqb_refl. f_equal. induction pieces as [|p ps IH]; [done|]. cbn [map List.filter event_key].
    by rewrite Z.eqb_refl, IH. }
  unfold entry_from. rewrite Hf. clear Hf. cbn [foldl entry_event]. change (entry_arguments (default ToolCallEntry_default None)) with EmptyString.
  assert (Hgo : ∀ ps a, foldl entry_event (Some {| entry_id := i; entry_name := n; entry_arguments := a |}) (map (CallDelta k) ps)
    = Some {| entry_id := i; entry_name := n; entry_arguments := a +:+ join EmptyString ps |}); [|apply Hgo].
  induction ps as [|p ps IH]; intros a; cbn [map foldl entry_event join]; [by rewrite string_app_nil_r|]. cbn [entry_id entry_name entry_arguments].
  rewrite IH. destruct ps as [|q ps]; cbn [join]; [by rewrite string_app_nil_r|]. by rewrite string_app_assoc.
Qed.

(** ** The store of learned classifications *)

Record LearnedClassification := { signature : string; learned_cause : string }.

(** What the port promises: a lookup answers a longest signature of the connector
    that occurs in the message, case aside, or that there is none; recording
    keeps one cause for a signature.  [rows] is what the store holds. *)
Definition matches (msg sig : string) : bool := contains_str (to_ascii_lowercase msg) (to_ascii_lowercase sig).

Class ErrorClassificationStore (St : Type) := {
  lookup_error : St → string → string → St * result (option LearnedClassification) CoreError;
  record_error : St → string → string → string → St * result unit CoreError
}.

Class ErrorClassificationStoreLaws (St : Type) `{ErrorClassificationStore St} := {
  rows : St → string → string → option string;
  lookup_keeps s conn msg c g : rows (lookup_error s conn msg).1 c g = rows s c g;
  lookup_found s conn msg l :
    (lookup_error s conn msg).2 = Ok (Some l) →
    rows s conn (signature l) = Some (learned_cause l) ∧ matches msg (signature l) = true ∧
    ∀ sig cause, rows s conn sig = Some cause → matches msg sig = true → chars_count sig ≤ chars_count (signature l);
  lookup_missed s conn msg :
    (lookup_error s conn msg).2 = Ok None → ∀ sig cause, rows s conn sig = Some cause → matches msg sig = false;
  record_recorded s conn sig cause s' :
    record_error s conn sig cause = (s', Ok tt) →
    ∀ c g, rows s' c g = if bool_decide (c = conn ∧ g = sig) then Some cause else rows s c g
}.

(** The SQLite table: the cause and the hits of a connector and a signature,
    which are unique.  Among matches of one length SQL leaves the choice open; here
    it is the map's order. *)
Notation ClassRow := (string * string * (string * Z))%type.
Notation ClassTable := (gmap (string * string) (string * Z)).

Definition row_applies (msg conn : string) (r : ClassRow) : bool := String.eqb r.1.1 conn && matches msg r.1.2.

Definition better (msg conn : string) (best : option ClassRow) (r : ClassRow) : option ClassRow :=
  if row_applies msg conn r
  then match best with
       | Some b => if chars_count b.1.2 <? chars_count r.1.2 then Some r else best
       | None => Some r
       end
  else best.

(** The row [ORDER BY length(signature) DESC LIMIT 1] picks. *)
Definition best_match (t : ClassTable) (conn msg : string) : option ClassRow := foldl (better msg conn) None (map_to_list t).

Definition sqlite_lookup_error (t : ClassTable) (conn msg : string) : ClassTable * result (option LearnedClassification) CoreError :=
  match best_match t conn msg with
  | Some (k, (cause, hits)) => (<[k := (cause, (hits + 1)%Z)]> t, Ok (Some {| signature := k.2; learned_cause := cause |}))
  | None => (t, Ok None)
  end.

Definition sqlite_record_error (t : ClassTable) (conn sig cause : string) : ClassTable * result unit CoreError :=
  (<[(conn, sig) := (cause, match t !! (conn, sig) with Some (_, hits) => hits | None => 0%Z end)]> t, Ok tt).

#[export] Instance sqlite_classifications : ErrorClassificationStore ClassTable :=
  {| lookup_error := sqlite_lookup_error; record_error := sqlite_record_error |}.

(** What the fold has picked so far. *)
Definition picked (msg conn : string) (seen : list ClassRow) (best : option ClassRow) : Prop :=
  match best with
  | Some b => b ∈ seen ∧ row_applies msg conn b = true ∧ ∀ x, x ∈ seen → row_applies msg conn x = true → chars_count x.1.2 ≤ chars_count b.1.2
  | None => ∀ x, x ∈ seen → row_applies msg conn x = false
  end.

Lemma foldl_picked msg conn l : picked msg conn l (foldl (better msg conn) None l).
Proof.
  induction l as [|x l IH] using rev_ind; [by intros x Hx%not_elem_of_nil|]. rewrite foldl_app. cbn [foldl].
  set (best := foldl _ None l) in *. clearbody best. unfold better. destruct (row_applies msg conn x) eqn:Hx.
  - destruct best as [b|]; cbn [picked] in IH.
    + destruct IH as (Hin & Hb & Hmax). destruct (Nat.ltb_spec (chars_count b.1.2) (chars_count x.1.2)).
      * split_and!; [set_solver|done|]. intros y [Hy| ->%list_elem_of_singleton]%elem_of_app Hya; [specialize (Hmax y Hy Hya); lia|done].
      * split_and!; [set_solver|done|]. intros y [Hy| ->%list_elem_of_singleton]%elem_of_app Hya; [by apply Hmax|done].
    + split_and!; [set_solver|done|]. intros y [Hy| ->%list_elem_of_singleton]%elem_of_app Hya; [by rewrite IH in Hya|done].
  - destruct best as [b|]; cbn [picked] in *.
    + destruct IH as (Hin & Hb & Hmax). split_and!; [set_solver|done|].
      intros y [Hy| ->%list_elem_of_singleton]%elem_of_app Hya; [by apply Hmax|congruence].
    + intros y [Hy| ->%list_elem_of_singleton]%elem_of_app; [by apply IH|done].
Qed.

Definition table_rows (t : ClassTable) (conn sig : string) : option string := fst <$> t !! (conn, sig).

Lemma table_row_in t conn sig cause :
  table_rows t conn sig = Some cause ↔ ∃ hits, ((conn, sig), (cause, hits)) ∈ map_to_list t.
Proof.
  unfold table_rows. rewrite fmap_Some. setoid_rewrite elem_of_map_to_list. split.
  - intros ([c hits] & Ht & ->). by exists hits.
  - intros [hits Ht]. by exists (cause, hits).
Qed.

#[export] Program Instance sqlite_classification_laws : ErrorClassificationStoreLaws ClassTable := {| rows := table_rows |}.
Next Obligation.
  intros s conn msg c g.
  cbn [lookup_error sqlite_classifications]. unfold sqlite_lookup_error. pose proof (foldl_picked msg conn (map_to_list s)) as Hp. fold (best_match s conn msg) in Hp.
  destruct (best_match s conn msg) as [[k [cause hits]]|]; [|done]. destruct Hp as (Hin%elem_of_map_to_list & _ & _). cbn [fst]. unfold table_rows.
  destruct (decide (k = (c, g))) as [->|Hk]; [by rewrite lookup_insert_eq, Hin|by rewrite lookup_insert_ne].
Qed.
Next Obligation.
  intros s conn msg l. cbn [lookup_error sqlite_classifications]. unfold sqlite_lookup_error.
  pose proof (foldl_picked msg conn (map_to_list s)) as Hp. fold (best_match s conn msg) in Hp.
  destruct (best_match s conn msg) as [[[c g] [cause hits]]|]; [|done]. cbn [snd fst signature learned_cause]. intros [= <-].
  destruct Hp as (Hin & Ha & Hmax). unfold row_applies in Ha. apply andb_true_iff in Ha as [Hc%String.eqb_eq Hm]. cbn [fst snd signature learned_cause] in *. subst c.
  split_and!; [apply table_row_in; by exists hits|done|]. intros sig cause' [hits' Hr]%table_row_in Hms.
  apply (Hmax _ Hr). unfold row_applies. cbn [fst snd]. by rewrite String.eqb_refl, Hms.
Qed.
Next Obligation.
  intros s conn msg. cbn [lookup_error sqlite_classifications]. unfold sqlite_lookup_error.
  pose proof (foldl_picked msg conn (map_to_list s)) as Hp. fold (best_match s conn msg) in Hp.
  destruct (best_match s conn msg) as [[[c g] [cause hits]]|]; [done|]. intros _ sig cause [hits Hr]%table_row_in.
  specialize (Hp _ Hr). unfold row_applies in Hp. cbn [fst snd] in Hp. by rewrite String.eqb_refl in Hp.
Qed.
Next Obligation.
  intros s conn sig cause s' [= <-] c g. unfold table_rows. case_bool_decide as Hk.
  - destruct Hk as [-> ->]. by rewrite lookup_insert_eq.
  - rewrite lookup_insert_ne by naive_solver. done.
Qed.

(** ** Classifying *)

Definition MIN_SIGNATURE_LEN : nat := 8.
Definition SUCCESS_HIGH_WATER_MIN_TOKENS : Z := 8192.

Definition build_classifier_prompt (conn msg : string) : string :=
  "You classify errors returned by the " +:+ dq +:+ conn +:+ dq +:+ " LLM backend so an automated system can react. Reply with ONLY a JSON object and nothing else:" +:+ nl
  +:+ "{" +:+ dq +:+ "cause" +:+ dq +:+ ": " +:+ dq +:+ "<one of: context_overflow, rate_limited, billing_fatal, auth, model_loading, tools_unsupported, transient, unknown>" +:+ dq +:+ ", "
  +:+ dq +:+ "signature" +:+ dq +:+ ": " +:+ dq +:+ "<a short distinctive substring copied verbatim from the error that identifies this class of error>" +:+ dq +:+ "}" +:+ nl
  +:+ "Use " +:+ dq +:+ "billing_fatal" +:+ dq +:+ " for quota/billing/credit exhaustion, " +:+ dq +:+ "auth" +:+ dq +:+ " for authentication or permission failures, and "
  +:+ dq +:+ "unknown" +:+ dq +:+ " if unsure. The signature must be an exact substring of the error and must not contain secrets." +:+ nl +:+ nl
  +:+ "Error: " +:+ msg.

Definition build_overflow_extraction_prompt (msg : string) : string :=
  "A context-window overflow error from an LLM backend is below. Extract the token numbers it states. Reply with ONLY a JSON object and nothing else:" +:+ nl
  +:+ "{" +:+ dq +:+ "max_context_tokens" +:+ dq +:+ ": <the model's total context window in tokens, or null>, "
  +:+ dq +:+ "prompt_tokens" +:+ dq +:+ ": <the input/prompt token count, or null>, "
  +:+ dq +:+ "requested_output_tokens" +:+ dq +:+ ": <the requested/reserved output tokens, or null>}" +:+ nl
  +:+ "Use null for any field the error does not state. Copy the integers exactly; do not guess, round, or infer a number that is not written in the error." +:+ nl +:+ nl
  +:+ "Error: " +:+ msg.

(** [str::rfind] of one byte. *)
Fixpoint rfind_byte (a : Ascii.ascii) (s : string) : option nat :=
  match s with
  | EmptyString => None
  | String b s' =>
      match rfind_byte a s' with Some i => Some (S i) | None => if Ascii.eqb b a then Some 0 else None end
  end.

(** From the first brace to the last. *)
Definition json_slice (text : string) : option string :=
  start ← Sanitize.find text "{";
  end_ ← rfind_byte (Ascii.ascii_of_nat 125) text;
  if end_ <? start then None else Some (str_prefix (end_ + 1 - start) (drop_bytes start text)).

Section classifying.
Context {W : Type} `{!ErrorClassificationStore W}.
(** The deserializers of the two answers, the deadline of a side call (where it
    passes first, the world it leaves), and the id of a new message. *)
Context (parse_answer : string → option (string * string)) (parse_numbers : string → option OverflowFields).
Context (cut : W → option W) (mint : W → string).

Record WindowPorts := {
  port_overflow : W → string → string → Z → Z → W * result unit CoreError;
  port_success : W → string → string → Z → W * result unit CoreError
}.

Record ClassificationDeps := { classifier : option (LlmClient W); window_store : option WindowPorts }.

Definition parse_classifier_response (text original : string) : option (NormalizedCause * string) :=
  parsed ← json_slice text ≫= parse_answer;
  cause ← cause_from_key (trim parsed.1);
  if bool_decide (cause = Unknown) then None
  else
    let sig := trim parsed.2 in
    if (String.length sig <? MIN_SIGNATURE_LEN) || negb (matches original sig) then None else Some (cause, sig).

Definition parse_overflow_extraction_response (text : string) : option OverflowFields := json_slice text ≫= parse_numbers.

(** A side call to the classifier. *)
Definition ask (c : LlmClient W) (e : Env) (prompt : string) (w : W) : W * option LlmResponse :=
  match cut w with
  | Some w' => (w', None)
  | None =>
      let r := run (λ s _, (s, true)) tt
        (stream_completion c (with_classification_in_progress e) [Message_new (mint w) User prompt] [] ReasoningConfig_default w) in
      (r.2.1, match r.2.2 with Ok x => Some x | Err _ => None end)
  end.

Definition extract_overflow_via_llm (c : LlmClient W) (e : Env) (detail : string) (w : W) : W * option OverflowFields :=
  let '(w', resp) := ask c e (build_overflow_extraction_prompt (redact_secrets detail)) w in
  (w', resp ≫= λ x, parse_overflow_extraction_response (resp_text x)).

Definition classify_via_llm (conn : string) (c : LlmClient W) (e : Env) (detail : string) (w : W) : W * option (NormalizedCause * string) :=
  let '(w', resp) := ask c e (build_classifier_prompt conn (redact_secrets detail)) w in
  (w', resp ≫= λ x, parse_classifier_response (resp_text x) detail).

Section client.
Context (inner : LlmClient W) (conn : string).

Definition model_in_force (e : Env) : string := default EmptyString (or_else (model_override e) (get_default_model inner)).

Definition is_overflow (c : NormalizedCause) : bool := match c with CauseContextOverflow _ _ => true | _ => false end.

Definition learn_window (e : Env) (cause : NormalizedCause) (detail : string) (deps : option ClassificationDeps) (w : W) : W :=
  if negb (is_overflow cause) then w
  else if classification_in_progress e then w
  else
    match deps ≫= window_store, context_budget e with
    | Some store, Some budget =>
        let fields := extract_overflow_fields detail in
        let '(w, fields) :=
          match derive_input_ceiling fields, deps ≫= classifier with
          | None, Some c =>
              let '(w', found) := extract_overflow_via_llm c e detail w in
              (w', match found with Some llm_fields => OverflowFields_or fields llm_fields | None => fields end)
          | _, _ => (w, fields)
          end in
        match derive_input_ceiling fields with
        | Some ceiling => (port_overflow store w conn (model_in_force e) ceiling (max_input_tokens budget)).1
        | None => w
        end
    | _, _ => w
    end.

Definition learn_success (e : Env) (resp : LlmResponse) (deps : option ClassificationDeps) (w : W) : W :=
  if classification_in_progress e then w
  else
    match deps ≫= window_store, resp_input_tokens resp with
    | Some store, Some input_tokens =>
        let floor := match context_budget e with Some b => (max_input_tokens b / 2)%Z | None => SUCCESS_HIGH_WATER_MIN_TOKENS end in
        if (input_tokens <? Z.max floor SUCCESS_HIGH_WATER_MIN_TOKENS)%Z then w
        else (port_success store w conn (model_in_force e) input_tokens).1
    | _, _ => w
    end.

Definition apply_cause (cause : NormalizedCause) (detail : string) : result LlmResponse CoreError :=
  match cause_to_core_error cause detail with Some mapped => Err mapped | None => Err (Llm detail) end.

Definition builtin_cause (detail : string) : NormalizedCause :=
  classify_builtin {| connector := conn; http_status := None; provider_code := None; message := detail |}.

(** Tiers 2 and 3. *)
Definition classify_novel (e : Env) (detail : string) (deps : ClassificationDeps) (w : W) : W * result LlmResponse CoreError :=
  let '(w, found) := lookup_error w conn detail in
  match (match found with Ok (Some l) => cause_from_key (learned_cause l) | _ => None end) with
  | Some c => (w, apply_cause c detail)
  | None =>
      match classifier deps with
      | None => (w, Err (Llm detail))
      | Some c =>
          let '(w, answer) := classify_via_llm conn c e detail w in
          match answer with
          | Some (cause, sig) =>
              let '(w, _) := record_error w conn sig (cause_as_key cause) in (w, apply_cause cause detail)
          | None => (w, Err (Llm detail))
          end
      end
  end.

Definition reclassify_with (e : Env) (deps : option ClassificationDeps) (w : W) (r : result LlmResponse CoreError) : W * result LlmResponse CoreError :=
  match r with
  | Err (Llm detail) =>
      let cause := builtin_cause detail in
      if negb (bool_decide (cause = Unknown))
      then (learn_window e cause detail deps w, apply_cause cause detail)
      else if classification_in_progress e then (w, Err (Llm detail))
      else match deps with None => (w, Err (Llm detail)) | Some deps => classify_novel e detail deps w end
  | Ok resp => (learn_success e resp deps w, r)
  | Err _ => (w, r)
  end.

Definition ClassifyingLlmClient (deps : option ClassificationDeps) : LlmClient W :=
  {| get_default_model := get_default_model inner;
     get_default_base_url := get_default_base_url inner;
     client_max_context_tokens := client_max_context_tokens inner;
     estimate_tokens := estimate_tokens inner;
     stream_completion := λ e ms tools r w,
       bind (stream_completion inner e ms tools r w) (λ '(w', res), Ret (reclassify_with e deps w' res));
     hosted_tool_search :=
       match hosted_tool_search inner with
       | Some _ => Some (λ e ms core_tools namespaces r w,
           bind (dispatch_namespaced inner e ms core_tools namespaces r w) (λ '(w', res), Ret (reclassify_with e deps w' res)))
       | None => None
       end |}.
End client.
End classifying.

(** ** What the stack promises *)

Section stack.
Context {W : Type} `{!ErrorClassificationStore W}.
Context (parse_answer : string → option (string * string)) (parse_numbers : string → option OverflowFields).
Context (cut : W → option W) (mint : W → string) (sleep : Z → W → W) (delays : nat → list Z).

Notation Classifying := (ClassifyingLlmClient parse_answer parse_numbers cut mint).
Notation Retrying := (RetryingLlmClient sleep delays).

Lemma run_classifying {S} (cb : S → string → S * bool) s inner conn deps e ms tools r w :
  run cb s (stream_completion (Classifying inner conn deps) e ms tools r w) =
    let o := run cb s (stream_completion inner e ms tools r w) in
    (o.1, reclassify_with parse_answer parse_numbers cut mint inner conn e deps o.2.1 o.2.2).
Proof. cbn [stream_completion ClassifyingLlmClient]. rewrite run_bind. cbv zeta. by destruct (run cb s _) as [s' [w' res]]. Qed.

(** A provider that says the account is out of quota or credit is asked
    once: the turn gets the terminal error at once, after whatever was streamed,
    without a wait, a second attempt or a side call. *)
Theorem an_empty_account_is_asked_once {S} (cb : S → string → S * bool) s s' inner conn deps max_retries e ms tools r w w' detail
    (Hrun : run cb s (stream_completion inner e ms tools r w) = (s', (w', Err (Llm detail))))
    (Hsaid : says_billing (to_ascii_lowercase detail) = true)
    (Hroom : says_overflow (to_ascii_lowercase detail) = false) :
  run cb s (stream_completion (Retrying (Classifying inner conn deps) max_retries) e ms tools r w) = (s', (w', Err (QuotaExceeded detail))).
Proof.
  assert (Hone : run cb s (stream_completion (Classifying inner conn deps) e ms tools r w) = (s', (w', Err (QuotaExceeded detail)))).
  { rewrite run_classifying, Hrun. cbn [fst snd reclassify_with]. unfold builtin_cause. by rewrite credit_is_not_throttling. }
  cbn [stream_completion RetryingLlmClient]. rewrite retry_first; [done|]. intros after d. by rewrite Hone.
Qed.

(** *** Cost *)

Section metered.
Context (calls : W → nat).

(** At most [k] calls of a backend for a completion. *)
Definition costs (c : LlmClient W) (e : Env) (k : nat) : Prop :=
  ∀ ms tools r w (S : Type) (cb : S → string → S * bool) s, calls (run cb s (stream_completion c e ms tools r w)).2.1 ≤ calls w + k.

Context (Hlookup : ∀ w conn msg, calls (lookup_error w conn msg).1 = calls w).
Context (Hrecord : ∀ w conn sig cause, calls (record_error w conn sig cause).1 = calls w).
Context (Hsleep : ∀ d w, calls (sleep d w) = calls w).
Context (Hcut : ∀ w w', cut w = Some w' → calls w' ≤ calls w + 1).

Definition quiet_window (deps : option ClassificationDeps) : Prop :=
  ∀ p, deps ≫= window_store = Some p →
    (∀ w c m a b, calls (port_overflow p w c m a b).1 = calls w) ∧ (∀ w c m n, calls (port_success p w c m n).1 = calls w).

Definition one_call_classifier (e : Env) (deps : option ClassificationDeps) : Prop :=
  ∀ c, deps ≫= classifier = Some c → costs c (with_classification_in_progress e) 1.

Lemma ask_costs c e prompt w : costs c (with_classification_in_progress e) 1 → calls (ask cut mint c e prompt w).1 ≤ calls w + 1.
Proof. intros Hc. unfold ask. destruct (cut w) eqn:Hw; [by apply Hcut in Hw|]. apply Hc. Qed.

Lemma learn_window_costs inner conn e cause detail deps w :
  quiet_window deps → one_call_classifier e deps →
  calls (learn_window parse_numbers cut mint inner conn e cause detail deps w) ≤ calls w + 1.
Proof.
  intros Hq Hone. unfold learn_window. destruct (negb _); [lia|]. destruct (classification_in_progress e); [lia|].
  destruct (deps ≫= window_store) as [store|] eqn:Hs; [|lia]. destruct (context_budget e) as [budget|]; [|lia]. destruct (Hq store Hs) as [Ho _].
  assert (Hside : ∀ c, deps ≫= classifier = Some c → calls (extract_overflow_via_llm parse_numbers cut mint c e detail w).1 ≤ calls w + 1).
  { intros c Hc. unfold extract_overflow_via_llm. pose proof (ask_costs c e (build_overflow_extraction_prompt (redact_secrets detail)) w (Hone c Hc)) as Ha.
    by destruct (ask _ _ _ _ _ _). }
  destruct (derive_input_ceiling (extract_overflow_fields detail)) as [x|] eqn:Hx.
  - rewrite Hx, Ho. lia.
  - destruct (deps ≫= classifier) as [c|]; [|rewrite Hx; lia]. specialize (Hside c eq_refl).
    destruct (extract_overflow_via_llm _ _ _ _ _ _) as [w' found]. cbn [fst] in Hside. cbv beta iota.
    match goal with |- context [derive_input_ceiling ?f] => destruct (derive_input_ceiling f) end; [by rewrite Ho|done].
Qed.

Lemma reclassify_costs inner conn e deps w res :
  quiet_window deps → one_call_classifier e deps →
  calls (reclassify_with parse_answer parse_numbers cut mint inner conn e deps w res).1 ≤ calls w + 1.
Proof.
  intros Hq Hone. destruct res as [resp|err]; cbn [reclassify_with].
  - cbn [fst]. unfold learn_success. destruct (classification_in_progress e); [lia|]. destruct (deps ≫= window_store) as [store|] eqn:Hs; [|lia].
    destruct (Hq store Hs) as [_ Hsucc]. destruct (resp_input_tokens resp); [|lia]. destruct (_ <? _)%Z; [lia|]. rewrite Hsucc. lia.
  - destruct err; cbn [fst]; try lia. destruct (negb _); [cbn [fst]; by apply learn_window_costs|].
    destruct (classification_in_progress e); [cbn [fst]; lia|]. destruct deps as [deps|]; [|cbn [fst]; lia]. unfold classify_novel.
    pose proof (Hlookup w conn msg) as Hl. destruct (lookup_error w conn msg) as [w1 found]. cbn [fst] in Hl.
    destruct (match found with Ok (Some l) => cause_from_key (learned_cause l) | _ => None end); [cbn [fst]; lia|].
    destruct (classifier deps) as [c|] eqn:Hc; [|cbn [fst]; lia]. unfold classify_via_llm.
    pose proof (ask_costs c e (build_classifier_prompt conn (redact_secrets msg)) w1 (Hone c Hc)) as Ha. destruct (ask _ _ _ _ _ _) as [w2 resp].
    cbn [fst] in Ha. destruct (resp ≫= _) as [[cause sig]|]; [|cbn [fst]; lia].
    pose proof (Hrecord w2 conn sig (cause_as_key cause)) as Hr. destruct (record_error w2 conn sig (cause_as_key cause)). cbn [fst] in *. lia.
Qed.

Lemma nested_reclassify_costs inner conn e deps w res :
  classification_in_progress e = true →
  (reclassify_with parse_answer parse_numbers cut mint inner conn e deps w res).1 = w.
Proof.
  intros He. destruct res as [resp|err]; cbn [reclassify_with]; [unfold learn_success; by rewrite He|].
  destruct err; try done. rewrite He. destruct (negb _); [|done]. unfold learn_window. rewrite He. by destruct (negb _).
Qed.

Lemma classifying_costs inner conn e deps k :
  quiet_window deps → one_call_classifier e deps → costs inner e k → costs (Classifying inner conn deps) e (k + 1).
Proof.
  intros Hq Hone Hk ms tools r w S cb s. rewrite run_classifying. cbv zeta. cbn [fst snd]. specialize (Hk ms tools r w S cb s).
  pose proof (reclassify_costs inner conn e deps (run cb s (stream_completion inner e ms tools r w)).2.1
    (run cb s (stream_completion inner e ms tools r w)).2.2 Hq Hone). lia.
Qed.

Lemma nested_costs inner conn e deps k : classification_in_progress e = true → costs inner e k → costs (Classifying inner conn deps) e k.
Proof.
  intros He Hk ms tools r w S cb s. rewrite run_classifying. cbv zeta. cbn [fst snd]. rewrite nested_reclassify_costs by done. apply Hk.
Qed.

Lemma silent_costs k attempt ds w w' :
  (∀ w S (cb : S → string → S * bool) s, calls (run cb s (attempt w)).2.1 ≤ calls w + k) →
  silently sleep attempt ds w w' → calls w' ≤ calls w + k * length ds.
Proof.
  intros Hk Hs. induction Hs as [w|d ds w w1 after detail w' Ha _ IH]; [simpl; lia|].
  pose proof (Hk w unit (λ s _, (s, true)) tt) as Hone. rewrite Ha in Hone. cbn in Hone. rewrite Hsleep in IH. cbn [length]. lia.
Qed.

(** However a completion fails, it costs boundedly many calls of a backend:
    one per attempt and at most one side call to the classifier for each, which
    is itself a classifying client and asks nobody. *)
Theorem a_completion_costs_boundedly (Hdelays : ∀ n, length (delays n) = n) backend conn deps side side_conn side_deps max_retries e
    (Hbackend : costs backend e 1) (Hside : costs side (with_classification_in_progress e) 1)
    (Hclassifier : deps ≫= classifier = Some (Classifying side side_conn side_deps)) (Hquiet : quiet_window deps) :
  costs (Retrying (Classifying backend conn deps) max_retries) e (2 * (max_retries + 1)).
Proof.
  assert (Hone : one_call_classifier e deps).
  { intros c Hc. rewrite Hclassifier in Hc. injection Hc as <-. by apply nested_costs. }
  pose proof (classifying_costs backend conn e deps 1 Hquiet Hone Hbackend) as Htwo.
  intros ms tools r w S cb s. cbn [stream_completion RetryingLlmClient].
  destruct (retry_spec sleep (delays max_retries) (stream_completion (Classifying backend conn deps) e ms tools r) w) as (ds1 & ds2 & w' & Hds & Hs & Heq & _).
  pose proof (f_equal length Hds) as Hlen. rewrite Hdelays, length_app in Hlen. rewrite Heq. specialize (Htwo ms tools r w' S cb s) as Hlast.
  pose proof (silent_costs 2 _ ds1 w w' (λ w S cb s, Htwo ms tools r w S cb s) Hs). nia.
Qed.
End metered.

(** *** Learning *)

Context `{!ErrorClassificationStoreLaws W}.

Lemma parsed_signature_matches text original cause sig :
  parse_classifier_response parse_answer text original = Some (cause, sig) → matches original sig = true ∧ cause ≠ Unknown ∧ MIN_SIGNATURE_LEN ≤ String.length sig.
Proof.
  unfold parse_classifier_response. intros ([c g] & _ & (cause' & _ & Hp)%bind_Some)%bind_Some. case_bool_decide; [done|].
  destruct (_ || _) eqn:Hg; [done|]. injection Hp as <- <-. apply orb_false_iff in Hg as [Hl%Nat.ltb_ge Hm%negb_false_iff]. done.
Qed.

(** A novel error is asked about once: after the classifier named its cause
    and the answer was recorded, the same error is settled by the store alone,
    from any later state that still holds what was recorded, with a signature at
    least as specific, whatever classifier is then installed. *)
Theorem an_error_is_asked_about_once inner conn c e detail w0 w1 w2 w3 cause sig o
    (Hnovel : builtin_cause conn detail = Unknown) (Hfree : classification_in_progress e = false)
    (Hasked : classify_via_llm parse_answer cut mint conn c e detail w0 = (w1, Some (cause, sig)))
    (Hrecorded : record_error w1 conn sig (cause_as_key cause) = (w2, Ok tt))
    (Hlater : ∀ g x, rows w2 conn g = Some x → rows w3 conn g = Some x)
    (Hkeys : ∀ g x, rows w3 conn g = Some x → is_Some (cause_from_key x))
    (Hanswers : (lookup_error w3 conn detail).2 = Ok o) :
  ∃ l cause', o = Some l ∧ cause_from_key (learned_cause l) = Some cause' ∧ chars_count sig ≤ chars_count (signature l) ∧
    ∀ deps, reclassify_with parse_answer parse_numbers cut mint inner conn e (Some deps) w3 (Err (Llm detail))
              = ((lookup_error w3 conn detail).1, apply_cause cause' detail).
Proof.
  assert (Hrow : rows w3 conn sig = Some (cause_as_key cause)).
  { apply Hlater. rewrite (record_recorded _ _ _ _ _ Hrecorded). by rewrite bool_decide_eq_true_2. }
  assert (Hm : matches detail sig = true).
  { unfold classify_via_llm in Hasked. destruct (ask _ _ _ _ _ _) as [w' resp]. injection Hasked as _ Hr. apply bind_Some in Hr as (x & _ & Hp).
    by apply parsed_signature_matches in Hp as [? _]. }
  destruct o as [l|]; [|by rewrite (lookup_missed _ _ _ Hanswers _ _ Hrow) in Hm].
  destruct (lookup_found _ _ _ _ Hanswers) as (Hl & _ & Hmax). destruct (Hkeys _ _ Hl) as [cause' Hc']. exists l, cause'.
  split_and!; [done|done|by apply (Hmax _ _ Hrow)|]. intros deps. cbn [reclassify_with]. rewrite Hnovel, bool_decide_eq_true_2, Hfree by done. cbn [negb].
  unfold classify_novel. destruct (lookup_error w3 conn detail) as [w4 found]. cbn [fst snd] in *. by rewrite Hanswers, Hc'.
Qed.
End stack.

(** ** A concrete stack

    The world is the number of calls made and the table of classifications. *)

Definition DemoWorld := (nat * ClassTable)%type.

#[export] Instance demo_classifications : ErrorClassificationStore DemoWorld := {|
  lookup_error := λ w conn msg, let r := sqlite_lookup_error w.2 conn msg in ((w.1, r.1), r.2);
  record_error := λ w conn sig cause, let r := sqlite_record_error w.2 conn sig cause in ((w.1, r.1), r.2) |}.

#[export] Program Instance demo_classification_laws : ErrorClassificationStoreLaws DemoWorld := {| rows := λ w, table_rows w.2 |}.
Next Obligation. intros s conn msg c g. exact (lookup_keeps (St := ClassTable) s.2 conn msg c g). Qed.
Next Obligation. intros s conn msg l Hl. exact (lookup_found (St := ClassTable) s.2 conn msg l Hl). Qed.
Next Obligation. intros s conn msg Hl. exact (lookup_missed (St := ClassTable) s.2 conn msg Hl). Qed.
Next Obligation.
  intros s conn sig cause s' Hr c g. cbn [record_error demo_classifications] in Hr. injection Hr as <-. cbn [snd].
  exact (record_recorded (St := ClassTable) s.2 conn sig cause _ eq_refl c g).
Qed.

(** A backend that answers from a script indexed by the calls made so far. *)
Definition scripted (script : nat → Prog (result LlmResponse CoreError)) : LlmClient DemoWorld :=
  {| get_default_model := Some "m"; get_default_base_url := None; client_max_context_tokens := λ _, None; estimate_tokens := λ s, slen s;
     stream_completion := λ _ _ _ _ w, bind (script w.1) (λ r, Ret ((S w.1, w.2), r));
     hosted_tool_search := None |}.

Definition says (t : string) : LlmResponse := {| resp_text := t; resp_calls := []; resp_input_tokens := None |}.
Definition demo_env : Env := {| classification_in_progress := false; model_override := None; context_budget := None |}.
Definition demo_sleep (d : Z) (w : DemoWorld) : DemoWorld := w.
Definition demo_delays (n : nat) : list Z := map (λ i, Z.min 60 (2 ^ Z.of_nat i)) (seq 0 n).
Definition collect (l : list string) (c : string) : list string * bool := (l ++ [c], true).
Definition busy : result LlmResponse CoreError := Err (RateLimited None "slow down").

(** Busy twice, then an answer in two chunks. *)
Definition busy_backend : LlmClient DemoWorld :=
  scripted (λ n, if n <? 2 then Ret busy else Emit "Hel" (λ _, Emit "lo" (λ _, Ret (Ok (says "Hello"))))).

Lemma demo_delays_length n : length (demo_delays n) = n.
Proof. unfold demo_delays. by rewrite length_map, length_seq. Qed.

Lemma a_stream_is_never_replayed_witness :
  run collect [] (stream_completion (RetryingLlmClient demo_sleep demo_delays busy_backend 3) demo_env [] [] ReasoningConfig_default (0, ∅))
    = (["Hel"; "lo"], ((3, ∅), Ok (says "Hello"))) ∧
  ∃ ds w', length ds ≤ 3 ∧ silently demo_sleep (stream_completion busy_backend demo_env [] [] ReasoningConfig_default) ds (0, ∅) w' ∧
    run collect [] (stream_completion (RetryingLlmClient demo_sleep demo_delays busy_backend 3) demo_env [] [] ReasoningConfig_default (0, ∅))
      = run collect [] (stream_completion busy_backend demo_env [] [] ReasoningConfig_default w') ∧
    (length ds = 3 ∨ ∀ w'' after detail, stream_completion busy_backend demo_env [] [] ReasoningConfig_default w' ≠ Ret (w'', Err (RateLimited after detail))).
Proof.
  split; [vm_compute; reflexivity|].
  exact (a_stream_is_never_replayed demo_sleep demo_delays demo_delays_length busy_backend 3 demo_env [] [] ReasoningConfig_default (0, ∅) collect []).
Defined.

Lemma calls_are_assembled_apart_witness :
  into_tool_calls (foldl acc_event ∅ [CallStart 1 "b" "y"; CallStart 0 "a" "x"; CallDelta 0 "{"; CallDelta 1 "{}"; CallDelta 0 "}"])
    = into_tool_calls (foldl acc_event ∅ [CallStart 0 "a" "x"; CallDelta 0 "{"; CallDelta 0 "}"; CallStart 1 "b" "y"; CallDelta 1 "{}"]).
Proof.
  refine (proj1 (calls_are_assembled_apart _ _ _)). intros k. cbn [List.filter event_key].
  destruct (1 =? k)%Z eqn:H1, (0 =? k)%Z eqn:H0; try reflexivity. apply Z.eqb_eq in H1, H0. subst. discriminate.
Defined.

Definition broke : string := "429 insufficient_quota: check your plan and billing details".

Lemma an_empty_account_is_asked_once_witness :
  run collect [] (stream_completion (RetryingLlmClient demo_sleep demo_delays
      (ClassifyingLlmClient (λ _, None) (λ _, None) (λ _, None) (λ _, "id") (scripted (λ _, Emit "H" (λ _, Ret (Err (Llm broke))))) "openai" None) 3)
    demo_env [] [] ReasoningConfig_default (0, ∅))
  = (["H"], ((1, ∅), Err (QuotaExceeded broke))).
Proof.
  apply (an_empty_account_is_asked_once (λ _, None) (λ _, None) (λ _, None) (λ _, "id") demo_sleep demo_delays); vm_compute; reflexivity.
Defined.

(** The classifier's answer and what it reads in the error. *)
Definition odd : string := "E-7731: the frobnicator refused this tenant".
Definition demo_answer (s : string) : option (string * string) := Some ("billing_fatal", "frobnicator refused").
Definition demo_classifier : LlmClient DemoWorld := scripted (λ _, Ret (Ok (says "{}"))).
Definition demo_side : LlmClient DemoWorld := ClassifyingLlmClient demo_answer (λ _, None) (λ _, None) (λ _, "id") demo_classifier "cheap" None.
Definition demo_deps : ClassificationDeps := {| classifier := Some demo_side; window_store := None |}.

Lemma a_completion_costs_boundedly_witness :
  @costs DemoWorld fst (RetryingLlmClient demo_sleep demo_delays
     (ClassifyingLlmClient demo_answer (λ _, None) (λ _, None) (λ _, "id") busy_backend "openai" (Some demo_deps)) 3) demo_env 8.
Proof.
  assert (Hscript : ∀ script e, @costs DemoWorld fst (scripted script) e 1).
  { intros script e ms tools r w S cb s. cbn [stream_completion scripted]. rewrite run_bind. cbn. lia. }
  apply (a_completion_costs_boundedly demo_answer (λ _, None) (λ _, None) (λ _, "id") demo_sleep demo_delays fst) with (side := demo_classifier) (side_conn := "cheap") (side_deps := None);
    try done; try apply Hscript. exact demo_delays_length.
Defined.

Lemma an_error_is_asked_about_once_witness :
  ∃ l cause', Some {| signature := "frobnicator refused"; learned_cause := "billing_fatal" |} = Some l ∧ cause_from_key (learned_cause l) = Some cause' ∧
    chars_count "frobnicator refused" ≤ chars_count (signature l) ∧
    ∀ deps, reclassify_with demo_answer (λ _, None) (λ _, None) (λ _, "id") busy_backend "openai" demo_env (Some deps)
              (1, <[("openai", "frobnicator refused") := ("billing_fatal", 0%Z)]> ∅) (Err (Llm odd))
            = ((lookup_error (St := DemoWorld) (1, <[("openai", "frobnicator refused") := ("billing_fatal", 0%Z)]> ∅) "openai" odd).1, apply_cause cause' odd).
Proof.
  refine (an_error_is_asked_about_once demo_answer (λ _, None) (λ _, None) (λ _, "id") busy_backend "openai" demo_classifier demo_env odd (0, ∅) (1, ∅)
    (1, <[("openai", "frobnicator refused") := ("billing_fatal", 0%Z)]> ∅) _ BillingFatal "frobnicator refused" _ _ _ _ _ _ _ _).
  - match goal with |- _ = ?b => vm_cast_no_check (eq_refl b) end.
  - reflexivity.
  - match goal with |- _ = ?b => vm_cast_no_check (eq_refl b) end.
  - match goal with |- _ = ?b => vm_cast_no_check (eq_refl b) end.
  - done.
  - intros g x Hx. apply (fmap_Some fst) in Hx as ([c n] & Hc & ->). cbn [snd] in Hc. apply lookup_insert_Some in Hc as [[_ [= <- <-]]|[_ Hc]].
    + by exists BillingFatal.
    + by rewrite lookup_empty in Hc.
  - match goal with |- _ = ?b => vm_cast_no_check (eq_refl b) end.
Defined.
