(* ===== verification/ClientTools.v ===== *)
(** * Client-side tools: registration, suspension, resolution

    Models [crates/application/src/client_tools.rs] (the coordinator, the
    suspension of a turn on a client tool, the resolution of a client's answer,
    the in-memory turn store, the per-turn port and the cold-restart sweep) and
    the turn rows of [crates/core/src/ports/store.rs].

    A suspension is a thread whose program counter runs through the awaits of
    [CoordinatorClientToolPort::execute] and [suspend_for_client_tool]; each
    critical section of the coordinator's or the store's mutex is one step, and
    [step] interleaves any number of suspensions with registrations, answers,
    cancellations and timeouts in any order.  A suspension's oneshot channel is
    named by its thread id.  Taking a slot and sending on its waker is one step:
    the gap between them is not observable, because a suspension that leaves in
    the gap leaves the same way with the message in its channel.

    The session's user and session id are the task-locals; a JSON value is
    opaque. *)

From S2P Require Import Prelude TaskStore.

#[local] Open Scope nat_scope.

Definition MAX_CLIENT_TOOL_RESULT_BYTES : Z := 1048576.
(** Seconds. *)
Definition DEFAULT_CLIENT_TOOL_TIMEOUT : nat := 120.

(** ** Turn rows (core/src/ports/store.rs) *)

Inductive TurnStatus := PendingLlm | PendingToolDispatch | PendingClientTool | Complete | Failed.

#[export] Instance TurnStatus_eq_dec : EqDecision TurnStatus.
Proof. solve_decision. Defined.

Definition turn_as_key (s : TurnStatus) : string :=
  match s with
  | PendingLlm => "pending_llm"
  | PendingToolDispatch => "pending_tool_dispatch"
  | PendingClientTool => "pending_client_tool"
  | Complete => "complete"
  | Failed => "failed"
  end.

Definition turn_from_key (s : string) : option TurnStatus :=
  if bool_decide (s = "pending_llm") then Some PendingLlm
  else if bool_decide (s = "pending_tool_dispatch") then Some PendingToolDispatch
  else if bool_decide (s = "pending_client_tool") then Some PendingClientTool
  else if bool_decide (s = "complete") then Some Complete
  else if bool_decide (s = "failed") then Some Failed
  else None.

Definition turn_is_terminal (s : TurnStatus) : bool :=
  match s with Complete | Failed => true | _ => false end.

Section client_tools.
Context {Json : Type}.

Record PendingClientToolCall := { tool_call_id : string; tool_name : string; arguments : Json }.
Record TurnStateJson := { version : Z; pending_client_tool : option PendingClientToolCall }.
Definition TurnStateJson_default : TurnStateJson := {| version := 1; pending_client_tool := None |}.

Record TurnRow := {
  turn_id : string;
  turn_user_id : string;
  turn_conversation_id : string;
  turn_status : TurnStatus;
  turn_state : TurnStateJson;
  turn_last_error : option string
}.

(** ** The in-memory turn store *)

Notation InMemoryTurnStateStore := (gmap string TurnRow) (only parsing).

Definition create_turn (rows : InMemoryTurnStateStore) (row : TurnRow)
    : InMemoryTurnStateStore * result unit CoreError :=
  match rows !! turn_id row with
  | Some _ => (rows, Err (Storage ("duplicate turn id: " +:+ turn_id row)))
  | None => (<[turn_id row := row]> rows, Ok tt)
  end.

Definition get_turn (rows : InMemoryTurnStateStore) (id : string) : result (option TurnRow) CoreError :=
  Ok (rows !! id).

Definition update_turn (rows : InMemoryTurnStateStore) (id : string) (status : TurnStatus)
    (state : TurnStateJson) (last_error : option string)
    : InMemoryTurnStateStore * result unit CoreError :=
  match rows !! id with
  | None => (rows, Err (Storage ("turn missing: " +:+ id)))
  | Some row =>
      let row := {| turn_id := turn_id row; turn_user_id := turn_user_id row;
                    turn_conversation_id := turn_conversation_id row;
                    turn_status := status; turn_state := state; turn_last_error := last_error |} in
      let rows := <[id := row]> rows in
      (if turn_is_terminal status then delete id rows else rows, Ok tt)
  end.

Definition scan_non_terminal_turns (rows : InMemoryTurnStateStore) : list TurnRow :=
  filter (λ r, turn_is_terminal (turn_status r) = false) (map_to_list rows).*2.

(** [sweep_non_terminal_turns_on_startup]: the first failing update ends it. *)
Fixpoint sweep_rows (rows : InMemoryTurnStateStore) (todo : list TurnRow) (count : Z)
    : InMemoryTurnStateStore * result Z CoreError :=
  match todo with
  | [] => (rows, Ok count)
  | row :: todo =>
      match update_turn rows (turn_id row) Failed (turn_state row) (Some "daemon_restarted") with
      | (rows, Err e) => (rows, Err e)
      | (rows, Ok _) => sweep_rows rows todo (sat_add u32_max count 1)
      end
  end.

Definition sweep_non_terminal_turns_on_startup (rows : InMemoryTurnStateStore)
    : InMemoryTurnStateStore * result Z CoreError :=
  sweep_rows rows (scan_non_terminal_turns rows) 0.

(** ** The coordinator *)

Record ClientToolRegistration := { reg_name : string; reg_description : string; input_schema : Json }.

(** [(user_id, session_id)]. *)
Notation RegistrationKey := (string * string)%type (only parsing).

(** [waker] is the id of the suspension whose channel it sends on. *)
Record PendingSlot := { slot_user_id : string; expected_tool_call_id : string; waker : nat }.

Record ClientToolCoordinator := {
  registrations : gmap RegistrationKey (list ClientToolRegistration);
  pending : gmap string PendingSlot
}.

Definition ClientToolCoordinator_new : ClientToolCoordinator :=
  {| registrations := ∅; pending := ∅ |}.

Definition set_pending (c : ClientToolCoordinator) (p : gmap string PendingSlot) : ClientToolCoordinator :=
  {| registrations := registrations c; pending := p |}.

(** One turn of [register]'s loop: the first entry of that name is overwritten
    in place, otherwise the tool is pushed. *)
Fixpoint hold (entry : list ClientToolRegistration) (t : ClientToolRegistration)
    : list ClientToolRegistration :=
  match entry with
  | [] => [t]
  | held :: rest => if bool_decide (reg_name held = reg_name t) then t :: rest else held :: hold rest t
  end.

Definition register (c : ClientToolCoordinator) (key : RegistrationKey) (tools : list ClientToolRegistration)
    : ClientToolCoordinator * Z :=
  let entry := foldl hold [] tools in
  ({| registrations := <[key := entry]> (registrations c); pending := pending c |},
   Z.min u32_max (Z.of_nat (length entry))).

Definition has_tool (name : string) (l : list ClientToolRegistration) : bool :=
  existsb (λ t, bool_decide (reg_name t = name)) l.

Definition is_client_registered (c : ClientToolCoordinator) (key : RegistrationKey) (name : string) : bool :=
  match registrations c !! key with Some l => has_tool name l | None => false end.

Definition is_registered_in_any_session (c : ClientToolCoordinator) (name : string) : bool :=
  existsb (λ kv, has_tool name kv.2) (map_to_list (registrations c)).

(** The [ToolDefinition]s: name, description and schema. *)
Definition registered_definitions (c : ClientToolCoordinator) (key : RegistrationKey)
    : list (string * string * Json) :=
  match registrations c !! key with
  | Some l => (λ r, (reg_name r, reg_description r, input_schema r)) <$> l
  | None => []
  end.

Definition clear_session (c : ClientToolCoordinator) (session : string) : ClientToolCoordinator :=
  {| registrations := filter (λ kv, kv.1.2 ≠ session) (registrations c); pending := pending c |}.

Inductive ClientToolResolutionError :=
| TurnNotFound (task_id : string)
| ToolCallIdMismatch (task_id expected got : string)
| MalformedResult (msg : string)
| ResolutionStorage (msg : string).

(** [resolve_client_tool_result]: the waker that is sent the payload. *)
Definition resolve_client_tool_result (c : ClientToolCoordinator) (user_id task_id call_id : string)
    (payload : result string string) : ClientToolCoordinator * result nat ClientToolResolutionError :=
  let too_large what body :=
    Err (MalformedResult (what +:+ " exceeds size cap (" +:+ pretty (slen body) +:+ " > "
                          +:+ pretty MAX_CLIENT_TOOL_RESULT_BYTES +:+ " bytes)")) in
  let over body := (MAX_CLIENT_TOOL_RESULT_BYTES <? slen body)%Z in
  let refused :=
    match payload with
    | Ok body => if over body then Some (too_large "result body" body) else None
    | Err reason => if over reason then Some (too_large "error reason" reason) else None
    end in
  match refused with
  | Some e => (c, e)
  | None =>
      match pending c !! task_id with
      | None => (c, Err (TurnNotFound task_id))
      | Some slot =>
          if bool_decide (slot_user_id slot ≠ user_id) then (c, Err (TurnNotFound task_id))
          else if bool_decide (expected_tool_call_id slot ≠ call_id)
          then (c, Err (ToolCallIdMismatch task_id (expected_tool_call_id slot) call_id))
          else (set_pending c (delete task_id (pending c)), Ok (waker slot))
      end
  end.

(** ** A suspension

    [CoordinatorClientToolPort::execute] and [suspend_for_client_tool] share the
    program counter.  What the suspension is called with: the task-locals, the
    port's fields and the call. *)

Record Suspension := {
  s_user : string;
  s_session : string;
  s_task : string;
  s_conversation : string;
  s_call : PendingClientToolCall;
  s_timeout : nat
}.

(** The receiving end of the oneshot. *)
Inductive Chan := Empty | Full (payload : result string string) | Closed.

Inductive Pc :=
| AtEnsure                                    (** [ensure_turn_row] *)
| AtGuard                                     (** step 1: registration guard *)
| AtMark                                      (** step 2: row to pending_client_tool *)
| AtEmit                                      (** step 3: emit [ClientToolCall] *)
| AtInstall                                   (** step 4: install the slot *)
| Waiting (rx : Chan)                         (** in [select!] *)
| Cancelling                                  (** the cancellation arm, slot removed *)
| Resuming (outcome : result string string)   (** step 5 *)
| Done (r : result string CoreError).

(** [Event::ClientToolCall]. *)
Record ClientToolCallEvent := {
  ev_task_id : string; ev_conversation_id : string; ev_tool_call_id : string;
  ev_tool_name : string; ev_arguments : Json
}.

Record World := {
  coord : ClientToolCoordinator;
  store : InMemoryTurnStateStore;
  threads : list (Suspension * Pc);
  sink : list ClientToolCallEvent
}.

Definition World_new : World :=
  {| coord := ClientToolCoordinator_new; store := ∅; threads := []; sink := [] |}.

Definition set_thread (w : World) (i : nat) (s : Suspension) (pc : Pc) : World :=
  {| coord := coord w; store := store w; threads := <[i := (s, pc)]> (threads w); sink := sink w |}.
Definition set_store (w : World) (st : InMemoryTurnStateStore) : World :=
  {| coord := coord w; store := st; threads := threads w; sink := sink w |}.
Definition set_coord (w : World) (c : ClientToolCoordinator) : World :=
  {| coord := c; store := store w; threads := threads w; sink := sink w |}.

(** Sending on, or dropping, the oneshot sender of suspension [i]; nothing
    happens when its receiver is gone. *)
Definition close_chan (ts : list (Suspension * Pc)) (i : nat) (c : Chan) : list (Suspension * Pc) :=
  match ts !! i with
  | Some (s, Waiting Empty) => <[i := (s, Waiting c)]> ts
  | _ => ts
  end.

(** The sender of the slot that [HashMap::insert] or [remove] gives back is
    dropped. *)
Definition drop_slot (w : World) (task : string) : World :=
  {| coord := set_pending (coord w) (delete task (pending (coord w))); store := store w;
     threads := match pending (coord w) !! task with
                | Some slot => close_chan (threads w) (waker slot) Closed
                | None => threads w
                end;
     sink := sink w |}.

Definition pending_state (s : Suspension) : TurnStateJson :=
  {| version := 1; pending_client_tool := Some (s_call s) |}.

Definition ensure_turn_row (w : World) (s : Suspension) : World :=
  set_store w (create_turn (store w)
    {| turn_id := s_task s; turn_user_id := s_user s; turn_conversation_id := s_conversation s;
       turn_status := PendingLlm; turn_state := TurnStateJson_default; turn_last_error := None |}).1.

Definition not_registered (s : Suspension) : CoreError :=
  ToolExecution ("tool '" +:+ tool_name (s_call s)
                 +:+ "' is not registered as a client-local tool for this user").

Definition no_answer (s : Suspension) : string :=
  "client did not respond to tool call '" +:+ tool_name (s_call s) +:+ "' within "
  +:+ pretty (s_timeout s) +:+ "s".

(** One step of suspension [i], other than by cancellation or timeout. *)
Definition advance (w : World) (i : nat) (s : Suspension) (pc : Pc) : World :=
  match pc with
  | AtEnsure => set_thread (ensure_turn_row w s) i s AtGuard
  | AtGuard =>
      if is_client_registered (coord w) (s_user s, s_session s) (tool_name (s_call s))
      then set_thread w i s AtMark
      else set_thread w i s (Done (Err (not_registered s)))
  | AtMark =>
      match update_turn (store w) (s_task s) PendingClientTool (pending_state s) None with
      | (st, Ok _) => set_thread (set_store w st) i s AtEmit
      | (st, Err e) => set_thread (set_store w st) i s (Done (Err e))
      end
  | AtEmit =>
      {| coord := coord w; store := store w; threads := <[i := (s, AtInstall)]> (threads w);
         sink := sink w ++ [{| ev_task_id := s_task s; ev_conversation_id := s_conversation s;
                               ev_tool_call_id := tool_call_id (s_call s);
                               ev_tool_name := tool_name (s_call s);
                               ev_arguments := arguments (s_call s) |}] |}
  | AtInstall =>
      let w := drop_slot w (s_task s) in
      let slot := {| slot_user_id := s_user s; expected_tool_call_id := tool_call_id (s_call s);
                     waker := i |} in
      set_thread (set_coord w (set_pending (coord w) (<[s_task s := slot]> (pending (coord w)))))
        i s (Waiting Empty)
  | Waiting Empty => w
  | Waiting (Full p) => set_thread w i s (Resuming p)
  | Waiting Closed => set_thread w i s (Resuming (Err "coordinator dropped the suspension waker"))
  | Cancelling =>
      let '(st, _) := update_turn (store w) (s_task s) Failed (pending_state s) (Some "cancelled") in
      set_thread (set_store w st) i s (Done (Err ErrCancelled))
  | Resuming (Ok p) =>
      match update_turn (store w) (s_task s) PendingLlm TurnStateJson_default None with
      | (st, Ok _) => set_thread (set_store w st) i s (Done (Ok p))
      | (st, Err e) => set_thread (set_store w st) i s (Done (Err e))
      end
  | Resuming (Err reason) =>
      let '(st, _) := update_turn (store w) (s_task s) Failed (pending_state s) (Some reason) in
      set_thread (set_store w st) i s (Done (Err (ToolExecution reason)))
  | Done _ => w
  end.

(** The cancellation and timeout arms of the [select!]; either may win even
    when a message is already in the channel. *)
Definition cancelled (w : World) (i : nat) (s : Suspension) : World :=
  set_thread (drop_slot w (s_task s)) i s Cancelling.

Definition timed_out (w : World) (i : nat) (s : Suspension) : World :=
  set_thread (drop_slot w (s_task s)) i s (Resuming (Err (no_answer s))).

(** ** Interleavings *)

Inductive Op :=
| Register (user session : string) (tools : list ClientToolRegistration)
| ClearSession (session : string)
| Execute (s : Suspension)
| Advance (i : nat)
| Cancel (i : nat)
| TimeOut (i : nat)
| Answer (user task call : string) (payload : result string string).

Definition is_live (t : Suspension * Pc) : bool := match t.2 with Done _ => false | _ => true end.

(** A turn awaits each client tool before it calls the next one
    (core/src/service.rs, the tool loop), and a task id names one turn: a call
    starts only when no other call of the same task is under way. *)
Definition may_execute (w : World) (s : Suspension) : bool :=
  negb (existsb (λ t, is_live t && bool_decide (s_task t.1 = s_task s)) (threads w)).

(** The response of a [ClientToolResult] command, and the world after it. *)
Definition answer (w : World) (user task call : string) (payload : result string string)
    : World * result unit ClientToolResolutionError :=
  match resolve_client_tool_result (coord w) user task call payload with
  | (c, Ok i) =>
      ({| coord := c; store := store w; threads := close_chan (threads w) i (Full payload);
          sink := sink w |}, Ok tt)
  | (c, Err e) => (set_coord w c, Err e)
  end.

Definition step (w : World) (o : Op) : World :=
  match o with
  | Register u se tools => set_coord w (register (coord w) (u, se) tools).1
  | ClearSession se => set_coord w (clear_session (coord w) se)
  | Execute s =>
      if may_execute w s
      then {| coord := coord w; store := store w; threads := threads w ++ [(s, AtEnsure)]; sink := sink w |}
      else w
  | Advance i => match threads w !! i with Some (s, pc) => advance w i s pc | None => w end
  | Cancel i => match threads w !! i with Some (s, Waiting _) => cancelled w i s | _ => w end
  | TimeOut i => match threads w !! i with Some (s, Waiting _) => timed_out w i s | _ => w end
  | Answer u t c p => (answer w u t c p).1
  end.

Definition run (ops : list Op) : World := foldl step World_new ops.

(** ** The invariant of every interleaving *)

Definition slot_of (s : Suspension) (i : nat) : PendingSlot :=
  {| slot_user_id := s_user s; expected_tool_call_id := tool_call_id (s_call s); waker := i |}.

Definition call_event (s : Suspension) : ClientToolCallEvent :=
  {| ev_task_id := s_task s; ev_conversation_id := s_conversation s;
     ev_tool_call_id := tool_call_id (s_call s); ev_tool_name := tool_name (s_call s);
     ev_arguments := arguments (s_call s) |}.

(** The row of a suspension between its first and its last write. *)
Definition marked (st : InMemoryTurnStateStore) (s : Suspension) : Prop :=
  ∃ row, st !! s_task s = Some row ∧ turn_status row = PendingClientTool ∧ turn_state row = pending_state s.

Definition pc_ok (w : World) (i : nat) (s : Suspension) (pc : Pc) : Prop :=
  match pc with
  | AtEnsure => True
  | AtGuard | AtMark => is_Some (store w !! s_task s)
  | AtEmit => marked (store w) s
  | AtInstall | Cancelling | Resuming _ | Waiting (Full _) => marked (store w) s ∧ call_event s ∈ sink w
  | Waiting Empty =>
      marked (store w) s ∧ call_event s ∈ sink w ∧ pending (coord w) !! s_task s = Some (slot_of s i)
  | Waiting Closed => False
  | Done (Err (Storage _)) => False
  | Done _ => True
  end.

Definition holds_row (pc : Pc) : bool :=
  match pc with AtEmit | AtInstall | Waiting _ | Cancelling | Resuming _ => true | _ => false end.

Record inv (w : World) : Prop := {
  inv_pc i s pc : threads w !! i = Some (s, pc) → pc_ok w i s pc;
  inv_unique i j s s' pc pc' :
    threads w !! i = Some (s, pc) → threads w !! j = Some (s', pc') →
    is_live (s, pc) = true → is_live (s', pc') = true → s_task s = s_task s' → i = j;
  inv_slot t slot :
    pending (coord w) !! t = Some slot →
    ∃ s, threads w !! waker slot = Some (s, Waiting Empty) ∧ s_task s = t ∧ slot = slot_of s (waker slot);
  inv_row t row :
    store w !! t = Some row →
    turn_status row = PendingLlm ∨
    turn_status row = PendingClientTool ∧
    ∃ i s pc, threads w !! i = Some (s, pc) ∧ s_task s = t ∧ holds_row pc = true
}.

Lemma inv_new : inv World_new.
Proof. split; intros *; simpl; rewrite ?lookup_nil, ?lookup_empty; naive_solver. Qed.

(** A step of one live suspension [i] that touches only its own task. *)
Lemma inv_update w w' i s pc pc' :
  inv w → threads w !! i = Some (s, pc) → is_live (s, pc) = true →
  threads w' = <[i := (s, pc')]> (threads w) →
  (∀ t, t ≠ s_task s → store w' !! t = store w !! t ∧ pending (coord w') !! t = pending (coord w) !! t) →
  (∀ e, e ∈ sink w → e ∈ sink w') →
  pc_ok w' i s pc' →
  (pending (coord w') !! s_task s = None ∨ pc' = Waiting Empty) →
  (∀ row, store w' !! s_task s = Some row →
     turn_status row = PendingLlm ∨ turn_status row = PendingClientTool ∧ holds_row pc' = true) →
  inv w'.
Proof.
  intros I Hi Hl Ht Hf Hs Hpc Hp Hr.
  assert (Hlt : i < length (threads w)) by eauto using lookup_lt_Some.
  assert (Hother : ∀ j sj pcj, j ≠ i → threads w !! j = Some (sj, pcj) → is_live (sj, pcj) = true →
            s_task sj ≠ s_task s).
  { intros j sj pcj Hji Hj Hlj E. destruct Hji. exact (inv_unique w I _ _ _ _ _ _ Hj Hi Hlj Hl E). }
  split.
  - intros j sj pcj. rewrite Ht. destruct (decide (j = i)) as [->|Hji].
    { rewrite list_lookup_insert_eq by done. intros [= <- <-]. done. }
    rewrite list_lookup_insert_ne by done. intros Hj. pose proof (inv_pc w I _ _ _ Hj) as Hok.
    destruct (is_live (sj, pcj)) eqn:Hlj; [|by destruct pcj].
    destruct (Hf (s_task sj)) as [E1 E2]; [by eauto|].
    destruct pcj as [| | | | |[]| | |]; simpl in *; unfold marked in *; rewrite ?E1, ?E2; naive_solver.
  - intros j k sj sk pcj pck. rewrite Ht.
    destruct (decide (j = i)) as [->|Hji], (decide (k = i)) as [->|Hki];
      rewrite ?list_lookup_insert_eq by done; rewrite ?list_lookup_insert_ne by done; [done|..].
    + intros [= <- <-] Hk _ Hlk E. by destruct (Hother k sk pck).
    + intros Hj [= <- <-] Hlj _ E. by destruct (Hother j sj pcj).
    + apply (inv_unique w I).
  - intros t slot. destruct (decide (t = s_task s)) as [->|Hne].
    + destruct Hp as [->| ->]; [done|]. destruct Hpc as (_&_&->). intros [= <-]. exists s. simpl.
      by rewrite Ht, list_lookup_insert_eq.
    + destruct (Hf t Hne) as [_ ->]. intros (sj&Hj&<-&E)%(inv_slot w I). exists sj. rewrite Ht.
      rewrite list_lookup_insert_ne; [done|]. intros E2. rewrite <-E2 in Hj. by simplify_eq.
  - intros t row. destruct (decide (t = s_task s)) as [->|Hne].
    + intros [?|[? ?]]%Hr; [by left|right]. split; [done|]. exists i, s, pc'.
      by rewrite Ht, list_lookup_insert_eq.
    + destruct (Hf t Hne) as [-> _]. intros [?|(?&j&sj&pcj&Hj&<-&?)]%(inv_row w I); [by left|right].
      split; [done|]. exists j, sj, pcj. rewrite Ht, list_lookup_insert_ne; [done|].
      intros ->. by simplify_eq.
Qed.

(** A slot removed or replaced by a suspension is its own. *)
Lemma drop_slot_threads w i s pc pc' :
  inv w → threads w !! i = Some (s, pc) → is_live (s, pc) = true →
  <[i := (s, pc')]> (threads (drop_slot w (s_task s))) = <[i := (s, pc')]> (threads w).
Proof.
  intros I Hi Hl. simpl. destruct (pending (coord w) !! s_task s) as [slot|] eqn:Hp; [|done].
  destruct (inv_slot w I _ _ Hp) as (sj&Hj&Et&_).
  assert (waker slot = i) as E by exact (inv_unique w I _ _ _ _ _ _ Hj Hi eq_refl Hl Et).
  unfold close_chan. rewrite Hj, E. by rewrite list_insert_insert_eq.
Qed.

Lemma no_slot_unless_waiting w i s pc :
  inv w → threads w !! i = Some (s, pc) → is_live (s, pc) = true → pc ≠ Waiting Empty →
  pending (coord w) !! s_task s = None.
Proof.
  intros I Hi Hl Hpc. destruct (pending _ !! _) as [slot|] eqn:Hp; [|done].
  destruct (inv_slot w I _ _ Hp) as (sj&Hj&Et&_).
  assert (waker slot = i) as E by exact (inv_unique w I _ _ _ _ _ _ Hj Hi eq_refl Hl Et).
  rewrite E in Hj. by simplify_eq.
Qed.

(** [update_turn] of the store that holds the row. *)
Lemma update_turn_present st id row status state e :
  st !! id = Some row →
  update_turn st id status state e =
    (if turn_is_terminal status then delete id st
     else <[id := {| turn_id := turn_id row; turn_user_id := turn_user_id row;
                     turn_conversation_id := turn_conversation_id row; turn_status := status;
                     turn_state := state; turn_last_error := e |}]> st, Ok tt).
Proof.
  intros E. unfold update_turn. rewrite E. f_equal.
  destruct (turn_is_terminal status); [|done]. by rewrite delete_insert_eq.
Qed.

Ltac frame :=
  let t := fresh "t" in intros t ?; simpl;
  rewrite ?lookup_insert_ne, ?lookup_delete_ne, ?lookup_insert_ne by done; done.

Ltac own_step I Hi :=
  eapply (inv_update _ _ _ _ _ _ I Hi); [done|done|try frame|try done|..]; simpl.

Lemma advance_inv w i s pc : inv w → threads w !! i = Some (s, pc) → inv (advance w i s pc).
Proof.
  intros I Hi. pose proof (inv_pc w I _ _ _ Hi) as Hok.
  pose proof (inv_row w I (s_task s)) as Hrow.
  pose proof (no_slot_unless_waiting w i s pc I Hi) as Hns.
  assert (Hstay : ∀ row, store w !! s_task s = Some row → holds_row pc = false →
    turn_status row = PendingLlm ∨ is_live (s, pc) = false).
  { intros row Hr Hh. destruct (Hrow row Hr) as [?|(_&j&sj&pcj&Hj&Et&Hh')]; [by left|].
    destruct (is_live (s, pc)) eqn:Hl; [|by right]. exfalso.
    assert (j = i) as -> by (eapply (inv_unique w I _ _ _ _ _ _ Hj Hi); [by destruct pcj|done..]).
    congruence. }
  destruct pc as [| | | | |[]| |[]|]; simpl in Hok; cbn [advance].
  - (* AtEnsure *)
    unfold ensure_turn_row, create_turn. simpl. destruct (store w !! s_task s) as [row|] eqn:E.
    + own_step I Hi; [by rewrite E|left; by apply Hns|].
      intros row'. rewrite E. intros [= <-]. left. by destruct (Hstay row).
    + own_step I Hi; [by rewrite lookup_insert_eq|left; by apply Hns|].
      intros row'. rewrite lookup_insert_eq. intros [= <-]. by left.
  - (* AtGuard *)
    destruct Hok as [row E].
    destruct (is_client_registered _ _ _); (own_step I Hi; [by rewrite ?E|left; by apply Hns|]);
      intros row'; rewrite E; intros [= <-]; left; by destruct (Hstay row).
  - (* AtMark *)
    destruct Hok as [row E]. rewrite (update_turn_present _ _ _ _ _ _ E). simpl.
    own_step I Hi; [|left; by apply Hns|].
    + unfold marked. simpl. rewrite lookup_insert_eq. eauto.
    + intros row'. rewrite lookup_insert_eq. intros [= <-]. by right.
  - (* AtEmit *)
    own_step I Hi; [set_solver| |left; by apply Hns|].
    + split; [done|]. set_solver.
    + intros row' Hr. destruct Hok as (row&E&Est&_). simplify_eq. by right.
  - (* AtInstall *)
    destruct Hok as [Hm He]. eapply (inv_update _ _ _ _ _ _ I Hi); [done| |frame|done|..]; simpl.
    + exact (drop_slot_threads w i s _ (Waiting Empty) I Hi eq_refl).
    + simpl. by rewrite lookup_insert_eq.
    + by right.
    + intros row' Hr. destruct Hm as (row&E&Est&_). simplify_eq. by right.
  - done.
  - (* Waiting Full *)
    destruct Hok as [Hm He]. own_step I Hi; [done|left; by apply Hns|].
    intros row' Hr. destruct Hm as (row&E&Est&_). simplify_eq. by right.
  - done.
  - (* Cancelling *)
    destruct Hok as [(row&E&_&_) _]. rewrite (update_turn_present _ _ _ _ _ _ E). simpl.
    own_step I Hi; [done|left; by apply Hns|].
    intros row'. by rewrite lookup_delete_eq.
  - (* Resuming Ok *)
    destruct Hok as [(row&E&_&_) _]. rewrite (update_turn_present _ _ _ _ _ _ E). simpl.
    own_step I Hi; [done|left; by apply Hns|].
    intros row'. rewrite lookup_insert_eq. intros [= <-]. by left.
  - (* Resuming Err *)
    destruct Hok as [(row&E&_&_) _]. rewrite (update_turn_present _ _ _ _ _ _ E). simpl.
    own_step I Hi; [done|left; by apply Hns|].
    intros row'. by rewrite lookup_delete_eq.
  - done.
Qed.

Lemma waiting_marked w i s rx :
  inv w → threads w !! i = Some (s, Waiting rx) → marked (store w) s ∧ call_event s ∈ sink w.
Proof. intros I Hi. pose proof (inv_pc w I _ _ _ Hi). destruct rx; simpl in *; naive_solver. Qed.

(** The cancellation and timeout arms. *)
Lemma leave_inv w i s rx pc' :
  inv w → threads w !! i = Some (s, Waiting rx) → pc' = Cancelling ∨ (∃ o, pc' = Resuming o) →
  inv (set_thread (drop_slot w (s_task s)) i s pc').
Proof.
  intros I Hi Hpc. destruct (waiting_marked w i s rx I Hi) as [Hm He].
  eapply (inv_update _ _ _ _ _ _ I Hi); [done| |frame|done|..].
  - exact (drop_slot_threads w i s _ pc' I Hi eq_refl).
  - by destruct Hpc as [->|[o ->]].
  - left. apply lookup_delete_eq.
  - intros row Hr. destruct Hm as (row'&E&Est&_). simpl in Hr. simplify_eq. right.
    by destruct Hpc as [->|[o ->]].
Qed.

(** What a resolution can do, branch by branch. *)
Lemma resolve_cases c user task call payload :
  let '(c', r) := resolve_client_tool_result c user task call payload in
  match r with
  | Ok i =>
      pending c !! task = Some {| slot_user_id := user; expected_tool_call_id := call; waker := i |} ∧
      (slen (match payload with Ok b => b | Err e => e end) ≤ MAX_CLIENT_TOOL_RESULT_BYTES)%Z ∧
      c' = set_pending c (delete task (pending c))
  | Err _ => c' = c
  end.
Proof.
  unfold resolve_client_tool_result.
  destruct payload as [b|b]; destruct (Z.ltb_spec MAX_CLIENT_TOOL_RESULT_BYTES (slen b)); try done;
    (destruct (pending c !! task) as [[u e i]|]; [|done]); simpl;
    (case_bool_decide; [done|]); subst; (case_bool_decide; [done|]); subst; done.
Qed.

Lemma answer_cases w user task call payload :
  inv w →
  match answer w user task call payload with
  | (w', Ok _) =>
      ∃ i s, threads w !! i = Some (s, Waiting Empty) ∧
        s_user s = user ∧ s_task s = task ∧ tool_call_id (s_call s) = call ∧
        (slen (match payload with Ok b => b | Err e => e end) ≤ MAX_CLIENT_TOOL_RESULT_BYTES)%Z ∧
        w' = {| coord := set_pending (coord w) (delete task (pending (coord w))); store := store w;
                threads := <[i := (s, Waiting (Full payload))]> (threads w); sink := sink w |}
  | (w', Err _) => w' = w
  end.
Proof.
  intros I. unfold answer. pose proof (resolve_cases (coord w) user task call payload) as H.
  destruct (resolve_client_tool_result _ _ _ _ _) as [c [i|e]].
  - destruct H as (Hp&Hs&->). destruct (inv_slot w I _ _ Hp) as (s&Hi&<-&E). simpl in *.
    injection E as -> ->. exists i, s. unfold close_chan. by rewrite Hi.
  - subst c. by destruct w.
Qed.

Lemma answer_inv w user task call payload : inv w → inv (answer w user task call payload).1.
Proof.
  intros I. pose proof (answer_cases w user task call payload I) as H.
  destruct (answer w user task call payload) as [w' [|e]]; [|by subst].
  destruct H as (i&s&Hi&<-&<-&<-&_&->). simpl. destruct (waiting_marked w i s _ I Hi) as [Hm He].
  own_step I Hi; [done|left; apply lookup_delete_eq|].
  intros row Hr. destruct Hm as (row'&E&Est&_). simplify_eq. by right.
Qed.

(** Registrations play no part in the invariant. *)
Lemma set_coord_inv w c : inv w → pending c = pending (coord w) → inv (set_coord w c).
Proof.
  intros I E. split; intros *; simpl; rewrite ?E.
  - intros Hi. pose proof (inv_pc w I _ _ _ Hi). destruct pc as [| | | | |[]| | |]; simpl in *; by rewrite ?E.
  - apply (inv_unique w I).
  - apply (inv_slot w I).
  - apply (inv_row w I).
Qed.

Lemma may_execute_spec w s i s' pc :
  may_execute w s = true → threads w !! i = Some (s', pc) → is_live (s', pc) = true → s_task s' ≠ s_task s.
Proof.
  unfold may_execute. rewrite negb_true_iff, <-not_true_iff_false, existsb_exists.
  intros H Hi Hl E. destruct H. exists (s', pc). rewrite <-list_elem_of_In. split.
  - by eapply list_elem_of_lookup_2.
  - rewrite Hl. simpl. by apply bool_decide_eq_true.
Qed.

Lemma execute_inv w s : inv w → inv (step w (Execute s)).
Proof.
  intros I. cbn [step]. destruct (may_execute w s) eqn:Hm; [|done].
  assert (Happ : ∀ j sj pcj, (threads w ++ [(s, AtEnsure)]) !! j = Some (sj, pcj) →
            threads w !! j = Some (sj, pcj) ∨ j = length (threads w) ∧ sj = s ∧ pcj = AtEnsure).
  { intros j sj pcj [?|[? [??]%list_lookup_singleton_Some]]%lookup_app_Some; [by left|].
    right. simplify_eq. split; [lia|done]. }
  split; simpl.
  - intros j sj pcj [Hj|(->&->&->)]%Happ; [|done]. exact (inv_pc w I _ _ _ Hj).
  - intros j k sj sk pcj pck Hj%Happ Hk%Happ Hlj Hlk E.
    destruct Hj as [Hj|(->&->&->)], Hk as [Hk|(->&->&->)].
    + by eapply (inv_unique w I).
    + by destruct (may_execute_spec _ _ _ _ _ Hm Hj Hlj).
    + by destruct (may_execute_spec _ _ _ _ _ Hm Hk Hlk).
    + done.
  - intros t slot (sj&Hj&?&?)%(inv_slot w I). exists sj. split; [|done]. by apply lookup_app_l_Some.
  - intros t row [?|(?&j&sj&pcj&Hj&?&?)]%(inv_row w I); [by left|right]. split; [done|].
    exists j, sj, pcj. split; [|done]. by apply lookup_app_l_Some.
Qed.

Lemma step_inv w o : inv w → inv (step w o).
Proof.
  intros I. destruct o as [u se tools|se|s|i|i|i|u t c p].
  - by apply set_coord_inv.
  - by apply set_coord_inv.
  - by apply execute_inv.
  - cbn [step]. destruct (threads w !! i) as [[s pc]|] eqn:Hi; [|done]. by apply advance_inv.
  - cbn [step]. destruct (threads w !! i) as [[s []]|] eqn:Hi; try done. eapply leave_inv; eauto.
  - cbn [step]. destruct (threads w !! i) as [[s []]|] eqn:Hi; try done. eapply leave_inv; eauto.
  - by apply answer_inv.
Qed.

Lemma run_inv ops : inv (run ops).
Proof.
  unfold run. generalize inv_new. generalize World_new.
  induction ops as [|o ops IH]; intros w I; [done|]. simpl. by apply IH, step_inv.
Qed.

(** ** Authenticity *)

(** The body a suspension has been handed. *)
Definition delivered (pc : Pc) : option string :=
  match pc with
  | Waiting (Full (Ok b)) | Resuming (Ok b) | Done (Ok b) => Some b
  | _ => None
  end.

(** [o] is the answer, given in [w], that hands [b] to suspension [i]. *)
Definition hands_over (w : World) (o : Op) (i : nat) (s : Suspension) (b : string) : Prop :=
  o = Answer (s_user s) (s_task s) (tool_call_id (s_call s)) (Ok b) ∧
  threads w !! i = Some (s, Waiting Empty) ∧
  (slen b ≤ MAX_CLIENT_TOOL_RESULT_BYTES)%Z ∧
  is_ok (answer w (s_user s) (s_task s) (tool_call_id (s_call s)) (Ok b)).2 = true.

Lemma advance_delivered w i s pc j s' pc' b :
  inv w → threads w !! i = Some (s, pc) → threads (advance w i s pc) !! j = Some (s', pc') →
  delivered pc' = Some b → ∃ pc0, threads w !! j = Some (s', pc0) ∧ delivered pc0 = Some b.
Proof.
  intros I Hi. assert (Hlt : i < length (threads w)) by eauto using lookup_lt_Some.
  assert (Hown : ∀ q, <[i := (s, q)]> (threads w) !! j = Some (s', pc') → delivered pc' = Some b →
            (delivered q = Some b → delivered pc = Some b) →
            ∃ pc0, threads w !! j = Some (s', pc0) ∧ delivered pc0 = Some b).
  { intros q Hj Hd Hq. destruct (decide (j = i)) as [->|Hne].
    - rewrite list_lookup_insert_eq in Hj by done. simplify_eq. eauto.
    - rewrite list_lookup_insert_ne in Hj by done. eauto. }
  destruct pc as [| | | | |[]| |[]|]; cbn [advance].
  - intros Hj Hd; by apply (Hown _ Hj Hd).
  - destruct (is_client_registered _ _ _); intros Hj Hd; by apply (Hown _ Hj Hd).
  - destruct (update_turn _ _ _ _ _) as [? []]; intros Hj Hd; by apply (Hown _ Hj Hd).
  - intros Hj Hd; by apply (Hown _ Hj Hd).
  - intros Hj. unfold set_thread, set_coord in Hj. cbn [threads] in Hj.
    rewrite (drop_slot_threads w i s _ _ I Hi eq_refl) in Hj. intros Hd. by apply (Hown _ Hj Hd).
  - eauto.
  - intros Hj Hd; by apply (Hown _ Hj Hd).
  - intros Hj Hd; by apply (Hown _ Hj Hd).
  - destruct (update_turn _ _ _ _ _) as [? []]; intros Hj Hd; by apply (Hown _ Hj Hd).
  - destruct (update_turn _ _ _ _ _) as [? []]; intros Hj Hd; by apply (Hown _ Hj Hd).
  - destruct (update_turn _ _ _ _ _) as [? []]; intros Hj Hd; by apply (Hown _ Hj Hd).
  - eauto.
Qed.

Lemma leave_delivered w i s rx q j s' pc' b :
  inv w → threads w !! i = Some (s, Waiting rx) → delivered q = None →
  threads (set_thread (drop_slot w (s_task s)) i s q) !! j = Some (s', pc') →
  delivered pc' = Some b → ∃ pc0, threads w !! j = Some (s', pc0) ∧ delivered pc0 = Some b.
Proof.
  intros I Hi Hq Hj Hd. unfold set_thread in Hj. cbn [threads] in Hj.
  rewrite (drop_slot_threads w i s _ _ I Hi eq_refl) in Hj. destruct (decide (j = i)) as [->|Hne].
  - rewrite list_lookup_insert_eq in Hj by eauto using lookup_lt_Some. by simplify_eq.
  - rewrite list_lookup_insert_ne in Hj by done. eauto.
Qed.

Lemma step_delivered w o j s pc b :
  inv w → threads (step w o) !! j = Some (s, pc) → delivered pc = Some b →
  (∃ pc0, threads w !! j = Some (s, pc0) ∧ delivered pc0 = Some b) ∨ hands_over w o j s b.
Proof.
  intros I. destruct o as [u se tools|se|s'|i|i|i|u t c p]; cbn [step]; [eauto|eauto|..].
  - destruct (may_execute w s'); [|eauto]. simpl.
    intros [?|[? [_ ?]%list_lookup_singleton_Some]]%lookup_app_Some; [eauto|by simplify_eq].
  - destruct (threads w !! i) as [[s' pc']|] eqn:Hi; [|eauto].
    left. by eapply advance_delivered.
  - destruct (threads w !! i) as [[s' []]|] eqn:Hi; eauto.
    intros Hj Hd. left. eapply (leave_delivered w i s'); [done|done| |exact Hj|exact Hd]. done.
  - destruct (threads w !! i) as [[s' []]|] eqn:Hi; eauto.
    intros Hj Hd. left. eapply (leave_delivered w i s'); [done|done| |exact Hj|exact Hd]. done.
  - pose proof (answer_cases w u t c p I) as H.
    destruct (answer w u t c p) as [w' [[]|e]] eqn:Ea; [|subst; eauto].
    destruct H as (i&s'&Hi&<-&<-&<-&Hs&->). simpl. intros Hj Hd.
    destruct (decide (j = i)) as [->|Hne].
    + rewrite list_lookup_insert_eq in Hj by eauto using lookup_lt_Some. simplify_eq.
      destruct p as [b'|e]; simplify_eq/=. right. unfold hands_over. by rewrite Ea.
    + rewrite list_lookup_insert_ne in Hj by done. eauto.
Qed.

(** C2: a client tool returns a body only when that body is what its own user
    answered, naming its task and exactly its call id, at a moment when the
    call was outstanding; the body is within the size cap, the answer was
    acknowledged, the call had been announced on the event sink before, and no
    other suspension could have taken the answer.  This holds in every
    interleaving of any number of turns, users and sessions. *)
Theorem answers_are_authentic ops i s b :
  threads (run ops) !! i = Some (s, Done (Ok b)) →
  ∃ k o, ops !! k = Some o ∧ hands_over (run (take k ops)) o i s b ∧
    call_event s ∈ sink (run (take k ops)) ∧
    ∀ j s', threads (run (take k ops)) !! j = Some (s', Waiting Empty) → s_task s' = s_task s → j = i.
Proof.
  assert (H : ∀ pc, threads (run ops) !! i = Some (s, pc) → delivered pc = Some b →
    ∃ k o, ops !! k = Some o ∧ hands_over (run (take k ops)) o i s b).
  { induction ops as [|o ops IH] using rev_ind; [done|]. intros pc. unfold run. rewrite foldl_app. simpl.
    intros Hi Hd. destruct (step_delivered _ _ _ _ _ _ (run_inv ops) Hi Hd) as [(pc0&Hi0&Hd0)|Hh].
    - destruct (IH _ Hi0 Hd0) as (k&o'&Hk&Hh). exists k, o'.
      assert (k < length ops) by eauto using lookup_lt_Some.
      rewrite lookup_app_l, take_app_le by lia. done.
    - exists (length ops), o. rewrite list_lookup_middle, take_app_length by done. done. }
  intros Hi. destruct (H _ Hi eq_refl) as (k&o&Hk&Hh). exists k, o. split_and!; [done|done|..].
  - destruct Hh as (_&Hw&_). exact (proj2 (waiting_marked _ _ _ _ (run_inv _) Hw)).
  - intros j s' Hj E. destruct Hh as (_&Hw&_).
    exact (inv_unique _ (run_inv _) _ _ _ _ _ _ Hj Hw eq_refl eq_refl E).
Qed.

(** ** Endings *)

(** Rounds of its own steps, each followed by the timeout, that a suspension
    needs at most. *)
Definition rank (pc : Pc) : nat :=
  match pc with
  | AtEnsure => 6 | AtGuard => 5 | AtMark => 4 | AtEmit => 3
  | AtInstall | Waiting _ => 2
  | Cancelling | Resuming _ => 1
  | Done _ => 0
  end.

Definition round (i : nat) : list Op := [Advance i; TimeOut i].

Lemma timeout_lookup w i s pc :
  inv w → threads w !! i = Some (s, pc) →
  threads (step w (TimeOut i)) !! i =
    Some (s, match pc with Waiting _ => Resuming (Err (no_answer s)) | _ => pc end).
Proof.
  intros I Hi. cbn [step]. rewrite Hi. destruct pc; try done. unfold timed_out, set_thread. cbn [threads].
  rewrite (drop_slot_threads w i s _ _ I Hi eq_refl). apply list_lookup_insert_eq. eauto using lookup_lt_Some.
Qed.

Lemma advance_lookup w i s pc :
  inv w → threads w !! i = Some (s, pc) →
  ∃ pc', threads (step w (Advance i)) !! i = Some (s, pc') ∧
    (pc' = pc ∧ (pc = Waiting Empty ∨ is_live (s, pc) = false) ∨
     rank pc' < rank pc ∨ pc = AtInstall ∧ pc' = Waiting Empty).
Proof.
  intros I Hi. cbn [step]. rewrite Hi.
  assert (Hown : ∀ q, <[i := (s, q)]> (threads w) !! i = Some (s, q)).
  { intros q. apply list_lookup_insert_eq. eauto using lookup_lt_Some. }
  destruct pc as [| | | | |[]| |[]|]; cbn [advance].
  - eexists. split; [apply Hown|simpl; lia].
  - destruct (is_client_registered _ _ _); eexists; (split; [apply Hown|simpl; lia]).
  - destruct (update_turn _ _ _ _ _) as [? []]; eexists; (split; [apply Hown|simpl; lia]).
  - eexists. split; [apply Hown|simpl; lia].
  - exists (Waiting Empty). split; [|by right; right]. unfold set_thread, set_coord. cbn [threads].
    rewrite (drop_slot_threads w i s _ _ I Hi eq_refl). apply Hown.
  - eexists. split; [exact Hi|by auto].
  - eexists. split; [apply Hown|simpl; lia].
  - eexists. split; [apply Hown|simpl; lia].
  - destruct (update_turn _ _ _ _ _) as [? []]; eexists; (split; [apply Hown|simpl; lia]).
  - destruct (update_turn _ _ _ _ _) as [? []]; eexists; (split; [apply Hown|simpl; lia]).
  - destruct (update_turn _ _ _ _ _) as [? []]; eexists; (split; [apply Hown|simpl; lia]).
  - eexists. split; [exact Hi|by auto].
Qed.

Lemma round_lookup w i s pc :
  inv w → threads w !! i = Some (s, pc) →
  ∃ pc', threads (foldl step w (round i)) !! i = Some (s, pc') ∧ rank pc' ≤ rank pc - 1.
Proof.
  intros I Hi. destruct (advance_lookup w i s pc I Hi) as (q&Hq&Hr).
  pose proof (timeout_lookup _ i s q (step_inv w (Advance i) I) Hq) as Ht.
  eexists. split; [exact Ht|]. destruct Hr as [[-> [->|Hl]]|[Hr|[-> ->]]]; [simpl; lia| | |simpl; lia].
  - destruct pc; simpl in *; try done; lia.
  - destruct q; simpl in *; lia.
Qed.

Lemma rounds_lookup n w i s pc :
  inv w → threads w !! i = Some (s, pc) → rank pc ≤ n →
  ∃ r, threads (foldl step w (concat (replicate n (round i)))) !! i = Some (s, Done r).
Proof.
  revert w pc. induction n as [|n IH]; intros w pc I Hi Hn.
  { destruct pc; simpl in *; try lia. eauto. }
  destruct (round_lookup w i s pc I Hi) as (q&Hq&Hr).
  change (concat (replicate (S n) (round i))) with (round i ++ concat (replicate n (round i))).
  rewrite foldl_app. eapply IH; [|exact Hq|lia].
  change (inv (step (step w (Advance i)) (TimeOut i))). by apply step_inv, step_inv.
Qed.

(** in every interleaving, a slot is pending exactly while its suspension
    waits unanswered; no waker is ever dropped, so no turn is told its
    suspension was lost, and no call fails on the turn store; every suspension
    ends within six of its own steps even when no client ever answers; and once
    all have ended no slot is pending and no row is left waiting for a client. *)
Theorem suspensions_leave_nothing_behind ops :
  let w := run ops in
  (∀ t slot, pending (coord w) !! t = Some slot ↔
     ∃ i s, threads w !! i = Some (s, Waiting Empty) ∧ s_task s = t ∧ slot = slot_of s i) ∧
  (∀ i s pc, threads w !! i = Some (s, pc) →
     pc ≠ Waiting Closed ∧ (∀ m, pc ≠ Done (Err (Storage m))) ∧
     ∃ r, threads (foldl step w (concat (replicate 6 (round i)))) !! i = Some (s, Done r)) ∧
  ((∀ i s pc, threads w !! i = Some (s, pc) → is_live (s, pc) = false) →
     pending (coord w) = ∅ ∧
     ∀ t row, store w !! t = Some row → turn_status row = PendingLlm).
Proof.
  intros w. pose proof (run_inv ops : inv w) as I. split_and!.
  - intros t slot. split.
    + intros (s&Hi&?&?)%(inv_slot w I). eauto.
    + intros (i&s&Hi&<-&->). by destruct (inv_pc w I _ _ _ Hi) as (_&_&?).
  - intros i s pc Hi. pose proof (inv_pc w I _ _ _ Hi) as Hok. split_and!.
    + by intros ->.
    + by intros m ->.
    + apply (rounds_lookup 6 w i s pc I Hi). destruct pc; simpl; lia.
  - intros Hall. split.
    + apply map_empty. intros t. apply eq_None_not_Some. intros [slot (s&Hi&_)%(inv_slot w I)].
      by specialize (Hall _ _ _ Hi).
    + intros t row [?|(_&i&s&pc&Hi&_&Hh)]%(inv_row w I); [done|].
      specialize (Hall _ _ _ Hi). by destruct pc.
Qed.

(** Suspension [i] is over with [r], its slot is gone and its row is [row]. *)
Definition over (w : World) (i : nat) (s : Suspension) (r : result string CoreError) (row : option TurnRow)
    : Prop :=
  threads w !! i = Some (s, Done r) ∧ pending (coord w) !! s_task s = None ∧ store w !! s_task s = row.

Definition resumed_row (row : TurnRow) : TurnRow :=
  {| turn_id := turn_id row; turn_user_id := turn_user_id row;
     turn_conversation_id := turn_conversation_id row; turn_status := PendingLlm;
     turn_state := TurnStateJson_default; turn_last_error := None |}.

Lemma accepted w i s payload :
  inv w → threads w !! i = Some (s, Waiting Empty) →
  (slen (match payload with Ok b => b | Err e => e end) ≤ MAX_CLIENT_TOOL_RESULT_BYTES)%Z →
  answer w (s_user s) (s_task s) (tool_call_id (s_call s)) payload =
    ({| coord := set_pending (coord w) (delete (s_task s) (pending (coord w))); store := store w;
        threads := <[i := (s, Waiting (Full payload))]> (threads w); sink := sink w |}, Ok tt).
Proof.
  intros I Hi Hs. destruct (inv_pc w I _ _ _ Hi) as (_&_&Hp). unfold answer, resolve_client_tool_result.
  replace (match payload with Ok body => _ | Err reason => _ end)
    with (None (A := result nat ClientToolResolutionError))
    by (destruct payload as [b|b]; destruct (Z.ltb_spec MAX_CLIENT_TOOL_RESULT_BYTES (slen b)); [lia|done|lia|done]).
  rewrite Hp. simpl. rewrite !bool_decide_eq_false_2 by naive_solver. unfold close_chan. by rewrite Hi.
Qed.

(** The last step of a suspension that resumes or is cancelled. *)
Lemma last_step w i s pc row :
  threads w !! i = Some (s, pc) → pending (coord w) !! s_task s = None → store w !! s_task s = Some row →
  match pc with
  | Resuming (Ok b) => over (step w (Advance i)) i s (Ok b) (Some (resumed_row row))
  | Resuming (Err e) => over (step w (Advance i)) i s (Err (ToolExecution e)) None
  | Cancelling => over (step w (Advance i)) i s (Err ErrCancelled) None
  | _ => True
  end.
Proof.
  intros Hi Hp Hr. assert (i < length (threads w)) by eauto using lookup_lt_Some. cbn [step]. rewrite Hi.
  destruct pc as [| | | | |rx| |[b|e]|]; try done; cbn [advance];
    rewrite (update_turn_present _ _ _ _ _ _ Hr); unfold over; simpl;
    rewrite list_lookup_insert_eq by done; rewrite ?lookup_insert_eq, ?lookup_delete_eq; done.
Qed.

Lemma not_found c user task call payload :
  pending c !! task = None →
  (slen (match payload with Ok b => b | Err e => e end) ≤ MAX_CLIENT_TOOL_RESULT_BYTES)%Z →
  resolve_client_tool_result c user task call payload = (c, Err (TurnNotFound task)).
Proof.
  intros Hp Hs. unfold resolve_client_tool_result.
  destruct payload as [b|b]; destruct (Z.ltb_spec MAX_CLIENT_TOOL_RESULT_BYTES (slen b)); try lia; by rewrite Hp.
Qed.

(** the ways a waiting suspension ends, in every reachable world.  Its
    user's answer within the cap is acknowledged and its body becomes the
    tool's result with the row back at pending_llm and no call recorded; an
    error answer becomes a tool error; cancellation and timeout end it without
    any answer; on those three the row is gone.  Either way the slot is gone
    and a repeated or late answer gets TurnNotFound. *)
Theorem every_ending_is_recorded ops i s :
  let w := run ops in
  let reply p := Answer (s_user s) (s_task s) (tool_call_id (s_call s)) p in
  threads w !! i = Some (s, Waiting Empty) →
  ∃ row, store w !! s_task s = Some row ∧
  (∀ p, (slen (match p with Ok b => b | Err e => e end) ≤ MAX_CLIENT_TOOL_RESULT_BYTES)%Z →
     (answer w (s_user s) (s_task s) (tool_call_id (s_call s)) p).2 = Ok tt ∧
     over (foldl step w [reply p; Advance i; Advance i]) i s
       (match p with Ok b => Ok b | Err e => Err (ToolExecution e) end)
       (match p with Ok _ => Some (resumed_row row) | Err _ => None end)) ∧
  over (foldl step w [Cancel i; Advance i]) i s (Err ErrCancelled) None ∧
  over (foldl step w [TimeOut i; Advance i]) i s (Err (ToolExecution (no_answer s))) None ∧
  (∀ w' r o user call p, over w' i s r o →
     (slen (match p with Ok b => b | Err e => e end) ≤ MAX_CLIENT_TOOL_RESULT_BYTES)%Z →
     answer w' user (s_task s) call p = (w', Err (TurnNotFound (s_task s)))).
Proof.
  intros w reply Hi. pose proof (run_inv ops : inv w) as I.
  assert (Hlt : i < length (threads w)) by eauto using lookup_lt_Some.
  destruct (inv_pc w I _ _ _ Hi) as ((row&Hr&_)&_&Hp). exists row. split_and!; [done|..].
  - intros p Hs. pose proof (accepted w i s p I Hi Hs) as Ha. rewrite Ha. split; [done|].
    cbn [foldl].
    change (step w (reply p)) with (answer w (s_user s) (s_task s) (tool_call_id (s_call s)) p).1.
    rewrite Ha. cbn [fst].
    match goal with |- over (step (step ?w1 _) _) _ _ _ _ =>
      pose proof (last_step (set_thread w1 i s (Resuming p)) i s (Resuming p) row) as Hl;
      assert (step w1 (Advance i) = set_thread w1 i s (Resuming p)) as -> end.
    { cbn [step threads]. by rewrite list_lookup_insert_eq. }
    destruct p; apply Hl; simpl; rewrite ?list_lookup_insert_eq, ?lookup_delete_eq;
      rewrite ?length_insert; done.
  - cbn [foldl]. assert (step w (Cancel i) = cancelled w i s) as -> by (cbn [step]; by rewrite Hi).
    apply (last_step _ i s Cancelling row); simpl; [|by rewrite lookup_delete_eq|done].
    rewrite Hp. apply list_lookup_insert_eq. unfold close_chan. simpl. rewrite Hi. by rewrite length_insert.
  - cbn [foldl]. assert (step w (TimeOut i) = timed_out w i s) as -> by (cbn [step]; by rewrite Hi).
    apply (last_step _ i s (Resuming (Err (no_answer s))) row); simpl; [|by rewrite lookup_delete_eq|done].
    rewrite Hp. apply list_lookup_insert_eq. unfold close_chan. simpl. rewrite Hi. by rewrite length_insert.
  - intros w' r o user call p (_&Hn&_) Hs. unfold answer. rewrite not_found by done. by destruct w'.
Qed.

(** ** Registrations *)

Lemma hold_names entry t :
  reg_name <$> hold entry t =
    if decide (reg_name t ∈ reg_name <$> entry) then reg_name <$> entry
    else (reg_name <$> entry) ++ [reg_name t].
Proof.
  induction entry as [|h rest IH]; [done|]. cbn [hold]. case_bool_decide as E; cbn.
  - rewrite decide_True by set_solver. by rewrite E.
  - rewrite IH. destruct (decide (reg_name t ∈ reg_name <$> rest)).
    + by rewrite decide_True by set_solver.
    + rewrite decide_False by set_solver. done.
Qed.

Lemma hold_elem entry t d :
  NoDup (reg_name <$> entry) → d ∈ hold entry t → d = t ∨ d ∈ entry ∧ reg_name d ≠ reg_name t.
Proof.
  induction entry as [|h rest IH]; [set_solver|]. cbn [hold]. rewrite fmap_cons, NoDup_cons. intros [Hh Hn].
  case_bool_decide as E.
  - rewrite elem_of_cons. intros [->|Hd]; [by left|right]. split; [by right|]. intros E2.
    apply Hh. rewrite E, <-E2. by apply list_elem_of_fmap_2.
  - rewrite elem_of_cons. intros [->|Hd]; [right; split; [by left|done]|].
    destruct (IH Hn Hd) as [->|[? ?]]; [by left|right]. split; [by right|done].
Qed.

(** Names in the order of their first mention. *)
Definition first_mentions (l : list string) : list string := reverse (remove_dups (reverse l)).

Definition last_mention (tools : list ClientToolRegistration) (d : ClientToolRegistration) : Prop :=
  ∃ pre post, tools = pre ++ d :: post ∧ reg_name d ∉ reg_name <$> post.

Lemma hold_all tools :
  reg_name <$> foldl hold [] tools = first_mentions (reg_name <$> tools) ∧
  (∀ d, d ∈ foldl hold [] tools → last_mention tools d).
Proof.
  induction tools as [|t tools [IHn IHl]] using rev_ind; [split; [done|set_solver]|].
  rewrite foldl_app. cbn [foldl].
  assert (Hnd : NoDup (reg_name <$> foldl hold [] tools)).
  { rewrite IHn. unfold first_mentions. rewrite reverse_Permutation. apply NoDup_remove_dups. }
  split.
  - rewrite hold_names, IHn.
    replace (first_mentions (reg_name <$> tools ++ [t]))
      with (reverse (remove_dups (reg_name t :: reverse (reg_name <$> tools))))
      by (unfold first_mentions; by rewrite fmap_app, reverse_app).
    cbn [remove_dups].
    assert (E : reg_name t ∈ first_mentions (reg_name <$> tools) ↔ reg_name t ∈ reverse (reg_name <$> tools)).
    { unfold first_mentions. by rewrite elem_of_reverse, elem_of_remove_dups. }
    destruct (decide_rel elem_of (reg_name t) (reverse (reg_name <$> tools))).
    + by rewrite decide_True by tauto.
    + rewrite decide_False by tauto. by rewrite reverse_cons.
  - intros d Hin. destruct (hold_elem _ _ _ Hnd Hin) as [->|[Hd Hne]].
    + exists tools, []. split; [done|set_solver].
    + destruct (IHl d Hd) as (pre&post&->&Hp). exists pre, (post ++ [t]). split.
      * by rewrite <-app_assoc.
      * rewrite fmap_app. set_solver.
Qed.

Lemma has_tool_spec name l : has_tool name l = true ↔ name ∈ reg_name <$> l.
Proof.
  unfold has_tool. rewrite existsb_exists, list_elem_of_fmap. split.
  - intros (d&Hd%list_elem_of_In&E%bool_decide_eq_true). eauto.
  - intros (d&->&Hd%list_elem_of_In). exists d. by rewrite bool_decide_true.
Qed.

(** registering replaces the calling connection's tools and nobody
    else's: names come in the order of first mention, each with its last
    definition; the count is the number of tools kept; the guard knows exactly
    the names sent; every other connection, another session of the same user
    included, keeps its own; closing a session forgets exactly that session's
    tools; and neither touches an outstanding call. *)
Theorem registrations_are_per_connection c key tools :
  let '(c', count) := register c key tools in
  let defs := registered_definitions c' key in
  (λ d, d.1.1) <$> defs = first_mentions (reg_name <$> tools) ∧
  (∀ d, d ∈ defs → ∃ r, last_mention tools r ∧ d = (reg_name r, reg_description r, input_schema r)) ∧
  count = Z.min u32_max (Z.of_nat (length (first_mentions (reg_name <$> tools)))) ∧
  (∀ n, is_client_registered c' key n = true ↔ n ∈ reg_name <$> tools) ∧
  (∀ k, k ≠ key → registered_definitions c' k = registered_definitions c k ∧
     ∀ n, is_client_registered c' k n = is_client_registered c k n) ∧
  (∀ se u, registered_definitions (clear_session c' se) (u, se) = [] ∧
     ∀ se', se' ≠ se → registered_definitions (clear_session c' se) (u, se') = registered_definitions c' (u, se')) ∧
  pending c' = pending c ∧ ∀ se, pending (clear_session c' se) = pending c.
Proof.
  destruct (hold_all tools) as [Hn Hl]. unfold register, registered_definitions, is_client_registered. simpl.
  split_and!.
  - rewrite lookup_insert_eq. rewrite <-list_fmap_compose. exact Hn.
  - rewrite lookup_insert_eq. intros d (r&->&Hr)%list_elem_of_fmap. eauto.
  - by rewrite <-Hn, length_fmap.
  - intros n. rewrite lookup_insert_eq, has_tool_spec, Hn. unfold first_mentions.
    by rewrite elem_of_reverse, elem_of_remove_dups, elem_of_reverse.
  - intros k Hk. by rewrite lookup_insert_ne.
  - intros se u. split.
    + rewrite map_lookup_filter_None_2; [done|]. right. intros x _ Hx. by apply Hx.
    + intros se' Hne. destruct (<[key:=_]> (registrations c) !! (u, se')) as [l|] eqn:E.
      * by rewrite (map_lookup_filter_Some_2 _ _ _ _ E Hne).
      * rewrite map_lookup_filter_None_2; [done|by left].
  - done.
  - done.
Qed.

(** The call is announced before its slot is installed: an answer that arrives
    in between is refused as if the turn did not exist, and is lost. *)
Lemma early_answer_is_refused ops i s user call p :
  threads (run ops) !! i = Some (s, AtInstall) →
  (slen (match p with Ok b => b | Err e => e end) ≤ MAX_CLIENT_TOOL_RESULT_BYTES)%Z →
  call_event s ∈ sink (run ops) ∧
  answer (run ops) user (s_task s) call p = (run ops, Err (TurnNotFound (s_task s))).
Proof.
  intros Hi Hs. pose proof (run_inv ops) as I. split; [exact (proj2 (inv_pc _ I _ _ _ Hi))|].
  unfold answer. rewrite not_found; [by destruct (run ops)| |done].
  by eapply no_slot_unless_waiting.
Qed.

(** ** The cold-restart sweep *)

Lemma sweep_turns_spec todo rows count :
  (∀ r, r ∈ todo → is_Some (rows !! turn_id r)) → NoDup (turn_id <$> todo) →
  (0 ≤ count ≤ u32_max)%Z →
  sweep_rows rows todo count =
    (foldr (λ r m, delete (turn_id r) m) rows todo,
     Ok (Z.min u32_max (count + Z.of_nat (length todo)))).
Proof.
  revert rows count. induction todo as [|r todo IH]; intros rows count Hin Hnd Hc.
  { simpl. do 2 f_equal. lia. }
  rewrite fmap_cons, NoDup_cons in Hnd. destruct Hnd as [Hr Hnd].
  destruct (Hin r) as [row E]; [by left|]. cbn [sweep_rows]. rewrite (update_turn_present _ _ _ _ _ _ E). simpl.
  rewrite IH; [|intros r' Hr'|done|unfold sat_add; lia].
  - f_equal; [|f_equal; unfold sat_add; lia]. clear. induction todo as [|r' todo IH]; [done|]. simpl.
    by rewrite IH, delete_delete.
  - rewrite lookup_delete_ne; [apply Hin; by right|]. intros E2. apply Hr. rewrite E2.
    by apply list_elem_of_fmap_2.
Qed.

Lemma scan_NoDup rows :
  (∀ id r, rows !! id = Some r → turn_id r = id) → NoDup (turn_id <$> scan_non_terminal_turns rows).
Proof.
  intros Hk. unfold scan_non_terminal_turns. eapply sublist_NoDup; [|apply fmap_sublist, sublist_filter].
  assert (E : turn_id <$> (map_to_list rows).*2 = (map_to_list rows).*1).
  { rewrite <-list_fmap_compose. apply list_fmap_ext. intros i [id r] Hi. simpl. apply Hk.
    apply elem_of_map_to_list. by eapply list_elem_of_lookup_2. }
  rewrite E. apply NoDup_fst_map_to_list.
Qed.

(** A sweep of the table counts and removes every row that was not terminal
    and never fails. *)
Lemma sweep_clears_the_table rows :
  (∀ id r, rows !! id = Some r → turn_id r = id) →
  let '(rows', n) := sweep_non_terminal_turns_on_startup rows in
  n = Ok (Z.min u32_max (Z.of_nat (length (scan_non_terminal_turns rows)))) ∧
  (∀ id, rows' !! id = match rows !! id with
                       | Some r => if turn_is_terminal (turn_status r) then Some r else None
                       | None => None
                       end).
Proof.
  intros Hk. unfold sweep_non_terminal_turns_on_startup.
  assert (Hscan : ∀ r, r ∈ scan_non_terminal_turns rows ↔
            rows !! turn_id r = Some r ∧ turn_is_terminal (turn_status r) = false).
  { intros r. unfold scan_non_terminal_turns. rewrite list_elem_of_filter, list_elem_of_fmap. split.
    - intros (?&[id r']&->&Hr%elem_of_map_to_list). simpl in *. split; [|done]. by rewrite (Hk _ _ Hr).
    - intros [Hr ?]. split; [done|]. exists (turn_id r, r). by rewrite elem_of_map_to_list. }
  rewrite sweep_turns_spec; [|intros r [Hr _]%Hscan; by rewrite Hr|by apply scan_NoDup|unfold u32_max; lia].
  split; [done|]. intros id.
  assert (Hdel : ∀ l, foldr (λ r m, delete (turn_id r) m) rows l !! id =
            if bool_decide (id ∈ turn_id <$> l) then None else rows !! id).
  { induction l as [|r l IH]; [done|]. simpl. destruct (decide (turn_id r = id)) as [->|Hne].
    - rewrite lookup_delete_eq, bool_decide_true by set_solver. done.
    - rewrite lookup_delete_ne, IH by done. erewrite bool_decide_ext; [done|]. set_solver. }
  rewrite Hdel. case_bool_decide as Hin.
  - apply list_elem_of_fmap in Hin as (r&->&[Hr Ht]%Hscan). by rewrite Hr, Ht.
  - destruct (rows !! id) as [r|] eqn:E; [|done]. destruct (turn_is_terminal (turn_status r)) eqn:Ht; [done|].
    destruct Hin. apply list_elem_of_fmap. exists r. rewrite Hscan. by rewrite (Hk _ _ E), E.
Qed.

End client_tools.

(** ** A concrete run *)

Definition a_call : PendingClientToolCall (Json := unit) :=
  {| tool_call_id := "call-1"; tool_name := "say_this"; arguments := tt |}.

Definition a_suspension : Suspension (Json := unit) :=
  {| s_user := "ada"; s_session := "voice"; s_task := "task-1"; s_conversation := "conv-1";
     s_call := a_call; s_timeout := DEFAULT_CLIENT_TOOL_TIMEOUT |}.

Definition up_to_waiting : list (Op (Json := unit)) :=
  [Register "ada" "voice" [{| reg_name := "say_this"; reg_description := "speak"; input_schema := tt |}];
   Execute a_suspension; Advance 0; Advance 0; Advance 0; Advance 0; Advance 0].

Definition answered : list (Op (Json := unit)) :=
  up_to_waiting ++ [Answer "eve" "task-1" "call-1" (Ok "forged"); Answer "ada" "task-1" "call-1" (Ok "said");
                    Advance 0; Advance 0].

Lemma answers_are_authentic_witness :
  threads (run answered) !! 0 = Some (a_suspension, Done (Ok "said")) ∧
  ∃ k o, answered !! k = Some o ∧ hands_over (run (take k answered)) o 0 a_suspension "said" ∧
    call_event a_suspension ∈ sink (run (take k answered)) ∧
    ∀ j s', threads (run (take k answered)) !! j = Some (s', Waiting Empty) →
      s_task s' = s_task a_suspension → j = 0.
Proof.
  assert (H : threads (run answered) !! 0 = Some (a_suspension, Done (Ok "said"))) by (vm_compute; reflexivity).
  split; [exact H|]. exact (answers_are_authentic answered 0 a_suspension "said" H).
Defined.

Lemma every_ending_is_recorded_witness :
  threads (run up_to_waiting) !! 0 = Some (a_suspension, Waiting Empty) ∧
  over (foldl step (run up_to_waiting) [TimeOut 0; Advance 0]) 0 a_suspension
    (Err (ToolExecution "client did not respond to tool call 'say_this' within 120s")) None.
Proof.
  assert (H : threads (run up_to_waiting) !! 0 = Some (a_suspension, Waiting Empty))
    by (vm_compute; reflexivity).
  split; [exact H|].
  destruct (every_ending_is_recorded up_to_waiting 0 a_suspension H) as (row&_&_&_&Ht&_). exact Ht.
Defined.
