(* ===== verification/FrameCodec.v ===== *)
(** * The length-prefixed frame codec

    Models [crates/frame-codec/src/lib.rs], the framing every local transport
    shares: a 4-byte little-endian length, then the body.

    A reader is the bytes still to come before the peer closes; [read_exact]
    fails with [UnexpectedEof] when there are too few.  A writer is what it has
    put on the wire and how much more the connection takes before it breaks, so
    the error paths of [write_all] are exercised: a broken write leaves the
    bytes that still fitted. *)

From S2P Require Import Prelude TaskStore.
From Stdlib Require Import Strings.Byte.

#[local] Open Scope Z_scope.

Definition MAX_FRAME_LEN : Z := 4 * 1024 * 1024.

Inductive ErrorKind := InvalidData (detail : string) | UnexpectedEof | BrokenPipe.

(** ** [u32] in little-endian bytes *)

Definition byte_val (b : byte) : Z := Z.of_N (Byte.to_N b).

(** The low eight bits: [u8] of a [u32]. *)
Definition low_byte (n : Z) : byte :=
  match Byte.of_N (Z.to_N (Z.land n 255)) with Some b => b | None => x00 end.

Definition to_le_bytes (n : Z) : list byte :=
  [low_byte n; low_byte (Z.shiftr n 8); low_byte (Z.shiftr n 16); low_byte (Z.shiftr n 24)].

Definition from_le_bytes (l : list byte) : Z :=
  match l with
  | [b0; b1; b2; b3] =>
      Z.lor (byte_val b0) (Z.lor (Z.shiftl (byte_val b1) 8)
        (Z.lor (Z.shiftl (byte_val b2) 16) (Z.shiftl (byte_val b3) 24)))
  | _ => 0
  end.

(** ** Reading *)

Definition read_exact (input : list byte) (n : nat) : list byte * result (list byte) ErrorKind :=
  if (length input <? n)%nat then ([], Err UnexpectedEof) else (drop n input, Ok (take n input)).

Definition read_frame (input : list byte) : list byte * result (list byte) ErrorKind :=
  match read_exact input 4 with
  | (rest, Err e) => (rest, Err e)
  | (rest, Ok len_buf) =>
      let len := from_le_bytes len_buf in
      if MAX_FRAME_LEN <? len
      then (rest, Err (InvalidData ("frame length " +:+ pretty len +:+ " exceeds cap "
                                    +:+ pretty MAX_FRAME_LEN)))
      else if 0 <? len then read_exact rest (Z.to_nat len)
      else (rest, Ok [])
  end.

(** ** Writing *)

(** [room]: how many more bytes the connection takes, [None] while it is sound. *)
Record Writer := { wire : list byte; room : option nat }.

Definition write_all (w : Writer) (l : list byte) : Writer * result unit ErrorKind :=
  match room w with
  | None => ({| wire := wire w ++ l; room := None |}, Ok tt)
  | Some k =>
      if (length l <=? k)%nat
      then ({| wire := wire w ++ l; room := Some (k - length l)%nat |}, Ok tt)
      else ({| wire := wire w ++ take k l; room := Some 0%nat |}, Err BrokenPipe)
  end.

(** The writers frames go to, a socket and a byte vector, hold nothing back: a
    flush finds nothing to send. *)
Definition flush (w : Writer) : Writer * result unit ErrorKind := (w, Ok tt).

Definition exceeds_frame_cap (body : list byte) : bool := MAX_FRAME_LEN <? Z.of_nat (length body).

Definition write_frame (w : Writer) (body : list byte) : Writer * result unit ErrorKind :=
  if exceeds_frame_cap body
  then (w, Err (InvalidData ("frame body " +:+ pretty (Z.of_nat (length body)) +:+ " exceeds cap "
                             +:+ pretty MAX_FRAME_LEN)))
  else
    match write_all w (to_le_bytes (Z.of_nat (length body))) with
    | (w, Err e) => (w, Err e)
    | (w, Ok _) =>
        match write_all w body with
        | (w, Err e) => (w, Err e)
        | (w, Ok _) => flush w
        end
    end.

(** ** The header *)

Lemma byte_val_range b : 0 ≤ byte_val b < 256.
Proof. unfold byte_val. pose proof (Byte.to_N_bounded b). lia. Qed.

Lemma low_byte_val n : byte_val (low_byte n) = n mod 256.
Proof.
  unfold low_byte, byte_val. change 255 with (Z.ones 8). rewrite Z.land_ones by lia. change (2 ^ 8) with 256.
  pose proof (Z.mod_pos_bound n 256). destruct (Byte.of_N (Z.to_N (n mod 256))) as [b|] eqn:E.
  - apply Byte.to_of_N in E. rewrite E. lia.
  - apply Byte.of_N_None_iff in E. lia.
Qed.

Lemma byte_val_inj a b : byte_val a = byte_val b → a = b.
Proof.
  unfold byte_val. intros E%N2Z.inj. pose proof (Byte.of_to_N a) as Ha. pose proof (Byte.of_to_N b) as Hb.
  rewrite E in Ha. congruence.
Qed.

(** The bitwise assembly is the positional value. *)
Lemma from_le_bytes_val b0 b1 b2 b3 :
  from_le_bytes [b0; b1; b2; b3] =
    byte_val b0 + 256 * (byte_val b1 + 256 * (byte_val b2 + 256 * byte_val b3)).
Proof.
  cbn [from_le_bytes]. pose proof (byte_val_range b0). pose proof (byte_val_range b1).
  pose proof (byte_val_range b2). pose proof (byte_val_range b3).
  set (v2 := byte_val b2 + 256 * byte_val b3). set (v1 := byte_val b1 + 256 * v2).
  assert (Z.lor (Z.shiftl (byte_val b2) 16) (Z.shiftl (byte_val b3) 24) = Z.shiftl v2 16) as ->.
  { rewrite !(Z.shiftl_mul_pow2 (byte_val b2)), lor_shiftl, Z.shiftl_mul_pow2 by lia. subst v2. lia. }
  assert (Z.lor (Z.shiftl (byte_val b1) 8) (Z.shiftl v2 16) = Z.shiftl v1 8) as ->.
  { rewrite (Z.shiftl_mul_pow2 (byte_val b1)), lor_shiftl, Z.shiftl_mul_pow2 by lia. subst v1. lia. }
  rewrite lor_shiftl by lia. lia.
Qed.

Lemma from_to_le_bytes n : 0 ≤ n < 2 ^ 32 → from_le_bytes (to_le_bytes n) = n.
Proof.
  intros Hn. unfold to_le_bytes. rewrite from_le_bytes_val, !low_byte_val, !Z.shiftr_div_pow2 by lia.
  change (2 ^ 8) with 256. change (2 ^ 16) with (256 * 256). change (2 ^ 24) with (256 * 256 * 256).
  rewrite <-!Z.div_div by lia.
  pose proof (Z.div_mod n 256 ltac:(lia)). pose proof (Z.div_mod (n / 256) 256 ltac:(lia)).
  pose proof (Z.div_mod (n / 256 / 256) 256 ltac:(lia)).
  assert (0 ≤ n / 256 / 256 / 256 < 256).
  { rewrite !Z.div_div by lia. split; [apply Z.div_pos; lia|]. apply Z.div_lt_upper_bound; lia. }
  rewrite (Z.mod_small (n / 256 / 256 / 256)) by lia. lia.
Qed.

Lemma to_from_le_bytes l : length l = 4%nat → to_le_bytes (from_le_bytes l) = l.
Proof.
  destruct l as [|b0 [|b1 [|b2 [|b3 [|]]]]]; try done. intros _. unfold to_le_bytes.
  rewrite from_le_bytes_val. pose proof (byte_val_range b0). pose proof (byte_val_range b1).
  pose proof (byte_val_range b2). pose proof (byte_val_range b3).
  rewrite !Z.shiftr_div_pow2 by lia.
  change (2 ^ 8) with 256. change (2 ^ 16) with (256 * 256). change (2 ^ 24) with (256 * 256 * 256).
  rewrite <-!Z.div_div by lia.
  assert (D : ∀ b v, (byte_val b + 256 * v) / 256 = v).
  { intros b v. pose proof (byte_val_range b). rewrite (Z.mul_comm 256), Z.div_add, Z.div_small; lia. }
  assert (L : ∀ b v, low_byte (byte_val b + 256 * v) = b).
  { intros b v. apply byte_val_inj. pose proof (byte_val_range b).
    rewrite low_byte_val, (Z.mul_comm 256), Z.mod_add, Z.mod_small; lia. }
  rewrite !D, !L. do 3 f_equal. pose proof (L b3 0) as L3. rewrite Z.mul_0_r, Z.add_0_r in L3. by rewrite L3.
Qed.

(** ** Frames *)

Definition frame (body : list byte) : list byte := to_le_bytes (Z.of_nat (length body)) ++ body.
Arguments frame : simpl never.

Lemma read_frame_frame body rest :
  exceeds_frame_cap body = false → read_frame (frame body ++ rest) = (rest, Ok body).
Proof.
  unfold exceeds_frame_cap, MAX_FRAME_LEN. intros Hb%Z.ltb_ge. unfold frame. rewrite <-app_assoc.
  unfold read_frame, read_exact at 1.
  assert (length (to_le_bytes (Z.of_nat (length body))) = 4)%nat as H4 by done.
  rewrite length_app, H4. destruct (Nat.ltb_spec (4 + length (body ++ rest)) 4); [lia|].
  rewrite (take_app_length' _ _ 4), (drop_app_length' _ _ 4), from_to_le_bytes by lia.
  unfold MAX_FRAME_LEN. destruct (Z.ltb_spec (4 * 1024 * 1024) (Z.of_nat (length body))); [lia|].
  destruct (Z.ltb_spec 0 (Z.of_nat (length body))).
  - unfold read_exact. rewrite Nat2Z.id, length_app.
    destruct (Nat.ltb_spec (length body + length rest) (length body)); [lia|].
    by rewrite take_app_length, drop_app_length.
  - destruct body; [done|simpl in *; lia].
Qed.

(** A body that is read was framed by the canonical encoding, within the cap. *)
Lemma read_frame_Ok input rest body :
  read_frame input = (rest, Ok body) → input = frame body ++ rest ∧ exceeds_frame_cap body = false.
Proof.
  unfold read_frame, read_exact at 1. destruct (Nat.ltb_spec (length input) 4) as [|H4]; [done|].
  set (l := take 4 input). assert (Hl : length l = 4%nat) by (subst l; rewrite length_take; lia).
  assert (Hr : 0 ≤ from_le_bytes l).
  { destruct l as [|b0 [|b1 [|b2 [|b3 [|]]]]]; try done. rewrite from_le_bytes_val.
    pose proof (byte_val_range b0). pose proof (byte_val_range b1). pose proof (byte_val_range b2).
    pose proof (byte_val_range b3). lia. }
  assert (Hi : input = l ++ drop 4 input) by (subst l; by rewrite take_drop).
  destruct (Z.ltb_spec MAX_FRAME_LEN (from_le_bytes l)) as [|Hc]; [done|].
  unfold frame, exceeds_frame_cap.
  destruct (Z.ltb_spec 0 (from_le_bytes l)) as [Hp|Hz].
  - unfold read_exact. destruct (Nat.ltb_spec (length (drop 4 input)) (Z.to_nat (from_le_bytes l))) as [|Hlen]; [done|].
    intros [= <- <-]. rewrite length_take, Nat.min_l, Z2Nat.id by lia. rewrite to_from_le_bytes by done.
    split; [|by apply Z.ltb_ge]. rewrite <-app_assoc, take_drop. exact Hi.
  - intros [= <- <-]. assert (to_le_bytes (Z.of_nat (length (@nil byte))) = l) as ->.
    { rewrite <-(to_from_le_bytes l) by done. f_equal. simpl. lia. }
    rewrite app_nil_r. done.
Qed.

(** ** Streams *)

(** A connection that writes one body after another, whatever each write says. *)
Definition send_all (w : Writer) (bodies : list (list byte)) : Writer :=
  foldl (λ w b, (write_frame w b).1) w bodies.

(** A connection that reads until the first error. *)
Fixpoint read_all (fuel : nat) (input : list byte) : list (list byte) * ErrorKind :=
  match fuel with
  | O => ([], UnexpectedEof)
  | S f =>
      match read_frame input with
      | (_, Err e) => ([], e)
      | (rest, Ok body) => let '(l, e) := read_all f rest in (body :: l, e)
      end
  end.

Definition accepted_bodies (bodies : list (list byte)) : list (list byte) :=
  filter (λ b, exceeds_frame_cap b = false) bodies.

Definition cut (r : option nat) (l : list byte) : list byte :=
  match r with None => l | Some k => take k l end.

Lemma frame_length body : length (frame body) = (4 + length body)%nat.
Proof. unfold frame. by rewrite length_app. Qed.

Definition room_after (r : option nat) (n : nat) : option nat := (λ k, (k - n)%nat) <$> r.

Lemma write_all_spec w l :
  (write_all w l).1 = {| wire := wire w ++ cut (room w) l; room := room_after (room w) (length l) |} ∧
  (is_ok (write_all w l).2 = false → room_after (room w) (length l) = Some 0%nat).
Proof.
  unfold write_all. destruct w as [wr [k|]]; simpl; [|done].
  destruct (Nat.leb_spec (length l) k); simpl; [by rewrite take_ge|].
  assert (k - length l = 0)%nat as -> by lia. done.
Qed.

Lemma flushed (r : Writer * result unit ErrorKind) : (match r with (w, Err e) => (w, Err e) | (w, Ok _) => flush w end).1 = r.1.
Proof. by destruct r as [w [[]|e]]. Qed.

Lemma write_frame_spec w body :
  exceeds_frame_cap body = false →
  (write_frame w body).1 =
    {| wire := wire w ++ cut (room w) (frame body); room := room_after (room w) (length (frame body)) |}.
Proof.
  intros Hb. unfold write_frame. rewrite Hb. unfold frame.
  set (h := to_le_bytes (Z.of_nat (length body))). clearbody h. rewrite length_app.
  destruct (write_all_spec w h) as [E1 E2]. destruct (write_all w h) as [w1 [u|e]]; cbn [fst snd] in E1, E2; subst w1.
  - match goal with |- context [write_all ?w1 body] => destruct (write_all_spec w1 body) as [E _] end.
    rewrite flushed, E. cbn [wire room]. destruct (room w) as [k|]; cbn.
    + rewrite take_app, <-app_assoc. do 2 f_equal. lia.
    + by rewrite <-app_assoc.
  - specialize (E2 eq_refl). cbn [fst]. destruct (room w) as [k|]; [|done]. cbn in *.
    assert (k - length h = 0)%nat as H4 by congruence.
    rewrite take_app_le by lia. do 2 f_equal. lia.
Qed.

Lemma send_all_spec bodies w :
  wire (send_all w bodies) = wire w ++ cut (room w) (concat (frame <$> accepted_bodies bodies)).
Proof.
  unfold send_all. revert w. induction bodies as [|b bodies IH]; intros w.
  { destruct w as [wr [k|]]; simpl; by rewrite ?take_nil, app_nil_r. }
  cbn [foldl]. rewrite IH. unfold accepted_bodies. destruct (exceeds_frame_cap b) eqn:Hb.
  - rewrite filter_cons_False by congruence. unfold write_frame. by rewrite Hb.
  - rewrite filter_cons_True by done. rewrite write_frame_spec by done. cbn [wire room fmap list_fmap concat].
    rewrite <-app_assoc. f_equal. destruct (room w) as [k|]; [|done].
    cbn [cut room_after fmap option_fmap option_map]. by rewrite take_app.
Qed.

(** A frame that was cut short is an unexpected end. *)
Lemma read_frame_short body k :
  exceeds_frame_cap body = false → (k < length (frame body))%nat →
  ∃ rest, read_frame (take k (frame body)) = (rest, Err UnexpectedEof).
Proof.
  intros Hb Hk. destruct (read_frame (take k (frame body))) as [rest [body'|e]] eqn:E.
  - exfalso. apply read_frame_Ok in E as [E _].
    pose proof (read_frame_frame body [] Hb) as H0. rewrite app_nil_r in H0.
    rewrite <-(take_drop k (frame body)), E, <-app_assoc in H0.
    assert (Hb' : exceeds_frame_cap body' = false).
    { apply (f_equal length) in E. rewrite length_app, length_take, !frame_length in E.
      rewrite frame_length in Hk. unfold exceeds_frame_cap in *. rewrite Z.ltb_ge in *. lia. }
    rewrite read_frame_frame in H0 by done. injection H0 as H0 ->. apply (f_equal length) in E, H0.
    rewrite length_app, length_take in E. rewrite length_app, length_drop in H0. simpl in H0. lia.
  - rewrite frame_length in Hk. unfold read_frame, read_exact in E.
    destruct (Nat.ltb_spec (length (take k (frame body))) 4) as [|H4]; [simplify_eq; eauto|].
    rewrite length_take, frame_length in H4. unfold frame in E.
    rewrite take_take, Nat.min_l, take_app_length' in E by (simpl; lia).
    unfold exceeds_frame_cap, MAX_FRAME_LEN in *. apply Z.ltb_ge in Hb. rewrite from_to_le_bytes in E by lia.
    destruct (Z.ltb_spec (4 * 1024 * 1024) (Z.of_nat (length body))); [lia|].
    destruct (Z.ltb_spec 0 (Z.of_nat (length body))); [|done].
    match type of E with (if ?c then _ else _) = _ => destruct c end; simplify_eq; eauto.
Qed.

Lemma read_all_spec bodies r fuel :
  Forall (λ b, exceeds_frame_cap b = false) bodies → (length bodies < fuel)%nat →
  ∃ m, read_all fuel (cut r (concat (frame <$> bodies))) = (take m bodies, UnexpectedEof) ∧
    (m ≤ length bodies)%nat ∧
    match r with
    | None => m = length bodies
    | Some k =>
        (length (concat (frame <$> take m bodies)) ≤ k)%nat ∧
        ((m < length bodies)%nat → (k < length (concat (frame <$> take (S m) bodies)))%nat)
    end.
Proof.
  revert r fuel. induction bodies as [|b bodies IH]; intros r fuel HF Hf; (destruct fuel as [|f]; [simpl in Hf; lia|]).
  { exists 0%nat. simpl. destruct r as [k|]; simpl; rewrite ?take_nil; split_and!; try done; lia. }
  apply Forall_cons in HF as [Hb HF]. simpl in Hf. cbn [fmap list_fmap concat].
  assert (Hd : ∀ P : Prop, P = (match r with Some k => (k < length (frame b))%nat | None => False end) → P ∨ ¬ P)
    by (intros P ->; destruct r; [lia|tauto]).
  destruct (Hd _ eq_refl) as [Hk|Hk].
  - destruct r as [k|]; [|done]. exists 0%nat. cbn [cut]. rewrite take_app_le by lia.
    destruct (read_frame_short b k Hb Hk) as [rest E]. cbn [read_all]. rewrite E. simpl.
    split_and!; [done|lia|lia|]. intros _. rewrite app_nil_r. done.
  - destruct (IH (room_after r (length (frame b))) f HF ltac:(lia)) as (m&E&Hm&Hr).
    exists (S m). cbn [read_all].
    assert (cut r (frame b ++ concat (frame <$> bodies)) =
            frame b ++ cut (room_after r (length (frame b))) (concat (frame <$> bodies))) as ->.
    { destruct r as [k|]; [|done]. cbn [cut room_after fmap option_fmap option_map].
      rewrite take_app, take_ge by lia. done. }
    rewrite read_frame_frame by done. rewrite E. split_and!; [done|simpl; lia|].
    destruct r as [k|]; [|simpl in *; lia]. destruct Hr as [H1 H2].
    change (take (S (S m)) (b :: bodies)) with (b :: take (S m) bodies).
    change (take (S m) (b :: bodies)) with (b :: take m bodies).
    cbn [fmap list_fmap concat length]. rewrite !length_app. split; [lia|].
    intros Hlt. specialize (H2 ltac:(lia)). lia.
Qed.

(** C9: over any sequence of bodies, over-cap ones included, and wherever the
    connection breaks, the reader gets exactly a prefix of the bodies the
    writer accepted, in order and unchanged, and then an unexpected end: all of
    them on a sound connection, and all whose last byte got through otherwise.
    An over-cap body is refused without a byte on the wire.  The reader accepts
    nothing but the canonical frame of a body within the cap. *)
Theorem reader_gets_what_the_writer_sent bodies r :
  let sent := accepted_bodies bodies in
  let w := send_all {| wire := []; room := r |} bodies in
  (∃ m, read_all (S (length sent)) (wire w) = (take m sent, UnexpectedEof) ∧ (m ≤ length sent)%nat ∧
    match r with
    | None => m = length sent
    | Some k =>
        (length (concat (frame <$> take m sent)) ≤ k)%nat ∧
        ((m < length sent)%nat → (k < length (concat (frame <$> take (S m) sent)))%nat)
    end) ∧
  (∀ w0 body, exceeds_frame_cap body = true →
     (write_frame w0 body).1 = w0 ∧ is_ok (write_frame w0 body).2 = false) ∧
  (∀ input rest body, read_frame input = (rest, Ok body) ↔
     input = frame body ++ rest ∧ exceeds_frame_cap body = false).
Proof.
  intros sent w. split_and!.
  - subst w. rewrite send_all_spec. cbn [wire room]. rewrite app_nil_l. fold sent.
    apply read_all_spec; [|lia]. apply Forall_forall. intros b. subst sent. unfold accepted_bodies.
    rewrite list_elem_of_filter. tauto.
  - intros w0 body Hb. unfold write_frame. by rewrite Hb.
  - intros input rest body. split; [apply read_frame_Ok|]. intros [-> Hb]. by apply read_frame_frame.
Qed.
