(* ===== verification/ParentWake.v ===== *)
(** * Waking a parent when its subagents finish

    Models [crates/application/src/parent_wake.rs]: the coalescing, serialising
    coordinator between the registry's completion signal ([BackgroundTasks]) and
    the turns it starts on a session conversation, and the prompt of such a turn.

    A drain is a thread; each critical section of the coordinator's mutex, the
    upgrade of the weak waker and the end of a wake turn are steps, interleaved
    with arriving completions in any order.  What the waker was asked to do is
    logged, each request with the batch it was made from; a batch dropped because
    the daemon is shutting down is logged too. *)

From S2P Require Import Prelude TaskStore BackgroundTasks.

#[local] Open Scope nat_scope.

(** ** The prompt *)

Definition newline : string := bytes [10].

Definition status_phrase (s : TaskStatus) : string :=
  match s with
  | Completed => "completed"
  | Failed => "failed"
  | Cancelled => "was cancelled"
  | Pending => "is pending"
  | Running => "is still running"
  end.

Definition prompt_line (c : SubagentCompletion) : string :=
  "- " +:+ dq +:+ c_child_name c +:+ dq +:+ " " +:+ status_phrase (c_status c)
  +:+ ". Its result is saved in your scratchpad as a `result` note under owner_todo "
  +:+ dq +:+ c_owner_todo c +:+ dq +:+ "; retrieve it with get_subagent_status("
  +:+ dq +:+ c_child_task_id c +:+ dq +:+ ")." +:+ newline.

(** [iter().min().unwrap_or(0)]. *)
Definition least (l : list nat) : nat :=
  match l with [] => 0 | x :: rest => foldl Nat.min x rest end.

Definition all_finished : string :=
  "All of the subagents you dispatched have now finished. Review the full set of results against the original request and produce your consolidated answer. The results are already saved — decide what to do with them.".

Definition still_running (remaining : nat) : string :=
  pretty remaining +:+ " more " +:+ (if remaining =? 1 then "is" else "are")
  +:+ " still running. Review the finished one(s) now and act if useful — you'll be woken again as the rest complete, so you don't have to wait for all of them.".

Definition build_wake_prompt (batch : list SubagentCompletion) : string :=
  let n := length batch in
  let remaining := least (c_siblings_remaining <$> batch) in
  "[automatic] " +:+ pretty n +:+ " " +:+ (if n =? 1 then "subagent" else "subagents")
  +:+ " you dispatched just finished:" +:+ newline +:+ newline
  +:+ foldr (λ c out, prompt_line c +:+ out) EmptyString batch
  +:+ newline
  +:+ (if remaining =? 0 then all_finished else still_running remaining).

(** ** The coordinator *)

Record PerConversation := { running : bool; pending : list SubagentCompletion }.
Definition PerConversation_default : PerConversation := {| running := false; pending := [] |}.

(** A drain task of one session conversation. *)
Inductive DrainPc :=
| AtLock                                     (** about to take the next batch *)
| AtUpgrade (batch : list SubagentCompletion) (** batch taken, waker not yet upgraded *)
| AtWake                                     (** awaiting [ParentWaker::wake] *)
| AtRelease                                  (** waker gone, about to clear [running] *)
| Ended.

Definition live (pc : DrainPc) : bool := match pc with Ended => false | _ => true end.

Inductive Handed :=
| Woken (user conversation prompt : string) (batch : list SubagentCompletion)
| Lost (conversation : string) (batch : list SubagentCompletion).

Record ParentWakeCoordinator := {
  enabled : bool;
  waker_alive : bool;
  state : gmap string PerConversation;
  drains : list (string * DrainPc);
  handed : list Handed
}.

Definition ParentWakeCoordinator_new (enabled : bool) : ParentWakeCoordinator :=
  {| enabled := enabled; waker_alive := true; state := ∅; drains := []; handed := [] |}.

Definition set_entry (w : ParentWakeCoordinator) (s : string) (e : PerConversation) : ParentWakeCoordinator :=
  {| enabled := enabled w; waker_alive := waker_alive w; state := <[s := e]> (state w);
     drains := drains w; handed := handed w |}.
Definition set_drains (w : ParentWakeCoordinator) (d : list (string * DrainPc)) : ParentWakeCoordinator :=
  {| enabled := enabled w; waker_alive := waker_alive w; state := state w; drains := d; handed := handed w |}.
Definition log_handed (w : ParentWakeCoordinator) (h : Handed) : ParentWakeCoordinator :=
  {| enabled := enabled w; waker_alive := waker_alive w; state := state w; drains := drains w;
     handed := handed w ++ [h] |}.

(** Whether a completion calls for a wake at all. *)
Definition eligible (en : bool) (c : SubagentCompletion) : bool :=
  en && c_notify_parent c && negb (bool_decide (c_session_conversation_id c = c_child_conversation_id c)).

Definition on_completion (w : ParentWakeCoordinator) (c : SubagentCompletion) : ParentWakeCoordinator :=
  if negb (enabled w) then w
  else if negb (c_notify_parent c) then w
  else if bool_decide (c_session_conversation_id c = c_child_conversation_id c) then w
  else
    let session := c_session_conversation_id c in
    let entry := default PerConversation_default (state w !! session) in
    let pending' := pending entry ++ [c] in
    if running entry
    then set_entry w session {| running := true; pending := pending' |}
    else let w := set_entry w session {| running := true; pending := pending' |} in
         set_drains w (drains w ++ [(session, AtLock)]).

(** One step of the drain [i] of [s], other than the return of its wake. *)
Definition drain_step (w : ParentWakeCoordinator) (i : nat) (s : string) (pc : DrainPc)
    : ParentWakeCoordinator :=
  let goto w pc := set_drains w (<[i := (s, pc)]> (drains w)) in
  match pc with
  | AtLock =>
      match state w !! s with
      | Some entry =>
          match pending entry with
          | [] => goto (set_entry w s {| running := false; pending := [] |}) Ended
          | batch => goto (set_entry w s {| running := running entry; pending := [] |}) (AtUpgrade batch)
          end
      | None => goto w Ended
      end
  | AtUpgrade batch =>
      if waker_alive w
      then
        let user := match batch with c :: _ => c_user_id c | [] => EmptyString end in
        goto (log_handed w (Woken user s (build_wake_prompt batch) batch)) AtWake
      else goto (log_handed w (Lost s batch)) AtRelease
  | AtRelease =>
      match state w !! s with
      | Some entry => goto (set_entry w s {| running := false; pending := pending entry |}) Ended
      | None => goto w Ended
      end
  | AtWake | Ended => w
  end.

Inductive WakeOp := Completion (c : SubagentCompletion) | DrainStep (i : nat) | WakeReturns (i : nat) | WakerDropped.

Definition wake_step (w : ParentWakeCoordinator) (o : WakeOp) : ParentWakeCoordinator :=
  match o with
  | Completion c => on_completion w c
  | DrainStep i => match drains w !! i with Some (s, pc) => drain_step w i s pc | None => w end
  | WakeReturns i =>
      match drains w !! i with
      | Some (s, AtWake) => set_drains w (<[i := (s, AtLock)]> (drains w))
      | _ => w
      end
  | WakerDropped =>
      {| enabled := enabled w; waker_alive := false; state := state w; drains := drains w; handed := handed w |}
  end.

Definition run (en : bool) (ops : list WakeOp) : ParentWakeCoordinator :=
  foldl wake_step (ParentWakeCoordinator_new en) ops.

(** ** What is accounted for *)

Definition pending_of (w : ParentWakeCoordinator) (s : string) : list SubagentCompletion :=
  match state w !! s with Some e => pending e | None => [] end.
Definition running_of (w : ParentWakeCoordinator) (s : string) : bool :=
  match state w !! s with Some e => running e | None => false end.

Definition batch_for (s : string) (h : Handed) : list SubagentCompletion :=
  match h with
  | Woken _ s' _ b | Lost s' b => if bool_decide (s' = s) then b else []
  end.
Definition handed_of (w : ParentWakeCoordinator) (s : string) : list SubagentCompletion :=
  concat (batch_for s <$> handed w).

(** The completions of [ops] that call for a wake of session [s], in order. *)
Definition due (en : bool) (ops : list WakeOp) (s : string) : list SubagentCompletion :=
  omap (λ o, match o with
             | Completion c =>
                 if eligible en c && bool_decide (c_session_conversation_id c = s) then Some c else None
             | _ => None
             end) ops.

Lemma handed_of_log w h s : handed_of (log_handed w h) s = handed_of w s ++ batch_for s h.
Proof. unfold handed_of. simpl. by rewrite fmap_app, concat_app, <-(app_nil_r (batch_for s h)). Qed.

Record session_ok (w : ParentWakeCoordinator) (l : list SubagentCompletion) (s : string) : Prop := {
  ok_unique i j pc pc' :
    drains w !! i = Some (s, pc) → drains w !! j = Some (s, pc') → live pc = true → live pc' = true → i = j;
  ok_running : running_of w s = true ↔ ∃ i pc, drains w !! i = Some (s, pc) ∧ live pc = true;
  ok_taken i b :
    drains w !! i = Some (s, AtUpgrade b) → b ≠ [] ∧ handed_of w s ++ b ++ pending_of w s = l;
  ok_account : (∀ i b, drains w !! i ≠ Some (s, AtUpgrade b)) → handed_of w s ++ pending_of w s = l;
  ok_idle : waker_alive w = true → running_of w s = false → pending_of w s = [];
  ok_alive i : waker_alive w = true → drains w !! i ≠ Some (s, AtRelease)
}.

(** A step that is about another session. *)
Lemma session_frame w w' l s :
  session_ok w l s → (waker_alive w' = true → waker_alive w = true) → state w' !! s = state w !! s →
  handed_of w' s = handed_of w s → (∀ i pc, drains w' !! i = Some (s, pc) ↔ drains w !! i = Some (s, pc)) →
  session_ok w' l s.
Proof.
  intros K Ha Hs Hh Hd. split; unfold running_of, pending_of; rewrite ?Hs, ?Hh.
  - intros i j pc pc' Hi%Hd Hj%Hd. by apply (ok_unique w l s K).
  - pose proof (ok_running w l s K) as Hr. unfold running_of in Hr. rewrite Hr. by setoid_rewrite Hd.
  - intros i b Hi%Hd. by apply (ok_taken w l s K) in Hi.
  - intros Hn. apply (ok_account w l s K). intros i b Hi. by apply (Hn i b), Hd.
  - intros Hal Hr. by apply (ok_idle w l s K); [auto|].
  - intros i Hal Hi%Hd. by apply (ok_alive w l s K i); auto.
Qed.

(** A step of the drain [i] of this session. *)
Lemma session_own w w' l s i pc pc' :
  session_ok w l s → drains w !! i = Some (s, pc) → live pc = true →
  drains w' = <[i := (s, pc')]> (drains w) →
  running_of w' s = live pc' →
  (match pc' with
   | AtUpgrade b => b ≠ [] ∧ handed_of w' s ++ b ++ pending_of w' s = l
   | _ => handed_of w' s ++ pending_of w' s = l
   end) →
  (waker_alive w' = true → live pc' = false → pending_of w' s = []) →
  (waker_alive w' = true → pc' ≠ AtRelease) →
  session_ok w' l s.
Proof.
  intros K Hi Hl Hd Hr Hacc Hidle Hal.
  assert (Hlt : i < length (drains w)) by eauto using lookup_lt_Some.
  assert (Hown : drains w' !! i = Some (s, pc')) by (rewrite Hd; by apply list_lookup_insert_eq).
  assert (Hoth : ∀ j q, drains w' !! j = Some (s, q) → j = i ∧ q = pc' ∨ live q = false).
  { intros j q Hj. destruct (decide (j = i)) as [->|Hne]; [left; by simplify_eq|right].
    rewrite Hd, list_lookup_insert_ne in Hj by done. destruct (live q) eqn:Hq; [|done].
    destruct Hne. by eapply (ok_unique w l s K). }
  split.
  - intros j k q q' Hj Hk Hlq Hlq'. destruct (Hoth _ _ Hj) as [[-> _]|], (Hoth _ _ Hk) as [[-> _]|]; congruence.
  - rewrite Hr. split; [eauto|]. intros (j&q&Hj&Hq). destruct (Hoth _ _ Hj) as [[_ <-]|]; congruence.
  - intros j b Hj. destruct (Hoth _ _ Hj) as [[-> <-]|]; [done|done].
  - intros Hn. destruct pc'; try exact Hacc. by destruct (Hn i batch).
  - intros Ha. rewrite Hr. by apply Hidle.
  - intros j Ha Hj. destruct (Hoth _ _ Hj) as [[_ <-]|]; [by apply Hal|done].
Qed.

Lemma drains_frame (w : list (string * DrainPc)) i s pc s' :
  w !! i = Some (s, pc) → s' ≠ s → ∀ pc' j q, <[i := (s, pc')]> w !! j = Some (s', q) ↔ w !! j = Some (s', q).
Proof.
  intros Hi Hne pc' j q. destruct (decide (j = i)) as [->|Hji].
  - rewrite list_lookup_insert_eq by eauto using lookup_lt_Some. rewrite Hi. naive_solver.
  - by rewrite list_lookup_insert_ne.
Qed.

Definition sessions_ok (w : ParentWakeCoordinator) (due : string → list SubagentCompletion) : Prop :=
  ∀ s, session_ok w (due s) s.

(** A step of the drain [i] of [s0] that touches only its session. *)
Lemma sessions_own w w' d s0 i pc pc' :
  sessions_ok w d → drains w !! i = Some (s0, pc) →
  waker_alive w' = waker_alive w → drains w' = <[i := (s0, pc')]> (drains w) →
  (∀ s, s ≠ s0 → state w' !! s = state w !! s ∧ handed_of w' s = handed_of w s) →
  session_ok w' (d s0) s0 → sessions_ok w' d.
Proof.
  intros K Hi Ha Hd Hf H0 s. destruct (decide (s = s0)) as [->|Hne]; [done|].
  destruct (Hf s Hne) as [Hs Hh]. apply (session_frame w); [apply K|by rewrite Ha|done|done|].
  rewrite Hd. by eapply drains_frame.
Qed.

Lemma pending_set w s e d : pending_of (set_drains (set_entry w s e) d) s = pending e.
Proof. unfold pending_of. simpl. by rewrite lookup_insert_eq. Qed.
Lemma running_set w s e d : running_of (set_drains (set_entry w s e) d) s = running e.
Proof. unfold running_of. simpl. by rewrite lookup_insert_eq. Qed.

Lemma running_entry w l s i pc :
  session_ok w l s → drains w !! i = Some (s, pc) → live pc = true →
  ∃ e, state w !! s = Some e ∧ running e = true.
Proof.
  intros K Hi Hl. assert (Hr : running_of w s = true) by (apply (ok_running w l s K); eauto).
  unfold running_of in Hr. destruct (state w !! s) as [e|]; [eauto|done].
Qed.

(** The accounting equation while no batch is between taking and handing over. *)
Lemma account_at w l s i pc :
  session_ok w l s → drains w !! i = Some (s, pc) → live pc = true → (∀ b, pc ≠ AtUpgrade b) →
  handed_of w s ++ pending_of w s = l.
Proof.
  intros K Hi Hl Hpc. apply (ok_account w l s K). intros j b Hj.
  assert (j = i) as -> by exact (ok_unique w l s K _ _ _ _ Hj Hi eq_refl Hl).
  rewrite Hi in Hj. injection Hj as ->. by apply (Hpc b).
Qed.

Lemma batch_other s s0 u p b : s ≠ s0 → batch_for s (Woken u s0 p b) = [] ∧ batch_for s (Lost s0 b) = [].
Proof. intros H. simpl. by rewrite !bool_decide_false. Qed.

Lemma drain_step_ok w d i s pc :
  sessions_ok w d → drains w !! i = Some (s, pc) → sessions_ok (drain_step w i s pc) d.
Proof.
  intros K Hi. pose proof (K s) as Ks. destruct pc as [|b| | |]; [..|done].
  - (* AtLock *)
    destruct (running_entry w _ s i _ Ks Hi eq_refl) as (e&He&Hr). cbn [drain_step]. rewrite He.
    pose proof (account_at w _ s i _ Ks Hi eq_refl ltac:(done)) as Hacc. unfold pending_of in Hacc.
    rewrite He in Hacc. destruct (pending e) as [|c rest] eqn:Hp.
    + eapply (sessions_own w _ _ s i AtLock Ended); [done|done|done|done| |].
      { intros s' Hne. simpl. by rewrite lookup_insert_ne. }
      eapply (session_own w _ _ s i AtLock Ended); [done|done|done|done|by rewrite running_set|..].
      * rewrite pending_set. exact Hacc.
      * intros _ _. by rewrite pending_set.
      * done.
    + eapply (sessions_own w _ _ s i AtLock (AtUpgrade (c :: rest))); [done|done|done|done| |].
      { intros s' Hne. simpl. by rewrite lookup_insert_ne. }
      eapply (session_own w _ _ s i AtLock (AtUpgrade (c :: rest))); [done|done|done|done| |..].
      * by rewrite running_set.
      * split; [done|]. rewrite pending_set. rewrite app_nil_r. exact Hacc.
      * done.
      * done.
  - (* AtUpgrade *)
    destruct (ok_taken w _ s Ks i b Hi) as [Hb Hacc]. cbn [drain_step].
    destruct (running_entry w _ s i _ Ks Hi eq_refl) as (e&He&Hr).
    assert (Hrun : running_of w s = true) by (unfold running_of; by rewrite He).
    destruct (waker_alive w) eqn:Hal.
    + eapply (sessions_own w _ _ s i _ AtWake); [done|exact Hi|by rewrite Hal|done| |].
      { intros s' Hne. split; [done|]. etransitivity; [apply handed_of_log|].
        rewrite (proj1 (batch_other _ _ _ _ _ Hne)). apply app_nil_r. }
      eapply (session_own w _ _ s i _ AtWake); [done|exact Hi|done|done|exact Hrun| |done|done].
      etransitivity; [|exact Hacc]. rewrite (app_assoc _ b). f_equal.
      etransitivity; [apply handed_of_log|]. simpl. by rewrite bool_decide_true.
    + eapply (sessions_own w _ _ s i _ AtRelease); [done|exact Hi|by rewrite Hal|done| |].
      { intros s' Hne. split; [done|]. etransitivity; [apply handed_of_log|].
        rewrite (proj2 (batch_other _ _ EmptyString EmptyString _ Hne)). apply app_nil_r. }
      eapply (session_own w _ _ s i _ AtRelease); [done|exact Hi|done|done|exact Hrun| |done|simpl; by rewrite Hal].
      etransitivity; [|exact Hacc]. rewrite (app_assoc _ b). f_equal.
      etransitivity; [apply handed_of_log|]. simpl. by rewrite bool_decide_true.
  - done.
  - (* AtRelease *)
    destruct (running_entry w _ s i _ Ks Hi eq_refl) as (e&He&Hr). cbn [drain_step]. rewrite He.
    pose proof (account_at w _ s i _ Ks Hi eq_refl ltac:(done)) as Hacc. unfold pending_of in Hacc.
    rewrite He in Hacc.
    eapply (sessions_own w _ _ s i AtRelease Ended); [done|done|done|done| |].
    { intros s' Hne. simpl. by rewrite lookup_insert_ne. }
    eapply (session_own w _ _ s i AtRelease Ended); [done|done|done|done|by rewrite running_set| |..].
    + rewrite pending_set. exact Hacc.
    + intros Ha. by destruct (ok_alive w _ s Ks i Ha).
    + done.
Qed.

Lemma due_app en ops o s : due en (ops ++ [o]) s = due en ops s ++ due en [o] s.
Proof. apply omap_app. Qed.

Lemma session_more w w' l s c e :
  session_ok w l s → waker_alive w' = waker_alive w → handed_of w' s = handed_of w s →
  state w' !! s = Some e → pending e = pending_of w s ++ [c] → running e = true →
  (drains w' = drains w ∧ running_of w s = true ∨
   drains w' = drains w ++ [(s, AtLock)] ∧ running_of w s = false) →
  session_ok w' (l ++ [c]) s.
Proof.
  intros K Ha Hh He Hp Hr Hd.
  assert (Hr' : running_of w' s = true) by (unfold running_of; by rewrite He).
  assert (Hp' : pending_of w' s = pending_of w s ++ [c]) by (unfold pending_of at 1; by rewrite He).
  destruct Hd as [[Hd Hrun]|[Hd Hrun]].
  - split; rewrite ?Hd, ?Hh, ?Hp', ?Hr', ?Ha.
    + apply (ok_unique w l s K).
    + rewrite <-(ok_running w l s K). tauto.
    + intros i b Hi. destruct (ok_taken w l s K i b Hi) as [? <-]. by rewrite <-!app_assoc.
    + intros Hn. rewrite <-(ok_account w l s K Hn). by rewrite <-!app_assoc.
    + done.
    + apply (ok_alive w l s K).
  - assert (Hnone : ∀ i pc, drains w !! i = Some (s, pc) → live pc = false).
    { intros i pc Hi. destruct (live pc) eqn:Hl; [|done].
      assert (running_of w s = true) by (apply (ok_running w l s K); eauto). congruence. }
    assert (Hnew : ∀ i pc, drains w' !! i = Some (s, pc) → live pc = true → i = length (drains w) ∧ pc = AtLock).
    { intros i pc. rewrite Hd. intros [Hi|[Hi [? ?]%list_lookup_singleton_Some]]%lookup_app_Some Hl.
      - rewrite (Hnone _ _ Hi) in Hl. done.
      - simplify_eq. split; [lia|done]. }
    split; rewrite ?Hh, ?Hp', ?Hr', ?Ha.
    + intros i j pc pc' Hi Hj Hli Hlj. destruct (Hnew _ _ Hi Hli) as [-> _], (Hnew _ _ Hj Hlj) as [-> _]. done.
    + split; [|done]. intros _. exists (length (drains w)), AtLock. by rewrite Hd, list_lookup_middle.
    + intros i b Hi. by destruct (Hnew _ _ Hi eq_refl).
    + intros _. rewrite app_assoc. f_equal. apply (ok_account w l s K). intros i b Hi.
      by specialize (Hnone _ _ Hi).
    + done.
    + intros i _ Hi. by destruct (Hnew _ _ Hi eq_refl).
Qed.

Lemma on_completion_ok w d c :
  sessions_ok w d →
  sessions_ok (on_completion w c) (λ s, d s ++ due (enabled w) [Completion c] s).
Proof.
  intros K s. unfold on_completion, due, eligible. cbn [omap list_omap].
  destruct (enabled w); simpl; [|rewrite app_nil_r; apply K].
  destruct (c_notify_parent c); simpl; [|rewrite app_nil_r; apply K].
  case_bool_decide; simpl; [rewrite app_nil_r; apply K|].
  set (s0 := c_session_conversation_id c). set (e := default PerConversation_default (state w !! s0)).
  assert (Hp : pending e = pending_of w s0) by (subst e; unfold pending_of; by destruct (state w !! s0)).
  assert (Hr : running e = running_of w s0) by (subst e; unfold running_of; by destruct (state w !! s0)).
  case_bool_decide as Hs.
  - subst s. destruct (running e) eqn:Hrun.
    + eapply (session_more w); [apply K|done|done|simpl; apply lookup_insert_eq|simpl; by rewrite Hp|done|].
      left. by rewrite <-Hr.
    + eapply (session_more w); [apply K|done|done|simpl; apply lookup_insert_eq|simpl; by rewrite Hp|done|].
      right. by rewrite <-Hr.
  - rewrite app_nil_r. destruct (running e);
      (apply (session_frame w); [apply K|done|simpl; by rewrite lookup_insert_ne|done|]); intros i pc; [done|].
    simpl. rewrite lookup_app_Some. split; [|by left].
    intros [?|[_ [_ ?]%list_lookup_singleton_Some]]; [done|by simplify_eq].
Qed.

Lemma wake_step_ok w d o :
  sessions_ok w d → sessions_ok (wake_step w o) (λ s, d s ++ due (enabled w) [o] s).
Proof.
  intros K. destruct o as [c|i|i|]; cbn [wake_step]; [by apply on_completion_ok|..];
    (assert (E : ∀ w', sessions_ok w' d → sessions_ok w' (λ s, d s ++ due (enabled w) [] s))
      by (intros w' K' s; simpl; rewrite app_nil_r; apply K')); apply E.
  - destruct (drains w !! i) as [[s pc]|] eqn:Hi; [|done]. by apply drain_step_ok.
  - destruct (drains w !! i) as [[s []]|] eqn:Hi; try done.
    eapply (sessions_own w _ _ s i AtWake AtLock); [done|done|done|done|done|].
    eapply (session_own w _ _ s i AtWake AtLock); [apply K|done|done|done| | |done|done].
    + apply (ok_running w (d s) s (K s)). eauto.
    + by eapply (account_at w _ s i AtWake (K s)).
  - intros s. by apply (session_frame w).
Qed.

Lemma wake_step_enabled w o : enabled (wake_step w o) = enabled w.
Proof.
  destruct o as [c|i|i|]; cbn [wake_step].
  - unfold on_completion. repeat case_match; done.
  - destruct (drains w !! i) as [[s []]|]; cbn [drain_step]; repeat case_match; done.
  - destruct (drains w !! i) as [[s []]|]; done.
  - done.
Qed.

Lemma run_snoc en ops o : run en (ops ++ [o]) = wake_step (run en ops) o.
Proof. unfold run. by rewrite foldl_app. Qed.

Lemma run_ok en ops : enabled (run en ops) = en ∧ sessions_ok (run en ops) (due en ops).
Proof.
  induction ops as [|o ops [Ee K]] using rev_ind.
  - split; [done|]. intros s. split; simpl; try done. split; [done|].
    by intros (i&pc&Hi&_).
  - rewrite run_snoc. split; [by rewrite wake_step_enabled|].
    intros s. rewrite due_app. pose proof (wake_step_ok _ _ o K s) as H. by rewrite Ee in H.
Qed.

(** Every logged request is made from its batch, and a batch is lost only once
    the waker is gone. *)
Definition handed_ok (w : ParentWakeCoordinator) (h : Handed) : Prop :=
  match h with
  | Woken user s prompt batch =>
      ∃ c rest, batch = c :: rest ∧ user = c_user_id c ∧ prompt = build_wake_prompt batch
  | Lost _ _ => waker_alive w = false
  end.

Lemma handed_step w d o :
  sessions_ok w d → Forall (handed_ok w) (handed w) → Forall (handed_ok (wake_step w o)) (handed (wake_step w o)).
Proof.
  intros K HF. destruct o as [c|i|i|]; cbn [wake_step].
  - unfold on_completion. repeat case_match; done.
  - destruct (drains w !! i) as [[s pc]|] eqn:Hi; [|done].
    destruct pc as [|b| | |]; cbn [drain_step]; try done.
    + repeat case_match; done.
    + destruct (ok_taken w _ s (K s) i b Hi) as [Hb _]. destruct (waker_alive w) eqn:Ha; simpl.
      * apply Forall_app. split; [done|]. apply Forall_singleton. destruct b as [|c rest]; [done|]. simpl. eauto.
      * apply Forall_app. split; [done|]. apply Forall_singleton. simpl. done.
    + repeat case_match; done.
  - destruct (drains w !! i) as [[s []]|]; done.
  - simpl. eapply Forall_impl; [exact HF|]. intros [] ?; done.
Qed.

Lemma run_handed en ops : Forall (handed_ok (run en ops)) (handed (run en ops)).
Proof.
  induction ops as [|o ops IH] using rev_ind; [constructor|].
  rewrite run_snoc. eapply handed_step; [apply run_ok|done].
Qed.

(** C10: in every interleaving of finishing subagents, drain tasks and wake
    turns, and for every session conversation: the batches handed over, the one
    just taken and those still pending are together exactly the detached
    children of that session that finished, once each and in the order they
    finished (nothing at all when the switch is off); at most one wake turn of
    a session runs at a time; each turn is for the user of its batch with the
    prompt of that non-empty batch; and while the daemon lives no batch is lost
    and nothing is left behind once the session's drain has ended. *)
Theorem every_detached_child_wakes_its_parent_once en ops s :
  let w := run en ops in
  (∃ taken, handed_of w s ++ taken ++ pending_of w s = due en ops s ∧
     (taken ≠ [] → ∃ i, drains w !! i = Some (s, AtUpgrade taken))) ∧
  (∀ i j, drains w !! i = Some (s, AtWake) → drains w !! j = Some (s, AtWake) → i = j) ∧
  Forall (handed_ok w) (handed w) ∧
  (waker_alive w = true → (∀ i pc, drains w !! i = Some (s, pc) → pc = Ended) →
   handed_of w s = due en ops s).
Proof.
  intros w. pose proof (proj2 (run_ok en ops) s : session_ok w _ s) as K. split_and!.
  - assert (Hdec : (∃ i b, drains w !! i = Some (s, AtUpgrade b)) ∨
                   (∀ i b, drains w !! i ≠ Some (s, AtUpgrade b))).
    { destruct (decide (Exists (λ t, t.1 = s ∧ is_Some (match t.2 with AtUpgrade b => Some b | _ => None end))
        (drains w))) as [H|H].
      - left. apply Exists_exists in H as ([s' pc]&[i Hi]%list_elem_of_lookup&<-&[b Hb]). simpl in *.
        destruct pc; simplify_eq. eauto.
      - right. intros i b Hi. apply H, Exists_exists. exists (s, AtUpgrade b).
        split; [by eapply list_elem_of_lookup_2|simpl; eauto]. }
    destruct Hdec as [(i&b&Hi)|Hn].
    + exists b. split; [by apply (ok_taken w _ s K i)|eauto].
    + exists []. split; [by apply (ok_account w _ s K)|done].
  - intros i j Hi Hj. exact (ok_unique w _ s K _ _ _ _ Hi Hj eq_refl eq_refl).
  - apply run_handed.
  - intros Ha Hend. rewrite <-(ok_account w _ s K) by (intros i b Hi; by specialize (Hend _ _ Hi)).
    rewrite (ok_idle w _ s K Ha); [by rewrite app_nil_r|].
    apply not_true_iff_false. intros (i&pc&Hi&Hl)%(ok_running w _ s K). by rewrite (Hend _ _ Hi) in Hl.
Qed.

(** A batch may mix children of different parents (a subagent's own detached
    children report to the same session), and the smallest sibling count is then
    no longer the freshest: the prompt asks for the consolidated answer while
    children of another parent are running. *)
Definition a_child (parent name : string) (siblings : nat) : SubagentCompletion :=
  {| c_user_id := "ada"; c_parent_task_id := parent; c_child_conversation_id := name;
     c_session_conversation_id := "session"; c_child_task_id := name; c_child_name := name;
     c_owner_todo := name; c_status := Completed; c_siblings_remaining := siblings; c_notify_parent := true |}.

Lemma mixed_batch_claims_all_finished :
  let batch := [a_child "top" "a" 3; a_child "nested" "b" 0] in
  ∃ before, build_wake_prompt batch = before +:+ all_finished.
Proof.
  exists (String.substring 0 (String.length (build_wake_prompt [a_child "top" "a" 3; a_child "nested" "b" 0])
                              - String.length all_finished)
            (build_wake_prompt [a_child "top" "a" 3; a_child "nested" "b" 0])).
  vm_compute. reflexivity.
Qed.
