(* ===== verification/SubagentTools.v ===== *)
(** * Subagents

    Models [crates/application/src/subagent_tools.rs] (the tools [spawn_subagent]
    and [get_subagent_status]), the run they start ([spawn_agent_conversation] of
    [crates/application/src/lib.rs]) and the executor that puts them in front of
    the other tools ([crates/application/src/subagent_executor.rs]), over the
    registry of [BackgroundTasks].

    A blocking spawn is two halves, the child's run between them: the start, which
    answers a detached spawn, and the end, which reads the slot the run left its
    answer in.  The conversation service, the printing of JSON and of an error are
    parameters. *)

From S2P Require Import Prelude Json TaskStore Titles BackgroundTasks ToolProvenance.

#[local] Open Scope nat_scope.
#[local] Set Default Proof Using "Type".

Definition TOOL_SPAWN_SUBAGENT : string := "spawn_subagent".
Definition TOOL_GET_SUBAGENT_STATUS : string := "get_subagent_status".
Definition MAX_SUBAGENT_DEPTH : nat := 8.
Definition RESERVED_SUBAGENT_TAG : string := "__subagent__".

Definition supports_tool (name : string) : bool := String.eqb name TOOL_SPAWN_SUBAGENT || String.eqb name TOOL_GET_SUBAGENT_STATUS.

(** ** Arguments *)

Definition non_blank (s : string) : option string := let t := trim s in if String.eqb t EmptyString then None else Some t.

Definition optional_string (args : Value) (key : string) : option string := get_str key args ≫= non_blank.

Definition required_string (args : Value) (key : string) : result string CoreError :=
  match optional_string args key with
  | Some s => Ok s
  | None => Err (ToolExecution ("missing required string argument: " +:+ key))
  end.

Definition optional_string_array (args : Value) (key : string) : list string :=
  match Json.get key args ≫= as_array with Some items => omap (λ v, as_str v ≫= non_blank) items | None => [] end.

Record SendPromptOverride := { override_connection : string; override_model : string }.

Definition build_override (connection model : option string) : option SendPromptOverride :=
  match connection, model with
  | Some c, Some m => Some {| override_connection := c; override_model := m |}
  | _, _ => None
  end.

Definition blank_line : string := bytes [10; 10].

Definition effective_prompt (prompt : string) (system_prompt : option string) (name : string) : string :=
  default ("You are a helper subagent named '" +:+ name +:+ "'. Do the parent task's request in your own working context, then return a focused, self-contained answer to your task -- enough detail and the surrounding context for the parent to use it directly, but NOT your tool outputs, intermediate steps, or a re-run of your work (that working detail stays here and is cleaned up). Your returned answer IS the result the parent receives.")
    system_prompt +:+ blank_line +:+ prompt.

Record SpawnArguments := {
  arg_name : string;
  arg_prompt : string;
  arg_system_prompt : option string;
  arg_connection : option string;
  arg_model : option string;
  arg_tools : list string;
  arg_wait : bool
}.

Definition parse_spawn (args : Value) : result SpawnArguments CoreError :=
  match required_string args "name" with
  | Err e => Err e
  | Ok name =>
      match required_string args "prompt" with
      | Err e => Err e
      | Ok prompt =>
          Ok {| arg_name := name; arg_prompt := prompt; arg_system_prompt := optional_string args "system_prompt";
                arg_connection := optional_string args "connection"; arg_model := optional_string args "model";
                arg_tools := optional_string_array args "tools";
                arg_wait := default true (Json.get "wait" args ≫= as_bool) |}
      end
  end.

(** The pad a subagent shares. *)
Record SubagentScope := {
  session_conversation_id : string;
  scope_owner_todo : string;
  visible_before : string;
  ancestors : list string
}.

(** What a run is given. *)
Record AgentConversationSpec := {
  spec_name : string;
  spec_title : string;
  spec_prompt : string;
  spec_override : option SendPromptOverride;
  spec_tools : option (list string);
  spec_conversation : string;
  spec_scope : option SubagentScope;
  spec_pad : bool
}.

Record ScratchpadNote := { note_key : string; note_content : string; note_owner_todo : string }.

Section tools.
Context {Js Sender Receiver St Observer : Type}.
Context `{!Broadcast Sender Receiver (Event (Json := Js))} `{!BackgroundTaskStore (Json := Js) St} `{!SerdeJson}.
Context (from_value : Js → option TaskKind) (values : gmap string (TaskState (Json := Js)) → list (TaskState (Json := Js))).
(** [json_len] is how many bytes a string takes as JSON. *)
Context (log_data : Value → Js) (display : CoreError → string) (json_len : string → nat).

Notation Reg := (Inner (Json := Js) (Sender := Sender) (St := St) (Observer := Observer)).

(** ** Depth *)

Definition is_subagent (k : TaskKind) : bool := match k with Subagent _ _ _ _ _ => true | _ => false end.

(** The walk up the registered parents, [fuel] hops at most. *)
Fixpoint walk (fuel : nat) (s : Reg) (user : string) (current : option string) : nat :=
  match fuel with
  | O => 0
  | S f =>
      match current with
      | None => 0
      | Some i =>
          match BackgroundTasks.get s user i with
          | None => 0
          | Some v => (if is_subagent (kind v) then 1 else 0) + walk f s user (parent v)
          end
      end
  end.

Definition subagent_depth (s : Reg) (user task : string) : nat := walk (S MAX_SUBAGENT_DEPTH) s user (Some task).

(** ** Starting a subagent *)

(** Creating a conversation: the service's state, its title and tags. *)
Context {Conv : Type} (create_conversation : Conv → string → list string → Conv * result string CoreError).

Definition subagent_spec (a : SpawnArguments) (title conversation : string) (scope : option SubagentScope) (pad : bool) : AgentConversationSpec :=
  {| spec_name := arg_name a; spec_title := title; spec_prompt := effective_prompt (arg_prompt a) (arg_system_prompt a) (arg_name a);
     spec_override := build_override (arg_connection a) (arg_model a);
     spec_tools := match arg_tools a with [] => None | l => Some l end;
     spec_conversation := conversation; spec_scope := scope; spec_pad := pad |}.

Definition subagent_kind (a : SpawnArguments) (parent conversation : string) (scope : option SubagentScope) : TaskKind :=
  Subagent parent conversation (arg_name a) (match scope with Some sc => session_conversation_id sc | None => conversation end) (negb (arg_wait a)).

Definition spawn_meta (scope : option SubagentScope) : SpawnMeta :=
  match scope with
  | Some sc => {| meta_owner_todo := scope_owner_todo sc; meta_spawn_marker := Some (visible_before sc) |}
  | None => SpawnMeta_default
  end.

Definition ids_json (child conversation : string) : list (string * Value) :=
  [("child_conversation_id", Str conversation); ("child_task_id", Str child)].

Definition depth_refusal : string :=
  "spawn_subagent rejected: subagent recursion depth limit (" +:+ pretty MAX_SUBAGENT_DEPTH +:+ ") reached. This subagent is already nested too deeply to spawn another. Complete the work directly instead of delegating further.".

(** What the start of a spawn comes to: an answer, or a child to wait for. *)
Inductive Started := Answered (json : string) | Blocking (child conversation : string) (spec : AgentConversationSpec).

Record SpawnContext := {
  current_user : string;
  current_task : option string;
  pending_scope : option SubagentScope;
  has_pad : bool;
  child_id : string;
  started_now : Z
}.

Definition spawn_tool (x : SpawnContext) (args : Value) (c : Conv) (s : Reg) : Conv * Reg * result Started CoreError :=
  match parse_spawn args with
  | Err e => (c, s, Err e)
  | Ok a =>
      match current_task x with
      | None => (c, s, Err (ToolExecution "spawn_subagent must be called from inside a registered background task"))
      | Some parent_task =>
          if MAX_SUBAGENT_DEPTH <? subagent_depth s (current_user x) parent_task + 1
          then (c, s, Err (ToolExecution depth_refusal))
          else
            let title := bound_generated_title json_len ("Subagent: " +:+ arg_name a) in
            match create_conversation c title [RESERVED_SUBAGENT_TAG] with
            | (c, Err e) => (c, s, Err e)
            | (c, Ok conversation) =>
                let scope := pending_scope x in
                let spec := subagent_spec a title conversation scope (has_pad x) in
                let s := spawn_with_meta s (child_id x) (started_now x) (started_now x) (current_user x)
                           (subagent_kind a parent_task conversation scope) title (spawn_meta scope) in
                let s := append_log s (current_user x) parent_task (started_now x) Info ToolCall ("spawn_subagent: " +:+ arg_name a)
                           (Some (log_data (Object [("child_conversation_id", Str conversation); ("child_name", Str (arg_name a)); ("child_task_id", Str (child_id x)); ("tool", Str TOOL_SPAWN_SUBAGENT)]))) in
                (c, s, Ok (if arg_wait a then Blocking (child_id x) conversation spec
                           else Answered (to_string (Object (ids_json (child_id x) conversation)))))
            end
      end
  end.

(** ** The run *)

(** What the end of the child's turn leaves: the note on the session's pad, the
    slot the parent reads, and the outcome of the task.  [tainted] is that the
    child read outside content. *)
Definition agent_end (spec : AgentConversationSpec) (tainted : bool) (outcome : result string CoreError) :
    option (string * ScratchpadNote) * result string string * result unit string :=
  match outcome with
  | Ok response =>
      let body := if tainted then mark_external_content response else response in
      (match spec_pad spec, spec_scope spec with
       | true, Some sc => Some (session_conversation_id sc, {| note_key := "result"; note_content := body; note_owner_todo := scope_owner_todo sc |})
       | _, _ => None
       end, Ok response, Ok tt)
  | Err ErrCancelled => (None, Err "cancelled", Ok tt)
  | Err other => (None, Err (display other), Err (display other))
  end.

(** The end of a blocking spawn, over the slot. *)
Definition spawn_end (child conversation : string) (slot : option (result string string)) : result string CoreError :=
  match slot with
  | Some (Ok text) => Ok (to_string (Object (ids_json child conversation ++ [("result", Str text)])))
  | Some (Err reason) => Err (ToolExecution ("subagent failed: " +:+ reason))
  | None => Err (ToolExecution "subagent produced no result (this should not happen)")
  end.

(** The parent's cancellation while it waits. *)
Definition cancel_child (s : Reg) (user child : string) : Reg := (cancel s user child).1.

(** ** Status *)

Definition status_word (s : TaskStatus) : string :=
  match s with Pending => "pending" | Running => "running" | Completed => "completed" | Failed => "failed" | Cancelled => "cancelled" end.

(** [notes] is what the pad of the session in scope answers for the key
    [result], in the store's order; a failed read is nothing. *)
Definition load_result_note (notes : option (list ScratchpadNote)) (owner : string) : option string :=
  match notes with
  | None => None
  | Some l => note_content <$> List.find (λ n, String.eqb (note_owner_todo n) owner) (take 64 l)
  end.

Definition status_payload (task : string) (v : TaskView) (notes : option (list ScratchpadNote)) : Value :=
  Object
    ((match last_error v with Some e => [("error", Str e)] | None => [] end)
     ++ (if bool_decide (status v = Completed)
         then match load_result_note notes (owner_todo v) with Some r => [("result", Str r)] | None => [] end else [])
     ++ [("status", Str (status_word (status v))); ("task_id", Str task)]).

Definition status_tool (s : Reg) (user : string) (args : Value) (notes : option (list ScratchpadNote)) : result string CoreError :=
  match required_string args "task_id" with
  | Err e => Err e
  | Ok task =>
      match get_or_load from_value s user user task with
      | None => Ok (to_string (Object [("error", Str "not_found"); ("task_id", Str task)]))
      | Some v => Ok (to_string (status_payload task v notes))
      end
  end.

(** ** Nesting *)

(** A registered task has a parent only as a subagent. *)
Definition well_parented (s : Reg) : Prop := map_Forall (λ _ st, parent (view st) = parent_task_id_of (kind (view st))) (tasks s).

Definition shallow (s : Reg) : Prop := ∀ fuel user i, walk fuel s user (Some i) ≤ MAX_SUBAGENT_DEPTH.

(** What the tool's depth check lets through, of a step of the registry. *)
Definition within_depth (s : Reg) (o : op (Json := Js)) : Prop :=
  match o with
  | OSpawn _ _ _ u (Subagent p _ _ _ _) _ _ => subagent_depth s u p + 1 ≤ MAX_SUBAGENT_DEPTH
  | _ => True
  end.

(** What happens to the registry: a call of the tool, admitted or not, and any
    other operation.  Nothing but the tool registers a subagent. *)
Inductive nest_event := NTool (x : SpawnContext) (args : Value) | NOther (o : op (Json := Js)).

Definition nest_step (cs : Conv * Reg) (e : nest_event) : Conv * Reg :=
  match e with
  | NTool x args => (spawn_tool x args cs.1 cs.2).1
  | NOther o => (cs.1, run values cs.2 o)
  end.

(** Ids are fresh, and a tool call carries the task it is made in. *)
Definition nest_ok (s : Reg) (e : nest_event) : Prop :=
  match e with
  | NTool x _ =>
      fresh_id s (child_id x) ∧
      ∀ p, current_task x = Some p → p ≠ child_id x ∧ ∀ ps, tasks s !! p = Some ps → owner ps = current_user x
  | NOther o => op_ok s o ∧ match o with OSpawn _ _ _ _ k _ _ => is_subagent k = false | _ => True end
  end.

Fixpoint nests_ok (cs : Conv * Reg) (es : list nest_event) : Prop :=
  match es with [] => True | e :: es' => nest_ok cs.2 e ∧ nests_ok (nest_step cs e) es' end.

Lemma walk_None fuel s u : walk fuel s u None = 0.
Proof. by destruct fuel. Qed.

Lemma walk_S f s u i :
  walk (S f) s u (Some i) =
    match BackgroundTasks.get s u i with None => 0 | Some v => (if is_subagent (kind v) then 1 else 0) + walk f s u (parent v) end.
Proof. done. Qed.

Lemma get_Some (s : Reg) u i v : BackgroundTasks.get s u i = Some v ↔ ∃ st, tasks s !! i = Some st ∧ owner st = u ∧ view st = v.
Proof.
  unfold BackgroundTasks.get. destruct (tasks s !! i) as [st|]; cbn [mbind option_bind]; [|split; [done|by intros (? & ? & _)]].
  destruct (decide (owner st = u)) as [Ho|Ho].
  - rewrite bool_decide_eq_false_2 by (intros Hn; by apply Hn). split; [intros [= <-]; by exists st|]. by intros (? & [= <-] & _ & <-).
  - rewrite bool_decide_eq_true_2 by done. split; [done|]. by intros (? & [= <-] & ? & _).
Qed.

(** A walk that counted fewer subagents than it had hops has seen the root. *)
Lemma walk_stable s u n m cur : well_parented s → walk n s u cur < n → n ≤ m → walk m s u cur = walk n s u cur.
Proof.
  intros Hwp. revert m cur. induction n as [|n IH]; intros m cur Hlt Hm; [lia|]. destruct m as [|m]; [lia|].
  destruct cur as [i|]; [|by rewrite !walk_None]. rewrite !walk_S in *. destruct (BackgroundTasks.get s u i) as [v|] eqn:Hg; [|done].
  apply get_Some in Hg as (st & Hst & _ & <-). pose proof (Hwp i st Hst) as Hp. cbv beta in Hp.
  destruct (kind (view st)) eqn:Hk; cbn [is_subagent parent_task_id_of] in *; rewrite Hp in *; rewrite ?walk_None in *; [done| |done|done].
  rewrite (IH m); [done|lia|lia].
Qed.

(** A step adds at most its own task to a walk. *)
Lemma walk_run s o u fuel cur :
  op_ok s o → (∀ i n nl w k t m, o = OSpawn i n nl w k t m → cur ≠ Some i) → walk fuel (run values s o) u cur ≤ walk fuel s u cur.
Proof.
  intros Hok. revert cur. induction fuel as [|f IH]; intros cur Hcur; [done|]. destruct cur as [i|]; [|done]. rewrite !walk_S.
  destruct (BackgroundTasks.get (run values s o) u i) as [v'|] eqn:Hg; [|lia]. apply get_Some in Hg as (st' & Hst' & Ho & <-).
  destruct (run_evolve values s o i st' Hok Hst') as [(st & Hst & He)|(n & nl & w & k & t & m & -> & _ & _)]; [|by destruct (Hcur i n nl w k t m)].
  apply evolve_fixed in He as (Ho' & Hk & Hp & _). assert (Hg : BackgroundTasks.get s u i = Some (view st)) by (apply get_Some; exists st; split_and!; congruence).
  rewrite Hg, Hk, Hp. apply Nat.add_le_mono_l, IH. intros j n nl w k t m -> Heq. destruct Hok as ([_ Hfresh] & _). by apply (Hfresh i st Hst).
Qed.

Lemma well_parented_run s o : op_ok s o → well_parented s → well_parented (run values s o).
Proof.
  intros Hok Hwp i st' Hst'. destruct (run_evolve values s o i st' Hok Hst') as [(st & Hst & He)|(n & nl & w & k & t & m & -> & _ & ->)]; [|done].
  apply evolve_fixed in He as (_ & Hk & Hp & _). rewrite Hk, Hp. by apply (Hwp i).
Qed.

Lemma shallow_run s o : op_ok s o → well_parented s → shallow s → within_depth s o → shallow (run values s o).
Proof.
  intros Hok Hwp Hsh Htool fuel u i. destruct fuel as [|f]; [unfold MAX_SUBAGENT_DEPTH; cbn; lia|].
  assert (Hold : (∀ j n nl w k t m, o = OSpawn j n nl w k t m → i ≠ j) → walk (S f) (run values s o) u (Some i) ≤ MAX_SUBAGENT_DEPTH).
  { intros Hne. etransitivity; [apply walk_run; [done|]|apply Hsh]. intros j n nl w k t m -> [= ->]. by eapply Hne. }
  destruct o as [j n nl w k t m| | | | | | | |]; try (apply Hold; done). destruct (decide (i = j)) as [->|Hne]; [|apply Hold; congruence]. clear Hold.
  rewrite walk_S. destruct (BackgroundTasks.get _ u j) as [v'|] eqn:Hg; [|unfold MAX_SUBAGENT_DEPTH; lia]. apply get_Some in Hg as (st' & Hst' & Ho & <-).
  destruct (run_evolve values s _ j st' Hok Hst') as [(st & Hst & _)|(n' & nl' & w' & k' & t' & m' & [= <- <- <- <- <- <-] & _ & ->)].
  { destruct Hok as ([Hf _] & _). congruence. }
  cbn in Ho. subst w. change (parent (view _)) with (parent_task_id_of k). change (kind (view _)) with k.
  assert (Hp : walk f (run values s (OSpawn j n nl u k t m)) u (parent_task_id_of k) ≤ walk f s u (parent_task_id_of k)).
  { apply walk_run; [done|]. intros j' n' nl' w' k' t' m' [= -> -> -> -> -> -> ->]. destruct Hok as (_ & Hself & _). done. }
  destruct k as [c|p c nm se np|nm c|nm]; cbn [is_subagent parent_task_id_of] in *; rewrite ?walk_None in *; try (unfold MAX_SUBAGENT_DEPTH; lia).
  cbn [within_depth] in Htool. unfold subagent_depth in Htool. destruct (decide (f ≤ S MAX_SUBAGENT_DEPTH)) as [Hf|Hf].
  - assert (Hmono : ∀ a b cur, a ≤ b → walk a s u cur ≤ walk b s u cur).
    { clear. induction a as [|a IH]; intros b cur Hab; [cbn; lia|]. destruct b as [|b]; [lia|]. destruct cur as [q|]; [|by rewrite !walk_None].
      rewrite !walk_S. destruct (BackgroundTasks.get s u q); [|done]. apply Nat.add_le_mono_l, IH. lia. }
    specialize (Hmono f (S MAX_SUBAGENT_DEPTH) (Some p) Hf). lia.
  - rewrite (walk_stable s u (S MAX_SUBAGENT_DEPTH) f) in Hp by (done || lia). lia.
Qed.

(** A call of the tool is refused and changes nothing, or registers its child
    where the depth check lets it and logs the call. *)
Lemma spawn_tool_steps x args c s :
  (spawn_tool x args c s).1.2 = s ∨
  ∃ p conv nm se np title m entry,
    current_task x = Some p ∧
    let o := OSpawn (child_id x) (started_now x) (started_now x) (current_user x) (Subagent p conv nm se np) title m in
    within_depth s o ∧
    (spawn_tool x args c s).1.2 = run values (run values s o) (OAppendLog (current_user x) p (started_now x) Info ToolCall entry.1 entry.2).
Proof.
  unfold spawn_tool. destruct (parse_spawn args) as [a|e]; [|by left]. destruct (current_task x) as [p|]; [|by left].
  destruct (Nat.ltb_spec MAX_SUBAGENT_DEPTH (subagent_depth s (current_user x) p + 1)) as [Hd|Hd]; [by left|].
  destruct (create_conversation _ _ _) as [c1 [conv|e]]; [|by left]. right.
  eexists p, _, _, _, _, _, _, (_, _). split; [done|]. split; [exact Hd|]. reflexivity.
Qed.

Lemma shallow_nest cs e :
  nest_ok cs.2 e → well_parented cs.2 → shallow cs.2 → well_parented (nest_step cs e).2 ∧ shallow (nest_step cs e).2.
Proof.
  intros Hok Hwp Hsh. destruct e as [x args|o]; cbn [nest_step snd].
  - destruct Hok as [Hfresh Hpar].
    destruct (spawn_tool_steps x args cs.1 cs.2) as [->|(p & conv & nm & se & np & title & m & entry & Hp & Hd & ->)]; [done|].
    set (o := OSpawn _ _ _ _ _ _ _) in *. destruct (Hpar p Hp) as [Hne Howner].
    assert (Ho : op_ok cs.2 o).
    { split; [done|]. split; [cbn; congruence|]. intros q ps [= <-]. apply Howner. }
    assert (Hwp1 : well_parented (run values cs.2 o)) by by apply well_parented_run.
    split; [by apply well_parented_run|]. apply shallow_run; [done|done|by apply shallow_run|done].
  - destruct Hok as [Ho Hk]. split; [by apply well_parented_run|]. apply shallow_run; [done..|].
    destruct o as [? ? ? ? [] ? ?| | | | | | | |]; done.
Qed.

(** C17. Start from an empty registry and let any users call the tool, with any
    arguments and however often it refuses them, and spawn, cancel, log and end
    tasks in any order.  At every moment, over every task of the registry, the
    chain of registered tasks above it holds at most [MAX_SUBAGENT_DEPTH]
    subagents, itself included: the check in the tool is enough.  What is bounded
    is the chain that is registered; an ended parent has left it and is not
    counted ([an_ended_parent_is_not_counted]). *)
Theorem live_nesting_is_bounded c s es
    (Hempty : tasks s = ∅) (Hok : nests_ok (c, s) es) fuel user i :
  walk fuel (foldl nest_step (c, s) es).2 user (Some i) ≤ MAX_SUBAGENT_DEPTH.
Proof.
  assert (Hwp : well_parented s) by (unfold well_parented; rewrite Hempty; apply map_Forall_empty).
  assert (Hsh : shallow s).
  { intros f u j. destruct f as [|f]; [unfold MAX_SUBAGENT_DEPTH; cbn; lia|]. rewrite walk_S. unfold BackgroundTasks.get. rewrite Hempty, lookup_empty. cbn. lia. }
  assert (Hgen : ∀ cs, nests_ok cs es → well_parented cs.2 → shallow cs.2 → shallow (foldl nest_step cs es).2).
  { clear. induction es as [|e es IH]; intros cs Hok Hwp Hsh; [done|]. destruct Hok as [He Hok].
    destruct (shallow_nest cs e He Hwp Hsh). by apply IH. }
  by apply (Hgen (c, s)).
Qed.

(** ** A refusal *)

(** A spawn that is refused, for its arguments, for being asked outside a task
    or for its depth, leaves the registry and the conversations as they were; one
    that is admitted registers exactly one task, a subagent of the caller's task,
    owned by the caller, that says whether its parent is to be woken. *)
Theorem a_spawn_is_whole_or_nothing x args c s c' s' r (Hrun : spawn_tool x args c s = (c', s', r)) :
  match r with
  | Err e =>
      s' = s ∧ (c' = c ∨ ∃ title, create_conversation c title [RESERVED_SUBAGENT_TAG] = (c', Err e))
  | Ok started =>
      ∃ a parent_task conversation title, parse_spawn args = Ok a ∧ current_task x = Some parent_task ∧
        create_conversation c title [RESERVED_SUBAGENT_TAG] = (c', Ok conversation) ∧
        within_depth s (OSpawn (child_id x) (started_now x) (started_now x) (current_user x)
          (subagent_kind a parent_task conversation (pending_scope x)) title (spawn_meta (pending_scope x))) ∧
        s' = append_log (spawn_with_meta s (child_id x) (started_now x) (started_now x) (current_user x)
               (subagent_kind a parent_task conversation (pending_scope x)) title (spawn_meta (pending_scope x)))
             (current_user x) parent_task (started_now x) Info ToolCall ("spawn_subagent: " +:+ arg_name a)
             (Some (log_data (Object [("child_conversation_id", Str conversation); ("child_name", Str (arg_name a)); ("child_task_id", Str (child_id x)); ("tool", Str TOOL_SPAWN_SUBAGENT)]))) ∧
        match started with Answered _ => arg_wait a = false | Blocking child conv _ => arg_wait a = true ∧ child = child_id x ∧ conv = conversation end
  end.
Proof.
  unfold spawn_tool in Hrun. destruct (parse_spawn args) as [a|e]; [|injection Hrun as <- <- <-; by split; [|left]].
  destruct (current_task x) as [p|]; [|injection Hrun as <- <- <-; by split; [|left]].
  destruct (Nat.ltb_spec MAX_SUBAGENT_DEPTH (subagent_depth s (current_user x) p + 1)) as [Hd|Hd]; [injection Hrun as <- <- <-; by split; [|left]|].
  destruct (create_conversation c (bound_generated_title json_len ("Subagent: " +:+ arg_name a)) [RESERVED_SUBAGENT_TAG]) as [c1 [conv|e]] eqn:Hc;
    [|injection Hrun as <- <- <-; split; [done|right; by eexists]].
  injection Hrun as <- <- <-. exists a, p, conv, (bound_generated_title json_len ("Subagent: " +:+ arg_name a)). split_and!; try done.
  by destruct (arg_wait a).
Qed.

(** ** What a parent reads of its child *)

Section read_back.
(** Reading back what was printed, as serde_json documents. *)
Context (from_str_to_string : ∀ v, from_str (to_string v) = Some v).

(** Whatever a child answers, the payload that hands its answer
    to the parent counts as outside content: the answer of a blocking spawn, and a
    status that carries a result; the handle of a detached spawn and a status
    without a result do not. *)
Theorem a_childs_answer_taints_its_reader :
  (∀ child conv text out, spawn_end child conv (Some (Ok text)) = Ok out → result_is_externally_controlled TOOL_SPAWN_SUBAGENT out = true) ∧
  (∀ child conv, result_is_externally_controlled TOOL_SPAWN_SUBAGENT (to_string (Object (ids_json child conv))) = false) ∧
  (∀ task v notes, result_is_externally_controlled TOOL_GET_SUBAGENT_STATUS (to_string (status_payload task v notes)) =
     bool_decide (status v = Completed ∧ is_Some (load_result_note notes (owner_todo v)))).
Proof using Type from_str_to_string.
  assert (Hcl : ∀ n out, supports_tool n = true → result_is_externally_controlled n out = subagent_payload_carries_an_answer out).
  { intros n out. unfold supports_tool. intros [->%String.eqb_eq| ->%String.eqb_eq]%orb_true_iff; reflexivity. }
  split_and!.
  - intros child conv text out [= <-]. rewrite Hcl by done. unfold subagent_payload_carries_an_answer. by rewrite from_str_to_string.
  - intros child conv. rewrite Hcl by done. unfold subagent_payload_carries_an_answer. by rewrite from_str_to_string.
  - intros task v notes. rewrite Hcl by done. unfold subagent_payload_carries_an_answer. rewrite from_str_to_string. unfold status_payload.
    destruct (decide (status v = Completed)) as [Hs|Hs].
    + rewrite (bool_decide_eq_true_2 (status v = Completed)) by done. destruct (load_result_note notes (owner_todo v)) as [r|].
      * rewrite (bool_decide_eq_true_2 (_ ∧ _)) by (split; [done|by eexists]). by destruct (last_error v).
      * rewrite (bool_decide_eq_false_2 (_ ∧ _)) by (intros [_ [? ?]]; done). by destruct (last_error v).
    + rewrite (bool_decide_eq_false_2 (status v = Completed)) by done. rewrite (bool_decide_eq_false_2 (_ ∧ _)) by (by intros [? _]). by destruct (last_error v).
Qed.
End read_back.

(** A detached child's answer is collected from the pad by its
    task: the status of the completed child carries its final text, marked where
    the child read outside content, as long as its note is among the first
    sixty-four of the session and the first of its owner. *)
Theorem a_detached_answer_is_collected spec tainted response session note before after s user task st
    (Hend : (agent_end spec tainted (Ok response)).1.1 = Some (session, note))
    (Htask : tasks s !! task = Some st) (Howner : owner st = user) (Hdone : status (view st) = Completed) (Herr : last_error (view st) = None)
    (Hown : owner_todo (view st) = note_owner_todo note)
    (Hfirst : Forall (λ n, note_owner_todo n ≠ note_owner_todo note) before) (Hroom : length before < 64) args (Hargs : required_string args "task_id" = Ok task) :
  status_tool s user args (Some (before ++ note :: after))
  = Ok (to_string (Object [("result", Str (if tainted then mark_external_content response else response)); ("status", Str "completed"); ("task_id", Str task)])).
Proof.
  unfold status_tool. rewrite Hargs. unfold get_or_load. assert (Hg : BackgroundTasks.get s user task = Some (view st)) by (apply get_Some; by exists st).
  rewrite Hg. unfold status_payload. rewrite Herr, Hdone, Hown. cbn [app]. rewrite bool_decide_eq_true_2 by done.
  assert (Hn : load_result_note (Some (before ++ note :: after)) (note_owner_todo note) = Some (note_content note)).
  { unfold load_result_note. rewrite take_app_ge by lia. destruct (64 - length before) as [|k] eqn:Hk; [lia|]. cbn [take].
    clear Hroom Hk. induction before as [|b before IH]; cbn [app List.find].
    - by rewrite String.eqb_refl.
    - apply Forall_cons in Hfirst as [Hb Hfirst]. apply String.eqb_neq in Hb. rewrite Hb. by apply IH. }
  rewrite Hn. unfold agent_end in Hend. destruct (spec_pad spec), (spec_scope spec) as [sc|]; try done. cbn [fst] in Hend. by injection Hend as <- <-.
Qed.

(** ** Where the code falls short *)

(** A task's depth is counted over its registered ancestors only, and a task is
    registered no longer than it runs: under a detached subagent whose parent has
    ended, a spawn is always admitted. *)
Lemma an_ended_parent_is_not_counted s user i st :
  tasks s !! i = Some st → (∀ p, parent (view st) = Some p → tasks s !! p = None) → subagent_depth s user i + 1 ≤ 2.
Proof.
  intros Hst Hp. unfold subagent_depth, MAX_SUBAGENT_DEPTH. rewrite walk_S. destruct (BackgroundTasks.get s user i) as [v|] eqn:Hg; [|lia].
  apply get_Some in Hg as (st' & Hst' & _ & <-). assert (st' = st) as -> by congruence. destruct (parent (view st)) as [p|] eqn:Hpar; [|rewrite walk_None; destruct (is_subagent _); lia].
  rewrite walk_S. unfold BackgroundTasks.get. rewrite (Hp p eq_refl). cbn [mbind option_bind]. destruct (is_subagent _); lia.
Qed.

(** Cancelling a task cancels no other, a detached child included. *)
Lemma a_detached_child_outlives_a_cancelled_parent (s : Reg) user p child :
  child ≠ p → tasks (cancel s user p).1 !! child = tasks s !! child.
Proof.
  intros Hne. unfold cancel. destruct (tasks s !! p) as [st|]; [|done]. case_bool_decide; [done|]. destruct (terminal_status _); [done|].
  cbn [fst set_tasks tasks]. by rewrite lookup_insert_ne.
Qed.

(** A model without a connection is not an override. *)
Lemma a_model_alone_is_ignored a title conv scope pad : arg_connection a = None → spec_override (subagent_spec a title conv scope pad) = None.
Proof. intros Hc. cbn. unfold build_override. by rewrite Hc. Qed.

(** An allowlist that names no tool is no allowlist. *)
Lemma an_empty_allowlist_allows_everything args a title conv scope pad :
  Json.get "tools" args = Some (Array []) → parse_spawn args = Ok a → spec_tools (subagent_spec a title conv scope pad) = None.
Proof.
  intros Ht. unfold parse_spawn. destruct (required_string args "name"); [|done]. destruct (required_string args "prompt"); [|done]. intros [= <-].
  cbn [subagent_spec spec_tools arg_tools]. unfold optional_string_array. by rewrite Ht.
Qed.
End tools.

(** ** In front of the other tools *)

(** The conversation service the executor is wired to after it was built. *)
Inductive ConversationSlot := NotWired | ServiceDropped | Wired.

Definition resolve_subagent_tools (slot : ConversationSlot) : result unit CoreError :=
  match slot with
  | NotWired => Err (ToolExecution "subagent tools are not available yet (conversation service not wired)")
  | ServiceDropped => Err (ToolExecution "subagent tools are unavailable (conversation service shut down)")
  | Wired => Ok tt
  end.

Section executor.
Context {A : Type} (spawn status : Value → A * result string CoreError) (inner : string → Value → A * result string CoreError) (idle : A).

Definition subagent_execute_tool (name : string) (args : Value) : A * result string CoreError :=
  if String.eqb name TOOL_SPAWN_SUBAGENT then spawn args
  else if String.eqb name TOOL_GET_SUBAGENT_STATUS then status args
  else (idle, Err (ToolExecution ("unknown subagent tool: " +:+ name))).

Definition aware_execute_tool (slot : ConversationSlot) (name : string) (args : Value) : A * result string CoreError :=
  if supports_tool name
  then match resolve_subagent_tools slot with Err e => (idle, Err e) | Ok _ => subagent_execute_tool name args end
  else inner name args.

(** The two tools run once they are wired, and never reach the tools behind. *)
Lemma the_executor_owns_its_tools slot name args :
  aware_execute_tool slot name args =
    match resolve_subagent_tools slot with
    | Ok _ => if String.eqb name TOOL_SPAWN_SUBAGENT then spawn args else if String.eqb name TOOL_GET_SUBAGENT_STATUS then status args else inner name args
    | Err e => if supports_tool name then (idle, Err e) else inner name args
    end.
Proof.
  unfold aware_execute_tool, subagent_execute_tool, supports_tool. destruct (resolve_subagent_tools slot); [|done].
  destruct (String.eqb name TOOL_SPAWN_SUBAGENT); [done|]. by destruct (String.eqb name TOOL_GET_SUBAGENT_STATUS).
Qed.
End executor.

(** ** A concrete subagent *)

(** A printer of JSON values as bits, with its parser. *)
Fixpoint value_tree (v : Value) : gen_tree string :=
  match v with
  | Null => GenNode 0 []
  | Bool b => GenNode (if b then 1 else 2) []
  | Number n => GenNode 3 [GenLeaf n]
  | Str s => GenNode 4 [GenLeaf s]
  | Array l => GenNode 5 (map value_tree l)
  | Object m => GenNode 6 (map (λ kv, GenNode 7 [GenLeaf kv.1; value_tree kv.2]) m)
  end.

Fixpoint tree_value (t : gen_tree string) : Value :=
  match t with
  | GenNode 1 _ => Bool true
  | GenNode 2 _ => Bool false
  | GenNode 3 [GenLeaf n] => Number n
  | GenNode 4 [GenLeaf s] => Str s
  | GenNode 5 l => Array (map tree_value l)
  | GenNode 6 l => Object (map (λ t, match t with GenNode _ [GenLeaf k; x] => (k, tree_value x) | _ => (EmptyString, Null) end) l)
  | _ => Null
  end.

Lemma tree_round_trip v : tree_value (value_tree v) = v.
Proof.
  induction v as [|b| | |items IH|members IH] using Value_nested_ind; cbn [value_tree tree_value]; [done|by destruct b|done|done|..]; f_equal.
  - induction IH as [|x l Hx _ IHl]; [done|]. cbn [map]. by rewrite Hx, IHl.
  - induction IH as [|[k x] l Hx _ IHl]; [done|]. cbn [map fst snd] in *. by rewrite Hx, IHl.
Qed.

Fixpoint bits (p : positive) : string :=
  match p with xH => EmptyString | xO q => String (Ascii.ascii_of_nat 48) (bits q) | xI q => String (Ascii.ascii_of_nat 49) (bits q) end.
Fixpoint unbits (s : string) : positive :=
  match s with EmptyString => xH | String a s' => if Ascii.eqb a (Ascii.ascii_of_nat 48) then xO (unbits s') else xI (unbits s') end.

Lemma bits_round_trip p : unbits (bits p) = p.
Proof. induction p as [p IH|p IH|]; cbn [bits unbits]; [by rewrite IH|by rewrite IH|done]. Qed.

#[local] Instance bit_json : SerdeJson := {| from_str := λ s, tree_value <$> decode (unbits s); to_string := λ v, bits (encode (value_tree v)) |}.

Lemma bit_json_round_trip v : from_str (to_string v) = Some v.
Proof. cbn [from_str to_string bit_json]. rewrite bits_round_trip, decode_encode. cbn. by rewrite tree_round_trip. Qed.

Lemma a_childs_answer_taints_its_reader_witness :
  result_is_externally_controlled TOOL_SPAWN_SUBAGENT (to_string (Object (ids_json "t2" "c2" ++ [("result", Str "done")]))) = true.
Proof. by apply (a_childs_answer_taints_its_reader bit_json_round_trip) with "t2" "c2" "done". Defined.

Module Examples.
Import TaskStore.Sqlite BackgroundTasks.Concrete.

Definition some_args (wait : bool) : Value := Object [("name", Str "helper"); ("prompt", Str "look"); ("wait", Bool wait)].
Definition some_context : SpawnContext :=
  {| current_user := "alice"; current_task := Some "a"; pending_scope := None; has_pad := false; child_id := "kid"; started_now := 12 |}.
Definition make (c : nat) (title : string) (tags : list string) : nat * result string CoreError := (S c, Ok "cc").

(** A root task, nine calls of the tool each from the last child, and the ninth
    is refused. *)
Definition nested (k : nat) : nest_event (Js := TaskKind) :=
  NTool {| current_user := "alice"; current_task := Some (if k =? 0 then "a" else "k" +:+ pretty k); pending_scope := None; has_pad := false;
           child_id := "k" +:+ pretty (S k); started_now := 12 |} (some_args false).

Lemma tool_ok_concrete (s : Reg) x args :
  bool_decide (tasks s !! child_id x = None) &&
  bool_decide (map_Forall (λ _ st, parent (view st) ≠ Some (child_id x)) (tasks s)) &&
  match current_task x with
  | Some p => bool_decide (p ≠ child_id x) && match tasks s !! p with Some ps => bool_decide (owner ps = current_user x) | None => true end
  | None => true
  end = true → nest_ok s (NTool x args).
Proof.
  rewrite !andb_true_iff, !bool_decide_eq_true. intros [[Hi Hf] Hp]. split; [by split|]. intros p Hcur. rewrite Hcur in Hp.
  apply andb_true_iff in Hp as [Hne%bool_decide_eq_true Ho]. split; [done|]. intros ps Hps. rewrite Hps in Ho. by apply bool_decide_eq_true in Ho.
Qed.

Definition chain : list (nest_event (Js := TaskKind)) := NOther spawn_a :: map nested (List.seq 0 9).

Definition after_chain := foldl (nest_step values (λ _, Conversation "c") String.length make) (0, fresh) chain.

Lemma live_nesting_is_bounded_witness :
  tasks after_chain.2 !! "k9" = None ∧ walk 20 after_chain.2 "alice" (Some "k8") = 8 ∧
  walk 20 after_chain.2 "alice" (Some "k8") ≤ MAX_SUBAGENT_DEPTH.
Proof.
  assert (Hok : nests_ok values (λ _, Conversation "c") String.length make (0, fresh) chain).
  { split; [split; [apply ok_a|reflexivity]|]. cbn [map List.seq].
    repeat (split; [apply tool_ok_concrete; vm_compute; reflexivity|]). exact I. }
  split; [vm_compute; reflexivity|]. split; [vm_compute; reflexivity|]. unfold after_chain.
  exact (live_nesting_is_bounded values (λ _, Conversation "c") String.length make 0 fresh chain eq_refl Hok 20 "alice" "k8").
Defined.

Lemma a_spawn_is_whole_or_nothing_witness :
  ∃ s', spawn_tool (λ _, Conversation "c") String.length make some_context (some_args false) 0 with_a = (1, s', Ok (Answered (to_string (Object (ids_json "kid" "cc"))))) ∧
    ∃ a, parse_spawn (some_args false) = Ok a ∧ arg_wait a = false.
Proof.
  destruct (spawn_tool (λ _, Conversation "c") String.length make some_context (some_args false) 0 with_a) as [[c s'] r] eqn:Hrun.
  pose proof (a_spawn_is_whole_or_nothing (λ _, Conversation "c") String.length make some_context (some_args false) 0 with_a c s' r Hrun) as Hw.
  assert (Hc : c = 1 ∧ r = Ok (Answered (to_string (Object (ids_json "kid" "cc"))))).
  { apply (f_equal (λ x, (x.1.1, x.2))) in Hrun. unfold spawn_tool in Hrun. vm_compute parse_spawn in Hrun.
    cbn [fst snd] in Hrun. split; [by injection Hrun|by injection Hrun]. }
  destruct Hc as [-> ->]. exists s'. split; [reflexivity|]. destruct Hw as (a & p & conv & title & Ha & _ & _ & _ & _ & Hwait). by exists a.
Defined.

Definition kid_done : TaskState (Json := TaskKind) :=
  {| owner := "alice"; view := {| id := "kid"; kind := Subagent "a" "cc" "helper" "c" true; status := Completed; started_at := 1; ended_at := Some 2%Z; last_error := None;
       parent := Some "a"; children := []; title := "t"; progress_hint := None; owner_todo := "1.1"; spawn_marker := None |};
     token := false; logs_of := []; next_seq := 1; completed := true |}.

Definition detached_spec : AgentConversationSpec :=
  {| spec_name := "helper"; spec_title := "t"; spec_prompt := "p"; spec_override := None; spec_tools := None; spec_conversation := "cc";
     spec_scope := Some {| session_conversation_id := "c"; scope_owner_todo := "1.1"; visible_before := "m"; ancestors := [] |}; spec_pad := true |}.

Lemma a_detached_answer_is_collected_witness :
  status_tool Some (set_tasks fresh (<["kid" := kid_done]> ∅)) "alice" (Object [("task_id", Str "kid")])
    (Some ([{| note_key := "result"; note_content := "other"; note_owner_todo := "1.2" |}]
           ++ {| note_key := "result"; note_content := mark_external_content "found"; note_owner_todo := "1.1" |} :: []))
  = Ok (to_string (Object [("result", Str (mark_external_content "found")); ("status", Str "completed"); ("task_id", Str "kid")])).
Proof.
  apply (a_detached_answer_is_collected Some (λ _, EmptyString) detached_spec true "found" "c"
    {| note_key := "result"; note_content := mark_external_content "found"; note_owner_todo := "1.1" |} [{| note_key := "result"; note_content := "other"; note_owner_todo := "1.2" |}] []
    (set_tasks fresh (<["kid" := kid_done]> ∅)) "alice" "kid" kid_done); try reflexivity.
  - apply Forall_cons. split; [discriminate|]. apply Forall_nil. exact I.
  - cbn. lia.
Defined.
End Examples.
