(* ===== verification/ConversationSubs.v ===== *)
(** * Live fan-out to the connections viewing a conversation

    Models [crates/application/src/conversation_subs.rs]: which connections
    view which conversations, who owns them, and the sink that fans a turn's
    events to the other viewers.

    A connection's outbound sink is a handle; what was emitted to which handle
    is logged in order.  The registry's hash maps are iterated in an order the
    standard library leaves open; [map_to_list]'s order stands for it and the
    theorems do not depend on it. *)

From S2P Require Import Prelude.

#[local] Open Scope nat_scope.

(** ** Turn events (api-model [Event])

    The variants of a turn's stream; every other variant is [OtherEvent]. *)

Section events.
Context {Other : Type}.

Inductive TurnEvent :=
| AssistantStatus (conversation_id request_id message : string) (capability_change : option Other)
| ContextUsage (conversation_id request_id : string) (used_tokens budget_tokens : Z) (compaction_active : bool)
| UserMessageAdded (conversation_id request_id content : string) (idempotency_key : option string)
| AssistantDelta (conversation_id request_id chunk : string)
| AssistantCompleted (conversation_id request_id full_response : string)
| AssistantError (conversation_id request_id error : string)
| OtherEvent (e : Other).

Definition turn_event_conversation_id (e : TurnEvent) : option string :=
  match e with
  | UserMessageAdded c _ _ _ | AssistantDelta c _ _ | AssistantCompleted c _ _
  | AssistantError c _ _ | AssistantStatus c _ _ _ => Some c
  | ContextUsage _ _ _ _ _ | OtherEvent _ => None
  end.

(** ** The registry *)

(** Handles of sinks and observers. *)
Notation Sink := nat (only parsing).
Notation Observer := nat (only parsing).

Record Inner := {
  sinks : gmap string Sink;
  subscribed : gmap string (gset string);
  users : gmap string string;
  observer : option Observer;
  notified : list (Observer * string * list string)
}.

Definition Inner_default : Inner :=
  {| sinks := ∅; subscribed := ∅; users := ∅; observer := None; notified := [] |}.

Definition register (i : Inner) (session user : string) (sink : Sink) : Inner :=
  {| sinks := <[session := sink]> (sinks i); subscribed := subscribed i;
     users := <[session := user]> (users i); observer := observer i; notified := notified i |}.

Definition set_change_observer (i : Inner) (o : Observer) : Inner :=
  {| sinks := sinks i; subscribed := subscribed i; users := users i; observer := Some o;
     notified := notified i |}.

Definition notify (i : Inner) (session : string) (l : list string) : list (Observer * string * list string) :=
  match observer i with Some o => notified i ++ [(o, session, l)] | None => notified i end.

Definition unregister (i : Inner) (session : string) : Inner :=
  {| sinks := delete session (sinks i); subscribed := delete session (subscribed i);
     users := delete session (users i); observer := observer i; notified := notify i session [] |}.

Definition set_subscriptions (i : Inner) (session : string) (conversation_ids : list string) : Inner :=
  {| sinks := sinks i; subscribed := <[session := list_to_set conversation_ids]> (subscribed i);
     users := users i; observer := observer i; notified := notify i session conversation_ids |}.

Definition is_viewer (i : Inner) (conversation_id origin_session origin_user : string)
    (kv : string * gset string) : bool :=
  negb (bool_decide (kv.1 = origin_session)) && bool_decide (conversation_id ∈ kv.2)
  && bool_decide (users i !! kv.1 = Some origin_user).

Definition subscribers_except (i : Inner) (conversation_id origin_session origin_user : string) : list Sink :=
  omap (λ kv, sinks i !! kv.1)
    (filter (λ kv, is_viewer i conversation_id origin_session origin_user kv = true)
       (map_to_list (subscribed i))).

Definition sinks_for_user (i : Inner) (user : string) : list Sink :=
  omap (λ kv, sinks i !! kv.1) (filter (λ kv, kv.2 = user) (map_to_list (users i))).

(** [route] and [broadcast_to_user]: the emissions, in order.  Their results
    are ignored. *)
Definition route (i : Inner) (conversation_id : string) (event : TurnEvent)
    (origin_session origin_user : string) : list (Sink * TurnEvent) :=
  (λ k, (k, event)) <$> subscribers_except i conversation_id origin_session origin_user.

Definition broadcast_to_user (i : Inner) (event : TurnEvent) (user : string) : list (Sink * TurnEvent) :=
  (λ k, (k, event)) <$> sinks_for_user i user.

(** ** The fan-out sink *)

Record FanOutSink := { inner : Sink; origin_session : string; origin_user : string }.

Definition fanout_emit (i : Inner) (f : FanOutSink) (event : TurnEvent) : list (Sink * TurnEvent) :=
  match turn_event_conversation_id event with
  | Some c => route i c event (origin_session f) (origin_user f)
  | None => []
  end ++ [(inner f, event)].

(** ** Histories *)

Inductive SubsOp :=
| Connect (session user : string) (sink : Sink)
| Disconnect (session : string)
| Subscribe (session : string) (conversations : list string)
| Observe (o : Observer).

Definition subs_step (i : Inner) (o : SubsOp) : Inner :=
  match o with
  | Connect s u k => register i s u k
  | Disconnect s => unregister i s
  | Subscribe s l => set_subscriptions i s l
  | Observe ob => set_change_observer i ob
  end.

Definition subs_run (ops : list SubsOp) : Inner := foldl subs_step Inner_default ops.

(** What a history says of a session: its connection, by the last connect or
    disconnect, and its view, by the last subscribe or disconnect. *)
Definition connection (ops : list SubsOp) (s : string) : option (string * Sink) :=
  foldl (λ acc o, match o with
                  | Connect s' u k => if bool_decide (s' = s) then Some (u, k) else acc
                  | Disconnect s' => if bool_decide (s' = s) then None else acc
                  | _ => acc
                  end) None ops.

Definition views (ops : list SubsOp) (s c : string) : bool :=
  foldl (λ acc o, match o with
                  | Subscribe s' l => if bool_decide (s' = s) then bool_decide (c ∈ l) else acc
                  | Disconnect s' => if bool_decide (s' = s) then false else acc
                  | _ => acc
                  end) false ops.

Lemma subs_refines ops s :
  sinks (subs_run ops) !! s = snd <$> connection ops s ∧
  users (subs_run ops) !! s = fst <$> connection ops s ∧
  ∀ c, match subscribed (subs_run ops) !! s with Some v => bool_decide (c ∈ v) | None => false end = views ops s c.
Proof.
  induction ops as [|o ops (IHs&IHu&IHv)] using rev_ind; [done|].
  unfold subs_run, connection, views in *. rewrite !foldl_app. setoid_rewrite foldl_app. cbn [foldl].
  destruct o as [s' u k|s'|s' l|ob]; simpl; [..|done].
  - case_bool_decide as E; subst.
    + by rewrite !lookup_insert_eq.
    + by rewrite !lookup_insert_ne.
  - case_bool_decide as E; subst.
    + by rewrite !lookup_delete_eq.
    + by rewrite !lookup_delete_ne.
  - case_bool_decide as E; subst.
    + rewrite lookup_insert_eq. split_and!; [done|done|]. intros c. apply bool_decide_ext. set_solver.
    + by rewrite lookup_insert_ne.
Qed.

(** The sinks of a list of sessions taken from a map, keyed by session. *)
Lemma omap_sinks (i : Inner) {A} (m : gmap string A) (P : string * A → Prop) `{∀ kv, Decision (P kv)} :
  ∃ ss, NoDup ss ∧ (∀ s, s ∈ ss ↔ ∃ a k, m !! s = Some a ∧ P (s, a) ∧ sinks i !! s = Some k) ∧
    omap (λ kv, sinks i !! kv.1) (filter P (map_to_list m)) = omap (λ s, sinks i !! s) ss.
Proof.
  exists (filter (λ s, is_Some (sinks i !! s)) (filter P (map_to_list m)).*1). split_and!.
  - apply NoDup_filter. eapply sublist_NoDup; [exact (NoDup_fst_map_to_list m)|].
    apply fmap_sublist, sublist_filter.
  - intros s. rewrite list_elem_of_filter, list_elem_of_fmap. split.
    + intros [[k Hk] ([s' a]&->&[HP Hin%elem_of_map_to_list]%list_elem_of_filter)]. eauto.
    + intros (a&k&Ha&HP&Hk). split; [eauto|]. exists (s, a). split; [done|].
      rewrite list_elem_of_filter. split; [done|]. by apply elem_of_map_to_list.
  - induction (filter P (map_to_list m)) as [|[s a] l IH]; [done|]. simpl.
    destruct (sinks i !! s) as [k|] eqn:E.
    + rewrite filter_cons_True by (rewrite E; eauto). simpl. rewrite E. f_equal. exact IH.
    + rewrite filter_cons_False by (rewrite E; by intros [? ?]). exact IH.
Qed.

(** C3: after any history of connects, disconnects and subscriptions, a turn's
    event reaches, besides its own connection, exactly the live connections of
    the turn's own user whose last subscription includes the conversation, each
    once; a subscription is not authorization.  The origin gets the event once,
    last, whatever it is; a user-scoped event reaches exactly that user's live
    connections. *)
Theorem fan_out_is_exact ops f e :
  (∃ ss : list string, NoDup ss ∧
    (∀ s, s ∈ ss ↔ ∃ c k, turn_event_conversation_id e = Some c ∧ s ≠ origin_session f ∧
       views ops s c = true ∧ connection ops s = Some (origin_user f, k)) ∧
    fanout_emit (subs_run ops) f e =
      ((λ k, (k, e)) <$> omap (λ s, snd <$> connection ops s) ss) ++ [(inner f, e)]) ∧
  (∀ user, ∃ ss : list string, NoDup ss ∧ (∀ s, s ∈ ss ↔ ∃ k, connection ops s = Some (user, k)) ∧
    broadcast_to_user (subs_run ops) e user = (λ k, (k, e)) <$> omap (λ s, snd <$> connection ops s) ss).
Proof.
  assert (Hs : ∀ ss : list string, omap (λ s, sinks (subs_run ops) !! s) ss = omap (λ s, snd <$> connection ops s) ss).
  { induction ss as [|s ss IH]; [done|]. simpl. rewrite (proj1 (subs_refines ops s)).
    destruct (snd <$> connection ops s); [f_equal|]; exact IH. }
  split.
  - unfold fanout_emit. destruct (turn_event_conversation_id e) as [c|].
    + unfold route, subscribers_except.
      destruct (omap_sinks (subs_run ops) (subscribed (subs_run ops))
        (λ kv, is_viewer (subs_run ops) c (origin_session f) (origin_user f) kv = true)) as (ss&Hn&Hin&E).
      exists ss. split_and!; [done| |by rewrite E, Hs]. intros s. rewrite Hin.
      destruct (subs_refines ops s) as (E1&E2&E3). specialize (E3 c). unfold is_viewer. cbn [fst snd].
      rewrite E1, E2. split.
      * intros (v&k&Hv&[[H1 H2]%andb_true_iff H3]%andb_true_iff&Hk). rewrite Hv, H2 in E3.
        apply negb_true_iff, bool_decide_eq_false in H1. apply bool_decide_eq_true in H3.
        destruct (connection ops s) as [[u k']|]; [|done]. simpl in *. simplify_eq. eauto 10.
      * intros (c'&k&[= <-]&Hne&Hv&Hc). rewrite Hv in E3. rewrite Hc.
        destruct (subscribed (subs_run ops) !! s) as [v|]; [|done]. exists v, k. split_and!; [done| |done].
        rewrite E3, bool_decide_false by done. simpl. by apply bool_decide_eq_true.
    + exists []. split_and!; [constructor| |done]. intros s. split; [set_solver|]. intros (?&?&?&_). done.
  - intros user. unfold broadcast_to_user, sinks_for_user.
    destruct (omap_sinks (subs_run ops) (users (subs_run ops)) (λ kv, kv.2 = user)) as (ss&Hn&Hin&E).
    exists ss. split_and!; [done| |by rewrite E, Hs]. intros s. rewrite Hin.
    destruct (subs_refines ops s) as (E1&E2&_). rewrite E1, E2. simpl. split.
    + intros (u&k&Hu&<-&Hk). destruct (connection ops s) as [[u' k']|]; [|done]. simpl in *. simplify_eq. eauto.
    + intros (k&->). simpl. eauto.
Qed.

End events.
