(* ===== verification/Inflight.v ===== *)
(** * Idempotent sends: re-attaching to a live turn and running it once

    Models [crates/application/src/inflight.rs] (the hub of a live keyed turn,
    the tee sink, the forwarding of its stream to a re-attaching client, the
    registry of live turns) and what [start_send_message] and [run_send_turn] of
    [crates/application/src/lib.rs] do with an idempotency key.

    tokio's broadcast channel keeps the last [INFLIGHT_BROADCAST_CAP] values
    (a power of two, so the capacity is exact); a receiver that fell further
    behind is told so once and continues at the oldest value kept.  A receiver
    is the position of the next value in the sequence of all values sent. *)

From S2P Require Import Prelude ConversationSubs.

#[local] Open Scope nat_scope.

Definition INFLIGHT_BROADCAST_CAP : nat := 256.
Definition INFLIGHT_BUFFER_CAP : nat := INFLIGHT_BROADCAST_CAP.

Section hub.
Context {Other : Type}.
Notation Event := (TurnEvent (Other := Other)).

(** ** The hub of a live turn *)

(** [sent]: every value sent on [tx]. *)
Record InFlightTurn := { buffer : list Event; sent : list Event }.

Definition InFlightTurn_new : InFlightTurn := {| buffer := []; sent := [] |}.

(** [while buffer.len() > CAP { pop_front }]. *)
Definition emit_event (t : InFlightTurn) (e : Event) : InFlightTurn :=
  let b := buffer t ++ [e] in
  {| buffer := drop (length b - INFLIGHT_BUFFER_CAP) b; sent := sent t ++ [e] |}.

Definition snapshot_and_subscribe (t : InFlightTurn) : list Event * nat := (buffer t, length (sent t)).

Inductive Recv := Received (e : Event) | Closed | Lagged (skipped : nat) | Parked.

(** [Receiver::recv]: the outcome and where the receiver continues. *)
Definition recv (t : InFlightTurn) (closed : bool) (next : nat) : Recv * nat :=
  if next <? length (sent t) - INFLIGHT_BROADCAST_CAP
  then (Lagged (length (sent t) - INFLIGHT_BROADCAST_CAP - next), length (sent t) - INFLIGHT_BROADCAST_CAP)
  else
    match sent t !! next with
    | Some e => (Received e, S next)
    | None => (if closed then Closed else Parked, next)
    end.

(** [TeeSink::emit]: the hub first, then the caller's sink, whose answer it is. *)
Definition tee_emit {W} (primary : Event → W → W * bool) (t : InFlightTurn) (w : W) (e : Event)
    : InFlightTurn * W * bool :=
  let t := emit_event t e in
  let '(w, ok) := primary e w in
  (t, w, ok).

Definition restamp_request_id (e : Event) (request_id : string) : Event :=
  match e with
  | AssistantDelta c _ x => AssistantDelta c request_id x
  | AssistantStatus c _ m k => AssistantStatus c request_id m k
  | ContextUsage c _ u b a => ContextUsage c request_id u b a
  | AssistantCompleted c _ x => AssistantCompleted c request_id x
  | AssistantError c _ x => AssistantError c request_id x
  | UserMessageAdded _ _ _ _ | OtherEvent _ => e
  end.

(** ** Forwarding

    [forward_inflight] as a task beside the running turn: what is left to
    replay, the receiver, and what its sink was given. *)

Record Forward := { replay : list Event; next : nat; out : list Event; returned : bool }.

(** One iteration; [accepts] is the sink's answer to this emission. *)
Definition forward_step (t : InFlightTurn) (closed : bool) (request_id : string) (f : Forward) (accepts : bool)
    : Forward :=
  if returned f then f
  else
    match replay f with
    | e :: rest =>
        {| replay := rest; next := next f; out := out f ++ [restamp_request_id e request_id];
           returned := negb accepts |}
    | [] =>
        match recv t closed (next f) with
        | (Received e, n) =>
            {| replay := []; next := n; out := out f ++ [restamp_request_id e request_id];
               returned := negb accepts |}
        | (Closed, n) => {| replay := []; next := n; out := out f; returned := true |}
        | (Lagged _, n) | (Parked, n) => {| replay := []; next := n; out := out f; returned := false |}
        end
    end.

Inductive HubOp := Emit (e : Event) | Close | Forwarder (accepts : bool).

Record HubWorld := { turn : InFlightTurn; closed : bool; forward : Forward }.

Definition hub_step (rid : string) (w : HubWorld) (o : HubOp) : HubWorld :=
  match o with
  | Emit e => if closed w then w
              else {| turn := emit_event (turn w) e; closed := false; forward := forward w |}
  | Close => {| turn := turn w; closed := true; forward := forward w |}
  | Forwarder ok =>
      {| turn := turn w; closed := closed w;
         forward := forward_step (turn w) (closed w) rid (forward w) ok |}
  end.

(** A turn that emitted [past] when a client re-attached as [rid], and went on. *)
Definition attach (past : list Event) : HubWorld :=
  let t := foldl emit_event InFlightTurn_new past in
  let '(r, n) := snapshot_and_subscribe t in
  {| turn := t; closed := false; forward := {| replay := r; next := n; out := []; returned := false |} |}.

Definition hub_run (rid : string) (past : list Event) (ops : list HubOp) : HubWorld :=
  foldl (hub_step rid) (attach past) ops.

(** *** Lemmas *)

Definition last_n {A} (n : nat) (l : list A) : list A := drop (length l - n) l.

Lemma hub_emitted past :
  sent (foldl emit_event InFlightTurn_new past) = past ∧
  buffer (foldl emit_event InFlightTurn_new past) = last_n INFLIGHT_BUFFER_CAP past.
Proof.
  induction past as [|e past [IHs IHb]] using rev_ind; [done|]. rewrite foldl_app. cbn [foldl]. simpl.
  rewrite IHs, IHb. split; [done|]. unfold last_n. rewrite !length_app, length_drop. simpl.
  rewrite <-drop_app_le by lia. rewrite drop_drop. f_equal. lia.
Qed.

Definition slice {A} (a b : nat) (l : list A) : list A := drop a (take b l).

Lemma slice_snoc {A} a b (l : list A) x : a ≤ b → l !! b = Some x → slice a (S b) l = slice a b l ++ [x].
Proof.
  intros Hab Hx. unfold slice. rewrite (take_S_r _ _ _ Hx), drop_app_le; [done|].
  rewrite length_take. apply lookup_lt_Some in Hx. lia.
Qed.

Lemma slice_within {A} a b (l : list A) x : b ≤ length l → slice a b (l ++ x) = slice a b l.
Proof. intros. unfold slice. by rewrite take_app_le. Qed.

(** Where the receiver can no longer be behind. *)
Definition kept (w : HubWorld) (start : nat) : nat := Nat.max start (length (sent (turn w)) - INFLIGHT_BROADCAST_CAP).

Record hub_ok (rid : string) (past : list Event) (w : HubWorld) (live taken : list Event) : Prop := {
  ok_sent : sent (turn w) = past ++ live;
  ok_next : length past ≤ next (forward w) ≤ length (sent (turn w));
  ok_out : out (forward w) ++ ((λ e, restamp_request_id e rid) <$> replay (forward w)) =
             (λ e, restamp_request_id e rid) <$> last_n INFLIGHT_BUFFER_CAP past ++ taken;
  ok_replay : replay (forward w) ≠ [] → taken = [] ∧ next (forward w) = length past;
  ok_sub : taken `sublist_of` slice (length past) (next (forward w)) (sent (turn w));
  ok_tail : kept w (length past) ≤ next (forward w) →
    ∃ pre, taken = pre ++ slice (kept w (length past)) (next (forward w)) (sent (turn w))
}.

Definition all_accepted (ops : list HubOp) : bool :=
  forallb (λ o, match o with Forwarder ok => ok | _ => true end) ops.

(** When nothing was refused, the forwarder returns only at the end. *)
Definition at_end (w : HubWorld) : Prop :=
  replay (forward w) = [] ∧ next (forward w) = length (sent (turn w)) ∧ closed w = true.

Lemma attach_ok rid past : hub_ok rid past (attach past) [] [].
Proof.
  destruct (hub_emitted past) as [Es Eb]. unfold attach. cbn [snapshot_and_subscribe].
  split; simpl; rewrite ?Es, ?Eb, ?app_nil_r; try done.
  - apply sublist_nil_l.
  - intros _. exists []. unfold kept, slice. simpl. rewrite drop_ge; [done|]. rewrite length_take. lia.
Qed.

Lemma sent_slice_mono {A} a b b' (l : list A) : b ≤ b' → slice a b l `sublist_of` slice a b' l.
Proof.
  intros Hb. unfold slice. rewrite <-(Nat.min_l b b') by done. rewrite <-take_take.
  rewrite <-(take_drop b (take b' l)) at 2. destruct (Nat.le_gt_cases a (length (take b (take b' l)))).
  - rewrite drop_app_le by done. by apply sublist_inserts_r.
  - rewrite drop_ge by lia. apply sublist_nil_l.
Qed.

Lemma emit_ok rid past w live taken e :
  hub_ok rid past w live taken → closed w = false → hub_ok rid past (hub_step rid w (Emit e)) (live ++ [e]) taken.
Proof.
  intros K Hc. cbn [hub_step]. rewrite Hc. destruct K as [Ks Kn Ko Kr Ksub Kt].
  split; simpl; [by rewrite Ks, app_assoc|rewrite length_app; lia|done|done|..].
  - rewrite slice_within by lia. done.
  - unfold kept in *. simpl. rewrite length_app. simpl. intros Hk. destruct Kt as [pre E]; [lia|].
    rewrite slice_within by lia. rewrite E. unfold slice.
    set (a := Nat.max (length past) (length (sent (turn w)) - INFLIGHT_BROADCAST_CAP)) in *.
    set (b := Nat.max (length past) (length (sent (turn w)) + 1 - INFLIGHT_BROADCAST_CAP)) in *.
    exists (pre ++ take (b - a) (drop a (take (next (forward w)) (sent (turn w))))).
    rewrite <-app_assoc. f_equal. replace b with (a + (b - a)) at 2 by lia. by rewrite <-drop_drop, take_drop.
Qed.

Lemma forwarder_ok rid past w live taken ok :
  hub_ok rid past w live taken →
  ∃ more, hub_ok rid past (hub_step rid w (Forwarder ok)) live (taken ++ more).
Proof.
  intros K. pose proof K as [Ks Kn Ko Kr Ksub Kt]. cbn [hub_step]. unfold forward_step.
  destruct (returned (forward w)) eqn:Hret; [exists []; rewrite app_nil_r; by destruct w|].
  destruct (replay (forward w)) as [|e rest] eqn:Hrep.
  - unfold recv. destruct (Nat.ltb_spec (next (forward w)) (length (sent (turn w)) - INFLIGHT_BROADCAST_CAP)) as [Hlag|Hlag].
    + exists []. rewrite app_nil_r. split; simpl; [done|lia|exact Ko|done|..].
      * etransitivity; [exact Ksub|]. apply sent_slice_mono. lia.
      * unfold kept. simpl. intros _. exists taken. unfold slice.
        rewrite (drop_ge (take _ _)); [by rewrite app_nil_r|]. rewrite length_take. lia.
    + destruct (sent (turn w) !! next (forward w)) as [e|] eqn:He.
      * pose proof (lookup_lt_Some _ _ _ He). exists [e]. split; simpl; [done|lia| |done|..].
        -- rewrite app_nil_r. rewrite app_nil_r in Ko. rewrite Ko, !fmap_app, <-app_assoc. done.
        -- rewrite (slice_snoc _ _ _ _ (proj1 Kn) He). by apply sublist_app.
        -- unfold kept in *. simpl. intros _. destruct Kt as [pre E]; [lia|]. exists pre.
           rewrite (slice_snoc _ _ _ e) by (lia || done). by rewrite E, app_assoc.
      * exists []. rewrite app_nil_r. destruct (closed w); split; simpl; done || exact Ko.
  - destruct (Kr ltac:(done)) as [-> Hn]. exists []. split; simpl; [done|lia| |..].
    + rewrite <-app_assoc. exact Ko.
    + done.
    + done.
    + exact Kt.
Qed.

Lemma hub_run_ok rid past ops :
  ∃ live taken, hub_ok rid past (hub_run rid past ops) live taken ∧
    (all_accepted ops = true → returned (forward (hub_run rid past ops)) = true →
     at_end (hub_run rid past ops)).
Proof.
  induction ops as [|o ops (live&taken&K&Kret)] using rev_ind.
  { exists [], []. split; [apply attach_ok|done]. }
  unfold hub_run in *. rewrite foldl_app. cbn [foldl]. set (w := foldl (hub_step rid) (attach past) ops) in *.
  assert (Hall : all_accepted (ops ++ [o]) = true → all_accepted ops = true ∧ all_accepted [o] = true)
    by (unfold all_accepted; rewrite forallb_app; apply andb_true_iff).
  destruct o as [e| |ok].
  - destruct (closed w) eqn:Hc.
    + exists live, taken. cbn [hub_step]. rewrite Hc. split; [done|]. intros [??]%Hall. auto.
    + exists (live ++ [e]), taken. split; [by apply emit_ok|]. cbn [hub_step]. rewrite Hc.
      intros [Ha _]%Hall Hr. destruct (Kret Ha Hr) as (_&_&?). congruence.
  - exists live, taken. split; [by destruct K|]. intros [Ha _]%Hall Hr. destruct (Kret Ha Hr) as (?&?&?). done.
  - destruct (forwarder_ok rid past w live taken ok K) as [more K'].
    exists live, (taken ++ more). split; [done|]. intros [Ha Hok]%Hall Hr. simpl in Hok. rewrite andb_true_r in Hok.
    subst ok. cbn [hub_step forward] in Hr. unfold at_end. cbn [hub_step forward turn closed].
    unfold forward_step in *. destruct (returned (forward w)) eqn:Hret; [by apply Kret|].
    destruct (replay (forward w)) as [|e rest]; [|done].
    destruct (recv (turn w) (closed w) (next (forward w))) as [r n] eqn:Er. unfold recv in Er.
    destruct (_ <? _); [by simplify_eq|]. destruct (sent (turn w) !! next (forward w)) as [e|] eqn:He; [by simplify_eq|].
    destruct (closed w); simplify_eq. simpl. split_and!; [done| |done].
    apply lookup_ge_None in He. pose proof (ok_next _ _ _ _ _ K). lia.
Qed.

(** Once the turn is over the forwarder returns. *)
Lemma returned_stays rid w n :
  returned (forward w) = true → foldl (hub_step rid) w (replicate n (Forwarder true)) = w.
Proof.
  intros Hret. induction n as [|n IH]; [done|]. simpl.
  assert (hub_step rid w (Forwarder true) = w) as E; [|simpl in E; rewrite E; exact IH].
  cbn [hub_step]. unfold forward_step. rewrite Hret. by destruct w.
Qed.

Lemma forwarder_returns rid w n :
  closed w = true → next (forward w) ≤ length (sent (turn w)) →
  length (replay (forward w)) + (length (sent (turn w)) - next (forward w)) < n →
  returned (forward (foldl (hub_step rid) w (replicate n (Forwarder true)))) = true.
Proof.
  revert w. induction n as [|n IH]; intros w Hc Hle Hn; [lia|].
  destruct (returned (forward w)) eqn:Hret; [by rewrite returned_stays|].
  change (replicate (S n) (Forwarder true)) with (Forwarder true :: replicate n (Forwarder true)). cbn [foldl].
  assert (Hstep : hub_step rid w (Forwarder true) =
    {| turn := turn w; closed := true; forward := forward_step (turn w) true rid (forward w) true |})
    by (cbn [hub_step]; by rewrite Hc).
  rewrite Hstep. unfold forward_step. rewrite Hret.
  destruct (replay (forward w)) as [|e rest]; simpl in Hn; [|apply IH; simpl; lia || done].
  unfold recv. destruct (Nat.ltb_spec (next (forward w)) (length (sent (turn w)) - INFLIGHT_BROADCAST_CAP)).
  { apply IH; simpl; lia || done. }
  destruct (sent (turn w) !! next (forward w)) as [e|] eqn:He.
  - apply lookup_lt_Some in He. apply IH; simpl; lia || done.
  - by rewrite returned_stays.
Qed.

(** a client that re-attaches to a live turn is given, restamped with its
    own request id, the last events before it joined (all of them up to the
    buffer's capacity) and then events sent after it joined, in order and none
    twice, and no event is both replayed and received live.  If the client
    keeps accepting, the stream ends exactly when the turn is over, having
    delivered at least the last [INFLIGHT_BROADCAST_CAP] live events, and all
    of them when there were no more; and it does end. *)
Theorem reattach_partitions_the_stream rid past ops :
  let w := hub_run rid past ops in
  ∃ live taken,
    sent (turn w) = past ++ live ∧
    out (forward w) ++ ((λ e, restamp_request_id e rid) <$> replay (forward w)) =
      (λ e, restamp_request_id e rid) <$> last_n INFLIGHT_BUFFER_CAP past ++ taken ∧
    taken `sublist_of` live ∧
    (all_accepted ops = true → returned (forward w) = true →
       closed w = true ∧ replay (forward w) = [] ∧
       (∃ before, taken = before ++ last_n INFLIGHT_BROADCAST_CAP live) ∧
       (length live ≤ INFLIGHT_BROADCAST_CAP → taken = live)) ∧
    (closed w = true → ∃ n,
       returned (forward (foldl (hub_step rid) w (replicate n (Forwarder true)))) = true).
Proof.
  intros w. destruct (hub_run_ok rid past ops) as (live&taken&K&Kend). fold w in K, Kend.
  pose proof K as [Ks Kn Ko _ Ksub Kt]. exists live, taken.
  assert (Hsub : taken `sublist_of` live).
  { etransitivity; [exact Ksub|]. rewrite Ks. unfold slice. etransitivity.
    - apply (sent_slice_mono (length past) _ (length (past ++ live))). rewrite <-Ks. lia.
    - unfold slice. by rewrite take_ge, drop_app_length. }
  split_and!; [done|done|done|..].
  - intros Ha Hr. destruct (Kend Ha Hr) as (Hrep&Hnext&Hc). split_and!; [done|done|..].
    + destruct Kt as [pre E]; [unfold kept; rewrite Hnext, Ks, length_app in *; lia|].
      exists pre. rewrite E. f_equal. unfold slice, kept, last_n. rewrite Hnext, take_ge by lia. rewrite Ks.
      rewrite length_app. destruct (Nat.le_gt_cases (length live) INFLIGHT_BROADCAST_CAP).
      * rewrite (Nat.max_l (length past)) by lia. rewrite drop_app_length.
        replace (length live - INFLIGHT_BROADCAST_CAP) with 0 by lia. done.
      * rewrite (Nat.max_r (length past)) by lia. rewrite drop_app_ge by lia. f_equal. lia.
    + intros Hl. destruct Kt as [pre E]; [unfold kept; rewrite Hnext, Ks, length_app in *; lia|].
      assert (Es : slice (kept w (length past)) (next (forward w)) (sent (turn w)) = live).
      { unfold slice, kept. rewrite Hnext, take_ge by lia. rewrite Ks, length_app.
        rewrite (Nat.max_l (length past)) by lia. apply drop_app_length. }
      rewrite Es in E. pose proof (sublist_length _ _ Hsub) as Hlen. rewrite E, length_app in Hlen.
      destruct pre; [done|simpl in Hlen; lia].
  - intros Hc. eexists. apply forwarder_returns; [done|lia|apply Nat.lt_succ_diag_r].
Qed.
End hub.

(** ** One run per key

    [start_send_message] for a keyed send, as a task among others.  A turn's hub
    is named by the send that runs it. *)

(** [(user_id, conversation_id, idempotency_key)]. *)
Notation Key := (string * string * string)%type (only parsing).

Notation InFlightRegistry := (gmap (string * string * string) nat) (only parsing).

(** [InFlightRegistry::register], [get], [remove]. *)
Definition register (m : InFlightRegistry) (k : Key) (hub : nat) : InFlightRegistry * option nat :=
  match m !! k with
  | Some _ => (m, None)
  | None => (<[k := hub]> m, Some hub)
  end.
Definition get (m : InFlightRegistry) (k : Key) : option nat := m !! k.
Definition remove (m : InFlightRegistry) (k : Key) : InFlightRegistry := delete k m.

Inductive SendPc :=
| AtInflightGet                               (** shortcut 1: is the original live? *)
| AtLookup                                    (** shortcut 2: is a reply recorded? *)
| AtRegister                                  (** claim the slot *)
| AtLoserGet                                  (** the claim was lost: find the winner *)
| Reattached (winner : nat)
| Replayed (response : string)
| LookupFailed
| Running (slotted : bool)
| Recording (slotted : bool) (response : string)
| Freeing (slotted : bool) (recorded : bool)  (** the slot guard is about to drop *)
| Finished (recorded : bool).

Record SendWorld := {
  live_turns : InFlightRegistry;
  completed : gmap (string * string * string) string;
  sends : list (Key * SendPc)
}.

Definition SendWorld_new : SendWorld := {| live_turns := ∅; completed := ∅; sends := [] |}.

Section dedup.
(** Whether an idempotency store is attached. *)
Context (has_store : bool).

Definition goto (w : SendWorld) (i : nat) (k : Key) (pc : SendPc) : SendWorld :=
  {| live_turns := live_turns w; completed := completed w; sends := <[i := (k, pc)]> (sends w) |}.

(** One step of send [i]; [ok] is whether the store call it makes succeeds. *)
Definition send_step (w : SendWorld) (i : nat) (k : Key) (pc : SendPc) (ok : bool) : SendWorld :=
  match pc with
  | AtInflightGet =>
      match get (live_turns w) k with
      | Some winner => goto w i k (Reattached winner)
      | None => goto w i k (if has_store then AtLookup else AtRegister)
      end
  | AtLookup =>
      if ok
      then match completed w !! k with
           | Some response => goto w i k (Replayed response)
           | None => goto w i k AtRegister
           end
      else goto w i k LookupFailed
  | AtRegister =>
      match register (live_turns w) k i with
      | (m, Some _) => {| live_turns := m; completed := completed w; sends := <[i := (k, Running true)]> (sends w) |}
      | (m, None) => {| live_turns := m; completed := completed w; sends := <[i := (k, AtLoserGet)]> (sends w) |}
      end
  | AtLoserGet =>
      match get (live_turns w) k with
      | Some winner => goto w i k (Reattached winner)
      | None => goto w i k (Running false)
      end
  | Recording slotted response =>
      if ok
      then {| live_turns := live_turns w; completed := <[k := response]> (completed w);
              sends := <[i := (k, Freeing slotted true)]> (sends w) |}
      else goto w i k (Freeing slotted false)
  | Freeing slotted recorded =>
      {| live_turns := if slotted then remove (live_turns w) k else live_turns w; completed := completed w;
         sends := <[i := (k, Finished recorded)]> (sends w) |}
  | Reattached _ | Replayed _ | LookupFailed | Running _ | Finished _ => w
  end.

(** [TurnEnds i (Some r)]: the turn of send [i] committed the reply [r];
    [None]: it failed, was cancelled or panicked. *)
Inductive SendOp := Send (k : Key) | SendStep (i : nat) (ok : bool) | TurnEnds (i : nat) (reply : option string).

Definition dedup_step (w : SendWorld) (o : SendOp) : SendWorld :=
  match o with
  | Send k => {| live_turns := live_turns w; completed := completed w; sends := sends w ++ [(k, AtInflightGet)] |}
  | SendStep i ok => match sends w !! i with Some (k, pc) => send_step w i k pc ok | None => w end
  | TurnEnds i reply =>
      match sends w !! i with
      | Some (k, Running slotted) =>
          goto w i k (match reply with
                      | Some r => if has_store then Recording slotted r else Freeing slotted false
                      | None => Freeing slotted false
                      end)
      | _ => w
      end
  end.

Definition dedup_run (ops : list SendOp) : SendWorld := foldl dedup_step SendWorld_new ops.

(** *** The registry holds exactly the live slotted turns *)

Definition holds_slot (pc : SendPc) : bool :=
  match pc with Running true | Recording true _ | Freeing true _ => true | _ => false end.

Definition slots_ok (w : SendWorld) : Prop :=
  ∀ k a, live_turns w !! k = Some a ↔ ∃ pc, sends w !! a = Some (k, pc) ∧ holds_slot pc = true.

Lemma goto_slots w i k pc pc' :
  slots_ok w → sends w !! i = Some (k, pc) → holds_slot pc' = holds_slot pc → slots_ok (goto w i k pc').
Proof.
  intros K Hi Hh k' a. simpl. rewrite (K k' a). destruct (decide (a = i)) as [->|Hne].
  - rewrite list_lookup_insert_eq by eauto using lookup_lt_Some. rewrite Hi. split.
    + intros (q&[= <- <-]&?). exists pc'. by rewrite Hh.
    + intros (q&[= <- <-]&?). exists pc. by rewrite <-Hh.
  - by rewrite list_lookup_insert_ne.
Qed.

Lemma send_step_slots w i k pc ok :
  slots_ok w → sends w !! i = Some (k, pc) → slots_ok (send_step w i k pc ok).
Proof.
  intros K Hi. pose proof (lookup_lt_Some _ _ _ Hi) as Hlt.
  destruct pc as [| | | |w'|r| |sl|sl r|sl rec|rec]; cbn [send_step]; try exact K.
  - unfold get. destruct (live_turns w !! k); [|destruct has_store]; by eapply goto_slots.
  - destruct ok; [destruct (completed w !! k)|]; by eapply goto_slots.
  - unfold register. destruct (live_turns w !! k) as [a|] eqn:E.
    + by apply (goto_slots w i k AtRegister AtLoserGet).
    + intros k' a. simpl. destruct (decide (k' = k)) as [->|Hk].
      * rewrite lookup_insert_eq. split.
        -- intros [= <-]. exists (Running true). by rewrite list_lookup_insert_eq.
        -- intros (q&Ha&Hq). destruct (decide (a = i)) as [->|Hne]; [done|].
           rewrite list_lookup_insert_ne in Ha by done. assert (live_turns w !! k = Some a) by (apply K; eauto).
           congruence.
      * rewrite lookup_insert_ne by done. rewrite (K k' a). destruct (decide (a = i)) as [->|Hne].
        -- rewrite list_lookup_insert_eq by done. rewrite Hi. naive_solver.
        -- by rewrite list_lookup_insert_ne.
  - unfold get. destruct (live_turns w !! k); by eapply goto_slots.
  - destruct ok; [exact (goto_slots w i k (Recording sl r) (Freeing sl true) K Hi (match sl with true | false => eq_refl end))|].
    by eapply goto_slots; destruct sl.
  - destruct sl; [|by apply (goto_slots w i k (Freeing false rec) (Finished rec))].
    intros k' a. simpl. unfold remove. destruct (decide (k' = k)) as [->|Hk].
    + rewrite lookup_delete_eq. split; [done|]. intros (q&Ha&Hq). exfalso.
      destruct (decide (a = i)) as [->|Hne].
      { rewrite list_lookup_insert_eq in Ha by done. by simplify_eq. }
      rewrite list_lookup_insert_ne in Ha by done.
      assert (live_turns w !! k = Some a) by (apply K; eauto).
      assert (live_turns w !! k = Some i) by (apply K; eauto). congruence.
    + rewrite lookup_delete_ne by done. rewrite (K k' a). destruct (decide (a = i)) as [->|Hne].
      * rewrite list_lookup_insert_eq by done. rewrite Hi. naive_solver.
      * by rewrite list_lookup_insert_ne.
Qed.

Lemma dedup_step_slots w o : slots_ok w → slots_ok (dedup_step w o).
Proof.
  intros K. destruct o as [k|i ok|i reply]; cbn [dedup_step].
  - intros k' a. simpl. rewrite (K k' a). split.
    + intros (q&Ha&Hq). exists q. split; [by apply lookup_app_l_Some|done].
    + intros (q&[Ha|[_ [_ ?]%list_lookup_singleton_Some]]%lookup_app_Some&Hq); [eauto|by simplify_eq].
  - destruct (sends w !! i) as [[k pc]|] eqn:Hi; [|done]. by apply send_step_slots.
  - destruct (sends w !! i) as [[k []]|] eqn:Hi; try exact K.
    eapply goto_slots; [done|exact Hi|]. by destruct reply, has_store, slotted.
Qed.

Lemma dedup_run_slots ops : slots_ok (dedup_run ops).
Proof.
  induction ops as [|o ops IH] using rev_ind; [intros k a; simpl; rewrite lookup_empty; naive_solver|].
  unfold dedup_run. rewrite foldl_app. by apply dedup_step_slots.
Qed.

(** *** A retry against its original *)

(** The original ended without leaving a reply. *)
Definition left_nothing (pc : SendPc) : bool :=
  match pc with Freeing _ false | Finished false => true | _ => false end.

(** The original owns its slot, or has recorded its reply. *)
Definition took_hold (pc : SendPc) : bool :=
  match pc with Running true | Recording true _ | Freeing _ true | Finished true => true | _ => false end.

(** The retry has not run the turn and will not be able to without asking again. *)
Definition early (pc : SendPc) : bool :=
  match pc with AtInflightGet | AtLookup | Reattached _ | Replayed _ | LookupFailed => true | _ => false end.
Definition unasked (pc : SendPc) : bool :=
  match pc with AtInflightGet | Reattached _ => true | _ => false end.

Definition pc_of (w : SendWorld) (i : nat) (k : Key) (pc : SendPc) : Prop := sends w !! i = Some (k, pc).

Definition pair_ok (w : SendWorld) (k : Key) (a b : nat) : Prop :=
  ∃ pca, pc_of w a k pca ∧
    (left_nothing pca = true ∨
     (pca = Running true ∨ ∃ r, pca = Recording true r ∧ has_store = true) ∧
       (∀ pcb, pc_of w b k pcb → unasked pcb = true) ∨
     has_store = true ∧ is_Some (completed w !! k) ∧ (∀ pcb, pc_of w b k pcb → early pcb = true)).

Lemma completed_grows w o k : is_Some (completed w !! k) → is_Some (completed (dedup_step w o) !! k).
Proof.
  intros H. destruct o as [k'|i ok|i reply]; cbn [dedup_step]; [done|..].
  - destruct (sends w !! i) as [[k' pc]|]; [|done].
    destruct pc; cbn [send_step]; unfold register; repeat case_match; simpl; try done.
    simplify_eq. destruct (decide (k' = k)) as [->|]; [rewrite lookup_insert_eq; eauto|by rewrite lookup_insert_ne].
  - destruct (sends w !! i) as [[k' []]|]; done.
Qed.

(** A step changes only the send that makes it: where that one goes. *)
Definition pc_after (w : SendWorld) (k : Key) (pc : SendPc) (ok : bool) : SendPc :=
  match pc with
  | AtInflightGet =>
      match live_turns w !! k with
      | Some a => Reattached a
      | None => if has_store then AtLookup else AtRegister
      end
  | AtLookup =>
      if ok then match completed w !! k with Some r => Replayed r | None => AtRegister end else LookupFailed
  | AtRegister => match live_turns w !! k with Some _ => AtLoserGet | None => Running true end
  | AtLoserGet => match live_turns w !! k with Some a => Reattached a | None => Running false end
  | Recording sl _ => Freeing sl ok
  | Freeing _ rec => Finished rec
  | _ => pc
  end.

Lemma send_step_sends w i k pc ok :
  sends w !! i = Some (k, pc) →
  sends (send_step w i k pc ok) = <[i := (k, pc_after w k pc ok)]> (sends w).
Proof.
  intros Hi. destruct pc; cbn [send_step pc_after]; unfold get, register; rewrite ?list_insert_id by done;
    repeat case_match; simplify_eq; done.
Qed.

Definition pc_ended (reply : option string) (sl : bool) : SendPc :=
  match reply with
  | Some r => if has_store then Recording sl r else Freeing sl false
  | None => Freeing sl false
  end.

Lemma lookup_insert_pc (l : list (Key * SendPc)) i k pc pc' j q :
  l !! i = Some (k, pc) → <[i := (k, pc')]> l !! j = Some q → j = i ∧ q = (k, pc') ∨ j ≠ i ∧ l !! j = Some q.
Proof.
  intros Hi Hj. destruct (decide (j = i)) as [->|Hne].
  - rewrite list_lookup_insert_eq in Hj by eauto using lookup_lt_Some. left. by simplify_eq.
  - rewrite list_lookup_insert_ne in Hj by done. by right.
Qed.

(** What one operation does to one send. *)
Lemma dedup_step_pc w o i k pc :
  pc_of (dedup_step w o) i k pc →
  pc_of w i k pc ∨
  (o = Send k ∧ i = length (sends w) ∧ pc = AtInflightGet) ∨
  (∃ pc0 ok, o = SendStep i ok ∧ pc_of w i k pc0 ∧ pc = pc_after w k pc0 ok) ∨
  (∃ sl reply, o = TurnEnds i reply ∧ pc_of w i k (Running sl) ∧ pc = pc_ended reply sl).
Proof.
  unfold pc_of. destruct o as [k'|j ok|j reply]; cbn [dedup_step].
  - intros [Hi|[Hl [? ?]%list_lookup_singleton_Some]]%lookup_app_Some; [by left|right; left].
    simplify_eq. split_and!; [done|lia|done].
  - destruct (sends w !! j) as [[k' pc']|] eqn:Hj; [|by left]. rewrite (send_step_sends _ _ _ _ _ Hj).
    intros Hi. destruct (lookup_insert_pc _ _ _ _ _ _ _ Hj Hi) as [[-> [= -> ->]]|[_ Hi0]]; [|by left].
    right; right; left. eauto.
  - destruct (sends w !! j) as [[k' []]|] eqn:Hj; try (by left). cbn [goto sends].
    intros Hi. destruct (lookup_insert_pc _ _ _ _ _ _ _ Hj Hi) as [[-> [= -> ->]]|[_ Hi0]]; [|by left].
    right; right; right. eauto.
Qed.

Lemma recording_stores w i k sl r :
  pc_of w i k (Recording sl r) → completed (dedup_step w (SendStep i true)) !! k = Some r.
Proof. unfold pc_of. intros Hi. cbn [dedup_step]. rewrite Hi. simpl. apply lookup_insert_eq. Qed.

(** A recorded reply is in the store. *)
Definition recorded_pc (w : SendWorld) (k : Key) (pc : SendPc) : Prop :=
  match pc with
  | Recording _ _ => has_store = true
  | Freeing _ true | Finished true => has_store = true ∧ is_Some (completed w !! k)
  | _ => True
  end.

Lemma dedup_run_recorded ops i k pc : pc_of (dedup_run ops) i k pc → recorded_pc (dedup_run ops) k pc.
Proof.
  revert i k pc. induction ops as [|o ops IH] using rev_ind; [done|]. intros i k pc.
  unfold dedup_run. rewrite foldl_app. cbn [foldl]. fold (dedup_run ops). set (w := dedup_run ops) in *.
  intros [Hi|[(_&_&->)|[(pc0&ok&->&Hi&->)|(sl&reply&->&Hi&->)]]]%dedup_step_pc.
  - specialize (IH _ _ _ Hi). destruct pc as [| | | | | | | | |? []|[]]; try done;
      (split; [apply IH|apply completed_grows, IH]).
  - done.
  - pose proof (IH _ _ _ Hi) as Kj.
    destruct pc0 as [| | | | | | | |sl r|sl []|[]]; cbn [pc_after]; try done.
    + destruct (live_turns w !! k); [done|by destruct has_store].
    + destruct ok; [by destruct (completed w !! k)|done].
    + by destruct (live_turns w !! k).
    + by destruct (live_turns w !! k).
    + destruct ok; [|done]. split; [done|]. by rewrite (recording_stores _ _ _ _ _ Hi).
    + split; [apply Kj|apply completed_grows, Kj].
    + split; [apply Kj|apply completed_grows, Kj].
  - unfold pc_ended. destruct reply; [|done]. by destruct has_store eqn:E.
Qed.

Lemma pc_persists w o i k pc : pc_of w i k pc → ∃ pc', pc_of (dedup_step w o) i k pc'.
Proof.
  unfold pc_of. intros Hi. destruct o as [k'|j ok|j reply]; cbn [dedup_step].
  - exists pc. simpl. by apply lookup_app_l_Some.
  - destruct (sends w !! j) as [[k' pc']|] eqn:Hj; [|eauto]. rewrite (send_step_sends _ _ _ _ _ Hj).
    destruct (decide (i = j)) as [->|Hne]; [|rewrite list_lookup_insert_ne by done; eauto].
    simplify_eq. rewrite list_lookup_insert_eq by eauto using lookup_lt_Some. eauto.
  - destruct (sends w !! j) as [[k' []]|] eqn:Hj; try (by eauto). cbn [goto sends].
    destruct (decide (i = j)) as [->|Hne]; [|rewrite list_lookup_insert_ne by done; eauto].
    simplify_eq. rewrite list_lookup_insert_eq by eauto using lookup_lt_Some. eauto.
Qed.

Lemma pc_unique w i k pc pc' : pc_of w i k pc → pc_of w i k pc' → pc = pc'.
Proof. unfold pc_of. congruence. Qed.

(** The retry while the original holds its slot, and once a reply is recorded. *)
Lemma unasked_step w o k a b :
  live_turns w !! k = Some a → (∀ pcb, pc_of w b k pcb → unasked pcb = true) →
  ∀ pcb, pc_of (dedup_step w o) b k pcb → unasked pcb = true.
Proof.
  intros Hl Hb pcb [Hi|[(_&_&->)|[(pc0&ok&_&Hi&->)|(sl&reply&_&Hi&_)]]]%dedup_step_pc; [by apply Hb|done|..].
  - specialize (Hb _ Hi). destruct pc0; try done. cbn [pc_after]. by rewrite Hl.
  - by specialize (Hb _ Hi).
Qed.

Lemma early_step w o k b :
  has_store = true → is_Some (completed w !! k) → (∀ pcb, pc_of w b k pcb → early pcb = true) →
  ∀ pcb, pc_of (dedup_step w o) b k pcb → early pcb = true.
Proof.
  intros Hs [r Hr] Hb pcb [Hi|[(_&_&->)|[(pc0&ok&_&Hi&->)|(sl&reply&_&Hi&_)]]]%dedup_step_pc; [by apply Hb|done|..].
  - specialize (Hb _ Hi). destruct pc0; try done; cbn [pc_after].
    + rewrite Hs. by destruct (live_turns w !! k).
    + rewrite Hr. by destruct ok.
  - by specialize (Hb _ Hi).
Qed.

Lemma unasked_early pc : unasked pc = true → early pc = true.
Proof. by destruct pc. Qed.

Lemma pair_step w o k a b :
  slots_ok w → pair_ok w k a b → pair_ok (dedup_step w o) k a b.
Proof.
  intros K (pca&Ha&H). destruct (pc_persists w o a k pca Ha) as [pca' Ha']. exists pca'. split; [done|].
  destruct H as [Hn|[[Hr Hb]|(Hs&Hc&Hb)]]; [left|..].
  - apply dedup_step_pc in Ha' as [Hi|[(_&->&_)|[(pc0&ok&_&Hi&->)|(sl&reply&_&Hi&->)]]].
    + by rewrite <-(pc_unique _ _ _ _ _ Ha Hi).
    + apply lookup_lt_Some in Ha. lia.
    + rewrite <-(pc_unique _ _ _ _ _ Ha Hi). destruct pca as [| | | | | | | | |? []|[]]; done.
    + by rewrite (pc_unique _ _ _ _ _ Ha Hi) in Hn.
  - assert (Hslot : live_turns w !! k = Some a).
    { apply K. exists pca. split; [done|]. by destruct Hr as [->|(r&->&_)]. }
    pose proof (unasked_step w o k a b Hslot Hb) as Hb'.
    apply dedup_step_pc in Ha' as [Hi|[(_&->&_)|[(pc0&ok&->&Hi&->)|(sl&reply&->&Hi&->)]]].
    + rewrite <-(pc_unique _ _ _ _ _ Ha Hi). right; left. done.
    + apply lookup_lt_Some in Ha. lia.
    + rewrite <-(pc_unique _ _ _ _ _ Ha Hi). destruct Hr as [->|(r&->&Hs)]; cbn [pc_after]; [right; left; by eauto|].
      destruct ok; [right; right|by left]. split_and!; [done| |].
      * rewrite (recording_stores w a k true r) by done. eauto.
      * intros pcb Hpb. by apply unasked_early, Hb'.
    + pose proof (pc_unique _ _ _ _ _ Ha Hi) as E. destruct Hr as [->|(r&->&_)]; simplify_eq.
      unfold pc_ended. destruct reply as [r|]; [|by left]. destruct has_store eqn:Es; [|by left].
      right; left. eauto.
  - right; right. split_and!; [done|by apply completed_grows|by apply early_step].
Qed.

Lemma pair_run ops2 ops1 k a b :
  pair_ok (dedup_run ops1) k a b → pair_ok (dedup_run (ops1 ++ ops2)) k a b.
Proof.
  induction ops2 as [|o ops2 IH] using rev_ind; intros H; [by rewrite app_nil_r|].
  rewrite app_assoc. unfold dedup_run at 1. rewrite foldl_app. cbn [foldl].
  apply pair_step; [apply dedup_run_slots|by apply IH].
Qed.

(** C4: in every interleaving of keyed sends, the registry names exactly the
    live turns holding a slot, so at most one per key, and retries do not run a
    turn again: once a send holds the slot of its key (or has recorded its
    reply), a send of the same user, conversation and key that asks later never
    comes to run the turn - it re-attaches, or replays the recorded reply, or
    reports that the store failed - unless the original ends without a recorded
    reply. *)
Theorem retries_do_not_run_twice ops1 ops2 k a b pca pca' pcb :
  pc_of (dedup_run ops1) a k pca → took_hold pca = true →
  (∀ pc, pc_of (dedup_run ops1) b k pc → pc = AtInflightGet) →
  let w := dedup_run (ops1 ++ ops2) in
  pc_of w a k pca' → left_nothing pca' = false → pc_of w b k pcb →
  early pcb = true ∧
  (∀ a', live_turns w !! k = Some a' ↔ ∃ pc, pc_of w a' k pc ∧ holds_slot pc = true).
Proof.
  intros Ha Ht Hb w Ha' Hn Hpb. split; [|intros a'; apply dedup_run_slots].
  assert (P : pair_ok (dedup_run ops1) k a b).
  { exists pca. split; [done|]. pose proof (dedup_run_recorded ops1 _ _ _ Ha) as R.
    assert (Hun : ∀ pc, pc_of (dedup_run ops1) b k pc → unasked pc = true) by (by intros pc ->%Hb).
    assert (He : ∀ pc, pc_of (dedup_run ops1) b k pc → early pc = true) by (by intros pc ->%Hb).
    destruct pca as [| | | | | | |[]|[] r|sl []|[]]; try done; simpl in R; right.
    - left. eauto.
    - left. eauto.
    - right. naive_solver.
    - right. naive_solver. }
  destruct (pair_run ops2 ops1 k a b P) as (q&Hq&H). rewrite (pc_unique _ _ _ _ _ Hq Ha') in H.
  destruct H as [?|[[_ H]|(_&_&H)]]; [congruence|by apply unasked_early, H|by apply H].
Qed.

End dedup.

(** ** Concrete runs *)

Definition a_key : string * string * string := ("ada", "conv", "key").

(** The original runs and completes; the retry asks while it is live. *)
Definition original_holds : list SendOp := [Send a_key; SendStep 0 true; SendStep 0 true; SendStep 0 true].
Definition retry_follows : list SendOp :=
  [TurnEnds 0 (Some "reply"); SendStep 0 true; SendStep 0 true; Send a_key; SendStep 1 true; SendStep 1 true].

Lemma retries_do_not_run_twice_witness :
  pc_of (dedup_run true original_holds) 0 a_key (Running true) ∧
  pc_of (dedup_run true (original_holds ++ retry_follows)) 1 a_key (Replayed "reply") ∧
  early (Replayed "reply") = true.
Proof.
  assert (Ha : pc_of (dedup_run true original_holds) 0 a_key (Running true)) by (vm_compute; reflexivity).
  assert (Hb : pc_of (dedup_run true (original_holds ++ retry_follows)) 1 a_key (Replayed "reply"))
    by (vm_compute; reflexivity).
  split; [exact Ha|]. split; [exact Hb|].
  refine (proj1 (retries_do_not_run_twice true original_holds retry_follows a_key 0 1 (Running true)
    (Finished true) (Replayed "reply") Ha eq_refl _ _ eq_refl Hb)).
  - intros pc H. vm_compute in H. discriminate H.
  - vm_compute. reflexivity.
Defined.

(** Two sends that both asked before either claimed the slot are not covered:
    the one that is slow to claim it runs the turn a second time when the other
    finishes first, ... *)
Lemma racing_sends_run_twice :
  let ops := [Send a_key; Send a_key; SendStep 0 true; SendStep 1 true; SendStep 0 true; SendStep 1 true;
              SendStep 0 true; TurnEnds 0 (Some "reply"); SendStep 0 true; SendStep 0 true; SendStep 1 true] in
  pc_of (dedup_run true ops) 0 a_key (Finished true) ∧ pc_of (dedup_run true ops) 1 a_key (Running true).
Proof. vm_compute. done. Qed.

(** ... and a send that loses the claim runs the turn without a slot when the
    winner ends before the loser looks it up; a third send then runs beside it. *)
Lemma loser_runs_without_a_slot :
  let ops := [Send a_key; Send a_key; SendStep 0 true; SendStep 1 true; SendStep 0 true; SendStep 1 true;
              SendStep 0 true; SendStep 1 true; TurnEnds 0 None; SendStep 0 true; SendStep 1 true;
              Send a_key; SendStep 2 true; SendStep 2 true; SendStep 2 true] in
  pc_of (dedup_run true ops) 1 a_key (Running false) ∧ pc_of (dedup_run true ops) 2 a_key (Running true).
Proof. vm_compute. done. Qed.

(** [UserMessageAdded] carries a request id too, and keeps the original's. *)
Lemma user_message_keeps_its_request_id {Other} c r x k rid :
  restamp_request_id (UserMessageAdded c r x k : TurnEvent (Other := Other)) rid = UserMessageAdded c r x k.
Proof. done. Qed.
