(* ===== verification/Authz.v ===== *)
(** * Authorization

    Models [crates/transport-dispatch/src/authz.rs], the capability type of
    [crates/api-model/src/lib.rs], the identity type of
    [crates/auth-jwt/src/lib.rs] and the validators of
    [crates/daemon/src/transports.rs]: who a connection is, what it may do, and
    what each command costs.  Token verification (HS256 and OIDC) is a library
    and an identity provider, so it is a parameter. *)

From S2P Require Import Prelude.

(** ** Capabilities *)

Inductive Capability := Tenant | Admin | OtherLevel (level : string).

#[export] Instance Capability_eq_dec : EqDecision Capability.
Proof. solve_decision. Defined.

Definition permits (held required : Capability) : bool :=
  match held, required with
  | Admin, Admin => true
  | Admin, Tenant => true
  | Tenant, Tenant => true
  | Tenant, Admin => false
  | OtherLevel _, Tenant => false
  | OtherLevel _, Admin => false
  | OtherLevel _, OtherLevel _ => false
  | Tenant, OtherLevel _ => false
  | Admin, OtherLevel _ => false
  end.

Definition rank (c : Capability) : nat := match c with Tenant => 0 | OtherLevel _ => 0 | Admin => 1 end.
Definition strongest (c other : Capability) : Capability := if (rank c <? rank other)%nat then other else c.

Definition capability_as_str (c : Capability) : string :=
  match c with Tenant => "tenant" | Admin => "admin" | OtherLevel l => l end.
Definition capability_label (c : Capability) : string :=
  match c with Tenant => "tenant" | Admin => "administrator" | OtherLevel l => l end.
Definition capability_from_string (s : string) : Capability :=
  if String.eqb s "tenant" then Tenant else if String.eqb s "admin" then Admin else OtherLevel s.

(** ** Identities and the allowlist *)

Definition DEFAULT_USER_ID : string := "default".
Definition names_a_subject (user : string) : bool := negb (String.eqb (trim user) EmptyString).

(** [AdminSubjects]: the set and whether the sentinel was dropped. *)
Definition AdminSubjects_new (subjects : list string) : gset string * bool :=
  let trimmed := List.filter (λ s, negb (String.eqb s EmptyString)) (map trim subjects) in
  (list_to_set (List.filter (λ s, negb (String.eqb s DEFAULT_USER_ID)) trimmed),
   existsb (λ s, String.eqb s DEFAULT_USER_ID) trimmed).

Definition capability_for (admins : gset string) (subject : string) : Capability :=
  let subject := trim subject in
  if negb (String.eqb subject EmptyString) && bool_decide (subject ∈ admins) then Admin else Tenant.

Definition capability_for_local_peer (peer_uid daemon_uid : Z) : Capability :=
  if (peer_uid =? daemon_uid)%Z then Admin else Tenant.

(** ** Validators *)

Record TokenValidator := {
  validate_bearer_token : string → bool;
  extract_user_id : string → option string
}.

(** [OidcAwareAuth]: the local mint first, then the identity provider; the
    subject is read by the validator that accepted. *)
Definition oidc_aware (local : TokenValidator) (oidc_validate : string → bool) (oidc_sub : string → option string) : TokenValidator :=
  {| validate_bearer_token := λ t, if validate_bearer_token local t then true else oidc_validate t;
     extract_user_id := λ t,
       if validate_bearer_token local t then extract_user_id local t
       else if oidc_validate t then oidc_sub t
       else None |}.

Record PeerIdentity := { peer_uid : Z; peer_username : string; peer_real_name : option string; peer_home_dir : option string }.

Inductive UdsAuth := AuthAllow (user : string) (c : Capability) | AuthReject (reason : string).

Record PeerCredUdsAuth := { jwt_fallback : TokenValidator; daemon_uid : Z; admin_subjects : gset string }.

Definition authenticate (v : PeerCredUdsAuth) (token : option string) (peer : option PeerIdentity) : UdsAuth :=
  match peer with
  | Some p =>
      AuthAllow (peer_username p)
        (strongest (capability_for_local_peer (peer_uid p) (daemon_uid v)) (capability_for (admin_subjects v) (peer_username p)))
  | None =>
      match token with
      | Some t =>
          if validate_bearer_token (jwt_fallback v) t then
            match extract_user_id (jwt_fallback v) t with
            | Some user =>
                if names_a_subject user then AuthAllow user (capability_for (admin_subjects v) user)
                else AuthReject "auth: token names no subject"
            | None => AuthReject "auth: token names no subject"
            end
          else AuthReject "auth: no peer credentials and no valid bearer token"
      | None => AuthReject "auth: no peer credentials and no valid bearer token"
      end
  end.

(** ** Commands

    Fields that neither the gate nor the dispatcher reads are one opaque
    payload [P]. *)
Record ConfigChanges := {
  embeddings_connector : option string;
  embeddings_model : option string;
  embeddings_base_url : option string;
  personality_professionalism : option nat;
  personality_warmth : option nat;
  personality_directness : option nat;
  personality_enthusiasm : option nat;
  personality_humor : option nat;
  personality_sarcasm : option nat;
  personality_pretentiousness : option nat
}.

Definition config_changes_capability (c : ConfigChanges) : Capability :=
  let is_some {A} (o : option A) : bool := match o with Some _ => true | None => false end in
  if is_some (embeddings_connector c) || is_some (embeddings_model c) || is_some (embeddings_base_url c)
     || is_some (personality_professionalism c) || is_some (personality_warmth c) || is_some (personality_directness c)
     || is_some (personality_enthusiasm c) || is_some (personality_humor c) || is_some (personality_sarcasm c)
     || is_some (personality_pretentiousness c)
  then Admin else Tenant.

Definition mcp_action_capability (action : string) : Capability :=
  if String.eqb action "status" then Tenant else Admin.

Record ClientContext := {
  real_name : option string;
  username : option string;
  home_dir : option string;
  hostname : option string;
  timezone : option string;
  os : option string
}.

Definition context_is_empty (c : ClientContext) : bool :=
  match real_name c, username c, home_dir c, hostname c, timezone c, os c with
  | None, None, None, None, None, None => true
  | _, _, _, _, _, _ => false
  end.

Section commands.
Context {P : Type}.

Record SendMessageArgs := {
  sm_conversation_id : string;
  sm_content : string;
  sm_override_selection : option P;
  sm_system_refinement : string;
  sm_client_context : option ClientContext;
  sm_idempotency_key : option string;
  sm_turn_id : option string;
  sm_traceparent : option string
}.

Inductive Command :=
| Ping
| GetStatus
| GetConfig
| SetConfig (changes : ConfigChanges)
| CreateConversation (p : P)
| ListConversations (p : P)
| GetConversation (p : P)
| GetMessages (p : P)
| DeleteConversation (p : P)
| RenameConversation (p : P)
| ArchiveConversation (p : P)
| UnarchiveConversation (p : P)
| ClearAllHistory
| SendMessage (m : SendMessageArgs)
| SetConversationPersonality (p : P)
| SetConversationToolGate (p : P)
| SetApiKey (p : P)
| GetEmbeddingsSettings
| SetEmbeddingsSettings (p : P)
| GetConnectorDefaults (p : P)
| GetDatabaseSettings
| SetDatabaseSettings (p : P)
| GetBackendTasksSettings
| SetBackendTasksSettings (p : P)
| GetWsAuthSettings
| SetWsAuthSettings (p : P)
| ListConnections
| CreateConnection (p : P)
| UpdateConnection (p : P)
| DeleteConnection (p : P)
| SetConnectionSecret (p : P)
| ListAvailableModels (p : P)
| GetPurposes
| SetPurpose (p : P)
| GetToolUsage (p : P)
| ListContextBreakdowns (p : P)
| GetContextBreakdown (p : P)
| ListKnowledgeEntries (p : P)
| GetKnowledgeEntry (p : P)
| SearchKnowledgeEntries (p : P)
| CreateKnowledgeEntry (p : P)
| UpdateKnowledgeEntry (p : P)
| DeleteKnowledgeEntry (p : P)
| GetKnowledgeTrashCount
| EmptyKnowledgeTrash
| StartKnowledgeMaintenance (p : P)
| ListMcpServers
| AddMcpServer (p : P)
| RemoveMcpServer (p : P)
| SetMcpServerEnabled (p : P)
| McpServerAction (action : string) (server : P)
| UpsertMcpServer (p : P)
| SetMcpSecret (p : P)
| ListServiceAccounts
| UpsertServiceAccount (p : P)
| RemoveServiceAccount (p : P)
| ListBackgroundTasks (p : P)
| GetBackgroundTask (p : P)
| CancelBackgroundTask (p : P)
| GetBackgroundTaskLogs (p : P)
| SubscribeBackgroundTasks
| UnsubscribeBackgroundTasks
| SubscribeConversations (conversation_ids : list string)
| SpawnStandaloneAgent (p : P)
| GetConversationScratchpad (p : P)
| SetScratchpadNote (p : P)
| DeleteScratchpadNotes (p : P)
| RegisterClientTools (p : P)
| ClientToolResult (p : P)
| ListNegativeMemories
| GetNegativeMemory (p : P)
| ClearNegativeMemory (p : P)
| ListSkills (p : P)
| SetSkillApproval (p : P).

Definition classify (cmd : Command) : string * Capability :=
  match cmd with
  | Ping => ("ping", Tenant)
  | GetStatus => ("get_status", Tenant)
  | GetConfig => ("get_config", Tenant)
  | SetConfig changes => ("set_config", config_changes_capability changes)
  | CreateConversation _ => ("create_conversation", Tenant)
  | ListConversations _ => ("list_conversations", Tenant)
  | GetConversation _ => ("get_conversation", Tenant)
  | GetMessages _ => ("get_messages", Tenant)
  | DeleteConversation _ => ("delete_conversation", Tenant)
  | RenameConversation _ => ("rename_conversation", Tenant)
  | ArchiveConversation _ => ("archive_conversation", Tenant)
  | UnarchiveConversation _ => ("unarchive_conversation", Tenant)
  | ClearAllHistory => ("clear_all_history", Tenant)
  | SendMessage _ => ("send_message", Tenant)
  | SetConversationPersonality _ => ("set_conversation_personality", Tenant)
  | SetConversationToolGate _ => ("set_conversation_tool_gate", Tenant)
  | SetApiKey _ => ("set_api_key", Admin)
  | GetEmbeddingsSettings => ("get_embeddings_settings", Tenant)
  | SetEmbeddingsSettings _ => ("set_embeddings_settings", Admin)
  | GetConnectorDefaults _ => ("get_connector_defaults", Tenant)
  | GetDatabaseSettings => ("get_database_settings", Tenant)
  | SetDatabaseSettings _ => ("set_database_settings", Admin)
  | GetBackendTasksSettings => ("get_backend_tasks_settings", Tenant)
  | SetBackendTasksSettings _ => ("set_backend_tasks_settings", Admin)
  | GetWsAuthSettings => ("get_ws_auth_settings", Tenant)
  | SetWsAuthSettings _ => ("set_ws_auth_settings", Admin)
  | ListConnections => ("list_connections", Tenant)
  | CreateConnection _ => ("create_connection", Admin)
  | UpdateConnection _ => ("update_connection", Admin)
  | DeleteConnection _ => ("delete_connection", Admin)
  | SetConnectionSecret _ => ("set_connection_secret", Admin)
  | ListAvailableModels _ => ("list_available_models", Tenant)
  | GetPurposes => ("get_purposes", Tenant)
  | SetPurpose _ => ("set_purpose", Admin)
  | GetToolUsage _ => ("get_tool_usage", Tenant)
  | ListContextBreakdowns _ => ("list_context_breakdowns", Tenant)
  | GetContextBreakdown _ => ("get_context_breakdown", Tenant)
  | ListKnowledgeEntries _ => ("list_knowledge_entries", Tenant)
  | GetKnowledgeEntry _ => ("get_knowledge_entry", Tenant)
  | SearchKnowledgeEntries _ => ("search_knowledge_entries", Tenant)
  | CreateKnowledgeEntry _ => ("create_knowledge_entry", Tenant)
  | UpdateKnowledgeEntry _ => ("update_knowledge_entry", Tenant)
  | DeleteKnowledgeEntry _ => ("delete_knowledge_entry", Tenant)
  | GetKnowledgeTrashCount => ("get_knowledge_trash_count", Tenant)
  | EmptyKnowledgeTrash => ("empty_knowledge_trash", Tenant)
  | StartKnowledgeMaintenance _ => ("start_knowledge_maintenance", Admin)
  | ListMcpServers => ("list_mcp_servers", Tenant)
  | AddMcpServer _ => ("add_mcp_server", Admin)
  | RemoveMcpServer _ => ("remove_mcp_server", Admin)
  | SetMcpServerEnabled _ => ("set_mcp_server_enabled", Admin)
  | McpServerAction action _ => ("mcp_server_action", mcp_action_capability action)
  | UpsertMcpServer _ => ("upsert_mcp_server", Admin)
  | SetMcpSecret _ => ("set_mcp_secret", Admin)
  | ListServiceAccounts => ("list_service_accounts", Tenant)
  | UpsertServiceAccount _ => ("upsert_service_account", Admin)
  | RemoveServiceAccount _ => ("remove_service_account", Admin)
  | ListBackgroundTasks _ => ("list_background_tasks", Tenant)
  | GetBackgroundTask _ => ("get_background_task", Tenant)
  | CancelBackgroundTask _ => ("cancel_background_task", Tenant)
  | GetBackgroundTaskLogs _ => ("get_background_task_logs", Tenant)
  | SubscribeBackgroundTasks => ("subscribe_background_tasks", Tenant)
  | UnsubscribeBackgroundTasks => ("unsubscribe_background_tasks", Tenant)
  | SubscribeConversations _ => ("subscribe_conversations", Tenant)
  | SpawnStandaloneAgent _ => ("spawn_standalone_agent", Tenant)
  | GetConversationScratchpad _ => ("get_conversation_scratchpad", Tenant)
  | SetScratchpadNote _ => ("set_scratchpad_note", Tenant)
  | DeleteScratchpadNotes _ => ("delete_scratchpad_notes", Tenant)
  | RegisterClientTools _ => ("register_client_tools", Tenant)
  | ClientToolResult _ => ("client_tool_result", Tenant)
  | ListNegativeMemories => ("list_negative_memories", Tenant)
  | GetNegativeMemory _ => ("get_negative_memory", Tenant)
  | ClearNegativeMemory _ => ("clear_negative_memory", Tenant)
  | ListSkills _ => ("list_skills", Tenant)
  | SetSkillApproval _ => ("set_skill_approval", Tenant)
  end.

Definition required_capability (cmd : Command) : Capability := (classify cmd).2.
Definition command_name (cmd : Command) : string := (classify cmd).1.

(** The gate has two levels: no command costs a level nobody is granted, so an
    administrator is never shut out and a tenant is refused exactly what costs
    administration. *)
Lemma required_levels cmd : required_capability cmd = Tenant ∨ required_capability cmd = Admin.
Proof.
  destruct cmd; try (by left); try (by right); unfold required_capability, classify; simpl.
  - unfold config_changes_capability. case_match; auto.
  - unfold mcp_action_capability. case_match; auto.
Qed.

Lemma permits_required held cmd :
  permits held (required_capability cmd) = true ↔
  held = Admin ∨ held = Tenant ∧ required_capability cmd = Tenant.
Proof. destruct held, (required_levels cmd) as [->| ->]; naive_solver. Qed.

End commands.

Arguments Command : clear implicits.
Arguments SendMessageArgs : clear implicits.

(** A level this build does not know survives the wire unchanged. *)
Lemma capability_wire_roundtrip c :
  (∀ l, c = OtherLevel l → l ≠ "tenant" ∧ l ≠ "admin") → capability_from_string (capability_as_str c) = c.
Proof.
  intros Hc. destruct c as [| |l]; [done..|]. destruct (Hc l eq_refl) as [H1 H2]. unfold capability_from_string. simpl.
  by rewrite (proj2 (String.eqb_neq _ _) H1), (proj2 (String.eqb_neq _ _) H2).
Qed.

Lemma admin_subjects_elem subjects s :
  s ∈ (AdminSubjects_new subjects).1 ↔ s ≠ EmptyString ∧ s ≠ DEFAULT_USER_ID ∧ ∃ c, c ∈ subjects ∧ trim c = s.
Proof.
  unfold AdminSubjects_new. cbn [fst]. rewrite elem_of_list_to_set, list_elem_of_In, !filter_In, in_map_iff.
  rewrite !negb_true_iff, !String.eqb_neq. setoid_rewrite <- list_elem_of_In. naive_solver.
Qed.

Lemma capability_for_Admin subjects user :
  capability_for (AdminSubjects_new subjects).1 user = Admin ↔
  trim user ≠ EmptyString ∧ trim user ≠ DEFAULT_USER_ID ∧ ∃ c, c ∈ subjects ∧ trim c = trim user.
Proof.
  unfold capability_for. destruct (String.eqb_spec (trim user) EmptyString) as [E|E]; simpl; [naive_solver|].
  rewrite <- (admin_subjects_elem subjects (trim user)) by done. case_bool_decide; split; (done || naive_solver).
Qed.

Lemma strongest_Admin c d : strongest c d = Admin ↔ c = Admin ∨ d = Admin.
Proof. destruct c, d; cbv; naive_solver. Qed.

Lemma strongest_levels c d : c = Admin ∨ c = Tenant → d = Admin ∨ d = Tenant → strongest c d = Admin ∨ strongest c d = Tenant.
Proof. intros [-> | ->] [-> | ->]; cbv; auto. Qed.

Lemma capability_for_levels admins user :
  capability_for admins user = Tenant ∨ capability_for admins user = Admin.
Proof. unfold capability_for. case_match; auto. Qed.

(** C23. A connection is an administrator only when the kernel says it runs as
    the daemon's own account, or the operator's list names its subject: never
    for a blank subject, never for the storage sentinel, and never on the
    strength of a token alone. *)
Theorem administrators_are_attested_or_listed (jwt : TokenValidator) (duid : Z) (subjects : list string)
    (token : option string) (peer : option PeerIdentity) (user : string) (c : Capability)
    (Hauth : authenticate {| jwt_fallback := jwt; daemon_uid := duid; admin_subjects := (AdminSubjects_new subjects).1 |} token peer
             = AuthAllow user c) :
  (c = Admin ↔
    (∃ p, peer = Some p ∧ peer_uid p = duid) ∨
    trim user ≠ EmptyString ∧ trim user ≠ DEFAULT_USER_ID ∧ ∃ s, s ∈ subjects ∧ trim s = trim user) ∧
  (c = Admin ∨ c = Tenant) ∧
  match peer with
  | Some p => user = peer_username p
  | None => ∃ t, token = Some t ∧ validate_bearer_token jwt t = true ∧ extract_user_id jwt t = Some user ∧ names_a_subject user = true
  end.
Proof.
  unfold authenticate in Hauth. cbn [jwt_fallback daemon_uid admin_subjects] in Hauth. destruct peer as [p|].
  - injection Hauth as <- <-. split; [|split; [|done]].
    + rewrite <- capability_for_Admin, strongest_Admin. unfold capability_for_local_peer. destruct (Z.eqb_spec (peer_uid p) duid); naive_solver.
    + apply strongest_levels; [unfold capability_for_local_peer; case_match; auto|].
      destruct (capability_for_levels (AdminSubjects_new subjects).1 (peer_username p)); auto.
  - destruct token as [t|]; [|done]. destruct (validate_bearer_token jwt t) eqn:Hv; [|done].
    destruct (extract_user_id jwt t) as [u|] eqn:Hu; [|done]. destruct (names_a_subject u) eqn:Hn; [|done].
    injection Hauth as -> <-. rewrite <- capability_for_Admin. split_and!.
    + split; [by right|]. intros [(p & ? & _)|?]; done.
    + destruct (capability_for_levels (AdminSubjects_new subjects).1 user); auto.
    + by exists t.
Qed.

Lemma administrators_are_attested_or_listed_witness :
  let v := {| jwt_fallback := {| validate_bearer_token := λ t, String.eqb t "good"; extract_user_id := λ _, Some "default" |};
              daemon_uid := 1000; admin_subjects := (AdminSubjects_new ["default"; "ada "; "  "]).1 |} in
  authenticate v (Some "good") None = AuthAllow "default" Tenant ∧
  ¬ (Tenant = Admin).
Proof.
  intros v. assert (Ha : authenticate v (Some "good") None = AuthAllow "default" Tenant) by by vm_compute.
  split; [done|]. intros HA. destruct (administrators_are_attested_or_listed _ 1000 _ _ _ _ _ Ha) as [[H _] _].
  destruct (H HA) as [(p & ? & _)|(_ & Hd & _)]; [done|]. by apply Hd; vm_compute.
Defined.

(** The subject is always read by the validator that accepted the token. *)
Lemma identity_follows_acceptance local ov os t u :
  extract_user_id (oidc_aware local ov os) t = Some u →
  validate_bearer_token (oidc_aware local ov os) t = true ∧
  (validate_bearer_token local t = true ∧ extract_user_id local t = Some u ∨
   validate_bearer_token local t = false ∧ ov t = true ∧ os t = Some u).
Proof. simpl. destruct (validate_bearer_token local t), (ov t); naive_solver. Qed.
