(* ===== verification/Tokens.v ===== *)
(** * The network door's tokens

    Models [crates/auth-jwt/src/lib.rs] (the claims and the signing-key file)
    and [crates/daemon/src/config/jwt.rs] (issuing, validating and revoking a
    token).  Signing and verification are the [jsonwebtoken] library, a
    parameter with its documented laws, its leeway among them; so are JSON and
    the random key.  A file is its content or nothing; a write opens and
    truncates, then writes, so it can fail before the first or tear after it.
    The process-wide lock makes each operation on the deny-list one step. *)

From S2P Require Import Prelude Authz.

#[local] Open Scope Z_scope.

(** ** Claims and identity *)

Record Claims := { iss : string; sub : string; aud : string; exp : Z; iat : Z; nbf : Z; jti : string }.

#[export] Instance Claims_eq_dec : EqDecision Claims.
Proof. solve_decision. Defined.

Record Hs256Identity := { issuer : string; audience : string }.

(** A trimmed, non-empty value. *)
Definition non_empty (s : option string) : option string :=
  match s with
  | Some v => if String.eqb (trim v) EmptyString then None else Some (trim v)
  | None => None
  end.

Record Env := {
  env_user : option string;
  env_logname : option string;
  env_hostname : option string;
  kernel_hostname : option string;
  etc_hostname : option string
}.

Definition local_hostname (e : Env) : string :=
  match non_empty (kernel_hostname e), non_empty (etc_hostname e) with
  | Some h, _ => h
  | None, Some h => h
  | None, None => default "desktop-assistant.local" (non_empty (env_hostname e))
  end.

Definition current_username (e : Env) : string :=
  default "desktop-user" (non_empty (match env_user e with Some u => Some u | None => env_logname e end)).

Definition default_hs256_identity (e : Env) : Hs256Identity :=
  {| issuer := local_hostname e; audience := current_username e +:+ ".adelie-ai" |}.

Definition resolve_hs256_identity (e : Env) (i a : option string) : Hs256Identity :=
  {| issuer := default (issuer (default_hs256_identity e)) (non_empty i);
     audience := default (audience (default_hs256_identity e)) (non_empty a) |}.

Definition normalize_ws_jwt_subject (e : Env) (subject : option string) : string :=
  default (current_username e) (non_empty subject).

Definition default_ws_jwt_ttl_seconds : Z := 60 * 60.

(** ** Files *)

Inductive WriteOutcome := Written | OpenFailed | Torn (content : string).

(** [write_signing_key_at]: whether it succeeded, and the file after. *)
Definition write_signing_key_at (f : option string) (value : string) (w : WriteOutcome) : bool * option string :=
  match w with Written => (true, Some value) | OpenFailed => (false, f) | Torn content => (false, Some content) end.

Definition read_signing_key_at (f : option string) : option string := non_empty f.

Definition ensure_signing_key_at (f : option string) (generated : string) (w : WriteOutcome) : option string * option string :=
  match read_signing_key_at f with
  | Some existing => (Some existing, f)
  | None =>
      let '(ok, f) := write_signing_key_at f generated w in
      ((if ok then Some generated else None), f)
  end.

Record Disk := { key_file : option string; revocation_file : option string }.

(** ** The libraries *)

(** A clock reading; none is a clock before the epoch. *)
Notation Clock := (option Z) (only parsing).

Class Jwt := {
  jwt_encode : Claims → string → option string;
  jwt_decode : string → string → string → string → Clock → option Claims;
  leeway : Z;
  jwt_decode_sound t k i a now c :
    jwt_decode t k i a (Some now) = Some c → iss c = i ∧ aud c = a ∧ now - leeway ≤ exp c;
  jwt_decode_encode c k t now :
    jwt_encode c k = Some t → now - leeway ≤ exp c → jwt_decode t k (iss c) (aud c) (Some now) = Some c;
  jwt_decode_encoded c k t i a clock c' : jwt_encode c k = Some t → jwt_decode t k i a clock = Some c' → c' = c;
  jwt_shape c k t : jwt_encode c k = Some t → trim t = t ∧ t ≠ EmptyString
}.

Class RevocationJson := {
  parse_revocations : string → option (gmap string Z);
  print_revocations : gmap string Z → string;
  parse_print m : parse_revocations (print_revocations m) = Some m
}.

Section tokens.
Context `{!Jwt} `{!RevocationJson} (e : Env) (id : Hs256Identity).

(** ** Issuing *)

Definition encode_ws_jwt (d : Disk) (c : Claims) (generated : string) (w : WriteOutcome) : option string * Disk :=
  let '(key, f) := ensure_signing_key_at (key_file d) generated w in
  let d := {| key_file := f; revocation_file := revocation_file d |} in
  ((k ← key; jwt_encode c k), d).

Definition generate_ws_jwt (d : Disk) (subject : option string) (clock : Clock) (fresh_jti generated : string)
    (w : WriteOutcome) : option string * Disk :=
  match clock with
  | None => (None, d)
  | Some now =>
      encode_ws_jwt d
        {| iss := issuer id; sub := normalize_ws_jwt_subject e subject; aud := audience id;
           exp := sat_add u64_max now default_ws_jwt_ttl_seconds; iat := now; nbf := sat_sub now 1; jti := fresh_jti |}
        generated w
  end.

(** ** The deny-list *)

Definition read_revocations (d : Disk) : gmap string Z :=
  match revocation_file d with
  | None => ∅
  | Some raw => default ∅ (parse_revocations raw)
  end.

Definition write_revocations (d : Disk) (m : gmap string Z) (w : WriteOutcome) : bool * Disk :=
  let '(ok, f) := write_signing_key_at (revocation_file d) (print_revocations m) w in
  (ok, {| key_file := key_file d; revocation_file := f |}).

Definition now_secs (clock : Clock) : Z := default 0 clock.

Definition is_jti_revoked (d : Disk) (j : string) (clock : Clock) : bool :=
  match read_revocations d !! j with Some x => now_secs clock <? x | None => false end.

Definition retain_live (clock : Clock) (m : gmap string Z) : gmap string Z := filter (λ kv, now_secs clock < kv.2) m.

Definition prune_revocations (d : Disk) (clock : Clock) (w : WriteOutcome) : Disk :=
  let m := read_revocations d in
  let kept := retain_live clock m in
  if bool_decide (size kept = size m) then d else (write_revocations d kept w).2.

(** ** Validating *)

Definition decode_ws_jwt_claims_ignoring_revocation (d : Disk) (token : string) (clock : Clock) : option Claims :=
  k ← read_signing_key_at (key_file d);
  jwt_decode token k (issuer id) (audience id) clock.

Definition decode_ws_jwt_claims (d : Disk) (token : string) (clock : Clock) : option Claims :=
  c ← decode_ws_jwt_claims_ignoring_revocation d token clock;
  if is_jti_revoked d (jti c) clock then None else Some c.

Definition validate_ws_jwt (d : Disk) (token : string) (clock : Clock) : bool :=
  let token := trim token in
  if String.eqb token EmptyString then false
  else match decode_ws_jwt_claims d token clock with Some _ => true | None => false end.

Definition ws_jwt_sub (d : Disk) (token : string) (clock : Clock) : option string :=
  let token := trim token in
  if String.eqb token EmptyString then None else sub <$> decode_ws_jwt_claims d token clock.

Definition revoke_ws_jwt (d : Disk) (token : string) (clock : Clock) (w : WriteOutcome) : bool * Disk :=
  let token := trim token in
  if String.eqb token EmptyString then (false, d)
  else match decode_ws_jwt_claims_ignoring_revocation d token clock with
       | None => (false, d)
       | Some c => write_revocations d (<[jti c := exp c]> (retain_live clock (read_revocations d))) w
       end.

(** The door's token validator, as [Authz] uses it. *)
Definition ws_token_validator (d : Disk) (clock : Clock) : TokenValidator :=
  {| validate_bearer_token := λ t, validate_ws_jwt d t clock; extract_user_id := λ t, ws_jwt_sub d t clock |}.

(** ** Histories *)

Inductive TokenOp :=
| Generate (subject : option string) (clock : Clock) (fresh_jti generated : string) (w : WriteOutcome)
| Revoke (token : string) (clock : Clock) (w : WriteOutcome)
| Prune (clock : Clock) (w : WriteOutcome).

Definition token_step (d : Disk) (o : TokenOp) : Disk :=
  match o with
  | Generate s c j g w => (generate_ws_jwt d s c j g w).2
  | Revoke t c w => (revoke_ws_jwt d t c w).2
  | Prune c w => prune_revocations d c w
  end.

Definition op_clock (o : TokenOp) : Clock :=
  match o with Generate _ c _ _ _ | Revoke _ c _ | Prune c _ => c end.

Definition op_write (o : TokenOp) : WriteOutcome :=
  match o with Generate _ _ _ _ w | Revoke _ _ w | Prune _ w => w end.

Definition torn (w : WriteOutcome) : bool := match w with Torn _ => true | _ => false end.

(** ** What the door guarantees *)

Lemma non_empty_Some s v : non_empty s = Some v ↔ ∃ r, s = Some r ∧ v = trim r ∧ v ≠ EmptyString.
Proof.
  unfold non_empty. destruct s as [r|]; [|naive_solver]. destruct (String.eqb_spec (trim r) EmptyString); naive_solver.
Qed.

Lemma read_write_revocations d m : read_revocations (write_revocations d m Written).2 = m.
Proof. unfold read_revocations, write_revocations. simpl. by rewrite parse_print. Qed.

Lemma key_write_revocations d m w : key_file (write_revocations d m w).2 = key_file d.
Proof. unfold write_revocations. by destruct w. Qed.

(** What an untorn write leaves: the new list, or the old one. *)
Lemma write_revocations_cases d m w :
  torn w = false →
  read_revocations (write_revocations d m w).2 = m ∨ read_revocations (write_revocations d m w).2 = read_revocations d.
Proof.
  destruct w; [|by right|done]. intros _. left. apply read_write_revocations.
Qed.

Lemma retain_live_lookup clock m j x :
  retain_live clock m !! j = Some x ↔ m !! j = Some x ∧ now_secs clock < x.
Proof. unfold retain_live. by rewrite map_lookup_filter_Some. Qed.

Lemma generate_revocations d s c j g w : revocation_file (generate_ws_jwt d s c j g w).2 = revocation_file d.
Proof.
  unfold generate_ws_jwt, encode_ws_jwt. destruct c; [|done]. by destruct (ensure_signing_key_at _ _ _).
Qed.

(** One operation keeps a denied id denied while its token lives, unless its
    write tears or a later revocation of the same id says otherwise. *)
Lemma token_step_denies d o j x :
  read_revocations d !! j = Some x → torn (op_write o) = false → now_secs (op_clock o) < x →
  (∀ t c w cl, o = Revoke t cl w → decode_ws_jwt_claims_ignoring_revocation d (trim t) cl = Some c → jti c = j → exp c = x) →
  read_revocations (token_step d o) !! j = Some x.
Proof.
  intros Hj Hw Hnow Hsame. destruct o as [s c jt g w|t c w|c w]; simpl in *.
  - unfold read_revocations in *. by rewrite generate_revocations.
  - unfold revoke_ws_jwt. destruct (String.eqb _ _); [done|].
    destruct (decode_ws_jwt_claims_ignoring_revocation d (trim t) c) as [cl|] eqn:Hd; [|done].
    destruct (write_revocations_cases d (<[jti cl := exp cl]> (retain_live c (read_revocations d))) w Hw) as [-> | ->]; [|done].
    destruct (decide (jti cl = j)) as [<-|Hne]; [rewrite lookup_insert_eq; f_equal; by eapply Hsame|].
    rewrite lookup_insert_ne by done. by apply retain_live_lookup.
  - unfold prune_revocations. case_bool_decide; [done|].
    destruct (write_revocations_cases d (retain_live c (read_revocations d)) w Hw) as [-> | ->]; [|done].
    by apply retain_live_lookup.
Qed.

(** C27. A revoked token is refused for the rest of its life: whatever is
    issued, revoked or pruned afterwards, no token with its id is accepted or
    yields a subject before the expiry it was revoked with.  (No write tears,
    and an id belongs to one token.) *)
Theorem revoked_token_stays_refused (d : Disk) (t : string) (clock : Clock) (c : Claims) (ops : list TokenOp)
    (t' : string) (clock' : Clock)
    (Hdecode : decode_ws_jwt_claims_ignoring_revocation d (trim t) clock = Some c)
    (Hok : (revoke_ws_jwt d t clock Written).1 = true)
    (Hclean : ∀ o, o ∈ ops → torn (op_write o) = false ∧ now_secs (op_clock o) < exp c)
    (Hone : ∀ o d' u w cl c', o ∈ ops → o = Revoke u cl w →
       decode_ws_jwt_claims_ignoring_revocation d' (trim u) cl = Some c' → jti c' = jti c → exp c' = exp c)
    (Hlive : now_secs clock' < exp c) :
  let d' := foldl token_step (revoke_ws_jwt d t clock Written).2 ops in
  (∀ c', decode_ws_jwt_claims_ignoring_revocation d' (trim t') clock' = Some c' → jti c' = jti c →
     validate_ws_jwt d' t' clock' = false ∧ ws_jwt_sub d' t' clock' = None).
Proof.
  intros d'. assert (Hdenied : read_revocations d' !! jti c = Some (exp c)).
  { unfold d'. assert (Hfirst : read_revocations (revoke_ws_jwt d t clock Written).2 !! jti c = Some (exp c)).
    { unfold revoke_ws_jwt in *. destruct (String.eqb _ _); [done|]. rewrite Hdecode in *.
      by rewrite read_write_revocations, lookup_insert_eq. }
    revert Hfirst. generalize (revoke_ws_jwt d t clock Written).2. clear d' Hok Hdecode.
    induction ops as [|o ops IH]; intros d0 Hfirst; [done|]. simpl. apply IH.
    - intros o' Ho'. apply Hclean. by right.
    - intros o' d1 u w cl c' Ho'. apply Hone. by right.
    - destruct (Hclean o (list_elem_of_here _ _)) as [Hw Hnow]. apply token_step_denies; [done..|].
      intros u c' w cl -> Hd Hj. by eapply (Hone _ d0 u w cl c' (list_elem_of_here _ _)). }
  intros c' Hc' Hj. assert (Hno : decode_ws_jwt_claims d' (trim t') clock' = None).
  { unfold decode_ws_jwt_claims. rewrite Hc'. simpl. unfold is_jti_revoked. rewrite Hj, Hdenied.
    by rewrite (proj2 (Z.ltb_lt _ _) Hlive). }
  unfold validate_ws_jwt, ws_jwt_sub. rewrite Hno. by destruct (String.eqb _ _).
Qed.

Lemma default_non_empty s d : d ≠ EmptyString → default d (non_empty s) ≠ EmptyString.
Proof. intros Hd. destruct (non_empty s) eqn:Hs; [|done]. by apply non_empty_Some in Hs as (r & _ & -> & ?). Qed.

Lemma subject_names_somebody subject : normalize_ws_jwt_subject e subject ≠ EmptyString.
Proof. unfold normalize_ws_jwt_subject, current_username. by repeat apply default_non_empty. Qed.

Lemma ensured_key_is_read_back f g w k f' :
  trim g = g → g ≠ EmptyString → ensure_signing_key_at f g w = (Some k, f') → read_signing_key_at f' = Some k.
Proof.
  intros Hg Hne. unfold ensure_signing_key_at. destruct (read_signing_key_at f) as [k0|] eqn:Hr; [intros [= <- <-]; done|].
  destruct w; simpl; intros [= <- <-]. unfold read_signing_key_at, non_empty. rewrite Hg.
  by rewrite (proj2 (String.eqb_neq _ _) Hne).
Qed.

(** A token the daemon issues is accepted for as long as it lives and not
    a second longer than the library's leeway allows, unless revoked, and it
    names the subject it was issued for, who is never nobody. *)
Theorem issued_token_names_its_owner (d : Disk) (subject : option string) (now : Z) (j g t : string) (w : WriteOutcome)
    (d' : Disk) (now' : Z)
    (Hg : trim g = g) (Hne : g ≠ EmptyString)
    (Hissue : generate_ws_jwt d subject (Some now) j g w = (Some t, d'))
    (Hfree : is_jti_revoked d' j (Some now') = false) :
  let life := sat_add u64_max now default_ws_jwt_ttl_seconds in
  normalize_ws_jwt_subject e subject ≠ EmptyString ∧
  (now' - leeway ≤ life → validate_ws_jwt d' t (Some now') = true ∧
     ws_jwt_sub d' t (Some now') = Some (normalize_ws_jwt_subject e subject)) ∧
  (life < now' - leeway → validate_ws_jwt d' t (Some now') = false ∧ ws_jwt_sub d' t (Some now') = None).
Proof.
  intros life. split; [apply subject_names_somebody|]. unfold generate_ws_jwt, encode_ws_jwt in Hissue.
  destruct (ensure_signing_key_at (key_file d) g w) as [key f] eqn:Hkey. injection Hissue as Henc Hd'.
  destruct key as [k|]; [|done]. simpl in Henc. apply (ensured_key_is_read_back _ g w) in Hkey; [|done..].
  set (c := Build_Claims _ _ _ _ _ _ _) in Henc. destruct (jwt_shape c k t Henc) as [Htrim Htne].
  assert (Hdec : ∀ r, jwt_decode t k (issuer id) (audience id) (Some now') = r →
    decode_ws_jwt_claims d' t (Some now') = match r with Some c' => if is_jti_revoked d' (jti c') (Some now') then None else Some c' | None => None end).
  { intros r Hr. unfold decode_ws_jwt_claims, decode_ws_jwt_claims_ignoring_revocation.
    rewrite <- Hd' at 1. cbn [key_file]. rewrite Hkey. simpl. by rewrite Hr. }
  unfold validate_ws_jwt, ws_jwt_sub. rewrite Htrim, (proj2 (String.eqb_neq _ _) Htne). split; intros Hlife.
  - pose proof (jwt_decode_encode c k t now' Henc Hlife) as Hok. rewrite (Hdec _ Hok). cbn [jti c]. by rewrite Hfree.
  - destruct (jwt_decode t k (issuer id) (audience id) (Some now')) as [c'|] eqn:Hr; [|by rewrite (Hdec _ eq_refl)].
    pose proof (jwt_decode_encoded _ _ _ _ _ _ _ Henc Hr) as ->. apply jwt_decode_sound in Hr as (_ & _ & Hr).
    unfold c in Hr. simpl in Hr. fold life in Hr. lia.
Qed.

End tokens.

(** ** Processes that ensure the key at the same time

    Each reads, opens with truncation and writes from the start of the file,
    as separate steps. *)

Inductive EnsurePc := Reading | Opening (key : string) | Writing (key : string) | Returned (key : string) | Errored.

Record KeyWorld := { shared_file : option string; processes : list EnsurePc }.

(** Writing at offset zero leaves what is past the end of the write. *)
Definition overwrite (f : option string) (v : string) : string :=
  v +:+ drop_bytes (String.length v) (default EmptyString f).

Definition ensure_pc (generated : string) (f : option string) (pc : EnsurePc) (ok : bool) : option string * EnsurePc :=
  match pc with
  | Reading => match read_signing_key_at f with Some k => (f, Returned k) | None => (f, Opening generated) end
  | Opening k => if ok then (Some EmptyString, Writing k) else (f, Errored)
  | Writing k => if ok then (Some (overwrite f k), Returned k) else (f, Errored)
  | Returned k => (f, Returned k)
  | Errored => (f, Errored)
  end.

Definition ensure_step (gen : nat → string) (w : KeyWorld) (s : nat * bool) : KeyWorld :=
  match processes w !! s.1 with
  | Some pc =>
      let '(f, pc) := ensure_pc (gen s.1) (shared_file w) pc s.2 in
      {| shared_file := f; processes := <[s.1 := pc]> (processes w) |}
  | None => w
  end.

Definition ensure_run (gen : nat → string) (w : KeyWorld) (schedule : list (nat * bool)) : KeyWorld :=
  foldl (ensure_step gen) w schedule.

(** A key that is on disk is the key: however processes that ensure it are
    interleaved, none writes, none fails, and all that return return it. *)
Theorem stored_key_is_everyones (gen : nat → string) (f : option string) (k : string) (n : nat)
    (schedule : list (nat * bool)) (Hstored : read_signing_key_at f = Some k) :
  let w := ensure_run gen {| shared_file := f; processes := replicate n Reading |} schedule in
  shared_file w = f ∧ Forall (λ pc, pc = Reading ∨ pc = Returned k) (processes w).
Proof.
  intros w. assert (Hinv : shared_file w = f ∧ ∀ i pc, processes w !! i = Some pc → pc = Reading ∨ pc = Returned k).
  { unfold w, ensure_run. induction schedule as [|s schedule IH] using rev_ind.
    { split; [done|]. intros i pc [? _]%lookup_replicate. auto. }
    rewrite foldl_app. cbn [foldl]. destruct IH as [Hf Hpcs]. set (w0 := foldl _ _ _) in *. unfold ensure_step.
    destruct (processes w0 !! s.1) as [pc|] eqn:Hpc; [|done]. rewrite Hf.
    destruct (Hpcs _ _ Hpc) as [-> | ->]; simpl; rewrite ?Hstored; simpl; (split; [done|]);
      intros i pc' [(<- & <- & _)|[_ ?]]%list_lookup_insert_Some; eauto. }
  destruct Hinv as [Hf Hpcs]. split; [done|]. by apply Forall_lookup.
Qed.

Lemma stored_key_is_everyones_witness :
  processes (ensure_run (λ _, "new") {| shared_file := Some "old "; processes := replicate 2 Reading |} [(0, true); (1, true)]%nat)
  = [Returned "old"; Returned "old"] ∧
  Forall (λ pc, pc = Reading ∨ pc = Returned "old")
    (processes (ensure_run (λ _, "new") {| shared_file := Some "old "; processes := replicate 2 Reading |} [(0, true); (1, true)]%nat)).
Proof. split; [reflexivity|]. by apply (stored_key_is_everyones (λ _, "new") (Some "old ") "old" 2). Defined.

(** Two processes that start without a key return different keys, and tokens
    signed with the first do not verify against the file. *)
Lemma racing_processes_get_two_keys :
  let gen i := match i with O => "aaaa" | _ => "bbbb" end in
  let w := ensure_run gen {| shared_file := None; processes := [Reading; Reading] |}
             [(0, true); (1, true); (0, true); (0, true); (1, true); (1, true)]%nat in
  processes w = [Returned "aaaa"; Returned "bbbb"] ∧ read_signing_key_at (shared_file w) = Some "bbbb".
Proof. done. Qed.

(** ** Concrete runs *)

Module Concrete.

(** A signer that knows one token, with the library's leeway of a minute. *)
Definition c0 : Claims :=
  {| iss := "h"; sub := "ada"; aud := "a"; exp := 4600; iat := 1000; nbf := 999; jti := "j" |}.

Definition one_encode (c : Claims) (k : string) : option string :=
  if bool_decide (c = c0) && String.eqb k "k0" then Some "t" else None.

Definition one_decode (t k i a : string) (clock : Clock) : option Claims :=
  if String.eqb t "t" && String.eqb k "k0" && String.eqb i "h" && String.eqb a "a"
     && match clock with Some now => now - 60 <=? 4600 | None => false end
  then Some c0 else None.

Lemma one_encode_Some c k t : one_encode c k = Some t → c = c0 ∧ k = "k0" ∧ t = "t".
Proof.
  unfold one_encode. case_bool_decide as Hc; [|done]. simpl. destruct (String.eqb_spec k "k0"); [|done]. by intros [= <-].
Qed.

Lemma one_decode_Some t k i a clock c :
  one_decode t k i a clock = Some c → c = c0 ∧ i = "h" ∧ a = "a" ∧ ∃ now, clock = Some now ∧ now - 60 ≤ 4600.
Proof.
  unfold one_decode. destruct (String.eqb t "t"), (String.eqb k "k0"); try done. simpl.
  destruct (String.eqb_spec i "h") as [->|], (String.eqb_spec a "a") as [->|]; try done.
  destruct clock as [now|]; [|done]. simpl. destruct (Z.leb_spec (now - 60) 4600); [|done]. intros [= <-]. eauto 10.
Qed.

#[global] Program Instance one_token : Jwt := {| jwt_encode := one_encode; jwt_decode := one_decode; leeway := 60 |}.
Next Obligation. intros t k i a now c (-> & -> & -> & n & [= ->] & ?)%one_decode_Some. done. Qed.
Next Obligation.
  intros c k t now (-> & -> & ->)%one_encode_Some Hnow. unfold one_decode. simpl in *.
  by rewrite (proj2 (Z.leb_le _ _) Hnow).
Qed.
Next Obligation. by intros c k t i a clock c' (-> & -> & ->)%one_encode_Some (-> & _)%one_decode_Some. Qed.
Next Obligation. intros c k t (-> & -> & ->)%one_encode_Some. by vm_compute. Qed.

(** Maps as the digits of their codes. *)
Fixpoint pos_string (p : positive) : string :=
  match p with
  | xH => "."
  | xO q => String (Ascii.ascii_of_nat 48) (pos_string q)
  | xI q => String (Ascii.ascii_of_nat 49) (pos_string q)
  end.

Fixpoint string_pos (s : string) : option positive :=
  match s with
  | EmptyString => None
  | String a rest =>
      if Ascii.eqb a (Ascii.ascii_of_nat 46) then Some xH
      else if Ascii.eqb a (Ascii.ascii_of_nat 48) then xO <$> string_pos rest
      else xI <$> string_pos rest
  end.

Definition coded_print (m : gmap string Z) : string := pos_string (encode m).
Definition coded_parse (s : string) : option (gmap string Z) := string_pos s ≫= decode.

Lemma coded_parse_print m : coded_parse (coded_print m) = Some m.
Proof.
  assert (Hs : ∀ p, string_pos (pos_string p) = Some p).
  { induction p as [p IH|p IH|]; simpl; [by rewrite IH..|done]. }
  unfold coded_parse, coded_print. rewrite Hs. apply decode_encode.
Qed.

#[global] Instance coded_json : RevocationJson :=
  {| print_revocations := coded_print; parse_revocations := coded_parse; parse_print := coded_parse_print |}.

Definition e0 : Env := {| env_user := None; env_logname := None; env_hostname := None; kernel_hostname := None; etc_hostname := None |}.
Definition id0 : Hs256Identity := {| issuer := "h"; audience := "a" |}.
Definition d0 : Disk := {| key_file := Some "k0"; revocation_file := None |}.

Lemma issued_token_names_its_owner_witness :
  let '(t, d') := generate_ws_jwt e0 id0 {| key_file := None; revocation_file := None |} (Some " ada ") (Some 1000) "j" "k0" Written in
  t = Some "t" ∧ validate_ws_jwt id0 d' "t" (Some 4600) = true ∧ validate_ws_jwt id0 d' "t" (Some 4661) = false.
Proof.
  split; [reflexivity|]. assert (Hi : generate_ws_jwt e0 id0 {| key_file := None; revocation_file := None |} (Some " ada ") (Some 1000) "j" "k0" Written
    = (Some "t", {| key_file := Some "k0"; revocation_file := None |})) by by vm_compute.
  split.
  - eapply (issued_token_names_its_owner e0 id0 _ (Some " ada ") 1000 "j" "k0" "t" Written _ 4600 eq_refl ltac:(discriminate) Hi eq_refl). by vm_compute.
  - eapply (issued_token_names_its_owner e0 id0 _ (Some " ada ") 1000 "j" "k0" "t" Written _ 4661 eq_refl ltac:(discriminate) Hi eq_refl). by vm_compute.
Defined.

Lemma revoked_token_stays_refused_witness :
  let d1 := (revoke_ws_jwt id0 d0 "t" (Some 2000) Written).2 in
  validate_ws_jwt id0 (foldl (token_step e0 id0) d1 [Prune (Some 3000) Written; Revoke "t" (Some 3500) OpenFailed]) "t" (Some 4000) = false.
Proof.
  intros d1.
  refine (proj1 (revoked_token_stays_refused e0 id0 d0 "t" (Some 2000) c0
    [Prune (Some 3000) Written; Revoke "t" (Some 3500) OpenFailed] "t" (Some 4000) eq_refl eq_refl _ _ _ c0 _ eq_refl)).
  - intros o Ho. repeat (apply elem_of_cons in Ho as [->|Ho]; [by split; vm_compute|]). by apply elem_of_nil in Ho.
  - intros o d' u w cl c' _ _ Hd _. unfold decode_ws_jwt_claims_ignoring_revocation in Hd.
    destruct (read_signing_key_at (key_file d')); [|done]. by apply one_decode_Some in Hd as [-> _].
  - by vm_compute.
  - by vm_compute.
Defined.

(** Revocation ends at the expiry, acceptance a leeway later: for the last
    minute a revoked token is accepted again. *)
Lemma revoked_token_returns_in_the_leeway :
  let d1 := (revoke_ws_jwt id0 d0 "t" (Some 2000) Written).2 in
  (revoke_ws_jwt id0 d0 "t" (Some 2000) Written).1 = true ∧
  validate_ws_jwt id0 d1 "t" (Some 4599) = false ∧ validate_ws_jwt id0 d1 "t" (Some 4600) = true ∧
  ws_jwt_sub id0 d1 "t" (Some 4660) = Some "ada".
Proof. by vm_compute. Qed.

(** A write that tears after it truncated leaves a list that reads as empty. *)
Lemma torn_write_forgets_revocations :
  let d1 := (revoke_ws_jwt id0 d0 "t" (Some 2000) Written).2 in
  let d2 := (revoke_ws_jwt id0 d1 "t" (Some 2100) (Torn EmptyString)).2 in
  validate_ws_jwt id0 d1 "t" (Some 2200) = false ∧ validate_ws_jwt id0 d2 "t" (Some 2200) = true.
Proof. by vm_compute. Qed.
End Concrete.
