(* ===== verification/Dispatch.v ===== *)
(** * The per-connection dispatcher

    Models [crates/transport-dispatch/src/lib.rs] and [errors.rs]: the loop
    that serves one authenticated connection, with the one authorization gate,
    and the frames it answers with.

    The handler behind the loop is an interface, [AssistantApiHandler], with a
    state of its own that each call may change; a handler call that is awaited
    is taken to return.  The request-scoped task-locals are a [Scope] that each
    call is made under.  A turn the handler does not register runs in a spawned
    task: it waits in [pending] until the environment polls it, during the loop
    ([Polled]) or after it ([outlive]), and its handler call is taken at that
    moment.  The outbound channel is the list of the frames the loop itself put
    into it; the events that spawned turns and the task forwarder put beside them
    are not interleaved here.  A send fails exactly
    when the writer has gone, and it stays gone, so the environment's only
    choice is how many of the loop's sends are accepted, [closes_at].  What
    other connections do to the shared subscription registry while this one
    waits are items of the run ([Elsewhere]). *)

From S2P Require Import Prelude ConversationSubs Authz.

(** ** Wire frames and errors *)

Inductive ErrorCode := NotAuthorized | Unsupported | NotFound | AlreadyTerminal | OtherCode (code : string).

Definition error_code_as_str (c : ErrorCode) : string :=
  match c with
  | NotAuthorized => "not_authorized"
  | Unsupported => "unsupported"
  | NotFound => "not_found"
  | AlreadyTerminal => "already_terminal"
  | OtherCode code => code
  end.

Definition error_code_from_string (value : string) : ErrorCode :=
  if String.eqb value "not_authorized" then NotAuthorized
  else if String.eqb value "unsupported" then Unsupported
  else if String.eqb value "not_found" then NotFound
  else if String.eqb value "already_terminal" then AlreadyTerminal
  else OtherCode value.

Record ErrorDetail := { ed_code : ErrorCode; ed_description : string; ed_message : string; ed_retryable : bool }.

Inductive ApiError :=
| ApiCore (message : string)
| ApiUnsupported
| ApiNotFound
| ApiAlreadyTerminal
| ApiInvalidInput (code description message : string).

Definition api_error_to_string (e : ApiError) : string :=
  match e with
  | ApiCore m => "core error: " +:+ m
  | ApiUnsupported => "unsupported command"
  | ApiNotFound => "not found"
  | ApiAlreadyTerminal => "task is already terminal"
  | ApiInvalidInput _ description _ => description
  end.

Inductive TransportKind := Uds | Dbus | WebSocket.

(** The connection, as its transport authenticated it. *)
Record AuthContext := {
  user_id : string;
  transport : TransportKind;
  co_located : option bool;
  client_label : option string;
  client_context : option ClientContext;
  session_id : string;
  capability : Capability
}.

(** [mint_session_id]: the counter starts at one. *)
Definition mint_session_id (next : nat) : string * nat := ("sess-" +:+ pretty next, S next).

Definition AuthContext_new (user : string) (t : TransportKind) (next : nat) : AuthContext * nat :=
  let '(s, next) := mint_session_id next in
  ({| user_id := user; transport := t; co_located := None; client_label := None; client_context := None;
      session_id := s; capability := Tenant |}, next).

Definition with_co_location (a : AuthContext) (c : option bool) : AuthContext :=
  {| user_id := user_id a; transport := transport a; co_located := c; client_label := client_label a;
     client_context := client_context a; session_id := session_id a; capability := capability a |}.

Definition with_client_label (a : AuthContext) (label : option string) : AuthContext :=
  {| user_id := user_id a; transport := transport a; co_located := co_located a;
     client_label := match label with Some l => if String.eqb (trim l) EmptyString then None else Some l | None => None end;
     client_context := client_context a; session_id := session_id a; capability := capability a |}.

Definition with_client_context (a : AuthContext) (c : option ClientContext) : AuthContext :=
  {| user_id := user_id a; transport := transport a; co_located := co_located a; client_label := client_label a;
     client_context := c; session_id := session_id a; capability := capability a |}.

Definition with_capability (a : AuthContext) (c : Capability) : AuthContext :=
  {| user_id := user_id a; transport := transport a; co_located := co_located a; client_label := client_label a;
     client_context := client_context a; session_id := session_id a; capability := c |}.

Definition effective_client_context (per_turn connection : option ClientContext) : option ClientContext :=
  match per_turn with
  | Some ctx => if context_is_empty ctx then connection else Some ctx
  | None => connection
  end.

Section dispatch.
(** [P] payloads the loop does not read, [C] the body of a configuration, [R]
    the results the loop only forwards, [E] the events it does not build, [T] a
    resolved trace. *)
Context {P C R E T : Type}.

Record Config := { config_body : C; caller_capability : option Capability }.

Inductive CommandResult :=
| Ack
| SendMessageAck (request_id task_id : string)
| ConfigResult (c : Config)
| OtherResult (r : R).

Inductive Event :=
| ConfigChanged (c : Config)
| StreamedEvent (e : E).

Inductive WsFrame :=
| Result (id : string) (result : CommandResult)
| Error (id error : string) (detail : option ErrorDetail)
| EventFrame (e : Event).

Definition frame_request_id (f : WsFrame) : option string :=
  match f with Result id _ | Error id _ _ => Some id | EventFrame _ => None end.

Definition ws_error (id message : string) : WsFrame := Error id message None.
Definition declined (id : string) (d : ErrorDetail) : WsFrame := Error id (ed_description d) (Some d).

Definition REFUSAL_PREFIX : string := "not authorized:".

Definition refusal_frame (id : string) (command : Command P) (required held : Capability) : WsFrame :=
  declined id
    {| ed_code := NotAuthorized;
       ed_description := REFUSAL_PREFIX +:+ " '" +:+ command_name command +:+ "' requires the " +:+ capability_label required
                         +:+ " capability; this connection holds " +:+ capability_label held;
       ed_message := "Only a daemon administrator can do that. This connection is a " +:+ capability_label held +:+ ".";
       ed_retryable := false |}.

Definition unsupported_frame (id description message : string) : WsFrame :=
  declined id {| ed_code := Unsupported; ed_description := description; ed_message := message; ed_retryable := false |}.

Definition api_error_frame (id : string) (e : ApiError) : WsFrame :=
  match e with
  | ApiCore message => ws_error id message
  | ApiUnsupported =>
      declined id {| ed_code := Unsupported; ed_description := api_error_to_string ApiUnsupported;
                     ed_message := "This daemon does not support that operation."; ed_retryable := false |}
  | ApiNotFound =>
      declined id {| ed_code := NotFound; ed_description := api_error_to_string ApiNotFound;
                     ed_message := "That item no longer exists."; ed_retryable := false |}
  | ApiAlreadyTerminal =>
      declined id {| ed_code := AlreadyTerminal; ed_description := api_error_to_string ApiAlreadyTerminal;
                     ed_message := "That task has already finished."; ed_retryable := false |}
  | ApiInvalidInput code description message =>
      declined id {| ed_code := OtherCode code; ed_description := description; ed_message := message; ed_retryable := false |}
  end.

Definition with_caller_capability (c : Config) (held : Capability) : Config :=
  {| config_body := config_body c; caller_capability := Some held |}.

Definition stamp_caller_capability (r : CommandResult) (held : Capability) : CommandResult :=
  match r with ConfigResult c => ConfigResult (with_caller_capability c held) | _ => r end.

(** The forwarder a subscription spawns: what it receives from the broadcast
    channel, and the frames it forwards while the writer accepts them. *)
Inductive Received := ReceivedEvent (e : Event) | Lagged (n : nat) | Closed.

Definition lag_notice (n : nat) : WsFrame :=
  ws_error EmptyString (pretty n +:+ " events dropped (subscriber lagged); refetch state to resync").

Fixpoint forward (accepted : nat) (received : list Received) : list WsFrame :=
  match accepted, received with
  | Datatypes.S accepted, ReceivedEvent e :: rest => EventFrame e :: forward accepted rest
  | Datatypes.S accepted, Lagged n :: rest => lag_notice n :: forward accepted rest
  | _, _ => []
  end.

(** ** The request scope

    The task-locals a handler call runs under; an absent one is not installed. *)
Record Scope := {
  s_user : option string;
  s_session : option string;
  s_transport : option TransportKind;
  s_label : option (option string);
  s_co_location : option (option bool);
  s_context : option (option ClientContext);
  s_trace : option T
}.

Definition no_scope : Scope :=
  {| s_user := None; s_session := None; s_transport := None; s_label := None; s_co_location := None; s_context := None;
     s_trace := None |}.

(** The scopes the loop installs: around a command, around a turn (the nesting
    of [with_*] in the send arm), and around the end of the session. *)
Definition command_scope (a : AuthContext) : Scope :=
  {| s_user := Some (user_id a); s_session := Some (session_id a); s_transport := None; s_label := None;
     s_co_location := None; s_context := None; s_trace := None |}.

Definition turn_scope (a : AuthContext) (ctx : option ClientContext) (trace : T) : Scope :=
  {| s_user := Some (user_id a); s_session := Some (session_id a); s_transport := Some (transport a);
     s_label := Some (client_label a); s_co_location := Some (co_located a); s_context := Some ctx; s_trace := Some trace |}.

Definition session_scope (a : AuthContext) : Scope :=
  {| s_user := None; s_session := Some (session_id a); s_transport := None; s_label := None;
     s_co_location := None; s_context := None; s_trace := None |}.

(** ** The handler *)

Class AssistantApiHandler (S : Type) := {
  handle_command : Scope → Command P → S → (ApiError + CommandResult) * S;
  start_send_message : Scope → SendMessageArgs P → string → S → (ApiError + option string) * S;
  handle_send_message_with_override : Scope → SendMessageArgs P → string → S → S;
  subscribe_user_events : Scope → S → bool * S;
  on_session_end : Scope → S → S
}.

(** Turn ids and traces: the uuid and telemetry libraries. *)
Class TurnIds := {
  parse_turn_id : string → option string;
  new_v4 : nat → string;
  resolve_turn_trace : option string → string → string → T
}.

Context {S : Type} `{!AssistantApiHandler S} `{!TurnIds}.

Definition adopt_or_mint_turn_id (supplied : option string) (minted : nat) : string * nat :=
  match (s ← supplied; parse_turn_id s) with
  | Some id => (id, minted)
  | None => (new_v4 minted, Datatypes.S minted)
  end.

(** ** One connection *)

Inductive Call :=
| Commanded (sc : Scope) (cmd : Command P)
| Started (sc : Scope) (m : SendMessageArgs P) (request_id : string)
| Streamed (sc : Scope) (m : SendMessageArgs P) (request_id : string)
| Subscribed (sc : Scope)
| Ended (sc : Scope).

(** A turn handed to [tokio::spawn]. *)
Record SpawnedTurn := { tn_scope : Scope; tn_message : SendMessageArgs P; tn_request_id : string }.

Record Conn := {
  handler_state : S;
  calls : list Call;
  frames : list WsFrame;
  sends : nat;
  minted : nat;
  bg_subscription : option nat;
  forwarders : nat;
  aborted : list nat;
  pending : list SpawnedTurn;
  conv_subs : option Inner
}.

Definition set_frames (fs : list WsFrame) (n : nat) (c : Conn) : Conn :=
  {| handler_state := handler_state c; calls := calls c; frames := fs; sends := n; minted := minted c;
     bg_subscription := bg_subscription c; forwarders := forwarders c; aborted := aborted c; pending := pending c; conv_subs := conv_subs c |}.

Definition set_handler (h : S) (call : Call) (c : Conn) : Conn :=
  {| handler_state := h; calls := calls c ++ [call]; frames := frames c; sends := sends c; minted := minted c;
     bg_subscription := bg_subscription c; forwarders := forwarders c; aborted := aborted c; pending := pending c; conv_subs := conv_subs c |}.

Definition set_minted (n : nat) (c : Conn) : Conn :=
  {| handler_state := handler_state c; calls := calls c; frames := frames c; sends := sends c; minted := n;
     bg_subscription := bg_subscription c; forwarders := forwarders c; aborted := aborted c; pending := pending c; conv_subs := conv_subs c |}.

(** [tokio::spawn] of the forwarder, and [take] with [abort]. *)
Definition spawn_forwarder (c : Conn) : Conn :=
  {| handler_state := handler_state c; calls := calls c; frames := frames c; sends := sends c; minted := minted c;
     bg_subscription := Some (forwarders c); forwarders := Datatypes.S (forwarders c); aborted := aborted c;
     pending := pending c; conv_subs := conv_subs c |}.

Definition abort_forwarder (c : Conn) : Conn :=
  {| handler_state := handler_state c; calls := calls c; frames := frames c; sends := sends c; minted := minted c;
     bg_subscription := None; forwarders := forwarders c;
     aborted := aborted c ++ match bg_subscription c with Some h => [h] | None => [] end;
     pending := pending c; conv_subs := conv_subs c |}.

Definition map_subs (f : Inner → Inner) (c : Conn) : Conn :=
  {| handler_state := handler_state c; calls := calls c; frames := frames c; sends := sends c; minted := minted c;
     bg_subscription := bg_subscription c; forwarders := forwarders c; aborted := aborted c; pending := pending c; conv_subs := f <$> conv_subs c |}.

Definition set_pending (l : list SpawnedTurn) (c : Conn) : Conn :=
  {| handler_state := handler_state c; calls := calls c; frames := frames c; sends := sends c; minted := minted c;
     bg_subscription := bg_subscription c; forwarders := forwarders c; aborted := aborted c; pending := l; conv_subs := conv_subs c |}.

(** [tokio::spawn] of a turn, and the spawned task when it is polled. *)
Definition spawn_turn (turn : SpawnedTurn) (c : Conn) : Conn := set_pending (pending c ++ [turn]) c.

Definition run_spawned (k : nat) (c : Conn) : Conn :=
  match pending c !! k with
  | Some turn =>
      set_handler (handle_send_message_with_override (tn_scope turn) (tn_message turn) (tn_request_id turn) (handler_state c))
        (Streamed (tn_scope turn) (tn_message turn) (tn_request_id turn)) (set_pending (delete k (pending c)) c)
  | None => c
  end.

(** A body of the loop: the new state and whether the loop goes on. *)
Definition Body := Conn → Conn * bool.

Definition and_then (m k : Body) : Body := λ c, let '(c, go) := m c in if go then k c else (c, false).
Definition go : Body := λ c, (c, true).
Definition then_ (f : Conn → Conn) (k : Body) : Body := λ c, k (f c).

(** How many sends the writer outlives. *)
Context (closes_at : option nat).

Definition send (f : WsFrame) : Body := λ c,
  let accepted := match closes_at with Some n => (sends c <? n)%nat | None => true end in
  if accepted then (set_frames (frames c ++ [f]) (Datatypes.S (sends c)) c, true) else (c, false).

Context (auth : AuthContext).

Definition send_message (id : string) (m : SendMessageArgs P) : Body := λ c,
  let ctx := effective_client_context (sm_client_context m) (client_context auth) in
  let '(request_id, n) := adopt_or_mint_turn_id (sm_turn_id m) (minted c) in
  let trace := resolve_turn_trace (sm_traceparent m) request_id (sm_conversation_id m) in
  let scope := turn_scope auth ctx trace in
  let '(task_id, h) := start_send_message scope m request_id (handler_state c) in
  let c := set_handler h (Started scope m request_id) (set_minted n c) in
  match task_id with
  | inr (Some t) => send (Result id (SendMessageAck request_id t)) c
  | inr None =>
      and_then (send (Result id (SendMessageAck request_id EmptyString)))
        (then_ (spawn_turn {| tn_scope := scope; tn_message := m; tn_request_id := request_id |}) go) c
  | inl e => send (api_error_frame id e) c
  end.

Definition subscribe_background (id : string) : Body := λ c,
  match bg_subscription c with
  | Some _ => send (Result id Ack) c
  | None =>
      let '(receiver, h) := subscribe_user_events (command_scope auth) (handler_state c) in
      let c := set_handler h (Subscribed (command_scope auth)) c in
      if receiver then send (Result id Ack) (spawn_forwarder c)
      else send (unsupported_frame id "background-task subscription not supported by this handler"
                   "This daemon does not stream background-task updates.") c
  end.

Definition set_config (id : string) (changes : ConfigChanges) : Body := λ c,
  let '(res, h) := handle_command (command_scope auth) (SetConfig changes) (handler_state c) in
  let c := set_handler h (Commanded (command_scope auth) (SetConfig changes)) c in
  match res with
  | inr (ConfigResult config) =>
      let config := with_caller_capability config (capability auth) in
      and_then (send (Result id (ConfigResult config))) (send (EventFrame (ConfigChanged config))) c
  | inr result => send (Result id (stamp_caller_capability result (capability auth))) c
  | inl e => send (api_error_frame id e) c
  end.

Definition report_config : Body := λ c,
  let '(config, h) := handle_command (command_scope auth) GetConfig (handler_state c) in
  let c := set_handler h (Commanded (command_scope auth) GetConfig) c in
  match config with
  | inr (ConfigResult config) => send (EventFrame (ConfigChanged (with_caller_capability config (capability auth)))) c
  | _ => (c, true)
  end.

Definition is_ws_auth_write (cmd : Command P) : bool := match cmd with SetWsAuthSettings _ => true | _ => false end.

Definition other_command (id : string) (cmd : Command P) : Body := λ c,
  let '(res, h) := handle_command (command_scope auth) cmd (handler_state c) in
  let c := set_handler h (Commanded (command_scope auth) cmd) c in
  match res with
  | inr result =>
      and_then (send (Result id (stamp_caller_capability result (capability auth))))
        (if is_ws_auth_write cmd then report_config else go) c
  | inl e => send (api_error_frame id e) c
  end.

Definition run_command (id : string) (cmd : Command P) : Body :=
  match cmd with
  | SendMessage m => send_message id m
  | SubscribeBackgroundTasks => subscribe_background id
  | UnsubscribeBackgroundTasks => then_ abort_forwarder (send (Result id Ack))
  | SubscribeConversations conversation_ids =>
      then_ (map_subs (λ s, set_subscriptions s (session_id auth) conversation_ids)) (send (Result id Ack))
  | SetConfig changes => set_config id changes
  | other => other_command id other
  end.

Inductive Inbound :=
| Decoded (id : string) (cmd : Command P)
| DecodeError (e : string)
| Elsewhere (op : SubsOp)
| Polled (k : nat).

Definition serve_item (item : Inbound) : Body :=
  match item with
  | DecodeError e => send (ws_error EmptyString ("invalid request json: " +:+ e))
  | Decoded id cmd =>
      let required := required_capability cmd in
      if permits (capability auth) required then run_command id cmd
      else send (refusal_frame id cmd required (capability auth))
  | Elsewhere op => then_ (map_subs (λ s, subs_step s op)) go
  | Polled k => then_ (run_spawned k) go
  end.

Fixpoint serve (items : list Inbound) : Body := λ c,
  match items with
  | [] => (c, true)
  | item :: rest => and_then (serve_item item) (serve rest) c
  end.

(** The connection's fan-out sink is the handle [sink]. *)
Definition connect (sink : nat) (h : S) (subs : option Inner) : Conn :=
  map_subs (λ s, register s (session_id auth) (user_id auth) sink)
    {| handler_state := h; calls := []; frames := []; sends := 0; minted := 0; bg_subscription := None; forwarders := 0;
       aborted := []; pending := []; conv_subs := subs |}.

Definition teardown (c : Conn) : Conn :=
  let c := map_subs (λ s, unregister s (session_id auth)) (abort_forwarder c) in
  set_handler (on_session_end (session_scope auth) (handler_state c)) (Ended (session_scope auth)) c.

Definition dispatch_loop (sink : nat) (h : S) (subs : option Inner) (inbound : list Inbound) : Conn :=
  teardown (serve inbound (connect sink h subs)).1.

(** The spawned tasks that run after the loop has returned. *)
Definition outlive (later : list nat) (c : Conn) : Conn := foldl (λ c k, run_spawned k c) c later.

(** ** What the loop guarantees *)

Definition command_permitted (cmd : Command P) : bool := permits (capability auth) (required_capability cmd).

Definition item_permitted (i : Inbound) : bool :=
  match i with Decoded _ cmd => command_permitted cmd | _ => true end.

(** The ids an item is owed an answer under. *)
Definition item_ids (i : Inbound) : list string :=
  match i with Decoded id _ => [id] | DecodeError _ => [EmptyString] | Elsewhere _ | Polled _ => [] end.

(** Whose authority a handler call has: a permitted command of the inbound
    stream, under the scope of this connection. *)
Definition justified (inbound : list Inbound) (call : Call) : Prop :=
  match call with
  | Commanded sc cmd =>
      sc = command_scope auth ∧
      ((∃ id, Decoded id cmd ∈ inbound) ∧ command_permitted cmd = true ∨
       cmd = GetConfig ∧ ∃ id p, Decoded id (SetWsAuthSettings p) ∈ inbound ∧ command_permitted (SetWsAuthSettings p) = true)
  | Started sc m request_id | Streamed sc m request_id =>
      (∃ id, Decoded id (SendMessage m) ∈ inbound) ∧ command_permitted (SendMessage m) = true ∧
      sc = turn_scope auth (effective_client_context (sm_client_context m) (client_context auth))
             (resolve_turn_trace (sm_traceparent m) request_id (sm_conversation_id m))
  | Subscribed sc =>
      sc = command_scope auth ∧ (∃ id, Decoded id SubscribeBackgroundTasks ∈ inbound) ∧
      command_permitted SubscribeBackgroundTasks = true
  | Ended _ => False
  end.

(** A frame that carries a configuration says what this caller may do. *)
Definition stamped (f : WsFrame) : Prop :=
  match f with
  | Result _ (ConfigResult c) | EventFrame (ConfigChanged c) => caller_capability c = Some (capability auth)
  | _ => True
  end.

(** Every forwarder but the current one has been aborted. *)
Definition forwarders_accounted (c : Conn) : Prop :=
  (∀ h, (h < forwarders c)%nat → h ∈ aborted c ∨ bg_subscription c = Some h) ∧
  (∀ h, bg_subscription c = Some h → (h < forwarders c)%nat).

Definition streamed_call (turn : SpawnedTurn) : Call := Streamed (tn_scope turn) (tn_message turn) (tn_request_id turn).

(** The turns that wait would be such calls. *)
Definition waiting (Q : Call → Prop) (c : Conn) : Prop := Forall (λ turn, Q (streamed_call turn)) (pending c).

(** What a piece of the loop that answers [ids] with calls that satisfy [Q]
    makes of a state, and such a piece. *)
Definition serves_at (Q : Call → Prop) (ids : list string) (c : Conn) (r : Conn * bool) : Prop :=
  (∃ added, calls r.1 = calls c ++ added ∧ (waiting Q c → Forall Q added)) ∧
  (waiting Q c → waiting Q r.1) ∧
  (∃ added, frames r.1 = frames c ++ added ∧ Forall stamped added ∧
     (omap frame_request_id added = ids ∨ r.2 = false ∧ omap frame_request_id added = [])) ∧
  (closes_at = None → r.2 = true) ∧
  (forwarders_accounted c → forwarders_accounted r.1).

Definition serves (Q : Call → Prop) (ids : list string) (m : Body) : Prop := ∀ c, serves_at Q ids c (m c).

Lemma serves_send Q f :
  stamped f → serves Q (match frame_request_id f with Some id => [id] | None => [] end) (send f).
Proof.
  intros Hf c. unfold send, serves_at. destruct closes_at as [n|]; [destruct (sends c <? n)%nat|]; simpl; split_and!; try done;
    try (by exists []; rewrite app_nil_r); try (exists []; rewrite app_nil_r; by auto).
  all: exists [f]; split_and!; [done|by constructor|left; simpl; by destruct (frame_request_id f)].
Qed.

Lemma serves_go Q : serves Q [] go.
Proof. intros c. unfold serves_at. split_and!; try done; exists []; by rewrite app_nil_r; auto. Qed.

Lemma serves_and_then Q ids m k : serves Q ids m → serves Q [] k → serves Q ids (and_then m k).
Proof.
  intros Hm Hk c. destruct (Hm c) as ((cs & Hcs & Hq) & Hw & (fs & Hfs & Hst & Hids) & Hgo & Hfw). unfold and_then, serves_at.
  destruct (m c) as [c' g]. simpl in *. destruct g; [|split_and!; eauto].
  destruct (Hk c') as ((cs' & Hcs' & Hq') & Hw' & (fs' & Hfs' & Hst' & Hids') & Hgo' & Hfw').
  assert (Hnil : omap frame_request_id fs' = []) by (by destruct Hids' as [|[_ ?]]). split_and!; auto.
  - exists (cs ++ cs'). rewrite Hcs', Hcs, <- app_assoc, Forall_app. auto.
  - exists (fs ++ fs'). rewrite Hfs', Hfs, <- app_assoc, Forall_app, omap_app, Hnil, app_nil_r.
    split_and!; try done. left. by destruct Hids as [|[? _]].
Qed.

(** A step that neither calls nor sends, a handler call, and the spawning of a
    turn, before a body. *)
Lemma serves_at_quiet Q ids c c1 r :
  calls c1 = calls c → frames c1 = frames c → pending c1 = pending c → (forwarders_accounted c → forwarders_accounted c1) →
  serves_at Q ids c1 r → serves_at Q ids c r.
Proof. unfold serves_at, waiting. intros -> -> -> Hfw (? & ? & ? & ? & ?). split_and!; auto. Qed.

Lemma serves_at_call (Q : Call → Prop) ids c h call r :
  Q call → serves_at Q ids (set_handler h call c) r → serves_at Q ids c r.
Proof.
  intros Hq ((cs & Hcs & Hqs) & Hrest). split; [|done].
  exists (call :: cs). rewrite Hcs. simpl. rewrite <- app_assoc. split; [done|]. intros Hw. constructor; auto.
Qed.

Lemma serves_at_spawn (Q : Call → Prop) ids c turn r :
  Q (streamed_call turn) → serves_at Q ids (spawn_turn turn c) r → serves_at Q ids c r.
Proof.
  intros Hq ((cs & Hcs & Hqs) & Hw & Hrest).
  assert (Hc : waiting Q c → waiting Q (spawn_turn turn c)).
  { unfold waiting, spawn_turn. simpl. intros Hall. apply Forall_app. split; [done|]. by constructor. }
  split; [|split; [by auto|done]]. exists cs. split; [done|auto].
Qed.

Lemma run_spawned_calls Q k c :
  (∃ added, calls (run_spawned k c) = calls c ++ added ∧ (waiting Q c → Forall Q added) ∧
     Forall (λ call, ∃ turn, call = streamed_call turn) added) ∧
  (waiting Q c → waiting Q (run_spawned k c)).
Proof.
  unfold run_spawned. destruct (pending c !! k) as [turn|] eqn:Hk; [|split; [exists []; by rewrite app_nil_r|done]]. split.
  - exists [streamed_call turn]. split; [done|]. split; [|by constructor; [eexists|]]. intros Hw. constructor; [|done]. by eapply Forall_lookup_1 in Hw.
  - unfold waiting. simpl. intros Hw. rewrite delete_take_drop, Forall_app.
    split; [by apply Forall_take|by apply Forall_drop].
Qed.

Lemma serves_polled Q k : serves Q [] (then_ (run_spawned k) go).
Proof.
  intros c. unfold then_, go. destruct (run_spawned_calls Q k c) as [(added & Hcs & Hq & _) Hw]. split; [by exists added|]. split; [done|].
  assert (Hsame : frames (run_spawned k c) = frames c ∧ (forwarders_accounted c → forwarders_accounted (run_spawned k c)))
    by (unfold run_spawned; by destruct (pending c !! k)).
  destruct Hsame as [Hf Hfw]. split_and!; [|done|done]. exists []. rewrite app_nil_r. auto.
Qed.

Lemma accounted_abort c : forwarders_accounted c → forwarders_accounted (abort_forwarder c).
Proof.
  intros [H1 H2]. split; [|done]. intros h Hh. left. simpl. rewrite elem_of_app.
  destruct (H1 h Hh) as [|Hb]; [by left|]. right. rewrite Hb. by apply list_elem_of_singleton.
Qed.

Lemma accounted_spawn c : bg_subscription c = None → forwarders_accounted c → forwarders_accounted (spawn_forwarder c).
Proof.
  intros Hn [H1 H2]. split; simpl; [|naive_solver lia]. intros h Hh.
  destruct (decide (h = forwarders c)) as [->|]; [by right|].
  destruct (H1 h) as [|Hb]; [lia|by left|congruence].
Qed.

(** Each arm of the loop answers its request. *)
Lemma stamped_other id r : (∀ c, r ≠ ConfigResult c) → stamped (Result id r).
Proof. destruct r; naive_solver. Qed.

Lemma stamped_stamp id r : stamped (Result id (stamp_caller_capability r (capability auth))).
Proof. by destruct r. Qed.

Lemma stamped_error id e : stamped (api_error_frame id e).
Proof. by destruct e. Qed.

Lemma serves_error Q id e : serves Q [id] (send (api_error_frame id e)).
Proof. pose proof (serves_send Q (api_error_frame id e) (stamped_error id e)) as Hs. by destruct e. Qed.

Lemma serves_send_message Q id m :
  (∀ ctx tr rid, tr = resolve_turn_trace (sm_traceparent m) rid (sm_conversation_id m) →
     ctx = effective_client_context (sm_client_context m) (client_context auth) →
     Q (Started (turn_scope auth ctx tr) m rid) ∧ Q (Streamed (turn_scope auth ctx tr) m rid)) →
  serves Q [id] (send_message id m).
Proof.
  intros HQ c. unfold send_message. destruct (adopt_or_mint_turn_id _ _) as [rid n].
  destruct (HQ _ _ rid eq_refl eq_refl) as [Hstart Hstream]. remember (turn_scope auth _ _) as scope eqn:Hscope.
  destruct (start_send_message _ _ _ _) as [task h]. apply serves_at_quiet with (set_minted n c); [done..|].
  apply serves_at_call with h (Started scope m rid); [done|]. destruct task as [e|[t|]].
  - apply (serves_error Q id e).
  - by apply (serves_send Q (Result id (SendMessageAck rid t))).
  - apply (serves_and_then Q [id]); [by apply (serves_send Q (Result id (SendMessageAck rid EmptyString)))|].
    intros c'. by eapply serves_at_spawn; [|apply serves_go].
Qed.

Lemma serves_subscribe (Q : Call → Prop) id :
  Q (Subscribed (command_scope auth)) → serves Q [id] (subscribe_background id).
Proof.
  intros HQ c. unfold subscribe_background. destruct (bg_subscription c) eqn:Hb; [by apply (serves_send Q (Result id Ack))|].
  destruct (subscribe_user_events _ _) as [[] h]; (eapply serves_at_call; [exact HQ|]).
  - eapply serves_at_quiet; [| | | |by apply (serves_send Q (Result id Ack))]; [done..|]. by apply accounted_spawn.
  - by apply (serves_send Q (unsupported_frame _ _ _)).
Qed.

Lemma serves_set_config (Q : Call → Prop) id changes :
  Q (Commanded (command_scope auth) (SetConfig changes)) → serves Q [id] (set_config id changes).
Proof.
  intros HQ c. unfold set_config. destruct (handle_command _ _ _) as [res h]. eapply serves_at_call; [exact HQ|].
  destruct res as [e|r]; [apply (serves_error Q id e)|]. pose proof (stamped_stamp id r) as Hst.
  pose proof (serves_send Q _ Hst) as Hs. destruct r; try apply Hs.
  apply (serves_and_then Q [id]); [apply Hs|]. by apply (serves_send Q (EventFrame _)).
Qed.

Lemma serves_other (Q : Call → Prop) id cmd :
  Q (Commanded (command_scope auth) cmd) →
  (is_ws_auth_write cmd = true → Q (Commanded (command_scope auth) GetConfig)) → serves Q [id] (other_command id cmd).
Proof.
  intros HQ Hws c. unfold other_command. destruct (handle_command _ _ _) as [res h]. eapply serves_at_call; [exact HQ|].
  destruct res as [e|r]; [apply (serves_error Q id e)|].
  apply (serves_and_then Q [id]); [apply (serves_send Q _ (stamped_stamp id r))|].
  destruct (is_ws_auth_write cmd); [|apply serves_go]. intros c'. unfold report_config.
  destruct (handle_command _ _ _) as [res' h']. eapply serves_at_call; [by apply Hws|].
  destruct res' as [e|[| |cfg|o]]; try apply serves_go. by apply (serves_send Q (EventFrame (ConfigChanged _))).
Qed.

Lemma serves_item inbound item : item ∈ inbound → serves (justified inbound) (item_ids item) (serve_item item).
Proof.
  intros Hin. destruct item as [id cmd|e|op|k]; simpl.
  - destruct (permits _ _) eqn:Hp; [|by apply (serves_send _ (refusal_frame _ _ _ _))].
    assert (Hcmd : justified inbound (Commanded (command_scope auth) cmd)) by (split; [done|left; split; eauto]).
    assert (Hother : serves (justified inbound) [id] (other_command id cmd)).
    { apply serves_other; [done|]. destruct cmd; try done. intros _. split; [done|]. right. split; [done|]. eauto. }
    destruct cmd; try exact Hother; simpl.
    + by apply serves_set_config.
    + apply serves_send_message. intros ctx tr rid -> ->. split; (split; [by eauto|done]).
    + apply serves_subscribe. split_and!; eauto.
    + intros c. eapply serves_at_quiet; [| | | |by apply (serves_send _ (Result id Ack))]; [done..|]. apply accounted_abort.
    + intros c. eapply serves_at_quiet; [| | | |by apply (serves_send _ (Result id Ack))]; done.
  - by apply (serves_send _ (ws_error _ _)).
  - intros c. eapply serves_at_quiet; [| | | |apply serves_go]; done.
  - apply serves_polled.
Qed.

(** The whole run. *)
Definition owed (items : list Inbound) : list string := concat (map item_ids items).

Lemma serve_spec inbound items c :
  items ⊆ inbound →
  (∃ added, calls (serve items c).1 = calls c ++ added ∧ (waiting (justified inbound) c → Forall (justified inbound) added)) ∧
  (waiting (justified inbound) c → waiting (justified inbound) (serve items c).1) ∧
  (∃ added n, frames (serve items c).1 = frames c ++ added ∧ Forall stamped added ∧
     omap frame_request_id added = take n (owed items) ∧ (closes_at = None → omap frame_request_id added = owed items)) ∧
  (forwarders_accounted c → forwarders_accounted (serve items c).1).
Proof.
  intros Hsub. revert c. induction items as [|i items IH]; intros c; simpl.
  { split_and!; [exists []; by rewrite app_nil_r|done|exists [], 0%nat; by rewrite app_nil_r|done]. }
  assert (Hi : i ∈ inbound) by (apply Hsub; by left).
  destruct (serves_item inbound i Hi c) as ((cs & Hcs & Hq) & Hw & (fs & Hfs & Hst & Hids) & Hgo & Hfw).
  unfold and_then. destruct (serve_item i c) as [c' g]. simpl in *. destruct g; simpl.
  - destruct (IH (λ x Hx, Hsub x (list_elem_of_further _ _ _ Hx)) c') as ((cs' & Hcs' & Hq') & Hw' & (fs' & n & Hfs' & Hst' & Hn & Hall) & Hfw').
    assert (Hids' : omap frame_request_id fs = item_ids i) by (by destruct Hids as [|[? _]]). split_and!; [..|by auto].
    + exists (cs ++ cs'). rewrite Hcs', Hcs, <- app_assoc, Forall_app. auto.
    + auto.
    + exists (fs ++ fs'), (length (item_ids i) + n)%nat. rewrite Hfs', Hfs, <- app_assoc, Forall_app, omap_app, Hids', Hn.
      unfold owed in *. simpl. split_and!; [done..|by rewrite take_app_add|]. intros Hc. by rewrite <- Hn, Hall.
  - split_and!; [by eauto|done| |done].
    assert (Hc : closes_at = None → False) by (intros Hc; by specialize (Hgo Hc)).
    destruct Hids as [Hids|[_ Hids]]; [exists fs, (length (item_ids i))|exists fs, 0%nat]; unfold owed in *; simpl;
      rewrite Hids; split_and!; try done. by rewrite take_app_length.
Qed.

(** The spawned turns that outlive the loop only add calls of their own. *)
Lemma outlive_calls Q later c :
  waiting Q c → ∃ added, calls (outlive later c) = calls c ++ added ∧ Forall Q added ∧
    Forall (λ call, ∃ turn, call = streamed_call turn) added.
Proof.
  unfold outlive. revert c. induction later as [|k later IH]; intros c Hw; simpl; [exists []; by rewrite app_nil_r|].
  destruct (run_spawned_calls Q k c) as [(added & Hcs & Hq & Hs) Hw']. destruct (IH (run_spawned k c) (Hw' Hw)) as (added' & Hcs' & Hq' & Hs').
  exists (added ++ added'). rewrite Hcs', Hcs, <- app_assoc, !Forall_app. auto.
Qed.

(** C20. The handler only ever runs commands this connection sent and may run,
    each under this connection's user and session (a turn also under its
    transport, label, co-location and client context, whether it was registered
    or runs in a spawned task).  Whatever made the loop stop, and whichever
    spawned turns run during it or after it, the end of the session is reported
    exactly once; what follows it are only spawned turns, each of a send this
    connection made and was permitted. *)
Theorem commands_run_only_as_permitted (sink : nat) (h : S) (subs : option Inner) (inbound : list Inbound) (later : list nat) :
  ∃ served late,
    calls (outlive later (dispatch_loop sink h subs inbound)) = served ++ [Ended (session_scope auth)] ++ late ∧
    Forall (justified inbound) served ∧ Forall (justified inbound) late ∧
    Forall (λ call, ∃ turn, call = streamed_call turn) late ∧
    Ended (session_scope auth) ∉ served ++ late.
Proof.
  destruct (serve_spec inbound inbound (connect sink h subs)) as ((added & Hcs & Hq) & Hw & _ & _); [done|].
  assert (H0 : waiting (justified inbound) (connect sink h subs)) by constructor.
  destruct (outlive_calls (justified inbound) later (dispatch_loop sink h subs inbound)) as (late & Hcl & Hql & Hsl); [by apply Hw|].
  exists added, late. assert (Hboth : Forall (justified inbound) (added ++ late)) by (apply Forall_app; auto).
  split_and!; [|by auto|done|done|].
  - rewrite Hcl. unfold dispatch_loop, teardown. simpl. rewrite Hcs. by rewrite <- app_assoc.
  - intros Hin. eapply Forall_forall in Hboth; [|exact Hin]. done.
Qed.

(** C33. The loop's replies name the requests in the order they arrived, each
    once, an undecodable frame being answered under the empty id; only a
    connection whose writer has gone is left with unanswered requests, and they
    are its last ones.  Every configuration among the frames says what this
    caller may change. *)
Theorem every_request_is_answered_once (sink : nat) (h : S) (subs : option Inner) (inbound : list Inbound) :
  let replies := frames (dispatch_loop sink h subs inbound) in
  (∃ n, omap frame_request_id replies = take n (owed inbound)) ∧
  (closes_at = None → omap frame_request_id replies = owed inbound) ∧
  Forall stamped replies.
Proof.
  destruct (serve_spec inbound inbound (connect sink h subs)) as (_ & _ & (added & n & Hfs & Hst & Hn & Hall) & _); [done|].
  unfold dispatch_loop, teardown. simpl. rewrite Hfs. simpl. eauto.
Qed.

(** At most one task forwarder of a connection is live at a time, and when
    the loop has ended, however it ended, every one has been aborted and the
    shared registry holds no sink, owner or view for the session. *)
Theorem connection_leaves_nothing_behind (sink : nat) (h : S) (subs : option Inner) (inbound : list Inbound) :
  let before := (serve inbound (connect sink h subs)).1 in
  let after := dispatch_loop sink h subs inbound in
  (∀ f g, (f < forwarders before)%nat → (g < forwarders before)%nat → f ∉ aborted before → g ∉ aborted before → f = g) ∧
  (∀ f, (f < forwarders after)%nat → f ∈ aborted after) ∧
  match conv_subs after with
  | Some s => sinks s !! session_id auth = None ∧ users s !! session_id auth = None ∧ subscribed s !! session_id auth = None
  | None => True
  end.
Proof.
  destruct (serve_spec inbound inbound (connect sink h subs)) as (_ & _ & _ & Hfw); [done|].
  destruct Hfw as [H1 H2]; [split; simpl; [lia|done]|]. split_and!.
  - intros f g Hf Hg Hnf Hng. destruct (H1 f Hf), (H1 g Hg); congruence || done.
  - intros f Hf. unfold dispatch_loop, teardown. simpl in *. rewrite elem_of_app.
    destruct (H1 f Hf) as [|Hb]; [by left|right]. rewrite Hb. by apply list_elem_of_singleton.
  - unfold dispatch_loop, teardown. simpl. destruct (conv_subs _); simpl; [|done]. by rewrite !lookup_delete_eq.
Qed.

(** A connection that stays open, up to what was sent on it. *)
Definition core (c : Conn) : Conn := set_frames [] 0%nat c.

Definition blind (m : Body) : Prop := ∀ c, core (m c).1 = core (m (core c)).1.

Section open.
Hypothesis Hopen : closes_at = None.

Lemma core_send f c : core (send f c).1 = core c.
Proof. unfold send. by rewrite Hopen. Qed.

Lemma send_goes_on f c : (send f c).2 = true.
Proof. unfold send. by rewrite Hopen. Qed.

Lemma blind_send f : blind (send f).
Proof. intros c. by rewrite !core_send. Qed.

Lemma core_and_then_send f k c : core (and_then (send f) k c).1 = core (k (send f c).1).1.
Proof. unfold and_then. pose proof (send_goes_on f c) as Hg. destruct (send f c) as [c' g]. simpl in *. by rewrite Hg. Qed.

Lemma blind_and_then_send f k : blind k → blind (and_then (send f) k).
Proof. intros Hk c. rewrite !core_and_then_send, Hk, (Hk (send f (core c)).1). by rewrite !core_send. Qed.

Lemma blind_report_config : blind report_config.
Proof.
  intros c. unfold report_config. simpl. destruct (handle_command _ _ _) as [res h].
  destruct res as [e|[| |cfg|o]]; by rewrite ?core_send.
Qed.

Lemma blind_run_command id cmd : blind (run_command id cmd).
Proof.
  assert (Hother : blind (other_command id cmd)).
  { intros c. unfold other_command. simpl. destruct (handle_command _ _ _) as [[e|r] h]; [by rewrite !core_send|].
    set (k := if is_ws_auth_write cmd then _ else _).
    assert (Hk : blind k) by (unfold k; case_match; [apply blind_report_config|done]).
    rewrite blind_and_then_send by done. symmetry. by rewrite blind_and_then_send. }
  destruct cmd; try exact Hother; intros c; simpl.
  - unfold set_config. simpl. destruct (handle_command _ _ _) as [[e|[| |cfg|o]] h]; try by rewrite !core_send.
    rewrite !core_and_then_send. by rewrite !core_send.
  - unfold send_message. simpl. destruct (adopt_or_mint_turn_id _ _) as [rid n].
    destruct (start_send_message _ _ _ _) as [[e|[t|]] h]; try by rewrite !core_send.
    set (k := then_ (spawn_turn _) go). assert (Hk : blind k) by done.
    rewrite blind_and_then_send by done. symmetry. by rewrite blind_and_then_send.
  - unfold subscribe_background. simpl. destruct (bg_subscription c); [by rewrite !core_send|].
    destruct (subscribe_user_events _ _) as [[] h]; by rewrite !core_send.
  - unfold then_. by rewrite !core_send.
  - unfold then_. by rewrite !core_send.
Qed.

Lemma blind_item item : blind (serve_item item).
Proof.
  destruct item as [id cmd|e|op|k]; simpl; [case_match; [apply blind_run_command|apply blind_send]|apply blind_send|done|].
  intros c. unfold then_, go, run_spawned. simpl. by destruct (pending c !! k).
Qed.

Lemma serve_cons_open item rest c : core (serve (item :: rest) c).1 = core (serve rest (serve_item item c).1).1.
Proof.
  simpl. unfold and_then. destruct (serves_item [item] item (proj2 (list_elem_of_singleton _ _) eq_refl) c) as (_ & _ & _ & Hg & _).
  destruct (serve_item item c) as [c' g]. simpl in *. by rewrite Hg.
Qed.

Lemma blind_serve items : blind (serve items).
Proof.
  induction items as [|i items IH]; [done|]. intros c. rewrite !serve_cons_open, IH.
  rewrite (IH (serve_item i (core c)).1). by rewrite blind_item.
Qed.

Lemma refused_item item c : item_permitted item = false → core (serve_item item c).1 = core c.
Proof.
  destruct item as [id cmd| | |]; [|done..]. simpl. unfold command_permitted. intros ->. apply core_send.
Qed.

Lemma serve_permitted items c :
  core (serve items c).1 = core (serve (List.filter item_permitted items) c).1.
Proof.
  revert c. induction items as [|i items IH]; intros c; [done|]. rewrite serve_cons_open. cbn [List.filter].
  destruct (item_permitted i) eqn:Hp; [rewrite serve_cons_open; apply IH|].
  rewrite blind_serve, refused_item by done. by rewrite <- blind_serve.
Qed.

(** A turn no registry took is still acknowledged with its request id. *)
Lemma legacy_send_carries_its_request_id id m c rid n h :
  adopt_or_mint_turn_id (sm_turn_id m) (minted c) = (rid, n) →
  start_send_message
    (turn_scope auth (effective_client_context (sm_client_context m) (client_context auth))
       (resolve_turn_trace (sm_traceparent m) rid (sm_conversation_id m))) m rid (handler_state c) = (inr None, h) →
  frames (send_message id m c).1 = frames c ++ [Result id (SendMessageAck rid EmptyString)].
Proof. intros Hid Hstart. unfold send_message. rewrite Hid, Hstart. unfold and_then, send. by rewrite Hopen. Qed.

Lemma serve_refusal items c id cmd :
  Decoded id cmd ∈ items → command_permitted cmd = false →
  refusal_frame id cmd (required_capability cmd) (capability auth) ∈ frames (serve items c).1.
Proof.
  intros Hin Hp. revert c. induction items as [|i items IH]; intros c; [by apply elem_of_nil in Hin|]. simpl. unfold and_then.
  destruct (serves_item [i] i (proj2 (list_elem_of_singleton _ _) eq_refl) c) as (_ & _ & _ & Hg & _).
  destruct (serve_item i c) as [c' g] eqn:Hi. simpl in *. rewrite Hg by done. simpl.
  apply elem_of_cons in Hin as [<-|Hin]; [|by apply IH].
  destruct (serve_spec items items c') as (_ & _ & (added & n & Hfs & _) & _); [done|]. rewrite Hfs, elem_of_app. left.
  simpl in Hi. unfold command_permitted in Hp. rewrite Hp in Hi. unfold send in Hi. rewrite Hopen in Hi.
  injection Hi as <- _. simpl. rewrite elem_of_app, list_elem_of_singleton. by right.
Qed.

End open.
End dispatch.

(** ** A connection whose writer closes *)

Section closing.
Context {P C R E T S : Type} `{!@AssistantApiHandler P C R T S} `{!@TurnIds T}.
Context (auth : AuthContext) (n : nat).
Notation Body := (Dispatch.Body (P := P) (C := C) (R := R) (E := E) (T := T) (S := S)).
Notation Conn := (Dispatch.Conn (P := P) (C := C) (R := R) (E := E) (T := T) (S := S)).

(** A body on a connection whose writer closes, beside the same on one that
    stays open: as long as it goes on it does the same, and where it stops it
    has made the first of the other's calls. *)
Definition follows (m m0 : Body) : Prop := ∀ c c0 : Conn, core c = core c0 →
  ((m c).2 = true → core (m c).1 = core (m0 c0).1) ∧
  ((m c).2 = false → calls (m c).1 `prefix_of` calls (m0 c0).1).

(** A body that goes on and only adds calls. *)
Definition steady (m0 : Body) : Prop := ∀ c : Conn, (m0 c).2 = true ∧ calls c `prefix_of` calls (m0 c).1.

Lemma core_calls (c c0 : Conn) : core c = core c0 → calls c = calls c0.
Proof. unfold core, set_frames. by intros [=]. Qed.

Lemma steady_send f : steady (send None f).
Proof. intros c. split; [done|]. by exists []; rewrite app_nil_r. Qed.

Lemma steady_serves Q ids m : serves None auth Q ids m → steady m.
Proof. intros Hm c. destruct (Hm c) as ((added & Hcs & _) & _ & _ & Hgo & _). split; [by apply Hgo|]. by exists added. Qed.

Lemma follows_send f : follows (send (Some n) f) (send None f).
Proof.
  intros c c0 Hc. unfold send. destruct (sends c <? n)%nat; simpl; split; try done.
  intros _. by rewrite (core_calls _ _ Hc).
Qed.

Lemma follows_and_then m m0 k k0 : follows m m0 → steady m0 → follows k k0 → steady k0 → follows (and_then m k) (and_then m0 k0).
Proof.
  intros Hm Hm0 Hk Hk0 c c0 Hc. destruct (Hm c c0 Hc) as [Hgo Hstop]. destruct (Hm0 c0) as [Hg0 _]. unfold and_then.
  destruct (m c) as [c1 g]. destruct (m0 c0) as [c2 g0]. simpl in *. subst g0. destruct g; [by apply Hk, Hgo|].
  split; [done|]. intros _. etrans; [by apply Hstop|apply Hk0].
Qed.

Lemma follows_quiet (f : Conn → Conn) :
  (∀ c c0, core c = core c0 → core (f c) = core (f c0)) → follows (then_ f go) (then_ f go).
Proof. intros Hf c c0 Hc. split; [intros _; by apply Hf|done]. Qed.

Lemma follows_then (f : Conn → Conn) k k0 :
  (∀ c c0, core c = core c0 → core (f c) = core (f c0)) → follows k k0 → follows (then_ f k) (then_ f k0).
Proof. intros Hf Hk c c0 Hc. by apply Hk, Hf. Qed.

Ltac same_core Hc :=
  unfold core, set_frames in Hc |- *; injection Hc; clear Hc; intros; simpl;
  repeat match goal with H : _ = _ |- _ => rewrite H; clear H end; done.

Lemma core_handler (h : S) call (c c0 : Conn) : core c = core c0 → core (set_handler h call c) = core (set_handler h call c0).
Proof. intros Hc. same_core Hc. Qed.

Lemma core_state (c c0 : Conn) : core c = core c0 →
  handler_state c = handler_state c0 ∧ minted c = minted c0 ∧ bg_subscription c = bg_subscription c0 ∧ pending c = pending c0.
Proof. unfold core, set_frames. by intros [=]. Qed.

Lemma follows_report : follows (report_config (Some n) auth) (report_config None auth).
Proof.
  intros c c0 Hc. unfold report_config. destruct (core_state _ _ Hc) as (-> & _). destruct (handle_command _ _ _) as [res h].
  pose proof (core_handler h (Commanded (command_scope auth) GetConfig) _ _ Hc) as Hc'. destruct res as [e|[| |cfg|o]]; try by split.
  by apply follows_send.
Qed.

Lemma follows_other id cmd : follows (other_command (Some n) auth id cmd) (other_command None auth id cmd).
Proof.
  intros c c0 Hc. unfold other_command. destruct (core_state _ _ Hc) as (-> & _). destruct (handle_command _ _ _) as [res h].
  pose proof (core_handler h (Commanded (command_scope auth) cmd) _ _ Hc) as Hc'. destruct res as [e|r]; [by apply follows_send|].
  apply follows_and_then; [apply follows_send|apply steady_send| |..|exact Hc'].
  - destruct (is_ws_auth_write cmd); [apply follows_report|by intros ? ? ?].
  - destruct (is_ws_auth_write cmd); [|intros c'; split; [done|by exists []; rewrite app_nil_r]].
    intros c'. unfold report_config. destruct (handle_command _ _ _) as [res' h'].
    assert (Hp : calls c' `prefix_of` calls c' ++ [Commanded (command_scope auth) GetConfig]) by by eexists.
    destruct res' as [e|[| |cfg|o]]; by split.
Qed.

Lemma follows_command id cmd : follows (run_command (Some n) auth id cmd) (run_command None auth id cmd).
Proof.
  destruct cmd; try exact (follows_other id _); simpl.
  - intros c c0 Hc. unfold set_config. destruct (core_state _ _ Hc) as (-> & _). destruct (handle_command _ _ _) as [res h].
    pose proof (core_handler h (Commanded (command_scope auth) (SetConfig changes)) _ _ Hc) as Hc'.
    destruct res as [e|[| |cfg|o]]; try by apply follows_send.
    apply follows_and_then; [apply follows_send|apply steady_send|apply follows_send|apply steady_send|done].
  - intros c c0 Hc. unfold send_message. destruct (core_state _ _ Hc) as (-> & -> & _). destruct (adopt_or_mint_turn_id _ _) as [rid k].
    destruct (start_send_message _ _ _ _) as [task h]. set (scope := turn_scope _ _ _).
    assert (Hc' : core (set_handler h (Started scope m rid) (set_minted k c)) = core (set_handler h (Started scope m rid) (set_minted k c0)))
      by same_core Hc.
    destruct task as [e|[t|]]; [by apply follows_send..|].
    apply follows_and_then; [apply follows_send|apply steady_send| |..|exact Hc'].
    + apply follows_quiet. intros x x0 Hx. same_core Hx.
    + intros x. split; [done|]. by exists []; rewrite app_nil_r.
  - intros c c0 Hc. unfold subscribe_background. destruct (core_state _ _ Hc) as (Hh & _ & Hb & _). rewrite Hh, Hb.
    destruct (bg_subscription c0); [by apply follows_send|]. destruct (subscribe_user_events _ _) as [[] h]; apply follows_send.
    + pose proof (core_handler h (Subscribed (command_scope auth)) _ _ Hc) as Hc'. same_core Hc'.
    + by apply core_handler.
  - apply follows_then; [|apply follows_send]. intros x x0 Hx. same_core Hx.
  - apply follows_then; [|apply follows_send]. intros x x0 Hx. same_core Hx.
Qed.

Lemma follows_item item : follows (serve_item (Some n) auth item) (serve_item None auth item).
Proof.
  destruct item as [id cmd|e|op|k]; simpl.
  - destruct (permits _ _); [apply follows_command|apply follows_send].
  - apply follows_send.
  - apply follows_quiet. intros x x0 Hx. same_core Hx.
  - apply follows_quiet. intros x x0 Hx. destruct (core_state _ _ Hx) as (Hh & _ & _ & Hp). unfold run_spawned. rewrite Hp, Hh.
    destruct (pending x0 !! k); [|done]. same_core Hx.
Qed.

Lemma follows_serve items : follows (serve (Some n) auth items) (serve None auth items).
Proof.
  assert (Hsteady : ∀ l, steady (serve None auth l)).
  { induction l as [|i l IH]; intros c; [by split; [|exists []; rewrite app_nil_r]|]. simpl. unfold and_then.
    destruct (steady_serves _ _ _ (serves_item None auth [i] i (proj2 (list_elem_of_singleton _ _) eq_refl)) c) as [Hg Hp].
    destruct (serve_item None auth i c) as [c1 g]. simpl in *. subst g. destruct (IH c1) as [Hg' Hp']. split; [done|by etrans]. }
  induction items as [|i items IH]; [by intros c c0 Hc|]. intros c c0 Hc. simpl.
  apply follows_and_then; [apply follows_item| |exact IH|apply Hsteady|done].
  apply (steady_serves (justified auth [i]) (item_ids i)), serves_item, list_elem_of_singleton. done.
Qed.
End closing.

Lemma core_outlive {P C R E T S : Type} `{!@AssistantApiHandler P C R T S} later (c c0 : Conn (P := P) (C := C) (R := R) (E := E) (T := T) (S := S)) :
  core c = core c0 → core (outlive later c) = core (outlive later c0).
Proof.
  unfold outlive. revert c c0. induction later as [|k later IH]; intros c c0 Hc; [done|]. simpl. apply IH.
  destruct (core_state _ _ Hc) as (Hh & _ & _ & Hp). unfold run_spawned. rewrite Hp, Hh. destruct (pending c0 !! k); [|done].
  unfold core, set_frames in *. injection Hc as H1 H2 H3 H4 H5 H6 H7 H8. simpl. by rewrite ?H1, ?H2, ?H3, ?H4, ?H5, ?H6, ?H7, ?H8.
Qed.

(** C21. A command beyond the connection's capability has no effect at all.
    While the connection's writer is open, the handler, its call log, the spawned
    turns (those that run after the loop too), the forwarders and the shared
    registry end exactly as if the refused requests had never been sent, and each
    refused request is told so.  When the writer closes the loop may stop early,
    and the refusal it could not deliver with it; the calls it has made until
    then are the first of those it would have made without the refused
    requests. *)
Theorem refused_commands_have_no_effect {P C R E T S : Type}
    `{!@AssistantApiHandler P C R T S} `{!@TurnIds T}
    (auth : AuthContext) (sink : nat) (h : S) (subs : option Inner) (inbound : list (@Inbound P)) :
  let run := dispatch_loop (E := E) None auth sink h subs in
  let permitted := List.filter (item_permitted auth) inbound in
  (∀ later, core (outlive later (run inbound)) = core (outlive later (run permitted))) ∧
  (∀ id cmd, Decoded id cmd ∈ inbound → command_permitted auth cmd = false →
    refusal_frame id cmd (required_capability cmd) (capability auth) ∈ frames (run inbound)) ∧
  (∀ n, ∃ made unmade,
    calls (dispatch_loop (E := E) (Some n) auth sink h subs inbound) = made ++ [Ended (session_scope auth)] ∧
    calls (run permitted) = made ++ unmade ++ [Ended (session_scope auth)]).
Proof.
  intros run permitted.
  assert (Hs := serve_permitted (E := E) None auth eq_refl inbound (connect auth sink h subs)). split_and!; [|by apply serve_refusal|].
  - intros later. apply core_outlive. unfold run, dispatch_loop, teardown.
    unfold core, set_frames in Hs. injection Hs as H1 H2 H3 H4 H5 H6 H7 H8. unfold core, set_frames. simpl.
    by rewrite H1, H2, H3, H4, H5, H6, H7, H8.
  - intros n. pose proof (follows_serve (E := E) auth n inbound (connect auth sink h subs) _ eq_refl) as [Hgo Hstop].
    assert (Hp : calls (serve (E := E) (Some n) auth inbound (connect auth sink h subs)).1 `prefix_of`
      calls (serve (E := E) None auth permitted (connect auth sink h subs)).1).
    { unfold permitted. rewrite <- (core_calls _ _ Hs). destruct (serve (Some n) auth inbound (connect auth sink h subs)).2; [|by apply Hstop].
      by rewrite (core_calls _ _ (Hgo eq_refl)). }
    destruct Hp as [unmade Hp]. exists (calls (serve (E := E) (Some n) auth inbound (connect auth sink h subs)).1), unmade.
    split; [done|]. unfold run, dispatch_loop, teardown. simpl. by rewrite Hp, <- app_assoc.
Qed.
