(* ===== verification/UrlPolicy.v ===== *)
(** * The remote-URL policy

    Models [crates/mcp-client/src/url_policy.rs]: the scheme and address rules
    a URL from a client payload must satisfy before it is stored or dialed.
    [Url::parse] is a library and a parameter; the address predicates of the
    standard library are modelled on the numbers the addresses are, a 32-bit
    one for IPv4 and a 128-bit one for IPv6, with the source's masks written as
    bit operations. *)

From S2P Require Import Prelude.

#[local] Open Scope Z_scope.

(** ** Addresses *)

(** [Ipv4Addr::new] and [octets]. *)
Definition ipv4_new (a b c d : Z) : Z :=
  Z.lor (Z.shiftl a 24) (Z.lor (Z.shiftl b 16) (Z.lor (Z.shiftl c 8) d)).
Definition octet (ip : Z) (k : Z) : Z := Z.land (Z.shiftr ip (24 - 8 * k)) 0xff.

Definition v4_is_link_local (ip : Z) : bool := (octet ip 0 =? 169) && (octet ip 1 =? 254).
Definition v4_is_unspecified (ip : Z) : bool := ip =? 0.
Definition v4_is_loopback (ip : Z) : bool := octet ip 0 =? 127.
Definition v4_is_private (ip : Z) : bool :=
  (octet ip 0 =? 10) ||
  ((octet ip 0 =? 172) && (16 <=? octet ip 1) && (octet ip 1 <=? 31)) ||
  ((octet ip 0 =? 192) && (octet ip 1 =? 168)).

(** [Ipv6Addr::segments]. *)
Definition segment (ip : Z) (k : Z) : Z := Z.land (Z.shiftr ip (112 - 16 * k)) 0xffff.

Definition v6_is_loopback (ip : Z) : bool := ip =? 1.
Definition v6_is_unspecified (ip : Z) : bool := ip =? 0.

(** The number the last two segments spell. *)
Definition low_v4 (ip : Z) : Z := Z.lor (Z.shiftl (segment ip 6) 16) (segment ip 7).

Definition to_ipv4_mapped (ip : Z) : option Z :=
  if (segment ip 0 =? 0) && (segment ip 1 =? 0) && (segment ip 2 =? 0) && (segment ip 3 =? 0) && (segment ip 4 =? 0)
     && (segment ip 5 =? 0xffff)
  then Some (low_v4 ip) else None.

(** ** The policy *)

Inductive RequestCredential := NoCredential | Attached.

Definition no_credential (c : RequestCredential) : bool := match c with NoCredential => true | Attached => false end.

Definition BLOCKED_METADATA_HOSTNAMES : list string := ["metadata.google.internal"; "metadata"; "instance-data"].
Definition BLOCKED_METADATA_IPV4 : list Z := [ipv4_new 100 100 100 200; ipv4_new 100 100 100 100].

Inductive UrlPolicyError :=
| Malformed (url reason : string)
| SchemeNotAllowed (url scheme : string)
| InsecureScheme (url : string)
| BlockedTarget (url : string).

Definition url_error_code (e : UrlPolicyError) : string :=
  match e with
  | Malformed _ _ => "url_malformed"
  | SchemeNotAllowed _ _ => "url_scheme_not_allowed"
  | InsecureScheme _ => "url_insecure_scheme"
  | BlockedTarget _ => "url_target_blocked"
  end.

Definition url_user_message (e : UrlPolicyError) : string :=
  match e with
  | Malformed _ _ => "This is not a valid URL. Check the address and try again."
  | SchemeNotAllowed _ scheme => "This address uses '" +:+ scheme +:+ "://'. Use 'https://' instead."
  | InsecureScheme _ =>
      "This address uses 'http://' to a public host. Use 'https://', or point at localhost, a private network address, or an internal hostname."
  | BlockedTarget _ => "This address is not allowed. It names a link-local or cloud metadata address."
  end.

Inductive Host := Domain (name : string) | Ipv4 (ip : Z) | Ipv6 (ip : Z).
Record Url := { url_scheme : string; url_host : option Host }.

(** A host is within the width of its kind. *)
Definition host_wf (h : Host) : Prop :=
  match h with Domain _ => True | Ipv4 ip => 0 ≤ ip < 2 ^ 32 | Ipv6 ip => 0 ≤ ip < 2 ^ 128 end.

Class UrlParser := {
  url_parse : string → string + Url;
  url_parse_wf raw u h : url_parse raw = inr u → url_host u = Some h → host_wf h
}.

Definition is_cgnat (ip : Z) : bool := Z.land ip 0xffc00000 =? 0x64400000.
Definition is_ipv6_link_local (ip : Z) : bool := Z.land (segment ip 0) 0xffc0 =? 0xfe80.
Definition is_ipv6_ula (ip : Z) : bool := Z.land (segment ip 0) 0xfe00 =? 0xfc00.

Definition embedded_ipv4 (ip : Z) : option Z :=
  match to_ipv4_mapped ip with
  | Some v4 => Some v4
  | None =>
      let compatible :=
        (segment ip 0 =? 0) && (segment ip 1 =? 0) && (segment ip 2 =? 0) && (segment ip 3 =? 0) && (segment ip 4 =? 0)
        && (segment ip 5 =? 0) in
      if compatible && (1 <? low_v4 ip) then Some (low_v4 ip)
      else if (segment ip 0 =? 0x64) && (segment ip 1 =? 0xff9b) && (segment ip 2 =? 0) && (segment ip 3 =? 0)
              && (segment ip 4 =? 0) && (segment ip 5 =? 0)
      then Some (low_v4 ip)
      else None
  end.

(** [strip_suffix('.').unwrap_or(name)]. *)
Fixpoint strip_dot (s : string) : string :=
  match s with
  | EmptyString => EmptyString
  | String c EmptyString => if Ascii.eqb c (Ascii.ascii_of_nat 46) then EmptyString else s
  | String c rest => String c (strip_dot rest)
  end.

Definition eq_ignore_ascii_case (a b : string) : bool := String.eqb (to_ascii_lowercase a) (to_ascii_lowercase b).

Definition v4_blocked (ip : Z) : bool :=
  v4_is_link_local ip || v4_is_unspecified ip || existsb (Z.eqb ip) BLOCKED_METADATA_IPV4.

Definition is_blocked_target (u : Url) : bool :=
  match url_host u with
  | Some (Ipv4 ip) => v4_blocked ip
  | Some (Ipv6 ip) =>
      match embedded_ipv4 ip with
      | Some v4 => v4_blocked v4
      | None => is_ipv6_link_local ip || v6_is_unspecified ip
      end
  | Some (Domain name) => existsb (eq_ignore_ascii_case (strip_dot name)) BLOCKED_METADATA_HOSTNAMES
  | None => false
  end.

Definition v4_private_target (ip : Z) (credential : RequestCredential) : bool :=
  v4_is_loopback ip || v4_is_private ip || (no_credential credential && is_cgnat ip).

Definition is_private_target (u : Url) (credential : RequestCredential) : bool :=
  match url_host u with
  | Some (Ipv4 ip) => v4_private_target ip credential
  | Some (Ipv6 ip) =>
      match embedded_ipv4 ip with
      | Some v4 => v4_private_target v4 credential
      | None => v6_is_loopback ip || is_ipv6_ula ip
      end
  | Some (Domain name) =>
      let name := strip_dot name in
      eq_ignore_ascii_case name "localhost" || (no_credential credential && negb (contains_str name "."))
  | None => false
  end.

Definition judge (raw : string) (u : Url) (credential : RequestCredential) : UrlPolicyError + unit :=
  if is_blocked_target u then inl (BlockedTarget raw)
  else if String.eqb (url_scheme u) "https" then inr ()
  else if String.eqb (url_scheme u) "http" then
    if is_private_target u credential then inr () else inl (InsecureScheme raw)
  else inl (SchemeNotAllowed raw (url_scheme u)).

Definition validate_remote_url `{!UrlParser} (raw : string) (credential : RequestCredential) : UrlPolicyError + unit :=
  match url_parse raw with
  | inl reason => inl (Malformed raw reason)
  | inr u => judge raw u credential
  end.

(** ** Masks and shifts are ranges *)


(** The addresses of a network: [base] and the next [2 ^ host_bits]. *)
Definition in_net (base host_bits ip : Z) : Prop := base ≤ ip < base + 2 ^ host_bits.

Lemma octet_digit ip k : 0 ≤ k ≤ 3 → octet ip k = (ip / 2 ^ (24 - 8 * k)) mod 256.
Proof. intros Hk. unfold octet. change 0xff with (Z.ones 8). by rewrite Z.land_ones, Z.shiftr_div_pow2 by lia. Qed.

Lemma segment_digit ip k : 0 ≤ k ≤ 7 → segment ip k = (ip / 2 ^ (112 - 16 * k)) mod 65536.
Proof. intros Hk. unfold segment. change 0xffff with (Z.ones 16). by rewrite Z.land_ones, Z.shiftr_div_pow2 by lia. Qed.

Ltac octets :=
  rewrite ?octet_digit by lia; cbn [Z.mul Z.sub Z.add Z.opp Z.pos_sub]; unfold in_net; simpl Z.pow;
  rewrite ?andb_true_iff, ?orb_true_iff, ?Z.eqb_eq, ?Z.leb_le; Z.to_euclidean_division_equations; lia.

Lemma link_local_net ip : 0 ≤ ip < 2 ^ 32 → v4_is_link_local ip = true ↔ in_net (ipv4_new 169 254 0 0) 16 ip.
Proof. intros Hip. unfold v4_is_link_local. change (ipv4_new 169 254 0 0) with 2851995648. octets. Qed.

Lemma loopback_net ip : 0 ≤ ip < 2 ^ 32 → v4_is_loopback ip = true ↔ in_net (ipv4_new 127 0 0 0) 24 ip.
Proof. intros Hip. unfold v4_is_loopback. change (ipv4_new 127 0 0 0) with 2130706432. octets. Qed.

Lemma private_nets ip :
  0 ≤ ip < 2 ^ 32 →
  v4_is_private ip = true ↔
  in_net (ipv4_new 10 0 0 0) 24 ip ∨ in_net (ipv4_new 172 16 0 0) 20 ip ∨ in_net (ipv4_new 192 168 0 0) 16 ip.
Proof.
  intros Hip. unfold v4_is_private. change (ipv4_new 10 0 0 0) with 167772160. change (ipv4_new 172 16 0 0) with 2886729728.
  change (ipv4_new 192 168 0 0) with 3232235520. octets.
Qed.

Lemma cgnat_net ip : 0 ≤ ip < 2 ^ 32 → is_cgnat ip = true ↔ in_net (ipv4_new 100 64 0 0) 22 ip.
Proof.
  intros Hip. unfold is_cgnat. change 0xffc00000 with (2 ^ 32 - 2 ^ 22). rewrite land_mask by lia.
  change (ipv4_new 100 64 0 0) with 0x64400000. unfold in_net. rewrite Z.eqb_eq. simpl Z.pow.
  Z.to_euclidean_division_equations; lia.
Qed.

(** An IPv6 address is its segments. *)
Lemma segment_bound ip k : 0 ≤ k ≤ 7 → 0 ≤ segment ip k < 65536.
Proof. intros Hk. rewrite segment_digit by lia. apply Z.mod_pos_bound. lia. Qed.

Lemma segment_step ip k :
  1 ≤ k ≤ 7 → ip / 2 ^ (112 - 16 * k) = 65536 * (ip / 2 ^ (112 - 16 * (k - 1))) + segment ip k.
Proof.
  intros Hk. rewrite segment_digit by lia.
  replace (2 ^ (112 - 16 * (k - 1))) with (2 ^ (112 - 16 * k) * 65536)
    by (change 65536 with (2 ^ 16); rewrite <- Z.pow_add_r by lia; f_equal; lia).
  rewrite <- Z.div_div by lia. apply Z.div_mod. lia.
Qed.

Lemma low_v4_mod ip : low_v4 ip = 65536 * segment ip 6 + segment ip 7.
Proof.
  unfold low_v4. pose proof (segment_bound ip 7). rewrite Z.lor_comm, lor_shiftl by lia. change (2 ^ 16) with 65536. lia.
Qed.

(** The upper 96 bits, as the six segments spell them. *)
Definition prefix (ip : Z) : Z :=
  65536 * (65536 * (65536 * (65536 * (65536 * segment ip 0 + segment ip 1) + segment ip 2) + segment ip 3) + segment ip 4)
  + segment ip 5.

Lemma segments_spell ip : 0 ≤ ip < 2 ^ 128 → ip = 2 ^ 32 * prefix ip + low_v4 ip.
Proof.
  intros Hip. rewrite low_v4_mod. unfold prefix.
  assert (H0 : segment ip 0 = ip / 2 ^ 112).
  { rewrite segment_digit by lia. apply Z.mod_small. split; [apply Z.div_pos; lia|apply Z.div_lt_upper_bound; lia]. }
  assert (H1 : ip / 2 ^ 96 = 65536 * (ip / 2 ^ 112) + segment ip 1) by (apply (segment_step ip 1); lia).
  assert (H2 : ip / 2 ^ 80 = 65536 * (ip / 2 ^ 96) + segment ip 2) by (apply (segment_step ip 2); lia).
  assert (H3 : ip / 2 ^ 64 = 65536 * (ip / 2 ^ 80) + segment ip 3) by (apply (segment_step ip 3); lia).
  assert (H4 : ip / 2 ^ 48 = 65536 * (ip / 2 ^ 64) + segment ip 4) by (apply (segment_step ip 4); lia).
  assert (H5 : ip / 2 ^ 32 = 65536 * (ip / 2 ^ 48) + segment ip 5) by (apply (segment_step ip 5); lia).
  assert (H6 : ip / 2 ^ 16 = 65536 * (ip / 2 ^ 32) + segment ip 6) by (apply (segment_step ip 6); lia).
  assert (H7 : ip / 2 ^ 0 = 65536 * (ip / 2 ^ 16) + segment ip 7) by (apply (segment_step ip 7); lia).
  rewrite Z.pow_0_r, Z.div_1_r in H7. lia.
Qed.

(** The three ways an IPv4 address hides in an IPv6 literal. *)
Definition mapped (v4 : Z) : Z := 0xffff * 2 ^ 32 + v4.
Definition nat64 (v4 : Z) : Z := 0x64ff9b * 2 ^ 96 + v4.

Lemma prefix_eqb ip a b c d e f :
  0 ≤ a < 65536 → 0 ≤ b < 65536 → 0 ≤ c < 65536 → 0 ≤ d < 65536 → 0 ≤ e < 65536 → 0 ≤ f < 65536 →
  (segment ip 0 =? a) && (segment ip 1 =? b) && (segment ip 2 =? c) && (segment ip 3 =? d) && (segment ip 4 =? e)
    && (segment ip 5 =? f)
  = (prefix ip =? 65536 * (65536 * (65536 * (65536 * (65536 * a + b) + c) + d) + e) + f).
Proof.
  intros. pose proof (segment_bound ip 0 ltac:(lia)). pose proof (segment_bound ip 1 ltac:(lia)).
  pose proof (segment_bound ip 2 ltac:(lia)). pose proof (segment_bound ip 3 ltac:(lia)).
  pose proof (segment_bound ip 4 ltac:(lia)). pose proof (segment_bound ip 5 ltac:(lia)).
  apply eq_true_iff_eq. unfold prefix. rewrite !andb_true_iff, !Z.eqb_eq. lia.
Qed.

Lemma embedded_ipv4_spec ip v4 :
  0 ≤ ip < 2 ^ 128 →
  embedded_ipv4 ip = Some v4 ↔ 0 ≤ v4 < 2 ^ 32 ∧ (ip = mapped v4 ∨ (ip = v4 ∧ 1 < v4) ∨ ip = nat64 v4).
Proof.
  intros Hip. pose proof (segments_spell ip Hip) as Hs. pose proof (low_v4_mod ip) as Hl.
  pose proof (segment_bound ip 6 ltac:(lia)). pose proof (segment_bound ip 7 ltac:(lia)).
  unfold embedded_ipv4, to_ipv4_mapped, mapped, nat64. rewrite !prefix_eqb by lia.
  destruct (Z.eqb_spec (prefix ip) (65536 * (65536 * (65536 * (65536 * (65536 * 0 + 0) + 0) + 0) + 0) + 0xffff)).
  { split; [intros [= <-]|intros ?; f_equal]; lia. }
  cbv zeta. destruct (Z.eqb_spec (prefix ip) (65536 * (65536 * (65536 * (65536 * (65536 * 0 + 0) + 0) + 0) + 0) + 0)),
    (Z.ltb_spec 1 (low_v4 ip)); simpl andb; cbv iota.
  1: split; [intros [= <-]|intros ?; f_equal]; lia.
  all: case_match eqn:Hn; [apply Z.eqb_eq in Hn|apply Z.eqb_neq in Hn];
    (split; [intros [= <-] || discriminate|intros ?; f_equal || exfalso]); lia.
Qed.

Lemma ipv6_first_segment_net ip base k :
  0 ≤ k ≤ 16 → 0 ≤ ip < 2 ^ 128 →
  Z.land (segment ip 0) (2 ^ 16 - 2 ^ k) =? base * 2 ^ k = true ↔ in_net (base * 2 ^ (k + 112)) (k + 112) ip.
Proof.
  intros Hk Hip. rewrite land_mask by (lia || (pose proof (segment_bound ip 0); lia)). rewrite Z.eqb_eq.
  assert (H0 : segment ip 0 = ip / 2 ^ 112).
  { rewrite segment_digit by lia. apply Z.mod_small. split; [apply Z.div_pos; lia|apply Z.div_lt_upper_bound; lia]. }
  rewrite H0, Z.div_div, <- Z.pow_add_r, (Z.add_comm 112) by lia. unfold in_net.
  pose proof (Z.pow_pos_nonneg 2 k ltac:(lia) ltac:(lia)). pose proof (Z.pow_pos_nonneg 2 (k + 112) ltac:(lia) ltac:(lia)).
  rewrite Z.mul_cancel_r by lia. pose proof (Z.div_mod ip (2 ^ (k + 112)) ltac:(lia)).
  pose proof (Z.mod_pos_bound ip (2 ^ (k + 112)) ltac:(lia)). nia.
Qed.

Lemma v6_link_local_net ip : 0 ≤ ip < 2 ^ 128 → is_ipv6_link_local ip = true ↔ in_net (0xfe80 * 2 ^ 112) 118 ip.
Proof. apply (ipv6_first_segment_net ip 0x3fa 6). lia. Qed.

Lemma v6_ula_net ip : 0 ≤ ip < 2 ^ 128 → is_ipv6_ula ip = true ↔ in_net (0xfc00 * 2 ^ 112) 121 ip.
Proof. apply (ipv6_first_segment_net ip 0x7e 9). lia. Qed.

(** ** The rule, as the module documents it *)

Definition forbidden_v4 (ip : Z) : Prop :=
  in_net (ipv4_new 169 254 0 0) 16 ip ∨ ip = 0 ∨ ip = ipv4_new 100 100 100 200 ∨ ip = ipv4_new 100 100 100 100.

Definition near_v4 (credential : RequestCredential) (ip : Z) : Prop :=
  in_net (ipv4_new 127 0 0 0) 24 ip ∨
  in_net (ipv4_new 10 0 0 0) 24 ip ∨ in_net (ipv4_new 172 16 0 0) 20 ip ∨ in_net (ipv4_new 192 168 0 0) 16 ip ∨
  credential = NoCredential ∧ in_net (ipv4_new 100 64 0 0) 22 ip.

(** An IPv6 literal that spells an IPv4 address is judged as that address. *)
Definition spells (ip v4 : Z) : Prop := 0 ≤ v4 < 2 ^ 32 ∧ (ip = mapped v4 ∨ (ip = v4 ∧ 1 < v4) ∨ ip = nat64 v4).

Definition forbidden (h : option Host) : Prop :=
  match h with
  | Some (Ipv4 ip) => forbidden_v4 ip
  | Some (Ipv6 ip) =>
      (∃ v4, spells ip v4 ∧ forbidden_v4 v4) ∨
      (¬ ∃ v4, spells ip v4) ∧ (in_net (0xfe80 * 2 ^ 112) 118 ip ∨ ip = 0)
  | Some (Domain name) => to_ascii_lowercase (strip_dot name) ∈ BLOCKED_METADATA_HOSTNAMES
  | None => False
  end.

Definition near (credential : RequestCredential) (h : option Host) : Prop :=
  match h with
  | Some (Ipv4 ip) => near_v4 credential ip
  | Some (Ipv6 ip) =>
      (∃ v4, spells ip v4 ∧ near_v4 credential v4) ∨
      (¬ ∃ v4, spells ip v4) ∧ (ip = 1 ∨ in_net (0xfc00 * 2 ^ 112) 121 ip)
  | Some (Domain name) =>
      to_ascii_lowercase (strip_dot name) = "localhost" ∨
      credential = NoCredential ∧ ¬ ∃ l r, strip_dot name = l +:+ "." +:+ r
  | None => False
  end.

Lemma v4_blocked_spec ip : 0 ≤ ip < 2 ^ 32 → v4_blocked ip = true ↔ forbidden_v4 ip.
Proof.
  intros Hip. unfold v4_blocked, forbidden_v4. rewrite !orb_true_iff, link_local_net by done.
  unfold v4_is_unspecified, BLOCKED_METADATA_IPV4. cbn [existsb]. rewrite !orb_true_iff, !Z.eqb_eq. intuition discriminate.
Qed.

Lemma no_credential_iff c : no_credential c = true ↔ c = NoCredential.
Proof. by destruct c. Qed.

Lemma v4_private_spec ip credential : 0 ≤ ip < 2 ^ 32 → v4_private_target ip credential = true ↔ near_v4 credential ip.
Proof.
  intros Hip. unfold v4_private_target, near_v4.
  rewrite !orb_true_iff, andb_true_iff, loopback_net, private_nets, cgnat_net by done.
  rewrite no_credential_iff. tauto.
Qed.

Lemma embedded_cases ip :
  0 ≤ ip < 2 ^ 128 →
  match embedded_ipv4 ip with
  | Some v4 => 0 ≤ v4 < 2 ^ 32 ∧ ∀ w, spells ip w ↔ w = v4
  | None => ¬ ∃ v4, spells ip v4
  end.
Proof.
  intros Hip. destruct (embedded_ipv4 ip) as [v4|] eqn:He.
  - split; [by apply (embedded_ipv4_spec ip v4 Hip) in He as [? _]|].
    intros w. unfold spells. rewrite <- (embedded_ipv4_spec ip w Hip), He. naive_solver.
  - intros [v4 Hv]. apply (embedded_ipv4_spec ip v4 Hip) in Hv. congruence.
Qed.

Lemma is_blocked_target_spec u : (∀ h, url_host u = Some h → host_wf h) → is_blocked_target u = true ↔ forbidden (url_host u).
Proof.
  intros Hwf. unfold is_blocked_target. destruct (url_host u) as [[name|ip|ip]|]; cbn [forbidden]; [..|done].
  - rewrite existsb_exists, list_elem_of_In. unfold eq_ignore_ascii_case. setoid_rewrite String.eqb_eq.
    split; [|intros Hb; eexists; split; [exact Hb|]; clear Hwf; revert Hb].
    + intros (b & Hb & ->). by destruct Hb as [<-|[<-|[<-|[]]]]; cbn; auto.
    + by intros [<-|[<-|[<-|[]]]].
  - apply v4_blocked_spec. by apply (Hwf (Ipv4 ip)).
  - assert (Hip : host_wf (Ipv6 ip)) by by apply Hwf. pose proof (embedded_cases ip Hip) as He.
    destruct (embedded_ipv4 ip) as [v4|].
    + destruct He as [Hv He]. rewrite v4_blocked_spec by done. setoid_rewrite He. split; [by eauto|]. intros [(w & -> & ?)|[Hn _]]; [done|]. destruct Hn. by exists v4.
    + rewrite orb_true_iff, v6_link_local_net by done. unfold v6_is_unspecified. rewrite Z.eqb_eq.
      split; [by right|]. intros [(w & Hw & _)|[_ ?]]; [|done]. destruct He. by exists w.
Qed.

Lemma is_private_target_spec u credential :
  (∀ h, url_host u = Some h → host_wf h) → is_private_target u credential = true ↔ near credential (url_host u).
Proof.
  intros Hwf. unfold is_private_target. destruct (url_host u) as [[name|ip|ip]|]; cbn [near]; [..|done].
  - unfold eq_ignore_ascii_case. rewrite orb_true_iff, andb_true_iff, negb_true_iff, String.eqb_eq.
    rewrite <- contains_str_app, not_true_iff_false.
    rewrite no_credential_iff. tauto.
  - apply v4_private_spec. by apply (Hwf (Ipv4 ip)).
  - assert (Hip : host_wf (Ipv6 ip)) by by apply Hwf. pose proof (embedded_cases ip Hip) as He.
    destruct (embedded_ipv4 ip) as [v4|].
    + destruct He as [Hv He]. rewrite v4_private_spec by done. setoid_rewrite He. split; [by eauto|]. intros [(w & -> & ?)|[Hn _]]; [done|]. destruct Hn. by exists v4.
    + rewrite orb_true_iff, v6_ula_net by done. unfold v6_is_loopback. rewrite Z.eqb_eq.
      split; [by right|]. intros [(w & Hw & _)|[_ ?]]; [|done]. destruct He. by exists w.
Qed.

Ltac verdict :=
  split; [|split; [|split; [|intros ?]]]; split; intros; destruct_and?; destruct_or?; destruct_and?;
  try (exfalso; by auto); try (repeat split; try discriminate; by auto); try congruence; by simplify_eq.

(** C24. A parsed URL is judged exactly as the policy says, over whole address
    ranges: an address on the floor (link-local, unspecified, a metadata
    service) is refused under every scheme; otherwise [https] is accepted
    anywhere, [http] only to loopback, RFC 1918 and unique-local addresses and
    [localhost], and, when no credential travels, to shared address space and
    dot-free names; everything else has its own refusal. *)
Theorem url_verdict_is_the_policy `{!UrlParser} (raw : string) (u : Url) (credential : RequestCredential)
    (Hparse : url_parse raw = inr u) :
  let verdict := validate_remote_url raw credential in
  let h := url_host u in
  (verdict = inl (BlockedTarget raw) ↔ forbidden h) ∧
  (verdict = inr () ↔ ¬ forbidden h ∧ (url_scheme u = "https" ∨ url_scheme u = "http" ∧ near credential h)) ∧
  (verdict = inl (InsecureScheme raw) ↔ ¬ forbidden h ∧ url_scheme u = "http" ∧ ¬ near credential h) ∧
  (∀ s, verdict = inl (SchemeNotAllowed raw s) ↔ ¬ forbidden h ∧ url_scheme u = s ∧ s ≠ "https" ∧ s ≠ "http").
Proof.
  assert (Hwf : ∀ h, url_host u = Some h → host_wf h) by (intros h; by apply url_parse_wf with raw).
  cbv zeta. unfold validate_remote_url. rewrite Hparse. unfold judge.
  setoid_rewrite <- (is_blocked_target_spec u Hwf). setoid_rewrite <- (is_private_target_spec u credential Hwf).
  clear Hwf Hparse.
  destruct (is_blocked_target u); [verdict|].
  destruct (String.eqb_spec (url_scheme u) "https") as [->|Hs]; [verdict|].
  destruct (String.eqb_spec (url_scheme u) "http") as [->|Ht]; [destruct (is_private_target u credential); verdict|].
  verdict.
Qed.

#[local] Program Instance toy_parser : UrlParser :=
  {| url_parse := λ raw,
       if String.eqb raw "http://[::ffff:a9fe:a9fe]/" then inr {| url_scheme := "http"; url_host := Some (Ipv6 0xffffa9fea9fe) |}
       else inl "relative URL without a base" |}.
Next Obligation. intros raw u h. cbv beta. destruct (String.eqb _ _); [|done]. by intros [= <-] [= <-]. Qed.

Lemma url_verdict_is_the_policy_witness :
  validate_remote_url "http://[::ffff:a9fe:a9fe]/" NoCredential = inl (BlockedTarget "http://[::ffff:a9fe:a9fe]/").
Proof.
  eapply (url_verdict_is_the_policy "http://[::ffff:a9fe:a9fe]/"); [reflexivity|]. simpl. left.
  exists (ipv4_new 169 254 169 254). split; [split; [split; [discriminate|reflexivity]|by left]|].
  left. split; [discriminate|reflexivity].
Defined.

(** Writing an IPv4 address as an IPv6 literal changes nothing: mapped,
    NAT64 and IPv4-compatible spellings get the verdict of the address itself,
    and no other IPv6 literal is read as an IPv4 address. *)
Theorem spelling_never_changes_the_verdict (raw scheme : string) (credential : RequestCredential) (ip v4 : Z)
    (Hip : 0 ≤ ip < 2 ^ 128) :
  (spells ip v4 →
     judge raw {| url_scheme := scheme; url_host := Some (Ipv6 ip) |} credential =
     judge raw {| url_scheme := scheme; url_host := Some (Ipv4 v4) |} credential) ∧
  (embedded_ipv4 ip = Some v4 ↔ spells ip v4).
Proof.
  split; [|by apply embedded_ipv4_spec]. intros Hs. apply (embedded_ipv4_spec ip v4 Hip) in Hs as He.
  unfold judge, is_blocked_target, is_private_target. cbn [url_host url_scheme]. by rewrite He.
Qed.

Lemma spelling_never_changes_the_verdict_witness :
  judge "u" {| url_scheme := "http"; url_host := Some (Ipv6 (nat64 0x0a000001)) |} Attached =
  judge "u" {| url_scheme := "http"; url_host := Some (Ipv4 0x0a000001) |} Attached.
Proof.
  eapply (spelling_never_changes_the_verdict "u" "http" Attached (nat64 0x0a000001)); [split; [discriminate|reflexivity]|].
  split; [split; [discriminate|reflexivity]|]. right. by right.
Defined.
