(* ===== verification/OAuth.v ===== *)
(** * The tokens a remote server is reached with

    Models [crates/mcp-client/src/oauth.rs]: the token set and its expiry, the
    reading of a token endpoint's answer, the provider that keeps one account's
    access token fresh, and the checks of the interactive login.

    The endpoint and the store are ports over an arbitrary world: each call may
    change it and the world decides the answers.  Instants and durations are
    seconds; [max_utc] is the last instant a [DateTime] holds, past which the
    program's addition panics.  JSON and URL parsing are parameters.  The mutex
    around the provider's state is held for a whole [get], so a run of the
    provider is a sequence of them. *)

From S2P Require Import Prelude Json TaskStore UrlPolicy.

#[local] Open Scope Z_scope.
#[local] Set Default Proof Using "Type".

Inductive OAuthError :=
| OConfig (m : string)
| OHttp (m : string)
| OEndpoint (status : Z) (body : string)
| InvalidGrant (m : string)
| OMalformed (m : string)
| NoRefreshToken
| OAuthorization (m : string)
| StateMismatch
| OStore (m : string)
| OFlow (m : string).

#[export] Instance OAuthError_eq_dec : EqDecision OAuthError.
Proof. solve_decision. Defined.

Definition oauth_error_to_string (e : OAuthError) : string :=
  match e with
  | OConfig m => "OAuth configuration error: " +:+ m
  | OHttp m => "OAuth HTTP request failed: " +:+ m
  | OEndpoint status body => "OAuth token endpoint returned HTTP " +:+ pretty status +:+ ": " +:+ body
  | InvalidGrant m => "refresh token is no longer valid (" +:+ m +:+ "); re-run the OAuth login for this account"
  | OMalformed m => "malformed OAuth token response: " +:+ m
  | NoRefreshToken => "no refresh token available; run the OAuth login for this account first"
  | OAuthorization m => "authorization was denied or failed: " +:+ m
  | StateMismatch => "OAuth state mismatch on redirect: possible CSRF; login aborted"
  | OStore m => "token store error: " +:+ m
  | OFlow m => "OAuth login flow error: " +:+ m
  end.

(** ** Token sets *)

Record TokenSet := {
  access_token : string;
  refresh_token : option string;
  expires_at : option Z;
  token_type : string;
  scope : option string
}.

#[export] Instance TokenSet_eq_dec : EqDecision TokenSet.
Proof. solve_decision. Defined.

Definition is_expired_at (t : TokenSet) (now skew : Z) : bool :=
  match expires_at t with None => false | Some exp => exp <=? now + skew end.

Record TokenResponse := {
  tr_access_token : string;
  tr_refresh_token : option string;
  tr_expires_in : option Z;
  tr_token_type : option string;
  tr_scope : option string
}.

(** The largest [chrono::Duration], in seconds. *)
Definition MAX_DURATION : Z := 9223372036854775.

Section answers.
Context `{!SerdeJson} (parse_response : Value → option TokenResponse) (max_utc : Z).

(** [into_token_set]: [None] where building the duration or adding it panics. *)
Definition into_token_set (r : TokenResponse) (now : Z) : option TokenSet :=
  let build exp :=
    Some {| access_token := tr_access_token r; refresh_token := tr_refresh_token r; expires_at := exp;
            token_type := default "Bearer" (tr_token_type r); scope := tr_scope r |} in
  match tr_expires_in r with
  | None => build None
  | Some secs =>
      if (Z.abs secs <=? MAX_DURATION) && (Z.abs (now + secs) <=? max_utc) then build (Some (now + secs)) else None
  end.

(** [snippet]: the first five hundred characters. *)
Definition snippet (body : string) : string := take_chars 500 body.

(** The outcome of a call that may panic. *)
Inductive answer (A : Type) := Answered (r : result A OAuthError) | Panicked.
Arguments Answered {A}.
Arguments Panicked {A}.

Record HttpAnswer := { http_status : Z; http_body : string }.
Definition is_success (status : Z) : bool := (200 <=? status) && (status <=? 299).

(** [post_token], from the endpoint's answer on. *)
Definition read_token_answer (got : result HttpAnswer string) (now : Z) : answer TokenSet :=
  match got with
  | Err e => Answered (Err (OHttp e))
  | Ok a =>
      if negb (is_success (http_status a)) then
        Answered (Err (if bool_decide (from_str (http_body a) ≫= get_str "error" = Some "invalid_grant")
                       then InvalidGrant (snippet (http_body a))
                       else OEndpoint (http_status a) (snippet (http_body a))))
      else
        match from_str (http_body a) ≫= parse_response with
        | None => Answered (Err (OMalformed "token response"))
        | Some r => match into_token_set r now with Some t => Answered (Ok t) | None => Panicked end
        end
  end.

End answers.
Arguments Answered {A}.
Arguments Panicked {A}.

(** ** The client and its grants *)

Record OAuthClient := { client_id : string; client_secret : option string; token_url : string }.

Definition form_secret (c : OAuthClient) : list (string * string) :=
  match client_secret c with Some s => [("client_secret", s)] | None => [] end.

Definition refresh_form (c : OAuthClient) (refresh : string) : list (string * string) :=
  [("grant_type", "refresh_token"); ("refresh_token", refresh); ("client_id", client_id c)] ++ form_secret c.

Definition exchange_form (c : OAuthClient) (code verifier redirect_uri : string) : list (string * string) :=
  [("grant_type", "authorization_code"); ("code", code); ("redirect_uri", redirect_uri); ("client_id", client_id c);
   ("code_verifier", verifier)] ++ form_secret c.

(** [Url::host_str]: an IPv6 host is printed in brackets. *)
Definition host_str (ipv4_text ipv6_text : Z → string) (h : Host) : string :=
  match h with Domain d => d | Ipv4 ip => ipv4_text ip | Ipv6 ip => "[" +:+ ipv6_text ip +:+ "]" end.

Definition validate_endpoint_url `{!UrlParser} (ipv4_text ipv6_text : Z → string) (raw : string) : result unit OAuthError :=
  match url_parse raw with
  | inl e => Err (OConfig ("invalid URL '" +:+ raw +:+ "': " +:+ e))
  | inr u =>
      if String.eqb (url_scheme u) "https" then Ok ()
      else if String.eqb (url_scheme u) "http" then
        match host_str ipv4_text ipv6_text <$> url_host u with
        | Some "localhost" | Some "127.0.0.1" | Some "::1" => Ok ()
        | _ => Err (OConfig ("refusing insecure OAuth endpoint (http:// is only allowed for loopback): " +:+ raw))
        end
      else Err (OConfig ("unsupported URL scheme '" +:+ url_scheme u +:+ "' in " +:+ raw))
  end.

Definition OAuthClient_new `{!UrlParser} (ipv4_text ipv6_text : Z → string) (cid : string) (secret : option string) (turl : string)
    : result OAuthClient OAuthError :=
  match validate_endpoint_url ipv4_text ipv6_text turl with
  | Err e => Err e
  | Ok _ => Ok {| client_id := cid; client_secret := secret; token_url := turl |}
  end.

(** ** The provider *)

(** [merge_tokens] *)
Definition merge_tokens (old : option TokenSet) (new : TokenSet) : TokenSet :=
  match refresh_token new with
  | Some _ => new
  | None =>
      {| access_token := access_token new; refresh_token := old ≫= refresh_token; expires_at := expires_at new;
         token_type := token_type new; scope := scope new |}
  end.

Definition reconcile_stored (seed : option TokenSet) (stored : TokenSet) : TokenSet :=
  match seed, seed ≫= refresh_token, refresh_token stored with
  | Some s, Some seed_rt, Some stored_rt => if bool_decide (seed_rt ≠ stored_rt) then s else merge_tokens seed stored
  | _, _, _ => merge_tokens seed stored
  end.

Record ProviderState := { loaded_from_store : bool; provider_tokens : option TokenSet }.

Definition TokenProvider_new (seed : option TokenSet) : ProviderState := {| loaded_from_store := false; provider_tokens := seed |}.

Definition bootstrap_seed (rt : string) : TokenSet :=
  {| access_token := EmptyString; refresh_token := Some rt; expires_at := None; token_type := "Bearer"; scope := None |}.

Definition bootstrap_from_refresh_token (rt : string) : ProviderState := TokenProvider_new (Some (bootstrap_seed rt)).

Record TokenPorts (W : Type) := {
  p_load : W → string → result (option TokenSet) OAuthError * W;
  p_save : W → string → TokenSet → result unit OAuthError * W;
  p_refresh : W → list (string * string) → Z → answer TokenSet * W
}.
Arguments p_load {W}.
Arguments p_save {W}.
Arguments p_refresh {W}.

Section provider.
Context {W : Type} (ports : TokenPorts W) (client : OAuthClient) (account_key : string) (skew : Z).

(** The store is consulted once. *)
Definition load_once (st : ProviderState) (w : W) : ProviderState * W :=
  if loaded_from_store st then (st, w)
  else
    let '(r, w) := p_load ports w account_key in
    ({| loaded_from_store := true;
        provider_tokens := match r with Ok (Some stored) => Some (reconcile_stored (provider_tokens st) stored) | _ => provider_tokens st end |}, w).

Definition needs_refresh (st : ProviderState) (now : Z) (force : bool) : bool :=
  force || match provider_tokens st with
           | None => true
           | Some t => String.eqb (access_token t) EmptyString || is_expired_at t now skew
           end.

Definition current (st : ProviderState) : answer string :=
  Answered (match provider_tokens st with Some t => Ok (access_token t) | None => Err NoRefreshToken end).

Definition provider_get (st : ProviderState) (w : W) (now : Z) (force : bool) : answer string * ProviderState * W :=
  let '(st, w) := load_once st w in
  if needs_refresh st now force then
    match provider_tokens st ≫= refresh_token with
    | None => (Answered (Err NoRefreshToken), st, w)
    | Some rt =>
        let '(r, w) := p_refresh ports w (refresh_form client rt) now in
        match r with
        | Panicked => (Panicked, st, w)
        | Answered (Err e) => (Answered (Err e), st, w)
        | Answered (Ok refreshed) =>
            let merged := merge_tokens (provider_tokens st) refreshed in
            let '(_, w) := p_save ports w account_key merged in
            let st := {| loaded_from_store := true; provider_tokens := Some merged |} in
            (current st, st, w)
        end
    end
  else (current st, st, w).

Definition current_token (st : ProviderState) (w : W) (now : Z) := provider_get st w now false.
Definition force_refresh (st : ProviderState) (w : W) (now : Z) := provider_get st w now true.

(** A run: each request is the clock and whether a refresh is forced. *)
Definition provider_step (s : ProviderState * W) (req : Z * bool) : ProviderState * W :=
  let '(_, st, w) := provider_get s.1 s.2 req.1 req.2 in (st, w).

End provider.

(** ** The interactive login *)

Record Pkce := { verifier : string; challenge : string; pkce_method : string }.

Definition from_verifier (sha256 base64url : string → string) (v : string) : Pkce :=
  {| verifier := v; challenge := base64url (sha256 v); pkce_method := "S256" |}.

(** [build_authorize_url]: the query of the URL the browser is sent to. *)
Definition authorize_pairs (cid redirect_uri : string) (scopes : list string) (state : string) (pkce : Pkce) : list (string * string) :=
  [("response_type", "code"); ("client_id", cid); ("redirect_uri", redirect_uri); ("scope", String.concat " " scopes); ("state", state);
   ("code_challenge", challenge pkce); ("code_challenge_method", pkce_method pkce); ("access_type", "offline"); ("prompt", "consent")].

(** What the redirect's query held: the last value of each key. *)
Record Redirect := { r_code : option string; r_state : option string; r_denied : option string }.

Definition read_pair (r : Redirect) (kv : string * string) : Redirect :=
  if String.eqb kv.1 "code" then {| r_code := Some kv.2; r_state := r_state r; r_denied := r_denied r |}
  else if String.eqb kv.1 "state" then {| r_code := r_code r; r_state := Some kv.2; r_denied := r_denied r |}
  else if String.eqb kv.1 "error" then {| r_code := r_code r; r_state := r_state r; r_denied := Some kv.2 |}
  else r.

Definition read_redirect (pairs : list (string * string)) : Redirect :=
  foldl read_pair {| r_code := None; r_state := None; r_denied := None |} pairs.

Definition login_outcome (state : string) (r : Redirect) : result unit OAuthError :=
  match r_denied r with
  | Some e => Err (OAuthorization e)
  | None =>
      if bool_decide (r_state r ≠ Some state) then Err StateMismatch
      else match r_code r with None => Err (OAuthorization "redirect carried no authorization code") | Some _ => Ok () end
  end.

(** The end of [run_loopback_login]: the form posted, when one is. *)
Definition login_exchange (c : OAuthClient) (pkce : Pkce) (state redirect_uri : string) (pairs : list (string * string))
    : result (list (string * string)) OAuthError :=
  let r := read_redirect pairs in
  match login_outcome state r, r_code r with
  | Err e, _ => Err e
  | Ok _, Some code => Ok (exchange_form c code (verifier pkce) redirect_uri)
  | Ok _, None => Err (OAuthorization "redirect carried no authorization code")
  end.

(** ** The refresh token *)

Lemma merge_refresh old new : refresh_token (merge_tokens old new) = match refresh_token new with Some r => Some r | None => old ≫= refresh_token end.
Proof. unfold merge_tokens. by destruct (refresh_token new) eqn:E. Qed.

Lemma reconcile_refresh seed stored rt : refresh_token seed = Some rt → refresh_token (reconcile_stored (Some seed) stored) = Some rt.
Proof.
  intros Hs. unfold reconcile_stored. cbn [mbind option_bind]. rewrite Hs.
  destruct (refresh_token stored) as [r|] eqn:Hr; [case_bool_decide as E; [done|]|]; rewrite merge_refresh, Hr; cbn [mbind option_bind]; [|done].
  destruct (decide (rt = r)) as [->|]; [done|]. by destruct E.
Qed.

Section provider_facts.
Context {W : Type} (ports : TokenPorts W) (client : OAuthClient) (account_key : string) (skew : Z).

(** What a request says to the endpoint and hears from it, when it asks at all. *)
Definition exchange (s : ProviderState * W) (req : Z * bool) : option (list (string * string) * answer TokenSet) :=
  let '(st, w) := load_once ports account_key s.1 s.2 in
  if needs_refresh skew st req.1 req.2 then
    (λ rt, (refresh_form client rt, (p_refresh ports w (refresh_form client rt) req.1).1)) <$> (provider_tokens st ≫= refresh_token)
  else None.

(** The exchanges of a run, in order. *)
Fixpoint exchanges (s : ProviderState * W) (reqs : list (Z * bool)) : list (list (string * string) * answer TokenSet) :=
  match reqs with
  | [] => []
  | req :: reqs' => option_list (exchange s req) ++ exchanges (provider_step ports client account_key skew s req) reqs'
  end.

(** The refresh token in force after an exchange: the endpoint's new one, or
    where it named none the one before. *)
Definition rotated (rt : string) (x : list (string * string) * answer TokenSet) : string :=
  match x.2 with Answered (Ok t) => default rt (refresh_token t) | _ => rt end.

Definition in_force (rt : string) (xs : list (list (string * string) * answer TokenSet)) : string := foldl rotated rt xs.

Lemma load_keeps rt st w :
  provider_tokens st ≫= refresh_token = Some rt →
  provider_tokens (load_once ports account_key st w).1 ≫= refresh_token = Some rt.
Proof.
  intros Hs. unfold load_once. destruct (loaded_from_store st); [done|]. destruct (p_load ports w account_key) as [r w']. cbn [fst].
  destruct (provider_tokens st) as [t|] eqn:Et; [|done]. destruct r as [[stored|]|]; [|done..]. by apply reconcile_refresh.
Qed.

(** A request holds the token its exchange left in force, and asked with the one
    that was. *)
Lemma step_keeps rt s req :
  provider_tokens s.1 ≫= refresh_token = Some rt →
  provider_tokens (provider_step ports client account_key skew s req).1 ≫= refresh_token = Some (in_force rt (option_list (exchange s req))) ∧
  ∀ form r, exchange s req = Some (form, r) → form = refresh_form client rt.
Proof.
  intros Hs. unfold provider_step, provider_get, exchange. pose proof (load_keeps rt s.1 s.2 Hs) as Hl.
  destruct (load_once ports account_key s.1 s.2) as [st1 w1]. cbn [fst] in Hl. destruct (needs_refresh skew st1 req.1 req.2); [|by split].
  rewrite Hl. cbn [fmap option_fmap option_map]. destruct (p_refresh ports w1 (refresh_form client rt) req.1) as [[[t|e]|] w2]; cbn [fst snd].
  - destruct (p_save ports w2 account_key _) as [? w3]. split; [|naive_solver]. cbn [fst provider_tokens mbind option_bind].
    rewrite merge_refresh, Hl. cbn. by destruct (refresh_token t).
  - split; [done|naive_solver].
  - split; [done|naive_solver].
Qed.

(** C26. A provider never loses the means to refresh while it runs.  However the
    store answers, reads or writes, and whatever the endpoint says, after any
    sequence of requests it holds exactly the refresh token in force: the last one
    the endpoint issued in this run, and as long as it issued none the one the
    provider was started with.  Every request to the endpoint carries the token
    that was in force then, so a rotated token is used from the next request on
    and never an older one again.  The run is one of the process: the next start
    begins with the configured token ([a_rotated_token_is_lost_at_restart]). *)
Theorem a_refresh_token_is_never_lost (rt : string) (w : W) (reqs : list (Z * bool)) :
  let s := (bootstrap_from_refresh_token rt, w) in
  provider_tokens (foldl (provider_step ports client account_key skew) s reqs).1 ≫= refresh_token
    = Some (in_force rt (exchanges s reqs)) ∧
  ∀ before form r after, exchanges s reqs = before ++ (form, r) :: after → form = refresh_form client (in_force rt before).
Proof.
  intros s. assert (Hs : provider_tokens s.1 ≫= refresh_token = Some rt) by done. clearbody s. revert s rt Hs.
  induction reqs as [|req reqs IH]; intros s rt Hs; [split; [done|]; intros [|? ?] ? ? ? [=]|]. cbn [foldl exchanges].
  destruct (step_keeps rt s req Hs) as [Hk Hf]. destruct (IH _ _ Hk) as [IH1 IH2].
  split; [rewrite IH1; unfold in_force; by rewrite foldl_app|].
  intros before form r after Hx. destruct (exchange s req) as [[form0 r0]|] eqn:Ex; cbn [option_list app] in *; [|by eapply IH2].
  destruct before as [|x before].
  - injection Hx as <- <- _. by eapply Hf.
  - injection Hx as Hx0 Hx. subst x. by rewrite (IH2 before form r after Hx).
Qed.

(** A token handed out is fresh: the answer of a request is the access
    token now held, and it was either valid at the request's clock with the
    margin, non-empty and not forced, with no endpoint asked; or minted by the
    endpoint in this very request, for the refresh token held. *)
Theorem a_token_is_valid_or_just_minted (st : ProviderState) (w : W) (now : Z) (force : bool) tok st' w' :
  provider_get ports client account_key skew st w now force = (Answered (Ok tok), st', w') →
  ∃ t, provider_tokens st' = Some t ∧ access_token t = tok ∧
    (force = false ∧ tok ≠ EmptyString ∧ is_expired_at t now skew = false ∧ (st', w') = load_once ports account_key st w ∨
     ∃ rt w1 w2 minted, provider_tokens (load_once ports account_key st w).1 ≫= refresh_token = Some rt ∧
       p_refresh ports w1 (refresh_form client rt) now = (Answered (Ok minted), w2) ∧ access_token minted = tok).
Proof.
  unfold provider_get. destruct (load_once ports account_key st w) as [st1 w1]. cbn [fst].
  destruct (needs_refresh skew st1 now force) eqn:En.
  - destruct (provider_tokens st1 ≫= refresh_token) as [rt|]; [|done].
    destruct (p_refresh ports w1 (refresh_form client rt) now) as [[[t|e]|] w2] eqn:Ep; [|done..].
    destruct (p_save ports w2 account_key _) as [? w3]. unfold current. intros H. simplify_eq/=.
    eexists. split_and!; [done..|]. right. exists rt, w1, w2, t. split_and!; [done..|]. unfold merge_tokens. by destruct (refresh_token t).
  - unfold current. intros H. destruct (provider_tokens st1) as [t|] eqn:Et; simplify_eq/=. exists t. split_and!; [done..|]. left.
    unfold needs_refresh in En. rewrite Et in En. apply orb_false_iff in En as [-> [Ha He]%orb_false_iff].
    split_and!; [done|by apply String.eqb_neq|done..].
Qed.

End provider_facts.

(** ** The login *)

Lemma read_redirect_snoc pairs kv : read_redirect (pairs ++ [kv]) = read_pair (read_redirect pairs) kv.
Proof. unfold read_redirect. by rewrite foldl_app. Qed.

Lemma redirect_from_pairs pairs :
  (∀ v, r_code (read_redirect pairs) = Some v → ("code", v) ∈ pairs) ∧ (∀ v, r_state (read_redirect pairs) = Some v → ("state", v) ∈ pairs) ∧
  (r_denied (read_redirect pairs) = None → ∀ v, ("error", v) ∉ pairs).
Proof.
  induction pairs as [|[k v] pairs IH] using rev_ind; [split_and!; [done|done|intros _ v; apply not_elem_of_nil]|].
  destruct IH as (IH1 & IH2 & IH3). rewrite read_redirect_snoc. unfold read_pair. cbn [fst snd].
  setoid_rewrite elem_of_app. setoid_rewrite list_elem_of_singleton.
  destruct (String.eqb_spec k "code") as [->|]; [|destruct (String.eqb_spec k "state") as [->|]; [|destruct (String.eqb_spec k "error") as [->|]]];
    cbn [r_code r_state r_denied]; split_and!; naive_solver.
Qed.

(** A login answers the request it made.  A code is exchanged only when the
    redirect carried the state of this login, a code and no refusal, and what is
    exchanged is that code with this login's verifier; a redirect with an error
    or a foreign state ends the login. *)
Theorem a_login_answers_its_own_request (c : OAuthClient) (pkce : Pkce) (state redirect_uri : string) (pairs : list (string * string)) form :
  login_exchange c pkce state redirect_uri pairs = Ok form →
  ("state", state) ∈ pairs ∧ (∀ e, ("error", e) ∉ pairs) ∧
  ∃ code, ("code", code) ∈ pairs ∧ form = exchange_form c code (verifier pkce) redirect_uri.
Proof.
  unfold login_exchange, login_outcome. destruct (redirect_from_pairs pairs) as (H1 & H2 & H3).
  destruct (r_denied (read_redirect pairs)) as [e|] eqn:Ed; [done|]. case_bool_decide as Es; [done|].
  destruct (r_code (read_redirect pairs)) as [code|] eqn:Ec; [|done]. intros [= <-]. split_and!; [by apply H2|by apply H3|].
  exists code. split; [by apply H1|done].
Qed.

Lemma a_login_answers_its_own_request_witness :
  ("state", "s1") ∈ [("code", "c"); ("state", "s1")] ∧
  login_exchange {| client_id := "id"; client_secret := None; token_url := "https://t" |} (from_verifier (λ s, s) (λ s, s) "v") "s1" "http://l" [("state", "s2"); ("code", "c")]
  = Err StateMismatch.
Proof.
  split; [|by vm_compute].
  apply (a_login_answers_its_own_request {| client_id := "id"; client_secret := None; token_url := "https://t" |} (from_verifier (λ s, s) (λ s, s) "v")
    "s1" "http://l" [("code", "c"); ("state", "s1")] [("grant_type", "authorization_code"); ("code", "c"); ("redirect_uri", "http://l"); ("client_id", "id"); ("code_verifier", "v")]).
  by vm_compute.
Defined.

(** ** Behaviour the comments do not describe *)

Module OAuthExamples.

(** A world that is the store, and an endpoint that rotates every refresh token:
    it accepts only the newest one. *)
Record World := { cell : option TokenSet; newest : string; counter : nat }.

Definition rotate (w : World) (form : list (string * string)) : answer TokenSet * World :=
  if bool_decide (("refresh_token", newest w) ∈ form) then
    let rt := "r" +:+ pretty (S (counter w)) in
    (Answered (Ok {| access_token := "a" +:+ pretty (S (counter w)); refresh_token := Some rt; expires_at := Some 100; token_type := "Bearer"; scope := None |}),
     {| cell := cell w; newest := rt; counter := S (counter w) |})
  else (Answered (Err (InvalidGrant "revoked")), w).

Definition rotating : TokenPorts World :=
  {| p_load := λ w _, (Ok (cell w), w);
     p_save := λ w _ t, (Ok (), {| cell := Some t; newest := newest w; counter := counter w |});
     p_refresh := λ w form _, rotate w form |}.

Definition public_client : OAuthClient := {| client_id := "id"; client_secret := None; token_url := "https://t" |}.
Definition ask (st : ProviderState) (w : World) (now : Z) := current_token rotating public_client "me" 60 st w now.

(** A refresh token the endpoint rotated is saved, and the next start falls back
    to the one the daemon was configured with, which the endpoint revoked. *)
Lemma a_rotated_token_is_lost_at_restart :
  let '(first, st, w) := ask (bootstrap_from_refresh_token "r0") {| cell := None; newest := "r0"; counter := 0 |} 0 in
  let '(second, _, _) := ask st w 90 in
  let '(restarted, _, _) := ask (bootstrap_from_refresh_token "r0") w 90 in
  first = Answered (Ok "a1") ∧ second = Answered (Ok "a2") ∧ restarted = Answered (Err (InvalidGrant "revoked")).
Proof. by vm_compute. Qed.

Lemma a_token_is_valid_or_just_minted_witness :
  let '(_, st, w) := ask (bootstrap_from_refresh_token "r0") {| cell := None; newest := "r0"; counter := 0 |} 0 in
  ∃ t, provider_tokens st = Some t ∧ access_token t = "a1".
Proof.
  destruct (a_token_is_valid_or_just_minted rotating public_client "me" 60 (bootstrap_from_refresh_token "r0")
    {| cell := None; newest := "r0"; counter := 0 |} 0 false "a1"
    (ask (bootstrap_from_refresh_token "r0") {| cell := None; newest := "r0"; counter := 0 |} 0).1.2
    (ask (bootstrap_from_refresh_token "r0") {| cell := None; newest := "r0"; counter := 0 |} 0).2 ltac:(by vm_compute)) as (t & H1 & H2 & _).
  exists t. split; [exact H1|exact H2].
Defined.

End OAuthExamples.

(** An endpoint that names a lifetime beyond what a duration or an instant can
    hold is answered by a panic, not by an error. *)
Lemma a_long_lifetime_panics max_utc now r secs :
  tr_expires_in r = Some secs → MAX_DURATION < secs → into_token_set max_utc r now = None.
Proof. intros H Hs. unfold into_token_set. rewrite H. destruct (Z.leb_spec (Z.abs secs) MAX_DURATION); [lia|done]. Qed.

(** Plain HTTP to the IPv6 loopback address is refused: the host of a URL is
    printed in brackets there. *)
Lemma ipv6_loopback_is_refused `{!UrlParser} f g raw u ip :
  url_parse raw = inr u → url_scheme u = "http" → url_host u = Some (Ipv6 ip) →
  validate_endpoint_url f g raw = Err (OConfig ("refusing insecure OAuth endpoint (http:// is only allowed for loopback): " +:+ raw)).
Proof. intros Hp Hs Hh. unfold validate_endpoint_url. rewrite Hp, Hs, Hh. reflexivity. Qed.
