(* ===== verification/Connections.v ===== *)
(** * Connections and purposes

    Models the named connections of the daemon's configuration
    ([crates/daemon/src/connections.rs]), the purposes that refer to them
    ([crates/daemon/src/purposes.rs]), the payloads a client edits them with and
    what those may say ([crates/daemon/src/api_surface.rs],
    [crates/daemon/src/config/mod.rs]).

    An [IndexMap] is a list of pairs in insertion order.  How Rust prints a quoted
    string in an error is the parameter [debug]. *)

From S2P Require Import Prelude TaskStore UrlPolicy.

#[local] Open Scope nat_scope.

(** ** Ordered maps *)

Section index_map.
Context {V : Type}.
Implicit Types m : list (string * V).

Fixpoint im_get (m : list (string * V)) (k : string) : option V :=
  match m with [] => None | (k', v) :: m' => if String.eqb k' k then Some v else im_get m' k end.

(** [insert] replaces a value where its key stands, or appends. *)
Fixpoint im_insert (m : list (string * V)) (k : string) (v : V) : list (string * V) :=
  match m with
  | [] => [(k, v)]
  | (k', v') :: m' => if String.eqb k' k then (k', v) :: m' else (k', v') :: im_insert m' k v
  end.

(** [shift_remove] keeps the order of the others. *)
Fixpoint im_remove (m : list (string * V)) (k : string) : list (string * V) :=
  match m with [] => [] | (k', v') :: m' => if String.eqb k' k then m' else (k', v') :: im_remove m' k end.

Definition im_contains (m : list (string * V)) (k : string) : bool := match im_get m k with Some _ => true | None => false end.

Lemma im_get_insert m k v k' : im_get (im_insert m k v) k' = if String.eqb k k' then Some v else im_get m k'.
Proof.
  induction m as [|[a x] m IH]; cbn [im_insert im_get]; [done|]. destruct (String.eqb_spec a k) as [->|Ha]; cbn [im_get].
  - by destruct (String.eqb k k').
  - rewrite IH. destruct (String.eqb_spec a k') as [->|]; [|done]. destruct (String.eqb_spec k k') as [->|]; [done|done].
Qed.

Lemma im_get_elem m k v : im_get m k = Some v → (k, v) ∈ m.
Proof.
  induction m as [|[a x] m IH]; cbn [im_get]; [done|]. destruct (String.eqb_spec a k) as [->|]; [intros [= ->]; left|]. intros Hm. right. auto.
Qed.

Lemma im_get_None m k : im_get m k = None ↔ k ∉ m.*1.
Proof.
  induction m as [|[a x] m IH]; cbn [im_get fmap list_fmap fst]; [set_solver|]. destruct (String.eqb_spec a k) as [->|Ha].
  - split; [done|]. intros Hn. destruct Hn. left.
  - rewrite IH. set_solver.
Qed.

Lemma im_get_remove m k k' : NoDup m.*1 → im_get (im_remove m k) k' = if String.eqb k k' then None else im_get m k'.
Proof.
  induction m as [|[a x] m IH]; cbn [im_remove im_get fmap list_fmap fst]; [by destruct (String.eqb k k')|]. intros [Ha Hm]%NoDup_cons.
  destruct (String.eqb_spec a k) as [->|Hak].
  - destruct (String.eqb_spec k k') as [->|]; [by apply im_get_None|done].
  - cbn [im_get]. rewrite IH by done. destruct (String.eqb_spec a k') as [->|]; [|done]. destruct (String.eqb_spec k k') as [->|]; [done|done].
Qed.

Lemma im_insert_keys m k v : (im_insert m k v).*1 = if im_contains m k then m.*1 else m.*1 ++ [k].
Proof.
  unfold im_contains. induction m as [|[a x] m IH]; cbn [im_insert im_get fmap list_fmap fst]; [done|]. destruct (String.eqb_spec a k) as [->|Ha]; [done|].
  cbn [fmap list_fmap fst]. rewrite IH. by destruct (im_get m k).
Qed.

Lemma im_remove_sublist m k : sublist (im_remove m k).*1 m.*1.
Proof.
  induction m as [|[a x] m IH]; cbn [im_remove]; [done|]. destruct (String.eqb a k); [by apply sublist_cons|by apply sublist_skip].
Qed.

Lemma im_insert_NoDup m k v : NoDup m.*1 → NoDup (im_insert m k v).*1.
Proof.
  intros Hm. rewrite im_insert_keys. unfold im_contains. destruct (im_get m k) eqn:Hk; [done|]. apply im_get_None in Hk.
  apply NoDup_app. split_and!; [done|set_solver|apply NoDup_singleton].
Qed.

Lemma im_remove_NoDup m k : NoDup m.*1 → NoDup (im_remove m k).*1.
Proof. intros Hm. eapply sublist_NoDup; [exact Hm|]. apply im_remove_sublist. Qed.
End index_map.

(** ** Trimming twice *)

Lemma trim_with_done ws f s :
  [] ∉ ws → String.length s ≤ f → List.find (λ w, starts_with (trim_with ws f s) (bytes w)) ws = None.
Proof.
  intros Hws. revert s. induction f as [|f IH]; intros s Hs; cbn [trim_with].
  - destruct s; [|simpl in Hs; lia]. destruct (List.find _ ws) as [w|] eqn:Hf; [|done]. apply List.find_some in Hf as [Hin Hw].
    destruct w; [by apply list_elem_of_In in Hin|done].
  - destruct (List.find (λ w, starts_with s (bytes w)) ws) as [w|] eqn:Hf; [|done]. apply IH. apply List.find_some in Hf as [Hin Hw].
    destruct w as [|n w]; [by apply list_elem_of_In in Hin|]. destruct s as [|a s]; [done|]. cbn [length drop_bytes]. simpl in Hs.
    assert (Hd : ∀ k t, String.length (drop_bytes k t) ≤ String.length t) by (induction k as [|k IHk]; intros [|b t]; simpl; try lia; specialize (IHk t); lia).
    specialize (Hd (length w) s). lia.
Qed.

Lemma trim_with_stable ws f s : List.find (λ w, starts_with s (bytes w)) ws = None → trim_with ws f s = s.
Proof. intros Hf. destruct f; [done|]. cbn [trim_with]. by rewrite Hf. Qed.

Lemma find_none_prefix ws s t :
  List.find (λ w, starts_with (s +:+ t) (bytes w)) ws = None → List.find (λ w, starts_with s (bytes w)) ws = None.
Proof.
  intros Hf. destruct (List.find (λ w, starts_with s (bytes w)) ws) as [w|] eqn:Hg; [|done]. apply List.find_some in Hg as [Hin Hw].
  eapply List.find_none in Hf; [|exact Hin]. apply starts_with_app in Hw as [r ->]. cbv beta in Hf. rewrite string_app_assoc in Hf.
  by rewrite (proj2 (starts_with_app _ _)) in Hf by eauto.
Qed.

Lemma trim_with_suffix ws f s : ∃ l, s = l +:+ trim_with ws f s.
Proof.
  revert s. induction f as [|f IH]; intros s; cbn [trim_with]; [by exists EmptyString|]. destruct (List.find _ ws) as [w|]; [|by exists EmptyString].
  destruct (IH (drop_bytes (length w) s)) as [l Hl].
  assert (Hd : ∀ k t, ∃ p, t = p +:+ drop_bytes k t).
  { induction k as [|k IHk]; intros t; [by exists EmptyString|]. destruct t as [|b t]; [by exists EmptyString|]. destruct (IHk t) as [p Hp].
    exists (String b p). cbn [drop_bytes]. change (String b p +:+ drop_bytes k t) with (String b (p +:+ drop_bytes k t)). by rewrite <- Hp. }
  destruct (Hd (length w) s) as [p Hp]. exists (p +:+ l). rewrite string_app_assoc, <- Hl. exact Hp.
Qed.

Lemma trim_idem s : trim (trim s) = trim s.
Proof.
  unfold trim. set (a := trim_with white_space (String.length s) s). set (b := trim_with (map (@rev nat) white_space) (String.length a) (string_rev a)).
  assert (Ha : List.find (λ w, starts_with a (bytes w)) white_space = None).
  { apply trim_with_done; [apply (bool_decide_eq_true_1 _); by vm_compute|done]. }
  destruct (trim_with_suffix (map (@rev nat) white_space) (String.length a) (string_rev a)) as [l Hl]. fold b in Hl.
  assert (Hab : a = string_rev b +:+ string_rev l) by (by rewrite <- string_rev_app, <- Hl, string_rev_rev).
  rewrite (trim_with_stable white_space); [|rewrite Hab in Ha; by eapply find_none_prefix].
  rewrite string_rev_rev. f_equal. apply trim_with_stable. unfold b. apply trim_with_done; [apply (bool_decide_eq_true_1 _); by vm_compute|].
  by rewrite string_rev_length.
Qed.

(** ** Names *)

Definition CONNECTION_ID_MAX_LEN : nat := 64.

Inductive ConnectionIdError :=
| EmptyId
| IdTooLong (id : string) (len max : nat)
| InvalidChars (id : string).

Definition in_range (lo hi : nat) (a : Ascii.ascii) : bool := (lo <=? Ascii.nat_of_ascii a) && (Ascii.nat_of_ascii a <=? hi).
Definition is_valid_first (a : Ascii.ascii) : bool := in_range 48 57 a || in_range 97 122 a.
Definition is_valid_rest (a : Ascii.ascii) : bool :=
  is_valid_first a || Ascii.eqb a (Ascii.ascii_of_nat 95) || Ascii.eqb a (Ascii.ascii_of_nat 45).

Fixpoint every_byte (p : Ascii.ascii → bool) (s : string) : bool :=
  match s with EmptyString => true | String a s' => p a && every_byte p s' end.

(** The slug itself is the id. *)
Definition ConnectionId_new (raw : string) : result string ConnectionIdError :=
  match raw with
  | EmptyString => Err EmptyId
  | String first rest =>
      if CONNECTION_ID_MAX_LEN <? String.length raw then Err (IdTooLong raw (String.length raw) CONNECTION_ID_MAX_LEN)
      else if negb (is_valid_first first) || negb (every_byte is_valid_rest rest) then Err (InvalidChars raw)
      else Ok raw
  end.

Definition valid_id (s : string) : Prop := ConnectionId_new s = Ok s.

Lemma ConnectionId_new_ok raw id : ConnectionId_new raw = Ok id → id = raw ∧ valid_id raw.
Proof.
  unfold valid_id. intros Hn. assert (Hid : id = raw); [|by subst id]. revert Hn. unfold ConnectionId_new. destruct raw as [|a s]; [done|].
  destruct (_ <? _); [done|]. destruct (_ || _); [done|]. by intros [= <-].
Qed.

(** ** Connectors *)

Inductive Connector := COllama | CAnthropic | CBedrock | COpenAi | COpenRouter | CAzure | CGoogle.

#[export] Instance Connector_eq_dec : EqDecision Connector.
Proof. solve_decision. Defined.

Definition Connector_as_str (c : Connector) : string :=
  match c with
  | COllama => "ollama" | CAnthropic => "anthropic" | CBedrock => "bedrock" | COpenAi => "openai"
  | COpenRouter => "openrouter" | CAzure => "azure" | CGoogle => "google"
  end.

Definition Connector_parse (raw : string) : option Connector :=
  let s := to_ascii_lowercase (trim raw) in
  if String.eqb s "ollama" then Some COllama
  else if String.eqb s "anthropic" then Some CAnthropic
  else if String.eqb s "bedrock" || String.eqb s "aws-bedrock" then Some CBedrock
  else if String.eqb s "openai" then Some COpenAi
  else if String.eqb s "openrouter" then Some COpenRouter
  else if String.eqb s "azure" then Some CAzure
  else if String.eqb s "google" then Some CGoogle
  else None.

Lemma connector_round_trip c : Connector_parse (Connector_as_str c) = Some c.
Proof. by destruct c; vm_compute. Qed.

Lemma Connector_as_str_inj : Inj (=) (=) Connector_as_str.
Proof. intros c d Hcd. pose proof (connector_round_trip c) as Hc. rewrite Hcd, connector_round_trip in Hc. by injection Hc. Qed.

Definition carries_credential_of (c : Connector) : bool := match c with COllama => false | _ => true end.

(** ** A connection *)

Record SecretConfig := {
  backend : string;
  service : option string;
  account : option string;
  wallet : string;
  folder : string;
  entry : option string
}.

Definition SecretConfig_default : SecretConfig :=
  {| backend := "auto"; service := Some "org.desktopAssistant"; account := None; wallet := "kdewallet"; folder := "desktop-assistant"; entry := None |}.

Inductive CachePolicy := CacheNone | SystemPromptOnly.

Inductive ConnectionConfig :=
| Anthropic (base_url api_key_env : option string) (secret : option SecretConfig) (connect_timeout_secs stream_timeout_secs max_context_tokens : option Z)
| OpenAi (base_url api_key_env : option string) (secret : option SecretConfig) (connect_timeout_secs stream_timeout_secs max_context_tokens : option Z)
| OpenRouter (base_url api_key_env : option string) (secret : option SecretConfig) (connect_timeout_secs stream_timeout_secs max_context_tokens : option Z)
| Azure (base_url api_key_env : option string) (secret : option SecretConfig) (api_surface auth_mode api_version : option string)
    (connect_timeout_secs stream_timeout_secs max_context_tokens : option Z)
| Google (base_url api_key_env : option string) (secret : option SecretConfig) (project location auth_mode credentials_path : option string)
    (connect_timeout_secs stream_timeout_secs max_context_tokens : option Z)
| Bedrock (aws_profile region base_url : option string) (secret : option SecretConfig)
    (connect_timeout_secs stream_timeout_secs max_context_tokens : option Z) (cache_policy : option CachePolicy)
| Ollama (base_url : option string) (connect_timeout_secs stream_timeout_secs : option Z) (keep_warm : option bool) (max_context_tokens : option Z).

Definition connector_of (c : ConnectionConfig) : Connector :=
  match c with
  | Anthropic _ _ _ _ _ _ => CAnthropic
  | OpenAi _ _ _ _ _ _ => COpenAi
  | OpenRouter _ _ _ _ _ _ => COpenRouter
  | Azure _ _ _ _ _ _ _ _ _ => CAzure
  | Google _ _ _ _ _ _ _ _ _ _ => CGoogle
  | Bedrock _ _ _ _ _ _ _ _ => CBedrock
  | Ollama _ _ _ _ _ => COllama
  end.

Definition connector_type (c : ConnectionConfig) : string := Connector_as_str (connector_of c).

Definition api_key_env (c : ConnectionConfig) : option string :=
  match c with
  | Anthropic _ e _ _ _ _ | OpenAi _ e _ _ _ _ | OpenRouter _ e _ _ _ _ | Azure _ e _ _ _ _ _ _ _ | Google _ e _ _ _ _ _ _ _ _ => e
  | Bedrock _ _ _ _ _ _ _ _ | Ollama _ _ _ _ _ => None
  end.

Definition set_api_key_env (c : ConnectionConfig) (e : option string) : result ConnectionConfig string :=
  match c with
  | Anthropic u _ s t1 t2 m => Ok (Anthropic u e s t1 t2 m)
  | OpenAi u _ s t1 t2 m => Ok (OpenAi u e s t1 t2 m)
  | OpenRouter u _ s t1 t2 m => Ok (OpenRouter u e s t1 t2 m)
  | Azure u _ s a b v t1 t2 m => Ok (Azure u e s a b v t1 t2 m)
  | Google u _ s p l a k t1 t2 m => Ok (Google u e s p l a k t1 t2 m)
  | Bedrock _ _ _ _ _ _ _ _ | Ollama _ _ _ _ _ =>
      match e with Some _ => Err "this connector does not read its key from an environment variable" | None => Ok c end
  end.

Definition secret_of (c : ConnectionConfig) : option SecretConfig :=
  match c with
  | Anthropic _ _ s _ _ _ | OpenAi _ _ s _ _ _ | OpenRouter _ _ s _ _ _ | Azure _ _ s _ _ _ _ _ _ | Google _ _ s _ _ _ _ _ _ _
  | Bedrock _ _ _ s _ _ _ _ => s
  | Ollama _ _ _ _ _ => None
  end.

Definition base_url (c : ConnectionConfig) : option string :=
  match c with
  | Anthropic u _ _ _ _ _ | OpenAi u _ _ _ _ _ | OpenRouter u _ _ _ _ _ | Azure u _ _ _ _ _ _ _ _ | Google u _ _ _ _ _ _ _ _ _
  | Bedrock _ _ u _ _ _ _ _ | Ollama u _ _ _ _ => u
  end.

Definition carries_credential (c : ConnectionConfig) : bool := carries_credential_of (connector_of c).

Definition set_secret (c : ConnectionConfig) (s : option SecretConfig) : result ConnectionConfig string :=
  match c with
  | Anthropic u e _ t1 t2 m => Ok (Anthropic u e s t1 t2 m)
  | OpenAi u e _ t1 t2 m => Ok (OpenAi u e s t1 t2 m)
  | OpenRouter u e _ t1 t2 m => Ok (OpenRouter u e s t1 t2 m)
  | Azure u e _ a b v t1 t2 m => Ok (Azure u e s a b v t1 t2 m)
  | Google u e _ p l a k t1 t2 m => Ok (Google u e s p l a k t1 t2 m)
  | Bedrock p r u _ t1 t2 m k => Ok (Bedrock p r u s t1 t2 m k)
  | Ollama _ _ _ _ _ => Err "ollama connections do not use a stored credential"
  end.

Definition carry_forward_file_only_fields (c stored : ConnectionConfig) : ConnectionConfig :=
  match c, stored with
  | Bedrock p r u s t1 t2 m _, Bedrock _ _ _ _ _ _ _ k => Bedrock p r u s t1 t2 m k
  | _, _ => c
  end.

(** ** What a client sends *)

Inductive ConnectionConfigPayload :=
| PAnthropic (base_url api_key_env : option string) (connect_timeout_secs stream_timeout_secs max_context_tokens : option Z)
| POpenAi (base_url api_key_env : option string) (connect_timeout_secs stream_timeout_secs max_context_tokens : option Z)
| POpenRouter (base_url api_key_env : option string) (connect_timeout_secs stream_timeout_secs max_context_tokens : option Z)
| PAzure (base_url api_key_env api_surface auth_mode api_version : option string) (connect_timeout_secs stream_timeout_secs max_context_tokens : option Z)
| PGoogle (base_url api_key_env project location auth_mode credentials_path : option string)
    (connect_timeout_secs stream_timeout_secs max_context_tokens : option Z)
| PBedrock (aws_profile region base_url : option string) (connect_timeout_secs stream_timeout_secs max_context_tokens : option Z)
| POllama (base_url : option string) (connect_timeout_secs stream_timeout_secs : option Z) (keep_warm : option bool) (max_context_tokens : option Z).

Definition payload_to_connection (p : ConnectionConfigPayload) : ConnectionConfig :=
  match p with
  | PAnthropic u e t1 t2 m => Anthropic u e None t1 t2 m
  | POpenAi u e t1 t2 m => OpenAi u e None t1 t2 m
  | POpenRouter u e t1 t2 m => OpenRouter u e None t1 t2 m
  | PAzure u e a b v t1 t2 m => Azure u e None a b v t1 t2 m
  | PGoogle u e p l a k t1 t2 m => Google u e None p l a k t1 t2 m
  | PBedrock p r u t1 t2 m => Bedrock p r u None t1 t2 m None
  | POllama u t1 t2 k m => Ollama u t1 t2 k m
  end.

Definition connection_to_payload (c : ConnectionConfig) : ConnectionConfigPayload :=
  match c with
  | Anthropic u e _ t1 t2 m => PAnthropic u e t1 t2 m
  | OpenAi u e _ t1 t2 m => POpenAi u e t1 t2 m
  | OpenRouter u e _ t1 t2 m => POpenRouter u e t1 t2 m
  | Azure u e _ a b v t1 t2 m => PAzure u e a b v t1 t2 m
  | Google u e _ p l a k t1 t2 m => PGoogle u e p l a k t1 t2 m
  | Bedrock p r u _ t1 t2 m _ => PBedrock p r u t1 t2 m
  | Ollama u t1 t2 k m => POllama u t1 t2 k m
  end.

Lemma payload_round_trip p : connection_to_payload (payload_to_connection p) = p.
Proof. by destruct p. Qed.

Lemma payload_has_no_secret p : secret_of (payload_to_connection p) = None.
Proof. by destruct p. Qed.

(** The name of the variable a connector reads its key from: [to_ascii_uppercase]
    of its own name. *)
Definition ascii_upper (a : Ascii.ascii) : Ascii.ascii :=
  if in_range 97 122 a then Ascii.ascii_of_nat (Ascii.nat_of_ascii a - 32) else a.
Fixpoint to_ascii_uppercase (s : string) : string :=
  match s with EmptyString => EmptyString | String a s' => String (ascii_upper a) (to_ascii_uppercase s') end.

Definition is_ascii_alphanumeric (a : Ascii.ascii) : bool := in_range 48 57 a || in_range 65 90 a || in_range 97 122 a.

(** The loop of [normalized_connector_key_prefix]; [after] is that a separator or
    nothing came last. *)
Fixpoint key_prefix_loop (normalized : string) (previous_was_separator : bool) (s : string) : string :=
  match s with
  | EmptyString => normalized
  | String a s' =>
      if is_ascii_alphanumeric a then key_prefix_loop (normalized +:+ String (ascii_lower a) EmptyString) false s'
      else if negb (String.eqb normalized EmptyString) && negb previous_was_separator
      then key_prefix_loop (normalized +:+ "_") true s'
      else key_prefix_loop normalized previous_was_separator s'
  end.

Fixpoint strip_leading_underscores (s : string) : string :=
  match s with String a s' => if Ascii.eqb a (Ascii.ascii_of_nat 95) then strip_leading_underscores s' else s | EmptyString => s end.

Definition default_connector : string := "openai".

Definition normalized_connector_key_prefix (connector : string) : string :=
  let normalized := string_rev (strip_leading_underscores (string_rev (key_prefix_loop EmptyString false (trim connector)))) in
  if String.eqb normalized EmptyString then default_connector else normalized.

Definition default_api_key_env (connector : string) : string :=
  to_ascii_uppercase (normalized_connector_key_prefix connector) +:+ "_API_KEY".

Definition AZURE_DEFAULT_API_KEY_ENV : string := "AZURE_OPENAI_API_KEY".

Definition allowed_api_key_envs (c : Connector) : list string :=
  default_api_key_env (Connector_as_str c) :: (if bool_decide (c = CAzure) then [AZURE_DEFAULT_API_KEY_ENV] else []).

Lemma documented_key_variables :
  map allowed_api_key_envs [COllama; CAnthropic; CBedrock; COpenAi; COpenRouter; CAzure; CGoogle]
    = [["OLLAMA_API_KEY"]; ["ANTHROPIC_API_KEY"]; ["BEDROCK_API_KEY"]; ["OPENAI_API_KEY"]; ["OPENROUTER_API_KEY"];
       ["AZURE_API_KEY"; "AZURE_OPENAI_API_KEY"]; ["GOOGLE_API_KEY"]].
Proof. by vm_compute. Qed.

Section constraints.
Context (debug : string → string).

Definition constrain_api_key_env (conn : ConnectionConfig) (previous : option string) : result ConnectionConfig string :=
  match api_key_env conn with
  | None => Ok conn
  | Some requested =>
      let requested := trim requested in
      let api_err r := match r with Ok c => Ok c | Err e => Err ("api_key_env: " +:+ e) end in
      if String.eqb requested EmptyString then api_err (set_api_key_env conn None)
      else
        let unchanged := match previous with Some p => String.eqb (trim p) requested | None => false end in
        let allowed := allowed_api_key_envs (connector_of conn) in
        if negb unchanged && negb (existsb (λ a, String.eqb a requested) allowed)
        then Err ("api_key_env " +:+ debug requested +:+ " is not permitted for the " +:+ connector_type conn +:+ " connector; use "
                  +:+ join " or " allowed +:+ ", or store the credential with set_connection_secret")
        else api_err (set_api_key_env conn (Some requested))
  end.

Definition url_credential (conn : ConnectionConfig) : RequestCredential := if carries_credential conn then Attached else NoCredential.

(** [url_text] is how a refusal prints itself. *)
Definition constrain_base_url `{!UrlParser} (url_text : UrlPolicyError → string) (conn : ConnectionConfig) : result unit CoreError :=
  match base_url conn with
  | None => Ok tt
  | Some u =>
      match validate_remote_url u (url_credential conn) with
      | inr _ => Ok tt
      | inl e => Err (InvalidInput (url_error_code e) ("connection base_url " +:+ debug u +:+ " refused: " +:+ url_text e) (url_user_message e))
      end
  end.
End constraints.

(** ** What the setters leave *)

Lemma set_secret_ok c s c' :
  set_secret c s = Ok c' → api_key_env c' = api_key_env c ∧ base_url c' = base_url c ∧ connector_of c' = connector_of c ∧ secret_of c' = s.
Proof. destruct c; try done; intros [= <-]; done. Qed.

Lemma set_api_key_env_ok c e c' :
  set_api_key_env c e = Ok c' → api_key_env c' = e ∧ base_url c' = base_url c ∧ connector_of c' = connector_of c ∧ secret_of c' = secret_of c.
Proof. destruct c, e; try done; intros [= <-]; done. Qed.

Lemma carry_forward_ok c stored :
  let c' := carry_forward_file_only_fields c stored in
  api_key_env c' = api_key_env c ∧ base_url c' = base_url c ∧ connector_of c' = connector_of c ∧ secret_of c' = secret_of c.
Proof. by destruct c, stored. Qed.

Lemma im_insert_elem {V} (m : list (string * V)) k v kv : kv ∈ im_insert m k v → kv = (k, v) ∨ kv ∈ m.
Proof.
  induction m as [|[a x] m IH]; cbn [im_insert]; [set_solver|]. destruct (String.eqb_spec a k) as [->|]; [set_solver|].
  intros [->|Hin]%elem_of_cons; [set_solver|]. destruct (IH Hin); set_solver.
Qed.

Lemma im_remove_elem {V} (m : list (string * V)) k kv : kv ∈ im_remove m k → kv ∈ m.
Proof.
  induction m as [|[a x] m IH]; cbn [im_remove]; [done|]. destruct (String.eqb a k); [set_solver|]. intros [->|?]%elem_of_cons; set_solver.
Qed.

(** The variables that hold each connector's own key; the two connectors without
    a key have none. *)
Definition own_variables (c : Connector) : list string :=
  match c with
  | CAnthropic => ["ANTHROPIC_API_KEY"]
  | COpenAi => ["OPENAI_API_KEY"]
  | COpenRouter => ["OPENROUTER_API_KEY"]
  | CAzure => ["AZURE_API_KEY"; "AZURE_OPENAI_API_KEY"]
  | CGoogle => ["GOOGLE_API_KEY"]
  | COllama | CBedrock => []
  end.

Lemma allowed_is_own conn e e' : api_key_env conn = Some e → e' ∈ allowed_api_key_envs (connector_of conn) → e' ∈ own_variables (connector_of conn).
Proof. by destruct conn. Qed.

Section constraints_ok.
Context (debug : string → string).

Lemma constrain_api_key_env_ok conn previous c :
  constrain_api_key_env debug conn previous = Ok c →
  base_url c = base_url conn ∧ connector_of c = connector_of conn ∧ secret_of c = secret_of conn ∧
  ∀ e, api_key_env c = Some e → trim e = e ∧ (e ∈ allowed_api_key_envs (connector_of conn) ∨ ∃ p, previous = Some p ∧ trim p = e).
Proof.
  unfold constrain_api_key_env. destruct (api_key_env conn) as [req|] eqn:He; [|intros [= <-]; by rewrite He]. cbv zeta.
  destruct (String.eqb_spec (trim req) EmptyString) as [_|Hne].
  - destruct (set_api_key_env conn None) as [c'|] eqn:Hs; [|done]. intros [= <-]. apply set_api_key_env_ok in Hs as (Ha & ? & ? & ?). rewrite Ha. by split_and!.
  - destruct (_ && _) eqn:Hok; [done|]. destruct (set_api_key_env conn (Some (trim req))) as [c'|] eqn:Hs; [|done]. intros [= <-].
    apply set_api_key_env_ok in Hs as (Ha & ? & ? & ?). split_and!; try done. rewrite Ha. intros e [= <-]. split; [apply trim_idem|].
    apply andb_false_iff in Hok as [Hu|Hal]; apply negb_false_iff in Hu || apply negb_false_iff in Hal.
    + right. destruct previous as [p|]; [|done]. apply String.eqb_eq in Hu. eauto.
    + left. apply existsb_exists in Hal as [x [Hx ->%String.eqb_eq]]. by apply list_elem_of_In.
Qed.
End constraints_ok.

(** ** What a connector claims of itself *)

Definition Connector_ALL : list Connector := [COllama; CAnthropic; CBedrock; COpenAi; COpenRouter; CAzure; CGoogle].

Definition connector_names (c : Connector) : list string :=
  match c with
  | COllama => ["ollama"] | CAnthropic => ["anthropic"] | CBedrock => ["bedrock"; "aws-bedrock"] | COpenAi => ["openai"]
  | COpenRouter => ["openrouter"] | CAzure => ["azure"] | CGoogle => ["google"]
  end.

Definition default_base_url (c : Connector) : string :=
  match c with
  | COllama => "http://localhost:11434" | CAnthropic => "https://api.anthropic.com" | CBedrock => "us-east-1"
  | COpenAi => "https://api.openai.com/v1" | COpenRouter => "https://openrouter.ai/api/v1" | CAzure => ""
  | CGoogle => "https://us-central1-aiplatform.googleapis.com"
  end.

Definition default_chat_model (c : Connector) : string :=
  match c with
  | COllama => "llama3.2" | CAnthropic => "claude-sonnet-4-6-20260227" | CBedrock => "us.anthropic.claude-sonnet-4-6"
  | COpenAi => "gpt-5.4" | COpenRouter => "anthropic/claude-sonnet-4-6" | CAzure => "" | CGoogle => "gemini-2.5-pro"
  end.

Definition default_backend_chat_model (c : Connector) : string :=
  match c with
  | COllama => "llama3.2" | CAnthropic => "claude-haiku-4-5-20251001" | CBedrock => "us.anthropic.claude-haiku-4-5-20251001-v1:0"
  | COpenAi => "gpt-4o-mini" | COpenRouter => "anthropic/claude-sonnet-4-6" | CAzure => "" | CGoogle => "gemini-2.5-flash"
  end.

Definition default_embedding_model (c : Connector) : string :=
  match c with
  | COllama => "nomic-embed-text" | CBedrock => "amazon.titan-embed-text-v2:0" | COpenAi => "text-embedding-3-small"
  | CAnthropic => "" | COpenRouter => "" | CAzure => "text-embedding-3-small" | CGoogle => "text-embedding-004"
  end.

Definition default_http_base_url (c : Connector) : string :=
  match c with
  | COllama => "http://localhost:11434" | CAnthropic => "https://api.anthropic.com" | CBedrock => "us-east-1"
  | COpenAi => "https://api.openai.com/v1" | COpenRouter => "https://openrouter.ai/api/v1" | CAzure => "" | CGoogle => ""
  end.

Definition supports_embeddings (c : Connector) : bool := match c with CAnthropic | COpenRouter => false | _ => true end.
Definition type_offers_hosted_tool_search (c : Connector) : bool := match c with COpenAi | CAnthropic => true | _ => false end.
Definition carries_api_key_env (c : Connector) : bool := match c with CBedrock | COllama => false | _ => true end.
Definition file_only_fields (c : Connector) : list string := match c with CBedrock => ["cache_policy"] | _ => [] end.

(** The claims agree with what a connection of the connector does: every name
    parses back, exactly those that claim a credential or a key variable take one,
    a default embedding model is named where embeddings are claimed, and a
    connection built from what a client is shown loses the file-only fields and
    the credential alone, which the update puts back. *)
Theorem a_connectors_claims_hold conn s e :
  let c := connector_of conn in
  (∀ n, n ∈ connector_names c → Connector_parse n = Some c) ∧
  ((∃ conn', set_secret conn (Some s) = Ok conn') ↔ carries_credential_of c = true) ∧
  ((∃ conn', set_api_key_env conn (Some e) = Ok conn') ↔ carries_api_key_env c = true) ∧
  (carries_api_key_env c = true → carries_credential_of c = true) ∧
  (supports_embeddings c = true ↔ default_embedding_model c ≠ "") ∧
  (file_only_fields c = [] → secret_of conn = None → payload_to_connection (connection_to_payload conn) = conn) ∧
  (secret_of conn = None → carry_forward_file_only_fields (payload_to_connection (connection_to_payload conn)) conn = conn).
Proof.
  cbv zeta. destruct conn; cbn [connector_of connector_names carries_credential_of carries_api_key_env supports_embeddings default_embedding_model file_only_fields
    set_secret set_api_key_env secret_of payload_to_connection connection_to_payload carry_forward_file_only_fields];
    (split_and!; [intros n Hn; repeat (apply elem_of_cons in Hn as [->|Hn]; [by vm_compute|]); by apply not_elem_of_nil in Hn|..]);
    try (by intros; subst); try (split; [by intros [? ?]|by intros]); split; eauto; done.
Qed.

(** ** A legacy configuration *)

(** The sampling parameters, which the migration does not read, are left out. *)
Record LlmConfig := {
  llm_connector : string;
  llm_model : option string;
  llm_base_url : option string;
  llm_api_key_env : option string;
  llm_secret : option SecretConfig;
  llm_max_tokens : option Z;
  llm_hosted_tool_search : option bool;
  llm_aws_profile : option string
}.

Definition option_filter {A} (f : A → bool) (o : option A) : option A := match o with Some x => if f x then Some x else None | None => None end.

Definition connection_from_legacy_llm (llm : LlmConfig) : ConnectionConfig :=
  let connector := to_ascii_lowercase (trim (llm_connector llm)) in
  let u := llm_base_url llm in
  let e := llm_api_key_env llm in
  let s := llm_secret llm in
  if String.eqb connector "anthropic" then Anthropic u e s None None None
  else if String.eqb connector "ollama" then Ollama u None None None None
  else if String.eqb connector "openrouter" then OpenRouter u e s None None None
  else if String.eqb connector "azure" then Azure u e s None None None None None None
  else if String.eqb connector "google" then Google u e s None None None None None None None
  else if String.eqb connector "bedrock" || String.eqb connector "aws-bedrock" then
    Bedrock (llm_aws_profile llm)
      (option_filter (λ v, negb (String.eqb (trim v) EmptyString) && negb (contains_str v "://")) u)
      (option_filter (λ v, contains_str v "://") u) None None None None None
  else OpenAi u e s None None None.

(** A legacy block is migrated to its own connector, or to OpenAI where it names
    none, with its address; the region of a Bedrock block stands in the address
    field unless it is a URL. *)
Lemma migration_keeps_the_connector llm :
  connector_of (connection_from_legacy_llm llm) = default COpenAi (Connector_parse (llm_connector llm)).
Proof.
  unfold connection_from_legacy_llm, Connector_parse. cbv zeta. set (c := to_ascii_lowercase (trim (llm_connector llm))).
  destruct (String.eqb_spec c "anthropic") as [->|]; [done|]. destruct (String.eqb_spec c "ollama") as [->|]; [done|].
  destruct (String.eqb_spec c "openrouter") as [->|]; [done|]. destruct (String.eqb_spec c "azure") as [->|]; [done|].
  destruct (String.eqb_spec c "google") as [->|]; [done|]. destruct (_ || _); [done|]. by destruct (String.eqb c "openai").
Qed.

(** The credential of a legacy Bedrock block is not carried over, though a
    Bedrock connection has a place for one. *)
Lemma a_migrated_bedrock_loses_its_credential llm :
  Connector_parse (llm_connector llm) = Some CBedrock →
  secret_of (connection_from_legacy_llm llm) = None ∧ carries_credential (connection_from_legacy_llm llm) = true.
Proof.
  intros Hc. pose proof (migration_keeps_the_connector llm) as Hm. rewrite Hc in Hm. unfold carries_credential. rewrite Hm. split; [|done].
  unfold connection_from_legacy_llm in *. cbv zeta in *. repeat (destruct (String.eqb _ _); [done|]). destruct (_ || _); done.
Qed.
