(* ===== verification/Purposes.v ===== *)
(** * Purposes

    Models [crates/daemon/src/purposes.rs]: which connection and model each
    purpose of the daemon uses, inheritance from the interactive purpose, and
    resolution; with the payload a client edits a purpose with
    ([crates/daemon/src/api_surface.rs]).  The kinds are those of
    [crates/protocol/src/lib.rs]. *)

From S2P Require Import Prelude TaskStore UrlPolicy Connections.

#[local] Open Scope nat_scope.

Inductive PurposeKind := Interactive | Dreaming | Consolidation | Embedding | Titling | Voice.

#[export] Instance PurposeKind_eq_dec : EqDecision PurposeKind.
Proof. solve_decision. Defined.

Definition PurposeKind_all : list PurposeKind := [Interactive; Dreaming; Consolidation; Embedding; Titling; Voice].

Definition kind_as_key (k : PurposeKind) : string :=
  match k with
  | Interactive => "interactive" | Dreaming => "dreaming" | Consolidation => "consolidation"
  | Embedding => "embedding" | Titling => "titling" | Voice => "voice"
  end.

Definition kind_from_key (key : string) : option PurposeKind :=
  if String.eqb key "interactive" then Some Interactive
  else if String.eqb key "dreaming" then Some Dreaming
  else if String.eqb key "consolidation" then Some Consolidation
  else if String.eqb key "embedding" then Some Embedding
  else if String.eqb key "titling" then Some Titling
  else if String.eqb key "voice" then Some Voice
  else None.

Lemma kind_key_round_trip k : kind_from_key (kind_as_key k) = Some k.
Proof. by destruct k. Qed.

#[export] Instance PurposeKind_countable : Countable PurposeKind.
Proof. apply (inj_countable kind_as_key kind_from_key), kind_key_round_trip. Defined.

Lemma PurposeKind_all_elem k : k ∈ PurposeKind_all.
Proof. destruct k; unfold PurposeKind_all; set_solver. Qed.

Inductive ConnectionRef := NamedConnection (id : string) | PrimaryConnection.
Inductive ModelRef := NamedModel (model : string) | PrimaryModel.

#[export] Instance ConnectionRef_eq_dec : EqDecision ConnectionRef.
Proof. solve_decision. Defined.
#[export] Instance ModelRef_eq_dec : EqDecision ModelRef.
Proof. solve_decision. Defined.

Definition PRIMARY_SENTINEL : string := "primary".

Inductive Effort := EffortLow | EffortMedium | EffortHigh.

Record PurposeConfig := {
  connection : ConnectionRef;
  model : ModelRef;
  effort : option Effort;
  purpose_max_context_tokens : option Z
}.

Definition is_primary_connection (r : ConnectionRef) : bool := match r with PrimaryConnection => true | NamedConnection _ => false end.
Definition is_primary_model (r : ModelRef) : bool := match r with PrimaryModel => true | NamedModel _ => false end.

Definition inheritance_is_mixed (p : PurposeConfig) : bool := xorb (is_primary_connection (connection p)) (is_primary_model (model p)).

Notation Purposes := (gmap PurposeKind PurposeConfig).

Inductive PurposeError :=
| MissingInteractive
| InteractivePrimaryConnection
| InteractivePrimaryModel
| Missing (purpose : string)
| PrimaryChainTooDeep (purpose : string)
| DanglingInteractiveConnection (connection : string).

Definition set_purpose_slot (p : Purposes) (k : PurposeKind) (c : option PurposeConfig) : Purposes :=
  match c with Some c => <[k := c]> p | None => delete k p end.

Definition validate (p : Purposes) : result unit PurposeError :=
  if bool_decide (p = ∅) then Ok tt
  else
    match p !! Interactive with
    | None => Err MissingInteractive
    | Some interactive =>
        if is_primary_connection (connection interactive) then Err InteractivePrimaryConnection
        else if is_primary_model (model interactive) then Err InteractivePrimaryModel
        else Ok tt
    end.

Record ResolvedPurpose := {
  resolved_kind : PurposeKind;
  connection_id : string;
  model_id : string;
  resolved_effort : option Effort
}.

Section resolution.
Context (connections : list (string * ConnectionConfig)).

Definition expect_interactive_connection (interactive : PurposeConfig) : result string PurposeError :=
  match connection interactive with
  | PrimaryConnection => Err InteractivePrimaryConnection
  | NamedConnection id =>
      match im_get connections id with None => Err (DanglingInteractiveConnection id) | Some _ => Ok id end
  end.

Definition resolve_connection (kind : PurposeKind) (cfg interactive : PurposeConfig) : result string PurposeError :=
  match connection cfg with
  | NamedConnection id =>
      match im_get connections id with
      | Some _ => Ok id
      | None =>
          if bool_decide (kind = Interactive) then Err (DanglingInteractiveConnection id)
          else expect_interactive_connection interactive
      end
  | PrimaryConnection =>
      if bool_decide (kind = Interactive) then Err InteractivePrimaryConnection
      else
        match connection interactive with
        | PrimaryConnection => Err (PrimaryChainTooDeep (kind_as_key kind))
        | NamedConnection _ => expect_interactive_connection interactive
        end
  end.

Definition resolve_model (kind : PurposeKind) (cfg interactive : PurposeConfig) : result string PurposeError :=
  match model cfg with
  | NamedModel m => Ok m
  | PrimaryModel =>
      if bool_decide (kind = Interactive) then Err InteractivePrimaryModel
      else
        match model interactive with
        | NamedModel m => Ok m
        | PrimaryModel => Err (PrimaryChainTooDeep (kind_as_key kind))
        end
  end.

Definition resolve_purpose (kind : PurposeKind) (purposes : Purposes) : result ResolvedPurpose PurposeError :=
  match purposes !! kind with
  | None => Err (Missing (kind_as_key kind))
  | Some cfg =>
      match purposes !! Interactive with
      | None => Err MissingInteractive
      | Some interactive =>
          match resolve_connection kind cfg interactive with
          | Err e => Err e
          | Ok c =>
              match resolve_model kind cfg interactive with
              | Err e => Err e
              | Ok m => Ok {| resolved_kind := kind; connection_id := c; model_id := m; resolved_effort := effort cfg |}
              end
          end
      end
  end.
End resolution.

(** ** Payloads *)

Record PurposeConfigPayload := {
  payload_connection : string;
  payload_model : string;
  payload_effort : option Effort;
  payload_max_context_tokens : option Z
}.

Definition connection_ref_text (r : ConnectionRef) : string := match r with NamedConnection id => id | PrimaryConnection => PRIMARY_SENTINEL end.
Definition model_ref_text (r : ModelRef) : string := match r with NamedModel m => m | PrimaryModel => PRIMARY_SENTINEL end.

Definition purpose_to_payload (p : PurposeConfig) : PurposeConfigPayload :=
  {| payload_connection := connection_ref_text (connection p); payload_model := model_ref_text (model p);
     payload_effort := effort p; payload_max_context_tokens := purpose_max_context_tokens p |}.

Section payload.
Context (debug : string → string) (id_error_text : ConnectionIdError → string).

Definition payload_to_purpose (p : PurposeConfigPayload) : result PurposeConfig string :=
  match (if String.eqb (payload_connection p) "primary" then Ok PrimaryConnection
         else match ConnectionId_new (payload_connection p) with
              | Ok id => Ok (NamedConnection id)
              | Err e => Err ("connection " +:+ debug (payload_connection p) +:+ ": " +:+ id_error_text e)
              end) with
  | Err e => Err e
  | Ok c =>
      Ok {| connection := c;
            model := if String.eqb (payload_model p) "primary" then PrimaryModel else NamedModel (payload_model p);
            effort := payload_effort p; purpose_max_context_tokens := payload_max_context_tokens p |}
  end.

(** A stored reference a client can write: a slug that is not the sentinel. *)
Definition writable (p : PurposeConfig) : Prop :=
  match connection p with NamedConnection id => valid_id id ∧ id ≠ PRIMARY_SENTINEL | PrimaryConnection => True end ∧
  match model p with NamedModel m => m ≠ PRIMARY_SENTINEL | PrimaryModel => True end.

Lemma purpose_round_trip p : writable p → payload_to_purpose (purpose_to_payload p) = Ok p.
Proof.
  intros [Hc Hm]. destruct p as [c m e t]. unfold payload_to_purpose, purpose_to_payload. cbn [payload_connection payload_model payload_effort payload_max_context_tokens connection model effort purpose_max_context_tokens].
  cbn [connection model] in Hc, Hm. destruct c as [id|].
  - destruct Hc as [Hid Hne]. cbn [connection_ref_text]. apply String.eqb_neq in Hne. unfold PRIMARY_SENTINEL in Hne. rewrite Hne, Hid.
    destruct m as [m|]; cbn [model_ref_text]; [apply String.eqb_neq in Hm; unfold PRIMARY_SENTINEL in Hm; by rewrite Hm|done].
  - cbn [connection_ref_text]. destruct m as [m|]; cbn [model_ref_text]; [apply String.eqb_neq in Hm; unfold PRIMARY_SENTINEL in Hm; by rewrite Hm|done].
Qed.

Lemma payload_is_writable p cfg : payload_to_purpose p = Ok cfg → writable cfg.
Proof.
  unfold payload_to_purpose. intros Hp. destruct (String.eqb_spec (payload_connection p) "primary") as [Hc|Hc].
  - injection Hp as <-. split; [done|]. cbn [model]. destruct (String.eqb_spec (payload_model p) "primary"); [done|done].
  - destruct (ConnectionId_new _) as [id|] eqn:Hn; [|done]. injection Hp as <-. apply ConnectionId_new_ok in Hn as [-> Hv].
    split; [done|]. cbn [model]. destruct (String.eqb_spec (payload_model p) "primary"); done.
Qed.
End payload.

(** A connection may be called by the sentinel's name; no purpose can refer to
    it. *)
Lemma a_connection_named_primary_is_out_of_reach debug id_error_text :
  valid_id PRIMARY_SENTINEL ∧
  payload_to_purpose debug id_error_text (purpose_to_payload
    {| connection := NamedConnection PRIMARY_SENTINEL; model := NamedModel "m"; effort := None; purpose_max_context_tokens := None |})
  = Ok {| connection := PrimaryConnection; model := NamedModel "m"; effort := None; purpose_max_context_tokens := None |}.
Proof. split; [by vm_compute|done]. Qed.

(** ** What resolution answers *)

(** The connection and the model a purpose ends up with. *)
Definition connection_choice (connections : list (string * ConnectionConfig)) (cfg : PurposeConfig) (inherited : string) : string :=
  match connection cfg with NamedConnection id => if im_contains connections id then id else inherited | PrimaryConnection => inherited end.

Definition model_choice (cfg : PurposeConfig) (inherited : string) : string :=
  match model cfg with NamedModel m => m | PrimaryModel => inherited end.

(** Over purposes that passed validation, a configured purpose resolves to
    its own connection where that is configured and to the interactive one
    otherwise, and to its own model or the interactive one; it fails only when the
    connection so chosen is not configured, naming the interactive connection. *)
Theorem a_purpose_resolves_or_the_primary_dangles connections purposes kind cfg ic im
    (Hvalid : validate purposes = Ok tt) (Hcfg : purposes !! kind = Some cfg)
    (Hc : connection <$> purposes !! Interactive = Some (NamedConnection ic)) (Hm : model <$> purposes !! Interactive = Some (NamedModel im)) :
  let c := connection_choice connections cfg ic in
  resolve_purpose connections kind purposes =
    if im_contains connections c
    then Ok {| resolved_kind := kind; connection_id := c; model_id := model_choice cfg im; resolved_effort := effort cfg |}
    else Err (DanglingInteractiveConnection ic).
Proof.
  destruct (purposes !! Interactive) as [ia|] eqn:Hia; [|done]. cbn [fmap option_fmap option_map] in Hc, Hm. injection Hc as Hc. injection Hm as Hm.
  assert (Hkind : kind = Interactive → cfg = ia) by (intros ->; congruence).
  unfold resolve_purpose. rewrite Hcfg, Hia. unfold resolve_connection, resolve_model, expect_interactive_connection, connection_choice, model_choice, im_contains.
  rewrite Hc, Hm. destruct (decide (kind = Interactive)) as [->|Hk].
  - rewrite Hkind by done. rewrite Hc, Hm. destruct (im_get connections ic) eqn:Hg; rewrite ?Hg; done.
  - rewrite bool_decide_eq_false_2 by done. destruct (connection cfg) as [id|].
    + destruct (im_get connections id) eqn:Hid; rewrite ?Hid; [by destruct (model cfg)|]. destruct (im_get connections ic); [by destruct (model cfg)|done].
    + destruct (im_get connections ic); [by destruct (model cfg)|done].
Qed.

(** Validated purposes have a concrete interactive purpose, or there is none. *)
Lemma validated purposes :
  validate purposes = Ok tt → purposes = ∅ ∨
  ∃ ia ic im, purposes !! Interactive = Some ia ∧ connection ia = NamedConnection ic ∧ model ia = NamedModel im.
Proof.
  unfold validate. case_bool_decide; [by left|]. destruct (purposes !! Interactive) as [ia|]; [|done]. destruct (connection ia) as [ic|] eqn:Hc; [|done].
  destruct (model ia) as [im|] eqn:Hm; [|done]. intros _. right. by exists ia, ic, im.
Qed.

Lemma validate_intro (purposes : Purposes) ia ic im :
  purposes !! Interactive = Some ia → connection ia = NamedConnection ic → model ia = NamedModel im → validate purposes = Ok tt.
Proof. intros Hia Hc Hm. unfold validate. case_bool_decide; [done|]. by rewrite Hia, Hc, Hm. Qed.

(** ** Concrete purposes *)

Definition some_purpose (c : ConnectionRef) (m : ModelRef) : PurposeConfig :=
  {| connection := c; model := m; effort := None; purpose_max_context_tokens := None |}.

Definition some_purposes : Purposes :=
  <[Interactive := some_purpose (NamedConnection "work") (NamedModel "big")]>
  (<[Dreaming := some_purpose (NamedConnection "gone") PrimaryModel]> ∅).

Lemma a_purpose_resolves_or_the_primary_dangles_witness :
  resolve_purpose [("work", Ollama None None None None None)] Dreaming some_purposes
    = Ok {| resolved_kind := Dreaming; connection_id := "work"; model_id := "big"; resolved_effort := None |}.
Proof.
  apply (a_purpose_resolves_or_the_primary_dangles [("work", Ollama None None None None None)] some_purposes Dreaming
    (some_purpose (NamedConnection "gone") PrimaryModel) "work" "big"); vm_compute; reflexivity.
Defined.
