(* ===== verification/ConfigService.v ===== *)
(** * The configuration service

    Models [RegistryHandle] and [DaemonConnectionsService] of
    [crates/daemon/src/api_surface.rs]: the running configuration, the registry
    of clients built from it and the file they came from, the operations a client
    edits connections and purposes with, and the reload after an edit of the file
    ([crates/daemon/src/config/mod.rs] for reading and validating it).

    The file is what reading it gives: nothing, something that does not parse, or
    a configuration; a save writes the whole configuration.  The registry built
    from a configuration, the outcome of a write to disk and the kind a provider
    reports for a model are parameters. *)

From S2P Require Import Prelude TaskStore UrlPolicy Connections Purposes.

#[local] Open Scope nat_scope.
#[local] Set Default Proof Using "Type".

Inductive ModelKind := Generative | EmbeddingKind | UnknownKind.

#[export] Instance ModelKind_eq_dec : EqDecision ModelKind.
Proof. solve_decision. Defined.

Definition expected_kind_for_purpose (k : PurposeKind) : ModelKind := match k with Embedding => EmbeddingKind | _ => Generative end.

Definition kind_word (k : ModelKind) : string := match k with Generative => "generative" | EmbeddingKind => "embedding" | UnknownKind => "unknown" end.

Inductive ConfigOrigin := FromFile | DefaultsAfterFailedLoad.

#[export] Instance ConfigOrigin_eq_dec : EqDecision ConfigOrigin.
Proof. solve_decision. Defined.

Section config.
(** The sections of the configuration these operations do not read, and what is
    built from a configuration. *)
Context {Rest Registry : Type}.
Context (debug : string → string) `{!UrlParser} (url_text : UrlPolicyError → string).

(** Where the file is, as it is printed. *)
Context (config_path : string).

Record DaemonConfig := { cfg_connections : list (string * ConnectionConfig); cfg_purposes : Purposes; cfg_rest : Rest }.

(** [build_registry], and how many of its connections have a client. *)
Context (build_registry : DaemonConfig → Registry) (live_count : Registry → nat).

(** Whether two configurations differ in something a reload acts on. *)
Context (plan_is_empty : DaemonConfig → DaemonConfig → bool).

(** ** The file *)

(** [explicit] is that the text has a [[connections]] table. *)
Inductive ConfigFile := NoFile | Unparsable | Holds (cfg : DaemonConfig) (explicit : bool).

Definition collect_ids (l : list (string * ConnectionConfig)) : option ConnectionIdError :=
  head (omap (λ kv, match ConnectionId_new kv.1 with Err e => Some e | Ok _ => None end) l).

Inductive ConnectionsError := NoConnections | DuplicateId (id : string) | InvalidId (e : ConnectionIdError).

Fixpoint first_duplicate (seen keys : list string) : option string :=
  match keys with
  | [] => None
  | k :: keys' => if existsb (String.eqb k) seen then Some k else first_duplicate (k :: seen) keys'
  end.

Definition validated_connections (cfg : DaemonConfig) : result (list (string * ConnectionConfig)) ConnectionsError :=
  match collect_ids (cfg_connections cfg) with
  | Some e => Err (InvalidId e)
  | None =>
      match cfg_connections cfg with
      | [] => Err NoConnections
      | l => match first_duplicate [] l.*1 with Some k => Err (DuplicateId k) | None => Ok l end
      end
  end.

Inductive LoadError := NotToml | BadConnections (e : ConnectionsError) | BadPurposes (e : PurposeError).

Definition parse_daemon_config (f : ConfigFile) : result (option DaemonConfig) LoadError :=
  match f with
  | NoFile => Ok None
  | Unparsable => Err NotToml
  | Holds cfg explicit =>
      match (if negb (match cfg_connections cfg with [] => true | _ => false end) || explicit
             then match validated_connections cfg with Ok _ => None | Err e => Some e end else None) with
      | Some e => Err (BadConnections e)
      | None => match validate (cfg_purposes cfg) with Err e => Err (BadPurposes e) | Ok _ => Ok (Some cfg) end
      end
  end.

(** [save_daemon_config]: an empty table of connections is not written. *)
Definition saved (cfg : DaemonConfig) : ConfigFile := Holds cfg (match cfg_connections cfg with [] => false | _ => true end).

(** ** The handle *)

Record Handle := {
  running : DaemonConfig;
  registry : Registry;
  config_origin : ConfigOrigin;
  file : ConfigFile;
  secrets : gmap string string
}.

Definition refuse_if_overwrite_would_destroy_the_file (h : Handle) : option CoreError :=
  if bool_decide (config_origin h = DefaultsAfterFailedLoad)
  then Some (Storage ("refusing to write " +:+ config_path +:+ ": the daemon is running built-in defaults because that file could not be loaded at startup, so saving now would replace its contents with defaults. Fix the file - the daemon log names the error - and it is picked up automatically."))
  else match parse_daemon_config (file h) with
       | Err _ => Some (Storage ("refusing to write " +:+ config_path +:+ ": the file on disk no longer parses, so saving now would overwrite it with the configuration the daemon is running. Fix the file - the daemon log names the error - and retry."))
       | Ok _ => None
       end.

(** [save_error] is the failure of the write, if it fails.  The change may store a
    credential before it is refused. *)
Definition mutate_config (save_error : option string) (op : gmap string string → DaemonConfig → gmap string string * result DaemonConfig string)
    (h : Handle) : Handle * result unit CoreError :=
  match refuse_if_overwrite_would_destroy_the_file h with
  | Some e => (h, Err e)
  | None =>
      let '(secrets', changed) := op (secrets h) (running h) in
      let h := {| running := running h; registry := registry h; config_origin := config_origin h; file := file h; secrets := secrets' |} in
      match changed with
      | Err e => (h, Err (Llm e))
      | Ok cfg =>
          match save_error with
          | Some e => (h, Err (Storage ("saving config: " +:+ e)))
          | None =>
              ({| running := cfg; registry := build_registry cfg; config_origin := config_origin h; file := saved cfg; secrets := secrets' |}, Ok tt)
          end
      end
  end.

(** A change that stores no credential. *)
Definition pure_op (f : DaemonConfig → result DaemonConfig string) (s : gmap string string) (cfg : DaemonConfig) :
  gmap string string * result DaemonConfig string := (s, f cfg).

Definition with_connections (cfg : DaemonConfig) (l : list (string * ConnectionConfig)) : DaemonConfig :=
  {| cfg_connections := l; cfg_purposes := cfg_purposes cfg; cfg_rest := cfg_rest cfg |}.
Definition with_purposes (cfg : DaemonConfig) (p : Purposes) : DaemonConfig :=
  {| cfg_connections := cfg_connections cfg; cfg_purposes := p; cfg_rest := cfg_rest cfg |}.

Definition id_error_text (e : ConnectionIdError) : string :=
  match e with
  | EmptyId => "connection id must not be empty"
  | IdTooLong id len max => "connection id " +:+ debug id +:+ " is too long (" +:+ pretty len +:+ " chars); maximum is " +:+ pretty max +:+ " characters"
  | InvalidChars id => "connection id " +:+ debug id +:+ " is invalid; must match [a-z0-9][a-z0-9_-]* (lowercase ASCII alphanumerics, underscores, and hyphens; first char must be alphanumeric)"
  end.

Definition purpose_error_text (e : PurposeError) : string :=
  match e with
  | MissingInteractive => "`[purposes]` is configured but `purposes.interactive` is missing"
  | InteractivePrimaryConnection => "`purposes.interactive.connection` must name a concrete connection (cannot be `" +:+ dq +:+ "primary" +:+ dq +:+ "` — nothing to inherit from)"
  | InteractivePrimaryModel => "`purposes.interactive.model` must be a concrete model name (cannot be `" +:+ dq +:+ "primary" +:+ dq +:+ "` — nothing to inherit from)"
  | Missing p => "purpose " +:+ debug p +:+ " is not configured"
  | PrimaryChainTooDeep p => "purpose " +:+ debug p +:+ ": connection " +:+ dq +:+ "primary" +:+ dq +:+ " resolves to interactive, which also uses " +:+ dq +:+ "primary" +:+ dq +:+ " (depth exceeded 1)"
  | DanglingInteractiveConnection c => "purpose " +:+ dq +:+ "interactive" +:+ dq +:+ ": connection " +:+ debug c +:+ " is not configured in `[connections]`"
  end.

(** A [ConnectionId] printed for debugging. *)
Definition debug_id (id : string) : string := "ConnectionId(" +:+ debug id +:+ ")".

Definition checked_id (id : string) : result string CoreError :=
  match ConnectionId_new id with Ok i => Ok i | Err e => Err (Llm ("invalid connection id: " +:+ id_error_text e)) end.

(** ** The operations of a client *)

Definition insert_new (id : string) (conn : ConnectionConfig) (cfg : DaemonConfig) : result DaemonConfig string :=
  if im_contains (cfg_connections cfg) id then Err ("connection id " +:+ debug_id id +:+ " already exists")
  else Ok (with_connections cfg (im_insert (cfg_connections cfg) id conn)).

Definition create_connection (save_error : option string) (id : string) (payload : ConnectionConfigPayload) (h : Handle) : Handle * result unit CoreError :=
  match checked_id id with
  | Err e => (h, Err e)
  | Ok id =>
      match constrain_api_key_env debug (payload_to_connection payload) None with
      | Err e => (h, Err (Llm e))
      | Ok conn =>
          match constrain_base_url debug url_text conn with
          | Err e => (h, Err e)
          | Ok _ => mutate_config save_error (pure_op (insert_new id conn)) h
          end
      end
  end.

(** [expect] on a connector of the same type that holds a credential cannot fail. *)
Definition keep_secret (existing conn : ConnectionConfig) : ConnectionConfig :=
  if String.eqb (connector_type existing) (connector_type conn)
  then match secret_of existing with
       | Some s => match set_secret conn (Some s) with Ok c => c | Err _ => conn end
       | None => conn
       end
  else conn.

Definition replace_connection (id : string) (conn : ConnectionConfig) (cfg : DaemonConfig) : result DaemonConfig string :=
  match im_get (cfg_connections cfg) id with
  | None => Err ("connection id " +:+ debug_id id +:+ " does not exist")
  | Some existing =>
      match constrain_api_key_env debug conn (api_key_env existing) with
      | Err e => Err e
      | Ok conn =>
          let conn := carry_forward_file_only_fields (keep_secret existing conn) existing in
          Ok (with_connections cfg (im_insert (cfg_connections cfg) id conn))
      end
  end.

Definition update_connection (save_error : option string) (id : string) (payload : ConnectionConfigPayload) (h : Handle) : Handle * result unit CoreError :=
  match checked_id id with
  | Err e => (h, Err e)
  | Ok id =>
      let conn := payload_to_connection payload in
      match constrain_base_url debug url_text conn with
      | Err e => (h, Err e)
      | Ok _ => mutate_config save_error (pure_op (replace_connection id conn)) h
      end
  end.

Definition refers_to (id : string) (p : PurposeConfig) : bool := match connection p with NamedConnection i => String.eqb i id | PrimaryConnection => false end.

Definition purposes_referencing (p : Purposes) (id : string) : list PurposeKind :=
  List.filter (λ k, match p !! k with Some c => refers_to id c | None => false end) PurposeKind_all.

Definition set_connection_ref (c : PurposeConfig) (r : ConnectionRef) : PurposeConfig :=
  {| connection := r; model := model c; effort := effort c; purpose_max_context_tokens := purpose_max_context_tokens c |}.

(** One referring purpose after its connection is gone. *)
Definition reroute (remaining : list (string * ConnectionConfig)) (p : Purposes) (k : PurposeKind) : Purposes :=
  if bool_decide (k = Interactive) then
    match remaining with
    | (new_id, _) :: _ => match p !! Interactive with Some c => <[Interactive := set_connection_ref c (NamedConnection new_id)]> p | None => p end
    | [] => delete Interactive p
    end
  else match p !! k with Some c => <[k := set_connection_ref c PrimaryConnection]> p | None => p end.

Definition remove_connection (id : string) (force : bool) (cfg : DaemonConfig) : result DaemonConfig string :=
  if negb (im_contains (cfg_connections cfg) id) then Err ("connection id " +:+ debug_id id +:+ " does not exist")
  else
    let referenced_by := purposes_referencing (cfg_purposes cfg) id in
    if negb (match referenced_by with [] => true | _ => false end) && negb force
    then Err ("connection " +:+ debug_id id +:+ " is referenced by purposes [" +:+ join ", " (map (λ k, debug (kind_as_key k)) referenced_by)
              +:+ "]; pass force=true to cascade")
    else
      let remaining := im_remove (cfg_connections cfg) id in
      Ok (with_purposes (with_connections cfg remaining) (foldl (reroute remaining) (cfg_purposes cfg) referenced_by)).

Definition delete_connection (save_error : option string) (id : string) (force : bool) (h : Handle) : Handle * result unit CoreError :=
  match checked_id id with
  | Err e => (h, Err e)
  | Ok id => mutate_config save_error (pure_op (remove_connection id force)) h
  end.

Definition connection_secret_account (id : string) : string := "connection_" +:+ id.

Definition connection_secret (id : string) : SecretConfig :=
  {| backend := backend SecretConfig_default; service := service SecretConfig_default; account := Some (connection_secret_account id);
     wallet := wallet SecretConfig_default; folder := folder SecretConfig_default; entry := entry SecretConfig_default |}.

(** [write_error] is the failure of the secret store, if it fails. *)
Definition store_connection_secret (write_error : option string) (id value : string) (s : gmap string string) :
    gmap string string * result (option SecretConfig) string :=
  let trimmed := trim value in
  if String.eqb trimmed EmptyString then (delete (connection_secret_account id) s, Ok None)
  else match write_error with
       | Some e => (s, Err e)
       | None => (<[connection_secret_account id := trimmed]> s, Ok (Some (connection_secret id)))
       end.

Definition put_secret (write_error : option string) (id credential : string) (s : gmap string string) (cfg : DaemonConfig) :
    gmap string string * result DaemonConfig string :=
  match im_get (cfg_connections cfg) id with
  | None => (s, Err ("connection id " +:+ debug_id id +:+ " does not exist"))
  | Some conn =>
      match store_connection_secret write_error id credential s with
      | (s', Err e) => (s', Err ("failed to store secret for " +:+ debug_id id +:+ ": " +:+ e))
      | (s', Ok secret) =>
          match set_secret conn secret with
          | Err e => (s', Err ("connection " +:+ debug_id id +:+ ": " +:+ e))
          | Ok conn => (s', Ok (with_connections cfg (im_insert (cfg_connections cfg) id conn)))
          end
      end
  end.

Definition set_connection_secret (save_error write_error : option string) (id credential : string) (h : Handle) : Handle * result unit CoreError :=
  match checked_id id with
  | Err e => (h, Err e)
  | Ok id => mutate_config save_error (put_secret write_error id credential) h
  end.

Definition put_purpose (kind : PurposeKind) (new_cfg : PurposeConfig) (cfg : DaemonConfig) : result DaemonConfig string :=
  let p := set_purpose_slot (cfg_purposes cfg) kind (Some new_cfg) in
  match validate p with Err e => Err (purpose_error_text e) | Ok _ => Ok (with_purposes cfg p) end.

(** [found] is the kind of the named model, as far as the provider tells. *)
Definition set_purpose (save_error : option string) (found : ModelKind) (kind : PurposeKind) (payload : PurposeConfigPayload) (h : Handle) :
    Handle * result unit CoreError :=
  match payload_to_purpose debug id_error_text payload with
  | Err e => (h, Err (Llm ("invalid purpose config: " +:+ e)))
  | Ok new_cfg =>
      if bool_decide (kind = Interactive) && is_primary_connection (connection new_cfg)
      then (h, Err (Llm ("interactive purpose cannot use connection " +:+ dq +:+ "primary" +:+ dq +:+ " — nothing to inherit from")))
      else if bool_decide (kind = Interactive) && is_primary_model (model new_cfg)
      then (h, Err (Llm ("interactive purpose cannot use model " +:+ dq +:+ "primary" +:+ dq +:+ " — nothing to inherit from")))
      else if inheritance_is_mixed new_cfg
      then (h, Err (Llm ("purpose " +:+ dq +:+ kind_as_key kind +:+ dq +:+ ": connection " +:+ dq +:+ connection_ref_text (connection new_cfg) +:+ dq
                         +:+ " and model " +:+ dq +:+ model_ref_text (model new_cfg) +:+ dq +:+ " mix a named binding with the " +:+ dq +:+ "primary" +:+ dq
                         +:+ " inherit sentinel — use " +:+ dq +:+ "primary" +:+ dq +:+ " for both to inherit from interactive, or name both")))
      else
        match connection new_cfg, model new_cfg with
        | NamedConnection c, NamedModel m =>
            if negb (bool_decide (found = UnknownKind)) && negb (bool_decide (found = expected_kind_for_purpose kind))
            then (h, Err (Llm ("purpose " +:+ dq +:+ kind_as_key kind +:+ dq +:+ ": model " +:+ dq +:+ m +:+ dq +:+ " on connection " +:+ dq +:+ c +:+ dq +:+ " is "
                               +:+ kind_word found +:+ ", but the " +:+ kind_as_key kind +:+ " purpose requires " +:+ kind_word (expected_kind_for_purpose kind)
                               +:+ " — choose a model whose kind is " +:+ kind_word (expected_kind_for_purpose kind))))
            else mutate_config save_error (pure_op (put_purpose kind new_cfg)) h
        | _, _ => mutate_config save_error (pure_op (put_purpose kind new_cfg)) h
        end
  end.

(** ** The file changes *)

Definition apply_reload (h : Handle) : Handle * bool :=
  match parse_daemon_config (file h) with
  | Err _ | Ok None => (h, false)
  | Ok (Some new) =>
      if plan_is_empty (running h) new && bool_decide (config_origin h = FromFile) then (h, true)
      else
        let new_registry := build_registry new in
        if (0 <? live_count (registry h)) && (live_count new_registry =? 0) then (h, false)
        else ({| running := new; registry := new_registry; config_origin := FromFile; file := file h; secrets := secrets h |}, true)
  end.

(** What a client asks for, a reload, and an edit of the file by its owner. *)
Inductive ConfigOp :=
| OpCreate (save_error : option string) (id : string) (payload : ConnectionConfigPayload)
| OpUpdate (save_error : option string) (id : string) (payload : ConnectionConfigPayload)
| OpDelete (save_error : option string) (id : string) (force : bool)
| OpSetSecret (save_error write_error : option string) (id credential : string)
| OpSetPurpose (save_error : option string) (found : ModelKind) (kind : PurposeKind) (payload : PurposeConfigPayload)
| OpReload
| OpEdit (f : ConfigFile).

Definition perform (h : Handle) (op : ConfigOp) : Handle * result unit CoreError :=
  match op with
  | OpCreate e id p => create_connection e id p h
  | OpUpdate e id p => update_connection e id p h
  | OpDelete e id force => delete_connection e id force h
  | OpSetSecret e w id c => set_connection_secret e w id c h
  | OpSetPurpose e found k p => set_purpose e found k p h
  | OpReload => ((apply_reload h).1, Ok tt)
  | OpEdit f => ({| running := running h; registry := registry h; config_origin := config_origin h; file := f; secrets := secrets h |}, Ok tt)
  end.

Definition perform_all (h : Handle) (ops : list ConfigOp) : Handle := foldl (λ h op, (perform h op).1) h ops.

(** ** A client's changes *)

Definition is_client (op : ConfigOp) : bool := match op with OpReload | OpEdit _ => false | _ => true end.

(** The change an operation makes when its arguments pass their checks. *)
Inductive is_change : ConfigOp → (gmap string string → DaemonConfig → gmap string string * result DaemonConfig string) → Prop :=
| change_create e id p conn :
    valid_id id → constrain_api_key_env debug (payload_to_connection p) None = Ok conn → constrain_base_url debug url_text conn = Ok tt →
    is_change (OpCreate e id p) (pure_op (insert_new id conn))
| change_update e id p :
    valid_id id → constrain_base_url debug url_text (payload_to_connection p) = Ok tt →
    is_change (OpUpdate e id p) (pure_op (replace_connection id (payload_to_connection p)))
| change_delete e id force : valid_id id → is_change (OpDelete e id force) (pure_op (remove_connection id force))
| change_secret e w id c : valid_id id → is_change (OpSetSecret e w id c) (put_secret w id c)
| change_purpose e found k p new_cfg :
    payload_to_purpose debug id_error_text p = Ok new_cfg → inheritance_is_mixed new_cfg = false →
    is_change (OpSetPurpose e found k p) (pure_op (put_purpose k new_cfg)).

Lemma checked_id_ok id i : checked_id id = Ok i → i = id ∧ valid_id id.
Proof.
  unfold checked_id. destruct (ConnectionId_new id) as [j|] eqn:Hn; [|done]. intros [= ->]. by apply ConnectionId_new_ok in Hn as [-> ?].
Qed.

(** A client's operation is refused for its arguments, or is its change carried
    out by [mutate_config]. *)
Lemma client_op_cases h op :
  is_client op = true → (∃ e, perform h op = (h, Err e)) ∨ ∃ se f, perform h op = mutate_config se f h ∧ is_change op f.
Proof.
  destruct op as [e id p|e id p|e id force|e w id c|e found k p| |f]; try done; intros _; cbn [perform].
  - unfold create_connection. destruct (checked_id id) as [i|] eqn:Hi; [|eauto]. apply checked_id_ok in Hi as [-> Hi].
    destruct (constrain_api_key_env _ _ _) eqn:He; [|eauto]. destruct (constrain_base_url _ _ _) as [[]|] eqn:Hu; [|eauto]. right. eauto using is_change.
  - unfold update_connection. destruct (checked_id id) as [i|] eqn:Hi; [|eauto]. apply checked_id_ok in Hi as [-> Hi].
    cbv zeta. destruct (constrain_base_url _ _ _) as [[]|] eqn:Hu; [|eauto]. right. eauto using is_change.
  - unfold delete_connection. destruct (checked_id id) as [i|] eqn:Hi; [|eauto]. apply checked_id_ok in Hi as [-> Hi]. right. eauto using is_change.
  - unfold set_connection_secret. destruct (checked_id id) as [i|] eqn:Hi; [|eauto]. apply checked_id_ok in Hi as [-> Hi]. right. eauto using is_change.
  - unfold set_purpose. destruct (payload_to_purpose _ _ _) as [n|] eqn:Hp; [|eauto]. destruct (_ && _); [eauto|]. destruct (_ && _); [eauto|].
    destruct (inheritance_is_mixed n) eqn:Hm; [eauto|]. destruct (connection n), (model n); [destruct (_ && _); [eauto|]|..]; right; eauto using is_change.
Qed.

Lemma refuse_none h :
  refuse_if_overwrite_would_destroy_the_file h = None ↔ config_origin h = FromFile ∧ ∃ c, parse_daemon_config (file h) = Ok c.
Proof.
  unfold refuse_if_overwrite_would_destroy_the_file. case_bool_decide as Ho; [rewrite Ho; split; [done|by intros [? _]]|].
  destruct (config_origin h); [|done]. destruct (parse_daemon_config (file h)) as [c|]; [split; eauto|].
  split; [done|]. by intros [_ [? ?]].
Qed.

(** What [mutate_config] leaves. *)
Lemma mutate_config_cases se f h h' r :
  mutate_config se f h = (h', r) →
  (∃ e, r = Err e ∧ running h' = running h ∧ registry h' = registry h ∧ config_origin h' = config_origin h ∧ file h' = file h
        ∧ (secrets h' = secrets h ∨ secrets h' = (f (secrets h) (running h)).1)) ∨
  (∃ s cfg, r = Ok tt ∧ f (secrets h) (running h) = (s, Ok cfg) ∧ config_origin h = FromFile ∧ (∃ c, parse_daemon_config (file h) = Ok c)
        ∧ h' = {| running := cfg; registry := build_registry cfg; config_origin := FromFile; file := saved cfg; secrets := s |}).
Proof.
  unfold mutate_config. destruct (refuse_if_overwrite_would_destroy_the_file h) as [e|] eqn:Href.
  { intros [= <- <-]. left. exists e. split_and!; auto. }
  apply refuse_none in Href as [Ho Hc]. destruct (f (secrets h) (running h)) as [s [cfg|e]]; [|intros [= <- <-]; left; eexists; split_and!; eauto].
  destruct se as [e|]; intros [= <- <-]; [left; eexists; split_and!; eauto|]. right. exists s, cfg. cbn [config_origin]. rewrite Ho. eauto.
Qed.

(** ** What loads *)

Definition loadable (cfg : DaemonConfig) : Prop :=
  Forall valid_id (cfg_connections cfg).*1 ∧ NoDup (cfg_connections cfg).*1 ∧ validate (cfg_purposes cfg) = Ok tt.

Lemma collect_ids_None l : collect_ids l = None ↔ Forall valid_id l.*1.
Proof.
  unfold collect_ids. induction l as [|[k c] l IH]; [by cbn|]. cbn [omap list_omap fst fmap list_fmap]. rewrite Forall_cons, <- IH.
  unfold valid_id. destruct (ConnectionId_new k) as [i|e] eqn:Hk; [|split; [done|by intros [? _]]].
  apply ConnectionId_new_ok in Hk as Hk'. destruct Hk' as [-> _]. split; [done|by intros [_ ?]].
Qed.

Lemma first_duplicate_None seen keys : first_duplicate seen keys = None ↔ NoDup keys ∧ ∀ k, k ∈ keys → k ∉ seen.
Proof.
  clear debug url_text config_path.
  revert seen. induction keys as [|k keys IH]; intros seen; cbn [first_duplicate]; [split; [by split; [apply NoDup_nil_2|set_solver]|done]|].
  destruct (existsb (String.eqb k) seen) eqn:Hs.
  - split; [done|]. intros [_ Hk]. apply existsb_exists in Hs as [x [Hx ->%String.eqb_eq]]. apply list_elem_of_In in Hx. set_solver.
  - assert (Hns : k ∉ seen).
    { intros Hin. apply not_true_iff_false in Hs. apply Hs. apply existsb_exists. exists k. split; [by apply list_elem_of_In|apply String.eqb_refl]. }
    rewrite IH, NoDup_cons. set_solver.
Qed.

(** What is written loads exactly when it is [loadable], and what loads is. *)
Lemma parse_saved cfg : loadable cfg → parse_daemon_config (saved cfg) = Ok (Some cfg).
Proof.
  intros (Hids & Hnd & Hv). cbn [saved parse_daemon_config]. rewrite Hv. destruct (cfg_connections cfg) as [|kv l] eqn:Hl; [done|]. cbn [negb orb].
  unfold validated_connections. rewrite Hl, (proj2 (collect_ids_None _) Hids), (proj2 (first_duplicate_None [] _)); [done|]. split; [done|set_solver].
Qed.

Lemma parse_loadable f cfg : parse_daemon_config f = Ok (Some cfg) → loadable cfg.
Proof.
  destruct f as [| |c explicit]; try done. cbn [parse_daemon_config]. intros Hp.
  destruct (validate (cfg_purposes c)) as [[]|] eqn:Hv; [|by destruct (if _ : bool then _ else _)].
  destruct (cfg_connections c) as [|kv l] eqn:Hl.
  { destruct (if _ : bool then _ else _); [done|]. injection Hp as <-. unfold loadable. rewrite Hl. split_and!; [by apply Forall_nil|by apply NoDup_nil_2|done]. }
  cbn [negb orb] in Hp. unfold validated_connections in Hp. rewrite Hl in Hp. destruct (collect_ids (kv :: l)) eqn:Hc; [done|].
  destruct (first_duplicate [] (kv :: l).*1) eqn:Hd; [done|]. injection Hp as <-. apply collect_ids_None in Hc. apply first_duplicate_None in Hd as [Hd _].
  unfold loadable. rewrite Hl. by split_and!.
Qed.

(** ** What a deleted connection leaves of the purposes *)

(** A purpose that referred to it: the interactive one takes the first connection
    left, or goes; any other inherits. *)
Definition rerouted (remaining : list (string * ConnectionConfig)) (k : PurposeKind) (c : PurposeConfig) : option PurposeConfig :=
  if bool_decide (k = Interactive)
  then match remaining with (new_id, _) :: _ => Some (set_connection_ref c (NamedConnection new_id)) | [] => None end
  else Some (set_connection_ref c PrimaryConnection).

Lemma reroute_lookup r (p : Purposes) k k' :
  reroute r p k !! k' = if bool_decide (k' = k) then p !! k ≫= rerouted r k else p !! k'.
Proof.
  unfold reroute, rerouted. destruct (decide (k' = k)) as [->|Hk']; [rewrite (bool_decide_eq_true_2 (k = k)) by done|rewrite (bool_decide_eq_false_2 (k' = k)) by done].
  - case_bool_decide as Hk; [subst k|]; destruct (p !! _) as [c|] eqn:Hc; cbn [mbind option_bind]; try destruct r as [|[n x] r];
      rewrite ?lookup_insert_eq, ?lookup_delete_eq; done.
  - case_bool_decide as Hk; [subst k|]; destruct (p !! _) as [c|] eqn:Hc; try destruct r as [|[n x] r];
      rewrite ?lookup_insert_ne, ?lookup_delete_ne by done; done.
Qed.

Lemma rerouted_all_lookup r ks (p : Purposes) k :
  NoDup ks → foldl (reroute r) p ks !! k = if bool_decide (k ∈ ks) then p !! k ≫= rerouted r k else p !! k.
Proof.
  clear debug config_path.
  revert p. induction ks as [|j ks IH]; intros p Hnd; cbn [foldl]; [by rewrite bool_decide_eq_false_2 by set_solver|].
  apply NoDup_cons in Hnd as [Hj Hnd]. rewrite IH by done. rewrite !reroute_lookup. destruct (decide (k = j)) as [->|Hne].
  - rewrite (bool_decide_eq_false_2 (j ∈ ks)), bool_decide_eq_true_2, (bool_decide_eq_true_2 (j ∈ j :: ks)) by set_solver. done.
  - rewrite (bool_decide_eq_false_2 (k = j)) by done. by rewrite (bool_decide_ext (k ∈ j :: ks) (k ∈ ks)) by set_solver.
Qed.

Lemma purposes_referencing_elem p id k :
  k ∈ purposes_referencing p id ↔ ∃ c, p !! k = Some c ∧ refers_to id c = true.
Proof.
  unfold purposes_referencing. rewrite list_elem_of_In, filter_In, <- list_elem_of_In. destruct (p !! k) as [c|]; split.
  - intros [_ Hr]. eauto.
  - intros (c' & [= ->] & Hr). split; [apply PurposeKind_all_elem|done].
  - by intros [_ ?].
  - by intros (? & ? & _).
Qed.

Lemma purposes_referencing_NoDup p id : NoDup (purposes_referencing p id).
Proof.
  unfold purposes_referencing. rewrite NoDup_ListNoDup. apply List.NoDup_filter. rewrite <- NoDup_ListNoDup. apply (bool_decide_eq_true_1 _). by vm_compute.
Qed.

Lemma removed_purposes r (p : Purposes) id k :
  foldl (reroute r) p (purposes_referencing p id) !! k = p !! k ≫= λ c, if refers_to id c then rerouted r k c else Some c.
Proof.
  rewrite rerouted_all_lookup by apply purposes_referencing_NoDup. case_bool_decide as Hin; rewrite purposes_referencing_elem in Hin.
  - destruct Hin as (c & -> & Hr). cbn [mbind option_bind]. by rewrite Hr.
  - destruct (p !! k) as [c|] eqn:Hc; [|done]. cbn [mbind option_bind]. destruct (refers_to id c) eqn:Hr; [|done]. destruct Hin. eauto.
Qed.

(** A forced delete of the last connection, the interactive one, while another
    purpose is configured. *)
Definition strands (cfg : DaemonConfig) (op : ConfigOp) : bool :=
  match op with
  | OpDelete _ id true =>
      match im_remove (cfg_connections cfg) id, cfg_purposes cfg !! Interactive with
      | [], Some ia => refers_to id ia && negb (bool_decide (delete Interactive (cfg_purposes cfg) = ∅))
      | _, _ => false
      end
  | _ => false
  end.

Lemma removed_purposes_valid r (p : Purposes) id :
  validate p = Ok tt →
  (∀ ia, r = [] → p !! Interactive = Some ia → refers_to id ia = true → delete Interactive p = ∅) →
  validate (foldl (reroute r) p (purposes_referencing p id)) = Ok tt.
Proof.
  intros [->|(ia & ic & im & Hia & Hc & Hm)]%validated Hlast; [by vm_compute|].
  pose proof (removed_purposes r p id Interactive) as Hl. rewrite Hia in Hl. cbn [mbind option_bind] in Hl.
  destruct (refers_to id ia) eqn:Hr; [|by eapply validate_intro].
  unfold rerouted in Hl. rewrite bool_decide_eq_true_2 in Hl by done. destruct r as [|[n x] r]; [|by eapply validate_intro].
  specialize (Hlast ia eq_refl Hia Hr). unfold validate. rewrite bool_decide_eq_true_2; [done|]. apply map_empty. intros k.
  rewrite removed_purposes. destruct (decide (k = Interactive)) as [->|Hk].
  - rewrite Hia. cbn [mbind option_bind]. rewrite Hr. unfold rerouted. by rewrite bool_decide_eq_true_2.
  - assert (Hn : p !! k = None); [|by rewrite Hn]. rewrite <- (lookup_delete_ne p Interactive k) by done. by rewrite Hlast, lookup_empty.
Qed.

(** ** The configuration keeps loading *)

Lemma loadable_insert cfg id conn :
  loadable cfg → valid_id id → loadable (with_connections cfg (im_insert (cfg_connections cfg) id conn)).
Proof.
  intros (Hids & Hnd & Hv) Hid. split_and!; cbn [with_connections cfg_connections cfg_purposes]; [|by apply im_insert_NoDup|done].
  rewrite im_insert_keys. destruct (im_contains _ _); [done|]. apply Forall_app. split; [done|by apply Forall_singleton].
Qed.

Lemma change_loadable op f s cfg s' cfg' :
  is_change op f → loadable cfg → strands cfg op = false → f s cfg = (s', Ok cfg') → loadable cfg'.
Proof.
  intros Hch Hl Hst. destruct Hch as [e id p conn Hid _ _|e id p Hid _|e id force Hid|e w id c Hid|e found k p n Hp _]; unfold pure_op.
  - unfold insert_new. destruct (im_contains _ _); [done|]. intros [= _ <-]. by apply loadable_insert.
  - unfold replace_connection. destruct (im_get _ _); [|done]. destruct (constrain_api_key_env _ _ _); [|done]. intros [= _ <-]. by apply loadable_insert.
  - unfold remove_connection. destruct (im_contains _ _); [|done]. cbn [negb]. cbv zeta. destruct (_ && negb force) eqn:Hf; [done|]. intros [= _ <-].
    destruct Hl as (Hids & Hnd & Hv). split_and!; cbn [with_purposes with_connections cfg_connections cfg_purposes].
    + eapply Forall_forall. intros k Hk. eapply Forall_forall in Hids; [exact Hids|]. eapply elem_of_sublist; [exact Hk|apply im_remove_sublist].
    + by apply im_remove_NoDup.
    + apply removed_purposes_valid; [done|]. intros ia Hr Hia Href. destruct force.
      * cbn [strands] in Hst. rewrite Hr, Hia, Href in Hst. cbn [andb] in Hst. apply negb_false_iff, bool_decide_eq_true in Hst. done.
      * exfalso. rewrite andb_true_r in Hf. assert (Hin : Interactive ∈ purposes_referencing (cfg_purposes cfg) id) by (apply purposes_referencing_elem; eauto).
        destruct (purposes_referencing _ _); [set_solver|done].
  - unfold put_secret. destruct (im_get _ _); [|done]. destruct (store_connection_secret _ _ _ _) as [s1 [sc|]]; [|done].
    destruct (set_secret _ _); [|done]. intros [= _ <-]. by apply loadable_insert.
  - unfold put_purpose. cbv zeta. destruct (validate _) as [[]|] eqn:Hv; [|done]. intros [= _ <-]. destruct Hl as (Hids & Hnd & _). by split_and!.
Qed.

Lemma reload_cases h : (apply_reload h).1 = h ∨
  ∃ new, parse_daemon_config (file h) = Ok (Some new) ∧
    (apply_reload h).1 = {| running := new; registry := build_registry new; config_origin := FromFile; file := file h; secrets := secrets h |}.
Proof.
  unfold apply_reload. destruct (parse_daemon_config (file h)) as [[new|]|] eqn:Hp; [|by left..]. destruct (_ && _); [by left|]. cbv zeta.
  destruct (_ && _); [by left|]. right. eauto.
Qed.

(** One step of the handle: refused, its file edited, or taken over. *)
Lemma step_cases h op :
  let h' := (perform h op).1 in
  (running h' = running h ∧ registry h' = registry h ∧ config_origin h' = config_origin h ∧ file h' = file h) ∨
  (running h' = running h ∧ registry h' = registry h ∧ config_origin h' = config_origin h ∧ op = OpEdit (file h')) ∨
  (registry h' = build_registry (running h') ∧ config_origin h' = FromFile ∧
     ((op = OpReload ∧ file h' = file h ∧ parse_daemon_config (file h) = Ok (Some (running h'))) ∨
      (is_client op = true ∧ file h' = saved (running h') ∧ config_origin h = FromFile ∧ (∃ c, parse_daemon_config (file h) = Ok c) ∧
         ∃ f, is_change op f ∧ f (secrets h) (running h) = (secrets h', Ok (running h'))))).
Proof.
  cbv zeta. destruct (is_client op) eqn:Hcl.
  - destruct (client_op_cases h op Hcl) as [[e ->]|(se & f & -> & Hf)]; [by left|].
    destruct (mutate_config se f h) as [h' r] eqn:Hm. cbn [fst].
    apply mutate_config_cases in Hm as [(e & _ & Hr & Hg & Ho & Hfile & _)|(s & cfg & _ & Hs & Ho & Hc & ->)]; [by left|].
    right. right. cbn [running registry config_origin file secrets]. split_and!; try done. right. split_and!; eauto.
  - destruct op as [| | | | | |f]; try done; cbn [perform fst].
    + destruct (reload_cases h) as [->|(new & Hp & ->)]; [by left|]. right. right. cbn [running registry config_origin file]. split_and!; try done. left. by split_and!.
    + right. left. by cbn [running registry config_origin file].
Qed.

(** No step of the history strands the other purposes. *)
Fixpoint stranded (h : Handle) (ops : list ConfigOp) : bool :=
  match ops with [] => false | op :: ops' => strands (running h) op || stranded (perform h op).1 ops' end.

(** From a configuration that loads, whatever clients ask for, whatever is
    written to the file by hand and whenever it is reloaded, the daemon runs a
    configuration its own file reader accepts, reading back as itself, with the
    registry built from it; unless the last connection, the interactive one, is
    deleted by force while another purpose is configured. *)
Theorem the_running_configuration_stays_loadable h ops
    (Hl : loadable (running h)) (Hr : registry h = build_registry (running h)) (Hs : stranded h ops = false) :
  let h' := perform_all h ops in
  loadable (running h') ∧ parse_daemon_config (saved (running h')) = Ok (Some (running h')) ∧ registry h' = build_registry (running h').
Proof.
  cbv zeta. enough (Hgoal : loadable (running (perform_all h ops)) ∧ registry (perform_all h ops) = build_registry (running (perform_all h ops))).
  { destruct Hgoal as [? ?]. split_and!; [done|by apply parse_saved|done]. }
  revert h Hl Hr Hs. induction ops as [|op ops IH]; intros h Hl Hr Hs; [done|]. cbn [stranded] in Hs. apply orb_false_iff in Hs as [Hop Hs].
  change (perform_all h (op :: ops)) with (perform_all (perform h op).1 ops).
  destruct (step_cases h op) as [(Hrun & Hreg & _)|[(Hrun & Hreg & _)|(Hreg & _ & [(_ & _ & Hp)|(_ & _ & _ & _ & f & Hf & Hch)])]].
  - apply IH; [by rewrite Hrun|by rewrite Hreg, Hrun|done].
  - apply IH; [by rewrite Hrun|by rewrite Hreg, Hrun|done].
  - apply IH; [by eapply parse_loadable|done|done].
  - apply IH; [by eapply change_loadable|done|done].
Qed.

(** An operation of a client is carried out whole or not at all: where it
    succeeds, the daemon runs what it wrote, with the registry built from it, and
    was running its file; where it is refused, what the daemon runs, its registry
    and its file are as before. *)
Theorem a_change_is_whole_or_nothing h op (Hcl : is_client op = true) :
  match perform h op with
  | (h', Ok _) => file h' = saved (running h') ∧ registry h' = build_registry (running h') ∧ config_origin h' = FromFile ∧ config_origin h = FromFile
  | (h', Err _) => running h' = running h ∧ registry h' = registry h ∧ config_origin h' = config_origin h ∧ file h' = file h
  end.
Proof.
  destruct (client_op_cases h op Hcl) as [[e ->]|(se & f & -> & Hf)]; [done|].
  destruct (mutate_config se f h) as [h' r] eqn:Hm. apply mutate_config_cases in Hm as [(e & -> & ? & ? & ? & ? & _)|(s & cfg & -> & Hs & Ho & Hc & ->)]; done.
Qed.

(** A file the daemon cannot load is never overwritten: until its owner edits
    it, no sequence of operations and reloads changes it or what the daemon
    runs. *)
Theorem a_file_that_does_not_load_is_kept h ops e
    (Hbad : parse_daemon_config (file h) = Err e) (Hown : forallb (λ op, match op with OpEdit _ => false | _ => true end) ops = true) :
  let h' := perform_all h ops in file h' = file h ∧ running h' = running h ∧ registry h' = registry h ∧ config_origin h' = config_origin h.
Proof.
  cbv zeta. revert h Hbad. induction ops as [|op ops IH]; intros h Hbad; [done|]. cbn [forallb] in Hown. apply andb_true_iff in Hown as [Hop Hown].
  change (perform_all h (op :: ops)) with (perform_all (perform h op).1 ops). specialize (IH Hown).
  destruct (step_cases h op) as [(Hrun & Hreg & Ho & Hf)|[(_ & _ & _ & Hed)|(_ & _ & [(_ & _ & Hp)|(_ & _ & _ & [c Hc] & _)])]].
  - specialize (IH (perform h op).1). rewrite Hf, Hrun, Hreg, Ho in IH. by apply IH.
  - by rewrite Hed in Hop.
  - congruence.
  - congruence.
Qed.

(** ** Whose word a connection is taken on *)

(** The configurations the owner of the file wrote: what ran and what was in the
    file at the start, and every edit of the file. *)
Definition file_config (f : ConfigFile) : list DaemonConfig := match f with Holds cfg _ => [cfg] | _ => [] end.

Definition owner_configs (h : Handle) (ops : list ConfigOp) : list DaemonConfig :=
  running h :: file_config (file h) ++ concat (map (λ op, match op with OpEdit f => file_config f | _ => [] end) ops).

Definition owner_wrote (owner : list DaemonConfig) (id : string) (P : ConnectionConfig → Prop) : Prop :=
  ∃ cfg c0, cfg ∈ owner ∧ (id, c0) ∈ cfg_connections cfg ∧ P c0.

(** The configurations that ran, the first and the last included. *)
Fixpoint ran (h : Handle) (ops : list ConfigOp) : list DaemonConfig :=
  running h :: match ops with [] => [] | op :: ops => ran (perform h op).1 ops end.

(** The variable was this connection's while it was another connector's, and that
    connector's own. *)
Definition kept_through_a_switch (past : list DaemonConfig) (id : string) (connector : Connector) (e : string) : Prop :=
  ∃ cfg c0 e0, cfg ∈ past ∧ (id, c0) ∈ cfg_connections cfg ∧ connector_of c0 ≠ connector ∧
    api_key_env c0 = Some e0 ∧ trim e0 = trim e ∧ trim e ∈ own_variables (connector_of c0).

(** Where the key of a connection may be read from. *)
Definition env_vouched (owner past : list DaemonConfig) (id : string) (connector : Connector) (e : string) : Prop :=
  trim e ∈ own_variables connector ∨ owner_wrote owner id (λ c0, ∃ e0, api_key_env c0 = Some e0 ∧ trim e0 = trim e) ∨
  kept_through_a_switch past id connector e.

(** The variable its key is read from, the address its requests go to and the
    place its credential is kept are each allowed to a client, or the owner's for
    this connection. *)
Definition vouched (owner past : list DaemonConfig) (id : string) (conn : ConnectionConfig) : Prop :=
  (∀ e, api_key_env conn = Some e → env_vouched owner past id (connector_of conn) e) ∧
  (∀ u, base_url conn = Some u →
     (∃ url, validate_remote_url u (url_credential conn) = inr url) ∨
     owner_wrote owner id (λ c0, base_url c0 = Some u ∧ connector_of c0 = connector_of conn)) ∧
  (∀ s, secret_of conn = Some s →
     s = connection_secret id ∨ owner_wrote owner id (λ c0, secret_of c0 = Some s ∧ connector_of c0 = connector_of conn)).

Definition all_vouched (owner past : list DaemonConfig) (cfg : DaemonConfig) : Prop := ∀ id conn, (id, conn) ∈ cfg_connections cfg → vouched owner past id conn.

Lemma constrain_base_url_ok conn u :
  constrain_base_url debug url_text conn = Ok tt → base_url conn = Some u → ∃ url, validate_remote_url u (url_credential conn) = inr url.
Proof. unfold constrain_base_url. intros Hc Hu. rewrite Hu in Hc. destruct (validate_remote_url _ _) as [e|url]; [done|eauto]. Qed.

Lemma keep_secret_ok existing conn :
  let c := keep_secret existing conn in
  api_key_env c = api_key_env conn ∧ base_url c = base_url conn ∧ connector_of c = connector_of conn ∧
  (∀ s, secret_of c = Some s → secret_of conn = Some s ∨ (secret_of existing = Some s ∧ connector_of existing = connector_of conn)).
Proof.
  cbv zeta. unfold keep_secret. destruct (String.eqb_spec (connector_type existing) (connector_type conn)) as [Hc|_]; [|split_and!; eauto].
  apply Connector_as_str_inj in Hc. destruct (secret_of existing) as [s|] eqn:Hs; [|split_and!; eauto].
  destruct (set_secret conn (Some s)) as [c|] eqn:Hset; [|split_and!; eauto]. apply set_secret_ok in Hset as (? & ? & ? & Hsec). split_and!; try done.
  intros s' Hs'. right. rewrite <- Hs', Hsec. done.
Qed.

Lemma all_vouched_insert owner past cfg id conn :
  all_vouched owner past cfg → vouched owner past id conn →
  all_vouched owner past (with_connections cfg (im_insert (cfg_connections cfg) id conn)).
Proof. intros Hall Hv id' c' [[= -> ->]|Hin]%im_insert_elem; [done|by apply Hall]. Qed.

Lemma env_vouched_trim owner past id connector e e' : trim e = trim e' → env_vouched owner past id connector e → env_vouched owner past id connector e'.
Proof. intros Ht. unfold env_vouched, kept_through_a_switch. by rewrite Ht. Qed.

(** A variable of the connection under one connector, seen under another. *)
Lemma env_vouched_switch owner past cfg id existing connector e :
  cfg ∈ past → (id, existing) ∈ cfg_connections cfg → api_key_env existing = Some e →
  env_vouched owner past id (connector_of existing) e → env_vouched owner past id connector e.
Proof.
  intros Hcfg Hin He [Hown|[Hown|(cfg0 & c0 & e0 & ? & ? & _ & ? & ? & Hown)]].
  - destruct (decide (connector_of existing = connector)) as [<-|Hne]; [by left|]. right. right. by exists cfg, existing, e.
  - by right; left.
  - destruct (decide (connector_of c0 = connector)) as [<-|Hne]; [by left|]. right. right. by exists cfg0, c0, e0.
Qed.

Lemma updated_vouched owner past cfg id existing conn c1 :
  cfg ∈ past → (id, existing) ∈ cfg_connections cfg →
  vouched owner past id existing → secret_of conn = None → constrain_base_url debug url_text conn = Ok tt →
  constrain_api_key_env debug conn (api_key_env existing) = Ok c1 →
  vouched owner past id (carry_forward_file_only_fields (keep_secret existing c1) existing).
Proof.
  intros Hcfg Hin Hv Hnos Hurl (Hu1 & Hc1 & Hs1 & He1)%constrain_api_key_env_ok.
  destruct (keep_secret_ok existing c1) as (Ha2 & Hu2 & Hc2 & Hs2).
  destruct (carry_forward_ok (keep_secret existing c1) existing) as (Ha3 & Hu3 & Hc3 & Hs3).
  split_and!.
  - intros e. rewrite Ha3, Ha2, Hc3, Hc2. intros He. destruct (He1 e He) as [Ht [Hal|(p & Hp & Hpe)]].
    + left. rewrite Ht. rewrite <- Hc1 in Hal. by eapply allowed_is_own.
    + apply (env_vouched_trim _ _ _ _ p); [congruence|]. eapply env_vouched_switch; [done|done|done|]. destruct Hv as [Hv _]. by apply Hv.
  - intros u. rewrite Hu3, Hu2, Hu1. intros Hu. left. unfold url_credential, carries_credential. rewrite Hc3, Hc2, Hc1. by apply constrain_base_url_ok.
  - intros s. rewrite Hs3, Hc3, Hc2. intros [Hs|[Hs Hc]]%Hs2; [congruence|]. destruct Hv as (_ & _ & Hv). rewrite <- Hc. by apply Hv.
Qed.

Lemma change_vouched owner past op f s cfg s' cfg' :
  is_change op f → cfg ∈ past → all_vouched owner past cfg → f s cfg = (s', Ok cfg') → all_vouched owner past cfg'.
Proof.
  intros Hch Hpast Hall. destruct Hch as [e id p conn _ Henv Hurl|e id p _ Hurl|e id force _|e w id c _|e found k p n _ _]; unfold pure_op.
  - unfold insert_new. destruct (im_contains _ _); [done|]. intros [= _ <-]. apply all_vouched_insert; [done|].
    apply constrain_api_key_env_ok in Henv as (Hu & Hc & Hs & He). split_and!.
    + intros e' He'. destruct (He e' He') as [Ht [Hal|(p' & ? & _)]]; [|done]. left. rewrite Ht. rewrite <- Hc in Hal. by eapply allowed_is_own.
    + intros u Hu'. left. by eapply constrain_base_url_ok.
    + intros sc. rewrite Hs, payload_has_no_secret. done.
  - unfold replace_connection. destruct (im_get _ _) as [existing|] eqn:Hg; [|done]. destruct (constrain_api_key_env _ _ _) as [c1|] eqn:Henv; [|done].
    intros [= _ <-]. apply all_vouched_insert; [done|]. apply im_get_elem in Hg.
    eapply updated_vouched; [exact Hpast|exact Hg|by apply Hall|apply payload_has_no_secret|exact Hurl|exact Henv].
  - unfold remove_connection. destruct (negb _); [done|]. cbv zeta. destruct (_ && _); [done|]. intros [= _ <-] id' c' Hin.
    apply Hall. eapply im_remove_elem. exact Hin.
  - unfold put_secret. destruct (im_get _ _) as [conn|] eqn:Hg; [|done]. apply im_get_elem, Hall in Hg as (Ha & Hu & Hsec).
    destruct (store_connection_secret w id c s) as [s1 [sc|]] eqn:Hst; [|done]. destruct (set_secret conn sc) as [c1|] eqn:Hset; [|done].
    intros [= _ <-]. apply all_vouched_insert; [done|]. apply set_secret_ok in Hset as (Ha1 & Hu1 & Hc1 & Hs1). split_and!.
    + by rewrite Ha1, Hc1.
    + unfold url_credential, carries_credential. by rewrite Hu1, Hc1.
    + intros x Hx. left. rewrite Hs1 in Hx. subst sc. unfold store_connection_secret in Hst. cbv zeta in Hst.
      destruct (String.eqb _ _); [congruence|]. destruct w; [congruence|]. injection Hst. congruence.
  - unfold put_purpose. cbv zeta. destruct (validate _); [|done]. intros [= _ <-]. exact Hall.
Qed.

Lemma owner_wrote_mono o o' id (P : ConnectionConfig → Prop) : o ⊆ o' → owner_wrote o id P → owner_wrote o' id P.
Proof. intros Ho (cfg & c0 & ? & ? & ?). exists cfg, c0. split_and!; auto. Qed.

Lemma owned_vouched owner past cfg : cfg ∈ owner → all_vouched owner past cfg.
Proof.
  intros Ho id conn Hin. split_and!; intros x Hx; right; [left|..]; exists cfg, conn; eauto 6.
Qed.

Lemma parse_holds c ex cfg : parse_daemon_config (Holds c ex) = Ok (Some cfg) → c = cfg.
Proof. cbn [parse_daemon_config]. destruct (if _ : bool then _ else _); [done|]. destruct (validate _); [|done]. by intros [= ->]. Qed.

Lemma all_steps_vouched owner past ops h :
  (∀ op, op ∈ ops → ∀ f, op = OpEdit f → file_config f ⊆ owner) → ran h ops ⊆ past →
  all_vouched owner past (running h) → Forall (all_vouched owner past) (file_config (file h)) → all_vouched owner past (running (perform_all h ops)).
Proof.
  revert h. induction ops as [|op ops IH]; intros h Hops Hran Hrun Hfile; [done|].
  change (perform_all h (op :: ops)) with (perform_all (perform h op).1 ops). cbn [ran] in Hran.
  assert (Hops' : ∀ op, op ∈ ops → ∀ f, op = OpEdit f → file_config f ⊆ owner) by (intros o Ho; apply Hops; by right).
  assert (Hran' : ran (perform h op).1 ops ⊆ past) by (intros x Hx; apply Hran; by right).
  destruct (step_cases h op) as [(Hr & _ & _ & Hf)|[(Hr & _ & _ & Hed)|(_ & _ & [(_ & Hf & Hp)|(_ & Hf & _ & _ & f & Hch & Hres)])]].
  - apply IH; [done|done|by rewrite Hr|by rewrite Hf].
  - apply IH; [done|done|by rewrite Hr|]. apply Forall_forall. intros cfg Hcfg. apply owned_vouched. eapply (Hops op); [left|exact Hed|exact Hcfg].
  - assert (Hnew : all_vouched owner past (running (perform h op).1)).
    { destruct (file h) as [| |c ex]; try done. cbn [file_config] in Hfile. apply Forall_cons in Hfile as [Hfile _]. apply parse_holds in Hp. rewrite <- Hp. exact Hfile. }
    apply IH; [done|done|done|by rewrite Hf].
  - assert (Hnew : all_vouched owner past (running (perform h op).1)) by (eapply change_vouched; [exact Hch|apply Hran; left|exact Hrun|exact Hres]).
    apply IH; [done|done|done|]. rewrite Hf. by apply Forall_singleton.
Qed.

(** C35. Whatever clients ask for, no connection the daemon runs reads its
    key from a variable that is neither its own connector's nor the owner's for
    that connection, unless it read that variable before, while it was another
    connector's whose own variable it is, and kept it through the switch; none
    sends to an address the URL policy refuses and the owner did not set there for
    that connector, and none takes its credential from a place that is neither its
    own nor the owner's for it. So a connection that never changed connectors reads
    its connector's own key or the owner's choice. *)
Theorem a_client_reaches_no_foreign_credential h ops id conn (Hin : (id, conn) ∈ cfg_connections (running (perform_all h ops))) :
  vouched (owner_configs h ops) (ran h ops) id conn ∧
  ((∀ cfg c0, cfg ∈ ran h ops → (id, c0) ∈ cfg_connections cfg → connector_of c0 = connector_of conn) →
   ∀ e, api_key_env conn = Some e →
     trim e ∈ own_variables (connector_of conn) ∨
     owner_wrote (owner_configs h ops) id (λ c0, ∃ e0, api_key_env c0 = Some e0 ∧ trim e0 = trim e)).
Proof.
  assert (Hv : vouched (owner_configs h ops) (ran h ops) id conn).
  { eapply all_steps_vouched; [|done| | |exact Hin].
    - intros op Hop f -> cfg Hcfg. unfold owner_configs. apply elem_of_cons. right. apply elem_of_app. right. apply list_elem_of_In, in_concat.
      exists (file_config f). split; [|by apply list_elem_of_In]. apply in_map_iff. exists (OpEdit f). split; [done|by apply list_elem_of_In].
    - apply owned_vouched. left.
    - apply Forall_forall. intros cfg Hcfg. apply owned_vouched. unfold owner_configs. right. apply elem_of_app. by left. }
  split; [exact Hv|]. intros Hsame e He. destruct Hv as [Henv _].
  destruct (Henv e He) as [?|[?|(cfg & c0 & e0 & Hcfg & Hc0 & Hne & _)]]; [by left|by right|]. destruct Hne. by eapply Hsame.
Qed.

(** ** An update *)

Lemma keep_secret_secret existing conn :
  secret_of conn = None →
  secret_of (keep_secret existing conn) = if bool_decide (connector_of existing = connector_of conn) then secret_of existing else None.
Proof.
  intros Hn. unfold keep_secret. destruct (String.eqb_spec (connector_type existing) (connector_type conn)) as [Hc|Hc].
  - apply Connector_as_str_inj in Hc. rewrite bool_decide_eq_true_2 by done. destruct (secret_of existing) as [s|] eqn:Hs; [|done].
    destruct (set_secret conn (Some s)) as [c|e] eqn:Hset; [by apply set_secret_ok in Hset as (_ & _ & _ & ->)|].
    destruct conn; try done. by destruct existing.
  - rewrite bool_decide_eq_false_2; [done|]. intros Heq. apply Hc. unfold connector_type. by rewrite Heq.
Qed.

(** An update of a connection changes that connection only, in its place in
    the order, and no purpose; it takes the connector and the address of the
    payload, and keeps the stored credential's place exactly when the connector is
    the one it was. *)
Theorem an_update_keeps_the_credential_of_its_connector h h' e id p (Hok : perform h (OpUpdate e id p) = (h', Ok tt)) :
  ∃ existing conn,
    im_get (cfg_connections (running h)) id = Some existing ∧
    (∀ id', im_get (cfg_connections (running h')) id' = if String.eqb id id' then Some conn else im_get (cfg_connections (running h)) id') ∧
    (cfg_connections (running h')).*1 = (cfg_connections (running h)).*1 ∧
    cfg_purposes (running h') = cfg_purposes (running h) ∧ cfg_rest (running h') = cfg_rest (running h) ∧
    connector_of conn = connector_of (payload_to_connection p) ∧ base_url conn = base_url (payload_to_connection p) ∧
    secret_of conn = (if bool_decide (connector_of existing = connector_of conn) then secret_of existing else None).
Proof.
  destruct (client_op_cases h (OpUpdate e id p) eq_refl) as [[e' He]|(se & f & Hp & Hf)]; [congruence|]. rewrite Hok in Hp. symmetry in Hp.
  apply mutate_config_cases in Hp as [(e' & ? & _)|(s & cfg & _ & Hch & _ & _ & ->)]; [done|]. inversion Hf as [|? ? ? Hid Hu| | |]; subst. cbn [running].
  unfold pure_op, replace_connection in Hch. destruct (im_get _ id) as [existing|] eqn:Hg; [|done].
  destruct (constrain_api_key_env _ _ _) as [c1|] eqn:Henv; [|done]. injection Hch as _ <-.
  apply constrain_api_key_env_ok in Henv as (Hu1 & Hc1 & Hs1 & _). destruct (keep_secret_ok existing c1) as (_ & Hu2 & Hc2 & _).
  pose proof (carry_forward_ok (keep_secret existing c1) existing) as (_ & Hu3 & Hc3 & Hs3). rewrite payload_has_no_secret in Hs1.
  exists existing, (carry_forward_file_only_fields (keep_secret existing c1) existing). split_and!; try done; cbn [with_connections cfg_connections].
  - intros id'. apply im_get_insert.
  - rewrite im_insert_keys. unfold im_contains. by rewrite Hg.
  - by rewrite Hc3, Hc2.
  - by rewrite Hu3, Hu2.
  - rewrite Hs3, Hc3, Hc2. by apply keep_secret_secret.
Qed.

(** ** Where the code falls short *)

Lemma a_bad_file_refuses h op e : parse_daemon_config (file h) = Err e → is_client op = true → ∃ e', (perform h op).2 = Err e'.
Proof.
  intros Hbad Hop. destruct (client_op_cases h op Hop) as [[e' He]|(se & f & He & _)]; rewrite He; [by exists e'|].
  unfold mutate_config. destruct (refuse_if_overwrite_would_destroy_the_file h) as [r|] eqn:Hr; [by exists r|].
  apply refuse_none in Hr as [_ [c Hc]]. congruence.
Qed.

(** Where the interactive purpose goes and another stays, what is left does not
    validate. *)
Lemma stranded_purposes_invalid (p : Purposes) id ia :
  p !! Interactive = Some ia → refers_to id ia = true → delete Interactive p ≠ ∅ →
  validate (foldl (reroute []) p (purposes_referencing p id)) = Err MissingInteractive.
Proof.
  intros Hia Href Hrest. set (q := foldl (reroute []) p (purposes_referencing p id)).
  assert (HI : q !! Interactive = None).
  { unfold q. rewrite removed_purposes, Hia. cbn [mbind option_bind]. rewrite Href. unfold rerouted. by rewrite bool_decide_eq_true_2. }
  unfold validate. rewrite HI, bool_decide_eq_false_2; [done|]. intros Hq. apply Hrest. apply map_empty. intros k.
  destruct (decide (k = Interactive)) as [->|Hk]; [apply lookup_delete_eq|]. rewrite lookup_delete_ne by done.
  destruct (p !! k) as [c|] eqn:Hk'; [|done]. exfalso. assert (Hpk : q !! k = None) by (rewrite Hq; apply lookup_empty).
  unfold q in Hpk. rewrite removed_purposes, Hk' in Hpk. cbn [mbind option_bind] in Hpk.
  destruct (refers_to id c); [|done]. unfold rerouted in Hpk. by rewrite bool_decide_eq_false_2 in Hpk.
Qed.

(** A forced delete that strands the other purposes is written, and what it wrote
    does not load: every change after it is refused. *)
Lemma a_stranding_delete_closes_the_file h id :
  loadable (running h) → config_origin h = FromFile → (∃ c, parse_daemon_config (file h) = Ok c) → valid_id id →
  im_contains (cfg_connections (running h)) id = true → strands (running h) (OpDelete None id true) = true →
  let h' := (perform h (OpDelete None id true)).1 in
  (perform h (OpDelete None id true)).2 = Ok tt ∧ parse_daemon_config (file h') = Err (BadPurposes MissingInteractive) ∧
  ∀ op, is_client op = true → ∃ e, (perform h' op).2 = Err e.
Proof.
  intros Hl Ho Hf Hid Hc Hs. cbv zeta. cbn [strands] in Hs.
  destruct (im_remove (cfg_connections (running h)) id) eqn:Hrem; [|done]. destruct (cfg_purposes (running h) !! Interactive) as [ia|] eqn:Hia; [|done].
  apply andb_true_iff in Hs as [Href Hrest]. apply negb_true_iff, bool_decide_eq_false in Hrest.
  set (p := foldl (reroute []) (cfg_purposes (running h)) (purposes_referencing (cfg_purposes (running h)) id)).
  assert (Hv : validate p = Err MissingInteractive) by (by eapply stranded_purposes_invalid).
  assert (Hstep : perform h (OpDelete None id true) =
    (let cfg := with_purposes (with_connections (running h) []) p in
     {| running := cfg; registry := build_registry cfg; config_origin := FromFile; file := saved cfg; secrets := secrets h |}, Ok tt)).
  { cbn [perform]. unfold delete_connection, checked_id. rewrite Hid. unfold mutate_config, pure_op, remove_connection. rewrite (proj2 (refuse_none h)) by eauto.
    rewrite Hc, Hrem. cbn [negb andb]. rewrite andb_false_r. fold p. by rewrite Ho. }
  rewrite Hstep. cbn [fst snd file]. assert (Hbad : ∀ r, parse_daemon_config (saved {| cfg_connections := []; cfg_purposes := p; cfg_rest := r |}) = Err (BadPurposes MissingInteractive)).
  { intros r. cbn [saved parse_daemon_config cfg_connections cfg_purposes negb orb]. by rewrite Hv. }
  split_and!; [done|by apply Hbad|]. intros op Hop. eapply a_bad_file_refuses; [apply Hbad|done].
Qed.

(** A forced delete leaves a purpose half inherited, which a client may not
    write. *)
Lemma a_forced_delete_mixes_inheritance r (p : Purposes) id k m c :
  k ≠ Interactive → p !! k = Some c → refers_to id c = true → model c = NamedModel m →
  ∃ c', foldl (reroute r) p (purposes_referencing p id) !! k = Some c' ∧ inheritance_is_mixed c' = true.
Proof.
  intros Hk Hp Hr Hm. exists (set_connection_ref c PrimaryConnection). split.
  - rewrite removed_purposes, Hp. cbn [mbind option_bind]. rewrite Hr. unfold rerouted. by rewrite bool_decide_eq_false_2.
  - unfold inheritance_is_mixed. cbn [set_connection_ref connection model]. by rewrite Hm.
Qed.

(** A change stored over a file that was edited and not yet taken over discards
    the edit. *)
Lemma an_edit_not_taken_over_is_lost h cfg ex op :
  is_client op = true → (perform (perform h (OpEdit (Holds cfg ex))).1 op).2 = Ok tt →
  ∃ f s, is_change op f ∧ (f (secrets h) (running h)).2 = Ok s ∧ file (perform (perform h (OpEdit (Holds cfg ex))).1 op).1 = saved s.
Proof.
  intros Hop Hok. set (h1 := (perform h (OpEdit (Holds cfg ex))).1) in *. destruct (client_op_cases h1 op Hop) as [[e He]|(se & f & He & Hf)]; rewrite He in Hok |- *; [done|].
  destruct (mutate_config se f h1) as [h2 r] eqn:Hm. apply mutate_config_cases in Hm as [(e & -> & _)|(s & c & -> & Hch & _ & _ & ->)]; [done|].
  exists f, c. cbn [fst file]. split_and!; [done| |done]. change (secrets h) with (secrets h1). change (running h) with (running h1). by rewrite Hch.
Qed.
End config.

(** ** A concrete handle *)

#[local] Program Instance no_urls : UrlParser := {| url_parse := λ _, inl "relative URL without a base" |}.
Next Obligation. done. Qed.

Definition some_config (l : list (string * ConnectionConfig)) (p : Purposes) : @DaemonConfig unit :=
  {| cfg_connections := l; cfg_purposes := p; cfg_rest := tt |}.

Definition some_handle (cfg : @DaemonConfig unit) : @Handle unit (list string) :=
  {| running := cfg; registry := (cfg_connections cfg).*1; config_origin := FromFile; file := saved cfg; secrets := ∅ |}.

Notation toy f := (f (λ s, s) _ (λ _, "refused") "daemon.toml" (λ cfg : @DaemonConfig unit, (cfg_connections cfg).*1)
  (@length string) (λ _ _, false)) (only parsing).

Definition anthropic (env : option string) (s : option SecretConfig) : ConnectionConfig := Anthropic None env s None None None.
Definition only_work : list (string * ConnectionConfig) := [("work", anthropic (Some "MY_KEY") None)].
Definition work_purposes : Purposes := <[Interactive := some_purpose (NamedConnection "work") (NamedModel "big")]> ∅.

(** The credential is stored, and then the connector that has none is told so. *)
Lemma a_refused_credential_is_stored :
  let h := some_handle (some_config [("local", Ollama None None None None None)] ∅) in
  let r := toy perform h (OpSetSecret None None "local" "hunter2") in
  r.2 = Err (Llm "connection ConnectionId(local): ollama connections do not use a stored credential") ∧
  secrets r.1 = {["connection_local" := "hunter2"]}.
Proof. split; [by vm_compute|]. apply (bool_decide_eq_true_1 _). by vm_compute. Qed.

(** A variable the owner set for one connector follows the connection to
    another. *)
Lemma a_key_variable_follows_a_switch :
  let h := some_handle (some_config only_work work_purposes) in
  let r := toy perform h (OpUpdate None "work" (POpenAi None (Some "MY_KEY") None None None)) in
  cfg_connections (running r.1) = [("work", OpenAi None (Some "MY_KEY") None None None None)] ∧ "MY_KEY" ∉ own_variables COpenAi.
Proof.
  split; [by vm_compute|]. apply (bool_decide_eq_true_1 _). by vm_compute.
Qed.

(** So does the variable of one connector's own key: a client that may not name it
    for another connector makes the connection under the first and then switches
    it. *)
Lemma a_connectors_own_key_follows_a_switch :
  let h := some_handle (some_config [] ∅) in
  let named := POpenAi None (Some "ANTHROPIC_API_KEY") None None None in
  (∃ e, (toy perform h (OpCreate None "x" named)).2 = Err e) ∧
  cfg_connections (running (toy perform_all h [OpCreate None "x" (PAnthropic None (Some "ANTHROPIC_API_KEY") None None None); OpUpdate None "x" named]))
    = [("x", OpenAi None (Some "ANTHROPIC_API_KEY") None None None None)].
Proof. split; [eexists; by vm_compute|by vm_compute]. Qed.

Lemma the_running_configuration_stays_loadable_witness :
  parse_daemon_config (saved (running (toy perform_all (some_handle (some_config only_work work_purposes))
    [OpCreate None "home" (POllama None None None None None); OpDelete None "work" true])))
  = Ok (Some (some_config [("home", Ollama None None None None None)] (<[Interactive := some_purpose (NamedConnection "home") (NamedModel "big")]> ∅))).
Proof.
  destruct (toy the_running_configuration_stays_loadable (some_handle (some_config only_work work_purposes))
    [OpCreate None "home" (POllama None None None None None); OpDelete None "work" true]) as (_ & Hp & _).
  - split_and!; [repeat constructor|apply (bool_decide_eq_true_1 _); by vm_compute|by vm_compute].
  - reflexivity.
  - vm_compute. reflexivity.
  - rewrite Hp. vm_compute. reflexivity.
Defined.

Lemma a_change_is_whole_or_nothing_witness :
  file (toy perform (some_handle (some_config only_work work_purposes)) (OpDelete None "work" false)).1 = saved (some_config only_work work_purposes).
Proof.
  pose proof (toy a_change_is_whole_or_nothing (some_handle (some_config only_work work_purposes)) (OpDelete None "work" false) eq_refl) as Hw.
  assert (Hr : match (toy perform (some_handle (some_config only_work work_purposes)) (OpDelete None "work" false)).2 with Ok _ => false | Err _ => true end = true)
    by (vm_compute; reflexivity).
  destruct (perform _ _ _ _ _ _ _ _) as [h' [[]|e]]; [discriminate Hr|]. destruct Hw as (_ & _ & _ & Hf). exact Hf.
Defined.

Lemma a_file_that_does_not_load_is_kept_witness :
  file (toy perform_all {| running := some_config only_work work_purposes; registry := ["work"]; config_origin := FromFile; file := Unparsable; secrets := ∅ |}
    [OpDelete None "work" true; OpReload]) = Unparsable.
Proof.
  apply (toy a_file_that_does_not_load_is_kept {| running := some_config only_work work_purposes; registry := ["work"]; config_origin := FromFile; file := Unparsable; secrets := ∅ |}
    [OpDelete None "work" true; OpReload] NotToml); reflexivity.
Defined.

Definition keyed_ops : list (@ConfigOp unit) :=
  [OpSetSecret None None "work" "sk-1"; OpCreate None "x" (POpenAi None (Some " OPENAI_API_KEY ") None None None)].

Lemma a_client_reaches_no_foreign_credential_witness :
  let h := some_handle (some_config only_work work_purposes) in
  let is_vouched := vouched (owner_configs h keyed_ops) (toy ran h keyed_ops) in
  is_vouched "work" (anthropic (Some "MY_KEY") (Some (connection_secret "work"))) ∧
  is_vouched "x" (OpenAi None (Some "OPENAI_API_KEY") None None None None).
Proof.
  cbv zeta. split.
  - apply (toy a_client_reaches_no_foreign_credential (some_handle (some_config only_work work_purposes)) keyed_ops). vm_compute. constructor.
  - apply (toy a_client_reaches_no_foreign_credential (some_handle (some_config only_work work_purposes)) keyed_ops). vm_compute. constructor. constructor.
Defined.

Lemma an_update_keeps_the_credential_of_its_connector_witness :
  ∃ conn, im_get (cfg_connections (running (toy perform (some_handle (some_config [("work", anthropic None (Some (connection_secret "work")))] work_purposes))
     (OpUpdate None "work" (PAnthropic None None (Some 5%Z) None None))).1)) "work" = Some conn ∧ secret_of conn = Some (connection_secret "work").
Proof.
  destruct (toy an_update_keeps_the_credential_of_its_connector (some_handle (some_config [("work", anthropic None (Some (connection_secret "work")))] work_purposes))
    (toy perform (some_handle (some_config [("work", anthropic None (Some (connection_secret "work")))] work_purposes)) (OpUpdate None "work" (PAnthropic None None (Some 5%Z) None None))).1
    None "work" (PAnthropic None None (Some 5%Z) None None)) as (ex & conn & Hex & Hall & _ & _ & _ & Hc & _ & Hs); [vm_compute; reflexivity|].
  exists conn. rewrite Hall. split; [reflexivity|]. rewrite Hs, Hc. cbv in Hex. injection Hex as <-. reflexivity.
Defined.
