(* ===== verification/TurnRouting.v ===== *)
(** * Which model a turn gets

    Models [RoutingConversationHandler] of [crates/daemon/src/api_surface.rs]: the
    choice between an override, the conversation's stored pick, the voice purpose
    and the interactive one, the resolution of a turn, the personality and the
    tool policy it runs under; [RoutingLlmClient]
    ([crates/daemon/src/routing_llm.rs]) and [FixedReasoningLlmClient]
    ([crates/daemon/src/backend_reasoning.rs]), which carry the choice to the
    connector; and the personality of [crates/protocol/src/lib.rs].

    The clients of a registry, what their providers list and the failures of the
    store are parameters.  The task-locals are arguments: the client of the turn,
    and the environment of [LlmClient]. *)

From S2P Require Import Prelude DisplayLine TaskStore Messages Context ToolRouting ToolProvenance ToolDispatch TurnLoop ErrorClassify LlmClient UrlPolicy Connections Purposes ConfigService.

#[local] Open Scope nat_scope.
#[local] Set Default Proof Using "Type".

(** ** Personality *)

Inductive PersonalityLevel := Never | Rarely | Sometimes | Often | Always.

#[export] Instance PersonalityLevel_eq_dec : EqDecision PersonalityLevel.
Proof. solve_decision. Defined.

Definition as_ordinal (l : PersonalityLevel) : Z :=
  match l with Never => 0 | Rarely => 1 | Sometimes => 2 | Often => 3 | Always => 4 end.

Definition from_ordinal (n : Z) : option PersonalityLevel :=
  if (n =? 0)%Z then Some Never
  else if (n =? 1)%Z then Some Rarely
  else if (n =? 2)%Z then Some Sometimes
  else if (n =? 3)%Z then Some Often
  else if (n =? 4)%Z then Some Always
  else None.

Lemma ordinal_round_trip n l : from_ordinal n = Some l ↔ as_ordinal l = n.
Proof.
  unfold from_ordinal. split; [|intros <-; by destruct l].
  repeat (match goal with |- context [Z.eqb ?a ?b] => destruct (Z.eqb_spec a b) as [->|] end; [by intros [= <-]|]). done.
Qed.

Record Personality := {
  professionalism : PersonalityLevel;
  warmth : PersonalityLevel;
  directness : PersonalityLevel;
  enthusiasm : PersonalityLevel;
  humor : PersonalityLevel;
  sarcasm : PersonalityLevel;
  pretentiousness : PersonalityLevel
}.

Definition Personality_default : Personality :=
  {| professionalism := Always; warmth := Often; directness := Often; enthusiasm := Sometimes;
     humor := Sometimes; sarcasm := Rarely; pretentiousness := Rarely |}.

Record PersonalityOverride := {
  o_professionalism : option PersonalityLevel;
  o_warmth : option PersonalityLevel;
  o_directness : option PersonalityLevel;
  o_enthusiasm : option PersonalityLevel;
  o_humor : option PersonalityLevel;
  o_sarcasm : option PersonalityLevel;
  o_pretentiousness : option PersonalityLevel
}.

#[export] Instance PersonalityOverride_eq_dec : EqDecision PersonalityOverride.
Proof. solve_decision. Defined.

Definition PersonalityOverride_default : PersonalityOverride :=
  {| o_professionalism := None; o_warmth := None; o_directness := None; o_enthusiasm := None; o_humor := None; o_sarcasm := None; o_pretentiousness := None |}.

Definition resolve_override (o : PersonalityOverride) (global : Personality) : Personality :=
  {| professionalism := default (professionalism global) (o_professionalism o);
     warmth := default (warmth global) (o_warmth o);
     directness := default (directness global) (o_directness o);
     enthusiasm := default (enthusiasm global) (o_enthusiasm o);
     humor := default (humor global) (o_humor o);
     sarcasm := default (sarcasm global) (o_sarcasm o);
     pretentiousness := default (pretentiousness global) (o_pretentiousness o) |}.

Definition override_is_empty (o : PersonalityOverride) : bool := bool_decide (o = PersonalityOverride_default).

Lemma empty_override_is_no_override o global : override_is_empty o = true → resolve_override o global = global.
Proof. unfold override_is_empty. rewrite bool_decide_eq_true. intros ->. by destruct global. Qed.

(** ** Effort *)

Definition map_anthropic_thinking_budget (e : Effort) : Z := match e with EffortLow => 0 | EffortMedium => 8000 | EffortHigh => 24000 end.
Definition map_gemini_thinking_budget (e : Effort) : Z := match e with EffortLow => 2048 | EffortMedium => 8192 | EffortHigh => 16384 end.
Definition map_effort_to_reasoning_level (e : Effort) : ReasoningLevel :=
  match e with EffortLow => ReasoningLow | EffortMedium => ReasoningMedium | EffortHigh => ReasoningHigh end.
Definition map_openai_reasoning_effort (e : Effort) : string := as_openai_effort (map_effort_to_reasoning_level e).

Definition with_thinking_budget (budget : Z) : ReasoningConfig := {| thinking_budget_tokens := Some budget; reasoning_effort := None |}.
Definition with_reasoning_effort (level : ReasoningLevel) : ReasoningConfig := {| thinking_budget_tokens := None; reasoning_effort := Some level |}.

Definition map_effort_to_reasoning_config (connector_type : string) (effort : option Effort) : ReasoningConfig :=
  match effort with
  | None => ReasoningConfig_default
  | Some effort =>
      if String.eqb connector_type "anthropic" || String.eqb connector_type "bedrock" then
        let budget := map_anthropic_thinking_budget effort in
        if (budget =? 0)%Z then ReasoningConfig_default else with_thinking_budget budget
      else if String.eqb connector_type "openai" || String.eqb connector_type "openrouter" || String.eqb connector_type "azure" then
        with_reasoning_effort (map_effort_to_reasoning_level effort)
      else if String.eqb connector_type "google" then with_thinking_budget (map_gemini_thinking_budget effort)
      else ReasoningConfig_default
  end.

(** A connector gets a thinking budget or an effort, never both. *)
Lemma one_reasoning_knob connector effort :
  let r := map_effort_to_reasoning_config connector effort in thinking_budget_tokens r = None ∨ reasoning_effort r = None.
Proof.
  cbv zeta. unfold map_effort_to_reasoning_config. destruct effort as [e|]; [|by left]. destruct (_ || _); [destruct (_ =? _)%Z; by right|].
  destruct (_ || _); [by left|]. destruct (String.eqb _ _); by right.
Qed.

(** ** Selections *)

Record ConversationModelSelection := { sel_connection : string; sel_model : string; sel_effort : option Effort }.

(** An override of one prompt has the same fields. *)
Notation PromptSelectionOverride := ConversationModelSelection.

Inductive DispatchWarning := DanglingModelSelection (previous fallback_to : ConversationModelSelection).

(** What the store keeps of a conversation. *)
Record SelectionStore := {
  selections : gmap string ConversationModelSelection;
  conversation_tags : gmap string (list string);
  personalities : gmap string PersonalityOverride;
  tool_gates_disabled : gmap string bool
}.

Definition set_selection (st : SelectionStore) (conv : string) (sel : option ConversationModelSelection) : SelectionStore :=
  {| selections := match sel with Some s => <[conv := s]> (selections st) | None => delete conv (selections st) end;
     conversation_tags := conversation_tags st; personalities := personalities st; tool_gates_disabled := tool_gates_disabled st |}.

Definition set_personality (st : SelectionStore) (conv : string) (o : option PersonalityOverride) : SelectionStore :=
  {| selections := selections st; conversation_tags := conversation_tags st;
     personalities := match o with Some o => <[conv := o]> (personalities st) | None => delete conv (personalities st) end;
     tool_gates_disabled := tool_gates_disabled st |}.

Definition set_conversation_personality (st : SelectionStore) (conv : string) (o : PersonalityOverride) : SelectionStore :=
  set_personality st conv (if override_is_empty o then None else Some o).

Definition set_tool_gate_disabled (st : SelectionStore) (conv : string) (disabled : bool) : SelectionStore :=
  {| selections := selections st; conversation_tags := conversation_tags st; personalities := personalities st;
     tool_gates_disabled := <[conv := disabled]> (tool_gates_disabled st) |}.

(** Which of a turn's reads and writes of the store fail, and how. *)
Record StoreFaults := {
  fail_get_selection : option CoreError;
  fail_set_selection : option CoreError;
  fail_get_tags : option CoreError;
  fail_get_personality : option CoreError;
  fail_get_gate : option CoreError;
  fail_lookup_window : option CoreError
}.

Definition no_faults : StoreFaults :=
  {| fail_get_selection := None; fail_set_selection := None; fail_get_tags := None; fail_get_personality := None; fail_get_gate := None; fail_lookup_window := None |}.

Definition connections_error_text (debug : string → string) (e : ConnectionsError) : string :=
  match e with
  | NoConnections => "`connections` must contain at least one entry"
  | DuplicateId id => "duplicate connection id " +:+ debug id
  | InvalidId e => "invalid connection id: " +:+ id_error_text debug e
  end.

Definition with_model_override (m : string) (e : Env) : Env :=
  {| classification_in_progress := classification_in_progress e; model_override := Some m; context_budget := context_budget e |}.

Definition with_context_budget (b : ContextBudget) (e : Env) : Env :=
  {| classification_in_progress := classification_in_progress e; model_override := model_override e; context_budget := Some b |}.

(** [estimate_tokens] where a client does not define its own. *)
Definition estimate_by_characters (text : string) : Z := (Z.of_nat (chars_count text) + 3) / 4.

Section routing.
Context {Rest Registry W : Type} (debug : string → string).

Notation Config := (@DaemonConfig Rest).
Notation DaemonHandle := (@Handle Rest Registry).

(** [ConnectionRegistry::get], [status_of] and the models a connection lists. *)
Context (client_of : Registry → string → option (LlmClient W)) (type_of : Registry → string → option string).
Context (list_models : Registry → string → result (list string) CoreError).

Definition client_for (h : DaemonHandle) (id : string) : option (LlmClient W) := client_of (registry h) id.
Definition connector_type_for (h : DaemonHandle) (id : string) : option string := type_of (registry h) id.

Definition connection_lists_model (h : DaemonHandle) (id model : string) : result bool CoreError :=
  match client_for h id with
  | None => Ok false
  | Some _ => match list_models (registry h) id with Err e => Err e | Ok models => Ok (existsb (String.eqb model) models) end
  end.

(** ** Carrying the choice to a connector *)

Inductive FallbackMode :=
| PerTurn (client : LlmClient W)
| DynamicPurpose (handle : DaemonHandle) (purpose : PurposeKind)
| Pinned (client : LlmClient W) (model : string).

Definition captured_client (m : FallbackMode) : option (LlmClient W) :=
  match m with PerTurn c => Some c | Pinned c _ => Some c | DynamicPurpose _ _ => None end.

(** [active] is the client the turn installed, if it did. *)
Definition resolve_per_turn (active : option (LlmClient W)) (fallback : LlmClient W) : LlmClient W := default fallback active.

Definition dispatch_dynamic (h : DaemonHandle) (purpose : PurposeKind) : result (LlmClient W * string * ReasoningConfig) CoreError :=
  let key := debug (kind_as_key purpose) in
  match validated_connections (running h) with
  | Err e => Err (Llm ("purpose " +:+ key +:+ ": [connections] failed validation: " +:+ connections_error_text debug e))
  | Ok connections =>
      match resolve_purpose connections purpose (cfg_purposes (running h)) with
      | Err e => Err (Llm ("purpose " +:+ key +:+ " resolution failed: " +:+ purpose_error_text debug e))
      | Ok resolved =>
          match im_get connections (connection_id resolved) with
          | None => Err (Llm ("purpose " +:+ key +:+ " resolved connection " +:+ debug_id debug (connection_id resolved)
                              +:+ " is missing from [connections] (post-resolution invariant violated)"))
          | Some conn =>
              match client_for h (connection_id resolved) with
              | None => Err (Llm ("purpose " +:+ key +:+ " references connection " +:+ debug_id debug (connection_id resolved)
                                  +:+ " which is not present in the registry"))
              | Some client =>
                  Ok (client, model_id resolved, map_effort_to_reasoning_config (connector_type conn) (resolved_effort resolved))
              end
          end
      end
  end.

Definition RoutingLlmClient (mode : FallbackMode) (active : option (LlmClient W)) : LlmClient W :=
  {| get_default_model := match mode with Pinned _ model => Some model | _ => captured_client mode ≫= get_default_model end;
     get_default_base_url := captured_client mode ≫= get_default_base_url;
     client_max_context_tokens := λ e,
       match mode with
       | PerTurn fallback => client_max_context_tokens (resolve_per_turn active fallback) e
       | Pinned client _ => client_max_context_tokens client e
       | DynamicPurpose _ _ => None
       end;
     estimate_tokens := estimate_by_characters;
     stream_completion := λ e ms tools r w,
       match mode with
       | PerTurn fallback => stream_completion (resolve_per_turn active fallback) e ms tools r w
       | Pinned client model => stream_completion client (with_model_override model e) ms tools r w
       | DynamicPurpose h purpose =>
           match dispatch_dynamic h purpose with
           | Err err => Ret (w, Err err)
           | Ok (client, model, resolved_reasoning) => stream_completion client (with_model_override model e) ms tools resolved_reasoning w
           end
       end;
     hosted_tool_search :=
       match mode with
       | PerTurn fallback =>
           match hosted_tool_search (resolve_per_turn active fallback) with
           | Some _ => Some (λ e ms core_tools namespaces r w, dispatch_namespaced (resolve_per_turn active fallback) e ms core_tools namespaces r w)
           | None => None
           end
       | Pinned client model =>
           match hosted_tool_search client with
           | Some _ => Some (λ e ms core_tools namespaces r w, dispatch_namespaced client (with_model_override model e) ms core_tools namespaces r w)
           | None => None
           end
       | DynamicPurpose _ _ => None
       end |}.

Definition FixedReasoningLlmClient (inner : LlmClient W) (reasoning : ReasoningConfig) : LlmClient W :=
  let effective r := if reasoning_is_empty reasoning then r else reasoning in
  {| get_default_model := get_default_model inner;
     get_default_base_url := get_default_base_url inner;
     client_max_context_tokens := client_max_context_tokens inner;
     estimate_tokens := estimate_by_characters;
     stream_completion := λ e ms tools r, stream_completion inner e ms tools (effective r);
     hosted_tool_search :=
       match hosted_tool_search inner with
       | Some _ => Some (λ e ms core_tools namespaces r, dispatch_namespaced inner e ms core_tools namespaces (effective r))
       | None => None
       end |}.

(** ** The selection of a turn *)

Definition purpose_selection (h : DaemonHandle) (k : PurposeKind) : option ConversationModelSelection :=
  match cfg_purposes (running h) !! k with
  | None => None
  | Some p =>
      match connection p, model p with
      | NamedConnection c, NamedModel m => Some {| sel_connection := c; sel_model := m; sel_effort := effort p |}
      | _, _ => None
      end
  end.

Definition interactive_selection (h : DaemonHandle) : option ConversationModelSelection := purpose_selection h Interactive.
Definition voice_selection (h : DaemonHandle) : option ConversationModelSelection := purpose_selection h Voice.

Definition conversation_is_voice (f : StoreFaults) (st : SelectionStore) (conv : string) : result bool CoreError :=
  match fail_get_tags f with
  | Some e => Err e
  | None => Ok (existsb (String.eqb "voice") (default [] (conversation_tags st !! conv)))
  end.

Definition selection_is_live (h : DaemonHandle) (sel : ConversationModelSelection) : result bool CoreError :=
  match ConnectionId_new (sel_connection sel) with Err _ => Ok false | Ok id => connection_lists_model h id (sel_model sel) end.

(** The pick of the user, of the conversation or of the voice purpose, with the
    store after it and the warnings of the turn. *)
Definition user_driven_selection (f : StoreFaults) (h : DaemonHandle) (conv : string) (override : option PromptSelectionOverride) (st : SelectionStore) :
    SelectionStore * result (option ConversationModelSelection * list DispatchWarning) CoreError :=
  match override with
  | Some o =>
      match ConnectionId_new (sel_connection o) with
      | Err e => (st, Err (Llm ("invalid connection id in override: " +:+ id_error_text debug e)))
      | Ok id =>
          match connection_lists_model h id (sel_model o) with
          | Err e => (st, Err e)
          | Ok false => (st, Err (Llm ("override target " +:+ sel_connection o +:+ "/" +:+ sel_model o +:+ " is not a live (connection, model) pair")))
          | Ok true =>
              match fail_set_selection f with
              | Some e => (st, Err e)
              | None => (set_selection st conv (Some o), Ok (Some o, []))
              end
          end
      end
  | None =>
      match fail_get_selection f with
      | Some e => (st, Err e)
      | None =>
          match selections st !! conv with
          | Some stored =>
              match selection_is_live h stored with
              | Err e => (st, Err e)
              | Ok true => (st, Ok (Some stored, []))
              | Ok false =>
                  match fail_set_selection f with
                  | Some e => (st, Err e)
                  | None =>
                      (set_selection st conv None,
                       Ok (None, match interactive_selection h with Some fb => [DanglingModelSelection stored fb] | None => [] end))
                  end
              end
          | None =>
              match voice_selection h with
              | None => (st, Ok (None, []))
              | Some voice_sel =>
                  match conversation_is_voice f st conv with
                  | Err e => (st, Err e)
                  | Ok true => (st, Ok (Some voice_sel, []))
                  | Ok false => (st, Ok (None, []))
                  end
              end
          end
      end
  end.

(** ** The resolution of a turn *)

Record ResolvedTurn := {
  active_client : option (LlmClient W);
  turn_model_override : option string;
  turn_reasoning : ReasoningConfig;
  turn_budget : ContextBudget;
  chosen : option (string * string);
  turn_connector : option string
}.

Definition purpose_max_context_override (cfg : Config) (k : PurposeKind) : option Z := cfg_purposes cfg !! k ≫= purpose_max_context_tokens.

(** [windows] are the learned windows, where the daemon has a store of them; [e]
    is the environment the turn is resolved in. *)
Definition resolve_turn (f : StoreFaults) (windows : option (string → string → option LearnedWindow)) (e : Env) (h : DaemonHandle)
    (user_driven : option ConversationModelSelection) (effective : option ConversationModelSelection) : result ResolvedTurn CoreError :=
  match
    match effective with
    | None => Ok (None, None, ReasoningConfig_default, None, None)
    | Some sel =>
        match ConnectionId_new (sel_connection sel) with
        | Err err => Err (Llm ("resolved selection has malformed connection id " +:+ debug (sel_connection sel) +:+ ": " +:+ id_error_text debug err))
        | Ok id =>
            let connector_type := default EmptyString (connector_type_for h id) in
            let reasoning := map_effort_to_reasoning_config connector_type (sel_effort sel) in
            match client_for h id with
            | Some client => Ok (Some client, Some (sel_model sel), reasoning, Some (sel_connection sel, sel_model sel), Some connector_type)
            | None =>
                if bool_decide (is_Some user_driven)
                then Err (Llm ("resolved connection " +:+ sel_connection sel +:+ " is not live; requested model " +:+ sel_model sel +:+ " cannot be dispatched"))
                else Ok (None, None, reasoning, None, None)
            end
        end
    end
  with
  | Err err => Err err
  | Ok (active, model, reasoning, picked, connector) =>
      let budget := resolve_context_budget (purpose_max_context_override (running h) Interactive) (active ≫= λ c, client_max_context_tokens c e) in
      let budget :=
        match windows, effective with
        | Some lookup_window, Some sel =>
            let connector := match ConnectionId_new (sel_connection sel) with Ok id => default EmptyString (connector_type_for h id) | Err _ => EmptyString end in
            match fail_lookup_window f with
            | Some _ => budget
            | None => apply_learned_cap budget (lookup_window connector (sel_model sel))
            end
        | _, _ => budget
        end in
      Ok {| active_client := active; turn_model_override := model; turn_reasoning := reasoning; turn_budget := budget;
            chosen := picked; turn_connector := connector |}
  end.

(** ** A send *)

Definition resolve_personality (f : StoreFaults) (global : Personality) (st : SelectionStore) (conv : string) : Personality :=
  match fail_get_personality f with
  | Some _ => global
  | None => match personalities st !! conv with Some o => resolve_override o global | None => global end
  end.

(** [setting] is the configured level as it is written. *)
Definition configured_tool_policy (setting : string) : ToolPolicy := default ToolPolicy_default (policy_parse setting).

Definition resolve_tool_policy (f : StoreFaults) (setting : string) (st : SelectionStore) (conv : string) : ToolPolicy :=
  let configured := configured_tool_policy setting in
  match fail_get_gate f with
  | Some _ => configured
  | None => if default false (tool_gates_disabled st !! conv) then Lax else configured
  end.

Record TurnRoute := { route_connection : option string; route_provider : option string; route_model : option string }.

(** The task-locals a turn runs under. *)
Record TurnScope := {
  scope_refinement : string;
  scope_personality : Personality;
  scope_policy : ToolPolicy;
  scope_route : TurnRoute;
  scope_reasoning : ReasoningConfig;
  scope_budget : ContextBudget;
  scope_model : option string;
  scope_client : option (LlmClient W)
}.

Record PromptDispatchOutcome := { response : string; warnings : list DispatchWarning }.

(** What the settings and the process fix for every turn. *)
Record TurnSettings := {
  personality_setting : Personality;
  tool_policy_setting : string;
  primary_route : option (string * string);
  learned_windows : option (string → string → option LearnedWindow)
}.

Definition turn_route (s : TurnSettings) (t : ResolvedTurn) : TurnRoute :=
  match chosen t with
  | Some (c, m) => {| route_connection := Some c; route_provider := turn_connector t; route_model := Some m |}
  | None => {| route_connection := None; route_provider := fst <$> primary_route s; route_model := snd <$> primary_route s |}
  end.

Definition turn_scope (f : StoreFaults) (s : TurnSettings) (st : SelectionStore) (conv refinement : string) (t : ResolvedTurn) : TurnScope :=
  {| scope_refinement := refinement;
     scope_personality := resolve_personality f (personality_setting s) st conv;
     scope_policy := resolve_tool_policy f (tool_policy_setting s) st conv;
     scope_route := turn_route s t;
     scope_reasoning := turn_reasoning t;
     scope_budget := turn_budget t;
     scope_model := match active_client t with Some _ => turn_model_override t | None => None end;
     scope_client := active_client t |}.

(** The turn itself is [inner], run under its task-locals. *)
Definition send_prompt_with_override {I : Type} (inner : TurnScope → I → I * result string CoreError)
    (f : StoreFaults) (s : TurnSettings) (e : Env) (h : DaemonHandle) (conv : string) (override : option PromptSelectionOverride) (refinement : string)
    (st : SelectionStore) (i : I) : SelectionStore * I * result PromptDispatchOutcome CoreError :=
  match user_driven_selection f h conv override st with
  | (st, Err err) => (st, i, Err err)
  | (st, Ok (user_driven, warned)) =>
      let effective := match user_driven with Some sel => Some sel | None => interactive_selection h end in
      match resolve_turn f (learned_windows s) e h user_driven effective with
      | Err err => (st, i, Err err)
      | Ok t =>
          let '(i, r) := inner (turn_scope f s st conv refinement t) i in
          (st, i, match r with Ok text => Ok {| response := text; warnings := warned |} | Err err => Err err end)
      end
  end.

Definition send_prompt {I : Type} (inner : TurnScope → I → I * result string CoreError)
    (f : StoreFaults) (s : TurnSettings) (e : Env) (h : DaemonHandle) (conv : string) (st : SelectionStore) (i : I) :
    SelectionStore * I * result string CoreError :=
  let '(st, i, r) := send_prompt_with_override inner f s e h conv None EmptyString st i in
  (st, i, match r with Ok o => Ok (response o) | Err err => Err err end).

(** The environment of a completion in the turn, and the stack of clients the
    conversation service holds. *)
Definition scope_env (sc : TurnScope) (e : Env) : Env :=
  let e := with_context_budget (scope_budget sc) e in
  match scope_model sc with Some m => with_model_override m e | None => e end.

Context (sleep : Z → W → W) (delays : nat → list Z).

Definition turn_stack (primary : LlmClient W) (sc : TurnScope) : LlmClient W :=
  RetryingLlmClient sleep delays (FixedReasoningLlmClient (RoutingLlmClient (PerTurn primary) (scope_client sc)) ReasoningConfig_default) 3.

(** The completion a round of the turn asks for: through the provider's own tool
    search where the client of the turn has one, a namespace is offered and the
    turn has not given it up, plainly otherwise, and with the reasoning of the
    turn. The closing of a turn whose rounds are spent offers no tool at all. *)
Definition round_completion (primary : LlmClient W) (sc : TurnScope) (hosted_search_demoted : bool) (e : Env) (ms : list Message) (tool_defs : list Def)
    (offered_ns : list Namespace) : W → Completion W :=
  let llm := turn_stack primary sc in
  let reasoning := scope_reasoning sc in
  if bool_decide (is_Some (hosted_tool_search llm)) && bool_decide (offered_ns ≠ []) && negb hosted_search_demoted
  then dispatch_namespaced llm (scope_env sc e) ms tool_defs offered_ns reasoning
  else stream_completion llm (scope_env sc e) ms tool_defs reasoning.

Definition closing_completion (primary : LlmClient W) (sc : TurnScope) (e : Env) (wind_down_messages : list Message) : W → Completion W :=
  stream_completion (turn_stack primary sc) (scope_env sc e) wind_down_messages [] (scope_reasoning sc).

(** ** What a resolution says *)

Lemma resolve_turn_ok f windows e h ud eff t :
  resolve_turn f windows e h ud eff = Ok t →
  match active_client t with
  | Some c =>
      ∃ sel, eff = Some sel ∧ valid_id (sel_connection sel) ∧ client_for h (sel_connection sel) = Some c ∧
        turn_model_override t = Some (sel_model sel) ∧ chosen t = Some (sel_connection sel, sel_model sel) ∧
        turn_connector t = Some (default EmptyString (connector_type_for h (sel_connection sel))) ∧
        turn_reasoning t = map_effort_to_reasoning_config (default EmptyString (connector_type_for h (sel_connection sel))) (sel_effort sel)
  | None => turn_model_override t = None ∧ chosen t = None ∧ turn_connector t = None ∧
      match eff with Some sel => client_for h (sel_connection sel) = None ∧ ud = None | None => True end
  end.
Proof.
  unfold resolve_turn. destruct eff as [sel|]; [|intros [= <-]; done].
  destruct (ConnectionId_new (sel_connection sel)) as [id|] eqn:Hid; [|done]. apply ConnectionId_new_ok in Hid as [-> Hv]. cbv zeta.
  destruct (client_for h (sel_connection sel)) as [c|] eqn:Hc.
  - intros [= <-]. cbn [active_client]. exists sel. cbn [turn_model_override chosen turn_connector turn_reasoning]. by split_and!.
  - case_bool_decide as Hud; [done|]. intros [= <-]. cbn [active_client turn_model_override chosen turn_connector]. split_and!; try done.
    destruct ud as [u|]; [|done]. destruct Hud. by eexists.
Qed.

(** What the stack makes of a completion is a retried completion of the client
    the turn resolved, on the plain and on the namespaced path. *)
Lemma turn_stack_hosts primary sc :
  is_Some (hosted_tool_search (turn_stack primary sc)) ↔ is_Some (hosted_tool_search (resolve_per_turn (scope_client sc) primary)).
Proof.
  unfold turn_stack. cbn [RetryingLlmClient FixedReasoningLlmClient RoutingLlmClient hosted_tool_search].
  destruct (hosted_tool_search (resolve_per_turn (scope_client sc) primary)); split; intros [? [=]]; by eexists.
Qed.

Lemma turn_stack_completion primary sc e ms tools r :
  stream_completion (turn_stack primary sc) e ms tools r
  = retry sleep (delays 3) (stream_completion (resolve_per_turn (scope_client sc) primary) e ms tools r).
Proof. done. Qed.

Lemma turn_stack_namespaced primary sc e ms tools nss r :
  is_Some (hosted_tool_search (resolve_per_turn (scope_client sc) primary)) →
  dispatch_namespaced (turn_stack primary sc) e ms tools nss r
  = retry sleep (delays 3) (dispatch_namespaced (resolve_per_turn (scope_client sc) primary) e ms tools nss r).
Proof.
  intros [hosted Hh]. unfold dispatch_namespaced at 1, turn_stack. cbn [RetryingLlmClient hosted_tool_search FixedReasoningLlmClient RoutingLlmClient].
  rewrite Hh. unfold dispatch_namespaced at 1. cbn [FixedReasoningLlmClient hosted_tool_search RoutingLlmClient]. rewrite Hh.
  unfold dispatch_namespaced at 1. cbn [RoutingLlmClient hosted_tool_search]. by rewrite Hh.
Qed.

(** What a round asks of one client with one model and one reasoning. *)
Definition asked_of (c : LlmClient W) (demoted : bool) (e : Env) (ms : list Message) (tools : list Def) (nss : list Namespace) (r : ReasoningConfig) :
    W → Completion W :=
  if bool_decide (is_Some (hosted_tool_search c)) && bool_decide (nss ≠ []) && negb demoted
  then dispatch_namespaced c e ms tools nss r else stream_completion c e ms tools r.

Lemma round_is_retried primary sc demoted e ms tools nss :
  round_completion primary sc demoted e ms tools nss
  = retry sleep (delays 3) (asked_of (resolve_per_turn (scope_client sc) primary) demoted (scope_env sc e) ms tools nss (scope_reasoning sc)).
Proof.
  unfold round_completion, asked_of. cbv zeta.
  rewrite (bool_decide_ext _ _ (turn_stack_hosts primary sc)).
  case_bool_decide as Hh; cbn [andb]; [|done]. destruct (bool_decide (nss ≠ []) && negb demoted); [|done]. by apply turn_stack_namespaced.
Qed.

Lemma closing_is_retried primary sc e ms :
  closing_completion primary sc e ms
  = retry sleep (delays 3) (stream_completion (resolve_per_turn (scope_client sc) primary) (scope_env sc e) ms [] (scope_reasoning sc)).
Proof. done. Qed.

Lemma retried_thrice (Hdelays : ∀ n, length (delays n) = n) attempt w :
  ∃ ds w', length ds ≤ 3 ∧ silently sleep attempt ds w w' ∧ retry sleep (delays 3) attempt w ≡ attempt w'.
Proof.
  destruct (retry_spec sleep (delays 3) attempt w) as (ds1 & ds2 & w' & Hds & Hs & Heq & _). exists ds1, w'. split_and!; [|done|done].
  pose proof (Hdelays 3) as Hl. rewrite Hds, app_length in Hl. lia.
Qed.

(** C31. Where a turn resolved a live connection, the client, the
    model, the route it reports and the reasoning are those of one selection. Every
    completion a round of the turn asks for, and the closing of a turn whose rounds
    are spent, is behind the decorators one completion of that connection's client
    with that model pinned and that reasoning, after at most three attempts that
    were turned away before a chunk went through; it is the namespaced completion
    of that client exactly where that client hosts a tool search, a namespace is
    offered and the turn has not given the search up. *)
Theorem a_turn_runs_on_what_it_resolved (Hdelays : ∀ n, length (delays n) = n) f s e h ud eff t c st conv refinement
    (Ht : resolve_turn f (learned_windows s) e h ud eff = Ok t) (Hc : active_client t = Some c) :
  ∃ sel, eff = Some sel ∧ client_for h (sel_connection sel) = Some c ∧
    let sc := turn_scope f s st conv refinement t in
    let connector := default EmptyString (connector_type_for h (sel_connection sel)) in
    let reasoning := map_effort_to_reasoning_config connector (sel_effort sel) in
    scope_route sc = {| route_connection := Some (sel_connection sel); route_provider := Some connector; route_model := Some (sel_model sel) |} ∧
    scope_reasoning sc = reasoning ∧
    ∀ primary e' ms w,
      let pinned := with_model_override (sel_model sel) (with_context_budget (turn_budget t) e') in
      (∀ demoted tools nss,
         let attempt := if bool_decide (is_Some (hosted_tool_search c)) && bool_decide (nss ≠ []) && negb demoted
                        then dispatch_namespaced c pinned ms tools nss reasoning else stream_completion c pinned ms tools reasoning in
         ∃ ds w', length ds ≤ 3 ∧ silently sleep attempt ds w w' ∧ round_completion primary sc demoted e' ms tools nss w ≡ attempt w') ∧
      (let attempt := stream_completion c pinned ms [] reasoning in
       ∃ ds w', length ds ≤ 3 ∧ silently sleep attempt ds w w' ∧ closing_completion primary sc e' ms w ≡ attempt w').
Proof.
  apply resolve_turn_ok in Ht as Hok. rewrite Hc in Hok. destruct Hok as (sel & -> & _ & Hcl & Hm & Hch & Hty & Hr).
  exists sel. cbv zeta. split_and!; [done|done|..].
  - unfold turn_scope, turn_route. cbn [scope_route]. by rewrite Hch, Hty.
  - exact Hr.
  - intros primary e' ms w. set (sc := turn_scope f s st conv refinement t).
    assert (Hres : resolve_per_turn (scope_client sc) primary = c) by (unfold sc, turn_scope; cbn [scope_client]; by rewrite Hc).
    assert (Henv : scope_env sc e' = with_model_override (sel_model sel) (with_context_budget (turn_budget t) e')).
    { unfold scope_env, sc, turn_scope. cbn [scope_model scope_budget]. by rewrite Hc, Hm. }
    change (turn_reasoning t) with (scope_reasoning sc) in Hr. split.
    + intros demoted tools nss. rewrite round_is_retried, Hres, Henv, Hr. by apply retried_thrice.
    + rewrite closing_is_retried, Hres, Henv, Hr. by apply retried_thrice.
Qed.

(** ** Picks *)

(** One send, as far as the choice goes. *)
Record Send := { send_faults : StoreFaults; send_handle : DaemonHandle; send_conv : string; send_override : option PromptSelectionOverride }.

Definition choose (st : SelectionStore) (x : Send) : SelectionStore * result (option ConversationModelSelection * list DispatchWarning) CoreError :=
  user_driven_selection (send_faults x) (send_handle x) (send_conv x) (send_override x) st.

Definition choose_all (st : SelectionStore) (xs : list Send) : SelectionStore := foldl (λ st x, (choose st x).1) st xs.

(** A send that leaves the pick [o] of [conv] alone: another conversation's, or one
    without an override at a time the pick is live. *)
Definition spares (conv : string) (o : ConversationModelSelection) (x : Send) : Prop :=
  send_conv x ≠ conv ∨ (send_override x = None ∧ selection_is_live (send_handle x) o = Ok true).

Lemma choose_selection st x conv :
  selections (choose st x).1 !! conv = selections st !! conv ∨ (send_conv x = conv).
Proof.
  destruct (decide (send_conv x = conv)) as [|Hne]; [by right|left]. unfold choose, user_driven_selection.
  repeat (case_match; try done); cbn [fst set_selection selections]; by rewrite ?lookup_insert_ne, ?lookup_delete_ne.
Qed.

Lemma choose_live st x conv o :
  selections st !! conv = Some o → send_conv x = conv → send_override x = None → selection_is_live (send_handle x) o = Ok true →
  choose st x = (st, match fail_get_selection (send_faults x) with Some e => Err e | None => Ok (Some o, []) end).
Proof. intros Hst Hx Ho Hl. unfold choose, user_driven_selection. rewrite Ho, Hx. destruct (fail_get_selection _); [done|]. by rewrite Hst, Hl. Qed.

(** A model picked for a conversation is kept: after the send that
    picked it, whatever other conversations send and however often this one sends
    without a pick of its own, the next send of this conversation runs on it, with
    no warning, as long as the pair was live at each of its sends. *)
Theorem a_pick_is_kept_while_it_lives st x o xs y
    (Hpick : send_override x = Some o) (Hok : (choose st x).2 = Ok (Some o, []))
    (Hxs : Forall (spares (send_conv x) o) xs)
    (Hy : send_conv y = send_conv x ∧ send_override y = None ∧ selection_is_live (send_handle y) o = Ok true ∧ fail_get_selection (send_faults y) = None) :
  (choose (choose_all (choose st x).1 xs) y).2 = Ok (Some o, []).
Proof.
  assert (Hst : selections (choose st x).1 !! send_conv x = Some o).
  { revert Hok. unfold choose, user_driven_selection. rewrite Hpick. repeat (case_match; try done). intros _. cbn [fst set_selection selections]. apply lookup_insert_eq. }
  clear Hok Hpick. revert Hst. generalize (choose st x).1. clear st. induction xs as [|z xs IH]; intros st Hst.
  - destruct Hy as (Hc & Ho & Hl & Hf). unfold choose_all. cbn [foldl]. rewrite (choose_live st y (send_conv x) o) by done. by rewrite Hf.
  - apply Forall_cons in Hxs as [Hz Hxs]. change (choose_all st (z :: xs)) with (choose_all (choose st z).1 xs). apply IH; [done|].
    destruct (choose_selection st z (send_conv x)) as [Heq|Heq]; [by rewrite Heq|]. destruct Hz as [?|[Ho Hl]]; [done|].
    by rewrite (choose_live st z (send_conv x) o).
Qed.

(** ** A pick that is dead *)

(** A pick of the user that is not a live pair is refused before
    anything runs and is not stored, and nothing else is picked in its place; a
    turn without a pick is never stopped by a connection that is not live. *)
Theorem a_dead_pick_is_refused_and_a_dead_default_is_not {I} (inner : TurnScope → I → I * result string CoreError) f s e h conv st i :
  (∀ o refinement, selection_is_live h o ≠ Ok true →
     ∃ err, send_prompt_with_override inner f s e h conv (Some o) refinement st i = (st, i, Err err)) ∧
  (∀ eff, (∀ sel, eff = Some sel → valid_id (sel_connection sel)) → ∃ t, resolve_turn f (learned_windows s) e h None eff = Ok t).
Proof.
  split.
  - intros o refinement Hdead. unfold send_prompt_with_override, user_driven_selection. unfold selection_is_live in Hdead.
    destruct (ConnectionId_new (sel_connection o)) as [id|]; [|eauto]. destruct (connection_lists_model h id (sel_model o)) as [[]|]; [done|eauto|eauto].
  - intros eff Hv. unfold resolve_turn. destruct eff as [sel|]; [|eauto]. rewrite (Hv sel eq_refl). cbv zeta.
    destruct (client_for h (sel_connection sel)); [eauto|]. rewrite bool_decide_eq_false_2; [eauto|]. intros [x Hx]. done.
Qed.

(** ** The level of a turn *)

(** No read of the store, failed or not, opens a tier the configured level gates,
    except the conversation's own stored choice. *)
Lemma the_policy_is_loosened_only_by_choice f setting st conv tier :
  tool_gates_disabled st !! conv ≠ Some true → is_gated_under tier (configured_tool_policy setting) = is_gated_under tier (resolve_tool_policy f setting st conv).
Proof.
  intros Hn. unfold resolve_tool_policy. destruct (fail_get_gate f); [done|]. cbv zeta. destruct (tool_gates_disabled st !! conv) as [[]|] eqn:Hg; rewrite ?Hg in *; done.
Qed.
End routing.

(** ** Background tasks *)

Section background.
Context {Rest Registry W : Type} (debug : string → string) `{!UrlParser} (url_text : UrlPolicyError → string) (config_path : string).
Context (build_registry : @DaemonConfig Rest → Registry) (live_count : Registry → nat) (plan_is_empty : @DaemonConfig Rest → @DaemonConfig Rest → bool).
Context (client_of : Registry → string → option (LlmClient W)).

Lemma validated_loadable (cfg : @DaemonConfig Rest) id conn :
  loadable cfg → im_get (cfg_connections cfg) id = Some conn → validated_connections cfg = Ok (cfg_connections cfg).
Proof.
  intros (Hids & Hnd & _) Hg. unfold validated_connections. rewrite (proj2 (collect_ids_None _) Hids).
  destruct (cfg_connections cfg) as [|kv l]; [done|]. rewrite (proj2 (first_duplicate_None [] _)); [done|]. split; [done|set_solver].
Qed.

Lemma resolve_named connections (p : Purposes) k cfg c m conn :
  validate p = Ok tt → p !! k = Some cfg → connection cfg = NamedConnection c → model cfg = NamedModel m → im_get connections c = Some conn →
  resolve_purpose connections k p = Ok {| resolved_kind := k; connection_id := c; model_id := m; resolved_effort := effort cfg |}.
Proof.
  intros [->|(ia & ic & im & Hia & _ & _)]%validated Hk Hc Hm Hg; [by rewrite lookup_empty in Hk|].
  unfold resolve_purpose, resolve_connection, resolve_model. by rewrite Hk, Hia, Hc, Hg, Hm.
Qed.

(** C30. A purpose a client sets takes effect at once: the next completion
    of that purpose's background task is a completion of the named connection's
    client in the registry built from the new configuration, with the named model
    pinned and the effort in that connector's terms, whatever client the turn
    around it installed and whatever reasoning the task asked for. *)
Theorem a_background_task_follows_its_purpose h h' e0 found k p new c m conn client
    (Hload : loadable (running h))
    (Hset : perform debug url_text config_path build_registry live_count plan_is_empty h (OpSetPurpose e0 found k p) = (h', Ok tt))
    (Hp : payload_to_purpose debug (id_error_text debug) p = Ok new) (Hc : connection new = NamedConnection c) (Hm : model new = NamedModel m)
    (Hconn : im_get (cfg_connections (running h)) c = Some conn) (Hclient : client_of (build_registry (running h')) c = Some client)
    active e ms tools r w :
  stream_completion (RoutingLlmClient debug client_of (DynamicPurpose h' k) active) e ms tools r w
  = stream_completion client (with_model_override m e) ms tools (map_effort_to_reasoning_config (connector_type conn) (payload_effort p)) w.
Proof.
  destruct (client_op_cases debug url_text config_path build_registry live_count plan_is_empty h (OpSetPurpose e0 found k p) eq_refl) as [[err Herr]|(se & f & Hmut & Hch)]; [congruence|].
  rewrite Hset in Hmut. symmetry in Hmut. apply mutate_config_cases in Hmut as [(? & ? & _)|(s & cfg & _ & Hres & _ & _ & Hh')]; [done|].
  inversion Hch as [| | | |? ? ? ? new' Hp' _]; subst. rewrite Hp in Hp'. injection Hp' as <-.
  unfold pure_op, put_purpose in Hres. cbv zeta in Hres. destruct (validate _) as [[]|] eqn:Hv; [|done]. injection Hres as _ Hcfg. subst cfg.
  cbn [stream_completion RoutingLlmClient]. unfold dispatch_dynamic, client_for. cbn [running registry] in Hclient |- *. cbn [with_purposes cfg_purposes].
  rewrite (validated_loadable _ c conn); [|destruct Hload as (? & ? & _); by split_and!|done]. cbn [with_purposes cfg_connections].
  rewrite (resolve_named _ _ k new c m conn); [|done|by cbn [set_purpose_slot]; rewrite lookup_insert_eq|done|done|done].
  cbn [connection_id model_id resolved_effort]. rewrite Hconn, Hclient. f_equal. f_equal.
  revert Hp. unfold payload_to_purpose. destruct (String.eqb _ _); [by intros [= <-]|]. destruct (ConnectionId_new _); [|done]. by intros [= <-].
Qed.
End background.

(** ** Concrete turns *)

Definition sized (e : Env) : option Z := Some (if bool_decide (model_override e = Some "small") then 8000 else 200000)%Z.

Definition work_client : LlmClient nat :=
  {| get_default_model := Some "big"; get_default_base_url := None; client_max_context_tokens := sized; estimate_tokens := λ s, slen s;
     stream_completion := λ e ms tools r w, Ret (S w, Ok (says (default "big" (model_override e)))); hosted_tool_search := None |}.

Definition work_handle (p : Purposes) : @Handle unit unit :=
  {| running := some_config only_work p; registry := tt; config_origin := FromFile; file := saved (some_config only_work p); secrets := ∅ |}.

Definition work_clients (_ : unit) (id : string) : option (LlmClient nat) := if String.eqb id "work" then Some work_client else None.
Definition work_types (_ : unit) (id : string) : option string := if String.eqb id "work" then Some "anthropic" else None.
Definition work_models (_ : unit) (_ : string) : result (list string) CoreError := Ok ["big"; "small"].

Definition pick (c m : string) : ConversationModelSelection := {| sel_connection := c; sel_model := m; sel_effort := None |}.
Definition work_settings : TurnSettings :=
  {| personality_setting := Personality_default; tool_policy_setting := "standard"; primary_route := None; learned_windows := None |}.
Definition empty_store : SelectionStore := {| selections := ∅; conversation_tags := {["c1" := ["voice"]]}; personalities := ∅; tool_gates_disabled := ∅ |}.

(** ** Where the code falls short *)

Definition budget_of (r : result (@ResolvedTurn nat) CoreError) : option ContextBudget := match r with Ok t => Some (turn_budget t) | Err _ => None end.

(** The budget of a turn is read before the model is pinned: it is the window of
    the connection's own model, not of the one that runs. *)
Lemma a_budget_is_not_the_pinned_models :
  let sel := pick "work" "small" in
  budget_of (resolve_turn (λ s, s) work_clients work_types no_faults None demo_env (work_handle ∅) (Some sel) (Some sel))
    = Some {| max_input_tokens := 200000; source := ConnectorTable |} ∧
  client_max_context_tokens work_client (with_model_override "small" demo_env) = Some 8000%Z.
Proof. by vm_compute. Qed.

(** The size the interactive purpose sets applies to a model picked in its
    place. *)
Lemma the_interactive_size_follows_every_pick :
  let p : Purposes := <[Interactive := {| connection := NamedConnection "work"; model := NamedModel "big"; effort := None; purpose_max_context_tokens := Some 150000%Z |}]> ∅ in
  let sel := pick "work" "small" in
  budget_of (resolve_turn (λ s, s) work_clients work_types no_faults None demo_env (work_handle p) (Some sel) (Some sel))
    = Some {| max_input_tokens := 150000; source := PurposeOverride |}.
Proof. by vm_compute. Qed.

(** A voice purpose on a connection that is not live stops the turns of a voice
    conversation, though nobody picked a model. *)
Lemma a_dead_voice_purpose_stops_the_turn :
  let p : Purposes := <[Voice := some_purpose (NamedConnection "gone") (NamedModel "v")]> work_purposes in
  (send_prompt_with_override (λ s, s) work_clients work_types work_models (λ _ (i : nat), (S i, Ok "answer")) no_faults work_settings demo_env
    (work_handle p) "c1" None EmptyString empty_store 0).2
  = Err (Llm "resolved connection gone is not live; requested model v cannot be dispatched").
Proof. by vm_compute. Qed.

(** A turn that falls through to the primary client is capped by what was learned
    of the model it does not run. *)
Lemma a_fallen_turn_is_capped_by_another_model :
  let learned := {| observed_limit := Some 40000; configured_window := Some 200000; max_success_input := None |}%Z in
  let windows := Some (λ _ m, if String.eqb m "v" then Some learned else None) in
  budget_of (resolve_turn (λ s, s) work_clients work_types no_faults windows demo_env (work_handle ∅) None (Some (pick "gone" "v")))
    = Some {| max_input_tokens := 32768; source := LearnedCap |}.
Proof. by vm_compute. Qed.

(** A connector's own estimate of a text does not reach the turn. *)
Lemma a_connectors_estimate_is_not_asked {W} (sleep : Z → W → W) delays (primary : LlmClient W) sc text :
  estimate_tokens (turn_stack (Rest := unit) (Registry := unit) (λ s, s) (λ _ _, None) sleep delays primary sc) text = estimate_by_characters text.
Proof. done. Qed.

(** ** Witnesses *)

(** A client that searches the tools itself, and one namespace to offer it. *)
Definition hosted_client : LlmClient nat :=
  {| get_default_model := Some "big"; get_default_base_url := None; client_max_context_tokens := sized; estimate_tokens := λ s, slen s;
     stream_completion := λ e ms tools r w, Ret (S w, Ok (says "plain"));
     hosted_tool_search := Some (λ e ms core_tools namespaces r w, Ret (S w, Ok (says ("hosted " +:+ default "big" (model_override e))))) |}.

Definition hosted_clients (_ : unit) (id : string) : option (LlmClient nat) := if String.eqb id "work" then Some hosted_client else None.
Definition hosted_pick : ConversationModelSelection := {| sel_connection := "work"; sel_model := "small"; sel_effort := Some EffortHigh |}.
Definition hosted_namespace : Namespace := {| ns_name := "files"; ns_description := "Tools from the files MCP server"; ns_tools := [] |}.

Lemma a_turn_runs_on_what_it_resolved_witness :
  ∃ t ds w', resolve_turn (λ s, s) hosted_clients work_types no_faults None demo_env (work_handle ∅) None (Some hosted_pick) = Ok t ∧ length ds ≤ 3 ∧
    let attempt := dispatch_namespaced hosted_client (with_model_override "small" (with_context_budget (turn_budget t) demo_env)) [] [] [hosted_namespace]
      (with_thinking_budget 24000) in
    silently (λ _ w, w) attempt ds 0 w' ∧
    round_completion (Rest := unit) (Registry := unit) (λ s, s) hosted_clients (λ _ w, w) demo_delays work_client (turn_scope no_faults work_settings empty_store "c1" EmptyString t) false demo_env [] []
      [hosted_namespace] 0 ≡ attempt w'.
Proof.
  destruct (resolve_turn (λ s, s) hosted_clients work_types no_faults None demo_env (work_handle ∅) None (Some hosted_pick)) as [t|] eqn:Ht;
    [|vm_compute in Ht; discriminate Ht].
  assert (Hc : active_client t = Some hosted_client) by (vm_compute in Ht; injection Ht as <-; reflexivity).
  destruct (a_turn_runs_on_what_it_resolved (λ s, s) hosted_clients work_types (λ _ w, w) demo_delays demo_delays_length no_faults work_settings demo_env
    (work_handle ∅) None (Some hosted_pick) t hosted_client empty_store "c1" EmptyString Ht Hc) as (sel & He & _ & _ & _ & Hall).
  injection He as <-. destruct (Hall work_client demo_env [] 0) as [Hround _]. destruct (Hround false [] [hosted_namespace]) as (ds & w' & Hl & Hs & Heq).
  exists t, ds, w'. split; [reflexivity|]. split; [exact Hl|]. split; [exact Hs|exact Heq].
Defined.

Definition send_of (conv : string) (o : option ConversationModelSelection) : @Send unit unit :=
  {| send_faults := no_faults; send_handle := work_handle work_purposes; send_conv := conv; send_override := o |}.

Lemma a_pick_is_kept_while_it_lives_witness :
  (choose (λ s, s) work_clients work_models
    (choose_all (λ s, s) work_clients work_models (choose (λ s, s) work_clients work_models empty_store (send_of "c1" (Some (pick "work" "small")))).1
      [send_of "c2" (Some (pick "work" "big")); send_of "c1" None]) (send_of "c1" None)).2 = Ok (Some (pick "work" "small"), []).
Proof.
  apply (a_pick_is_kept_while_it_lives (λ s, s) work_clients work_models empty_store (send_of "c1" (Some (pick "work" "small"))) (pick "work" "small")
    [send_of "c2" (Some (pick "work" "big")); send_of "c1" None] (send_of "c1" None)).
  - reflexivity.
  - vm_compute. reflexivity.
  - apply Forall_cons; split; [left; discriminate|]. apply Forall_cons; split; [right; split; vm_compute; reflexivity|apply Forall_nil; exact I].
  - split_and!; vm_compute; reflexivity.
Defined.

Definition dreaming_payload : PurposeConfigPayload :=
  {| payload_connection := "work"; payload_model := "small"; payload_effort := Some EffortHigh; payload_max_context_tokens := None |}.

Lemma a_background_task_follows_its_purpose_witness :
  stream_completion (RoutingLlmClient (λ s, s) work_clients (DynamicPurpose
      (perform (H := no_urls) (λ s, s) (λ _, "refused") "daemon.toml" (λ _, tt) (λ _, 1) (λ _ _, false) (work_handle work_purposes)
        (OpSetPurpose None Generative Dreaming dreaming_payload)).1 Dreaming) None) demo_env [] [] ReasoningConfig_default 0
  = stream_completion work_client (with_model_override "small" demo_env) [] [] (with_thinking_budget 24000) 0.
Proof.
  apply (a_background_task_follows_its_purpose (λ s, s) (H := no_urls) (λ _, "refused") "daemon.toml" (λ _, tt) (λ _, 1) (λ _ _, false) work_clients
    (work_handle work_purposes) _ None Generative Dreaming dreaming_payload
    {| connection := NamedConnection "work"; model := NamedModel "small"; effort := Some EffortHigh; purpose_max_context_tokens := None |}
    "work" "small" (anthropic (Some "MY_KEY") None) work_client).
  - split_and!; [repeat constructor|apply (bool_decide_eq_true_1 _); by vm_compute|by vm_compute].
  - vm_compute. reflexivity.
  - reflexivity.
  - reflexivity.
  - reflexivity.
  - reflexivity.
  - reflexivity.
Defined.
