(* ===== verification/Skills.v ===== *)
(** * Skills on disk

    Models [crates/core/src/domain/skill.rs] and the pure part of
    [crates/daemon/src/skill_scanner.rs]: the vocabulary of the catalog and its
    column tokens, splitting a [SKILL.md] at its fences, deriving a workflow
    from its body, the name guard, the integrity hash a person's approval pins
    to, and the scan of a list of roots.

    Strings are their UTF-8 bytes.  [serde_yaml_ng] is the class [Yaml], SHA-256
    the class [Sha256], and what a directory walk finds is the data [SkillDir]. *)

From S2P Require Import Prelude Json DisplayLine NegativeMemory TaskStore ToolRouting UrlPolicy.

#[local] Open Scope nat_scope.

(** ** The vocabulary and its column tokens *)

Inductive SkillKind := Skill | Workflow.
Inductive TrustTier := Local | Github | WellKnown | Unknown.
Inductive Locality := Daemon | Client.

#[export] Instance SkillKind_eq_dec : EqDecision SkillKind. Proof. solve_decision. Defined.
#[export] Instance TrustTier_eq_dec : EqDecision TrustTier. Proof. solve_decision. Defined.
#[export] Instance Locality_eq_dec : EqDecision Locality. Proof. solve_decision. Defined.

Definition SkillKind_as_str (k : SkillKind) : string := match k with Skill => "skill" | Workflow => "workflow" end.
Definition SkillKind_from_db (s : string) : SkillKind := if String.eqb s "workflow" then Workflow else Skill.

Definition TrustTier_as_str (t : TrustTier) : string :=
  match t with Local => "local" | Github => "github" | WellKnown => "well_known" | Unknown => "unknown" end.
Definition TrustTier_from_db (s : string) : TrustTier :=
  if String.eqb s "local" then Local else if String.eqb s "github" then Github
  else if String.eqb s "well_known" then WellKnown else Unknown.

Definition Locality_as_str (l : Locality) : string := match l with Daemon => "daemon" | Client => "client" end.
Definition Locality_from_db (s : string) : Locality := if String.eqb s "client" then Client else Daemon.

Record SkillFrontmatter := { fm_name : string; fm_description : string; fm_tags : list string; fm_metadata : Value }.
Record ParsedSkill := { ps_frontmatter : SkillFrontmatter; ps_body : string }.
Record AttachmentDigest := { rel_path : string; sha256_hex : string; mode : N }.

Inductive SkillError :=
| MissingFrontmatter
| UnterminatedFrontmatter
| InvalidFrontmatter (msg : string)
| InvalidName (name : string).

Definition SkillError_to_string (e : SkillError) : string :=
  match e with
  | MissingFrontmatter => "missing YAML frontmatter (expected a leading `---` fence)"
  | UnterminatedFrontmatter => "unterminated YAML frontmatter (no closing `---`)"
  | InvalidFrontmatter m => "invalid YAML frontmatter: " +:+ m
  | InvalidName n => "invalid skill name: " +:+ n
  end.

(** [trust_tier_from_source_type]: no lockfile entry is a local skill. *)
Definition trust_tier_from_source_type (source_type : option string) : TrustTier :=
  match source_type with
  | None => Local
  | Some s =>
      if String.eqb s "local" then Local else if String.eqb s "github" then Github
      else if String.eqb s "well-known" then WellKnown else Unknown
  end.

(** ** Lines *)

Definition lf : Ascii.ascii := Ascii.ascii_of_nat 10.
Definition cr : Ascii.ascii := Ascii.ascii_of_nat 13.
Definition nl : string := String lf EmptyString.

(** [str::split_inclusive] of a newline. *)
Fixpoint split_inclusive (s : string) : list string :=
  match s with
  | EmptyString => []
  | String a s' =>
      if bool_decide (a = lf) then String a EmptyString :: split_inclusive s'
      else match split_inclusive s' with x :: l => String a x :: l | [] => [String a EmptyString] end
  end.

Fixpoint strip_suffix_char (c : Ascii.ascii) (s : string) : option string :=
  match s with
  | EmptyString => None
  | String a EmptyString => if bool_decide (a = c) then Some EmptyString else None
  | String a s' => String a <$> strip_suffix_char c s'
  end.

(** [str::lines]. *)
Definition chomp (line : string) : string :=
  match strip_suffix_char lf line with
  | None => line
  | Some l => default l (strip_suffix_char cr l)
  end.

Definition lines (s : string) : list string := map chomp (split_inclusive s).

(** [trim_end_matches] of carriage returns and newlines, and [trim_start]. *)
Definition trim_line_end (s : string) : string :=
  string_rev (trim_with [[13]; [10]] (String.length s) (string_rev s)).

Definition trim_start_ws (s : string) : string := trim_with white_space (String.length s) s.

(** ** Parsing a [SKILL.md] *)

Class Yaml := { from_yaml : string → result SkillFrontmatter string }.

(** [split_at_close_fence]: the loop over the lines with its byte offset. *)
Fixpoint fence_loop (s : string) (offset : nat) (ls : list string) : option (string * string) :=
  match ls with
  | [] => None
  | line :: rest =>
      if String.eqb (trim_line_end line) "---"
      then Some (str_prefix offset s, drop_bytes (offset + String.length line) s)
      else fence_loop s (offset + String.length line) rest
  end.

Definition split_at_close_fence (s : string) : option (string * string) := fence_loop s 0 (split_inclusive s).

Definition BOM : string := bytes [239; 187; 191].

Definition or_else {A} (x y : option A) : option A := match x with Some _ => x | None => y end.

Definition parse_skill_md `{!Yaml} (raw : string) : result ParsedSkill SkillError :=
  let trimmed := trim_start_ws (default raw (strip_prefix BOM raw)) in
  match or_else (strip_prefix ("---" +:+ nl) trimmed) (strip_prefix ("---" +:+ String cr nl) trimmed) with
  | None => Err MissingFrontmatter
  | Some after_open =>
      match split_at_close_fence after_open with
      | None => Err UnterminatedFrontmatter
      | Some (yaml, body) =>
          match from_yaml yaml with
          | Err e => Err (InvalidFrontmatter e)
          | Ok fm =>
              Ok {| ps_frontmatter := fm;
                    ps_body := default body (or_else (strip_prefix (String cr nl) body) (strip_prefix nl body)) |}
          end
      end
  end.

(** [detect_kind]: a level-2 heading whose text is [Steps]. *)
Definition is_steps_heading (line : string) : bool :=
  match strip_prefix "## " (trim line) with
  | Some rest => eq_ignore_ascii_case (trim rest) "steps"
  | None => false
  end.

Definition detect_kind (body : string) : SkillKind :=
  if existsb is_steps_heading (lines body) then Workflow else Skill.

Definition validate_skill_name (name : string) : result unit SkillError :=
  if String.eqb name EmptyString || String.eqb name "." || String.eqb name ".." || contains_str name "/"
     || contains_str name (bytes [92]) || contains_str name (bytes [0])
  then Err (InvalidName name) else Ok tt.

(** ** The integrity hash *)

Class Sha256 := { sha256 : string → string }.

Definition HEX : string := "0123456789abcdef".
Definition hex_at (n : N) : Ascii.ascii := default Ascii.zero (String.get (N.to_nat n) HEX).

Fixpoint to_hex (s : string) : string :=
  match s with
  | EmptyString => EmptyString
  | String a s' =>
      let b := Ascii.N_of_ascii a in
      String (hex_at (N.shiftr b 4)) (String (hex_at (N.land b 15)) (to_hex s'))
  end.

Definition file_sha256_hex `{!Sha256} (content : string) : string := to_hex (sha256 content).

(** [u32::to_be_bytes]. *)
Definition be_bytes_u32 (n : N) : string := foldr (λ k s, String (byte_at k n) s) EmptyString [3; 2; 1; 0]%N.

Definition path_leb (a b : AttachmentDigest) : bool := String.leb (rel_path a) (rel_path b).

(** What is fed to the hasher; [update_len_prefixed] is [absorb_text]. *)
Definition attachment_bytes (att : AttachmentDigest) : string :=
  absorb_text (rel_path att) +:+ absorb_text (sha256_hex att) +:+ be_bytes_u32 (mode att).

Definition content_preimage (skill_md : string) (attachments : list AttachmentDigest) : string :=
  let sorted := sort_by path_leb attachments in
  "adelie-skill-v1" +:+ nl +:+ absorb_text skill_md +:+ be_bytes (N.of_nat (length sorted) mod 2 ^ 64)
  +:+ sconcat (map attachment_bytes sorted).

Definition skill_content_hash `{!Sha256} (skill_md : string) (attachments : list AttachmentDigest) : string :=
  to_hex (sha256 (content_preimage skill_md attachments)).

(** ** Scopes and indexed skills *)

Inductive SkillScope := Global | Owner (owner : string).

#[export] Instance SkillScope_eq_dec : EqDecision SkillScope. Proof. solve_decision. Defined.

Definition scope_owner (s : SkillScope) : option string := match s with Global => None | Owner o => Some o end.
Definition is_degenerate_owner (s : SkillScope) : bool := match s with Owner o => String.eqb o EmptyString | Global => false end.

(** Instants are nanoseconds. *)
Record IndexedSkill := {
  sk_name : string;
  sk_description : string;
  sk_kind : SkillKind;
  sk_disk_path : string;
  sk_owner_user_id : option string;
  sk_locality : Locality;
  sk_content_hash : string;
  sk_trust_tier : TrustTier;
  sk_source : option string;
  sk_tags : list string;
  sk_attachments : list string;
  sk_body : string;
  sk_metadata : Value;
  sk_present_on_disk : bool;
  sk_last_seen_at : option Z;
  sk_approved_at : option Z;
  sk_approved_by : option string
}.

Definition is_approved (s : IndexedSkill) : bool := bool_decide (is_Some (sk_approved_at s)).
Definition SkillScope_of (s : IndexedSkill) : SkillScope :=
  match sk_owner_user_id s with None => Global | Some o => Owner o end.

Record SkillApproval := { ap_at : Z; ap_by : option string }.

(** ** The scan

    What the walk of a skill directory finds: [walkdir] from depth 1 to 4 in
    file-name order, each entry an error or a file system object with its path
    below the directory. *)
Record WalkEntry := {
  we_is_file : bool;
  we_rel : option string;
  we_content : result string string;
  we_mode : N
}.

Record SkillDir := {
  dir_is_dir : bool;
  dir_has_skill_file : bool;
  dir_name : option string;
  dir_md_path : string;
  dir_md : result string string;
  dir_walk : list (result WalkEntry string)
}.

(** A root: its path, its entries when it can be read, and the two lockfile
    candidates that could be read. *)
Record SkillRoot := {
  root_path : string;
  root_entries : option (list SkillDir);
  root_locks : list (option string)
}.

Definition SKILL_FILE : string := "SKILL.md".

Fixpoint forward_slashes (s : string) : string :=
  match s with
  | EmptyString => EmptyString
  | String a s' => String (if bool_decide (a = Ascii.ascii_of_nat 92) then Ascii.ascii_of_nat 47 else a) (forward_slashes s')
  end.

Section scan.
Context `{!Yaml, !Sha256, !SerdeJson}.

Fixpoint collect_digests (walk : list (result WalkEntry string)) : result (list AttachmentDigest) string :=
  match walk with
  | [] => Ok []
  | Err e :: _ => Err e
  | Ok entry :: rest =>
      match we_is_file entry, we_rel entry with
      | true, Some rel =>
          let rel := forward_slashes rel in
          if String.eqb rel SKILL_FILE then collect_digests rest
          else
            match we_content entry with
            | Err e => Err e
            | Ok content =>
                match collect_digests rest with
                | Err e => Err e
                | Ok ds => Ok ({| rel_path := rel; sha256_hex := file_sha256_hex content; mode := we_mode entry |} :: ds)
                end
            end
      | _, _ => collect_digests rest
      end
  end.

Definition collect_attachments (walk : list (result WalkEntry string)) : result (list AttachmentDigest * list string) string :=
  match collect_digests walk with
  | Err e => Err e
  | Ok ds => let digests := sort_by path_leb ds in Ok (digests, map rel_path digests)
  end.

Definition scan_skill_dir (dir : SkillDir) (name : string) (source_type : option string) (root : SkillRoot)
    (owner : option string) (loc : Locality) : result IndexedSkill string :=
  match validate_skill_name name with
  | Err e => Err ("invalid skill name: " +:+ SkillError_to_string e)
  | Ok _ =>
      match dir_md dir with
      | Err e => Err e
      | Ok raw =>
          match parse_skill_md raw with
          | Err e => Err ("parse: " +:+ SkillError_to_string e)
          | Ok parsed =>
              match collect_attachments (dir_walk dir) with
              | Err e => Err e
              | Ok (digests, paths) =>
                  Ok {| sk_name := name; sk_description := fm_description (ps_frontmatter parsed);
                        sk_kind := detect_kind (ps_body parsed); sk_disk_path := dir_md_path dir;
                        sk_owner_user_id := owner; sk_locality := loc;
                        sk_content_hash := skill_content_hash raw digests;
                        sk_trust_tier := trust_tier_from_source_type source_type;
                        sk_source := Some (root_path root); sk_tags := fm_tags (ps_frontmatter parsed);
                        sk_attachments := paths; sk_body := ps_body parsed;
                        sk_metadata := fm_metadata (ps_frontmatter parsed);
                        sk_present_on_disk := true; sk_last_seen_at := None;
                        sk_approved_at := None; sk_approved_by := None |}
              end
          end
      end
  end.

(** [load_lock_source_types]: the first candidate that reads and parses. *)
Definition lock_map (v : Value) : gmap string string :=
  match get "skills" v ≫= as_object with
  | None => ∅
  | Some skills =>
      foldl (λ m kv, match get "sourceType" kv.2 ≫= as_str with Some st => <[kv.1 := st]> m | None => m end) ∅ skills
  end.

Fixpoint load_lock_source_types (candidates : list (option string)) : gmap string string :=
  match candidates with
  | [] => ∅
  | None :: rest => load_lock_source_types rest
  | Some text :: rest =>
      match from_str text with Some v => lock_map v | None => load_lock_source_types rest end
  end.

Definition scan_entry (lock : gmap string string) (root : SkillRoot) (owner : option string) (loc : Locality)
    (dir : SkillDir) : option IndexedSkill :=
  if negb (dir_is_dir dir) || negb (dir_has_skill_file dir) then None
  else
    match dir_name dir with
    | None => None
    | Some name =>
        match scan_skill_dir dir name (lock !! name) root owner loc with Ok skill => Some skill | Err _ => None end
    end.

Definition name_leb (a b : IndexedSkill) : bool := String.leb (sk_name a) (sk_name b).

Definition scan_root (root : SkillRoot) (lock : gmap string string) (owner : option string) (loc : Locality) : list IndexedSkill :=
  match root_entries root with
  | None => []
  | Some entries => sort_by name_leb (omap (scan_entry lock root owner loc) entries)
  end.

(** Skills by name, the earlier root winning. *)
Fixpoint keep_first (seen : gset string) (l : list IndexedSkill) : list IndexedSkill :=
  match l with
  | [] => []
  | skill :: rest =>
      if bool_decide (sk_name skill ∈ seen) then keep_first seen rest
      else skill :: keep_first ({[sk_name skill]} ∪ seen) rest
  end.

Definition offered (roots : list SkillRoot) (owner : option string) (loc : Locality) : list IndexedSkill :=
  concat (map (λ root, scan_root root (load_lock_source_types (root_locks root)) owner loc) roots).

Definition scan_roots (roots : list SkillRoot) (owner : option string) (loc : Locality) : list IndexedSkill :=
  keep_first ∅ (offered roots owner loc).

Definition scan_global_roots (roots : list SkillRoot) : list IndexedSkill := scan_roots roots None Daemon.
Definition scan_user_roots (roots : list SkillRoot) (owner : string) : list IndexedSkill := scan_roots roots (Some owner) Client.

End scan.

(** * Properties *)

Lemma SkillKind_from_as k : SkillKind_from_db (SkillKind_as_str k) = k.
Proof. by destruct k. Qed.
Lemma TrustTier_from_as t : TrustTier_from_db (TrustTier_as_str t) = t.
Proof. by destruct t. Qed.
Lemma Locality_from_as l : Locality_from_db (Locality_as_str l) = l.
Proof. by destruct l. Qed.

(** ** Lines *)

Definition lf_free (s : string) : Prop := Forall (λ a, a ≠ lf) (String.list_ascii_of_string s).

Lemma lf_free_app s t : lf_free (s +:+ t) ↔ lf_free s ∧ lf_free t.
Proof. unfold lf_free. by rewrite list_ascii_app, Forall_app. Qed.

Lemma split_inclusive_line s t : lf_free s → split_inclusive (s +:+ nl +:+ t) = (s +:+ nl) :: split_inclusive t.
Proof.
  unfold lf_free. induction s as [|a s IH]; [done|]. cbn [String.list_ascii_of_string]. intros [Ha Hs]%Forall_cons.
  rewrite string_app_cons. cbn [split_inclusive]. rewrite bool_decide_eq_false_2 by done. by rewrite IH.
Qed.

Lemma split_inclusive_some a s : split_inclusive (String a s) ≠ [].
Proof. cbn [split_inclusive]. case_bool_decide; [done|]. by destruct (split_inclusive s). Qed.

Lemma split_inclusive_app s t : split_inclusive (s +:+ nl +:+ t) = split_inclusive (s +:+ nl) ++ split_inclusive t.
Proof.
  induction s as [|a s IH]; [done|]. rewrite !string_app_cons. cbn [split_inclusive]. rewrite IH. case_bool_decide; [done|].
  destruct (split_inclusive (s +:+ nl)) eqn:He; [|done]. destruct s; by apply split_inclusive_some in He.
Qed.

Lemma lines_app s t : lines (s +:+ nl +:+ t) = lines (s +:+ nl) ++ lines t.
Proof. unfold lines. by rewrite split_inclusive_app, map_app. Qed.

Lemma strip_suffix_char_app c s : strip_suffix_char c (s +:+ String c EmptyString) = Some s.
Proof.
  induction s as [|a s IH]; [simpl; by rewrite bool_decide_eq_true_2|]. rewrite string_app_cons. cbn [strip_suffix_char]. rewrite IH.
  destruct s; done.
Qed.

Lemma lines_line s t : lf_free s → strip_suffix_char cr s = None → lines (s +:+ nl +:+ t) = s :: lines t.
Proof.
  intros Hs Hc. unfold lines. rewrite split_inclusive_line by done. cbn [map]. f_equal. unfold chomp, nl.
  rewrite strip_suffix_char_app, Hc. done.
Qed.

(** A heading on a line of its own makes a workflow, whatever surrounds it. *)
Lemma steps_heading_is_found before after :
  detect_kind (before +:+ nl +:+ "## Steps" +:+ nl +:+ after) = Workflow.
Proof.
  unfold detect_kind. rewrite lines_app, existsb_app.
  rewrite (lines_line "## Steps" after); [|repeat constructor; done|done].
  cbn [existsb]. replace (is_steps_heading "## Steps") with true by (by vm_compute). by rewrite orb_true_r.
Qed.

(** ** Fences *)

Lemma trim_line_end_lf s : trim_line_end (s +:+ nl) = trim_line_end s.
Proof.
  unfold trim_line_end. rewrite string_rev_app, string_length_app. replace (String.length s + String.length nl) with (S (String.length s)) by (cbn; lia).
  change (string_rev nl +:+ string_rev s) with (String lf (string_rev s)). by destruct (string_rev s).
Qed.

(** A frontmatter block of lines none of which closes it. *)
Definition block (ls : list string) : string := sconcat (map (λ l, l +:+ nl) ls).
Definition block_line (l : string) : Prop := lf_free l ∧ trim_line_end l ≠ "---".

Lemma sconcat_cons x l : sconcat (x :: l) = x +:+ sconcat l.
Proof. done. Qed.

Lemma fence_loop_block pre ls rest :
  Forall block_line ls →
  fence_loop (pre +:+ block ls +:+ "---" +:+ nl +:+ rest) (String.length pre) (split_inclusive (block ls +:+ "---" +:+ nl +:+ rest))
  = Some (pre +:+ block ls, rest).
Proof.
  revert pre. induction ls as [|l ls IH]; intros pre Hls.
  - change (block [] +:+ "---" +:+ nl +:+ rest) with ("---" +:+ nl +:+ rest).
    rewrite split_inclusive_line by (repeat constructor; done). cbn [fence_loop].
    replace (String.eqb (trim_line_end ("---" +:+ nl)) "---") with true by (by vm_compute).
    rewrite str_prefix_app. change (block []) with EmptyString. rewrite string_app_nil_r. do 2 f_equal.
    rewrite <- (string_app_assoc "---"), <- string_app_assoc, <- string_length_app. apply drop_bytes_app.
  - apply Forall_cons in Hls as [[Hl Hf] Hls]. unfold block. cbn [map]. rewrite sconcat_cons. fold (block ls).
    rewrite !string_app_assoc, split_inclusive_line by done. cbn [fence_loop].
    rewrite trim_line_end_lf. destruct (String.eqb_spec (trim_line_end l) "---") as [|_]; [done|].
    rewrite <- string_length_app. rewrite <- (string_app_assoc l nl), <- (string_app_assoc pre (l +:+ nl)).
    rewrite IH by done. by rewrite !string_app_assoc.
Qed.

Lemma split_at_close_fence_block ls rest :
  Forall block_line ls → split_at_close_fence (block ls +:+ "---" +:+ nl +:+ rest) = Some (block ls, rest).
Proof. intros Hls. unfold split_at_close_fence. exact (fence_loop_block EmptyString ls rest Hls). Qed.

Lemma strip_prefix_app p s : strip_prefix p (p +:+ s) = Some s.
Proof.
  unfold strip_prefix. replace (starts_with (p +:+ s) p) with true by (symmetry; apply starts_with_app; by exists s).
  by rewrite drop_bytes_app.
Qed.

Lemma parse_fenced `{!Yaml} ls body :
  Forall block_line ls →
  parse_skill_md ("---" +:+ nl +:+ block ls +:+ "---" +:+ nl +:+ nl +:+ body)
  = match from_yaml (block ls) with
    | Err e => Err (InvalidFrontmatter e)
    | Ok fm => Ok {| ps_frontmatter := fm; ps_body := body |}
    end.
Proof.
  intros Hls. unfold parse_skill_md. set (rest := block ls +:+ "---" +:+ nl +:+ nl +:+ body).
  change (strip_prefix BOM ("---" +:+ nl +:+ rest)) with (@None string). cbn [default].
  replace (trim_start_ws ("---" +:+ nl +:+ rest)) with ("---" +:+ nl +:+ rest) by done.
  rewrite <- (string_app_assoc "---" nl rest), strip_prefix_app. cbn [or_else].
  unfold rest. rewrite (split_at_close_fence_block ls (nl +:+ body) Hls).
  destruct (from_yaml (block ls)); [|done]. f_equal. f_equal.
  replace (strip_prefix (String cr nl) (nl +:+ body)) with (@None string) by done. by rewrite strip_prefix_app.
Qed.

(** ** Names *)

Lemma validate_skill_name_ok name :
  validate_skill_name name = Ok tt ↔
  name ≠ EmptyString ∧ name ≠ "." ∧ name ≠ ".." ∧
  contains_str name "/" = false ∧ contains_str name (bytes [92]) = false ∧ contains_str name (bytes [0]) = false.
Proof.
  unfold validate_skill_name. destruct (String.eqb_spec name EmptyString), (String.eqb_spec name "."), (String.eqb_spec name "..");
  destruct (contains_str name "/"), (contains_str name (bytes [92])), (contains_str name (bytes [0])); naive_solver.
Qed.

(** ** The integrity hash *)

Definition digest_ok (d : AttachmentDigest) : Prop := small (rel_path d) ∧ small (sha256_hex d) ∧ (mode d < 2 ^ 32)%N.

(** The fields a scan produces: each length fits its prefix, each mode its width,
    and no path occurs twice. *)
Definition scannable (md : string) (atts : list AttachmentDigest) : Prop :=
  small md ∧ Forall digest_ok atts ∧ (N.of_nat (length atts) < 2 ^ 56)%N ∧ NoDup (map rel_path atts).

Lemma be_bytes_u32_inj n m : (n < 2 ^ 32)%N → (m < 2 ^ 32)%N → be_bytes_u32 n = be_bytes_u32 m → n = m.
Proof.
  intros Hn Hm He. apply be_bytes_inj; [lia..|]. unfold be_bytes_u32, be_bytes in *. cbn [foldr] in *.
  assert (Hhigh : ∀ k x, (4 ≤ k)%N → (x < 2 ^ 32)%N → byte_at k x = Ascii.ascii_of_N 0).
  { intros k x Hk Hx. unfold byte_at. rewrite N.div_small; [done|]. eapply N.lt_le_trans; [exact Hx|].
    change (2 ^ 32)%N with (256 ^ 4)%N. apply N.pow_le_mono_r; lia. }
  rewrite !(Hhigh 7%N), !(Hhigh 6%N), !(Hhigh 5%N), !(Hhigh 4%N) by lia. by rewrite He.
Qed.

Lemma attachment_bytes_inj a b r s :
  digest_ok a → digest_ok b → attachment_bytes a +:+ r = attachment_bytes b +:+ s → a = b ∧ r = s.
Proof.
  intros (Ha1 & Ha2 & Ha3) (Hb1 & Hb2 & Hb3). unfold attachment_bytes. rewrite !string_app_assoc. intros He.
  apply absorb_text_inj in He as [Hp He]; [|done..]. apply absorb_text_inj in He as [Hh He]; [|done..].
  apply app_split in He as [Hm He]; [|done]. apply be_bytes_u32_inj in Hm; [|done..].
  destruct a, b. simpl in *. by subst.
Qed.

Lemma attachments_inj l k :
  Forall digest_ok l → Forall digest_ok k → length l = length k →
  sconcat (map attachment_bytes l) = sconcat (map attachment_bytes k) → l = k.
Proof.
  revert k. induction l as [|a l IH]; intros [|b k] Hl Hk Hlen; try done. cbn [map]. rewrite !sconcat_cons. intros He.
  apply Forall_cons in Hl as [Ha Hl], Hk as [Hb Hk]. apply attachment_bytes_inj in He as [-> He]; [|done..].
  f_equal. apply IH; [done..| |done]. by injection Hlen.
Qed.

Lemma content_preimage_inj md1 md2 a1 a2 :
  scannable md1 a1 → scannable md2 a2 →
  content_preimage md1 a1 = content_preimage md2 a2 → md1 = md2 ∧ a1 ≡ₚ a2.
Proof.
  intros (Hm1 & Ho1 & Hl1 & _) (Hm2 & Ho2 & Hl2 & _). unfold content_preimage.
  set (s1 := sort_by path_leb a1). set (s2 := sort_by path_leb a2). intros He.
  apply app_split in He as [_ He]; [|done]. apply app_split in He as [_ He]; [|done].
  apply absorb_text_inj in He as [Hmd He]; [|done..]. split; [done|]. apply app_split in He as [Hn He]; [|done].
  rewrite <- (sort_by_length path_leb) in Hl1, Hl2. fold s1 in Hl1. fold s2 in Hl2.
  rewrite !N.mod_small in Hn by lia. apply be_bytes_inj in Hn; [|lia..].
  rewrite <- (sort_by_perm path_leb a1), <- (sort_by_perm path_leb a2). fold s1 s2.
  replace s2 with s1; [done|]. apply attachments_inj; [..|lia|done].
  - unfold s1. by rewrite sort_by_perm.
  - unfold s2. by rewrite sort_by_perm.
Qed.

Lemma path_leb_sorted l : sorted_by path_leb (sort_by path_leb l).
Proof. apply sort_by_sorted; [intros; apply String.leb_total|intros ???; apply string_leb_trans]. Qed.

(** The order in which the attachments of a skill are found is immaterial. *)
Lemma content_preimage_perm md a1 a2 :
  NoDup (map rel_path a1) → a1 ≡ₚ a2 → content_preimage md a1 = content_preimage md a2.
Proof.
  intros Hnd Hp. unfold content_preimage. replace (sort_by path_leb a2) with (sort_by path_leb a1); [done|].
  apply (StronglySorted_unique_strong (λ x y, path_leb x y = true)).
  - intros x y Hx Hy Hxy Hyx. rewrite elem_of_sort_by in Hx, Hy. rewrite <- Hp in Hy.
    eapply NoDup_map_eq; [exact Hnd|done..|]. by apply String.leb_antisym.
  - apply path_leb_sorted.
  - apply path_leb_sorted.
  - by rewrite !sort_by_perm.
Qed.

(** The bytes a skill's hash is taken of determine the [SKILL.md] and every
    attachment's path, digest and mode, and nothing else does: two scans feed
    the hasher the same bytes exactly when they found the same files, in
    whatever order. *)
Theorem the_hash_pins_every_file md1 md2 a1 a2 (H1 : scannable md1 a1) (H2 : scannable md2 a2) :
  content_preimage md1 a1 = content_preimage md2 a2 ↔ md1 = md2 ∧ a1 ≡ₚ a2.
Proof.
  split; [by apply content_preimage_inj|]. intros [-> Hp]. apply content_preimage_perm; [|done]. apply H1.
Qed.

(** ** The scan *)

Lemma keep_first_elem seen l skill :
  skill ∈ keep_first seen l ↔
  ∃ before after, l = before ++ skill :: after ∧ sk_name skill ∉ seen ∧ sk_name skill ∉ map sk_name before.
Proof.
  revert seen. induction l as [|x l IH]; intros seen; cbn [keep_first].
  - split; [set_solver|]. intros (b & a & Hl & _). by destruct b.
  - case_bool_decide as Hx; rewrite ?elem_of_cons, IH; split.
    + intros (b & a & -> & Hs & Hb). exists (x :: b), a. split_and!; [done..|]. cbn [map]. apply not_elem_of_cons.
      split; [by intros Hxy; rewrite Hxy in Hs|done].
    + intros ([|y b] & a & He & Hs & Hb); simplify_eq/=; [done|]. apply not_elem_of_cons in Hb as [_ Hb]. by exists b, a.
    + intros [->|(b & a & -> & Hs & Hb)]; [by exists [], l; split_and!; [..|apply not_elem_of_nil]|].
      exists (x :: b), a. split_and!; [done|set_solver|]. cbn [map]. apply not_elem_of_cons. split; [set_solver|done].
    + intros ([|y b] & a & He & Hs & Hb); simplify_eq/=; [by left|right]. apply not_elem_of_cons in Hb as [Hy Hb]. exists b, a.
      split_and!; [done|set_solver|done].
Qed.

Lemma keep_first_names seen l : NoDup (map sk_name (keep_first seen l)) ∧ Forall (λ n, n ∉ seen) (map sk_name (keep_first seen l)).
Proof.
  revert seen. induction l as [|x l IH]; intros seen; cbn [keep_first]; [split; constructor|]. case_bool_decide as Hx; [apply IH|].
  destruct (IH ({[sk_name x]} ∪ seen)) as [Hn Hf]. cbn [map]. rewrite Forall_forall in Hf. split.
  - constructor; [|done]. intros Hin. specialize (Hf _ Hin). set_solver.
  - constructor; [done|]. apply Forall_forall. intros n Hin. specialize (Hf _ Hin). set_solver.
Qed.

Section scan_ok.
Context `{!Yaml, !Sha256, !SerdeJson}.

Lemma scan_entry_ok lock root owner loc dir skill :
  scan_entry lock root owner loc dir = Some skill →
  validate_skill_name (sk_name skill) = Ok tt ∧ dir_name dir = Some (sk_name skill) ∧
  sk_owner_user_id skill = owner ∧ sk_locality skill = loc ∧ sk_source skill = Some (root_path root) ∧
  sk_trust_tier skill = trust_tier_from_source_type (lock !! sk_name skill) ∧ sk_approved_at skill = None.
Proof.
  unfold scan_entry. destruct (negb _ || negb _); [done|]. destruct (dir_name dir) as [n|] eqn:Hn; [|done].
  unfold scan_skill_dir. destruct (validate_skill_name n) as [[]|] eqn:Hv; [|done]. destruct (dir_md dir) as [raw|]; [|done].
  destruct (parse_skill_md raw) as [parsed|]; [|done]. destruct (collect_attachments (dir_walk dir)) as [[ds ps]|]; [|done].
  intros [= <-]. done.
Qed.

(** What a scan of several roots hands over: every skill was read from an entry
    of one of them under a name that is one path component, no name twice, and
    a name several roots offer is the first root's; none claims an approval. *)
Theorem a_scan_is_unambiguous roots owner loc :
  NoDup (map sk_name (scan_roots roots owner loc)) ∧
  ∀ skill, skill ∈ scan_roots roots owner loc →
    validate_skill_name (sk_name skill) = Ok tt ∧ sk_owner_user_id skill = owner ∧ sk_approved_at skill = None ∧
    ∃ earlier root later,
      roots = earlier ++ root :: later ∧
      skill ∈ scan_root root (load_lock_source_types (root_locks root)) owner loc ∧
      sk_name skill ∉ map sk_name (offered earlier owner loc).
Proof.
  split; [apply keep_first_names|]. intros skill (before & after & Ho & _ & Hb)%keep_first_elem.
  assert (Hr : ∃ earlier root later, roots = earlier ++ root :: later ∧
      skill ∈ scan_root root (load_lock_source_types (root_locks root)) owner loc ∧
      sk_name skill ∉ map sk_name (offered earlier owner loc)).
  { revert before Ho Hb. induction roots as [|root roots IH]; intros before Ho Hb; [by destruct before|].
    unfold offered in Ho. cbn [map concat] in Ho. fold (offered roots owner loc) in Ho.
    apply app_eq_app in Ho as [k [[Hh Hk]|[Hh Hk]]].
    - destruct k as [|y k].
      + simpl in Hk. destruct (IH [] (eq_sym Hk)) as (e & r & l & -> & Hin & Hn); [set_solver|].
        exists (root :: e), r, l. split; [done|]. split; [done|]. unfold offered. cbn [map concat]. fold (offered e owner loc).
        rewrite map_app, not_elem_of_app. split; [|done]. rewrite app_nil_r in Hh. by rewrite Hh.
      + simplify_eq/=. exists [], root, roots. split; [done|]. split; [|set_solver]. rewrite Hh. set_solver.
    - destruct (IH k Hk) as (e & r & l & -> & Hin & Hn); [rewrite Hh, map_app in Hb; set_solver|].
      exists (root :: e), r, l. split; [done|]. split; [done|]. unfold offered. cbn [map concat]. fold (offered e owner loc).
      rewrite map_app, not_elem_of_app. split; [|done]. rewrite Hh, map_app in Hb. set_solver. }
  destruct Hr as (e & r & l & -> & Hin & Hn). pose proof Hin as Hin'. unfold scan_root in Hin'.
  destruct (root_entries r) as [entries|]; [|set_solver]. rewrite elem_of_sort_by, list_elem_of_omap in Hin'.
  destruct Hin' as (dir & _ & (Hv & _ & Hw & _ & _ & _ & Ha)%scan_entry_ok). split_and!; [done..|]. by exists e, r, l.
Qed.

End scan_ok.

(** ** Examples *)

Definition script (p : string) : AttachmentDigest := {| rel_path := p; sha256_hex := "00"; mode := 493 |}.

Lemma the_hash_pins_every_file_witness :
  content_preimage "body" [script "a.sh"; script "b.sh"] = content_preimage "body" [script "b.sh"; script "a.sh"].
Proof.
  assert (Hsc : ∀ p q, small p → small q → p ≠ q → scannable "body" [script p; script q]).
  { intros p q Hp Hq Hpq. split; [done|]. split; [|split; [done|]].
    - apply Forall_cons_2; [|apply Forall_cons_2; [|apply Forall_nil_2]]; split_and!; done.
    - apply NoDup_cons_2; [|apply NoDup_singleton]. cbn. by rewrite list_elem_of_singleton. }
  apply (the_hash_pins_every_file "body" "body"); [by apply Hsc..|]. split; [reflexivity|]. apply Permutation_swap.
Defined.
