(* ===== verification/SkillCatalog.v ===== *)
(** * The skill catalog

    Models the port [SkillIndexStore] of [crates/core/src/ports/skill_index],
    its SQLite adapter ([crates/storage-sqlite/src/skill_index.rs]) and the
    reconcile pass of [crates/core/src/skill_catalog.rs].

    The port is the class [SkillIndexStore] and what its doc comments promise
    the class [SkillIndexStoreLaws], stated over the catalog as the map from a
    row's name and owner key to what a read returns; the reconcile pass is
    verified against the laws and the SQLite adapter discharges them.  Every
    statement may fail: the adapter's state carries the outcome of each
    statement still to run.  The JSON columns hold the values themselves, the
    instants are text through [Rfc3339]. *)

From S2P Require Import Prelude Json TaskStore Skills.

#[local] Open Scope nat_scope.
#[local] Set Default Proof Using "Type".

(** ** Copies of a skill *)

(** The stamp of the reconcile pass: the scope's owner, approved now, by no one
    in particular. *)
Definition stamp (scope : SkillScope) (now : Z) (s : IndexedSkill) : IndexedSkill :=
  {| sk_name := sk_name s; sk_description := sk_description s; sk_kind := sk_kind s; sk_disk_path := sk_disk_path s;
     sk_owner_user_id := scope_owner scope; sk_locality := sk_locality s; sk_content_hash := sk_content_hash s;
     sk_trust_tier := sk_trust_tier s; sk_source := sk_source s; sk_tags := sk_tags s; sk_attachments := sk_attachments s;
     sk_body := sk_body s; sk_metadata := sk_metadata s; sk_present_on_disk := sk_present_on_disk s;
     sk_last_seen_at := sk_last_seen_at s; sk_approved_at := Some now; sk_approved_by := None |}.

(** The content of [s] under the index state given. *)
Definition with_state (s : IndexedSkill) (owner : option string) (present : bool) (seen approved : option Z)
    (by_ : option string) : IndexedSkill :=
  {| sk_name := sk_name s; sk_description := sk_description s; sk_kind := sk_kind s; sk_disk_path := sk_disk_path s;
     sk_owner_user_id := owner; sk_locality := sk_locality s; sk_content_hash := sk_content_hash s;
     sk_trust_tier := sk_trust_tier s; sk_source := sk_source s; sk_tags := sk_tags s; sk_attachments := sk_attachments s;
     sk_body := sk_body s; sk_metadata := sk_metadata s; sk_present_on_disk := present;
     sk_last_seen_at := seen; sk_approved_at := approved; sk_approved_by := by_ |}.

Definition owner_key (owner : option string) : string := default EmptyString owner.
Definition scope_key (scope : SkillScope) : string := owner_key (scope_owner scope).
Definition skill_key (s : IndexedSkill) : string * string := (sk_name s, owner_key (sk_owner_user_id s)).

Notation Catalog := (gmap (string * string) IndexedSkill) (only parsing).

(** What a read returns after a write, given what it returned before; [stored]
    is what the store keeps of an instant. *)
Section written.
Context (stored : Z → Z).

(** A scan's write: approval is the argument's on insert, the row's on update. *)
Definition seen_row (old : option IndexedSkill) (s : IndexedSkill) (seen_at : Z) : IndexedSkill :=
  match old with
  | None => with_state s (sk_owner_user_id s) true (Some (stored seen_at)) (stored <$> sk_approved_at s) (sk_approved_by s)
  | Some o => with_state s (sk_owner_user_id o) true (Some (stored seen_at)) (sk_approved_at o) (sk_approved_by o)
  end.

(** An authored write: absent and unapproved on both branches. *)
Definition authored_row (old : option IndexedSkill) (s : IndexedSkill) : IndexedSkill :=
  match old with
  | None => with_state s (sk_owner_user_id s) false (stored <$> sk_last_seen_at s) None None
  | Some o => with_state s (sk_owner_user_id o) false (sk_last_seen_at o) None None
  end.

Definition presence_row (present : bool) (o : IndexedSkill) : IndexedSkill :=
  with_state o (sk_owner_user_id o) present (sk_last_seen_at o) (sk_approved_at o) (sk_approved_by o).

Definition approval_row (approval : option SkillApproval) (o : IndexedSkill) : IndexedSkill :=
  with_state o (sk_owner_user_id o) (sk_present_on_disk o) (sk_last_seen_at o)
    (stored ∘ ap_at <$> approval) (approval ≫= ap_by).

End written.

(** ** The port

    [get] takes the task-local user of [current_user_id()]. *)

Class SkillIndexStore (St : Type) := {
  upsert : St → IndexedSkill → Z → St * result unit CoreError;
  write_authored : St → IndexedSkill → Z → St * result unit CoreError;
  set_approval : St → SkillScope → list string → option SkillApproval → St * result unit CoreError;
  list_scope : St → SkillScope → St * result (list IndexedSkill) CoreError;
  set_presence : St → SkillScope → list string → bool → St * result unit CoreError;
  get_skill : St → string → string → option string → St * result (option IndexedSkill) CoreError
}.

(** The rows of [names] in a scope, rewritten. *)
Definition rewrite_rows (f : IndexedSkill → IndexedSkill) (scope : SkillScope) (names : list string) (c : Catalog) : Catalog :=
  map_imap (λ k s, Some (if bool_decide (k.1 ∈ names ∧ k.2 = scope_key scope) then f s else s)) c.

(** The port's contract; a failure changes nothing. *)
Class SkillIndexStoreLaws (St : Type) `{SkillIndexStore St} := {
  catalog : St → Catalog;
  catalog_inv : St → Prop;
  stored_time : Z → Z;
  catalog_keyed s k sk : catalog_inv s → catalog s !! k = Some sk → skill_key sk = k;
  upsert_spec s sk t s' r :
    catalog_inv s → upsert s sk t = (s', r) → catalog_inv s' ∧
    catalog s' = match r with
      | Ok _ => <[skill_key sk := seen_row stored_time (catalog s !! skill_key sk) sk t]> (catalog s)
      | Err _ => catalog s end;
  write_authored_spec s sk t s' r :
    catalog_inv s → write_authored s sk t = (s', r) → catalog_inv s' ∧
    catalog s' = match r with
      | Ok _ => <[skill_key sk := authored_row stored_time (catalog s !! skill_key sk) sk]> (catalog s)
      | Err _ => catalog s end;
  set_approval_spec s scope names a s' r :
    catalog_inv s → set_approval s scope names a = (s', r) → catalog_inv s' ∧
    catalog s' = match r with
      | Ok _ => rewrite_rows (approval_row stored_time a) scope names (catalog s)
      | Err _ => catalog s end;
  set_presence_spec s scope names p s' r :
    catalog_inv s → set_presence s scope names p = (s', r) → catalog_inv s' ∧
    catalog s' = match r with
      | Ok _ => rewrite_rows (presence_row p) scope names (catalog s)
      | Err _ => catalog s end;
  list_scope_spec s scope s' r :
    catalog_inv s → list_scope s scope = (s', r) → catalog_inv s' ∧ catalog s' = catalog s ∧
    match r with
    | Ok l => NoDup (map sk_name l) ∧ ∀ sk, sk ∈ l ↔ catalog s !! (sk_name sk, scope_key scope) = Some sk
    | Err _ => True end;
  get_skill_spec s user name owner s' r :
    catalog_inv s → get_skill s user name owner = (s', r) → catalog_inv s' ∧ catalog s' = catalog s ∧
    match r with
    | Ok o => o = catalog s !! (name, match owner with Some _ => user | None => EmptyString end)
    | Err _ => True end
}.

(** ** The reconcile pass *)

Record ReconcileOutcome := { upserted : nat; marked_absent : nat; restored : nat }.

Section reconcile.
Context {St : Type} `{!SkillIndexStore St}.

(** [was_absent] is collected from the listing, a later entry of a name winning. *)
Definition absent_before (known : list IndexedSkill) : gmap string bool :=
  foldl (λ m k, <[sk_name k := negb (sk_present_on_disk k)]> m) ∅ known.

Fixpoint reconcile_loop (scope : SkillScope) (was_absent : gmap string bool) (now : Z) (scanned : list IndexedSkill)
    (s : St) (seen : gset string) (up back : nat) : St * result (gset string * nat * nat) CoreError :=
  match scanned with
  | [] => (s, Ok (seen, up, back))
  | skill :: rest =>
      let skill := stamp scope now skill in
      let back := if bool_decide (sk_name skill ∉ seen) && bool_decide (was_absent !! sk_name skill = Some true)
                  then S back else back in
      match upsert s skill now with
      | (s', Err e) => (s', Err e)
      | (s', Ok _) => reconcile_loop scope was_absent now rest s' ({[sk_name skill]} ∪ seen) (S up) back
      end
  end.

Definition now_absent (known : list IndexedSkill) (seen : gset string) : list string :=
  map sk_name (filter (λ k, sk_name k ∉ seen ∧ sk_present_on_disk k = true) known).

Definition reconcile_scan (s : St) (scope : SkillScope) (scanned : list IndexedSkill) (now : Z)
    : St * result ReconcileOutcome CoreError :=
  match list_scope s scope with
  | (s, Err e) => (s, Err e)
  | (s, Ok known) =>
      match reconcile_loop scope (absent_before known) now scanned s ∅ 0 0 with
      | (s, Err e) => (s, Err e)
      | (s, Ok (seen, up, back)) =>
          let absent := now_absent known seen in
          let outcome := {| upserted := up; marked_absent := length absent; restored := back |} in
          match absent with
          | [] => (s, Ok outcome)
          | _ =>
              match set_presence s scope absent false with
              | (s, Err e) => (s, Err e)
              | (s, Ok _) => (s, Ok outcome)
              end
          end
      end
  end.

End reconcile.

(** ** What a pass does to the catalog *)

Section reconcile_ok.
Context {St : Type} `{SkillIndexStoreLaws St}.

Notation seen_in := (seen_row stored_time).

(** The last entry of a name in a scan: the one whose content stays. *)
Definition last_named (n : string) (scanned : list IndexedSkill) : option IndexedSkill :=
  last (filter (λ x, sk_name x = n) scanned).

Lemma last_named_snoc n l x : last_named n (l ++ [x]) = if bool_decide (sk_name x = n) then Some x else last_named n l.
Proof.
  unfold last_named. rewrite filter_app, filter_cons, filter_nil. case_bool_decide as Hx.
  - rewrite decide_True by done. by rewrite last_snoc.
  - rewrite decide_False by done. by rewrite app_nil_r.
Qed.

Lemma last_named_None n l : last_named n l = None ↔ n ∉ map sk_name l.
Proof.
  induction l as [|x l IH] using rev_ind; [split; [set_solver|done]|].
  rewrite last_named_snoc, map_app, not_elem_of_app. cbn [map]. rewrite list_elem_of_singleton. case_bool_decide; naive_solver.
Qed.

Lemma last_named_Some n l x : last_named n l = Some x → x ∈ l ∧ sk_name x = n.
Proof. unfold last_named. intros Hx%last_Some_elem_of. apply list_elem_of_filter in Hx. naive_solver. Qed.

(** The abstract pass: scanned names take the scan's content, the scope's other
    rows are absent, every other scope is untouched. *)
Definition scanned_row (scope : SkillScope) (scanned : list IndexedSkill) (now : Z) (c : Catalog) (k : string * string)
    : option IndexedSkill :=
  if bool_decide (k.2 = scope_key scope) then
    match last_named k.1 scanned with
    | Some b => Some (seen_in (c !! k) (stamp scope now b) now)
    | None => presence_row false <$> c !! k
    end
  else c !! k.

Definition write_one (scope : SkillScope) (now : Z) (c : Catalog) (x : IndexedSkill) : Catalog :=
  let x := stamp scope now x in <[skill_key x := seen_in (c !! skill_key x) x now]> c.

Lemma seen_again scope now old a b :
  seen_in (Some (seen_in old (stamp scope now a) now)) (stamp scope now b) now = seen_in old (stamp scope now b) now.
Proof. by destruct old. Qed.

Lemma stamp_key scope now x : skill_key (stamp scope now x) = (sk_name x, scope_key scope).
Proof. done. Qed.

Lemma writes_lookup scope now c l k :
  foldl (write_one scope now) c l !! k =
  if bool_decide (k.2 = scope_key scope) then
    match last_named k.1 l with Some b => Some (seen_in (c !! k) (stamp scope now b) now) | None => c !! k end
  else c !! k.
Proof.
  induction l as [|x l IH] using rev_ind; [by case_bool_decide|].
  rewrite foldl_app, last_named_snoc. cbn [foldl]. unfold write_one at 1. rewrite stamp_key.
  destruct k as [n o]. cbn [fst snd] in *. destruct (decide ((sk_name x, scope_key scope) = (n, o))) as [[= <- <-]|Hne].
  - rewrite lookup_insert_eq, IH, !bool_decide_eq_true_2 by done.
    f_equal. destruct (last_named (sk_name x) l); [by rewrite seen_again|done].
  - rewrite lookup_insert_ne by done. rewrite IH. case_bool_decide as Ho; [|done]. rewrite bool_decide_eq_false_2; [done|]. congruence.
Qed.

Lemma names_cons_size (P : string → Prop) `{!∀ n, Decision (P n)} (n : string) (ns seen : gset string) :
  size (filter P (({[n]} ∪ ns) ∖ seen)) =
  (if bool_decide (n ∉ seen) && bool_decide (P n) then 1 else 0) + size (filter P (ns ∖ ({[n]} ∪ seen))).
Proof.
  destruct (decide (n ∉ seen ∧ P n)) as [[Hn HP]|Hno].
  - rewrite !bool_decide_eq_true_2 by done. cbn [andb].
    rewrite <- (size_singleton (C:=gset string) n), <- size_union by set_solver. f_equal. apply set_eq. intros x. set_unfold.
    destruct (decide (x = n)) as [->|]; naive_solver.
  - replace (bool_decide (n ∉ seen) && bool_decide (P n)) with false.
    2:{ symmetry. apply andb_false_iff. rewrite !bool_decide_eq_false. destruct (decide (n ∉ seen)); naive_solver. }
    cbn [Nat.add]. f_equal. apply set_eq. intros x. set_unfold. destruct (decide (x = n)) as [->|]; naive_solver.
Qed.

Lemma reconcile_loop_ok scope was now scanned s seen up back s' r :
  catalog_inv s → reconcile_loop scope was now scanned s seen up back = (s', r) →
  catalog_inv s' ∧ ∃ written unwritten, scanned = written ++ unwritten ∧
    catalog s' = foldl (write_one scope now) (catalog s) written ∧
    match r with
    | Ok (seen', up', back') =>
        unwritten = [] ∧ seen' = list_to_set (map sk_name scanned) ∪ seen ∧ up' = up + length scanned ∧
        back' = back + size (filter (λ n, was !! n = Some true) (list_to_set (map sk_name scanned) ∖ seen : gset string))
    | Err _ => True
    end.
Proof.
  revert s seen up back. induction scanned as [|x scanned IH]; intros s seen up back Hs; cbn [reconcile_loop].
  - intros [= <- <-]. split; [done|]. exists [], []. split_and!; try done; [set_solver|].
    replace (filter _ _) with (∅ : gset string) by set_solver. rewrite size_empty. lia.
  - destruct (upsert s (stamp scope now x) now) as [s1 [[]|e]] eqn:Hu; destruct (upsert_spec _ _ _ _ _ Hs Hu) as [Hs1 Hc1].
    + intros Hr. apply IH in Hr as [Hs' (w & u & -> & Hc & Hr)]; [|done]. split; [done|]. exists (x :: w), u. split; [done|].
      split; [by rewrite Hc, Hc1|]. destruct r as [[[seen' up'] back']|]; [|done]. destruct Hr as (-> & -> & -> & ->).
      cbn [sk_name stamp]. cbn [map list_to_set length app]. split_and!; [done|set_solver|lia|].
      rewrite names_cons_size. destruct (_ && _); lia.
    + intros [= <- <-]. split; [done|]. by exists [], (x :: scanned).
Qed.

Lemma rewrite_rows_lookup f scope names c k :
  rewrite_rows f scope names c !! k = (λ s, if bool_decide (k.1 ∈ names ∧ k.2 = scope_key scope) then f s else s) <$> c !! k.
Proof. unfold rewrite_rows. rewrite map_lookup_imap. by destruct (c !! k). Qed.

Lemma presence_same o : sk_present_on_disk o = false → presence_row false o = o.
Proof. destruct o. cbn. by intros ->. Qed.

Lemma presence_twice p q o : presence_row p (presence_row q o) = presence_row p o.
Proof. done. Qed.

Lemma now_absent_elem known seen n :
  n ∈ now_absent known seen ↔ ∃ k, k ∈ known ∧ sk_name k = n ∧ n ∉ seen ∧ sk_present_on_disk k = true.
Proof.
  unfold now_absent. rewrite list_elem_of_fmap. setoid_rewrite list_elem_of_filter. naive_solver.
Qed.

(** Every row of the catalog after a pass that may have failed at any point. *)
Definition pass_left (scope : SkillScope) (scanned : list IndexedSkill) (now : Z) (c : Catalog) (k : string * string)
    (x : option IndexedSkill) : Prop :=
  x = c !! k ∨
  (k.2 = scope_key scope ∧ ∃ b, b ∈ scanned ∧ sk_name b = k.1 ∧ x = Some (seen_in (c !! k) (stamp scope now b) now)).

Lemma sweep_lookup scope scanned now s s0 known k :
  list_scope s scope = (s0, Ok known) → catalog_inv s →
  rewrite_rows (presence_row false) scope (now_absent known (list_to_set (map sk_name scanned) ∪ ∅))
    (foldl (write_one scope now) (catalog s) scanned) !! k = scanned_row scope scanned now (catalog s) k.
Proof.
  intros Hl Hs. destruct (list_scope_spec _ _ _ _ Hs Hl) as (_ & _ & _ & Hk).
  rewrite rewrite_rows_lookup, writes_lookup. unfold scanned_row. destruct k as [n o]. cbn [fst snd].
  destruct (decide (o = scope_key scope)) as [->|Ho].
  2:{ rewrite !(bool_decide_eq_false_2 (o = scope_key scope)) by done. destruct (catalog s !! (n, o)); [|done]. cbn. by rewrite bool_decide_eq_false_2 by naive_solver. }
  rewrite !(bool_decide_eq_true_2 (scope_key scope = scope_key scope)) by done. destruct (last_named n scanned) as [b|] eqn:Hb.
  - cbn. rewrite bool_decide_eq_false_2; [done|]. rewrite now_absent_elem. intros [(x & _ & Hx & Hns & _) _].
    apply last_named_Some in Hb as [Hb <-]. apply Hns. apply elem_of_union_l, elem_of_list_to_set. by apply (list_elem_of_fmap_2 sk_name).
  - apply last_named_None in Hb. destruct (catalog s !! (n, scope_key scope)) as [o|] eqn:Ho; [|done]. cbn.
    destruct (sk_present_on_disk o) eqn:Hp.
    + rewrite bool_decide_eq_true_2; [done|]. split; [|done]. rewrite now_absent_elem. exists o.
      pose proof (catalog_keyed _ _ _ Hs Ho) as Hkey. injection Hkey as Hn _. rewrite Hk, Hn. split_and!; try done. set_solver.
    + rewrite presence_same by done. by case_bool_decide.
Qed.

Lemma reconcile_scan_ok s scope scanned now s' r :
  catalog_inv s → reconcile_scan s scope scanned now = (s', r) →
  catalog_inv s' ∧
  match r with
  | Err _ => ∀ k, pass_left scope scanned now (catalog s) k (catalog s' !! k)
  | Ok outcome =>
      (∀ k, catalog s' !! k = scanned_row scope scanned now (catalog s) k) ∧
      ∃ s0 known, list_scope s scope = (s0, Ok known) ∧
        upserted outcome = length scanned ∧
        marked_absent outcome = length (now_absent known (list_to_set (map sk_name scanned))) ∧
        restored outcome = size (filter (λ n, absent_before known !! n = Some true) (list_to_set (map sk_name scanned) : gset string))
  end.
Proof.
  intros Hs. unfold reconcile_scan. destruct (list_scope s scope) as [s0 [known|e]] eqn:Hl;
    destruct (list_scope_spec _ _ _ _ Hs Hl) as (Hs0 & Hc0 & Hknown).
  2:{ intros [= <- <-]. split; [done|]. intros k. left. by rewrite Hc0. }
  destruct (reconcile_loop scope (absent_before known) now scanned s0 ∅ 0 0) as [s1 r1] eqn:Hr.
  destruct (reconcile_loop_ok _ _ _ _ _ _ _ _ _ _ Hs0 Hr) as (Hs1 & w & u & -> & Hc1 & Hr1). rewrite Hc0 in Hc1.
  assert (Hpart : ∀ k, pass_left scope (w ++ u) now (catalog s) k (catalog s1 !! k)).
  { intros k. rewrite Hc1, writes_lookup. unfold pass_left. case_bool_decide; [|by left]. destruct (last_named k.1 w) as [b|] eqn:Hb; [|by left].
    right. apply last_named_Some in Hb as [Hb Hn]. split; [done|]. exists b. split_and!; [set_solver|done..]. }
  destruct r1 as [[[seen up] back]|e]; [|intros [= <- <-]; done].
  destruct Hr1 as (-> & -> & -> & ->). rewrite app_nil_r in *. cbn [Nat.add].
  rewrite (union_empty_r_L (list_to_set (map sk_name w) : gset string)), (difference_empty_L (list_to_set (map sk_name w) : gset string)).
  assert (Hfull := λ k, sweep_lookup scope w now s s0 known k Hl Hs).
  rewrite (union_empty_r_L (list_to_set (map sk_name w) : gset string)) in Hfull. rewrite <- Hc1 in Hfull.
  destruct (now_absent known (list_to_set (map sk_name w))) as [|n ns] eqn:Hna.
  - intros [= <- <-]. split; [done|]. split; [|by eexists _, _; rewrite Hna].
    intros k. rewrite <- Hfull, rewrite_rows_lookup. destruct (catalog s1 !! k); [|done]. cbn. rewrite bool_decide_eq_false_2; [done|]. set_solver.
  - destruct (set_presence s1 scope (n :: ns) false) as [s2 [[]|e]] eqn:Hp; destruct (set_presence_spec _ _ _ _ _ _ Hs1 Hp) as [Hs2 Hc2].
    + intros [= <- <-]. split; [done|]. split; [intros k; by rewrite Hc2|by eexists _, _; rewrite Hna].
    + intros [= <- <-]. split; [done|]. intros k. by rewrite Hc2.
Qed.

Lemma a_scan_keeps_rows s scope scanned now s' r (Hs : catalog_inv s)
    (Hr : reconcile_scan s scope scanned now = (s', r)) :
  (∀ k old, catalog s !! k = Some old → ∃ new, catalog s' !! k = Some new ∧
     sk_owner_user_id new = sk_owner_user_id old ∧
     sk_approved_at new = sk_approved_at old ∧ sk_approved_by new = sk_approved_by old ∧
     (k.2 ≠ scope_key scope → new = old) ∧
     (k.1 ∉ map sk_name scanned → new = old ∨ new = presence_row false old)) ∧
  (∀ k, catalog s !! k = None → is_Some (catalog s' !! k) → k.2 = scope_key scope ∧ k.1 ∈ map sk_name scanned).
Proof.
  destruct (reconcile_scan_ok _ _ _ _ _ _ Hs Hr) as [_ Hok].
  assert (Hrow : ∀ k, pass_left scope scanned now (catalog s) k (catalog s' !! k) ∨
      (k.2 = scope_key scope ∧ catalog s' !! k = presence_row false <$> catalog s !! k)).
  { intros k. destruct r as [o|e]; [|by left]. destruct Hok as [Hk _]. rewrite Hk. unfold scanned_row.
    case_bool_decide as Hkey; [|left; by left]. destruct (last_named k.1 scanned) as [b|] eqn:Hb; [|by right].
    left. right. split; [done|]. apply last_named_Some in Hb as [Hb Hn]. by exists b. }
  assert (Hnamed : ∀ b n, b ∈ scanned → sk_name b = n → n ∈ map sk_name scanned) by (intros b n Hb <-; by apply list_elem_of_fmap_2).
  split.
  - intros k old Ho. destruct (Hrow k) as [[Hk|(Hkey & b & Hb & Hn & Hk)]|[Hkey Hk]]; rewrite Hk, Ho; eexists; (split; [done|]); split_and!; try done; try naive_solver.
  - intros k Hno [x Hx]. destruct (Hrow k) as [[Hk|(Hkey & b & Hb & Hn & Hk)]|[Hkey Hk]]; [congruence|eauto|]. rewrite Hno in Hk. cbn in Hk. congruence.
Qed.

(** A reconcile pass forgets nothing, whatever fails in it: every row the
    catalog had is still there with its owner and a person's approval as they
    were; a row of another scope is untouched; a row of the scope the scan did
    not name changes at most in being marked absent; and a row that is new
    belongs to the scope and was named by the scan. *)
Theorem a_scan_forgets_nothing s scope scanned now s' r (Hs : catalog_inv s)
    (Hr : reconcile_scan s scope scanned now = (s', r)) :
  (∀ k old, catalog s !! k = Some old → ∃ new, catalog s' !! k = Some new ∧
     sk_owner_user_id new = sk_owner_user_id old ∧
     sk_approved_at new = sk_approved_at old ∧ sk_approved_by new = sk_approved_by old ∧
     (k.2 ≠ scope_key scope → new = old) ∧
     (k.1 ∉ map sk_name scanned → new = old ∨ new = presence_row false old)) ∧
  (∀ k, catalog s !! k = None → is_Some (catalog s' !! k) → k.2 = scope_key scope ∧ k.1 ∈ map sk_name scanned).
Proof. by eapply a_scan_keeps_rows. Qed.

(** A pass is safe to retry: whatever a first attempt at a scan did before it
    stopped, a later attempt that succeeds leaves exactly the catalog the scan
    calls for from the one before both - scanned names carry the scan's content
    and are present, the rest of the scope is absent, nothing else moved. *)
Theorem a_pass_can_be_retried s scope scanned now s1 r1 s2 outcome (Hs : catalog_inv s)
    (H1 : reconcile_scan s scope scanned now = (s1, r1))
    (H2 : reconcile_scan s1 scope scanned now = (s2, Ok outcome)) :
  ∀ k, catalog s2 !! k = scanned_row scope scanned now (catalog s) k.
Proof.
  destruct (reconcile_scan_ok _ _ _ _ _ _ Hs H1) as [Hs1 Hk1]. destruct (reconcile_scan_ok _ _ _ _ _ _ Hs1 H2) as [_ [Hk2 _]].
  intros k. rewrite Hk2. clear Hk2 H1 H2. unfold scanned_row. case_bool_decide as Hkey.
  2:{ destruct r1 as [o|e]; [destruct Hk1 as [Hk1 _]; rewrite Hk1; unfold scanned_row; by rewrite bool_decide_eq_false_2|].
      destruct (Hk1 k) as [->|[? _]]; done. }
  assert (Hone : ∀ x, pass_left scope scanned now (catalog s) k x ∨ x = scanned_row scope scanned now (catalog s) k →
    match last_named k.1 scanned with
    | Some b => Some (seen_in x (stamp scope now b) now)
    | None => presence_row false <$> x
    end = scanned_row scope scanned now (catalog s) k).
  { intros x Hx. unfold scanned_row in *. rewrite bool_decide_eq_true_2 in * by done. destruct (last_named k.1 scanned) as [b|] eqn:Hb.
    - destruct Hx as [[->|(_ & b' & _ & _ & ->)]| ->]; [done|by rewrite seen_again..].
    - apply last_named_None in Hb. destruct Hx as [[->|(_ & b' & Hb' & Hn & _)]| ->]; [done|..].
      + exfalso. apply Hb. rewrite <- Hn. by apply list_elem_of_fmap_2.
      + by destruct (catalog s !! k). }
  rewrite Hone; [unfold scanned_row; by rewrite bool_decide_eq_true_2|].
  destruct r1 as [o|e]; [right; by apply Hk1|left; by apply Hk1].
Qed.

(** Running a pass again over the same scan changes nothing, marks nothing and
    restores nothing. *)
Theorem a_second_pass_is_idle s scope scanned now s1 o1 s2 o2 (Hs : catalog_inv s)
    (H1 : reconcile_scan s scope scanned now = (s1, Ok o1))
    (H2 : reconcile_scan s1 scope scanned now = (s2, Ok o2)) :
  catalog s2 = catalog s1 ∧ o2 = {| upserted := length scanned; marked_absent := 0; restored := 0 |}.
Proof.
  destruct (reconcile_scan_ok _ _ _ _ _ _ Hs H1) as [Hs1 [Hk1 _]].
  destruct (reconcile_scan_ok _ _ _ _ _ _ Hs1 H2) as [_ [Hk2 (s0 & known & Hl & Hu & Hm & Hb)]]. split.
  { apply map_eq. intros k. rewrite Hk2. unfold scanned_row at 1. rewrite Hk1. unfold scanned_row. case_bool_decide; [|done].
    destruct (last_named k.1 scanned); [by rewrite seen_again|]. by destruct (catalog s !! k). }
  destruct (list_scope_spec _ _ _ _ Hs1 Hl) as (_ & _ & Hnd & Hin).
  assert (Hpres : ∀ x, x ∈ known → sk_present_on_disk x = bool_decide (sk_name x ∈ map sk_name scanned)).
  { intros x Hx%Hin. rewrite Hk1 in Hx. unfold scanned_row in Hx. cbn [fst snd] in Hx. rewrite bool_decide_eq_true_2 in Hx by done.
    destruct (last_named (sk_name x) scanned) as [b|] eqn:Hb'.
    - rewrite bool_decide_eq_true_2; [|apply last_named_Some in Hb' as [Hb' <-]; by apply list_elem_of_fmap_2].
      injection Hx as <-. by destruct (catalog s !! _).
    - apply last_named_None in Hb'. rewrite bool_decide_eq_false_2 by done. destruct (catalog s !! _); [|done]. by injection Hx as <-. }
  destruct o2 as [u m b]. cbn in *. subst u m b. f_equal.
  - replace (now_absent known (list_to_set (map sk_name scanned))) with (@nil string); [done|]. symmetry. apply elem_of_nil_inv.
    intros n (x & Hx & Hn & Hno & Hp)%now_absent_elem. rewrite Hpres in Hp by done. apply bool_decide_eq_true in Hp. set_solver.
  - replace (filter _ _) with (∅ : gset string); [done|]. symmetry. apply set_eq. intros n. rewrite elem_of_filter, elem_of_list_to_set.
    split; [|set_solver]. intros [Ha Hn]. exfalso.
    assert (Hab : ∃ x, x ∈ known ∧ sk_name x = n ∧ sk_present_on_disk x = false).
    { clear -Ha. revert Ha. unfold absent_before. induction known as [|x l IH] using rev_ind; [done|]. rewrite foldl_app. cbn [foldl].
      destruct (decide (sk_name x = n)) as [<-|Hne].
      - rewrite lookup_insert_eq. intros [= Hp]. exists x. rewrite negb_true_iff in Hp. split_and!; [set_solver|done..].
      - rewrite lookup_insert_ne by done. intros (y & Hy & ?)%IH. exists y. split; [set_solver|done]. }
    destruct Hab as (x & Hx & <- & Hp). rewrite Hpres in Hp by done. apply bool_decide_eq_false in Hp. done.
Qed.

End reconcile_ok.

(** ** Consent

    What happens to a catalog: scans, the assistant's own writes, and a person's
    decisions, each of which may fail. *)

Inductive CatalogOp :=
| Scan (scope : SkillScope) (scanned : list IndexedSkill) (now : Z)
| Author (skill : IndexedSkill) (authored_at : Z)
| Decide (scope : SkillScope) (names : list string) (approval : option SkillApproval).

Definition approves (k : string * string) (op : CatalogOp) : Prop :=
  match op with Decide scope names (Some _) => k.1 ∈ names ∧ k.2 = scope_key scope | _ => False end.

Section consent.
Context {St : Type} `{SkillIndexStoreLaws St}.

Definition catalog_step (s : St) (op : CatalogOp) : St :=
  match op with
  | Scan scope scanned now => (reconcile_scan s scope scanned now).1
  | Author skill at_ => (write_authored s skill at_).1
  | Decide scope names approval => (set_approval s scope names approval).1
  end.

Lemma catalog_step_inv s op : catalog_inv s → catalog_inv (catalog_step s op).
Proof.
  intros Hs. destruct op as [scope scanned now|skill at_|scope names a]; cbn [catalog_step].
  - destruct (reconcile_scan s scope scanned now) as [s' r] eqn:Hr. by eapply reconcile_scan_ok.
  - destruct (write_authored s skill at_) as [s' r] eqn:Hr. by eapply write_authored_spec.
  - destruct (set_approval s scope names a) as [s' r] eqn:Hr. by eapply set_approval_spec.
Qed.

Lemma catalog_step_unapproved s op k old :
  catalog_inv s → catalog s !! k = Some old → is_approved old = false → ¬ approves k op →
  ∃ new, catalog (catalog_step s op) !! k = Some new ∧ is_approved new = false.
Proof.
  intros Hs Ho Ha Hno. destruct op as [scope scanned now|skill at_|scope names a]; cbn [catalog_step].
  - destruct (reconcile_scan s scope scanned now) as [s' r] eqn:Hr.
    destruct (a_scan_keeps_rows s scope scanned now s' r Hs Hr) as [Hkeep _]. destruct (Hkeep k old Ho) as (new & Hn & _ & Hap & _).
    exists new. split; [done|]. unfold is_approved in *. by rewrite Hap.
  - destruct (write_authored s skill at_) as [s' r] eqn:Hr. destruct (write_authored_spec _ _ _ _ _ Hs Hr) as [_ Hc]. cbn [fst].
    rewrite Hc. destruct r as [[]|]; [|by exists old]. destruct (decide (skill_key skill = k)) as [<-|Hne].
    + rewrite lookup_insert_eq. eexists. split; [done|]. by destruct (catalog s !! skill_key skill).
    + rewrite lookup_insert_ne by done. by exists old.
  - destruct (set_approval s scope names a) as [s' r] eqn:Hr. destruct (set_approval_spec _ _ _ _ _ _ Hs Hr) as [_ Hc]. cbn [fst].
    rewrite Hc. destruct r as [[]|]; [|by exists old]. rewrite rewrite_rows_lookup, Ho. cbn. eexists. split; [done|].
    case_bool_decide as Hk; [|done]. destruct a as [a|]; [by destruct Hno|done].
Qed.

(** C39. Consent is a person's alone: a skill that is not approved stays in the
    catalog unapproved through every sequence of scans, of the assistant's own
    writes and of decisions about other skills, whichever of them fail. *)
Theorem only_a_person_approves s ops k old (Hs : catalog_inv s) (Ho : catalog s !! k = Some old)
    (Ha : is_approved old = false) (Hops : Forall (λ op, ¬ approves k op) ops) :
  ∃ new, catalog (foldl catalog_step s ops) !! k = Some new ∧ is_approved new = false.
Proof.
  revert s old Hs Ho Ha. induction Hops as [|op ops Hop _ IH]; intros s old Hs Ho Ha; [by exists old|].
  destruct (catalog_step_unapproved s op k old Hs Ho Ha Hop) as (new & Hn & Hna). cbn [foldl].
  by eapply IH; [apply catalog_step_inv| |].
Qed.

(** What the assistant writes is there, absent from disk and unapproved, and the
    approval the row may have had went with its old body. *)
Lemma an_authored_skill_awaits_approval s skill at_ s' (Hs : catalog_inv s)
    (Hw : write_authored s skill at_ = (s', Ok tt)) :
  ∃ new, catalog s' !! skill_key skill = Some new ∧ is_approved new = false ∧ sk_present_on_disk new = false ∧
    sk_body new = sk_body skill ∧ sk_source new = sk_source skill ∧
    ∀ k, k ≠ skill_key skill → catalog s' !! k = catalog s !! k.
Proof.
  destruct (write_authored_spec _ _ _ _ _ Hs Hw) as [_ Hc]. rewrite Hc, lookup_insert_eq. eexists. split; [done|].
  destruct (catalog s !! skill_key skill); split_and!; try done; intros k Hk; by rewrite lookup_insert_ne.
Qed.

End consent.

(** ** The SQLite adapter *)

(** [to_rfc3339_opts(Secs, true)] and [parse_from_rfc3339], with SQLite's own
    [datetime('now')]. *)
Class Rfc3339 := { to_text : Z → string; parse_ts : string → option Z }.

Definition whole_seconds (t : Z) : Z := (t / 1000000000 * 1000000000)%Z.

Class Rfc3339Laws `{Rfc3339} := { parse_to_text t : parse_ts (to_text t) = Some (whole_seconds t) }.

Module SkillSqlite.
Section sqlite.
Context `{Rfc3339}.

Record SkillRow := {
  row_name : string;
  row_owner_user_id : option string;
  row_description : string;
  row_kind : string;
  row_disk_path : string;
  row_locality : string;
  row_content_hash : string;
  row_trust_tier : string;
  row_source : option string;
  row_tags : list string;
  row_attachments : list string;
  row_body : string;
  row_metadata : Value;
  row_present_on_disk : Z;
  row_last_seen_at : option string;
  row_approved_at : option string;
  row_approved_by : option string;
  row_indexed_at : string
}.

(** The table in [id] order, the outcome of the statements to come (success when
    none is listed), and what [datetime('now')] reads. *)
Record SkillDb := { db_rows : list SkillRow; db_statements : list (option string); db_now : string }.

Definition statement (d : SkillDb) : SkillDb * option string :=
  match db_statements d with
  | [] => (d, None)
  | o :: rest => ({| db_rows := db_rows d; db_statements := rest; db_now := db_now d |}, o)
  end.

Definition with_rows (d : SkillDb) (rows : list SkillRow) : SkillDb :=
  {| db_rows := rows; db_statements := db_statements d; db_now := db_now d |}.

(** The generated column, and the unique index. *)
Definition row_key (r : SkillRow) : string * string := (row_name r, owner_key (row_owner_user_id r)).

Definition into_domain (r : SkillRow) : IndexedSkill :=
  {| sk_name := row_name r; sk_description := row_description r; sk_kind := SkillKind_from_db (row_kind r);
     sk_disk_path := row_disk_path r; sk_owner_user_id := row_owner_user_id r;
     sk_locality := Locality_from_db (row_locality r); sk_content_hash := row_content_hash r;
     sk_trust_tier := TrustTier_from_db (row_trust_tier r); sk_source := row_source r; sk_tags := row_tags r;
     sk_attachments := row_attachments r; sk_body := row_body r; sk_metadata := row_metadata r;
     sk_present_on_disk := negb (row_present_on_disk r =? 0)%Z;
     sk_last_seen_at := row_last_seen_at r ≫= parse_ts; sk_approved_at := row_approved_at r ≫= parse_ts;
     sk_approved_by := row_approved_by r |}.

(** The bound columns of a skill, under the index state given. *)
Definition row_of (s : IndexedSkill) (owner : option string) (present : Z) (seen approved by_ : option string) (indexed : string) : SkillRow :=
  {| row_name := sk_name s; row_owner_user_id := owner; row_description := sk_description s;
     row_kind := SkillKind_as_str (sk_kind s); row_disk_path := sk_disk_path s;
     row_locality := Locality_as_str (sk_locality s); row_content_hash := sk_content_hash s;
     row_trust_tier := TrustTier_as_str (sk_trust_tier s); row_source := sk_source s; row_tags := sk_tags s;
     row_attachments := sk_attachments s; row_body := sk_body s; row_metadata := sk_metadata s;
     row_present_on_disk := present; row_last_seen_at := seen; row_approved_at := approved; row_approved_by := by_;
     row_indexed_at := indexed |}.

(** [INSERT ... ON CONFLICT (name, owner_key) DO UPDATE]. *)
Definition insert_or_update (new : SkillRow) (update : SkillRow → SkillRow) (rows : list SkillRow) : list SkillRow :=
  if existsb (λ r, bool_decide (row_key r = row_key new)) rows
  then map (λ r, if bool_decide (row_key r = row_key new) then update r else r) rows
  else rows ++ [new].

Definition upsert_row (d : SkillDb) (s : IndexedSkill) (seen_at : Z) : SkillDb * result unit CoreError :=
  match statement d with
  | (d, Some e) => (d, Err (Storage e))
  | (d, None) =>
      let new := row_of s (sk_owner_user_id s) 1 (Some (to_text seen_at)) (to_text <$> sk_approved_at s) (sk_approved_by s) (db_now d) in
      (with_rows d (insert_or_update new
         (λ r, row_of s (row_owner_user_id r) 1 (Some (to_text seen_at)) (row_approved_at r) (row_approved_by r) (db_now d))
         (db_rows d)), Ok tt)
  end.

Definition write_authored_row (d : SkillDb) (s : IndexedSkill) (authored_at : Z) : SkillDb * result unit CoreError :=
  match statement d with
  | (d, Some e) => (d, Err (Storage e))
  | (d, None) =>
      let new := row_of s (sk_owner_user_id s) 0 (to_text <$> sk_last_seen_at s) None None (to_text authored_at) in
      (with_rows d (insert_or_update new
         (λ r, row_of s (row_owner_user_id r) 0 (row_last_seen_at r) None None (to_text authored_at))
         (db_rows d)), Ok tt)
  end.

Definition in_scope (scope : SkillScope) (r : SkillRow) : bool :=
  bool_decide (owner_key (row_owner_user_id r) = default EmptyString (scope_owner scope)).

Definition sq_list_scope (d : SkillDb) (scope : SkillScope) : SkillDb * result (list IndexedSkill) CoreError :=
  match statement d with
  | (d, Some e) => (d, Err (Storage e))
  | (d, None) =>
      (d, Ok (map into_domain (sort_by (λ a b, String.leb (row_name a) (row_name b)) (filter (in_scope scope) (db_rows d)))))
  end.

(** [UPDATE ... WHERE owner_key = ? AND name IN (...)]. *)
Definition update_named (scope : SkillScope) (names : list string) (f : SkillRow → SkillRow) (rows : list SkillRow) : list SkillRow :=
  map (λ r, if in_scope scope r && bool_decide (row_name r ∈ names) then f r else r) rows.

Definition set_row_presence (present : bool) (r : SkillRow) : SkillRow :=
  {| row_name := row_name r; row_owner_user_id := row_owner_user_id r; row_description := row_description r;
     row_kind := row_kind r; row_disk_path := row_disk_path r; row_locality := row_locality r;
     row_content_hash := row_content_hash r; row_trust_tier := row_trust_tier r; row_source := row_source r;
     row_tags := row_tags r; row_attachments := row_attachments r; row_body := row_body r; row_metadata := row_metadata r;
     row_present_on_disk := if present then 1 else 0; row_last_seen_at := row_last_seen_at r;
     row_approved_at := row_approved_at r; row_approved_by := row_approved_by r; row_indexed_at := row_indexed_at r |}.

Definition set_row_approval (at_ by_ : option string) (r : SkillRow) : SkillRow :=
  {| row_name := row_name r; row_owner_user_id := row_owner_user_id r; row_description := row_description r;
     row_kind := row_kind r; row_disk_path := row_disk_path r; row_locality := row_locality r;
     row_content_hash := row_content_hash r; row_trust_tier := row_trust_tier r; row_source := row_source r;
     row_tags := row_tags r; row_attachments := row_attachments r; row_body := row_body r; row_metadata := row_metadata r;
     row_present_on_disk := row_present_on_disk r; row_last_seen_at := row_last_seen_at r;
     row_approved_at := at_; row_approved_by := by_; row_indexed_at := row_indexed_at r |}.

Definition sq_set_presence (d : SkillDb) (scope : SkillScope) (names : list string) (present : bool) : SkillDb * result unit CoreError :=
  match names with
  | [] => (d, Ok tt)
  | _ =>
      match statement d with
      | (d, Some e) => (d, Err (Storage e))
      | (d, None) => (with_rows d (update_named scope names (set_row_presence present) (db_rows d)), Ok tt)
      end
  end.

Definition sq_set_approval (d : SkillDb) (scope : SkillScope) (names : list string) (approval : option SkillApproval)
    : SkillDb * result unit CoreError :=
  match names with
  | [] => (d, Ok tt)
  | _ =>
      match statement d with
      | (d, Some e) => (d, Err (Storage e))
      | (d, None) =>
          (with_rows d (update_named scope names
             (set_row_approval (to_text ∘ ap_at <$> approval) (approval ≫= ap_by)) (db_rows d)), Ok tt)
      end
  end.

(** [Some(_)] is the caller's own scope, whoever it names. *)
Definition sq_get (d : SkillDb) (user name : string) (owner : option string) : SkillDb * result (option IndexedSkill) CoreError :=
  match statement d with
  | (d, Some e) => (d, Err (Storage e))
  | (d, None) =>
      let key := default EmptyString ((λ _, user) <$> owner) in
      (d, Ok (into_domain <$> List.find (λ r, bool_decide (row_key r = (name, key))) (db_rows d)))
  end.

(** The browse listing: the host's skills and the caller's own, newest first;
    [LIMIT -1] is no limit. *)
Definition newest_first (a b : SkillRow) : bool := String.leb (row_indexed_at b) (row_indexed_at a).

Definition sq_list (d : SkillDb) (user : string) (limit : option Z) : SkillDb * result (list IndexedSkill) CoreError :=
  match statement d with
  | (d, Some e) => (d, Err (Storage e))
  | (d, None) =>
      let visible := filter (λ r, row_owner_user_id r = None ∨ row_owner_user_id r = Some user) (db_rows d) in
      let ordered := sort_by newest_first (rev visible) in
      let lim := default (-1)%Z limit in
      (d, Ok (map into_domain (if (lim <? 0)%Z then ordered else take (Z.to_nat lim) ordered)))
  end.

#[export] Instance sqlite_skill_index : SkillIndexStore SkillDb := {
  upsert := upsert_row; write_authored := write_authored_row; set_approval := sq_set_approval;
  list_scope := sq_list_scope; set_presence := sq_set_presence; get_skill := sq_get
}.

End sqlite.
(** *** The adapter keeps the port's contract *)

Section laws.
Context {rfc : Rfc3339} {rfc_laws : Rfc3339Laws}.

Definition table_catalog (d : SkillDb) : Catalog := list_to_map (map (λ r, (row_key r, into_domain r)) (db_rows d)).
Definition unique_rows (d : SkillDb) : Prop := NoDup (map row_key (db_rows d)).

Definition find_row (k : string * string) (rows : list SkillRow) : option SkillRow := List.find (λ r, bool_decide (row_key r = k)) rows.

Lemma table_lookup d k : table_catalog d !! k = into_domain <$> find_row k (db_rows d).
Proof.
  unfold table_catalog, find_row. induction (db_rows d) as [|r l IH]; [done|]. cbn [map list_to_map List.find fst snd foldr].
  case_bool_decide as Hk; [by rewrite Hk, lookup_insert_eq|]. by rewrite lookup_insert_ne.
Qed.

Lemma find_row_Some k rows r : find_row k rows = Some r → r ∈ rows ∧ row_key r = k.
Proof. unfold find_row. intros [Hin Hk]%List.find_some. apply bool_decide_eq_true in Hk. by rewrite list_elem_of_In. Qed.

Lemma find_row_elem k rows r : NoDup (map row_key rows) → r ∈ rows → row_key r = k → find_row k rows = Some r.
Proof.
  intros Hnd Hin Hk. destruct (find_row k rows) as [r'|] eqn:Hf.
  - apply find_row_Some in Hf as [Hin' Hk']. f_equal. eapply NoDup_map_eq; [exact Hnd|done..|congruence].
  - apply list_elem_of_In in Hin. pose proof (List.find_none _ _ Hf r Hin) as Hno. by apply bool_decide_eq_false in Hno.
Qed.

(** A rewrite of rows that keeps their keys. *)
Lemma find_row_map (g : SkillRow → SkillRow) k rows : (∀ r, row_key (g r) = row_key r) → find_row k (map g rows) = g <$> find_row k rows.
Proof.
  intros Hg. unfold find_row. induction rows as [|r rows IH]; [done|]. cbn [map List.find]. rewrite Hg, IH. by case_bool_decide.
Qed.

Lemma map_row_key (g : SkillRow → SkillRow) rows : (∀ r, row_key (g r) = row_key r) → map row_key (map g rows) = map row_key rows.
Proof. intros Hg. rewrite map_map. apply map_ext. exact Hg. Qed.

Lemma find_row_exists k rows : existsb (λ r, bool_decide (row_key r = k)) rows = bool_decide (is_Some (find_row k rows)).
Proof.
  unfold find_row. induction rows as [|r rows IH]; [done|]. cbn [existsb List.find]. rewrite IH.
  destruct (bool_decide (row_key r = k)); [|done]. cbn [orb]. by rewrite bool_decide_eq_true_2.
Qed.

Lemma find_row_app k rows r :
  find_row k (rows ++ [r]) = match find_row k rows with Some x => Some x | None => if bool_decide (row_key r = k) then Some r else None end.
Proof. unfold find_row. induction rows as [|x rows IH]; cbn [List.find app]; [done|]. by destruct (bool_decide (row_key x = k)). Qed.

Lemma insert_or_update_find new update rows k :
  (∀ r, row_key r = row_key new → row_key (update r) = row_key r) →
  find_row k (insert_or_update new update rows) =
  if bool_decide (k = row_key new) then Some (match find_row k rows with Some r => update r | None => new end) else find_row k rows.
Proof.
  intros Hup. unfold insert_or_update. rewrite find_row_exists. case_bool_decide as Hex.
  - rewrite find_row_map by (intros r; case_bool_decide; [by apply Hup|done]). case_bool_decide as Hk.
    + subst k. destruct Hex as [r Hr]. rewrite Hr. apply find_row_Some in Hr as [_ Hr]. cbn. by rewrite bool_decide_eq_true_2.
    + destruct (find_row k rows) as [r|] eqn:Hr; [|done]. apply find_row_Some in Hr as [_ Hr]. cbn. rewrite bool_decide_eq_false_2; [done|congruence].
  - apply eq_None_not_Some in Hex. rewrite find_row_app. destruct (decide (k = row_key new)) as [->|Hk].
    + by rewrite Hex, !bool_decide_eq_true_2.
    + rewrite !bool_decide_eq_false_2 by congruence. by destruct (find_row k rows).
Qed.

Lemma insert_or_update_unique new update rows :
  (∀ r, row_key r = row_key new → row_key (update r) = row_key r) →
  NoDup (map row_key rows) → NoDup (map row_key (insert_or_update new update rows)).
Proof.
  intros Hup Hnd. unfold insert_or_update. rewrite find_row_exists. case_bool_decide as Hex.
  - rewrite map_row_key; [done|]. intros r. case_bool_decide; [by apply Hup|done].
  - rewrite map_app. apply NoDup_app. cbn [map]. split_and!; [done| |by apply NoDup_singleton]. intros k Hk Hn. apply list_elem_of_singleton in Hn as ->.
    apply Hex. apply list_elem_of_fmap in Hk as (r & Hk & Hin). exists r. by apply find_row_elem.
Qed.

Lemma statement_rows d : db_rows (statement d).1 = db_rows d.
Proof. unfold statement. by destruct (db_statements d). Qed.

Lemma read_back_seen s (owner : option string) (present : Z) seen (approved : option string) by_ indexed :
  into_domain (row_of s owner present seen approved by_ indexed) =
  with_state s owner (negb (present =? 0)%Z) (seen ≫= parse_ts) (approved ≫= parse_ts) by_.
Proof. unfold into_domain, row_of. cbn. by rewrite SkillKind_from_as, Locality_from_as, TrustTier_from_as. Qed.

Lemma read_back_time (o : option Z) : (to_text <$> o) ≫= parse_ts = whole_seconds <$> o.
Proof using rfc_laws. destruct o; [|done]. cbn. by rewrite parse_to_text. Qed.

(** Both upserts: what a read shows of the key is [f] of what it showed. *)
Lemma insert_or_update_spec d d' key new upd (f : option IndexedSkill → IndexedSkill) :
  row_key new = key → (∀ r, row_key r = key → row_key (upd r) = key) →
  into_domain new = f None → (∀ r, into_domain (upd r) = f (Some (into_domain r))) →
  unique_rows d → db_rows d' = insert_or_update new upd (db_rows d) →
  unique_rows d' ∧ table_catalog d' = <[key := f (table_catalog d !! key)]> (table_catalog d).
Proof.
  intros Hk Hup Hn Hu Hun Hd. assert (Hup' : ∀ r, row_key r = row_key new → row_key (upd r) = row_key r).
  { intros r Hr. rewrite Hr, Hk. apply Hup. congruence. }
  split; [unfold unique_rows; rewrite Hd; by apply insert_or_update_unique|]. apply map_eq. intros k.
  rewrite table_lookup, Hd, insert_or_update_find, Hk by done. case_bool_decide as Hkk.
  - subst k. rewrite lookup_insert_eq, table_lookup. cbn [fmap option_fmap option_map]. f_equal.
    destruct (find_row key (db_rows d)) as [x|]; [apply Hu|apply Hn].
  - by rewrite lookup_insert_ne, table_lookup.
Qed.

Lemma upsert_row_spec s sk t s' r :
  unique_rows s → upsert_row s sk t = (s', r) → unique_rows s' ∧
  table_catalog s' = match r with
    | Ok _ => <[skill_key sk := seen_row whole_seconds (table_catalog s !! skill_key sk) sk t]> (table_catalog s)
    | Err _ => table_catalog s end.
Proof using rfc_laws.
  intros Hu. unfold upsert_row. pose proof (statement_rows s) as Hr. destruct (statement s) as [d [e|]]; cbn [fst] in Hr; intros [= <- <-].
  - unfold unique_rows, table_catalog in *. by rewrite Hr.
  - eapply (insert_or_update_spec s _ _ _ _ (λ old, seen_row whole_seconds old sk t)); [..|exact Hu|cbn; by rewrite Hr].
    + done.
    + intros x Hx. apply (f_equal snd) in Hx. unfold row_key, skill_key, owner_key in *. cbn in *. by rewrite Hx.
    + rewrite read_back_seen, read_back_time. cbn. by rewrite parse_to_text.
    + intros x. cbv beta. rewrite read_back_seen. cbn. by rewrite parse_to_text.
Qed.

Lemma write_authored_row_spec s sk t s' r :
  unique_rows s → write_authored_row s sk t = (s', r) → unique_rows s' ∧
  table_catalog s' = match r with
    | Ok _ => <[skill_key sk := authored_row whole_seconds (table_catalog s !! skill_key sk) sk]> (table_catalog s)
    | Err _ => table_catalog s end.
Proof using rfc_laws.
  intros Hu. unfold write_authored_row. pose proof (statement_rows s) as Hr. destruct (statement s) as [d [e|]]; cbn [fst] in Hr; intros [= <- <-].
  - unfold unique_rows, table_catalog in *. by rewrite Hr.
  - eapply (insert_or_update_spec s _ _ _ _ (λ old, authored_row whole_seconds old sk)); [..|exact Hu|cbn; by rewrite Hr].
    + done.
    + intros x Hx. apply (f_equal snd) in Hx. unfold row_key, skill_key, owner_key in *. cbn in *. by rewrite Hx.
    + by rewrite read_back_seen, read_back_time.
    + intros x. cbv beta. by rewrite read_back_seen.
Qed.

(** Both updates by name: a rewrite of rows that a read shows as [f]. *)
Lemma update_named_spec (g : SkillRow → SkillRow) (f : IndexedSkill → IndexedSkill) scope names d d' :
  (∀ r, row_key (g r) = row_key r) → (∀ r, into_domain (g r) = f (into_domain r)) →
  unique_rows d → db_rows d' = update_named scope names g (db_rows d) →
  unique_rows d' ∧ table_catalog d' = rewrite_rows f scope names (table_catalog d).
Proof.
  intros Hg Hf Hu Hd. unfold update_named in Hd. set (h := λ r, if in_scope scope r && bool_decide (row_name r ∈ names) then g r else r) in Hd.
  assert (Hh : ∀ r, row_key (h r) = row_key r) by (intros r; unfold h; destruct (_ && _); [apply Hg|done]).
  split; [unfold unique_rows; by rewrite Hd, map_row_key|]. apply map_eq. intros k.
  rewrite table_lookup, Hd, find_row_map, rewrite_rows_lookup, table_lookup by done.
  destruct (find_row k (db_rows d)) as [r|] eqn:Hr; [|done]. apply find_row_Some in Hr as [_ <-]. cbn. f_equal. unfold h, in_scope.
  replace (bool_decide (row_name r ∈ names ∧ owner_key (row_owner_user_id r) = scope_key scope))
    with (bool_decide (owner_key (row_owner_user_id r) = default "" (scope_owner scope)) && bool_decide (row_name r ∈ names)).
  2:{ unfold scope_key, owner_key. repeat case_bool_decide; naive_solver. }
  destruct (_ && _); [apply Hf|done].
Qed.

Lemma rewrite_rows_nil f scope c : rewrite_rows f scope [] c = c.
Proof.
  apply map_eq. intros k. rewrite rewrite_rows_lookup. destruct (c !! k); [|done]. cbn. rewrite bool_decide_eq_false_2; [done|]. intros [Hn _]. by apply not_elem_of_nil in Hn.
Qed.

Lemma sq_list_scope_ok d scope :
  unique_rows d →
  let l := map into_domain (sort_by (λ a b, String.leb (row_name a) (row_name b)) (filter (in_scope scope) (db_rows d))) in
  NoDup (map sk_name l) ∧ ∀ sk, sk ∈ l ↔ table_catalog d !! (sk_name sk, scope_key scope) = Some sk.
Proof.
  intros Hu. cbn zeta. set (rs := filter (in_scope scope) (db_rows d)).
  assert (Hrs : ∀ r, r ∈ rs ↔ r ∈ db_rows d ∧ owner_key (row_owner_user_id r) = scope_key scope).
  { intros r. unfold rs, in_scope. rewrite list_elem_of_filter. unfold scope_key, owner_key. rewrite bool_decide_spec. naive_solver. }
  split.
  - rewrite map_map. replace (map _ _) with (map row_name (sort_by (λ a b, String.leb (row_name a) (row_name b)) rs)) by (by apply map_ext).
    rewrite (sort_by_perm _ rs). apply NoDup_fmap_2_strong.
    + intros x y [Hx Hxo]%Hrs [Hy Hyo]%Hrs Hn. eapply NoDup_map_eq; [exact Hu|done..|]. unfold row_key. congruence.
    + apply NoDup_filter. by eapply NoDup_fmap_1.
  - intros sk. rewrite list_elem_of_fmap. setoid_rewrite elem_of_sort_by. setoid_rewrite Hrs. rewrite table_lookup. split.
    + intros (r & -> & Hin & Ho). by rewrite (find_row_elem _ _ r); [|done..|unfold row_key; rewrite Ho].
    + destruct (find_row _ _) as [r|] eqn:Hf; [|done]. intros [= <-]. apply find_row_Some in Hf as [Hin Hk]. exists r.
      split_and!; [done..|]. by injection Hk.
Qed.

#[export] Instance sqlite_skill_index_laws : SkillIndexStoreLaws SkillDb.
Proof using rfc_laws.
  refine {| catalog := table_catalog; catalog_inv := unique_rows; stored_time := whole_seconds |}.
  - intros s k sk Hu Hk. rewrite table_lookup in Hk. destruct (find_row k (db_rows s)) eqn:Hf; [|done]. injection Hk as <-. by apply find_row_Some in Hf as [_ <-].
  - apply upsert_row_spec.
  - apply write_authored_row_spec.
  - intros s scope names a s' r Hu. cbn [set_approval sqlite_skill_index]. unfold sq_set_approval. destruct names as [|n names].
    { intros [= <- <-]. by rewrite rewrite_rows_nil. }
    pose proof (statement_rows s) as Hr. destruct (statement s) as [d [e|]]; cbn [fst] in Hr; intros [= <- <-].
    + unfold unique_rows, table_catalog in *. by rewrite Hr.
    + eapply update_named_spec; [..|exact Hu|cbn; by rewrite Hr]; [done|]. intros r. unfold into_domain, approval_row, with_state. cbn. f_equal.
      destruct a as [a|]; [|done]. cbn. by rewrite parse_to_text.
  - intros s scope names p s' r Hu. cbn [set_presence sqlite_skill_index]. unfold sq_set_presence. destruct names as [|n names].
    { intros [= <- <-]. by rewrite rewrite_rows_nil. }
    pose proof (statement_rows s) as Hr. destruct (statement s) as [d [e|]]; cbn [fst] in Hr; intros [= <- <-].
    + unfold unique_rows, table_catalog in *. by rewrite Hr.
    + eapply update_named_spec; [..|exact Hu|cbn; by rewrite Hr]; [done|]. intros r. by destruct p.
  - intros s scope s' r Hu. cbn [list_scope sqlite_skill_index]. unfold sq_list_scope. pose proof (statement_rows s) as Hr.
    destruct (statement s) as [d [e|]]; cbn [fst] in Hr; intros [= <- <-]; unfold unique_rows, table_catalog in *; rewrite Hr; [done|].
    split_and!; [done..| |]; by apply (sq_list_scope_ok s scope Hu).
  - intros s user name owner s' r Hu. cbn [get_skill sqlite_skill_index]. unfold sq_get. pose proof (statement_rows s) as Hr.
    destruct (statement s) as [d [e|]]; cbn [fst] in Hr; intros [= <- <-]; unfold unique_rows, table_catalog in *; rewrite Hr; [done|].
    split_and!; [done..|]. change (list_to_map _) with (table_catalog s). rewrite table_lookup. by destruct owner.
Defined.

End laws.
End SkillSqlite.

(** ** Examples *)

Module CatalogExamples.
Import SkillSqlite.

(** A clock whose text is the instant's own digits. *)
Fixpoint pos_bits (p : positive) : string :=
  match p with xH => EmptyString | xO q => String (Ascii.ascii_of_nat 48) (pos_bits q) | xI q => String (Ascii.ascii_of_nat 49) (pos_bits q) end.

Fixpoint bits_pos (s : string) : positive :=
  match s with EmptyString => xH | String a s' => if bool_decide (a = Ascii.ascii_of_nat 48) then xO (bits_pos s') else xI (bits_pos s') end.

Definition z_text (z : Z) : string :=
  match z with Z0 => "z" | Zpos p => String (Ascii.ascii_of_nat 112) (pos_bits p) | Zneg p => String (Ascii.ascii_of_nat 110) (pos_bits p) end.

Definition text_z (s : string) : option Z :=
  match s with
  | EmptyString => None
  | String a s' => Some (if bool_decide (a = Ascii.ascii_of_nat 112) then Zpos (bits_pos s') else if bool_decide (a = Ascii.ascii_of_nat 110) then Zneg (bits_pos s') else 0%Z)
  end.

Lemma bits_pos_bits p : bits_pos (pos_bits p) = p.
Proof. by induction p as [p IH|p IH|]; cbn; rewrite ?IH. Qed.

#[export] Instance bit_clock : Rfc3339 := { to_text t := z_text (whole_seconds t); parse_ts := text_z }.
#[export] Instance bit_clock_laws : Rfc3339Laws.
Proof. constructor. intros t. cbn. destruct (whole_seconds t); cbn; [done|by rewrite bits_pos_bits..]. Qed.

Definition second (n : Z) : Z := (n * 1000000000)%Z.

Definition found (n body : string) : IndexedSkill :=
  {| sk_name := n; sk_description := "when to use"; sk_kind := Workflow; sk_disk_path := "/skills/" +:+ n; sk_owner_user_id := None;
     sk_locality := Daemon; sk_content_hash := "h"; sk_trust_tier := Local; sk_source := Some "/skills"; sk_tags := [];
     sk_attachments := []; sk_body := body; sk_metadata := Null; sk_present_on_disk := true; sk_last_seen_at := None;
     sk_approved_at := None; sk_approved_by := None |}.

Definition draft (n : string) : IndexedSkill :=
  with_state (found n "draft") (Some "ada") false None None None.

Definition empty_db (outcomes : list (option string)) : SkillDb := {| db_rows := []; db_statements := outcomes; db_now := "2026-01-02 23:59:59" |}.

(** A host with one scanned skill and one draft of the assistant's. *)
Definition settled (outcomes : list (option string)) : SkillDb :=
  let d := (reconcile_scan (empty_db []) Global [found "deploy" "v1"] (second 10)).1 in
  let d := (write_authored d (draft "retry") (second 20)).1 in
  {| db_rows := db_rows d; db_statements := outcomes; db_now := db_now d |}.

Lemma settled_ok outcomes : unique_rows (settled outcomes).
Proof. apply (bool_decide_eq_true_1 (NoDup _)). by vm_compute. Qed.

(** The third statement of the pass fails: [deploy] is rewritten, [lint] is not. *)
Definition faulty : SkillDb := settled [None; None; Some "disk I/O error"].

Lemma faulty_ok : catalog_inv faulty.
Proof. change (unique_rows faulty). apply settled_ok. Qed.

Definition rescan : list IndexedSkill := [found "deploy" "v2"; found "lint" "v1"].

Lemma a_scan_forgets_nothing_witness :
  let c := table_catalog (reconcile_scan faulty Global rescan (second 30)).1 in
  (∃ new, c !! ("retry", "ada") = Some new ∧ sk_approved_at new = None) ∧ c !! ("lint", "") = None.
Proof.
  cbv zeta. destruct (reconcile_scan faulty Global rescan (second 30)) as [s' r] eqn:Hr. cbn [fst].
  destruct (a_scan_forgets_nothing faulty Global rescan (second 30) s' r faulty_ok Hr) as [Hkeep _].
  assert (Ho : ∃ old, table_catalog faulty !! ("retry", "ada") = Some old ∧ sk_approved_at old = None) by (eexists; split; vm_compute; reflexivity).
  destruct Ho as (old & Ho & Ha). destruct (Hkeep ("retry", "ada") old Ho) as (new & Hn & _ & Hap & _).
  split; [exists new; split; [exact Hn|congruence]|].
  vm_compute in Hr. injection Hr as <- _. vm_compute. reflexivity.
Defined.

Lemma a_pass_can_be_retried_witness :
  let first := reconcile_scan faulty Global rescan (second 30) in
  let again := reconcile_scan first.1 Global rescan (second 30) in
  is_ok first.2 = false ∧ is_ok again.2 = true ∧
  sk_body <$> table_catalog again.1 !! ("lint", "") = Some "v1".
Proof.
  cbv zeta. split; [vm_compute; reflexivity|].
  destruct (reconcile_scan (reconcile_scan faulty Global rescan (second 30)).1 Global rescan (second 30)) as [s2 r2] eqn:H2.
  assert (Hok : is_ok r2 = true) by (vm_compute in H2; by injection H2 as _ <-).
  split; [exact Hok|]. destruct r2 as [o|e]; [|discriminate Hok].
  destruct (reconcile_scan faulty Global rescan (second 30)) as [s1 r1] eqn:H1. cbn [fst] in H2 |- *.
  change (table_catalog s2) with (catalog s2).
  rewrite (a_pass_can_be_retried faulty Global rescan (second 30) s1 r1 s2 o faulty_ok H1 H2 ("lint", "")).
  vm_compute. reflexivity.
Defined.

Lemma only_a_person_approves_witness :
  let ops := [Scan (Owner "ada") [found "retry" "from a file"] (second 40); Author (draft "retry") (second 50);
              Decide Global ["retry"] (Some {| ap_at := second 60; ap_by := None |})] in
  ∃ new, table_catalog (foldl catalog_step faulty ops) !! ("retry", "ada") = Some new ∧ is_approved new = false.
Proof.
  cbv zeta. assert (Ho : ∃ old, table_catalog faulty !! ("retry", "ada") = Some old ∧ is_approved old = false) by (eexists; split; vm_compute; reflexivity).
  destruct Ho as (old & Ho & Ha).
  apply (only_a_person_approves faulty _ ("retry", "ada") old faulty_ok Ho Ha).
  apply Forall_cons_2; [by intros []|]. apply Forall_cons_2; [by intros []|]. apply Forall_cons_2; [|by apply Forall_nil_2].
  intros [_ Hk]. discriminate Hk.
Defined.

(** The SQLite adapter does not tell an owner whose id is empty from the host:
    such a person decides about everybody's skills. *)
Lemma an_empty_owner_decides_for_the_host `{Rfc3339} d names approval :
  sq_set_approval d (Owner EmptyString) names approval = sq_set_approval d Global names approval.
Proof. done. Qed.

(** [datetime('now')] writes a space where [to_text] writes a [T]: of one day's
    rows the listing puts every authored one before every scanned one, so what
    was written just after midnight is listed as newer than the evening's scan. *)
Definition one_day : SkillDb :=
  {| db_rows :=
       [row_of (draft "retry") None 0 None None None "2026-01-02T00:00:01Z";
        row_of (found "deploy" "v1") None 1 None None None "2026-01-02 23:59:59"];
     db_statements := []; db_now := "2026-01-02 23:59:59" |}.

Example the_listing_is_not_newest_first :
  match (sq_list one_day "ada" None).2 with Ok l => map sk_name l = ["retry"; "deploy"] | Err _ => False end.
Proof. by vm_compute. Qed.

End CatalogExamples.
