(* ===== verification/SkillPromotion.v ===== *)
(** * Keeping a finished plan as a skill

    Models [crates/core/src/skill_promotion.rs] and the service functions that
    spend it ([read_plan_steps], [skills_that_may_cover],
    [plan_promotion_offer], [handle_promote_plan] of
    [crates/core/src/service.rs]): reading the plan back out of the scratchpad,
    the bar it must clear, the [SKILL.md] rendered from it, the offer, and the
    guarded write to the catalog.

    The catalog is any store with the laws of [SkillIndexStoreLaws], the closures
    the daemon wires over it.  [debug] prints a string as [{:?}] does and
    [core_error_text] an error as [{}] does. *)

From S2P Require Import Prelude Json TaskStore Messages ToolRouting ToolProvenance Planning NegativeMemory Skills SkillCatalog.

#[local] Open Scope nat_scope.
#[local] Set Default Proof Using "Type".

Definition PROMOTE_PLAN_TOOL : string := "promote_plan_to_skill".
Definition SKILL_GET_TOOL : string := "builtin_skill_get".
Definition MIN_PROMOTABLE_STEPS : nat := 3.
Definition MAX_ABANDONED_DENOMINATOR : nat := 3.
Definition ABANDONED_PREFIX : string := "Abandoned: ".
Definition MAX_OFFERED_MATCHES : nat := 3.
Definition SELF_AUTHORED_SOURCE : string := "self-authored".
Definition EXTRACTED_SOURCE : string := "extraction".
Definition MISFILED_SOURCE : string := "misfiled-knowledge".

(** ** The plan *)

Record PlanNote := { pn_key : string; pn_content : string; pn_note_type : string; pn_done : bool }.

Record PlanStep := { pl_key : string; pl_goal : string; pl_outcome : option string; pl_abandoned : bool }.

Definition succeeded (s : PlanStep) : bool :=
  negb (pl_abandoned s) && match pl_outcome s with Some o => negb (String.eqb (trim o) EmptyString) | None => false end.

Definition step_depth (s : PlanStep) : nat := length (filter (λ a, a = dot) (String.list_ascii_of_string (pl_key s))).

(** [is_step_key]: digits between dots. *)
Definition digits_only (part : string) : bool :=
  negb (String.eqb part EmptyString) &&
  forallb (λ a, match digit a with Some _ => true | None => false end) (String.list_ascii_of_string part).

Definition is_step_key (k : string) : bool := negb (String.eqb k EmptyString) && forallb digits_only (split_on dot k).

Definition read_outcome (raw : option string) : bool * option string :=
  match raw with
  | None => (false, None)
  | Some raw =>
      let text := trim raw in
      if String.eqb text EmptyString then (false, None)
      else if is_withheld_step_text text then (false, None)
      else
        match strip_prefix ABANDONED_PREFIX text with
        | Some rest =>
            let rest := trim rest in
            (true, if String.eqb rest EmptyString then None else Some rest)
        | None => (false, Some text)
        end
  end.

Definition dotted (k : string) : list N := map (λ p, default u64_top (parse_unsigned u64_top p)) (split_on dot k).

(** The order of [Vec<u64>]. *)
Fixpoint vec_leb (a b : list N) : bool :=
  match a, b with
  | [], _ => true
  | _ :: _, [] => false
  | x :: a, y :: b => (x <? y)%N || ((x =? y)%N && vec_leb a b)
  end.

Definition outcomes_of (notes : list PlanNote) : gmap string string :=
  foldl (λ m n, match strip_prefix OUTCOME_KEY_PREFIX (pn_key n) with Some k => <[k := pn_content n]> m | None => m end) ∅ notes.

Definition step_of (outcomes : gmap string string) (n : PlanNote) : PlanStep :=
  let (abandoned, outcome) := read_outcome (outcomes !! pn_key n) in
  {| pl_key := pn_key n; pl_goal := trim (pn_content n); pl_outcome := outcome; pl_abandoned := abandoned |}.

Definition is_plan_step (n : PlanNote) : bool :=
  String.eqb (pn_note_type n) STEP_NOTE_TYPE && pn_done n && is_step_key (pn_key n).

Definition step_leb (a b : PlanStep) : bool := vec_leb (dotted (pl_key a)) (dotted (pl_key b)).

Definition plan_from_notes (notes : list PlanNote) : list PlanStep :=
  sort_by step_leb (map (step_of (outcomes_of notes)) (List.filter is_plan_step notes)).

(** The top-level number of a step, when it is a [u32]. *)
Definition top_level (s : PlanStep) : option N := head (split_on dot (pl_key s)) ≫= parse_unsigned u32_top.

Definition steps_this_turn (steps : list PlanStep) (previous_top_level : N) : list PlanStep :=
  List.filter (λ s, match top_level s with Some t => (previous_top_level <? t)%N | None => false end) steps.

(** ** Was a skill being followed *)

Section followed.
Context `{!SerdeJson}.

Definition is_refusal (c : string) : bool :=
  match from_str c with
  | Some v => match get "ok" v with Some (Bool false) => true | _ => false end
  | None => false
  end.

Definition refused (messages : list Message) : list string :=
  omap tool_call_id (List.filter (λ m, bool_decide (role m = Tool) && is_refusal (content m)) messages).

Definition followed_a_skill (messages : list Message) : bool :=
  existsb (λ m, bool_decide (role m = Assistant) &&
    existsb (λ c, String.eqb (call_name c) SKILL_GET_TOOL && negb (bool_decide (call_id c ∈ refused messages))) (tool_calls m)) messages.

End followed.

(** ** The bar *)

Inductive NotPromotable :=
| FollowedAnExistingSkill
| TooFewSteps (succeeded needed : nat)
| TooManyAbandoned (abandoned total : nat)
| NothingRecorded.

Definition reason (n : NotPromotable) : string :=
  match n with
  | FollowedAnExistingSkill => "this plan followed an existing skill, so saving it again would duplicate it"
  | TooFewSteps s k => "a skill needs at least " +:+ pretty k +:+ " steps with a recorded outcome; this plan has " +:+ pretty s
  | TooManyAbandoned a t =>
      pretty a +:+ " of " +:+ pretty t +:+ " steps were abandoned, so this plan records a search rather than a method"
  | NothingRecorded => "this turn did not record its step text, so there is no procedure to keep"
  end.

(** A [PromotablePlan] is its steps. *)
Definition working_steps (plan : list PlanStep) : list PlanStep := List.filter succeeded plan.

Definition assess (steps : list PlanStep) (followed : bool) : result (list PlanStep) NotPromotable :=
  if followed then Err FollowedAnExistingSkill
  else if negb (length steps =? 0) && forallb (λ s, is_withheld_step_text (pl_goal s)) steps then Err NothingRecorded
  else
    let n := length (List.filter succeeded steps) in
    if n <? MIN_PROMOTABLE_STEPS then Err (TooFewSteps n MIN_PROMOTABLE_STEPS)
    else
      let abandoned := length (List.filter pl_abandoned steps) in
      let total := length steps in
      if total <? abandoned * MAX_ABANDONED_DENOMINATOR then Err (TooManyAbandoned abandoned total)
      else Ok steps.

(** ** The [SKILL.md] *)

Fixpoint repeat_str (n : nat) (s : string) : string := match n with O => EmptyString | S k => s +:+ repeat_str k s end.

(** The last part of a dotted key. *)
Definition leaf (k : string) : string := default k (last (split_on dot k)).

Definition render_step (s : PlanStep) : string :=
  let indent := repeat_str (step_depth s) "    " in
  indent +:+ leaf (pl_key s) +:+ ". " +:+ pl_goal s +:+ nl
  +:+ match pl_outcome s with
      | Some o => sconcat (map (λ line, indent +:+ "   " +:+ line +:+ nl) (lines o))
      | None => EmptyString
      end
  +:+ nl.

Definition shown_summary (summary : option string) : string :=
  match summary with
  | Some s => if String.eqb (trim s) EmptyString then EmptyString else trim s +:+ nl +:+ nl
  | None => EmptyString
  end.

Definition render_skill_body (title : string) (summary : option string) (plan : list PlanStep) : string :=
  "# " +:+ trim title +:+ nl +:+ nl +:+ shown_summary summary +:+ "## Steps" +:+ nl +:+ nl
  +:+ sconcat (map render_step (working_steps plan)).

(** [yaml_string].  [escape_of s] is the escape of the character at the head of
    [s] and the bytes it spans, when it is escaped; a control character is C0,
    DEL or C1. *)
Definition bs : Ascii.ascii := Ascii.ascii_of_nat 92.
Definition hex4 (n : N) : string :=
  String (hex_at (n / 4096)) (String (hex_at ((n / 256) mod 16)) (String (hex_at ((n / 16) mod 16)) (String (hex_at (n mod 16)) EmptyString))).
Definition u_escape (n : N) : string := String bs (String (Ascii.ascii_of_nat 117) (hex4 n)).

Definition escape_of (s : string) : option (string * nat) :=
  match s with
  | EmptyString => None
  | String a rest =>
      let n := Ascii.N_of_ascii a in
      if (n =? 92)%N then Some (String bs (String bs EmptyString), 1)
      else if (n =? 34)%N then Some (String bs dq, 1)
      else if (n =? 10)%N then Some (String bs "n", 1)
      else if (n =? 13)%N then Some (String bs "r", 1)
      else if (n =? 9)%N then Some (String bs "t", 1)
      else if (n <? 32)%N || (n =? 127)%N then Some (u_escape n, 1)
      else
        match rest with
        | String b rest' =>
            let m := Ascii.N_of_ascii b in
            if (n =? 194)%N && (128 <=? m)%N && (m <=? 159)%N then Some (u_escape m, 2)
            else
              match rest' with
              | String c _ =>
                  let k := Ascii.N_of_ascii c in
                  if (n =? 226)%N && (m =? 128)%N && ((k =? 168)%N || (k =? 169)%N) then Some (u_escape (8192 + (k - 128)), 3) else None
              | EmptyString => None
              end
        | EmptyString => None
        end
  end.

Fixpoint yaml_body (skip : nat) (s : string) : string :=
  match s with
  | EmptyString => EmptyString
  | String a s' =>
      match skip with
      | S k => yaml_body k s'
      | O =>
          match escape_of s with
          | Some (e, n) => e +:+ yaml_body (n - 1) s'
          | None => String a (yaml_body 0 s')
          end
      end
  end.

Definition yaml_string (value : string) : string := dq +:+ yaml_body 0 value +:+ dq.

Definition front_lines (name description : string) (tags : list string) : list string :=
  ["name: " +:+ yaml_string name; "description: " +:+ yaml_string description;
   "tags: [" +:+ join ", " (map yaml_string tags) +:+ "]"].

Definition render_skill_md (name description : string) (tags : list string) (body : string) : string :=
  let tags := join ", " (map yaml_string tags) in
  "---" +:+ nl +:+ "name: " +:+ yaml_string name +:+ nl +:+ "description: " +:+ yaml_string description +:+ nl
  +:+ "tags: [" +:+ tags +:+ "]" +:+ nl +:+ "---" +:+ nl +:+ nl +:+ body.

(** ** The offer and the request *)

(** Only an unadopted draft of the assistant's own. *)
Definition is_own_draft (s : IndexedSkill) : bool :=
  negb (is_approved s) && negb (sk_present_on_disk s) &&
  match sk_source s with
  | Some src => String.eqb src SELF_AUTHORED_SOURCE || String.eqb src EXTRACTED_SOURCE || String.eqb src MISFILED_SOURCE
  | None => false
  end.

Definition offered_match (s : IndexedSkill) : Value :=
  Object [("approved", Bool (is_approved s)); ("description", Str (sk_description s)); ("name", Str (sk_name s))].

Definition OFFER_BAR : string :=
  "Offer it only if the method would work again on different inputs. A question answered, a file written, or a one-off fix is not a skill.".

Definition offer_note (covered amendable : bool) : string :=
  match covered, amendable with
  | _, true =>
      "The library already has a draft close to this. Amend that draft rather than adding a second skill about the same thing, or say nothing and this is dropped."
  | true, false =>
      "The library already covers this, and those skills are not yours to revise. Add one only if your method is genuinely different; otherwise say nothing and this is dropped."
  | false, false => "Call the tool if this generalises. Saying nothing drops the plan, which costs nothing."
  end.

Definition render_offer (plan : list PlanStep) (existing : list IndexedSkill) : Value :=
  let shown := take MAX_OFFERED_MATCHES existing in
  let amendable := existsb is_own_draft shown in
  let covered := negb (length shown =? 0) in
  Object [("bar", Str OFFER_BAR); ("existing", Array (map offered_match shown));
          ("mode_hint", Str (if amendable then "amend" else "new")); ("note", Str (offer_note covered amendable));
          ("steps", Number (pretty (length (working_steps plan)))); ("tool", Str PROMOTE_PLAN_TOOL)].

Inductive PromotionMode := New | Amend.

Record PromotionRequest := {
  req_name : string;
  req_description : string;
  req_summary : option string;
  req_tags : list string;
  req_mode : PromotionMode
}.

Inductive PromotionAct := Create | Revise | Refuse (why : string).

Definition non_empty (s : string) : option string := if String.eqb s EmptyString then None else Some s.

Section promotion.
Context (debug : string → string) (core_error_text : CoreError → string).

Definition parse_mode (args : Value) : result PromotionMode SkillError :=
  let m := default "new" (get_str "mode" args) in
  if String.eqb m "new" then Ok New
  else if String.eqb m "amend" then Ok Amend
  else Err (InvalidFrontmatter ("unknown mode " +:+ debug m +:+ ": expected " +:+ dq +:+ "new" +:+ dq +:+ " or " +:+ dq +:+ "amend" +:+ dq)).

Definition trimmed (s : string) : option string := non_empty (trim s).

Definition parse_summary (args : Value) : option string :=
  match get_str "summary" args with Some s => trimmed s | None => None end.

Definition parse_tag (v : Value) : option string := match as_str v with Some t => trimmed t | None => None end.

Definition parse_tags (args : Value) : list string :=
  match get "tags" args with Some (Array items) => omap parse_tag items | _ => [] end.

Definition parse_promotion_request (args : Value) : result PromotionRequest SkillError :=
  let name := trim (default EmptyString (get_str "name" args)) in
  match validate_skill_name name with
  | Err e => Err e
  | Ok _ =>
      let description := trim (default EmptyString (get_str "description" args)) in
      if String.eqb description EmptyString
      then Err (InvalidFrontmatter "description is required: a skill with no trigger cannot be found again")
      else
        match parse_mode args with
        | Err e => Err e
        | Ok mode =>
            Ok {| req_name := name; req_description := description;
                  req_summary := parse_summary args;
                  req_tags := parse_tags args;
                  req_mode := mode |}
        end
  end.

Definition decide_act (req : PromotionRequest) (existing : option IndexedSkill) : PromotionAct :=
  match req_mode req, existing with
  | New, None => Create
  | New, Some found =>
      Refuse ("a skill named " +:+ debug (req_name req) +:+ " already exists (" +:+ sk_description found +:+ "). Revise it with mode="
              +:+ dq +:+ "amend" +:+ dq +:+ ", or pick a name for a genuinely different procedure.")
  | Amend, Some found =>
      if is_own_draft found then Revise
      else Refuse (debug (req_name req) +:+ " is not yours to revise: it was approved, or it came from a skill root or another source. Pick a different name, or ask the user to change that skill.")
  | Amend, None =>
      Refuse ("there is no skill named " +:+ debug (req_name req) +:+ " to amend. Use mode=" +:+ dq +:+ "new" +:+ dq +:+ " to add one.")
  end.

(** ** The service

    What the handler is wired to: the scratchpad's unfiltered read up to a
    limit, the lexical search of the catalog, and whether the store's [get] and
    [write_authored] closures are set. *)
Record PromotionEnv := {
  pe_list : option (nat → option (list RawNote));
  pe_search : option (string → nat → result (list IndexedSkill) CoreError);
  pe_get : bool;
  pe_write : bool;
  pe_user : string;
  pe_now : Z
}.

Context {St : Type} `{!SkillIndexStore St, !SerdeJson, !Sha256} (env : PromotionEnv).

Definition note_view (n : RawNote) : PlanNote :=
  {| pn_key := rn_key n; pn_content := rn_content n; pn_note_type := rn_note_type n; pn_done := rn_done n |}.

Definition PLAN_READ_LIMIT : nat := MAX_PLAN_ITEMS * 3.

Definition read_plan_steps (plan_base : N) : list PlanStep :=
  match pe_list env with
  | None => []
  | Some list =>
      match list PLAN_READ_LIMIT with
      | None => []
      | Some notes =>
          if PLAN_READ_LIMIT <=? length notes then []
          else steps_this_turn (plan_from_notes (map note_view notes)) plan_base
      end
  end.

Definition skills_that_may_cover (plan : list PlanStep) : list IndexedSkill :=
  match pe_search env with
  | None => []
  | Some search =>
      match search (join " " (map pl_goal (working_steps plan))) MAX_OFFERED_MATCHES with
      | Ok hits => hits
      | Err _ => []
      end
  end.

Definition keeps_nothing (p : TurnProvenance) : bool := ingested_external p && bool_decide (policy p = Aggressive).

Definition plan_promotion_offer (messages : list Message) (p : TurnProvenance) (plan_base : N) : option Value :=
  match pe_search env with
  | None => None
  | Some _ =>
      if negb (pe_write env) then None
      else if keeps_nothing p then None
      else
        match assess (read_plan_steps plan_base) (followed_a_skill messages) with
        | Err _ => None
        | Ok plan => Some (render_offer plan (skills_that_may_cover plan))
        end
  end.

Definition declined (why : string) : string := to_string (Object [("declined", Str why); ("ok", Bool false)]).
Definition errored (why : string) : string := to_string (Object [("error", Str why); ("ok", Bool false)]).

Definition NO_LIBRARY : string :=
  "{" +:+ dq +:+ "ok" +:+ dq +:+ ":false," +:+ dq +:+ "error" +:+ dq +:+ ":" +:+ dq
  +:+ "the skill library is not available in this turn" +:+ dq +:+ "}".

Definition authored_skill (req : PromotionRequest) (plan : list PlanStep) : IndexedSkill :=
  let body := render_skill_body (req_name req) (req_summary req) plan in
  let skill_md := render_skill_md (req_name req) (req_description req) (req_tags req) body in
  {| sk_name := req_name req; sk_description := req_description req; sk_kind := detect_kind body; sk_disk_path := EmptyString;
     sk_owner_user_id := Some (pe_user env); sk_locality := Daemon; sk_content_hash := skill_content_hash skill_md [];
     sk_trust_tier := Skills.Local; sk_source := Some SELF_AUTHORED_SOURCE; sk_tags := req_tags req; sk_attachments := [];
     sk_body := body; sk_metadata := Object [("authored_from", Str "completed-plan")];
     sk_present_on_disk := false; sk_last_seen_at := None; sk_approved_at := None; sk_approved_by := None |}.

Definition mode_str (m : PromotionMode) : string := match m with Amend => "amend" | New => "new" end.

Definition saved (req : PromotionRequest) (plan : list PlanStep) : string :=
  to_string (Object [("approved", Bool false); ("mode", Str (mode_str (req_mode req)));
    ("note", Str "Saved, but UNAPPROVED: it will not be offered or followed until a person approves it.");
    ("ok", Bool true); ("skill", Str (req_name req)); ("steps", Number (pretty (length (working_steps plan))))]).

Definition record_promotion (s : St) (req : PromotionRequest) (plan : list PlanStep) : St * string :=
  if negb (pe_get env) then (s, errored "the skill catalog cannot be read, so a duplicate name cannot be ruled out")
  else
    match get_skill s (pe_user env) (req_name req) (Some (pe_user env)) with
    | (s, Err e) =>
        (s, errored ("could not check whether a skill named " +:+ debug (req_name req) +:+ " already exists: " +:+ core_error_text e))
    | (s, Ok existing) =>
        match decide_act req existing with
        | Refuse why => (s, declined why)
        | _ =>
            match write_authored s (authored_skill req plan) (pe_now env) with
            | (s, Err e) => (s, errored ("could not record the skill: " +:+ core_error_text e))
            | (s, Ok _) => (s, saved req plan)
            end
        end
    end.

Definition handle_promote_plan (s : St) (messages : list Message) (args : Value) (p : TurnProvenance) (plan_base : N) : St * string :=
  if negb (pe_write env) then (s, NO_LIBRARY)
  else if keeps_nothing p
  then (s, declined "this turn read external content and runs at the aggressive tool policy, which does not keep a plan as a skill")
  else
    match parse_promotion_request args with
    | Err e => (s, errored (SkillError_to_string e))
    | Ok req =>
        match assess (read_plan_steps plan_base) (followed_a_skill messages) with
        | Err why => (s, declined (reason why))
        | Ok plan => record_promotion s req plan
        end
    end.

End promotion.

(** * Properties *)

(** ** The frontmatter comes back *)

(** YAML's reading of a double-quoted scalar, for the escapes used here. *)
Definition hex_val (a : Ascii.ascii) : option N :=
  let n := Ascii.N_of_ascii a in
  if (48 <=? n)%N && (n <=? 57)%N then Some (n - 48)%N
  else if (97 <=? n)%N && (n <=? 102)%N then Some (n - 87)%N else None.

Definition hex4_val (a b c d : Ascii.ascii) : option N :=
  match hex_val a, hex_val b, hex_val c, hex_val d with
  | Some w, Some x, Some y, Some z => Some (w * 4096 + x * 256 + y * 16 + z)%N
  | _, _, _, _ => None
  end.

(** UTF-8 below U+10000. *)
Definition utf8_of (n : N) : string :=
  let byte k := String (Ascii.ascii_of_N k) EmptyString in
  if (n <? 128)%N then byte n
  else if (n <? 2048)%N then byte (192 + n / 64)%N +:+ byte (128 + n mod 64)%N
  else byte (224 + n / 4096)%N +:+ byte (128 + (n / 64) mod 64)%N +:+ byte (128 + n mod 64)%N.

Definition simple_escape (e : Ascii.ascii) : option Ascii.ascii :=
  let n := Ascii.N_of_ascii e in
  if (n =? 92)%N || (n =? 34)%N then Some e
  else if (n =? 110)%N then Some lf
  else if (n =? 114)%N then Some cr
  else if (n =? 116)%N then Some (Ascii.ascii_of_nat 9) else None.

Fixpoint read_scalar (s : string) : option string :=
  match s with
  | EmptyString => None
  | String a s' =>
      if (Ascii.N_of_ascii a =? 34)%N then match s' with EmptyString => Some EmptyString | _ => None end
      else if (Ascii.N_of_ascii a =? 92)%N then
        match s' with
        | EmptyString => None
        | String e r =>
            if (Ascii.N_of_ascii e =? 117)%N then
              match r with
              | String h1 (String h2 (String h3 (String h4 t))) =>
                  match hex4_val h1 h2 h3 h4, read_scalar t with
                  | Some n, Some v => Some (utf8_of n +:+ v)
                  | _, _ => None
                  end
              | _ => None
              end
            else match simple_escape e, read_scalar r with Some c, Some v => Some (String c v) | _, _ => None end
        end
      else match read_scalar s' with Some v => Some (String a v) | None => None end
  end.

Definition read_quoted (s : string) : option string :=
  match strip_prefix dq s with Some rest => read_scalar rest | None => None end.

Lemma yaml_body_skip k s : yaml_body k s = yaml_body 0 (drop_bytes k s).
Proof. revert s. induction k as [|k IH]; intros [|a s]; try done. cbn [yaml_body drop_bytes]. apply IH. Qed.

Lemma read_simple e c t v :
  simple_escape e = Some c → (Ascii.N_of_ascii e =? 117)%N = false → read_scalar t = Some v →
  read_scalar (String bs (String e t)) = Some (String c v).
Proof.
  intros He Hu Ht. cbn [read_scalar]. change (Ascii.N_of_ascii bs =? 34)%N with false. change (Ascii.N_of_ascii bs =? 92)%N with true.
  by rewrite Hu, He, Ht.
Qed.

(** The code points that are escaped as such. *)
Definition escaped_points : list N := map N.of_nat (seq 0 160) ++ [8232; 8233]%N.

Lemma read_u_escape n t v : n ∈ escaped_points → read_scalar t = Some v → read_scalar (u_escape n +:+ t) = Some (utf8_of n +:+ v).
Proof.
  intros Hn Ht.
  change (read_scalar (u_escape n +:+ t)) with
    (match hex4_val (hex_at (n / 4096)) (hex_at ((n / 256) mod 16)) (hex_at ((n / 16) mod 16)) (hex_at (n mod 16)), read_scalar t with
     | Some m, Some w => Some (utf8_of m +:+ w) | _, _ => None end).
  assert (Hv : Forall (λ n, hex4_val (hex_at (n / 4096)) (hex_at ((n / 256) mod 16)) (hex_at ((n / 16) mod 16)) (hex_at (n mod 16)) = Some n) escaped_points)
    by (apply (bool_decide_eq_true_1 _); by vm_compute).
  rewrite Forall_forall in Hv. rewrite Hv by done. by rewrite Ht.
Qed.

Lemma small_point n : (n < 160)%N → n ∈ escaped_points.
Proof. intros Hn. apply elem_of_app. left. apply list_elem_of_fmap. exists (N.to_nat n). rewrite N2Nat.id, elem_of_seq. lia. Qed.

(** An escape reads back as the bytes it stands for. *)
Lemma escape_ok s e n :
  escape_of s = Some (e, n) →
  ∃ consumed, s = consumed +:+ drop_bytes n s ∧ 1 ≤ n ∧
    ∀ t v, read_scalar t = Some v → read_scalar (e +:+ t) = Some (consumed +:+ v).
Proof.
  destruct s as [|a s]; [done|]. unfold escape_of. cbn zeta.
  assert (Hbyte : ∀ x k, (Ascii.N_of_ascii x =? k)%N = true → x = Ascii.ascii_of_N k).
  { intros x k Hk%N.eqb_eq. by rewrite <- Hk, Ascii.ascii_N_embedding. }
  destruct (Ascii.N_of_ascii a =? 92)%N eqn:E1; [|destruct (Ascii.N_of_ascii a =? 34)%N eqn:E2; [|destruct (Ascii.N_of_ascii a =? 10)%N eqn:E3;
    [|destruct (Ascii.N_of_ascii a =? 13)%N eqn:E4; [|destruct (Ascii.N_of_ascii a =? 9)%N eqn:E5]]]].
  1-5: intros [= <- <-]; exists (String a EmptyString); (split; [done|]); (split; [lia|]); intros t v Ht;
    match goal with H : (_ =? _)%N = true |- _ => apply Hbyte in H as -> end; by apply read_simple.
  destruct (Ascii.N_of_ascii a <? 32)%N eqn:E6; [|destruct (Ascii.N_of_ascii a =? 127)%N eqn:E7]; cbn [orb].
  1-2: intros [= <- <-]; exists (String a EmptyString); (split; [done|]); (split; [lia|]); intros t v Ht;
    rewrite ?N.ltb_lt, ?N.eqb_eq in *; rewrite (read_u_escape _ t v); [|apply small_point; lia|done]; unfold utf8_of;
    rewrite (proj2 (N.ltb_lt _ 128)) by lia; by rewrite Ascii.ascii_N_embedding.
  destruct s as [|b s]; [done|]. set (m := Ascii.N_of_ascii b).
  destruct ((Ascii.N_of_ascii a =? 194)%N && (128 <=? m)%N && (m <=? 159)%N) eqn:E8.
  { apply andb_true_iff in E8 as [[E8 E9]%andb_true_iff E10]. intros [= <- <-]. exists (String a (String b EmptyString)).
    split; [done|]. split; [lia|]. intros t v Ht. rewrite N.leb_le in E9, E10. rewrite (read_u_escape m t v); [|apply small_point; lia|done]. f_equal. f_equal.
    apply Hbyte in E8 as ->.
    assert (Hu : Forall (λ k, utf8_of k = String (Ascii.ascii_of_N 194) (String (Ascii.ascii_of_N k) EmptyString)) (map N.of_nat (seq 128 32)))
      by (apply (bool_decide_eq_true_1 _); by vm_compute).
    rewrite Forall_forall in Hu. rewrite Hu; [unfold m; by rewrite Ascii.ascii_N_embedding|].
    apply list_elem_of_fmap. exists (N.to_nat m). rewrite N2Nat.id, elem_of_seq. lia. }
  destruct s as [|c s]; [done|]. destruct ((Ascii.N_of_ascii a =? 226)%N && (m =? 128)%N) eqn:E9; [|done].
  apply andb_true_iff in E9 as [E9 E10]. apply Hbyte in E9 as ->. apply Hbyte in E10 as ->. cbn [andb].
  destruct (Ascii.N_of_ascii c =? 168)%N eqn:E11; [|destruct (Ascii.N_of_ascii c =? 169)%N eqn:E12; [|done]]; cbn [orb].
  1: apply Hbyte in E11 as ->. 2: apply Hbyte in E12 as ->.
  all: intros [= <- <-]; eexists (String _ (String _ (String _ EmptyString))); (split; [done|]); (split; [lia|]); intros t v Ht;
    rewrite (read_u_escape _ t v); [done| |done]; apply (bool_decide_eq_true_1 _); by vm_compute.
Qed.

(** An unescaped byte is neither the quote nor the backslash. *)
Lemma unescaped a s : escape_of (String a s) = None → (Ascii.N_of_ascii a =? 34)%N = false ∧ (Ascii.N_of_ascii a =? 92)%N = false ∧ (32 <= Ascii.N_of_ascii a)%N.
Proof.
  unfold escape_of. cbn zeta. destruct (Ascii.N_of_ascii a =? 92)%N; [done|]. destruct (Ascii.N_of_ascii a =? 34)%N; [done|].
  do 3 (destruct (_ =? _)%N; [done|]). destruct (Ascii.N_of_ascii a <? 32)%N eqn:E; [done|]. apply N.ltb_ge in E. done.
Qed.

Lemma read_yaml_body s : read_scalar (yaml_body 0 s +:+ dq) = Some s.
Proof.
  induction s as [s IH] using (well_founded_induction (well_founded_ltof _ String.length)). destruct s as [|a s]; [done|].
  cbn [yaml_body]. destruct (escape_of (String a s)) as [[e n]|] eqn:He.
  - destruct (escape_ok _ _ _ He) as (consumed & Hs & Hn & Hread). rewrite yaml_body_skip, string_app_assoc.
    destruct n as [|n]; [lia|]. cbn [Nat.sub drop_bytes] in Hs |- *. rewrite Nat.sub_0_r.
    rewrite (Hread _ (drop_bytes n s)); [by rewrite <- Hs|]. apply IH. unfold ltof. cbn.
    clear. revert n. induction s as [|b s IHs]; intros [|n]; cbn; try lia. specialize (IHs n). lia.
  - destruct (unescaped _ _ He) as (H1 & H2 & _). rewrite string_app_cons. cbn [read_scalar]. rewrite H1, H2.
    rewrite IH; [done|]. unfold ltof. cbn. lia.
Qed.

(** Every value reads back: YAML's reading of the scalar [yaml_string] writes
    is the value, whatever quotes, controls or separators it holds. *)
Theorem a_quoted_value_reads_back value : read_quoted (yaml_string value) = Some value.
Proof. unfold read_quoted, yaml_string. rewrite strip_prefix_app. apply read_yaml_body. Qed.

(** ** The document splits back *)

Lemma hex_at_lf n : hex_at n ≠ lf.
Proof. unfold hex_at. destruct (N.to_nat n) as [|k]; [done|]. do 15 (destruct k as [|k]; [done|]). by destruct k. Qed.

Lemma u_escape_lf n : lf_free (u_escape n).
Proof. unfold lf_free, u_escape, hex4. cbn. repeat (constructor; [done || apply hex_at_lf|]). constructor. Qed.

Lemma escape_lf s e n : escape_of s = Some (e, n) → lf_free e.
Proof.
  destruct s as [|a s]; [done|]. unfold escape_of. cbn zeta.
  do 5 (destruct (_ =? _)%N; [intros [= <- _]; repeat constructor; done|]). destruct (_ || _); [intros [= <- _]; apply u_escape_lf|].
  destruct s as [|b s]; [done|]. destruct (_ && _ && _); [intros [= <- _]; apply u_escape_lf|].
  destruct s as [|c s]; [done|]. destruct (_ && _ && _); [intros [= <- _]; apply u_escape_lf|done].
Qed.

Lemma yaml_body_lf k s : lf_free (yaml_body k s).
Proof.
  revert k. induction s as [|a s IH]; intros k; [constructor|]. destruct k as [|k]; [|apply IH]. cbn [yaml_body].
  destruct (escape_of (String a s)) as [[e n]|] eqn:He.
  - apply lf_free_app. split; [by eapply escape_lf|apply IH].
  - constructor; [|apply IH]. intros ->. by apply unescaped in He as (_ & _ & He).
Qed.

Lemma yaml_string_lf v : lf_free (yaml_string v).
Proof. unfold yaml_string. rewrite !lf_free_app. split_and!; [repeat constructor; done|apply yaml_body_lf|repeat constructor; done]. Qed.

Lemma join_lf sep l : lf_free sep → Forall lf_free l → lf_free (join sep l).
Proof.
  intros Hsep. induction 1 as [|x l Hx Hl IH]; [constructor|]. destruct l as [|y l]; [done|]. cbn [join]. by rewrite !lf_free_app.
Qed.

Lemma trim_line_end_other s c : c ≠ cr → c ≠ lf → trim_line_end (s +:+ String c EmptyString) = s +:+ String c EmptyString.
Proof.
  intros Hcr Hlf. unfold trim_line_end. rewrite string_rev_app, string_length_app. change (string_rev (String c "")) with (String c "").
  replace (String.length s + String.length (String c "")) with (S (String.length s)) by (cbn; lia).
  change (String c "" +:+ string_rev s) with (String c (string_rev s)).
  assert (Hno : List.find (λ w, starts_with (String c (string_rev s)) (bytes w)) [[13]; [10]] = None).
  { cbn [List.find]. assert (Hs : ∀ k, c ≠ Ascii.ascii_of_nat k → starts_with (String c (string_rev s)) (bytes [k]) = false).
    { intros k Hk. unfold starts_with, bytes. cbn. destruct (Ascii.ascii_dec (Ascii.ascii_of_nat k) c); [by subst|done]. }
    by rewrite !Hs. }
  cbn [trim_with]. rewrite Hno. change (String c (string_rev s)) with (string_rev (String c "") +:+ string_rev s).
  by rewrite <- string_rev_app, string_rev_rev.
Qed.

Lemma front_block name description tags : Forall block_line (front_lines name description tags).
Proof.
  assert (Hend : ∀ p s c, lf_free (String p s) → p ≠ Ascii.ascii_of_nat 45 → c ≠ cr → c ≠ lf → block_line (String p s +:+ String c EmptyString)).
  { intros p s c Hs Hp Hcr Hlf. split; [apply lf_free_app; split; [done|by repeat constructor]|]. rewrite trim_line_end_other by done.
    rewrite string_app_cons. intros [= Hp' _]. by apply Hp. }
  assert (Hq : ∀ k v, lf_free k → lf_free (k +:+ dq +:+ yaml_body 0 v)).
  { intros k v Hk. rewrite !lf_free_app. split_and!; [done|repeat constructor; done|apply yaml_body_lf]. }
  unfold front_lines, yaml_string. constructor; [|constructor; [|constructor; [|constructor]]].
  - rewrite <- !string_app_assoc. apply (Hend _ _ _); [apply (Hq "name: "); repeat constructor; done|done..].
  - rewrite <- !string_app_assoc. apply (Hend _ _ _); [apply (Hq "description: "); repeat constructor; done|done..].
  - rewrite <- string_app_assoc. apply (Hend _ _ _); [|done..]. change (lf_free ("tags: [" +:+ join ", " (map yaml_string tags))).
    rewrite lf_free_app. split; [repeat constructor; done|]. apply join_lf; [repeat constructor; done|]. apply Forall_fmap, Forall_forall.
    intros v _. apply yaml_string_lf.
Qed.

(** A rendered [SKILL.md] splits back where it was joined, whatever the model
    wrote: the frontmatter YAML reads is exactly the three rendered lines, no
    text in them can close it early, and the body that follows is the body, to
    the byte. *)
Theorem a_rendered_skill_parses_back `{!Yaml} name description tags body :
  parse_skill_md (render_skill_md name description tags body)
  = match from_yaml (block (front_lines name description tags)) with
    | Ok fm => Ok {| ps_frontmatter := fm; ps_body := body |}
    | Err e => Err (InvalidFrontmatter e)
    end.
Proof.
  replace (render_skill_md name description tags body)
    with ("---" +:+ nl +:+ block (front_lines name description tags) +:+ "---" +:+ nl +:+ nl +:+ body).
  - rewrite parse_fenced by apply front_block. by destruct (from_yaml _).
  - unfold render_skill_md, block, front_lines, sconcat. cbn [map foldr]. by rewrite ?string_app_assoc.
Qed.

(** A rendered body is a workflow. *)
Lemma rendered_body_is_a_workflow title summary plan : detect_kind (render_skill_body title summary plan) = Workflow.
Proof.
  set (rest := nl +:+ sconcat (map render_step (working_steps plan))).
  assert (Hb : ∃ before, render_skill_body title summary plan = before +:+ nl +:+ "## Steps" +:+ nl +:+ rest).
  { assert (Hs : shown_summary summary = EmptyString ∨ ∃ t, shown_summary summary = t +:+ nl +:+ nl).
    { unfold shown_summary. destruct summary as [t|]; [|by left]. destruct (String.eqb _ _); [by left|right; by eexists]. }
    unfold render_skill_body. destruct Hs as [->|[t ->]].
    - exists ("# " +:+ trim title +:+ nl). by rewrite !string_app_assoc.
    - exists ("# " +:+ trim title +:+ nl +:+ nl +:+ t +:+ nl). by rewrite !string_app_assoc. }
  destruct Hb as [before ->]. apply steps_heading_is_found.
Qed.

(** ** The bar *)

(** The bar, exactly: a plan is promotable when the turn followed no skill,
    three of its steps at least finished and recorded what they produced, at
    most a third of it was abandoned, and its goals were not all withheld. *)
Theorem the_bar_is_the_rule steps followed plan :
  assess steps followed = Ok plan ↔
  plan = steps ∧ followed = false ∧ 3 ≤ length (working_steps steps) ∧
  3 * length (List.filter pl_abandoned steps) ≤ length steps ∧
  ∃ s, s ∈ steps ∧ is_withheld_step_text (pl_goal s) = false.
Proof.
  assert (Hall : (∃ s, s ∈ steps ∧ is_withheld_step_text (pl_goal s) = false) ↔ forallb (λ s, is_withheld_step_text (pl_goal s)) steps = false).
  { induction steps as [|x l IH]; [cbn; set_solver|]. cbn [forallb]. rewrite andb_false_iff, <- IH. split.
    - intros (s & [->|Hs]%elem_of_cons & Hw); [by left|right; by exists s].
    - intros [Hx|(s & Hs & Hw)]; eexists; (split; [|done]); set_solver. }
  rewrite Hall. unfold assess, working_steps. destruct followed; [naive_solver|].
  unfold MIN_PROMOTABLE_STEPS, MAX_ABANDONED_DENOMINATOR.
  destruct steps as [|x l]; [cbn; split; [done|lia]|]. set (st := x :: l). change (negb (length st =? 0)) with true. cbn [andb].
  destruct (forallb _ st) eqn:Hf; [naive_solver|]. destruct (Nat.ltb_spec (length (List.filter succeeded st)) 3); [split; [done|lia]|].
  destruct (Nat.ltb_spec (length st) (length (List.filter pl_abandoned st) * 3)); [split; [done|lia]|].
  split; [intros [= <-]; split_and!; done || lia|]. by intros (-> & _).
Qed.

(** ** Whose plan *)

Lemma vec_leb_total a b : vec_leb a b = true ∨ vec_leb b a = true.
Proof.
  revert b. induction a as [|x a IH]; intros [|y b]; [by left|by left|by right|]. cbn [vec_leb].
  destruct (N.lt_trichotomy x y) as [Hlt|[->|Hlt]].
  - left. by rewrite (proj2 (N.ltb_lt _ _) Hlt).
  - rewrite N.ltb_irrefl, N.eqb_refl. apply IH.
  - right. by rewrite (proj2 (N.ltb_lt _ _) Hlt).
Qed.

Lemma vec_leb_trans a b c : vec_leb a b = true → vec_leb b c = true → vec_leb a c = true.
Proof.
  revert b c. induction a as [|x a IH]; intros [|y b] [|z c]; try done. cbn [vec_leb].
  rewrite !orb_true_iff, !andb_true_iff, !N.ltb_lt, !N.eqb_eq.
  intros [?|[-> H1]] [?|[-> H2]]; [left; lia|by left|by left|right; split; [done|by eapply IH]].
Qed.

Section plan_ok.
Context (env : PromotionEnv).

(** The plan a turn is judged on is the turn's own: every step is a
    checked-off step note of the scratchpad whose top-level number is above the
    ones the conversation had before the turn, in the order of its dotted path;
    and a listing that may have been cut yields no plan at all. *)
Theorem the_plan_is_the_turns plan_base :
  sorted_by step_leb (read_plan_steps env plan_base) ∧
  (∀ s, s ∈ read_plan_steps env plan_base →
     ∃ list notes n, pe_list env = Some list ∧ list PLAN_READ_LIMIT = Some notes ∧ length notes < PLAN_READ_LIMIT ∧ n ∈ notes ∧
       rn_key n = pl_key s ∧ rn_note_type n = STEP_NOTE_TYPE ∧ rn_done n = true ∧ is_step_key (pl_key s) = true ∧
       ∃ t, top_level s = Some t ∧ (plan_base < t)%N).
Proof.
  unfold read_plan_steps. destruct (pe_list env) as [list|] eqn:Hl; [|split; [constructor|set_solver]].
  destruct (list PLAN_READ_LIMIT) as [notes|] eqn:Hn; [|split; [constructor|set_solver]].
  destruct (Nat.leb_spec PLAN_READ_LIMIT (length notes)); [split; [constructor|set_solver]|]. split.
  - apply sorted_filter, sort_by_sorted; [intros; apply vec_leb_total|intros ???; apply vec_leb_trans].
  - intros s Hs. unfold steps_this_turn in Hs. rewrite list_elem_of_In, filter_In in Hs. destruct Hs as [Hs Ht].
    rewrite <- list_elem_of_In in Hs. unfold plan_from_notes in Hs. rewrite elem_of_sort_by, list_elem_of_fmap in Hs.
    destruct Hs as (v & -> & Hv). rewrite list_elem_of_In, filter_In in Hv. destruct Hv as [Hv Hp]. rewrite <- list_elem_of_In, list_elem_of_fmap in Hv.
    destruct Hv as (n & -> & Hin). exists list, notes, n. unfold is_plan_step, note_view in Hp. cbn in Hp.
    apply andb_true_iff in Hp as [[Hty Hd]%andb_true_iff Hk]. apply String.eqb_eq in Hty.
    assert (Hkey : pl_key (step_of (outcomes_of (map note_view notes)) (note_view n)) = rn_key n) by (unfold step_of; by destruct (read_outcome _)).
    rewrite Hkey. split_and!; try done. destruct (top_level _) as [t|]; [|done]. exists t. split; [done|]. by apply N.ltb_lt.
Qed.

End plan_ok.

(** ** The write *)

Section promotion_ok.
Context (debug : string → string) (core_error_text : CoreError → string).
Context {St : Type} `{SkillIndexStoreLaws St, !SerdeJson, !Sha256} (env : PromotionEnv).

Lemma parsed_name_is_valid args req : parse_promotion_request debug args = Ok req → validate_skill_name (req_name req) = Ok tt.
Proof.
  unfold parse_promotion_request. destruct (validate_skill_name _) as [[]|] eqn:Hv; [|done].
  destruct (String.eqb _ _); [done|]. destruct (parse_mode debug args); [|done]. by intros [= <-].
Qed.

Lemma decided_on_a_draft req existing :
  (∀ why, decide_act debug req existing ≠ Refuse why) → ∀ old, existing = Some old → is_own_draft old = true.
Proof.
  unfold decide_act. intros Hno old ->. destruct (req_mode req); [by destruct (Hno _ eq_refl)|]. destruct (is_own_draft old); [done|].
  by destruct (Hno _ eq_refl).
Qed.

(** The row the handler wrote, and the call that wrote it. *)
Definition promoted (args : Value) (messages : list Message) (plan_base : N) (k : string * string) (row : IndexedSkill) : Prop :=
  ∃ req plan, parse_promotion_request debug args = Ok req ∧
    assess (read_plan_steps env plan_base) (followed_a_skill messages) = Ok plan ∧
    k = (req_name req, pe_user env) ∧ sk_body row = render_skill_body (req_name req) (req_summary req) plan.

Lemma record_promotion_ok s req plan s' reply :
  catalog_inv s → record_promotion debug core_error_text env s req plan = (s', reply) →
  catalog_inv s' ∧
  (catalog s' = catalog s ∨
   ∃ row, catalog s' = <[(req_name req, pe_user env) := row]> (catalog s) ∧
     (∀ old, catalog s !! (req_name req, pe_user env) = Some old → is_own_draft old = true) ∧
     is_own_draft row = true ∧ is_approved row = false ∧ sk_kind row = Workflow ∧
     sk_body row = render_skill_body (req_name req) (req_summary req) plan).
Proof.
  intros Hs. unfold record_promotion. destruct (negb (pe_get env)); [intros [= <- <-]; split; [done|by left]|].
  destruct (get_skill s (pe_user env) (req_name req) (Some (pe_user env))) as [s1 [existing|e]] eqn:Hg;
    destruct (get_skill_spec _ _ _ _ _ _ Hs Hg) as (Hs1 & Hc1 & Hex); [|intros [= <- <-]; split; [done|left; done]].
  assert (Hwrite : ∀ s2 r, (∀ why, decide_act debug req existing ≠ Refuse why) →
      write_authored s1 (authored_skill env req plan) (pe_now env) = (s2, r) →
      catalog_inv s2 ∧ (catalog s2 = catalog s ∨ ∃ row, catalog s2 = <[(req_name req, pe_user env) := row]> (catalog s) ∧
        (∀ old, catalog s !! (req_name req, pe_user env) = Some old → is_own_draft old = true) ∧
        is_own_draft row = true ∧ is_approved row = false ∧ sk_kind row = Workflow ∧
        sk_body row = render_skill_body (req_name req) (req_summary req) plan)).
  { intros s2 r Hno Hw. destruct (write_authored_spec _ _ _ _ _ Hs1 Hw) as [Hs2 Hc2]. split; [done|]. rewrite Hc1 in Hc2.
    destruct r as [[]|e]; [|by left]. right. eexists. split; [exact Hc2|].
    change (skill_key (authored_skill env req plan)) with (req_name req, pe_user env).
    split; [intros old Ho; by eapply decided_on_a_draft; [|rewrite Hex]|].
    destruct (catalog s !! (req_name req, pe_user env)); split_and!; try done; apply rendered_body_is_a_workflow. }
  destruct (decide_act debug req existing) as [| |why] eqn:Hd; [| |intros [= <- <-]; split; [done|by left]].
  all: destruct (write_authored s1 (authored_skill env req plan) (pe_now env)) as [s2 [[]|e]] eqn:Hw; intros [= <- <-]; by eapply Hwrite.
Qed.

(** C29. Whatever the model asks for and whatever fails, the tool that keeps a
    plan leaves every skill that is not an unadopted draft of the assistant's
    own as it was; what it adds or changes is one row of the caller's under a
    valid name, unapproved, a workflow whose body is the finished plan that
    cleared the bar; and at the aggressive policy a turn that read outside
    content changes nothing. *)
Theorem the_assistant_writes_only_its_own_drafts s messages args p plan_base s' reply (Hs : catalog_inv s)
    (Hh : handle_promote_plan debug core_error_text env s messages args p plan_base = (s', reply)) :
  (∀ k old, catalog s !! k = Some old → is_own_draft old = false → catalog s' !! k = Some old) ∧
  (∀ k, catalog s' !! k ≠ catalog s !! k →
     keeps_nothing p = false ∧ validate_skill_name k.1 = Ok tt ∧
     ∃ row, catalog s' !! k = Some row ∧ is_own_draft row = true ∧ is_approved row = false ∧ sk_kind row = Workflow ∧
       promoted args messages plan_base k row).
Proof.
  assert (Hsame : catalog s' = catalog s → (∀ k old, catalog s !! k = Some old → is_own_draft old = false → catalog s' !! k = Some old) ∧
     (∀ k, catalog s' !! k ≠ catalog s !! k → keeps_nothing p = false ∧ validate_skill_name k.1 = Ok tt ∧
       ∃ row, catalog s' !! k = Some row ∧ is_own_draft row = true ∧ is_approved row = false ∧ sk_kind row = Workflow ∧
       promoted args messages plan_base k row)) by (intros ->; split; [done|by intros k []]).
  unfold handle_promote_plan in Hh. destruct (negb (pe_write env)); [simplify_eq; by apply Hsame|].
  destruct (keeps_nothing p) eqn:Hp; [simplify_eq; by apply Hsame|].
  destruct (parse_promotion_request debug args) as [req|e] eqn:Hreq; [|simplify_eq; by apply Hsame].
  destruct (assess _ _) as [plan|why] eqn:Hplan; [|simplify_eq; by apply Hsame].
  destruct (record_promotion_ok _ _ _ _ _ Hs Hh) as [_ [Hc|(row & Hc & Hold & Hd & Ha & Hk & Hb)]]; [by apply Hsame|]. split.
  - intros k old Ho Hnd. rewrite Hc. destruct (decide ((req_name req, pe_user env) = k)) as [<-|Hne]; [|by rewrite lookup_insert_ne].
    apply Hold in Ho. congruence.
  - intros k Hne. rewrite Hc in Hne |- *. destruct (decide ((req_name req, pe_user env) = k)) as [<-|Hkk]; [|by rewrite lookup_insert_ne in Hne].
    split; [done|]. split; [by eapply parsed_name_is_valid|]. rewrite lookup_insert_eq. exists row. split_and!; try done.
    by exists req, plan.
Qed.

(** A search that fails is read as a library with nothing in it: the offer is
    made all the same, as a new skill. *)
Lemma a_failed_search_still_offers messages p plan_base search e plan :
  pe_search env = Some search → (∀ q n, search q n = Err e) → pe_write env = true → keeps_nothing p = false →
  assess (read_plan_steps env plan_base) (followed_a_skill messages) = Ok plan →
  plan_promotion_offer env messages p plan_base = Some (render_offer plan []).
Proof.
  intros Hse Herr Hw Hp Ha. unfold plan_promotion_offer, skills_that_may_cover. by rewrite Hse, Hw, Hp, Ha, Herr.
Qed.

End promotion_ok.

(** ** Examples *)

Module PromotionExamples.
Import SkillSqlite CatalogExamples.

#[local] Instance plain_json : SerdeJson := { from_str _ := None; to_string _ := "{}" }.
#[local] Instance plain_sha : Sha256 := { sha256 s := s }.

Definition step_note (k goal : string) : RawNote :=
  {| rn_key := k; rn_owner_todo := EmptyString; rn_content := goal; rn_note_type := STEP_NOTE_TYPE; rn_done := true;
     rn_pinned := false; rn_knowledge_entry_id := None |}.
Definition outcome (k found_ : string) : RawNote :=
  {| rn_key := OUTCOME_KEY_PREFIX +:+ k; rn_owner_todo := EmptyString; rn_content := found_; rn_note_type := OUTCOME_NOTE_TYPE;
     rn_done := false; rn_pinned := false; rn_knowledge_entry_id := None |}.

(** The pad of a conversation whose second turn opened steps 2, 3 and 10. *)
Definition pad : list RawNote :=
  [step_note "10" "Publish"; step_note "1" "Look around"; step_note "2" "Tag the release"; step_note "3" "Build it";
   step_note "buy-milk" "by hand"; outcome "1" "seen"; outcome "10" "published"; outcome "2" "tagged"; outcome "3" "built"].

Definition wired : PromotionEnv :=
  {| pe_list := Some (λ n, Some (take n pad)); pe_search := Some (λ _ _, Err (Storage "locked")); pe_get := true; pe_write := true;
     pe_user := "ada"; pe_now := second 70 |}.

Example the_plan_of_the_second_turn : map pl_key (read_plan_steps wired 1) = ["2"; "3"; "10"].
Proof. by vm_compute. Qed.

Definition keep_args : Value := Object [("description", Str "When a release is due"); ("name", Str " release ")].
Definition amend_args : Value := Object [("description", Str "mine now"); ("mode", Str "amend"); ("name", Str "deploy")].

Definition prov : TurnProvenance := {| ingested_external := true; policy := Standard |}.

Lemma the_assistant_writes_only_its_own_drafts_witness :
  let s' := (handle_promote_plan (λ s, s) (λ _, "error") wired (settled []) [] keep_args prov 1).1 in
  (∃ row, table_catalog s' !! ("release", "ada") = Some row ∧ is_approved row = false ∧ sk_kind row = Workflow) ∧
  is_Some (table_catalog s' !! ("deploy", "")).
Proof.
  cbv zeta. destruct (handle_promote_plan (λ s, s) (λ _, "error") wired (settled []) [] keep_args prov 1) as [s' reply] eqn:Hh. cbn [fst].
  assert (Hs : catalog_inv (settled [])) by (change (unique_rows (settled [])); apply settled_ok).
  destruct (the_assistant_writes_only_its_own_drafts (λ s, s) (λ _, "error") wired (settled []) [] keep_args prov 1 s' reply Hs Hh) as [Hkeep Hnew].
  change (catalog s') with (table_catalog s') in *. change (catalog (settled [])) with (table_catalog (settled [])) in *. split.
  - destruct (Hnew ("release", "ada")) as (_ & _ & row & Hr & _ & Ha & Hk & _).
    + vm_compute in Hh. injection Hh as <- _. vm_compute. discriminate.
    + exists row. split; [exact Hr|split; [exact Ha|exact Hk]].
  - destruct (table_catalog (settled []) !! ("deploy", "")) as [old|] eqn:Ho; [|vm_compute in Ho; discriminate Ho].
    rewrite (Hkeep ("deploy", "") old Ho); [by eexists|]. vm_compute in Ho. injection Ho as <-. vm_compute. reflexivity.
Defined.

(** A person's skill is refused to the assistant's revision. *)
Example a_persons_skill_is_refused :
  table_catalog (handle_promote_plan (λ s, s) (λ _, "error") wired (settled []) [] amend_args prov 1).1 !! ("deploy", "ada") = None.
Proof. by vm_compute. Qed.

End PromotionExamples.
