(* ===== verification/McpWire.v ===== *)
(** * Speaking to one MCP server

    Models [crates/mcp-client/src/lib.rs] and [jsonrpc.rs]: the client of one
    server over a child process's pipes or over HTTP, the handshake, requests
    and their replies, list-changed flags, the environment a child is given, and
    the tail of its standard error that a failure quotes.

    What a server sends is a list of read events, arbitrary in the theorems.
    JSON, UTF-8 decoding of foreign bytes and the Unicode category of a character
    are parameters. *)

From S2P Require Import Prelude Skills Json TaskStore Sanitize UrlPolicy OAuth ToolRouting.

#[local] Open Scope nat_scope.
#[local] Set Default Proof Using "Type".

Definition DEFAULT_REQUEST_TIMEOUT : nat := 300.
Definition INIT_TIMEOUT : nat := 30.
Definition MAX_LINE_BYTES : Z := 8388608.
Definition MAX_HTTP_BODY_BYTES : Z := 16777216.
Definition STDERR_TAIL_LINES : nat := 10.
Definition STDERR_TAIL_LINE_BYTES : nat := 512.
Definition STDERR_TAIL_TRUNCATED : string := "...".
Definition STDERR_TAIL_SEPARATOR : string := " | ".
Definition STDERR_TAIL_PREFIX : string := "; it last wrote this to stderr: ".
Definition NO_STDERR_HINT : string :=
  " and wrote nothing to stderr; if it needs an environment variable, set it in this server's own `env` config (see docs/mcp-services.md#environment-variables) rather than relying on it being inherited".
Definition REQUESTED_PROTOCOL_VERSION : string := "2025-11-25".
Definition SUPPORTED_PROTOCOL_VERSIONS : list string := ["2024-11-05"; "2025-03-26"; "2025-06-18"; "2025-11-25"].

(** ** Errors *)

Inductive McpError :=
| InvalidCommand (m : string)
| SpawnFailed (m : string)
| NoStdin | NoStdout | NoStderr
| McpIo (kind message : string)
| McpJson (m : string)
| ServerError (code : Z) (message : string)
| UnexpectedResponse (m : string)
| InvalidConfig (m : string)
| NotConnected
| UnsupportedProtocolVersion (got requested : string)
| Timeout (method : string) (after : nat) (stderr_tail : option string)
| McpHttp (m : string)
| McpOAuth (e : OAuthError).

Definition stderr_clause (tail : option string) : string :=
  match tail with Some t => STDERR_TAIL_PREFIX +:+ t | None => EmptyString end.

Definition mcp_error_to_string (e : McpError) : string :=
  match e with
  | InvalidCommand m => "invalid MCP server command: " +:+ m
  | SpawnFailed m => "failed to spawn MCP server process: " +:+ m
  | NoStdin => "MCP server stdin not available"
  | NoStdout => "MCP server stdout not available"
  | NoStderr => "MCP server stderr not available"
  | McpIo _ m => "I/O error communicating with MCP server: " +:+ m
  | McpJson m => "JSON serialization error: " +:+ m
  | ServerError code m => "MCP server returned error: code=" +:+ pretty code +:+ ", message=" +:+ m
  | UnexpectedResponse m => "unexpected response from MCP server: " +:+ m
  | InvalidConfig m => "invalid MCP configuration: " +:+ m
  | NotConnected => "MCP client is not connected"
  | UnsupportedProtocolVersion got requested =>
      "MCP server negotiated protocol version '" +:+ got +:+ "', which this client does not support (requested '" +:+ requested +:+ "')"
  | Timeout method after tail => "MCP request '" +:+ method +:+ "' timed out after " +:+ pretty after +:+ "s of silence" +:+ stderr_clause tail
  | McpHttp m => "HTTP transport error: " +:+ m
  | McpOAuth e => "OAuth error: " +:+ oauth_error_to_string e
  end.

(** ** Spawning *)


Definition SHELL_META : list nat := [59; 38; 124; 60; 62; 36; 40; 41; 123; 125; 33; 35; 96; 10; 13].

Definition validate_command (command : string) : result unit McpError :=
  if String.eqb command EmptyString then Err (InvalidCommand "command is empty")
  else if any_char (λ a, existsb (Nat.eqb (Ascii.nat_of_ascii a)) SHELL_META) command
  then Err (InvalidCommand ("command contains shell metacharacters: " +:+ command))
  else Ok ().

Definition ENV_PASSTHROUGH_ALLOWLIST : list string :=
  ["PATH"; "HOME"; "USER"; "TMPDIR"; "TERM"; "LANG"; "TZ"; "HTTP_PROXY"; "http_proxy"; "HTTPS_PROXY"; "https_proxy"; "NO_PROXY"; "no_proxy";
   "XDG_CONFIG_HOME"; "XDG_DATA_HOME"; "XDG_CACHE_HOME"; "XDG_STATE_HOME"; "WEB_CHROME_PATH"; "SKILLS_MCP_ROOTS"; "SKILLS_MCP_WRITE_ROOT";
   "OTEL_EXPORTER_OTLP_ENDPOINT"; "OTEL_EXPORTER_OTLP_TRACES_ENDPOINT"; "OTEL_EXPORTER_OTLP_METRICS_ENDPOINT"; "OTEL_EXPORTER_OTLP_LOGS_ENDPOINT";
   "OTEL_EXPORTER_OTLP_PROTOCOL"; "OTEL_EXPORTER_OTLP_TRACES_PROTOCOL"; "OTEL_EXPORTER_OTLP_METRICS_PROTOCOL"; "OTEL_EXPORTER_OTLP_LOGS_PROTOCOL";
   "OTEL_EXPORTER_OTLP_TIMEOUT"; "OTEL_EXPORTER_OTLP_TRACES_TIMEOUT"; "OTEL_EXPORTER_OTLP_METRICS_TIMEOUT"; "OTEL_EXPORTER_OTLP_LOGS_TIMEOUT";
   "OTEL_RESOURCE_ATTRIBUTES"; "RUST_LOG"].

(** The child's environment: cleared, the allowlisted part of the host's, and
    the server's own on top. *)
Definition pass_through (host : gmap string string) (acc : gmap string string) (key : string) : gmap string string :=
  match host !! key with Some value => <[key := value]> acc | None => acc end.

Definition child_env (host env : gmap string string) : gmap string string :=
  env ∪ foldl (pass_through host) ∅ ENV_PASSTHROUGH_ALLOWLIST.

Record Spawn := { sp_command : string; sp_args : list string; sp_env : gmap string string }.

(** What is executed, when anything is. *)
Definition spawn (host : gmap string string) (command : string) (args : list string) (env : gmap string string) : result Spawn McpError :=
  match validate_command command with
  | Err e => Err e
  | Ok _ => Ok {| sp_command := command; sp_args := args; sp_env := child_env host env |}
  end.

(** ** The handshake's answer *)

Record ListChangeFlags := { fl_tools : bool; fl_resources : bool; fl_prompts : bool }.
Definition no_flags : ListChangeFlags := {| fl_tools := false; fl_resources := false; fl_prompts := false |}.
Definition set_tools_flag (b : bool) (f : ListChangeFlags) := {| fl_tools := b; fl_resources := fl_resources f; fl_prompts := fl_prompts f |}.
Definition set_resources_flag (b : bool) (f : ListChangeFlags) := {| fl_tools := fl_tools f; fl_resources := b; fl_prompts := fl_prompts f |}.
Definition set_prompts_flag (b : bool) (f : ListChangeFlags) := {| fl_tools := fl_tools f; fl_resources := fl_resources f; fl_prompts := b |}.

Record ServerMetadata := { sm_title : option string; sm_description : option string; sm_website_url : option string }.
Definition ServerMetadata_default : ServerMetadata := {| sm_title := None; sm_description := None; sm_website_url := None |}.
Definition metadata_is_empty (m : ServerMetadata) : bool :=
  match sm_title m, sm_description m, sm_website_url m with None, None, None => true | _, _, _ => false end.

Definition trimmed_non_empty (s : string) : option string := let t := trim s in if String.eqb t EmptyString then None else Some t.

Definition parse_server_metadata (answer : Value) : ServerMetadata :=
  let field key := (get "serverInfo" answer ≫= get_str key) ≫= trimmed_non_empty in
  {| sm_title := field "title"; sm_description := field "description"; sm_website_url := field "websiteUrl" |}.

Definition parse_server_instructions (answer : Value) : option string := get_str "instructions" answer ≫= trimmed_non_empty.

Definition negotiated_protocol_version `{!SerdeJson} (answer : Value) : result string McpError :=
  match get "protocolVersion" answer with
  | None => Err (UnexpectedResponse "initialize result is missing 'protocolVersion'")
  | Some v =>
      match as_str v with
      | None => Err (UnexpectedResponse ("initialize result has a non-string 'protocolVersion': " +:+ to_string v))
      | Some version =>
          if bool_decide (version ∈ SUPPORTED_PROTOCOL_VERSIONS) then Ok version
          else Err (UnsupportedProtocolVersion version REQUESTED_PROTOCOL_VERSION)
      end
  end.

(** ** Messages *)

Record JsonRpcRequest := { rq_id : Z; rq_method : string; rq_params : option Value }.
Record JsonRpcError := { je_code : Z; je_message : string }.
Record JsonRpcResponse := { rs_id : option Value; rs_result : option Value; rs_error : option JsonRpcError }.

Definition META_FIELD : string := "_meta".
Definition TRACEPARENT_KEY : string := "traceparent".

(** [Map::insert]: members stay in key order. *)
Fixpoint map_insert (k : string) (v : Value) (m : list (string * Value)) : list (string * Value) :=
  match m with
  | [] => [(k, v)]
  | (k', v') :: m' =>
      match String.compare k k' with
      | Eq => (k, v) :: m'
      | Lt => (k, v) :: m
      | Gt => (k', v') :: map_insert k v m'
      end
  end.

Definition with_traceparent (params : option Value) (traceparent : string) : option Value :=
  match default (Object []) params with
  | Object fields =>
      match default (Object []) (map_get META_FIELD fields) with
      | Object meta => Some (Object (map_insert META_FIELD (Object (map_insert TRACEPARENT_KEY (Str traceparent) meta)) fields))
      | other => Some (Object (map_insert META_FIELD other fields))
      end
  | other => Some other
  end.

(** An optional field: absent and null are both [None]. *)
Definition opt_field (v : option Value) : option Value := match v with Some Null | None => None | Some x => Some x end.

Section decoding.
Context `{!SerdeJson} (number_i64 : string → option Z).

Definition decode_error (v : Value) : option JsonRpcError :=
  let build c m := c' ← (match c with Number n => number_i64 n | _ => None end); m' ← as_str m; Some {| je_code := c'; je_message := m' |} in
  match v with
  | Object fields => c ← map_get "code" fields; m ← map_get "message" fields; build c m
  | Array [c; m] | Array [c; m; _] => build c m
  | _ => None
  end.

Definition build_response (version : Value) (id result error : option Value) : option JsonRpcResponse :=
  _ ← as_str version;
  match opt_field error with
  | None => Some {| rs_id := opt_field id; rs_result := opt_field result; rs_error := None |}
  | Some e => e' ← decode_error e; Some {| rs_id := opt_field id; rs_result := opt_field result; rs_error := Some e' |}
  end.

(** [serde_json::from_value] on the derived type, which reads an object by name
    and an array by position. *)
Definition decode_response (v : Value) : option JsonRpcResponse :=
  match v with
  | Object fields =>
      version ← map_get "jsonrpc" fields;
      build_response version (map_get "id" fields) (map_get "result" fields) (map_get "error" fields)
  | Array (version :: id :: rest) =>
      match rest with
      | [] => build_response version (Some id) None None
      | [r] => build_response version (Some id) (Some r) None
      | [r; e] => build_response version (Some id) (Some r) (Some e)
      | _ => None
      end
  | _ => None
  end.

(** ** Flags *)

Inductive ListKind := KTools | KResources | KPrompts.

Definition mark_list_changed_for_kind (f : ListChangeFlags) (k : ListKind) : ListChangeFlags :=
  match k with KTools => set_tools_flag true f | KResources => set_resources_flag true f | KPrompts => set_prompts_flag true f end.

Definition mark_list_changed_for_method (f : ListChangeFlags) (method : string) : ListChangeFlags :=
  if String.eqb method "tools/list" then set_tools_flag true f
  else if String.eqb method "resources/list" then set_resources_flag true f
  else if String.eqb method "prompts/list" then set_prompts_flag true f
  else f.

Definition list_kind_from_notification (message : Value) : option ListKind :=
  method ← get_str "method" message;
  if bool_decide (method ∈ ["notifications/tools/list_changed"; "tools/list_changed"]) then Some KTools
  else if bool_decide (method ∈ ["notifications/resources/list_changed"; "resources/list_changed"]) then Some KResources
  else if bool_decide (method ∈ ["notifications/prompts/list_changed"; "prompts/list_changed"]) then Some KPrompts
  else None.

Definition result_has_list_changed (r : Value) : bool := default false (get "listChanged" r ≫= as_bool).

(** ** One message against one request

    Both transports read a stream of messages the same way: a list-changed
    notification sets its flag, a reply to another request is skipped, the reply
    to this one ends the wait. *)
Inductive Heard := Skipped | Noted (k : ListKind) | Reply (r : result Value McpError).

Definition hear (id : Z) (message : Value) : Heard :=
  match list_kind_from_notification message with
  | Some k => Noted k
  | None =>
      match decode_response message with
      | None => Skipped
      | Some resp =>
          match rs_id resp with
          | Some (Number n) =>
              if String.eqb n (pretty id) then
                Reply (match rs_error resp with
                       | Some e => Err (ServerError (je_code e) (je_message e))
                       | None => Ok (default Null (rs_result resp))
                       end)
              else Skipped
          | _ => Skipped
          end
      end
  end.

(** ** Over a child's pipes *)

(** What one bounded read of a line ends in. *)
Inductive ReadEvent := ReadLine (buf : string) | Silence | Eof | Overlong | ReadFailed (kind message : string).

Definition CLOSED_STDOUT : string := "MCP server closed stdout".

(** [read_until] of a newline on a reader limited to [room] bytes: what was read
    and what is left in the stream. *)
Fixpoint read_until (room : Z) (stream : string) : string * string :=
  match stream with
  | EmptyString => (EmptyString, EmptyString)
  | String a rest =>
      if (room <=? 0)%Z then (EmptyString, stream)
      else if bool_decide (a = lf) then (String a EmptyString, rest)
      else let '(l, r) := read_until (room - 1) rest in (String a l, r)
  end.

Definition read_line_bounded (lossy : string → string) (max : Z) (stream : string) : ReadEvent * string :=
  let '(buf, rest) := read_until (max + 1) stream in
  (if String.eqb buf EmptyString then Eof
   else if negb (ends_with buf nl) && (max <? slen buf)%Z then Overlong
   else ReadLine (lossy buf), rest).

(** What became of a request: an answer or an error, still waiting for the
    server, or a panic. *)
Inductive trip := Finished (r : result Value McpError) | Waiting | Crashed.

(** The reading half. *)
Fixpoint read_reply (id : Z) (method : string) (timeout : nat) (f : ListChangeFlags) (events : list ReadEvent)
    : trip * ListChangeFlags * list ReadEvent :=
  match events with
  | [] => (Waiting, f, [])
  | Silence :: rest => (Finished (Err (Timeout method timeout None)), f, rest)
  | Eof :: rest => (Finished (Err (UnexpectedResponse CLOSED_STDOUT)), f, rest)
  | Overlong :: rest =>
      (Finished (Err (UnexpectedResponse ("MCP server sent a line exceeding the " +:+ pretty MAX_LINE_BYTES +:+ "-byte cap"))), f, rest)
  | ReadFailed k m :: rest => (Finished (Err (McpIo k m)), f, rest)
  | ReadLine buf :: rest =>
      let trimmed := trim buf in
      if String.eqb trimmed EmptyString then read_reply id method timeout f rest
      else
        match from_str trimmed with
        | None => read_reply id method timeout f rest
        | Some message =>
            match hear id message with
            | Noted k => read_reply id method timeout (mark_list_changed_for_kind f k) rest
            | Skipped => read_reply id method timeout f rest
            | Reply r => (Finished r, f, rest)
            end
        end
  end.

(** The writing half: done, or broken after the reading half took [k] events. *)
Inductive WriteEvent := Written | Broken (k : nat) (kind message : string).

(** [try_join!]: the first error of the two halves, or both values. *)
Definition join_halves (id : Z) (method : string) (timeout : nat) (f : ListChangeFlags) (w : WriteEvent) (events : list ReadEvent)
    : trip * ListChangeFlags * list ReadEvent :=
  match w with
  | Written => read_reply id method timeout f events
  | Broken k kind m =>
      let '(r, f, rest) := read_reply id method timeout f (take k events) in
      (match r with Finished (Err e) => Finished (Err e) | _ => Finished (Err (McpIo kind m)) end, f, rest ++ drop k events)
  end.

(** ** What a failure says *)

Inductive ExitStatus := ExitCode (code : Z) | Signalled (text : string).

Definition exit_detail (s : ExitStatus) : string :=
  match s with ExitCode c => "exited with status " +:+ pretty c | Signalled t => "was terminated by a signal (" +:+ t +:+ ")" end.

(** [status] is the exit status when the child could be reaped in time, [tail]
    the standard error kept by then. *)
Definition account (status : option ExitStatus) (tail : option string) : option string :=
  match status, tail with
  | Some s, _ =>
      Some ("MCP server " +:+ exit_detail s +:+ " before completing the handshake"
            +:+ match tail with Some t => STDERR_TAIL_PREFIX +:+ t | None => NO_STDERR_HINT end)
  | None, Some t => Some (CLOSED_STDOUT +:+ STDERR_TAIL_PREFIX +:+ t)
  | None, None => None
  end.

Definition enrich_failure (status : option ExitStatus) (tail : option string) (err : McpError) : McpError :=
  match err with
  | Timeout method after _ => Timeout method after tail
  | UnexpectedResponse m =>
      if String.eqb m CLOSED_STDOUT then match account status tail with Some a => UnexpectedResponse a | None => err end else err
  | McpIo kind m => match account status tail with Some a => McpIo kind (m +:+ "; " +:+ a) | None => err end
  | _ => err
  end.

(** One request over the pipes. *)
Definition stdio_round_trip (rq : JsonRpcRequest) (timeout : nat) (f : ListChangeFlags) (w : WriteEvent) (events : list ReadEvent)
    (status : option ExitStatus) (tail : option string) : trip * ListChangeFlags * list ReadEvent :=
  let '(r, f, rest) := join_halves (rq_id rq) (rq_method rq) timeout f w events in
  (match r with Finished (Err e) => Finished (Err (enrich_failure status tail e)) | _ => r end, f, rest).

(** ** Over HTTP *)

(** [str::split] of a blank line. *)
Fixpoint split_blank (skip : bool) (cur s : string) : list string :=
  match s with
  | EmptyString => [cur]
  | String a s' =>
      if skip then split_blank false cur s'
      else if starts_with s (nl +:+ nl) then cur :: split_blank true EmptyString s'
      else split_blank false (cur +:+ String a EmptyString) s'
  end.

Definition sse_line (data raw : string) : string :=
  let raw := default raw (strip_suffix_char cr raw) in
  match strip_prefix "data:" raw with
  | None => data
  | Some rest =>
      let rest := default rest (strip_prefix " " rest) in
      (if String.eqb data EmptyString then data else data +:+ nl) +:+ rest
  end.

Definition sse_event (block : string) : option Value :=
  let trimmed := trim (foldl sse_line EmptyString (lines block)) in
  if String.eqb trimmed EmptyString then None else from_str trimmed.

Definition parse_sse_messages (body : string) : list Value := omap sse_event (split_blank false EmptyString body).

(** The messages of a body, or [None] where it is not JSON. *)
Definition body_messages (content_type body : string) : option (list Value) :=
  if contains_str content_type "text/event-stream" then Some (parse_sse_messages body)
  else if String.eqb (trim body) EmptyString then Some []
  else match from_str (trim body) with
       | None => None
       | Some (Array items) => Some items
       | Some other => Some [other]
       end.

Fixpoint find_reply (id : Z) (f : ListChangeFlags) (messages : list Value) : option (result Value McpError) * ListChangeFlags :=
  match messages with
  | [] => (None, f)
  | m :: rest =>
      match hear id m with
      | Noted k => find_reply id (mark_list_changed_for_kind f k) rest
      | Skipped => find_reply id f rest
      | Reply r => (Some r, f)
      end
  end.
End decoding.

Inductive Credential := CredNone | CredStatic (token : string) | CredOAuth (st : ProviderState).

Definition from_bearer (bearer : option string) : Credential := match bearer with Some t => CredStatic t | None => CredNone end.
Definition is_oauth (c : Credential) : bool := match c with CredOAuth _ => true | _ => false end.

Record HttpTransport := {
  h_url : string;
  h_credential : Credential;
  h_session_id : option string;
  h_protocol_version : option string
}.

Definition request_credential (c : Credential) : RequestCredential := match c with CredNone => NoCredential | _ => Attached end.

Definition HttpTransport_new `{!UrlParser} (url_text : UrlPolicyError → string) (url : string) (c : Credential) : result HttpTransport McpError :=
  match validate_remote_url url (request_credential c) with
  | inl e => Err (McpHttp ("refusing remote MCP url (rule: " +:+ url_error_code e +:+ "): " +:+ url_text e))
  | inr _ => Ok {| h_url := url; h_credential := c; h_session_id := None; h_protocol_version := None |}
  end.

(** What a POST carries: a request or the notification that ends the handshake. *)
Inductive Payload := PRequest (rq : JsonRpcRequest) | PInitialized.
Record HttpPost := {
  post_url : string; post_payload : Payload; post_token : option string; post_traceparent : option string;
  post_session : option string; post_version : option string
}.

(** What comes back: the head, the chunks of the body and how it ended. *)
Inductive BodyEnd := BodyDone | BodyFailed (m : string) | BodyStalled.
Record HttpReply := {
  reply_status : Z; reply_content_type : string; reply_session : option string; reply_chunks : list string; reply_end : BodyEnd
}.

(** No head: the time was up, or the exchange failed. *)
Inductive SendFailure := SendTimeout | SendError (m : string).

Record HttpPorts (W : Type) := {
  h_tokens : TokenPorts W;
  h_now : W → Z * W;
  h_send : W → HttpPost → result HttpReply SendFailure * W;
  h_notify : W → HttpPost → result (option string) string * W;
  from_utf8 : string → result string string
}.
Arguments h_tokens {W}.
Arguments h_now {W}.
Arguments h_send {W}.
Arguments h_notify {W}.
Arguments from_utf8 {W}.

Section http.
Context `{!SerdeJson} (number_i64 : string → option Z) (json_error : string → string) (status_text : Z → string).
Context {W : Type} (ports : HttpPorts W) (client : OAuthClient) (account_key : string) (skew : Z).

Definition set_credential (t : HttpTransport) (c : Credential) : HttpTransport :=
  {| h_url := h_url t; h_credential := c; h_session_id := h_session_id t; h_protocol_version := h_protocol_version t |}.

Definition set_protocol_version (t : HttpTransport) (v : string) : HttpTransport :=
  {| h_url := h_url t; h_credential := h_credential t; h_session_id := h_session_id t; h_protocol_version := Some v |}.

(** [capture_session]: the first one assigned. *)
Definition capture_session (t : HttpTransport) (s : option string) : HttpTransport :=
  {| h_url := h_url t; h_credential := h_credential t;
     h_session_id := match h_session_id t with Some x => Some x | None => s end; h_protocol_version := h_protocol_version t |}.

(** [Credential::token] and, forced, [refreshed_token]. *)
Definition token (force : bool) (t : HttpTransport) (w : W) : answer (option string) * HttpTransport * W :=
  match h_credential t with
  | CredNone => (Answered (Ok None), t, w)
  | CredStatic s => (Answered (Ok (Some s)), t, w)
  | CredOAuth st =>
      let '(now, w) := h_now ports w in
      let '(r, st, w) := provider_get (h_tokens ports) client account_key skew st w now force in
      (match r with Answered (Ok s) => Answered (Ok (Some s)) | Answered (Err e) => Answered (Err e) | Panicked => Panicked end,
       set_credential t (CredOAuth st), w)
  end.

Fixpoint read_body_capped (method : string) (timeout : nat) (max : Z) (buf : string) (chunks : list string) (e : BodyEnd) : result string McpError :=
  match chunks with
  | [] =>
      match e with
      | BodyDone => match from_utf8 ports buf with Ok s => Ok s | Err m => Err (McpHttp ("response body was not valid UTF-8: " +:+ m)) end
      | BodyFailed m => Err (McpHttp ("reading response body failed: " +:+ m))
      | BodyStalled => Err (Timeout method timeout None)
      end
  | c :: rest =>
      if (max <? slen buf + slen c)%Z then Err (McpHttp ("response body from remote MCP server exceeded " +:+ pretty max +:+ " bytes"))
      else read_body_capped method timeout max (buf +:+ c) rest e
  end.

Definition post_of (t : HttpTransport) (p : Payload) (tok traceparent : option string) : HttpPost :=
  {| post_url := h_url t; post_payload := p; post_token := tok; post_traceparent := traceparent; post_session := h_session_id t;
     post_version := h_protocol_version t |}.

(** The status, the content type and the body. *)
Definition send_once (t : HttpTransport) (rq : JsonRpcRequest) (tok traceparent : option string) (timeout : nat) (w : W)
    : result (Z * string * string) McpError * HttpTransport * W :=
  let '(r, w) := h_send ports w (post_of t (PRequest rq) tok traceparent) in
  match r with
  | Err SendTimeout => (Err (Timeout (rq_method rq) timeout None), t, w)
  | Err (SendError m) => (Err (McpHttp ("request to " +:+ h_url t +:+ " failed: " +:+ m)), t, w)
  | Ok reply =>
      let t := capture_session t (reply_session reply) in
      (match read_body_capped (rq_method rq) timeout MAX_HTTP_BODY_BYTES EmptyString (reply_chunks reply) (reply_end reply) with
       | Ok body => Ok (reply_status reply, reply_content_type reply, body)
       | Err e => Err e
       end, t, w)
  end.

(** A token and one POST with it; [None] is a panic. *)
Definition attempt (force : bool) (t : HttpTransport) (rq : JsonRpcRequest) (traceparent : option string) (timeout : nat) (w : W)
    : option (result (Z * string * string) McpError) * HttpTransport * W :=
  let '(tok, t, w) := token force t w in
  match tok with
  | Panicked => (None, t, w)
  | Answered (Err e) => (Some (Err (McpOAuth e)), t, w)
  | Answered (Ok tok) => let '(r, t, w) := send_once t rq tok traceparent timeout w in (Some r, t, w)
  end.

(** What the reply amounts to. *)
Definition read_http (t : HttpTransport) (rq : JsonRpcRequest) (f : ListChangeFlags) (got : Z * string * string) : result Value McpError * ListChangeFlags :=
  let '(status, content_type, body) := got in
  if negb (is_success status) then
    (Err (McpHttp (h_url t +:+ " returned HTTP " +:+ status_text status +:+ ": " +:+ take_chars 500 body)), f)
  else
    match body_messages content_type body with
    | None => (Err (McpJson (json_error (trim body))), f)
    | Some messages =>
        let '(r, f) := find_reply number_i64 (rq_id rq) f messages in
        (default (Err (UnexpectedResponse ("no JSON-RPC response with id " +:+ pretty (rq_id rq) +:+ " in HTTP reply from " +:+ h_url t))) r, f)
    end.

Definition unauthorized (status : Z) : bool := (status =? 401)%Z.

Definition http_round_trip (t : HttpTransport) (rq : JsonRpcRequest) (timeout : nat) (f : ListChangeFlags) (traceparent : option string) (w : W)
    : trip * ListChangeFlags * HttpTransport * W :=
  let '(first, t, w) := attempt false t rq traceparent timeout w in
  let '(got, t, w) :=
    match first with
    | Some (Ok (status, content_type, body)) =>
        if unauthorized status && is_oauth (h_credential t) then attempt true t rq traceparent timeout w else (first, t, w)
    | _ => (first, t, w)
    end in
  match got with
  | None => (Crashed, f, t, w)
  | Some (Err e) => (Finished (Err e), f, t, w)
  | Some (Ok got) => let '(r, f) := read_http t rq f got in (Finished r, f, t, w)
  end.

(** [send_notification]: the body of the answer is ignored; [None] is a panic. *)
Definition http_notify (t : HttpTransport) (w : W) : option (result unit McpError) * HttpTransport * W :=
  let '(tok, t, w) := token false t w in
  match tok with
  | Panicked => (None, t, w)
  | Answered (Err e) => (Some (Err (McpOAuth e)), t, w)
  | Answered (Ok tok) =>
      let '(r, w) := h_notify ports w (post_of t PInitialized tok None) in
      match r with
      | Err m => (Some (Err (McpHttp ("notification to " +:+ h_url t +:+ " failed: " +:+ m))), t, w)
      | Ok session => (Some (Ok ()), capture_session t session, w)
      end
  end.
End http.

(** ** The tail of a child's standard error *)

Record StderrTailState := { tail_lines : list string; tail_pending : option string }.
Definition StderrTailState_default : StderrTailState := {| tail_lines := []; tail_pending := None |}.

(** A character that re-shapes the text around it, by its Unicode category. *)
Inductive GeneralCategory := Control | Format | LineSeparator | ParagraphSeparator | OtherCategory.

Section stderr.
(** Decoding foreign bytes into characters, and the category of a character;
    a character is its bytes. *)
Context (decode_lossy : string → list string) (general_category : string → GeneralCategory).

Definition is_display_hazard (c : string) : bool :=
  match general_category c with OtherCategory => false | _ => true end.

Definition stderr_display_line (raw : string) (cut : bool) : option string :=
  let cleaned := String.concat EmptyString (map (λ c, if is_display_hazard c then " " else c) (decode_lossy raw)) in
  let text := trim cleaned in
  if String.eqb text EmptyString then None
  else if negb cut && (String.length text <=? STDERR_TAIL_LINE_BYTES) then Some text
  else
    let end_ := floor_boundary text (Nat.min (STDERR_TAIL_LINE_BYTES - String.length STDERR_TAIL_TRUNCATED) (String.length text)) in
    Some (str_prefix end_ text +:+ STDERR_TAIL_TRUNCATED).

(** [publish_stderr]: the ring, then the remainder. *)
Definition push_ring (ring : list string) (line : string) : list string :=
  (if length ring =? STDERR_TAIL_LINES then tail ring else ring) ++ [line].

Definition publish_stderr (st : StderrTailState) (completed : list string) (pending : option string) : StderrTailState :=
  {| tail_lines := foldl push_ring (tail_lines st) completed; tail_pending := pending |}.

(** The reader's own variables: the line so far, whether it was cut, and the
    lines completed in this chunk. *)
Record Drain := { dr_line : string; dr_cut : bool; dr_completed : list string }.
Definition Drain_start : Drain := {| dr_line := EmptyString; dr_cut := false; dr_completed := [] |}.

Definition drain_byte (d : Drain) (byte : Ascii.ascii) : Drain :=
  if bool_decide (byte = lf) then
    {| dr_line := EmptyString; dr_cut := false; dr_completed := dr_completed d ++ option_list (stderr_display_line (dr_line d) (dr_cut d)) |}
  else if String.length (dr_line d) <? STDERR_TAIL_LINE_BYTES then
    {| dr_line := dr_line d +:+ String byte EmptyString; dr_cut := dr_cut d; dr_completed := dr_completed d |}
  else {| dr_line := dr_line d; dr_cut := true; dr_completed := dr_completed d |}.

(** One read of the pipe. *)
Definition drain_chunk (s : Drain * StderrTailState) (chunk : string) : Drain * StderrTailState :=
  let d := foldl drain_byte {| dr_line := dr_line s.1; dr_cut := dr_cut s.1; dr_completed := [] |} (String.list_ascii_of_string chunk) in
  (d, publish_stderr s.2 (dr_completed d) (stderr_display_line (dr_line d) (dr_cut d))).

(** The state after some reads, and after the end of the stream. *)
Definition drain_reads (chunks : list string) : Drain * StderrTailState := foldl drain_chunk (Drain_start, StderrTailState_default) chunks.

Definition drain_stderr (chunks : list string) : StderrTailState :=
  let '(d, st) := drain_reads chunks in publish_stderr st (option_list (stderr_display_line (dr_line d) (dr_cut d))) None.

Definition stderr_tail_message (st : StderrTailState) : option string :=
  match tail_lines st ++ option_list (tail_pending st) with
  | [] => None
  | parts => Some (join STDERR_TAIL_SEPARATOR parts)
  end.
End stderr.

(** ** The client *)

Record McpClient (T : Type) := {
  c_transport : T;
  c_next_id : Z;
  c_flags : ListChangeFlags;
  c_request_timeout : nat;
  c_server_instructions : option string;
  c_protocol_version : option string;
  c_server_metadata : ServerMetadata
}.
Arguments c_transport {T}.
Arguments c_next_id {T}.
Arguments c_flags {T}.
Arguments c_request_timeout {T}.
Arguments c_server_instructions {T}.
Arguments c_protocol_version {T}.
Arguments c_server_metadata {T}.

(** What a transport does for the client. *)
Record TransportOps (T W : Type) := {
  t_round_trip : W → T → JsonRpcRequest → nat → ListChangeFlags → option string → trip * ListChangeFlags * T * W;
  t_set_protocol_version : T → string → T;
  t_notify : W → T → option (result unit McpError) * T * W;
  t_stderr_tail : W → T → option string;
  (** The timer of the handshake: whether it ran out first. *)
  t_expired : W → bool * W;
  (** The trace the caller is part of. *)
  outbound_traceparent : W → option string
}.
Arguments t_round_trip {T W}.
Arguments t_set_protocol_version {T W}.
Arguments t_notify {T W}.
Arguments t_stderr_tail {T W}.
Arguments t_expired {T W}.
Arguments outbound_traceparent {T W}.

Definition next_id_after (id : Z) : Z := ((id + 1) mod 2 ^ 64)%Z.

Definition with_flags {T} (f : ListChangeFlags → ListChangeFlags) (c : McpClient T) : McpClient T :=
  {| c_transport := c_transport c; c_next_id := c_next_id c; c_flags := f (c_flags c); c_request_timeout := c_request_timeout c;
     c_server_instructions := c_server_instructions c; c_protocol_version := c_protocol_version c; c_server_metadata := c_server_metadata c |}.

Definition new_client {T} (t : T) (request_timeout : nat) : McpClient T :=
  {| c_transport := t; c_next_id := 1; c_flags := no_flags; c_request_timeout := request_timeout; c_server_instructions := None;
     c_protocol_version := None; c_server_metadata := ServerMetadata_default |}.

Record RawToolDef := { raw_name : string; raw_description : option string; raw_input_schema : option Value }.

(** The outcome of an operation: a value or an error, or no outcome. *)
Inductive op_result (A : Type) := Returned (r : result A McpError) | Hung | Died.
Arguments Returned {A}.
Arguments Hung {A}.
Arguments Died {A}.

Section client.
Context `{!SerdeJson} (to_string_pretty : Value → string) (value_error : Value → string) (crate_version : string).
Context {T W : Type} (ops : TransportOps T W).

Definition send_request (c : McpClient T) (method : string) (params : option Value) (w : W) : trip * McpClient T * W :=
  let rq := {| rq_id := c_next_id c; rq_method := method; rq_params := params |} in
  let '(r, f, t, w) := t_round_trip ops w (c_transport c) rq (c_request_timeout c) (c_flags c) (outbound_traceparent ops w) in
  let f := match r with Finished (Ok v) => if result_has_list_changed v then mark_list_changed_for_method f method else f | _ => f end in
  (r, {| c_transport := t; c_next_id := next_id_after (c_next_id c); c_flags := f; c_request_timeout := c_request_timeout c;
         c_server_instructions := c_server_instructions c; c_protocol_version := c_protocol_version c; c_server_metadata := c_server_metadata c |}, w).

Definition on_answer {A} (r : trip * McpClient T * W) (k : Value → McpClient T → W → op_result A * McpClient T * W) : op_result A * McpClient T * W :=
  let '(r, c, w) := r in
  match r with Finished (Ok v) => k v c w | Finished (Err e) => (Returned (Err e), c, w) | Waiting => (Hung, c, w) | Crashed => (Died, c, w) end.

Definition INIT_PARAMS : Value :=
  Object [("capabilities", Object []); ("clientInfo", Object [("name", Str "desktop-assistant"); ("version", Str crate_version)]);
          ("protocolVersion", Str REQUESTED_PROTOCOL_VERSION)].

(** What the handshake's answer leaves in the client. *)
Definition adopt (c : McpClient T) (answer : Value) (version : string) : McpClient T :=
  {| c_transport := t_set_protocol_version ops (c_transport c) version; c_next_id := c_next_id c; c_flags := c_flags c;
     c_request_timeout := c_request_timeout c; c_server_instructions := parse_server_instructions answer; c_protocol_version := Some version;
     c_server_metadata := parse_server_metadata answer |}.

Definition initialize (c : McpClient T) (w : W) : op_result unit * McpClient T * W :=
  on_answer (send_request c "initialize" (Some INIT_PARAMS) w) (λ answer c w,
    match negotiated_protocol_version answer with
    | Err e => (Returned (Err e), c, w)
    | Ok version =>
        let c := adopt c answer version in
        let '(r, t, w) := t_notify ops w (c_transport c) in
        let c := {| c_transport := t; c_next_id := c_next_id c; c_flags := c_flags c; c_request_timeout := c_request_timeout c;
                    c_server_instructions := c_server_instructions c; c_protocol_version := c_protocol_version c;
                    c_server_metadata := c_server_metadata c |} in
        (match r with Some r => Returned r | None => Died end, c, w)
    end).

(** When the timer runs out the handshake is dropped; how far it came shows in
    the world only. *)
Definition from_transport (t : T) (request_timeout : nat) (w : W) : op_result (McpClient T) * W :=
  let '(expired, w) := t_expired ops w in
  let init_timeout := Nat.min INIT_TIMEOUT request_timeout in
  let '(r, c, w) := initialize (new_client t request_timeout) w in
  if expired then (Returned (Err (Timeout "initialize" init_timeout (t_stderr_tail ops w (c_transport c)))), w)
  else (match r with Returned (Ok _) => Returned (Ok c) | Returned (Err e) => Returned (Err e) | Hung => Hung | Died => Died end, w).

(** [serde_json::from_value] of one tool: an object, or its fields in order. *)
Definition opt_str (v : option Value) : option (option string) :=
  match opt_field v with None => Some None | Some (Str s) => Some (Some s) | Some _ => None end.

Definition decode_tool (v : Value) : option RawToolDef :=
  let build n d s := n' ← as_str n; d' ← opt_str d; Some {| raw_name := n'; raw_description := d'; raw_input_schema := opt_field s |} in
  match v with
  | Object fields => n ← map_get "name" fields; build n (map_get "description" fields) (map_get "inputSchema" fields)
  | Array [n; d; s] => build n (Some d) (Some s)
  | _ => None
  end.

Definition decode_tools (v : Value) : option (list RawToolDef) := match v with Array items => mapM decode_tool items | _ => None end.

Definition tool_definition_of (t : RawToolDef) : ToolDefinition :=
  {| name := raw_name t; description := default EmptyString (raw_description t);
     parameters := default (Object [("type", Str "object")]) (raw_input_schema t) |}.

Definition list_tools (c : McpClient T) (w : W) : op_result (list ToolDefinition) * McpClient T * W :=
  on_answer (send_request c "tools/list" None w) (λ answer c w,
    match get "tools" answer with
    | None => (Returned (Err (UnexpectedResponse "missing 'tools' field")), c, w)
    | Some tools =>
        match decode_tools tools with
        | None => (Returned (Err (McpJson (value_error tools))), c, w)
        | Some raw => (Returned (Ok (map tool_definition_of raw)), with_flags (set_tools_flag false) c, w)
        end
    end).

Definition extract_list_field (answer : Value) (field_name : string) : result (list Value) McpError :=
  match get field_name answer with
  | None => Err (UnexpectedResponse ("missing '" +:+ field_name +:+ "' field"))
  | Some v => match as_array v with Some items => Ok items | None => Err (UnexpectedResponse ("'" +:+ field_name +:+ "' field is not an array")) end
  end.

Definition list_field (c : McpClient T) (method field_name : string) (clear : ListChangeFlags → ListChangeFlags) (w : W)
    : op_result (list Value) * McpClient T * W :=
  on_answer (send_request c method None w) (λ answer c w,
    match extract_list_field answer field_name with
    | Err e => (Returned (Err e), c, w)
    | Ok items => (Returned (Ok items), with_flags clear c, w)
    end).

Definition list_resources (c : McpClient T) (w : W) := list_field c "resources/list" "resources" (set_resources_flag false) w.
Definition list_prompts (c : McpClient T) (w : W) := list_field c "prompts/list" "prompts" (set_prompts_flag false) w.

Definition content_text (item : Value) : option string :=
  if bool_decide (get_str "type" item = Some "text") then get_str "text" item else Some (to_string_pretty item).

Definition tool_text (answer : Value) : string :=
  match get "content" answer ≫= as_array with
  | Some items => match omap content_text items with [] => to_string answer | parts => join nl parts end
  | None => to_string answer
  end.

Definition call_tool (c : McpClient T) (tool : string) (arguments : Value) (w : W) : op_result string * McpClient T * W :=
  on_answer (send_request c "tools/call" (Some (Object [("arguments", arguments); ("name", Str tool)])) w)
    (λ answer c w, (Returned (Ok (tool_text answer)), c, w)).
End client.

(** ** The environment of a child *)

Lemma passed_through host keys acc k :
  foldl (pass_through host) acc keys !! k = if bool_decide (k ∈ keys) then match host !! k with Some v => Some v | None => acc !! k end else acc !! k.
Proof.
  revert acc. induction keys as [|x keys IH]; intros acc; [done|]. cbn [foldl]. rewrite IH. unfold pass_through.
  destruct (decide (k = x)) as [->|Hne].
  - rewrite (bool_decide_true (x ∈ x :: keys)) by set_solver.
    destruct (host !! x) as [v|] eqn:Ex; [rewrite lookup_insert_eq|]; by case_bool_decide.
  - rewrite (bool_decide_ext (k ∈ x :: keys) (k ∈ keys)) by set_solver. destruct (host !! x); [rewrite lookup_insert_ne by done|]; done.
Qed.

(** A spawned server sees exactly what it was given: a variable of its
    environment is one of its own configuration with the value configured there,
    or one of the short list of harmless host variables, with the host's value,
    where the configuration does not name it.  No other variable of the daemon,
    a credential in particular, reaches it. *)
Theorem a_child_sees_only_what_it_is_given (host env : gmap string string) (k v : string) :
  child_env host env !! k = Some v ↔ env !! k = Some v ∨ (env !! k = None ∧ k ∈ ENV_PASSTHROUGH_ALLOWLIST ∧ host !! k = Some v).
Proof.
  unfold child_env. rewrite lookup_union_Some_raw, passed_through, lookup_empty.
  case_bool_decide; destruct (host !! k); naive_solver.
Qed.

(** ** Lines *)

Definition one_line_text (s : string) : Prop := lf ∉ String.list_ascii_of_string s.

Lemma read_until_line room l rest :
  one_line_text l → (slen l < room)%Z → read_until room (l +:+ nl +:+ rest) = (l +:+ nl, rest).
Proof.
  revert room. induction l as [|a l IH]; intros room Hl Hr.
  - change (EmptyString +:+ nl +:+ rest) with (String lf rest). cbn [read_until]. destruct (Z.leb_spec room 0); [unfold slen in Hr; simpl in Hr; lia|].
    by rewrite bool_decide_true.
  - change (String a l +:+ nl +:+ rest) with (String a (l +:+ nl +:+ rest)). cbn [read_until].
    change (slen (String a l)) with (Z.of_nat (S (String.length l))) in Hr. unfold one_line_text in *. cbn [String.list_ascii_of_string] in Hl.
    destruct (Z.leb_spec room 0); [lia|]. rewrite bool_decide_false by set_solver.
    rewrite (IH (room - 1)%Z); [done|set_solver|]. unfold slen. lia.
Qed.

Lemma read_until_full l rest : one_line_text l → read_until (slen l) (l +:+ rest) = (l, rest).
Proof.
  induction l as [|a l IH]; intros Hl; [by destruct rest|]. change (String a l +:+ rest) with (String a (l +:+ rest)). cbn [read_until].
  change (slen (String a l)) with (Z.of_nat (S (String.length l))). unfold one_line_text in *. cbn [String.list_ascii_of_string] in Hl.
  destruct (Z.leb_spec (Z.of_nat (S (String.length l))) 0); [lia|]. rewrite bool_decide_false by set_solver.
  replace (Z.of_nat (S (String.length l)) - 1)%Z with (slen l) by (unfold slen; lia). rewrite IH by set_solver. done.
Qed.

Lemma app_not_empty s t : t ≠ EmptyString → String.eqb (s +:+ t) EmptyString = false.
Proof. intros Ht. apply String.eqb_neq. by destruct s. Qed.

Lemma ends_with_app s t : ends_with (s +:+ t) t = true.
Proof.
  unfold ends_with. rewrite string_length_app. replace (String.length s + String.length t - String.length t) with (String.length s) by lia.
  rewrite drop_bytes_app, String.eqb_refl, andb_true_r. apply Nat.leb_le. lia.
Qed.

Lemma ends_with_newline s : ends_with s nl = true → ¬ one_line_text s.
Proof.
  unfold ends_with, one_line_text. intros [_ Hs]%andb_true_iff Hn. apply Hn. apply String.eqb_eq in Hs.
  assert (H : ∀ n t, lf ∈ String.list_ascii_of_string (drop_bytes n t) → lf ∈ String.list_ascii_of_string t).
  { induction n as [|n IH]; intros [|a t] Ht; [done..|]. cbn [String.list_ascii_of_string]. apply elem_of_cons. right. by apply IH. }
  eapply H. rewrite Hs. simpl. set_solver.
Qed.

(** A line of a server is read whole or refused: up to the cap it comes out
    as it was written, whatever follows it, with the stream left at the next
    line; a longer one is refused after one byte past the cap, and no read takes
    more than that. *)
Theorem a_line_is_read_whole_or_refused (lossy : string → string) (max : Z) (l rest : string) :
  one_line_text l → (0 ≤ max)%Z →
  ((slen l ≤ max)%Z → read_line_bounded lossy max (l +:+ nl +:+ rest) = (ReadLine (lossy (l +:+ nl)), rest)) ∧
  (slen l = max + 1 → read_line_bounded lossy max (l +:+ rest) = (Overlong, rest))%Z.
Proof.
  intros Hl Hm. unfold read_line_bounded. split; intros H.
  - rewrite read_until_line by (done || lia). rewrite app_not_empty by done. by rewrite ends_with_app.
  - rewrite <- H, read_until_full by done. destruct (String.eqb_spec l EmptyString) as [->|]; [unfold slen in H; simpl in H; lia|].
    assert (ends_with l nl = false) as ->.
    { apply not_true_is_false. by intros ?%ends_with_newline. }
    destruct (Z.ltb_spec max (slen l)); [done|lia].
Qed.

Lemma a_line_is_read_whole_or_refused_witness :
  read_line_bounded (λ s, s) 4 ("abcd" +:+ nl +:+ "ef") = (ReadLine ("abcd" +:+ nl), "ef") ∧
  read_line_bounded (λ s, s) 4 ("abcde" +:+ "f") = (Overlong, "f").
Proof.
  split.
  - apply (a_line_is_read_whole_or_refused (λ s, s) 4 "abcd" "ef"); [|lia|by vm_compute]. unfold one_line_text. simpl. set_solver.
  - apply (a_line_is_read_whole_or_refused (λ s, s) 4 "abcde" "f"); [|lia|by vm_compute]. unfold one_line_text. simpl. set_solver.
Defined.

(** ** The tail *)

Section tail_facts.
Context (decode_lossy : string → list string) (general_category : string → GeneralCategory).
Context (decode_empty : decode_lossy EmptyString = []).
Notation display := (stderr_display_line decode_lossy general_category).

(** The lines a stream completed, and the one it has begun. *)
Definition feed (s : list string * string) (byte : Ascii.ascii) : list string * string :=
  if bool_decide (byte = lf) then (s.1 ++ [s.2], EmptyString) else (s.1, s.2 +:+ String byte EmptyString).
Definition raw_lines (s : string) : list string * string := foldl feed ([], EmptyString) (String.list_ascii_of_string s).

(** What is shown of a line: its first bytes, marked where there were more. *)
Definition shown (raw : string) : option string := display (str_prefix STDERR_TAIL_LINE_BYTES raw) (STDERR_TAIL_LINE_BYTES <? String.length raw).

Definition last_lines (l : list string) : list string := drop (length l - STDERR_TAIL_LINES) l.

Lemma tail_of_drop {A} n (l : list A) : tail (drop n l) = drop (S n) l.
Proof. revert l. by induction n as [|n IH]; intros [|x l]; [..|apply IH]. Qed.

Lemma push_ring_last l x : push_ring (last_lines l) x = last_lines (l ++ [x]).
Proof.
  unfold push_ring, last_lines. rewrite length_drop, length_app. cbn [length]. unfold STDERR_TAIL_LINES.
  destruct (Nat.eqb_spec (length l - (length l - 10)) 10).
  - rewrite tail_of_drop, drop_app_le by lia. f_equal. f_equal. lia.
  - replace (length l - 10) with 0 by lia. rewrite drop_app_le by lia. by replace (length l + 1 - 10) with 0 by lia.
Qed.

Lemma push_ring_all l k : foldl push_ring (last_lines l) k = last_lines (l ++ k).
Proof. revert l. induction k as [|x k IH]; intros l; [by rewrite app_nil_r|]. cbn [foldl]. by rewrite push_ring_last, IH, <- app_assoc. Qed.

(** The reader's variables after some bytes of a chunk, when the stream stood at
    [p] before it. *)
Definition tracks (p : list string * string) (k : nat) (d : Drain) : Prop :=
  dr_line d = str_prefix STDERR_TAIL_LINE_BYTES p.2 ∧ dr_cut d = (STDERR_TAIL_LINE_BYTES <? String.length p.2) ∧ dr_completed d = omap shown (drop k p.1).

Lemma str_prefix_short n s : String.length s ≤ n → str_prefix n s = s.
Proof. revert n. unfold str_prefix. induction s as [|a s IH]; intros [|n] H; simpl in *; [done..|lia|]. by rewrite IH by lia. Qed.

Lemma str_prefix_snoc n s a : n ≤ String.length s → str_prefix n (s +:+ String a EmptyString) = str_prefix n s.
Proof. unfold str_prefix. revert n. induction s as [|b s IH]; intros [|n] H; simpl in *; [done..|lia|done|]. f_equal. apply IH. lia. Qed.

Lemma drain_byte_tracks p k d byte : k ≤ length p.1 → tracks p k d → tracks (feed p byte) k (drain_byte decode_lossy general_category d byte).
Proof.
  destruct p as [ls cur]. intros Hk (Hl & Hc & Hd). unfold feed, drain_byte, tracks. cbn [fst snd] in *. case_bool_decide.
  - cbn [dr_line dr_cut dr_completed fst snd]. split_and!; [done..|]. rewrite drop_app_le by done. rewrite omap_app, Hd, Hl, Hc. done.
  - cbn [fst snd]. rewrite string_length_app. cbn [String.length]. rewrite Hl. destruct (Nat.le_gt_cases STDERR_TAIL_LINE_BYTES (String.length cur)) as [Hle|Hgt].
    + rewrite str_prefix_length, str_prefix_snoc by done. rewrite (proj2 (Nat.ltb_ge _ _)) by done. cbn [dr_line dr_cut dr_completed].
      split_and!; [done| |done]. symmetry. apply Nat.ltb_lt. lia.
    + rewrite (str_prefix_short _ cur), str_prefix_short by (rewrite ?string_length_app; simpl; lia). rewrite (proj2 (Nat.ltb_lt _ _)) by done.
      cbn [dr_line dr_cut dr_completed]. split_and!; [done| |done]. rewrite Hc. transitivity false; [|symmetry]; apply Nat.ltb_ge; lia.
Qed.

Lemma feed_grows p l : length p.1 ≤ length (foldl feed p l).1.
Proof.
  revert p. induction l as [|a l IH]; intros p; [done|]. cbn [foldl]. etrans; [|apply IH]. unfold feed. case_bool_decide; cbn [fst]; rewrite ?length_app; lia.
Qed.

Lemma feed_prefix p l : ∃ k, (foldl feed p l).1 = p.1 ++ k.
Proof.
  revert p. induction l as [|a l IH]; intros p; [exists []; by rewrite app_nil_r|]. cbn [foldl]. destruct (IH (feed p a)) as [k Hk]. rewrite Hk. unfold feed.
  case_bool_decide; cbn [fst]; [exists (p.2 :: k); by rewrite <- app_assoc|by exists k].
Qed.

Lemma drain_bytes_track p k d l : k ≤ length p.1 → tracks p k d → tracks (foldl feed p l) k (foldl (drain_byte decode_lossy general_category) d l).
Proof.
  revert p d. induction l as [|a l IH]; intros p d Hk H; [done|]. cbn [foldl]. apply IH; [|by apply drain_byte_tracks].
  etrans; [exact Hk|]. apply (feed_grows p [a]).
Qed.

(** What the ring and the remainder hold when the stream stands at [p]. *)
Definition tail_at (p : list string * string) : StderrTailState :=
  {| tail_lines := last_lines (omap shown p.1); tail_pending := shown p.2 |}.

Lemma display_empty b : display EmptyString b = None.
Proof using decode_empty. unfold stderr_display_line. by rewrite decode_empty. Qed.

Definition glue (l : list string) : string := foldr String.append EmptyString l.

Lemma glue_snoc l c : glue (l ++ [c]) = glue l +:+ c.
Proof. induction l as [|x l IH]; [apply string_app_nil_r|]. change (x +:+ glue (l ++ [c]) = (x +:+ glue l) +:+ c). by rewrite IH, string_app_assoc. Qed.

Lemma drain_reads_ok chunks :
  let p := raw_lines (glue chunks) in
  let '(d, st) := drain_reads decode_lossy general_category chunks in
  dr_line d = str_prefix STDERR_TAIL_LINE_BYTES p.2 ∧ dr_cut d = (STDERR_TAIL_LINE_BYTES <? String.length p.2) ∧ st = tail_at p.
Proof using decode_empty.
  unfold drain_reads, raw_lines. induction chunks as [|c chunks IH] using rev_ind.
  - simpl. split_and!; [done..|]. unfold tail_at, shown. simpl. by rewrite display_empty.
  - rewrite foldl_app. cbn [foldl]. destruct (foldl _ _ chunks) as [d st]. destruct IH as (Hl & Hc & ->). unfold drain_chunk. cbn [fst snd].
    rewrite glue_snoc.
    rewrite list_ascii_app, foldl_app. set (p := foldl feed ([], EmptyString) (String.list_ascii_of_string (glue chunks))) in *.
    destruct (drain_bytes_track p (length p.1) {| dr_line := dr_line d; dr_cut := dr_cut d; dr_completed := [] |} (String.list_ascii_of_string c)) as (Hl' & Hc' & Hd');
      [done|split_and!; [done..|by rewrite drop_all]|].
    split_and!; [done..|]. unfold publish_stderr, tail_at. cbn [tail_lines]. rewrite Hl', Hc', Hd'. f_equal.
    rewrite push_ring_all. destruct (feed_prefix p (String.list_ascii_of_string c)) as [k Hk]. rewrite Hk, drop_app_length, omap_app. done.
Qed.

Lemma cut_bounded text k : String.length (str_prefix (floor_boundary text (Nat.min k (String.length text))) text) ≤ k.
Proof. pose proof (floor_boundary_le text (Nat.min k (String.length text))). rewrite str_prefix_length; lia. Qed.

Lemma display_bounded raw cut l : display raw cut = Some l → String.length l ≤ STDERR_TAIL_LINE_BYTES.
Proof.
  unfold stderr_display_line. case_match; [done|]. case_match eqn:Ec.
  - intros [= <-]. apply andb_true_iff in Ec as [_ Ec]. by apply Nat.leb_le.
  - intros Hl%(inj Some). rewrite <- Hl, string_length_app. apply (Nat.add_le_mono _ 509 _ 3); [apply cut_bounded|done].
Qed.

(** What a failure quotes is what the server wrote last.  However the bytes
    of its standard error come in pieces, the lines kept are the last ten lines
    it completed that show anything and the remainder is the line it has begun;
    at the end of the stream that line counts as completed.  Each is what that
    line shows, of at most 512 bytes, and a longer one is marked as cut. *)
Theorem the_tail_is_the_last_words (chunks : list string) :
  let p := raw_lines (glue chunks) in
  (drain_reads decode_lossy general_category chunks).2 = tail_at p ∧
  drain_stderr decode_lossy general_category chunks = {| tail_lines := last_lines (omap shown (p.1 ++ [p.2])); tail_pending := None |} ∧
  Forall (λ l, String.length l ≤ STDERR_TAIL_LINE_BYTES) (last_lines (omap shown (p.1 ++ [p.2]))) ∧
  length (last_lines (omap shown (p.1 ++ [p.2]))) ≤ STDERR_TAIL_LINES.
Proof using decode_empty.
  pose proof (drain_reads_ok chunks) as H. unfold drain_stderr. destruct (drain_reads _ _ chunks) as [d st]. cbn zeta in *. destruct H as (Hl & Hc & ->).
  split_and!; [done| | |].
  - unfold publish_stderr, tail_at. cbn [tail_lines]. rewrite Hl, Hc, push_ring_all, omap_app. done.
  - unfold last_lines. apply Forall_drop, Forall_forall. intros l (raw & _ & Hr)%list_elem_of_omap. by apply display_bounded in Hr.
  - unfold last_lines. rewrite length_drop. lia.
Qed.
End tail_facts.

(** Bytes taken as characters; the tab, the newline and the return re-shape. *)
Definition ascii_chars (s : string) : list string := map (λ a, String a EmptyString) (String.list_ascii_of_string s).
Definition ascii_category (c : string) : GeneralCategory := if any_char (λ a, Ascii.nat_of_ascii a <? 32) c then Control else OtherCategory.

Lemma the_tail_is_the_last_words_witness :
  drain_stderr ascii_chars ascii_category ["no "; "key" +:+ nl +:+ nl +:+ "dy"; "ing"] = {| tail_lines := ["no key"; "dying"]; tail_pending := None |}.
Proof.
  destruct (the_tail_is_the_last_words ascii_chars ascii_category eq_refl ["no "; "key" +:+ nl +:+ nl +:+ "dy"; "ing"]) as (_ & H & _).
  rewrite H. by vm_compute.
Defined.

(** ** Events *)

Section sse_facts.
Context `{!SerdeJson}.

(** A message that is printed on one line and parses back. *)
Definition prints (m : Value) : Prop :=
  one_line_text (to_string m) ∧ cr ∉ String.list_ascii_of_string (to_string m) ∧ trim (to_string m) ≠ EmptyString ∧ from_str (trim (to_string m)) = Some m.

(** An event as a server writes it. *)
Definition sse_of (m : Value) : string := "data: " +:+ to_string m +:+ nl +:+ nl.

Lemma split_blank_event cur l rest :
  one_line_text l → split_blank false cur (l +:+ nl +:+ nl +:+ rest) = (cur +:+ l) :: split_blank false EmptyString rest.
Proof.
  revert cur. induction l as [|a l IH]; intros cur Hl.
  - rewrite string_app_nil_r. change (split_blank false cur (nl +:+ nl +:+ rest) = cur :: split_blank false EmptyString rest).
    change (nl +:+ nl +:+ rest) with (String lf (nl +:+ rest)). cbn [split_blank].
    rewrite (proj2 (starts_with_app _ _)) by (by exists rest). done.
  - change (String a l +:+ nl +:+ nl +:+ rest) with (String a (l +:+ nl +:+ nl +:+ rest)). cbn [split_blank].
    unfold one_line_text in *. cbn [String.list_ascii_of_string] in Hl. assert (Ha : a ≠ lf) by set_solver.
    assert (starts_with (String a (l +:+ nl +:+ nl +:+ rest)) (nl +:+ nl) = false) as ->.
    { apply not_true_is_false. rewrite starts_with_app. intros [r Hr]. by injection Hr. }
    rewrite IH by set_solver. by rewrite string_app_assoc.
Qed.

Lemma split_one_line l : one_line_text l → l ≠ EmptyString → split_inclusive l = [l].
Proof.
  unfold one_line_text. induction l as [|a l IH]; intros Hl Hn; [done|]. cbn [split_inclusive String.list_ascii_of_string] in *.
  rewrite bool_decide_false by set_solver. destruct l as [|b l]; [done|]. rewrite IH; [done|set_solver|done].
Qed.

Lemma strip_suffix_absent c l : c ∉ String.list_ascii_of_string l → strip_suffix_char c l = None.
Proof.
  induction l as [|a l IH]; [done|]. cbn [strip_suffix_char String.list_ascii_of_string]. intros Hc.
  destruct l as [|b l]; [rewrite bool_decide_false by set_solver; done|]. rewrite IH by set_solver. done.
Qed.

Lemma sse_event_data m : prints m → sse_event ("data: " +:+ to_string m) = Some m.
Proof.
  intros (Hl & Hc & Hn & Hp). unfold sse_event, lines.
  assert (Hd : ∀ c, c ∉ String.list_ascii_of_string "data: " → c ∉ String.list_ascii_of_string (to_string m) → c ∉ String.list_ascii_of_string ("data: " +:+ to_string m))
    by (intros c; rewrite list_ascii_app; set_solver).
  rewrite split_one_line; [|apply Hd; [compute_done|done]|done].
  cbn [map]. unfold chomp. rewrite strip_suffix_absent by (apply Hd; [compute_done|done]). cbn [foldl]. unfold sse_line.
  rewrite strip_suffix_absent by (apply Hd; [compute_done|done]). cbn [default].
  change ("data: " +:+ to_string m) with ("data:" +:+ (" " +:+ to_string m)). rewrite strip_prefix_app. cbn beta iota zeta.
  rewrite strip_prefix_app. cbn [default String.eqb id]. change (EmptyString +:+ to_string m) with (to_string m).
  rewrite (proj2 (String.eqb_neq _ _) Hn). exact Hp.
Qed.

(** The events of a server that ends its lines with newlines are read as they
    were sent: every message, in order, and nothing else. *)
Theorem events_are_read_as_sent (ms : list Value) : Forall prints ms → parse_sse_messages (glue (map sse_of ms)) = ms.
Proof.
  unfold parse_sse_messages. induction ms as [|m ms IH]; intros HF; [done|]. apply Forall_cons in HF as [Hm HF].
  change (glue (map sse_of (m :: ms))) with (sse_of m +:+ glue (map sse_of ms)). unfold sse_of at 1. rewrite !string_app_assoc.
  rewrite <- (string_app_assoc "data: "), split_blank_event.
  - change (EmptyString +:+ "data: " +:+ to_string m) with ("data: " +:+ to_string m). cbn [omap list_omap]. rewrite sse_event_data by done. f_equal. by apply IH.
  - unfold one_line_text. rewrite list_ascii_app, elem_of_app. destruct Hm as [Hm _]. intros [Hd|Hd]; [|by apply Hm]. revert Hd. compute_done.
Qed.
End sse_facts.

(** ** Requests over the pipes

    The transport of a client of a child process: the lines no request has read
    yet.  The world says, for each line written, how the write went, what the
    child sent meanwhile, and how it stood when a failure asked. *)

Record Exchange := { x_write : WriteEvent; x_events : list ReadEvent; x_status : option ExitStatus; x_tail : option string }.

Record StdioPorts (W : Type) := {
  s_exchange : W → string → Exchange * W;
  s_notify : W → string → option (string * string) * W;
  s_tail : W → option string;
  s_expired : W → bool * W;
  s_traceparent : W → option string
}.
Arguments s_exchange {W}.
Arguments s_notify {W}.
Arguments s_tail {W}.
Arguments s_expired {W}.
Arguments s_traceparent {W}.

Definition request_value (rq : JsonRpcRequest) : Value :=
  Object ([("jsonrpc", Str "2.0"); ("id", Number (pretty (rq_id rq))); ("method", Str (rq_method rq))]
          ++ match rq_params rq with Some p => [("params", p)] | None => [] end).

Definition INITIALIZED : Value := Object [("jsonrpc", Str "2.0"); ("method", Str "notifications/initialized")].

Definition traced (rq : JsonRpcRequest) (traceparent : option string) : JsonRpcRequest :=
  match traceparent with
  | Some tp => {| rq_id := rq_id rq; rq_method := rq_method rq; rq_params := with_traceparent (rq_params rq) tp |}
  | None => rq
  end.

Definition stdio_ops `{!SerdeJson} (number_i64 : string → option Z) {W : Type} (ports : StdioPorts W) : TransportOps (list ReadEvent) W := {|
  t_round_trip := λ w unread rq timeout f traceparent,
    let rq := traced rq traceparent in
    let '(x, w) := s_exchange ports w (to_string (request_value rq) +:+ nl) in
    let '(r, f, unread) := stdio_round_trip number_i64 rq timeout f (x_write x) (unread ++ x_events x) (x_status x) (x_tail x) in
    (r, f, unread, w);
  t_set_protocol_version := λ t _, t;
  t_notify := λ w t,
    let '(e, w) := s_notify ports w (to_string INITIALIZED +:+ nl) in
    (Some (match e with Some (kind, m) => Err (McpIo kind m) | None => Ok () end), t, w);
  t_stderr_tail := λ w _, s_tail ports w;
  t_expired := s_expired ports;
  outbound_traceparent := s_traceparent ports
|}.

Definition http_ops `{!SerdeJson} (number_i64 : string → option Z) (json_error : string → string) (status_text : Z → string) {W : Type}
    (ports : HttpPorts W) (client : OAuthClient) (account_key : string) (skew : Z) (expired : W → bool * W) (traceparent : W → option string)
    : TransportOps HttpTransport W := {|
  t_round_trip := λ w t rq timeout f tp, http_round_trip number_i64 json_error status_text ports client account_key skew t rq timeout f tp w;
  t_set_protocol_version := set_protocol_version;
  t_notify := λ w t, http_notify ports client account_key skew t w;
  t_stderr_tail := λ _ _, None;
  t_expired := expired;
  outbound_traceparent := traceparent
|}.

(** ** Replies *)

Section replies.
Context `{!SerdeJson} (number_i64 : string → option Z).

(** The message is a response to request [id] that carries [v]. *)
Definition answers (id : Z) (m v : Value) : Prop :=
  ∃ resp, decode_response number_i64 m = Some resp ∧ rs_id resp = Some (Number (pretty id)) ∧ rs_error resp = None ∧ v = default Null (rs_result resp).

Lemma hear_answers id m v : hear number_i64 id m = Reply (Ok v) → answers id m v.
Proof.
  unfold hear. destruct (list_kind_from_notification m); [done|]. destruct (decode_response number_i64 m) as [resp|] eqn:Ed; [|done].
  destruct (rs_id resp) as [[| |n| | |]|] eqn:Ei; try done. destruct (String.eqb_spec n (pretty id)) as [->|]; [|done].
  destruct (rs_error resp) eqn:Ee; intros HH; simplify_eq. exists resp. by split_and!.
Qed.

(** A line of the stream holds the answer. *)
Definition line_answers (id : Z) (v : Value) (e : ReadEvent) : Prop :=
  ∃ buf m, e = ReadLine buf ∧ from_str (trim buf) = Some m ∧ answers id m v.

Lemma read_reply_ok id method timeout f events r f' rest :
  read_reply number_i64 id method timeout f events = (r, f', rest) →
  (∃ pre, events = pre ++ rest) ∧ ∀ v, r = Finished (Ok v) → ∃ e, e ∈ events ∧ line_answers id v e.
Proof.
  revert f. induction events as [|e events IH]; intros f HH.
  - simpl in HH. simplify_eq. split; [by exists []|done].
  - assert (Hrec : ∀ f0, read_reply number_i64 id method timeout f0 events = (r, f', rest) →
      (∃ pre, e :: events = pre ++ rest) ∧ ∀ v, r = Finished (Ok v) → ∃ e0, e0 ∈ e :: events ∧ line_answers id v e0).
    { intros f0 H0. destruct (IH f0 H0) as [[pre ->] IH']. split; [by exists (e :: pre)|]. intros v Hv. destruct (IH' v Hv) as (x & Hx & Ha). exists x. set_solver. }
    destruct e as [buf| | | |k m]; cbn [read_reply] in HH; [|simplify_eq; split; [by eexists [_]|done]..].
    destruct (String.eqb (trim buf) EmptyString); [by eauto|]. destruct (from_str (trim buf)) as [message|] eqn:Em; [|by eauto].
    destruct (hear number_i64 id message) as [|k|r0] eqn:Eh; [by eauto..|]. simplify_eq. split; [by exists [ReadLine buf]|].
    intros v Hv. simplify_eq. exists (ReadLine buf). split; [set_solver|]. exists buf, message. split_and!; [done..|by apply hear_answers].
Qed.

Lemma stdio_round_trip_ok rq timeout f w events status tail r f' rest :
  stdio_round_trip number_i64 rq timeout f w events status tail = (r, f', rest) →
  (∃ pre, events = pre ++ rest) ∧ ∀ v, r = Finished (Ok v) → ∃ e, e ∈ events ∧ line_answers (rq_id rq) v e.
Proof.
  unfold stdio_round_trip, join_halves. destruct w as [|k kind m].
  - destruct (read_reply _ _ _ _ f events) as [[r0 f0] rest0] eqn:Er. intros HH. simplify_eq. apply read_reply_ok in Er as [Hp Hv].
    split; [done|]. intros v Hr. apply Hv. destruct r0 as [[|]| |]; by simplify_eq.
  - destruct (read_reply _ _ _ _ f (take k events)) as [[r0 f0] rest0] eqn:Er. intros HH. simplify_eq. apply read_reply_ok in Er as [[pre Hp] _].
    split; [exists pre; by rewrite app_assoc, <- Hp, take_drop|]. intros v Hr. destruct r0 as [[|]| |]; by simplify_eq.
Qed.
End replies.

(** ** A session over the pipes *)

(** The world as a script of exchanges. *)
Definition scripted : StdioPorts (list Exchange) := {|
  s_exchange := λ w _, match w with x :: w' => (x, w') | [] => ({| x_write := Written; x_events := []; x_status := None; x_tail := None |}, []) end;
  s_notify := λ w _, (None, w);
  s_tail := λ _, None;
  s_expired := λ w, (false, w);
  s_traceparent := λ _, None
|}.

Section session.
Context `{!SerdeJson} (number_i64 : string → option Z).

Fixpoint session (c : McpClient (list ReadEvent)) (reqs : list (string * option Value)) (w : list Exchange) : list trip :=
  match reqs with
  | [] => []
  | (method, params) :: rest =>
      let '(r, c, w) := send_request (stdio_ops number_i64 scripted) c method params w in r :: session c rest w
  end.

(** Everything the child sent up to the [k]-th request of a session. *)
Definition sent_by (unread : list ReadEvent) (w : list Exchange) (k : nat) : list ReadEvent := unread ++ (take (S k) w ≫= x_events).

Lemma session_answers reqs c w k v :
  (0 ≤ c_next_id c)%Z → (c_next_id c + Z.of_nat (length reqs) < 2 ^ 64)%Z → session c reqs w !! k = Some (Finished (Ok v)) →
  ∃ e, e ∈ sent_by (c_transport c) w k ∧ line_answers number_i64 (c_next_id c + Z.of_nat k) v e.
Proof.
  revert c w k. induction reqs as [|[method params] reqs IH]; intros c w k H0 Hn Hk; [done|]. cbn [session] in Hk. cbn [length] in Hn.
  set (x := match w with x :: _ => x | [] => {| x_write := Written; x_events := []; x_status := None; x_tail := None |} end).
  assert (Hw : ∀ n, x_events x ++ (take n (tail w) ≫= x_events) = take (S n) w ≫= x_events) by (intros n; destruct w; subst x; cbn; rewrite ?take_nil; done).
  destruct (send_request _ c method params w) as [[r c'] w'] eqn:Es. unfold send_request in Es. cbn [stdio_ops t_round_trip outbound_traceparent scripted s_traceparent s_exchange traced] in Es.
  assert (Hx : (match w with x0 :: w0 => (x0, w0) | [] => ({| x_write := Written; x_events := []; x_status := None; x_tail := None |}, []) end) = (x, tail w)) by (by destruct w).
  rewrite Hx in Es. clear Hx.
  destruct (stdio_round_trip _ _ _ _ _ _ _ _) as [[r0 f0] unread] eqn:Er. injection Es as <- <- <-.
  apply stdio_round_trip_ok in Er as [[pre Hpre] Hans]. cbn [rq_id] in Hans. destruct k as [|k].
  - injection Hk as Hk. destruct (Hans v Hk) as (e & He & Ha). exists e. rewrite Z.add_0_r. split; [|done]. unfold sent_by.
    rewrite <- (Hw 0), take_0, app_nil_r. done.
  - cbn [lookup list_lookup] in Hk. apply IH in Hk as (e & He & Ha); cbn [c_next_id c_transport] in *; unfold next_id_after in *.
    + exists e. rewrite Z.mod_small in Ha by lia. replace (c_next_id c + Z.of_nat (S k))%Z with (c_next_id c + 1 + Z.of_nat k)%Z by lia. split; [|done].
      unfold sent_by in *. rewrite <- Hw, app_assoc, Hpre. set_solver.
    + apply Z.mod_pos_bound. lia.
    + rewrite Z.mod_small by lia. lia.
Qed.

(** C40. A late reply is never taken for another's.  In a session over a child's
    pipes, whatever timed out before and whatever else the child sends, a value
    returned for the [k]-th request was carried by a line the child had sent by
    then, and that line is a response with that request's own number, which no
    other request of the session has. *)
Theorem a_late_reply_is_never_mistaken (reqs : list (string * option Value)) (timeout : nat) (w : list Exchange) (k : nat) (v : Value) :
  (Z.of_nat (length reqs) + 1 < 2 ^ 64)%Z →
  session (new_client [] timeout) reqs w !! k = Some (Finished (Ok v)) →
  ∃ e, e ∈ sent_by [] w k ∧ line_answers number_i64 (Z.of_nat (S k)) v e.
Proof.
  intros Hn Hk. apply session_answers in Hk as (e & He & Ha); cbn [new_client c_next_id c_transport] in *; [|lia..].
  exists e. split; [done|]. by replace (Z.of_nat (S k)) with (1 + Z.of_nat k)%Z by lia.
Qed.
End session.

(** ** Credentials over HTTP *)

(** The ports with a record of what was posted. *)
Definition lift_port {W A L} (r : A * W) (l : L) : A * (W * L) := (r.1, (r.2, l)).

Definition logged {W} (p : HttpPorts W) : HttpPorts (W * list HttpPost) := {|
  h_tokens := {| p_load := λ w key, lift_port (p_load (h_tokens p) w.1 key) w.2;
                 p_save := λ w key t, lift_port (p_save (h_tokens p) w.1 key t) w.2;
                 p_refresh := λ w form now, lift_port (p_refresh (h_tokens p) w.1 form now) w.2 |};
  h_now := λ w, lift_port (h_now p w.1) w.2;
  h_send := λ w post, lift_port (h_send p w.1 post) (w.2 ++ [post]);
  h_notify := λ w post, lift_port (h_notify p w.1 post) (w.2 ++ [post]);
  from_utf8 := from_utf8 p
|}.

Section http_facts.
Context `{!SerdeJson} (number_i64 : string → option Z) (json_error : string → string) (status_text : Z → string).
Context {W : Type} (p : HttpPorts W) (client : OAuthClient) (account_key : string) (skew : Z).

(** The same place and the same kind of credential; only OAuth tokens change. *)
Definition same_target (t t' : HttpTransport) : Prop :=
  h_url t' = h_url t ∧ match h_credential t with CredOAuth _ => is_oauth (h_credential t') = true | c => h_credential t' = c end.

(** What may be attached. *)
Definition may_carry (c : Credential) (tok : option string) : Prop :=
  match c with CredNone => tok = None | CredStatic s => tok = Some s | CredOAuth _ => ∃ s, tok = Some s end.

Lemma provider_get_logged st w now force log :
  (provider_get (h_tokens (logged p)) client account_key skew st (w, log) now force).2.2 = log.
Proof.
  unfold provider_get. destruct (load_once (h_tokens (logged p)) account_key st (w, log)) as [st1 w1] eqn:El.
  assert (Hw : w1.2 = log) by (unfold load_once in El; destruct (loaded_from_store st); cbn in El; by simplify_eq/=).
  destruct (needs_refresh skew st1 now force); [|done]. destruct (provider_tokens st1 ≫= refresh_token) as [rt|]; [|done].
  cbn [logged h_tokens p_refresh]. unfold lift_port. destruct (p_refresh (h_tokens p) w1.1 _ now) as [[[t|e]|] w2]; cbn [fst snd]; [|done..].
  cbn [p_save]. unfold lift_port. cbn. done.
Qed.

Lemma token_logged force t w log :
  let '(r, t', w') := token (logged p) client account_key skew force t (w, log) in
  w'.2 = log ∧ same_target t t' ∧ ∀ tok, r = Answered (Ok tok) → may_carry (h_credential t) tok.
Proof.
  unfold token, same_target. destruct (h_credential t) as [|s|st] eqn:Ec; [by split_and!; [..|intros ? [= <-]]..|].
  cbn [logged h_now]. unfold lift_port. cbn [fst snd].
  pose proof (provider_get_logged st (h_now p w).2 (h_now p w).1 force log) as Hl.
  destruct (provider_get _ _ _ _ st ((h_now p w).2, log) (h_now p w).1 force) as [[r st'] w']. cbn [fst snd] in Hl.
  split_and!; [done..|]. intros tok Htok. destruct r as [[s|e]|]; simplify_eq. by exists s.
Qed.

(** One attempt posts at most once, to the transport's own URL, with what its
    credential allows. *)
Lemma attempt_logged force t rq traceparent timeout w log :
  let '(r, t', w') := attempt (logged p) client account_key skew force t rq traceparent timeout (w, log) in
  same_target t t' ∧
  (w'.2 = log ∧ (∀ x, r ≠ Some (Ok x)) ∨
   ∃ post w1 sent w2, w'.2 = log ++ [post] ∧ post_url post = h_url t ∧ post_payload post = PRequest rq ∧ may_carry (h_credential t) (post_token post) ∧
     h_send p w1 post = (sent, w2) ∧ ∀ status ct body, r = Some (Ok (status, ct, body)) → ∃ reply, sent = Ok reply ∧ reply_status reply = status).
Proof.
  unfold attempt. pose proof (token_logged force t w log) as Ht. destruct (token _ _ _ _ force t (w, log)) as [[tok t1] [w1 log1]].
  cbn [snd] in Ht. destruct Ht as (-> & [Hu Hc] & Hm). destruct tok as [[tok|e]|]; [|by split; [|left; split]..].
  unfold send_once. cbn [logged h_send]. unfold lift_port. cbn [fst snd].
  set (post := post_of t1 (PRequest rq) tok traceparent). destruct (h_send p w1 post) as [sent w2] eqn:Es. cbn [fst snd].
  destruct sent as [reply|[|m]].
  - split; [by split|]. right. exists post, w1, (Ok reply), w2. split_and!; [done..|by apply Hm|done|]. intros status ct body Hr.
    exists reply. split; [done|]. by destruct (read_body_capped _ _ _ _ _ _ _); simplify_eq/=.
  - split; [by split|]. right. exists post, w1, (Err SendTimeout), w2. split_and!; [done..|by apply Hm|done|done].
  - split; [by split|]. right. exists post, w1, (Err (SendError m)), w2. split_and!; [done..|by apply Hm|done|done].
Qed.

Lemma may_carry_same t t' tok : same_target t t' → may_carry (h_credential t') tok → may_carry (h_credential t) tok.
Proof. clear. intros [_ Hc]. destruct (h_credential t), (h_credential t'); naive_solver. Qed.

Lemma same_target_trans t1 t2 t3 : same_target t1 t2 → same_target t2 t3 → same_target t1 t3.
Proof. clear. intros [Hu Hc] [Hu' Hc']. split; [congruence|]. destruct (h_credential t1), (h_credential t2), (h_credential t3); naive_solver. Qed.

Lemma same_target_oauth t t' : same_target t t' → is_oauth (h_credential t') = is_oauth (h_credential t).
Proof. clear. intros [_ Hc]. by destruct (h_credential t), (h_credential t'). Qed.

(** What one request may post: at most twice, each time to the URL of the
    transport with what its credential allows, twice only with OAuth after 401. *)
Definition posts_ok (t : HttpTransport) (rq : JsonRpcRequest) (log : list HttpPost) : Prop :=
  Forall (λ post, post_url post = h_url t ∧ post_payload post = PRequest rq ∧ may_carry (h_credential t) (post_token post)) log ∧
  (length log ≤ 1 ∨
   ∃ first second w1 reply w2, log = [first; second] ∧ is_oauth (h_credential t) = true ∧
     h_send p w1 first = (Ok reply, w2) ∧ reply_status reply = 401%Z).

(** A credential goes only to its own server, and a request is repeated only
    for a better token.  Whatever the server and the token endpoint answer, one
    request is posted to the transport's own URL, with nothing attached, the
    configured bearer or a token of the provider as the credential says; there is
    a second post only for OAuth, when the first was answered with 401, and never
    a third. *)
Theorem a_credential_goes_only_to_its_server t rq timeout f traceparent w :
  let '(_, _, t', w') := http_round_trip number_i64 json_error status_text (logged p) client account_key skew t rq timeout f traceparent (w, []) in
  same_target t t' ∧ posts_ok t rq w'.2.
Proof.
  unfold http_round_trip. pose proof (attempt_logged false t rq traceparent timeout w []) as H1.
  destruct (attempt _ _ _ _ false t rq traceparent timeout (w, [])) as [[first t1] [w1 log1]]. cbn [snd] in H1. destruct H1 as [Hs1 H1].
  assert (Hone : posts_ok t rq log1).
  { destruct H1 as [[-> _]|(post & ? & ? & ? & -> & Hp)]; [by split; [constructor|left; simpl; lia]|]. split; [|by left]. apply Forall_singleton. naive_solver. }
  assert (Hend : ∀ (got : option (result (Z * string * string) McpError)) t2 (w2 : W * list HttpPost), same_target t t2 → posts_ok t rq w2.2 →
    let '(_, _, t', w') := match got with
      | None => (Crashed, f, t2, w2)
      | Some (Err e) => (Finished (Err e), f, t2, w2)
      | Some (Ok got) => let '(r, f) := read_http number_i64 json_error status_text t2 rq f got in (Finished r, f, t2, w2)
      end in same_target t t' ∧ posts_ok t rq w'.2).
  { intros got t2 w2 ??. destruct got as [[g|e]|]; [destruct (read_http _ _ _ t2 rq f g)|..]; by split_and!. }
  destruct first as [[[[status ct] body]|e]|]; [|by apply (Hend (Some (Err e)) t1 (w1, log1))|by apply (Hend None t1 (w1, log1))].
  destruct (unauthorized status && is_oauth (h_credential t1)) eqn:Eu; [|by apply (Hend (Some (Ok (status, ct, body))) t1 (w1, log1))].
  apply andb_true_iff in Eu as [Eu Eo]. apply Z.eqb_eq in Eu as ->. rewrite (same_target_oauth _ _ Hs1) in Eo.
  destruct H1 as [[_ Hno]|(post & w0 & sent & w0' & -> & Hpu & Hpp & Hpt & Hsend & Hok)]; [by destruct (Hno (401%Z, ct, body))|].
  destruct (Hok 401%Z ct body eq_refl) as (reply & -> & Hst).
  pose proof (attempt_logged true t1 rq traceparent timeout w1 ([] ++ [post])) as H2.
  destruct (attempt _ _ _ _ true t1 rq traceparent timeout _) as [[second t2] [w2 log2]]. cbn [snd] in H2. destruct H2 as [Hs2 H2].
  apply (Hend second t2 (w2, log2)); [by eapply same_target_trans|]. cbn [snd].
  destruct H2 as [[-> _]|(post2 & ? & ? & ? & -> & Hu2 & Hp2 & Ht2 & _)]; [done|]. split; [|right; by exists post, post2, w0, reply, w0'].
  apply Forall_app. split; [by destruct Hone|]. apply Forall_singleton. split_and!; [destruct Hs1; congruence|done|by eapply may_carry_same].
Qed.
End http_facts.

(** ** The handshake *)

(** A client that connected has agreed on a protocol revision it knows: the
    one the server named in its answer, which is recorded; a server that names
    none, or another, is refused. *)
Theorem a_connected_client_has_agreed `{!SerdeJson} crate_version {T W} (ops : TransportOps T W) t timeout w c w' :
  from_transport crate_version ops t timeout w = (Returned (Ok c), w') →
  ∃ answer version, get_str "protocolVersion" answer = Some version ∧ version ∈ SUPPORTED_PROTOCOL_VERSIONS ∧ c_protocol_version c = Some version ∧
    c_server_instructions c = parse_server_instructions answer ∧ c_server_metadata c = parse_server_metadata answer.
Proof.
  unfold from_transport, initialize, on_answer. destruct (t_expired ops w) as [expired w0].
  destruct (send_request ops _ "initialize" _ w0) as [[[[v|e]| |] c1] w1]; [|by destruct expired..].
  unfold negotiated_protocol_version. destruct (get "protocolVersion" v) as [x|] eqn:Eg; [|by destruct expired].
  destruct (as_str x) as [version|] eqn:Ea; [|by destruct expired]. case_bool_decide as Hv; [|by destruct expired].
  destruct (t_notify ops w1 _) as [[[[[]|e]|] t'] w2]; destruct expired; [done| |done..]. intros Hc. simplify_eq.
  exists v, version. unfold get_str. rewrite Eg. by split_and!.
Qed.

(** ** List changes *)

(** A successful listing leaves the flag of its kind clear, whatever was heard
    while it ran: an answer that itself says the list changed is forgotten. *)
Lemma a_listing_forgets_what_it_heard `{!SerdeJson} value_error {T W} (ops : TransportOps T W) c w tools c' w' :
  list_tools value_error ops c w = (Returned (Ok tools), c', w') → fl_tools (c_flags c') = false.
Proof.
  unfold list_tools, on_answer. destruct (send_request ops c "tools/list" None w) as [[[[v|e]| |] c1] w1]; [|done..].
  destruct (get "tools" v) as [tools'|]; [|done]. destruct (decode_tools tools') as [raw|]; [|done]. intros Hr. by simplify_eq.
Qed.

(** ** Examples *)

Module McpWireExamples.

(** A few texts and what they parse to. *)
Definition reply_text (n : nat) : string := "reply " +:+ pretty n.
Definition reply_to (n : nat) : Value := Object [("id", Number (pretty n)); ("jsonrpc", Str "2.0"); ("result", Str (reply_text n))].

#[local] Instance toy : SerdeJson := {
  from_str s := if String.eqb s "reply 1" then Some (reply_to 1) else if String.eqb s "reply 2" then Some (reply_to 2) else None;
  to_string v := match get_str "result" v with Some s => s | None => "{}" end
}.

Definition says (l : list ReadEvent) : Exchange := {| x_write := Written; x_events := l; x_status := None; x_tail := None |}.

(** The first request times out; its reply comes during the second. *)
Definition late : list Exchange := [says [Silence]; says [ReadLine "reply 1"; ReadLine "reply 2"]].
Definition two : list (string * option Value) := [("tools/list", None); ("tools/call", None)].

Lemma a_late_reply_is_never_mistaken_witness :
  session (λ _, None) (new_client [] 300) two late = [Finished (Err (Timeout "tools/list" 300 None)); Finished (Ok (Str "reply 2"))] ∧
  ∃ e, e ∈ sent_by [] late 1 ∧ line_answers (λ _, None) 2 (Str "reply 2") e.
Proof.
  split; [by vm_compute|].
  apply (a_late_reply_is_never_mistaken (λ _, None) two 300 late 1 (Str "reply 2")); [|by vm_compute]. cbn. lia.
Defined.

Lemma events_are_read_as_sent_witness : parse_sse_messages (glue (map sse_of [reply_to 1; reply_to 2])) = [reply_to 1; reply_to 2].
Proof.
  apply (events_are_read_as_sent [reply_to 1; reply_to 2]). unfold prints, one_line_text.
  apply Forall_cons_2; [split_and!; [compute_done..|by vm_compute]|apply Forall_cons_2; [split_and!; [compute_done..|by vm_compute]|apply Forall_nil_2]].
Defined.

(** A server that agrees to an older revision. *)
Definition agreeing : TransportOps unit unit := {|
  t_round_trip := λ w t _ _ f _, (Finished (Ok (Object [("protocolVersion", Str "2025-03-26")])), f, t, w);
  t_set_protocol_version := λ t _, t; t_notify := λ w t, (Some (Ok ()), t, w); t_stderr_tail := λ _ _, None;
  t_expired := λ w, (false, w); outbound_traceparent := λ _, None |}.

Lemma a_connected_client_has_agreed_witness :
  ∃ c, (from_transport "1" agreeing () 300 ()).1 = Returned (Ok c) ∧ ∃ version, version ∈ SUPPORTED_PROTOCOL_VERSIONS ∧ c_protocol_version c = Some version.
Proof.
  eexists. split; [by vm_compute|].
  destruct (a_connected_client_has_agreed "1" agreeing () 300 () _ () eq_refl) as (answer & version & _ & Hv & Hc & _).
  exists version. split; [exact Hv|exact Hc].
Defined.

(** The same two events from a server that ends its lines with carriage return
    and newline, as the format allows: they run together and neither is read. *)
Definition crlf : string := bytes [13; 10].
Lemma crlf_events_run_together :
  parse_sse_messages ("data: reply 1" +:+ crlf +:+ crlf +:+ "data: reply 2" +:+ crlf +:+ crlf) = [].
Proof. by vm_compute. Qed.

End McpWireExamples.
