(* ===== verification/McpConfig.v ===== *)
(** * The configured MCP servers

    Models [crates/mcp-client/src/config.rs] and the data of [executor.rs]: the
    servers and service accounts of [mcp_servers.toml], the secrets file, how
    each is read, checked and written back, and how a server's credentials and
    environment follow from its configuration.

    The disk is a map from paths to contents; [broken] says which of its
    operations fail, and what a failed write leaves behind.  TOML is a parameter
    with the one law that a document written parses back. *)

From S2P Require Import Prelude TaskStore OAuth McpWire.

#[local] Set Default Proof Using "Type".

(** ** Data *)

Record OAuthServerConfig := {
  oc_client_id : string;
  oc_token_url : string;
  oc_refresh_token_ref : string;
  oc_client_secret_ref : option string;
  oc_authorize_url : option string;
  oc_scopes : list string;
  oc_account : option string;
  oc_refresh_skew_seconds : option Z
}.

Record HttpTransportConfig := {
  hc_url : string;
  hc_auth_bearer_secret : option string;
  hc_oauth : option OAuthServerConfig;
  hc_oauth_account : option string;
  hc_scopes : list string
}.

Record ServiceAccount := {
  sa_id : string;
  sa_display_name : string;
  sa_client_id : string;
  sa_client_secret_ref : option string;
  sa_authorize_url : string;
  sa_token_url : string;
  sa_account : option string;
  sa_refresh_token_ref : string;
  sa_granted_scopes : list string
}.

Record ResolvedOAuth := {
  effective : OAuthServerConfig;
  required_scopes : list string;
  granted_scopes : list string;
  account_id : option string
}.

Record McpServerConfig := {
  sc_name : string;
  sc_command : string;
  sc_args : list string;
  sc_namespace : option string;
  sc_enabled : bool;
  sc_env : gmap string string;
  sc_env_secrets : gmap string string;
  sc_inherit_env : list string;
  sc_http : option HttpTransportConfig;
  sc_description : option string
}.

#[export] Instance OAuthServerConfig_eq_dec : EqDecision OAuthServerConfig.
Proof. solve_decision. Defined.
#[export] Instance HttpTransportConfig_eq_dec : EqDecision HttpTransportConfig.
Proof. solve_decision. Defined.
#[export] Instance ServiceAccount_eq_dec : EqDecision ServiceAccount.
Proof. solve_decision. Defined.
#[export] Instance McpServerConfig_eq_dec : EqDecision McpServerConfig.
Proof. solve_decision. Defined.

(** ** Credentials of a server *)

Definition account_oauth (http : HttpTransportConfig) (acct : ServiceAccount) : ResolvedOAuth := {|
  effective := {|
    oc_client_id := sa_client_id acct; oc_token_url := sa_token_url acct; oc_refresh_token_ref := sa_refresh_token_ref acct;
    oc_client_secret_ref := sa_client_secret_ref acct; oc_authorize_url := Some (sa_authorize_url acct); oc_scopes := hc_scopes http;
    oc_account := match sa_account acct with Some a => Some a | None => Some (sa_id acct) end; oc_refresh_skew_seconds := None |};
  required_scopes := hc_scopes http;
  granted_scopes := sa_granted_scopes acct;
  account_id := Some (sa_id acct)
|}.

Definition resolve_server_oauth (http : HttpTransportConfig) (accounts : list ServiceAccount) (server_name : string)
    : result (option ResolvedOAuth) McpError :=
  match hc_oauth http, hc_oauth_account http with
  | Some _, Some id =>
      Err (InvalidConfig ("server '" +:+ server_name +:+ "' sets both an inline [http.oauth] block and oauth_account = '" +:+ id +:+ "'; use exactly one"))
  | Some inline, None =>
      Ok (Some {| effective := inline; required_scopes := oc_scopes inline; granted_scopes := oc_scopes inline; account_id := None |})
  | None, Some id =>
      match List.find (λ a, String.eqb (sa_id a) id) accounts with
      | None => Err (InvalidConfig ("server '" +:+ server_name +:+ "' references unknown service account '" +:+ id +:+ "'"))
      | Some acct => Ok (Some (account_oauth http acct))
      end
  | None, None => Ok None
  end.

Definition scopes_covered (required granted : list string) : bool := forallb (λ s, bool_decide (s ∈ granted)) required.

(** [base_env]: the inherited variables, and the server's own on top. *)
Definition inherit (host : gmap string string) (acc : gmap string string) (name : string) : gmap string string :=
  match host !! name with Some v => <[name := v]> acc | None => acc end.

Definition base_env (host : gmap string string) (c : McpServerConfig) : gmap string string :=
  sc_env c ∪ foldl (inherit host) ∅ (sc_inherit_env c).

Definition connect_target (c : McpServerConfig) : string :=
  match sc_http c with Some http => hc_url http | None => sc_command c end.

Definition push_new (parts : list string) (source : string) : list string := if bool_decide (source ∈ parts) then parts else parts ++ [source].

Definition resolve_provider_description (server_description instructions config_description : option string) (server_name : string) : string :=
  match foldl push_new [] (option_list server_description ++ option_list instructions ++ option_list config_description) with
  | [] => "Tools from the " +:+ server_name +:+ " MCP server"
  | parts => join " " parts
  end.

(** ** Service accounts *)

Definition is_https_url (url : string) : bool :=
  starts_with url "https://" && negb (String.eqb (drop_bytes 8 url) EmptyString).

Definition validate_service_account (a : ServiceAccount) : result unit McpError :=
  if String.eqb (trim (sa_id a)) EmptyString then Err (InvalidConfig "service account id must not be empty")
  else if String.eqb (trim (sa_client_id a)) EmptyString then
    Err (InvalidConfig ("service account '" +:+ sa_id a +:+ "': client_id must not be empty"))
  else if negb (is_https_url (sa_authorize_url a)) then
    Err (InvalidConfig ("service account '" +:+ sa_id a +:+ "': authorize_url must be an https URL, got '" +:+ sa_authorize_url a +:+ "'"))
  else if negb (is_https_url (sa_token_url a)) then
    Err (InvalidConfig ("service account '" +:+ sa_id a +:+ "': token_url must be an https URL, got '" +:+ sa_token_url a +:+ "'"))
  else Ok ().

Fixpoint validate_from (seen : gset string) (accounts : list ServiceAccount) : result unit McpError :=
  match accounts with
  | [] => Ok ()
  | a :: rest =>
      match validate_service_account a with
      | Err e => Err e
      | Ok _ =>
          if bool_decide (sa_id a ∈ seen) then Err (InvalidConfig ("duplicate service account id '" +:+ sa_id a +:+ "'"))
          else validate_from ({[sa_id a]} ∪ seen) rest
      end
  end.

Definition validate_service_accounts (accounts : list ServiceAccount) : result unit McpError := validate_from ∅ accounts.

(** ** Files *)

Record McpConfig := { servers : list McpServerConfig; service_accounts_of : list ServiceAccount }.
#[export] Instance McpConfig_eq_dec : EqDecision McpConfig.
Proof. solve_decision. Defined.
Definition McpConfig_default : McpConfig := {| servers := []; service_accounts_of := [] |}.

Class Toml := {
  parse_config : string → result McpConfig string;
  print_config : McpConfig → result string string;
  parse_secrets : string → result (gmap string string) string;
  print_secrets : gmap string string → result string string
}.

Class TomlLaws `{!Toml} := {
  config_reads_back c s : print_config c = Ok s → parse_config s = Ok c;
  secrets_read_back m s : print_secrets m = Ok s → parse_secrets s = Ok m
}.

Inductive FsOp := SetPermissions | ReadFile | CreateDir | OpenFile | WriteFile.

Section files.
Context `{!Toml} (broken : FsOp → string → option string) (torn : string → string).

Notation Disk := (gmap string string).

Definition failing {A} (op : FsOp) (path what : string) (k : result A McpError) : result A McpError :=
  match broken op path with Some e => Err (UnexpectedResponse (what +:+ e)) | None => k end.

Definition enforce_permissions (path : string) : result unit McpError := failing SetPermissions path "failed to set config file permissions: " (Ok ()).

Definition load_full_config (disk : Disk) (path : string) : result McpConfig McpError :=
  match disk !! path with
  | None => Ok McpConfig_default
  | Some contents =>
      match enforce_permissions path with
      | Err e => Err e
      | Ok _ =>
          failing ReadFile path "failed to read MCP config file: "
            (match parse_config contents with Ok c => Ok c | Err e => Err (UnexpectedResponse ("failed to parse MCP config file: " +:+ e)) end)
      end
  end.

(** Writing a file in place: opening truncates it, and a write that fails leaves
    what was written so far. *)
Definition write_file (dir what contents : string) (disk : Disk) (path : string) : result unit McpError * Disk :=
  match broken CreateDir path with
  | Some e => (Err (UnexpectedResponse ("failed to create " +:+ dir +:+ " directory: " +:+ e)), disk)
  | None =>
      match broken OpenFile path with
      | Some e => (Err (UnexpectedResponse ("failed to open " +:+ what +:+ " file: " +:+ e)), disk)
      | None =>
          match broken WriteFile path with
          | Some e => (Err (UnexpectedResponse ("failed to write " +:+ what +:+ " file: " +:+ e)), <[path := torn contents]> disk)
          | None => (enforce_permissions path, <[path := contents]> disk)
          end
      end
  end.

Definition save_full_config (disk : Disk) (path : string) (config : McpConfig) : result unit McpError * Disk :=
  match print_config config with
  | Err e => (Err (UnexpectedResponse ("failed to serialize MCP config: " +:+ e)), disk)
  | Ok contents => write_file "config" "MCP config" contents disk path
  end.

Definition load_mcp_configs (disk : Disk) (path : string) : result (list McpServerConfig) McpError :=
  match load_full_config disk path with Ok c => Ok (servers c) | Err e => Err e end.

Definition save_mcp_configs (disk : Disk) (path : string) (configs : list McpServerConfig) : result unit McpError * Disk :=
  match load_full_config disk path with
  | Err e => (Err e, disk)
  | Ok c => save_full_config disk path {| servers := configs; service_accounts_of := service_accounts_of c |}
  end.

Definition load_service_accounts (disk : Disk) (path : string) : result (list ServiceAccount) McpError :=
  match load_full_config disk path with Ok c => Ok (service_accounts_of c) | Err e => Err e end.

Definition save_service_accounts (disk : Disk) (path : string) (accounts : list ServiceAccount) : result unit McpError * Disk :=
  match validate_service_accounts accounts with
  | Err e => (Err e, disk)
  | Ok _ =>
      match load_full_config disk path with
      | Err e => (Err e, disk)
      | Ok c => save_full_config disk path {| servers := servers c; service_accounts_of := accounts |}
      end
  end.

Definition ensure_mcp_config_exists (disk : Disk) (dest : string) (source : option string) : result bool McpError * Disk :=
  match disk !! dest, source with
  | Some _, _ => (Ok false, disk)
  | None, None => (Ok false, disk)
  | None, Some source =>
      match disk !! source with
      | None => (Ok false, disk)
      | Some _ =>
          match load_mcp_configs disk source with
          | Err e => (Err e, disk)
          | Ok configs =>
              let '(r, disk) := save_mcp_configs disk dest configs in
              (match r with Ok _ => Ok true | Err e => Err e end, disk)
          end
      end
  end.

Definition parse_default_config_source (value : option string) : option string := value ≫= trimmed_non_empty.

Definition load_secrets (disk : Disk) (path : string) : result (gmap string string) McpError :=
  match disk !! path with
  | None => Ok ∅
  | Some contents =>
      match enforce_permissions path with
      | Err e => Err e
      | Ok _ =>
          failing ReadFile path "failed to read secrets file: "
            (match parse_secrets contents with Ok m => Ok m | Err e => Err (UnexpectedResponse ("failed to parse secrets file: " +:+ e)) end)
      end
  end.

Definition save_secrets (disk : Disk) (path : string) (secrets : gmap string string) : result unit McpError * Disk :=
  match print_secrets secrets with
  | Err e => (Err (UnexpectedResponse ("failed to serialize secrets: " +:+ e)), disk)
  | Ok contents => write_file "secrets" "secrets" contents disk path
  end.

Definition upsert_secret (disk : Disk) (path id value : string) : result (gmap string string) McpError * Disk :=
  match load_secrets disk path with
  | Err e => (Err (UnexpectedResponse ("refusing to overwrite secrets: cannot read existing " +:+ path +:+ ": " +:+ mcp_error_to_string e)), disk)
  | Ok secrets =>
      let secrets := <[id := value]> secrets in
      let '(r, disk) := save_secrets disk path secrets in
      (match r with Ok _ => Ok secrets | Err e => Err e end, disk)
  end.
End files.

(** ** Accounts that may be stored *)

Definition account_ok (a : ServiceAccount) : Prop :=
  trim (sa_id a) ≠ EmptyString ∧ trim (sa_client_id a) ≠ EmptyString ∧ is_https_url (sa_authorize_url a) = true ∧ is_https_url (sa_token_url a) = true.

Lemma validate_one a : validate_service_account a = Ok () ↔ account_ok a.
Proof.
  unfold validate_service_account, account_ok.
  destruct (String.eqb_spec (trim (sa_id a)) EmptyString), (String.eqb_spec (trim (sa_client_id a)) EmptyString),
    (is_https_url (sa_authorize_url a)), (is_https_url (sa_token_url a)); cbn [negb]; naive_solver.
Qed.

Lemma validate_from_ok seen accounts :
  validate_from seen accounts = Ok () ↔ Forall account_ok accounts ∧ NoDup (map sa_id accounts) ∧ ∀ a, a ∈ accounts → sa_id a ∉ seen.
Proof.
  revert seen. induction accounts as [|a rest IH]; intros seen; cbn [validate_from map].
  - split; [intros _; split_and!; [constructor|constructor|set_solver]|done].
  - rewrite Forall_cons, NoDup_cons. setoid_rewrite elem_of_cons. pose proof (validate_one a) as Ha. destruct (validate_service_account a) as [[]|e].
    2:{ split; [done|]. intros ([Hok _] & _). by apply Ha in Hok. }
    case_bool_decide as Hs; [split; [done|]; intros (_ & _ & Hn); by destruct (Hn a (or_introl eq_refl))|].
    rewrite IH. pose proof (list_elem_of_fmap sa_id rest (sa_id a)) as Hm. unfold fmap, list_fmap in Hm. split.
    + intros (HF & Hnd & Hn). split_and!; [by apply Ha|done| |done|].
      * rewrite Hm. intros (b & Hb & Hin). apply (Hn b Hin). set_solver.
      * intros b [->|Hb]; [done|]. specialize (Hn b Hb). set_solver.
    + intros ([_ HF] & [Hni Hnd] & Hn). split_and!; [done..|]. intros b Hb. specialize (Hn b (or_intror Hb)).
      assert (sa_id b ≠ sa_id a) by (intros E; apply Hni; rewrite Hm; by exists b). set_solver.
Qed.

(** A set of service accounts is accepted exactly when each has an id and a
    client id that are not blank and two https endpoints, and no two share an
    id; so a reference names at most one account. *)
Theorem accounts_are_accepted_by_the_rule (accounts : list ServiceAccount) :
  validate_service_accounts accounts = Ok () ↔ Forall account_ok accounts ∧ NoDup (map sa_id accounts).
Proof. unfold validate_service_accounts. rewrite validate_from_ok. set_solver. Qed.

(** ** Reading and writing back *)

Section file_facts.
Context `{!Toml} (broken : FsOp → string → option string) (torn : string → string).

Lemma write_file_ok dir what contents (disk disk' : gmap string string) path :
  write_file broken torn dir what contents disk path = (Ok (), disk') →
  disk' = <[path := contents]> disk ∧ broken SetPermissions path = None.
Proof.
  unfold write_file, enforce_permissions, failing. destruct (broken CreateDir path), (broken OpenFile path), (broken WriteFile path); try done.
  destruct (broken SetPermissions path); naive_solver.
Qed.

Lemma load_written c s (disk : gmap string string) path :
  TomlLaws → print_config c = Ok s → broken SetPermissions path = None → broken ReadFile path = None →
  load_full_config broken (<[path := s]> disk) path = Ok c.
Proof.
  intros Hlaws Hp Hs Hr. unfold load_full_config, enforce_permissions, failing. rewrite lookup_insert_eq, Hs, Hr.
  by rewrite (config_reads_back c s Hp).
Qed.

Lemma save_full_ok c (disk disk' : gmap string string) path :
  TomlLaws → broken ReadFile path = None → save_full_config broken torn disk path c = (Ok (), disk') →
  load_full_config broken disk' path = Ok c ∧ ∀ p, p ≠ path → disk' !! p = disk !! p.
Proof.
  intros Hlaws Hr. unfold save_full_config. destruct (print_config c) as [s|e] eqn:Ep; [|done]. intros [-> Hs]%write_file_ok.
  split; [by apply load_written|]. intros p Hp. by rewrite lookup_insert_ne.
Qed.

(** Saving one part of a file keeps the others.  Servers saved are the
    servers read back, with the same service accounts as before; accounts saved
    are read back with the same servers; a secret set is read back with every
    other secret as it was; and no other file changes. *)
Theorem a_save_keeps_the_rest (laws : TomlLaws) (disk disk' : gmap string string) (path : string) :
  broken ReadFile path = None →
  (∀ configs, save_mcp_configs broken torn disk path configs = (Ok (), disk') →
     load_mcp_configs broken disk' path = Ok configs ∧ load_service_accounts broken disk' path = load_service_accounts broken disk path ∧
     ∀ p, p ≠ path → disk' !! p = disk !! p) ∧
  (∀ accounts, save_service_accounts broken torn disk path accounts = (Ok (), disk') →
     load_service_accounts broken disk' path = Ok accounts ∧ load_mcp_configs broken disk' path = load_mcp_configs broken disk path ∧
     ∀ p, p ≠ path → disk' !! p = disk !! p) ∧
  (∀ id value secrets, upsert_secret broken torn disk path id value = (Ok secrets, disk') →
     load_secrets broken disk' path = Ok secrets ∧ (∃ old, load_secrets broken disk path = Ok old ∧ secrets = <[id := value]> old) ∧
     ∀ p, p ≠ path → disk' !! p = disk !! p).
Proof.
  intros Hr. unfold save_mcp_configs, save_service_accounts, load_mcp_configs, load_service_accounts. split_and!.
  - intros configs. destruct (load_full_config broken disk path) as [c|e] eqn:El; [|done]. intros [-> Hd]%save_full_ok; [|done..]. done.
  - intros accounts. destruct (validate_service_accounts accounts); [|done]. destruct (load_full_config broken disk path) as [c|e] eqn:El; [|done].
    intros [-> Hd]%save_full_ok; [|done..]. done.
  - intros id value secrets. unfold upsert_secret, save_secrets. destruct (load_secrets broken disk path) as [old|e] eqn:El; [|done].
    destruct (print_secrets (<[id := value]> old)) as [s|e] eqn:Ep; [|done].
    destruct (write_file broken torn "secrets" "secrets" s disk path) as [[[]|e] d] eqn:Ew; [|done]. intros HH. simplify_eq.
    apply write_file_ok in Ew as [-> Hs]. split_and!; [|by eexists|intros p Hp; by rewrite lookup_insert_ne].
    unfold load_secrets, enforce_permissions, failing. rewrite lookup_insert_eq, Hs, Hr. by rewrite (secrets_read_back _ s Ep).
Qed.

(** A file that cannot be understood is not written over: where the servers
    file or the secrets file exists and does not parse, every save is refused and
    the disk stays as it was; an existing file is never seeded over either. *)
Theorem an_unreadable_file_is_not_overwritten (disk : gmap string string) (path contents e : string) :
  disk !! path = Some contents →
  (parse_config contents = Err e → ∀ configs accounts,
     (∃ err, save_mcp_configs broken torn disk path configs = (Err err, disk)) ∧ ∃ err, save_service_accounts broken torn disk path accounts = (Err err, disk)) ∧
  (parse_secrets contents = Err e → ∀ id value, ∃ err, upsert_secret broken torn disk path id value = (Err err, disk)) ∧
  ∀ source, ensure_mcp_config_exists broken torn disk path source = (Ok false, disk).
Proof.
  intros Hd. unfold save_mcp_configs, save_service_accounts, upsert_secret, load_full_config, load_secrets, ensure_mcp_config_exists, enforce_permissions, failing.
  rewrite Hd. split_and!; [intros Hp configs accounts|intros Hp id value|done].
  - rewrite Hp. split; [|destruct (validate_service_accounts accounts); [|by eexists]]; destruct (broken SetPermissions path), (broken ReadFile path); by eexists.
  - rewrite Hp. destruct (broken SetPermissions path), (broken ReadFile path); by eexists.
Qed.
End file_facts.

(** ** Examples *)

Module McpConfigExamples.

Definition plain (n : string) : McpServerConfig :=
  {| sc_name := n; sc_command := n; sc_args := []; sc_namespace := None; sc_enabled := true; sc_env := ∅; sc_env_secrets := ∅; sc_inherit_env := [];
     sc_http := None; sc_description := None |}.
Definition work : ServiceAccount :=
  {| sa_id := "work"; sa_display_name := EmptyString; sa_client_id := "c"; sa_client_secret_ref := None; sa_authorize_url := "https://a"; sa_token_url := "https://t";
     sa_account := None; sa_refresh_token_ref := "r"; sa_granted_scopes := [] |}.

Definition one : McpConfig := {| servers := [plain "a"]; service_accounts_of := [work] |}.
Definition two : McpConfig := {| servers := [plain "b"]; service_accounts_of := [work] |}.
Definition bare : McpConfig := {| servers := [plain "a"]; service_accounts_of := [] |}.

(** A notation that writes these documents and no others. *)
#[local] Instance toy : Toml := {
  parse_config s := if String.eqb s "one" then Ok one else if String.eqb s "two" then Ok two else if String.eqb s "bare" then Ok bare else Err "unknown";
  print_config c := if decide (c = one) then Ok "one" else if decide (c = two) then Ok "two" else if decide (c = bare) then Ok "bare" else Err "unknown";
  parse_secrets s := if String.eqb s "k" then Ok {["k" := "v"]} else if String.eqb s "both" then Ok {["k" := "v"; "l" := "w"]} else Err "unknown";
  print_secrets m := if decide (m = {["k" := "v"]}) then Ok "k" else if decide (m = {["k" := "v"; "l" := "w"]}) then Ok "both" else Err "unknown"
}.

Lemma toy_laws : TomlLaws.
Proof.
  split.
  - intros c s. cbn [print_config toy]. repeat case_decide; intros; by simplify_eq.
  - intros m s. cbn [print_secrets toy]. repeat case_decide; intros; by simplify_eq.
Defined.

Definition healthy (op : FsOp) (path : string) : option string := None.

Lemma a_save_keeps_the_rest_witness :
  load_service_accounts healthy (<["f" := "two"]> {["f" := "one"]}) "f" = Ok [work].
Proof.
  destruct (a_save_keeps_the_rest healthy (λ s, s) toy_laws {["f" := "one"]} (<["f" := "two"]> {["f" := "one"]}) "f" eq_refl) as [H _].
  destruct (H [plain "b"] ltac:(by vm_compute)) as (_ & Ha & _). rewrite Ha. by vm_compute.
Defined.

Lemma an_unreadable_file_is_not_overwritten_witness :
  ∃ err, upsert_secret healthy (λ s, s) {["f" := "garbage"]} "f" "k" "v" = (Err err, {["f" := "garbage"]}).
Proof.
  destruct (an_unreadable_file_is_not_overwritten healthy (λ s, s) {["f" := "garbage"]} "f" "garbage" "unknown" ltac:(by vm_compute)) as (_ & H & _).
  apply H. by vm_compute.
Defined.

(** The file seeded from a bundled default holds its servers and none of its
    service accounts, so a server that refers to one is left without it. *)
Lemma seeding_drops_the_accounts :
  ensure_mcp_config_exists healthy (λ s, s) {["d" := "one"]} "f" (Some "d") = (Ok true, <["f" := "bare"]> {["d" := "one"]}).
Proof. by vm_compute. Qed.

(** A secret set while the disk is full: the file was truncated to write it, and
    the other secrets are gone. *)
Definition full_disk (op : FsOp) (path : string) : option string := match op with WriteFile => Some "no space left" | _ => None end.
Lemma a_failed_write_loses_the_secrets :
  upsert_secret full_disk (λ _, EmptyString) {["s" := "k"]} "s" "l" "w" = (Err (UnexpectedResponse "failed to write secrets file: no space left"), {["s" := EmptyString]}).
Proof. by vm_compute. Qed.

End McpConfigExamples.
