(* ===== verification/McpExecutor.v ===== *)
(** * The servers of tools, together

    Models [crates/mcp-client/src/executor.rs]: the executor that keeps one client
    per configured MCP server, caches what they offer, routes a tool call to the
    server that offers the tool, and is controlled while it runs (start, stop,
    add, replace, remove, enable, disable, new secrets and accounts, status).

    A client is abstract: connecting to a server, listing, calling and shutting
    down are ports over an arbitrary world.  An operation of the control handle
    is one function from state to state; what another task can see between the
    locks of one is [McpConcurrency]'s, and two such sights are at the end.  A skew no duration can hold panics in
    the program; that is left out.  Indexing a vector out of range panics
    in the program; the invariant shows that it is never reached, and the model
    leaves the state alone there. *)

From S2P Require Import Prelude Json TaskStore ToolRouting UrlPolicy OAuth McpWire McpConfig.

#[local] Open Scope nat_scope.
#[local] Set Default Proof Using "Type".

Notation Tool := (@ToolDefinition Value).

Definition DEFAULT_SKEW : Z := 60.
Definition METHOD_NOT_FOUND : Z := -32601.

(** How a server is reached: everything [McpClient]'s constructors are given. *)
Inductive Dial :=
| DialStdio (command : string) (args : list string) (env : gmap string string)
| DialHttp (url : string) (bearer : option string)
| DialOAuth (url : string) (client : OAuthClient) (account_key : string) (skew : Z) (refresh : string).

Record ConnectError := { ce_message : string; ce_auth_expired : bool }.

Definition is_method_not_found (e : McpError) : bool := match e with ServerError code _ => (code =? METHOD_NOT_FOUND)%Z | _ => false end.
Definition is_auth_expired (e : McpError) : bool := match e with McpOAuth (InvalidGrant _) => true | _ => false end.

Record ClientHandle (C : Type) := { hd_client : C; hd_instructions : option string; hd_metadata : ServerMetadata }.
Arguments hd_client {C}.
Arguments hd_instructions {C}.
Arguments hd_metadata {C}.

Record State (C : Type) := {
  configs : list McpServerConfig;
  clients : list (option (ClientHandle C));
  cached_tools : list Tool;
  tool_routing : gmap string (nat * string);
  cached_resources : list Value;
  cached_prompts : list Value;
  secrets : gmap string string;
  accounts : list ServiceAccount;
  last_errors : gmap string ConnectError
}.
Arguments configs {C}.
Arguments clients {C}.
Arguments cached_tools {C}.
Arguments tool_routing {C}.
Arguments cached_resources {C}.
Arguments cached_prompts {C}.
Arguments secrets {C}.
Arguments accounts {C}.
Arguments last_errors {C}.

Record ReindexProvider := { rp_name : string; rp_source : string; rp_description : string; rp_tools : list Tool }.

Record ExecPorts (C W : Type) := {
  x_connect : W → Dial → result C McpError * W;
  x_flags : C → ListChangeFlags;
  x_instructions : C → option string;
  x_metadata : C → ServerMetadata;
  x_list_tools : W → C → result (list Tool) McpError * C * W;
  x_list_resources : W → C → result (list Value) McpError * C * W;
  x_list_prompts : W → C → result (list Value) McpError * C * W;
  x_call_tool : W → C → string → Value → result string McpError * C * W;
  x_shutdown : W → C → W;
  (** [save_mcp_configs] to the configured path. *)
  x_save : W → list McpServerConfig → result unit McpError * W;
  (** The reindex closure, where one is wired. *)
  x_reindex : option (W → list ReindexProvider → W);
  (** The daemon's own environment. *)
  x_host_env : gmap string string
}.
Arguments x_connect {C W}.
Arguments x_flags {C W}.
Arguments x_instructions {C W}.
Arguments x_metadata {C W}.
Arguments x_list_tools {C W}.
Arguments x_list_resources {C W}.
Arguments x_list_prompts {C W}.
Arguments x_call_tool {C W}.
Arguments x_shutdown {C W}.
Arguments x_save {C W}.
Arguments x_reindex {C W}.
Arguments x_host_env {C W}.

(** ** Updates *)

Section updates.
Context {C : Type}.
Implicit Types st : State C.

Definition set_configs (v : list McpServerConfig) st : State C :=
  {| configs := v; clients := clients st; cached_tools := cached_tools st; tool_routing := tool_routing st; cached_resources := cached_resources st;
     cached_prompts := cached_prompts st; secrets := secrets st; accounts := accounts st; last_errors := last_errors st |}.
Definition set_clients (v : list (option (ClientHandle C))) st : State C :=
  {| configs := configs st; clients := v; cached_tools := cached_tools st; tool_routing := tool_routing st; cached_resources := cached_resources st;
     cached_prompts := cached_prompts st; secrets := secrets st; accounts := accounts st; last_errors := last_errors st |}.
Definition set_tools (v : list Tool) (r : gmap string (nat * string)) st : State C :=
  {| configs := configs st; clients := clients st; cached_tools := v; tool_routing := r; cached_resources := cached_resources st;
     cached_prompts := cached_prompts st; secrets := secrets st; accounts := accounts st; last_errors := last_errors st |}.
Definition set_resources (v : list Value) st : State C :=
  {| configs := configs st; clients := clients st; cached_tools := cached_tools st; tool_routing := tool_routing st; cached_resources := v;
     cached_prompts := cached_prompts st; secrets := secrets st; accounts := accounts st; last_errors := last_errors st |}.
Definition set_prompts (v : list Value) st : State C :=
  {| configs := configs st; clients := clients st; cached_tools := cached_tools st; tool_routing := tool_routing st; cached_resources := cached_resources st;
     cached_prompts := v; secrets := secrets st; accounts := accounts st; last_errors := last_errors st |}.
Definition set_secrets (v : gmap string string) st : State C :=
  {| configs := configs st; clients := clients st; cached_tools := cached_tools st; tool_routing := tool_routing st; cached_resources := cached_resources st;
     cached_prompts := cached_prompts st; secrets := v; accounts := accounts st; last_errors := last_errors st |}.
Definition set_accounts (v : list ServiceAccount) st : State C :=
  {| configs := configs st; clients := clients st; cached_tools := cached_tools st; tool_routing := tool_routing st; cached_resources := cached_resources st;
     cached_prompts := cached_prompts st; secrets := secrets st; accounts := v; last_errors := last_errors st |}.
Definition set_errors (v : gmap string ConnectError) st : State C :=
  {| configs := configs st; clients := clients st; cached_tools := cached_tools st; tool_routing := tool_routing st; cached_resources := cached_resources st;
     cached_prompts := cached_prompts st; secrets := secrets st; accounts := accounts st; last_errors := v |}.

(** [McpToolExecutor]'s constructors. *)
Definition initial (cs : list McpServerConfig) (ss : gmap string string) : State C :=
  {| configs := cs; clients := replicate (length cs) None; cached_tools := []; tool_routing := ∅; cached_resources := []; cached_prompts := [];
     secrets := ss; accounts := []; last_errors := ∅ |}.

(** The handle of a slot, and the client in it after it was used. *)
Definition slot st (idx : nat) : option (ClientHandle C) := mjoin (clients st !! idx).

Definition put_client (idx : nat) (c : C) st : State C :=
  match slot st idx with
  | Some h => set_clients (<[idx := Some {| hd_client := c; hd_instructions := hd_instructions h; hd_metadata := hd_metadata h |}]> (clients st)) st
  | None => st
  end.
End updates.

(** ** Resolving credentials *)

Section resolving.
Context (host : gmap string string) `{!UrlParser} (ipv4_text ipv6_text : Z → string).

Fixpoint layer_secrets (ss : gmap string string) (server : string) (refs : list (string * string)) (env : gmap string string)
    : result (gmap string string) McpError :=
  match refs with
  | [] => Ok env
  | (var, id) :: rest =>
      match ss !! id with
      | None =>
          Err (UnexpectedResponse ("secret '" +:+ id +:+ "' (referenced by env_secrets." +:+ var +:+ " in server '" +:+ server +:+ "') not found in secrets.toml"))
      | Some v => layer_secrets ss server rest (<[var := v]> env)
      end
  end.

Definition resolve_env (ss : gmap string string) (c : McpServerConfig) : result (gmap string string) McpError :=
  layer_secrets ss (sc_name c) (map_to_list (sc_env_secrets c)) (base_env host c).

Definition require_secret (ss : gmap string string) (id server field : string) : result string McpError :=
  match ss !! id with
  | Some v => Ok v
  | None => Err (UnexpectedResponse ("secret '" +:+ id +:+ "' (referenced by " +:+ field +:+ " in server '" +:+ server +:+ "') not found in secrets.toml"))
  end.

Definition resolve_bearer (ss : gmap string string) (http : HttpTransportConfig) (server : string) : result (option string) McpError :=
  match hc_auth_bearer_secret http with
  | None => Ok None
  | Some id => match require_secret ss id server "http.auth_bearer_secret" with Ok v => Ok (Some v) | Err e => Err e end
  end.

Definition resolve_client_secret (ss : gmap string string) (o : OAuthServerConfig) (server : string) : result (option string) McpError :=
  match oc_client_secret_ref o with
  | None => Ok None
  | Some id => match require_secret ss id server "http.oauth.client_secret_ref" with Ok v => Ok (Some v) | Err e => Err e end
  end.

(** The provider as the arguments it is built from. *)
Definition build_token_provider (ss : gmap string string) (o : OAuthServerConfig) (server url : string) : result Dial McpError :=
  match resolve_client_secret ss o server with
  | Err e => Err e
  | Ok secret =>
      match OAuthClient_new ipv4_text ipv6_text (oc_client_id o) secret (oc_token_url o) with
      | Err e => Err (McpOAuth e)
      | Ok client =>
          match require_secret ss (oc_refresh_token_ref o) server "http.oauth.refresh_token_ref" with
          | Err e => Err e
          | Ok refresh => Ok (DialOAuth url client (default server (oc_account o)) (default DEFAULT_SKEW (oc_refresh_skew_seconds o)) refresh)
          end
      end
  end.

(** [connect_client], up to the connection. *)
Definition dial_of (ss : gmap string string) (accts : list ServiceAccount) (c : McpServerConfig) : result Dial McpError :=
  match sc_http c with
  | Some http =>
      match resolve_server_oauth http accts (sc_name c) with
      | Err e => Err e
      | Ok (Some r) => build_token_provider ss (effective r) (sc_name c) (hc_url http)
      | Ok None => match resolve_bearer ss http (sc_name c) with Err e => Err e | Ok bearer => Ok (DialHttp (hc_url http) bearer) end
      end
  | None => match resolve_env ss c with Err e => Err e | Ok env => Ok (DialStdio (sc_command c) (sc_args c) env) end
  end.
End resolving.

(** ** Operations *)

Section executor.
Context `{!UrlParser} (ipv4_text ipv6_text : Z → string).
Context {C W : Type} (ports : ExecPorts C W).
Implicit Types st : State C.

Definition new_handle (c : C) : ClientHandle C :=
  {| hd_client := c; hd_instructions := x_instructions ports c; hd_metadata := x_metadata ports c |}.

Definition connect_client st (c : McpServerConfig) (w : W) : result C McpError * W :=
  match dial_of (x_host_env ports) ipv4_text ipv6_text (secrets st) (accounts st) c with
  | Err e => (Err e, w)
  | Ok dial => x_connect ports w dial
  end.

Definition record_connect_error (name : string) (e : McpError) st : State C :=
  set_errors (<[name := {| ce_message := mcp_error_to_string e; ce_auth_expired := is_auth_expired e |}]> (last_errors st)) st.
Definition clear_connect_error (name : string) st : State C := set_errors (delete name (last_errors st)) st.

Definition connect_server st (idx : nat) (w : W) : result unit McpError * State C * W :=
  match configs st !! idx with
  | None => (Err (UnexpectedResponse ("server index " +:+ pretty idx +:+ " out of range")), st, w)
  | Some c =>
      let '(r, w) := connect_client st c w in
      match r with
      | Ok client => (Ok (), clear_connect_error (sc_name c) (set_clients (<[idx := Some (new_handle client)]> (clients st)) st), w)
      | Err e => (Err e, record_connect_error (sc_name c) e st, w)
      end
  end.

Definition disconnect_server st (idx : nat) (w : W) : State C * W :=
  match slot st idx with
  | Some h => (set_clients (<[idx := None]> (clients st)) st, x_shutdown ports w (hd_client h))
  | None => (st, w)
  end.

(** *** What the servers offer *)

Definition expose (ns : option string) (tool : string) : string :=
  match ns with Some prefix => prefix +:+ "__" +:+ tool | None => tool end.

(** [connected_clients]: the connected slots, in order. *)
Definition connected st : list (nat * McpServerConfig) :=
  omap (λ ic : nat * McpServerConfig, if bool_decide (is_Some (slot st ic.1)) then Some ic else None) (imap pair (configs st)).

Definition add_tool (idx : nat) (ns : option string) (acc : list Tool * gmap string (nat * string)) (t : Tool) : list Tool * gmap string (nat * string) :=
  (acc.1 ++ [{| name := expose ns (name t); description := description t; parameters := parameters t |}], <[expose ns (name t) := (idx, name t)]> acc.2).

Fixpoint gather_tools (targets : list (nat * McpServerConfig)) (acc : list Tool * gmap string (nat * string)) st (w : W)
    : list Tool * gmap string (nat * string) * State C * W :=
  match targets with
  | [] => (acc, st, w)
  | (idx, c) :: rest =>
      match slot st idx with
      | None => gather_tools rest acc st w
      | Some h =>
          let '(r, client, w) := x_list_tools ports w (hd_client h) in
          let acc := match r with Ok tools => foldl (add_tool idx (sc_namespace c)) acc tools | Err _ => acc end in
          gather_tools rest acc (put_client idx client st) w
      end
  end.

Definition refresh_tool_cache st (w : W) : State C * W :=
  let '(acc, st, w) := gather_tools (connected st) ([], ∅) st w in (set_tools acc.1 acc.2 st, w).

(** Resources and prompts: a server without the method offers none. *)
Fixpoint gather_items (list_items : W → C → result (list Value) McpError * C * W) (targets : list (nat * McpServerConfig)) (acc : list Value) st (w : W)
    : list Value * State C * W :=
  match targets with
  | [] => (acc, st, w)
  | (idx, _) :: rest =>
      match slot st idx with
      | None => gather_items list_items rest acc st w
      | Some h =>
          let '(r, client, w) := list_items w (hd_client h) in
          gather_items list_items rest (match r with Ok items => acc ++ items | Err _ => acc end) (put_client idx client st) w
      end
  end.

Definition refresh_resources_cache st (w : W) : State C * W :=
  let '(acc, st, w) := gather_items (x_list_resources ports) (connected st) [] st w in (set_resources acc st, w).
Definition refresh_prompts_cache st (w : W) : State C * W :=
  let '(acc, st, w) := gather_items (x_list_prompts ports) (connected st) [] st w in (set_prompts acc st, w).

Definition refresh_all_metadata st (w : W) : State C * W :=
  let '(st, w) := refresh_tool_cache st w in
  let '(st, w) := refresh_resources_cache st w in
  refresh_prompts_cache st w.

Definition any_flag (f : ListChangeFlags → bool) st : bool :=
  existsb (λ s, match s with Some h => f (x_flags ports (hd_client h)) | None => false end) (clients st).

Definition maybe_refresh_metadata st (w : W) : State C * W :=
  let t := any_flag fl_tools st in
  let r := any_flag fl_resources st in
  let p := any_flag fl_prompts st in
  let '(st, w) := if t then refresh_tool_cache st w else (st, w) in
  let '(st, w) := if r then refresh_resources_cache st w else (st, w) in
  if p then refresh_prompts_cache st w else (st, w).

(** *** Control *)

Definition find_server_index st (n : string) : option nat := fst <$> list_find (λ c, sc_name c = n) (configs st).
Definition not_found (n : string) : McpError := UnexpectedResponse ("server '" +:+ n +:+ "' not found").

Definition resolve_indices st (server : option string) : result (list nat) McpError :=
  match server with
  | Some n => match find_server_index st n with Some idx => Ok [idx] | None => Err (not_found n) end
  | None => Ok (seq 0 (length (configs st)))
  end.

Fixpoint start_each (indices : list nat) (started : list string) st (w : W) : list string * State C * W :=
  match indices with
  | [] => (started, st, w)
  | idx :: rest =>
      match configs st !! idx with
      | None => start_each rest started st w
      | Some c =>
          if negb (sc_enabled c) then start_each rest started st w
          else match slot st idx with
               | Some _ => start_each rest started st w
               | None =>
                   let '(r, st, w) := connect_server st idx w in
                   start_each rest (match r with Ok _ => started ++ [sc_name c] | Err _ => started end) st w
               end
      end
  end.

Definition start_server st (server : option string) (w : W) : result string McpError * State C * W :=
  match resolve_indices st server with
  | Err e => (Err e, st, w)
  | Ok indices =>
      let '(started, st, w) := start_each indices [] st w in
      let '(st, w) := refresh_all_metadata st w in
      (Ok (match started with [] => "no servers started" | _ => "started: " +:+ join ", " started end), st, w)
  end.

Fixpoint stop_each (indices : list nat) (stopped : list string) st (w : W) : list string * State C * W :=
  match indices with
  | [] => (stopped, st, w)
  | idx :: rest =>
      match slot st idx with
      | None => stop_each rest stopped st w
      | Some _ =>
          let '(st', w) := disconnect_server st idx w in
          stop_each rest (stopped ++ option_list (sc_name <$> configs st !! idx)) st' w
      end
  end.

Definition stop_server st (server : option string) (w : W) : result string McpError * State C * W :=
  match resolve_indices st server with
  | Err e => (Err e, st, w)
  | Ok indices =>
      let '(stopped, st, w) := stop_each indices [] st w in
      let '(st, w) := refresh_all_metadata st w in
      (Ok (match stopped with [] => "no servers stopped" | _ => "stopped: " +:+ join ", " stopped end), st, w)
  end.

Definition restart_server st (server : option string) (w : W) : result string McpError * State C * W :=
  let '(r, st, w) := stop_server st server w in
  match r with Err e => (Err e, st, w) | Ok _ => start_server st server w end.

Definition persist_configs st (w : W) : result unit McpError * W := x_save ports w (configs st).

(** Connecting and refreshing, with the outcome ignored. *)
Definition connect_and_refresh st (idx : nat) (w : W) : State C * W :=
  let '(_, st, w) := connect_server st idx w in refresh_all_metadata st w.

Definition add_server st (c : McpServerConfig) (w : W) : result unit McpError * State C * W :=
  if existsb (λ c', String.eqb (sc_name c') (sc_name c)) (configs st) then
    (Err (UnexpectedResponse ("server '" +:+ sc_name c +:+ "' already exists")), st, w)
  else
    let idx := length (configs st) in
    let st := set_clients (clients st ++ [None]) (set_configs (configs st ++ [c]) st) in
    let '(r, w) := persist_configs st w in
    match r with
    | Err e => (Err e, st, w)
    | Ok _ => let '(st, w) := if sc_enabled c then connect_and_refresh st idx w else (st, w) in (Ok (), st, w)
    end.

Definition upsert_server st (c : McpServerConfig) (w : W) : result unit McpError * State C * W :=
  match find_server_index st (sc_name c) with
  | None => add_server st c w
  | Some idx =>
      let '(st, w) := disconnect_server st idx w in
      let st := clear_connect_error (sc_name c) st in
      let st := set_configs (<[idx := c]> (configs st)) st in
      let '(r, w) := persist_configs st w in
      match r with
      | Err e => (Err e, st, w)
      | Ok _ =>
          let '(_, st, w) := if sc_enabled c then connect_server st idx w else (Ok (), st, w) in
          let '(st, w) := refresh_all_metadata st w in (Ok (), st, w)
      end
  end.

Definition newly_authorized (old new : gmap string string) (c : McpServerConfig) : option string :=
  match sc_http c ≫= hc_oauth with
  | Some o => if bool_decide (old !! oc_refresh_token_ref o = None ∧ is_Some (new !! oc_refresh_token_ref o)) then Some (sc_name c) else None
  | None => None
  end.

Definition replace_secrets st (ss : gmap string string) : State C :=
  foldl (λ st n, clear_connect_error n st) (set_secrets ss st) (omap (newly_authorized (secrets st) ss) (configs st)).

Definition replace_service_accounts st (accts : list ServiceAccount) : State C := set_accounts accts st.

(** [list::remove]. *)
Definition remove_at {A} (i : nat) (l : list A) : list A := take i l ++ drop (S i) l.
Definition remove_slots st (idx : nat) : State C := set_clients (remove_at idx (clients st)) (set_configs (remove_at idx (configs st)) st).

Definition remove_server st (n : string) (w : W) : result unit McpError * State C * W :=
  match find_server_index st n with
  | None => (Err (not_found n), st, w)
  | Some idx =>
      let '(st, w) := disconnect_server st idx w in
      let st := remove_slots st idx in
      let '(st, w) := refresh_all_metadata st w in
      let '(r, w) := persist_configs st w in (r, st, w)
  end.

Definition with_enabled (b : bool) (c : McpServerConfig) : McpServerConfig :=
  {| sc_name := sc_name c; sc_command := sc_command c; sc_args := sc_args c; sc_namespace := sc_namespace c; sc_enabled := b; sc_env := sc_env c;
     sc_env_secrets := sc_env_secrets c; sc_inherit_env := sc_inherit_env c; sc_http := sc_http c; sc_description := sc_description c |}.
Definition set_enabled (idx : nat) (b : bool) st : State C := set_configs (alter (with_enabled b) idx (configs st)) st.

(** *** Reading the caches *)

Definition routed_to st (idx : nat) (t : Tool) : bool :=
  match tool_routing st !! name t with Some (i, _) => i =? idx | None => false end.
Definition tools_of st (idx : nat) : list Tool := List.filter (routed_to st idx) (cached_tools st).
Definition provider_name_of (c : McpServerConfig) : string := default (sc_name c) (sc_namespace c).

Definition provider_at st (idx : nat) (c : McpServerConfig) : option ReindexProvider :=
  match tools_of st idx with
  | [] => None
  | tools =>
      Some {| rp_name := provider_name_of c; rp_source := "mcp";
              rp_description := resolve_provider_description (slot st idx ≫= λ h, sm_description (hd_metadata h)) (slot st idx ≫= hd_instructions)
                                  (sc_description c) (sc_name c);
              rp_tools := tools |}
  end.
Definition mcp_providers_with_tools st : list ReindexProvider := omap (λ ic : nat * McpServerConfig, provider_at st ic.1 ic.2) (imap pair (configs st)).

Definition fire_tool_reindex st (w : W) : W :=
  match x_reindex ports with None => w | Some reindex => reindex w (mcp_providers_with_tools st) end.

Definition enable_server st (n : string) (w : W) : result unit McpError * State C * W :=
  match find_server_index st n with
  | None => (Err (not_found n), st, w)
  | Some idx =>
      let st := set_enabled idx true st in
      let '(r, w) := persist_configs st w in
      match r with
      | Err e => (Err e, st, w)
      | Ok _ => let '(st, w) := connect_and_refresh st idx w in (Ok (), st, fire_tool_reindex st w)
      end
  end.

Definition disable_server st (n : string) (w : W) : result unit McpError * State C * W :=
  match find_server_index st n with
  | None => (Err (not_found n), st, w)
  | Some idx =>
      let '(st, w) := disconnect_server st idx w in
      let st := set_enabled idx false st in
      let '(st, w) := refresh_all_metadata st w in
      let '(r, w) := persist_configs st w in
      match r with Err e => (Err e, st, w) | Ok _ => (Ok (), st, fire_tool_reindex st w) end
  end.

(** [McpToolExecutor::start] and [shutdown]. *)
Fixpoint start_all (targets : list (nat * McpServerConfig)) st (w : W) : State C * W :=
  match targets with
  | [] => (st, w)
  | (idx, c) :: rest =>
      if negb (sc_enabled c) then start_all rest st w
      else let '(_, st, w) := connect_server st idx w in start_all rest st w
  end.

Definition start st (w : W) : State C * W :=
  let '(st, w) := start_all (imap pair (configs st)) st w in refresh_all_metadata st w.

Definition shutdown st (w : W) : State C * W :=
  (set_clients (map (λ _, None) (clients st)) st, foldl (λ w s, match s with Some h => x_shutdown ports w (hd_client h) | None => w end) w (clients st)).

(** *** The tool port *)

Definition namespace_at st (ic : nat * McpServerConfig) : option (@ToolNamespace Value) :=
  match tools_of st ic.1 with
  | [] => None
  | tools => Some {| ns_name := provider_name_of ic.2; ns_description := "Tools from the " +:+ sc_name ic.2 +:+ " MCP server"; ns_tools := tools |}
  end.

Definition namespaces_of st : list (@ToolNamespace Value) := omap (namespace_at st) (imap pair (configs st)).
Definition tool_namespaces st (w : W) : list (@ToolNamespace Value) * State C * W :=
  let '(st, w) := maybe_refresh_metadata st w in (namespaces_of st, st, w).

(** [execute_tool] for a name that is no built-in. *)
Definition similar_tools st (tool : string) : list string :=
  let prefix := match Sanitize.find tool "_" with Some i => str_prefix i tool | None => tool end in
  List.filter (λ k, starts_with k prefix) (map fst (map_to_list (tool_routing st))).

Definition unknown_tool st (tool : string) : string :=
  match similar_tools st tool with
  | [] => "unknown tool: " +:+ tool
  | similar => "unknown tool: " +:+ tool +:+ ". Similar tools available: " +:+ join ", " similar
  end.

Definition call_routed st (tool : string) (arguments : Value) (w : W) : result string string * State C * W :=
  match tool_routing st !! tool with
  | None => (Err (unknown_tool st tool), st, w)
  | Some (idx, original) =>
      match slot st idx with
      | None => (Err ("MCP server for tool '" +:+ tool +:+ "' is not connected"), st, w)
      | Some h =>
          let '(r, client, w) := x_call_tool ports w (hd_client h) original arguments in
          (match r with Ok s => Ok s | Err e => Err ("tool '" +:+ tool +:+ "' failed: " +:+ mcp_error_to_string e) end, put_client idx client st, w)
      end
  end.

Definition execute_tool st (tool : string) (arguments : Value) (w : W) : result string string * State C * W :=
  let '(st, w) := maybe_refresh_metadata st w in call_routed st tool arguments w.

(** [tool_definition] for a name that is no built-in. *)
Definition tool_definition st (tool : string) : option Tool := List.find (λ t, String.eqb (name t) tool) (cached_tools st).

Definition all_mcp_tools st (w : W) : list Tool * State C * W := let '(st, w) := maybe_refresh_metadata st w in (cached_tools st, st, w).
Definition available_resources st (w : W) : list Value * State C * W := let '(st, w) := maybe_refresh_metadata st w in (cached_resources st, st, w).
Definition available_prompts st (w : W) : list Value * State C * W := let '(st, w) := maybe_refresh_metadata st w in (cached_prompts st, st, w).
Definition mcp_providers st (w : W) : list ReindexProvider * State C * W :=
  let '(st, w) := maybe_refresh_metadata st w in (mcp_providers_with_tools st, st, w).

(** [str::to_lowercase] and [split_whitespace] are those of Unicode. *)
Definition search_tools (to_lowercase : string → string) (split_whitespace : string → list string) st (query : string) (w : W) : list Tool * State C * W :=
  let '(st, w) := maybe_refresh_metadata st w in
  let keywords := split_whitespace (to_lowercase query) in
  (List.filter (λ t, existsb (λ kw, contains_str (to_lowercase (name t)) kw || contains_str (to_lowercase (description t)) kw) keywords) (cached_tools st), st, w).
End executor.

(** *** Status *)

Record McpServerStatusInfo := {
  si_name : string; si_title : option string; si_description : option string; si_website_url : option string;
  si_command : string; si_args : list string; si_namespace : option string; si_enabled : bool;
  si_status : string; si_tool_count : Z; si_transport : string; si_target : string; si_detail : option string;
  si_configure_label : option string; si_configure_command : list string;
  si_auth_kind : option string; si_oauth_authorized : option bool; si_oauth_account : option string; si_oauth_account_ref : option string;
  si_oauth_scopes : list string; si_oauth_client_id : option string; si_oauth_token_url : option string; si_oauth_authorize_url : option string
}.

(** What the transport and the credentials of a server contribute. *)
Record AuthView := {
  av_kind : option string; av_authorized : option bool; av_resolved : option ResolvedOAuth;
  av_needs_auth : bool; av_config_error : option string; av_coverage : option string
}.

Definition no_auth : AuthView :=
  {| av_kind := None; av_authorized := None; av_resolved := None; av_needs_auth := false; av_config_error := None; av_coverage := None |}.

Definition missing_scopes (r : ResolvedOAuth) : list string := List.filter (λ s, negb (bool_decide (s ∈ granted_scopes r))) (required_scopes r).

Definition auth_view (ss : gmap string string) (accts : list ServiceAccount) (c : McpServerConfig) : AuthView :=
  match sc_http c with
  | None => no_auth
  | Some http =>
      match resolve_server_oauth http accts (sc_name c) with
      | Err e =>
          {| av_kind := Some "oauth"; av_authorized := None; av_resolved := None; av_needs_auth := false;
             av_config_error := Some (mcp_error_to_string e); av_coverage := None |}
      | Ok None =>
          {| av_kind := Some (match hc_auth_bearer_secret http with Some _ => "bearer" | None => "none" end); av_authorized := None; av_resolved := None;
             av_needs_auth := false; av_config_error := None; av_coverage := None |}
      | Ok (Some r) =>
          let authorized := bool_decide (is_Some (ss !! oc_refresh_token_ref (effective r))) in
          let covered := scopes_covered (required_scopes r) (granted_scopes r) in
          {| av_kind := Some "oauth"; av_authorized := Some authorized; av_resolved := Some r; av_needs_auth := negb authorized || negb covered;
             av_config_error := None;
             av_coverage := if authorized && negb covered
                            then Some ("service account not authorized for required scope(s): " +:+ join ", " (missing_scopes r)) else None |}
      end
  end.

Definition status_word (c : McpServerConfig) (is_connected : bool) (a : AuthView) (recorded : option ConnectError) : string :=
  if negb (sc_enabled c) then "disabled"
  else if is_connected then "running"
  else if bool_decide (is_Some (av_config_error a)) then "error"
  else if av_needs_auth a then "needs_auth"
  else match recorded with
       | Some err => if ce_auth_expired err then "auth_expired" else "error"
       | None => "stopped"
       end.

Definition first_some {A} (a b : option A) : option A := match a with Some x => Some x | None => b end.

Section status.
Context {C : Type} (exe : string).
Implicit Types st : State C.

Definition tool_count st (idx : nat) : Z :=
  (Z.of_nat (length (List.filter (λ e : string * (nat * string), (e.2.1 =? idx)%nat) (map_to_list (tool_routing st)))) mod 2 ^ 32)%Z.

Definition status_at st (idx : nat) (c : McpServerConfig) : McpServerStatusInfo :=
  let declared := default ServerMetadata_default (hd_metadata <$> slot st idx) in
  let a := auth_view (secrets st) (accounts st) c in
  let recorded := last_errors st !! sc_name c in
  {| si_name := sc_name c; si_title := sm_title declared; si_description := sm_description declared; si_website_url := sm_website_url declared;
     si_command := sc_command c; si_args := sc_args c; si_namespace := sc_namespace c; si_enabled := sc_enabled c;
     si_status := status_word c (bool_decide (is_Some (slot st idx))) a recorded;
     si_tool_count := tool_count st idx;
     si_transport := match sc_http c with Some _ => "http" | None => "stdio" end;
     si_target := connect_target c;
     si_detail := first_some (first_some (av_config_error a) (ce_message <$> recorded)) (av_coverage a);
     si_configure_label := (λ _, "Sign in") <$> av_resolved a;
     si_configure_command := match av_resolved a with Some r => [exe; "--mcp-oauth-login"; default (sc_name c) (account_id r)] | None => [] end;
     si_auth_kind := av_kind a;
     si_oauth_authorized := av_authorized a;
     si_oauth_account := av_resolved a ≫= (λ r, oc_account (effective r));
     si_oauth_account_ref := av_resolved a ≫= account_id;
     si_oauth_scopes := default [] (required_scopes <$> av_resolved a);
     si_oauth_client_id := (λ r, oc_client_id (effective r)) <$> av_resolved a;
     si_oauth_token_url := (λ r, oc_token_url (effective r)) <$> av_resolved a;
     si_oauth_authorize_url := av_resolved a ≫= (λ r, oc_authorize_url (effective r)) |}.

Definition status st (server : option string) : list McpServerStatusInfo :=
  let indices := match server with Some n => option_list (find_server_index st n) | None => seq 0 (length (configs st)) end in
  omap (λ idx, status_at st idx <$> configs st !! idx) indices.

(** [tool_runners]: [None] for a name that is not routed. *)
Inductive ToolRunner := RunDaemon | RemoteService.
Definition tool_runner st (tool : string) : option ToolRunner :=
  match tool_routing st !! tool with
  | None => None
  | Some (idx, _) => (λ c, match sc_http c with Some _ => RemoteService | None => RunDaemon end) <$> configs st !! idx
  end.

Definition service_of st (t : Tool) : string :=
  default "unknown" (tool_routing st !! name t ≫= λ e, sc_name <$> configs st !! e.1).
Definition tools_by_service st (builtins : list Tool) : list (string * string) :=
  map (λ t, (service_of st t, name t)) (cached_tools st) ++ map (λ t, ("builtin", name t)) builtins.
End status.

(** ** Invariants *)

Section invariants.
Context `{!UrlParser} (ipv4_text ipv6_text : Z → string).
Context {C W : Type} (ports : ExecPorts C W).
Implicit Types st : State C.

(** A slot for each configuration, and a client only where it is enabled. *)
Definition wf st : Prop :=
  length (clients st) = length (configs st) ∧ ∀ idx c h, configs st !! idx = Some c → slot st idx = Some h → sc_enabled c = true.

(** A route to a connected server spells that server's namespace. *)
Definition routes_ok st : Prop := ∀ tool idx original h,
  tool_routing st !! tool = Some (idx, original) → slot st idx = Some h → ∃ c, configs st !! idx = Some c ∧ tool = expose (sc_namespace c) original.

(** Every tool that is shown is routed to a configured server. *)
Definition caches_ok st : Prop := ∀ t, t ∈ cached_tools st → ∃ idx original, tool_routing st !! name t = Some (idx, original) ∧ idx < length (configs st).

Definition ok st : Prop := wf st ∧ routes_ok st ∧ caches_ok st.

(** After a refresh there is no route to a server that is not connected. *)
Definition fresh st : Prop := ∀ tool idx original,
  tool_routing st !! tool = Some (idx, original) → ∃ c, configs st !! idx = Some c ∧ is_Some (slot st idx) ∧ tool = expose (sc_namespace c) original.

(** The same servers, connected or not as before. *)
Definition same_shape st st' : Prop :=
  configs st' = configs st ∧ length (clients st') = length (clients st) ∧ (∀ i, is_Some (slot st' i) ↔ is_Some (slot st i)) ∧
  secrets st' = secrets st ∧ accounts st' = accounts st ∧ last_errors st' = last_errors st.

#[local] Instance same_shape_preorder : PreOrder same_shape.
Proof.
  split; [by intros st|]. intros st1 st2 st3 (A1 & B1 & C1 & D1 & E1 & F1) (A2 & B2 & C2 & D2 & E2 & F2).
  split_and!; try congruence. intros i. by rewrite C2.
Qed.

Lemma wf_shape st st' : same_shape st st' → wf st → wf st'.
Proof.
  intros (Hc & Hl & Hs & _) [Hlen He]. split; [congruence|]. intros idx c h Hi Hh. rewrite Hc in Hi.
  destruct (proj1 (Hs idx) (mk_is_Some _ _ Hh)) as [h' Hh']. by eapply He.
Qed.

Lemma slot_set st l i : slot (set_clients l st) i = mjoin (l !! i).
Proof. done. Qed.

Lemma slot_insert st i j v : slot (set_clients (<[i := v]> (clients st)) st) j = if decide (i = j ∧ i < length (clients st)) then v else slot st j.
Proof.
  rewrite slot_set. unfold slot. case_decide as Hd; [destruct Hd as [-> Hi]; by rewrite list_lookup_insert_eq|].
  destruct (decide (i = j)) as [->|]; [|by rewrite list_lookup_insert_ne]. by rewrite list_insert_ge by lia.
Qed.

Lemma slot_Some_lt st i h : slot st i = Some h → i < length (clients st).
Proof. unfold slot. intros Hh. destruct (clients st !! i) eqn:E; [|done]. by apply lookup_lt_Some in E. Qed.

Lemma put_client_shape i c st : same_shape st (put_client i c st).
Proof.
  unfold put_client. destruct (slot st i) as [h|] eqn:Ei; [|done]. split_and!; try done; [cbn; by rewrite length_insert|].
  intros j. rewrite slot_insert. case_decide as Hd; [|done]. destruct Hd as [<- _]. by rewrite Ei.
Qed.

Lemma put_client_caches i c st :
  cached_tools (put_client i c st) = cached_tools st ∧ tool_routing (put_client i c st) = tool_routing st.
Proof. unfold put_client. by destruct (slot st i). Qed.

Lemma gather_items_shape f targets acc st (w : W) acc' st' w' :
  gather_items f targets acc st w = (acc', st', w') → same_shape st st' ∧ cached_tools st' = cached_tools st ∧ tool_routing st' = tool_routing st.
Proof.
  revert acc st w. induction targets as [|[idx c] rest IH]; intros acc st w Hg; cbn [gather_items] in Hg; [by simplify_eq|].
  destruct (slot st idx) as [h|]; [|by eapply IH]. destruct (f w (hd_client h)) as [[r client] w1]. apply IH in Hg as (Hs & Ht & Hr).
  destruct (put_client_caches idx client st) as [Ht' Hr']. split_and!; [|congruence..]. etrans; [apply put_client_shape|done].
Qed.

(** What has been gathered so far is routed, to connected servers. *)
Definition gathered st (acc : list Tool * gmap string (nat * string)) : Prop :=
  (∀ tool idx original, acc.2 !! tool = Some (idx, original) →
     ∃ c, configs st !! idx = Some c ∧ is_Some (slot st idx) ∧ tool = expose (sc_namespace c) original) ∧
  ∀ t, t ∈ acc.1 → is_Some (acc.2 !! name t).

Lemma gathered_shape st st' acc : same_shape st st' → gathered st acc → gathered st' acc.
Proof.
  intros (Hc & _ & Hs & _) [Hr Ht]. split; [|done]. intros tool idx original Hl. destruct (Hr _ _ _ Hl) as (c & Hi & Hh & ->).
  exists c. rewrite Hc. split_and!; [done|by apply Hs|done].
Qed.

Lemma add_tools_gathered st idx c tools acc :
  configs st !! idx = Some c → is_Some (slot st idx) → gathered st acc → gathered st (foldl (add_tool idx (sc_namespace c)) acc tools).
Proof.
  intros Hc Hs. revert acc. induction tools as [|t tools IH]; intros acc [Hr Ht]; [done|]. cbn [foldl]. apply IH. unfold add_tool. split; cbn [fst snd].
  - intros tool i original Hl. destruct (decide (tool = expose (sc_namespace c) (name t))) as [->|Hne].
    + rewrite lookup_insert_eq in Hl. simplify_eq. by exists c.
    + rewrite lookup_insert_ne in Hl by done. by apply Hr.
  - intros t' [Hin|Hin%list_elem_of_singleton]%elem_of_app; [apply lookup_insert_is_Some'; right; by apply Ht|].
    subst t'. cbn [name]. rewrite lookup_insert_eq. by eexists.
Qed.

Lemma gather_tools_ok targets acc st w acc' st' w' :
  (∀ ic, ic ∈ targets → configs st !! ic.1 = Some ic.2) → gathered st acc → gather_tools ports targets acc st w = (acc', st', w') →
  same_shape st st' ∧ gathered st' acc'.
Proof.
  revert acc st w. induction targets as [|[idx c] rest IH]; intros acc st w Ht Hacc Hg; cbn [gather_tools] in Hg; [by simplify_eq|].
  assert (Hrest : ∀ ic, ic ∈ rest → configs st !! ic.1 = Some ic.2) by (intros ic ?; apply Ht; set_solver).
  destruct (slot st idx) as [h|] eqn:Eh; [|by eapply IH]. destruct (x_list_tools ports w (hd_client h)) as [[r client] w1].
  pose proof (put_client_shape idx client st) as Hp.
  apply IH in Hg as [Hs Hgot]; [split; [by etrans|done]|by rewrite (proj1 Hp)|].
  apply (gathered_shape st); [done|]. destruct r as [tools|e]; [|done].
  apply add_tools_gathered; [apply (Ht (idx, c)); set_solver|rewrite Eh; by eexists|done].
Qed.

Lemma elem_of_imap_pair {A} (l : list A) ic : ic ∈ imap pair l → l !! ic.1 = Some ic.2.
Proof. by intros (i & x & -> & Hx)%elem_of_lookup_imap_1. Qed.

Lemma connected_configs st ic : ic ∈ connected st → configs st !! ic.1 = Some ic.2.
Proof.
  unfold connected. intros (x & Hx & Hf)%list_elem_of_omap. case_bool_decide; [|done]. injection Hf as ->. by apply elem_of_imap_pair.
Qed.

Lemma refresh_tools_ok st w st' w' : refresh_tool_cache ports st w = (st', w') → same_shape st st' ∧ fresh st' ∧ caches_ok st'.
Proof.
  unfold refresh_tool_cache. destruct (gather_tools ports (connected st) ([], ∅) st w) as [[acc st1] w1] eqn:Eg. intros HH. simplify_eq.
  apply gather_tools_ok in Eg as [Hs [Hr Ht]]; [|apply connected_configs|split; cbn [fst snd]; [intros ??? Hl; by rewrite lookup_empty in Hl|set_solver]].
  split_and!; [exact Hs|exact Hr|]. intros t Hin. destruct (Ht t Hin) as [[idx original] Hl]. exists idx, original. split; [done|].
  destruct (Hr _ _ _ Hl) as (c & Hc & _). cbn. by apply lookup_lt_Some in Hc.
Qed.

Lemma fresh_routes st : fresh st → routes_ok st.
Proof. intros Hf tool idx original h Hl _. destruct (Hf _ _ _ Hl) as (c & Hc & _ & He). by exists c. Qed.

(** Refreshing any of the caches keeps what is known of the tools. *)
Definition keeps (f : State C → W → State C * W) : Prop := ∀ st w st' w', f st w = (st', w') →
  same_shape st st' ∧ (fresh st → fresh st') ∧ (routes_ok st → routes_ok st') ∧ (caches_ok st → caches_ok st').

Lemma shape_keeps st st' : same_shape st st' → cached_tools st' = cached_tools st → tool_routing st' = tool_routing st →
  (fresh st → fresh st') ∧ (routes_ok st → routes_ok st') ∧ (caches_ok st → caches_ok st').
Proof.
  intros (Hc & _ & Hs & _) Ht Hr. unfold fresh, routes_ok, caches_ok. rewrite Ht, Hr, Hc. split_and!; [|intros HH tool idx original h Hl Hh|done].
  - intros HH tool idx original Hl. destruct (HH _ _ _ Hl) as (c & Hi & Hh & He). exists c. split_and!; [done|by apply Hs|done].
  - destruct (proj1 (Hs idx) (mk_is_Some _ _ Hh)) as [h' Hh']. by eapply HH.
Qed.

Lemma refresh_resources_keeps : keeps (refresh_resources_cache ports).
Proof.
  intros st w st' w'. unfold refresh_resources_cache. destruct (gather_items _ (connected st) [] st w) as [[acc st1] w1] eqn:Eg. intros HH. simplify_eq.
  apply gather_items_shape in Eg as (Hs & Ht & Hr). split; [exact Hs|]. by apply (shape_keeps st (set_resources acc st1)).
Qed.

Lemma refresh_prompts_keeps : keeps (refresh_prompts_cache ports).
Proof.
  intros st w st' w'. unfold refresh_prompts_cache. destruct (gather_items _ (connected st) [] st w) as [[acc st1] w1] eqn:Eg. intros HH. simplify_eq.
  apply gather_items_shape in Eg as (Hs & Ht & Hr). split; [exact Hs|]. by apply (shape_keeps st (set_prompts acc st1)).
Qed.

Lemma refresh_all_ok st w st' w' : refresh_all_metadata ports st w = (st', w') → same_shape st st' ∧ fresh st' ∧ caches_ok st'.
Proof.
  unfold refresh_all_metadata. destruct (refresh_tool_cache ports st w) as [st1 w1] eqn:E1. apply refresh_tools_ok in E1 as (H1 & F1 & G1).
  destruct (refresh_resources_cache ports st1 w1) as [st2 w2] eqn:E2. apply refresh_resources_keeps in E2 as (H2 & F2 & _ & G2).
  intros (H3 & F3 & _ & G3)%refresh_prompts_keeps. split_and!; [by etrans; [|etrans]|by apply F3, F2|by apply G3, G2].
Qed.

Lemma maybe_refresh_keeps : keeps (maybe_refresh_metadata ports).
Proof.
  assert (Hid : keeps (λ st w, (st, w))) by (intros st w st' w' HH; by simplify_eq).
  assert (Htools : keeps (refresh_tool_cache ports)).
  { intros st w st' w' (Hs & Hf & Hc)%refresh_tools_ok. split_and!; [done..|by intros _; apply fresh_routes|done]. }
  assert (Hif : ∀ (b : bool) f, keeps f → keeps (λ st w, if b then f st w else (st, w))) by (intros [] f Hf; [exact Hf|exact Hid]).
  assert (Hseq : ∀ f g, keeps f → keeps g → keeps (λ st w, let '(st, w) := f st w in g st w)).
  { intros f g Hf Hg st w st' w'. destruct (f st w) as [st1 w1] eqn:Ef. intros Eg. apply Hf in Ef as (S1 & F1 & R1 & K1). apply Hg in Eg as (S2 & F2 & R2 & K2).
    split_and!; [by etrans|naive_solver..]. }
  intros st w. unfold maybe_refresh_metadata.
  exact (Hseq _ _ (Hif (any_flag ports fl_tools st) _ Htools) (Hseq _ _ (Hif (any_flag ports fl_resources st) _ refresh_resources_keeps)
    (Hif (any_flag ports fl_prompts st) _ refresh_prompts_keeps)) st w).
Qed.

Lemma refresh_all_makes_ok st w st' w' : wf st → refresh_all_metadata ports st w = (st', w') → ok st'.
Proof. intros Hw (Hs & Hf & Hc)%refresh_all_ok. split_and!; [by eapply wf_shape|by apply fresh_routes|done]. Qed.

(** *** The primitives *)

Lemma connect_server_ok st idx w r st' w' :
  connect_server ipv4_text ipv6_text ports st idx w = (r, st', w') →
  configs st' = configs st ∧ length (clients st') = length (clients st) ∧ (∀ j, j ≠ idx → slot st' j = slot st j) ∧
  tool_routing st' = tool_routing st ∧ cached_tools st' = cached_tools st ∧ (configs st !! idx = None → slot st' idx = slot st idx).
Proof.
  unfold connect_server. destruct (configs st !! idx) as [c|] eqn:Ec; [|intros HH; by simplify_eq].
  destruct (connect_client ipv4_text ipv6_text ports st c w) as [[client|e] w1]; intros HH; simplify_eq; [|done].
  unfold clear_connect_error. split_and!; try done; [cbn; by rewrite length_insert|]. intros j Hj.
  change (slot (set_clients (<[idx := Some (new_handle ports client)]> (clients st)) st) j = slot st j). rewrite slot_insert. case_decide; naive_solver.
Qed.

Lemma connect_server_wf st idx w r st' w' :
  connect_server ipv4_text ipv6_text ports st idx w = (r, st', w') → (∀ c, configs st !! idx = Some c → sc_enabled c = true) → wf st → wf st'.
Proof.
  intros (Hc & Hl & Hs & _ & _ & Hn)%connect_server_ok He [Hlen Hen]. split; [congruence|]. intros j c h Hj Hh. rewrite Hc in Hj.
  destruct (decide (j = idx)) as [->|Hne]; [by apply He|]. rewrite Hs in Hh by done. by eapply Hen.
Qed.

Lemma disconnect_ok st idx w st' w' :
  disconnect_server ports st idx w = (st', w') →
  configs st' = configs st ∧ length (clients st') = length (clients st) ∧ slot st' idx = None ∧ (∀ j, j ≠ idx → slot st' j = slot st j) ∧
  tool_routing st' = tool_routing st ∧ cached_tools st' = cached_tools st.
Proof.
  unfold disconnect_server. destruct (slot st idx) as [h|] eqn:Ei; intros HH; simplify_eq; [|done].
  split_and!; try done; [cbn; by rewrite length_insert| |]; [|intros j Hj]; rewrite slot_insert; case_decide as Hd; try naive_solver.
  destruct Hd. split; [done|]. by eapply slot_Some_lt.
Qed.

Lemma disconnect_slots st idx w st' w' j h : disconnect_server ports st idx w = (st', w') → slot st' j = Some h → slot st j = Some h ∧ j ≠ idx.
Proof.
  intros (_ & _ & Hi & Hs & _)%disconnect_ok Hh. destruct (decide (j = idx)) as [->|Hne]; [congruence|]. by rewrite Hs in Hh.
Qed.

Lemma disconnect_keeps_ok st idx w st' w' : disconnect_server ports st idx w = (st', w') → ok st → ok st'.
Proof.
  intros Hd ([Hlen He] & Hr & Hc).
  destruct (disconnect_ok _ _ _ _ _ Hd) as (Ec & El & _ & _ & Er & Et). split_and!.
  - split; [congruence|]. intros j c h Hj Hh. rewrite Ec in Hj. destruct (disconnect_slots _ _ _ _ _ _ _ Hd Hh) as [Hh' _]. by eapply He.
  - intros tool j original h Hl Hh. rewrite Er in Hl. rewrite Ec. destruct (disconnect_slots _ _ _ _ _ _ _ Hd Hh) as [Hh' _]. by eapply Hr.
  - intros t Ht. rewrite Et in Ht. rewrite Er, Ec. by apply Hc.
Qed.

(** Replacing a configuration at an empty slot. *)
Lemma set_config_ok st idx c : slot st idx = None → ok st → ok (set_configs (<[idx := c]> (configs st)) st).
Proof.
  intros Hn ([Hlen He] & Hr & Hc). split_and!.
  - split; [cbn; by rewrite length_insert|]. cbn [set_configs configs]. intros j c' h Hj Hh. destruct (decide (idx = j)) as [->|Hne].
    + change (slot st j = Some h) in Hh. congruence.
    + rewrite list_lookup_insert_ne in Hj by done. by eapply He.
  - intros tool j original h Hl Hh. destruct (Hr _ _ _ _ Hl Hh) as (c' & Hj & ->). cbn [set_configs configs]. destruct (decide (idx = j)) as [->|Hne].
    + change (slot st j = Some h) in Hh. congruence.
    + exists c'. by rewrite list_lookup_insert_ne.
  - intros t Ht. destruct (Hc t Ht) as (j & original & Hl & Hj). exists j, original. cbn. by rewrite length_insert.
Qed.

(** Switching a server on changes no route, off only at an empty slot. *)
Lemma set_enabled_ok st idx b : b = true ∨ slot st idx = None → ok st → ok (set_enabled idx b st).
Proof.
  intros Hb ([Hlen He] & Hr & Hc). split_and!.
  - split; [cbn; by rewrite length_alter|]. cbn [set_enabled set_configs configs]. intros j c' h Hj Hh. change (slot st j = Some h) in Hh. destruct (decide (idx = j)) as [->|Hne].
    + rewrite list_lookup_alter_eq in Hj. destruct (configs st !! j) as [c|] eqn:Ej; [|done]. injection Hj as <-. destruct Hb as [->|Hb]; [done|congruence].
    + rewrite list_lookup_alter_ne in Hj by done. by eapply He.
  - intros tool j original h Hl Hh. destruct (Hr _ _ _ _ Hl Hh) as (c' & Hj & ->). cbn [set_enabled set_configs configs]. destruct (decide (idx = j)) as [->|Hne].
    + rewrite list_lookup_alter_eq, Hj. by eexists.
    + exists c'. by rewrite list_lookup_alter_ne.
  - intros t Ht. destruct (Hc t Ht) as (j & original & Hl & Hj). exists j, original. cbn. by rewrite length_alter.
Qed.

Lemma start_each_wf indices started st w started' st' w' :
  start_each ipv4_text ipv6_text ports indices started st w = (started', st', w') → wf st → wf st' ∧ configs st' = configs st.
Proof.
  revert started st w. induction indices as [|idx rest IH]; intros started st w Hg Hw; cbn [start_each] in Hg; [by simplify_eq|].
  destruct (configs st !! idx) as [c|] eqn:Ec; [|by eapply IH]. destruct (sc_enabled c) eqn:Ee; cbn [negb] in Hg; [|by eapply IH].
  destruct (slot st idx); [by eapply IH|]. destruct (connect_server ipv4_text ipv6_text ports st idx w) as [[r st1] w1] eqn:E1.
  destruct (connect_server_ok _ _ _ _ _ _ E1) as (Hc & _). apply connect_server_wf in E1; [|intros c' Hc0; congruence|done]. apply IH in Hg as [Hw' Hc']; [|done].
  split; [done|congruence].
Qed.

Lemma start_all_wf targets st w st' w' :
  (∀ ic, ic ∈ targets → configs st !! ic.1 = Some ic.2) → start_all ipv4_text ipv6_text ports targets st w = (st', w') → wf st → wf st'.
Proof.
  revert st w. induction targets as [|[idx c] rest IH]; intros st w Ht Hg Hw; cbn [start_all] in Hg; [by simplify_eq|].
  assert (Hrest : ∀ ic, ic ∈ rest → configs st !! ic.1 = Some ic.2) by (intros ic ?; apply Ht; set_solver).
  destruct (sc_enabled c) eqn:Ee; cbn [negb] in Hg; [|by eapply IH].
  destruct (connect_server ipv4_text ipv6_text ports st idx w) as [[r st1] w1] eqn:E1. destruct (connect_server_ok _ _ _ _ _ _ E1) as (Hc & _).
  eapply IH; [|exact Hg|]; [by rewrite Hc|]. eapply connect_server_wf; [done| |done]. intros c' Hc'. assert (configs st !! idx = Some c) by (apply (Ht (idx, c)); set_solver). congruence.
Qed.

Lemma stop_each_ok indices stopped st w stopped' st' w' :
  stop_each ports indices stopped st w = (stopped', st', w') → ok st → ok st' ∧ configs st' = configs st.
Proof.
  revert stopped st w. induction indices as [|idx rest IH]; intros stopped st w Hg Hok; cbn [stop_each] in Hg; [by simplify_eq|].
  destruct (slot st idx); [|by eapply IH]. destruct (disconnect_server ports st idx w) as [st1 w1] eqn:E1.
  destruct (disconnect_ok _ _ _ _ _ E1) as (Hc & _). apply disconnect_keeps_ok in E1; [|done]. apply IH in Hg as [Hok' Hc']; [|done]. split; [done|congruence].
Qed.

Lemma start_server_ok st server w r st' w' : start_server ipv4_text ipv6_text ports st server w = (r, st', w') → ok st → ok st'.
Proof.
  unfold start_server. destruct (resolve_indices st server); [|intros HH ?; by simplify_eq].
  destruct (start_each _ _ ports _ [] st w) as [[started st1] w1] eqn:E1. destruct (refresh_all_metadata ports st1 w1) as [st2 w2] eqn:E2.
  intros HH [Hw _]. simplify_eq. apply start_each_wf in E1 as [Hw1 _]; [|done]. exact (refresh_all_makes_ok _ _ _ _ Hw1 E2).
Qed.

Lemma stop_server_ok st server w r st' w' : stop_server ports st server w = (r, st', w') → ok st → ok st'.
Proof.
  unfold stop_server. destruct (resolve_indices st server); [|intros HH ?; by simplify_eq].
  destruct (stop_each ports _ [] st w) as [[stopped st1] w1] eqn:E1. destruct (refresh_all_metadata ports st1 w1) as [st2 w2] eqn:E2.
  intros HH Hok. simplify_eq. apply stop_each_ok in E1 as [[Hw1 _] _]; [|done]. exact (refresh_all_makes_ok _ _ _ _ Hw1 E2).
Qed.

Lemma append_ok st c : ok st → ok (set_clients (clients st ++ [None]) (set_configs (configs st ++ [c]) st)).
Proof.
  intros ([Hlen He] & Hr & Hc).
  assert (Hs : ∀ j h, slot (set_clients (clients st ++ [None]) (set_configs (configs st ++ [c]) st)) j = Some h → slot st j = Some h ∧ j < length (configs st)).
  { unfold slot. cbn [set_clients clients]. intros j h Hh. rewrite lookup_app in Hh. destruct (clients st !! j) as [x|] eqn:E.
    - split; [done|]. apply lookup_lt_Some in E. lia.
    - destruct (j - length (clients st)) as [|k]; simpl in Hh; [done|]. by destruct k. }
  split_and!.
  - split; [cbn; rewrite !length_app; simpl; lia|]. cbn. intros j c' h Hj Hh. apply Hs in Hh as [Hh Hlt]. rewrite lookup_app_l in Hj by done. by eapply He.
  - intros tool j original h Hl Hh. apply Hs in Hh as [Hh Hlt]. destruct (Hr _ _ _ _ Hl Hh) as (c' & Hj & ->). exists c'. cbn. by rewrite lookup_app_l.
  - intros t Ht. destruct (Hc t Ht) as (j & original & Hl & Hj). exists j, original. split; [done|]. cbn. rewrite length_app. lia.
Qed.

Lemma connect_and_refresh_ok st idx w st' w' :
  connect_and_refresh ipv4_text ipv6_text ports st idx w = (st', w') → wf st → (∀ c, configs st !! idx = Some c → sc_enabled c = true) → ok st'.
Proof.
  unfold connect_and_refresh. destruct (connect_server _ _ ports st idx w) as [[r st1] w1] eqn:E1. intros E2 Hw He.
  eapply refresh_all_makes_ok; [|done]. by eapply connect_server_wf.
Qed.

Lemma add_server_ok st c w r st' w' : add_server ipv4_text ipv6_text ports st c w = (r, st', w') → ok st → ok st'.
Proof.
  unfold add_server. destruct (existsb _ _); [intros HH ?; by simplify_eq|]. intros HH Hok. pose proof (append_ok st c Hok) as Hok'.
  set (st1 := set_clients _ _) in *. destruct (persist_configs ports st1 w) as [[[]|e] w1]; [|by simplify_eq].
  destruct (sc_enabled c) eqn:Ee; [|by simplify_eq].
  destruct (connect_and_refresh _ _ ports st1 _ w1) as [st2 w2] eqn:E2. simplify_eq. eapply connect_and_refresh_ok; [done|apply Hok'|].
  intros c' Hc'. cbn in Hc'. rewrite lookup_app_r, Nat.sub_diag in Hc' by done. naive_solver.
Qed.

Lemma upsert_server_ok st c w r st' w' : upsert_server ipv4_text ipv6_text ports st c w = (r, st', w') → ok st → ok st'.
Proof.
  unfold upsert_server. destruct (find_server_index st (sc_name c)) as [idx|]; [|by apply add_server_ok].
  destruct (disconnect_server ports st idx w) as [st1 w1] eqn:E1. intros HH Hok.
  destruct (disconnect_ok _ _ _ _ _ E1) as (_ & _ & Hn & _). apply disconnect_keeps_ok in E1; [|done].
  pose proof (set_config_ok (clear_connect_error (sc_name c) st1) idx c Hn E1) as Hok2. set (st2 := set_configs _ _) in *.
  destruct (persist_configs ports st2 w1) as [[[]|e] w2]; [|by simplify_eq]. destruct (sc_enabled c) eqn:Ee.
  - destruct (connect_server _ _ ports st2 idx w2) as [[r3 st3] w3] eqn:E3. destruct (refresh_all_metadata ports st3 w3) as [st4 w4] eqn:E4. simplify_eq.
    eapply refresh_all_makes_ok; [|done]. eapply connect_server_wf; [done| |apply Hok2]. cbn. intros c' Hc'.
    apply list_lookup_insert_Some in Hc'. naive_solver.
  - destruct (refresh_all_metadata ports st2 w2) as [st4 w4] eqn:E4. simplify_eq. eapply refresh_all_makes_ok; [apply Hok2|done].
Qed.

Lemma lookup_remove_at {A} i (l : list A) j : remove_at i l !! j = l !! (if j <? i then j else S j).
Proof.
  unfold remove_at. destruct (Nat.ltb_spec j i) as [Hj|Hj].
  - destruct (decide (j < length l)); [rewrite lookup_app_l by (rewrite length_take; lia); by rewrite lookup_take_lt|].
    rewrite (lookup_ge_None_2 l j) by lia. apply lookup_ge_None_2. rewrite length_app, length_take, length_drop. lia.
  - destruct (decide (i ≤ length l)).
    + rewrite lookup_app_r by (rewrite length_take; lia). rewrite length_take, lookup_drop. f_equal. lia.
    + rewrite (lookup_ge_None_2 l (S j)) by lia. apply lookup_ge_None_2. rewrite length_app, length_take, length_drop. lia.
Qed.

Lemma remove_slots_wf st idx : wf st → wf (remove_slots st idx).
Proof.
  intros [Hlen He]. split; [cbn; unfold remove_at; rewrite !length_app, !length_take, !length_drop; lia|].
  intros j c h Hj Hh. change (remove_at idx (configs st) !! j = Some c) in Hj. change (mjoin (remove_at idx (clients st) !! j) = Some h) in Hh.
  rewrite lookup_remove_at in Hj. rewrite lookup_remove_at in Hh. by eapply He.
Qed.

Lemma remove_server_ok st n w r st' w' : remove_server ports st n w = (r, st', w') → ok st → ok st'.
Proof.
  unfold remove_server. destruct (find_server_index st n) as [idx|]; [|intros HH Hok; by simplify_eq].
  destruct (disconnect_server ports st idx w) as [st1 w1] eqn:E1. destruct (refresh_all_metadata ports _ w1) as [st2 w2] eqn:E2.
  destruct (persist_configs ports st2 w2). intros HH Hok. simplify_eq. apply disconnect_keeps_ok in E1; [|done].
  refine (refresh_all_makes_ok _ _ _ _ _ E2). apply remove_slots_wf, E1.
Qed.

Lemma enable_server_ok st n w r st' w' : enable_server ipv4_text ipv6_text ports st n w = (r, st', w') → ok st → ok st'.
Proof.
  unfold enable_server. destruct (find_server_index st n) as [idx|]; [|intros HH Hok; by simplify_eq]. intros HH Hok.
  pose proof (set_enabled_ok st idx true (or_introl eq_refl) Hok) as Hok1. set (st1 := set_enabled idx true st) in *.
  destruct (persist_configs ports st1 w) as [[[]|e] w1]; [|by simplify_eq].
  destruct (connect_and_refresh _ _ ports st1 idx w1) as [st2 w2] eqn:E2. simplify_eq. eapply connect_and_refresh_ok; [done|apply Hok1|].
  intros c Hc. cbn in Hc. rewrite list_lookup_alter_eq in Hc. destruct (configs st !! idx); [|done]. by injection Hc as <-.
Qed.

(** What is true once a server was switched off. *)
Lemma disable_server_spec st n w r st' w' idx :
  disable_server ports st n w = (r, st', w') → find_server_index st n = Some idx → ok st →
  ok st' ∧ fresh st' ∧ slot st' idx = None ∧ configs st' = alter (with_enabled false) idx (configs st).
Proof.
  unfold disable_server. intros HH Hi Hok. rewrite Hi in HH. destruct (disconnect_server ports st idx w) as [st1 w1] eqn:E1.
  destruct (refresh_all_metadata ports _ w1) as [st2 w2] eqn:E2. destruct (persist_configs ports st2 w2) as [rp w3].
  assert (Hst : st' = st2) by (destruct rp as [[]|e]; by simplify_eq). subst st'.
  destruct (disconnect_ok _ _ _ _ _ E1) as (Hc & _ & Hn & _). apply disconnect_keeps_ok in E1; [|done].
  pose proof (set_enabled_ok st1 idx false (or_intror Hn) E1) as Hok1. pose proof (refresh_all_makes_ok _ _ _ _ (proj1 Hok1) E2) as Hok2.
  destruct (refresh_all_ok _ _ _ _ E2) as ((Hc2 & _ & Hs2 & _) & Hf & _). split_and!; [done..| |].
  - destruct (slot st2 idx) as [h|] eqn:Eh; [|done]. destruct (proj1 (Hs2 idx)) as [h' Hh']; [rewrite Eh; by eexists|]. change (slot st1 idx = Some h') in Hh'. congruence.
  - rewrite Hc2. cbn. by rewrite Hc.
Qed.

Lemma disable_server_ok st n w r st' w' : disable_server ports st n w = (r, st', w') → ok st → ok st'.
Proof.
  intros HH Hok. destruct (find_server_index st n) as [idx|] eqn:Ei; [by eapply disable_server_spec|].
  unfold disable_server in HH. rewrite Ei in HH. by simplify_eq.
Qed.

Lemma keeps_ok f st w st' w' : keeps f → f st w = (st', w') → ok st → ok st'.
Proof. intros Hf (Hs & _ & Hr & Hc)%Hf (Hw & Hr0 & Hc0). split_and!; [by eapply wf_shape|by apply Hr|by apply Hc]. Qed.

Lemma shape_ok st st' : same_shape st st' → cached_tools st' = cached_tools st → tool_routing st' = tool_routing st → ok st → ok st'.
Proof.
  intros Hs Ht Hr (Hw & Hr0 & Hc0). destruct (shape_keeps _ _ Hs Ht Hr) as (_ & H1 & H2). split_and!; [by eapply wf_shape|by apply H1|by apply H2].
Qed.

Lemma execute_tool_ok st tool args w r st' w' : execute_tool ports st tool args w = (r, st', w') → ok st → ok st'.
Proof.
  unfold execute_tool, call_routed. destruct (maybe_refresh_metadata ports st w) as [st1 w1] eqn:E1. intros HH Hok.
  apply (keeps_ok _ _ _ _ _ maybe_refresh_keeps E1) in Hok. destruct (tool_routing st1 !! tool) as [[idx original]|]; [|by simplify_eq].
  destruct (slot st1 idx) as [h|]; [|by simplify_eq]. destruct (x_call_tool ports w1 (hd_client h) original args) as [[rc client] w2]. simplify_eq.
  destruct (put_client_caches idx client st1). by eapply shape_ok; [apply put_client_shape|..].
Qed.

Lemma shutdown_ok st w : ok st → ok (shutdown ports st w).1.
Proof.
  intros ([Hlen He] & Hr & Hc).
  assert (Hs : ∀ j h, slot (shutdown ports st w).1 j ≠ Some h).
  { intros j h. unfold slot. cbn. rewrite list_lookup_fmap. by destruct (clients st !! j). }
  split_and!; [|intros tool idx original h Hl Hh; by destruct (Hs idx h)|done]. split; [cbn; by rewrite length_fmap|].
  intros idx c h _ Hh. by destruct (Hs idx h).
Qed.

(** *** Histories *)

Inductive Op :=
| OpStart
| OpShutdown
| OpStartServer (server : option string)
| OpStopServer (server : option string)
| OpRestartServer (server : option string)
| OpAdd (c : McpServerConfig)
| OpUpsert (c : McpServerConfig)
| OpRemove (n : string)
| OpEnable (n : string)
| OpDisable (n : string)
| OpSecrets (ss : gmap string string)
| OpAccounts (accts : list ServiceAccount)
| OpNamespaces
| OpExecute (tool : string) (arguments : Value).

Definition drop_result {A} (x : A * State C * W) : State C * W := (x.1.2, x.2).

Definition step (s : State C * W) (op : Op) : State C * W :=
  let '(st, w) := s in
  match op with
  | OpStart => start ipv4_text ipv6_text ports st w
  | OpShutdown => shutdown ports st w
  | OpStartServer server => drop_result (start_server ipv4_text ipv6_text ports st server w)
  | OpStopServer server => drop_result (stop_server ports st server w)
  | OpRestartServer server => drop_result (restart_server ipv4_text ipv6_text ports st server w)
  | OpAdd c => drop_result (add_server ipv4_text ipv6_text ports st c w)
  | OpUpsert c => drop_result (upsert_server ipv4_text ipv6_text ports st c w)
  | OpRemove n => drop_result (remove_server ports st n w)
  | OpEnable n => drop_result (enable_server ipv4_text ipv6_text ports st n w)
  | OpDisable n => drop_result (disable_server ports st n w)
  | OpSecrets ss => (replace_secrets st ss, w)
  | OpAccounts accts => (replace_service_accounts st accts, w)
  | OpNamespaces => drop_result (tool_namespaces ports st w)
  | OpExecute tool arguments => drop_result (execute_tool ports st tool arguments w)
  end.

Lemma step_ok s op : ok s.1 → ok (step s op).1.
Proof.
  destruct s as [st w]. cbn [fst]. intros Hok. assert (Hd : ∀ A (x : A * State C * W), (∀ r st' w', x = (r, st', w') → ok st') → ok (drop_result x).1).
  { intros A [[r st'] w'] Hx. by eapply Hx. }
  destruct op; cbn [step]; try (apply Hd; intros r st' w' HH).
  - unfold start. destruct (start_all _ _ ports _ st w) as [st1 w1] eqn:E1. apply start_all_wf in E1; [|apply elem_of_imap_pair|apply Hok].
    destruct (refresh_all_metadata ports st1 w1) as [st2 w2] eqn:E2. exact (refresh_all_makes_ok _ _ _ _ E1 E2).
  - by apply shutdown_ok.
  - by eapply start_server_ok.
  - by eapply stop_server_ok.
  - unfold restart_server in HH. destruct (stop_server ports st server w) as [[r1 st1] w1] eqn:E1. apply stop_server_ok in E1; [|done].
    destruct r1 as [s1|e]; [by eapply start_server_ok|by simplify_eq].
  - by eapply add_server_ok.
  - by eapply upsert_server_ok.
  - by eapply remove_server_ok.
  - by eapply enable_server_ok.
  - by eapply disable_server_ok.
  - unfold replace_secrets. cbn [fst]. generalize (omap (newly_authorized (secrets st) ss) (configs st)) as names.
    assert (Hok1 : ok (set_secrets ss st)) by exact Hok. revert Hok1. generalize (set_secrets ss st). clear. intros st' Hok names. revert st' Hok.
    induction names as [|n names IH]; intros st' Hok; [done|]. cbn [foldl]. by apply IH.
  - exact Hok.
  - unfold tool_namespaces in HH. destruct (maybe_refresh_metadata ports st w) as [st1 w1] eqn:E1. simplify_eq.
    exact (keeps_ok _ _ _ _ _ maybe_refresh_keeps E1 Hok).
  - by eapply execute_tool_ok.
Qed.

Lemma initial_ok cs ss : ok (initial cs ss).
Proof.
  assert (Hs : ∀ j h, slot (initial (C:=C) cs ss) j ≠ Some h).
  { intros j h. unfold slot. cbn. destruct (replicate (length cs) None !! j) as [x|] eqn:E; [|done]. apply lookup_replicate in E as [-> _]. done. }
  split_and!; [split; [cbn; by rewrite length_replicate|intros idx c h _ Hh; by destruct (Hs idx h)]|intros tool idx original h Hl; by destruct (Hs idx h)|].
  intros t Ht. cbn in Ht. set_solver.
Qed.

Definition history (cs : list McpServerConfig) (ss : gmap string string) (w : W) (ops : list Op) : State C := (foldl step (initial cs ss, w) ops).1.

Lemma history_ok cs ss w ops : ok (history cs ss w ops).
Proof.
  unfold history. assert (H0 : ok (initial (C:=C) cs ss, w).1) by apply initial_ok. revert H0. generalize (initial (C:=C) cs ss, w) as s.
  induction ops as [|op ops IH]; intros s Hs; [done|]. cbn [foldl]. by apply IH, step_ok.
Qed.

(** A tool call goes to the server it names.  After any history of starting,
    stopping, adding, replacing, removing, enabling and disabling servers and of
    other calls, a call that returns was made on the client of a server that is
    configured and enabled, under the tool's own name, and the name the model used
    is that name in that server's namespace.  Operations and the call follow one
    another here; what overlapping ones do is [McpConcurrency]. *)
Theorem a_call_alone_reaches_an_enabled_server cs ss w ops tool arguments w1 answer st' w' :
  execute_tool ports (history cs ss w ops) tool arguments w1 = (Ok answer, st', w') →
  ∃ idx c h original st1 w2 client,
    maybe_refresh_metadata ports (history cs ss w ops) w1 = (st1, w2) ∧ configs st1 !! idx = Some c ∧ sc_enabled c = true ∧
    tool = expose (sc_namespace c) original ∧ slot st1 idx = Some h ∧
    x_call_tool ports w2 (hd_client h) original arguments = (Ok answer, client, w').
Proof.
  unfold execute_tool, call_routed. pose proof (history_ok cs ss w ops) as Hok.
  destruct (maybe_refresh_metadata ports (history cs ss w ops) w1) as [st1 w2] eqn:E1.
  destruct (keeps_ok _ _ _ _ _ maybe_refresh_keeps E1 Hok) as ([_ He] & Hr & _).
  destruct (tool_routing st1 !! tool) as [[idx original]|] eqn:El; [|done]. destruct (slot st1 idx) as [h|] eqn:Eh; [|done].
  destruct (x_call_tool ports w2 (hd_client h) original arguments) as [[[a|e] client] w3] eqn:Ex; [|done]. intros HH. simplify_eq.
  destruct (Hr _ _ _ _ El Eh) as (c & Hc & ->). exists idx, c, h, original, st1, w2, client. split_and!; try done. by eapply He.
Qed.

(** A server that was switched off is out of reach.  After [disable_server],
    whether or not the change could be written to the file, the server is
    disabled and not connected, and no tool name leads to it; a request to start
    it, or to start all servers, leaves it so. *)
Theorem a_disabled_server_is_out_of_reach cs ss w ops n w1 r st' w' idx :
  find_server_index (history cs ss w ops) n = Some idx →
  disable_server ports (history cs ss w ops) n w1 = (r, st', w') →
  slot st' idx = None ∧ (∃ c, configs st' !! idx = Some c ∧ sc_name c = n ∧ sc_enabled c = false) ∧
  (∀ tool original, tool_routing st' !! tool ≠ Some (idx, original)) ∧
  ∀ server st2, (drop_result (start_server ipv4_text ipv6_text ports st' server w')).1 = st2 → slot st2 idx = None.
Proof.
  intros Hi HH. destruct (disable_server_spec _ _ _ _ _ _ _ HH Hi (history_ok cs ss w ops)) as (Hok & Hf & Hn & Hc).
  unfold find_server_index in Hi. destruct (list_find _ _) as [[i c]|] eqn:El; [|done]. injection Hi as ->. apply list_find_Some in El as (Hl & Hname & _).
  assert (Hc' : configs st' !! idx = Some (with_enabled false c)) by (by rewrite Hc, list_lookup_alter_eq, Hl).
  split_and!; [done|by exists (with_enabled false c)| |].
  - intros tool original Ht. destruct (Hf _ _ _ Ht) as (? & _ & [h Hh] & _). congruence.
  - intros server st2 <-. destruct (start_server _ _ ports st' server w') as [[rs st2] w2] eqn:Es. cbn.
    pose proof (start_server_ok _ _ _ _ _ _ Es Hok) as [[_ He] _]. destruct (slot st2 idx) as [h|] eqn:Eh; [|done].
    assert (Hcs : configs st2 = configs st').
    { revert Es. unfold start_server. destruct (resolve_indices st' server); [|intros ?; by simplify_eq].
      destruct (start_each _ _ ports _ [] st' w') as [[started st3] w3] eqn:E3. destruct (refresh_all_metadata ports st3 w3) as [st4 w4] eqn:E4. intros ?. simplify_eq.
      apply start_each_wf in E3 as [_ Hc3]; [|apply Hok]. apply refresh_all_ok in E4 as ((Hc4 & _) & _). congruence. }
    rewrite Hcs in He. by specialize (He _ _ _ Hc' Eh).
Qed.
End invariants.

(** ** Namespaces *)

Lemma buckets {A} (bucket : A → option nat) (n : nat) (l : list A) :
  (∀ x, x ∈ l → ∃ i, bucket x = Some i ∧ i < n) →
  seq 0 n ≫= (λ i, List.filter (λ x, bool_decide (bucket x = Some i)) l) ≡ₚ l.
Proof.
  induction l as [|x l IH]; intros Hl.
  - induction (seq 0 n) as [|j js IHj]; [done|]. cbn. exact IHj.
  - destruct (Hl x) as (i & Hx & Hi); [set_solver|].
    assert (Hother : ∀ js, i ∉ js →
      js ≫= (λ j, List.filter (λ y, bool_decide (bucket y = Some j)) (x :: l)) = js ≫= (λ j, List.filter (λ y, bool_decide (bucket y = Some j)) l)).
    { intros js Hjs. induction js as [|j js IHj]; [done|]. rewrite !bind_cons, IHj by set_solver. cbn [List.filter]. by rewrite Hx, bool_decide_false by set_solver. }
    etrans; [|apply perm_skip, IH; intros y Hy; apply Hl; set_solver].
    replace n with (i + (S (n - S i))) by lia. rewrite seq_app, !bind_app, Nat.add_0_l. cbn [seq]. rewrite !bind_cons.
    rewrite !Hother by (rewrite elem_of_seq; lia). cbn [List.filter]. rewrite Hx, bool_decide_true by done. rewrite <- app_comm_cons. symmetry. apply Permutation_middle.
Qed.

Section listing.
Context {C : Type}.
Implicit Types st : State C.

Lemma imap_pair_bind {A B} (f : nat → list B) (l : list A) : imap pair l ≫= (λ ic : nat * A, f ic.1) = seq 0 (length l) ≫= f.
Proof.
  assert (H : ∀ k, imap (λ i x, (k + i, x)) l ≫= (λ ic : nat * A, f ic.1) = seq k (length l) ≫= f).
  { induction l as [|x l IH]; intros k; [done|]. rewrite imap_cons, bind_cons. cbn [length seq fst]. rewrite bind_cons, Nat.add_0_r. f_equal. rewrite <- IH.
    f_equal. apply imap_ext. intros i y _. cbn. f_equal. lia. }
  exact (H 0).
Qed.

Lemma bind_namespaces st l : omap (namespace_at st) l ≫= ns_tools = l ≫= (λ ic : nat * McpServerConfig, tools_of st ic.1).
Proof.
  induction l as [|ic l IH]; [done|]. rewrite bind_cons, <- IH. cbn [omap list_omap]. unfold namespace_at at 1.
  destruct (tools_of st ic.1) as [|t ts] eqn:E; [done|]. by rewrite bind_cons.
Qed.

Definition bucket_of st (t : Tool) : option nat := fst <$> tool_routing st !! name t.

Lemma tools_of_bucket st i : tools_of st i = List.filter (λ t, bool_decide (bucket_of st t = Some i)) (cached_tools st).
Proof.
  unfold tools_of. induction (cached_tools st) as [|t l IH]; [done|]. cbn [List.filter]. rewrite IH.
  assert (routed_to st i t = bool_decide (bucket_of st t = Some i)) as ->; [|done]. unfold routed_to, bucket_of.
  destruct (tool_routing st !! name t) as [[j o]|]; cbn; [|by rewrite bool_decide_false].
  destruct (Nat.eqb_spec j i) as [->|]; [by rewrite bool_decide_true|]. rewrite bool_decide_false; congruence.
Qed.

Lemma namespaces_partition st : caches_ok st → namespaces_of st ≫= ns_tools ≡ₚ cached_tools st.
Proof.
  intros Hc. unfold namespaces_of. rewrite bind_namespaces, (imap_pair_bind (tools_of st)).
  rewrite (list_bind_ext _ _ _ _ (tools_of_bucket st) eq_refl). apply buckets.
  intros t Ht. destruct (Hc t Ht) as (i & o & Hl & Hi). exists i. unfold bucket_of. by rewrite Hl.
Qed.
End listing.

Section namespaces.
Context `{!UrlParser} (ipv4_text ipv6_text : Z → string).
Context {C W : Type} (ports : ExecPorts C W).

(** The namespaces are the tools: after any history the tools of all
    namespaces together are exactly the tools that are cached, each once, none
    hidden and none invented. *)
Theorem namespaces_partition_the_tools cs ss (w : W) ops w1 nss st' w' :
  tool_namespaces ports (history ipv4_text ipv6_text ports cs ss w ops) w1 = (nss, st', w') → nss ≫= ns_tools ≡ₚ cached_tools st'.
Proof.
  unfold tool_namespaces. pose proof (history_ok ipv4_text ipv6_text ports cs ss w ops) as Hok.
  destruct (maybe_refresh_metadata ports _ w1) as [st1 w2] eqn:E1. intros HH. simplify_eq. apply namespaces_partition.
  apply (keeps_ok _ _ _ _ _ (maybe_refresh_keeps ports) E1 Hok).
Qed.
End namespaces.

(** ** Credentials *)

Section credentials.
Context (host : gmap string string) `{!UrlParser} (ipv4_text ipv6_text : Z → string).

(** The secrets a configuration names. *)
Definition secret_refs (accts : list ServiceAccount) (c : McpServerConfig) : list string :=
  match sc_http c with
  | None => map snd (map_to_list (sc_env_secrets c))
  | Some http =>
      match resolve_server_oauth http accts (sc_name c) with
      | Err _ => []
      | Ok None => option_list (hc_auth_bearer_secret http)
      | Ok (Some r) => option_list (oc_client_secret_ref (effective r)) ++ [oc_refresh_token_ref (effective r)]
      end
  end.

Lemma layer_secrets_ext ss ss' server refs env :
  (∀ id, id ∈ map snd refs → ss !! id = ss' !! id) → layer_secrets ss server refs env = layer_secrets ss' server refs env.
Proof.
  revert env. induction refs as [|[var id] refs IH]; intros env Hs; [done|]. cbn [layer_secrets]. rewrite (Hs id) by (cbn; set_solver).
  destruct (ss' !! id); [|done]. apply IH. intros id' Hid. apply Hs. cbn. set_solver.
Qed.

Lemma layer_secrets_found ss server refs env env' id : layer_secrets ss server refs env = Ok env' → id ∈ map snd refs → is_Some (ss !! id).
Proof.
  revert env. induction refs as [|[var i] refs IH]; intros env Hl Hin; cbn [map snd] in Hin; [set_solver|]. cbn [layer_secrets] in Hl.
  destruct (ss !! i) as [v|] eqn:Ei; [|done]. apply elem_of_cons in Hin as [->|Hin]; [by rewrite Ei|by eapply IH].
Qed.

Lemma require_secret_ok ss id server field v : require_secret ss id server field = Ok v → ss !! id = Some v.
Proof. unfold require_secret. by destruct (ss !! id); intros ?; simplify_eq. Qed.

(** A dial that is made found every secret the configuration names. *)
Lemma dial_finds_secrets accts c ss dial : dial_of host ipv4_text ipv6_text ss accts c = Ok dial → ∀ id, id ∈ secret_refs accts c → is_Some (ss !! id).
Proof.
  unfold dial_of, secret_refs. intros Hd id Hid. destruct (sc_http c) as [http|].
  - destruct (resolve_server_oauth http accts (sc_name c)) as [[r|]|e]; [| |set_solver].
    + unfold build_token_provider, resolve_client_secret in Hd. destruct (require_secret ss (oc_refresh_token_ref (effective r)) _ _) as [v2|] eqn:E2.
      2:{ destruct (oc_client_secret_ref (effective r)) as [i|]; [destruct (require_secret ss i _ _); [|done]|]; by destruct (OAuthClient_new _ _ _ _ _). }
      apply require_secret_ok in E2. apply elem_of_app in Hid as [Hid|Hid%list_elem_of_singleton]; [|subst id; by rewrite E2].
      destruct (oc_client_secret_ref (effective r)) as [i|]; cbn [option_list] in Hid; [|set_solver]. apply list_elem_of_singleton in Hid as ->.
      destruct (require_secret ss i _ _) as [v|] eqn:E1; [|done]. apply require_secret_ok in E1. by rewrite E1.
    + unfold resolve_bearer in Hd. destruct (hc_auth_bearer_secret http) as [i|]; cbn [option_list] in Hid; [|set_solver]. apply list_elem_of_singleton in Hid as ->.
      destruct (require_secret ss i _ _) as [v|] eqn:E1; [|done]. apply require_secret_ok in E1. by rewrite E1.
  - unfold resolve_env in Hd. destruct (layer_secrets _ _ _ _) as [env|] eqn:El; [|done]. by eapply layer_secrets_found.
Qed.

(** C28. A server gets its own secrets and no others, and none is left out.  What
    a server is dialled with depends only on the secrets its own configuration
    names: any other secret may change without a trace; and a dial that is made
    at all found every one of them, so a missing secret never means a connection
    without it. *)
Theorem a_server_gets_only_its_own_secrets (accts : list ServiceAccount) (c : McpServerConfig) (ss : gmap string string) :
  (∀ ss', (∀ id, id ∈ secret_refs accts c → ss !! id = ss' !! id) →
     dial_of host ipv4_text ipv6_text ss accts c = dial_of host ipv4_text ipv6_text ss' accts c) ∧
  ((∃ dial, dial_of host ipv4_text ipv6_text ss accts c = Ok dial) → ∀ id, id ∈ secret_refs accts c → is_Some (ss !! id)).
Proof.
  split; [|intros [dial Hd]; by apply (dial_finds_secrets _ _ _ dial)]. intros ss' Hs. unfold dial_of, secret_refs in *. destruct (sc_http c) as [http|].
  - destruct (resolve_server_oauth http accts (sc_name c)) as [[r|]|e]; [| |done].
    + unfold build_token_provider, resolve_client_secret, require_secret. rewrite (Hs (oc_refresh_token_ref (effective r))) by set_solver.
      destruct (oc_client_secret_ref (effective r)) as [id|]; [|done]. by rewrite (Hs id) by (cbn; set_solver).
    + unfold resolve_bearer, require_secret. destruct (hc_auth_bearer_secret http) as [i|]; [|done]. by rewrite (Hs i) by (cbn; set_solver).
  - unfold resolve_env. by rewrite (layer_secrets_ext ss ss').
Qed.

Lemma layer_secrets_lookup ss server refs env env' k :
  NoDup (map fst refs) → layer_secrets ss server refs env = Ok env' →
  env' !! k = match (list_to_map refs : gmap string string) !! k with Some id => ss !! id | None => env !! k end.
Proof.
  revert env. induction refs as [|[var id] refs IH]; intros env Hnd Hl; cbn [layer_secrets] in Hl; [simplify_eq; cbn; by rewrite lookup_empty|].
  cbn [map fst] in Hnd. apply NoDup_cons in Hnd as [Hni Hnd]. destruct (ss !! id) as [v|] eqn:Ei; [|done]. rewrite (IH _ Hnd Hl). cbn [list_to_map foldr uncurry fst snd].
  destruct (decide (var = k)) as [->|Hne].
  - rewrite !lookup_insert_eq, Ei. by rewrite (not_elem_of_list_to_map_1 refs k).
  - by rewrite !lookup_insert_ne.
Qed.

(** The environment of a spawned server is its configuration.  A variable has
    the value of the secret the configuration names for it; failing that the
    value configured; failing that the daemon's own, where the configuration asks
    for it or it is one of the harmless ones; nothing else is there. *)
Theorem a_childs_environment_is_its_configuration (accts : list ServiceAccount) (c : McpServerConfig) (ss : gmap string string) command args env k :
  dial_of host ipv4_text ipv6_text ss accts c = Ok (DialStdio command args env) →
  child_env host env !! k =
    match sc_env_secrets c !! k with
    | Some id => ss !! id
    | None =>
        match sc_env c !! k with
        | Some v => Some v
        | None => if bool_decide (k ∈ sc_inherit_env c ∨ k ∈ ENV_PASSTHROUGH_ALLOWLIST) then host !! k else None
        end
    end.
Proof.
  unfold dial_of. destruct (sc_http c) as [http|].
  { destruct (resolve_server_oauth http accts (sc_name c)) as [[r|]|e]; [|destruct (resolve_bearer ss http (sc_name c)); done|done].
    unfold build_token_provider. destruct (resolve_client_secret ss _ _); [|done]. destruct (OAuthClient_new _ _ _ _ _); [|done]. by destruct (require_secret ss _ _ _). }
  unfold resolve_env. destruct (layer_secrets _ _ _ _) as [env'|] eqn:El; [|done]. intros HH. simplify_eq.
  apply layer_secrets_lookup with (k := k) in El as Hk; [|apply NoDup_fst_map_to_list]. rewrite list_to_map_to_list in Hk.
  unfold child_env. rewrite lookup_union, Hk. rewrite passed_through, lookup_empty. unfold base_env. rewrite lookup_union.
  change (foldl (inherit host) ∅ (sc_inherit_env c)) with (foldl (pass_through host) ∅ (sc_inherit_env c)). rewrite passed_through, lookup_empty.
  destruct (sc_env_secrets c !! k) as [id|] eqn:Es.
  - assert (Hid : is_Some (ss !! id)). { eapply layer_secrets_found; [exact El|]. apply list_elem_of_fmap. exists (k, id). split; [done|]. by apply elem_of_map_to_list. }
    destruct Hid as [v ->]. by rewrite union_Some_l.
  - destruct (sc_env c !! k) as [v|]; repeat case_bool_decide; destruct (host !! k); cbn; try done; naive_solver.
Qed.
End credentials.

(** ** What the status says *)

Section status_facts.
Context `{!UrlParser} (ipv4_text ipv6_text : Z → string) (exe : string).
Context {C W : Type} (ports : ExecPorts C W).

Lemma status_lookup (st : State C) idx : status exe st None !! idx = status_at exe st idx <$> configs st !! idx.
Proof.
  unfold status. assert (H' : ∀ cs k, (∀ i, cs !! i = configs st !! (k + i)) →
    omap (λ j, status_at exe st j <$> configs st !! j) (seq k (length cs)) !! idx = status_at exe st (k + idx) <$> cs !! idx).
  { induction cs as [|c cs IH] in idx |- *; intros k Hk; [done|]. cbn [length seq]. pose proof (Hk 0) as H0. rewrite Nat.add_0_r in H0. cbn in H0.
    cbn [omap list_omap]. rewrite <- H0. cbn [fmap option_fmap option_map]. destruct idx as [|idx]; cbn; [by rewrite Nat.add_0_r|].
    rewrite IH; [by rewrite <- Nat.add_succ_comm|]. intros i. rewrite Nat.add_succ_comm. apply (Hk (S i)). }
  exact (H' (configs st) 0 (λ i, eq_refl)).
Qed.

Lemma omap_ext_all {A B} (f g : A → option B) (l : list A) : (∀ x, f x = g x) → omap f l = omap g l.
Proof. clear. intros Hfg. induction l as [|x l IH]; [done|]. cbn [omap list_omap]. rewrite Hfg. destruct (g x); [f_equal|]; exact IH. Qed.

Lemma status_word_says c b a r :
  (status_word c b a r = "running" ↔ sc_enabled c = true ∧ b = true) ∧ (status_word c b a r = "disabled" ↔ sc_enabled c = false).
Proof.
  unfold status_word. destruct (sc_enabled c), b; cbn [negb]; [naive_solver| |naive_solver..].
  case_bool_decide; [naive_solver|]. destruct (av_needs_auth a); [naive_solver|]. destruct r as [[m []]|]; naive_solver.
Qed.

(** The status tells the truth.  After any history there is one line for each
    configured server, in order and under its name; it says running exactly when
    a client of it is connected and disabled exactly when it is switched off; and
    where it says that OAuth is not authorized, or that the configuration is
    contradictory, dialling the server fails. *)
Theorem the_status_tells_the_truth cs ss (w : W) ops idx c :
  let st := history ipv4_text ipv6_text ports cs ss w ops in
  configs st !! idx = Some c →
  ∃ line, status exe st None !! idx = Some line ∧ si_name line = sc_name c ∧
    (si_status line = "running" ↔ is_Some (slot st idx)) ∧ (si_status line = "disabled" ↔ sc_enabled c = false) ∧
    (si_oauth_authorized line = Some false ∨ is_Some (av_config_error (auth_view (secrets st) (accounts st) c)) →
     ∀ host dial, dial_of host ipv4_text ipv6_text (secrets st) (accounts st) c ≠ Ok dial).
Proof.
  intros st Hc. exists (status_at exe st idx c). rewrite status_lookup, Hc. destruct (history_ok ipv4_text ipv6_text ports cs ss w ops) as ([_ He] & _).
  split_and!; [done..| | |].
  - cbn [status_at si_status]. rewrite (proj1 (status_word_says _ _ _ _)), bool_decide_eq_true. split; [naive_solver|].
    intros [h Hh]. split; [by apply (He idx c h)|by eexists].
  - apply status_word_says.
  - cbn [status_at si_oauth_authorized]. intros Hno host dial Hd. pose proof (dial_finds_secrets _ _ _ _ _ _ _ Hd) as Hfound.
    revert Hno Hfound Hd. unfold auth_view, secret_refs, dial_of. destruct (sc_http c) as [http|]; [|by intros [?|[? ?]]].
    destruct (resolve_server_oauth http (accounts st) (sc_name c)) as [[r|]|e]; cbn [av_authorized av_config_error]; [|by intros [?|[? ?]]|done].
    intros [Ha|[? ?]] Hfound _; [|done]. injection Ha as Ha. apply bool_decide_eq_false in Ha. apply Ha, Hfound. set_solver.
Qed.

(** A status tells no secret.  It depends on the secrets only through which
    of them exist: replacing every value leaves it the same to the letter. *)
Theorem a_status_tells_no_secret (st : State C) (ss ss' : gmap string string) (server : option string) :
  (∀ id, is_Some (ss !! id) ↔ is_Some (ss' !! id)) → status exe (set_secrets ss st) server = status exe (set_secrets ss' st) server.
Proof.
  intros Hs. assert (Ha : ∀ c, auth_view ss (accounts st) c = auth_view ss' (accounts st) c).
  { intros c. unfold auth_view. destruct (sc_http c) as [http|]; [|done]. destruct (resolve_server_oauth http _ _) as [[r|]|e]; [|done..].
    by rewrite (bool_decide_ext _ _ (Hs (oc_refresh_token_ref (effective r)))). }
  unfold status. change (find_server_index (set_secrets ss st)) with (find_server_index (set_secrets ss' st)).
  change (configs (set_secrets ss st)) with (configs (set_secrets ss' st)).
  apply omap_ext_all. intros idx. destruct (configs (set_secrets ss' st) !! idx) as [c|]; [|done]. cbn [fmap option_fmap option_map]. f_equal.
  unfold status_at. cbn [set_secrets secrets accounts]. rewrite Ha. done.
Qed.
End status_facts.

(** ** Names *)

Section names.
Context `{!UrlParser} (ipv4_text ipv6_text : Z → string).
Context {C W : Type} (ports : ExecPorts C W).

Definition names (st : State C) : list string := map sc_name (configs st).

Lemma existsb_name cs n : existsb (λ c, String.eqb (sc_name c) n) cs = false → n ∉ map sc_name cs.
Proof.
  clear. induction cs as [|c cs IH]; cbn; [set_solver|]. intros [Hc Hcs]%orb_false_iff. apply String.eqb_neq in Hc. specialize (IH Hcs). set_solver.
Qed.

Lemma names_insert (cs : list McpServerConfig) idx c c' : cs !! idx = Some c' → sc_name c = sc_name c' → map sc_name (<[idx := c]> cs) = map sc_name cs.
Proof.
  clear. intros Hi Hn. change (sc_name <$> <[idx := c]> cs = sc_name <$> cs). rewrite list_fmap_insert, Hn. apply list_insert_id. by rewrite list_lookup_fmap, Hi.
Qed.

Lemma names_remove (cs : list McpServerConfig) idx : NoDup (map sc_name cs) → NoDup (map sc_name (remove_at idx cs)).
Proof.
  clear. intros Hnd. unfold remove_at. rewrite map_app. rewrite <- (take_drop idx cs), map_app in Hnd. apply NoDup_app in Hnd as (H1 & H2 & H3).
  assert (Hsub : ∀ x, x ∈ map sc_name (drop (S idx) cs) → x ∈ map sc_name (drop idx cs)).
  { intros x. rewrite <- tail_of_drop. destruct (drop idx cs); cbn; set_solver. }
  apply NoDup_app. split_and!; [done|intros x Hx Hx'; by apply (H2 x Hx), Hsub|]. rewrite <- tail_of_drop. destruct (drop idx cs); [done|]. cbn in H3 |- *. by apply NoDup_cons in H3 as [_ ?].
Qed.

Lemma add_server_configs st c w r (st' : State C) w' : add_server ipv4_text ipv6_text ports st c w = (r, st', w') →
  configs st' = configs st ∨ sc_name c ∉ names st ∧ configs st' = configs st ++ [c].
Proof.
  unfold add_server. destruct (existsb _ _) eqn:Ee; [intros HH; simplify_eq; by left|]. apply existsb_name in Ee. set (st1 := set_clients _ _).
  destruct (persist_configs ports st1 w) as [[[]|e] w1]; [|intros HH; simplify_eq; by right].
  destruct (sc_enabled c); [|intros HH; simplify_eq; by right]. unfold connect_and_refresh.
  destruct (connect_server _ _ ports st1 _ w1) as [[r2 st2] w2] eqn:E2. destruct (refresh_all_metadata ports st2 w2) as [st3 w3] eqn:E3. intros HH. simplify_eq.
  apply connect_server_ok in E2 as (Hc2 & _). apply refresh_all_ok in E3 as ((Hc3 & _) & _). right. split; [done|]. by rewrite Hc3, Hc2.
Qed.

(** The name of a server stays its own: where the configuration the daemon
    was started with names no server twice, adding, replacing and removing
    servers never makes two of a name, whether or not the file can be written. *)
Theorem names_stay_unique (st : State C) (c : McpServerConfig) (n : string) (w : W) :
  NoDup (names st) →
  NoDup (names (drop_result (add_server ipv4_text ipv6_text ports st c w)).1) ∧
  NoDup (names (drop_result (upsert_server ipv4_text ipv6_text ports st c w)).1) ∧
  NoDup (names (drop_result (remove_server ports st n w)).1).
Proof.
  intros Hnd. assert (Hadd : NoDup (names (drop_result (add_server ipv4_text ipv6_text ports st c w)).1)).
  { destruct (add_server _ _ ports st c w) as [[r st'] w'] eqn:E. unfold names, drop_result. cbn [fst snd]. apply add_server_configs in E as [->|[Hn ->]]; [done|].
    rewrite map_app. apply NoDup_app. split_and!; [done| |apply NoDup_singleton]. cbn. intros x Hx ->%list_elem_of_singleton. by apply Hn. }
  split_and!; [done| |].
  - unfold upsert_server. destruct (find_server_index st (sc_name c)) as [idx|] eqn:Ei; [|done]. unfold find_server_index in Ei.
    destruct (list_find _ _) as [[i c']|] eqn:El; [|done]. injection Ei as ->. apply list_find_Some in El as (Hi & Hn & _).
    destruct (disconnect_server ports st idx w) as [st1 w1] eqn:E1. apply disconnect_ok in E1 as (Hc1 & _). set (st2 := set_configs _ _).
    assert (Hc2 : names st2 = names st) by (unfold names, st2; cbn; rewrite Hc1; by eapply names_insert).
    destruct (persist_configs ports st2 w1) as [[[]|e] w2]; [|unfold drop_result; cbn [fst snd]; by rewrite Hc2].
    assert (Hgo : ∀ st3 w3, configs st3 = configs st2 → NoDup (names (drop_result (let '(st, w) := refresh_all_metadata ports st3 w3 in (Ok (E:=McpError) (), st, w))).1)).
    { intros st3 w3 H3. destruct (refresh_all_metadata ports st3 w3) as [st4 w4] eqn:E4. apply refresh_all_ok in E4 as ((H4 & _) & _).
      unfold drop_result, names. cbn [fst snd]. rewrite H4, H3. fold (names st2). by rewrite Hc2. }
    destruct (sc_enabled c); [|by apply Hgo]. destruct (connect_server _ _ ports st2 idx w2) as [[r3 st3] w3] eqn:E3.
    apply connect_server_ok in E3 as (H3 & _). by apply Hgo.
  - unfold remove_server. destruct (find_server_index st n) as [idx|]; [|done]. destruct (disconnect_server ports st idx w) as [st1 w1] eqn:E1.
    apply disconnect_ok in E1 as (Hc1 & _). destruct (refresh_all_metadata ports (remove_slots st1 idx) w1) as [st2 w2] eqn:E2.
    apply refresh_all_ok in E2 as ((Hc2 & _) & _). destruct (persist_configs ports st2 w2) as [r3 w3]. unfold drop_result, names. cbn [fst snd].
    rewrite Hc2. change (NoDup (map sc_name (remove_at idx (configs st1)))). rewrite Hc1. by apply names_remove.
Qed.
End names.

(** ** Examples *)

Module McpExecutorExamples.

Definition server (n : string) : McpServerConfig :=
  {| sc_name := n; sc_command := n; sc_args := []; sc_namespace := None; sc_enabled := true; sc_env := ∅; sc_env_secrets := ∅; sc_inherit_env := [];
     sc_http := None; sc_description := None |}.
Definition named (ns n : string) : McpServerConfig :=
  {| sc_name := n; sc_command := n; sc_args := []; sc_namespace := Some ns; sc_enabled := true; sc_env := ∅; sc_env_secrets := ∅; sc_inherit_env := [];
     sc_http := None; sc_description := None |}.

(** A client is the command it was spawned with; each offers one tool, [send],
    described by that command, and answers a call with the command and the tool.
    The world is whether the file can be written. *)
Definition send_of (c : string) : Tool := {| name := "send"; description := c; parameters := Object [] |}.
Definition toy : ExecPorts string bool := {|
  x_connect := λ (w : bool) (d : Dial), (match d with DialStdio command _ _ => Ok command | _ => Err NotConnected end, w);
  x_flags := λ _, no_flags;
  x_instructions := λ _, None;
  x_metadata := λ _, ServerMetadata_default;
  x_list_tools := λ w c, (Ok [send_of c], c, w);
  x_list_resources := λ w c, (Ok [], c, w);
  x_list_prompts := λ w c, (Ok [], c, w);
  x_call_tool := λ (w : bool) (c tool : string) _, (Ok (c +:+ "/" +:+ tool), c, w);
  x_shutdown := λ w _, w;
  x_save := λ (w : bool) _, (if w then Ok () else Err (UnexpectedResponse "read-only"), w);
  x_reindex := None;
  x_host_env := ∅
|}.

(** Every URL here is an https URL. *)
#[local] Program Instance https_urls : UrlParser := {| url_parse := λ _, inr {| url_scheme := "https"; url_host := Some (Domain "t") |} |}.
Next Obligation. cbn. intros raw u h Hu Hh. by simplify_eq/=. Qed.
Definition f4 (ip : Z) : string := EmptyString.
Definition f6 (ip : Z) : string := EmptyString.

Definition three : State string := history f4 f6 toy [named "mail" "a"; named "chat" "b"; named "bank" "c"] ∅ true [OpStart].
Definition run (st : State string) (tool : string) : result string string := (execute_tool toy st tool Null true).1.1.

Lemma three_run : run three "mail__send" = Ok "a/send" ∧ run three "chat__send" = Ok "b/send" ∧ run three "bank__send" = Ok "c/send".
Proof. by vm_compute. Qed.

(** A removal moves the later servers up before the routes are rebuilt: a call
    made in between is made on the next server. *)
Lemma a_call_during_a_removal_reaches_a_neighbour :
  let between := remove_slots (disconnect_server toy three 0 true).1 0 in
  run between "mail__send" = Ok "b/send" ∧ run between "chat__send" = Ok "c/send".
Proof. by vm_compute. Qed.

(** A start looks at the switch, lets go of it and connects: a server switched
    off in between is connected although it is disabled. *)
Lemma a_start_can_revive_a_disabled_server :
  let stopped := (drop_result (stop_server toy three (Some "a") true)).1 in
  let disabled := (drop_result (disable_server toy stopped "a" true)).1 in
  let connected := (connect_server f4 f6 toy disabled 0 true).1.2 in
  (sc_enabled <$> configs stopped !! 0) = Some true ∧ (sc_enabled <$> configs connected !! 0) = Some false ∧ (hd_client <$> slot connected 0) = Some "a".
Proof. by vm_compute. Qed.

(** Two servers without a namespace that offer a tool of one name: the schema
    shown is the first one's, the call goes to the second. *)
Lemma a_shared_name_mixes_two_servers :
  let st := history f4 f6 toy [server "a"; server "b"] ∅ true [OpStart] in
  (description <$> tool_definition st "send") = Some "a" ∧ run st "send" = Ok "b/send" ∧
  map (λ n, (ns_name n, map description (ns_tools n))) (namespaces_of st) = [("b", ["a"; "b"])].
Proof. by vm_compute. Qed.

(** A server that could not be written to the file is refused and stays: trying
    again is refused because it exists. *)
Lemma a_refused_server_stays :
  let '(r1, st1, _) := add_server f4 f6 toy (history f4 f6 toy [] ∅ true []) (server "a") false in
  let '(r2, _, _) := add_server f4 f6 toy st1 (server "a") true in
  r1 = Err (UnexpectedResponse "read-only") ∧ r2 = Err (UnexpectedResponse "server 'a' already exists").
Proof. by vm_compute. Qed.

(** The error of a removed server is told of the next server of that name. *)
Lemma an_error_outlives_its_server :
  let failing := history f4 f6 toy [] ∅ true [OpAdd (with_enabled true {|
    sc_name := "a"; sc_command := EmptyString; sc_args := []; sc_namespace := None; sc_enabled := true; sc_env := ∅; sc_env_secrets := {["V" := "missing"]};
    sc_inherit_env := []; sc_http := None; sc_description := None |}); OpRemove "a"; OpAdd (with_enabled false (server "a"))] in
  map (λ i, (si_status i, bool_decide (is_Some (si_detail i)))) (status "exe" failing (Some "a")) = [("disabled", true)].
Proof. by vm_compute. Qed.

(** A server that failed for want of its refresh token, which is then provided:
    with an inline OAuth block its error is forgotten, with a service account the
    same error is still told. *)
Definition inline_server : McpServerConfig :=
  {| sc_name := "s"; sc_command := EmptyString; sc_args := []; sc_namespace := None; sc_enabled := true; sc_env := ∅; sc_env_secrets := ∅; sc_inherit_env := [];
     sc_http := Some {| hc_url := "https://m"; hc_auth_bearer_secret := None;
                        hc_oauth := Some (effective (account_oauth {| hc_url := "https://m"; hc_auth_bearer_secret := None; hc_oauth := None; hc_oauth_account := None; hc_scopes := [] |} McpConfigExamples.work));
                        hc_oauth_account := None; hc_scopes := [] |};
     sc_description := None |}.
Definition account_server : McpServerConfig :=
  {| sc_name := "s"; sc_command := EmptyString; sc_args := []; sc_namespace := None; sc_enabled := true; sc_env := ∅; sc_env_secrets := ∅; sc_inherit_env := [];
     sc_http := Some {| hc_url := "https://m"; hc_auth_bearer_secret := None; hc_oauth := None; hc_oauth_account := Some "work"; hc_scopes := [] |};
     sc_description := None |}.
Lemma an_accounts_sign_in_is_not_noticed :
  let after c := map si_status (status "exe" (history f4 f6 toy [c] ∅ true [OpAccounts [McpConfigExamples.work]; OpStart; OpSecrets {["r" := "token"]}]) None) in
  after inline_server = ["stopped"] ∧ after account_server = ["error"].
Proof. by vm_compute. Qed.

(** *** Witnesses *)

Lemma a_call_alone_reaches_an_enabled_server_witness :
  ∃ idx c original, configs three !! idx = Some c ∧ sc_enabled c = true ∧ "chat__send" = expose (sc_namespace c) original.
Proof.
  destruct (a_call_alone_reaches_an_enabled_server f4 f6 toy [named "mail" "a"; named "chat" "b"; named "bank" "c"] ∅ true [OpStart] "chat__send" Null true
    "b/send" (execute_tool toy three "chat__send" Null true).1.2 true ltac:(by vm_compute)) as (idx & c & h & original & st1 & w2 & client & Hm & Hc & He & Hn & _).
  exists idx, c, original. split; [|split; [exact He|exact Hn]].
  assert (Hst : configs st1 = configs three); [|rewrite <- Hst; exact Hc].
  apply (f_equal (λ x, configs x.1)) in Hm. cbn [fst] in Hm. rewrite <- Hm. by vm_compute.
Defined.

Lemma a_disabled_server_is_out_of_reach_witness :
  slot (disable_server toy three "b" false).1.2 1 = None ∧ (disable_server toy three "b" false).1.1 = Err (UnexpectedResponse "read-only").
Proof.
  split; [|by vm_compute].
  destruct (a_disabled_server_is_out_of_reach f4 f6 toy [named "mail" "a"; named "chat" "b"; named "bank" "c"] ∅ true [OpStart] "b" false
    (Err (UnexpectedResponse "read-only")) (disable_server toy three "b" false).1.2 false 1 ltac:(by vm_compute) ltac:(by vm_compute)) as [H' _].
  exact H'.
Defined.

Lemma namespaces_partition_the_tools_witness :
  (tool_namespaces toy three true).1.1 ≫= ns_tools ≡ₚ cached_tools (tool_namespaces toy three true).1.2 ∧ length (cached_tools three) = 3.
Proof.
  split; [|by vm_compute].
  apply (namespaces_partition_the_tools f4 f6 toy [named "mail" "a"; named "chat" "b"; named "bank" "c"] ∅ true [OpStart] true _ _ true). by vm_compute.
Defined.

Definition with_secret (n : string) : McpServerConfig :=
  {| sc_name := n; sc_command := n; sc_args := []; sc_namespace := None; sc_enabled := true; sc_env := {["A" := "1"]}; sc_env_secrets := {["V" := "key"]};
     sc_inherit_env := []; sc_http := None; sc_description := None |}.

Lemma a_server_gets_only_its_own_secrets_witness :
  dial_of ∅ f4 f6 {["key" := "s"; "other" := "x"]} [] (with_secret "a") = dial_of ∅ f4 f6 {["key" := "s"]} [] (with_secret "a").
Proof.
  apply (a_server_gets_only_its_own_secrets ∅ f4 f6 [] (with_secret "a") {["key" := "s"; "other" := "x"]}).
  intros id Hid. assert (Hk : id = "key") by (vm_compute in Hid; by apply list_elem_of_singleton in Hid). rewrite Hk. by vm_compute.
Defined.

Lemma a_childs_environment_is_its_configuration_witness :
  child_env {["HOME" := "/h"; "KEY" := "k"]} (<["V" := "s"]> {["A" := "1"]}) !! "V" = Some "s".
Proof.
  rewrite (a_childs_environment_is_its_configuration {["HOME" := "/h"; "KEY" := "k"]} f4 f6 [] (with_secret "a") {["key" := "s"]} "a" [] (<["V" := "s"]> {["A" := "1"]}) "V"
    ltac:(by vm_compute)). by vm_compute.
Defined.

Lemma the_status_tells_the_truth_witness : ∃ line, status "exe" three None !! 1 = Some line ∧ si_name line = "b".
Proof.
  destruct (the_status_tells_the_truth f4 f6 "exe" toy [named "mail" "a"; named "chat" "b"; named "bank" "c"] ∅ true [OpStart] 1 (named "chat" "b")
    ltac:(by vm_compute)) as (line & Hl & Hn & _).
  exists line. split; [exact Hl|exact Hn].
Defined.

Lemma a_status_tells_no_secret_witness :
  status "exe" (set_secrets {["k" := "old"]} three) None = status "exe" (set_secrets {["k" := "new"]} three) None.
Proof.
  apply (a_status_tells_no_secret "exe" three {["k" := "old"]} {["k" := "new"]} None). intros id. rewrite !lookup_singleton_is_Some. done.
Defined.

Lemma names_stay_unique_witness : NoDup (names (drop_result (upsert_server f4 f6 toy three (server "b") true)).1).
Proof.
  apply (names_stay_unique f4 f6 toy three (server "b") "b" true). apply (bool_decide_unpack _). by vm_compute.
Defined.
End McpExecutorExamples.
