(* ===== verification/McpConcurrency.v ===== *)
(** * Tool calls while the servers change

    The control operations of [crates/mcp-client/src/executor.rs] let go of their
    locks between the steps [McpExecutor] makes of them, and a tool call takes its
    route and its client under two locks.  Here the steps under one lock are the
    steps of a relation, in any order and of any number of operations at once, and
    what a call then reaches is decided.  Every operation of [McpExecutor] is a
    sequence of such steps; a removal, which shifts the servers behind it, is
    taken whole, and must not overlap the call
    ([a_call_during_a_removal_reaches_a_neighbour] is what happens when it
    does). *)

From S2P Require Import Prelude Json TaskStore ToolRouting UrlPolicy OAuth McpWire McpConfig McpExecutor.

#[local] Open Scope nat_scope.
#[local] Set Default Proof Using "Type".

Section interleaving.
Context `{!UrlParser} (ipv4_text ipv6_text : Z → string).
Context {C W : Type} (ports : ExecPorts C W).
Implicit Types st : State C.

(** ** Whose client a client is *)

(** A client after one request on it. *)
Inductive used (cl : C) : C → Prop :=
| used_tools w r cl' w' : x_list_tools ports w cl = (r, cl', w') → used cl cl'
| used_resources w r cl' w' : x_list_resources ports w cl = (r, cl', w') → used cl cl'
| used_prompts w r cl' w' : x_list_prompts ports w cl = (r, cl', w') → used cl cl'
| used_call w tool arguments r cl' w' : x_call_tool ports w cl tool arguments = (r, cl', w') → used cl cl'.

(** A client that was connected from a configuration of the server of that
    name. *)
Inductive dialled (n : string) : C → Prop :=
| dialled_new st c w cl w' :
    connect_client ipv4_text ipv6_text ports st c w = (Ok cl, w') → sc_name c = n → dialled n cl
| dialled_used cl cl' : dialled n cl → used cl cl' → dialled n cl'.

(** ** The steps under one lock

    [seen] is every configuration an index has had since the last removal:
    connecting and refreshing go by what they read before. *)

Definition Shared : Type := State C * list (nat * McpServerConfig).

Inductive locked_step : Shared → Shared → Prop :=
| ls_connect st seen idx c cl :
    (idx, c) ∈ seen → dialled (sc_name c) cl →
    locked_step (st, seen) (set_clients (<[idx := Some (new_handle ports cl)]> (clients st)) st, seen)
| ls_disconnect st seen idx :
    locked_step (st, seen) (set_clients (<[idx := None]> (clients st)) st, seen)
| ls_shutdown st seen :
    locked_step (st, seen) (set_clients (map (λ _, None) (clients st)) st, seen)
| ls_used st seen idx h cl :
    slot st idx = Some h → used (hd_client h) cl → locked_step (st, seen) (put_client idx cl st, seen)
| ls_tools st seen tools routes :
    (∀ tool idx original, routes !! tool = Some (idx, original) →
       ∃ c, (idx, c) ∈ seen ∧ tool = expose (sc_namespace c) original) →
    locked_step (st, seen) (set_tools tools routes st, seen)
| ls_add st seen c :
    locked_step (st, seen)
      (set_clients (clients st ++ [None]) (set_configs (configs st ++ [c]) st), (length (configs st), c) :: seen)
| ls_replace st seen idx c c' :
    configs st !! idx = Some c' → sc_name c = sc_name c' →
    locked_step (st, seen) (set_configs (<[idx := c]> (configs st)) st, (idx, c) :: seen)
| ls_rest st st' seen :
    configs st' = configs st → clients st' = clients st → tool_routing st' = tool_routing st →
    locked_step (st, seen) (st', seen).

(** A removal on its own: nothing read before it is used after it. *)
Inductive any_step : Shared → Shared → Prop :=
| as_locked s s' : locked_step s s' → any_step s s'
| as_removal st seen n w st' :
    is_Some (find_server_index st n) → (drop_result (remove_server ports st n w)).1 = st' → any_step (st, seen) (st', imap pair (configs st')).

Definition started (cs : list McpServerConfig) (ss : gmap string string) : Shared := (initial cs ss, imap pair cs).

(** A call's two reads: the route, and later the client. *)
Definition route_of st (tool : string) : option (nat * string) := tool_routing st !! tool.

Definition call_at st (route : nat * string) (tool : string) (arguments : Value) (w : W) : result string string * State C * W :=
  match slot st route.1 with
  | None => (Err ("MCP server for tool '" +:+ tool +:+ "' is not connected"), st, w)
  | Some h =>
      let '(r, client, w) := x_call_tool ports w (hd_client h) route.2 arguments in
      (match r with Ok s => Ok s | Err e => Err ("tool '" +:+ tool +:+ "' failed: " +:+ mcp_error_to_string e) end, put_client route.1 client st, w)
  end.

(** With nothing in between, the two reads are [execute_tool]. *)
Lemma execute_tool_reads st tool arguments w :
  execute_tool ports st tool arguments w =
  (let '(st, w) := maybe_refresh_metadata ports st w in
   match route_of st tool with
   | None => (Err (unknown_tool st tool), st, w)
   | Some route => call_at st route tool arguments w
   end).
Proof.
  unfold execute_tool, call_routed, route_of, call_at. destruct (maybe_refresh_metadata ports st w) as [st1 w1].
  by destruct (tool_routing st1 !! tool) as [[idx original]|].
Qed.

(** ** What the steps keep *)

(** The client in a slot was dialled for the server that is configured there. *)
Definition slots_dialled st : Prop := ∀ idx h, slot st idx = Some h →
  ∃ c, configs st !! idx = Some c ∧ dialled (sc_name c) (hd_client h).

Record coherent (s : Shared) : Prop := {
  co_length : length (clients s.1) = length (configs s.1);
  co_seen idx c : configs s.1 !! idx = Some c → (idx, c) ∈ s.2;
  co_names idx c : (idx, c) ∈ s.2 → ∃ c', configs s.1 !! idx = Some c' ∧ sc_name c' = sc_name c;
  co_slots : slots_dialled s.1;
  co_routes tool idx original : tool_routing s.1 !! tool = Some (idx, original) →
    ∃ c, (idx, c) ∈ s.2 ∧ tool = expose (sc_namespace c) original
}.

Lemma elem_of_indexed (cs : list McpServerConfig) idx c : (idx, c) ∈ imap pair cs ↔ cs !! idx = Some c.
Proof.
  split; [apply elem_of_imap_pair|]. intros Hc. apply elem_of_lookup_imap. by exists idx, c.
Qed.

Lemma started_coherent cs ss : coherent (started cs ss).
Proof.
  unfold started. split; cbn [fst snd].
  - cbn. apply length_replicate.
  - intros idx c Hc. by apply elem_of_indexed.
  - intros idx c Hc%elem_of_indexed. by exists c.
  - intros idx h. unfold slot. cbn. destruct (replicate (length cs) None !! idx) as [x|] eqn:E; [|done].
    apply lookup_replicate in E as [-> _]. done.
  - intros tool idx original. cbn. by rewrite lookup_empty.
Qed.

Lemma put_client_slot st idx cl j h :
  slot (put_client idx cl st) j = Some h → ∃ h0, slot st j = Some h0 ∧ (hd_client h = hd_client h0 ∨ j = idx ∧ hd_client h = cl).
Proof.
  unfold put_client. destruct (slot st idx) as [h0|] eqn:Ei; [|by eauto]. rewrite slot_insert. case_decide as Hd; [|by eauto].
  destruct Hd as [<- _]. intros [= <-]. exists h0. by split; [|right].
Qed.

Lemma put_client_dialled st idx cl h :
  slot st idx = Some h → used (hd_client h) cl → slots_dialled st → slots_dialled (put_client idx cl st).
Proof.
  intros Hi Hu Hs j h' (h0 & Hh0 & Hcl)%put_client_slot. destruct (Hs j h0 Hh0) as (c & Hc & Hd).
  exists c. rewrite (proj1 (put_client_shape idx cl st)). split; [done|]. destruct Hcl as [->|[-> ->]]; [done|].
  assert (h0 = h) as -> by congruence. by eapply dialled_used.
Qed.

Lemma locked_step_coherent s s' : locked_step s s' → coherent s → coherent s'.
Proof.
  intros Hstep [Hlen Hseen Hnames Hslots Hroutes]. destruct Hstep as
    [st seen idx c cl Hin Hd|st seen idx|st seen|st seen idx h cl Hi Hu|st seen tools routes Hr|st seen c|st seen idx c c' Hc Hn|st st' seen Hc Hcl Hr];
    cbn [fst snd] in *.
  - split; cbn [fst snd]; try done; [cbn; by rewrite length_insert|]. intros j h. rewrite slot_insert.
    case_decide as Hdec; [|apply Hslots]. destruct Hdec as [<- _]. intros [= <-]. destruct (Hnames _ _ Hin) as (c1 & Hc1 & Heq).
    exists c1. split; [done|]. by rewrite Heq.
  - split; cbn [fst snd]; try done; [cbn; by rewrite length_insert|]. intros j h. rewrite slot_insert. case_decide; [done|apply Hslots].
  - split; cbn [fst snd]; try done; [cbn; by rewrite length_map|]. intros j h. unfold slot. cbn. rewrite list_lookup_fmap.
    by destruct (clients st !! j).
  - pose proof (put_client_shape idx cl st) as (Ec & El & _). destruct (put_client_caches idx cl st) as [_ Er].
    split; cbn [fst snd]; rewrite ?Ec, ?El, ?Er; try done. by eapply put_client_dialled.
  - split; cbn [fst snd]; try done.
  - assert (Hs : ∀ j h, slot (set_clients (clients st ++ [None]) (set_configs (configs st ++ [c]) st)) j = Some h → slot st j = Some h).
    { unfold slot. cbn [set_clients clients]. intros j h Hh. rewrite lookup_app in Hh. destruct (clients st !! j) as [x|] eqn:E; [done|].
      destruct (j - length (clients st)) as [|k]; simpl in Hh; [done|]. by destruct k. }
    split; cbn [fst snd].
    + cbn. rewrite !length_app. simpl. lia.
    + cbn [configs set_clients set_configs]. intros j c1 [Hj|[Hge Hj]]%lookup_app_Some; [right; by apply Hseen|].
      destruct (j - length (configs st)) as [|k] eqn:Ek; [|by destruct k]. injection Hj as <-. assert (j = length (configs st)) as -> by lia. left.
    + cbn [configs set_clients set_configs]. intros j c1 [[= -> ->]|Hin]%elem_of_cons.
      * exists c. split; [|done]. by rewrite lookup_app_r, Nat.sub_diag.
      * destruct (Hnames _ _ Hin) as (c2 & Hc2 & He). exists c2. split; [|done]. by apply lookup_app_l_Some.
    + intros j h Hh%Hs. destruct (Hslots _ _ Hh) as (c1 & Hc1 & Hd). exists c1. split; [|done]. cbn. by apply lookup_app_l_Some.
    + intros tool j original Hl. destruct (Hroutes tool j original Hl) as (c1 & Hc1 & ->). exists c1. split; [by right|done].
  - split; cbn [fst snd].
    + cbn. by rewrite length_insert.
    + cbn [configs set_configs]. intros j c1 Hj. apply list_lookup_insert_Some in Hj as [(-> & -> & _)|[_ Hj]]; [by left|right; by apply Hseen].
    + assert (Hkeep : ∀ j c1, configs st !! j = Some c1 → ∃ c2, <[idx := c]> (configs st) !! j = Some c2 ∧ sc_name c2 = sc_name c1).
      { intros j c1 Hj. destruct (decide (idx = j)) as [<-|Hne]; [|exists c1; by rewrite list_lookup_insert_ne].
        exists c. rewrite list_lookup_insert_eq by (by eapply lookup_lt_Some). split; [done|]. congruence. }
      cbn [configs set_configs]. intros j c1 [[= -> ->]|Hin]%elem_of_cons.
      * exists c. split; [|done]. apply list_lookup_insert_eq. by eapply lookup_lt_Some.
      * destruct (Hnames _ _ Hin) as (c2 & Hc2 & He). destruct (Hkeep _ _ Hc2) as (c3 & Hc3 & He'). exists c3. split; [done|congruence].
    + intros j h Hh. destruct (Hslots j h Hh) as (c1 & Hc1 & Hd). cbn [configs set_configs]. destruct (decide (idx = j)) as [<-|Hne].
      * exists c. rewrite list_lookup_insert_eq by (by eapply lookup_lt_Some). split; [done|]. rewrite Hn. congruence.
      * exists c1. by rewrite list_lookup_insert_ne.
    + intros tool j original Hl. destruct (Hroutes tool j original Hl) as (c1 & Hc1 & ->). exists c1. split; [by right|done].
  - split; cbn [fst snd]; rewrite ?Hc, ?Hcl, ?Hr; try done. intros j h Hh. unfold slot in Hh. rewrite Hcl in Hh. rewrite Hc. by apply Hslots.
Qed.

(** *** A removal *)

Lemma gather_items_dialled f targets acc st (w : W) acc' st' w' :
  (∀ w cl r cl' w', f w cl = (r, cl', w') → used cl cl') →
  gather_items f targets acc st w = (acc', st', w') → slots_dialled st → slots_dialled st'.
Proof.
  intros Hf. revert acc st w. induction targets as [|[idx c] rest IH]; intros acc st w Hg Hs; cbn [gather_items] in Hg; [by simplify_eq|].
  destruct (slot st idx) as [h|] eqn:Eh; [|by eapply IH]. destruct (f w (hd_client h)) as [[r client] w1] eqn:Ef.
  eapply IH; [exact Hg|]. eapply put_client_dialled; [done| |done]. by eapply Hf.
Qed.

Lemma gather_tools_dialled targets acc st w acc' st' w' :
  gather_tools ports targets acc st w = (acc', st', w') → slots_dialled st → slots_dialled st'.
Proof.
  revert acc st w. induction targets as [|[idx c] rest IH]; intros acc st w Hg Hs; cbn [gather_tools] in Hg; [by simplify_eq|].
  destruct (slot st idx) as [h|] eqn:Eh; [|by eapply IH]. destruct (x_list_tools ports w (hd_client h)) as [[r client] w1] eqn:Ef.
  eapply IH; [exact Hg|]. eapply put_client_dialled; [done| |done]. by eapply used_tools.
Qed.

Lemma refresh_all_dialled st w st' w' : refresh_all_metadata ports st w = (st', w') → slots_dialled st → slots_dialled st'.
Proof.
  unfold refresh_all_metadata, refresh_tool_cache, refresh_resources_cache, refresh_prompts_cache.
  destruct (gather_tools _ _ _ st w) as [[acc1 st1] w1] eqn:E1.
  destruct (gather_items _ _ _ (set_tools _ _ st1) w1) as [[acc2 st2] w2] eqn:E2.
  destruct (gather_items _ _ _ (set_resources _ st2) w2) as [[acc3 st3] w3] eqn:E3. intros HH Hs. simplify_eq.
  apply gather_tools_dialled in E1; [|done].
  apply gather_items_dialled in E2; [|by intros; eapply used_resources|exact E1].
  apply gather_items_dialled in E3; [exact E3|by intros; eapply used_prompts|exact E2].
Qed.

Lemma removal_coherent st seen n w :
  is_Some (find_server_index st n) → coherent (st, seen) →
  let st' := (drop_result (remove_server ports st n w)).1 in coherent (st', imap pair (configs st')).
Proof.
  intros [idx Hi] [Hlen _ _ Hslots _]. cbn [fst] in *. unfold remove_server. rewrite Hi.
  destruct (disconnect_server ports st idx w) as [st1 w1] eqn:E1. destruct (refresh_all_metadata ports (remove_slots st1 idx) w1) as [st2 w2] eqn:E2.
  destruct (persist_configs ports st2 w2) as [r w3]. cbn [drop_result fst snd].
  destruct (disconnect_ok _ _ _ _ _ _ E1) as (Hc1 & Hl1 & _). destruct (refresh_all_ok _ _ _ _ _ E2) as ((Hc2 & Hl2 & _) & Hf & _).
  assert (Hs2 : slots_dialled st2).
  { eapply refresh_all_dialled; [exact E2|]. intros j h Hh. change (mjoin (remove_at idx (clients st1) !! j) = Some h) in Hh. rewrite lookup_remove_at in Hh.
    change (slot st1 (if j <? idx then j else S j) = Some h) in Hh. destruct (disconnect_slots _ _ _ _ _ _ _ _ E1 Hh) as [Hh0 _].
    destruct (Hslots _ _ Hh0) as (c & Hc & Hd). exists c. split; [|done]. cbn. by rewrite lookup_remove_at, Hc1. }
  split; cbn [fst snd].
  - rewrite Hl2, Hc2. cbn. unfold remove_at. rewrite !length_app, !length_take, !length_drop. rewrite Hl1, Hc1. lia.
  - intros j c Hc. by apply elem_of_indexed.
  - intros j c Hc%elem_of_indexed. by exists c.
  - exact Hs2.
  - intros tool j original Hl. destruct (Hf _ _ _ Hl) as (c & Hc & _ & He). exists c. split; [by apply elem_of_indexed|done].
Qed.

Lemma any_step_coherent s s' : any_step s s' → coherent s → coherent s'.
Proof. destruct 1 as [s s' Hs|st seen n w st' Hi <-]; [by apply locked_step_coherent|by eapply removal_coherent]. Qed.

Lemma run_coherent cs ss s : rtc any_step (started cs ss) s → coherent s.
Proof.
  intros Hr. assert (H0 : coherent (started cs ss)) by apply started_coherent. revert H0.
  induction Hr as [|s1 s2 s3 Hs _ IH]; [done|]. intros Hc. apply IH. by eapply any_step_coherent.
Qed.

Lemma locked_coherent s s' : rtc locked_step s s' → coherent s → coherent s'.
Proof. induction 1 as [|s1 s2 s3 Hs _ IH]; [done|]. intros Hc. apply IH. by eapply locked_step_coherent. Qed.

Lemma locked_seen s s' : rtc locked_step s s' → ∀ ic, ic ∈ s.2 → ic ∈ s'.2.
Proof. induction 1 as [|s1 s2 s3 Hs _ IH]; [done|]. intros ic Hic. apply IH. destruct Hs; cbn [snd] in *; try done; by right. Qed.

(** ** The operations are made of such steps *)

Definition reaches st st' : Prop := ∀ seen, coherent (st, seen) → ∃ seen', rtc locked_step (st, seen) (st', seen').

#[local] Instance reaches_preorder : PreOrder reaches.
Proof.
  split; [intros st seen _; exists seen; reflexivity|]. intros st1 st2 st3 H12 H23 seen Hc.
  destruct (H12 seen Hc) as [seen2 Hr]. destruct (H23 seen2) as [seen3 Hr']; [by eapply locked_coherent|]. exists seen3. by etrans.
Qed.

Lemma reaches_rest st st' :
  configs st' = configs st → clients st' = clients st → tool_routing st' = tool_routing st → reaches st st'.
Proof. intros Hc Hcl Hr seen _. exists seen. apply rtc_once. by apply ls_rest. Qed.

Lemma connect_reaches st idx w r st' w' : connect_server ipv4_text ipv6_text ports st idx w = (r, st', w') → reaches st st'.
Proof.
  unfold connect_server. destruct (configs st !! idx) as [c|] eqn:Ec; [|intros HH; by simplify_eq].
  destruct (connect_client ipv4_text ipv6_text ports st c w) as [[client|e] w1] eqn:Ek; intros HH; simplify_eq; [|by apply reaches_rest].
  transitivity (set_clients (<[idx := Some (new_handle ports client)]> (clients st)) st); [|by apply reaches_rest].
  intros seen Hco. exists seen. apply rtc_once. eapply ls_connect; [by apply (co_seen _ Hco)|by eapply dialled_new].
Qed.

Lemma disconnect_reaches st idx w st' w' : disconnect_server ports st idx w = (st', w') → reaches st st'.
Proof.
  unfold disconnect_server. destruct (slot st idx) as [h|]; intros HH; simplify_eq; [|done]. intros seen _. exists seen. apply rtc_once, ls_disconnect.
Qed.

Lemma put_reaches st idx h cl : slot st idx = Some h → used (hd_client h) cl → reaches st (put_client idx cl st).
Proof. intros Hi Hu seen _. exists seen. apply rtc_once. by eapply ls_used. Qed.

Lemma gather_items_reaches f targets acc st (w : W) acc' st' w' :
  (∀ w cl r cl' w', f w cl = (r, cl', w') → used cl cl') →
  gather_items f targets acc st w = (acc', st', w') → reaches st st'.
Proof.
  intros Hf. revert acc st w. induction targets as [|[idx c] rest IH]; intros acc st w Hg; cbn [gather_items] in Hg; [by simplify_eq|].
  destruct (slot st idx) as [h|] eqn:Eh; [|by eapply IH]. destruct (f w (hd_client h)) as [[r client] w1] eqn:Ef.
  etrans; [eapply put_reaches; [done|by eapply Hf]|by eapply IH].
Qed.

Lemma gather_tools_reaches targets acc st w acc' st' w' : gather_tools ports targets acc st w = (acc', st', w') → reaches st st'.
Proof.
  revert acc st w. induction targets as [|[idx c] rest IH]; intros acc st w Hg; cbn [gather_tools] in Hg; [by simplify_eq|].
  destruct (slot st idx) as [h|] eqn:Eh; [|by eapply IH]. destruct (x_list_tools ports w (hd_client h)) as [[r client] w1] eqn:Ef.
  etrans; [eapply put_reaches; [done|by eapply used_tools]|by eapply IH].
Qed.

Lemma refresh_tools_reaches st w st' w' : refresh_tool_cache ports st w = (st', w') → reaches st st'.
Proof.
  intros HH. pose proof (refresh_tools_ok _ _ _ _ _ HH) as (_ & Hf & _). revert HH. unfold refresh_tool_cache.
  destruct (gather_tools ports _ _ st w) as [[acc st1] w1] eqn:E1. intros HH. simplify_eq. apply gather_tools_reaches in E1.
  etrans; [exact E1|]. intros seen Hco. exists seen. apply rtc_once, ls_tools. intros tool idx original Hl.
  destruct (Hf _ _ _ Hl) as (c & Hc & _ & He). exists c. split; [by apply (co_seen _ Hco)|done].
Qed.

Lemma refresh_resources_reaches st w st' w' : refresh_resources_cache ports st w = (st', w') → reaches st st'.
Proof.
  unfold refresh_resources_cache. destruct (gather_items _ _ _ st w) as [[acc st1] w1] eqn:E1. intros HH. simplify_eq.
  apply gather_items_reaches in E1; [|by intros; eapply used_resources]. etrans; [exact E1|by apply reaches_rest].
Qed.

Lemma refresh_prompts_reaches st w st' w' : refresh_prompts_cache ports st w = (st', w') → reaches st st'.
Proof.
  unfold refresh_prompts_cache. destruct (gather_items _ _ _ st w) as [[acc st1] w1] eqn:E1. intros HH. simplify_eq.
  apply gather_items_reaches in E1; [|by intros; eapply used_prompts]. etrans; [exact E1|by apply reaches_rest].
Qed.

Lemma refresh_all_reaches st w st' w' : refresh_all_metadata ports st w = (st', w') → reaches st st'.
Proof.
  unfold refresh_all_metadata. destruct (refresh_tool_cache ports st w) as [st1 w1] eqn:E1.
  destruct (refresh_resources_cache ports st1 w1) as [st2 w2] eqn:E2. intros E3. etrans; [by eapply refresh_tools_reaches|].
  etrans; [by eapply refresh_resources_reaches|by eapply refresh_prompts_reaches].
Qed.

Lemma maybe_refresh_reaches st w st' w' : maybe_refresh_metadata ports st w = (st', w') → reaches st st'.
Proof.
  assert (Hif : ∀ (b : bool) (f : State C → W → State C * W) st w st' w', (∀ st w st' w', f st w = (st', w') → reaches st st') →
    (if b then f st w else (st, w)) = (st', w') → reaches st st').
  { intros [] f s0 w0 s1 w1 Hf HH; [by eapply Hf|by simplify_eq]. }
  unfold maybe_refresh_metadata. destruct (if any_flag ports fl_tools st then _ else _) as [st1 w1] eqn:E1.
  destruct (if any_flag ports fl_resources st then _ else _) as [st2 w2] eqn:E2. intros E3.
  etrans; [eapply (Hif _ (refresh_tool_cache ports)); [by apply refresh_tools_reaches|exact E1]|].
  etrans; [eapply (Hif _ (refresh_resources_cache ports)); [by apply refresh_resources_reaches|exact E2]|].
  eapply (Hif _ (refresh_prompts_cache ports)); [by apply refresh_prompts_reaches|exact E3].
Qed.

Lemma replace_reaches st idx c c' :
  configs st !! idx = Some c' → sc_name c = sc_name c' → reaches st (set_configs (<[idx := c]> (configs st)) st).
Proof. intros Hc Hn seen _. eexists. apply rtc_once. by eapply ls_replace. Qed.

Lemma enabled_reaches st idx b : reaches st (set_enabled idx b st).
Proof.
  destruct (configs st !! idx) as [c|] eqn:Ec.
  - etrans; [by apply (replace_reaches st idx (with_enabled b c) c)|]. apply reaches_rest; try done. cbn.
    apply list_eq. intros j. destruct (decide (idx = j)) as [<-|Hne].
    + rewrite list_lookup_alter_eq, Ec, list_lookup_insert_eq by (by eapply lookup_lt_Some). done.
    + by rewrite list_lookup_alter_ne, list_lookup_insert_ne.
  - apply reaches_rest; try done. cbn. apply list_eq. intros j. destruct (decide (idx = j)) as [<-|Hne];
      [by rewrite list_lookup_alter_eq, Ec|by rewrite list_lookup_alter_ne].
Qed.

Lemma start_each_reaches indices started st w started' st' w' :
  start_each ipv4_text ipv6_text ports indices started st w = (started', st', w') → reaches st st'.
Proof.
  revert started st w. induction indices as [|idx rest IH]; intros started st w Hg; cbn [start_each] in Hg; [by simplify_eq|].
  destruct (configs st !! idx) as [c|]; [|by eapply IH]. destruct (negb _); [by eapply IH|]. destruct (slot st idx); [by eapply IH|].
  destruct (connect_server ipv4_text ipv6_text ports st idx w) as [[r st1] w1] eqn:E1. etrans; [by eapply connect_reaches|by eapply IH].
Qed.

Lemma start_all_reaches targets st w st' w' : start_all ipv4_text ipv6_text ports targets st w = (st', w') → reaches st st'.
Proof.
  revert st w. induction targets as [|[idx c] rest IH]; intros st w Hg; cbn [start_all] in Hg; [by simplify_eq|].
  destruct (negb _); [by eapply IH|]. destruct (connect_server ipv4_text ipv6_text ports st idx w) as [[r st1] w1] eqn:E1.
  etrans; [by eapply connect_reaches|by eapply IH].
Qed.

Lemma stop_each_reaches indices stopped st w stopped' st' w' :
  stop_each ports indices stopped st w = (stopped', st', w') → reaches st st'.
Proof.
  revert stopped st w. induction indices as [|idx rest IH]; intros stopped st w Hg; cbn [stop_each] in Hg; [by simplify_eq|].
  destruct (slot st idx); [|by eapply IH]. destruct (disconnect_server ports st idx w) as [st1 w1] eqn:E1.
  etrans; [by eapply disconnect_reaches|by eapply IH].
Qed.

Lemma start_server_reaches st server w r st' w' : start_server ipv4_text ipv6_text ports st server w = (r, st', w') → reaches st st'.
Proof.
  unfold start_server. destruct (resolve_indices st server); [|intros HH; by simplify_eq].
  destruct (start_each _ _ ports _ [] st w) as [[started st1] w1] eqn:E1. destruct (refresh_all_metadata ports st1 w1) as [st2 w2] eqn:E2.
  intros HH. simplify_eq. etrans; [by eapply start_each_reaches|by eapply refresh_all_reaches].
Qed.

Lemma stop_server_reaches st server w r st' w' : stop_server ports st server w = (r, st', w') → reaches st st'.
Proof.
  unfold stop_server. destruct (resolve_indices st server); [|intros HH; by simplify_eq].
  destruct (stop_each ports _ [] st w) as [[stopped st1] w1] eqn:E1. destruct (refresh_all_metadata ports st1 w1) as [st2 w2] eqn:E2.
  intros HH. simplify_eq. etrans; [by eapply stop_each_reaches|by eapply refresh_all_reaches].
Qed.

Lemma connect_and_refresh_reaches st idx w st' w' : connect_and_refresh ipv4_text ipv6_text ports st idx w = (st', w') → reaches st st'.
Proof.
  unfold connect_and_refresh. destruct (connect_server _ _ ports st idx w) as [[r st1] w1] eqn:E1. intros E2.
  etrans; [by eapply connect_reaches|by eapply refresh_all_reaches].
Qed.

Lemma add_server_reaches st c w r st' w' : add_server ipv4_text ipv6_text ports st c w = (r, st', w') → reaches st st'.
Proof.
  unfold add_server. destruct (existsb _ _); [intros HH; by simplify_eq|]. set (st1 := set_clients _ _).
  assert (H1 : reaches st st1) by (intros seen _; eexists; apply rtc_once, ls_add).
  destruct (persist_configs ports st1 w) as [[[]|e] w1]; [|intros HH; by simplify_eq]. destruct (sc_enabled c); [|intros HH; by simplify_eq].
  destruct (connect_and_refresh _ _ ports st1 _ w1) as [st2 w2] eqn:E2. intros HH. simplify_eq. etrans; [exact H1|by eapply connect_and_refresh_reaches].
Qed.

Lemma upsert_server_reaches st c w r st' w' : upsert_server ipv4_text ipv6_text ports st c w = (r, st', w') → reaches st st'.
Proof.
  unfold upsert_server. destruct (find_server_index st (sc_name c)) as [idx|] eqn:Ei; [|by apply add_server_reaches].
  unfold find_server_index in Ei. destruct (list_find _ _) as [[i c']|] eqn:El; [|done]. injection Ei as ->. apply list_find_Some in El as (Hl & Hn & _).
  destruct (disconnect_server ports st idx w) as [st1 w1] eqn:E1. destruct (disconnect_ok _ _ _ _ _ _ E1) as (Hc1 & _). apply disconnect_reaches in E1.
  set (st2 := set_configs _ _).
  assert (H2 : reaches st st2).
  { etrans; [exact E1|]. etrans; [by apply (reaches_rest st1 (clear_connect_error (sc_name c) st1))|].
    apply (replace_reaches (clear_connect_error (sc_name c) st1) idx c c'); [|done]. cbn. by rewrite Hc1. }
  destruct (persist_configs ports st2 w1) as [[[]|e] w2]; [|intros HH; by simplify_eq]. destruct (sc_enabled c).
  - destruct (connect_server _ _ ports st2 idx w2) as [[r3 st3] w3] eqn:E3. destruct (refresh_all_metadata ports st3 w3) as [st4 w4] eqn:E4.
    intros HH. simplify_eq. etrans; [exact H2|]. etrans; [by eapply connect_reaches|by eapply refresh_all_reaches].
  - destruct (refresh_all_metadata ports st2 w2) as [st4 w4] eqn:E4. intros HH. simplify_eq. etrans; [exact H2|by eapply refresh_all_reaches].
Qed.

Lemma enable_server_reaches st n w r st' w' : enable_server ipv4_text ipv6_text ports st n w = (r, st', w') → reaches st st'.
Proof.
  unfold enable_server. destruct (find_server_index st n) as [idx|]; [|intros HH; by simplify_eq]. pose proof (enabled_reaches st idx true) as H1.
  destruct (persist_configs ports _ w) as [[[]|e] w1]; [|intros HH; by simplify_eq].
  destruct (connect_and_refresh _ _ ports _ idx w1) as [st2 w2] eqn:E2. intros HH. simplify_eq. etrans; [exact H1|by eapply connect_and_refresh_reaches].
Qed.

Lemma disable_server_reaches st n w r st' w' : disable_server ports st n w = (r, st', w') → reaches st st'.
Proof.
  unfold disable_server. destruct (find_server_index st n) as [idx|]; [|intros HH; by simplify_eq].
  destruct (disconnect_server ports st idx w) as [st1 w1] eqn:E1. destruct (refresh_all_metadata ports _ w1) as [st2 w2] eqn:E2.
  destruct (persist_configs ports st2 w2) as [[[]|e] w3]; intros HH; simplify_eq;
    (etrans; [by eapply disconnect_reaches|]; etrans; [apply enabled_reaches|by eapply refresh_all_reaches]).
Qed.

Lemma execute_tool_reaches st tool arguments w r st' w' : execute_tool ports st tool arguments w = (r, st', w') → reaches st st'.
Proof.
  unfold execute_tool, call_routed. destruct (maybe_refresh_metadata ports st w) as [st1 w1] eqn:E1. apply maybe_refresh_reaches in E1.
  destruct (tool_routing st1 !! tool) as [[idx original]|]; [|intros HH; by simplify_eq]. destruct (slot st1 idx) as [h|] eqn:Eh; [|intros HH; by simplify_eq].
  destruct (x_call_tool ports w1 (hd_client h) original arguments) as [[rc client] w2] eqn:Ex. intros HH. simplify_eq.
  etrans; [exact E1|]. eapply put_reaches; [done|by eapply used_call].
Qed.

Lemma replace_secrets_reaches st ss : reaches st (replace_secrets st ss).
Proof.
  unfold replace_secrets. generalize (omap (newly_authorized (secrets st) ss) (configs st)) as names. intros names.
  etrans; [by apply (reaches_rest st (set_secrets ss st))|]. generalize (set_secrets ss st). clear. induction names as [|n names IH]; intros st; [done|].
  cbn [foldl]. etrans; [by apply (reaches_rest st (clear_connect_error n st))|apply IH].
Qed.

(** Every operation but a removal is made of steps under one lock. *)
Lemma step_reaches st w op :
  (∀ n, op ≠ OpRemove n) → reaches st (step ipv4_text ipv6_text ports (st, w) op).1.
Proof.
  intros Hop. assert (Hd : ∀ A (x : A * State C * W), (∀ r st' w', x = (r, st', w') → reaches st st') → reaches st (drop_result x).1).
  { intros A [[r st'] w'] Hx. by eapply Hx. }
  destruct op; cbn [step]; try (apply Hd; intros r st' w' HH).
  - unfold start. destruct (start_all _ _ ports _ st w) as [st1 w1] eqn:E1. destruct (refresh_all_metadata ports st1 w1) as [st2 w2] eqn:E2.
    etrans; [by eapply start_all_reaches|by eapply refresh_all_reaches].
  - intros seen _. exists seen. apply rtc_once, ls_shutdown.
  - by eapply start_server_reaches.
  - by eapply stop_server_reaches.
  - unfold restart_server in HH. destruct (stop_server ports st server w) as [[r1 st1] w1] eqn:E1. apply stop_server_reaches in E1.
    destruct r1 as [s1|e]; [|by simplify_eq]. etrans; [exact E1|by eapply start_server_reaches].
  - by eapply add_server_reaches.
  - by eapply upsert_server_reaches.
  - by destruct (Hop n).
  - by eapply enable_server_reaches.
  - by eapply disable_server_reaches.
  - apply replace_secrets_reaches.
  - by apply reaches_rest.
  - unfold tool_namespaces in HH. destruct (maybe_refresh_metadata ports st w) as [st1 w1] eqn:E1. simplify_eq. by eapply maybe_refresh_reaches.
  - by eapply execute_tool_reaches.
Qed.

Lemma step_simulated st w op seen :
  coherent (st, seen) → ∃ seen', rtc any_step (st, seen) ((step ipv4_text ipv6_text ports (st, w) op).1, seen').
Proof.
  intros Hc. assert (Hop : (∃ n, op = OpRemove n) ∨ ∀ n, op ≠ OpRemove n) by (destruct op; (left; by eexists) || (right; done)).
  destruct Hop as [[n ->]|Hno].
  - cbn [step]. destruct (find_server_index st n) as [idx|] eqn:Ei.
    + eexists. apply rtc_once. eapply as_removal; [by eexists|reflexivity].
    + exists seen. unfold remove_server. by rewrite Ei.
  - destruct (step_reaches st w op) with (seen := seen) as [seen' Hr]; [done..|]. exists seen'.
    eapply rtc_subrel; [|exact Hr]. intros s s'. apply as_locked.
Qed.

(** Every history of whole operations is a run of the steps. *)
Lemma history_simulated cs ss w ops :
  ∃ seen, rtc any_step (started cs ss) (history ipv4_text ipv6_text ports cs ss w ops, seen).
Proof.
  unfold history. assert (Hgen : ∀ s w seen, rtc any_step (started cs ss) (s, seen) →
    ∃ seen', rtc any_step (started cs ss) ((foldl (step ipv4_text ipv6_text ports) (s, w) ops).1, seen')); [|exact (Hgen (initial cs ss) w (imap pair cs) (rtc_refl _ _))].
  induction ops as [|op ops IH]; intros s w0 seen Hr; [by exists seen|]. cbn [foldl].
  destruct (step_simulated s w0 op seen (run_coherent cs ss _ Hr)) as [seen' Hs].
  destruct (step ipv4_text ipv6_text ports (s, w0) op) as [s1 w1]. eapply IH. by etrans.
Qed.

(** ** What a call reaches *)

(** C19. A tool call goes to the server its name was given for, whatever else
    happens to the servers at the same time, short of a removal.  Take any run of
    the executor in which starts, stops, additions, replacements, switches,
    refreshes, shutdowns and other calls are interleaved at every point where the
    code lets go of a lock, with removals taking place on their own.  When a call
    then reads the route of a tool name, and, any number of such steps later but
    no removal, finds a client to call, the name is the tool's own in the
    namespace of a configuration the server at that place had, that server is
    still the one configured there, and the client was connected from a
    configuration of that server.  The steps are those of the code: every history
    of operations of the executor is such a run, and from every state of one each
    operation that is not a removal goes by such steps. *)
Theorem a_call_reaches_the_server_it_names cs ss :
  (∀ w ops, ∃ seen, rtc any_step (started cs ss) (history ipv4_text ipv6_text ports cs ss w ops, seen)) ∧
  (∀ st seen w op, rtc any_step (started cs ss) (st, seen) → (∀ n, op ≠ OpRemove n) →
     ∃ seen', rtc locked_step (st, seen) ((step ipv4_text ipv6_text ports (st, w) op).1, seen')) ∧
  (∀ st1 seen1 st2 seen2 tool route arguments w answer st' w',
     rtc any_step (started cs ss) (st1, seen1) → route_of st1 tool = Some route →
     rtc locked_step (st1, seen1) (st2, seen2) → call_at st2 route tool arguments w = (Ok answer, st', w') →
     ∃ c0 c h client,
       (route.1, c0) ∈ seen1 ∧ tool = expose (sc_namespace c0) route.2 ∧
       configs st2 !! route.1 = Some c ∧ sc_name c = sc_name c0 ∧
       slot st2 route.1 = Some h ∧ dialled (sc_name c0) (hd_client h) ∧
       x_call_tool ports w (hd_client h) route.2 arguments = (Ok answer, client, w')).
Proof.
  split; [by apply history_simulated|]. split; [intros; by eapply step_reaches, run_coherent|].
  intros st1 seen1 st2 seen2 tool route arguments w answer st' w'.
  intros Hrun Hroute Hlocked Hcall. pose proof (run_coherent _ _ _ Hrun) as Hc1. pose proof (locked_coherent _ _ Hlocked Hc1) as Hc2.
  destruct route as [idx original]. destruct (co_routes _ Hc1 _ _ _ Hroute) as (c0 & Hc0 & Htool).
  destruct (co_names _ Hc2 idx c0 (locked_seen _ _ Hlocked _ Hc0)) as (c & Hc & Hn).
  unfold call_at in Hcall. cbn [fst snd] in *. destruct (slot st2 idx) as [h|] eqn:Eh; [|done].
  destruct (x_call_tool ports w (hd_client h) original arguments) as [[[a|e] client] w1] eqn:Ex; [|done]. simplify_eq.
  destruct (co_slots _ Hc2 idx h Eh) as (c1 & Hc1' & Hd). cbn [fst] in Hc1', Hc. assert (c1 = c) as -> by congruence.
  exists c0, c, h, client. rewrite <- Hn. done.
Qed.
End interleaving.

(** ** An example *)

Module McpConcurrencyExamples.
Import McpExecutorExamples.
#[local] Existing Instance https_urls.

(** The route of [chat__send] is read, the server before it is switched off, and
    the call then still reaches the server of that name. *)
Lemma a_call_reaches_the_server_it_names_witness :
  let switched_off := (step f4 f6 toy (three, true) (OpDisable "a")).1 in
  route_of three "chat__send" = Some (1, "send") ∧
  (call_at toy switched_off (1, "send") "chat__send" Null true).1.1 = Ok "b/send" ∧
  ∃ c h, configs switched_off !! 1 = Some c ∧ sc_name c = "b" ∧ slot switched_off 1 = Some h ∧ dialled f4 f6 toy "b" (hd_client h).
Proof.
  intros switched_off. split; [vm_compute; reflexivity|]. split; [vm_compute; reflexivity|].
  destruct (a_call_reaches_the_server_it_names f4 f6 toy [named "mail" "a"; named "chat" "b"; named "bank" "c"] ∅) as (Hhistory & Hop & Hcall).
  destruct (Hhistory true [OpStart]) as [seen1 Hrun].
  destruct (Hop three seen1 true (OpDisable "a") Hrun ltac:(done)) as [seen2 Hlocked].
  destruct (Hcall three seen1 switched_off seen2 "chat__send" (1, "send") Null true "b/send"
    (call_at toy switched_off (1, "send") "chat__send" Null true).1.2 true Hrun ltac:(vm_compute; reflexivity) Hlocked ltac:(vm_compute; reflexivity))
    as (c0 & c & h & client & _ & _ & Hc & Hn & Hh & Hd & _).
  exists c, h. assert (Hb : sc_name c = "b").
  { assert (Hs : sc_name <$> configs switched_off !! 1 = Some "b") by (vm_compute; reflexivity). rewrite (Hc : configs switched_off !! 1 = Some c) in Hs. by injection Hs. }
  rewrite <- Hn, Hb in Hd. split; [exact Hc|]. split; [exact Hb|]. split; [exact Hh|exact Hd].
Defined.
End McpConcurrencyExamples.
