(* ===== verification/Prompt.v ===== *)
(** * The assembly of a turn's prompt

    Models, of [crates/core/src/context/mod.rs], the per-turn blocks, the
    expansion of the windowed history, one assembly pass and the budgeted
    assembly over it ([assemble_turn_within_budget]), and, of
    [crates/core/src/telemetry/prompt.rs], the attribution of the prompt's cost
    to its parts.

    The connector's token estimate, the printing of a tool's schema, the body of
    the recall block ([render_recall]) and the ids minted for new messages are
    parameters.  A call makes one pass per window size, so an id is named by the
    size of its pass and its place in it. *)

From S2P Require Import Prelude Messages Context ToolRouting TurnIndex PlanNotes PromptText.

#[local] Open Scope nat_scope.
#[local] Set Default Proof Using "Type".

(** ** The parts of a prompt and what they cost *)

Inductive PromptPart :=
| PartSystem | PartSummary | PartTurnIndex | PartCurrentTask | PartWorkingState | PartPlan | PartPinned
| PartScratchpad | PartRecall | PartTranscript | PartToolSchemas.

#[export] Instance PromptPart_eq_dec : EqDecision PromptPart.
Proof. solve_decision. Defined.

Definition ALL_PARTS : list PromptPart :=
  [PartSystem; PartSummary; PartTurnIndex; PartCurrentTask; PartWorkingState; PartPlan; PartPinned; PartScratchpad;
   PartRecall; PartTranscript; PartToolSchemas].

Definition part_as_label (p : PromptPart) : string :=
  match p with
  | PartSystem => "system" | PartSummary => "summary" | PartTurnIndex => "turn_index" | PartCurrentTask => "current_task"
  | PartWorkingState => "working_state" | PartPlan => "plan" | PartPinned => "pinned" | PartScratchpad => "scratchpad"
  | PartRecall => "recall" | PartTranscript => "transcript" | PartToolSchemas => "tool_schemas"
  end.

Definition part_from_label (label : string) : option PromptPart :=
  List.find (λ p, String.eqb (part_as_label p) label) ALL_PARTS.

Definition part_as_span_field (p : PromptPart) : string :=
  match p with
  | PartSystem => "prompt.system_tokens" | PartSummary => "prompt.summary_tokens" | PartTurnIndex => "prompt.turn_index_tokens"
  | PartCurrentTask => "prompt.current_task_tokens" | PartWorkingState => "prompt.working_state_tokens"
  | PartPlan => "prompt.plan_tokens" | PartPinned => "prompt.pinned_tokens" | PartScratchpad => "prompt.scratchpad_tokens"
  | PartRecall => "prompt.recall_tokens" | PartTranscript => "prompt.transcript_tokens"
  | PartToolSchemas => "prompt.tool_schema_tokens"
  end.

Definition part_index (p : PromptPart) : nat :=
  match p with
  | PartSystem => 0 | PartSummary => 1 | PartTurnIndex => 2 | PartCurrentTask => 3 | PartWorkingState => 4 | PartPlan => 5
  | PartPinned => 6 | PartScratchpad => 7 | PartRecall => 8 | PartTranscript => 9 | PartToolSchemas => 10
  end.

Record PromptBreakdown := { tokens : list Z; tool_count : nat }.

#[export] Instance PromptBreakdown_eq_dec : EqDecision PromptBreakdown.
Proof. solve_decision. Defined.

Definition PromptBreakdown_default : PromptBreakdown :=
  {| tokens := replicate (length ALL_PARTS) 0%Z; tool_count := 0 |}.

Definition part_tokens (b : PromptBreakdown) (p : PromptPart) : Z := default 0%Z (tokens b !! part_index p).

Definition from_parts (figures : list (PromptPart * Z)) (count : nat) : PromptBreakdown :=
  {| tokens := foldl (λ t f, <[part_index f.1 := f.2]> t) (tokens PromptBreakdown_default) figures; tool_count := count |}.

Definition add (b : PromptBreakdown) (p : PromptPart) (t : Z) : PromptBreakdown :=
  {| tokens := <[part_index p := sat_add u64_max (part_tokens b p) t]> (tokens b); tool_count := tool_count b |}.

Definition set_tools (b : PromptBreakdown) (count : nat) (schema_tokens : Z) : PromptBreakdown :=
  {| tokens := <[part_index PartToolSchemas := schema_tokens]> (tokens b); tool_count := count |}.

Definition tool_schema_tokens (b : PromptBreakdown) : Z := part_tokens b PartToolSchemas.

Definition total_tokens (b : PromptBreakdown) : Z := foldl (sat_add u64_max) 0%Z (tokens b).

Record ToolBlockPeak := { peak_count : nat; peak_tokens : Z }.
Definition ToolBlockPeak_default : ToolBlockPeak := {| peak_count := 0; peak_tokens := 0 |}.
Definition observe (p : ToolBlockPeak) (count : nat) (t : Z) : ToolBlockPeak :=
  if (peak_tokens p <? t)%Z then {| peak_count := count; peak_tokens := t |} else p.

(** ** Inputs *)

Definition ACTIVE_TASK_ROUND_THRESHOLD : nat := 5.

Record ConversationView := {
  cv_messages : list Message;
  cv_summaries : list MessageSummary;
  cv_context_summary : string
}.

(** The lookup's surface: what [assemble_turn] narrows, and the rest of it. *)
Record RecallSurface (R : Type) := RecallSurface_of { indexed_keys : list string; planned_keys : list string; surface_rest : R }.
Arguments RecallSurface_of {R}.
Arguments indexed_keys {R}.
Arguments planned_keys {R}.
Arguments surface_rest {R}.

Record RenderedRecall := { recall_text : string; entry_ids : list string; skill_names : list string; episode_ids : list string }.
Record RecallOutcome (P : Type) := RecallOutcome_of { recall_block : option RenderedRecall; recall_plan : P }.
Arguments RecallOutcome_of {P}.
Arguments recall_block {P}.
Arguments recall_plan {P}.

Record TurnAnchors (R : Type) := {
  ta_active_task : option string;
  ta_plan : option string;
  ta_scratchpad_index : option string;
  ta_pinned : option string;
  ta_recall : option (RecallSurface R);
  ta_working_state : WorkingState;
  tool_rounds_since_anchor : nat;
  tool_round_budget : option nat
}.
Arguments ta_active_task {R}.
Arguments ta_plan {R}.
Arguments ta_scratchpad_index {R}.
Arguments ta_pinned {R}.
Arguments ta_recall {R}.
Arguments ta_working_state {R}.
Arguments tool_rounds_since_anchor {R}.
Arguments tool_round_budget {R}.

(** [filter(|s| !s.is_empty())] *)
Definition non_empty (s : option string) : option string :=
  match s with Some t => if is_empty t then None else Some t | None => None end.

(** ** The cost of the tools *)

Section tool_costs.
Context {Json : Type} (schema_text : Json → string) (estimate : string → Z).

(** Addition on [u64], which wraps in a release build. *)
Definition u64_add (a b : Z) : Z := ((a + b) mod 2 ^ 64)%Z.

Definition tool_definition_cost (t : @ToolDefinition Json) : Z :=
  u64_add (u64_add (estimate (name t)) (estimate (description t))) (estimate (schema_text (parameters t))).

Definition tool_schema_estimate (defs : list (@ToolDefinition Json)) (deferred : list (@ToolNamespace Json)) : Z :=
  let active := foldl (λ acc t, u64_add acc (tool_definition_cost t)) 0%Z defs in
  let stubs := foldl (λ acc ns, u64_add acc (u64_add (estimate (ns_name ns)) (estimate (ns_description ns)))) 0%Z deferred in
  u64_add active stubs.

End tool_costs.

Section assembly.
Context {Json R P : Type}.
Context (text : PromptSectionKind → string) (schema_text : Json → string) (estimate : string → Z).
Context (render_recall : RecallSurface R → RecallOutcome P) (new_id : nat → nat → string).

(** ** The per-turn blocks *)

Record SurfacedBlock := { part : PromptPart; message : Message }.
Definition SurfacedBlock_new (i : string) (p : PromptPart) (c : string) : SurfacedBlock :=
  {| part := p; message := Message_new i System c |}.

Record SurfacedBlocks := {
  blocks : list SurfacedBlock;
  sb_recalled_entry_ids : list string;
  sb_recalled_skill_names : list string;
  sb_recalled_episode_ids : list string;
  sb_context_plan : option P
}.

Definition anchor_visible (windowed : list Message) (active : gset string) (task : string) : bool :=
  existsb (λ m, bool_decide (role m = User) && String.eqb (content m) task
                && negb (match summary_id m with Some sid => bool_decide (sid ∈ active) | None => false end)) windowed.

Definition round_budget_line (anchors : TurnAnchors R) : string :=
  match tool_round_budget anchors with
  | None => EmptyString
  | Some budget =>
      nl +:+ "You have used " +:+ pretty (tool_rounds_since_anchor anchors) +:+ " of " +:+ pretty budget
      +:+ " tool rounds in this turn. Answer from what you have already collected where you can."
  end.

Definition many_tool_rounds (anchors : TurnAnchors R) : bool :=
  ACTIVE_TASK_ROUND_THRESHOLD <? tool_rounds_since_anchor anchors.

Definition task_block (anchors : TurnAnchors R) (windowed : list Message) (active : gset string) : list (PromptPart * string) :=
  match non_empty (ta_active_task anchors) with
  | Some task =>
      if negb (anchor_visible windowed active task) || many_tool_rounds anchors
      then [(PartCurrentTask, "[Current task] " +:+ task +:+ round_budget_line anchors)] else []
  | None => []
  end.

Definition shown_plan (anchors : TurnAnchors R) : option string := non_empty (ta_plan anchors).

Definition shown_scratchpad (anchors : TurnAnchors R) (is_windowed : bool) : option string :=
  if is_windowed || many_tool_rounds anchors then non_empty (ta_scratchpad_index anchors) else None.

Definition shown_working_state (anchors : TurnAnchors R) (is_windowed : bool) : WorkingState :=
  {| ws_notes := if shown_scratchpad anchors is_windowed then 0 else ws_notes (ta_working_state anchors);
     ws_open_todos := if shown_plan anchors then 0 else ws_open_todos (ta_working_state anchors) |}.

Definition block_if (p : PromptPart) (tag : string) (body : option string) : list (PromptPart * string) :=
  match body with Some s => [(p, tag +:+ s)] | None => [] end.

(** The blocks before [Recall], in display order. *)
Definition standing_blocks (anchors : TurnAnchors R) (ambient : AmbientContext) (context_summary : string) (is_windowed : bool)
    (windowed : list Message) (active : gset string) (turn_index : option string) : list (PromptPart * string) :=
  block_if PartSystem "[Now] " (non_empty (Some (now_line ambient)))
  ++ (if is_windowed then block_if PartSummary ("[Summary of earlier conversation]" +:+ nl) (non_empty (Some context_summary)) else [])
  ++ block_if PartTurnIndex EmptyString (non_empty turn_index)
  ++ task_block anchors windowed active
  ++ block_if PartWorkingState "[Working state] " (render_working_state (shown_working_state anchors is_windowed))
  ++ block_if PartPlan ("[Plan]" +:+ nl) (shown_plan anchors)
  ++ block_if PartPinned ("[Pinned]" +:+ nl) (non_empty (ta_pinned anchors))
  ++ block_if PartScratchpad "[Scratchpad] " (shown_scratchpad anchors is_windowed).

(** The lookup's outcome: on a turn's first round, when it ran. *)
Definition recall_outcome (anchors : TurnAnchors R) (is_windowed : bool) : option (RecallOutcome P) :=
  if tool_rounds_since_anchor anchors =? 0 then
    (λ surface, render_recall
       {| indexed_keys := if shown_scratchpad anchors is_windowed then indexed_keys surface else [];
          planned_keys := if shown_plan anchors then planned_keys surface else [];
          surface_rest := surface_rest surface |}) <$> ta_recall anchors
  else None.

Definition surfaced_blocks (max : nat) (anchors : TurnAnchors R) (ambient : AmbientContext) (context_summary : string) (is_windowed : bool)
    (windowed : list Message) (active : gset string) (turn_index : option string) : SurfacedBlocks :=
  let outcome := recall_outcome anchors is_windowed in
  let recalled := outcome ≫= recall_block in
  let contents := standing_blocks anchors ambient context_summary is_windowed windowed active turn_index
                  ++ block_if PartRecall "[Recall] " (recall_text <$> recalled) in
  {| blocks := imap (λ k pc, SurfacedBlock_new (new_id max k) pc.1 pc.2) contents;
     sb_recalled_entry_ids := from_option entry_ids [] recalled;
     sb_recalled_skill_names := from_option skill_names [] recalled;
     sb_recalled_episode_ids := from_option episode_ids [] recalled;
     sb_context_plan := recall_plan <$> outcome |}.

(** ** The windowed history *)

Definition tagged (sid : string) (m : Message) : bool := bool_decide (summary_id m = Some sid).

(** The loop over the window: the absolute positions of the first and the last
    message of the summary. *)
Fixpoint tagged_range (abs : nat) (sid : string) (windowed : list Message) (fl : option nat * option nat) : option nat * option nat :=
  match windowed with
  | [] => fl
  | m :: rest =>
      tagged_range (S abs) sid rest
        (if tagged sid m then (match fl.1 with None => Some abs | Some f => Some f end, Some abs) else fl)
  end.

Definition marker_body (windowed : list Message) (start : nat) (s : MessageSummary) : string :=
  match tagged_range start (sum_id s) windowed (None, None) with
  | (Some f, Some l) => "[Summary of messages " +:+ pretty f +:+ "–" +:+ pretty l +:+ "] " +:+ sum_text s
  | _ => "[Summary of earlier messages] " +:+ sum_text s
  end.

Definition projected (p : ContextProjection) (m : Message) : Message :=
  if is_replaced p m then with_content m (projected_content p m) else m.

(** The collapsed message's summary, when it is active this turn. *)
Definition collapsed (active : gset string) (m : Message) : option string :=
  match summary_id m with Some sid => if bool_decide (sid ∈ active) then Some sid else None | None => None end.

Fixpoint expand (max start : nat) (windowed : list Message) (summaries : list MessageSummary) (active : gset string) (p : ContextProjection)
    (next : nat) (injected : gset string) (ms : list Message) : list Message :=
  match ms with
  | [] => []
  | m :: rest =>
      match collapsed active m with
      | Some sid =>
          if bool_decide (sid ∈ injected) then expand max start windowed summaries active p next injected rest
          else
            let injected := {[sid]} ∪ injected in
            match List.find (λ s, String.eqb (sum_id s) sid) summaries with
            | Some s =>
                Message_new (new_id max next) System (marker_body windowed start s)
                :: expand max start windowed summaries active p (S next) injected rest
            | None => expand max start windowed summaries active p next injected rest
            end
      | None => projected p m :: expand max start windowed summaries active p next injected rest
      end
  end.

Definition expand_history (max next : nat) (windowed : list Message) (start : nat) (summaries : list MessageSummary) (active : gset string)
    (p : ContextProjection) : list Message :=
  expand max start windowed summaries active p next ∅ windowed.

(** ** One pass, and the budgeted assembly *)

Record TurnMessages := {
  tm_messages : list Message;
  tm_recalled_entry_ids : list string;
  tm_recalled_skill_names : list string;
  tm_recalled_episode_ids : list string;
  tm_context_plan : option P;
  tm_breakdown : PromptBreakdown
}.

Definition active_ids (summaries : list MessageSummary) : gset string := list_to_set (map sum_id summaries).

Definition turn_index_of (ms : list Message) (start : nat) : option string :=
  if 0 <? start then render_turn_index (index_turns ms start) else None.

Definition assemble_turn (conversation : ConversationView) (tools : ToolContext Json) (anchors : TurnAnchors R) (ambient : AmbientContext)
    (projection : ContextProjection) (max_messages : nat) (budget : option Z) : TurnMessages :=
  let system_instruction := system_block text estimate tools ambient budget in
  let start := window_start (cv_messages conversation) max_messages in
  let windowed := drop start (cv_messages conversation) in
  let is_windowed := 0 <? start in
  let active := active_ids (cv_summaries conversation) in
  let surfaced := surfaced_blocks max_messages anchors ambient (cv_context_summary conversation) is_windowed windowed active
                    (turn_index_of (cv_messages conversation) start) in
  let next := length (blocks surfaced) in
  let history := expand_history max_messages (S next) windowed start (cv_summaries conversation) active projection in
  let breakdown := add PromptBreakdown_default PartSystem (estimate system_instruction) in
  let breakdown := foldl (λ b block, add b (part block) (estimate (content (message block)))) breakdown (blocks surfaced) in
  let breakdown := foldl (λ b m, add b PartTranscript (estimate (content m))) breakdown history in
  {| tm_messages := Message_new (new_id max_messages next) System system_instruction :: map message (blocks surfaced) ++ history;
     tm_recalled_entry_ids := sb_recalled_entry_ids surfaced;
     tm_recalled_skill_names := sb_recalled_skill_names surfaced;
     tm_recalled_episode_ids := sb_recalled_episode_ids surfaced;
     tm_context_plan := sb_context_plan surfaced;
     tm_breakdown := breakdown |}.

Record AssembledTurn := { at_pass : TurnMessages; window_from : nat }.

(** The body of [assemble]: a pass with the tools' cost filled in. *)
Definition costed_pass (conversation : ConversationView) (tools : ToolContext Json) (anchors : TurnAnchors R) (ambient : AmbientContext)
    (projection : ContextProjection) (budget : option Z) (max : nat) : TurnMessages :=
  let pass := assemble_turn conversation tools anchors ambient projection max budget in
  {| tm_messages := tm_messages pass; tm_recalled_entry_ids := tm_recalled_entry_ids pass;
     tm_recalled_skill_names := tm_recalled_skill_names pass; tm_recalled_episode_ids := tm_recalled_episode_ids pass;
     tm_context_plan := tm_context_plan pass;
     tm_breakdown := set_tools (tm_breakdown pass) (length (tool_defs tools))
                       (tool_schema_estimate schema_text estimate (tool_defs tools) (deferred_namespaces tools)) |}.

Definition assemble_prompt_within_budget (conversation : ConversationView) (tools : ToolContext Json) (anchors : TurnAnchors R)
    (ambient : AmbientContext) (projection : ContextProjection) (max_messages : nat) (budget : option Z) : AssembledTurn :=
  let '(pass, from) :=
    assemble_turn_within_budget (costed_pass conversation tools anchors ambient projection budget) (λ pass, total_tokens (tm_breakdown pass))
      (cv_messages conversation) max_messages ((λ b, ratio_of b COMPACTION_TOKEN_RATIO) <$> budget) in
  {| at_pass := pass; window_from := from |}.

(** ** The breakdown *)

Definition breakdown_ok (b : PromptBreakdown) : Prop :=
  length (tokens b) = length ALL_PARTS ∧ Forall (λ t, 0 ≤ t)%Z (tokens b).

Lemma part_index_lt p : part_index p < length ALL_PARTS.
Proof. destruct p; simpl; lia. Qed.

Lemma total_spec (l : list Z) (acc : Z) : (0 ≤ acc)%Z → Forall (λ t, 0 ≤ t)%Z l →
  foldl (sat_add u64_max) (Z.min u64_max acc) l = Z.min u64_max (acc + sum_Z (λ x : Z, x) l).
Proof.
  intros Hacc Hl. revert acc Hacc. induction Hl as [|t l Ht _ IH]; intros acc Hacc; simpl; [f_equal; lia|].
  replace (sat_add u64_max (Z.min u64_max acc) t) with (Z.min u64_max (acc + t)) by (unfold sat_add; lia).
  rewrite IH by lia. f_equal. lia.
Qed.

Lemma total_tokens_sum b : breakdown_ok b → total_tokens b = Z.min u64_max (sum_Z (λ x : Z, x) (tokens b)).
Proof. intros [_ Hb]. by apply (total_spec (tokens b) 0%Z). Qed.

Lemma sum_insert (l : list Z) i x y : l !! i = Some x → sum_Z (λ x : Z, x) (<[i:=y]> l) = (sum_Z (λ x : Z, x) l - x + y)%Z.
Proof.
  revert i. induction l as [|z l IH]; intros [|i] H; simplify_eq/=; [lia|]. rewrite (IH i) by done. lia.
Qed.

Lemma part_slot b p : breakdown_ok b → tokens b !! part_index p = Some (part_tokens b p) ∧ (0 ≤ part_tokens b p)%Z.
Proof.
  intros [Hl Hb]. pose proof (part_index_lt p) as Hp. rewrite <- Hl in Hp. apply lookup_lt_is_Some_2 in Hp as [x Hx].
  unfold part_tokens. rewrite Hx. split; [done|]. by apply (Forall_lookup_1 _ _ _ _ Hb Hx).
Qed.

Lemma add_spec b p t : breakdown_ok b → (0 ≤ t)%Z →
  breakdown_ok (add b p t) ∧ total_tokens (add b p t) = Z.min u64_max (total_tokens b + t) ∧
  ∀ q, part_tokens (add b p t) q = if bool_decide (q = p) then sat_add u64_max (part_tokens b p) t else part_tokens b q.
Proof.
  intros Hb Ht. pose proof (part_slot b p Hb) as [Hs Hp].
  assert (Hok : breakdown_ok (add b p t)).
  { destruct Hb as [Hl Hf]. split; cbn [add tokens]; [by rewrite length_insert|].
    apply Forall_insert; [done|]. unfold sat_add, u64_max. lia. }
  split_and!; [done| |].
  - rewrite !total_tokens_sum by done. cbn [add tokens]. rewrite (sum_insert _ _ (part_tokens b p)) by done. unfold sat_add.
    assert (part_tokens b p ≤ sum_Z (λ x : Z, x) (tokens b))%Z; [|lia].
    destruct Hb as [_ Hf]. revert Hs Hf. generalize (part_index p), (tokens b). intros i l. revert i.
    induction l as [|z l IH]; intros [|i] Hi Hf; simplify_eq/=; apply Forall_cons in Hf as [Hz Hf].
    + assert (0 ≤ sum_Z (λ x : Z, x) l)%Z by (clear -Hf; induction Hf; simpl; lia). lia.
    + specialize (IH i Hi Hf). lia.
  - intros q. unfold part_tokens at 1. cbn [add tokens]. case_bool_decide as E.
    + subst q. rewrite list_lookup_insert_eq; [done|]. destruct Hb as [Hl _]. rewrite Hl. apply part_index_lt.
    + rewrite list_lookup_insert_ne; [done|]. intros H. apply E. by destruct p, q.
Qed.

Lemma default_ok : breakdown_ok PromptBreakdown_default.
Proof. split; [done|]. apply Forall_replicate; lia. Qed.

(** Adding a list of costs, none of them to the schemas' slot. *)
Lemma adds_spec {A} (f : A → PromptPart) (cost : A → Z) l b :
  breakdown_ok b → (∀ x, 0 ≤ cost x)%Z → (∀ x, x ∈ l → f x ≠ PartToolSchemas) →
  let b' := foldl (λ b x, add b (f x) (cost x)) b l in
  breakdown_ok b' ∧ total_tokens b' = Z.min u64_max (total_tokens b + sum_Z cost l) ∧
  tool_schema_tokens b' = tool_schema_tokens b.
Proof.
  intros Hb Hc. revert b Hb. induction l as [|x l IH]; intros b Hb Hl; simpl.
  - split_and!; [done| |done]. rewrite total_tokens_sum by done. lia.
  - destruct (add_spec b (f x) (cost x) Hb (Hc x)) as (H1 & H2 & H3).
    destruct (IH _ H1) as (H4 & H5 & H6); [set_solver|]. split_and!; [done| |].
    + rewrite H5, H2. pose proof (sum_Z_nonneg cost l Hc). lia.
    + rewrite H6. unfold tool_schema_tokens. rewrite H3, bool_decide_eq_false_2; [done|]. intros E. by apply (Hl x); [left|].
Qed.

Lemma set_tools_spec b n t : breakdown_ok b → tool_schema_tokens b = 0%Z → (0 ≤ t)%Z →
  breakdown_ok (set_tools b n t) ∧ total_tokens (set_tools b n t) = Z.min u64_max (total_tokens b + t) ∧
  tool_schema_tokens (set_tools b n t) = t ∧ tool_count (set_tools b n t) = n.
Proof.
  intros Hb Hz Ht. destruct (part_slot b PartToolSchemas Hb) as [Hs _]. unfold tool_schema_tokens in Hz. rewrite Hz in Hs.
  assert (Hok : breakdown_ok (set_tools b n t)).
  { destruct Hb as [Hl Hf]. split; cbn [set_tools tokens]; [by rewrite length_insert|by apply Forall_insert]. }
  split_and!; [done| | |done].
  - rewrite !total_tokens_sum by done. cbn [set_tools tokens]. rewrite (sum_insert _ _ 0%Z) by done. lia.
  - unfold tool_schema_tokens, part_tokens. cbn [set_tools tokens]. rewrite list_lookup_insert_eq; [done|].
    destruct Hb as [Hl _]. rewrite Hl. apply part_index_lt.
Qed.

(** ** The pass that is sent *)

Implicit Types (cv : ConversationView) (tools : ToolContext Json) (anchors : TurnAnchors R) (ambient : AmbientContext)
  (projection : ContextProjection).

Lemma sent_pass cv tools anchors ambient projection max_messages budget :
  let t := assemble_prompt_within_budget cv tools anchors ambient projection max_messages budget in
  ∃ m, at_pass t = costed_pass cv tools anchors ambient projection budget m ∧ window_from t = window_start (cv_messages cv) m ∧
    m ≤ max_messages ∧
    match budget with
    | None => m = max_messages
    | Some b => max_messages ≤ MIN_CONTEXT_MESSAGES * 2 ^ MAX_PREFLIGHT_SHRINK_ITERATIONS →
                (total_tokens (tm_breakdown (at_pass t)) <= ratio_of b COMPACTION_TOKEN_RATIO)%Z ∨ m ≤ MIN_CONTEXT_MESSAGES
    end.
Proof.
  unfold assemble_prompt_within_budget, assemble_turn_within_budget. destruct budget as [b|]; [|by exists max_messages]. cbn [fmap option_fmap option_map].
  pose proof (shrink_spec (costed_pass cv tools anchors ambient projection (Some b)) (λ pass, total_tokens (tm_breakdown pass))
    MAX_PREFLIGHT_SHRINK_ITERATIONS (ratio_of b COMPACTION_TOKEN_RATIO) _ max_messages eq_refl) as H.
  destruct (shrink _ _ _ _ _ _) as [a m]. destruct H as (-> & H2 & _ & H4 & _). exists m. by split_and!.
Qed.

Lemma block_if_parts p tag o : (block_if p tag o).*1 = if o then [p] else [].
Proof. by destruct o. Qed.

Lemma surfaced_parts mx anchors ambient cs w win act ti :
  map part (blocks (surfaced_blocks mx anchors ambient cs w win act ti)) `sublist_of` take 9 ALL_PARTS.
Proof.
  assert (Hi : ∀ (f : nat → string) l, map part (imap (λ k pc, SurfacedBlock_new (f k) pc.1 pc.2) l) = l.*1).
  { intros f l. revert f. induction l as [|x l IH]; intros f; [done|]. simpl. f_equal. apply (IH (λ k, f (S k))). }
  unfold surfaced_blocks. cbn [blocks]. rewrite Hi. unfold standing_blocks. rewrite !fmap_app, !block_if_parts.
  assert (Ht : (task_block anchors win act).*1 `sublist_of` [PartCurrentTask]).
  { unfold task_block. repeat case_match; (done || apply sublist_nil_l). }
  change (take 9 ALL_PARTS) with
    ([PartSystem] ++ [PartSummary] ++ [PartTurnIndex] ++ [PartCurrentTask] ++ [PartWorkingState] ++ [PartPlan] ++ [PartPinned]
     ++ [PartScratchpad] ++ [PartRecall]).
  rewrite <- !app_assoc. repeat apply sublist_app; try done; destruct w; rewrite ?block_if_parts; repeat case_match; (done || apply sublist_nil_l).
Qed.

Lemma parts_not_schemas mx anchors ambient cs w win act ti b :
  b ∈ blocks (surfaced_blocks mx anchors ambient cs w win act ti) → part b ≠ PartToolSchemas.
Proof.
  intros Hb E. pose proof (surfaced_parts mx anchors ambient cs w win act ti) as Hs.
  assert (PartToolSchemas ∈ take 9 ALL_PARTS) as Hin; [|by apply (bool_decide_eq_true_2 _) in Hin; vm_compute in Hin].
  eapply sublist_subseteq; [exact Hs|]. rewrite <- E. apply list_elem_of_In, in_map, list_elem_of_In, Hb.
Qed.

Lemma sum_Z_map {A B} (f : B → Z) (g : A → B) l : sum_Z f (map g l) = sum_Z (λ x, f (g x)) l.
Proof. induction l as [|x l IH]; simpl; [done|]. by rewrite IH. Qed.

Lemma schema_estimate_nonneg defs deferred : (0 ≤ tool_schema_estimate schema_text estimate defs deferred)%Z.
Proof. unfold tool_schema_estimate, u64_add at 1. by apply Z.mod_pos_bound. Qed.

Lemma pass_cost cv tools anchors ambient projection budget m :
  (∀ s, 0 ≤ estimate s)%Z →
  let pass := costed_pass cv tools anchors ambient projection budget m in
  total_tokens (tm_breakdown pass) =
    Z.min u64_max (sum_Z (λ x, estimate (content x)) (tm_messages pass)
                   + tool_schema_estimate schema_text estimate (tool_defs tools) (deferred_namespaces tools)) ∧
  tool_schema_tokens (tm_breakdown pass) = tool_schema_estimate schema_text estimate (tool_defs tools) (deferred_namespaces tools) ∧
  tool_count (tm_breakdown pass) = length (tool_defs tools).
Proof.
  intros He pass. unfold pass, costed_pass, assemble_turn. cbn [tm_breakdown tm_messages].
  set (sys := system_block text estimate tools ambient budget). set (sb := surfaced_blocks _ _ _ _ _ _ _ _). set (hist := expand_history _ _ _ _ _ _ _).
  destruct (add_spec _ PartSystem (estimate sys) default_ok (He sys)) as (H1 & H2 & H3).
  destruct (adds_spec part (λ b, estimate (content (message b))) (blocks sb) _ H1 ltac:(intros; apply He)
    (λ b, parts_not_schemas _ _ _ _ _ _ _ _ b)) as (H4 & H5 & H6).
  destruct (adds_spec (λ _ : Message, PartTranscript) (λ x, estimate (content x)) hist _ H4 ltac:(intros; apply He) ltac:(done)) as (H7 & H8 & H9).
  destruct (set_tools_spec _ (length (tool_defs tools)) (tool_schema_estimate schema_text estimate (tool_defs tools) (deferred_namespaces tools)) H7)
    as (_ & H10 & H11 & H12); [|apply schema_estimate_nonneg|].
  { rewrite H9, H6. unfold tool_schema_tokens. by rewrite H3. }
  split_and!; [|done..]. rewrite H10, H8, H5, H2. cbn [sum_Z foldr Message_new content].
  fold (sum_Z (λ x, estimate (content x)) (map message (blocks sb) ++ hist)). rewrite sum_Z_app, sum_Z_map.
  change (total_tokens PromptBreakdown_default) with 0%Z.
  pose proof (sum_Z_nonneg (λ b, estimate (content (message b))) (blocks sb) ltac:(intros; apply He)).
  pose proof (sum_Z_nonneg (λ x, estimate (content x)) hist ltac:(intros; apply He)).
  pose proof (schema_estimate_nonneg (tool_defs tools) (deferred_namespaces tools)). pose proof (He sys). lia.
Qed.

(** The figure the budget check reads is the prompt that is sent.  Every
    message of the prompt is attributed to exactly one part, so the breakdown's
    total is the sum of the estimates of all messages and of the tool schemas,
    saturated at 64 bits; the schemas' part is exactly their estimate, next to
    the number of tools.  With a budget, for every window up to 32 times the
    floor, that sum is within the ratio of the budget or the window is at the
    floor; without one the window is the one asked for. *)
Theorem the_breakdown_is_the_prompt cv tools anchors ambient projection max_messages budget :
  (∀ s, 0 ≤ estimate s)%Z →
  let t := assemble_prompt_within_budget cv tools anchors ambient projection max_messages budget in
  let pass := at_pass t in
  let schemas := tool_schema_estimate schema_text estimate (tool_defs tools) (deferred_namespaces tools) in
  total_tokens (tm_breakdown pass) = Z.min u64_max (sum_Z (λ m, estimate (content m)) (tm_messages pass) + schemas) ∧
  tool_schema_tokens (tm_breakdown pass) = schemas ∧ tool_count (tm_breakdown pass) = length (tool_defs tools) ∧
  ∃ m, m ≤ max_messages ∧ window_from t = window_start (cv_messages cv) m ∧
    match budget with
    | None => m = max_messages
    | Some b =>
        max_messages ≤ MIN_CONTEXT_MESSAGES * 2 ^ MAX_PREFLIGHT_SHRINK_ITERATIONS →
        (Z.min u64_max (sum_Z (λ m, estimate (content m)) (tm_messages pass) + schemas) ≤ ratio_of b COMPACTION_TOKEN_RATIO)%Z ∨
        m ≤ MIN_CONTEXT_MESSAGES
    end.
Proof.
  intros He t pass schemas. destruct (sent_pass cv tools anchors ambient projection max_messages budget) as (m & Hm & Hw & Hle & Hb).
  fold t in Hm, Hw, Hb. fold pass in Hm, Hb.
  destruct (pass_cost cv tools anchors ambient projection budget m He) as (H1 & H2 & H3). rewrite <- Hm in H1, H2, H3.
  split_and!; [done..|]. exists m. split_and!; [done..|]. destruct budget as [b|]; [|done]. unfold schemas. by rewrite <- H1.
Qed.

(** ** What stays in view *)

(** A message of the prompt that is a block of the daemon's with this text. *)
Definition shown (c : string) (ms : list Message) : Prop := ∃ m, m ∈ ms ∧ role m = System ∧ content m = c.

Lemma content_is_shown mx anchors ambient cs w win act ti p c :
  (p, c) ∈ standing_blocks anchors ambient cs w win act ti
           ++ block_if PartRecall "[Recall] " (recall_text <$> (recall_outcome anchors w ≫= recall_block)) →
  shown c (map message (blocks (surfaced_blocks mx anchors ambient cs w win act ti))).
Proof.
  intros Hin. unfold surfaced_blocks. cbn [blocks]. apply list_elem_of_lookup_1 in Hin as [i Hi].
  exists (Message_new (new_id mx i) System c). split_and!; [|done..].
  apply list_elem_of_In. apply (in_map message _ (SurfacedBlock_new (new_id mx i) p c)). apply list_elem_of_In, list_elem_of_lookup. exists i.
  rewrite list_lookup_imap. by rewrite Hi.
Qed.

Lemma block_is_shown mx anchors ambient cs w win act ti p c :
  (p, c) ∈ standing_blocks anchors ambient cs w win act ti →
  shown c (map message (blocks (surfaced_blocks mx anchors ambient cs w win act ti))).
Proof. intros Hin. apply (content_is_shown _ _ _ _ _ _ _ _ p). apply elem_of_app. by left. Qed.

Lemma shown_in_prompt c sys bs hist : shown c bs → shown c (sys :: bs ++ hist).
Proof. intros (m & Hm & Hrest). exists m. split; [|done]. right. apply elem_of_app. by left. Qed.

Lemma expand_live mx start win sums act p next inj ms m :
  m ∈ ms → collapsed act m = None → projected p m ∈ expand mx start win sums act p next inj ms.
Proof.
  intros Hm Hc. revert next inj. induction ms as [|x ms IH]; intros next inj; [by apply elem_of_nil in Hm|].
  cbn [expand]. apply elem_of_cons in Hm as [<-|Hm].
  - rewrite Hc. by left.
  - specialize (IH Hm). repeat case_match; try apply elem_of_cons; auto.
Qed.

Lemma task_in_view cv tools anchors ambient projection budget mx task :
  ta_active_task anchors = Some task → task ≠ EmptyString →
  (∀ m, m ∈ cv_messages cv → is_replaced projection m = true → role m ≠ User) →
  let ms := tm_messages (costed_pass cv tools anchors ambient projection budget mx) in
  (∃ m, m ∈ ms ∧ m ∈ cv_messages cv ∧ role m = User ∧ content m = task) ∧ many_tool_rounds anchors = false ∨
  shown ("[Current task] " +:+ task +:+ round_budget_line anchors) ms.
Proof.
  intros Ht Hne Hp ms. unfold ms, costed_pass, assemble_turn. cbn [tm_messages].
  set (start := window_start _ _). set (win := drop start _). set (act := active_ids _).
  set (sb := surfaced_blocks _ _ _ _ _ _ _ _). set (hist := expand_history _ _ _ _ _ _ _).
  destruct (negb (anchor_visible win act task) || many_tool_rounds anchors) eqn:E.
  - right. apply shown_in_prompt, (block_is_shown _ _ _ _ _ _ _ _ PartCurrentTask). unfold standing_blocks. rewrite !elem_of_app. do 3 right. left.
    unfold task_block, non_empty. rewrite Ht. unfold is_empty. rewrite bool_decide_eq_false_2 by done. rewrite E. by left.
  - apply orb_false_iff in E as [E Hr]. left. split; [|done]. apply negb_false_iff, existsb_exists in E as (m & Hm & Hv).
    apply andb_true_iff in Hv as [[Hu%bool_decide_eq_true Hc%String.eqb_eq]%andb_true_iff Hs%negb_true_iff].
    assert (Hin : m ∈ cv_messages cv) by (rewrite <- (take_drop start (cv_messages cv)); apply elem_of_app; right; by apply list_elem_of_In).
    exists m. split_and!; [|done..]. right. apply elem_of_app. right.
    assert (projected projection m = m) as <-.
    { unfold projected. destruct (is_replaced projection m) eqn:Er; [|done]. by destruct (Hp m Hin Er). }
    apply expand_live; [by apply list_elem_of_In|]. unfold collapsed. case_match; [|done]. by rewrite Hs.
Qed.

(** The goal of a turn stays in front of the model.  Whatever the window
    dropped, the summaries collapsed and the budget check narrowed, the prompt
    that is sent holds the user's own message with the active task, as written,
    or a block that states the task; past five tool rounds it always holds the
    block, and the block states how many rounds of the budget are spent.  (The
    projection replaces tool results, never a user message.) *)
Theorem the_goal_stays_in_view cv tools anchors ambient projection max_messages budget task :
  ta_active_task anchors = Some task → task ≠ EmptyString →
  (∀ m, m ∈ cv_messages cv → is_replaced projection m = true → role m ≠ User) →
  let ms := tm_messages (at_pass (assemble_prompt_within_budget cv tools anchors ambient projection max_messages budget)) in
  let block := "[Current task] " +:+ task +:+ round_budget_line anchors in
  ((∃ m, m ∈ ms ∧ m ∈ cv_messages cv ∧ role m = User ∧ content m = task) ∨ shown block ms) ∧
  (ACTIVE_TASK_ROUND_THRESHOLD < tool_rounds_since_anchor anchors → shown block ms).
Proof.
  intros Ht Hne Hp ms block. destruct (sent_pass cv tools anchors ambient projection max_messages budget) as (m & Hm & _).
  unfold ms. rewrite Hm. destruct (task_in_view cv tools anchors ambient projection budget m task Ht Hne Hp) as [[Hu Hr]|Hs].
  - split; [by left|]. intros Hlt. unfold many_tool_rounds in Hr. apply Nat.ltb_ge in Hr. lia.
  - split; [by right|done].
Qed.

Lemma indexed_out_of_window ms start t : t ∈ index_turns ms start → in_window t = false → 0 < start.
Proof.
  unfold index_turns. intros ((s & e) & _ & Ht)%list_elem_of_omap Hw. unfold indexed_turn in Ht. simpl in Ht.
  destruct (ms !! s); [|done]. simplify_option_eq. apply Nat.leb_gt in Hw. lia.
Qed.

Lemma foldl_grows {A} (f : string → A → string) l s : (∀ u x, ∃ r, f u x = u +:+ r) → ∃ r, foldl f s l = s +:+ r.
Proof.
  intros Hf. revert s. induction l as [|x l IH]; intros s; simpl; [exists EmptyString; by rewrite string_app_nil_r|].
  destruct (Hf s x) as [r1 ->]. destruct (IH (s +:+ r1)) as [r ->]. exists (r1 +:+ r). by rewrite string_app_assoc.
Qed.

Lemma rendered_index_opens turns t : t ∈ turns → in_window t = false → ∃ r, render_turn_index turns = Some ("[Earlier turns] " +:+ r).
Proof.
  intros Ht Hw. unfold render_turn_index. destruct (forallb in_window turns) eqn:E.
  { rewrite forallb_forall in E. specialize (E t (proj1 (list_elem_of_In _ _) Ht)). congruence. }
  match goal with |- context [foldl ?f ?h ?l] => destruct (foldl_grows f l h) as [r ->] end.
  { intros u x. case_bool_decide; [by eexists|]. exists EmptyString. by rewrite string_app_nil_r. }
  case_match; eexists; reflexivity.
Qed.

(** A turn that left the window is announced.  When a turn before the one
    being run opened before the window that is sent, the prompt holds the index
    of earlier turns of that very window; when all of them are in view, the index
    has nothing to say and there is no such block. *)
Theorem a_dropped_turn_is_announced cv tools anchors ambient projection max_messages budget :
  let t := assemble_prompt_within_budget cv tools anchors ambient projection max_messages budget in
  let turns := index_turns (cv_messages cv) (window_from t) in
  (∀ turn, turn ∈ turns → in_window turn = false →
     ∃ r, render_turn_index turns = Some ("[Earlier turns] " +:+ r) ∧ shown ("[Earlier turns] " +:+ r) (tm_messages (at_pass t))) ∧
  ((∀ turn, turn ∈ turns → in_window turn = true) → turn_index_of (cv_messages cv) (window_from t) = None).
Proof.
  intros t turns. destruct (sent_pass cv tools anchors ambient projection max_messages budget) as (m & Hm & Hw & _). fold t in Hm, Hw. split.
  - intros turn Hin Hout. destruct (rendered_index_opens turns turn Hin Hout) as [r Hr]. exists r. split; [done|].
    rewrite Hm. unfold costed_pass, assemble_turn. cbn [tm_messages]. rewrite <- Hw.
    apply shown_in_prompt, (block_is_shown _ _ _ _ _ _ _ _ PartTurnIndex). unfold standing_blocks. rewrite !elem_of_app. do 2 right. left.
    unfold turn_index_of. pose proof (indexed_out_of_window _ _ _ Hin Hout) as Hpos. apply Nat.ltb_lt in Hpos as ->.
    fold turns. rewrite Hr. by left.
  - intros Hall. unfold turn_index_of. case_match; [|done]. unfold render_turn_index. fold turns.
    assert (forallb in_window turns = true) as ->; [|done]. apply forallb_forall. intros x Hx. by apply Hall, list_elem_of_In.
Qed.

(** ** The history *)

Lemma tagged_range_spec abs sid l fl :
  tagged_range abs sid l fl =
  (match fl.1 with Some f => Some f | None => Nat.add abs <$> position (tagged sid) l end,
   match rposition (tagged sid) l with Some i => Some (abs + i) | None => fl.2 end).
Proof.
  revert abs fl. induction l as [|m l IH]; intros abs [f la]; cbn [tagged_range position rposition].
  - by destruct f.
  - rewrite IH. destruct (tagged sid m); cbn [fst snd]; destruct (rposition (tagged sid) l) as [i|], (position (tagged sid) l) as [j|], f; simpl;
      repeat f_equal; lia.
Qed.

(** What the message at position [i] of the window contributes: itself, as the
    round reads it, or nothing, or the marker of its summary, where it is the
    first of it. *)
Definition piece (mx next : nat) (act : gset string) (p : ContextProjection) (marker : string → string) (win : list Message) (i : nat) (m : Message)
    : list Message :=
  match collapsed act m with
  | None => [projected p m]
  | Some sid =>
      let earlier := omap (collapsed act) (take i win) in
      if bool_decide (sid ∈ earlier) then []
      else [Message_new (new_id mx (next + size (list_to_set earlier : gset string))) System (marker sid)]
  end.

Definition summary_marker (start : nat) (sums : list MessageSummary) (win : list Message) (sid : string) : string :=
  match List.find (λ s, String.eqb (sum_id s) sid) sums with Some s => marker_body win start s | None => EmptyString end.

Lemma collapsed_active sums m sid : collapsed (active_ids sums) m = Some sid →
  summary_id m = Some sid ∧ ∃ s, List.find (λ s, String.eqb (sum_id s) sid) sums = Some s ∧ sum_id s = sid.
Proof.
  unfold collapsed. destruct (summary_id m) as [sid'|]; [|done]. case_bool_decide as Hin; [|done]. intros [= ->]. split; [done|].
  unfold active_ids in Hin. rewrite elem_of_list_to_set in Hin. apply list_elem_of_In, in_map_iff in Hin as (s & Hs & Hin).
  destruct (List.find (λ s, String.eqb (sum_id s) sid) sums) as [s'|] eqn:E.
  - exists s'. split; [done|]. apply find_some in E as [_ E]. by apply String.eqb_eq in E.
  - pose proof (find_none _ _ E s Hin) as Hn. simpl in Hn. by apply String.eqb_neq in Hn.
Qed.

Lemma expand_pieces mx start win sums p next pre ms :
  win = pre ++ ms →
  let act := active_ids sums in
  let inj := list_to_set (omap (collapsed act) pre) : gset string in
  expand mx start win sums act p (next + size inj) inj ms =
  concat (imap (λ i, piece mx next act p (summary_marker start sums win) win (length pre + i)) ms).
Proof.
  intros Hw act. revert pre Hw. induction ms as [|m ms IH]; intros pre Hw inj; [done|].
  cbn [expand imap concat]. specialize (IH (pre ++ [m]) ltac:(by rewrite <- app_assoc)). rewrite length_app in IH. cbn zeta in IH.
  assert (Hshift : imap ((λ i, piece mx next act p (summary_marker start sums win) win (length pre + i)) ∘ S) ms =
                   imap (λ i, piece mx next act p (summary_marker start sums win) win (length pre + length [m] + i)) ms).
  { apply imap_ext. intros i x _. simpl. f_equal. lia. }
  rewrite Hshift, <- IH. clear Hshift IH. rewrite Nat.add_0_r. unfold piece. rewrite omap_app. cbn [omap list_omap].
  rewrite Hw, take_app_length, <- Hw. fold act. destruct (collapsed act m) as [sid|] eqn:E; [|by rewrite app_nil_r].
  destruct (collapsed_active _ _ _ E) as (_ & s & Hs & Hid). rewrite Hs.
  case_bool_decide as Hi; case_bool_decide as Hj; unfold inj in Hi; rewrite elem_of_list_to_set in Hi; try done.
  - simpl. by assert (list_to_set (omap (collapsed act) pre ++ [sid]) = inj) as -> by (unfold inj; clear -Hi; set_solver).
  - simpl. f_equal; [unfold summary_marker; by rewrite Hs|].
    assert (list_to_set (omap (collapsed act) pre ++ [sid]) = {[sid]} ∪ inj) as -> by (unfold inj; clear -Hi; set_solver).
    rewrite size_union, size_singleton by (unfold inj; clear -Hi; set_solver). f_equal. lia.
Qed.

Lemma marker_names_its_range start sums win m sid :
  m ∈ win → collapsed (active_ids sums) m = Some sid →
  ∃ s f l, List.find (λ s, String.eqb (sum_id s) sid) sums = Some s ∧
    position (tagged sid) win = Some f ∧ rposition (tagged sid) win = Some l ∧
    summary_marker start sums win sid =
      "[Summary of messages " +:+ pretty (start + f) +:+ "–" +:+ pretty (start + l) +:+ "] " +:+ sum_text s.
Proof.
  intros Hm Hc. destruct (collapsed_active _ _ _ Hc) as (Hs & s & Hf & Hid). exists s.
  assert (Ht : tagged sid m = true) by by apply bool_decide_eq_true.
  destruct (position (tagged sid) win) as [f|] eqn:Ef;
    [|apply position_None in Ef; rewrite Forall_forall in Ef; rewrite (Ef m Hm) in Ht; done].
  destruct (rposition (tagged sid) win) as [l|] eqn:El;
    [|apply rposition_None in El; rewrite Forall_forall in El; rewrite (El m Hm) in Ht; done].
  exists f, l. split_and!; [done..|]. unfold summary_marker, marker_body. rewrite Hf, Hid, tagged_range_spec, Ef, El. done.
Qed.

(** What the model reads of the conversation is the window and nothing
    else.  The prompt is the daemon's own system messages, followed by one piece
    per message of the window, in order: a live message as the round's projection
    has it; for a message collapsed behind an active summary nothing, but for the
    first message of each summary, which the marker of the summary replaces.  The
    marker names the absolute positions of the first and the last message of the
    window that it stands for: the range is always known. *)
Theorem the_history_is_the_window cv tools anchors ambient projection max_messages budget :
  let t := assemble_prompt_within_budget cv tools anchors ambient projection max_messages budget in
  let win := drop (window_from t) (cv_messages cv) in
  let act := active_ids (cv_summaries cv) in
  ∃ mx own marker,
    tm_messages (at_pass t) = own ++ concat (imap (piece mx (length own) act projection marker win) win) ∧
    Forall (λ m, role m = System) own ∧ own ≠ [] ∧
    (∀ m sid, m ∈ win → collapsed act m = Some sid →
       ∃ s f l, List.find (λ s, String.eqb (sum_id s) sid) (cv_summaries cv) = Some s ∧
         position (tagged sid) win = Some f ∧ rposition (tagged sid) win = Some l ∧
         marker sid = "[Summary of messages " +:+ pretty (window_from t + f) +:+ "–" +:+ pretty (window_from t + l) +:+ "] " +:+ sum_text s).
Proof.
  intros t win act. destruct (sent_pass cv tools anchors ambient projection max_messages budget) as (mx & Hm & Hw & _). fold t in Hm, Hw.
  exists mx. rewrite Hm. unfold costed_pass, assemble_turn. cbn [tm_messages]. rewrite <- Hw. fold win. fold act.
  set (sb := surfaced_blocks _ _ _ _ _ _ _ _). set (sys := Message_new _ _ _).
  exists (sys :: map message (blocks sb)), (summary_marker (window_from t) (cv_summaries cv) win).
  split_and!; [| |done|by intros m sid; apply marker_names_its_range].
  - rewrite <- app_comm_cons. do 2 f_equal. cbn [length]. rewrite length_map. unfold expand_history.
    rewrite <- (Nat.add_0_r (S (length (blocks sb)))) at 1.
    change 0 with (size (list_to_set (omap (collapsed act) (@nil Message)) : gset string)).
    by apply (expand_pieces mx (window_from t) win (cv_summaries cv) projection (S (length (blocks sb))) []).
  - apply Forall_cons_2; [done|]. unfold sb, surfaced_blocks. cbn [blocks]. apply Forall_forall. intros m Hin.
    apply list_elem_of_In, in_map_iff in Hin as (b & <- & Hb%list_elem_of_In). apply list_elem_of_lookup in Hb as [i Hi].
    rewrite list_lookup_imap in Hi. apply fmap_Some in Hi as (pc & _ & ->). done.
Qed.

(** What the lookup is told is in view on the first round. *)
Definition told (anchors : TurnAnchors R) (from : nat) (surface : RecallSurface R) : RecallSurface R :=
  {| indexed_keys := if bool_decide (0 < from ∧ is_Some (non_empty (ta_scratchpad_index anchors))) then indexed_keys surface else [];
     planned_keys := if bool_decide (is_Some (non_empty (ta_plan anchors))) then planned_keys surface else [];
     surface_rest := surface_rest surface |}.

Lemma recall_outcome_told anchors from :
  recall_outcome anchors (0 <? from) =
  if tool_rounds_since_anchor anchors =? 0 then (λ s, render_recall (told anchors from s)) <$> ta_recall anchors else None.
Proof.
  unfold recall_outcome. destruct (Nat.eqb_spec (tool_rounds_since_anchor anchors) 0) as [E|E]; [|done].
  destruct (ta_recall anchors) as [surface|]; [|done]. cbn [fmap option_fmap option_map]. do 2 f_equal.
  unfold told, shown_scratchpad, shown_plan, many_tool_rounds. rewrite E. change (ACTIVE_TASK_ROUND_THRESHOLD <? 0) with false. rewrite orb_false_r. f_equal.
  - destruct (Nat.ltb_spec 0 from), (non_empty (ta_scratchpad_index anchors)); case_bool_decide as Hd; try done; exfalso.
    + apply Hd. split; [done|by eexists].
    + by destruct Hd as [_ [? ?]].
    + lia.
    + lia.
  - destruct (non_empty (ta_plan anchors)); case_bool_decide as Hd; try done; exfalso; apply Hd; by eexists.
Qed.

(** Memory is offered once.  The recall block appears on the first round of
    a turn only, and what is reported as offered is exactly what the rendered
    block of that round carries: on any later round, or when nothing was
    rendered, no entry, skill or past turn is recorded as offered.  The lookup is
    told of the scratchpad's keys exactly when the prompt lists them, and of the
    plan's exactly when it shows the plan. *)
Theorem memory_is_offered_once cv tools anchors ambient projection max_messages budget :
  let t := assemble_prompt_within_budget cv tools anchors ambient projection max_messages budget in
  let pass := at_pass t in
  let offered := (tm_recalled_entry_ids pass, tm_recalled_skill_names pass, tm_recalled_episode_ids pass) in
  match (if tool_rounds_since_anchor anchors =? 0 then ta_recall anchors else None) with
  | Some surface =>
      let outcome := render_recall (told anchors (window_from t) surface) in
      tm_context_plan pass = Some (recall_plan outcome) ∧
      match recall_block outcome with
      | Some r => offered = (entry_ids r, skill_names r, episode_ids r) ∧ shown ("[Recall] " +:+ recall_text r) (tm_messages pass)
      | None => offered = ([], [], [])
      end
  | None => offered = ([], [], []) ∧ tm_context_plan pass = None
  end.
Proof.
  intros t pass offered. destruct (sent_pass cv tools anchors ambient projection max_messages budget) as (mx & Hm & Hw & _). fold t in Hm, Hw. fold pass in Hm.
  assert (Hplan : tm_context_plan pass = recall_plan <$> recall_outcome anchors (0 <? window_from t)) by (by rewrite Hm, Hw).
  assert (Hoff : let recalled := recall_outcome anchors (0 <? window_from t) ≫= recall_block in
    offered = (from_option entry_ids [] recalled, from_option skill_names [] recalled, from_option episode_ids [] recalled))
    by (unfold offered; by rewrite Hm, Hw).
  assert (Hshow : ∀ r, recall_outcome anchors (0 <? window_from t) ≫= recall_block = Some r → shown ("[Recall] " +:+ recall_text r) (tm_messages pass)).
  { intros r Hr. rewrite Hm. unfold costed_pass, assemble_turn. cbn [tm_messages]. rewrite <- Hw.
    apply shown_in_prompt, (content_is_shown _ _ _ _ _ _ _ _ PartRecall), elem_of_app. right. rewrite Hr. by left. }
  rewrite recall_outcome_told in Hplan, Hoff, Hshow. destruct (tool_rounds_since_anchor anchors =? 0); [|done].
  destruct (ta_recall anchors) as [surface|]; [|done]. cbn [fmap option_fmap option_map mbind option_bind] in Hplan, Hoff, Hshow. cbn zeta in *.
  split; [done|]. destruct (recall_block _) as [r|]; [|done]. split; [done|]. by apply Hshow.
Qed.

End assembly.
Arguments part : clear implicits.

(** ** Labels and the peak *)

(** A stored breakdown reads back.  Every part is found by its label and
    has a slot of its own, so the figures of a breakdown, written part by part
    under their labels, rebuild exactly that breakdown. *)
Theorem a_stored_breakdown_reads_back (b : PromptBreakdown) :
  length (tokens b) = length ALL_PARTS →
  (∀ p, part_from_label (part_as_label p) = Some p ∧ ALL_PARTS !! part_index p = Some p) ∧
  from_parts (omap (λ lf, (λ p, (p, lf.2)) <$> part_from_label lf.1)
                (map (λ p, (part_as_label p, part_tokens b p)) ALL_PARTS)) (tool_count b) = b.
Proof.
  intros Hl. split; [by intros []|]. destruct b as [ts n]. cbn [tokens tool_count] in *.
  do 11 (destruct ts as [|? ts]; [done|]). destruct ts; [|done]. reflexivity.
Qed.

Lemma a_stored_breakdown_reads_back_witness :
  from_parts [(PartPlan, 5%Z); (PartSystem, 1%Z); (PartPlan, 7%Z)] 3 = {| tokens := [1; 0; 0; 0; 0; 7; 0; 0; 0; 0; 0]%Z; tool_count := 3 |} ∧
  from_parts (omap (λ lf, (λ p, (p, lf.2)) <$> part_from_label lf.1)
                (map (λ p, (part_as_label p, part_tokens (add PromptBreakdown_default PartPlan 7) p)) ALL_PARTS)) 0
  = add PromptBreakdown_default PartPlan 7.
Proof. split; [reflexivity|]. apply (a_stored_breakdown_reads_back (add PromptBreakdown_default PartPlan 7)). reflexivity. Defined.

(** The reported peak is one round's: the count and the cost come from the
    same round, the costliest, and from the first such. *)
Theorem the_peak_is_one_round (rounds : list (nat * Z)) :
  let p := foldl (λ p r, observe p r.1 r.2) ToolBlockPeak_default rounds in
  (∀ r, r ∈ rounds → (r.2 ≤ peak_tokens p)%Z) ∧
  (p = ToolBlockPeak_default ∨
   ∃ i r, rounds !! i = Some r ∧ p = {| peak_count := r.1; peak_tokens := r.2 |} ∧
     ∀ j s, j < i → rounds !! j = Some s → (s.2 < r.2)%Z).
Proof.
  induction rounds as [|r rounds IH] using rev_ind; [split; [by intros ? ?%elem_of_nil|by left]|].
  rewrite foldl_app. cbn [foldl]. set (p := foldl _ _ rounds) in *. cbn zeta in IH. destruct IH as [IH1 IH2].
  unfold observe. destruct (Z.ltb_spec (peak_tokens p) r.2) as [Hlt|Hge]; (split; [intros s [Hs| ->%list_elem_of_singleton]%elem_of_app|]).
  - specialize (IH1 s Hs). simpl. lia.
  - done.
  - right. exists (length rounds), r. split_and!; [by rewrite list_lookup_middle|done|]. intros j s Hj Hs. rewrite lookup_app_l in Hs by done.
    specialize (IH1 s (list_elem_of_lookup_2 _ _ _ Hs)). lia.
  - by apply IH1.
  - done.
  - destruct IH2 as [->|(i & x & Hi & Hp & Hlt)]; [by left|]. right. exists i, x. pose proof (lookup_lt_Some _ _ _ Hi).
    split_and!; [by rewrite lookup_app_l|done|]. intros j s Hj Hs. rewrite lookup_app_l in Hs by lia. by apply (Hlt j).
Qed.

(** ** A turn whose window dropped its task *)

Module PromptExamples.

Definition said (i : string) (r : Role) (c : string) : Message := Message_new i r c.
Definition behind (sid : string) (m : Message) : Message :=
  {| id := id m; role := role m; content := content m; tool_calls := tool_calls m; tool_call_id := tool_call_id m;
     summary_id := Some sid; idempotency_key := idempotency_key m; distilled_into := distilled_into m |}.
Definition log : list Message :=
  [said "1" User "build it"; said "2" Assistant "done"; said "3" User "and test"; said "4" Assistant "done";
   behind "s1" (said "5" User "and lint"); behind "s1" (said "6" Assistant "done"); behind "s0" (said "7" User "and ship"); said "8" Assistant "done";
   said "9" User "and tag"; said "10" Assistant "done"; said "11" User "go on"].
Definition view : ConversationView :=
  {| cv_messages := log; cv_summaries := [{| sum_id := "s1"; sum_text := "Linted." |}]; cv_context_summary := "Built." |}.
Definition no_tools : ToolContext unit := {| tool_defs := []; deferred_namespaces := []; named_only := []; locality := None |}.
Definition plain : AmbientContext :=
  {| personality := TurnRouting.Personality_default; now_line := EmptyString; system_refinement := EmptyString; ambient_client := None |}.
Definition anchors : TurnAnchors unit :=
  {| ta_active_task := Some "build it"; ta_plan := None; ta_scratchpad_index := None; ta_pinned := None; ta_recall := None;
     ta_working_state := {| ws_notes := 2; ws_open_todos := 0 |}; tool_rounds_since_anchor := 6; tool_round_budget := Some 200 |}.
Definition guide (k : PromptSectionKind) : string := "guide".
Definition ids (mx k : nat) : string := "p" +:+ pretty mx +:+ "." +:+ pretty k.
Definition nothing (s : RecallSurface unit) : RecallOutcome unit := {| recall_block := None; recall_plan := () |}.
Definition sent (budget : option Z) : AssembledTurn :=
  assemble_prompt_within_budget guide (λ _, EmptyString) slen nothing ids view no_tools anchors plain ∅ 2 budget.

Example the_task_is_restated :
  map (λ m, (role m, content m)) (drop 1 (tm_messages (at_pass (sent None)))) =
  [(System, "[Summary of earlier conversation]" +:+ nl +:+ "Built.");
   (System, default EmptyString (render_turn_index (index_turns log 4)));
   (System, "[Current task] build it" +:+ nl +:+ "You have used 6 of 200 tool rounds in this turn. Answer from what you have already collected where you can.");
   (System, "[Working state] 2 scratchpad notes.");
   (System, "[Summary of messages 4–5] Linted."); (User, "and ship"); (Assistant, "done"); (User, "and tag"); (Assistant, "done"); (User, "go on")] ∧
  window_from (sent None) = 4.
Proof. by vm_compute. Qed.

Lemma the_goal_stays_in_view_witness : shown ("[Current task] build it" +:+ round_budget_line anchors) (tm_messages (at_pass (sent (Some 100%Z)))).
Proof.
  refine (proj2 (the_goal_stays_in_view guide (λ _, EmptyString) slen nothing ids view no_tools anchors plain ∅ 2 (Some 100%Z) "build it" _ _ _) _).
  - reflexivity.
  - discriminate.
  - intros m _ H. vm_compute in H. discriminate.
  - vm_compute. lia.
Defined.

Lemma the_breakdown_is_the_prompt_witness :
  total_tokens (tm_breakdown (at_pass (sent (Some 1000%Z)))) = Z.min u64_max (sum_Z (λ m, slen (content m)) (tm_messages (at_pass (sent (Some 1000%Z)))) + 0).
Proof.
  exact (proj1 (the_breakdown_is_the_prompt guide (λ _ : unit, EmptyString) slen nothing ids view no_tools anchors plain ∅ 2 (Some 1000%Z) slen_nonneg)).
Defined.

End PromptExamples.
