(* ===== verification/ToolNames.v ===== *)
(** * Tool names on the Bedrock path

    Models [crates/llm-bedrock/src/tool_names.rs]: names the provider accepts,
    one per tool of a request, and the way back from the name a model used to
    the tool it means.  A character is a byte that continues no other; the
    FNV-1a hash is written out at 64 bits, fed as [str::hash] feeds it (the
    bytes, then 0xff). *)

From S2P Require Import Prelude.

#[local] Open Scope nat_scope.

Definition MAX_TOOL_NAME_LEN : nat := 64.
Definition SUFFIX_HEX_LEN : nat := 8.

(** ** One name *)

Definition byte_of (a : Ascii.ascii) : N := Ascii.N_of_ascii a.

Definition is_ascii_alphanumeric (a : Ascii.ascii) : bool :=
  let n := byte_of a in
  ((48 <=? n)%N && (n <=? 57)%N) || ((65 <=? n)%N && (n <=? 90)%N) || ((97 <=? n)%N && (n <=? 122)%N).

Definition underscore : Ascii.ascii := Ascii.ascii_of_nat 95.
Definition hyphen : Ascii.ascii := Ascii.ascii_of_nat 45.

Definition name_char (a : Ascii.ascii) : bool :=
  is_ascii_alphanumeric a || Ascii.eqb a underscore || Ascii.eqb a hyphen.

Fixpoint sanitize_loop (name : string) (room : nat) : string :=
  match name with
  | EmptyString => EmptyString
  | String a rest =>
      if is_cont a then sanitize_loop rest room
      else match room with
           | O => EmptyString
           | S room => String (if name_char a then a else underscore) (sanitize_loop rest room)
           end
  end.

Definition sanitize_base (name : string) : string :=
  let out := sanitize_loop name MAX_TOOL_NAME_LEN in
  if String.eqb out EmptyString then "_" else out.

(** ** The hash suffix *)

Definition fnv_write (h : Z) (b : Z) : Z := ((Z.lxor h b * 0x100000001b3) mod 2 ^ 64)%Z.

Fixpoint fnv_bytes (h : Z) (s : string) : Z :=
  match s with EmptyString => h | String a rest => fnv_bytes (fnv_write h (Z.of_N (byte_of a))) rest end.

Definition fnv1a (s : string) : Z := fnv_write (fnv_bytes 0xcbf29ce484222325 s) 0xff.

Definition hex_digit (d : Z) : Ascii.ascii :=
  Ascii.ascii_of_N (Z.to_N (if (d <? 10)%Z then 48 + d else 87 + d)%Z).

(** [format!("{h:016x}")], its last [n] digits. *)
Fixpoint hex (n : nat) (h : Z) : string :=
  match n with
  | O => EmptyString
  | S n => hex n (h / 16) +:+ String (hex_digit (h mod 16)) EmptyString
  end.

Definition stable_suffix (original : string) : string := str_prefix SUFFIX_HEX_LEN (hex 16 (fnv1a original)).

Definition with_suffix (base suffix : string) : string :=
  let budget := MAX_TOOL_NAME_LEN - (String.length suffix + 1) in
  let truncated := str_prefix budget base in
  (if String.eqb truncated EmptyString then "_" else truncated) +:+ "-" +:+ suffix.

(** ** The map *)

Record ToolNameMap := { to_safe_map : gmap string string; to_original_map : gmap string string }.

Definition ToolNameMap_default : ToolNameMap := {| to_safe_map := ∅; to_original_map := ∅ |}.

Definition bind (m : ToolNameMap) (original safe : string) : ToolNameMap :=
  {| to_safe_map := <[original := safe]> (to_safe_map m); to_original_map := <[safe := original]> (to_original_map m) |}.

Definition is_free (m : ToolNameMap) (safe : string) : bool := bool_decide (to_original_map m !! safe = None).

Definition free_at (m : ToolNameMap) (original base : string) (i : N) : option string :=
  let candidate := with_suffix base (stable_suffix (original +:+ "#" +:+ pretty i)) in
  if is_free m candidate then Some candidate else None.

(** [for i in 0u32..]: the first index with a free candidate; none at all is a
    run past the last index. *)
Definition insert (m : ToolNameMap) (original : string) : option ToolNameMap :=
  match to_safe_map m !! original with
  | Some _ => Some m
  | None =>
      let base := sanitize_base original in
      if is_free m base then Some (bind m original base)
      else
        let candidate := with_suffix base (stable_suffix original) in
        if is_free m candidate then Some (bind m original candidate)
        else bind m original <$> first_within (2 ^ 32)%positive 0 (free_at m original base)
  end.

Definition from_names (names : list string) : option ToolNameMap :=
  foldl (λ acc name, m ← acc; insert m name) (Some ToolNameMap_default) names.

Definition to_safe (m : ToolNameMap) (original : string) : string :=
  match to_safe_map m !! original with Some safe => safe | None => sanitize_base original end.

Definition to_original (m : ToolNameMap) (safe : string) : string :=
  match to_original_map m !! safe with Some original => original | None => safe end.

(** ** Names the provider accepts *)

Fixpoint name_chars (s : string) : bool :=
  match s with EmptyString => true | String a rest => name_char a && name_chars rest end.

Definition accepted_name (s : string) : Prop := name_chars s = true ∧ 1 ≤ String.length s ≤ MAX_TOOL_NAME_LEN.

Lemma name_chars_app s t : name_chars (s +:+ t) = name_chars s && name_chars t.
Proof. induction s as [|a s IH]; [done|]. change (name_char a && name_chars (s +:+ t) = name_char a && name_chars s && name_chars t). by rewrite IH, andb_assoc. Qed.

Lemma sanitize_loop_ok name room : name_chars (sanitize_loop name room) = true ∧ String.length (sanitize_loop name room) ≤ room.
Proof.
  revert room. induction name as [|a name IH]; intros room; cbn [sanitize_loop]; [split; [done|simpl; lia]|].
  destruct (is_cont a); [apply IH|]. destruct room as [|room]; [done|].
  destruct (IH room) as [H1 H2]. split; [|simpl; lia]. cbn [name_chars]. rewrite H1, andb_true_r. by case_match.
Qed.

Lemma sanitize_base_ok name : accepted_name (sanitize_base name).
Proof.
  unfold sanitize_base. destruct (sanitize_loop_ok name MAX_TOOL_NAME_LEN) as [H1 H2].
  destruct (String.eqb_spec (sanitize_loop name MAX_TOOL_NAME_LEN) EmptyString) as [|Hne]; [split; [done|simpl; unfold MAX_TOOL_NAME_LEN; lia]|].
  split; [done|]. split; [|done]. destruct (sanitize_loop name MAX_TOOL_NAME_LEN); [done|simpl; lia].
Qed.

Lemma name_chars_prefix n s : name_chars s = true → name_chars (str_prefix n s) = true.
Proof.
  unfold str_prefix. revert n. induction s as [|a s IH]; intros [|n]; simpl; try done.
  intros [-> Hs]%andb_prop. by apply IH.
Qed.

Lemma str_prefix_le n s : String.length (str_prefix n s) ≤ n.
Proof. unfold str_prefix. revert n. induction s as [|a s IH]; intros [|n]; simpl; try lia. specialize (IH n). lia. Qed.

Lemma hex_digit_ok d : (0 ≤ d < 16)%Z → name_char (hex_digit d) = true.
Proof.
  intros Hd. assert (Hc : d ∈ seqZ 0 16) by (apply elem_of_seqZ; lia). revert d Hd Hc.
  assert (Hall : Forall (λ d, name_char (hex_digit d) = true) (seqZ 0 16)) by (vm_compute; repeat constructor).
  rewrite Forall_forall in Hall. auto.
Qed.

Lemma hex_ok n h : name_chars (hex n h) = true ∧ String.length (hex n h) = n.
Proof.
  revert h. induction n as [|n IH]; intros h; [done|]. cbn [hex]. destruct (IH (h / 16)%Z) as [H1 H2].
  rewrite name_chars_app, string_length_app, H1, H2. cbn [name_chars String.length].
  rewrite hex_digit_ok by (apply Z.mod_pos_bound; lia). split; [done|lia].
Qed.

Lemma stable_suffix_ok s : name_chars (stable_suffix s) = true ∧ String.length (stable_suffix s) = SUFFIX_HEX_LEN.
Proof.
  unfold stable_suffix. destruct (hex_ok 16 (fnv1a s)) as [H1 H2]. split; [by apply name_chars_prefix|].
  apply str_prefix_length. rewrite H2. unfold SUFFIX_HEX_LEN. lia.
Qed.

Lemma with_suffix_ok base s : accepted_name base → accepted_name (with_suffix base (stable_suffix s)).
Proof.
  intros [Hb Hlen]. destruct (stable_suffix_ok s) as [Hs Hl]. unfold with_suffix, accepted_name. rewrite Hl.
  set (budget := MAX_TOOL_NAME_LEN - (SUFFIX_HEX_LEN + 1)).
  pose proof (name_chars_prefix budget base Hb) as Hp. pose proof (str_prefix_le budget base) as Hpl.
  destruct (String.eqb _ _); rewrite !name_chars_app, !string_length_app, Hs, Hl; cbn [name_chars String.length];
    unfold budget, MAX_TOOL_NAME_LEN, SUFFIX_HEX_LEN in *; [split; [done|lia]|]. rewrite Hp. split; [done|lia].
Qed.

(** ** The map is a bijection onto accepted names *)

Definition map_ok (m : ToolNameMap) : Prop :=
  (∀ o s, to_safe_map m !! o = Some s ↔ to_original_map m !! s = Some o) ∧
  (∀ o s, to_safe_map m !! o = Some s → accepted_name s).

Lemma bind_ok m o s :
  map_ok m → to_safe_map m !! o = None → is_free m s = true → accepted_name s → map_ok (bind m o s).
Proof.
  intros [Hbij Hacc] Ho Hs%bool_decide_eq_true Hok. split; simpl.
  - intros o' s'. rewrite !lookup_insert_Some, Hbij. split.
    + intros [[<- <-]|[Hne H]]; [by left|]. right. split; [intros ->; congruence|done].
    + intros [[<- <-]|[Hne H]]; [by left|]. right. split; [intros ->|done]. apply Hbij in H. congruence.
  - intros o' s' [[<- <-]|[_ H]]%lookup_insert_Some; [done|by eapply Hacc].
Qed.

(** What an insertion does to a map: it binds the name to a free accepted one,
    its own sanitised form when that is free. *)
Lemma insert_spec m o m' :
  map_ok m → insert m o = Some m' →
  (m' = m ∧ is_Some (to_safe_map m !! o)) ∨
  (∃ s, m' = bind m o s ∧ to_safe_map m !! o = None ∧ is_free m s = true ∧ accepted_name s ∧
        (is_free m (sanitize_base o) = true → s = sanitize_base o)).
Proof.
  intros Hm. unfold insert. destruct (to_safe_map m !! o) as [s|] eqn:Ho; [intros [= <-]; left; by eauto|].
  cbv zeta. pose proof (sanitize_base_ok o) as Hb. destruct (is_free m (sanitize_base o)) eqn:Hf.
  { intros [= <-]. right. eauto 10. }
  destruct (is_free m (with_suffix _ _)) eqn:Hf2.
  { intros [= <-]. right. eexists. split_and!; eauto using with_suffix_ok. done. }
  destruct (first_within _ _ _) as [s|] eqn:Hw; [|done]. intros [= <-]. right. exists s.
  apply first_within_Some in Hw as (k & _ & Hk). unfold free_at in Hk. case_match eqn:Hfree; [|done].
  injection Hk as <-. split_and!; eauto using with_suffix_ok. done.
Qed.

Lemma insert_ok m o m' : map_ok m → insert m o = Some m' → map_ok m' ∧ is_Some (to_safe_map m' !! o) ∧ to_safe_map m ⊆ to_safe_map m'.
Proof.
  intros Hm Hi. destruct (insert_spec m o m' Hm Hi) as [[-> ?]|(s & -> & Ho & Hf & Hacc & _)]; [done|].
  split; [by apply bind_ok|]. simpl. rewrite lookup_insert_eq. split; [done|by apply insert_subseteq].
Qed.

Lemma from_names_snoc names o : from_names (names ++ [o]) = (m ← from_names names; insert m o).
Proof. unfold from_names. by rewrite foldl_app. Qed.

Lemma from_names_ok names m :
  from_names names = Some m → map_ok m ∧ ∀ o, o ∈ names → is_Some (to_safe_map m !! o).
Proof.
  revert m. induction names as [|o names IH] using rev_ind; intros m.
  { intros [= <-]. split; [|by intros o ?%elem_of_nil]. split; simpl; intros o s; rewrite !lookup_empty; done. }
  rewrite from_names_snoc. destruct (from_names names) as [m0|]; [|done]. simpl. intros Hi.
  destruct (IH m0 eq_refl) as [Hm Hin]. destruct (insert_ok m0 o m Hm Hi) as (Hm' & Ho & Hsub). split; [done|].
  intros o' [Ho'| ->%list_elem_of_singleton]%elem_of_app; [|done].
  destruct (Hin o' Ho') as [s Hs]. exists s. by eapply lookup_weaken.
Qed.

(** Every name of a request is sent as a name the provider accepts, two
    different tools never share one, and the name the model answers with leads
    back to the tool it was made for; a name the request does not offer is
    still sent in accepted form. *)
Theorem tool_names_round_trip (names : list string) (m : ToolNameMap) (Hbuilt : from_names names = Some m) :
  (∀ o, accepted_name (to_safe m o)) ∧
  (∀ o, o ∈ names → to_original m (to_safe m o) = o) ∧
  (∀ o o', o ∈ names → o' ∈ names → to_safe m o = to_safe m o' → o = o').
Proof.
  destruct (from_names_ok names m Hbuilt) as [[Hbij Hacc] Hin].
  assert (Hround : ∀ o, o ∈ names → to_original m (to_safe m o) = o).
  { intros o [s Hs]%Hin. unfold to_safe, to_original. rewrite Hs. apply Hbij in Hs. by rewrite Hs. }
  split_and!; [|done|].
  - intros o. unfold to_safe. destruct (to_safe_map m !! o) eqn:Ho; [by eapply Hacc|apply sanitize_base_ok].
  - intros o o' Ho Ho' He. rewrite <- (Hround o), <- (Hround o') by done. by rewrite He.
Qed.

Lemma tool_names_round_trip_witness :
  from_names ["fs.read"; "fs:read"; "fs_read"] ≠ None ∧
  ∀ m, from_names ["fs.read"; "fs:read"; "fs_read"] = Some m → to_original m (to_safe m "fs:read") = "fs:read".
Proof.
  split; [by vm_compute|]. intros m Hm. destruct (tool_names_round_trip _ m Hm) as (_ & Hround & _).
  apply Hround, list_elem_of_further, list_elem_of_here.
Defined.

(** The walk ends: among more distinct candidates than names bound, one is free. *)
Lemma walk_finds_a_free_name m o base :
  NoDup ((λ i, with_suffix base (stable_suffix (o +:+ "#" +:+ pretty i))) <$> (N.of_nat <$> seq 0 (S (size (to_original_map m))))) →
  (N.of_nat (S (size (to_original_map m))) < 2 ^ 32)%N →
  first_within (2 ^ 32)%positive 0 (free_at m o base) ≠ None.
Proof.
  intros Hnd Hsmall Hnone. pose proof (first_within_None _ _ _ Hnone) as Hall.
  set (cands := (λ i, with_suffix base (stable_suffix (o +:+ "#" +:+ pretty i))) <$> (N.of_nat <$> seq 0 (S (size (to_original_map m))))) in *.
  assert (Hsub : (list_to_set cands : gset string) ⊆ dom (to_original_map m)).
  { intros c Hc. rewrite elem_of_list_to_set in Hc. unfold cands in Hc.
    rewrite !list_elem_of_fmap in Hc. destruct Hc as (i & -> & (k & -> & Hk)%list_elem_of_fmap).
    apply elem_of_seq in Hk. specialize (Hall (N.of_nat k)). unfold free_at in Hall. apply elem_of_dom.
    assert (Hrange : (0 ≤ N.of_nat k < 0 + N.pos (2 ^ 32))%N) by (change (N.pos (2 ^ 32)) with (2 ^ 32)%N; lia).
    specialize (Hall Hrange). case_match eqn:Hf; [done|]. apply bool_decide_eq_false in Hf. by apply not_eq_None_Some. }
  apply subseteq_size in Hsub. rewrite size_list_to_set, size_dom in Hsub by done. unfold cands in Hsub.
  rewrite !length_fmap, length_seq in Hsub. lia.
Qed.

(** Two originals that share a form are told apart by the order they come in,
    and an accepted name that comes second is renamed. *)
Lemma order_decides_who_is_renamed :
  (λ m, (to_safe m "a.b", to_safe m "a_b")) <$> from_names ["a.b"; "a_b"] = Some ("a_b", "a_b-14ced183") ∧
  (λ m, (to_safe m "a.b", to_safe m "a_b")) <$> from_names ["a_b"; "a.b"] = Some ("a_b-6a9df882", "a_b").
Proof. split; vm_compute; reflexivity. Qed.
