(* ===== verification/ConversationTables.v ===== *)
(** * The conversation tables

    Models the relational conversation store: [crates/storage/src/conversation.rs]
    (PostgreSQL, the one the daemon wires) and its mirror
    [crates/storage-sqlite/src/conversation.rs].  The two run the same statements
    over the same three tables and differ in their column types, in how [update]
    clears the rows it is about to rewrite and in what [list] shows; the class
    [Dialect] is that difference, so an operation is written once and the two
    adapters are its instances, in the file ConversationStores.

    A table is the map from its primary key to its rows; a statement enforces the
    schema's constraints (the primary keys, [UNIQUE (conversation_id, ordinal)],
    the foreign keys with their [ON DELETE] actions) and has no effect when it
    fails.  Any statement, and the beginning and the end of a transaction, may
    fail: [outcomes] lists what the statements to come are answered.  An operation
    is one step: two transactions of the store are not interleaved here. *)

From S2P Require Import Prelude Json TaskStore Messages.

(** ** JSON values are compared by the store *)

Definition value_eq_dec : ∀ v1 v2 : Value, {v1 = v2} + {v1 ≠ v2}.
Proof.
  refine (fix go (v1 v2 : Value) {struct v1} : {v1 = v2} + {v1 ≠ v2} :=
    match v1, v2 with
    | Null, Null => left eq_refl
    | Bool a, Bool b => match decide (a = b) with left H => left _ | right H => right _ end
    | Number a, Number b => match decide (a = b) with left H => left _ | right H => right _ end
    | Str a, Str b => match decide (a = b) with left H => left _ | right H => right _ end
    | Array a, Array b => match List.list_eq_dec go a b with left H => left _ | right H => right _ end
    | Object a, Object b =>
        match List.list_eq_dec (λ x y : string * Value,
                match decide (x.1 = y.1), go x.2 y.2 with
                | left H1, left H2 => left _
                | right H1, _ => right _
                | _, right H2 => right _
                end) a b with left H => left _ | right H => right _ end
    | _, _ => right _
    end); try congruence; destruct x, y; simpl in *; congruence.
Defined.

#[export] Instance Value_eq_dec : EqDecision Value := value_eq_dec.

(** ** Casts *)

(** [n as iW]. *)
Definition as_signed (w : Z) (n : nat) : Z :=
  let m := (Z.of_nat n `mod` 2 ^ w)%Z in if (m <? 2 ^ (w - 1))%Z then m else (m - 2 ^ w)%Z.

Lemma as_signed_small w n : (1 ≤ w)%Z → (Z.of_nat n < 2 ^ (w - 1))%Z → as_signed w n = Z.of_nat n.
Proof.
  intros Hw Hn. unfold as_signed. assert (2 ^ w = 2 * 2 ^ (w - 1))%Z as E.
  { rewrite <- Z.pow_succ_r by lia. f_equal. lia. }
  rewrite Z.mod_small by lia. by rewrite (proj2 (Z.ltb_lt _ _)).
Qed.

(** ** Columns of a message *)

Definition role_to_str (r : Role) : string :=
  match r with User => "user" | Assistant => "assistant" | System => "system" | Tool => "tool" end.

Definition str_to_role (s : string) : Role :=
  if bool_decide (s = "user") then User
  else if bool_decide (s = "assistant") then Assistant
  else if bool_decide (s = "system") then System
  else if bool_decide (s = "tool") then Tool
  else User.

(** The derived [Serialize] and [Deserialize] of a tool call: an object, or its
    fields in order. *)
Definition tool_call_value (c : ToolCall) : Value :=
  Object [("arguments", Str (call_arguments c)); ("id", Str (call_id c)); ("name", Str (call_name c))].

Definition tool_call_from (v : Value) : option ToolCall :=
  match v with
  | Object _ =>
      i ← get_str "id" v; n ← get_str "name" v; a ← get_str "arguments" v;
      Some {| call_id := i; call_name := n; call_arguments := a |}
  | Array [Str i; Str n; Str a] => Some {| call_id := i; call_name := n; call_arguments := a |}
  | _ => None
  end.

Definition tool_calls_from (v : Value) : option (list ToolCall) := as_array v ≫= mapM tool_call_from.

(** [tool_calls_json]: none is [NULL]. *)
Definition tool_calls_json (m : Message) : option Value :=
  match tool_calls m with [] => None | calls => Some (Array (map tool_call_value calls)) end.

(** What [msg_from_row] makes of the column. *)
Definition read_tool_calls (col : option Value) : list ToolCall := default [] (col ≫= tool_calls_from).

(** ** What differs between the two databases *)

Class Dialect := {
  Time : Type;                                   (** a timestamp column *)
  Tags : Type;                                   (** the [tags] column *)
  Notes : Type;                                  (** the [distilled_into] column *)
  Notes_dec : EqDecision Notes;
  width : Z;                                     (** of the integer columns *)
  write_time : Time → string → Time;             (** given what the clock reads *)
  read_time : Time → string;
  time_leb : Time → Time → bool;
  write_tags : list string → Tags;
  read_tags : Tags → list string;
  hidden_from_list : Tags → bool;
  distilled_into_column : list string → option Notes;
  read_notes : option Notes → list string;
  read_compacted : Z → nat
}.
#[export] Existing Instance Notes_dec.

(** What the columns have to do for the store to keep what it is given. *)
Class DialectLaws `{Dialect} := {
  width_pos : (1 ≤ width)%Z;
  time_leb_total x y : time_leb x y = true ∨ time_leb y x = true;
  time_leb_trans x y z : time_leb x y = true → time_leb y z = true → time_leb x z = true;
  read_write_tags l : read_tags (write_tags l) = l;
  read_write_notes l : read_notes (distilled_into_column l) = l;
  read_compacted_nat n : (Z.of_nat n < 2 ^ (width - 1))%Z → read_compacted (Z.of_nat n) = n
}.

(** ** The tables *)

Section tables.
Context `{Dialect}.

Record ConvRow := {
  cr_user : string;
  cr_title : string;
  cr_created_at : Time;
  cr_updated_at : Time;
  cr_context_summary : string;
  cr_compacted_through : Z;
  cr_archived_at : option Time;
  cr_active_task : option string;
  cr_tags : Tags;
  cr_last_model_selection : option Value;
  cr_personality_override : option Value;
  cr_tool_gate_disabled : bool
}.

Record MsgRow := {
  mr_user : string;
  mr_conversation : string;
  mr_ordinal : Z;
  mr_role : string;
  mr_content : string;
  mr_tool_calls : option Value;
  mr_tool_call_id : option string;
  mr_summary_id : option string;
  mr_idempotency_key : option string;
  mr_distilled_into : option Notes
}.

Record SummaryRow := {
  sr_user : string;
  sr_conversation : string;
  sr_summary : string;
  sr_start : Z;
  sr_end : Z
}.

Record Tables := {
  t_conversations : gmap string ConvRow;
  t_messages : gmap string MsgRow;
  t_summaries : gmap string SummaryRow
}.

Definition no_tables : Tables := {| t_conversations := ∅; t_messages := ∅; t_summaries := ∅ |}.

Record Db := { tables : Tables; outcomes : list (option string) }.

Definition set_conversations (t : Tables) (m : gmap string ConvRow) : Tables :=
  {| t_conversations := m; t_messages := t_messages t; t_summaries := t_summaries t |}.
Definition set_message_rows (t : Tables) (m : gmap string MsgRow) : Tables :=
  {| t_conversations := t_conversations t; t_messages := m; t_summaries := t_summaries t |}.
Definition set_summary_rows (t : Tables) (m : gmap string SummaryRow) : Tables :=
  {| t_conversations := t_conversations t; t_messages := t_messages t; t_summaries := m |}.

(** ** Statements *)

(** The constraint a statement violates. *)
Inductive Violation :=
| DuplicateKey (table key : string)
| DuplicateOrdinal (conversation : string) (ordinal : Z)
| MissingConversation (conversation : string)
| MissingSummary (summary : string).

(** [INSERT INTO conversations]. *)
Definition insert_conversation (i : string) (r : ConvRow) (t : Tables) : Tables * result unit Violation :=
  match t_conversations t !! i with
  | Some _ => (t, Err (DuplicateKey "conversations" i))
  | None => (set_conversations t (<[i := r]> (t_conversations t)), Ok tt)
  end.

Definition takes_slot (c : string) (o : Z) (r : MsgRow) : bool :=
  bool_decide (mr_conversation r = c) && (mr_ordinal r =? o)%Z.

(** [INSERT INTO messages]. *)
Definition insert_message_row (i : string) (r : MsgRow) (t : Tables) : Tables * result unit Violation :=
  match t_messages t !! i with
  | Some _ => (t, Err (DuplicateKey "messages" i))
  | None =>
      if existsb (λ x, takes_slot (mr_conversation r) (mr_ordinal r) x.2) (map_to_list (t_messages t))
      then (t, Err (DuplicateOrdinal (mr_conversation r) (mr_ordinal r)))
      else match t_conversations t !! mr_conversation r with
      | None => (t, Err (MissingConversation (mr_conversation r)))
      | Some _ =>
          match mr_summary_id r with
          | Some s =>
              match t_summaries t !! s with
              | None => (t, Err (MissingSummary s))
              | Some _ => (set_message_rows t (<[i := r]> (t_messages t)), Ok tt)
              end
          | None => (set_message_rows t (<[i := r]> (t_messages t)), Ok tt)
          end
      end
  end.

(** [INSERT INTO message_summaries]. *)
Definition insert_summary_row (i : string) (r : SummaryRow) (t : Tables) : Tables * result unit Violation :=
  match t_summaries t !! i with
  | Some _ => (t, Err (DuplicateKey "message_summaries" i))
  | None =>
      match t_conversations t !! sr_conversation r with
      | None => (t, Err (MissingConversation (sr_conversation r)))
      | Some _ => (set_summary_rows t (<[i := r]> (t_summaries t)), Ok tt)
      end
  end.

(** [UPDATE conversations SET ... WHERE user_id = ? AND id = ?], with the number
    of rows it changed. *)
Definition update_conversation (u i : string) (f : ConvRow → option ConvRow) (t : Tables) : Tables * result nat Violation :=
  match t_conversations t !! i with
  | Some r =>
      if bool_decide (cr_user r = u)
      then match f r with
           | Some r' => (set_conversations t (<[i := r']> (t_conversations t)), Ok 1)
           | None => (t, Ok 0)
           end
      else (t, Ok 0)
  | None => (t, Ok 0)
  end.

Definition clear_summary (r : MsgRow) : MsgRow :=
  {| mr_user := mr_user r; mr_conversation := mr_conversation r; mr_ordinal := mr_ordinal r; mr_role := mr_role r;
     mr_content := mr_content r; mr_tool_calls := mr_tool_calls r; mr_tool_call_id := mr_tool_call_id r;
     mr_summary_id := None; mr_idempotency_key := mr_idempotency_key r; mr_distilled_into := mr_distilled_into r |}.

Definition link_summary (s : string) (r : MsgRow) : MsgRow :=
  {| mr_user := mr_user r; mr_conversation := mr_conversation r; mr_ordinal := mr_ordinal r; mr_role := mr_role r;
     mr_content := mr_content r; mr_tool_calls := mr_tool_calls r; mr_tool_call_id := mr_tool_call_id r;
     mr_summary_id := Some s; mr_idempotency_key := mr_idempotency_key r; mr_distilled_into := mr_distilled_into r |}.

(** Rows go with the summaries [gone] ([ON DELETE SET NULL]). *)
Definition unlink (gone : string → bool) (r : MsgRow) : MsgRow :=
  match mr_summary_id r with
  | Some s => if gone s then clear_summary r else r
  | None => r
  end.

(** [DELETE FROM conversations], cascading. *)
Definition delete_conversation (u i : string) (t : Tables) : Tables * result nat Violation :=
  match t_conversations t !! i with
  | Some r =>
      if bool_decide (cr_user r = u)
      then
        let gone s := match t_summaries t !! s with Some x => bool_decide (sr_conversation x = i) | None => false end in
        ({| t_conversations := delete i (t_conversations t);
            t_messages := unlink gone <$> filter (λ x, mr_conversation x.2 ≠ i) (t_messages t);
            t_summaries := filter (λ x, sr_conversation x.2 ≠ i) (t_summaries t) |}, Ok 1)
      else (t, Ok 0)
  | None => (t, Ok 0)
  end.

(** [DELETE FROM message_summaries], clearing the references. *)
Definition delete_summary (u s : string) (t : Tables) : Tables * result nat Violation :=
  match t_summaries t !! s with
  | Some r =>
      if bool_decide (sr_user r = u)
      then ({| t_conversations := t_conversations t;
               t_messages := unlink (λ s', bool_decide (s' = s)) <$> t_messages t;
               t_summaries := delete s (t_summaries t) |}, Ok 1)
      else (t, Ok 0)
  | None => (t, Ok 0)
  end.

Definition of_user (u c : string) (r : MsgRow) : bool :=
  bool_decide (mr_user r = u) && bool_decide (mr_conversation r = c).

(** [DELETE FROM messages WHERE user_id = ? AND conversation_id = ? AND ...]. *)
Definition delete_messages (u c : string) (p : Z → bool) (t : Tables) : Tables * result unit Violation :=
  (set_message_rows t (filter (λ x, of_user u c x.2 && p (mr_ordinal x.2) = false) (t_messages t)), Ok tt).

(** [UPDATE messages SET summary_id = ? WHERE ... AND ordinal BETWEEN ? AND ?]. *)
Definition link_messages (u c s : string) (lo hi : Z) (t : Tables) : Tables * result unit Violation :=
  (set_message_rows t ((λ r, if of_user u c r && (lo <=? mr_ordinal r)%Z && (mr_ordinal r <=? hi)%Z
                             then link_summary s r else r) <$> t_messages t), Ok tt).

(** [SELECT ... FROM messages ... ORDER BY ordinal]. *)
Definition by_ordinal (x y : string * MsgRow) : bool := (mr_ordinal x.2 <=? mr_ordinal y.2)%Z.

Definition select_messages (u c : string) (t : Tables) : list (string * MsgRow) :=
  sort_by by_ordinal (filter (λ x, of_user u c x.2 = true) (map_to_list (t_messages t))).

(** [SELECT id, summary FROM message_summaries ... ORDER BY start_ordinal]. *)
Definition by_start (x y : string * SummaryRow) : bool := (sr_start x.2 <=? sr_start y.2)%Z.

Definition select_summaries (u c : string) (t : Tables) : list (string * SummaryRow) :=
  sort_by by_start (filter (λ x, sr_user x.2 = u ∧ sr_conversation x.2 = c) (map_to_list (t_summaries t))).

(** [SELECT ... FROM conversations WHERE user_id = ? AND id = ?]. *)
Definition select_conversation (u i : string) (t : Tables) : option ConvRow :=
  r ← t_conversations t !! i; if bool_decide (cr_user r = u) then Some r else None.

(** ** Running statements *)

(** The text of a violation. *)
Context (violation_text : Violation → string).

(** One statement of a pool or of a transaction. *)
Definition statement {A} (f : Tables → Tables * result A Violation) (d : Db) : Db * result A CoreError :=
  match outcomes d with
  | Some e :: rest => ({| tables := tables d; outcomes := rest |}, Err (Storage e))
  | o =>
      match f (tables d) with
      | (t, Ok a) => ({| tables := t; outcomes := tail o |}, Ok a)
      | (_, Err v) => ({| tables := tables d; outcomes := tail o |}, Err (Storage (violation_text v)))
      end
  end.

Definition query {A} (f : Tables → A) : Db → Db * result A CoreError := statement (λ t, (t, Ok (f t))).

(** [BEGIN] and [COMMIT]. *)
Definition nothing (t : Tables) : Tables * result unit Violation := (t, Ok tt).

Definition then_ {A B} (m : Db → Db * result A CoreError) (k : A → Db → Db * result B CoreError) (d : Db)
    : Db * result B CoreError :=
  match m d with
  | (d', Ok a) => k a d'
  | (d', Err e) => (d', Err e)
  end.

Definition fail {A} (e : CoreError) (d : Db) : Db * result A CoreError := (d, Err e).
Definition give {A} (a : A) (d : Db) : Db * result A CoreError := (d, Ok a).

(** [pool.begin() ... tx.commit()]: a transaction that is dropped or does not
    commit leaves the tables as they were. *)
Definition transaction {A} (body : Db → Db * result A CoreError) (d : Db) : Db * result A CoreError :=
  match then_ (statement nothing) (λ _, then_ body (λ a, then_ (statement nothing) (λ _, give a))) d with
  | (d', Ok a) => (d', Ok a)
  | (d', Err e) => ({| tables := tables d; outcomes := outcomes d' |}, Err e)
  end.

#[local] Notation "x ⇐ m ; k" := (then_ m (λ x, k)) (at level 100, m at next level, right associativity).

(** ** The port's operations

    [u] is [current_user_id()]; a [Time] argument is what the clock reads where
    the operation reads it. *)

Definition message_row (u c : string) (ordinal : nat) (m : Message) : MsgRow :=
  {| mr_user := u; mr_conversation := c; mr_ordinal := as_signed width ordinal; mr_role := role_to_str (role m);
     mr_content := content m; mr_tool_calls := tool_calls_json m; mr_tool_call_id := tool_call_id m;
     mr_summary_id := summary_id m; mr_idempotency_key := idempotency_key m;
     mr_distilled_into := distilled_into_column (distilled_into m) |}.

Definition insert_message (u c : string) (ordinal : nat) (m : Message) : Db → Db * result unit CoreError :=
  statement (insert_message_row (id m) (message_row u c ordinal m)).

Definition msg_from_row (x : string * MsgRow) : Message :=
  {| id := x.1; role := str_to_role (mr_role x.2); content := mr_content x.2; tool_calls := read_tool_calls (mr_tool_calls x.2);
     tool_call_id := mr_tool_call_id x.2; summary_id := mr_summary_id x.2; idempotency_key := mr_idempotency_key x.2;
     distilled_into := read_notes (mr_distilled_into x.2) |}.

Fixpoint insert_messages (u c : string) (ordinal : nat) (ms : list Message) : Db → Db * result unit CoreError :=
  match ms with
  | [] => give tt
  | m :: ms' => _ ⇐ insert_message u c ordinal m; insert_messages u c (S ordinal) ms'
  end.

Definition conversation_row (u : string) (now_created now_updated now_archived : Time) (conv : Conversation) : ConvRow :=
  {| cr_user := u; cr_title := conv_title conv; cr_created_at := write_time now_created (created_at conv);
     cr_updated_at := write_time now_updated (updated_at conv); cr_context_summary := context_summary conv;
     cr_compacted_through := as_signed width (compacted_through conv);
     cr_archived_at := write_time now_archived <$> archived_at conv; cr_active_task := active_task conv;
     cr_tags := write_tags (tags conv); cr_last_model_selection := None; cr_personality_override := None;
     cr_tool_gate_disabled := false |}.

Definition store_create (u : string) (now_created now_updated now_archived : Time) (conv : Conversation)
    : Db → Db * result unit CoreError :=
  transaction (
    _ ⇐ statement (insert_conversation (conv_id conv) (conversation_row u now_created now_updated now_archived conv));
    insert_messages u (conv_id conv) 0 (messages conv)).

Definition summary_from_row (x : string * SummaryRow) : MessageSummary := {| sum_id := x.1; sum_text := sr_summary x.2 |}.

Definition conversation_from (i : string) (r : ConvRow) (ms : list (string * MsgRow)) (ss : list (string * SummaryRow)) : Conversation :=
  {| conv_id := i; conv_title := cr_title r; created_at := read_time (cr_created_at r); updated_at := read_time (cr_updated_at r);
     messages := map msg_from_row ms; context_summary := cr_context_summary r;
     compacted_through := read_compacted (cr_compacted_through r); summaries := map summary_from_row ss;
     archived_at := read_time <$> cr_archived_at r; active_task := cr_active_task r; tags := read_tags (cr_tags r) |}.

Definition store_get (u i : string) : Db → Db * result Conversation CoreError :=
  row ⇐ query (select_conversation u i);
  match row with
  | None => fail (ConversationNotFound i)
  | Some r =>
      ms ⇐ query (select_messages u i);
      ss ⇐ query (select_summaries u i);
      give (conversation_from i r ms ss)
  end.

Record ConversationSummary := {
  cs_id : string;
  cs_title : string;
  cs_created_at : string;
  cs_updated_at : string;
  cs_message_count : nat;
  cs_archived : bool;
  cs_tags : list string
}.

Definition newest_first (x y : string * ConvRow) : bool := time_leb (cr_updated_at y.2) (cr_updated_at x.2).

(** One aggregate query: the caller's conversations, less the hidden ones, with
    the number of the caller's messages in each. *)
Definition listing (u : string) (t : Tables) : list ConversationSummary :=
  map (λ x, {| cs_id := x.1; cs_title := cr_title x.2; cs_created_at := read_time (cr_created_at x.2);
               cs_updated_at := read_time (cr_updated_at x.2);
               cs_message_count := length (filter (λ m, of_user u x.1 m.2 = true) (map_to_list (t_messages t)));
               cs_archived := bool_decide (is_Some (cr_archived_at x.2)); cs_tags := read_tags (cr_tags x.2) |})
    (sort_by newest_first
       (filter (λ x, cr_user x.2 = u ∧ hidden_from_list (cr_tags x.2) = false) (map_to_list (t_conversations t)))).

Definition store_list (u : string) : Db → Db * result (list ConversationSummary) CoreError := query (listing u).

(** [ExistingMsgRow::matches]. *)
Definition row_matches (x : string * MsgRow) (m : Message) : bool :=
  bool_decide (x.1 = id m) && bool_decide (mr_role x.2 = role_to_str (role m)) && bool_decide (mr_content x.2 = content m)
  && bool_decide (mr_tool_call_id x.2 = tool_call_id m) && bool_decide (mr_summary_id x.2 = summary_id m)
  && bool_decide (mr_tool_calls x.2 = tool_calls_json m)
  && bool_decide (mr_distilled_into x.2 = distilled_into_column (distilled_into m)).

(** The slots whose stored row is not the message that now sits there. *)
Fixpoint restated (existing : list (string * MsgRow)) (ordinal : nat) (ms : list Message) : list nat :=
  match ms with
  | [] => []
  | m :: ms' =>
      match existing !! ordinal with
      | Some row => if row_matches row m then restated existing (S ordinal) ms' else ordinal :: restated existing (S ordinal) ms'
      | None => restated existing (S ordinal) ms'
      end
  end.

Fixpoint write_changed (u c : string) (existing : list (string * MsgRow)) (ordinal : nat) (ms : list Message)
    : Db → Db * result unit CoreError :=
  match ms with
  | [] => give tt
  | m :: ms' =>
      if match existing !! ordinal with Some row => row_matches row m | None => false end
      then write_changed u c existing (S ordinal) ms'
      else _ ⇐ insert_message u c ordinal m; write_changed u c existing (S ordinal) ms'
  end.

Definition updated_row (now : Time) (conv : Conversation) (r : ConvRow) : ConvRow :=
  {| cr_user := cr_user r; cr_title := conv_title conv; cr_created_at := cr_created_at r;
     cr_updated_at := write_time now (updated_at conv); cr_context_summary := context_summary conv;
     cr_compacted_through := as_signed width (compacted_through conv); cr_archived_at := cr_archived_at r;
     cr_active_task := active_task conv; cr_tags := cr_tags r; cr_last_model_selection := cr_last_model_selection r;
     cr_personality_override := cr_personality_override r; cr_tool_gate_disabled := cr_tool_gate_disabled r |}.

(** How an adapter clears the slots [restated] and the rows from [len] on, when
    there were [stored] of them. *)
Definition Clearing : Type := string → string → list nat → nat → nat → Db → Db * result unit CoreError.

(** [update], less the clearing. *)
Definition update_with (clear_rows : Clearing) (u : string) (now : Time) (conv : Conversation) : Db → Db * result unit CoreError :=
  transaction (
    n ⇐ statement (update_conversation u (conv_id conv) (λ r, Some (updated_row now conv r)));
    if (n =? 0)%nat then fail (ConversationNotFound (conv_id conv))
    else
      existing ⇐ query (select_messages u (conv_id conv));
      _ ⇐ clear_rows u (conv_id conv) (restated existing 0 (messages conv)) (length (messages conv)) (length existing);
      write_changed u (conv_id conv) existing 0 (messages conv)).

(** PostgreSQL: one ranged [DELETE] for both. *)
Definition clear_ranged : Clearing := λ u c slots len stored,
  if negb (bool_decide (slots = [])) || (len <? stored)%nat
  then statement (delete_messages u c (λ o, (as_signed width len <=? o)%Z || existsb (λ s, (o =? as_signed width s)%Z) slots))
  else give tt.

(** SQLite: a [DELETE] for each slot, then one for the tail. *)
Fixpoint clear_slots (u c : string) (slots : list nat) : Db → Db * result unit CoreError :=
  match slots with
  | [] => give tt
  | s :: slots' => _ ⇐ statement (delete_messages u c (λ o, (o =? as_signed width s)%Z)); clear_slots u c slots'
  end.

Definition clear_each : Clearing := λ u c slots len stored,
  _ ⇐ clear_slots u c slots;
  if (len <? stored)%nat then statement (delete_messages u c (λ o, (as_signed width len <=? o)%Z)) else give tt.

Definition found (i : string) (n : nat) : Db → Db * result unit CoreError :=
  if (n =? 0)%nat then fail (ConversationNotFound i) else give tt.

Definition store_delete (u i : string) : Db → Db * result unit CoreError :=
  n ⇐ statement (delete_conversation u i); found i n.

Definition set_archived (a : option Time) (r : ConvRow) : ConvRow :=
  {| cr_user := cr_user r; cr_title := cr_title r; cr_created_at := cr_created_at r; cr_updated_at := cr_updated_at r;
     cr_context_summary := cr_context_summary r; cr_compacted_through := cr_compacted_through r; cr_archived_at := a;
     cr_active_task := cr_active_task r; cr_tags := cr_tags r; cr_last_model_selection := cr_last_model_selection r;
     cr_personality_override := cr_personality_override r; cr_tool_gate_disabled := cr_tool_gate_disabled r |}.

Definition store_archive (u : string) (now : Time) (i : string) : Db → Db * result unit CoreError :=
  n ⇐ statement (update_conversation u i (λ r,
        match cr_archived_at r with None => Some (set_archived (Some now) r) | Some _ => None end));
  if (n =? 0)%nat
  then exists_ ⇐ query (select_conversation u i);
       match exists_ with None => fail (ConversationNotFound i) | Some _ => give tt end
  else give tt.

Definition store_unarchive (u i : string) : Db → Db * result unit CoreError :=
  n ⇐ statement (update_conversation u i (λ r, Some (set_archived None r))); found i n.

(** [fresh] is the id [Uuid::now_v7] mints. *)
Definition store_create_summary (u fresh c summary : string) (lo hi : nat) : Db → Db * result string CoreError :=
  transaction (
    _ ⇐ statement (insert_summary_row fresh
          {| sr_user := u; sr_conversation := c; sr_summary := summary; sr_start := as_signed width lo; sr_end := as_signed width hi |});
    _ ⇐ statement (link_messages u c fresh (as_signed width lo) (as_signed width hi));
    give fresh).

Definition store_expand_summary (u s : string) : Db → Db * result unit CoreError :=
  _ ⇐ statement (delete_summary u s); give tt.

(** ** The columns beside the port *)

Definition set_selection (v : option Value) (r : ConvRow) : ConvRow :=
  {| cr_user := cr_user r; cr_title := cr_title r; cr_created_at := cr_created_at r; cr_updated_at := cr_updated_at r;
     cr_context_summary := cr_context_summary r; cr_compacted_through := cr_compacted_through r; cr_archived_at := cr_archived_at r;
     cr_active_task := cr_active_task r; cr_tags := cr_tags r; cr_last_model_selection := v;
     cr_personality_override := cr_personality_override r; cr_tool_gate_disabled := cr_tool_gate_disabled r |}.

Definition set_personality (v : option Value) (r : ConvRow) : ConvRow :=
  {| cr_user := cr_user r; cr_title := cr_title r; cr_created_at := cr_created_at r; cr_updated_at := cr_updated_at r;
     cr_context_summary := cr_context_summary r; cr_compacted_through := cr_compacted_through r; cr_archived_at := cr_archived_at r;
     cr_active_task := cr_active_task r; cr_tags := cr_tags r; cr_last_model_selection := cr_last_model_selection r;
     cr_personality_override := v; cr_tool_gate_disabled := cr_tool_gate_disabled r |}.

Definition set_gate (b : bool) (r : ConvRow) : ConvRow :=
  {| cr_user := cr_user r; cr_title := cr_title r; cr_created_at := cr_created_at r; cr_updated_at := cr_updated_at r;
     cr_context_summary := cr_context_summary r; cr_compacted_through := cr_compacted_through r; cr_archived_at := cr_archived_at r;
     cr_active_task := cr_active_task r; cr_tags := cr_tags r; cr_last_model_selection := cr_last_model_selection r;
     cr_personality_override := cr_personality_override r; cr_tool_gate_disabled := b |}.

(** The derived serialization of a column's value, [Err] with its error. *)
Section columns.
Context {A : Type} (to_value : A → result Value string) (from_value : Value → result A string).

Definition optional_json (what : string) (a : option A) : result (option Value) CoreError :=
  match a with
  | None => Ok None
  | Some a => match to_value a with Ok v => Ok (Some v) | Err e => Err (Storage (what +:+ " json: " +:+ e)) end
  end.

Definition set_json_column (set : option Value → ConvRow → ConvRow) (what u i : string) (a : option A) : Db → Db * result unit CoreError :=
  match optional_json what a with
  | Err e => fail e
  | Ok json => n ⇐ statement (update_conversation u i (λ r, Some (set json r))); found i n
  end.

Definition get_json_column (col : ConvRow → option Value) (what u i : string) : Db → Db * result (option A) CoreError :=
  row ⇐ query (select_conversation u i);
  match row with
  | None => fail (ConversationNotFound i)
  | Some r =>
      match col r with
      | None => give None
      | Some json =>
          match from_value json with
          | Ok a => give (Some a)
          | Err e => fail (Storage (what +:+ " JSON in DB is malformed: " +:+ e))
          end
      end
  end.
End columns.

Definition set_conversation_model_selection {A} (to_value : A → result Value string) := set_json_column to_value set_selection "selection".
Definition get_conversation_model_selection {A} (from_value : Value → result A string) :=
  get_json_column from_value cr_last_model_selection "last_model_selection".
Definition set_conversation_personality {A} (to_value : A → result Value string) := set_json_column to_value set_personality "personality".
Definition get_conversation_personality {A} (from_value : Value → result A string) :=
  get_json_column from_value cr_personality_override "personality_override".

Definition set_conversation_tool_gate_disabled (u i : string) (disabled : bool) : Db → Db * result unit CoreError :=
  n ⇐ statement (update_conversation u i (λ r, Some (set_gate disabled r))); found i n.

Definition get_conversation_tool_gate_disabled (u i : string) : Db → Db * result bool CoreError :=
  row ⇐ query (select_conversation u i);
  match row with None => fail (ConversationNotFound i) | Some r => give (cr_tool_gate_disabled r) end.

Definition get_conversation_tags (u i : string) : Db → Db * result (list string) CoreError :=
  row ⇐ query (select_conversation u i);
  give (match row with None => [] | Some r => read_tags (cr_tags r) end).

End tables.
