(* ===== verification/ConversationStores.v ===== *)
(** * What the conversation tables keep

    The lemmas behind the adapters of [ConversationTables]: how statements and
    transactions run ([healthy] when the connection answers), the rows of one
    conversation in their slots ([holds]), the two ways of clearing slots
    ([clears]), the save as a sequence of stages ([stage]), the invariant of the
    tables ([wf]) and that every operation, failing or not, keeps it ([run_wf]),
    and what is read after a save. *)

From S2P Require Import Prelude Json TaskStore Messages ConversationTables.


Lemma existsb_false_iff {A} (f : A → bool) l : existsb f l = false ↔ ∀ x, x ∈ l → f x = false.
Proof.
  rewrite <- not_true_iff_false, existsb_exists. split.
  - intros Hn x Hx. apply not_true_iff_false. intros Hf. apply Hn. exists x. by rewrite <- list_elem_of_In.
  - intros Hf (x & Hx%list_elem_of_In & Ht). by rewrite Hf in Ht.
Qed.

(** ** Statements and transactions *)

Section running.
Context `{Dialect} (vt : Violation → string).

(** No statement to come fails for a reason of the connection's. *)
Definition healthy (d : Db) : Prop := Forall (λ o, o = None) (outcomes d).

Lemma then_Ok {A B} (m : Db → Db * result A CoreError) (k : A → Db → Db * result B CoreError) d d' b :
  then_ m k d = (d', Ok b) ↔ ∃ d1 a, m d = (d1, Ok a) ∧ k a d1 = (d', Ok b).
Proof.
  unfold then_. destruct (m d) as [d1 [a|e]]; split.
  - intros Hk. by exists d1, a.
  - intros (? & ? & [= -> ->] & ?). done.
  - done.
  - by intros (? & ? & ? & ?).
Qed.

Lemma statement_Ok {A} (f : Tables → Tables * result A Violation) d d' a :
  statement vt f d = (d', Ok a) → f (tables d) = (tables d', Ok a) ∧ (healthy d → healthy d').
Proof.
  unfold statement, healthy. destruct (outcomes d) as [|[e|] os]; [|done|]; (destruct (f (tables d)) as [t [x|v]]; [|done]); intros [= <- <-]; split; try done.
  by inversion 1.
Qed.

Lemma statement_Err {A} (f : Tables → Tables * result A Violation) d d' e :
  statement vt f d = (d', Err e) → tables d' = tables d.
Proof. unfold statement. destruct (outcomes d) as [|[x|] os]; [destruct (f (tables d)) as [t [a|v]]|..|destruct (f (tables d)) as [t [a|v]]]; by intros [= <-]. Qed.

(** A statement that violates nothing runs on a healthy connection. *)
Lemma statement_healthy {A} (f : Tables → Tables * result A Violation) d t a :
  healthy d → f (tables d) = (t, Ok a) → ∃ d', statement vt f d = (d', Ok a) ∧ tables d' = t ∧ healthy d'.
Proof.
  unfold statement, healthy. intros Hd Hf. rewrite Hf. destruct (outcomes d) as [|o os]; [by eexists|].
  inversion Hd as [|?? -> Hos]; subst. by eexists.
Qed.

Lemma query_Ok {A} (f : Tables → A) d d' a : query vt f d = (d', Ok a) → tables d' = tables d ∧ a = f (tables d) ∧ (healthy d → healthy d').
Proof. intros [[= <- <-] Hh]%statement_Ok. done. Qed.

Lemma query_tables {A} (f : Tables → A) d d' r : query vt f d = (d', r) → tables d' = tables d.
Proof. destruct r as [a|e]; [by intros (? & _)%query_Ok|apply statement_Err]. Qed.

Lemma query_healthy {A} (f : Tables → A) d : healthy d → ∃ d', query vt f d = (d', Ok (f (tables d))) ∧ tables d' = tables d ∧ healthy d'.
Proof. intros Hd. by apply statement_healthy. Qed.

Lemma transaction_Err {A} (body : Db → Db * result A CoreError) d d' e : transaction vt body d = (d', Err e) → tables d' = tables d.
Proof. unfold transaction. destruct (then_ _ _ d) as [d0 [a|x]]; [done|]. by intros [= <- _]. Qed.

Lemma transaction_Ok {A} (body : Db → Db * result A CoreError) d d' a :
  transaction vt body d = (d', Ok a) →
  ∃ d1 d2, tables d1 = tables d ∧ body d1 = (d2, Ok a) ∧ tables d' = tables d2.
Proof.
  unfold transaction. destruct (then_ _ _ d) as [d0 [a0|x]] eqn:E; [|done]. intros [= -> ->].
  apply then_Ok in E as (d1 & [] & [[= E1] _]%statement_Ok & E). apply then_Ok in E as (d2 & a' & Hb & E).
  apply then_Ok in E as (d3 & [] & [[= E3] _]%statement_Ok & [= -> ->]). exists d1, d2. by rewrite E1, E3.
Qed.

Lemma transaction_healthy {A} (body : Db → Db * result A CoreError) d a :
  healthy d → (∀ d1, healthy d1 → tables d1 = tables d → ∃ d2, body d1 = (d2, Ok a) ∧ healthy d2) →
  ∃ d', transaction vt body d = (d', Ok a) ∧ healthy d'.
Proof.
  intros Hd Hb. destruct (statement_healthy nothing d _ _ Hd eq_refl) as (d1 & E1 & Ht1 & Hd1).
  destruct (Hb d1 Hd1 Ht1) as (d2 & E2 & Hd2). destruct (statement_healthy nothing d2 _ _ Hd2 eq_refl) as (d3 & E3 & _ & Hd3).
  exists d3. unfold transaction, then_. by rewrite E1, E2, E3.
Qed.

(** The row a message becomes. *)
Lemma insert_message_row_Ok i r t t' :
  insert_message_row i r t = (t', Ok tt) →
  t_messages t !! i = None ∧ t' = set_message_rows t (<[i := r]> (t_messages t)) ∧
  is_Some (t_conversations t !! mr_conversation r) ∧ (∀ s, mr_summary_id r = Some s → is_Some (t_summaries t !! s)).
Proof.
  unfold insert_message_row. destruct (t_messages t !! i); [done|]. case_match; [done|].
  destruct (t_conversations t !! _) eqn:Ec; [|done]. destruct (mr_summary_id r) as [s|] eqn:Es.
  - destruct (t_summaries t !! s) eqn:Et; [|done]. intros [= <-]. split_and!; [done..|]. intros ? [= <-]. by rewrite Et.
  - intros [= <-]. by split_and!.
Qed.

Lemma insert_message_row_success i r t :
  t_messages t !! i = None →
  (∀ j x, t_messages t !! j = Some x → mr_conversation x = mr_conversation r → mr_ordinal x ≠ mr_ordinal r) →
  is_Some (t_conversations t !! mr_conversation r) → (∀ s, mr_summary_id r = Some s → is_Some (t_summaries t !! s)) →
  insert_message_row i r t = (set_message_rows t (<[i := r]> (t_messages t)), Ok tt).
Proof.
  intros Hi Hslot [c Hc] Hs. unfold insert_message_row. rewrite Hi.
  destruct (existsb _ _) eqn:E.
  - exfalso. apply existsb_exists in E as ([j x] & Hx%list_elem_of_In%elem_of_map_to_list & E).
    unfold takes_slot in E. apply andb_true_iff in E as [E1%bool_decide_eq_true E2%Z.eqb_eq]. by eapply Hslot.
  - rewrite Hc. destruct (mr_summary_id r) as [s|]; [|done]. by destruct (Hs s eq_refl) as [? ->].
Qed.
End running.

(** ** The rows of a conversation *)

Section rows.
Context `{Dialect}.

(** The rows of [c] are [rows], each at its own slot. *)
Definition holds (t : Tables) (c : string) (rows : list (string * MsgRow)) : Prop :=
  (∀ i j r, rows !! i = Some (j, r) → t_messages t !! j = Some r ∧ mr_conversation r = c ∧ mr_ordinal r = Z.of_nat i) ∧
  (∀ j r, t_messages t !! j = Some r → mr_conversation r = c → ∃ i, rows !! i = Some (j, r)).

Definition owned (u : string) (rows : list (string * MsgRow)) : Prop := Forall (λ x, mr_user x.2 = u) rows.

Lemma holds_NoDup t c rows : holds t c rows → NoDup rows.
Proof.
  intros [Hr _]. apply NoDup_alt. intros i j [k r] Hi Hj.
  apply Hr in Hi as (_ & _ & Hi). apply Hr in Hj as (_ & _ & Hj). lia.
Qed.

Lemma holds_sorted t c rows : holds t c rows → sorted_by by_ordinal rows.
Proof.
  intros [Hr _]. assert (Hs : ∀ k, sorted_by by_ordinal (drop k rows)); [|apply (Hs 0)].
  intros k. remember (length rows - k) as n eqn:Hn. revert k Hn. induction n as [|n IH]; intros k Hn.
  { rewrite drop_ge by lia. constructor. }
  destruct (rows !! k) as [x|] eqn:Ek; [|apply lookup_ge_None in Ek; lia].
  rewrite (drop_S _ _ _ Ek). constructor; [apply IH; lia|]. apply Forall_lookup_2. intros i y Hy.
  rewrite lookup_drop in Hy. destruct x as [xi xr], y as [yi yr]. apply Hr in Ek as (_ & _ & Ek). apply Hr in Hy as (_ & _ & Hy).
  unfold by_ordinal. cbn [snd]. apply Z.leb_le. lia.
Qed.

(** [ORDER BY ordinal] reads them in their order, from any tables with these rows
    of [u]'s. *)
Lemma select_rows t t' u c rows :
  holds t c rows → owned u rows →
  (∀ j r, mr_user r = u → mr_conversation r = c → t_messages t' !! j = Some r ↔ t_messages t !! j = Some r) →
  select_messages u c t' = rows.
Proof.
  intros Hh Ho Hsame. unfold select_messages. assert (Hp : filter (λ x, of_user u c x.2 = true) (map_to_list (t_messages t')) ≡ₚ rows).
  { apply NoDup_Permutation; [apply NoDup_filter, NoDup_map_to_list|by eapply holds_NoDup|].
    intros [j r]. rewrite list_elem_of_filter, elem_of_map_to_list. unfold of_user. cbn [snd].
    rewrite andb_true_iff, !bool_decide_eq_true. split.
    - intros [[Hu Hc] Hj%Hsame]; [|done..]. apply Hh in Hj as [i Hi]; [|done]. by eapply list_elem_of_lookup_2.
    - intros [i Hi]%list_elem_of_lookup. pose proof (Forall_lookup_1 _ _ _ _ Ho Hi) as Hu. apply Hh in Hi as (Hj & ? & _). cbn in Hu.
      split; [done|]. by apply Hsame. }
  apply (StronglySorted_unique_strong (λ x y, by_ordinal x y = true)).
  - intros [i x] [j y] Hx Hy E1 E2. unfold by_ordinal in E1, E2. cbn [snd] in E1, E2.
    apply elem_of_sort_by in Hx. rewrite Hp in Hx. apply list_elem_of_lookup in Hx as [n Hn], Hy as [m Hm].
    apply Hh in Hn as Hn'. apply Hh in Hm as Hm'. assert (n = m) as -> by lia. congruence.
  - apply sort_by_sorted; unfold by_ordinal; intros; [|]; lia.
  - by eapply holds_sorted.
  - by rewrite sort_by_perm, Hp.
Qed.

Lemma select_holds t u c rows : holds t c rows → owned u rows → select_messages u c t = rows.
Proof. intros Hh Ho. by eapply select_rows. Qed.
End rows.

(** ** Saving a conversation's messages *)

Section saving.
Context `{DialectLaws} (vt : Violation → string).

(** The width holds an index. *)
Definition fits (n : nat) : Prop := (Z.of_nat n < 2 ^ (width - 1))%Z.

Lemma fits_signed n : fits n → as_signed width n = Z.of_nat n.
Proof. intros Hn. apply as_signed_small; [apply width_pos|done]. Qed.

Lemma fits_le n k : k ≤ n → fits n → fits k.
Proof. unfold fits. lia. Qed.

(** *** What is restated *)

Lemma elem_of_restated existing ms i :
  i ∈ restated existing 0 ms ↔ ∃ m x, ms !! i = Some m ∧ existing !! i = Some x ∧ row_matches x m = false.
Proof.
  assert (Hg : ∀ ms k, i ∈ restated existing k ms ↔ ∃ j m x, i = k + j ∧ ms !! j = Some m ∧ existing !! i = Some x ∧ row_matches x m = false).
  { clear. induction ms as [|m ms IH]; intros k; cbn [restated]; [set_solver|].
    assert (Hlater : i ∈ restated existing (S k) ms ↔ ∃ j m' x, i = k + S j ∧ (m :: ms) !! S j = Some m' ∧ existing !! i = Some x ∧ row_matches x m' = false).
    { rewrite IH. split; intros (j & m' & x & Hi & ?); exists j, m', x; (split; [lia|done]). }
    transitivity ((i = k ∧ ∃ x, existing !! i = Some x ∧ row_matches x m = false) ∨ i ∈ restated existing (S k) ms).
    - destruct (existing !! k) as [x|] eqn:Ex; [destruct (row_matches x m) eqn:Em|].
      + split; [by right|]. intros [(-> & y & Hy & Hm)|?]; [congruence|done].
      + rewrite elem_of_cons. split; [intros [->|?]; [left; split; [done|by exists x]|by right]|intros [[? _]|?]; [by left|by right]].
      + split; [by right|]. intros [(-> & y & Hy & Hm)|?]; [congruence|done].
    - rewrite Hlater. split.
      + intros [(-> & x & Hx & Hm)|(j & m' & x & Hj)]; [exists 0, m, x; split_and!; [lia|done..]|by exists (S j), m', x].
      + intros ([|j] & m' & x & -> & Hj & Hx & Hm); [left|right; by exists j, m', x]. injection Hj as <-.
        rewrite Nat.add_0_r in *. split; [done|]. by exists x. }
  rewrite Hg. split; [intros (j & m & x & -> & ?); by exists m, x|intros (m & x & ?); by exists i, m, x].
Qed.

(** *** What a clearing does *)

Definition kept_row (c : string) (len : nat) (slots : list nat) (r : MsgRow) : Prop :=
  mr_conversation r ≠ c ∨ ∃ i, mr_ordinal r = Z.of_nat i ∧ i < len ∧ i ∉ slots.

(** A clearing drops the slots named and the tail, and nothing else. *)
Definition clears (cl : Clearing) : Prop :=
  ∀ u c existing slots len d,
    holds (tables d) c existing → owned u existing → fits len → (∀ s, s ∈ slots → s < len) →
    (∀ d', cl u c slots len (length existing) d = (d', Ok tt) →
       t_conversations (tables d') = t_conversations (tables d) ∧ t_summaries (tables d') = t_summaries (tables d) ∧
       ∀ j r, t_messages (tables d') !! j = Some r ↔ t_messages (tables d) !! j = Some r ∧ kept_row c len slots r) ∧
    (healthy d → ∃ d', cl u c slots len (length existing) d = (d', Ok tt) ∧ healthy d').

Lemma holds_row t u c existing j r :
  holds t c existing → owned u existing → t_messages t !! j = Some r → mr_conversation r = c →
  mr_user r = u ∧ ∃ i, i < length existing ∧ mr_ordinal r = Z.of_nat i.
Proof.
  intros Hh Ho Hj Hc. destruct (proj2 Hh _ _ Hj Hc) as [i Hi]. pose proof (Forall_lookup_1 _ _ _ _ Ho Hi) as Hu.
  split; [exact Hu|]. exists i. split; [by eapply lookup_lt_Some|]. by apply Hh in Hi as (_ & _ & ?).
Qed.

(** The slots named and, when [tail] is on, the rows from [len]. *)
Definition dropped (tail : bool) (len : nat) (slots : list nat) (o : Z) : bool :=
  tail && (as_signed width len <=? o)%Z || existsb (λ s, (o =? as_signed width s)%Z) slots.

Lemma dropped_iff t u c existing slots len tail j r :
  holds t c existing → owned u existing → fits len → (∀ s, s ∈ slots → s < len) → tail = true ∨ length existing ≤ len →
  t_messages t !! j = Some r →
  of_user u c r && dropped tail len slots (mr_ordinal r) = false ↔ kept_row c len slots r.
Proof.
  intros Hh Ho Hfit Hslots Htail Hj. unfold of_user, kept_row, dropped. destruct (decide (mr_conversation r = c)) as [Hc|Hc].
  2:{ rewrite (bool_decide_eq_false_2 (mr_conversation r = c)) by done. rewrite andb_false_r. split; [by left|done]. }
  destruct (holds_row _ _ _ _ _ _ Hh Ho Hj Hc) as (Hu & i & Hi & Hoi).
  assert (Hs : ∀ s, s ∈ slots → as_signed width s = Z.of_nat s).
  { intros s Hs. apply fits_signed. eapply fits_le; [|exact Hfit]. specialize (Hslots _ Hs). lia. }
  rewrite !bool_decide_eq_true_2 by done. cbn [andb]. rewrite fits_signed, Hoi, orb_false_iff, andb_false_iff, Z.leb_gt, existsb_false_iff by done. split.
  - intros [Hlt Hno]. right. exists i. split_and!; [done| |].
    + destruct Hlt as [->|Hlt]; [destruct Htail; [done|lia]|lia].
    + intros Hin. specialize (Hno i Hin). by rewrite Hs, Z.eqb_refl in Hno.
  - intros [?|(k & Hk & Hlt & Hno)]; [done|]. assert (k = i) as -> by lia. split; [right; lia|]. intros s Hin.
    rewrite Hs by done. apply Z.eqb_neq. intros ?. assert (s = i) as -> by lia. done.
Qed.

(** Deleting the rows of [u]'s [c] at the ordinals [p]. *)
Definition deletes (u c : string) (p : Z → bool) (op : Db → Db * result unit CoreError) : Prop :=
  (∀ d d', op d = (d', Ok tt) →
     t_conversations (tables d') = t_conversations (tables d) ∧ t_summaries (tables d') = t_summaries (tables d) ∧
     ∀ j r, t_messages (tables d') !! j = Some r ↔ t_messages (tables d) !! j = Some r ∧ of_user u c r && p (mr_ordinal r) = false) ∧
  (∀ d, healthy d → ∃ d', op d = (d', Ok tt) ∧ healthy d').

Lemma deletes_statement u c p : deletes u c p (statement vt (delete_messages u c p)).
Proof.
  split.
  - intros d d' [Hd _]%statement_Ok. injection Hd as Ht. rewrite <- Ht. split_and!; [done..|].
    intros j r. cbn [t_messages set_message_rows]. apply map_lookup_filter_Some.
  - intros d Hd. destruct (statement_healthy vt (delete_messages u c p) d _ _ Hd eq_refl) as (d' & E & _ & ?). by exists d'.
Qed.

Lemma deletes_nothing u c : deletes u c (λ _, false) (give tt).
Proof.
  split; [|intros d Hd; by exists d]. intros d d' [= <-]. split_and!; [done..|]. intros j r. rewrite andb_false_r. tauto.
Qed.

Lemma deletes_ext u c p q op : (∀ o, p o = q o) → deletes u c p op → deletes u c q op.
Proof.
  intros Hpq [Hok Hh]. split; [|done]. intros d d' (Hc & Hs & Hm)%Hok. split_and!; [done..|]. intros j r. by rewrite Hm, Hpq.
Qed.

Lemma deletes_then u c p q op1 op2 :
  deletes u c p op1 → deletes u c q op2 → deletes u c (λ o, p o || q o) (then_ op1 (λ _, op2)).
Proof.
  intros [Hok1 Hh1] [Hok2 Hh2]. split.
  - intros d d' (d1 & [] & (Hc1 & Hs1 & Hm1)%Hok1 & (Hc2 & Hs2 & Hm2)%Hok2)%then_Ok. rewrite Hc2, Hs2. split_and!; [done..|].
    intros j r. rewrite Hm2, Hm1, andb_orb_distrib_r, orb_false_iff. tauto.
  - intros d (d1 & E1 & Hd1)%Hh1. apply Hh2 in Hd1 as (d2 & E2 & Hd2). exists d2. split; [|done]. apply then_Ok. by exists d1, tt.
Qed.

Lemma clear_slots_deletes u c slots : deletes u c (λ o, existsb (λ s, (o =? as_signed width s)%Z) slots) (clear_slots vt u c slots).
Proof. induction slots as [|s slots IH]; [apply deletes_nothing|]. apply deletes_then; [apply deletes_statement|exact IH]. Qed.

Lemma deletes_clears (cl : Clearing) :
  (∀ u c slots len stored, ∃ tail, (tail = true ∨ stored ≤ len) ∧ deletes u c (dropped tail len slots) (cl u c slots len stored)) →
  clears cl.
Proof.
  intros Hcl u c existing slots len d Hh Ho Hfit Hslots. destruct (Hcl u c slots len (length existing)) as (tail & Htail & Hok & Hhealthy).
  split; [|by apply Hhealthy]. intros d' (Hc & Hs & Hm)%Hok. split_and!; [done..|]. intros j r. rewrite Hm.
  split; intros [Hj Hk]; (split; [done|]); by eapply (dropped_iff (tables d)).
Qed.

(** Both adapters clear what is to be rewritten. *)
Lemma clear_ranged_clears : clears (clear_ranged vt).
Proof.
  apply deletes_clears. intros u c slots len stored. unfold clear_ranged.
  destruct (negb (bool_decide (slots = [])) || (len <? stored)) eqn:E.
  - exists true. split; [by left|]. apply deletes_statement.
  - apply orb_false_iff in E as [Es%negb_false_iff%bool_decide_eq_true El%Nat.ltb_ge]. subst. exists false. split; [by right|]. apply deletes_nothing.
Qed.

Lemma clear_each_clears : clears (clear_each vt).
Proof.
  apply deletes_clears. intros u c slots len stored. unfold clear_each. exists (len <? stored). split.
  - destruct (Nat.ltb_spec len stored); [by left|right; lia].
  - apply (deletes_ext u c (λ o, existsb (λ s, (o =? as_signed width s)%Z) slots || ((len <? stored) && (as_signed width len <=? o)%Z)));
      [intros o; apply orb_comm|]. apply deletes_then; [apply clear_slots_deletes|].
    destruct (len <? stored); [apply deletes_statement|apply deletes_nothing].
Qed.

(** *** What is written *)

Definition kept (existing : list (string * MsgRow)) (i : nat) (m : Message) : bool :=
  match existing !! i with Some x => row_matches x m | None => false end.

(** The row of slot [i] after a save. *)
Definition slot_row (u c : string) (existing : list (string * MsgRow)) (i : nat) (m : Message) : string * MsgRow :=
  match existing !! i with
  | Some x => if row_matches x m then x else (id m, message_row u c i m)
  | None => (id m, message_row u c i m)
  end.

Definition saved_rows (u c : string) (existing : list (string * MsgRow)) (ms : list Message) : list (string * MsgRow) :=
  imap (slot_row u c existing) ms.

Lemma row_matches_id x m : row_matches x m = true → x.1 = id m.
Proof. unfold row_matches. rewrite !andb_true_iff, !bool_decide_eq_true. tauto. Qed.

Lemma slot_row_id u c existing i m : (slot_row u c existing i m).1 = id m.
Proof. unfold slot_row. destruct (existing !! i) as [x|]; [|done]. destruct (row_matches x m) eqn:E; [by apply row_matches_id|done]. Qed.

Lemma slot_row_new u c existing i m : kept existing i m = false → slot_row u c existing i m = (id m, message_row u c i m).
Proof. unfold kept, slot_row. destruct (existing !! i) as [x|]; [|done]. by intros ->. Qed.

Lemma slot_row_kept u c existing i m : kept existing i m = true → existing !! i = Some (slot_row u c existing i m).
Proof. unfold kept, slot_row. destruct (existing !! i) as [x|]; [|done]. by intros ->. Qed.

Section write.
Context (t0 : Tables) (u c : string) (existing : list (string * MsgRow)) (ms : list Message).
Context (Hheld : holds t0 c existing) (Hown : owned u existing) (Hfit : fits (length ms)).

Lemma slot_row_place i m : ms !! i = Some m →
  mr_user (slot_row u c existing i m).2 = u ∧ mr_conversation (slot_row u c existing i m).2 = c ∧
  mr_ordinal (slot_row u c existing i m).2 = Z.of_nat i.
Proof.
  intros Hi. destruct (kept existing i m) eqn:Ek.
  - apply (slot_row_kept u c) in Ek. pose proof (Forall_lookup_1 _ _ _ _ Hown Ek) as Hu. rewrite (surjective_pairing (slot_row _ _ _ _ _)) in Ek.
    apply (proj1 Hheld) in Ek as (_ & ? & ?). done.
  - rewrite slot_row_new by done. split_and!; [done..|]. apply fits_signed. eapply fits_le; [|exact Hfit].
    apply lookup_lt_Some in Hi. lia.
Qed.

(** The rows while slot [k] is next: the other conversations', those written and
    those that stay. *)
Definition stage (k : nat) (rows : gmap string MsgRow) : Prop :=
  ∀ j r, rows !! j = Some r ↔
    t_messages t0 !! j = Some r ∧ mr_conversation r ≠ c ∨
    ∃ i m, ms !! i = Some m ∧ slot_row u c existing i m = (j, r) ∧ (i < k ∨ kept existing i m = true).

Lemma stage_cleared rows :
  (∀ j r, rows !! j = Some r ↔ t_messages t0 !! j = Some r ∧ kept_row c (length ms) (restated existing 0 ms) r) → stage 0 rows.
Proof.
  intros Hrows j r. rewrite Hrows. unfold kept_row. split.
  - intros [Hj Hk]. destruct (decide (mr_conversation r = c)) as [Hc|Hc]; [right|by left]. destruct Hk as [?|(i & Ho & Hi & Hno)]; [done|].
    destruct (proj2 Hheld _ _ Hj Hc) as [i' Hi']. apply (proj1 Hheld) in Hi' as Ho'. assert (i' = i) as -> by lia.
    destruct (lookup_lt_is_Some_2 ms i Hi) as [m Hm]. exists i, m. split; [done|].
    assert (Hk : row_matches (j, r) m = true).
    { apply not_false_iff_true. intros Hf. apply Hno, elem_of_restated. by exists m, (j, r). }
    unfold slot_row, kept. rewrite Hi', Hk. split; [done|by right].
  - intros [[Hj Hc]|(i & m & Hm & Hs & [?|Hk])]; [by split; [|left]|lia|]. pose proof (slot_row_place i m Hm) as Hp.
    pose proof Hk as Hk'. apply (slot_row_kept u c) in Hk. rewrite Hs in Hk, Hp. destruct (proj1 Hheld _ _ _ Hk) as (Hj & _). split; [done|]. right. exists i.
    split_and!; [apply Hp|by eapply lookup_lt_Some|]. intros (m' & x & Hm' & Hx & Hno)%elem_of_restated. simplify_eq.
    unfold kept in Hk'. rewrite Hk in Hk'. congruence.
Qed.

Lemma stage_kept k rows m : ms !! k = Some m → kept existing k m = true → stage k rows → stage (S k) rows.
Proof.
  intros Hm Hk Hst j r. rewrite (Hst j r). apply or_iff_compat_l. split; intros (i & m' & Hi & Hs & Ho); exists i, m'; (split_and!; [done..|]).
  - destruct Ho; [left; lia|by right].
  - destruct Ho as [Ho|]; [|by right]. destruct (decide (i = k)) as [->|]; [right|left; lia]. congruence.
Qed.

Lemma stage_insert k rows m :
  ms !! k = Some m → kept existing k m = false → rows !! id m = None → stage k rows →
  stage (S k) (<[id m := message_row u c k m]> rows).
Proof.
  intros Hm Hk Hnone Hst j r. destruct (decide (j = id m)) as [->|Hj].
  - rewrite lookup_insert_eq. split.
    + intros [= <-]. right. exists k, m. split_and!; [done|by apply slot_row_new|left; lia].
    + intros [Ho|(i & m' & Hi & Hs & Ho)]; [exfalso|].
      { assert (rows !! id m = Some r) by (apply Hst; by left). congruence. }
      destruct (decide (i = k)) as [->|Hik].
      { replace m' with m in Hs by congruence. rewrite slot_row_new in Hs by done. congruence. }
      assert (rows !! id m = Some r); [|congruence]. apply Hst. right. exists i, m'. split_and!; [done..|]. destruct Ho; [left; lia|by right].
  - rewrite lookup_insert_ne by done. rewrite (Hst j r). apply or_iff_compat_l. split; intros (i & m' & Hi & Hs & Ho); exists i, m'; (split_and!; [done..|]).
    + destruct Ho; [left; lia|by right].
    + destruct Ho as [Ho|]; [|by right]. destruct (decide (i = k)) as [->|]; [exfalso|left; lia].
      apply Hj. pose proof (slot_row_id u c existing k m') as E. rewrite Hs in E. cbn in E. congruence.
Qed.

(** A save that ends has put every message at its slot. *)
Lemma write_changed_stage k d d' :
  stage k (t_messages (tables d)) → write_changed vt u c existing k (drop k ms) d = (d', Ok tt) →
  stage (length ms) (t_messages (tables d')) ∧
  t_conversations (tables d') = t_conversations (tables d) ∧ t_summaries (tables d') = t_summaries (tables d).
Proof.
  remember (length ms - k) as n eqn:Hn. revert k d Hn. induction n as [|n IH]; intros k d Hn Hst.
  { rewrite drop_ge by lia. intros [= <-]. split_and!; [|done..]. intros j r. rewrite (Hst j r). apply or_iff_compat_l.
    split; intros (i & m & Hi & Hs & Ho); exists i, m; (split_and!; [done..|left]; apply lookup_lt_Some in Hi; lia). }
  destruct (ms !! k) as [m|] eqn:Em; [|apply lookup_ge_None in Em; lia]. rewrite (drop_S _ _ _ Em). cbn [write_changed].
  fold (kept existing k m). destruct (kept existing k m) eqn:Ek.
  - intros Hw. apply (IH (S k) d); [lia| |exact Hw]. by eapply stage_kept.
  - intros (d1 & [] & [Hi _]%statement_Ok & Hw)%then_Ok. apply insert_message_row_Ok in Hi as (Hnone & Ht & _).
    apply (IH (S k) d1) in Hw as (Hst' & Hc & Hs); [|lia|rewrite Ht; by eapply stage_insert]. rewrite Hc, Hs, Ht. done.
Qed.

(** It does end when no id is taken, twice or elsewhere, and no summary is
    missing: the rows that stay and those already written are in nobody's way. *)
Lemma write_changed_healthy k d :
  NoDup (map id ms) → (∀ m j r, m ∈ ms → t_messages t0 !! j = Some r → mr_conversation r ≠ c → j ≠ id m) →
  (∀ m s, m ∈ ms → summary_id m = Some s → is_Some (t_summaries (tables d) !! s)) → is_Some (t_conversations (tables d) !! c) →
  stage k (t_messages (tables d)) → healthy d → ∃ d', write_changed vt u c existing k (drop k ms) d = (d', Ok tt) ∧ healthy d'.
Proof.
  intros Hnd Hfree. remember (length ms - k) as n eqn:Hn. revert k d Hn. induction n as [|n IH]; intros k d Hn Hsum Hconv Hst Hd.
  { rewrite drop_ge by lia. by exists d. }
  destruct (ms !! k) as [m|] eqn:Em; [|apply lookup_ge_None in Em; lia]. rewrite (drop_S _ _ _ Em). cbn [write_changed].
  fold (kept existing k m). destruct (kept existing k m) eqn:Ek.
  { apply (IH (S k) d); [lia|done..| |done]. by eapply stage_kept. }
  assert (Hm : m ∈ ms) by (by eapply list_elem_of_lookup_2).
  assert (Hnone : t_messages (tables d) !! id m = None).
  { apply eq_None_not_Some. intros [r [[Hj Hc]|(i & m' & Hi & Hs & Ho)]%Hst]; [by eapply Hfree|].
    pose proof (slot_row_id u c existing i m') as E. rewrite Hs in E. cbn [fst] in E.
    assert (i = k) as ->; [|destruct Ho; [lia|congruence]]. apply (NoDup_lookup (map id ms) _ _ (id m)); [done| |];
      rewrite list_lookup_fmap; [rewrite Hi|rewrite Em]; cbn; congruence. }
  assert (Hrow : insert_message_row (id m) (message_row u c k m) (tables d) =
    (set_message_rows (tables d) (<[id m := message_row u c k m]> (t_messages (tables d))), Ok tt)).
  { apply insert_message_row_success; [done| |done|intros s; by apply Hsum]. intros j x Hx Hc Ho. cbn in Hc.
    apply Hst in Hx as [[_ ?]|(i & m' & Hi & Hs & Hor)]; [done|]. pose proof (slot_row_place i m' Hi) as (_ & _ & E).
    rewrite Hs in E. cbn [snd] in E. rewrite E in Ho. cbn in Ho. rewrite fits_signed in Ho by (eapply fits_le; [|exact Hfit]; apply lookup_lt_Some in Em; lia).
    assert (i = k) as -> by lia. destruct Hor; [lia|congruence]. }
  destruct (statement_healthy vt _ d _ _ Hd Hrow) as (d1 & E1 & Ht1 & Hd1).
  destruct (IH (S k) d1) as (d2 & E2 & Hd2); [lia|rewrite Ht1; done..| |done|].
  { rewrite Ht1. by eapply stage_insert. }
  exists d2. split; [|done]. apply then_Ok. by exists d1, tt.
Qed.

Lemma stage_holds t : stage (length ms) (t_messages t) → holds t c (saved_rows u c existing ms) ∧ owned u (saved_rows u c existing ms).
Proof.
  intros Hst. split; [split|].
  - intros i j r (m & Hm & Hs)%list_lookup_imap_Some. pose proof (slot_row_place i m Hm) as Hp. rewrite <- Hs in Hp.
    split; [|by destruct Hp]. apply Hst. right. exists i, m. split_and!; [done..|left; by eapply lookup_lt_Some].
  - intros j r [[_ ?]|(i & m & Hm & Hs & _)]%Hst Hc; [done|]. exists i. apply list_lookup_imap_Some. by exists m.
  - apply Forall_lookup_2. intros i [j r] (m & Hm & Hs)%list_lookup_imap_Some. pose proof (slot_row_place i m Hm) as Hp. rewrite <- Hs in Hp. apply Hp.
Qed.
End write.
End saving.

(** ** Well-formed tables *)

Section invariant.
Context `{Dialect}.

Record wf (t : Tables) : Prop := {
  wf_rows c r : t_conversations t !! c = Some r → ∃ rows, holds t c rows ∧ owned (cr_user r) rows;
  wf_conversation j r : t_messages t !! j = Some r → is_Some (t_conversations t !! mr_conversation r);
  wf_summary j r s : t_messages t !! j = Some r → mr_summary_id r = Some s → is_Some (t_summaries t !! s);
  wf_summarized s x : t_summaries t !! s = Some x → is_Some (t_conversations t !! sr_conversation x)
}.

Lemma wf_owner t j r c : wf t → t_messages t !! j = Some r → t_conversations t !! mr_conversation r = Some c → mr_user r = cr_user c.
Proof.
  intros Hw Hj Hc. destruct (wf_rows _ Hw _ _ Hc) as (rows & Hh & Ho). destruct (proj2 Hh _ _ Hj eq_refl) as [i Hi].
  exact (Forall_lookup_1 _ _ _ _ Ho Hi).
Qed.

Lemma wf_no_tables : wf no_tables.
Proof. split; cbn; intros *; by rewrite lookup_empty. Qed.

(** [holds] is about the rows of one conversation. *)
Lemma holds_same t t' c rows :
  (∀ j r, mr_conversation r = c → t_messages t' !! j = Some r ↔ t_messages t !! j = Some r) → holds t c rows → holds t' c rows.
Proof.
  intros Hs [H1 H2]. split.
  - intros i j r Hi. destruct (H1 _ _ _ Hi) as (Hj & Hc & Ho). split_and!; [by apply Hs|done..].
  - intros j r Hj Hc. apply H2; [by apply Hs|done].
Qed.

Lemma holds_nil t c : (∀ j r, t_messages t !! j = Some r → mr_conversation r ≠ c) → holds t c [].
Proof. intros Hno. split; [intros i j r Hi; by rewrite lookup_nil in Hi|]. intros j r Hj Hc. by destruct (Hno j r Hj). Qed.

(** A change of the rows that keeps their place. *)
Lemma holds_fmap t t' c rows (f : MsgRow → MsgRow) :
  (∀ r, mr_conversation (f r) = mr_conversation r ∧ mr_ordinal (f r) = mr_ordinal r) →
  (∀ j r', mr_conversation r' = c → t_messages t' !! j = Some r' ↔ ∃ r, t_messages t !! j = Some r ∧ r' = f r) →
  holds t c rows → holds t' c (map (λ x, (x.1, f x.2)) rows).
Proof.
  intros Hf Hs [H1 H2]. split.
  - intros i j r' ([j' r] & Hy & Hx)%list_lookup_fmap_Some. injection Hy as -> ->. destruct (H1 _ _ _ Hx) as (Hj & Hc & Ho).
    destruct (Hf r) as [Hfc Hfo]. split_and!; [apply Hs; [congruence|by exists r]|congruence..].
  - intros j r' Hj Hc. apply Hs in Hj as (r & Hj & ->); [|done]. destruct (Hf r) as [Hfc _]. destruct (H2 j r Hj) as [i Hi]; [congruence|].
    exists i. apply list_lookup_fmap_Some. by exists (j, r).
Qed.

Lemma owned_fmap u rows (f : MsgRow → MsgRow) : (∀ r, mr_user (f r) = mr_user r) → owned u rows → owned u (map (λ x, (x.1, f x.2)) rows).
Proof. intros Hf Ho. apply Forall_map. eapply Forall_impl; [exact Ho|]. intros x. cbn. by rewrite Hf. Qed.
End invariant.

(** ** Every operation keeps the tables well formed *)

Section preserved.
Context `{DialectLaws} (vt : Violation → string).

Definition linked (t : Tables) : Prop := ∀ j r s, t_messages t !! j = Some r → mr_summary_id r = Some s → is_Some (t_summaries t !! s).

Lemma write_changed_linked u c existing ms k d d' :
  linked (tables d) → write_changed vt u c existing k ms d = (d', Ok tt) → linked (tables d').
Proof.
  revert k d. induction ms as [|m ms IH]; intros k d Hl; cbn [write_changed]; [by intros [= <-]|].
  case_match; [by apply IH|]. intros (d1 & [] & [Hi _]%statement_Ok & Hw)%then_Ok.
  apply insert_message_row_Ok in Hi as (_ & Ht & _ & Hs). eapply IH; [|exact Hw]. rewrite Ht. intros j r s Hj Hr. cbn in Hj |- *.
  apply lookup_insert_Some in Hj as [[_ <-]|[_ Hj]]; [by apply Hs|by eapply Hl].
Qed.

Lemma insert_messages_write u c k ms : insert_messages vt u c k ms = write_changed vt u c [] k ms.
Proof. revert k. induction ms as [|m ms IH]; intros k; cbn; [done|]. by rewrite IH. Qed.

(** The tables after the messages of [c] were saved. *)
Lemma wf_saved t t' u c existing ms r :
  wf t → holds t c existing → owned u existing → fits (length ms) →
  t_conversations t' = <[c := r]> (t_conversations t) → cr_user r = u → t_summaries t' = t_summaries t → linked t' →
  stage t u c existing ms (length ms) (t_messages t') → wf t'.
Proof.
  intros Hw Hh Ho Hfit Hc Hu Hs Hl Hst. split.
  - intros c' r' Hc'. rewrite Hc in Hc'. apply lookup_insert_Some in Hc' as [[<- <-]|[Hne Hc']].
    { exists (saved_rows u c existing ms). rewrite Hu. by eapply stage_holds. }
    destruct (wf_rows _ Hw _ _ Hc') as (rows & Hrows & Hown). exists rows. split; [|done]. eapply holds_same; [|exact Hrows].
    intros j x Hx. rewrite (Hst j x). split; [|intros Hj; left; split; congruence].
    intros [[? _]|(i & m & Hi & Hsl & _)]; [done|]. exfalso. pose proof (slot_row_place t u c existing ms Hh Ho Hfit i m Hi) as (_ & Hp & _).
    rewrite Hsl in Hp. cbn in Hp. congruence.
  - intros j x [[Hj _]|(i & m & Hi & Hsl & _)]%Hst; rewrite Hc; apply lookup_insert_is_Some'.
    + right. by eapply wf_conversation.
    + left. pose proof (slot_row_place t u c existing ms Hh Ho Hfit i m Hi) as (_ & Hp & _). rewrite Hsl in Hp. done.
  - done.
  - intros s x Hx. rewrite Hs in Hx. rewrite Hc. apply lookup_insert_is_Some'. right. by eapply wf_summarized.
Qed.

(** What a successful [update] has done. *)
Lemma update_saved cl u now conv d d' :
  clears cl → wf (tables d) → fits (length (messages conv)) → update_with vt cl u now conv d = (d', Ok tt) →
  ∃ r existing,
    t_conversations (tables d) !! conv_id conv = Some r ∧ cr_user r = u ∧ holds (tables d) (conv_id conv) existing ∧ owned u existing ∧
    t_conversations (tables d') = <[conv_id conv := updated_row now conv r]> (t_conversations (tables d)) ∧
    t_summaries (tables d') = t_summaries (tables d) ∧ linked (tables d') ∧
    stage (tables d) u (conv_id conv) existing (messages conv) (length (messages conv)) (t_messages (tables d')).
Proof.
  intros Hcl Hw Hfit (d1 & d2 & Ht1 & Hb & Ht2)%transaction_Ok. apply then_Ok in Hb as (d3 & n & [Hup _]%statement_Ok & Hb).
  unfold update_conversation in Hup. rewrite Ht1 in Hup.
  destruct (t_conversations (tables d) !! conv_id conv) as [r|] eqn:Er; [|by injection Hup as _ <-].
  case_bool_decide as Hu; [|by injection Hup as _ <-]. injection Hup as Ht3 <-. cbn [Nat.eqb] in Hb.
  apply then_Ok in Hb as (d4 & existing & (Ht4 & Hex & _)%query_Ok & Hb). apply then_Ok in Hb as (d5 & [] & Hclear & Hwrite).
  destruct (wf_rows _ Hw _ _ Er) as (rows & Hh & Ho). rewrite Hu in Ho.
  assert (Hh4 : holds (tables d4) (conv_id conv) rows) by (rewrite Ht4, <- Ht3; exact Hh).
  assert (Hex' : existing = rows) by (rewrite Hex, <- Ht4; by apply select_holds). subst existing.
  rewrite Hex' in Hclear, Hwrite. clear Hex'.
  destruct (Hcl u (conv_id conv) rows (restated rows 0 (messages conv)) (length (messages conv)) d4) as [Hok _]; [done..| |].
  { intros s (m & x & Hm & _)%elem_of_restated. by eapply lookup_lt_Some. }
  apply Hok in Hclear as (Hc5 & Hs5 & Hm5). rewrite Ht4, <- Ht3 in Hc5, Hs5, Hm5. cbn in Hc5, Hs5, Hm5.
  assert (Hst : stage (tables d) u (conv_id conv) rows (messages conv) 0 (t_messages (tables d5))) by (by apply stage_cleared).
  exists r, rows. pose proof Hwrite as Hwrite'. change (messages conv) with (drop 0 (messages conv)) in Hwrite at 1.
  eapply write_changed_stage in Hwrite as (Hst' & Hc & Hs); [|exact Hst]. rewrite Ht2, Hc, Hs, Hc5, Hs5. split_and!; try done.
  eapply write_changed_linked; [|exact Hwrite']. intros j x s Hj Hx. rewrite Hs5. apply Hm5 in Hj as [Hj _]. by eapply wf_summary.
Qed.

Lemma create_saved u n1 n2 n3 conv d d' :
  wf (tables d) → fits (length (messages conv)) → store_create vt u n1 n2 n3 conv d = (d', Ok tt) →
  t_conversations (tables d) !! conv_id conv = None ∧ holds (tables d) (conv_id conv) [] ∧
  t_conversations (tables d') = <[conv_id conv := conversation_row u n1 n2 n3 conv]> (t_conversations (tables d)) ∧
  t_summaries (tables d') = t_summaries (tables d) ∧ linked (tables d') ∧
  stage (tables d) u (conv_id conv) [] (messages conv) (length (messages conv)) (t_messages (tables d')).
Proof.
  intros Hw Hfit (d1 & d2 & Ht1 & Hb & Ht2)%transaction_Ok. apply then_Ok in Hb as (d3 & [] & [Hin _]%statement_Ok & Hwrite).
  unfold insert_conversation in Hin. rewrite Ht1 in Hin. destruct (t_conversations (tables d) !! conv_id conv) eqn:Er; [done|]. injection Hin as Ht3.
  assert (Hno : ∀ j r, t_messages (tables d) !! j = Some r → mr_conversation r ≠ conv_id conv).
  { intros j r Hj Hr. apply wf_conversation in Hj as [? Hj]; [|done]. congruence. }
  assert (Hh : holds (tables d) (conv_id conv) []) by (by apply holds_nil).
  rewrite insert_messages_write in Hwrite. pose proof Hwrite as Hwrite'. change (messages conv) with (drop 0 (messages conv)) in Hwrite at 1.
  assert (Hst : stage (tables d) u (conv_id conv) [] (messages conv) 0 (t_messages (tables d3))).
  { rewrite <- Ht3. intros j r. cbn. split; [intros Hj; left; split; [done|by eapply Hno]|].
    intros [[? _]|(i & m & _ & _ & [?|Hk])]; [done|lia|]. unfold kept in Hk. by rewrite lookup_nil in Hk. }
  eapply write_changed_stage in Hwrite as (Hst' & Hc & Hs); [|exact Hst]. rewrite Ht2, Hc, Hs, <- Ht3. split_and!; try done.
  eapply write_changed_linked; [|exact Hwrite']. rewrite <- Ht3. intros j x s Hj Hx. exact (wf_summary _ Hw _ _ _ Hj Hx).
Qed.

Lemma set_conversation_wf t c r r' :
  wf t → t_conversations t !! c = Some r → cr_user r' = cr_user r → wf (set_conversations t (<[c := r']> (t_conversations t))).
Proof.
  intros Hw Hc Hu. split; cbn.
  - intros c' x [[<- <-]|[_ Hx]]%lookup_insert_Some; [rewrite Hu; exact (wf_rows _ Hw _ _ Hc)|exact (wf_rows _ Hw _ _ Hx)].
  - intros j x Hj. apply lookup_insert_is_Some'. right. by eapply wf_conversation.
  - intros j x s. by eapply wf_summary.
  - intros s x Hx. apply lookup_insert_is_Some'. right. by eapply wf_summarized.
Qed.

Lemma update_conversation_wf u c f t t' n :
  (∀ r r', f r = Some r' → cr_user r' = cr_user r) → wf t → update_conversation u c f t = (t', Ok n) → wf t'.
Proof.
  intros Hf Hw. unfold update_conversation. destruct (t_conversations t !! c) as [r|] eqn:Er; [|by intros [= <- _]].
  case_bool_decide; [|by intros [= <- _]]. destruct (f r) as [r'|] eqn:Ef; [|by intros [= <- _]]. intros [= <- _].
  eapply set_conversation_wf; [done|exact Er|by apply Hf].
Qed.

(** Only the links of the rows change, and no link is left to a summary that is
    not there. *)
Lemma relinked_wf t t' f :
  (∀ r, mr_user (f r) = mr_user r ∧ mr_conversation (f r) = mr_conversation r ∧ mr_ordinal (f r) = mr_ordinal r) →
  t_conversations t' = t_conversations t → (∀ j, t_messages t' !! j = f <$> t_messages t !! j) → linked t' →
  (∀ s x, t_summaries t' !! s = Some x → is_Some (t_conversations t !! sr_conversation x)) → wf t → wf t'.
Proof.
  intros Hf Hc Hm Hl Hs Hw. split.
  - intros c r Hr. rewrite Hc in Hr. destruct (wf_rows _ Hw _ _ Hr) as (rows & Hh & Ho). exists (map (λ x, (x.1, f x.2)) rows). split.
    + apply (holds_fmap t); [intros x; apply Hf| |done]. intros j r' _. rewrite Hm. rewrite fmap_Some. done.
    + apply owned_fmap; [apply Hf|done].
  - intros j r Hj. rewrite Hm in Hj. apply fmap_Some in Hj as (x & Hj & ->). rewrite Hc, (proj1 (proj2 (Hf x))). by eapply wf_conversation.
  - done.
  - intros s x. rewrite Hc. apply Hs.
Qed.

Lemma unlink_place gone r :
  mr_user (unlink gone r) = mr_user r ∧ mr_conversation (unlink gone r) = mr_conversation r ∧ mr_ordinal (unlink gone r) = mr_ordinal r.
Proof. unfold unlink. destruct (mr_summary_id r); [|done]. by destruct (gone _). Qed.

Lemma unlink_summary gone r s : mr_summary_id (unlink gone r) = Some s → mr_summary_id r = Some s ∧ gone s = false.
Proof. unfold unlink. destruct (mr_summary_id r) as [x|] eqn:E; [|congruence]. destruct (gone x) eqn:Eg; [done|]. intros Hs. split; congruence. Qed.

Lemma delete_summary_wf u s t t' n : wf t → delete_summary u s t = (t', Ok n) → wf t'.
Proof.
  intros Hw. unfold delete_summary. destruct (t_summaries t !! s) as [x|] eqn:Es; [|by intros [= <- _]].
  case_bool_decide; [|by intros [= <- _]]. intros [= <- _]. eapply (relinked_wf t); [apply unlink_place|done|intros j; apply lookup_fmap| | |done]; cbn.
  - intros j r s' Hj Hr. cbn in Hj |- *. rewrite lookup_fmap in Hj. apply fmap_Some in Hj as (y & Hj & ->).
    apply unlink_summary in Hr as [Hr Hg%bool_decide_eq_false]. rewrite lookup_delete_ne by done. by eapply wf_summary.
  - intros s' y [_ Hy]%lookup_delete_Some. by eapply wf_summarized.
Qed.

Lemma delete_conversation_wf u c t t' n : wf t → delete_conversation u c t = (t', Ok n) → wf t'.
Proof.
  intros Hw. unfold delete_conversation. destruct (t_conversations t !! c) as [r|] eqn:Er; [|by intros [= <- _]].
  case_bool_decide; [|by intros [= <- _]]. intros [= <- _]. set (gone := λ s, _).
  assert (Hm : ∀ j r', (unlink gone <$> filter (λ x, mr_conversation x.2 ≠ c) (t_messages t)) !! j = Some r' ↔
    ∃ x, t_messages t !! j = Some x ∧ mr_conversation x ≠ c ∧ r' = unlink gone x).
  { intros j r'. rewrite lookup_fmap, fmap_Some. setoid_rewrite map_lookup_filter_Some. cbn. naive_solver. }
  split; cbn.
  - intros c' r' [Hne Hr]%lookup_delete_Some. destruct (wf_rows _ Hw _ _ Hr) as (rows & Hh & Ho). exists (map (λ x, (x.1, unlink gone x.2)) rows). split.
    + apply (holds_fmap t); [intros x; apply unlink_place| |done]. intros j x Hx. cbn. rewrite Hm. pose proof (unlink_place gone) as Hp. split.
      * intros (y & ? & _ & ->). by exists y.
      * intros (y & ? & ->). exists y. split_and!; [done| |done]. destruct (Hp y) as (_ & Hy & _). congruence.
    + apply owned_fmap; [apply unlink_place|done].
  - intros j r' (x & Hj & Hne & ->)%Hm. destruct (unlink_place gone x) as (_ & -> & _). rewrite lookup_delete_ne by done. by eapply wf_conversation.
  - intros j r' s (x & Hj & Hne & ->)%Hm [Hs Hg]%unlink_summary. destruct (wf_summary _ Hw _ _ _ Hj Hs) as [y Hy]. exists y.
    apply map_lookup_filter_Some. split; [done|]. unfold gone in Hg. rewrite Hy in Hg. by apply bool_decide_eq_false in Hg.
  - intros s x [Hx Hne]%map_lookup_filter_Some. rewrite lookup_delete_ne by done. by eapply wf_summarized.
Qed.

Lemma link_place (b : MsgRow → bool) s r :
  let f r := if b r then link_summary s r else r in
  mr_user (f r) = mr_user r ∧ mr_conversation (f r) = mr_conversation r ∧ mr_ordinal (f r) = mr_ordinal r.
Proof. cbn. by destruct (b r). Qed.

Lemma create_summary_wf u fresh c summary lo hi d d' i :
  wf (tables d) → store_create_summary vt u fresh c summary lo hi d = (d', Ok i) → wf (tables d').
Proof.
  intros Hw (d1 & d2 & Ht1 & Hb & Ht2)%transaction_Ok. apply then_Ok in Hb as (d3 & [] & [Hin _]%statement_Ok & Hb).
  apply then_Ok in Hb as (d4 & [] & [Hl _]%statement_Ok & [= -> _]). rewrite Ht2. injection Hl as <-.
  unfold insert_summary_row in Hin. rewrite Ht1 in Hin. destruct (t_summaries (tables d) !! fresh) eqn:Ef; [done|]. cbn in Hin.
  destruct (t_conversations (tables d) !! c) as [r|] eqn:Er; [|done]. injection Hin as <-. cbn.
  eapply (relinked_wf (tables d)); [intros x; apply (link_place (λ x, of_user u c x && (as_signed width lo <=? mr_ordinal x)%Z && (mr_ordinal x <=? as_signed width hi)%Z) fresh)|done|intros j; apply lookup_fmap| | |done]; cbn.
  - intros j x s Hj Hs. cbn in Hj |- *. apply lookup_insert_is_Some'. rewrite lookup_fmap in Hj. apply fmap_Some in Hj as (y & Hj & ->).
    destruct (_ && _ && _); [left; cbn in Hs; congruence|right; by eapply wf_summary].
  - intros s x [[<- <-]|[_ Hx]]%lookup_insert_Some; [by exists r|by eapply wf_summarized].
Qed.
End preserved.

(** ** What is read *)

Section reading.
Context `{DialectLaws} (vt : Violation → string).

Definition conversation_of (u i : string) (t : Tables) : result Conversation CoreError :=
  match select_conversation u i t with
  | None => Err (ConversationNotFound i)
  | Some r => Ok (conversation_from i r (select_messages u i t) (select_summaries u i t))
  end.

Lemma store_get_healthy u i d :
  healthy d → ∃ d', store_get vt u i d = (d', conversation_of u i (tables d)) ∧ tables d' = tables d ∧ healthy d'.
Proof.
  intros Hd. unfold store_get, conversation_of. destruct (query_healthy vt (select_conversation u i) d Hd) as (d1 & E1 & Ht1 & Hd1).
  unfold then_ at 1. rewrite E1. destruct (select_conversation u i (tables d)) as [r|]; [|by exists d1].
  destruct (query_healthy vt (select_messages u i) d1 Hd1) as (d2 & E2 & Ht2 & Hd2).
  destruct (query_healthy vt (select_summaries u i) d2 Hd2) as (d3 & E3 & Ht3 & Hd3). exists d3.
  unfold then_. rewrite E2, E3, Ht3, Ht2, Ht1. done.
Qed.

Lemma str_to_role_to_str r : str_to_role (role_to_str r) = r.
Proof. by destruct r. Qed.

Lemma tool_calls_from_value calls : tool_calls_from (Array (map tool_call_value calls)) = Some calls.
Proof.
  unfold tool_calls_from. cbn. induction calls as [|[i n a] calls IH]; [done|]. cbn [map mapM]. by rewrite IH.
Qed.

Lemma read_tool_calls_json m : read_tool_calls (tool_calls_json m) = tool_calls m.
Proof.
  unfold read_tool_calls, tool_calls_json. destruct (tool_calls m) as [|x l] eqn:E; [done|]. rewrite <- E. cbn [mbind option_bind].
  by rewrite tool_calls_from_value.
Qed.

(** A message under another key. *)
Definition with_key (k : option string) (m : Message) : Message :=
  {| id := id m; role := role m; content := content m; tool_calls := tool_calls m; tool_call_id := tool_call_id m;
     summary_id := summary_id m; idempotency_key := k; distilled_into := distilled_into m |}.

Lemma msg_from_new_row u c i m : msg_from_row (id m, message_row u c i m) = m.
Proof.
  unfold msg_from_row, message_row. cbn [fst snd mr_role mr_content mr_tool_calls mr_tool_call_id mr_summary_id mr_idempotency_key mr_distilled_into].
  rewrite str_to_role_to_str, read_tool_calls_json, read_write_notes. by destruct m.
Qed.

(** A row that was kept is the message, under the key it was stored with. *)
Lemma msg_from_kept_row x m : row_matches x m = true → msg_from_row x = with_key (mr_idempotency_key x.2) m.
Proof.
  unfold row_matches. rewrite !andb_true_iff, !bool_decide_eq_true. intros ((((((Hid & Hro) & Hco) & Htc) & Hsu) & Hca) & Hno).
  unfold msg_from_row, with_key. rewrite Hid, Hro, Hco, Htc, Hsu, Hca, Hno. by rewrite str_to_role_to_str, read_tool_calls_json, read_write_notes.
Qed.

Lemma with_own_key m : with_key (idempotency_key m) m = m.
Proof. by destruct m. Qed.

(** The messages read after a save. *)
Lemma saved_messages u c existing ms :
  (∀ i x m, existing !! i = Some x → ms !! i = Some m → x.1 = id m → mr_idempotency_key x.2 = idempotency_key m) →
  map msg_from_row (saved_rows u c existing ms) = ms.
Proof.
  intros Hkeys. apply list_eq. intros i. rewrite list_lookup_fmap. unfold saved_rows. rewrite list_lookup_imap.
  destruct (ms !! i) as [m|] eqn:Hm; [|done]. cbn. f_equal. destruct (kept existing i m) eqn:Ek.
  - pose proof (slot_row_kept u c _ _ _ Ek) as Hx. assert (Hma : row_matches (slot_row u c existing i m) m = true).
    { unfold kept in Ek. by rewrite Hx in Ek. }
    rewrite (msg_from_kept_row _ m Hma), (Hkeys i _ m Hx Hm) by apply slot_row_id. apply with_own_key.
  - rewrite slot_row_new by done. apply msg_from_new_row.
Qed.

Lemma saved_messages_but_keys u c existing ms :
  map (with_key None ∘ msg_from_row) (saved_rows u c existing ms) = map (with_key None) ms.
Proof.
  apply list_eq. intros i. rewrite !list_lookup_fmap. unfold saved_rows. rewrite list_lookup_imap.
  destruct (ms !! i) as [m|] eqn:Hm; [|done]. cbn. f_equal. destruct (kept existing i m) eqn:Ek.
  - pose proof (slot_row_kept u c _ _ _ Ek) as Hx. unfold kept in Ek. rewrite Hx in Ek.
    by rewrite (msg_from_kept_row _ m Ek).
  - by rewrite slot_row_new, msg_from_new_row by done.
Qed.

Lemma conversation_of_saved t t' u c existing ms r :
  holds t c existing → owned u existing → fits (length ms) → t_conversations t' !! c = Some r → cr_user r = u →
  stage t u c existing ms (length ms) (t_messages t') →
  conversation_of u c t' = Ok (conversation_from c r (saved_rows u c existing ms) (select_summaries u c t')).
Proof.
  intros Hh Ho Hfit Hc Hu Hst. destruct (stage_holds t u c existing ms Hh Ho Hfit t' Hst) as [Hh' Ho'].
  unfold conversation_of, select_conversation. rewrite Hc. cbn. rewrite bool_decide_eq_true_2 by done. by rewrite (select_holds t' u c _ Hh' Ho').
Qed.
End reading.

(** ** Runs *)

Section runs.
Context `{DialectLaws} (vt : Violation → string) (cl : Clearing).

Inductive Op :=
| OpCreate (now_created now_updated now_archived : Time) (conv : Conversation)
| OpUpdate (now : Time) (conv : Conversation)
| OpDelete (i : string)
| OpArchive (now : Time) (i : string)
| OpUnarchive (i : string)
| OpSummarize (fresh c summary : string) (lo hi : nat)
| OpExpand (s : string)
| OpSelect (i : string) (selection : option Value)
| OpPersonality (i : string) (personality : option Value)
| OpGate (i : string) (disabled : bool).

(** What an operation of [u]'s leaves behind, whether it succeeded or not. *)
Definition perform (u : string) (o : Op) (d : Db) : Db :=
  match o with
  | OpCreate n1 n2 n3 conv => (store_create vt u n1 n2 n3 conv d).1
  | OpUpdate now conv => (update_with vt cl u now conv d).1
  | OpDelete i => (store_delete vt u i d).1
  | OpArchive now i => (store_archive vt u now i d).1
  | OpUnarchive i => (store_unarchive vt u i d).1
  | OpSummarize fresh c summary lo hi => (store_create_summary vt u fresh c summary lo hi d).1
  | OpExpand s => (store_expand_summary vt u s d).1
  | OpSelect i v => (set_conversation_model_selection vt Ok u i v d).1
  | OpPersonality i v => (set_conversation_personality vt Ok u i v d).1
  | OpGate i b => (set_conversation_tool_gate_disabled vt u i b d).1
  end.

(** The message count of a conversation that is stored fits the columns. *)
Definition op_fits (o : Op) : Prop :=
  match o with
  | OpCreate _ _ _ conv | OpUpdate _ conv => fits (length (messages conv))
  | _ => True
  end.

Definition run (ops : list (string * Op)) (d : Db) : Db := foldl (λ d x, perform x.1 x.2 d) d ops.

(** What holds of the tables after any one statement holds after an operation
    that is a statement and an answer. *)
Lemma one_statement (P : Tables → Prop) {A B} (f : Tables → Tables * result A Violation) (k : A → Db → Db * result B CoreError) d :
  (∀ a d1, tables ((k a d1).1) = tables d1) → P (tables d) → (∀ t a, f (tables d) = (t, Ok a) → P t) → P (tables (then_ (statement vt f) k d).1).
Proof.
  intros Hk Hd Hf. unfold then_. destruct (statement vt f d) as [d1 [a|e]] eqn:E.
  - rewrite Hk. apply statement_Ok in E as [E _]. by eapply Hf.
  - cbn. apply statement_Err in E. by rewrite E.
Qed.

Lemma found_tables i n d : tables (found i n d).1 = tables d.
Proof. unfold found. by destruct (n =? 0). Qed.

Lemma archive_answer u i n d :
  tables ((if (n =? 0)%nat
     then then_ (query vt (select_conversation u i))
            (λ exists_, match exists_ with None => fail (ConversationNotFound i) | Some _ => give tt end)
     else give tt) d).1 = tables d.
Proof.
  destruct (n =? 0); [|done]. unfold then_. destruct (query _ _ d) as [d1 [a|e]] eqn:E; apply query_tables in E; [|done]. by destruct a.
Qed.

Lemma set_selection_statement u i v d :
  set_conversation_model_selection vt Ok u i v d =
  then_ (statement vt (update_conversation u i (λ r, Some (set_selection v r)))) (found i) d.
Proof. by destruct v. Qed.

Lemma set_personality_statement u i v d :
  set_conversation_personality vt Ok u i v d =
  then_ (statement vt (update_conversation u i (λ r, Some (set_personality v r)))) (found i) d.
Proof. by destruct v. Qed.

Lemma perform_wf u o d : clears cl → op_fits o → wf (tables d) → wf (tables (perform u o d)).
Proof.
  intros Hcl Hfit Hw. destruct o as [n1 n2 n3 conv|now conv|i|now i|i|fresh c summary lo hi|s|i v|i v|i b]; cbn [perform];
    unfold store_delete, store_archive, store_unarchive, store_expand_summary, set_conversation_tool_gate_disabled.
  - destruct (store_create vt u n1 n2 n3 conv d) as [d' [[]|e]] eqn:E; cbn; [|apply transaction_Err in E; by rewrite E].
    apply create_saved in E as (Hn & Hh & Hc & Hs & Hl & Hst); [|done..].
    eapply (wf_saved (tables d) (tables d')); [done|exact Hh|by constructor|exact Hfit|exact Hc|done|done|done|exact Hst].
  - destruct (update_with vt cl u now conv d) as [d' [[]|e]] eqn:E; cbn; [|apply transaction_Err in E; by rewrite E].
    apply update_saved in E as (r & existing & Hr & Hu & Hh & Ho & Hc & Hs & Hl & Hst); [|done..].
    eapply (wf_saved (tables d) (tables d')); [done|exact Hh|exact Ho|exact Hfit|exact Hc|exact Hu|done|done|exact Hst].
  - apply (one_statement wf); [intros; apply found_tables|done|]. intros t n. by apply delete_conversation_wf.
  - apply (one_statement wf); [intros; apply archive_answer|done|]. intros t n. apply update_conversation_wf; [|done].
    intros r r'. destruct (cr_archived_at r); [done|]. by intros [= <-].
  - apply (one_statement wf); [intros; apply found_tables|done|]. intros t n. apply update_conversation_wf; [|done]. by intros r r' [= <-].
  - destruct (store_create_summary vt u fresh c summary lo hi d) as [d' [i|e]] eqn:E; cbn; [|apply transaction_Err in E; by rewrite E].
    by eapply create_summary_wf.
  - apply (one_statement wf); [done|done|]. intros t n. by apply delete_summary_wf.
  - rewrite set_selection_statement. apply (one_statement wf); [intros; apply found_tables|done|]. intros t n. apply update_conversation_wf; [|done]. by intros r r' [= <-].
  - rewrite set_personality_statement. apply (one_statement wf); [intros; apply found_tables|done|]. intros t n. apply update_conversation_wf; [|done]. by intros r r' [= <-].
  - apply (one_statement wf); [intros; apply found_tables|done|]. intros t n. apply update_conversation_wf; [|done]. by intros r r' [= <-].
Qed.

Lemma run_wf ops os : clears cl → Forall (op_fits ∘ snd) ops → wf (tables (run ops {| tables := no_tables; outcomes := os |})).
Proof.
  intros Hcl. unfold run. generalize {| tables := no_tables; outcomes := os |}, (wf_no_tables : wf (tables {| tables := no_tables; outcomes := os |})).
  induction ops as [|[u o] ops IH]; intros d Hw Hf; [done|]. inversion Hf; subst. cbn. apply IH; [|done]. by apply perform_wf.
Qed.
End runs.
