(* ===== verification/ConversationAdapters.v ===== *)
(** * The two relational adapters

    The instances of [Dialect] for PostgreSQL
    ([crates/storage/src/conversation.rs]) and SQLite
    ([crates/storage-sqlite/src/conversation.rs]), and what the store promises
    under either: a save is read back, a user's work is invisible to another,
    archiving and summaries.  [chrono]'s parser and printer are the class
    [Chrono]. *)

From S2P Require Import Prelude Json TaskStore Messages NegativeMemory ConversationTables ConversationStores.

(** [NaiveDateTime::parse_from_str] read as UTC, and [DateTime::format], for
    ["%Y-%m-%d %H:%M:%S"]; an instant is in microseconds. *)
Class Chrono := { parse_from_str : string → option Z; format_utc : Z → string }.

(** [Vec<String>]'s derived encoding. *)
Definition strings_value (l : list string) : Value := Array (map Str l).
Definition strings_from (v : Value) : option (list string) := as_array v ≫= mapM as_str.

(** serde_json parses what it printed of a list of strings. *)
Class StringLists `{SerdeJson} := from_to_strings l : from_str (to_string (strings_value l)) = Some (strings_value l).

Lemma strings_from_value l : strings_from (strings_value l) = Some l.
Proof. unfold strings_from. cbn. induction l as [|s l IH]; [done|]. cbn [map mapM]. by rewrite IH. Qed.

(** ** SQLite *)

Section sqlite.
Context `{SerdeJson} `{Chrono}.

(** The clock's reading replaces what does not parse. *)
Definition canonical_ts (now s : string) : string := match parse_from_str s with Some _ => s | None => now end.

Definition tags_to_json (l : list string) : string := to_string (strings_value l).
Definition parse_tags (json : string) : list string := default [] (from_str json ≫= strings_from).

Definition sqlite_distilled_into (l : list string) : option string :=
  match l with [] => None | _ => Some (to_string (strings_value l)) end.
Definition sqlite_read_distilled (col : option string) : list string := default [] (json ← col; from_str json ≫= strings_from).

Definition sqlite_dialect : Dialect := {|
  Time := string; Tags := string; Notes := string; Notes_dec := _; width := 64;
  write_time := canonical_ts; read_time := λ s, s; time_leb := String.leb;
  write_tags := tags_to_json; read_tags := parse_tags; hidden_from_list := λ _, false;
  distilled_into_column := sqlite_distilled_into; read_notes := sqlite_read_distilled;
  read_compacted := λ z, Z.to_nat (Z.max z 0)
|}.

Lemma sqlite_laws `{!StringLists} : DialectLaws (H := sqlite_dialect).
Proof.
  split; cbn.
  - done.
  - intros x y. apply String.leb_total.
  - intros x y z. apply string_leb_trans.
  - intros l. unfold parse_tags, tags_to_json. rewrite from_to_strings. cbn [mbind option_bind]. by rewrite strings_from_value.
  - intros [|s l]; [done|]. unfold sqlite_read_distilled, sqlite_distilled_into. cbn [mbind option_bind]. rewrite from_to_strings.
    cbn [mbind option_bind]. by rewrite strings_from_value.
  - intros n _. lia.
Qed.
End sqlite.

(** ** PostgreSQL *)

Definition RESERVED_SUBAGENT_TAG : string := "__subagent__".

Section postgres.
Context `{Chrono}.

Definition parse_timestamp (now : Z) (s : string) : Z := match parse_from_str s with Some t => t | None => now end.

Definition pg_distilled_into (l : list string) : option (list string) := match l with [] => None | _ => Some l end.

Definition pg_dialect : Dialect := {|
  Time := Z; Tags := list string; Notes := list string; Notes_dec := _; width := 32;
  write_time := parse_timestamp; read_time := format_utc; time_leb := Z.leb;
  write_tags := λ l, l; read_tags := λ l, l; hidden_from_list := λ l, bool_decide (RESERVED_SUBAGENT_TAG ∈ l);
  distilled_into_column := pg_distilled_into; read_notes := default [];
  read_compacted := λ z, Z.to_nat (z `mod` 2 ^ 64)
|}.

Lemma pg_laws : DialectLaws (H := pg_dialect).
Proof.
  split; cbn -[Z.pow Z.modulo].
  - done.
  - intros x y. rewrite !Z.leb_le. lia.
  - intros x y z. rewrite !Z.leb_le. lia.
  - done.
  - by intros [|s l].
  - intros n Hn. assert (2 ^ (32 - 1) < 2 ^ 64)%Z by done. rewrite Z.mod_small by lia. lia.
Qed.
End postgres.

Definition sqlite_update `{SerdeJson} `{Chrono} (vt : Violation → string) :=
  let D := sqlite_dialect in update_with vt (clear_each vt).
Definition pg_update `{Chrono} (vt : Violation → string) :=
  let D := pg_dialect in update_with vt (clear_ranged vt).

(** ** A save is read back *)

Section saves.
Context `{DialectLaws} (vt : Violation → string).

(** The two ways of clearing. *)
Definition an_adapter (cl : Clearing) : Prop := cl = clear_ranged vt ∨ cl = clear_each vt.

Lemma adapter_clears cl : an_adapter cl → clears cl.
Proof. intros [->| ->]; [apply clear_ranged_clears|apply clear_each_clears]. Qed.

(** A save of a conversation that is there, whose messages' ids are taken by no
    other, commits. *)
Lemma update_commits cl u now conv d r :
  clears cl → wf (tables d) → healthy d → fits (length (messages conv)) →
  t_conversations (tables d) !! conv_id conv = Some r → cr_user r = u → NoDup (map id (messages conv)) →
  (∀ m x, m ∈ messages conv → t_messages (tables d) !! id m = Some x → mr_conversation x = conv_id conv) →
  (∀ m s, m ∈ messages conv → summary_id m = Some s → is_Some (t_summaries (tables d) !! s)) →
  ∃ d', update_with vt cl u now conv d = (d', Ok tt) ∧ healthy d'.
Proof.
  intros Hcl Hw Hd Hfit Hr Hu Hnd Hids Hsum. destruct (wf_rows _ Hw _ _ Hr) as (rows & Hh & Ho). rewrite Hu in Ho.
  apply transaction_healthy; [done|]. intros d1 Hd1 Ht1.
  assert (Hup : update_conversation u (conv_id conv) (λ r, Some (updated_row now conv r)) (tables d1) =
    (set_conversations (tables d) (<[conv_id conv := updated_row now conv r]> (t_conversations (tables d))), Ok 1)).
  { unfold update_conversation. rewrite Ht1, Hr. by rewrite bool_decide_eq_true_2. }
  destruct (statement_healthy vt _ d1 _ _ Hd1 Hup) as (d2 & E2 & Ht2 & Hd2).
  destruct (query_healthy vt (select_messages u (conv_id conv)) d2 Hd2) as (d3 & E3 & Ht3 & Hd3).
  assert (Hh3 : holds (tables d3) (conv_id conv) rows) by (rewrite Ht3, Ht2; exact Hh).
  rewrite <- Ht3, (select_holds (tables d3) u (conv_id conv) rows) in E3 by done.
  destruct (Hcl u (conv_id conv) rows (restated rows 0 (messages conv)) (length (messages conv)) d3 Hh3 Ho Hfit) as [Hok Hgo].
  { intros s (m & x & Hm & _)%elem_of_restated. by eapply lookup_lt_Some. }
  destruct (Hgo Hd3) as (d4 & E4 & Hd4). apply Hok in E4 as Ht4. destruct Ht4 as (Hc4 & Hs4 & Hm4).
  destruct (write_changed_healthy vt (tables d) u (conv_id conv) rows (messages conv) Hh Ho Hfit 0 d4) as (d5 & E5 & Hd5).
  - done.
  - intros m j x Hm Hj Hne ->. by eapply Hne, Hids.
  - intros m s. rewrite Hs4, Ht3, Ht2. by apply Hsum.
  - rewrite Hc4, Ht3, Ht2. apply lookup_insert_is_Some'. by left.
  - apply stage_cleared; [done..|]. intros j x. rewrite Hm4, Ht3, Ht2. done.
  - done.
  - exists d5. split; [|done]. unfold then_ at 1. rewrite E2. cbn [Nat.eqb]. unfold then_ at 1. rewrite E3. unfold then_ at 1. by rewrite E4.
Qed.

(** What a save needs of the store: no message's id is the id of a message of
    another conversation, and every summary a message is linked to is stored. *)
Definition savable (t : Tables) (conv : Conversation) : Prop :=
  (∀ m x, m ∈ messages conv → t_messages t !! id m = Some x → mr_conversation x = conv_id conv) ∧
  (∀ m s, m ∈ messages conv → summary_id m = Some s → is_Some (t_summaries t !! s)).

(** The stored key of every message that is stored already is the one it has. *)
Definition same_keys (t : Tables) (conv : Conversation) : Prop :=
  ∀ m x, m ∈ messages conv → t_messages t !! id m = Some x → mr_idempotency_key x = idempotency_key m.

(** A save that commits needed no more. *)
Lemma committed_savable cl u now conv d d' :
  clears cl → wf (tables d) → fits (length (messages conv)) →
  update_with vt cl u now conv d = (d', Ok tt) → savable (tables d) conv.
Proof.
  intros Hcl Hw Hfit Hup. apply update_saved in Hup as (r & rows & _ & _ & Hh & Ho & _ & Hs & Hl & Hst); [|done..].
  destruct (stage_holds (tables d) u (conv_id conv) rows (messages conv) Hh Ho Hfit (tables d') Hst) as [[Hh' _] _].
  assert (Hrow : ∀ m, m ∈ messages conv → ∃ r, t_messages (tables d') !! id m = Some r ∧
    mr_conversation r = conv_id conv ∧ mr_summary_id r = summary_id m).
  { intros m [i Hi]%list_elem_of_lookup. set (x := slot_row u (conv_id conv) rows i m). exists x.2.
    assert (Hx : saved_rows u (conv_id conv) rows (messages conv) !! i = Some (x.1, x.2)).
    { unfold saved_rows. rewrite list_lookup_imap, Hi. cbn. by rewrite <- surjective_pairing. }
    apply Hh' in Hx as (Hx & Hc & _). rewrite <- (slot_row_id u (conv_id conv) rows i m). split_and!; [done..|].
    unfold x. destruct (kept rows i m) eqn:Ek; [|by rewrite slot_row_new].
    pose proof (slot_row_kept u (conv_id conv) _ _ _ Ek) as Hk. unfold kept in Ek. rewrite Hk in Ek.
    unfold row_matches in Ek. rewrite !andb_true_iff, !bool_decide_eq_true in Ek. tauto. }
  split.
  - intros m x (r' & Hr' & Hc & _)%Hrow Hx. destruct (decide (mr_conversation x = conv_id conv)) as [|Hne]; [done|].
    assert (t_messages (tables d') !! id m = Some x) by (apply Hst; by left). congruence.
  - intros m s (r' & Hr' & _ & Hsum)%Hrow Hm. rewrite <- Hs. eapply Hl; [exact Hr'|congruence].
Qed.

(** C13. What is saved is what is read.  In every state the store can be in,
    under either adapter and while statements do not fail, take any conversation
    the user has, with its messages moved, dropped, added or changed since they
    were loaded and no id twice.  Where its ids are not those of another
    conversation's messages and every summary it links is stored, the save
    commits, and the next read gives back those messages in that order, the
    title, the summary, how far it was compacted and the task, with the creation
    time, the archive mark and the tags as they were stored.  The one thing that
    may differ is a message's idempotency key: given to a message that is stored
    already it is not written, so the messages are exactly the saved ones when the
    keys did not change.  Where an id is taken or a linked summary is gone, the
    save fails and leaves every table as it was. *)
Theorem a_save_is_read_back cl ops os u now conv d r :
  an_adapter cl → Forall (op_fits ∘ snd) ops → d = run vt cl ops {| tables := no_tables; outcomes := os |} → healthy d →
  fits (length (messages conv)) → fits (compacted_through conv) →
  t_conversations (tables d) !! conv_id conv = Some r → cr_user r = u → NoDup (map id (messages conv)) →
  (savable (tables d) conv →
   ∃ d' d'' got,
    update_with vt cl u now conv d = (d', Ok tt) ∧ store_get vt u (conv_id conv) d' = (d'', Ok got) ∧
    map (with_key None) (messages got) = map (with_key None) (messages conv) ∧
    (same_keys (tables d) conv → messages got = messages conv) ∧
    conv_title got = conv_title conv ∧ context_summary got = context_summary conv ∧
    compacted_through got = compacted_through conv ∧ active_task got = active_task conv ∧
    updated_at got = read_time (write_time now (updated_at conv)) ∧ created_at got = read_time (cr_created_at r) ∧
    archived_at got = read_time <$> cr_archived_at r ∧ tags got = read_tags (cr_tags r)) ∧
  (~ savable (tables d) conv →
   ∃ d' e, update_with vt cl u now conv d = (d', Err e) ∧ tables d' = tables d).
Proof.
  intros Hcl%adapter_clears Hops Hd Hhd Hfit Hfit' Hr Hu Hnd.
  assert (Hw : wf (tables d)) by (rewrite Hd; by apply run_wf). split.
  - intros [Hids Hsum].
    destruct (update_commits cl u now conv d r) as (d' & Eup & Hd'); [done..|].
    pose proof Eup as Esaved. apply update_saved in Esaved as (r' & rows & Hr' & _ & Hh & Ho & Hc & Hs & _ & Hst); [|done..].
    assert (r' = r) as -> by congruence. destruct (store_get_healthy vt u (conv_id conv) d' Hd') as (d'' & Eget & _ & _).
    rewrite (conversation_of_saved (tables d) (tables d') u (conv_id conv) rows (messages conv) (updated_row now conv r) Hh Ho Hfit) in Eget;
      [|rewrite Hc; apply lookup_insert_eq|done|done].
    eexists d', d'', _. split; [exact Eup|]. split; [exact Eget|]. cbn [messages conversation_from conv_title context_summary compacted_through active_task updated_at created_at archived_at tags updated_row cr_title cr_context_summary cr_compacted_through cr_active_task cr_updated_at cr_created_at cr_archived_at cr_tags].
    split_and!; try done.
    + rewrite List.map_map. apply saved_messages_but_keys.
    + intros Hkeys. apply saved_messages. intros i [j x] m Hx Hm Hj. destruct (proj1 Hh _ _ _ Hx) as (Hx' & _). cbn in Hj |- *. subst j.
      eapply Hkeys; [by eapply list_elem_of_lookup_2|done].
    + rewrite fits_signed by done. by apply read_compacted_nat.
  - intros Hno. destruct (update_with vt cl u now conv d) as [d' [[]|e]] eqn:Eup.
    + destruct Hno. by eapply committed_savable.
    + exists d', e. split; [done|]. by eapply transaction_Err.
Qed.
End saves.

(** ** A user's work is invisible to another *)

Section users.
Context `{DialectLaws} (vt : Violation → string) (v : string).

(** The rows of [v]'s, and the summaries of [v]'s of [v]'s conversations, are the
    same. *)
Definition spares (t t' : Tables) : Prop :=
  (∀ i r, cr_user r = v → t_conversations t' !! i = Some r ↔ t_conversations t !! i = Some r) ∧
  (∀ j r, mr_user r = v → t_messages t' !! j = Some r ↔ t_messages t !! j = Some r) ∧
  (∀ s x c, sr_user x = v → t_conversations t !! sr_conversation x = Some c → cr_user c = v →
     t_summaries t' !! s = Some x ↔ t_summaries t !! s = Some x).

Lemma spares_refl t : spares t t.
Proof. done. Qed.

Lemma spares_trans t1 t2 t3 : spares t1 t2 → spares t2 t3 → spares t1 t3.
Proof.
  intros (Hc1 & Hm1 & Hs1) (Hc2 & Hm2 & Hs2). split_and!.
  - intros i r Hr. by rewrite Hc2, Hc1.
  - intros j r Hr. by rewrite Hm2, Hm1.
  - intros s x c Hx Hc Hu. rewrite (Hs2 s x c), (Hs1 s x c); [done..|by apply Hc1|done].
Qed.

Context (u : string) (Huv : u ≠ v).

(** Statements of [u]'s spare [v]. *)
Definition sparing {A} (f : Tables → Tables * result A Violation) : Prop := ∀ t t' a, f t = (t', Ok a) → spares t t'.

Lemma insert_conversation_spares i r : cr_user r = u → sparing (insert_conversation i r).
Proof.
  intros Hr t t' []. unfold insert_conversation. destruct (t_conversations t !! i) eqn:Ei; [done|]. intros [= <-]. split_and!; [|done..].
  intros i' r' Hv. cbn. rewrite lookup_insert_Some. split; [|intros Hi'; right; split; [|done]; congruence].
  intros [[_ <-]|[_ ?]]; [congruence|done].
Qed.

Lemma insert_message_spares i r : mr_user r = u → sparing (insert_message_row i r).
Proof.
  intros Hr t t' [] (Hn & -> & _)%insert_message_row_Ok. split_and!; [done| |done].
  intros i' r' Hv. cbn. rewrite lookup_insert_Some. split; [|intros Hi'; right; split; [|done]; congruence].
  intros [[_ <-]|[_ ?]]; [congruence|done].
Qed.

Lemma insert_summary_spares i x : sr_user x = u → sparing (insert_summary_row i x).
Proof.
  intros Hx t t' []. unfold insert_summary_row. destruct (t_summaries t !! i) eqn:Ei; [done|]. destruct (t_conversations t !! _); [|done].
  intros [= <-]. split_and!; [done..|]. intros s y c' Hy _ _. cbn. rewrite lookup_insert_Some. split; [|intros Hs; right; split; [|done]; congruence].
  intros [[_ <-]|[_ ?]]; [congruence|done].
Qed.

Lemma update_conversation_spares i f : (∀ r r', f r = Some r' → cr_user r' = cr_user r) → sparing (update_conversation u i f).
Proof.
  intros Hf t t' n. unfold update_conversation. destruct (t_conversations t !! i) as [r|] eqn:Ei; [|by intros [= <- _]].
  case_bool_decide as Hu; [|by intros [= <- _]]. destruct (f r) as [r'|] eqn:Ef; [|by intros [= <- _]]. intros [= <- _].
  split_and!; [|done..]. intros i' x Hv. cbn. rewrite lookup_insert_Some. apply Hf in Ef. split.
  - intros [[_ <-]|[_ ?]]; [congruence|done].
  - intros Hx. right. split; [|done]. intros ->. congruence.
Qed.

Lemma not_of_user c r : mr_user r = v → of_user u c r = false.
Proof. intros Hv. unfold of_user. by rewrite bool_decide_eq_false_2 by congruence. Qed.

Lemma of_user_user c r : of_user u c r = true → mr_user r = u.
Proof. unfold of_user. by intros [?%bool_decide_eq_true _]%andb_true_iff. Qed.

Lemma delete_messages_spares c p : sparing (delete_messages u c p).
Proof.
  intros t t' [] [= <-]. split_and!; [done| |done]. intros j r Hv. cbn. rewrite map_lookup_filter_Some. cbn. rewrite not_of_user by done.
  split; [by intros [? _]|done].
Qed.

Lemma link_messages_spares c s lo hi : sparing (link_messages u c s lo hi).
Proof.
  intros t t' [] [= <-]. split_and!; [done| |done]. intros j r Hv. cbn. rewrite lookup_fmap, fmap_Some. split.
  - intros (x & Hx & Hr). destruct (of_user u c x) eqn:Eo; [|by subst]. apply of_user_user in Eo. exfalso. apply Huv. rewrite <- Hv, Hr.
    by destruct (true && _ && _).
  - intros Hj. exists r. split; [done|]. by rewrite not_of_user.
Qed.

(** ... and so do the operations made of them. *)
Definition sparing_op {A} (m : Db → Db * result A CoreError) : Prop := ∀ d, spares (tables d) (tables (m d).1).

Lemma sparing_statement {A} (f : Tables → Tables * result A Violation) : sparing f → sparing_op (statement vt f).
Proof.
  intros Hf d. destruct (statement vt f d) as [d' [a|e]] eqn:E; cbn.
  - apply statement_Ok in E as [E _]. by eapply Hf.
  - apply statement_Err in E. by rewrite E.
Qed.

Lemma sparing_query {A} (f : Tables → A) : sparing_op (query vt f).
Proof. apply sparing_statement. by intros t t' a [= <- _]. Qed.

Lemma sparing_then {A B} (m : Db → Db * result A CoreError) (k : A → Db → Db * result B CoreError) :
  sparing_op m → (∀ a, sparing_op (k a)) → sparing_op (then_ m k).
Proof.
  intros Hm Hk d. unfold then_. specialize (Hm d). destruct (m d) as [d1 [a|e]]; cbn in Hm |- *; [|done].
  eapply spares_trans; [exact Hm|apply Hk].
Qed.

Lemma sparing_give {A} (a : A) : sparing_op (give a).
Proof. done. Qed.

Lemma sparing_fail {A} e : sparing_op (fail (A := A) e).
Proof. done. Qed.

Lemma sparing_transaction {A} (m : Db → Db * result A CoreError) : sparing_op m → sparing_op (transaction vt m).
Proof.
  intros Hm d. destruct (transaction vt m d) as [d' [a|e]] eqn:E; cbn.
  - apply transaction_Ok in E as (d1 & d2 & Ht1 & Hb & Ht2). specialize (Hm d1). rewrite Hb, Ht1 in Hm. by rewrite Ht2.
  - apply transaction_Err in E. by rewrite E.
Qed.

Lemma sparing_found i n : sparing_op (found i n).
Proof. unfold found. destruct (n =? 0); [apply sparing_fail|apply sparing_give]. Qed.

Lemma sparing_write_changed c existing k ms : sparing_op (write_changed vt u c existing k ms).
Proof.
  revert k. induction ms as [|m ms IH]; intros k; cbn [write_changed]; [apply sparing_give|]. case_match; [apply IH|].
  apply sparing_then; [|intros; apply IH]. by apply sparing_statement, insert_message_spares.
Qed.

Lemma sparing_clear_slots c slots : sparing_op (clear_slots vt u c slots).
Proof. induction slots; [apply sparing_give|]. apply sparing_then; [apply sparing_statement, delete_messages_spares|done]. Qed.

Lemma sparing_clearing cl c slots len stored : an_adapter vt cl → sparing_op (cl u c slots len stored).
Proof.
  intros [->| ->].
  - unfold clear_ranged. destruct (_ || _); [apply sparing_statement, delete_messages_spares|apply sparing_give].
  - apply sparing_then; [apply sparing_clear_slots|]. intros _. destruct (_ <? _); [apply sparing_statement, delete_messages_spares|apply sparing_give].
Qed.

(** A link of [v]'s is to a summary of [v]'s of the same conversation. *)
Definition own_links (t : Tables) : Prop :=
  ∀ j r s, t_messages t !! j = Some r → mr_user r = v → mr_summary_id r = Some s →
    ∃ x, t_summaries t !! s = Some x ∧ sr_user x = v ∧ sr_conversation x = mr_conversation r.

(** Rows that are carried over, [v]'s among them, with links cleared that are not
    [v]'s. *)
Lemma unlinked_spares t gone (P : MsgRow → Prop) (m : gmap string MsgRow) :
  (∀ j r', m !! j = Some r' ↔ ∃ r, t_messages t !! j = Some r ∧ P r ∧ r' = unlink gone r) →
  (∀ j r, t_messages t !! j = Some r → mr_user r = v → P r) →
  (∀ j r s, t_messages t !! j = Some r → mr_user r = v → mr_summary_id r = Some s → gone s = false) →
  ∀ j r, mr_user r = v → m !! j = Some r ↔ t_messages t !! j = Some r.
Proof.
  intros Hm HP Hgone. assert (Hid : ∀ j r, t_messages t !! j = Some r → mr_user r = v → unlink gone r = r).
  { intros j r Hj Hr. unfold unlink. destruct (mr_summary_id r) as [s|] eqn:Es; [|done]. by rewrite (Hgone j r s). }
  intros j r Hv. rewrite Hm. split.
  - intros (x & Hx & _ & ->). destruct (unlink_place gone x) as (Hu & _). rewrite (Hid j x); [done..|congruence].
  - intros Hj. exists r. split_and!; [done|by eapply HP|]. symmetry. by eapply Hid.
Qed.

Lemma delete_summary_spares s t t' n : own_links t → delete_summary u s t = (t', Ok n) → spares t t'.
Proof.
  intros Hl. unfold delete_summary. destruct (t_summaries t !! s) as [x|] eqn:Es; [|by intros [= <- _]].
  case_bool_decide as Hu; [|by intros [= <- _]]. intros [= <- _]. split_and!; [done| |].
  - cbn. eapply (unlinked_spares t _ (λ _, True)); [|done|].
    + intros j r'. rewrite lookup_fmap, fmap_Some. naive_solver.
    + intros j r s' Hj Hr Hs. apply bool_decide_eq_false. intros ->. destruct (Hl _ _ _ Hj Hr Hs) as (y & Hy & Hyu & _). congruence.
  - intros s' y c Hy _ _. cbn. rewrite lookup_delete_Some. split; [by intros [_ ?]|]. intros Hs'. split; [|done]. intros ->. congruence.
Qed.

Lemma delete_conversation_spares c t t' n : wf t → own_links t → delete_conversation u c t = (t', Ok n) → spares t t'.
Proof.
  intros Hw Hl. unfold delete_conversation. destruct (t_conversations t !! c) as [r|] eqn:Er; [|by intros [= <- _]].
  case_bool_decide as Hu; [|by intros [= <- _]]. intros [= <- _]. set (gone := λ s, _).
  assert (Hne : ∀ j x, t_messages t !! j = Some x → mr_user x = v → mr_conversation x ≠ c).
  { intros j x Hj Hx Hc. rewrite <- Hc in Er. pose proof (wf_owner _ _ _ _ Hw Hj Er). congruence. }
  split_and!; cbn.
  - intros i x Hx. rewrite lookup_delete_Some. split; [by intros [_ ?]|]. intros Hi. split; [|done]. intros ->. congruence.
  - eapply (unlinked_spares t gone (λ x, mr_conversation x ≠ c)); [|done|].
    + intros j x. rewrite lookup_fmap, fmap_Some. setoid_rewrite map_lookup_filter_Some. cbn. naive_solver.
    + intros j y s Hj Hy Hs. destruct (Hl _ _ _ Hj Hy Hs) as (z & Hz & _ & Hzc). unfold gone. rewrite Hz, Hzc.
      apply bool_decide_eq_false. by eapply Hne.
  - intros s x c' Hx Hc' Hv. rewrite map_lookup_filter_Some. cbn. split; [by intros [? _]|]. intros Hs. split; [done|]. intros Hxc. rewrite Hxc in Hc'. congruence.
Qed.

Lemma perform_spares cl o d : an_adapter vt cl → wf (tables d) → own_links (tables d) → spares (tables d) (tables (perform vt cl u o d)).
Proof.
  intros Hcl Hw Hl. destruct o as [n1 n2 n3 conv|now conv|i|now i|i|fresh c summary lo hi|s|i x|i x|i b]; cbn [perform];
    unfold store_delete, store_archive, store_unarchive, store_expand_summary, set_conversation_tool_gate_disabled.
  - apply sparing_transaction, sparing_then; [by apply sparing_statement, insert_conversation_spares|]. intros _.
    rewrite insert_messages_write. apply sparing_write_changed.
  - apply sparing_transaction, sparing_then; [apply sparing_statement, update_conversation_spares; by intros r r' [= <-]|].
    intros [|n]; [apply sparing_fail|]. cbn [Nat.eqb]. apply sparing_then; [apply sparing_query|]. intros existing.
    apply sparing_then; [by apply sparing_clearing|]. intros _. apply sparing_write_changed.
  - apply (one_statement vt (spares (tables d))); [intros; apply found_tables|done|]. intros t n. by apply delete_conversation_spares.
  - apply (one_statement vt (spares (tables d))); [intros; apply archive_answer|done|]. intros t n. apply update_conversation_spares.
    intros r r'. destruct (cr_archived_at r); [done|]. by intros [= <-].
  - apply sparing_then; [apply sparing_statement, update_conversation_spares; by intros r r' [= <-]|intros; apply sparing_found].
  - apply sparing_transaction, sparing_then; [by apply sparing_statement, insert_summary_spares|]. intros _.
    apply sparing_then; [apply sparing_statement, link_messages_spares|intros; apply sparing_give].
  - apply (one_statement vt (spares (tables d))); [done..|]. intros t n. by apply delete_summary_spares.
  - rewrite set_selection_statement. apply sparing_then; [apply sparing_statement, update_conversation_spares; by intros r r' [= <-]|intros; apply sparing_found].
  - rewrite set_personality_statement. apply sparing_then; [apply sparing_statement, update_conversation_spares; by intros r r' [= <-]|intros; apply sparing_found].
  - apply sparing_then; [apply sparing_statement, update_conversation_spares; by intros r r' [= <-]|intros; apply sparing_found].
Qed.
End users.

(** Two readings of a conversation; the order of summaries that start at one
    slot is the database's. *)
Definition same_conversation (a b : Conversation) : Prop :=
  conv_id a = conv_id b ∧ conv_title a = conv_title b ∧ created_at a = created_at b ∧ updated_at a = updated_at b ∧
  messages a = messages b ∧ context_summary a = context_summary b ∧ compacted_through a = compacted_through b ∧
  summaries a ≡ₚ summaries b ∧ archived_at a = archived_at b ∧ active_task a = active_task b ∧ tags a = tags b.

Definition same_answer (a b : result Conversation CoreError) : Prop :=
  match a, b with
  | Ok x, Ok y => same_conversation x y
  | Err e, Err e' => e = e'
  | _, _ => False
  end.

Section isolation.
Context `{DialectLaws} (vt : Violation → string).

Lemma spares_select_conversation v t t' i : spares v t t' → select_conversation v i t' = select_conversation v i t.
Proof.
  intros (Hc & _ & _). unfold select_conversation. destruct (t_conversations t !! i) as [r|] eqn:E, (t_conversations t' !! i) as [r'|] eqn:E'; cbn.
  - destruct (decide (cr_user r = v)) as [Hr|Hr].
    { apply Hc in E; [|done]. by assert (r' = r) as -> by congruence. }
    destruct (decide (cr_user r' = v)) as [Hr'|Hr']; [apply Hc in E'; [by assert (r' = r) as -> by congruence|done]|]. by rewrite !bool_decide_eq_false_2.
  - case_bool_decide; [|done]. apply Hc in E; [congruence|done].
  - case_bool_decide; [|done]. apply Hc in E'; [congruence|done].
  - done.
Qed.

Lemma spares_summaries v t t' i c :
  spares v t t' → t_conversations t !! i = Some c → cr_user c = v → select_summaries v i t' ≡ₚ select_summaries v i t.
Proof.
  intros (_ & _ & Hs) Hc Hv. unfold select_summaries. rewrite !sort_by_perm. apply NoDup_Permutation; [apply NoDup_filter, NoDup_map_to_list..|].
  intros [s x]. rewrite !list_elem_of_filter, !elem_of_map_to_list. cbn. split; intros [[Hu Hi] Hx]; (split; [done|]); subst i; by apply (Hs s x c).
Qed.

Lemma spares_answer v t t' i : wf t → spares v t t' → same_answer (conversation_of v i t) (conversation_of v i t').
Proof.
  intros Hw Hsp. unfold conversation_of. rewrite (spares_select_conversation v t t' i Hsp). unfold select_conversation.
  destruct (t_conversations t !! i) as [r|] eqn:Er; [|done]. cbn. case_bool_decide as Hr; [|done]. cbn.
  destruct (wf_rows _ Hw _ _ Er) as (rows & Hh & Ho). rewrite Hr in Ho.
  rewrite (select_holds t v i rows Hh Ho), (select_rows t t' v i rows Hh Ho) by (intros; by apply Hsp).
  unfold same_conversation. cbn. split_and!; try done. rewrite (spares_summaries v t t' i r Hsp Er Hr). done.
Qed.

Lemma spares_list v t t' :
  spares v t t' →
  (∀ c, length (filter (λ m, of_user v c m.2 = true) (map_to_list (t_messages t'))) =
        length (filter (λ m, of_user v c m.2 = true) (map_to_list (t_messages t)))) ∧
  filter (λ x, cr_user x.2 = v ∧ hidden_from_list (cr_tags x.2) = false) (map_to_list (t_conversations t')) ≡ₚ
  filter (λ x, cr_user x.2 = v ∧ hidden_from_list (cr_tags x.2) = false) (map_to_list (t_conversations t)).
Proof.
  intros (Hc & Hm & _). split.
  - intros c. apply Permutation_length. apply NoDup_Permutation; [apply NoDup_filter, NoDup_map_to_list..|].
    intros [j r]. rewrite !list_elem_of_filter, !elem_of_map_to_list. cbn. split; intros [Ho Hj]; (split; [done|]); (apply Hm; [by eapply of_user_user|done]).
  - apply NoDup_Permutation; [apply NoDup_filter, NoDup_map_to_list..|]. intros [j r]. rewrite !list_elem_of_filter, !elem_of_map_to_list. cbn.
    split; intros [[Hu Ht] Hj]; (split; [done|]); by apply Hc.
Qed.

(** C14. A user's work is invisible to another: whatever the other does, a
    conversation of the user's is read as before and the user's list shows the
    same conversations with the same counts. *)
Theorem another_users_work_is_invisible cl ops os u v o i d d' :
  an_adapter vt cl → Forall (op_fits ∘ snd) ops → d = run vt cl ops {| tables := no_tables; outcomes := os |} →
  u ≠ v → own_links v (tables d) → d' = perform vt cl u o d → healthy d → healthy d' →
  same_answer (store_get vt v i d).2 (store_get vt v i d').2 ∧
  ∃ l l', (store_list vt v d).2 = Ok l ∧ (store_list vt v d').2 = Ok l' ∧ l ≡ₚ l'.
Proof.
  intros Hcl Hops Hd Huv Hl Hd' Hhd Hhd'. assert (Hw : wf (tables d)) by (rewrite Hd; apply run_wf; [by apply (adapter_clears vt)|done]).
  assert (Hsp : spares v (tables d) (tables d')) by (rewrite Hd'; by apply perform_spares). split.
  - destruct (store_get_healthy vt v i d Hhd) as (? & -> & _). destruct (store_get_healthy vt v i d' Hhd') as (? & -> & _). by apply spares_answer.
  - unfold store_list. destruct (query_healthy vt (listing v) d Hhd) as (? & -> & _). destruct (query_healthy vt (listing v) d' Hhd') as (? & -> & _).
    eexists _, _. split_and!; [done..|]. destruct (spares_list v _ _ Hsp) as [Hcount Hrows]. unfold listing. rewrite !sort_by_perm, Hrows.
    apply Permutation_refl', map_ext. intros y. by rewrite Hcount.
Qed.
End isolation.

(** ** The other operations *)

Section operations.
Context `{DialectLaws} (vt : Violation → string).

(** A new conversation is read back as it was given, in a state the store can be
    in: its times as the column keeps them, and no summaries yet. *)
Theorem a_new_conversation_is_read_back cl ops os u n1 n2 n3 conv d :
  an_adapter vt cl → Forall (op_fits ∘ snd) ops → d = run vt cl ops {| tables := no_tables; outcomes := os |} → healthy d →
  fits (length (messages conv)) → fits (compacted_through conv) →
  t_conversations (tables d) !! conv_id conv = None → NoDup (map id (messages conv)) →
  (∀ m, m ∈ messages conv → t_messages (tables d) !! id m = None) →
  (∀ m s, m ∈ messages conv → summary_id m = Some s → is_Some (t_summaries (tables d) !! s)) →
  ∃ d' d'',
    store_create vt u n1 n2 n3 conv d = (d', Ok tt) ∧
    store_get vt u (conv_id conv) d' = (d'', Ok
      {| conv_id := conv_id conv; conv_title := conv_title conv; created_at := read_time (write_time n1 (created_at conv));
         updated_at := read_time (write_time n2 (updated_at conv)); messages := messages conv;
         context_summary := context_summary conv; compacted_through := compacted_through conv; summaries := [];
         archived_at := read_time ∘ write_time n3 <$> archived_at conv; active_task := active_task conv; tags := tags conv |}).
Proof.
  intros Hcl%adapter_clears Hops Hd Hhd Hfit Hfit' Hnew Hnd Hids Hsum.
  assert (Hw : wf (tables d)) by (rewrite Hd; by apply run_wf).
  assert (Hno : ∀ j r, t_messages (tables d) !! j = Some r → mr_conversation r ≠ conv_id conv).
  { intros j r Hj Hr. apply wf_conversation in Hj as [? Hj]; [|done]. congruence. }
  assert (Hh : holds (tables d) (conv_id conv) []) by (by apply holds_nil).
  assert (Hcommit : ∃ d', store_create vt u n1 n2 n3 conv d = (d', Ok tt) ∧ healthy d').
  { apply transaction_healthy; [done|]. intros d1 Hd1 Ht1.
    assert (Hin : insert_conversation (conv_id conv) (conversation_row u n1 n2 n3 conv) (tables d1) =
      (set_conversations (tables d) (<[conv_id conv := conversation_row u n1 n2 n3 conv]> (t_conversations (tables d))), Ok tt)).
    { unfold insert_conversation. by rewrite Ht1, Hnew. }
    destruct (statement_healthy vt _ d1 _ _ Hd1 Hin) as (d2 & E2 & Ht2 & Hd2).
    destruct (write_changed_healthy vt (tables d) u (conv_id conv) [] (messages conv) Hh (List.Forall_nil _) Hfit 0 d2) as (d3 & E3 & Hd3).
    - done.
    - intros m j x Hm Hj _ ->. by rewrite Hids in Hj.
    - intros m s. rewrite Ht2. by apply Hsum.
    - rewrite Ht2. apply lookup_insert_is_Some'. by left.
    - rewrite Ht2. intros j r. cbn. split; [intros Hj; left; split; [done|by eapply Hno]|].
      intros [[? _]|(i & m & _ & _ & [?|Hk])]; [done|lia|]. unfold kept in Hk. by rewrite lookup_nil in Hk.
    - done.
    - exists d3. split; [|done]. unfold then_. rewrite E2, insert_messages_write. exact E3. }
  destruct Hcommit as (d' & Ecreate & Hd'). pose proof Ecreate as Esaved.
  apply create_saved in Esaved as (_ & _ & Hc & Hs & _ & Hst); [|done..].
  destruct (store_get_healthy vt u (conv_id conv) d' Hd') as (d'' & Eget & _ & _). exists d', d''. split; [done|]. rewrite Eget.
  rewrite (conversation_of_saved (tables d) (tables d') u (conv_id conv) [] (messages conv) (conversation_row u n1 n2 n3 conv) Hh (List.Forall_nil _) Hfit);
    [|rewrite Hc; apply lookup_insert_eq|done|done].
  do 2 f_equal. unfold conversation_from, conversation_row.
  cbn [cr_user cr_title cr_created_at cr_updated_at cr_context_summary cr_compacted_through cr_archived_at cr_active_task cr_tags].
  rewrite saved_messages by (intros i x m Hx; by rewrite lookup_nil in Hx). rewrite fits_signed, read_compacted_nat, read_write_tags by done.
  assert (Hempty : select_summaries u (conv_id conv) (tables d') = []).
  { apply Permutation_nil_r. unfold select_summaries. rewrite sort_by_perm. apply Permutation_nil_r, elem_of_nil_inv. intros [s x].
    rewrite list_elem_of_filter, elem_of_map_to_list. cbn. intros [[_ Hx] Hs']. rewrite Hs in Hs'.
    apply (wf_summarized _ Hw) in Hs' as [? Hs']. congruence. }
  rewrite Hempty. f_equal. by destruct (archived_at conv).
Qed.

(** The list shows a conversation of the user's that is not hidden, once, with
    the number of messages a read gives. *)
Theorem the_list_counts_what_is_read cl ops os u i got d :
  an_adapter vt cl → Forall (op_fits ∘ snd) ops → d = run vt cl ops {| tables := no_tables; outcomes := os |} →
  conversation_of u i (tables d) = Ok got →
  (∃ r, t_conversations (tables d) !! i = Some r ∧ hidden_from_list (cr_tags r) = false) →
  ∃ e, e ∈ listing u (tables d) ∧ cs_id e = i ∧ cs_title e = conv_title got ∧ cs_message_count e = length (messages got) ∧
       cs_archived e = bool_decide (is_Some (archived_at got)) ∧ cs_tags e = tags got.
Proof.
  intros Hcl%adapter_clears Hops Hd Hgot (r & Hr & Hhid). assert (Hw : wf (tables d)) by (rewrite Hd; by apply run_wf).
  unfold conversation_of, select_conversation in Hgot. rewrite Hr in Hgot. cbn in Hgot. case_bool_decide as Hu; [|done]. cbn in Hgot.
  injection Hgot as <-. eexists. split.
  { unfold listing. apply list_elem_of_fmap. exists (i, r). split; [reflexivity|]. apply elem_of_sort_by, list_elem_of_filter.
    split; [done|]. by apply elem_of_map_to_list. }
  cbn. split_and!; try done.
  - unfold select_messages. rewrite length_map, sort_by_length. done.
  - by destruct (cr_archived_at r).
Qed.

(** A deleted conversation is gone, with its messages and its summaries. *)
Theorem a_deleted_conversation_leaves_nothing u i d d' :
  store_delete vt u i d = (d', Ok tt) →
  t_conversations (tables d') !! i = None ∧
  (∀ j r, t_messages (tables d') !! j = Some r → mr_conversation r ≠ i) ∧
  (∀ s x, t_summaries (tables d') !! s = Some x → sr_conversation x ≠ i).
Proof.
  intros (d1 & n & [Hs _]%statement_Ok & Hn)%then_Ok. unfold found in Hn. destruct n as [|n]; [done|]. injection Hn as <-.
  unfold delete_conversation in Hs. destruct (t_conversations (tables d) !! i) as [r|]; [|done]. case_bool_decide; [|done]. injection Hs as <- _. cbn.
  split_and!.
  - apply lookup_delete_eq.
  - intros j x Hj. rewrite lookup_fmap in Hj. apply fmap_Some in Hj as (y & [_ Hy]%map_lookup_filter_Some & ->). by rewrite (proj1 (proj2 (unlink_place _ y))).
  - by intros s x [_ Hx]%map_lookup_filter_Some.
Qed.

(** Archiving an archived conversation is accepted and keeps the first time. *)
Theorem the_first_archiving_stands u now i d r t0 :
  healthy d → t_conversations (tables d) !! i = Some r → cr_user r = u → cr_archived_at r = Some t0 →
  ∃ d', store_archive vt u now i d = (d', Ok tt) ∧ tables d' = tables d.
Proof.
  intros Hd Hr Hu Ht. unfold store_archive.
  assert (Hup : update_conversation u i (λ r, match cr_archived_at r with None => Some (set_archived (Some now) r) | Some _ => None end) (tables d) = (tables d, Ok 0)).
  { unfold update_conversation. by rewrite Hr, bool_decide_eq_true_2, Ht. }
  destruct (statement_healthy vt _ d _ _ Hd Hup) as (d1 & E1 & Ht1 & Hd1). unfold then_ at 1. rewrite E1. cbn [Nat.eqb].
  destruct (query_healthy vt (select_conversation u i) d1 Hd1) as (d2 & E2 & Ht2 & _). exists d2. unfold then_. rewrite E2.
  unfold select_conversation. rewrite Ht1, Hr. cbn. rewrite bool_decide_eq_true_2 by done. split; [done|congruence].
Qed.

(** A summary collapses the slots it names; expanding it frees exactly those
    that were free before, and a slot that an older summary held is free too. *)
Theorem expanding_frees_what_was_collapsed u fresh c summary lo hi d d1 d2 j r :
  store_create_summary vt u fresh c summary lo hi d = (d1, Ok fresh) → store_expand_summary vt u fresh d1 = (d2, Ok tt) →
  linked (tables d) → t_messages (tables d) !! j = Some r →
  t_messages (tables d2) !! j = Some
    (if of_user u c r && (as_signed width lo <=? mr_ordinal r)%Z && (mr_ordinal r <=? as_signed width hi)%Z then clear_summary r else r) ∧
  t_summaries (tables d2) = t_summaries (tables d).
Proof.
  intros (d0 & d3 & Ht0 & Hb & Ht3)%transaction_Ok (d5 & n & [He _]%statement_Ok & [= ->])%then_Ok Hl Hj.
  apply then_Ok in Hb as (d4 & [] & [Hin _]%statement_Ok & Hb). apply then_Ok in Hb as (d6 & [] & [Hli _]%statement_Ok & [= ->]).
  rewrite Ht3 in He. injection Hli as Hli. rewrite <- Hli in He. clear Hli. unfold insert_summary_row in Hin. rewrite Ht0 in Hin.
  destruct (t_summaries (tables d) !! fresh) eqn:Ef; [done|]. cbn in Hin. destruct (t_conversations (tables d) !! c); [|done]. injection Hin as Hin. rewrite <- Hin in He. clear Hin.
  unfold delete_summary in He. cbn in He. rewrite lookup_insert_eq in He. cbn in He. rewrite bool_decide_eq_true_2 in He by done. injection He as <- _. cbn.
  split; [|by rewrite delete_insert_id]. rewrite !lookup_fmap, Hj. cbn. f_equal.
  destruct (of_user u c r && _ && _) eqn:E; unfold unlink; cbn.
  - by rewrite bool_decide_eq_true_2.
  - destruct (mr_summary_id r) as [s|] eqn:Es; [|done]. rewrite bool_decide_eq_false_2; [done|]. intros ->.
    destruct (Hl _ _ _ Hj Es) as [? Hs]. congruence.
Qed.

(** An operation that is refused has changed nothing. *)
Theorem a_refused_operation_changes_nothing cl u n1 n2 n3 conv fresh c summary lo hi i s d d' e :
  (store_create vt u n1 n2 n3 conv d = (d', Err e) ∨ update_with vt cl u n1 conv d = (d', Err e) ∨
   (∃ x, store_create_summary vt u fresh c summary lo hi d = (d', x) ∧ x = Err e) ∨ store_delete vt u i d = (d', Err e) ∨
   store_archive vt u n1 i d = (d', Err e) ∨ store_unarchive vt u i d = (d', Err e) ∨ store_expand_summary vt u s d = (d', Err e)) →
  tables d' = tables d.
Proof.
  assert (Hone : ∀ f g, (∀ t t', f t = (t', Ok 0) → t' = t) → (∀ n d1, n ≠ 0 → (g n d1).2 = Ok tt) → (∀ n d1, tables (g n d1).1 = tables d1) →
    then_ (statement vt f) g d = (d', Err e) → tables d' = tables d).
  { intros f g Hf Hg Hg'. unfold then_. destruct (statement vt f d) as [d1 [n|x]] eqn:E.
    - apply statement_Ok in E as [E _]. intros Hn. destruct (decide (n = 0)) as [->|Hn0].
      + apply Hf in E. specialize (Hg' 0 d1). rewrite Hn in Hg'. cbn in Hg'. congruence.
      + specialize (Hg n d1 Hn0). by rewrite Hn in Hg.
    - intros [= <- _]. by apply statement_Err in E. }
  assert (Hup : ∀ i f t t', update_conversation u i f t = (t', Ok 0) → t' = t).
  { intros ?? t t'. unfold update_conversation. repeat case_match; congruence. }
  intros [E|[E|[(x & E & ->)|[E|[E|[E|E]]]]]]; try (by apply transaction_Err in E); revert E.
  - apply Hone; [|by intros [|n]|intros; apply found_tables]. intros t t'. unfold delete_conversation. repeat case_match; congruence.
  - apply Hone; [apply Hup|by intros [|n]|intros; apply archive_answer].
  - apply Hone; [apply Hup|by intros [|n]|intros; apply found_tables].
  - unfold store_expand_summary, then_. destruct (statement _ _ d) as [d1 [n|x]] eqn:E; [done|]. intros [= <- _]. by apply statement_Err in E.
Qed.
End operations.

(** ** Examples *)

Module Examples.

#[local] Instance a_chrono : Chrono := {|
  parse_from_str := λ s, if bool_decide (s = "2024-01-02 03:04:05") then Some 5%Z else None;
  format_utc := λ _, "2024-01-02 03:04:05"
|}.
#[local] Existing Instance pg_dialect.

Definition text_of (_ : Violation) : string := "constraint".
Definition empty_db : Db := {| tables := no_tables; outcomes := [] |}.
Definition msg (i c : string) : Message := Message_new i User c.
Definition trip : Conversation := set_messages (Conversation_new "c1" "Trip") [msg "m1" "one"; msg "m2" "two"; msg "m3" "three"].

(** The middle message is gone, so the last one moves up; one is added. *)
Definition shorter_trip : Conversation := set_messages trip [msg "m1" "one"; msg "m3" "three"; msg "m4" "four"].
Definition trip_ops : list (string * Op) := [("ana", OpCreate (H := pg_dialect) 0%Z 0%Z 0%Z trip)].
Definition trip_db : Db := run text_of (clear_ranged text_of) trip_ops empty_db.

Lemma trip_rows : map_Forall (λ _ x, mr_conversation x = "c1" ∧ mr_idempotency_key x = None) (t_messages (tables trip_db)).
Proof. apply (bool_decide_unpack _). vm_compute. exact I. Qed.

Lemma a_save_is_read_back_witness :
  ∃ d' d'' got, pg_update text_of "ana" 7%Z shorter_trip trip_db = (d', Ok tt) ∧
    store_get text_of "ana" "c1" d' = (d'', Ok got) ∧ messages got = messages shorter_trip.
Proof.
  destruct (a_save_is_read_back (H0 := pg_laws) text_of (clear_ranged text_of) trip_ops [] "ana" 7%Z shorter_trip trip_db
    (conversation_row (H := pg_dialect) "ana" 0%Z 0%Z 0%Z trip)) as [Hsave _].
  - by left.
  - repeat constructor.
  - reflexivity.
  - constructor.
  - done.
  - done.
  - reflexivity.
  - reflexivity.
  - apply (bool_decide_unpack _). vm_compute. exact I.
  - destruct Hsave as (d' & d'' & got & Hu & Hg & _ & Hm & _).
    + split.
      * intros m x _ Hx. by destruct (trip_rows (id m) x Hx).
      * intros m s Hm. repeat (apply elem_of_cons in Hm as [->|Hm]; [done|]). by apply elem_of_nil in Hm.
    + exists d', d'', got. split; [exact Hu|]. split; [exact Hg|]. apply Hm.
      clear Hu Hg Hm. intros m x Hin Hx. destruct (trip_rows (id m) x Hx) as [_ ->].
      repeat (apply elem_of_cons in Hin as [->|Hin]; [done|]). by apply elem_of_nil in Hin.
Defined.

Lemma another_users_work_is_invisible_witness :
  same_answer (store_get text_of "ana" "c1" trip_db).2
    (store_get text_of "ana" "c1" (perform text_of (clear_ranged text_of) "eve" (OpDelete "c1") trip_db)).2.
Proof.
  apply (another_users_work_is_invisible (H0 := pg_laws) text_of (clear_ranged text_of) trip_ops [] "eve" "ana" (OpDelete "c1") "c1").
  - by left.
  - repeat constructor.
  - reflexivity.
  - done.
  - intros j r s Hj _ Hs. exfalso. revert Hs.
    assert (Hall : map_Forall (λ _ r, mr_summary_id r = None) (t_messages (tables trip_db))) by (apply (bool_decide_unpack _); vm_compute; exact I).
    by rewrite (Hall j r Hj).
  - reflexivity.
  - constructor.
  - constructor.
Defined.

(** The key of a message that is stored already is not written: the row still
    [matches], though a re-insert would not give the same row. *)
Lemma a_changed_key_is_not_saved :
  let keyed := set_messages trip [with_key (Some "k") (msg "m1" "one")] in
  let d' := (pg_update text_of "ana" 7%Z keyed trip_db).1 in
  (pg_update text_of "ana" 7%Z keyed trip_db).2 = Ok tt ∧
  match (store_get text_of "ana" "c1" d').2 with
  | Ok got => map idempotency_key (messages got) = [None] ∧ map idempotency_key (messages keyed) = [Some "k"]
  | Err _ => False
  end.
Proof. vm_compute. done. Qed.

(** [create_summary] checks the conversation's existence, not its owner: on a
    stranger's conversation it succeeds, on one that is not there it fails. *)
Lemma a_summary_tells_a_strangers_conversation :
  (store_create_summary text_of "eve" "s1" "c1" "mine now" 0 1 trip_db).2 = Ok "s1" ∧
  (store_create_summary text_of "eve" "s1" "c2" "mine now" 0 1 trip_db).2 = Err (Storage "constraint").
Proof. vm_compute. done. Qed.

(** A turn that loaded a summary which is then expanded cannot be saved: the
    restated rows name a summary that is gone. *)
Lemma an_expanded_summary_blocks_the_save :
  let d := (store_create_summary text_of "ana" "s1" "c1" "so far" 0 1 trip_db).1 in
  match (store_get text_of "ana" "c1" d).2 with
  | Ok loaded =>
      let d := (store_expand_summary text_of "ana" "s1" d).1 in
      (pg_update text_of "ana" 7%Z loaded d).2 = Err (Storage "constraint")
  | Err _ => False
  end.
Proof. vm_compute. done. Qed.

Definition private_work : Conversation :=
  {| conv_id := "c9"; conv_title := "Subagent: lint"; created_at := EmptyString; updated_at := EmptyString; messages := [];
     context_summary := EmptyString; compacted_through := 0; summaries := []; archived_at := None; active_task := None;
     tags := [RESERVED_SUBAGENT_TAG] |}.

(** A subagent's private conversation is out of PostgreSQL's list and in
    SQLite's. *)
Lemma sqlite_lists_private_conversations `{SerdeJson} :
  listing "ana" (tables (store_create (H := pg_dialect) text_of "ana" 0%Z 0%Z 0%Z private_work empty_db).1) = [] ∧
  length (listing (H := sqlite_dialect) "ana" (tables (store_create (H := sqlite_dialect) text_of "ana" EmptyString EmptyString EmptyString private_work {| tables := no_tables; outcomes := [] |}).1)) = 1.
Proof. split; reflexivity. Qed.
End Examples.
