(* ===== verification/ConversationService.v ===== *)
(** * The conversations a client works with

    Models the operations of [ConversationService] in
    [crates/core/src/service.rs] other than the turn: creating, listing, reading,
    renaming, archiving, deleting and clearing conversations, over any
    [ConversationStore] (crates/core/src/ports/store.rs), and what they do over
    the relational stores of [ConversationAdapters].  The per-conversation lock a
    rename takes makes it one step; [now] is what the clock reads and [fresh] the
    id that is minted. *)

From S2P Require Import Prelude TaskStore Messages NegativeMemory Titles ConversationTables ConversationStores ConversationAdapters.

(** The port, for the current user. *)
Class ConversationStore (St : Type) := {
  cs_create : Conversation → St → St * result unit CoreError;
  cs_get : string → St → St * result Conversation CoreError;
  cs_list : St → St * result (list ConversationSummary) CoreError;
  cs_update : Conversation → St → St * result unit CoreError;
  cs_delete : string → St → St * result unit CoreError;
  cs_archive : string → St → St * result unit CoreError;
  cs_unarchive : string → St → St * result unit CoreError;
  cs_create_summary : string → string → string → nat → nat → St → St * result string CoreError;   (** under the id minted *)
  cs_expand_summary : string → St → St * result unit CoreError
}.

(** ** Comparisons *)

(** What a comparison has to be for a sort by it to make sense. *)
Definition good {A} (c : A → A → comparison) : Prop :=
  (∀ x y, c y x = CompOpp (c x y)) ∧ (∀ x y z, c x y = Lt → c y z = Lt → c x z = Lt) ∧ (∀ x y z, c x y = Eq → c x z = c y z).

(** [Ordering::then_with]. *)
Definition then_with {A} (c d : A → A → comparison) (x y : A) : comparison :=
  match c x y with Eq => d x y | o => o end.

Lemma good_string : good String.compare.
Proof.
  split_and!.
  - intros x y. apply String.compare_antisym.
  - intros x y z Hxy Hyz. assert (Hle : String.leb x z = true).
    { apply (string_leb_trans x y z); unfold String.leb; [by rewrite Hxy|by rewrite Hyz]. }
    unfold String.leb in Hle. destruct (String.compare x z) eqn:E; [|done..]. apply String.compare_eq_iff in E as ->.
    rewrite String.compare_antisym, Hxy in Hyz. done.
  - by intros x y z ->%String.compare_eq_iff.
Qed.

Lemma good_on {A B} (f : A → B) c : good c → good (λ x y, c (f x) (f y)).
Proof. intros (H1 & H2 & H3). split_and!; [intros; apply H1|intros x y z; apply H2|intros x y z; apply H3]. Qed.

Lemma good_flip {A} (c : A → A → comparison) : good c → good (λ x y, c y x).
Proof.
  intros (H1 & H2 & H3). split_and!; [intros; apply H1|intros x y z Ha Hb; by apply (H2 _ y)|].
  intros x y z Hxy. rewrite (H1 x z), (H1 y z). f_equal. apply H3. by rewrite H1, Hxy.
Qed.

Lemma good_then_with {A} (c d : A → A → comparison) : good c → good d → good (then_with c d).
Proof.
  intros (H1 & H2 & H3) (K1 & K2 & K3). unfold then_with. split_and!.
  - intros x y. rewrite (H1 x y). destruct (c x y); cbn; [apply K1|done..].
  - intros x y z. destruct (c x y) eqn:Exy; [|destruct (c y z) eqn:Eyz|done].
    + rewrite (H3 _ _ z Exy). destruct (c y z); [|done..]. apply K2.
    + intros _ _. assert (c x z = Lt) as ->; [|done].
      assert (c z y = Eq) as Ezy by (by rewrite H1, Eyz). rewrite (H1 z x), (H3 _ _ x Ezy), (H1 x y), Exy. done.
    + intros _ _. by rewrite (H2 x y z).
    + done.
  - intros x y z. destruct (c x y) eqn:Exy; [|done..]. rewrite (H3 _ _ z Exy). destruct (c y z); [|done..]. apply K3.
Qed.

Definition leb_of {A} (c : A → A → comparison) (x y : A) : bool := match c x y with Gt => false | _ => true end.

Lemma good_leb_total {A} (c : A → A → comparison) x y : good c → leb_of c x y = true ∨ leb_of c y x = true.
Proof. intros (H1 & _). unfold leb_of. rewrite (H1 x y). destruct (c x y); auto. Qed.

Lemma good_leb_trans {A} (c : A → A → comparison) x y z : good c → leb_of c x y = true → leb_of c y z = true → leb_of c x z = true.
Proof.
  intros (H1 & H2 & H3). unfold leb_of. destruct (c x y) eqn:Exy; [by rewrite (H3 _ _ z Exy)| |done]. intros _.
  destruct (c y z) eqn:Eyz; [|by rewrite (H2 x y z)|done]. intros _.
  assert (c z y = Eq) as Ezy by (by rewrite H1, Eyz). by rewrite (H1 z x), (H3 _ _ x Ezy), (H1 x y), Exy.
Qed.

Lemma filter_everything {A} (P : A → Prop) `{∀ x, Decision (P x)} (l : list A) : (∀ x, P x) → filter P l = l.
Proof. intros HP. induction l as [|x l IH]; [done|]. rewrite filter_cons_True by done. by f_equal. Qed.

(** ** The operations *)

Section service.
Context {St : Type} `{!ConversationStore St} (title_serialized_len : string → nat).

Definition create_conversation (fresh now title : string) (tags : list string) (s : St) : St * result Conversation CoreError :=
  match check_title_bound title_serialized_len title with
  | Err e => (s, Err e)
  | Ok _ =>
      let conv := {| conv_id := fresh; conv_title := title; created_at := now; updated_at := now; messages := []; context_summary := EmptyString;
                     compacted_through := 0; summaries := []; archived_at := None; active_task := None; tags := tags |} in
      match cs_create conv s with
      | (s, Err e) => (s, Err e)
      | (s, Ok _) => (s, Ok conv)
      end
  end.

(** Newest first, then by creation, title and id. *)
Definition listing_order : ConversationSummary → ConversationSummary → comparison :=
  then_with (λ l r, String.compare (cs_updated_at r) (cs_updated_at l))
    (then_with (λ l r, String.compare (cs_created_at r) (cs_created_at l))
      (then_with (λ l r, String.compare (cs_title l) (cs_title r)) (λ l r, String.compare (cs_id l) (cs_id r)))).

(** [cutoff_timestamp], by the clock. *)
Context (cutoff_timestamp : Z → string).

Definition shown (max_age_days : option Z) (include_archived : bool) (c : ConversationSummary) : bool :=
  (include_archived || negb (cs_archived c)) &&
  match max_age_days with
  | Some days =>
      if (0 <? days)%Z
      then negb (bool_decide (cs_updated_at c = EmptyString)) && String.leb (cutoff_timestamp days) (cs_updated_at c)
      else true
  | None => true
  end.

Definition list_conversations (max_age_days : option Z) (include_archived : bool) (s : St)
    : St * result (list ConversationSummary) CoreError :=
  match cs_list s with
  | (s, Err e) => (s, Err e)
  | (s, Ok convs) =>
      let convs := if include_archived then convs else filter (λ c, cs_archived c = false) convs in
      let convs :=
        match max_age_days with
        | Some days =>
            if (0 <? days)%Z
            then filter (λ c, negb (bool_decide (cs_updated_at c = EmptyString)) && String.leb (cutoff_timestamp days) (cs_updated_at c) = true) convs
            else convs
        | None => convs
        end in
      (s, Ok (sort_by (leb_of listing_order) convs))
  end.

Definition renamed (now title : string) (c : Conversation) : Conversation :=
  {| conv_id := conv_id c; conv_title := title; created_at := created_at c; updated_at := now; messages := messages c;
     context_summary := context_summary c; compacted_through := compacted_through c; summaries := summaries c;
     archived_at := archived_at c; active_task := active_task c; tags := tags c |}.

Definition rename_conversation (now i title : string) (s : St) : St * result unit CoreError :=
  match check_title_bound title_serialized_len title with
  | Err e => (s, Err e)
  | Ok _ =>
      match cs_get i s with
      | (s, Err e) => (s, Err e)
      | (s, Ok c) =>
          cs_update (renamed now title c) s
      end
  end.

Fixpoint delete_all (ids : list string) (deleted : Z) (s : St) : St * result Z CoreError :=
  match ids with
  | [] => (s, Ok deleted)
  | i :: ids' =>
      match cs_delete i s with
      | (s, Err e) => (s, Err e)
      | (s, Ok _) => delete_all ids' (deleted + 1) s
      end
  end.

Definition clear_all_history (s : St) : St * result Z CoreError :=
  match cs_list s with
  | (s, Err e) => (s, Err e)
  | (s, Ok convs) => delete_all (map cs_id convs) 0 s
  end.

Lemma listing_order_good : good listing_order.
Proof.
  repeat apply good_then_with; [apply (good_on cs_updated_at (λ x y, String.compare y x)), good_flip, good_string
    |apply (good_on cs_created_at (λ x y, String.compare y x)), good_flip, good_string|apply (good_on cs_title), good_string|apply (good_on cs_id), good_string].
Qed.

(** The list a client gets is the store's, less what it asked to leave out, in
    one order: newest first, then by creation, title and id. *)
Theorem the_list_is_filtered_and_ordered max_age include s s' l0 :
  cs_list s = (s', Ok l0) →
  ∃ l, list_conversations max_age include s = (s', Ok l) ∧ l ≡ₚ filter (λ c, shown max_age include c = true) l0 ∧
       sorted_by (leb_of listing_order) l.
Proof.
  intros Hl. unfold list_conversations. rewrite Hl. eexists. split; [reflexivity|]. split.
  - rewrite sort_by_perm. apply Permutation_refl'. unfold shown. destruct include.
    + destruct max_age as [days|]; [destruct (0 <? days)%Z|].
      * apply list_filter_iff. done.
      * symmetry. by apply filter_everything.
      * symmetry. by apply filter_everything.
    + destruct max_age as [days|]; [destruct (0 <? days)%Z|].
      * rewrite list_filter_filter. apply list_filter_iff. intros c. destruct (cs_archived c); cbn [orb negb andb]; (split; [intros [? ?]|intros ?]); done.
      * apply list_filter_iff. intros c. by destruct (cs_archived c).
      * apply list_filter_iff. intros c. by destruct (cs_archived c).
  - apply sort_by_sorted; intros; [apply good_leb_total, listing_order_good|by eapply good_leb_trans; [apply listing_order_good|..]].
Qed.
End service.

(** ** Over the relational stores *)

Section relational.
Context `{DialectLaws} (vt : Violation → string) (cl : Clearing) (u : string) (clock : Time) (title_serialized_len : string → nat).

(** The adapters, for [u], at a moment of the clock. *)
#[local] Instance relational_store : ConversationStore Db := {
  cs_create := store_create vt u clock clock clock;
  cs_get := store_get vt u;
  cs_list := store_list vt u;
  cs_update := update_with vt cl u clock;
  cs_delete := store_delete vt u;
  cs_archive := store_archive vt u clock;
  cs_unarchive := store_unarchive vt u;
  cs_create_summary := store_create_summary vt u;
  cs_expand_summary := store_expand_summary vt u
}.

Lemma select_summaries_same t t' i : t_summaries t' = t_summaries t → select_summaries u i t' = select_summaries u i t.
Proof. intros Hs. unfold select_summaries. by rewrite Hs. Qed.

(** The messages a read gives have ids of their own, of this conversation, and
    carry the keys and the links they are stored with. *)
Lemma loaded_messages t i rows :
  wf t → holds t i rows →
  NoDup (map id (map msg_from_row rows)) ∧
  (∀ m x, m ∈ map msg_from_row rows → t_messages t !! id m = Some x → mr_conversation x = i ∧ mr_idempotency_key x = idempotency_key m) ∧
  (∀ m s, m ∈ map msg_from_row rows → summary_id m = Some s → is_Some (t_summaries t !! s)).
Proof.
  intros Hw Hh. assert (Hat : ∀ m, m ∈ map msg_from_row rows → ∃ n x, rows !! n = Some (id m, x) ∧ m = msg_from_row (id m, x)).
  { intros m ([j x] & -> & Hx)%list_elem_of_fmap. apply list_elem_of_lookup in Hx as [n Hn]. by exists n, x. }
  split_and!.
  - rewrite map_map. apply NoDup_alt. intros n k j Hn Hk. apply list_lookup_fmap_Some in Hn as ([j1 x1] & -> & Hn), Hk as ([j2 x2] & E & Hk).
    cbn in E. subst j2. destruct (proj1 Hh _ _ _ Hn) as (H1 & _ & O1), (proj1 Hh _ _ _ Hk) as (H2 & _ & O2). assert (x1 = x2) as -> by congruence. lia.
  - intros m x (n & x' & Hn & ->)%Hat Hx. destruct (proj1 Hh _ _ _ Hn) as (Hx' & Hc & _). cbn in Hx. assert (x = x') as -> by congruence. done.
  - intros m s (n & x & Hn & ->)%Hat Hs. destruct (proj1 Hh _ _ _ Hn) as (Hx & _). by eapply wf_summary.
Qed.

(** A rename changes the title and the time of the last change, and nothing
    else: in every state the store can be in, a rename to a title within the
    bound succeeds, and the next read gives the conversation read before it
    with the new title and time. *)
Theorem a_rename_changes_only_the_title ops os now i title d got :
  an_adapter vt cl → Forall (op_fits ∘ snd) ops → d = run vt cl ops {| tables := no_tables; outcomes := os |} → healthy d →
  (store_get vt u i d).2 = Ok got → fits (length (messages got)) → fits (compacted_through got) →
  check_title_bound title_serialized_len title = Ok tt →
  ∃ d', rename_conversation title_serialized_len now i title d = (d', Ok tt) ∧
    (store_get vt u i d').2 = Ok
      {| conv_id := i; conv_title := title; created_at := created_at got; updated_at := read_time (write_time clock now);
         messages := messages got; context_summary := context_summary got; compacted_through := compacted_through got;
         summaries := summaries got; archived_at := archived_at got; active_task := active_task got; tags := tags got |}.
Proof.
  intros Hcl%adapter_clears Hops Hd Hhd Hgot Hfit Hfit' Htitle. assert (Hw : wf (tables d)) by (rewrite Hd; by apply run_wf).
  destruct (store_get_healthy vt u i d Hhd) as (d1 & Eget & Ht1 & Hd1). rewrite Eget in Hgot. cbn in Hgot.
  unfold conversation_of, select_conversation in Hgot. destruct (t_conversations (tables d) !! i) as [r|] eqn:Er; [|done]. cbn in Hgot.
  case_bool_decide as Hu; [|done]. cbn in Hgot. destruct (wf_rows _ Hw _ _ Er) as (rows & Hh & Ho). rewrite Hu in Ho.
  rewrite (select_holds (tables d) u i rows Hh Ho) in Hgot. destruct (loaded_messages (tables d) i rows Hw Hh) as (Hnd & Hids & Hsum).
  unfold rename_conversation. rewrite Htitle. cbn [cs_get cs_update relational_store]. rewrite Eget.
  assert (Hconv : conversation_of u i (tables d) = Ok got).
  { unfold conversation_of, select_conversation. rewrite Er. cbn. by rewrite bool_decide_eq_true_2, (select_holds (tables d) u i rows Hh Ho). }
  rewrite Hconv. injection Hgot as Hgot. set (conv := renamed now title got).
  assert (Hms : messages conv = map msg_from_row rows) by (unfold conv; rewrite <- Hgot; done). assert (Hi : conv_id conv = i) by (unfold conv; rewrite <- Hgot; done).
  assert (Hfit2 : fits (length (messages conv))) by exact Hfit.
  destruct (update_commits vt cl u clock conv d1 r) as (d2 & Eup & Hd2);
    [done|by rewrite Ht1|done|done|by rewrite Ht1, Hi|done|by rewrite Hms|rewrite Ht1, Hms, Hi; intros m x ??; by eapply Hids|by rewrite Ht1, Hms|].
  exists d2. split; [exact Eup|]. apply update_saved in Eup as (r' & rows' & Hr' & _ & Hh' & Ho' & Hc & Hs & _ & Hst); [|done|by rewrite Ht1|done].
  rewrite Ht1, Hi in Hr', Hh', Hc, Hst. rewrite Ht1 in Hs. assert (r' = r) as -> by congruence.
  assert (rows' = rows) as -> by (by rewrite <- (select_holds (tables d) u i rows' Hh' Ho'), <- (select_holds (tables d) u i rows Hh Ho)).
  destruct (store_get_healthy vt u i d2 Hd2) as (d3 & -> & _ & _). cbn [snd].
  rewrite (conversation_of_saved (tables d) (tables d2) u i rows (messages conv) (updated_row clock conv r) Hh Ho Hfit2);
    [|rewrite Hc; apply lookup_insert_eq|done|done].
  f_equal. unfold conversation_from. rewrite saved_messages, (select_summaries_same _ _ i Hs).
  2:{ intros k [j x] m Hx Hm Hj. rewrite Hms in Hm. destruct (proj1 Hh _ _ _ Hx) as (Hx' & _). cbn in Hj |- *. subst j.
      eapply Hids; [by eapply list_elem_of_lookup_2|done]. }
  cbn [updated_row cr_title cr_context_summary cr_compacted_through cr_active_task cr_updated_at cr_created_at cr_archived_at cr_tags].
  rewrite fits_signed, read_compacted_nat by exact Hfit'. unfold conv. cbn. rewrite <- Hgot. done.
Qed.

Lemma delete_Ok i d r :
  healthy d → t_conversations (tables d) !! i = Some r → cr_user r = u →
  ∃ d', store_delete vt u i d = (d', Ok tt) ∧ t_conversations (tables d') = delete i (t_conversations (tables d)) ∧ healthy d'.
Proof.
  intros Hd Hr Hu. destruct (delete_conversation u i (tables d)) as [t x] eqn:E. pose proof E as E'.
  unfold delete_conversation in E'. rewrite Hr, bool_decide_eq_true_2 in E' by done. injection E' as Ht Hx. subst x.
  destruct (statement_healthy vt _ d _ _ Hd E) as (d' & Es & Hts & Hd'). exists d'. unfold store_delete, then_. rewrite Es. rewrite Hts, <- Ht. done.
Qed.

Lemma delete_all_Ok ids n d :
  NoDup ids → healthy d → (∀ i, i ∈ ids → ∃ r, t_conversations (tables d) !! i = Some r ∧ cr_user r = u) →
  ∃ d', delete_all ids n d = (d', Ok (n + Z.of_nat (length ids))%Z) ∧
    ∀ i, t_conversations (tables d') !! i = if bool_decide (i ∈ ids) then None else t_conversations (tables d) !! i.
Proof.
  revert n d. induction ids as [|i ids IH]; intros n d Hnd Hd Hids; cbn [delete_all].
  { exists d. split; [do 2 f_equal; cbn; lia|]. intros i. by rewrite bool_decide_eq_false_2 by set_solver. }
  apply NoDup_cons in Hnd as [Hi Hnd]. destruct (Hids i) as (r & Hr & Hu); [set_solver|]. cbn [cs_delete relational_store].
  destruct (delete_Ok i d r Hd Hr Hu) as (d1 & -> & Hc1 & Hd1). destruct (IH (n + 1)%Z d1 Hnd Hd1) as (d2 & E2 & Hc2).
  { intros j Hj. destruct (Hids j) as (r' & Hr' & Hu'); [set_solver|]. exists r'. rewrite Hc1, lookup_delete_ne by set_solver. done. }
  exists d2. split; [rewrite E2; do 2 f_equal; cbn [length]; lia|]. intros j. rewrite Hc2, Hc1. destruct (decide (j = i)) as [->|Hne].
  - rewrite lookup_delete_eq, (bool_decide_eq_true_2 (i ∈ i :: ids)) by set_solver. by case_bool_decide.
  - rewrite lookup_delete_ne by done. rewrite (bool_decide_ext (j ∈ i :: ids) (j ∈ ids)); [done|]. set_solver.
Qed.

(** Clearing the history deletes what the list shows of the user's, all of it,
    and counts it; what the list hides and what is another user's stays. *)
Theorem clearing_deletes_what_is_listed d :
  healthy d →
  ∃ d', clear_all_history d = (d', Ok (Z.of_nat (length (listing u (tables d))))) ∧
    ∀ i r, t_conversations (tables d') !! i = Some r ↔
      t_conversations (tables d) !! i = Some r ∧ ¬ (cr_user r = u ∧ hidden_from_list (cr_tags r) = false).
Proof.
  intros Hd. unfold clear_all_history. cbn [cs_list relational_store]. unfold store_list.
  destruct (query_healthy vt (listing u) d Hd) as (d1 & -> & Ht1 & Hd1).
  set (rows := filter (λ x, cr_user x.2 = u ∧ hidden_from_list (cr_tags x.2) = false) (map_to_list (t_conversations (tables d)))).
  assert (Hids : map cs_id (listing u (tables d)) = map fst (sort_by newest_first rows)) by (unfold listing; rewrite map_map; done).
  assert (Hin : ∀ i, i ∈ map fst (sort_by newest_first rows) ↔
    ∃ r, t_conversations (tables d) !! i = Some r ∧ cr_user r = u ∧ hidden_from_list (cr_tags r) = false).
  { intros i. rewrite list_elem_of_fmap. split.
    - intros ([i' r] & -> & Hx). apply elem_of_sort_by, list_elem_of_filter in Hx as [Hx Hi%elem_of_map_to_list]. by exists r.
    - intros (r & Hi & Hx). exists (i, r). split; [done|]. apply elem_of_sort_by, list_elem_of_filter. split; [done|]. by apply elem_of_map_to_list. }
  destruct (delete_all_Ok (map fst (sort_by newest_first rows)) 0 d1) as (d2 & E2 & Hc2).
  - rewrite sort_by_perm. apply (sublist_NoDup (map fst rows) (map_to_list (t_conversations (tables d))).*1);
      [apply NoDup_fst_map_to_list|apply fmap_sublist, sublist_filter].
  - done.
  - intros i (r & Hr & Hu & _)%Hin. exists r. by rewrite Ht1.
  - exists d2. rewrite Hids, E2. split; [rewrite <- Hids, length_map; do 2 f_equal; lia|]. intros i r. rewrite Hc2, Ht1. case_bool_decide as Hi.
    + split; [done|]. intros [Hr Hno]. apply Hin in Hi as (r' & Hr' & Hx). assert (r' = r) as -> by congruence. by destruct Hno.
    + split; [|by intros [? _]]. intros Hr. split; [done|]. intros Hx. apply Hi, Hin. by exists r.
Qed.
End relational.

(** ** Examples *)

Module ServiceExamples.

#[local] Instance clock_of : Chrono := {|
  parse_from_str := λ s, if bool_decide (s = "2024-01-02 03:04:05") then Some 5%Z else None;
  format_utc := λ _, "2024-01-02 03:04:05"
|}.

Definition explain (_ : Violation) : string := "constraint".
Definition pg_for (u : string) : ConversationStore (Db (H := pg_dialect)) :=
  relational_store (H := pg_dialect) explain (clear_ranged (H := pg_dialect) explain) u 0%Z.

(** A subagent's transcript survives "clear all history": it is not listed, so it
    is not deleted, and can still be read. *)
Lemma clearing_keeps_private_transcripts :
  let private := {| conv_id := "c9"; conv_title := "Subagent: lint"; created_at := EmptyString; updated_at := EmptyString;
                    messages := [Message_new "m1" Assistant "what I found"]; context_summary := EmptyString; compacted_through := 0;
                    summaries := []; archived_at := None; active_task := None; tags := [RESERVED_SUBAGENT_TAG] |} in
  let d := (store_create (H := pg_dialect) explain "ana" 0%Z 0%Z 0%Z private {| tables := no_tables; outcomes := [] |}).1 in
  let cleared := clear_all_history (ConversationStore0 := pg_for "ana") d in
  cleared.2 = Ok 0%Z ∧
  match (store_get (H := pg_dialect) explain "ana" "c9" cleared.1).2 with
  | Ok got => map content (messages got) = ["what I found"]
  | Err _ => False
  end.
Proof. vm_compute. done. Qed.
End ServiceExamples.
