(* ===== verification/ConversationFile.v ===== *)
(** * Conversations in a file

    Models [PersistentConversationStore] of [crates/daemon/src/store.rs], the
    conversation store of a daemon without a database: every conversation in
    memory, and one JSON file rewritten whole after every change, through a
    temporary file and a rename.

    The state is the map in memory with what is on disk at the store's path and
    at the temporary one.  Each system call may fail, and a failed write may
    leave anything in the temporary file; [fs_io] lists what the calls to come
    are answered.  The derived encoding of a conversation is a parameter; the
    [Mutex] makes every operation one step.  The order of [HashMap::values] is
    [map_to_list]'s. *)

From S2P Require Import Prelude TaskStore Messages ConversationTables.

Inductive Io := Fine | Fails (error leftover : string).

Record FileStore := {
  fs_data : gmap string Conversation;
  fs_file : option string;
  fs_tmp : option string;
  fs_io : list Io
}.

Definition should_persist (c : Conversation) : bool := match messages c with [] => false | _ => true end.

Definition persistable (data : gmap string Conversation) : list Conversation :=
  filter (λ c, should_persist c = true) (map_to_list data).*2.

Definition set_data (s : FileStore) (data : gmap string Conversation) : FileStore :=
  {| fs_data := data; fs_file := fs_file s; fs_tmp := fs_tmp s; fs_io := fs_io s |}.
Definition set_disk (s : FileStore) (file tmp : option string) : FileStore :=
  {| fs_data := fs_data s; fs_file := file; fs_tmp := tmp; fs_io := fs_io s |}.

(** One system call. *)
Definition syscall (s : FileStore) : FileStore * Io :=
  match fs_io s with
  | [] => (s, Fine)
  | o :: rest => ({| fs_data := fs_data s; fs_file := fs_file s; fs_tmp := fs_tmp s; fs_io := rest |}, o)
  end.

Section store.
Context (path parent tmp_path : string) (has_parent : bool).
Context (to_string_pretty : list Conversation → result string string) (from_str : string → result (list Conversation) string).

Definition persist (s : FileStore) : FileStore * result unit CoreError :=
  match (if has_parent then syscall s else (s, Fine)) with
  | (s, Fails e _) => (s, Err (Storage ("failed creating store directory " +:+ parent +:+ ": " +:+ e)))
  | (s, Fine) =>
      match to_string_pretty (persistable (fs_data s)) with
      | Err e => (s, Err (Storage ("failed serializing conversations: " +:+ e)))
      | Ok serialized =>
          match syscall s with
          | (s, Fails e leftover) =>
              (set_disk s (fs_file s) (Some leftover), Err (Storage ("failed writing temporary store file " +:+ tmp_path +:+ ": " +:+ e)))
          | (s, Fine) =>
              let s := set_disk s (fs_file s) (Some serialized) in
              match syscall s with
              | (s, Fails e _) => (s, Err (Storage ("failed replacing store file " +:+ path +:+ ": " +:+ e)))
              | (s, Fine) => (set_disk s (fs_tmp s) None, Ok tt)
              end
          end
      end
  end.

(** A conversation of an older file gets the times it lacks; [now] is what the
    clock reads then. *)
Definition with_times (c : Conversation) (created updated : string) : Conversation :=
  {| conv_id := conv_id c; conv_title := conv_title c; created_at := created; updated_at := updated; messages := messages c;
     context_summary := context_summary c; compacted_through := compacted_through c; summaries := summaries c;
     archived_at := archived_at c; active_task := active_task c; tags := tags c |}.

Definition migrated (now : string) (c : Conversation) : Conversation * bool :=
  let created := trim (created_at c) in
  let updated := trim (updated_at c) in
  if bool_decide (created = EmptyString) && bool_decide (updated = EmptyString) then (with_times c now now, true)
  else if bool_decide (created = EmptyString) then (with_times c updated (updated_at c), true)
  else if bool_decide (updated = EmptyString) then (with_times c (created_at c) created, true)
  else (c, false).

(** The loop over the conversations of the file. *)
Fixpoint load (now : Conversation → string) (cs : list Conversation) (data : gmap string Conversation) (needs_migration : bool)
    : gmap string Conversation * bool :=
  match cs with
  | [] => (data, needs_migration)
  | c :: cs' =>
      if should_persist c
      then let '(c', m) := migrated (now c) c in load now cs' (<[conv_id c' := c']> data) (needs_migration || m)
      else load now cs' data true
  end.

(** [new], on the disk [s]; what is in memory before is not looked at. *)
Definition store_new (now : Conversation → string) (s : FileStore) : FileStore * result unit CoreError :=
  let opened :=
    match fs_file s with
    | None => (s, Ok (∅, false))
    | Some content =>
        match syscall s with
        | (s, Fails e _) => (s, Err (Storage ("failed reading store file " +:+ path +:+ ": " +:+ e)))
        | (s, Fine) =>
            if bool_decide (trim content = EmptyString) then (s, Ok (∅, false))
            else match from_str content with
                 | Err e => (s, Err (Storage ("failed parsing store file " +:+ path +:+ ": " +:+ e)))
                 | Ok cs => (s, Ok (load now cs ∅ false))
                 end
        end
    end in
  match opened with
  | (s, Err e) => (s, Err e)
  | (s, Ok (data, needs_migration)) =>
      let s := set_data s data in
      if (needs_migration : bool) then persist s else (s, Ok tt)
  end.

(** ** The port's operations *)

Definition file_create (conv : Conversation) (s : FileStore) : FileStore * result unit CoreError :=
  persist (set_data s (<[conv_id conv := conv]> (fs_data s))).

Definition file_get (i : string) (s : FileStore) : result Conversation CoreError :=
  match fs_data s !! i with Some c => Ok c | None => Err (ConversationNotFound i) end.

(** [From<&Conversation> for ConversationSummary]. *)
Definition summary_of (c : Conversation) : ConversationSummary :=
  {| cs_id := conv_id c; cs_title := conv_title c; cs_created_at := created_at c; cs_updated_at := updated_at c;
     cs_message_count := length (messages c); cs_archived := bool_decide (is_Some (archived_at c)); cs_tags := tags c |}.

Definition file_list (s : FileStore) : list ConversationSummary := map summary_of (map_to_list (fs_data s)).*2.

Definition file_update (conv : Conversation) (s : FileStore) : FileStore * result unit CoreError :=
  match fs_data s !! conv_id conv with
  | Some _ => persist (set_data s (<[conv_id conv := conv]> (fs_data s)))
  | None => (s, Err (ConversationNotFound (conv_id conv)))
  end.

Definition file_delete (i : string) (s : FileStore) : FileStore * result unit CoreError :=
  match fs_data s !! i with
  | Some _ => persist (set_data s (delete i (fs_data s)))
  | None => (s, Err (ConversationNotFound i))
  end.

Definition set_archived_at (c : Conversation) (a : option string) : Conversation :=
  {| conv_id := conv_id c; conv_title := conv_title c; created_at := created_at c; updated_at := updated_at c; messages := messages c;
     context_summary := context_summary c; compacted_through := compacted_through c; summaries := summaries c;
     archived_at := a; active_task := active_task c; tags := tags c |}.

Definition file_archive (now i : string) (s : FileStore) : FileStore * result unit CoreError :=
  match fs_data s !! i with
  | None => (s, Err (ConversationNotFound i))
  | Some c =>
      let c := match archived_at c with None => set_archived_at c (Some now) | Some _ => c end in
      persist (set_data s (<[i := c]> (fs_data s)))
  end.

Definition file_unarchive (i : string) (s : FileStore) : FileStore * result unit CoreError :=
  match fs_data s !! i with
  | None => (s, Err (ConversationNotFound i))
  | Some c => persist (set_data s (<[i := set_archived_at c None]> (fs_data s)))
  end.

Definition with_summary (x : option string) (m : Message) : Message :=
  {| id := id m; role := role m; content := content m; tool_calls := tool_calls m; tool_call_id := tool_call_id m;
     summary_id := x; idempotency_key := idempotency_key m; distilled_into := distilled_into m |}.

Definition with_summaries (c : Conversation) (ms : list Message) (ss : list MessageSummary) : Conversation :=
  {| conv_id := conv_id c; conv_title := conv_title c; created_at := created_at c; updated_at := updated_at c; messages := ms;
     context_summary := context_summary c; compacted_through := compacted_through c; summaries := ss;
     archived_at := archived_at c; active_task := active_task c; tags := tags c |}.

Definition collapse (fresh summary : string) (lo hi : nat) (c : Conversation) : Conversation :=
  with_summaries c
    (imap (λ i m, if (lo <=? i) && (i <=? hi) then with_summary (Some fresh) m else m) (messages c))
    (summaries c ++ [{| sum_id := fresh; sum_text := summary |}]).

(** [fresh] is the id [Uuid::now_v7] mints. *)
Definition file_create_summary (fresh i summary : string) (lo hi : nat) (s : FileStore) : FileStore * result string CoreError :=
  match fs_data s !! i with
  | None => (s, Err (ConversationNotFound i))
  | Some c =>
      match persist (set_data s (<[i := collapse fresh summary lo hi c]> (fs_data s))) with
      | (s, Ok _) => (s, Ok fresh)
      | (s, Err e) => (s, Err e)
      end
  end.

(** [position] and [remove] of the first summary with the id. *)
Fixpoint remove_summary (x : string) (l : list MessageSummary) : list MessageSummary :=
  match l with
  | [] => []
  | y :: l' => if bool_decide (sum_id y = x) then l' else y :: remove_summary x l'
  end.

Definition has_summary (x : string) (c : Conversation) : bool := existsb (λ y, bool_decide (sum_id y = x)) (summaries c).

Definition expand (x : string) (c : Conversation) : Conversation :=
  with_summaries c
    (map (λ m, if bool_decide (summary_id m = Some x) then with_summary None m else m) (messages c))
    (remove_summary x (summaries c)).

Definition file_expand_summary (x : string) (s : FileStore) : FileStore * result unit CoreError :=
  match List.find (λ kc, has_summary x kc.2) (map_to_list (fs_data s)) with
  | Some (k, c) => persist (set_data s (<[k := expand x c]> (fs_data s)))
  | None => (s, Ok tt)
  end.

(** ** Runs *)

Inductive FileOp :=
| FCreate (conv : Conversation)
| FUpdate (conv : Conversation)
| FDelete (i : string)
| FArchive (now i : string)
| FUnarchive (i : string)
| FSummarize (fresh i summary : string) (lo hi : nat)
| FExpand (x : string).

Definition file_do (s : FileStore) (o : FileOp) : FileStore * result unit CoreError :=
  match o with
  | FCreate conv => file_create conv s
  | FUpdate conv => file_update conv s
  | FDelete i => file_delete i s
  | FArchive now i => file_archive now i s
  | FUnarchive i => file_unarchive i s
  | FSummarize fresh i summary lo hi =>
      match file_create_summary fresh i summary lo hi s with (s, Ok _) => (s, Ok tt) | (s, Err e) => (s, Err e) end
  | FExpand x => file_expand_summary x s
  end.

Definition file_step (s : FileStore) (o : FileOp) : FileStore := (file_do s o).1.

Definition file_run (s : FileStore) (ops : list FileOp) : FileStore := foldl file_step s ops.

(** *** What persisting does *)

Lemma syscall_disk s s' o : syscall s = (s', o) → fs_data s' = fs_data s ∧ fs_file s' = fs_file s ∧ fs_tmp s' = fs_tmp s.
Proof. unfold syscall. destruct (fs_io s); by intros [= <- _]. Qed.

(** Memory is not touched; the file is the whole new text, or what it was. *)
Lemma persist_disk s s' r :
  persist s = (s', r) →
  fs_data s' = fs_data s ∧
  match r with
  | Ok _ => ∃ text, to_string_pretty (persistable (fs_data s)) = Ok text ∧ fs_file s' = Some text
  | Err _ => fs_file s' = fs_file s
  end.
Proof.
  unfold persist. destruct (if has_parent then syscall s else (s, Fine)) as [s1 o1] eqn:E1.
  assert (H1 : fs_data s1 = fs_data s ∧ fs_file s1 = fs_file s).
  { destruct has_parent; [by apply syscall_disk in E1 as (? & ? & _)|by injection E1 as <- _]. }
  destruct H1 as [Hd1 Hf1]. destruct o1; [|by intros [= <- <-]]. rewrite Hd1.
  destruct (to_string_pretty _) as [text|e]; [|by intros [= <- <-]].
  destruct (syscall s1) as [s2 o2] eqn:E2. apply syscall_disk in E2 as (Hd2 & Hf2 & _). destruct o2; [|intros [= <- <-]; cbn; by rewrite Hd2, Hd1, Hf2, Hf1].
  destruct (syscall (set_disk _ _ _)) as [s3 o3] eqn:E3. apply syscall_disk in E3 as (Hd3 & Hf3 & Ht3). cbn in Hd3, Hf3, Ht3.
  destruct o3; intros [= <- <-]; cbn; (split; [congruence|]); [|congruence]. exists text. by rewrite Ht3.
Qed.

(** Conversations are under their own ids. *)
Definition keyed (data : gmap string Conversation) : Prop := map_Forall (λ k c, conv_id c = k) data.

(** An operation rewrites the file from a memory that is keyed, or does nothing. *)
Lemma file_do_persists s o s' r :
  keyed (fs_data s) → file_do s o = (s', r) →
  (∃ data, keyed data ∧ persist (set_data s data) = (s', r)) ∨
  s' = s ∧ (r = Ok tt → ∃ x, o = FExpand x ∧ map_Forall (λ _ c, has_summary x c = false) (fs_data s)).
Proof.
  intros Hk. assert (Hins : ∀ i c, conv_id c = i → keyed (<[i := c]> (fs_data s))) by (intros; by apply map_Forall_insert_2).
  destruct o as [conv|conv|i|now i|i|fresh i summary lo hi|x]; cbn [file_do];
    unfold file_create, file_update, file_delete, file_archive, file_unarchive, file_create_summary, file_expand_summary.
  - intros E. left. eexists. split; [|exact E]. by apply Hins.
  - destruct (fs_data s !! conv_id conv); intros E; [left|right; by injection E as <- <-]. eexists. split; [|exact E]. by apply Hins.
  - destruct (fs_data s !! i); intros E; [left|right; by injection E as <- <-]. eexists. split; [|exact E]. by apply map_Forall_delete.
  - destruct (fs_data s !! i) as [c|] eqn:Ec; intros E; [left|right; by injection E as <- <-]. eexists. split; [|exact E].
    apply Hins. rewrite <- (Hk _ _ Ec). by destruct (archived_at c).
  - destruct (fs_data s !! i) as [c|] eqn:Ec; intros E; [left|right; by injection E as <- <-]. eexists. split; [|exact E].
    apply Hins. exact (Hk _ _ Ec).
  - destruct (fs_data s !! i) as [c|] eqn:Ec; [|intros [= <- <-]; by right]. intros E. left. eexists.
    split; [apply (Hins i (collapse fresh summary lo hi c)); exact (Hk _ _ Ec)|].
    destruct (persist _) as [s1 [[]|e]]; exact E.
  - destruct (List.find _ _) as [[k c]|] eqn:Ef; intros E.
    + left. eexists. split; [|exact E]. apply find_some in Ef as [Hin%list_elem_of_In%elem_of_map_to_list _]. apply Hins. exact (Hk _ _ Hin).
    + right. injection E as <- <-. split; [done|]. intros _. exists x. split; [done|]. intros k c Hc.
      apply (find_none _ _ Ef (k, c)). by apply list_elem_of_In, elem_of_map_to_list.
Qed.

Lemma file_step_keyed s o : keyed (fs_data s) → keyed (fs_data (file_step s o)).
Proof.
  intros Hk. unfold file_step. destruct (file_do s o) as [s' r] eqn:E. cbn [fst]. apply file_do_persists in E as [(data & Hd & Hp)|[-> _]]; [|done..].
  apply persist_disk in Hp as [-> _]. done.
Qed.

Lemma file_run_keyed s ops : keyed (fs_data s) → keyed (fs_data (file_run s ops)).
Proof. revert s. induction ops as [|o ops IH]; intros s Hk; [done|]. by apply IH, file_step_keyed. Qed.

Lemma file_run_snoc s ops o : file_run s (ops ++ [o]) = file_step (file_run s ops) o.
Proof. unfold file_run. by rewrite foldl_app. Qed.

(** Whatever fails, the file at the store's path is whole: what it was at the
    start, or everything that was in memory after one of the operations. *)
Theorem the_file_is_always_whole s ops :
  keyed (fs_data s) →
  fs_file (file_run s ops) = fs_file s ∨
  ∃ k text, to_string_pretty (persistable (fs_data (file_run s (take k ops)))) = Ok text ∧ fs_file (file_run s ops) = Some text.
Proof.
  intros Hk. induction ops as [|o ops IH] using rev_ind; [by left|]. rewrite file_run_snoc.
  unfold file_step at 1 2. destruct (file_do (file_run s ops) o) as [s' r] eqn:E. cbn [fst].
  assert (Hold : fs_file s' = fs_file (file_run s ops) →
    fs_file s' = fs_file s ∨ ∃ k text, to_string_pretty (persistable (fs_data (file_run s (take k (ops ++ [o]))))) = Ok text ∧ fs_file s' = Some text).
  { intros ->. destruct IH as [->|(k & text & Ht & Hf)]; [by left|right]. exists (k `min` length ops), text.
    rewrite take_app_le by lia. split; [|done]. destruct (decide (k ≤ length ops)); [by rewrite Nat.min_l by lia|].
    rewrite Nat.min_r, firstn_all by lia. by rewrite take_ge in Ht by lia. }
  pose proof E as E'. apply file_do_persists in E as [(data & _ & Hp)|[-> _]]; [|by apply Hold|by apply file_run_keyed].
  apply persist_disk in Hp as [Hd Hf]. destruct r as [[]|e]; [|by apply Hold]. destruct Hf as (text & Ht & Hf). right.
  exists (length (ops ++ [o])), text. rewrite take_ge by lia. rewrite file_run_snoc. unfold file_step. rewrite E'. cbn [fst]. by rewrite Hd.
Qed.

(** *** Starting from the file *)

Lemma migrated_id now c : conv_id (migrated now c).1 = conv_id c.
Proof. unfold migrated. by repeat case_match. Qed.

Lemma load_other now cs data b i : i ∉ map conv_id cs → (load now cs data b).1 !! i = data !! i.
Proof.
  revert data b. induction cs as [|c cs IH]; intros data b Hi; [done|]. cbn [load]. cbn [map] in Hi. apply not_elem_of_cons in Hi as [Hne Hi].
  destruct (should_persist c); [|by apply IH]. destruct (migrated (now c) c) as [c' m] eqn:Em. rewrite IH by done. apply lookup_insert_ne.
  pose proof (migrated_id (now c) c) as E. rewrite Em in E. cbn in E. congruence.
Qed.

Lemma load_lookup now cs data b c :
  NoDup (map conv_id cs) → c ∈ cs → should_persist c = true → (load now cs data b).1 !! conv_id c = Some (migrated (now c) c).1.
Proof.
  revert data b. induction cs as [|x cs IH]; intros data b; [set_solver|]. cbn [load map]. intros [Hx Hnd]%NoDup_cons [->|Hc]%elem_of_cons Hp.
  - rewrite Hp. destruct (migrated (now x) x) as [c' m] eqn:Em. rewrite load_other by done. cbn.
    pose proof (migrated_id (now x) x) as E. rewrite Em in E. cbn in E. rewrite E. apply lookup_insert_eq.
  - destruct (should_persist x); [destruct (migrated (now x) x)|]; by apply IH.
Qed.

Lemma persistable_ids data : keyed data → NoDup (map conv_id (persistable data)).
Proof.
  intros Hk. unfold persistable. eapply sublist_NoDup; [|apply fmap_sublist, sublist_filter].
  replace (conv_id <$> (map_to_list data).*2) with (map_to_list data).*1; [apply NoDup_fst_map_to_list|].
  rewrite <- list_fmap_compose. apply list_fmap_ext. intros i [k c] Hi%list_elem_of_lookup_2%elem_of_map_to_list. symmetry. exact (Hk _ _ Hi).
Qed.

Lemma elem_of_persistable data c : c ∈ persistable data ↔ should_persist c = true ∧ ∃ k, data !! k = Some c.
Proof.
  unfold persistable. rewrite list_elem_of_filter, list_elem_of_fmap. f_equiv. split.
  - intros ([k c'] & -> & Hk%elem_of_map_to_list). by exists k.
  - intros [k Hk]. exists (k, c). by rewrite elem_of_map_to_list.
Qed.

(** What a restart makes of a memory. *)
Definition reopened (now : Conversation → string) (data : gmap string Conversation) (i : string) : option Conversation :=
  c ← data !! i; if should_persist c then Some (migrated (now c) c).1 else None.

Lemma load_persistable now data i : keyed data → (load now (persistable data) ∅ false).1 !! i = reopened now data i.
Proof.
  intros Hk. unfold reopened. destruct (data !! i) as [c|] eqn:Ec; cbn.
  - assert (conv_id c = i) as Hi by exact (Hk _ _ Ec). destruct (should_persist c) eqn:Ep.
    + rewrite <- Hi. apply load_lookup; [by apply persistable_ids|by apply elem_of_persistable; split; [|exists i]|done].
    + rewrite load_other; [apply lookup_empty|]. intros (c' & Hc' & [Hp [k Hk']]%elem_of_persistable)%list_elem_of_fmap.
      pose proof (Hk _ _ Hk') as E. cbn in E. assert (k = i) as -> by congruence. congruence.
  - rewrite load_other; [apply lookup_empty|]. intros (c' & -> & [Hp [k Hk']]%elem_of_persistable)%list_elem_of_fmap.
    pose proof (Hk _ _ Hk') as E. cbn in E. subst k. congruence.
Qed.

Lemma persist_fine s : (∀ l, ∃ text, to_string_pretty l = Ok text) → fs_io s = [] → ∃ s', persist s = (s', Ok tt).
Proof.
  intros Hprint Hio. unfold persist, syscall. rewrite Hio. destruct (Hprint (persistable (fs_data s))) as [text Ht].
  destruct has_parent; rewrite Ht, ?Hio; cbn; rewrite Hio; by eexists.
Qed.

(** The encoding is read as it was written. *)
Definition codec : Prop :=
  (∀ l, ∃ text, to_string_pretty l = Ok text) ∧
  (∀ l text, to_string_pretty l = Ok text → trim text ≠ EmptyString ∧ from_str text = Ok l).

(** A change that was accepted survives a restart: the next daemon has every
    conversation that has messages, as it was in memory, with the times it
    lacked filled in, and no other. *)
Theorem an_accepted_change_survives_a_restart s ops o s' now disk :
  codec → keyed (fs_data s) → file_do (file_run s ops) o = (s', Ok tt) →
  (∀ x, o = FExpand x → ¬ map_Forall (λ _ c, has_summary x c = false) (fs_data (file_run s ops))) →
  fs_file disk = fs_file s' → fs_io disk = [] →
  ∃ s2, store_new now disk = (s2, Ok tt) ∧ ∀ i, fs_data s2 !! i = reopened now (fs_data s') i.
Proof.
  intros [Hprint Hcodec] Hk Hdo Hexp Hdisk Hio.
  apply file_do_persists in Hdo as [(data & Hkd & Hp)|[_ Hno]]; [|destruct (Hno eq_refl) as (x & -> & Hx); by destruct (Hexp x eq_refl)|by apply file_run_keyed].
  apply persist_disk in Hp as (Hd & text & Ht & Hf). cbn in Hd, Ht. destruct (Hcodec _ _ Ht) as [Htrim Hparse].
  unfold store_new. rewrite Hdisk, Hf. unfold syscall. rewrite Hio. rewrite bool_decide_eq_false_2, Hparse by done.
  pose proof (load_persistable now data) as Hload. destruct (load now (persistable data) ∅ false) as [data' b]. cbn in Hload. rewrite Hd.
  destruct b.
  - destruct (persist_fine (set_data disk data') Hprint Hio) as [s2 Hs2]. exists s2. split; [done|]. apply persist_disk in Hs2 as [-> _].
    intros i. by apply Hload.
  - eexists. split; [done|]. intros i. by apply Hload.
Qed.
End store.

(** ** Which store, and for whom

    The file has no owners, so a daemon on it must not serve several people. *)

Inductive ConversationStoreKind := Postgres | JsonFile.

Definition for_database_configured (database_configured : bool) : ConversationStoreKind :=
  if database_configured then Postgres else JsonFile.

Definition is_user_scoped (k : ConversationStoreKind) : bool := match k with Postgres => true | JsonFile => false end.

Definition label (k : ConversationStoreKind) : string := match k with Postgres => "postgres" | JsonFile => "json-file" end.

Definition TENANCY_REFUSAL : string :=
  "the remote WebSocket door is enabled and the conversation store is a single JSON file with no per-user partition, so every authenticated user would read and write every other user's conversations. Configure a database (`[database] url` in daemon.toml, or DESKTOP_ASSISTANT_DATABASE_URL), or turn the remote door off (`[transports] ws_enabled = false`, or DESKTOP_ASSISTANT_WS_ENABLED=false)".

Definition check_remote_door_store_tenancy (ws_enabled : bool) (store : ConversationStoreKind) : result unit string :=
  if negb ws_enabled || is_user_scoped store then Ok tt else Err TENANCY_REFUSAL.

(** A daemon starts with the remote door exactly on a database. *)
Lemma the_remote_door_needs_a_database ws db :
  check_remote_door_store_tenancy ws (for_database_configured db) = Ok tt ↔ (ws = true → db = true).
Proof. destruct ws, db; cbn; naive_solver. Qed.

(** ** Examples *)

Module FileExamples.

Definition chat : Conversation := set_messages (Conversation_new "c1" "Chat") [Message_new "m1" User "hi"].
Definition fresh_store (io : list Io) : FileStore := {| fs_data := ∅; fs_file := None; fs_tmp := None; fs_io := io |}.
Definition no_print (_ : list Conversation) : result string string := Ok "[]".

(** A conversation whose creation was refused, because the file could not be
    written, is read and listed all the same, and written by the next change. *)
Lemma a_refused_conversation_stays :
  let create := file_create "p" "d" "t" true no_print chat (fresh_store [Fine; Fails "disk full" "["]) in
  create.2 = Err (Storage "failed writing temporary store file t: disk full") ∧
  fs_file create.1 = None ∧ file_get "c1" create.1 = Ok chat ∧ length (file_list create.1) = 1.
Proof. vm_compute. done. Qed.

(** The private conversation of a subagent is listed. *)
Lemma the_file_store_lists_private_conversations :
  map cs_tags (file_list (file_create "p" "d" "t" true no_print
    {| conv_id := "c9"; conv_title := "Subagent: lint"; created_at := EmptyString; updated_at := EmptyString; messages := [];
       context_summary := EmptyString; compacted_through := 0; summaries := []; archived_at := None; active_task := None;
       tags := ["__subagent__"] |} (fresh_store [])).1) = [["__subagent__"]].
Proof. vm_compute. done. Qed.

(** A restart with the disk as it was left reads a conversation back. *)
Lemma a_restart_reads_the_chat :
  let print (l : list Conversation) : result string string := Ok "[chat]" in
  let s := (file_create "p" "d" "t" true print chat (fresh_store [])).1 in
  let s2 := (store_new "p" "d" "t" true print (λ _, Ok [chat]) (λ _, "2024-01-02 03:04:05")
               {| fs_data := ∅; fs_file := fs_file s; fs_tmp := None; fs_io := [] |}).1 in
  file_get "c1" s2 = Ok (with_times chat "2024-01-02 03:04:05" "2024-01-02 03:04:05").
Proof. vm_compute. done. Qed.
End FileExamples.
