(* ===== verification/StateStores.v ===== *)
(** * Durable turn state and idempotency keys

    Models the SQL adapters of two small ports of
    [crates/core/src/ports/store.rs]: [TurnStateStore]
    ([crates/storage/src/turn_state.rs] and its mirror
    [crates/storage-sqlite/src/turn_state.rs]) with the start-up sweep of
    [crates/application/src/client_tools.rs] run over it, and
    [IdempotencyKeyStore] ([crates/storage/src/idempotency_keys.rs] and its mirror
    [crates/storage-sqlite/src/idempotency_keys.rs]).  The two databases run the
    same statements.  A table is the map from its primary key to its rows; every
    statement may fail, as [outcomes] of the state tells; [u] is
    [current_user_id()].  The derived encoding of a turn's state is a
    parameter. *)

From S2P Require Import Prelude Json TaskStore ClientTools.

(** ** Turns *)

Record TurnTuple := {
  tt_user : string;
  tt_conversation : string;
  tt_status : string;
  tt_state : Value;
  tt_last_error : option string
}.

Record TurnDb := { turns : gmap string TurnTuple; turn_outcomes : list (option string) }.

Section turns.
Context (to_value : TurnStateJson (Json := Value) → result Value string) (from_value : Value → result (TurnStateJson (Json := Value)) string).

(** The answer to the next statement. *)
Definition turn_statement (d : TurnDb) : TurnDb * option string :=
  match turn_outcomes d with
  | [] => (d, None)
  | o :: rest => ({| turns := turns d; turn_outcomes := rest |}, o)
  end.

Definition set_turns (d : TurnDb) (m : gmap string TurnTuple) : TurnDb := {| turns := m; turn_outcomes := turn_outcomes d |}.

Definition row_from_db (id : string) (t : TurnTuple) : result (TurnRow (Json := Value)) CoreError :=
  match turn_from_key (tt_status t) with
  | None => Err (Storage ("unknown turn status in DB: " +:+ tt_status t +:+ " for turn " +:+ id))
  | Some status =>
      match from_value (tt_state t) with
      | Err e => Err (Storage ("malformed turn state_json for " +:+ id +:+ ": " +:+ e))
      | Ok state =>
          Ok {| turn_id := id; turn_user_id := tt_user t; turn_conversation_id := tt_conversation t; turn_status := status;
                turn_state := state; turn_last_error := tt_last_error t |}
      end
  end.

Definition sql_create_turn (row : TurnRow (Json := Value)) (d : TurnDb) : TurnDb * result unit CoreError :=
  match to_value (turn_state row) with
  | Err e => (d, Err (Storage ("serialize turn state_json: " +:+ e)))
  | Ok json =>
      match turn_statement d with
      | (d, Some e) => (d, Err (Storage e))
      | (d, None) =>
          match turns d !! turn_id row with
          | Some _ => (d, Err (Storage ("turn id already exists: " +:+ turn_id row)))
          | None =>
              (set_turns d (<[turn_id row :=
                 {| tt_user := turn_user_id row; tt_conversation := turn_conversation_id row; tt_status := turn_as_key (turn_status row);
                    tt_state := json; tt_last_error := turn_last_error row |}]> (turns d)), Ok tt)
          end
      end
  end.

Definition sql_get_turn (u id : string) (d : TurnDb) : TurnDb * result (option (TurnRow (Json := Value))) CoreError :=
  match turn_statement d with
  | (d, Some e) => (d, Err (Storage e))
  | (d, None) =>
      match turns d !! id with
      | Some t =>
          if bool_decide (tt_user t = u)
          then match row_from_db id t with Ok row => (d, Ok (Some row)) | Err e => (d, Err e) end
          else (d, Ok None)
      | None => (d, Ok None)
      end
  end.

Definition sql_update_turn (u id : string) (status : TurnStatus) (state : TurnStateJson (Json := Value)) (last_error : option string)
    (d : TurnDb) : TurnDb * result unit CoreError :=
  match to_value state with
  | Err e => (d, Err (Storage ("serialize turn state_json: " +:+ e)))
  | Ok json =>
      let missing := Err (Storage ("turn not found for current user: " +:+ id)) in
      match turn_statement d with
      | (d, Some e) => (d, Err (Storage e))
      | (d, None) =>
          match turns d !! id with
          | Some t =>
              if bool_decide (tt_user t = u)
              then (set_turns d (<[id := {| tt_user := tt_user t; tt_conversation := tt_conversation t; tt_status := turn_as_key status;
                                            tt_state := json; tt_last_error := last_error |}]> (turns d)), Ok tt)
              else (d, missing)
          | None => (d, missing)
          end
      end
  end.

(** The rows are decoded in order; the first that is not ends it. *)
Fixpoint rows_from_db (l : list (string * TurnTuple)) : result (list (TurnRow (Json := Value))) CoreError :=
  match l with
  | [] => Ok []
  | (id, t) :: l' =>
      match row_from_db id t with
      | Err e => Err e
      | Ok row => match rows_from_db l' with Ok rows => Ok (row :: rows) | Err e => Err e end
      end
  end.

Definition pending (t : TurnTuple) : bool := negb (bool_decide (tt_status t = "complete") || bool_decide (tt_status t = "failed")).

(** Of every user. *)
Definition sql_scan_non_terminal (d : TurnDb) : TurnDb * result (list (TurnRow (Json := Value))) CoreError :=
  match turn_statement d with
  | (d, Some e) => (d, Err (Storage e))
  | (d, None) => (d, rows_from_db (filter (λ x, pending x.2 = true) (map_to_list (turns d))))
  end.

(** [sweep_non_terminal_turns_on_startup] over these tables. *)
Fixpoint sql_sweep_rows (u : string) (todo : list (TurnRow (Json := Value))) (count : Z) (d : TurnDb) : TurnDb * result Z CoreError :=
  match todo with
  | [] => (d, Ok count)
  | row :: todo' =>
      match sql_update_turn u (turn_id row) Failed (turn_state row) (Some "daemon_restarted") d with
      | (d, Err e) => (d, Err e)
      | (d, Ok _) => sql_sweep_rows u todo' (sat_add u32_max count 1) d
      end
  end.

Definition sql_sweep (u : string) (d : TurnDb) : TurnDb * result Z CoreError :=
  match sql_scan_non_terminal d with
  | (d, Err e) => (d, Err e)
  | (d, Ok rows) => sql_sweep_rows u rows 0 d
  end.

Definition all_fine (d : TurnDb) : Prop := turn_outcomes d = [].

(** A turn's state is read as it was written. *)
Definition state_codec : Prop := ∀ s v, to_value s = Ok v → from_value v = Ok s.

Lemma turn_key_roundtrip s : turn_from_key (turn_as_key s) = Some s.
Proof. by destruct s. Qed.

(** A turn that was stored is read back by its own user, and by no other. *)
Theorem a_turn_is_read_back row d d' u :
  state_codec → all_fine d → sql_create_turn row d = (d', Ok tt) →
  (sql_get_turn u (turn_id row) d').2 = Ok (if bool_decide (turn_user_id row = u) then Some row else None).
Proof.
  intros Hc Hf. unfold sql_create_turn, turn_statement. rewrite Hf. destruct (to_value (turn_state row)) as [json|] eqn:Ej; [|done].
  destruct (turns d !! turn_id row); [done|]. intros [= <-]. unfold sql_get_turn, turn_statement. cbn. rewrite Hf. cbn. rewrite lookup_insert_eq. cbn.
  case_bool_decide; [|done]. unfold row_from_db. cbn. rewrite turn_key_roundtrip, (Hc _ _ Ej). by destruct row.
Qed.

(** An update is seen by the turn's own user and touches no other turn; of a
    turn that is not the caller's it changes nothing. *)
Theorem an_update_is_the_owners u id status state err d d' r :
  all_fine d → sql_update_turn u id status state err d = (d', r) →
  (∀ id', id' ≠ id → turns d' !! id' = turns d !! id') ∧
  (∀ t, turns d !! id = Some t → tt_user t ≠ u → turns d' = turns d ∧ ∃ e, r = Err e) ∧
  (state_codec → r = Ok tt → ∃ t, turns d !! id = Some t ∧ tt_user t = u ∧
     (sql_get_turn u id d').2 = Ok (Some {| turn_id := id; turn_user_id := u; turn_conversation_id := tt_conversation t; turn_status := status;
                                            turn_state := state; turn_last_error := err |})).
Proof.
  intros Hf. unfold sql_update_turn, turn_statement. rewrite Hf. destruct (to_value state) as [json|e] eqn:Ej; [|intros [= <- <-]; split_and!; [done|by eauto|done]].
  destruct (turns d !! id) as [t|] eqn:Et; [|intros [= <- <-]; by split_and!]. case_bool_decide as Hu; intros [= <- <-]; [|split_and!; [done|by eauto|done]].
  split_and!.
  - intros id' Hne. cbn. by rewrite lookup_insert_ne.
  - intros t' [= <-]. done.
  - intros Hc _. exists t. split_and!; [done..|]. unfold sql_get_turn, turn_statement. cbn. rewrite Hf. cbn. rewrite lookup_insert_eq. cbn.
    rewrite bool_decide_eq_true_2 by done. unfold row_from_db. cbn. by rewrite turn_key_roundtrip, (Hc _ _ Ej), Hu.
Qed.
End turns.

(** ** Idempotency keys *)

Record KeyDb := {
  known_conversations : gset string;
  recorded : gmap (string * string * string) (string * string);   (** (request_id, response) *)
  key_outcomes : list (option string)
}.

Section keys.
Context (foreign_key_text : string).

Definition key_statement (d : KeyDb) : KeyDb * option string :=
  match key_outcomes d with
  | [] => (d, None)
  | o :: rest => ({| known_conversations := known_conversations d; recorded := recorded d; key_outcomes := rest |}, o)
  end.

Definition sql_lookup_completed (u c k : string) (d : KeyDb) : KeyDb * result (option string) CoreError :=
  match key_statement d with
  | (d, Some e) => (d, Err (Storage e))
  | (d, None) => (d, Ok (snd <$> recorded d !! (u, c, k)))
  end.

(** The upsert. *)
Definition sql_record_response (u c k request response : string) (d : KeyDb) : KeyDb * result unit CoreError :=
  match key_statement d with
  | (d, Some e) => (d, Err (Storage e))
  | (d, None) =>
      if bool_decide (c ∈ known_conversations d)
      then ({| known_conversations := known_conversations d; recorded := <[(u, c, k) := (request, response)]> (recorded d);
               key_outcomes := key_outcomes d |}, Ok tt)
      else (d, Err (Storage foreign_key_text))
  end.

(** A reply that was recorded is the one a retry finds, the last of two wins, and
    no other user, conversation or key finds it. *)
Theorem a_recorded_reply_is_found u c k request response d d' u' c' k' :
  key_outcomes d = [] → sql_record_response u c k request response d = (d', Ok tt) →
  (sql_lookup_completed u' c' k' d').2 =
    if bool_decide ((u', c', k') = (u, c, k)) then Ok (Some response) else (sql_lookup_completed u' c' k' d).2.
Proof.
  intros Hf. unfold sql_record_response, sql_lookup_completed, key_statement. rewrite Hf. case_bool_decide; [|done]. intros [= <-]. cbn. rewrite Hf. cbn.
  case_bool_decide as E; [by rewrite E, lookup_insert_eq|by rewrite lookup_insert_ne].
Qed.
End keys.

(** ** Examples *)

Module StateExamples.
Definition to_v (s : TurnStateJson (Json := Value)) : result Value string := Ok Null.
Definition from_v (v : Value) : result (TurnStateJson (Json := Value)) string := Ok TurnStateJson_default.
Definition anas_turn : TurnRow (Json := Value) :=
  {| turn_id := "t1"; turn_user_id := "ana"; turn_conversation_id := "c1"; turn_status := PendingLlm;
     turn_state := TurnStateJson_default; turn_last_error := None |}.
Definition anas_db : TurnDb := (sql_create_turn to_v anas_turn {| turns := ∅; turn_outcomes := [] |}).1.

(** The start-up sweep runs outside any user's scope, where [current_user_id] is
    ["default"]: it scans the turns of every user, and the update of the first
    one that is another's is refused and ends it. *)
Lemma the_sweep_stops_at_a_users_turn :
  sql_sweep to_v from_v "default" anas_db = (anas_db, Err (Storage "turn not found for current user: t1")) ∧
  tt_status <$> turns anas_db !! "t1" = Some "pending_llm".
Proof. vm_compute. done. Qed.
End StateExamples.
